(* ===== verification/_CoqProject ===== *)
-Q . S2P
Prelude.v
Outcome.v
PyStruct.v
PyText.v
PyFloat.v
Json.v
PyJson.v
ReplayFormat.v
ReplayCodec.v
ReplayWriter.v
ReplayDocument.v
ReplayEncode.v
ReplayRecorder.v
ReplayText.v
ActorStore.v
ActorRefine.v
ReplayTool.v
ToolTheorems.v
SimPending.v
SimModels.v
SimTheorems.v
SimGrid.v
ToolExamples.v
PyWire.v
LobbyCodec.v
Lobby.v
LobbyTheorems.v
LobbyRefine.v
Threads.v
SpatialCodec.v
Replication.v
Spatial.v
SpatialTheorems.v
SpatialInvariant.v
SpatialWindow.v
SimFacade.v
SpatialExamples.v
PyArith.v
Correlator.v
GapLedger.v
LedgerTheorems.v
ServerControl.v
ServerControlTheorems.v
Roster.v
RosterTheorems.v
Proto.v
ProtoTheorems.v
CWords.v
RingBuffer.v
NetConn.v
NetTheorems.v
Aoi.v
AoiTables.v
AoiTheorems.v
HttpParser.v
ControlServer.v
ControlTheorems.v
ControlWire.v
NetExamples.v
ClientRing.v
ClientCore.v
ClientTheorems.v
AgentControl.v
AgentTheorems.v
AgentEngine.v
Evidence.v
EvidenceTheorems.v
AgentInbound.v
AgentInboundTheorems.v
AgentStream.v
Scheduling.v
ConnectionExamples.v
Depth.v
Breadth.v
CensusTheorems.v
DepthTheorems.v
Orchestrator.v
OrchestratorTheorems.v
HarnessExamples.v
