(* ===== verification/Prelude.v ===== *)
(** * kith: a verification library

    kith is a game-server framework: C modules behind Python facades, example
    servers written against them, a deterministic replay facility and a set of
    agent tools.  This library translates parts of it into Rocq functions and
    proves what they promise.  Paths below are relative to [src/].

    ** The program's parts and where they are modelled

    - _Replay format_, [examples/_common/replay_format.py]: [ReplayFormat]
      (records, writer, reader, encoder, differ).  The writer is a state
      machine over its byte stream; the reader a function from bytes.
      [ReplayCodec], [ReplayWriter], [ReplayDocument] and [ReplayEncode] hold
      the proofs.
    - _Replay recorder_, [examples/_common/replay_recorder.py]:
      [ReplayRecorder].  It drives the writer at tick boundaries.
    - _Replay tool_, [tools/replay.py]: [ReplayText] (text records),
      [ActorStore] (the dense actor array and the hash), [ReplayTool] (the tick
      loop and the four modes); [PyStruct] has the structure layout of
      [ctypes].  [ActorRefine] and [ToolTheorems] hold the proofs.
    - _Simulation models_, [src/sim/]: [SimPending] (the pending-input table),
      [SimModels] (physics, free2d, tile2d, the registry), [SimTheorems],
      [SimGrid].  The replay tool is proved against the interface
      these discharge.  [SimFacade] is the Python side ([python/kith/sim.py],
      [python/kith/exceptions.py]).
    - _Lobby server_, [examples/lobby/]: [LobbyCodec], [Lobby] (state and
      handlers), [LobbyTheorems], [LobbyRefine].
    - _Spatial server_, [examples/spatial/handlers.py]: [SpatialCodec],
      [Spatial] (state, atomic operations, handlers), [SpatialTheorems],
      [SpatialInvariant], [SpatialWindow].  [Threads] gives
      programs with locks and pools of them.  [Replication] models the records
      its clients decode ([examples/spatial/client.py]).
    - _Agent tools_, [tools/agent/]: [Correlator] (event correlation),
      [GapLedger] and [LedgerTheorems] (stall analysis), [Orchestrator] and
      [OrchestratorTheorems] (captures of a cohort, waits, histories followed
      into the correlator).
    - _Load harness_, [tools/agent/_load_harness/]: [Depth] and
      [DepthTheorems] (echoes of a client's inputs, ratios, the histogram),
      [Breadth] and [CensusTheorems] (bindings, isolation,
      the census of a run).  They read the clients through the interface
      [Depth.EvidenceReader], which a capture implements.
    - _Control plane_: [ServerControl] and [ServerControlTheorems] (the HTTP
      client of [python/kith/_agent/server_control.py]), [Roster] and
      [RosterTheorems] (the paged routes of [examples/embedded/server.py], the
      path match of [src/control/router.c], and the harness's readers).
    - _Control server_, [src/control/]: [HttpParser] (requests, and that they
      are parsed exactly), [ControlServer] (responses, routes, the event bus,
      connections, worker tasks, event streams), [ControlTheorems].
      [ControlWire] joins it to the client of [ServerControl].
    - _Network_, [src/net/]: [RingBuffer] (the byte ring of [ringbuf.c]),
      [NetConn] (reading, the output queue and the connection table of
      [conn.c] and [net.c]), [NetTheorems].  [CWords] has the machine words.
    - _Area of interest_, [src/aoi/]: [Aoi] (the index and its queries),
      [AoiTables] (probing in the two hash tables), [AoiTheorems].
    - _Wire protocol and client engine in C_, [src/proto/] and
      [src/client/]: [Proto] and [ProtoTheorems] (type registry, frame encoder
      and decoder), [ClientRing] (the outbound and the event ring), [ClientCore]
      and [ClientTheorems] (bootstrap, keepalive, reconnect schedule, commands).
    - _Headless client_, [python/kith/_agent/]: [AgentControl] and
      [AgentTheorems] (the control plane over IPC and HTTP, against an
      interface of the engine), [AgentEngine] (the C engine implements the
      interface), [Evidence] and [EvidenceTheorems] (retained frames and their
      windows), [AgentInbound], [AgentInboundTheorems] and [AgentStream]
      (construction, received bytes, timers, connections), [Scheduling] (the
      shared ticker and sweeper).

    [Prelude] and [Outcome] carry the monads, orders and bounds every file
    uses; [PyStruct], [PyText], [PyFloat], [PyJson], [PyWire] and [PyArith]
    model what the sources use of Python's own library; [Json] states
    what the replay format needs of a JSON codec.  The [...Examples] files
    evaluate the definitions and apply the theorems at concrete inputs.

    ** Correspondence

    A definition has the name of the function it translates where the name is
    free; a method that mutates an object is a function in the monad [M] over a
    record of its fields, an exception a value of [exn], an f-string the list
    of its pieces.  A Python [int] is a [Z]; C integers wrap where the code
    can wrap them; a [float] is a binary64 number with correct rounding.
    A method that holds one lock for its whole body is one atomic step (lobby,
    recorder); the spatial handlers take and release several locks and are
    programs of atomic steps run by a pool of threads.  The headless client
    runs on one event loop: each callback, and each stretch of a coroutine
    between two awaits, is one function, and a run is a sequence of them.  So
    is a run of the control server: readiness, worker completions, posted
    tasks and publications in any order.  A system call in C takes the next
    result of a given script; an allocation is a given function or a flag.

    ** What the theorems show

    - _Refinement_: the writer against an abstract session, the recorder
      against an abstract recording, the replay against a finite map of actors
      (for a library with the tool's structure layout),
      the pending table against a finite map, the lobby, for sessions of the kind
      its handlers read, against its
      specification, the correlator against a flat list of events, the
      engine's rings against plain lists, a captured cohort against a fixed
      reader, the byte ring against a bounded queue, the connection table
      against a bounded set, the spatial index against a finite map.
    - _Round trips and exactness_: documents, transcoding, text records, the
      payload codecs, the differ, the iterators over replication records, the
      wire frames; a submitted command arrives as the frame a peer decodes, and
      a received stream gives the same events however it is cut into reads and
      whichever of the two parsers takes a frame.  Requests over lost connections
      get their replies in order, paged tables are read whole, histories are
      followed without repetition.  Frames queued on one connection arrive at
      another, a request of the Python client reaches its route in the C server
      and the answer comes back, event streams carry every event once, and
      queries of the spatial index visit what meets the region.
    - _Measurements_: isolation is the geometry it names, the census counts each
      client in one class and adds up over instances, certified losses and the
      histogram of echoes are what the decoded records say.
    - _Concurrency_: under every interleaving the lobby's tables stay
      consistent; each lock of the spatial server guards consistent data
      whenever it is free, and its threads neither deadlock nor run forever.
    - _Invariants_: every sequence of calls keeps the engine, and every
      sequence of callbacks the headless client, consistent; the evidence
      window reports exactly the frames it claims to.
    - _Safety and progress in C_: a worker's buffers outlive its connection, open
      sockets are watched for input, streams whose sockets take whole lines are
      sent all they are owed, and a spatial query ends when its region does
      not reach the last cell of an axis, beyond which its loop counter
      overflows.
    - _Errors_: what the reader, the text parser, the tool and the client's
      dispatch can raise, on arbitrary input.
    - _Numbers_: physics never overflows, velocities converge, tile actors stay
      clear of walls, percentiles and clusters are what they are named after, the
      reconnect delay doubles up to its limit.

    ** Bounds

    Loops that are not structural carry fuel that provably suffices: the record
    reader one unit per byte, the JSON scanner two per character, the probing
    of the pending table its size, the client's drain one turn per queued frame
    and one buffer doubling per missing byte, the line loops and the inbound
    loop one turn per byte, the paged readers one turn per page, the header
    scans one turn per byte, frame delivery one turn per buffered byte, the
    doubling of sizes one turn per bit.  A loop of the spatial index over one
    axis takes at most [2 ^ 32] turns.
    Running out is the exception [OutOfFuel] in the models of Python code and
    [None] in those of C code; the theorems exclude both.

    ** Assumptions

    - The replay theorems take the simulation library to act on the structure
      layout the tool declares; the library's own layout has one
      field more ([ToolTheorems.actor_layouts_differ]), so they say nothing of
      a replay with the library as it is.
    - Allocation and locking succeed in C, pointers are not null, and structures
      carry the declared size and version, except where a failing allocation or
      the structure is an argument; adding a new socket to the reactor and
      posting to it succeed, while adding one that is watched already fails,
      so that the control server never waits for a socket to become
      writable ([ControlTheorems.sockets_input_only]); the
      bootstrap's and the frame handler's callbacks answer without calling the
      client; a signed overflow in the physics is taken to wrap, and the bounds
      theorem shows it does not occur for the configurations it covers; one in
      the loops of the spatial index has no result.
    - Recursion depth and memory of the Python interpreter are not limited.
    - A control connection is the bytes its peer sends and how it ends; a
      control plane delivers what its routes respond while the tables it serves
      do not change; the identity of an object that is held is not reused.
    - What the gateway, the sessions, the recorder hook and a socket's drain
      answer is an arbitrary function; so are the readings of the clock, within
      64 bits, and the size of the event loop's write buffer.  Writes to a
      transport or a peer do not raise.

    ** Not modelled

    The gateway, reactor, worker, server, database, coordinator, fabric and
    state modules in C; of the network and the control server listening,
    connecting, reference counts, frame pools and shutdown; the artifact store
    and the native core of the spatial example; the Python facades and generated
    bindings beyond what is named above; the servers, tasks and cross-thread
    submission of the headless client; start-up code, the visual demo's drawing, the
    parts of the load harness, the orchestrator and other tools that drive live
    processes or render reports, and the repository's checks.  They
    are input and output, system calls, generated declarations, or C code that
    the modelled parts meet only through the interfaces named here.  In the
    modelled parts: argument parsing, the rendering of reports and replies to
    text, and the branches of the spatial handlers that call the native core. *)

From stdpp Require Export base list gmap strings.
From Stdlib Require Export ZArith Lia Strings.Byte.

#[local] Open Scope Z_scope.
#[export] Set Warnings "-clear-no-such-hyp".

(** ** Python values shared by every component

    A Python [str] is the list of its code points, [bytes] is a list of
    bytes.  An f-string is kept as the list of its pieces, so that an
    exception carries exactly the values the source interpolates. *)

Abbreviation byte := Byte.byte.
Abbreviation bytes := (list Byte.byte).
Abbreviation pystr := (list Z).

(** The [str] denoted by an ASCII literal of the source. *)
Fixpoint str (s : string) : pystr :=
  match s with
  | EmptyString => []
  | String c s => Z.of_N (Ascii.N_of_ascii c) :: str s
  end.

(** One piece of an f-string: literal text, an interpolated integer or
    list of integers, an integer under a hexadecimal format, an interpolated [str], and a value
    under the [!r] conversion. *)
Inductive piece :=
  | Lit (s : string)
  | Num (z : Z)
  | Nums (zs : list Z)
  | Hex (width : nat) (z : Z)
  | Txt (s : pystr)
  | ReprStr (s : pystr)
  | ReprBytes (b : bytes).

Abbreviation fstr := (list piece).

(** The subclasses of [kith.KithError]. *)
Inductive kith_family := FBase | FConfig | FNetwork | FProtocol | FState | FNotFound.

(** The exceptions the modelled code raises or lets through. *)
Inductive exn :=
  | ValueError (msg : fstr)
  | StructError
  | IndexError
  | UnicodeDecodeError
  | UnicodeEncodeError
  | JSONDecodeError
  | ReplayFormatError (msg : fstr)
  | RecordError (msg : fstr)
  | KithSimError (msg : fstr)
  | AssertionError (msg : fstr)
  | OSError
  | ZeroDivisionError
  | OverflowError
  | KeyError
  | AttributeError
  | ConnectionResetError
  | IncompleteReadError
  | KithError (family : kith_family) (code : Z) (context : fstr)
  | KithClientError (code : Z) (context : fstr)
  | RuntimeError (msg : fstr)
  | TypeError
  | ServerControlError (msg : fstr)
  | OutOfFuel.

(** [except ValueError] also catches the subclasses that occur here. *)
Definition is_value_error (e : exn) : bool :=
  match e with
  | ValueError _ | UnicodeDecodeError | UnicodeEncodeError | JSONDecodeError => true
  | _ => false
  end.

(** ** The error monad *)

Inductive result (A : Type) :=
  | Ok (a : A)
  | Err (e : exn).
Arguments Ok {A} a.
Arguments Err {A} e.

#[global] Instance result_ret : MRet result := @Ok.
#[global] Instance result_bind : MBind result := λ A B f r,
  match r with Ok a => f a | Err e => Err e end.
#[global] Instance result_fmap : FMap result := λ A B f r,
  match r with Ok a => Ok (f a) | Err e => Err e end.

Definition is_ok {A} (r : result A) : bool :=
  match r with Ok _ => true | Err _ => false end.

(** [if bad: raise e] *)
Definition raise_if (bad : bool) (e : exn) : result unit :=
  if bad then Err e else Ok tt.

Lemma Ok_inj {A} (a b : A) : Ok a = Ok b → a = b.
Proof. by intros [=]. Qed.

Lemma Err_inj {A} e e' : @Err A e = Err e' → e = e'.
Proof. by intros [=]. Qed.

Lemma bind_Ok {A B} (f : A → result B) (r : result A) b :
  (r ≫= f) = Ok b ↔ ∃ a, r = Ok a ∧ f a = Ok b.
Proof. destruct r; cbn; (split; [try done; eauto|intros (?&[=]&?); by subst]). Qed.

Lemma bind_Err {A B} (f : A → result B) (r : result A) e :
  (r ≫= f) = Err e ↔ r = Err e ∨ ∃ a, r = Ok a ∧ f a = Err e.
Proof.
  destruct r as [a|e']; cbn; split.
  - intros Hf. right. by exists a.
  - intros [[=]|(? & [= <-] & ?)]. done.
  - intros [= ->]. by left.
  - by intros [[= ->]|(? & [=] & _)].
Qed.

Lemma raise_if_Ok c e u : raise_if c e = Ok u ↔ c = false.
Proof. by destruct c, u. Qed.

Lemma raise_if_Err c e e' : raise_if c e = Err e' ↔ c = true ∧ e = e'.
Proof. destruct c; cbn; (split; [by intros [= <-]|by intros [[=] ->]]). Qed.

(** ** State and exceptions

    A method that mutates its object and may raise is a state transformer
    whose state survives the exception: what was written before a [raise]
    stays written, as in Python. *)

Definition M (S A : Type) : Type := S → S * result A.

#[global] Instance M_ret {S} : MRet (M S) := λ A a s, (s, Ok a).
#[global] Instance M_bind {S} : MBind (M S) := λ A B f m s,
  match m s with
  | (s, Ok a) => f a s
  | (s, Err e) => (s, Err e)
  end.

Definition get {S} : M S S := λ s, (s, Ok s).
Definition modify {S} (f : S → S) : M S unit := λ s, (f s, Ok tt).
Definition lift {S A} (r : result A) : M S A := λ s, (s, r).
Definition raise {S A} (e : exn) : M S A := λ s, (s, Err e).
Definition guard {S} (bad : bool) (e : exn) : M S unit := lift (raise_if bad e).

(** [for x in l: body(x)] *)
Fixpoint for_each {S A} (l : list A) (body : A → M S unit) : M S unit :=
  match l with
  | [] => mret ()
  | x :: l => body x;; for_each l body
  end.

Lemma M_bind_ext {S A B} (m m' : M S A) (f g : A → M S B) s :
  (∀ s, m s = m' s) → (∀ a s, f a s = g a s) → (m ≫= f) s = (m' ≫= g) s.
Proof.
  intros Hm Hf. unfold mbind, M_bind. rewrite Hm. by destruct (m' s) as [? [?|?]].
Qed.

Lemma bind_run {S A B} (m : M S A) (k : A → M S B) s :
  (m ≫= k) s = match m s with (s', Ok a) => k a s' | (s', Err e) => (s', Err e) end.
Proof. done. Qed.

Lemma bind_lift {S A B} (r : result A) (k : A → M S B) s :
  (lift r ≫= k) s = match r with Ok a => k a s | Err e => (s, Err e) end.
Proof. by destruct r. Qed.

Lemma bind_get {S B} (k : S → M S B) s : (get ≫= k) s = k s s.
Proof. done. Qed.

Lemma bind_ret {S A B} (a : A) (k : A → M S B) s : (mret a ≫= k) s = k a s.
Proof. done. Qed.

Lemma guard_false {S A} e (m : M S A) s : (guard false e;; m) s = m s.
Proof. done. Qed.

(** ** Tactics *)

(** An equation between closed terms, decided by evaluation. *)
Ltac evaluates := lazymatch goal with |- ?a = ?b => vm_cast_no_check (@eq_refl _ b) end.

(** Undo one monadic layer of a hypothesis about a computation's result. *)
Ltac inv_result :=
  repeat match goal with
  | H : Ok _ = Ok _ |- _ => apply Ok_inj in H; try subst
  | H : Err _ = Err _ |- _ => apply Err_inj in H; try subst
  | H : (_, _) = (_, _) |- _ => apply pair_equal_spec in H as [? ?]; try subst
  | H : Ok _ = Err _ |- _ => discriminate H
  | H : Err _ = Ok _ |- _ => discriminate H
  | H : mret _ = _ |- _ => unfold mret, result_ret in H
  | H : (_ ≫= _) = Ok _ |- _ =>
      let x := fresh "x" in let Hx := fresh "Hx" in
      apply bind_Ok in H as (x & Hx & H)
  | H : raise_if _ _ = Ok _ |- _ => apply raise_if_Ok in H
  | H : raise_if _ _ = Err _ |- _ => apply raise_if_Err in H as [H <-]
  end.

(** Turn boolean tests in hypotheses into propositions. *)
Ltac bool_hyps :=
  repeat match goal with
  | H : (_ && _)%bool = true |- _ => apply andb_true_iff in H as [? ?]
  | H : (_ || _)%bool = false |- _ => apply orb_false_iff in H as [? ?]
  | H : negb _ = true |- _ => apply negb_true_iff in H
  | H : negb _ = false |- _ => apply negb_false_iff in H
  | H : (_ =? _) = true |- _ => apply Z.eqb_eq in H
  | H : (_ =? _) = false |- _ => apply Z.eqb_neq in H
  | H : (_ <? _) = true |- _ => apply Z.ltb_lt in H
  | H : (_ <? _) = false |- _ => apply Z.ltb_ge in H
  | H : (_ <=? _) = true |- _ => apply Z.leb_le in H
  | H : (_ <=? _) = false |- _ => apply Z.leb_gt in H
  | H : bool_decide _ = true |- _ => apply bool_decide_eq_true in H
  | H : bool_decide _ = false |- _ => apply bool_decide_eq_false in H
  end.

Create HintDb kith.

(** ** Total orders and Python's [sorted]

    [sorted(xs, key=f)] is a stable sort.  It is modelled by insertion from
    the right, each element going before the first one whose key is not
    smaller, which is the stable order. *)

Class LebOrder (K : Type) := {
  leb : K → K → bool;
  leb_total a b : leb a b = true ∨ leb b a = true;
  leb_trans a b c : leb a b = true → leb b c = true → leb a c = true;
  leb_antisym a b : leb a b = true → leb b a = true → a = b;
}.

(** The strict comparison [a < b] of the same order. *)
Definition ltb {K} `{LebOrder K} (a b : K) : bool := negb (leb b a).

Lemma leb_refl {K} `{LebOrder K} a : leb a a = true.
Proof. by destruct (leb_total a a). Qed.

Lemma ltb_leb {K} `{LebOrder K} a b : ltb a b = true → leb a b = true.
Proof. unfold ltb. destruct (leb_total a b), (leb b a); naive_solver. Qed.

Lemma ltb_false {K} `{LebOrder K} a b : ltb a b = false ↔ leb b a = true.
Proof. unfold ltb. by rewrite negb_false_iff. Qed.

Lemma ltb_irrefl {K} `{LebOrder K} a : ltb a a = false.
Proof. by rewrite ltb_false, leb_refl. Qed.

Lemma ltb_leb_trans {K} `{LebOrder K} a b c :
  ltb a b = true → leb b c = true → ltb a c = true.
Proof.
  unfold ltb. rewrite !negb_true_iff, <-!not_true_iff_false.
  intros Hab Hbc Hca. apply Hab. by eapply leb_trans.
Qed.

Lemma ltb_trans {K} `{LebOrder K} a b c :
  ltb a b = true → ltb b c = true → ltb a c = true.
Proof. intros Hab Hbc. by eapply ltb_leb_trans, ltb_leb. Qed.

#[global] Program Instance leb_Z : LebOrder Z := {| leb := Z.leb |}.
Next Obligation. intros a b. destruct (Z.leb_spec a b), (Z.leb_spec b a); lia. Qed.
Next Obligation. intros a b c ?%Z.leb_le ?%Z.leb_le. apply Z.leb_le. lia. Qed.
Next Obligation. intros a b ?%Z.leb_le ?%Z.leb_le. lia. Qed.

Lemma ltb_Z a b : ltb a b = (a <? b).
Proof. unfold ltb. cbn. by rewrite Z.ltb_antisym. Qed.

(** Tuples compare lexicographically. *)
#[global] Program Instance leb_prod {A B} `{LebOrder A, LebOrder B} : LebOrder (A * B) :=
  {| leb p q := if leb (fst q) (fst p) then leb (fst p) (fst q) && leb (snd p) (snd q)
                else true |}.
Next Obligation.
  intros A B HA HB [a b] [a' b']; cbn.
  destruct (leb a' a) eqn:E1, (leb a a') eqn:E2; cbn; auto.
  apply leb_total.
Qed.
Next Obligation.
  intros A B HA HB [a1 b1] [a2 b2] [a3 b3]; cbn.
  destruct (leb a2 a1) eqn:E21, (leb a3 a2) eqn:E32, (leb a3 a1) eqn:E31;
    cbn; rewrite ?andb_true_iff; intros Hp Hq; auto; destruct_and?.
  - split; eapply leb_trans; eauto.
  - assert (leb a3 a2 = true) by (eapply leb_trans; eauto). congruence.
  - assert (leb a2 a1 = true) by (eapply leb_trans; eauto). congruence.
  - assert (leb a2 a3 = true) by (destruct (leb_total a2 a3); congruence).
    assert (leb a2 a1 = true) by (eapply leb_trans; eauto). congruence.
Qed.
Next Obligation.
  intros A B HA HB [a b] [a' b']; cbn.
  destruct (leb a' a) eqn:E1, (leb a a') eqn:E2; cbn; intros Hp Hq; try done.
  - f_equal; by apply leb_antisym.
  - destruct (leb_total a a'); congruence.
Qed.

Section PySorted.
Context {A K : Type} `{LebOrder K} (key : A → K).

Fixpoint insert_by (x : A) (l : list A) : list A :=
  match l with
  | [] => [x]
  | y :: l' => if leb (key x) (key y) then x :: l else y :: insert_by x l'
  end.

Definition sorted_by (l : list A) : list A := foldr insert_by [] l.

(** The keys of [l] ascend (not necessarily strictly). *)
Fixpoint ascending (l : list A) : bool :=
  match l with
  | x :: (y :: _) as l' => leb (key x) (key y) && ascending l'
  | _ => true
  end.

Definition key_le (a b : A) : Prop := leb (key a) (key b) = true.

Lemma ascending_cons x l :
  ascending (x :: l) = true ↔ Forall (key_le x) l ∧ ascending l = true.
Proof.
  revert x. induction l as [|y l IH]; intros x; [by repeat split|].
  change (leb (key x) (key y) && ascending (y :: l) = true ↔
          Forall (key_le x) (y :: l) ∧ ascending (y :: l) = true).
  rewrite andb_true_iff, Forall_cons, IH. split; [|tauto].
  intros (Hxy & Hy & Hl). repeat split; auto.
  eapply Forall_impl; [exact Hy|]. intros z Hz. by eapply leb_trans.
Qed.

Lemma insert_by_perm x l : insert_by x l ≡ₚ x :: l.
Proof.
  induction l as [|y l IH]; cbn; [done|].
  destruct (leb _ _); [done|]. rewrite IH. apply Permutation_swap.
Qed.

Lemma insert_by_ascending x l :
  ascending l = true → ascending (insert_by x l) = true.
Proof.
  induction l as [|y l IH]; [done|]. intros Hl. cbn [insert_by].
  destruct (leb (key x) (key y)) eqn:E.
  - apply ascending_cons. split; [|done]. constructor; [done|].
    apply ascending_cons in Hl as [Hy _].
    eapply Forall_impl; [exact Hy|]. intros z Hz. by eapply leb_trans.
  - apply ascending_cons in Hl as [Hy Hl]. apply ascending_cons.
    split; [|auto]. rewrite insert_by_perm. constructor; [|done].
    unfold key_le. destruct (leb_total (key y) (key x)); congruence.
Qed.

Lemma insert_by_head x l :
  Forall (key_le x) l → insert_by x l = x :: l.
Proof. by inversion 1 as [|y l' Hy]; subst; cbn; rewrite ?Hy. Qed.

Lemma sorted_by_cons x l : sorted_by (x :: l) = insert_by x (sorted_by l).
Proof. done. Qed.

Lemma sorted_by_perm l : sorted_by l ≡ₚ l.
Proof. induction l; [done|]. by rewrite sorted_by_cons, insert_by_perm, IHl. Qed.

Lemma sorted_by_ascending l : ascending (sorted_by l) = true.
Proof. induction l; cbn; [done|]. by apply insert_by_ascending. Qed.

Lemma sorted_by_id l : ascending l = true → sorted_by l = l.
Proof.
  induction l as [|x l IH]; [done|]. intros [Hx Hl]%ascending_cons.
  rewrite sorted_by_cons, IH by done. by apply insert_by_head.
Qed.

Lemma length_sorted_by l : length (sorted_by l) = length l.
Proof. by rewrite sorted_by_perm. Qed.

Lemma sorted_by_nil l : sorted_by l = [] ↔ l = [].
Proof.
  split; [|by intros ->]. intros E. pose proof (length_sorted_by l) as Hl.
  rewrite E in Hl. by destruct l.
Qed.

(** An ascending list whose keys determine its elements is the only
    ascending list with those elements. *)
Lemma ascending_perm_unique l l' :
  (∀ a b, a ∈ l → b ∈ l → key a = key b → a = b) →
  l ≡ₚ l' → ascending l = true → ascending l' = true → l = l'.
Proof.
  revert l'. induction l as [|x l IH]; intros l' Hinj Hp Hl Hl'.
  { by apply Permutation_nil_l in Hp. }
  destruct l' as [|y l']; [by apply Permutation_nil_r in Hp|].
  apply ascending_cons in Hl as [Hx Hl]. apply ascending_cons in Hl' as [Hy Hl'].
  assert (x = y) as ->.
  { assert (y ∈ x :: l) as [?|Hyl]%elem_of_cons by (rewrite Hp; set_solver); [done|].
    assert (x ∈ y :: l') as [?|Hxl]%elem_of_cons by (rewrite <-Hp; set_solver); [done|].
    apply Hinj; [set_solver..|]. apply leb_antisym.
    - by eapply Forall_forall in Hx.
    - by eapply Forall_forall in Hy. }
  f_equal. apply IH; auto.
  - intros a b ??. apply Hinj; set_solver.
  - by apply Permutation_cons_inv in Hp.
Qed.

(** ** Strictly ascending lists *)

Definition key_lt (a b : A) : Prop := ltb (key a) (key b) = true.

Fixpoint strictly_ascending (l : list A) : bool :=
  match l with
  | x :: (y :: _) as l' => ltb (key x) (key y) && strictly_ascending l'
  | _ => true
  end.

Lemma strictly_ascending_cons x l :
  strictly_ascending (x :: l) = true ↔ Forall (key_lt x) l ∧ strictly_ascending l = true.
Proof.
  revert x. induction l as [|y l IH]; intros x; [by repeat split|].
  change (ltb (key x) (key y) && strictly_ascending (y :: l) = true ↔
          Forall (key_lt x) (y :: l) ∧ strictly_ascending (y :: l) = true).
  rewrite andb_true_iff, Forall_cons, IH. split; [|tauto].
  intros (Hxy & Hy & Hl). repeat split; auto.
  eapply Forall_impl; [exact Hy|]. intros z Hz. by eapply ltb_trans.
Qed.

Lemma strictly_ascending_app l1 l2 :
  strictly_ascending (l1 ++ l2) = true ↔
  strictly_ascending l1 = true ∧ strictly_ascending l2 = true ∧
  ∀ x y, x ∈ l1 → y ∈ l2 → key_lt x y.
Proof.
  induction l1 as [|x l1 IH].
  { cbn [app]. split; [|tauto]. intros Hl. repeat split; [done|]. set_solver. }
  cbn [app]. rewrite !strictly_ascending_cons, IH, Forall_app, !Forall_forall. set_solver.
Qed.

Lemma strictly_ascending_snoc l x :
  strictly_ascending l = true →
  match last l with Some y => ltb (key y) (key x) | None => true end = true →
  strictly_ascending (l ++ [x]) = true.
Proof.
  intros Hl Hx. apply strictly_ascending_app. repeat split; [done|].
  intros y z Hy ->%list_elem_of_singleton.
  destruct l as [|w l _] using rev_ind; [set_solver|].
  rewrite last_snoc in Hx. apply strictly_ascending_app in Hl as (_ & _ & Hlt).
  apply elem_of_app in Hy as [Hy| ->%list_elem_of_singleton]; [|done].
  eapply ltb_trans; [apply (Hlt y w); [done|by apply list_elem_of_singleton]|done].
Qed.

Lemma strictly_ascending_NoDup l : strictly_ascending l = true → NoDup (key <$> l).
Proof.
  induction l as [|x l IH]; [constructor|]. intros [Hx Hl]%strictly_ascending_cons.
  cbn. constructor; [|auto]. intros (y & Hy & Hin)%list_elem_of_fmap.
  rewrite Forall_forall in Hx. specialize (Hx y Hin). unfold key_lt in Hx.
  rewrite Hy, ltb_irrefl in Hx. done.
Qed.
End PySorted.

(** The sort is stable: elements of one key keep their order. *)
Lemma insert_by_filter {A K} `{LebOrder K, EqDecision K} (key : A → K) x l k :
  filter (λ y, key y = k) (insert_by key x l) = filter (λ y, key y = k) (x :: l).
Proof.
  induction l as [|y l IH]; [done|]. cbn [insert_by]. destruct (leb (key x) (key y)) eqn:E; [done|].
  rewrite filter_cons, IH, !filter_cons.
  destruct (decide (key y = k)) as [Hy|], (decide (key x = k)) as [Hx|]; try done.
  rewrite Hx, Hy, leb_refl in E. done.
Qed.

Lemma sorted_by_filter {A K} `{LebOrder K, EqDecision K} (key : A → K) l k :
  filter (λ y, key y = k) (sorted_by key l) = filter (λ y, key y = k) l.
Proof.
  induction l as [|x l IH]; [done|]. rewrite sorted_by_cons, insert_by_filter.
  by rewrite !filter_cons, IH.
Qed.

(** A map that keeps the keys commutes with sorting. *)
Lemma sorted_by_map {A B K} `{LebOrder K} (key : A → K) (key' : B → K) (g : A → B) l :
  (∀ x, key' (g x) = key x) → sorted_by key' (map g l) = map g (sorted_by key l).
Proof.
  intros Hg. induction l as [|x l IH]; [done|]. cbn [map]. rewrite !sorted_by_cons, IH.
  generalize (sorted_by key l) as s. intros s. induction s as [|y s IHs]; [done|].
  cbn [map insert_by]. rewrite !Hg. destruct (leb _ _); [done|]. cbn [map]. by rewrite IHs.
Qed.

(** ** Lists *)

Section Filter.
Context {A : Type} (P : A → Prop) `{∀ x, Decision (P x)}.

Lemma filter_all l : Forall P l → filter P l = l.
Proof. induction 1; [done|]. rewrite filter_cons_True by done. by f_equal. Qed.

Lemma filter_none l : Forall (λ x, ¬ P x) l → filter P l = [].
Proof. induction 1; [done|]. by rewrite filter_cons_False. Qed.
End Filter.

Lemma bind_ext_in {A B} (f g : A → list B) (l : list A) :
  (∀ x, x ∈ l → f x = g x) → l ≫= f = l ≫= g.
Proof.
  induction l as [|x l IH]; intros Hfg; cbn; [done|].
  rewrite Hfg by set_solver. f_equal. apply IH. set_solver.
Qed.

Lemma strictly_ascending_filter {A K} `{LebOrder K} (key : A → K) (P : A → Prop)
    `{∀ x, Decision (P x)} l :
  strictly_ascending key l = true → strictly_ascending key (filter P l) = true.
Proof.
  induction l as [|x l IH]; [done|]. intros [Hx Hl]%strictly_ascending_cons.
  rewrite filter_cons. destruct (decide (P x)); [|by apply IH].
  apply strictly_ascending_cons. split; [|by apply IH].
  rewrite Forall_forall in Hx |- *. intros y [_ Hy]%list_elem_of_filter. by apply Hx.
Qed.

Lemma strictly_ascending_fmap {A K} `{LebOrder K} (key : A → K) l :
  strictly_ascending id (key <$> l) = strictly_ascending key l.
Proof.
  induction l as [|x [|y l] IH]; [done..|].
  change (ltb (key x) (key y) && strictly_ascending id (key <$> (y :: l))
          = ltb (key x) (key y) && strictly_ascending key (y :: l)). by rewrite IH.
Qed.

(** The stable sort commutes with any filter. *)
Lemma insert_by_filter_any {A K} `{LebOrder K} (key : A → K) (P : A → Prop) `{∀ x, Decision (P x)} x l :
  ascending key l = true →
  filter P (insert_by key x l) = if decide (P x) then insert_by key x (filter P l) else filter P l.
Proof.
  induction l as [|y l IH]; intros Hl.
  { cbn [insert_by]. rewrite filter_cons. by destruct (decide (P x)). }
  pose proof Hl as [Hy Hl']%ascending_cons. cbn [insert_by]. destruct (leb (key x) (key y)) eqn:E.
  - rewrite (filter_cons P x). destruct (decide (P x)); [|done]. rewrite insert_by_head; [done|].
    apply Forall_forall. intros z [_ Hz]%list_elem_of_filter. apply elem_of_cons in Hz as [->|Hz]; [done|].
    rewrite Forall_forall in Hy. unfold key_le in *. eapply leb_trans; [exact E|by apply Hy].
  - rewrite !filter_cons, IH by done. repeat case_decide; try done. cbn [insert_by]. by rewrite E.
Qed.

Lemma sorted_by_filter_any {A K} `{LebOrder K} (key : A → K) (P : A → Prop) `{∀ x, Decision (P x)} l :
  filter P (sorted_by key l) = sorted_by key (filter P l).
Proof.
  induction l as [|x l IH]; [done|].
  rewrite sorted_by_cons, insert_by_filter_any, filter_cons, IH by apply sorted_by_ascending.
  by destruct (decide (P x)).
Qed.

(** Sorting by the elements themselves forgets their order. *)
Lemma sorted_by_id_perm {K} `{LebOrder K} (l l' : list K) : l ≡ₚ l' → sorted_by id l = sorted_by id l'.
Proof.
  intros Hp. apply (ascending_perm_unique id); [done| |apply sorted_by_ascending..].
  by rewrite !sorted_by_perm.
Qed.
