(* ===== verification/Outcome.v ===== *)
(** * Bounds on outcomes

    Which values a computation returns and which exceptions it raises,
    composed along the monads.  The hint database [exits] steps through a
    sequence of bounded computations. *)

From S2P Require Import Prelude.

#[local] Open Scope Z_scope.

(** [m] returns a value in [P] or raises an exception of [E]. *)
Definition within {S A} (E : exn → bool) (P : A → Prop) (m : M S A) : Prop := ∀ s,
  match snd (m s) with Ok x => P x | Err e => E e = true end.

Definition bounded {A} (E : exn → bool) (P : A → Prop) (r : result A) : Prop :=
  match r with Ok x => P x | Err e => E e = true end.

Create HintDb exits.

Section Rules.
Context {S A : Type} (E : exn → bool).
Implicit Types (P : A → Prop).

Lemma within_ret P x : P x → within (S := S) E P (mret x).
Proof. by intros HP s. Qed.

Lemma within_lift P r : bounded E P r → within (S := S) E P (lift r).
Proof. by intros Hr s. Qed.

Lemma within_bind {B} (Q : B → Prop) P (m : M S B) (k : B → M S A) :
  within E Q m → (∀ x, Q x → within E P (k x)) → within E P (m ≫= k).
Proof.
  intros Hm Hk s. specialize (Hm s). rewrite bind_run. destruct (m s) as [s' [x|e]]; [|done].
  by apply Hk.
Qed.

Lemma within_weaken P Q (m : M S A) : within E P m → (∀ x, P x → Q x) → within E Q m.
Proof. intros Hm HPQ s. specialize (Hm s). destruct (m s) as [s' [x|e]]; cbn in *; auto. Qed.

End Rules.

Lemma within_modify {S} E (f : S → S) : within E (λ _, True) (modify f).
Proof. by intros s. Qed.

Lemma within_for_each {S A} E (l : list A) (f : A → M S unit) :
  (∀ x, x ∈ l → within E (λ _, True) (f x)) → within E (λ _, True) (for_each l f).
Proof.
  induction l as [|x l IH]; intros Hf; cbn [for_each]; [by apply within_ret|].
  eapply within_bind; [apply Hf; set_solver|]. intros _ _. apply IH. set_solver.
Qed.

Lemma bounded_bind {A B} E (Q : B → Prop) (P : A → Prop) (r : result B) k :
  bounded E Q r → (∀ x, Q x → bounded E P (k x)) → bounded E P (r ≫= k).
Proof. destruct r; cbn; auto. Qed.

Lemma bounded_raise_if E c e : E e = true → bounded E (λ _, True) (raise_if c e).
Proof. by destruct c. Qed.

Lemma bounded_any {A} E (P : A → Prop) r : bounded E P r → bounded E (λ _, True) r.
Proof. by destruct r. Qed.

#[export] Hint Resolve within_ret within_modify within_for_each : exits.
#[export] Hint Resolve bounded_raise_if : exits.

(** Step through a sequence whose first computation is bounded by a lemma of
    the database. *)
Ltac exits := repeat first
  [ progress intros
  | eapply within_bind; [solve [eauto with exits | apply within_lift; eauto with exits]|]
  | eapply bounded_bind; [solve [eauto with exits]|]
  | solve [eauto with exits]
  | solve [apply within_lift; eauto with exits] ].

Lemma within_get {S} E : within (S := S) E (λ _, True) get.
Proof. by intros s. Qed.

Lemma within_guard {S} E c e : E e = true → within (S := S) E (λ _, True) (guard c e).
Proof. intros HE s. unfold guard. by destruct c. Qed.

#[export] Hint Resolve within_get : exits.
#[export] Hint Extern 1 (within _ _ (guard _ _)) => (apply within_guard; reflexivity) : exits.

(** A computation that raises nothing returns. *)
Lemma bounded_returns {A} (P : A → Prop) r : bounded (λ _, false) P r → ∃ x, r = Ok x ∧ P x.
Proof. destruct r as [x|e]; cbn; [by exists x|done]. Qed.
