(* ===== verification/PyStruct.v ===== *)
(** * Python's [struct] module, for the big-endian formats the code uses

    A format is the list of its field codes.  The values of a format are a
    nested tuple of the matching shape, so that packing and unpacking are
    total on well-typed values except for the range and length errors
    [struct] itself reports. *)

From S2P Require Import Prelude.

#[local] Open Scope Z_scope.

(** ** Bytes and big-endian integers *)

Definition byte_to_Z (b : byte) : Z := Z.of_N (Byte.to_N b).

Definition Z_to_byte (z : Z) : byte :=
  default Byte.x00 (Byte.of_N (Z.to_N (z mod 256))).

Lemma byte_to_Z_range b : 0 ≤ byte_to_Z b < 256.
Proof. unfold byte_to_Z. pose proof (Byte.to_N_bounded b). lia. Qed.

Lemma byte_to_Z_to_byte z : byte_to_Z (Z_to_byte z) = z mod 256.
Proof.
  unfold Z_to_byte, byte_to_Z. pose proof (Z.mod_pos_bound z 256 eq_refl).
  destruct (Byte.of_N _) as [b|] eqn:E; cbn.
  - apply Byte.to_of_N in E. rewrite E. lia.
  - apply Byte.of_N_None_iff in E. lia.
Qed.

Lemma Z_to_byte_to_Z b : Z_to_byte (byte_to_Z b) = b.
Proof.
  unfold Z_to_byte. rewrite Z.mod_small by apply byte_to_Z_range.
  unfold byte_to_Z. by rewrite N2Z.id, Byte.of_to_N.
Qed.

Lemma Z_to_byte_mod z : Z_to_byte (z mod 256) = Z_to_byte z.
Proof. unfold Z_to_byte. by rewrite Z.mod_mod. Qed.

(** [n] bytes, most significant first, of the two's complement of [z]. *)
Fixpoint be_bytes (n : nat) (z : Z) : bytes :=
  match n with
  | O => []
  | S n => be_bytes n (z / 256) ++ [Z_to_byte z]
  end.

(** [int.from_bytes(b, "big")] *)
Definition of_be (bs : bytes) : Z :=
  foldl (λ acc b, acc * 256 + byte_to_Z b) 0 bs.

Lemma of_be_snoc bs b : of_be (bs ++ [b]) = of_be bs * 256 + byte_to_Z b.
Proof. unfold of_be. by rewrite foldl_app. Qed.

Lemma length_be_bytes n z : length (be_bytes n z) = n.
Proof. revert z. induction n; intros; cbn; rewrite ?length_app, ?IHn; cbn; lia. Qed.

Definition pow256 (n : nat) : Z := 256 ^ Z.of_nat n.

Lemma pow256_S n : pow256 (S n) = 256 * pow256 n.
Proof. unfold pow256. by rewrite Nat2Z.inj_succ, Z.pow_succ_r by lia. Qed.

Lemma pow256_pos n : 0 < pow256 n.
Proof. apply Z.pow_pos_nonneg; lia. Qed.

Lemma of_be_bytes n z : of_be (be_bytes n z) = z mod pow256 n.
Proof.
  revert z. induction n as [|n IH]; intros z; cbn [be_bytes].
  { by rewrite Z.mod_1_r. }
  rewrite of_be_snoc, IH, byte_to_Z_to_byte, pow256_S.
  pose proof (pow256_pos n). rewrite Z.rem_mul_r by lia. lia.
Qed.

Lemma of_be_range bs : 0 ≤ of_be bs < pow256 (length bs).
Proof.
  induction bs as [|b bs IH] using rev_ind; [by cbn|].
  rewrite of_be_snoc, length_app, Nat.add_1_r, pow256_S.
  pose proof (byte_to_Z_range b). lia.
Qed.

Lemma be_bytes_of_be bs : be_bytes (length bs) (of_be bs) = bs.
Proof.
  induction bs as [|b bs IH] using rev_ind; [done|].
  rewrite length_app, Nat.add_1_r. cbn [be_bytes]. rewrite of_be_snoc.
  pose proof (byte_to_Z_range b). f_equal.
  - rewrite Z.div_add_l, Z.div_small, Z.add_0_r by lia. done.
  - rewrite <-Z_to_byte_mod, Z.add_comm, Z.mod_add, Z_to_byte_mod by lia.
    by rewrite Z_to_byte_to_Z.
Qed.

Lemma be_bytes_mod n z : be_bytes n (z mod pow256 n) = be_bytes n z.
Proof.
  rewrite <-of_be_bytes. rewrite <-(length_be_bytes n z) at 1. apply be_bytes_of_be.
Qed.

(** ** Formats *)

(** The field codes: unsigned [B H I Q], signed [h q], and the byte string
    ["ns"]. *)
Inductive fld := FB | FH | FI | FQ | Fh | Fq | Fs (n : nat).

Abbreviation fmt := (list fld).

Definition fld_size (f : fld) : nat :=
  match f with
  | FB => 1 | FH => 2 | FI => 4 | FQ => 8 | Fh => 2 | Fq => 8 | Fs n => n
  end.

(** [Struct.size] (the [">"] prefix disables alignment). *)
Definition size_of (F : fmt) : nat := sum_list_with fld_size F.

Definition sval (f : fld) : Type :=
  match f with Fs _ => bytes | _ => Z end.

Fixpoint svals (F : fmt) : Type :=
  match F with [] => unit | f :: F => sval f * svals F end.

Definition in_u (n : nat) (z : Z) : bool := (0 <=? z) && (z <? pow256 n).
Definition in_s (n : nat) (z : Z) : bool :=
  (- (pow256 n / 2) <=? z) && (z <? pow256 n / 2).

(** Two's-complement reading of an unsigned [n]-byte value. *)
Definition to_signed (n : nat) (u : Z) : Z :=
  if u <? pow256 n / 2 then u else u - pow256 n.

Definition pack_int (ok : bool) (n : nat) (z : Z) : result bytes :=
  if ok then Ok (be_bytes n z) else Err StructError.

Definition pack_fld (f : fld) : sval f → result bytes :=
  match f with
  | FB => λ z, pack_int (in_u 1 z) 1 z
  | FH => λ z, pack_int (in_u 2 z) 2 z
  | FI => λ z, pack_int (in_u 4 z) 4 z
  | FQ => λ z, pack_int (in_u 8 z) 8 z
  | Fh => λ z, pack_int (in_s 2 z) 2 z
  | Fq => λ z, pack_int (in_s 8 z) 8 z
  | Fs n => λ bs, Ok (take n bs ++ replicate (n - length bs) Byte.x00)
  end.

Definition unpack_fld (f : fld) : bytes → sval f :=
  match f with
  | FB | FH | FI | FQ => of_be
  | Fh => λ bs, to_signed 2 (of_be bs)
  | Fq => λ bs, to_signed 8 (of_be bs)
  | Fs n => λ bs, bs
  end.

(** [Struct.pack] *)
Fixpoint pack (F : fmt) : svals F → result bytes :=
  match F with
  | [] => λ _, Ok []
  | f :: F => λ '(v, vs),
      b ← pack_fld f v;
      bs ← pack F vs;
      Ok (b ++ bs)
  end.

(** The values read from the first [size_of F] bytes of [bs]. *)
Fixpoint unpack_raw (F : fmt) (bs : bytes) : svals F :=
  match F with
  | [] => tt
  | f :: F => (unpack_fld f (take (fld_size f) bs),
               unpack_raw F (drop (fld_size f) bs))
  end.

(** [Struct.unpack]: the buffer must have exactly the format's size. *)
Definition unpack (F : fmt) (bs : bytes) : result (svals F) :=
  if decide (length bs = size_of F) then Ok (unpack_raw F bs) else Err StructError.

(** [Struct.unpack_from]: the buffer must hold the format at [offset]. *)
Definition unpack_from (F : fmt) (bs : bytes) (offset : nat) : result (svals F) :=
  if decide (offset + size_of F ≤ length bs)%nat
  then Ok (unpack_raw F (drop offset bs)) else Err StructError.

(** ** Round trips *)

(** The values [struct] stores without loss: integers in range and byte
    strings of exactly the declared length. *)
Definition fits_fld (f : fld) : sval f → bool :=
  match f with
  | FB => in_u 1 | FH => in_u 2 | FI => in_u 4 | FQ => in_u 8
  | Fh => in_s 2 | Fq => in_s 8
  | Fs n => λ bs, bool_decide (length bs = n)
  end.

Fixpoint fits (F : fmt) : svals F → bool :=
  match F with
  | [] => λ _, true
  | f :: F => λ '(v, vs), fits_fld f v && fits F vs
  end.

Lemma in_u_spec n z : in_u n z = true ↔ 0 ≤ z < pow256 n.
Proof. unfold in_u. rewrite andb_true_iff, Z.leb_le, Z.ltb_lt. done. Qed.

Lemma in_s_spec n z : in_s n z = true ↔ - (pow256 n / 2) ≤ z < pow256 n / 2.
Proof. unfold in_s. rewrite andb_true_iff, Z.leb_le, Z.ltb_lt. done. Qed.

Lemma pow256_even n : (0 < n)%nat → pow256 n = 2 * (pow256 n / 2).
Proof.
  intros Hn. destruct n as [|n]; [lia|]. rewrite pow256_S.
  replace (256 * pow256 n) with ((128 * pow256 n) * 2) by lia.
  rewrite Z.div_mul by lia. lia.
Qed.

Lemma to_signed_mod n z : (0 < n)%nat →
  in_s n z = true → to_signed n (z mod pow256 n) = z.
Proof.
  intros Hn [Hlo Hhi]%in_s_spec. unfold to_signed.
  pose proof (pow256_even n Hn). pose proof (pow256_pos n).
  destruct (decide (0 ≤ z)).
  - rewrite Z.mod_small by lia. destruct (Z.ltb_spec z (pow256 n / 2)); lia.
  - assert (z mod pow256 n = z + pow256 n) as ->.
    { symmetry. apply (Z.mod_unique _ _ (-1)); lia. }
    destruct (Z.ltb_spec (z + pow256 n) (pow256 n / 2)); lia.
Qed.

Lemma to_signed_range n u : (0 < n)%nat →
  0 ≤ u < pow256 n → in_s n (to_signed n u) = true.
Proof.
  intros Hn Hu. apply in_s_spec. unfold to_signed. pose proof (pow256_even n Hn).
  destruct (Z.ltb_spec u (pow256 n / 2)); lia.
Qed.

Lemma to_signed_mod_inv n u : 0 ≤ u < pow256 n → to_signed n u mod pow256 n = u.
Proof.
  intros Hu. unfold to_signed. destruct (_ <? _); [by apply Z.mod_small|].
  replace (u - pow256 n) with (u + (-1) * pow256 n) by lia.
  rewrite Z.mod_add by lia. by apply Z.mod_small.
Qed.

Lemma pack_int_Ok ok n z bs :
  pack_int ok n z = Ok bs ↔ ok = true ∧ bs = be_bytes n z.
Proof. unfold pack_int. destruct ok; split; [intros [= <-]|intros [_ ->]|done|by intros []]; done. Qed.

Lemma length_pack_fld f v bs : pack_fld f v = Ok bs → length bs = fld_size f.
Proof.
  destruct f; cbn; rewrite ?pack_int_Ok; try (intros [_ ->]; apply length_be_bytes).
  intros [= <-]. rewrite length_app, length_take, length_replicate. lia.
Qed.

Lemma unpack_pack_fld f v bs :
  fits_fld f v = true → pack_fld f v = Ok bs → unpack_fld f bs = v.
Proof.
  destruct f; cbn; rewrite ?pack_int_Ok; intros Hf;
    try (intros [_ ->]; rewrite of_be_bytes; try apply to_signed_mod; auto; try lia;
         apply Z.mod_small; by apply in_u_spec).
  intros [= <-]. apply bool_decide_eq_true in Hf.
  rewrite firstn_all2 by lia. replace (n - length v)%nat with 0%nat by lia.
  apply app_nil_r.
Qed.

Lemma fits_pack_fld f v : fits_fld f v = true → is_ok (pack_fld f v) = true.
Proof. destruct f; cbn; unfold pack_int; intros Hf; rewrite ?Hf; done. Qed.

Lemma fits_unpack_fld f bs :
  length bs = fld_size f → fits_fld f (unpack_fld f bs) = true.
Proof.
  intros Hl. pose proof (of_be_range bs) as Hr. rewrite Hl in Hr.
  destruct f; cbn in *; try (by apply in_u_spec); try (apply to_signed_range; [lia|done]).
  by apply bool_decide_eq_true.
Qed.

Lemma pack_unpack_fld f bs :
  length bs = fld_size f → pack_fld f (unpack_fld f bs) = Ok bs.
Proof.
  intros Hl. pose proof (fits_unpack_fld f bs Hl) as Hf.
  pose proof (be_bytes_of_be bs) as Hb. pose proof (of_be_range bs) as Hr.
  rewrite Hl in Hb, Hr.
  destruct f; cbn in *; unfold pack_int; rewrite ?Hf; f_equal; try done.
  - by rewrite <-be_bytes_mod, to_signed_mod_inv.
  - by rewrite <-be_bytes_mod, to_signed_mod_inv.
  - by rewrite <-Hl, firstn_all, Nat.sub_diag, app_nil_r.
Qed.

Lemma length_pack F vs bs : pack F vs = Ok bs → length bs = size_of F.
Proof.
  revert vs bs. induction F as [|f F IH]; cbn; intros vs bs H; [by inv_result|].
  destruct vs as [v vs]. inv_result.
  rewrite length_app. erewrite length_pack_fld, IH by done. done.
Qed.

Lemma fits_pack F vs : fits F vs = true → ∃ bs, pack F vs = Ok bs.
Proof.
  induction F as [|f F IH]; cbn; [by eauto|]. destruct vs as [v vs].
  intros [Hv Hvs]%andb_true_iff. apply fits_pack_fld in Hv.
  destruct (pack_fld f v); [|done]. destruct (IH vs Hvs) as [bs ->]. cbn. eauto.
Qed.

(** The byte-string fields have exactly their declared lengths; packing such
    values succeeds only when the integers are in range. *)
Fixpoint bytes_exact (F : fmt) : svals F → bool :=
  match F with
  | [] => λ _, true
  | f :: F => λ '(v, vs),
      match f return sval f → bool with
      | Fs n => λ v, bool_decide (length v = n)
      | _ => λ _, true
      end v && bytes_exact F vs
  end.

Lemma pack_Ok_fits F vs bs : pack F vs = Ok bs → bytes_exact F vs = true → fits F vs = true.
Proof.
  revert vs bs. induction F as [|f F IH]; cbn; intros vs bs H HF; [done|].
  destruct vs as [v vs]. apply andb_true_iff in HF as [Hf HF]. inv_result.
  apply andb_true_iff. split; [|by eapply IH].
  destruct f; try done; cbn in Hx |- *; by apply pack_int_Ok in Hx as [].
Qed.

Lemma unpack_raw_pack F vs bs rest :
  fits F vs = true → pack F vs = Ok bs → unpack_raw F (bs ++ rest) = vs.
Proof.
  revert vs bs. induction F as [|f F IH]; cbn; intros vs bs Hf H; [by destruct vs|].
  destruct vs as [v vs]. apply andb_true_iff in Hf as [Hv Hvs]. inv_result.
  pose proof (length_pack_fld _ _ _ Hx) as Hl.
  rewrite <-app_assoc, <-Hl, take_app_length, drop_app_length.
  f_equal; [by apply unpack_pack_fld|by apply IH].
Qed.

Lemma fits_unpack_raw F bs :
  (size_of F ≤ length bs)%nat → fits F (unpack_raw F bs) = true.
Proof.
  revert bs. induction F as [|f F IH]; cbn; intros bs Hl; [done|].
  apply andb_true_iff. split.
  - apply fits_unpack_fld. rewrite length_take. unfold size_of in *. lia.
  - apply IH. rewrite length_drop. unfold size_of in *. lia.
Qed.

Lemma pack_unpack_raw F bs :
  (size_of F ≤ length bs)%nat → pack F (unpack_raw F bs) = Ok (take (size_of F) bs).
Proof.
  revert bs. induction F as [|f F IH]; cbn; intros bs Hl; [done|].
  unfold size_of in *. cbn in Hl.
  rewrite pack_unpack_fld by (rewrite length_take; lia). cbn.
  rewrite IH by (rewrite length_drop; lia). cbn. by rewrite take_take_drop.
Qed.

Lemma unpack_pack F vs bs :
  pack F vs = Ok bs → bytes_exact F vs = true → unpack F bs = Ok vs.
Proof.
  intros Hp Hf. unfold unpack. rewrite decide_True by by eapply length_pack.
  f_equal. rewrite <-(app_nil_r bs). apply unpack_raw_pack; [|done].
  by eapply pack_Ok_fits.
Qed.

Lemma unpack_from_app F vs pre bs rest :
  pack F vs = Ok bs → bytes_exact F vs = true →
  unpack_from F (pre ++ bs ++ rest) (length pre) = Ok vs.
Proof.
  intros Hp Hf. unfold unpack_from. pose proof (length_pack _ _ _ Hp).
  rewrite decide_True by (rewrite !length_app; lia).
  rewrite drop_app_length. f_equal. apply unpack_raw_pack; [|done].
  by eapply pack_Ok_fits.
Qed.

Lemma pack_Err F vs e : pack F vs = Err e → e = StructError.
Proof.
  revert vs. induction F as [|f F IH]; cbn; intros vs Hp; [done|].
  destruct vs as [v vs]. apply bind_Err in Hp as [Hp|(b & _ & Hp)].
  - destruct f; cbn in Hp; unfold pack_int in Hp; try (destruct (_ : bool)); by inv_result.
  - apply bind_Err in Hp as [Hp|(bs & _ & Hp)]; [by eapply IH|done].
Qed.

(** Packing is decided by the ranges of the values. *)
Lemma pack_cases F vs : bytes_exact F vs = true →
  (fits F vs = true ∧ ∃ bs, pack F vs = Ok bs) ∨
  (fits F vs = false ∧ pack F vs = Err StructError).
Proof.
  intros Hb. destruct (fits F vs) eqn:Hf; [left; split; [done|by apply fits_pack]|right].
  split; [done|]. destruct (pack F vs) as [bs|e] eqn:Hp.
  - by rewrite (pack_Ok_fits _ _ _ Hp Hb) in Hf.
  - by rewrite (pack_Err _ _ _ Hp).
Qed.

#[export] Hint Resolve length_pack fits_unpack_raw : kith.

#[global] Arguments pack : simpl never.
#[global] Arguments fits : simpl never.
#[global] Arguments unpack_raw : simpl never.
#[global] Arguments unpack_from : simpl never.
#[global] Arguments unpack : simpl never.
#[global] Arguments size_of : simpl never.

(** Assignment to an unsigned or signed field of [n] bytes. *)
Definition c_uint (n : nat) (z : Z) : Z := z mod pow256 n.
Definition c_int (n : nat) (z : Z) : Z := to_signed n (z mod pow256 n).

Inductive ctype :=
  | c_uintN (bytes : Z)
  | c_intN (bytes : Z)
  | c_float
  | c_void_p
  | c_array (t : ctype) (n : Z).

Fixpoint ct_size (t : ctype) : Z :=
  match t with
  | c_uintN n | c_intN n => n
  | c_float => 4
  | c_void_p => 8
  | c_array t n => n * ct_size t
  end.

Fixpoint ct_align (t : ctype) : Z :=
  match t with
  | c_uintN n | c_intN n => n
  | c_float => 4
  | c_void_p => 8
  | c_array t _ => ct_align t
  end.

Definition fields := list (string * ctype).

Definition round_up (z a : Z) : Z := (z + a - 1) / a * a.

(** Each field's offset, and the first byte after the last field. *)
Fixpoint offsets_from (at_ : Z) (fs : fields) : list (string * Z) * Z :=
  match fs with
  | [] => ([], at_)
  | (name, t) :: fs =>
      let o := round_up at_ (ct_align t) in
      let '(os, e) := offsets_from (o + ct_size t) fs in ((name, o) :: os, e)
  end.

Definition field_offsets (fs : fields) : list (string * Z) := fst (offsets_from 0 fs).

(** [ctypes.sizeof]: the end of the fields rounded up to the strictest
    alignment; also the stride of an array of the structure. *)
Definition sizeof (fs : fields) : Z :=
  round_up (snd (offsets_from 0 fs)) (foldr (λ f a, Z.max (ct_align (snd f)) a) 1 fs).

Lemma c_uint_range n z : in_u n (c_uint n z) = true.
Proof. apply in_u_spec, Z.mod_pos_bound, pow256_pos. Qed.

Lemma c_uint_id n z : in_u n z = true → c_uint n z = z.
Proof. intros Hz%in_u_spec. by apply Z.mod_small. Qed.

Lemma c_int_range n z : (0 < n)%nat → in_s n (c_int n z) = true.
Proof. intros Hn. apply to_signed_range; [done|]. apply Z.mod_pos_bound, pow256_pos. Qed.

Lemma c_int_id n z : (0 < n)%nat → in_s n z = true → c_int n z = z.
Proof. apply to_signed_mod. Qed.
