(* ===== verification/PyText.v ===== *)
(** * Text: decimal integers and UTF-8

    What the sources use of [str], [int] and [bytes.decode]: decimal
    printing and parsing of integers, with CPython's limit on the number
    of digits, and the strict UTF-8 codec. *)

From S2P Require Import Prelude PyStruct.

#[local] Open Scope Z_scope.

(** ** Order *)

(** [str] compares by code points. *)
Fixpoint leb_text (a b : pystr) : bool :=
  match a, b with
  | [], _ => true
  | _ :: _, [] => false
  | x :: a, y :: b => if x =? y then leb_text a b else x <? y
  end.

#[global] Program Instance leb_pystr : LebOrder pystr := {| leb := leb_text |}.
Next Obligation.
  intros a. induction a as [|x a IH]; intros [|y b]; cbn; auto.
  rewrite (Z.eqb_sym y x). destruct (Z.eqb_spec x y); [apply IH|].
  rewrite !Z.ltb_lt. lia.
Qed.
Next Obligation.
  intros a. induction a as [|x a IH]; intros [|y b] [|z c]; cbn; try done.
  destruct (Z.eqb_spec x y), (Z.eqb_spec y z), (Z.eqb_spec x z); subst; try lia;
    rewrite ?Z.ltb_lt; try lia; try done. apply IH.
Qed.
Next Obligation.
  intros a. induction a as [|x a IH]; intros [|y b]; cbn; try done.
  rewrite (Z.eqb_sym y x). destruct (Z.eqb_spec x y); subst.
  - intros. f_equal. by apply IH.
  - rewrite !Z.ltb_lt. lia.
Qed.

(** ** Decimal digits *)

(** The value of a digit sequence, most significant first. *)
Definition of_digits (ds : list Z) : Z := foldl (λ acc d, acc * 10 + d) 0 ds.

Fixpoint digits_fuel (fuel : nat) (n : Z) : list Z :=
  match fuel with
  | O => []
  | S fuel => if n <? 10 then [n] else digits_fuel fuel (n / 10) ++ [n mod 10]
  end.

(** The digits of [n >= 0]; a number has at most [log2 n + 1] of them. *)
Definition digits (n : Z) : list Z := digits_fuel (S (Z.to_nat (Z.log2 n))) n.

Definition digit_char (d : Z) : Z := 48 + d.
Definition is_digit (c : Z) : bool := (48 <=? c) && (c <=? 57).

(** [sys.get_int_max_str_digits()] at its default. *)
Definition INT_MAX_STR_DIGITS : nat := 4300.

Definition int_limit (ds : list Z) : result unit :=
  raise_if (bool_decide (INT_MAX_STR_DIGITS < length ds)%nat)
    (ValueError [Lit "Exceeds the limit (4300 digits) for integer string conversion"]).

(** [str(n)] for an [int]. *)
Definition int_repr (n : Z) : result pystr :=
  let ds := digits (Z.abs n) in
  int_limit ds;;
  Ok ((if n <? 0 then str "-" else []) ++ (digit_char <$> ds)).

(** [int(s)] for a [str] of ASCII digits. *)
Definition digits_int (s : pystr) : result Z :=
  int_limit s;;
  Ok (of_digits ((λ c, c - 48) <$> s)).

(** ** UTF-8 *)

Definition is_surrogate (c : Z) : bool := (0xd800 <=? c) && (c <=? 0xdfff).

Definition utf8_char (c : Z) : option bytes :=
  if c <? 0x80 then Some [Z_to_byte c]
  else if c <? 0x800 then Some [Z_to_byte (0xc0 + c / 64); Z_to_byte (0x80 + c mod 64)]
  else if is_surrogate c then None
  else if c <? 0x10000 then
    Some [Z_to_byte (0xe0 + c / 4096); Z_to_byte (0x80 + c / 64 mod 64);
          Z_to_byte (0x80 + c mod 64)]
  else Some [Z_to_byte (0xf0 + c / 262144); Z_to_byte (0x80 + c / 4096 mod 64);
             Z_to_byte (0x80 + c / 64 mod 64); Z_to_byte (0x80 + c mod 64)].

(** [s.encode("utf-8")]: [None] is the [UnicodeEncodeError] of a surrogate. *)
Fixpoint utf8_encode (s : pystr) : option bytes :=
  match s with
  | [] => Some []
  | c :: s => b ← utf8_char c; bs ← utf8_encode s; Some (b ++ bs)
  end.

(** A continuation byte's six bits. *)
Definition utf8_cont (b : byte) : option Z :=
  let z := byte_to_Z b in
  if (0x80 <=? z) && (z <? 0xc0) then Some (z - 0x80) else None.

Definition utf8_in (lo hi c : Z) : option Z :=
  if (lo <=? c) && (c <=? hi) && negb (is_surrogate c) then Some c else None.

(** [b.decode("utf-8")]: overlong forms, surrogates, values above
    [U+10FFFF] and stray continuation bytes are errors. *)
Fixpoint utf8_decode (bs : bytes) : option pystr :=
  match bs with
  | [] => Some []
  | b0 :: bs0 =>
      let z := byte_to_Z b0 in
      if z <? 0x80 then s ← utf8_decode bs0; Some (z :: s)
      else if z <? 0xc0 then None
      else match bs0 with
      | [] => None
      | b1 :: bs1 =>
          c1 ← utf8_cont b1;
          if z <? 0xe0 then
            c ← utf8_in 0x80 0x7ff ((z - 0xc0) * 64 + c1);
            s ← utf8_decode bs1; Some (c :: s)
          else match bs1 with
          | [] => None
          | b2 :: bs2 =>
              c2 ← utf8_cont b2;
              if z <? 0xf0 then
                c ← utf8_in 0x800 0xffff (((z - 0xe0) * 64 + c1) * 64 + c2);
                s ← utf8_decode bs2; Some (c :: s)
              else match bs2 with
              | [] => None
              | b3 :: bs3 =>
                  c3 ← utf8_cont b3;
                  c ← utf8_in 0x10000 0x10ffff ((((z - 0xf0) * 64 + c1) * 64 + c2) * 64 + c3);
                  s ← utf8_decode bs3; Some (c :: s)
              end
          end
      end
  end.

(** [bytes.decode("utf-8")] as the sources call it. *)
Definition decode_utf8 (bs : bytes) : result pystr :=
  match utf8_decode bs with Some s => Ok s | None => Err UnicodeDecodeError end.

(** ** [str] methods *)

(** [str.isspace] of one character. *)
Definition is_space (c : Z) : bool :=
  ((9 <=? c) && (c <=? 13)) || ((28 <=? c) && (c <=? 32)) || (c =? 133) || (c =? 160) ||
  (c =? 5760) || ((8192 <=? c) && (c <=? 8202)) || (c =? 8232) || (c =? 8233) || (c =? 8239) ||
  (c =? 8287) || (c =? 12288).

Fixpoint lstrip (s : pystr) : pystr :=
  match s with
  | c :: s' => if is_space c then lstrip s' else s
  | [] => []
  end.

(** [s.strip()] *)
Definition strip (s : pystr) : pystr := rev (lstrip (rev (lstrip s))).

(** [s.split()]: the maximal runs of non-whitespace; [cur] is the run being
    read, reversed. *)
Fixpoint split_from (cur : pystr) (s : pystr) : list pystr :=
  let flush := match cur with [] => [] | _ => [rev cur] end in
  match s with
  | [] => flush
  | c :: s => if is_space c then flush ++ split_from [] s else split_from (c :: cur) s
  end.
Definition split (s : pystr) : list pystr := split_from [] s.

(** The line boundaries of [str.splitlines]. *)
Definition is_line_break (c : Z) : bool :=
  ((10 <=? c) && (c <=? 13)) || ((28 <=? c) && (c <=? 30)) || (c =? 133) || (c =? 8232) || (c =? 8233).

(** [s.splitlines()]; [cur] is the line being read, reversed, [None] when no
    line is open. *)
Fixpoint splitlines_from (cur : option pystr) (s : pystr) : list pystr :=
  match s with
  | [] => match cur with Some l => [rev l] | None => [] end
  | c :: s' =>
      if is_line_break c then
        rev (default [] cur) ::
        match s' with
        | d :: s'' => if (c =? 13) && (d =? 10) then splitlines_from None s''
                      else splitlines_from None s'
        | [] => []
        end
      else splitlines_from (Some (c :: default [] cur)) s'
  end.
Definition splitlines (s : pystr) : list pystr := splitlines_from None s.

(** The newline translation of a text-mode read: ["\r\n"] and ["\r"] become ["\n"]. *)
Fixpoint universal_newlines (s : pystr) : pystr :=
  match s with
  | [] => []
  | c :: s' =>
      if c =? 13 then
        10 :: match s' with
              | d :: s'' => if d =? 10 then universal_newlines s'' else universal_newlines s'
              | [] => []
              end
      else c :: universal_newlines s'
  end.

(** [path.read_text(encoding="utf-8")] of a file with these bytes. *)
Definition read_text (bs : bytes) : result pystr := universal_newlines <$> decode_utf8 bs.

(** [s.replace(a, b)] for single characters. *)
Definition replace_char (a b : Z) (s : pystr) : pystr := (λ c, if c =? a then b else c) <$> s.

(** [s.partition(c)], the separator left out. *)
Fixpoint partition_at (sep : Z) (s : pystr) : pystr * pystr :=
  match s with
  | [] => ([], [])
  | c :: s => if c =? sep then ([], s) else let '(a, b) := partition_at sep s in (c :: a, b)
  end.

(** [s.split(c)] *)
Fixpoint split_at (sep : Z) (s : pystr) : list pystr :=
  match s with
  | [] => [[]]
  | c :: s =>
      if c =? sep then [] :: split_at sep s
      else match split_at sep s with w :: ws => (c :: w) :: ws | [] => [[c]] end
  end.

(** ** [int(s)] and [int(s, 16)] *)

(** The zeros of the decimal digit runs of Unicode 16. *)
Definition DIGIT_ZEROS : list Z :=
  [48; 1632; 1776; 1984; 2406; 2534; 2662; 2790; 2918; 3046; 3174; 3302; 3430; 3558; 3664;
   3792; 3872; 4160; 4240; 6112; 6160; 6470; 6608; 6784; 6800; 6992; 7088; 7232; 7248; 42528;
   43216; 43264; 43472; 43504; 43600; 44016; 65296; 66720; 68912; 68928; 69734; 69872; 69942;
   70096; 70384; 70736; 70864; 71248; 71360; 71376; 71386; 71472; 71904; 72016; 72688; 72784;
   73040; 73120; 73552; 90416; 92768; 92864; 93008; 93552; 118000; 120782; 120792; 120802;
   120812; 120822; 123200; 123632; 124144; 124401; 125264; 130032].

(** A character as [int] sees it: digits and spaces become ASCII, any other
    non-ASCII character an invalid one. *)
Definition int_char (c : Z) : Z :=
  if c <? 127 then c
  else if is_space c then 32
  else match find (λ z, (z <=? c) && (c <? z + 10)) DIGIT_ZEROS with
  | Some z => 48 + (c - z)
  | None => 63
  end.

Definition digit_value (c : Z) : option Z :=
  if is_digit c then Some (c - 48)
  else if (97 <=? c) && (c <=? 122) then Some (c - 87)
  else if (65 <=? c) && (c <=? 90) then Some (c - 55)
  else None.

(** Digits of [base], with single underscores between them; [prev] tells
    that a digit was just read. *)
Fixpoint int_digits (base : Z) (prev : bool) (s : pystr) : option (list Z * pystr) :=
  match s with
  | [] => if prev then Some ([], []) else None
  | c :: s' =>
      if c =? 95 then if prev then int_digits base false s' else None
      else match digit_value c with
      | Some d =>
          if d <? base then '(ds, r) ← int_digits base true s'; Some (d :: ds, r)
          else if prev then Some ([], s) else None
      | None => if prev then Some ([], s) else None
      end
  end.

Definition int_space (c : Z) : bool := ((9 <=? c) && (c <=? 13)) || (c =? 32).

Fixpoint skip_int_space (s : pystr) : pystr :=
  match s with
  | c :: s' => if int_space c then skip_int_space s' else s
  | [] => []
  end.

(** The optional ["0x"] of base 16 and the underscore allowed after it. *)
Definition int_prefix (base : Z) (s : pystr) : pystr :=
  match s with
  | z :: x :: s' =>
      if (base =? 16) && (z =? 48) && ((x =? 120) || (x =? 88)) then
        match s' with c :: s'' => if c =? 95 then s'' else s' | [] => s' end
      else s
  | _ => s
  end.

(** What follows the sign: the digits, then nothing but spaces. *)
Definition int_magnitude (base : Z) (s : pystr) : option Z :=
  '(ds, r) ← int_digits base false (int_prefix base s);
  if bool_decide (skip_int_space r = []) &&
     ((base =? 16) || bool_decide (length ds ≤ INT_MAX_STR_DIGITS)%nat)
  then Some (foldl (λ acc d, acc * base + d) 0 ds)
  else None.

(** [int(s, base)] for base 10 or 16; [None] is its [ValueError]. *)
Definition py_int (base : Z) (s : pystr) : option Z :=
  match skip_int_space (int_char <$> s) with
  | [] => None
  | (c :: s') as s =>
      if c =? 45 then Z.opp <$> int_magnitude base s'
      else if c =? 43 then int_magnitude base s'
      else int_magnitude base s
  end.

(** ** Decimal round trip *)

Definition digit_ok (d : Z) : Prop := 0 ≤ d ≤ 9.

Lemma of_digits_snoc ds d : of_digits (ds ++ [d]) = of_digits ds * 10 + d.
Proof. unfold of_digits. by rewrite foldl_app. Qed.

Lemma digits_fuel_ok fuel n : 0 ≤ n → Forall digit_ok (digits_fuel fuel n).
Proof.
  revert n. induction fuel as [|fuel IH]; intros n Hn; cbn; [constructor|].
  destruct (Z.ltb_spec n 10); [repeat constructor; lia|].
  apply Forall_app. split; [apply IH; by apply Z.div_pos; lia|].
  repeat constructor; pose proof (Z.mod_pos_bound n 10); lia.
Qed.

Lemma of_digits_fuel fuel n :
  0 ≤ n < 2 ^ Z.of_nat fuel → of_digits (digits_fuel fuel n) = n.
Proof.
  revert n. induction fuel as [|fuel IH]; intros n Hn.
  { change (2 ^ Z.of_nat 0) with 1 in Hn. cbn. lia. }
  rewrite Nat2Z.inj_succ, Z.pow_succ_r in Hn by lia. cbn [digits_fuel].
  destruct (Z.ltb_spec n 10); [cbn; lia|].
  rewrite of_digits_snoc, IH; [pose proof (Z.div_mod n 10); lia|].
  split; [by apply Z.div_pos; lia|]. apply Z.div_lt_upper_bound; lia.
Qed.

Lemma of_digits_digits n : 0 ≤ n → of_digits (digits n) = n.
Proof.
  intros Hn. apply of_digits_fuel. split; [done|].
  rewrite Nat2Z.inj_succ, Z2Nat.id by apply Z.log2_nonneg.
  destruct (decide (n = 0)) as [->|]; [done|]. apply Z.log2_spec. lia.
Qed.

Lemma digits_ok n : 0 ≤ n → Forall digit_ok (digits n).
Proof. apply digits_fuel_ok. Qed.

Lemma digits_fuel_head fuel n :
  1 ≤ n < 2 ^ Z.of_nat fuel → ∃ d ds, digits_fuel fuel n = d :: ds ∧ 1 ≤ d ≤ 9.
Proof.
  revert n. induction fuel as [|fuel IH]; intros n Hn.
  { change (2 ^ Z.of_nat 0) with 1 in Hn. lia. }
  rewrite Nat2Z.inj_succ, Z.pow_succ_r in Hn by lia. cbn [digits_fuel].
  destruct (Z.ltb_spec n 10); [exists n, []; split; [done|lia]|].
  destruct (IH (n / 10)) as (d & ds & -> & Hd); [|by eexists d, _].
  split; [apply Z.div_le_lower_bound; lia|apply Z.div_lt_upper_bound; lia].
Qed.

(** A positive number is printed without leading zeros. *)
Lemma digits_head n : 1 ≤ n → ∃ d ds, digits n = d :: ds ∧ 1 ≤ d ≤ 9.
Proof.
  intros Hn. apply digits_fuel_head. split; [done|].
  rewrite Nat2Z.inj_succ, Z2Nat.id by apply Z.log2_nonneg. apply Z.log2_spec. lia.
Qed.

Lemma digit_char_is_digit ds : Forall digit_ok ds → Forall (λ c, is_digit c = true) (digit_char <$> ds).
Proof.
  intros Hd. apply Forall_fmap. eapply Forall_impl; [exact Hd|]. intros d [? ?].
  unfold is_digit, digit_char. cbn. lia.
Qed.

Lemma digit_char_inv (ds : list Z) : (λ c, c - 48) <$> (digit_char <$> ds) = ds.
Proof.
  rewrite <-list_fmap_compose. rewrite <-(list_fmap_id ds) at 2. apply list_fmap_ext.
  intros i d _. unfold compose, digit_char. cbn. lia.
Qed.

Lemma int_limit_Ok ds u : int_limit ds = Ok u ↔ (length ds ≤ INT_MAX_STR_DIGITS)%nat.
Proof. unfold int_limit. rewrite raise_if_Ok, bool_decide_eq_false. lia. Qed.

Lemma digits_int_digits n :
  0 ≤ n → (length (digits n) ≤ INT_MAX_STR_DIGITS)%nat →
  digits_int (digit_char <$> digits n) = Ok n.
Proof.
  intros Hn Hl. unfold digits_int. apply bind_Ok. exists tt. split.
  - apply int_limit_Ok. by rewrite length_fmap.
  - by rewrite digit_char_inv, of_digits_digits.
Qed.

(** [n < 10^k] has at most [k] digits. *)
Lemma length_digits_fuel fuel n k :
  (0 < k)%nat → 0 ≤ n < 10 ^ Z.of_nat k → (length (digits_fuel fuel n) ≤ k)%nat.
Proof.
  revert n k. induction fuel as [|fuel IH]; intros n k Hk Hn; cbn [digits_fuel]; [cbn; lia|].
  destruct (Z.ltb_spec n 10); [cbn; lia|]. destruct k as [|[|k]]; [lia|change (10 ^ Z.of_nat 1) with 10 in Hn; lia|].
  rewrite length_app. cbn [length]. rewrite (Nat2Z.inj_succ (S k)), Z.pow_succ_r in Hn by lia.
  specialize (IH (n / 10) (S k) ltac:(lia)).
  assert (0 ≤ n / 10 < 10 ^ Z.of_nat (S k)).
  { split; [apply Z.div_pos; lia|apply Z.div_lt_upper_bound; lia]. }
  specialize (IH H0). lia.
Qed.

(** The text of an [int]. *)
Definition int_text (z : Z) : pystr :=
  (if z <? 0 then [45] else []) ++ (digit_char <$> digits (Z.abs z)).

Lemma int_digits_chars ds prev :
  Forall digit_ok ds → (prev = false → ds ≠ []) →
  int_digits 10 prev (digit_char <$> ds) = Some (ds, []).
Proof.
  intros Hds. revert prev. induction Hds as [|d ds Hd _ IH]; intros prev Hp.
  { destruct prev; [done|]. by destruct Hp. }
  unfold digit_ok in Hd. cbn [fmap list_fmap int_digits]. unfold digit_char at 1.
  replace (48 + d =? 95) with false by lia. unfold digit_value, is_digit, digit_char at 1 2 3.
  replace ((48 <=? 48 + d) && (48 + d <=? 57)) with true by lia.
  replace (48 + d - 48) with d by lia. replace (d <? 10) with true by lia.
  change (list_fmap _ _ digit_char ds) with (digit_char <$> ds). by rewrite IH.
Qed.

Lemma int_char_digits ds : Forall digit_ok ds → int_char <$> (digit_char <$> ds) = digit_char <$> ds.
Proof.
  induction 1 as [|d ds Hd _ IH]; [done|]. cbn. f_equal; [|exact IH].
  unfold int_char, digit_char, digit_ok in *. by replace (48 + d <? 127) with true by lia.
Qed.

Lemma digits_nonempty n : digits n ≠ [].
Proof. unfold digits. cbn [digits_fuel]. destruct (n <? 10); [done|]. by intros [_ [=]]%app_eq_nil. Qed.

Lemma int_magnitude_digits n : 0 ≤ n < 10 ^ 30 → int_magnitude 10 (digit_char <$> digits n) = Some n.
Proof.
  intros Hn. pose proof (digits_ok n ltac:(lia)) as Hd. unfold int_magnitude.
  assert (length (digits n) ≤ INT_MAX_STR_DIGITS)%nat as Hlen.
  { etransitivity; [apply (length_digits_fuel _ _ 30); [lia|change (Z.of_nat 30) with 30; lia]|].
    unfold INT_MAX_STR_DIGITS. lia. }
  assert (int_prefix 10 (digit_char <$> digits n) = digit_char <$> digits n) as ->.
  { unfold int_prefix. by destruct (digit_char <$> digits n) as [|? [|? ?]]. }
  rewrite int_digits_chars by auto using digits_nonempty. cbn [mbind option_bind].
  rewrite !bool_decide_eq_true_2, orb_true_r by done. cbn [andb].
  fold (of_digits (digits n)). by rewrite of_digits_digits by lia.
Qed.

(** The printed text of an integer parses back. *)
Lemma py_int_text z : Z.abs z < 10 ^ 30 → py_int 10 (int_text z) = Some z.
Proof.
  intros Hz. pose proof (digits_ok (Z.abs z) ltac:(lia)) as Hd.
  pose proof (int_magnitude_digits (Z.abs z) ltac:(lia)) as Hm.
  unfold py_int, int_text. rewrite fmap_app, int_char_digits by done.
  destruct (digit_char <$> digits (Z.abs z)) as [|c s] eqn:E.
  { apply fmap_nil_inv in E. by apply digits_nonempty in E. }
  apply digit_char_is_digit in Hd. rewrite E in Hd. apply Forall_cons in Hd as [Hc _].
  unfold is_digit in Hc. destruct (Z.ltb_spec z 0).
  - change (skip_int_space _) with (45 :: c :: s). cbn iota. change (45 =? 45) with true. cbn iota.
    rewrite Hm. cbn. f_equal. lia.
  - cbn [fmap list_fmap app skip_int_space]. unfold int_space.
    replace ((9 <=? c) && (c <=? 13) || (c =? 32)) with false by lia.
    replace (c =? 45) with false by lia. replace (c =? 43) with false by lia. rewrite Hm. f_equal. lia.
Qed.

(** ** ASCII text under UTF-8 *)

Definition is_ascii (c : Z) : Prop := 0 ≤ c < 128.

Lemma utf8_ascii s :
  Forall is_ascii s → utf8_encode s = Some (Z_to_byte <$> s) ∧ utf8_decode (Z_to_byte <$> s) = Some s.
Proof.
  induction 1 as [|c s Hc Hs [IHe IHd]]; [done|]. unfold is_ascii in Hc.
  cbn [utf8_encode utf8_decode fmap list_fmap]. unfold utf8_char.
  replace (c <? 128) with true by lia. rewrite byte_to_Z_to_byte, Z.mod_small by lia.
  replace (c <? 128) with true by lia. change (list_fmap _ _ Z_to_byte s) with (Z_to_byte <$> s).
  by rewrite IHe, IHd.
Qed.

(** ** Words and lines *)

(** A word: a nonempty run of visible ASCII characters. *)
Definition is_word_char (c : Z) : bool := (33 <=? c) && (c <=? 126).
Definition is_word (t : pystr) : bool := negb (bool_decide (t = [])) && forallb is_word_char t.

(** [" ".join(ts)] *)
Fixpoint join_space (ts : list pystr) : pystr :=
  match ts with
  | [] => []
  | [t] => t
  | t :: ts => t ++ 32 :: join_space ts
  end.

(** The text of these lines, each ended by a newline. *)
Definition unlines (ls : list pystr) : pystr := ls ≫= λ l, l ++ [10].

Lemma word_char_visible c : is_word_char c = true →
  is_space c = false ∧ is_line_break c = false ∧ (c =? 13) = false ∧ is_ascii c.
Proof. unfold is_word_char, is_space, is_line_break, is_ascii. lia. Qed.

Lemma is_word_cons t : is_word t = true → ∃ c t', t = c :: t' ∧ is_word_char c = true.
Proof.
  unfold is_word. rewrite andb_true_iff, negb_true_iff, bool_decide_eq_false.
  destruct t as [|c t]; [naive_solver|]. cbn. intros [_ [? _]%andb_true_iff]. eauto.
Qed.

Lemma split_from_word cur t s :
  forallb is_word_char t = true → split_from cur (t ++ s) = split_from (rev t ++ cur) s.
Proof.
  revert cur. induction t as [|c t IH]; intros cur; [done|]. cbn [forallb app split_from].
  intros [Hc Ht]%andb_true_iff. destruct (word_char_visible c Hc) as [-> _].
  rewrite IH by done. cbn [rev]. by rewrite <-app_assoc.
Qed.

Lemma split_join ts : forallb is_word ts = true → split (join_space ts) = ts.
Proof.
  unfold split. induction ts as [|t ts IH]; [done|]. cbn [forallb].
  intros [Ht Hts]%andb_true_iff. pose proof Ht as Hw. unfold is_word in Hw.
  apply andb_true_iff in Hw as [Hne Hch]. apply negb_true_iff, bool_decide_eq_false in Hne.
  assert (∀ s, split_from (rev t) s =
    match s with [] => [t] | c :: s' => if is_space c then t :: split_from [] s' else split_from (c :: rev t) s' end) as Hf.
  { intros s. destruct s as [|c s]; cbn [split_from]; destruct (rev t) eqn:E.
    - apply (f_equal (@rev Z)) in E. rewrite rev_involutive in E. done.
    - rewrite <-E, rev_involutive. done.
    - apply (f_equal (@rev Z)) in E. rewrite rev_involutive in E. done.
    - rewrite <-E, rev_involutive. done. }
  destruct ts as [|t' ts].
  - cbn [join_space]. rewrite <-(app_nil_r t) at 1. rewrite split_from_word, app_nil_r by done. by rewrite Hf.
  - change (join_space (t :: t' :: ts)) with (t ++ 32 :: join_space (t' :: ts)).
    rewrite split_from_word, app_nil_r, Hf by done. change (is_space 32) with true. cbn iota.
    by rewrite IH.
Qed.

(** A line made of words. *)
Definition line_char (c : Z) : bool := is_word_char c || (c =? 32).

Lemma line_char_plain c : line_char c = true →
  is_line_break c = false ∧ (c =? 13) = false ∧ is_ascii c.
Proof. unfold line_char, is_word_char, is_line_break, is_ascii. lia. Qed.

Lemma join_space_chars ts : forallb is_word ts = true → forallb line_char (join_space ts) = true.
Proof.
  induction ts as [|t ts IH]; [done|]. cbn [forallb]. intros [Ht Hts]%andb_true_iff.
  assert (forallb line_char t = true) as Hl.
  { unfold is_word in Ht. apply andb_true_iff in Ht as [_ Ht]. rewrite forallb_forall in Ht |- *.
    intros c Hc. unfold line_char. by rewrite (Ht c Hc). }
  destruct ts as [|t' ts]; [done|].
  change (join_space (t :: t' :: ts)) with (t ++ 32 :: join_space (t' :: ts)).
  rewrite forallb_app, Hl. cbn [forallb]. by rewrite IH.
Qed.

Lemma lstrip_word c s : is_word_char c = true → lstrip (c :: s) = c :: s.
Proof. intros Hc. cbn. by destruct (word_char_visible c Hc) as [-> _]. Qed.

Lemma join_space_last ts :
  forallb is_word ts = true → ts ≠ [] → ∃ s c, join_space ts = s ++ [c] ∧ is_word_char c = true.
Proof.
  induction ts as [|t ts IH]; [done|]. cbn [forallb]. intros [Ht Hts]%andb_true_iff _.
  destruct ts as [|t' ts].
  - unfold is_word in Ht. apply andb_true_iff in Ht as [Hne Hch].
    apply negb_true_iff, bool_decide_eq_false in Hne. cbn.
    destruct t as [|c t _] using rev_ind; [done|]. exists t, c. split; [done|].
    rewrite forallb_app in Hch. apply andb_true_iff in Hch as [_ Hch]. cbn in Hch. by destruct (is_word_char c).
  - destruct IH as (s & c & E & Hc); [done..|].
    change (join_space (t :: t' :: ts)) with (t ++ 32 :: join_space (t' :: ts)).
    rewrite E. exists (t ++ 32 :: s), c. split; [|done]. by rewrite <-app_assoc.
Qed.

Lemma strip_join ts : forallb is_word ts = true → strip (join_space ts) = join_space ts.
Proof.
  intros Hts. destruct ts as [|t ts]; [done|].
  assert (∃ c s, join_space (t :: ts) = c :: s ∧ is_word_char c = true) as (c & s & E & Hc).
  { cbn [forallb] in Hts. apply andb_true_iff in Hts as [Ht _].
    destruct (is_word_cons t Ht) as (c & t' & -> & Hc). destruct ts; cbn; eauto. }
  unfold strip. rewrite E, lstrip_word by done. rewrite <-E.
  destruct (join_space_last (t :: ts) Hts) as (s' & d & -> & Hd); [done|].
  rewrite rev_app_distr. cbn [rev app]. rewrite lstrip_word by done.
  cbn [rev]. by rewrite rev_involutive.
Qed.

Lemma splitlines_line cur l s :
  forallb line_char l = true →
  splitlines_from cur (l ++ 10 :: s) = rev (rev l ++ default [] cur) :: splitlines_from None s.
Proof.
  revert cur. induction l as [|c l IH]; intros cur.
  - intros _. cbn [app splitlines_from rev]. change (is_line_break 10) with true. cbn iota.
    change (10 =? 13) with false. cbn [andb]. by destruct s.
  - cbn [forallb app splitlines_from]. intros [Hc Hl]%andb_true_iff.
    destruct (line_char_plain c Hc) as [-> _]. rewrite IH by done.
    cbn [default rev]. by rewrite <-app_assoc.
Qed.

Lemma splitlines_unlines ls : forallb (forallb line_char) ls = true → splitlines (unlines ls) = ls.
Proof.
  unfold splitlines. induction ls as [|l ls IH]; [done|]. cbn [forallb].
  intros [Hl Hls]%andb_true_iff. change (unlines (l :: ls)) with ((l ++ [10]) ++ unlines ls).
  rewrite <-app_assoc. cbn [app]. rewrite splitlines_line by done. cbn [default].
  rewrite app_nil_r, rev_involutive. f_equal. by apply IH.
Qed.

Lemma universal_newlines_id s : forallb (λ c, negb (c =? 13)) s = true → universal_newlines s = s.
Proof.
  induction s as [|c s IH]; [done|]. cbn [forallb universal_newlines].
  intros [Hc%negb_true_iff Hs]%andb_true_iff. rewrite Hc. by rewrite IH.
Qed.

(** A text of plain lines, written to a file as UTF-8, reads back as the text. *)
Lemma read_text_unlines ls :
  forallb (forallb line_char) ls = true → read_text (Z_to_byte <$> unlines ls) = Ok (unlines ls).
Proof.
  intros Hls.
  assert (∀ c, c ∈ unlines ls → (c =? 13) = false ∧ is_ascii c) as Hc.
  { intros c (l & Hin & Hl)%list_elem_of_bind. rewrite forallb_forall in Hls.
    apply list_elem_of_In in Hl. specialize (Hls l Hl). rewrite forallb_forall in Hls.
    apply elem_of_app in Hin as [Hin| ->%list_elem_of_singleton]; [|unfold is_ascii; lia].
    apply list_elem_of_In in Hin. by destruct (line_char_plain c (Hls c Hin)) as (_ & ? & ?). }
  unfold read_text, decode_utf8. destruct (utf8_ascii (unlines ls)) as [_ ->].
  { apply Forall_forall. intros c Hin. by apply Hc. }
  cbn. f_equal. apply universal_newlines_id, forallb_forall. intros c Hin.
  apply list_elem_of_In in Hin. by destruct (Hc c Hin) as [-> _].
Qed.
