(* ===== verification/PyFloat.v ===== *)
(** * Binary64 floats: correct rounding and [repr]

    A Python [float] is an IEEE binary64 number.  A finite one is kept in
    canonical form: [m * 2^e] with [m < 2^53], and [m >= 2^52] unless [e] is
    the least exponent. *)

From S2P Require Import Prelude PyStruct PyText.

#[local] Open Scope Z_scope.

Inductive double :=
  | DFin (neg : bool) (m e : Z)
  | DInf (neg : bool)
  | DNaN.

#[global] Instance double_eq_dec : EqDecision double.
Proof. solve_decision. Defined.

Definition EMIN : Z := -1074.
Definition EMAX : Z := 971.

(** [num / den] rounded to the nearest integer, ties to even. *)
Definition round_even (num den : Z) : Z :=
  let q := num / den in
  match Z.compare (2 * (num mod den)) den with
  | Lt => q
  | Gt => q + 1
  | Eq => if Z.even q then q else q + 1
  end.

(** [num / den] scaled by [2^(-e)], as a ratio. *)
Definition scaled (num den e : Z) : Z * Z :=
  if e <? 0 then (num * 2 ^ (- e), den) else (num, den * 2 ^ e).

(** The largest [l] with [2^l <= num / den]. *)
Definition floor_log2 (num den : Z) : Z :=
  let l := Z.log2 num - Z.log2 den in
  let '(n, d) := scaled num den l in
  if n <? d then l - 1 else l.

(** The number nearest to [num / den], ties to even, in the binary format
    with [prec] bits and exponents between [emin] and [emax]. *)
Definition round_ratio (prec emin emax : Z) (neg : bool) (num den : Z) : double :=
  if num =? 0 then DFin neg 0 emin else
  let e := Z.max (floor_log2 num den - (prec - 1)) emin in
  let '(n, d) := scaled num den e in
  let q := round_even n d in
  let '(q, e) := if q =? 2 ^ prec then (2 ^ (prec - 1), e + 1) else (q, e) in
  if emax <? e then DInf neg else DFin neg q e.

Definition double_of_ratio : bool → Z → Z → double := round_ratio 53 EMIN EMAX.

(** A [float] stored in a C [float]: rounded to binary32. *)
Definition c_float_of (d : double) : double :=
  match d with
  | DFin neg m e =>
      if e <? 0 then round_ratio 24 (-149) 104 neg m (2 ^ (- e))
      else round_ratio 24 (-149) 104 neg (m * 2 ^ e) 1
  | d => d
  end.

(** [float(s)] of the decimal [digits * 10^x]. *)
Definition double_of_decimal (neg : bool) (n x : Z) : double :=
  if x <? 0 then double_of_ratio neg n (10 ^ (- x)) else double_of_ratio neg (n * 10 ^ x) 1.

(** [float(z)] of an [int]; an [int] beyond the range raises
    [OverflowError], here [None]. *)
Definition double_of_Z (z : Z) : option double :=
  match double_of_ratio (z <? 0) (Z.abs z) 1 with
  | DInf _ => None
  | d => Some d
  end.

(** ** Decimal formatting *)

(** The least [k] with [num / den < 10^k] among the candidates the binary
    exponent leaves. *)
Definition decimal_point (num den : Z) : Z :=
  let est := floor_log2 num den * 1233 / 4096 in
  let below k := if k <? 0 then num * 10 ^ (- k) <? den else num <? den * 10 ^ k in
  if below est then est else if below (est + 1) then est + 1 else est + 2.

Fixpoint strip_zeros_rev (ds : list Z) : list Z :=
  match ds with
  | 0 :: (_ :: _) as ds' => strip_zeros_rev ds'
  | _ => ds
  end.

Definition zeros (n : Z) : list Z := replicate (Z.to_nat n) 48.

(** The text of [0.d1d2... * 10^decpt] in [repr] style. *)
Definition format_decimal (ds : list Z) (decpt : Z) : pystr :=
  let cs := digit_char <$> ds in
  let len := Z.of_nat (length ds) in
  if (-4 <? decpt) && (decpt <=? 16) then
    if decpt <=? 0 then str "0." ++ zeros (- decpt) ++ cs
    else if len <=? decpt then cs ++ zeros (decpt - len) ++ str ".0"
    else take (Z.to_nat decpt) cs ++ str "." ++ drop (Z.to_nat decpt) cs
  else
    let x := decpt - 1 in
    let xs := digits (Z.abs x) in
    take 1 cs ++ (if len =? 1 then [] else str "." ++ drop 1 cs) ++
    str "e" ++ (if x <? 0 then str "-" else str "+") ++
    (if Z.abs x <? 10 then str "0" else []) ++ (digit_char <$> xs).

(** The [p]-digit decimals next to [num / den], the nearest one first. *)
Definition candidates (num den : Z) (p : Z) : list pystr :=
  let k := decimal_point num den in
  let '(n, d) := if p - k <? 0 then (num, den * 10 ^ (k - p)) else (num * 10 ^ (p - k), den) in
  (λ c, let ds := digits c in
        format_decimal (rev (strip_zeros_rev (rev ds))) (k + Z.of_nat (length ds) - p))
  <$> [round_even n d; n / d; n / d + 1].

(** The texts tried for a finite float, shortest first. *)
Definition repr_candidates (m e : Z) : list pystr :=
  if m =? 0 then [str "0.0"] else
  let '(num, den) := if e <? 0 then (m, 2 ^ (- e)) else (m * 2 ^ e, 1) in
  mjoin (candidates num den <$> (Z.of_nat <$> seq 1 17)).
