(* ===== verification/Json.v ===== *)
(** * The JSON codec the replay format relies on

    [replay_format.py] stores its metadata as a JSON object.  This file
    states what it needs of [json.dumps] and [json.loads]. *)

From S2P Require Import Prelude.

#[local] Open Scope Z_scope.

(** The metadata dictionaries, their two codec functions and Python's [==].

    - [jdict_ok] holds of the dictionaries JSON represents: keys are unique,
      and no text has a high surrogate directly followed by a low one (the
      pair is written as the one character it encodes);
    - [json_dumps] is [json.dumps(m, sort_keys=True).encode("utf-8")];
    - [json_loads] is [json.loads(b.decode("utf-8"))], [None] standing for
      a JSON value that is not an object;
    - [jdict_eqb] is [==] between two dictionaries;
    - [jdict_equiv] relates dictionaries with the same entries, whatever
      their insertion order. *)
Class JsonCodec := {
  jdict : Type;
  jdict_ok : jdict → bool;
  json_dumps : jdict → result bytes;
  json_loads : bytes → result (option jdict);
  jdict_eqb : jdict → jdict → bool;
  jdict_equiv : jdict → jdict → Prop;
  jdict_equiv_equivalence :: Equivalence jdict_equiv;
  jdict_eqb_sym m m' : jdict_eqb m m' = jdict_eqb m' m;
  json_loads_dumps m bs :
    jdict_ok m = true → json_dumps m = Ok bs →
    ∃ m', json_loads bs = Ok (Some m') ∧ jdict_equiv m' m;
  json_loads_ok bs m : json_loads bs = Ok (Some m) → jdict_ok m = true;
  json_loads_error bs e : json_loads bs = Err e → e = UnicodeDecodeError ∨ e = JSONDecodeError ∨
    ∃ msg, e = ValueError msg;
}.
