(* ===== verification/PyJson.v ===== *)
(** * JSON as [json.dumps] and [json.loads] implement it

    The metadata codec of the replay format: values, the printer with
    [sort_keys=True] and the default separators, the scanner, and the proof
    that they satisfy the interface [JsonCodec]. *)

From S2P Require Import Prelude PyStruct PyText PyFloat Json.

#[local] Open Scope Z_scope.

#[local] Set Warnings "-register-all".

Inductive jval :=
  | JNull
  | JBool (b : bool)
  | JInt (z : Z)
  | JFloat (d : double)
  | JStr (s : pystr)
  | JArr (l : list jval)
  | JObj (l : list (pystr * jval)).

(** ** Numbers *)

Fixpoint span_digits (s : pystr) : pystr * pystr :=
  match s with
  | c :: s' => if is_digit c then let '(ds, r) := span_digits s' in (c :: ds, r) else ([], s)
  | [] => ([], [])
  end.

(** [0|[1-9][0-9]*] *)
Definition lex_int (s : pystr) : option (pystr * pystr) :=
  match s with
  | c :: s' => if c =? 48 then Some ([48], s') else if is_digit c then Some (span_digits s) else None
  | [] => None
  end.

(** [(\.[0-9]+)?] *)
Definition lex_frac (s : pystr) : pystr * pystr :=
  match s with
  | c :: s' =>
      if c =? 46 then
        match span_digits s' with ([], _) => ([], s) | (ds, r) => (ds, r) end
      else ([], s)
  | [] => ([], s)
  end.

Definition lex_sign (s : pystr) : bool * pystr :=
  match s with
  | c :: s' => if c =? 45 then (true, s') else if c =? 43 then (false, s') else (false, s)
  | [] => (false, s)
  end.

(** [([eE][-+]?[0-9]+)?] *)
Definition lex_exp (s : pystr) : option (bool * pystr) * pystr :=
  match s with
  | c :: s' =>
      if (c =? 101) || (c =? 69) then
        let '(sg, s1) := lex_sign s' in
        match span_digits s1 with ([], _) => (None, s) | (ds, r) => (Some (sg, ds), r) end
      else (None, s)
  | [] => (None, s)
  end.

Definition text_value (s : pystr) : Z := of_digits ((λ c, c - 48) <$> s).

(** The value of a matched number: an [int] when it has neither fraction
    nor exponent. *)
Definition number_value (neg : bool) (ip fp : pystr) (ex : option (bool * pystr)) : result jval :=
  match fp, ex with
  | [], None => n ← digits_int ip; Ok (JInt (if neg : bool then - n else n))
  | _, _ =>
      let x := match ex with
               | Some (sg, ds) => if sg : bool then - text_value ds else text_value ds
               | None => 0
               end in
      Ok (JFloat (double_of_decimal neg (text_value (ip ++ fp)) (x - Z.of_nat (length fp))))
  end.

Definition scan_number (s : pystr) : result (jval * pystr) :=
  let '(neg, s1) := match s with
                    | c :: s' => if c =? 45 then (true, s') else (false, s)
                    | [] => (false, s)
                    end in
  match lex_int s1 with
  | None => Err JSONDecodeError
  | Some (ip, s2) =>
      let '(fp, s3) := lex_frac s2 in
      let '(ex, s4) := lex_exp s3 in
      v ← number_value neg ip fp ex; Ok (v, s4)
  end.

(** ** Strings *)

Definition hex_digit (d : Z) : Z := if d <? 10 then 48 + d else 87 + d.

Definition hex_value (c : Z) : option Z :=
  if is_digit c then Some (c - 48)
  else if (97 <=? c) && (c <=? 102) then Some (c - 87)
  else if (65 <=? c) && (c <=? 70) then Some (c - 55)
  else None.

Definition hex4 (a b c d : Z) : option Z :=
  a ← hex_value a; b ← hex_value b; c ← hex_value c; d ← hex_value d;
  Some (((a * 16 + b) * 16 + c) * 16 + d).

Definition is_high (c : Z) : bool := (0xd800 <=? c) && (c <=? 0xdbff).
Definition is_low (c : Z) : bool := (0xdc00 <=? c) && (c <=? 0xdfff).
Definition join_surrogates (h l : Z) : Z := 0x10000 + (h - 0xd800) * 1024 + (l - 0xdc00).

(** [\uXXXX] *)
Definition u_escape (c : Z) : pystr :=
  str "\u" ++ [hex_digit (c / 4096); hex_digit (c / 256 mod 16);
               hex_digit (c / 16 mod 16); hex_digit (c mod 16)].

(** The escapes with a letter of their own, as (letter, character). *)
Definition short_escapes : list (Z * Z) :=
  [(34, 34); (92, 92); (110, 10); (114, 13); (116, 9); (102, 12); (98, 8)].

Definition escape_char (c : Z) : pystr :=
  match find (λ p, snd p =? c) short_escapes with
  | Some (l, _) => [92; l]
  | None =>
      if (32 <=? c) && (c <=? 126) then [c]
      else if c <? 0x10000 then u_escape c
      else u_escape (0xd800 + (c - 0x10000) / 1024) ++ u_escape (0xdc00 + (c - 0x10000) mod 1024)
  end.

(** [py_encode_basestring_ascii] without the opening quote. *)
Definition escape_body (s : pystr) : pystr := (s ≫= escape_char) ++ [34].

(** The character of a one-letter escape ([\/] is read but never written). *)
Definition unescape (l : Z) : option Z :=
  if l =? 47 then Some 47 else snd <$> find (λ p, fst p =? l) short_escapes.

(** [scanstring], [s] starting after the opening quote. *)
Fixpoint scan_string (s : pystr) : result (pystr * pystr) :=
  let cons c rec := '(t, r) ← rec; Ok (c :: t, r) in
  match s with
  | [] => Err JSONDecodeError
  | c :: s1 =>
      if c =? 34 then Ok ([], s1)
      else if c =? 92 then
        match s1 with
        | [] => Err JSONDecodeError
        | l :: s2 =>
            if l =? 117 then
              match s2 with
              | h1 :: h2 :: h3 :: h4 :: s6 =>
                  match hex4 h1 h2 h3 h4 with
                  | None => Err JSONDecodeError
                  | Some u =>
                      match s6 with
                      | b :: v :: g1 :: g2 :: g3 :: g4 :: s12 =>
                          match hex4 g1 g2 g3 g4 with
                          | Some u' =>
                              if is_high u && (b =? 92) && (v =? 117) && is_low u'
                              then cons (join_surrogates u u') (scan_string s12)
                              else cons u (scan_string s6)
                          | None => cons u (scan_string s6)
                          end
                      | _ => cons u (scan_string s6)
                      end
                  end
              | _ => Err JSONDecodeError
              end
            else match unescape l with
            | Some x => cons x (scan_string s2)
            | None => Err JSONDecodeError
            end
        end
      else if c <=? 31 then Err JSONDecodeError
      else cons c (scan_string s1)
  end.

(** ** [json.dumps(v, sort_keys=True)] *)

(** The first text that scans back to the float; [repr] of a float is the
    shortest such text. *)
Definition float_repr (d : double) : result pystr :=
  match d with
  | DNaN => Ok (str "NaN")
  | DInf neg => Ok ((if neg then str "-" else []) ++ str "Infinity")
  | DFin neg m e =>
      let cands := (λ t, (if neg then str "-" else []) ++ t) <$> repr_candidates m e in
      match find (λ t, match scan_number t with
                       | Ok (JFloat d', []) => bool_decide (d' = d)
                       | _ => false
                       end) cands with
      | Some t => Ok t
      | None => Err OutOfFuel
      end
  end.

Definition sep_join (l : list pystr) : pystr :=
  match l with
  | [] => []
  | x :: l => x ++ (l ≫= λ t, str ", " ++ t)
  end.

(** The results of a list of computations, or the first error. *)
Fixpoint sequence {A} (l : list (result A)) : result (list A) :=
  match l with
  | [] => Ok []
  | x :: l => a ← x; xs ← sequence l; Ok (a :: xs)
  end.

Definition quote (s : pystr) : pystr := 34 :: escape_body s.

(** One ["key": value] item. *)
Definition member_text (p : pystr * result pystr) : result pystr :=
  t ← snd p; Ok (quote (fst p) ++ str ": " ++ t).

Fixpoint dumps (v : jval) : result pystr :=
  match v with
  | JNull => Ok (str "null")
  | JBool b => Ok (if b then str "true" else str "false")
  | JInt z => int_repr z
  | JFloat d => float_repr d
  | JStr s => Ok (quote s)
  | JArr l => ts ← sequence (map dumps l); Ok (str "[" ++ sep_join ts ++ str "]")
  | JObj l =>
      ts ← sequence (map member_text (sorted_by fst (map (λ '(k, v), (k, dumps v)) l)));
      Ok (str "{" ++ sep_join ts ++ str "}")
  end.

(** ** [json.loads] *)

Definition is_ws (c : Z) : bool := (c =? 32) || (c =? 9) || (c =? 10) || (c =? 13).

Fixpoint skip_ws (s : pystr) : pystr :=
  match s with
  | c :: s' => if is_ws c then skip_ws s' else s
  | [] => []
  end.

(** [s] after the prefix [p], when it has it. *)
Fixpoint strip_prefix (p s : pystr) : option pystr :=
  match p, s with
  | [], _ => Some s
  | a :: p, b :: s => if a =? b then strip_prefix p s else None
  | _ :: _, [] => None
  end.

(** [d[k] = v] on an insertion-ordered dictionary. *)
Fixpoint dict_set {V} (k : pystr) (v : V) (d : list (pystr * V)) : list (pystr * V) :=
  match d with
  | [] => [(k, v)]
  | (k', v') :: d => if decide (k' = k) then (k', v) :: d else (k', v') :: dict_set k v d
  end.

Definition dict_pairs {V} (l : list (pystr * V)) : list (pystr * V) :=
  foldl (λ d p, dict_set (fst p) (snd p) d) [] l.

Definition keywords : list (pystr * jval) :=
  [(str "null", JNull); (str "true", JBool true); (str "false", JBool false);
   (str "NaN", JFloat DNaN); (str "Infinity", JFloat (DInf false));
   (str "-Infinity", JFloat (DInf true))].

Definition scan_keyword (s : pystr) : option (jval * pystr) :=
  head (omap (λ '(k, v), r ← strip_prefix k s; Some (v, r)) keywords).

(** [scan_once] at the start of [s]; [scan_items] and [scan_members] are the
    loops of [JSONArray] and [JSONObject] after the first opening. *)
Fixpoint scan_value (fuel : nat) (s : pystr) : result (jval * pystr) :=
  match fuel with
  | O => Err OutOfFuel
  | S fuel =>
      match s with
      | [] => Err JSONDecodeError
      | c :: s' =>
          if c =? 34 then '(t, r) ← scan_string s'; Ok (JStr t, r)
          else if c =? 91 then
            match skip_ws s' with
            | [] => Err JSONDecodeError
            | d :: r => if d =? 93 then Ok (JArr [], r)
                        else '(l, r) ← scan_items fuel (d :: r); Ok (JArr l, r)
            end
          else if c =? 123 then
            match skip_ws s' with
            | [] => Err JSONDecodeError
            | d :: r => if d =? 125 then Ok (JObj [], r)
                        else '(l, r) ← scan_members fuel (d :: r); Ok (JObj (dict_pairs l), r)
            end
          else match scan_keyword s with
          | Some vr => Ok vr
          | None => scan_number s
          end
      end
  end
with scan_items (fuel : nat) (s : pystr) : result (list jval * pystr) :=
  match fuel with
  | O => Err OutOfFuel
  | S fuel =>
      '(v, r) ← scan_value fuel s;
      match skip_ws r with
      | [] => Err JSONDecodeError
      | c :: r =>
          if c =? 93 then Ok ([v], r)
          else if c =? 44 then '(l, r) ← scan_items fuel (skip_ws r); Ok (v :: l, r)
          else Err JSONDecodeError
      end
  end
with scan_members (fuel : nat) (s : pystr) : result (list (pystr * jval) * pystr) :=
  match fuel with
  | O => Err OutOfFuel
  | S fuel =>
      match s with
      | [] => Err JSONDecodeError
      | q :: s =>
          if negb (q =? 34) then Err JSONDecodeError else
          '(k, r) ← scan_string s;
          match skip_ws r with
          | [] => Err JSONDecodeError
          | c :: r =>
              if negb (c =? 58) then Err JSONDecodeError else
              '(v, r) ← scan_value fuel (skip_ws r);
              match skip_ws r with
              | [] => Err JSONDecodeError
              | c :: r =>
                  if c =? 125 then Ok ([(k, v)], r)
                  else if c =? 44 then
                    '(l, r) ← scan_members fuel (skip_ws r); Ok ((k, v) :: l, r)
                  else Err JSONDecodeError
              end
          end
      end
  end.

(** A value needs at most two nested calls per character of its text. *)
Definition loads (s : pystr) : result jval :=
  raise_if (match s with c :: _ => c =? 0xfeff | [] => false end) JSONDecodeError;;
  let s := skip_ws s in
  '(v, r) ← scan_value (2 * length s + 1) s;
  match skip_ws r with [] => Ok v | _ => Err JSONDecodeError end.

(** ** Dictionaries *)

(** Entries in key order, at every level. *)
Fixpoint norm (v : jval) : jval :=
  match v with
  | JArr l => JArr (map norm l)
  | JObj l => JObj (sorted_by fst (map (λ '(k, v), (k, norm v)) l))
  | v => v
  end.

(** [==] also identifies numbers of different types: a number becomes its
    value [n * 2^e], [n] odd or zero. *)
Fixpoint odd_part (fuel : nat) (n e : Z) : Z * Z :=
  match fuel with
  | O => (n, e)
  | S fuel => if Z.even n then odd_part fuel (n / 2) (e + 1) else (n, e)
  end.

Definition number_canon (neg : bool) (n e : Z) : jval :=
  let '(n, e) := if n =? 0 then (0, 0) else odd_part (Z.to_nat (Z.log2 n)) n e in
  JFloat (DFin (negb (n =? 0) && neg) n e).

Fixpoint canon (v : jval) : jval :=
  match v with
  | JBool b => number_canon false (if b then 1 else 0) 0
  | JInt z => number_canon (z <? 0) (Z.abs z) 0
  | JFloat (DFin neg m e) => number_canon neg m e
  | JArr l => JArr (map canon l)
  | JObj l => JObj (sorted_by fst (map (λ '(k, v), (k, canon v)) l))
  | v => v
  end.

(** A [str] whose code points are in range, without a high surrogate
    directly followed by a low one. *)
Fixpoint text_ok (s : pystr) : bool :=
  match s with
  | [] => true
  | c :: s' => (0 <=? c) && (c <=? 0x10ffff) &&
               negb (is_high c && match s' with c' :: _ => is_low c' | [] => false end) && text_ok s'
  end.

(** Keys are unique and every text is well formed. *)
Fixpoint value_ok (v : jval) : bool :=
  match v with
  | JStr s => text_ok s
  | JArr l => forallb value_ok l
  | JObj l => bool_decide (NoDup (map fst l)) && forallb (λ p, text_ok (fst p) && value_ok (snd p)) l
  | _ => true
  end.

(** ** Scanning a number followed by more text *)

(** [rest] does not continue a number. *)
Definition stops (rest : pystr) : bool :=
  match rest with
  | c :: _ => negb (is_digit c || existsb (Z.eqb c) [46; 101; 69; 43; 45])
  | [] => true
  end.

Lemma stops_not rest c r : stops rest = true → rest = c :: r →
  is_digit c = false ∧ (c =? 46) = false ∧ (c =? 101) = false ∧ (c =? 69) = false ∧
  (c =? 43) = false ∧ (c =? 45) = false.
Proof. intros Hs ->. cbn [stops existsb] in Hs. rewrite negb_true_iff, !orb_false_iff in Hs. tauto. Qed.

Lemma span_digits_stop rest : stops rest = true → span_digits rest = ([], rest).
Proof.
  destruct rest as [|c r]; [done|]. intros Hs. destruct (stops_not _ c r Hs eq_refl) as [Hd _].
  cbn. by rewrite Hd.
Qed.

Lemma span_digits_app s rest ds r :
  stops rest = true → span_digits s = (ds, r) → span_digits (s ++ rest) = (ds, r ++ rest).
Proof.
  intros Hs. revert ds r. induction s as [|c s IH]; intros ds r.
  { cbn [span_digits app]. intros [= <- <-]. by apply span_digits_stop. }
  cbn. destruct (is_digit c); [|by intros [= <- <-]].
  destruct (span_digits s) as [ds' r']. intros [= <- <-]. by rewrite (IH ds' r').
Qed.

Lemma lex_int_app s rest ip r :
  stops rest = true → lex_int s = Some (ip, r) → lex_int (s ++ rest) = Some (ip, r ++ rest).
Proof.
  intros Hs. destruct s as [|c s]; [done|]. unfold lex_int. cbn [app].
  destruct (c =? 48); [by intros [= <- <-]|]. destruct (is_digit c); [|done].
  intros [= E]. f_equal. by apply (span_digits_app (c :: s)).
Qed.

Lemma lex_frac_app s rest fp r :
  stops rest = true → lex_frac s = (fp, r) → lex_frac (s ++ rest) = (fp, r ++ rest).
Proof.
  intros Hs. destruct s as [|c s].
  { intros [= <- <-]. destruct rest as [|c r]; [done|].
    destruct (stops_not _ c r Hs eq_refl) as (_ & H46 & _). cbn. by rewrite H46. }
  unfold lex_frac. cbn [app]. destruct (c =? 46); [|by intros [= <- <-]].
  destruct (span_digits s) as [ds r'] eqn:E. rewrite (span_digits_app _ _ _ _ Hs E).
  by destruct ds; intros [= <- <-].
Qed.

Lemma lex_sign_app s rest sg r :
  stops rest = true → lex_sign s = (sg, r) → lex_sign (s ++ rest) = (sg, r ++ rest).
Proof.
  intros Hs. destruct s as [|c s].
  { intros [= <- <-]. destruct rest as [|c r]; [done|].
    destruct (stops_not _ c r Hs eq_refl) as (_ & _ & _ & _ & H43 & H45). cbn. by rewrite H43, H45. }
  unfold lex_sign. cbn [app]. destruct (c =? 45), (c =? 43); by intros [= <- <-].
Qed.

Lemma lex_exp_app s rest ex r :
  stops rest = true → lex_exp s = (ex, r) → lex_exp (s ++ rest) = (ex, r ++ rest).
Proof.
  intros Hs. destruct s as [|c s].
  { intros [= <- <-]. destruct rest as [|c r]; [done|].
    destruct (stops_not _ c r Hs eq_refl) as (_ & _ & H1 & H2 & _). cbn. by rewrite H1, H2. }
  unfold lex_exp. cbn [app]. destruct (_ || _); [|by intros [= <- <-]].
  destruct (lex_sign s) as [sg s1] eqn:E1. rewrite (lex_sign_app _ _ _ _ Hs E1).
  destruct (span_digits s1) as [ds r'] eqn:E. rewrite (span_digits_app _ _ _ _ Hs E).
  by destruct ds; intros [= <- <-].
Qed.

Lemma scan_number_app s rest v r :
  stops rest = true → scan_number s = Ok (v, r) → scan_number (s ++ rest) = Ok (v, r ++ rest).
Proof.
  intros Hs. destruct s as [|c s]; [done|]. unfold scan_number. cbn [app].
  rewrite app_comm_cons. remember (c :: s) as s0.
  destruct (if c =? 45 then (true, s) else (false, s0)) as [neg s1] eqn:E1.
  replace (if c =? 45 then (true, s ++ rest) else (false, s0 ++ rest)) with (neg, s1 ++ rest)
    by (revert E1; by destruct (c =? 45); intros [= <- <-]).
  destruct (lex_int s1) as [[ip s2]|] eqn:E2; [|done]. rewrite (lex_int_app _ _ _ _ Hs E2).
  destruct (lex_frac s2) as [fp s3] eqn:E3. rewrite (lex_frac_app _ _ _ _ Hs E3).
  destruct (lex_exp s3) as [ex s4] eqn:E4. rewrite (lex_exp_app _ _ _ _ Hs E4).
  intros Hv. inv_result. rewrite Hx. done.
Qed.

Lemma span_digits_all ds : Forall (λ c, is_digit c = true) ds → span_digits ds = (ds, []).
Proof. induction 1 as [|c ds Hc _ IH]; [done|]. cbn. by rewrite Hc, IH. Qed.

Lemma lex_int_digits n :
  0 ≤ n → lex_int (digit_char <$> digits n) = Some (digit_char <$> digits n, []).
Proof.
  intros Hn. pose proof (digit_char_is_digit _ (digits_ok n Hn)) as Hd.
  destruct (decide (n = 0)) as [->|Hz]; [done|].
  destruct (digits_head n) as (d & ds & E & Hr); [lia|]. rewrite E in *.
  pose proof (span_digits_all _ Hd) as Hsp. cbn [fmap list_fmap] in *. unfold lex_int.
  replace (digit_char d =? 48) with false by (unfold digit_char; lia).
  apply Forall_cons in Hd as [-> _]. by rewrite Hsp.
Qed.

Lemma digits_not_minus n c s :
  0 ≤ n → digit_char <$> digits n = c :: s → (c =? 45) = false.
Proof.
  intros Hn E. pose proof (digit_char_is_digit _ (digits_ok n Hn)) as Hd.
  rewrite E in Hd. apply Forall_cons in Hd as [Hc _]. unfold is_digit in Hc. bool_hyps. lia.
Qed.

(** An [int] scans back to itself. *)
Lemma scan_number_int z t : int_repr z = Ok t → scan_number t = Ok (JInt z, []).
Proof.
  unfold int_repr. intros Ht. inv_result. apply int_limit_Ok in Hx.
  pose proof (lex_int_digits (Z.abs z) ltac:(lia)) as Hlex.
  pose proof (digits_int_digits (Z.abs z) ltac:(lia) Hx) as Hv.
  unfold scan_number. destruct (Z.ltb_spec z 0).
  - remember (digit_char <$> digits (Z.abs z)) as t eqn:Et. change (str "-") with [45]. cbn [app].
    change (45 =? 45) with true. cbn iota. rewrite Hlex. cbn. rewrite Hv. cbn. do 3 f_equal. lia.
  - cbn [app]. destruct (digit_char <$> digits (Z.abs z)) as [|c s] eqn:E; [done|].
    rewrite (digits_not_minus (Z.abs z) c s) by (done || lia).
    rewrite Hlex. cbn. rewrite Hv. cbn. do 3 f_equal. lia.
Qed.

Lemma scan_number_float neg m e t :
  float_repr (DFin neg m e) = Ok t → scan_number t = Ok (JFloat (DFin neg m e), []).
Proof.
  unfold float_repr. destruct (find _ _) as [t'|] eqn:E; [|done]. intros [= <-].
  apply find_some in E as [_ E]. destruct (scan_number t') as [[[] []]|]; try done.
  by apply bool_decide_eq_true in E as ->.
Qed.

(** ** Strings *)

Lemma hex_value_digit d : 0 ≤ d < 16 → hex_value (hex_digit d) = Some d.
Proof.
  intros Hd. unfold hex_value, hex_digit, is_digit. destruct (Z.ltb_spec d 10).
  - replace ((48 <=? 48 + d) && (48 + d <=? 57)) with true by lia. f_equal. lia.
  - replace ((48 <=? 87 + d) && (87 + d <=? 57)) with false by lia.
    replace ((97 <=? 87 + d) && (87 + d <=? 102)) with true by lia. f_equal. lia.
Qed.

Lemma hex4_u_escape c : 0 ≤ c < 65536 →
  ∃ a b d e, u_escape c = [92; 117; a; b; d; e] ∧ hex4 a b d e = Some c.
Proof.
  intros Hc. unfold u_escape. do 4 eexists. split; [done|]. unfold hex4.
  pose proof (Z.mod_pos_bound (c / 256) 16). pose proof (Z.mod_pos_bound (c / 16) 16).
  pose proof (Z.mod_pos_bound c 16).
  assert (0 ≤ c / 4096 < 16) by (split; [apply Z.div_pos; lia|apply Z.div_lt_upper_bound; lia]).
  rewrite !hex_value_digit by lia. cbn. f_equal.
  pose proof (Z.div_mod c 16). pose proof (Z.div_mod (c / 16) 16). pose proof (Z.div_mod (c / 256) 16).
  rewrite !Z.div_div in * by lia. change (16 * 16) with 256 in *. change (256 * 16) with 4096 in *. lia.
Qed.

(** What follows a string's characters: another escaped string body does not
    start with the escape of a low surrogate unless the string does. *)
Definition low_escape (s : pystr) : bool :=
  match s with
  | b :: v :: g1 :: g2 :: g3 :: g4 :: _ =>
      match hex4 g1 g2 g3 g4 with Some u => (b =? 92) && (v =? 117) && is_low u | None => false end
  | _ => false
  end.

Lemma scan_string_u c s : 0 ≤ c < 65536 →
  is_high c && low_escape s = false →
  scan_string (u_escape c ++ s) = ('(t, r) ← scan_string s; Ok (c :: t, r)).
Proof.
  intros Hc Hl. destruct (hex4_u_escape c Hc) as (a & b & d & e & -> & Hh).
  cbn [app scan_string]. change (92 =? 34) with false. change (92 =? 92) with true.
  change (117 =? 117) with true. cbn iota. rewrite Hh.
  destruct s as [|x1 [|x2 [|x3 [|x4 [|x5 [|x6 s]]]]]]; try done. cbn [low_escape] in Hl.
  destruct (hex4 x3 x4 x5 x6) as [u|]; [|done].
  destruct (is_high c); [|done]. cbn [andb] in *. by rewrite Hl.
Qed.

Lemma scan_string_pair h l s :
  is_high h = true → is_low l = true →
  scan_string (u_escape h ++ u_escape l ++ s) =
  ('(t, r) ← scan_string s; Ok (join_surrogates h l :: t, r)).
Proof.
  intros Hh Hl. unfold is_high, is_low in *. bool_hyps.
  destruct (hex4_u_escape h) as (a & b & d & e & -> & Eh); [lia|].
  destruct (hex4_u_escape l) as (a' & b' & d' & e' & -> & El); [lia|].
  cbn [app scan_string]. change (92 =? 34) with false. change (92 =? 92) with true.
  change (117 =? 117) with true. cbn iota. rewrite Eh, El. unfold is_high, is_low.
  replace (_ && _) with true; [done|]. symmetry. rewrite !andb_true_iff, !Z.leb_le. lia.
Qed.

Inductive escape_kind (c : Z) : pystr → Prop :=
  | EscShort l : l ≠ 117 → unescape l = Some c → escape_kind c [92; l]
  | EscPlain : 32 ≤ c ≤ 126 → c ≠ 34 → c ≠ 92 → escape_kind c [c]
  | EscUnit : 0 ≤ c < 65536 → escape_kind c (u_escape c)
  | EscPair h l : is_high h = true → is_low l = true → join_surrogates h l = c →
      escape_kind c (u_escape h ++ u_escape l).

Lemma find_short_escape c l c' :
  find (λ p, snd p =? c) short_escapes = Some (l, c') → l ≠ 117 ∧ unescape l = Some c.
Proof.
  unfold short_escapes. cbn [find snd].
  repeat match goal with
  | |- context [?a =? c] => destruct (Z.eqb_spec a c) as [<-|]; [by intros [= <- <-]|]
  end. done.
Qed.

Lemma find_no_short_escape c : find (λ p, snd p =? c) short_escapes = None → c ≠ 34 ∧ c ≠ 92.
Proof. intros Hf. split; intros ->; by vm_compute in Hf. Qed.

Lemma escape_char_kind c : 0 ≤ c ≤ 0x10ffff → escape_kind c (escape_char c).
Proof.
  intros Hc. unfold escape_char. destruct (find _ _) as [[l c']|] eqn:E.
  { apply find_short_escape in E as [? ?]. by constructor. }
  apply find_no_short_escape in E as [? ?].
  destruct ((32 <=? c) && (c <=? 126)) eqn:Ep; [bool_hyps; by constructor|].
  destruct (Z.ltb_spec c 65536); [constructor; lia|].
  assert (0 ≤ (c - 65536) / 1024 < 1024).
  { split; [apply Z.div_pos; lia|apply Z.div_lt_upper_bound; lia]. }
  pose proof (Z.mod_pos_bound (c - 65536) 1024 ltac:(lia)).
  pose proof (Z.div_mod (c - 65536) 1024 ltac:(lia)).
  constructor; unfold is_high, is_low, join_surrogates; lia.
Qed.

Lemma escape_body_cons c s : escape_body (c :: s) = escape_char c ++ escape_body s.
Proof. unfold escape_body. cbn. by rewrite <-app_assoc. Qed.

Lemma text_ok_cons c s : text_ok (c :: s) = true ↔
  0 ≤ c ≤ 0x10ffff ∧ is_high c && match s with c' :: _ => is_low c' | [] => false end = false ∧
  text_ok s = true.
Proof. cbn [text_ok]. rewrite !andb_true_iff, negb_true_iff, !Z.leb_le. tauto. Qed.

Lemma low_escape_u c s : 0 ≤ c < 65536 → low_escape (u_escape c ++ s) = is_low c.
Proof. intros Hc. by destruct (hex4_u_escape c Hc) as (a & b & d & e & -> & Hh); cbn; rewrite Hh. Qed.

Lemma high_range h : is_high h = true → 0 ≤ h < 65536 ∧ is_low h = false.
Proof. unfold is_high, is_low. intros. bool_hyps. lia. Qed.

Lemma low_escape_body s rest : text_ok s = true →
  low_escape (escape_body s ++ rest) = true → match s with c :: _ => is_low c | [] => false end = true.
Proof.
  destruct s as [|c s].
  { intros _. unfold escape_body. cbn [mbind list_bind app low_escape].
    do 5 (destruct rest as [|? rest]; [done|]). by destruct (hex4 _ _ _ _). }
  intros (Hc & _ & _)%text_ok_cons. rewrite escape_body_cons, <-app_assoc.
  set (tail := escape_body s ++ rest). clearbody tail.
  destruct (escape_char_kind c Hc) as [l Hl _|? ? ?|Hr|h l Hh Hl _].
  - cbn. do 4 (try destruct tail as [|? tail]; [done|]). destruct (hex4 _ _ _ _); [|done].
    replace (l =? 117) with false by lia. done.
  - cbn. do 5 (try destruct tail as [|? tail]; [done|]). destruct (hex4 _ _ _ _); [|done].
    replace (c =? 92) with false by lia. done.
  - by rewrite low_escape_u.
  - apply high_range in Hh as [? Hn]. rewrite <-app_assoc, low_escape_u by done. congruence.
Qed.

Lemma scan_escape_body s rest : text_ok s = true → scan_string (escape_body s ++ rest) = Ok (s, rest).
Proof.
  induction s as [|c s IH]; [done|]. intros (Hc & Hp & Hs)%text_ok_cons.
  rewrite escape_body_cons, <-app_assoc. specialize (IH Hs).
  destruct (escape_char_kind c Hc) as [l Hl Hu|? ? ?|Hr|h l Hh Hl <-].
  - cbn [app scan_string]. change (92 =? 34) with false. change (92 =? 92) with true. cbn iota.
    replace (l =? 117) with false by lia. by rewrite Hu, IH.
  - cbn [app scan_string]. replace (c =? 34) with false by lia.
    replace (c =? 92) with false by lia. replace (c <=? 31) with false by lia. by rewrite IH.
  - rewrite scan_string_u; [by rewrite IH|done|].
    destruct (is_high c); [|done]. destruct (low_escape _) eqn:E; [|done].
    apply (low_escape_body s rest Hs) in E. cbn in Hp. congruence.
  - rewrite <-app_assoc, scan_string_pair by done. by rewrite IH.
Qed.

(** ** What the scanners consume *)

(** [s] is [r] after an ASCII prefix. *)
Definition consumes0 (s r : pystr) : Prop := ∃ p, s = p ++ r ∧ Forall is_ascii p.

Lemma consumes0_refl s : consumes0 s s.
Proof. by exists []. Qed.

Lemma consumes0_cons c s r : is_ascii c → consumes0 s r → consumes0 (c :: s) r.
Proof. intros Hc (p & -> & Hp). exists (c :: p). auto. Qed.

Lemma consumes0_trans s r q : consumes0 s r → consumes0 r q → consumes0 s q.
Proof.
  intros (p & -> & Hp) (p' & -> & Hp'). exists (p ++ p'). rewrite app_assoc.
  split; [done|]. by apply Forall_app.
Qed.

Lemma digit_ascii c : is_digit c = true → is_ascii c.
Proof. unfold is_digit, is_ascii. intros. bool_hyps. lia. Qed.

#[local] Hint Resolve consumes0_refl consumes0_cons consumes0_trans digit_ascii : kith.

Lemma span_digits_consumes s ds r : span_digits s = (ds, r) → consumes0 s r.
Proof.
  revert ds r. induction s as [|c s IH]; intros ds r; cbn; [intros [= <- <-]; eauto with kith|].
  destruct (is_digit c) eqn:Ec; [|intros [= <- <-]; eauto with kith].
  destruct (span_digits s) as [ds' r'] eqn:E. intros [= <- <-]. eauto with kith.
Qed.
#[local] Hint Resolve span_digits_consumes : kith.

Lemma lex_frac_consumes s fp r : lex_frac s = (fp, r) → consumes0 s r.
Proof.
  unfold lex_frac. destruct s as [|c s]; [intros [= <- <-]; eauto with kith|].
  destruct (Z.eqb_spec c 46) as [->|]; [|intros [= <- <-]; eauto with kith].
  destruct (span_digits s) as [[|d ds] r'] eqn:E; intros [= <- <-]; [eauto with kith|].
  apply consumes0_cons; [unfold is_ascii; lia|]. eauto with kith.
Qed.

Lemma lex_sign_consumes s sg r : lex_sign s = (sg, r) → consumes0 s r.
Proof.
  unfold lex_sign. destruct s as [|c s]; [intros [= <- <-]; eauto with kith|].
  destruct (Z.eqb_spec c 45); [intros [= <- <-]|destruct (Z.eqb_spec c 43); intros [= <- <-]];
    [|..|eauto with kith]; (apply consumes0_cons; [unfold is_ascii; lia|eauto with kith]).
Qed.

Lemma lex_exp_consumes s ex r : lex_exp s = (ex, r) → consumes0 s r.
Proof.
  unfold lex_exp. destruct s as [|c s]; [intros [= <- <-]; eauto with kith|].
  destruct ((c =? 101) || (c =? 69)) eqn:Ec; [|intros [= <- <-]; eauto with kith].
  destruct (lex_sign s) as [sg s1] eqn:E1. apply lex_sign_consumes in E1.
  destruct (span_digits s1) as [[|d ds] r'] eqn:E; intros [= <- <-]; [eauto with kith|].
  apply consumes0_cons; [|eauto with kith]. unfold is_ascii.
  apply orb_true_iff in Ec as [?|?]; bool_hyps; lia.
Qed.

Lemma lex_int_consumes s ip r : lex_int s = Some (ip, r) →
  ∃ c s', s = c :: s' ∧ is_digit c = true ∧ consumes0 s' r.
Proof.
  destruct s as [|c s]; [done|]. unfold lex_int. destruct (Z.eqb_spec c 48) as [->|].
  { intros [= <- <-]. exists 48, s. eauto with kith. }
  destruct (is_digit c) eqn:Ec; [|done]. intros [= E]. exists c, s. split; [done|]. split; [done|].
  cbn in E. rewrite Ec in E. destruct (span_digits s) as [ds r'] eqn:E'. simplify_eq. eauto with kith.
Qed.

(** A number starts with a digit, or a sign and a digit. *)
Lemma scan_number_consumes s v r : scan_number s = Ok (v, r) →
  ∃ c s', (s = c :: s' ∨ s = 45 :: c :: s') ∧ is_digit c = true ∧ consumes0 s' r.
Proof.
  unfold scan_number. intros Hs.
  destruct (match s with c :: s' => if c =? 45 then (true, s') else (false, s) | [] => (false, s) end)
    as [neg s1] eqn:E1.
  destruct (lex_int s1) as [[ip s2]|] eqn:E2; [|done]. apply lex_int_consumes in E2 as (c & s' & -> & Hc & H2).
  destruct (lex_frac s2) as [fp s3] eqn:E3. apply lex_frac_consumes in E3.
  destruct (lex_exp s3) as [ex s4] eqn:E4. apply lex_exp_consumes in E4.
  inv_result. exists c, s'. split; [|eauto with kith].
  destruct s as [|c0 s]; [by simplify_eq|]. destruct (Z.eqb_spec c0 45); simplify_eq; auto.
Qed.

Lemma scan_number_ascii s v : scan_number s = Ok (v, []) → Forall is_ascii s.
Proof.
  intros (c & s' & Hs & Hc & (p & -> & Hp))%scan_number_consumes. rewrite app_nil_r in Hs.
  apply digit_ascii in Hc. destruct Hs as [-> | ->]; [by constructor|].
  constructor; [unfold is_ascii; lia|by constructor].
Qed.

(** ** Printed values scan back *)

Definition jval_nested_ind (P : jval → Prop)
  (Hnull : P JNull) (Hbool : ∀ b, P (JBool b)) (Hint : ∀ z, P (JInt z)) (Hfloat : ∀ d, P (JFloat d))
  (Hstr : ∀ s, P (JStr s)) (Harr : ∀ l, Forall P l → P (JArr l))
  (Hobj : ∀ l, Forall (λ p, P (snd p)) l → P (JObj l)) : ∀ v, P v :=
  fix go v := match v with
  | JNull => Hnull | JBool b => Hbool b | JInt z => Hint z | JFloat d => Hfloat d | JStr s => Hstr s
  | JArr l => Harr l ((fix all l : Forall P l := match l with
      | [] => Forall_nil_2 P | v :: l => Forall_cons_2 P v l (go v) (all l) end) l)
  | JObj l => Hobj l ((fix all l : Forall (λ p, P (snd p)) l := match l with
      | [] => Forall_nil_2 _ | p :: l => Forall_cons_2 (λ p, P (snd p)) p l (go (snd p)) (all l) end) l)
  end.

(** A value's text starts with none of the characters the array and object
    loops look for. *)
Definition starts (t : pystr) : bool :=
  match t with c :: _ => negb (is_ws c || (c =? 93) || (c =? 125)) | [] => false end.

(** [t] is a text of the value that scans as [v]. *)
Definition scans (v : jval) (t : pystr) : Prop :=
  starts t = true ∧ Forall is_ascii t ∧
  ∀ fuel rest, stops rest = true → (2 * length t + 1 ≤ fuel)%nat →
  scan_value fuel (t ++ rest) = Ok (v, rest).

Lemma skip_ws_starts t rest : starts t = true → skip_ws (t ++ rest) = t ++ rest.
Proof. destruct t as [|c t]; [done|]. cbn. by destruct (is_ws c). Qed.

Lemma scan_keyword_digit c s :
  is_digit c = true → scan_keyword (c :: s) = None ∧ scan_keyword (45 :: c :: s) = None.
Proof.
  intros Hc. unfold is_digit in Hc. bool_hyps. unfold scan_keyword.
  let kw := eval vm_compute in keywords in change keywords with kw.
  assert (∀ a, 57 < a → (a =? c) = false) as Hne by lia.
  assert ((45 =? c) = false) as Hm by lia.
  split; cbn [omap list_omap strip_prefix];
    repeat match goal with
    | |- context [Zpos ?a =? Zpos ?b] =>
        let r := eval vm_compute in (Zpos a =? Zpos b) in change (Zpos a =? Zpos b) with r; cbn iota
    end; rewrite ?Hm; cbn [mbind option_bind]; rewrite !Hne by lia; done.
Qed.

Lemma number_scans t v : scan_number t = Ok (v, []) → scans v t.
Proof.
  intros Hs. pose proof (scan_number_consumes _ _ _ Hs) as (c & s' & Ht & Hc & _).
  split; [|split; [by eapply scan_number_ascii|]].
  { unfold is_digit in Hc. destruct Ht as [-> | ->]; [|done]. unfold starts, is_ws. lia. }
  intros fuel rest Hr Hf. destruct fuel as [|fuel]; [lia|].
  pose proof (scan_number_app _ _ _ _ Hr Hs) as Ha.
  destruct (scan_keyword_digit c (s' ++ rest) Hc) as [Hk1 Hk2]. unfold is_digit in Hc.
  destruct Ht as [-> | ->]; cbn [app] in *; cbn [scan_value].
  - replace (c =? 34) with false by lia. replace (c =? 91) with false by lia.
    replace (c =? 123) with false by lia. by rewrite Hk1.
  - change (45 =? 34) with false. change (45 =? 91) with false. change (45 =? 123) with false.
    cbn iota. by rewrite Hk2.
Qed.

Lemma sequence_Forall2 {A B} (f : A → result B) l ts :
  sequence (map f l) = Ok ts → Forall2 (λ x t, f x = Ok t) l ts.
Proof.
  revert ts. induction l as [|x l IH]; intros ts; cbn; intros Hs; inv_result; [done|].
  by constructor; auto.
Qed.

Lemma sep_join_cons t t' ts : sep_join (t :: t' :: ts) = t ++ str ", " ++ sep_join (t' :: ts).
Proof. cbn [sep_join mbind list_bind]. by rewrite <-app_assoc. Qed.

Lemma skip_ws_char c s : is_ws c = false → skip_ws (c :: s) = c :: s.
Proof. intros Hc. cbn. by rewrite Hc. Qed.

Lemma skip_ws_space s : skip_ws (32 :: s) = skip_ws s.
Proof. done. Qed.

Lemma starts_join t ts : starts t = true → starts (sep_join (t :: ts)) = true.
Proof. by destruct t. Qed.

Lemma scan_items_join vs ts : Forall2 scans vs ts → vs ≠ [] → ∀ fuel rest,
  (2 * length (sep_join ts) + 2 ≤ fuel)%nat →
  scan_items fuel (sep_join ts ++ 93 :: rest) = Ok (vs, rest).
Proof.
  induction 1 as [|v t vs ts (Hst & _ & Hsc) Hall IH]; [done|]. intros _ fuel rest Hf.
  destruct fuel as [|fuel]; [lia|]. destruct Hall as [|v' t' vs ts Hv' Hall].
  - cbn [sep_join mbind list_bind scan_items] in *. rewrite app_nil_r in *.
    rewrite Hsc by (done || lia). done.
  - rewrite sep_join_cons in *. rewrite !length_app in Hf. cbn [scan_items].
    change (str ", ") with [44; 32] in *. cbn [length] in Hf.
    rewrite <-!app_assoc, Hsc by (done || lia). cbn [mbind result_bind app].
    rewrite skip_ws_char by done. change (44 =? 93) with false. change (44 =? 44) with true.
    cbn iota. rewrite skip_ws_space, skip_ws_starts, IH; [done..|lia|].
    by apply starts_join, Hv'.
Qed.

(** The text of one item of an object. *)
Definition item (p : pystr * pystr) : pystr := quote (fst p) ++ str ": " ++ snd p.

Definition scans_item (p : pystr * jval) (q : pystr * pystr) : Prop :=
  fst p = fst q ∧ text_ok (fst p) = true ∧ scans (snd p) (snd q).

(** One round of the object loop. *)
Lemma scan_member fuel k v t tail :
  text_ok k = true → scans v t → stops tail = true → (2 * length t + 1 ≤ fuel)%nat →
  scan_members (S fuel) (item (k, t) ++ tail) =
  match skip_ws tail with
  | [] => Err JSONDecodeError
  | c :: r =>
      if c =? 125 then Ok ([(k, v)], r)
      else if c =? 44 then '(l, r) ← scan_members fuel (skip_ws r); Ok ((k, v) :: l, r)
      else Err JSONDecodeError
  end.
Proof.
  intros Hk (Hst & _ & Hsc) Htl Hf. unfold item, quote. cbn [fst snd app scan_members].
  change (34 =? 34) with true. change (str ": ") with [58; 32]. cbn [negb].
  rewrite <-app_assoc, scan_escape_body by done. cbn [mbind result_bind app].
  rewrite skip_ws_char by done. change (58 =? 58) with true. cbn [negb].
  rewrite skip_ws_space, skip_ws_starts, Hsc by done. done.
Qed.

Lemma scan_members_join ps qs : Forall2 scans_item ps qs → ps ≠ [] → ∀ fuel rest,
  (2 * length (sep_join (map item qs)) + 2 ≤ fuel)%nat →
  scan_members fuel (sep_join (map item qs) ++ 125 :: rest) = Ok (ps, rest).
Proof.
  induction 1 as [|[k v] [k' t] ps qs (Ek & Hk & Hsc) Hall IH]; [done|].
  cbn [fst snd] in *. subst k'. intros _ fuel rest Hf.
  destruct fuel as [|fuel]; [lia|]. cbn [map] in *.
  assert (length t ≤ length (item (k, t)))%nat by (unfold item; rewrite !length_app; cbn; lia).
  destruct Hall as [|p' [k' t'] ps qs Hp' Hall].
  - cbn [map sep_join mbind list_bind] in *. rewrite app_nil_r in *.
    rewrite (scan_member _ _ v) by (done || lia). done.
  - cbn [map] in *. rewrite sep_join_cons in *. rewrite !length_app in Hf.
    change (str ", ") with [44; 32] in *. cbn [length] in Hf.
    rewrite <-!app_assoc, (scan_member _ _ v) by (done || lia). cbn [app].
    rewrite skip_ws_char by done. change (44 =? 125) with false. change (44 =? 44) with true.
    cbn iota. rewrite skip_ws_space, skip_ws_starts, IH by (done || lia). done.
Qed.

(** *** ASCII texts *)

Ltac ascii := repeat (apply Forall_cons_2; [unfold is_ascii in *; lia|]); try apply Forall_nil_2.

Lemma hex_digit_ascii d : 0 ≤ d < 16 → is_ascii (hex_digit d).
Proof. unfold hex_digit, is_ascii. destruct (d <? 10); lia. Qed.

Lemma u_escape_ascii c : 0 ≤ c < 65536 → Forall is_ascii (u_escape c).
Proof.
  intros Hc. unfold u_escape. change (str "\u") with [92; 117].
  pose proof (Z.mod_pos_bound (c / 256) 16). pose proof (Z.mod_pos_bound (c / 16) 16).
  pose proof (Z.mod_pos_bound c 16).
  assert (0 ≤ c / 4096 < 16) by (split; [apply Z.div_pos; lia|apply Z.div_lt_upper_bound; lia]).
  cbn [app]. do 2 (apply Forall_cons_2; [unfold is_ascii; lia|]).
  repeat (apply Forall_cons_2; [apply hex_digit_ascii; lia|]).
  constructor.
Qed.

Lemma unescape_ascii l c : unescape l = Some c → is_ascii l.
Proof.
  unfold unescape, is_ascii. destruct (Z.eqb_spec l 47); [lia|].
  destruct (find _ _) as [[a b]|] eqn:E; [|done]. intros _.
  apply find_some in E as [Hin E]. cbn in E. apply Z.eqb_eq in E as ->.
  cbn in Hin. intuition (simplify_eq; lia).
Qed.

Lemma escape_char_ascii c : 0 ≤ c ≤ 0x10ffff → Forall is_ascii (escape_char c).
Proof.
  intros Hc. destruct (escape_char_kind c Hc) as [l Hl Hu|? ? ?|Hr|h l Hh Hl _].
  - apply unescape_ascii in Hu. ascii.
  - ascii.
  - by apply u_escape_ascii.
  - apply Forall_app. unfold is_high, is_low in *. bool_hyps. split; apply u_escape_ascii; lia.
Qed.

Lemma quote_ascii s : text_ok s = true → Forall is_ascii (quote s).
Proof.
  intros Hs. unfold quote. constructor; [unfold is_ascii; lia|].
  induction s as [|c s IH].
  { unfold escape_body. cbn. ascii. }
  apply text_ok_cons in Hs as (Hc & _ & Hs). rewrite escape_body_cons.
  apply Forall_app. auto using escape_char_ascii.
Qed.

Lemma sep_join_ascii ts : Forall (Forall is_ascii) ts → Forall is_ascii (sep_join ts).
Proof.
  intros Ht. destruct Ht as [|t ts Ht Hts]; [constructor|]. cbn [sep_join].
  apply Forall_app. split; [done|]. induction Hts as [|t' ts Ht' _ IH]; [constructor|].
  cbn [mbind list_bind]. change (str ", ") with [44; 32]. cbn [app]. ascii. by apply Forall_app.
Qed.

Lemma bracket_ascii a b t :
  is_ascii a → is_ascii b → Forall is_ascii t → Forall is_ascii (a :: t ++ [b]).
Proof. intros. constructor; [done|]. apply Forall_app. split; [done|]. by constructor. Qed.

(** *** Dictionaries with unique keys *)

Lemma dict_set_new {V} k (v : V) d : k ∉ map fst d → dict_set k v d = d ++ [(k, v)].
Proof.
  induction d as [|[k' v'] d IH]; [done|]. cbn. intros Hk.
  rewrite decide_False by set_solver. rewrite IH by set_solver. done.
Qed.

Lemma dict_pairs_NoDup {V} (l : list (pystr * V)) : NoDup (map fst l) → dict_pairs l = l.
Proof.
  unfold dict_pairs. induction l as [|[k v] l IH] using rev_ind; [done|].
  rewrite map_app, foldl_app. intros Hnd. apply NoDup_app in Hnd as (Hl & Hk & _).
  rewrite IH by done. cbn. apply dict_set_new. intros Hin. apply (Hk k Hin). cbn. set_solver.
Qed.

(** *** The round trip *)

Lemma keyword_scans k v :
  (k, v) ∈ keywords → scans v k.
Proof.
  intros Hk. split; [|split].
  - unfold keywords in Hk. set_unfold. intuition (simplify_eq; done).
  - unfold keywords in Hk. set_unfold.
    intuition (simplify_eq; cbn; ascii).
  - intros fuel rest _ Hf. destruct fuel as [|fuel]; [lia|]. clear Hf.
    unfold keywords in Hk. set_unfold. intuition (simplify_eq; done).
Qed.

Lemma string_scans s : text_ok s = true → scans (JStr s) (quote s).
Proof.
  intros Hs. split; [done|]. split; [by apply quote_ascii|].
  intros fuel rest _ Hf. destruct fuel as [|fuel]; [lia|].
  unfold quote. cbn [app scan_value]. change (34 =? 34) with true. cbn iota.
  by rewrite scan_escape_body.
Qed.

Lemma array_scans vs ts :
  Forall2 scans vs ts → scans (JArr vs) (91 :: sep_join ts ++ [93]).
Proof.
  intros Hall. split; [done|]. split.
  { apply bracket_ascii; [unfold is_ascii; lia..|]. apply sep_join_ascii.
    induction Hall as [|v t vs ts (_ & ? & _)]; by constructor. }
  intros fuel rest _ Hf. destruct fuel as [|fuel]; [lia|].
  cbn [length] in Hf. rewrite length_app in Hf. cbn [length] in Hf.
  rewrite app_comm_cons, <-app_assoc. cbn [app scan_value].
  change (91 =? 34) with false. change (91 =? 91) with true. cbn iota.
  destruct Hall as [|v t vs ts Hv Hall]; [done|].
  assert (starts (sep_join (t :: ts)) = true) as Hst by apply starts_join, Hv.
  rewrite skip_ws_starts by done.
  assert (scan_items fuel (sep_join (t :: ts) ++ 93 :: rest) = Ok (v :: vs, rest)) as Hi.
  { apply scan_items_join; [by constructor|done|lia]. }
  destruct (sep_join (t :: ts)) as [|d r]; [done|]. cbn [app] in *.
  replace (d =? 93) with false; [by rewrite Hi|].
  unfold starts in Hst. by destruct (d =? 93), (is_ws d).
Qed.

Lemma object_scans ps qs :
  Forall2 scans_item ps qs → NoDup (map fst ps) →
  scans (JObj ps) (123 :: sep_join (map item qs) ++ [125]).
Proof.
  intros Hall Hnd. split; [done|]. split.
  { apply bracket_ascii; [unfold is_ascii; lia..|]. apply sep_join_ascii. clear Hnd.
    induction Hall as [|[k v] [k' t] ps qs (Ek & Hk & _ & Ha & _) _ IH]; [constructor|].
    cbn [fst snd map] in *. subst k'. constructor; [|done]. unfold item. cbn [fst snd].
    apply Forall_app. split; [by apply quote_ascii|]. change (str ": ") with [58; 32]. cbn [app].
    by ascii. }
  intros fuel rest _ Hf. destruct fuel as [|fuel]; [lia|].
  cbn [length] in Hf. rewrite length_app in Hf. cbn [length] in Hf.
  rewrite app_comm_cons, <-app_assoc. cbn [app scan_value].
  change (123 =? 34) with false. change (123 =? 91) with false. change (123 =? 123) with true.
  cbn iota. destruct Hall as [|p [k t] ps qs Hp Hall]; [done|].
  rewrite skip_ws_starts by done.
  assert (scan_members fuel (sep_join (map item ((k, t) :: qs)) ++ 125 :: rest)
          = Ok (p :: ps, rest)) as Hi.
  { apply scan_members_join; [by constructor|done|lia]. }
  change (sep_join (map item ((k, t) :: qs)) ++ 125 :: rest)
    with (34 :: tail (sep_join (map item ((k, t) :: qs)) ++ 125 :: rest)) in *.
  change (34 =? 125) with false. cbn iota. rewrite Hi. cbn [mbind result_bind].
  by rewrite (dict_pairs_NoDup (p :: ps)).
Qed.

Lemma int_scans z t : int_repr z = Ok t → scans (JInt z) t.
Proof. intros. by apply number_scans, scan_number_int. Qed.

Lemma float_scans d t : float_repr d = Ok t → scans (JFloat d) t.
Proof.
  destruct d as [neg m e|neg|]; [intros; by apply number_scans, scan_number_float| |];
    intros [= <-]; apply keyword_scans; unfold keywords; [destruct neg|]; set_solver.
Qed.

(** An entry whose value is printed as a text that scans. *)
Definition entry_scans (p : pystr * jval) : Prop := ∀ t,
  dumps (snd p) = Ok t → text_ok (fst p) = true ∧ scans (norm (snd p)) t.

Lemma sort_entries {V W} (f : V → W) (l : list (pystr * V)) :
  sorted_by fst (map (λ '(k, v), (k, f v)) l) = map (λ '(k, v), (k, f v)) (sorted_by fst l).
Proof. apply sorted_by_map. by intros []. Qed.

Lemma object_texts l ts :
  sequence (map member_text (map (λ '(k, v), (k, dumps v)) l)) = Ok ts →
  Forall entry_scans l →
  ∃ qs, ts = map item qs ∧ Forall2 scans_item (map (λ '(k, v), (k, norm v)) l) qs.
Proof.
  revert ts. induction l as [|[k v] l IH]; intros ts Hts Hl; cbn [map sequence] in Hts.
  { inv_result. by exists []. }
  inv_result. unfold member_text in Hx. cbn [fst snd] in Hx. inv_result.
  apply Forall_cons in Hl as [Hv Hl]. destruct (IH _ Hx0 Hl) as (qs & -> & Hqs).
  destruct (Hv _ Hx1) as [Hk Hsc]. eexists ((k, _) :: qs). split; [done|]. constructor; [|done]. done.
Qed.

(** What [json.dumps] writes, the scanner reads as the value in key order. *)
Lemma dumps_scans v : ∀ t, value_ok v = true → dumps v = Ok t → scans (norm v) t.
Proof.
  induction v as [|b|z|d|s|l IH|l IH] using jval_nested_ind; intros t Hok Ht; cbn [dumps] in Ht.
  - inv_result. apply keyword_scans. unfold keywords. set_solver.
  - inv_result. apply keyword_scans. unfold keywords. destruct b; set_solver.
  - by apply int_scans.
  - by apply float_scans.
  - inv_result. by apply string_scans.
  - inv_result. apply sequence_Forall2 in Hx. apply array_scans. cbn [value_ok] in Hok.
    clear -IH Hok Hx. induction Hx as [|v t l ts Hv _ IHl]; [constructor|].
    cbn in Hok. apply andb_true_iff in Hok as [? ?]. apply Forall_cons in IH as [Hh Ht].
    constructor; auto.
  - inv_result. cbn [value_ok norm] in *. apply andb_true_iff in Hok as [Hnd Hok].
    apply bool_decide_eq_true in Hnd.
    rewrite sort_entries in Hx. rewrite sort_entries.
    assert (Forall (entry_scans) (sorted_by fst l)) as Hsl.
    { rewrite sorted_by_perm. apply Forall_forall. intros [k v] Hin tv Htv.
      rewrite Forall_forall in IH. rewrite forallb_forall in Hok.
      specialize (Hok (k, v) (proj1 (list_elem_of_In _ _) Hin)).
      cbn in Hok. apply andb_true_iff in Hok as [? ?].
      split; [done|]. by apply (IH (k, v)). }
    apply object_texts in Hx as (qs & -> & Hqs); [|done].
    apply object_scans; [done|]. rewrite map_map.
    rewrite (map_ext _ fst) by (by intros []). by rewrite sorted_by_perm.
Qed.

(** ** What the scanner returns

    It always terminates within its fuel, the only error besides
    [JSONDecodeError] is the digit limit of [int], and the values it returns
    are well formed. *)

(** A code point [bytes.decode] can return. *)
Definition scalar (c : Z) : Prop := 0 ≤ c ≤ 0x10ffff ∧ is_surrogate c = false.

Definition int_too_long : exn :=
  ValueError [Lit "Exceeds the limit (4300 digits) for integer string conversion"].

Definition json_error (e : exn) : Prop := e = JSONDecodeError ∨ e = int_too_long.

Lemma hex_value_range c v : hex_value c = Some v → 0 ≤ v < 16.
Proof.
  unfold hex_value, is_digit. repeat case_match; intros [= <-]; bool_hyps; lia.
Qed.

Lemma hex4_range a b c d u : hex4 a b c d = Some u → 0 ≤ u < 65536.
Proof.
  unfold hex4. intros Hh. repeat (apply bind_Some in Hh as (? & ?%hex_value_range & Hh)).
  simplify_eq. lia.
Qed.

Lemma join_range h l : is_high h = true → is_low l = true → 0x10000 ≤ join_surrogates h l ≤ 0x10ffff.
Proof. unfold is_high, is_low, join_surrogates. intros. bool_hyps. lia. Qed.

Lemma unescape_range l c : unescape l = Some c → 0 ≤ c ≤ 92.
Proof.
  unfold unescape. destruct (l =? 47); [intros [= <-]; lia|].
  destruct (find _ _) as [[a b]|] eqn:E; [|done]. intros [= <-].
  apply find_some in E as [Hin _]. cbn in Hin. cbn. intuition (simplify_eq; lia).
Qed.

(** The outcome of scanning a string in [s]. *)
Definition string_result (s : pystr) (r : result (pystr * pystr)) : Prop :=
  match r with
  | Ok (t, r) => (length r < length s)%nat ∧
      (Forall scalar s → text_ok t = true ∧ Forall scalar r ∧
       (match t with c :: _ => is_low c | [] => false end = true → low_escape s = true))
  | Err e => e = JSONDecodeError
  end.

Lemma string_result_cons c s s' r :
  (length s' < length s)%nat → string_result s' r →
  (Forall scalar s → 0 ≤ c ≤ 0x10ffff ∧ Forall scalar s' ∧
     (is_high c = true → low_escape s' = false) ∧ (is_low c = true → low_escape s = true)) →
  string_result s ('(t, r) ← r; Ok (c :: t, r)).
Proof.
  intros Hlen Hr Hc. destruct r as [[t r]|e]; [|done]. destruct Hr as [Hl Hr]. split; [lia|].
  intros Hs. destruct (Hc Hs) as (Hrg & Hs' & Hhi & Hlo). destruct (Hr Hs') as (Ht & Hsr & Hlt).
  split; [|done]. apply text_ok_cons. split; [done|]. split; [|done].
  destruct (is_high c); [|done]. specialize (Hhi eq_refl). cbn.
  destruct t as [|c' t]; [done|]. destruct (is_low c'); [|done].
  rewrite Hlt in Hhi by done. done.
Qed.

Lemma not_surrogate c : 0 ≤ c < 0xd800 ∨ 0xe000 ≤ c → is_high c = false ∧ is_low c = false.
Proof. unfold is_high, is_low. lia. Qed.

Lemma scalar_not_surrogate c : scalar c → is_high c = false ∧ is_low c = false.
Proof. unfold scalar, is_surrogate, is_high, is_low. intros [? ?]. lia. Qed.

(** One [\uXXXX] escape [u] not joined with what follows. *)
Lemma string_result_u h1 h2 h3 h4 u s r :
  hex4 h1 h2 h3 h4 = Some u → string_result s r → (is_high u = true → low_escape s = false) →
  string_result (92 :: 117 :: h1 :: h2 :: h3 :: h4 :: s) ('(t, r) ← r; Ok (u :: t, r)).
Proof.
  intros Hu Hr Hhi. pose proof (hex4_range _ _ _ _ _ Hu).
  apply (string_result_cons _ _ s); [cbn; lia|done|]. intros Hs. split; [lia|].
  split; [by do 6 (apply Forall_cons in Hs as [_ Hs])|]. split; [done|].
  intros Hlo. cbn. by rewrite Hu.
Qed.

Lemma scan_u_result h1 h2 h3 h4 u s6 :
  (∀ s, (length s ≤ length s6)%nat → string_result s (scan_string s)) →
  hex4 h1 h2 h3 h4 = Some u →
  string_result (92 :: 117 :: h1 :: h2 :: h3 :: h4 :: s6)
    (scan_string (92 :: 117 :: h1 :: h2 :: h3 :: h4 :: s6)).
Proof.
  intros IH Hu. cbn [scan_string]. change (92 =? 34) with false. change (92 =? 92) with true.
  change (117 =? 117) with true. cbn iota. rewrite Hu. pose proof (IH s6 ltac:(lia)) as H6.
  destruct s6 as [|b [|v [|g1 [|g2 [|g3 [|g4 s12]]]]]];
    try by (apply (string_result_u _ _ _ _ _ _ _ Hu H6)).
  destruct (hex4 g1 g2 g3 g4) as [u'|] eqn:Hu'.
  2: { apply (string_result_u _ _ _ _ _ _ _ Hu H6). intros _. cbn. by rewrite Hu'. }
  destruct (is_high u && (b =? 92) && (v =? 117) && is_low u') eqn:Ej.
  - rewrite !andb_true_iff in Ej. destruct Ej as [[[Hh _] _] Hl].
    pose proof (join_range _ _ Hh Hl). apply (string_result_cons _ _ s12); [cbn; lia| |].
    { apply IH. cbn. lia. }
    destruct (not_surrogate (join_surrogates u u')) as [Hnh Hnl]; [lia|]. intros Hs. split; [lia|].
    split; [by do 12 (apply Forall_cons in Hs as [_ Hs])|]. split; congruence.
  - apply (string_result_u _ _ _ _ _ _ _ Hu H6). intros Hh. cbn [low_escape].
    rewrite Hu'. by rewrite Hh in Ej.
Qed.

Lemma scan_string_result s : string_result s (scan_string s).
Proof.
  induction s as [s IH] using (induction_ltof1 _ (@length Z)). unfold ltof in IH.
  destruct s as [|c s1]; [done|]. destruct (Z.eqb_spec c 34) as [->|H34].
  { cbn. split; [lia|]. intros [_ Hs]%Forall_cons. done. }
  destruct (Z.eqb_spec c 92) as [->|H92].
  - destruct s1 as [|l s2]; [done|]. destruct (Z.eqb_spec l 117) as [->|Hl].
    + destruct s2 as [|h1 [|h2 [|h3 [|h4 s6]]]]; try done.
      destruct (hex4 h1 h2 h3 h4) as [u|] eqn:Hu; [|cbn; by rewrite Hu].
      apply scan_u_result with u; [|done]. intros s Hs. apply IH. cbn. lia.
    + cbn [scan_string]. change (92 =? 34) with false. change (92 =? 92) with true. cbn iota.
      replace (l =? 117) with false by lia. destruct (unescape l) as [x|] eqn:Hx; [|done].
      apply unescape_range in Hx. destruct (not_surrogate x) as [Hnh Hnl]; [lia|].
      apply (string_result_cons _ _ s2); [cbn; lia|apply IH; cbn; lia|]. intros Hs. split; [lia|].
      split; [by do 2 (apply Forall_cons in Hs as [_ Hs])|]. split; congruence.
  - cbn [scan_string]. replace (c =? 34) with false by lia. replace (c =? 92) with false by lia.
    destruct (c <=? 31); [done|].
    apply (string_result_cons _ _ s1); [cbn; lia|apply IH; cbn; lia|].
    intros [Hc Hs]%Forall_cons. destruct (scalar_not_surrogate c Hc) as [Hnh Hnl].
    split; [apply Hc|]. split; [done|]. split; congruence.
Qed.

(** The outcome of a scanner started at [s] whose results satisfy [ok]. *)
Definition scan_result {A} (ok : A → bool) (s : pystr) (r : result (A * pystr)) : Prop :=
  match r with
  | Ok (a, r) => (length r < length s)%nat ∧ (Forall scalar s → ok a = true ∧ Forall scalar r)
  | Err e => json_error e
  end.

Definition entry_ok (p : pystr * jval) : bool := text_ok (fst p) && value_ok (snd p).

(** [s'] is a suffix of [s]. *)
Lemma scalar_suffix s s' : s' `suffix_of` s → Forall scalar s → Forall scalar s'.
Proof. intros [p ->]. by intros [_ ?]%Forall_app. Qed.

Lemma skip_ws_suffix s : skip_ws s `suffix_of` s.
Proof.
  induction s as [|c s IH]; cbn; [done|]. destruct (is_ws c); [|done].
  by apply suffix_cons_r.
Qed.

Lemma scan_result_string s : scan_result text_ok s (scan_string s).
Proof.
  pose proof (scan_string_result s) as Hs. destruct (scan_string s) as [[t r]|e]; cbn in *.
  - destruct Hs as [? Hs]. split; [done|]. intros Hsc. by destruct (Hs Hsc) as (? & ? & _).
  - by left.
Qed.

Lemma scan_result_bind {A B} (okA : A → bool) (okB : B → bool) s0 s (r : result (A * pystr))
    (k : A * pystr → result (B * pystr)) :
  s `suffix_of` s0 → scan_result okA s r →
  (∀ a r', (length r' < length s)%nat → r = Ok (a, r') →
     match k (a, r') with
     | Ok (b, r'') => (length r'' ≤ length r')%nat ∧
         (okA a = true → Forall scalar r' → okB b = true ∧ Forall scalar r'')
     | Err e => json_error e
     end) →
  scan_result okB s0 (r ≫= k).
Proof.
  intros Hsuf Hr Hk. pose proof (suffix_length _ _ Hsuf).
  destruct r as [[a r]|e]; [|done]. cbn in *. destruct Hr as [Hlen Hok].
  specialize (Hk a r Hlen eq_refl). destruct (k (a, r)) as [[b r'']|e]; [|done].
  destruct Hk as [? Hk]. split; [lia|]. intros Hs0. apply (scalar_suffix _ _ Hsuf) in Hs0.
  destruct (Hok Hs0). auto.
Qed.

Lemma number_value_ok neg ip fp ex v : number_value neg ip fp ex = Ok v → value_ok v = true.
Proof. unfold number_value. intros E. repeat case_match; inv_result; done. Qed.

Lemma number_value_error neg ip fp ex e : number_value neg ip fp ex = Err e → e = int_too_long.
Proof.
  unfold number_value, digits_int, int_limit. intros E. destruct fp, ex; try done.
  apply bind_Err in E as [[E|(u & _ & [=])]%bind_Err|(n & _ & [=])].
  by apply raise_if_Err in E as [_ <-].
Qed.

Lemma scan_result_number s : scan_result value_ok s (scan_number s).
Proof.
  destruct (scan_number s) as [[v r]|e] eqn:E; cbn.
  - pose proof (scan_number_consumes _ _ _ E) as (c & s' & Hs & _ & (p & -> & _)).
    split; [destruct Hs as [-> | ->]; cbn; rewrite length_app; lia|]. intros Hsc. split.
    + revert E. unfold scan_number. repeat case_match; try done;
        intros E; inv_result; by eapply number_value_ok.
    + eapply scalar_suffix; [|exact Hsc].
      destruct Hs as [-> | ->]; [exists (c :: p)|exists (45 :: c :: p)]; done.
  - revert E. unfold scan_number. repeat case_match; try (intros [= <-]; by left);
      intros [E%number_value_error|(v & _ & [=])]%bind_Err; by right.
Qed.

Lemma strip_prefix_app p s r : strip_prefix p s = Some r → s = p ++ r.
Proof.
  revert s. induction p as [|a p IH]; intros s; cbn; [by intros [= <-]|].
  destruct s as [|b s]; [done|]. destruct (Z.eqb_spec a b) as [->|]; [|done].
  by intros ->%IH.
Qed.

Lemma scan_result_keyword s v r :
  scan_keyword s = Some (v, r) → scan_result value_ok s (Ok (v, r)).
Proof.
  unfold scan_keyword. intros ([k w] & Hin & Hb)%head_Some_elem_of%list_elem_of_omap.
  apply bind_Some in Hb as (r' & ->%strip_prefix_app & [= -> ->]). split.
  - rewrite length_app. unfold keywords in Hin. set_unfold. intuition (simplify_eq; cbn; lia).
  - intros Hs. split; [unfold keywords in Hin; set_unfold; intuition (simplify_eq; done)|].
    eapply scalar_suffix; [by exists k|done].
Qed.

Lemma dict_set_keys {V} k (v : V) d : NoDup (map fst d) → NoDup (map fst (dict_set k v d)).
Proof.
  destruct (decide (k ∈ map fst d)) as [Hin|Hnin].
  - assert (map fst (dict_set k v d) = map fst d) as ->; [|done].
    induction d as [|[k' v'] d IH]; [set_solver|]. cbn in *. destruct (decide (k' = k)); [done|].
    cbn. rewrite IH by set_solver. done.
  - intros Hd. rewrite dict_set_new by done. rewrite map_app. apply NoDup_app.
    split; [done|]. split; [set_solver|]. cbn. apply NoDup_singleton.
Qed.

Lemma dict_set_ok {V} (P : pystr * V → bool) k v d :
  P (k, v) = true → forallb P d = true → forallb P (dict_set k v d) = true.
Proof.
  intros Hp. induction d as [|[k' v'] d IH]; cbn; [by rewrite Hp|]. intros [? ?]%andb_true_iff.
  destruct (decide (k' = k)) as [->|]; cbn; [by rewrite Hp|]. rewrite IH by done. by apply andb_true_iff.
Qed.

Lemma dict_pairs_ok l :
  forallb entry_ok l = true → value_ok (JObj (dict_pairs l)) = true.
Proof.
  intros Hl. cbn [value_ok]. unfold dict_pairs.
  assert (∀ d, NoDup (map fst d) → forallb entry_ok d = true →
    let d' := foldl (λ d p, dict_set (fst p) (snd p) d) d l in
    NoDup (map fst d') ∧ forallb entry_ok d' = true) as Hgen.
  { induction l as [|[k v] l IH]; intros d Hd Hok; [done|]. cbn in Hl.
    apply andb_true_iff in Hl as [? ?]. apply IH; auto using dict_set_keys, dict_set_ok. }
  destruct (Hgen [] (NoDup_nil_2) eq_refl) as [Hnd Hok]. rewrite bool_decide_eq_true_2 by done.
  done.
Qed.

(** A closing or separating character after a value. *)
Lemma skip_ws_cons r c r' : skip_ws r = c :: r' →
  (length r' < length r)%nat ∧ (Forall scalar r → Forall scalar r').
Proof.
  intros E. pose proof (skip_ws_suffix r) as Hs. rewrite E in Hs.
  pose proof (suffix_length _ _ Hs). cbn in *. split; [lia|]. intros Hr.
  by apply (scalar_suffix _ _ Hs), Forall_cons in Hr as [_ ?].
Qed.

Definition scanner_results (fuel : nat) : Prop := ∀ s,
  ((2 * length s + 1 ≤ fuel)%nat → scan_result value_ok s (scan_value fuel s)) ∧
  ((2 * length s + 2 ≤ fuel)%nat → scan_result (forallb value_ok) s (scan_items fuel s)) ∧
  ((2 * length s + 2 ≤ fuel)%nat → scan_result (forallb entry_ok) s (scan_members fuel s)).

Lemma scan_result_items fuel s :
  scanner_results fuel → (2 * length s + 2 ≤ S fuel)%nat →
  scan_result (forallb value_ok) s (scan_items (S fuel) s).
Proof.
  intros IH Hf. cbn [scan_items]. eapply scan_result_bind; [done|apply IH; lia|].
  intros v r Hr _. destruct (skip_ws r) as [|c r'] eqn:Es; [by left|].
  apply skip_ws_cons in Es as [Hlen Hsc]. destruct (c =? 93).
  { split; [lia|]. intros Hv ?. cbn. rewrite Hv. auto. }
  destruct (c =? 44); [|by left].
  pose proof (suffix_length _ _ (skip_ws_suffix r')).
  assert (scan_result (forallb value_ok) (skip_ws r') (scan_items fuel (skip_ws r'))) as Hi by (apply IH; lia).
  destruct (scan_items fuel (skip_ws r')) as [[l r'']|e]; [|done]. cbn in *.
  destruct Hi as [? Hi]. split; [lia|]. intros Hv Hs. rewrite Hv. apply Hi.
  eapply scalar_suffix; [apply skip_ws_suffix|auto].
Qed.

Lemma scan_result_members fuel s :
  scanner_results fuel → (2 * length s + 2 ≤ S fuel)%nat →
  scan_result (forallb entry_ok) s (scan_members (S fuel) s).
Proof.
  intros IH Hf. cbn [scan_members]. destruct s as [|q s]; [by left|]. cbn [length] in Hf.
  destruct (negb _); [by left|]. eapply scan_result_bind;
    [by apply suffix_cons_r|apply scan_result_string|].
  intros k r Hr _. destruct (skip_ws r) as [|c r1] eqn:Es; [by left|].
  apply skip_ws_cons in Es as [Hlen1 Hsc1]. destruct (negb _); [by left|].
  pose proof (suffix_length _ _ (skip_ws_suffix r1)).
  assert (scan_result value_ok (skip_ws r1) (scan_value fuel (skip_ws r1))) as Hv by (apply IH; lia).
  destruct (scan_value fuel (skip_ws r1)) as [[v r2]|e]; [|done]. cbn [mbind result_bind].
  destruct Hv as [Hlen2 Hv]. destruct (skip_ws r2) as [|c2 r3] eqn:Es; [by left|].
  apply skip_ws_cons in Es as [Hlen3 Hsc3].
  assert (text_ok k = true → Forall scalar r → entry_ok (k, v) = true ∧ Forall scalar r3) as Hkv.
  { intros Hk Hs. destruct Hv as [Hv Hs2].
    { eapply scalar_suffix; [apply skip_ws_suffix|auto]. }
    unfold entry_ok. cbn. rewrite Hk, Hv. auto. }
  destruct (c2 =? 125). { split; [lia|]. intros Hk Hs. cbn. by destruct (Hkv Hk Hs) as [-> ?]. }
  destruct (c2 =? 44); [|by left]. pose proof (suffix_length _ _ (skip_ws_suffix r3)).
  assert (scan_result (forallb entry_ok) (skip_ws r3) (scan_members fuel (skip_ws r3))) as Hm
    by (apply IH; lia).
  destruct (scan_members fuel (skip_ws r3)) as [[l r4]|e]; [|done]. cbn in *.
  destruct Hm as [? Hm]. split; [lia|]. intros Hk Hs. destruct (Hkv Hk Hs) as [-> Hs3].
  apply Hm. eapply scalar_suffix; [apply skip_ws_suffix|done].
Qed.

Lemma scan_result_open {A} (ok : A → bool) (wrap : A → jval) c s d r0 (res : result (A * pystr)) :
  skip_ws s = d :: r0 → scan_result ok (d :: r0) res →
  (∀ a, ok a = true → value_ok (wrap a) = true) →
  scan_result value_ok (c :: s) ('(a, r) ← res; Ok (wrap a, r)).
Proof.
  intros Es Hr Hw. eapply scan_result_bind with (s := d :: r0); [|exact Hr|].
  - rewrite <-Es. apply suffix_cons_r, skip_ws_suffix.
  - intros a r _ _. split; [lia|]. auto.
Qed.

Lemma scan_result_value fuel s :
  scanner_results fuel → (2 * length s + 1 ≤ S fuel)%nat →
  scan_result value_ok s (scan_value (S fuel) s).
Proof.
  intros IH Hf. cbn [scan_value]. destruct s as [|c s]; [by left|]. cbn [length] in Hf.
  pose proof (suffix_length _ _ (skip_ws_suffix s)) as Hws.
  destruct (c =? 34).
  { eapply scan_result_bind; [by apply suffix_cons_r|apply scan_result_string|]. by intros. }
  destruct (c =? 91).
  { destruct (skip_ws s) as [|d r] eqn:Es; [by left|]. destruct (d =? 93).
    - apply skip_ws_cons in Es as [? Hs]. split; [cbn; lia|]. intros [_ ?]%Forall_cons. auto.
    - eapply scan_result_open; [done|apply IH; lia|done]. }
  destruct (c =? 123).
  { destruct (skip_ws s) as [|d r] eqn:Es; [by left|]. destruct (d =? 125).
    - apply skip_ws_cons in Es as [? Hs]. split; [cbn; lia|]. intros [_ ?]%Forall_cons. auto.
    - eapply (scan_result_open _ (λ l, JObj (dict_pairs l))); [done|apply IH; lia|apply dict_pairs_ok]. }
  destruct (scan_keyword (c :: s)) as [[v r]|] eqn:Ek; [by apply scan_result_keyword|].
  apply scan_result_number.
Qed.

Lemma scanners fuel : scanner_results fuel.
Proof.
  induction fuel as [|fuel IH]; intros s; [lia|].
  split; [by apply scan_result_value|]. split; [by apply scan_result_items|by apply scan_result_members].
Qed.

(** ** The codec *)

Lemma loads_dumps v t : value_ok v = true → dumps v = Ok t → loads t = Ok (norm v).
Proof.
  intros Hok Ht. destruct (dumps_scans v t Hok Ht) as (Hst & Ha & Hsc).
  pose proof (skip_ws_starts t [] Hst) as Hws. specialize (Hsc (2 * length t + 1)%nat [] eq_refl).
  rewrite !app_nil_r in *. unfold loads. rewrite Hws, Hsc by lia.
  destruct t as [|c t]; [done|]. apply Forall_cons in Ha as [Hc _]. unfold is_ascii in Hc.
  replace (c =? 0xfeff) with false by lia. done.
Qed.

Lemma dumps_ascii v t : value_ok v = true → dumps v = Ok t → Forall is_ascii t.
Proof. intros Hok Ht. by destruct (dumps_scans v t Hok Ht) as (_ & ? & _). Qed.

(** [json.loads] raises nothing but its decode error and the digit limit. *)
Lemma loads_error s e : loads s = Err e → json_error e.
Proof.
  unfold loads. intros Hl. apply bind_Err in Hl as [Hl|(u & _ & Hl)].
  { apply raise_if_Err in Hl as [_ <-]. by left. }
  destruct (scanners (2 * length (skip_ws s) + 1) (skip_ws s)) as [Hv _]. specialize (Hv ltac:(lia)).
  destruct (scan_value _ _) as [[v r]|e']; cbn in Hl; [|by inv_result].
  destruct (skip_ws r); inv_result. by left.
Qed.

Lemma loads_ok s v : Forall scalar s → loads s = Ok v → value_ok v = true.
Proof.
  intros Hs. unfold loads. intros Hl. inv_result. destruct x0 as [v' r].
  destruct (scanners (2 * length (skip_ws s) + 1) (skip_ws s)) as [Hv _]. specialize (Hv ltac:(lia)).
  rewrite Hx0 in Hv. destruct Hv as [_ Hv]. destruct (skip_ws r); inv_result.
  apply Hv. by eapply scalar_suffix; [apply skip_ws_suffix|].
Qed.

Lemma utf8_in_scalar lo hi c c' : 0 ≤ lo → hi ≤ 0x10ffff → utf8_in lo hi c = Some c' → scalar c'.
Proof.
  intros ? ?. unfold utf8_in. destruct (_ && _) eqn:E; [|done]. intros [= <-]. bool_hyps.
  split; [lia|done].
Qed.

Lemma utf8_decode_scalar bs s : utf8_decode bs = Some s → Forall scalar s.
Proof.
  revert s. induction bs as [bs IH] using (induction_ltof1 _ (@length byte)). unfold ltof in IH.
  intros s. destruct bs as [|b0 bs0]; cbn [utf8_decode]; [by intros [= <-]|].
  pose proof (byte_to_Z_range b0).
  assert (∀ bs' c, (length bs' < length (b0 :: bs0))%nat → scalar c →
    (s ← utf8_decode bs'; Some (c :: s)) = Some s → Forall scalar s) as Hrec.
  { intros bs' c Hlen Hc (s' & Hs' & [= <-])%bind_Some. constructor; [done|]. by eapply IH. }
  destruct (Z.ltb_spec (byte_to_Z b0) 128).
  { apply Hrec; [cbn; lia|]. split; [lia|]. unfold is_surrogate. lia. }
  destruct (_ <? _); [done|].
  destruct bs0 as [|b1 bs1]; [done|]. intros (c1 & _ & Hd)%bind_Some.
  destruct (_ <? _).
  { apply bind_Some in Hd as (c & ?%utf8_in_scalar & ?); [|lia..]. eapply Hrec; eauto. cbn; lia. }
  destruct bs1 as [|b2 bs2]; [done|]. apply bind_Some in Hd as (c2 & _ & Hd).
  destruct (_ <? _).
  { apply bind_Some in Hd as (c & ?%utf8_in_scalar & ?); [|lia..]. eapply Hrec; eauto. cbn; lia. }
  destruct bs2 as [|b3 bs3]; [done|]. apply bind_Some in Hd as (c3 & _ & Hd).
  apply bind_Some in Hd as (c & ?%utf8_in_scalar & ?); [|lia..]. eapply Hrec; eauto. cbn; lia.
Qed.

#[global] Instance jval_eq_dec : EqDecision jval.
Proof.
  unfold EqDecision. fix go 1. intros v w.
  destruct v as [|b|z|d|s|l|l], w as [|b'|z'|d'|s'|l'|l']; try (right; done).
  - by left.
  - destruct (decide (b = b')); [left|right]; congruence.
  - destruct (decide (z = z')); [left|right]; congruence.
  - destruct (decide (d = d')); [left|right]; congruence.
  - destruct (decide (s = s')); [left|right]; congruence.
  - destruct (@list_eq_dec _ go l l'); [left|right]; congruence.
  - destruct (@list_eq_dec _ (@prod_eq_dec _ _ _ go) l l'); [left|right]; congruence.
Defined.

(** [json.dumps(meta, sort_keys=True).encode("utf-8")] *)
Definition dumps_bytes (m : list (pystr * jval)) : result bytes :=
  t ← dumps (JObj m);
  match utf8_encode t with Some bs => Ok bs | None => Err UnicodeEncodeError end.

(** [json.loads(payload.decode("utf-8"))]; [None] is a value that is not a
    dictionary. *)
Definition loads_bytes (bs : bytes) : result (option (list (pystr * jval))) :=
  s ← decode_utf8 bs;
  v ← loads s;
  Ok (match v with JObj m => Some m | _ => None end).

Definition same_entries (m m' : list (pystr * jval)) : Prop := norm (JObj m) = norm (JObj m').

Lemma norm_norm v : norm (norm v) = norm v.
Proof.
  induction v as [|b|z|d|s|l IH|l IH] using jval_nested_ind; try done; cbn [norm]; f_equal.
  - rewrite map_map. apply map_ext_Forall. by eapply Forall_impl.
  - rewrite !sort_entries, map_map. rewrite (sorted_by_id fst) by apply sorted_by_ascending.
    apply map_ext_Forall. rewrite sorted_by_perm.
    eapply Forall_impl; [exact IH|]. intros [k v] Hv. cbn in *. by rewrite Hv.
Qed.

#[global] Instance same_entries_equivalence : Equivalence same_entries.
Proof. unfold same_entries. split; [by intros ?|by intros ? ?|intros ? ? ?; congruence]. Qed.

Lemma loads_dumps_bytes m bs :
  value_ok (JObj m) = true → dumps_bytes m = Ok bs →
  ∃ m', loads_bytes bs = Ok (Some m') ∧ same_entries m' m.
Proof.
  intros Hok Hd. unfold dumps_bytes in Hd. inv_result.
  destruct (utf8_ascii x) as [He Hdec]; [by eapply dumps_ascii|]. rewrite He in Hd. inv_result.
  unfold loads_bytes, decode_utf8. rewrite Hdec. cbn [mbind result_bind].
  rewrite (loads_dumps _ _ Hok Hx). cbn [mbind result_bind norm]. eexists. split; [done|].
  unfold same_entries. apply (norm_norm (JObj m)).
Qed.

Lemma loads_bytes_ok bs m : loads_bytes bs = Ok (Some m) → value_ok (JObj m) = true.
Proof.
  unfold loads_bytes, decode_utf8. destruct (utf8_decode bs) as [s|] eqn:Hs; [|done].
  apply utf8_decode_scalar in Hs. cbn [mbind result_bind]. intros Hl. inv_result.
  apply loads_ok in Hx; [|done]. by destruct x; simplify_eq.
Qed.

Lemma loads_bytes_error bs e :
  loads_bytes bs = Err e → e = UnicodeDecodeError ∨ e = JSONDecodeError ∨ e = int_too_long.
Proof.
  unfold loads_bytes, decode_utf8. destruct (utf8_decode bs) as [s|]; cbn [mbind result_bind].
  - intros [Hl|(v & _ & [=])]%bind_Err. apply loads_error in Hl as [->| ->]; auto.
  - intros [= <-]. by left.
Qed.

#[global] Program Instance PyJson : JsonCodec := {|
  jdict := list (pystr * jval);
  jdict_ok m := value_ok (JObj m);
  json_dumps := dumps_bytes;
  json_loads := loads_bytes;
  jdict_eqb m m' := bool_decide (canon (JObj m) = canon (JObj m'));
  jdict_equiv := same_entries;
  json_loads_dumps := loads_dumps_bytes;
  json_loads_ok := loads_bytes_ok;
|}.
Next Obligation. intros. cbn. by apply bool_decide_ext. Qed.
Next Obligation. intros bs e [->|[->| ->]]%loads_bytes_error; auto. right. right. by eexists. Qed.
