(* ===== verification/ReplayFormat.v ===== *)
(** * The binary replay-record codec ([examples/_common/replay_format.py])

    The logical model (events, records, documents), the streaming writer as
    a state machine over its byte stream, the strict reader, the document
    encoder and the differ. *)

From S2P Require Import Prelude PyStruct Json.

#[local] Open Scope Z_scope.

(** ** Format constants *)

Definition MAGIC : bytes := [Byte.x4b; Byte.x52; Byte.x50; Byte.x4c].
Definition FORMAT_VERSION : Z := 1.
Definition HEADER_SIZE : Z := 16.
Definition RECORD_HEADER_SIZE : Z := 8.
Definition RNG_STATE_SIZE : nat := 40.

Definition TICK_RECORD_TYPE : Z := 0x01.
Definition META_RECORD_TYPE : Z := 0x02.
Definition EXPECTED_HASH_RECORD_TYPE : Z := 0x03.
Definition RNG_CHECKPOINT_RECORD_TYPE : Z := 0x04.

Definition SPAWN_EVENT_CODE : Z := 0x01.
Definition MOVE_EVENT_CODE : Z := 0x02.
Definition DESPAWN_EVENT_CODE : Z := 0x03.

Definition _HEADER : fmt := [Fs 4; FH; FH; FI; FI].
Definition _RECORD : fmt := [FB; FB; FH; FI].
Definition _TICK_HEAD : fmt := [FQ; FH].
Definition _SPAWN : fmt := [FQ; Fq; Fq; Fq; Fq; Fq; Fq; FI].
Definition _MOVE : fmt := [FQ; FI; Fh; Fh; Fh; FB].
Definition _DESPAWN : fmt := [FQ].
Definition _EXPECTED_HASH : fmt := [FQ; FQ].
Definition _CHECKPOINT_HEAD : fmt := [FQ; FQ; FI].

Definition _U16_MAX : Z := 0xFFFF.

(** ** Logical model *)

Record SpawnEvent := mkSpawn {
  sp_actor_id : Z;
  sp_pos_x : Z; sp_pos_y : Z; sp_pos_z : Z;
  sp_vel_x : Z; sp_vel_y : Z; sp_vel_z : Z;
  sp_flags : Z;
}.

Record MoveEvent := mkMove {
  mv_actor_id : Z;
  mv_input_tick : Z;
  mv_move_x : Z; mv_move_y : Z; mv_move_z : Z;
  mv_flags : Z;
}.

Record DespawnEvent := mkDespawn { ds_actor_id : Z }.

Inductive Event :=
  | ESpawn (e : SpawnEvent)
  | EMove (e : MoveEvent)
  | EDespawn (e : DespawnEvent).

Record TickRecord := mkTick { tr_tick : Z; tr_events : list Event }.
Record ExpectedHash := mkExpected { ex_tick : Z; ex_hash : Z }.
Record RngCheckpoint := mkCheckpoint { ck_tick : Z; ck_stream_key : Z; ck_state : bytes }.
Record ReplayHeader := mkHeader { hd_tick_hz : Z; hd_flags : Z }.

#[global] Instance SpawnEvent_eq_dec : EqDecision SpawnEvent.
Proof. solve_decision. Defined.
#[global] Instance MoveEvent_eq_dec : EqDecision MoveEvent.
Proof. solve_decision. Defined.
#[global] Instance DespawnEvent_eq_dec : EqDecision DespawnEvent.
Proof. solve_decision. Defined.
#[global] Instance Event_eq_dec : EqDecision Event.
Proof. solve_decision. Defined.
#[global] Instance byte_eq_dec : EqDecision byte := Byte.byte_eq_dec.
#[global] Instance TickRecord_eq_dec : EqDecision TickRecord.
Proof. solve_decision. Defined.
#[global] Instance ExpectedHash_eq_dec : EqDecision ExpectedHash.
Proof. solve_decision. Defined.
#[global] Instance RngCheckpoint_eq_dec : EqDecision RngCheckpoint.
Proof. solve_decision. Defined.
#[global] Instance ReplayHeader_eq_dec : EqDecision ReplayHeader.
Proof. solve_decision. Defined.

(** [RngCheckpoint(...)] with its [__post_init__] length check. *)
Definition new_RngCheckpoint (tick stream_key : Z) (state : bytes) : result RngCheckpoint :=
  if decide (length state = RNG_STATE_SIZE) then Ok (mkCheckpoint tick stream_key state)
  else Err (ValueError [Lit "rng state must be exactly "; Num (Z.of_nat RNG_STATE_SIZE);
                        Lit " bytes, got "; Num (Z.of_nat (length state))]).

Definition canonical_event_key (event : Event) : Z * Z * Z :=
  match event with
  | ESpawn e => (0, sp_actor_id e, 0)
  | EMove e => (1, mv_actor_id e, mv_input_tick e)
  | EDespawn e => (2, ds_actor_id e, 0)
  end.

Definition _sort_events (events : list Event) : list Event :=
  sorted_by canonical_event_key events.

(** ** Encoding helpers *)

Definition spawn_vals (e : SpawnEvent) : svals _SPAWN :=
  (sp_actor_id e, (sp_pos_x e, (sp_pos_y e, (sp_pos_z e,
    (sp_vel_x e, (sp_vel_y e, (sp_vel_z e, (sp_flags e, tt)))))))).

Definition move_vals (e : MoveEvent) : svals _MOVE :=
  (mv_actor_id e, (mv_input_tick e, (mv_move_x e, (mv_move_y e, (mv_move_z e,
    (mv_flags e, tt)))))).

Definition _pack_event (event : Event) : result bytes :=
  match event with
  | ESpawn e =>
      code ← pack [FB] (SPAWN_EVENT_CODE, tt);
      body ← pack _SPAWN (spawn_vals e);
      Ok (code ++ body)
  | EMove e =>
      code ← pack [FB] (MOVE_EVENT_CODE, tt);
      body ← pack _MOVE (move_vals e);
      Ok (code ++ body)
  | EDespawn e =>
      code ← pack [FB] (DESPAWN_EVENT_CODE, tt);
      body ← pack _DESPAWN (ds_actor_id e, tt);
      Ok (code ++ body)
  end.

Definition _require_exact_len (actual : bytes) (expected : nat) (where_ : fstr) : result unit :=
  raise_if (negb (bool_decide (length actual = expected)))
    (ReplayFormatError (where_ ++ [Lit ": expected "; Num (Z.of_nat expected);
                                   Lit " payload bytes, found "; Num (Z.of_nat (length actual))])).

Definition _require_at_least (actual : bytes) (minimum : nat) (where_ : fstr) : result unit :=
  raise_if (bool_decide (length actual < minimum)%nat)
    (ReplayFormatError (where_ ++ [Lit ": payload shorter than "; Num (Z.of_nat minimum);
                                   Lit " bytes"])).

Definition _at (source : pystr) (offset : nat) : fstr :=
  [Txt source; Lit ":"; Num (Z.of_nat offset)].

(** [payload[offset]] *)
Definition byte_at (payload : bytes) (offset : nat) : result Z :=
  match payload !! offset with
  | Some b => Ok (byte_to_Z b)
  | None => Err IndexError
  end.

Definition _unpack_event (payload : bytes) (offset : nat) (where_ : fstr) : result Event :=
  code ← byte_at payload offset;
  let body := drop (offset + 1) payload in
  if code =? SPAWN_EVENT_CODE then
    _ ← _require_at_least body (size_of _SPAWN) where_;
    v ← unpack_from _SPAWN body 0;
    let '(a, (px, (py, (pz, (vx, (vy, (vz, (fl, tt)))))))) := v in
    Ok (ESpawn (mkSpawn a px py pz vx vy vz fl))
  else if code =? MOVE_EVENT_CODE then
    _ ← _require_at_least body (size_of _MOVE) where_;
    v ← unpack_from _MOVE body 0;
    let '(a, (t, (mx, (my, (mz, (fl, tt)))))) := v in
    Ok (EMove (mkMove a t mx my mz fl))
  else if code =? DESPAWN_EVENT_CODE then
    _ ← _require_at_least body (size_of _DESPAWN) where_;
    v ← unpack_from _DESPAWN body 0;
    let '(a, tt) := v in
    Ok (EDespawn (mkDespawn a))
  else
    Err (ReplayFormatError (where_ ++ [Lit ": unknown event code 0x"; Hex 2 code])).

(** [_EVENT_BODY_SIZES[type(event)]] *)
Definition _EVENT_BODY_SIZES (event : Event) : nat :=
  match event with
  | ESpawn _ => size_of _SPAWN
  | EMove _ => size_of _MOVE
  | EDespawn _ => size_of _DESPAWN
  end.

(** ** Writer

    The stream the writer appends to.  [s_flushed] counts the bytes the
    last [flush()] pushed out; only the recorder moves it. *)

Record stream := mkStream { s_data : bytes; s_flushed : nat }.

Definition stream_write (data : bytes) (s : stream) : stream :=
  mkStream (s_data s ++ data) (s_flushed s).

Definition stream_flush (s : stream) : stream := mkStream (s_data s) (length (s_data s)).

Record ReplayWriter := mkWriter {
  w_stream : stream;
  w_closed : bool;
  w_meta_written : bool;
  w_last_tick : option Z;
  w_last_stream_key : option Z;
}.

Definition w_write (data : bytes) : M ReplayWriter unit :=
  modify (λ w, mkWriter (stream_write data (w_stream w)) (w_closed w) (w_meta_written w)
                        (w_last_tick w) (w_last_stream_key w)).
Definition set_closed (b : bool) : M ReplayWriter unit :=
  modify (λ w, mkWriter (w_stream w) b (w_meta_written w) (w_last_tick w) (w_last_stream_key w)).
Definition set_meta_written (b : bool) : M ReplayWriter unit :=
  modify (λ w, mkWriter (w_stream w) (w_closed w) b (w_last_tick w) (w_last_stream_key w)).
Definition set_last_tick (t : option Z) : M ReplayWriter unit :=
  modify (λ w, mkWriter (w_stream w) (w_closed w) (w_meta_written w) t (w_last_stream_key w)).
Definition set_last_stream_key (k : option Z) : M ReplayWriter unit :=
  modify (λ w, mkWriter (w_stream w) (w_closed w) (w_meta_written w) (w_last_tick w) k).

Definition header_vals (tick_hz : Z) : svals _HEADER :=
  (MAGIC, (FORMAT_VERSION, (HEADER_SIZE, (tick_hz, (0, tt))))).

(** [ReplayWriter.__init__] *)
Definition ReplayWriter_init (s : stream) (tick_hz : Z) : result ReplayWriter :=
  _ ← raise_if (tick_hz <? 1)
        (ValueError [Lit "tick_hz must be at least 1, got "; Num tick_hz]);
  header ← pack _HEADER (header_vals tick_hz);
  Ok (mkWriter (stream_write header s) false false None None).

Definition _ensure_open : M ReplayWriter unit :=
  w ← get;
  guard (w_closed w) (ValueError [Lit "writer is closed"]).

Definition _emit (record_type : Z) (payload : bytes) : M ReplayWriter unit :=
  prefix ← lift (pack _RECORD (record_type, (0, (0, (Z.of_nat (length payload), tt)))));
  w_write prefix;;
  w_write payload.

(** The event bodies of a tick, concatenated in order. *)
Fixpoint pack_events (events : list Event) : result bytes :=
  match events with
  | [] => Ok []
  | e :: es => b ← _pack_event e; bs ← pack_events es; Ok (b ++ bs)
  end.

Definition write_tick (tick : Z) (events : list Event) : M ReplayWriter unit :=
  _ensure_open;;
  w ← get;
  guard (match w_last_tick w with Some last => tick <=? last | None => false end)
    (ValueError [Lit "tick "; Num tick;
                 Lit " does not advance past the previously written tick ";
                 Nums (option_list (w_last_tick w))]);;
  let ordered := _sort_events events in
  guard (_U16_MAX <? Z.of_nat (length ordered))
    (ValueError [Lit "tick "; Num tick; Lit " carries "; Num (Z.of_nat (length ordered));
                 Lit " events; the u16 event count limit is "; Num _U16_MAX]);;
  head ← lift (pack _TICK_HEAD (tick, (Z.of_nat (length ordered), tt)));
  body ← lift (pack_events ordered);
  _emit TICK_RECORD_TYPE (head ++ body);;
  set_last_tick (Some tick);;
  set_last_stream_key None.

Definition write_expected_hash (tick hash_value : Z) : M ReplayWriter unit :=
  _ensure_open;;
  payload ← lift (pack _EXPECTED_HASH (tick, (hash_value, tt)));
  _emit EXPECTED_HASH_RECORD_TYPE payload.

Definition write_rng_checkpoint (tick stream_key : Z) (state : bytes) : M ReplayWriter unit :=
  _ensure_open;;
  w ← get;
  guard (match w_last_tick w with Some last => negb (tick =? last) | None => true end)
    (ValueError [Lit "checkpoint tick "; Num tick;
                 Lit " does not match the most recently written tick ";
                 Nums (option_list (w_last_tick w))]);;
  guard (match w_last_stream_key w with Some last => stream_key <=? last | None => false end)
    (ValueError [Lit "stream key "; Num stream_key; Lit " does not ascend past ";
                 Nums (option_list (w_last_stream_key w)); Lit " within tick "; Num tick]);;
  guard (negb (bool_decide (length state = RNG_STATE_SIZE)))
    (ValueError [Lit "rng state must be exactly "; Num (Z.of_nat RNG_STATE_SIZE);
                 Lit " bytes, got "; Num (Z.of_nat (length state))]);;
  head ← lift (pack _CHECKPOINT_HEAD (tick, (stream_key, (Z.of_nat (length state), tt))));
  _emit RNG_CHECKPOINT_RECORD_TYPE (head ++ state);;
  set_last_stream_key (Some stream_key).

(** [ReplayWriter.close] *)
Definition writer_close : M ReplayWriter unit := set_closed true.

Section WithJson.
Context `{JsonCodec}.

Record ReplayDocument := mkDocument {
  doc_header : ReplayHeader;
  doc_meta : option jdict;
  doc_ticks : list TickRecord;
  doc_expected_hashes : list ExpectedHash;
  doc_rng_checkpoints : list RngCheckpoint;
}.

Definition write_meta (meta : jdict) : M ReplayWriter unit :=
  _ensure_open;;
  w ← get;
  guard (w_meta_written w) (ValueError [Lit "write_meta called twice"]);;
  guard (bool_decide (w_last_tick w ≠ None))
    (ValueError [Lit "write_meta must precede the first tick record"]);;
  payload ← lift (json_dumps meta);
  _emit META_RECORD_TYPE payload;;
  set_meta_written true.

(** ** Reader *)

Definition sniff_is_binary (data : bytes) : bool :=
  bool_decide (take (length MAGIC) data = MAGIC).

(** One event of a tick: parse it, advance, check the canonical order. *)
Fixpoint parse_events (n : nat) (count : Z) (payload : bytes) (offset : nat)
    (previous_key : option (Z * Z * Z)) (where_ : fstr) : result (list Event * nat) :=
  match n with
  | O => Ok ([], offset)
  | S n =>
      _ ← raise_if (bool_decide (length payload ≤ offset)%nat)
            (ReplayFormatError (where_ ++ [Lit ": event count "; Num count;
                                           Lit " exceeds the payload"]));
      event ← _unpack_event payload offset where_;
      let offset := (offset + (1 + _EVENT_BODY_SIZES event))%nat in
      let key := canonical_event_key event in
      _ ← raise_if (match previous_key with Some p => ltb key p | None => false end)
            (ReplayFormatError (where_ ++ [Lit ": events are not in canonical order"]));
      '(events, offset) ← parse_events n count payload offset (Some key) where_;
      Ok (event :: events, offset)
  end.

Definition _parse_tick (payload : bytes) (where_ : fstr) : result TickRecord :=
  _ ← _require_at_least payload (size_of _TICK_HEAD) where_;
  head ← unpack_from _TICK_HEAD payload 0;
  let '(tick, (count, tt)) := head in
  '(events, offset) ← parse_events (Z.to_nat count) count payload (size_of _TICK_HEAD) None where_;
  _ ← _require_exact_len (drop offset payload) 0 where_;
  Ok (mkTick tick events).

Definition _parse_meta (payload : bytes) (where_ : fstr) : result jdict :=
  match json_loads payload with
  | Ok (Some decoded) => Ok decoded
  | Ok None => Err (ReplayFormatError (where_ ++ [Lit ": META must be a JSON object"]))
  | Err UnicodeDecodeError | Err JSONDecodeError =>
      Err (ReplayFormatError (where_ ++ [Lit ": META is not valid UTF-8 JSON"]))
  | Err e => Err e
  end.

Definition last_tick_of (ticks : list TickRecord) : option Z := tr_tick <$> last ticks.

Definition _parse_checkpoint (payload : bytes) (where_ : fstr) (ticks : list TickRecord)
    (previous_checkpoints : list RngCheckpoint) : result RngCheckpoint :=
  _ ← _require_exact_len payload (size_of _CHECKPOINT_HEAD + RNG_STATE_SIZE) where_;
  head ← unpack_from _CHECKPOINT_HEAD payload 0;
  let '(tick, (stream_key, (state_len, tt))) := head in
  _ ← raise_if (match last_tick_of ticks with Some t => negb (tick =? t) | None => true end)
        (ReplayFormatError (where_ ++ [Lit ": checkpoint tick "; Num tick;
           Lit " does not follow its tick record (most recent tick: ";
           Nums (option_list (last_tick_of ticks)); Lit ")"]));
  _ ← raise_if (match last previous_checkpoints with
                | Some c => (ck_tick c =? tick) && (stream_key <=? ck_stream_key c)
                | None => false
                end)
        (ReplayFormatError (where_ ++ [Lit ": stream key "; Num stream_key;
           Lit " does not ascend past "; Nums (ck_stream_key <$> option_list (last previous_checkpoints));
           Lit " within tick "; Num tick]));
  _ ← raise_if (negb (state_len =? Z.of_nat RNG_STATE_SIZE))
        (ReplayFormatError (where_ ++ [Lit ": checkpoint state length "; Num state_len;
           Lit " != "; Num (Z.of_nat RNG_STATE_SIZE)]));
  new_RngCheckpoint tick stream_key (drop (size_of _CHECKPOINT_HEAD) payload).

(** The accumulators of the reader's loop. *)
Record reader := mkReader {
  r_meta : option jdict;
  r_ticks : list TickRecord;
  r_expected : list ExpectedHash;
  r_checkpoints : list RngCheckpoint;
}.

(** The body of the loop after the record's payload has been cut out. *)
Definition read_record (record_type record_flags : Z) (payload : bytes) (record_where : fstr)
    (r : reader) : result reader :=
  let bad_flags := raise_if (negb (record_flags =? 0))
    (ReplayFormatError (record_where ++ [Lit ": unknown record flag bits set"])) in
  if record_type =? TICK_RECORD_TYPE then
    _ ← bad_flags;
    tick_record ← _parse_tick payload record_where;
    _ ← raise_if (match last_tick_of (r_ticks r) with
                  | Some t => tr_tick tick_record <=? t
                  | None => false
                  end)
          (ReplayFormatError (record_where ++ [Lit ": tick "; Num (tr_tick tick_record);
             Lit " does not ascend past "; Nums (option_list (last_tick_of (r_ticks r)))]));
    Ok (mkReader (r_meta r) (r_ticks r ++ [tick_record]) (r_expected r) (r_checkpoints r))
  else if record_type =? META_RECORD_TYPE then
    _ ← raise_if (match r_meta r, r_ticks r with None, [] => false | _, _ => true end)
          (ReplayFormatError (record_where ++
             [Lit ": META must appear exactly once, before the first tick"]));
    meta ← _parse_meta payload record_where;
    Ok (mkReader (Some meta) (r_ticks r) (r_expected r) (r_checkpoints r))
  else if record_type =? EXPECTED_HASH_RECORD_TYPE then
    _ ← bad_flags;
    _ ← _require_exact_len payload (size_of _EXPECTED_HASH) record_where;
    v ← unpack _EXPECTED_HASH payload;
    let '(exp_tick, (exp_hash, tt)) := v in
    _ ← raise_if (existsb (λ seen, exp_tick =? ex_tick seen) (r_expected r))
          (ReplayFormatError (record_where ++ [Lit ": duplicate expectation for tick "; Num exp_tick]));
    Ok (mkReader (r_meta r) (r_ticks r) (r_expected r ++ [mkExpected exp_tick exp_hash])
                 (r_checkpoints r))
  else if record_type =? RNG_CHECKPOINT_RECORD_TYPE then
    _ ← bad_flags;
    c ← _parse_checkpoint payload record_where (r_ticks r) (r_checkpoints r);
    Ok (mkReader (r_meta r) (r_ticks r) (r_expected r) (r_checkpoints r ++ [c]))
  else Ok r.

(** [while offset < len(data)]; [fuel] bounds the iterations. *)
Fixpoint read_records (fuel : nat) (source : pystr) (data : bytes) (offset : nat) (r : reader)
    : result reader :=
  if bool_decide (length data ≤ offset)%nat then Ok r else
  match fuel with
  | O => Err OutOfFuel
  | S fuel =>
      _ ← raise_if (Z.of_nat (length data) - Z.of_nat offset <? RECORD_HEADER_SIZE)
            (ReplayFormatError (_at source offset ++ [Lit ": truncated record framing"]));
      v ← unpack_from _RECORD data offset;
      let '(record_type, (record_flags, (_reserved, (payload_len, tt)))) := v in
      let record_where := _at source offset in
      let offset := (offset + Z.to_nat RECORD_HEADER_SIZE)%nat in
      _ ← raise_if (Z.of_nat (length data) <? Z.of_nat offset + payload_len)
            (ReplayFormatError (_at source offset ++ [Lit ": payload exceeds end of file"]));
      let payload := take (Z.to_nat payload_len) (drop offset data) in
      r ← read_record record_type record_flags payload record_where r;
      read_records fuel source data (offset + Z.to_nat payload_len)%nat r
  end.

Definition empty_reader : reader := mkReader None [] [] [].

Definition document_of (tick_hz flags : Z) (r : reader) : ReplayDocument :=
  mkDocument (mkHeader tick_hz flags) (r_meta r) (r_ticks r) (r_expected r) (r_checkpoints r).

Definition read_document (data : bytes) (source : pystr) : result ReplayDocument :=
  _ ← raise_if (Z.of_nat (length data) <? HEADER_SIZE)
        (ReplayFormatError [Txt source; Lit ": file shorter than the "; Num HEADER_SIZE;
                            Lit "-byte header"]);
  v ← unpack_from _HEADER data 0;
  let '(magic, (version, (header_size, (tick_hz, (flags, tt))))) := v in
  _ ← raise_if (negb (bool_decide (magic = MAGIC)))
        (ReplayFormatError [Txt source; Lit ": bad magic "; ReprBytes magic]);
  _ ← raise_if (negb (version =? FORMAT_VERSION))
        (ReplayFormatError [Txt source; Lit ": format version "; Num version;
                            Lit " exceeds the supported version "; Num FORMAT_VERSION]);
  _ ← raise_if (negb (flags =? 0))
        (ReplayFormatError [Txt source; Lit ": unknown header flag bits 0x"; Hex 8 flags]);
  _ ← raise_if (tick_hz <? 1)
        (ReplayFormatError [Txt source; Lit ": header tick_hz "; Num tick_hz; Lit " is invalid"]);
  _ ← raise_if (header_size <? HEADER_SIZE)
        (ReplayFormatError [Txt source; Lit ": header size "; Num header_size;
                            Lit " below the required "; Num HEADER_SIZE]);
  r ← read_records (length data) source data (Z.to_nat header_size) empty_reader;
  Ok (document_of tick_hz flags r).

(** ** Document assembly *)

(** [{t: [c, ...]}] with [setdefault(c.tick, []).append(c)]. *)
Definition checkpoints_by_tick (cs : list RngCheckpoint) : gmap Z (list RngCheckpoint) :=
  foldl (λ m c, <[ck_tick c := default [] (m !! ck_tick c) ++ [c]]> m) ∅ cs.

Definition known_ticks (ticks : list TickRecord) : gset Z :=
  list_to_set (tr_tick <$> ticks).

Definition write_checkpoint (c : RngCheckpoint) : M ReplayWriter unit :=
  write_rng_checkpoint (ck_tick c) (ck_stream_key c) (ck_state c).

(** The statements of [encode_document] that run on the writer. *)
Definition encode_body (document : ReplayDocument) : M ReplayWriter unit :=
  match doc_meta document with
  | Some m => write_meta m
  | None => mret ()
  end;;
  let by_tick := checkpoints_by_tick (doc_rng_checkpoints document) in
  let unknown := sorted_by id (elements (dom by_tick ∖ known_ticks (doc_ticks document))) in
  guard (negb (bool_decide (unknown = [])))
    (ValueError [Lit "checkpoints reference ticks absent from the document: "; Nums unknown]);;
  for_each (doc_ticks document) (λ tick_record,
    write_tick (tr_tick tick_record) (tr_events tick_record);;
    for_each (default [] (by_tick !! tr_tick tick_record)) write_checkpoint);;
  for_each (doc_expected_hashes document) (λ expectation,
    write_expected_hash (ex_tick expectation) (ex_hash expectation));;
  writer_close.

Definition empty_sink : stream := mkStream [] 0.

Definition encode_document (document : ReplayDocument) : result bytes :=
  w ← ReplayWriter_init empty_sink (hd_tick_hz (doc_header document));
  match encode_body document w with
  | (w, Ok _) => Ok (s_data (w_stream w))
  | (_, Err e) => Err e
  end.

(** ** Differ *)

(** [_summarize]: at most four events, then the number of the others. *)
Definition event_summary (event : Event) : fstr :=
  match event with
  | ESpawn e => [Lit "spawn(actor "; Num (sp_actor_id e); Lit ")"]
  | EMove e => [Lit "move(actor "; Num (mv_actor_id e); Lit ")"]
  | EDespawn e => [Lit "despawn(actor "; Num (ds_actor_id e); Lit ")"]
  end.

Fixpoint join_comma (parts : list fstr) : fstr :=
  match parts with
  | [] => []
  | [p] => p
  | p :: ps => p ++ Lit ", " :: join_comma ps
  end.

Definition _summarize (events : list Event) : fstr :=
  join_comma ((event_summary <$> take 4 events) ++
    (if decide (4 < length events)%nat
     then [[Lit "+"; Num (Z.of_nat (length events) - 4); Lit " more"]] else [])).

(** One line of the report; the values are those the message prints. *)
Inductive difference :=
  | DiffHeader (left right : ReplayHeader)
  | DiffMeta (left right : option jdict)
  | TickOnlyRight (tick : Z)
  | TickOnlyLeft (tick : Z)
  | TickEvents (tick : Z) (left right : fstr)
  | DiffExpected (left right : gmap Z Z)
  | DiffCheckpoints (left right : list RngCheckpoint).

(** [{f(x): g(x) for x in l}]: a later entry replaces an earlier one. *)
Definition dict_of {A V} (k : A → Z) (v : A → V) (l : list A) : gmap Z V :=
  foldl (λ m x, <[k x := v x]> m) ∅ l.

Definition diff_tick (left right : gmap Z TickRecord) (tick : Z) : list difference :=
  match left !! tick, right !! tick with
  | None, _ => [TickOnlyRight tick]
  | _, None => [TickOnlyLeft tick]
  | Some l, Some r =>
      if decide (tr_events l = tr_events r) then []
      else [TickEvents tick (_summarize (tr_events l)) (_summarize (tr_events r))]
  end.

Definition _diff_ticks (left right : list TickRecord) : list difference :=
  let left_by_tick := dict_of tr_tick id left in
  let right_by_tick := dict_of tr_tick id right in
  sorted_by id (elements (dom left_by_tick ∪ dom right_by_tick))
    ≫= diff_tick left_by_tick right_by_tick.

(** [left.meta != right.meta] *)
Definition meta_eqb (left right : option jdict) : bool :=
  match left, right with
  | None, None => true
  | Some l, Some r => jdict_eqb l r
  | _, _ => false
  end.

Definition diff_documents (left right : ReplayDocument) : list difference :=
  (if decide (doc_header left = doc_header right) then []
   else [DiffHeader (doc_header left) (doc_header right)]) ++
  (if meta_eqb (doc_meta left) (doc_meta right) then []
   else [DiffMeta (doc_meta left) (doc_meta right)]) ++
  _diff_ticks (doc_ticks left) (doc_ticks right) ++
  (let left_expectations := dict_of ex_tick ex_hash (doc_expected_hashes left) in
   let right_expectations := dict_of ex_tick ex_hash (doc_expected_hashes right) in
   if decide (left_expectations = right_expectations) then []
   else [DiffExpected left_expectations right_expectations]) ++
  (if decide (doc_rng_checkpoints left = doc_rng_checkpoints right) then []
   else [DiffCheckpoints (doc_rng_checkpoints left) (doc_rng_checkpoints right)]).
End WithJson.
