(* ===== verification/ReplayCodec.v ===== *)
(** * The replay codec reads back what it writes

    Payload-level and framing-level round trips of [ReplayFormat], up to a
    whole sequence of framed records. *)

From S2P Require Import Prelude PyStruct Json ReplayFormat.

#[local] Open Scope Z_scope.

(** ** Events *)

(** The events [struct] can represent. *)
Definition event_fits (e : Event) : bool :=
  match e with
  | ESpawn e => fits _SPAWN (spawn_vals e)
  | EMove e => fits _MOVE (move_vals e)
  | EDespawn e => fits _DESPAWN (ds_actor_id e, tt)
  end.

(** The type code and the body of an event's encoding. *)
Definition event_code (e : Event) : byte :=
  match e with ESpawn _ => Byte.x01 | EMove _ => Byte.x02 | EDespawn _ => Byte.x03 end.

Definition event_body (e : Event) : result bytes :=
  match e with
  | ESpawn e => pack _SPAWN (spawn_vals e)
  | EMove e => pack _MOVE (move_vals e)
  | EDespawn e => pack _DESPAWN (ds_actor_id e, tt)
  end.

Lemma pack_event_body e :
  _pack_event e = (b ← event_body e; Ok (event_code e :: b)).
Proof. by destruct e. Qed.

Lemma event_body_fits e bs : event_body e = Ok bs → event_fits e = true.
Proof. destruct e; intros Hb; by eapply pack_Ok_fits. Qed.

Lemma length_event_body e bs : event_body e = Ok bs → length bs = _EVENT_BODY_SIZES e.
Proof. destruct e; apply length_pack. Qed.

Lemma event_fits_pack e : event_fits e = true → ∃ bs, _pack_event e = Ok bs.
Proof.
  intros Hf. rewrite pack_event_body.
  assert (∃ b, event_body e = Ok b) as [b ->]; [|by eauto].
  destruct e; by apply fits_pack.
Qed.

Lemma pack_event_Ok e bs : _pack_event e = Ok bs →
  event_fits e = true ∧ length bs = (1 + _EVENT_BODY_SIZES e)%nat.
Proof.
  rewrite pack_event_body. intros H. inv_result. split.
  - by eapply event_body_fits.
  - cbn. by erewrite length_event_body.
Qed.

Lemma at_least_Ok bs n w : (n ≤ length bs)%nat → _require_at_least bs n w = Ok tt.
Proof. intros. unfold _require_at_least. by rewrite bool_decide_eq_false_2 by lia. Qed.

Lemma exact_len_Ok bs n w : length bs = n → _require_exact_len bs n w = Ok tt.
Proof. intros. unfold _require_exact_len. by rewrite bool_decide_eq_true_2. Qed.

Lemma unpack_from_0 F vs bs rest :
  pack F vs = Ok bs → bytes_exact F vs = true → unpack_from F (bs ++ rest) 0 = Ok vs.
Proof. apply (unpack_from_app F vs []). Qed.

Lemma unpack_pack_event e bs pre rest w :
  _pack_event e = Ok bs → _unpack_event (pre ++ bs ++ rest) (length pre) w = Ok e.
Proof.
  rewrite pack_event_body. intros H. inv_result.
  pose proof (length_event_body _ _ Hx) as Hl.
  unfold _unpack_event, byte_at. rewrite lookup_app_r, Nat.sub_diag by lia. cbn [lookup app].
  replace (drop (length pre + 1) (pre ++ event_code e :: x ++ rest)) with (x ++ rest)
    by by rewrite drop_app_add.
  destruct e as [e|e|e]; cbn in Hl, Hx |- *;
    rewrite at_least_Ok by (rewrite length_app; lia); cbn;
    rewrite (unpack_from_0 _ _ _ _ Hx eq_refl); by destruct e.
Qed.

(** ** Tick payloads *)

Definition key_bounded (previous : option (Z * Z * Z)) (es : list Event) : bool :=
  match previous, es with
  | Some p, e :: _ => leb p (canonical_event_key e)
  | _, _ => true
  end.

Lemma ascending_tail e es :
  ascending canonical_event_key (e :: es) = true →
  key_bounded (Some (canonical_event_key e)) es = true ∧
  ascending canonical_event_key es = true.
Proof.
  destruct es as [|e' es]; [done|].
  change (ascending canonical_event_key (e :: e' :: es)) with
    (leb (canonical_event_key e) (canonical_event_key e') &&
     ascending canonical_event_key (e' :: es)).
  by intros ?%andb_true_iff.
Qed.

Lemma parse_pack_events es : ∀ bs pre rest previous cnt w,
  pack_events es = Ok bs →
  ascending canonical_event_key es = true → key_bounded previous es = true →
  parse_events (length es) cnt (pre ++ bs ++ rest) (length pre) previous w
  = Ok (es, length (pre ++ bs)).
Proof.
  induction es as [|e es IH]; intros bs pre rest previous cnt w Hp Hasc Hprev; cbn in Hp.
  { inv_result. by rewrite app_nil_r. }
  inv_result. rename x into b, x0 into bs'.
  destruct (pack_event_Ok _ _ Hx) as [_ Hl].
  cbn [length parse_events]. rewrite !length_app.
  rewrite bool_decide_eq_false_2 by lia. cbn [raise_if mbind result_bind].
  rewrite <-app_assoc, (unpack_pack_event e b pre _ w Hx).
  cbn [mbind result_bind].
  assert (match previous with Some p => ltb (canonical_event_key e) p | None => false end
          = false) as ->.
  { destruct previous; [|done]. by apply ltb_false. }
  cbn [raise_if mbind result_bind].
  apply ascending_tail in Hasc as [Hk Hasc].
  replace (length pre + (1 + _EVENT_BODY_SIZES e))%nat with (length (pre ++ b))
    by (rewrite length_app; lia).
  rewrite (app_assoc pre b). rewrite (IH bs' (pre ++ b) rest _ cnt w) by done.
  cbn. by rewrite !length_app, Nat.add_assoc.
Qed.

Lemma parse_pack_tick t es head body w :
  pack _TICK_HEAD (t, (Z.of_nat (length es), tt)) = Ok head → pack_events es = Ok body →
  ascending canonical_event_key es = true →
  _parse_tick (head ++ body) w = Ok (mkTick t es).
Proof.
  intros Hh Hb Hasc. pose proof (length_pack _ _ _ Hh) as Hl.
  unfold _parse_tick. rewrite at_least_Ok by (rewrite length_app; lia). cbn [mbind result_bind].
  rewrite (unpack_from_0 _ _ _ _ Hh eq_refl). cbn [mbind result_bind].
  rewrite Nat2Z.id, <-Hl, <-(app_nil_r body).
  rewrite parse_pack_events by done. cbn [mbind result_bind].
  rewrite app_nil_r, drop_all, exact_len_Ok by done. done.
Qed.

Lemma length_pack_events es bs : pack_events es = Ok bs → (length bs ≤ 61 * length es)%nat.
Proof.
  revert bs. induction es as [|e es IH]; cbn; intros bs Hp; inv_result; [done|].
  specialize (IH _ Hx0). destruct (pack_event_Ok _ _ Hx) as [_ Hl].
  assert (_EVENT_BODY_SIZES e ≤ 60)%nat by (destruct e; vm_compute; lia).
  rewrite length_app. lia.
Qed.

Lemma pack_events_fits es :
  forallb event_fits es = true ↔ ∃ bs, pack_events es = Ok bs.
Proof.
  induction es as [|e es IH]; cbn; [by split; eauto|]. rewrite andb_true_iff, IH. split.
  - intros [[b Hb]%event_fits_pack [bs Hbs]]. rewrite Hb, Hbs. cbn. eauto.
  - intros [bs Hbs]. inv_result. split; [by eapply pack_event_Ok|eauto].
Qed.

(** ** Records

    One record of a document, the bytes the writer frames it with, and the
    ordering law it must satisfy against what was read before it. *)

Section WithJson.
Context `{JsonCodec}.

Inductive record :=
  | RecTick (t : TickRecord)
  | RecMeta (payload : bytes) (m : jdict)
  | RecExpected (e : ExpectedHash)
  | RecCheckpoint (c : RngCheckpoint).

Definition record_type (rec : record) : Z :=
  match rec with
  | RecTick _ => TICK_RECORD_TYPE
  | RecMeta _ _ => META_RECORD_TYPE
  | RecExpected _ => EXPECTED_HASH_RECORD_TYPE
  | RecCheckpoint _ => RNG_CHECKPOINT_RECORD_TYPE
  end.

Definition record_payload (rec : record) : result bytes :=
  match rec with
  | RecTick t =>
      head ← pack _TICK_HEAD (tr_tick t, (Z.of_nat (length (tr_events t)), tt));
      body ← pack_events (tr_events t);
      Ok (head ++ body)
  | RecMeta p _ => Ok p
  | RecExpected e => pack _EXPECTED_HASH (ex_tick e, (ex_hash e, tt))
  | RecCheckpoint c =>
      head ← pack _CHECKPOINT_HEAD
               (ck_tick c, (ck_stream_key c, (Z.of_nat (length (ck_state c)), tt)));
      Ok (head ++ ck_state c)
  end.

Definition frame (ty : Z) (payload : bytes) : result bytes :=
  prefix ← pack _RECORD (ty, (0, (0, (Z.of_nat (length payload), tt))));
  Ok (prefix ++ payload).

Definition record_bytes (rec : record) : result bytes :=
  p ← record_payload rec; frame (record_type rec) p.

(** The META payload decodes to the recorded dictionary. *)
Definition record_decodes (rec : record) : Prop :=
  match rec with RecMeta p m => json_loads p = Ok (Some m) | _ => True end.

(** The ordering law, apart from the uniqueness of expectations. *)
Definition record_legal (rec : record) (r : reader) : bool :=
  match rec with
  | RecTick t =>
      ascending canonical_event_key (tr_events t) &&
      match last_tick_of (r_ticks r) with Some l => l <? tr_tick t | None => true end
  | RecMeta _ _ => match r_meta r, r_ticks r with None, [] => true | _, _ => false end
  | RecExpected _ => true
  | RecCheckpoint c =>
      bool_decide (last_tick_of (r_ticks r) = Some (ck_tick c)) &&
      bool_decide (length (ck_state c) = RNG_STATE_SIZE) &&
      match last (r_checkpoints r) with
      | Some l => negb (ck_tick l =? ck_tick c) || (ck_stream_key l <? ck_stream_key c)
      | None => true
      end
  end.

Definition expectation_fresh (rec : record) (r : reader) : bool :=
  match rec with
  | RecExpected e => negb (existsb (λ seen, ex_tick e =? ex_tick seen) (r_expected r))
  | _ => true
  end.

Definition add_record (rec : record) (r : reader) : reader :=
  match rec with
  | RecTick t => mkReader (r_meta r) (r_ticks r ++ [t]) (r_expected r) (r_checkpoints r)
  | RecMeta _ m => mkReader (Some m) (r_ticks r) (r_expected r) (r_checkpoints r)
  | RecExpected e => mkReader (r_meta r) (r_ticks r) (r_expected r ++ [e]) (r_checkpoints r)
  | RecCheckpoint c => mkReader (r_meta r) (r_ticks r) (r_expected r) (r_checkpoints r ++ [c])
  end.

Lemma parse_pack_checkpoint c p w ticks cs :
  record_payload (RecCheckpoint c) = Ok p →
  record_legal (RecCheckpoint c) (mkReader None ticks [] cs) = true →
  _parse_checkpoint p w ticks cs = Ok c.
Proof.
  cbn [record_payload record_legal r_ticks r_checkpoints]. intros Hp Hl.
  inv_result. bool_hyps. rename x into head.
  pose proof (length_pack _ _ _ Hx) as Hlen.
  unfold _parse_checkpoint.
  rewrite exact_len_Ok by (rewrite length_app; congruence). cbn [mbind result_bind].
  rewrite (unpack_from_0 _ _ _ _ Hx eq_refl). cbn [mbind result_bind].
  replace (last_tick_of ticks) with (Some (ck_tick c)). rewrite Z.eqb_refl.
  assert (match last cs with
          | Some l => (ck_tick l =? ck_tick c) && (ck_stream_key c <=? ck_stream_key l)
          | None => false
          end = false) as ->.
  { destruct (last cs) as [l|]; [|done].
    destruct (ck_tick l =? ck_tick c); cbn in *; [|done]. bool_hyps. by apply Z.leb_gt. }
  replace (length (ck_state c)) with RNG_STATE_SIZE by done. rewrite Z.eqb_refl.
  cbn [negb raise_if mbind result_bind].
  rewrite <-Hlen, drop_app_length. unfold new_RngCheckpoint.
  rewrite decide_True by done. by destruct c.
Qed.

Lemma read_record_encoded rec p w r :
  record_payload rec = Ok p → record_decodes rec →
  record_legal rec r = true → expectation_fresh rec r = true →
  read_record (record_type rec) 0 p w r = Ok (add_record rec r).
Proof.
  destruct rec as [t|p' m|e|c]; intros Hp Hd Hl Hf; unfold read_record; cbn in Hf |- *.
  - cbn in Hp, Hl. inv_result. bool_hyps. erewrite parse_pack_tick by done. cbn.
    assert (match last_tick_of (r_ticks r) with
            | Some l => tr_tick t <=? l | None => false end = false) as ->.
    { destruct (last_tick_of _); [|done]. bool_hyps. by apply Z.leb_gt. }
    by destruct t.
  - cbn in Hp, Hd, Hl. inv_result. unfold _parse_meta. rewrite Hd. cbn.
    destruct (r_meta r), (r_ticks r); done.
  - cbn in Hp. pose proof (length_pack _ _ _ Hp).
    rewrite exact_len_Ok by done. cbn.
    rewrite (unpack_pack _ _ _ Hp eq_refl). cbn.
    apply negb_true_iff in Hf. rewrite Hf. by destruct e.
  - erewrite parse_pack_checkpoint by done. done.
Qed.

(** One iteration of the reader's loop on a framed record. *)
Lemma read_records_step rec bs fuel src pre rest r :
  record_bytes rec = Ok bs → record_decodes rec →
  record_legal rec r = true → expectation_fresh rec r = true →
  read_records (S fuel) src (pre ++ bs ++ rest) (length pre) r
  = read_records fuel src (pre ++ bs ++ rest) (length (pre ++ bs)) (add_record rec r).
Proof.
  unfold record_bytes, frame. intros Hb Hd Hl Hf. inv_result.
  rename x into p, x0 into prefix.
  pose proof (length_pack _ _ _ Hx0) as Hlen. change (size_of _RECORD) with 8%nat in Hlen.
  cbn [read_records]. rewrite bool_decide_eq_false_2 by (rewrite !length_app; lia).
  rewrite (proj2 (Z.ltb_ge _ _)) by (rewrite !length_app; unfold RECORD_HEADER_SIZE; lia).
  cbn [raise_if mbind result_bind]. rewrite <-app_assoc.
  rewrite (unpack_from_app _ _ _ _ _ Hx0 eq_refl). cbn [mbind result_bind].
  change (Z.to_nat RECORD_HEADER_SIZE) with 8%nat. rewrite Nat2Z.id.
  rewrite (proj2 (Z.ltb_ge _ _)) by (rewrite !length_app; lia).
  cbn [raise_if mbind result_bind].
  replace (length pre + 8)%nat with (length (pre ++ prefix)) by (rewrite length_app; lia).
  rewrite (app_assoc pre prefix), drop_app_length, take_app_length.
  erewrite read_record_encoded by done. cbn [mbind result_bind].
  by rewrite !length_app, Nat.add_assoc.
Qed.

(** ** Record sequences *)

Fixpoint log_bytes (log : list record) : result bytes :=
  match log with
  | [] => Ok []
  | rec :: log => b ← record_bytes rec; bs ← log_bytes log; Ok (b ++ bs)
  end.

Definition add_log (log : list record) (r : reader) : reader :=
  foldl (λ r rec, add_record rec r) r log.

Fixpoint log_legal (log : list record) (r : reader) : bool :=
  match log with
  | [] => true
  | rec :: log => record_legal rec r && log_legal log (add_record rec r)
  end.

(** No tick carries two expectations. *)
Definition expectations_unique (r : reader) : Prop := NoDup (ex_tick <$> r_expected r).

Lemma add_log_expected log r : r_expected r `prefix_of` r_expected (add_log log r).
Proof.
  revert r. induction log as [|rec log IH]; intros r; [done|].
  cbn. etransitivity; [|apply IH]. destruct rec; cbn; try done. by exists [e].
Qed.

Lemma expectations_unique_mono log r :
  expectations_unique (add_log log r) → expectations_unique r.
Proof.
  unfold expectations_unique. destruct (add_log_expected log r) as [k ->].
  rewrite fmap_app. by intros [? _]%NoDup_app.
Qed.

Lemma expectation_fresh_unique rec r :
  expectations_unique (add_record rec r) → expectation_fresh rec r = true.
Proof.
  destruct rec as [| |e|]; try done. unfold expectations_unique. cbn.
  rewrite fmap_app, NoDup_app. intros (_ & Hd & _). apply negb_true_iff.
  apply not_true_iff_false. intros (seen & Hin & Heq)%existsb_exists. bool_hyps.
  apply (Hd (ex_tick e)); [|set_solver].
  apply list_elem_of_fmap. exists seen. by rewrite list_elem_of_In.
Qed.

Lemma read_records_log src log : ∀ bs fuel pre r,
  log_bytes log = Ok bs → Forall record_decodes log → log_legal log r = true →
  expectations_unique (add_log log r) → (length log ≤ fuel)%nat →
  read_records fuel src (pre ++ bs) (length pre) r = Ok (add_log log r).
Proof.
  induction log as [|rec log IH]; intros bs fuel pre r Hb Hd Hl Hu Hfuel; cbn in Hb.
  { inv_result. rewrite app_nil_r. destruct fuel; cbn; by rewrite bool_decide_eq_true_2. }
  inv_result. apply Forall_cons in Hd as [Hd1 Hd]. cbn in Hl. bool_hyps.
  destruct fuel as [|fuel]; cbn in Hfuel; [lia|].
  rewrite (read_records_step rec); try done.
  - rewrite app_assoc. apply IH; try done. lia.
  - apply expectation_fresh_unique. by eapply expectations_unique_mono.
Qed.

Lemma length_record_bytes rec bs : record_bytes rec = Ok bs → (8 ≤ length bs)%nat.
Proof.
  unfold record_bytes, frame. intros Hb. inv_result.
  apply length_pack in Hx0. change (size_of _RECORD) with 8%nat in Hx0. rewrite length_app. lia.
Qed.

Lemma length_log_bytes log bs : log_bytes log = Ok bs → (length log ≤ length bs)%nat.
Proof.
  revert bs. induction log as [|rec log IH]; cbn; intros bs Hb; inv_result; [done|].
  apply length_record_bytes in Hx. apply IH in Hx0. rewrite length_app. lia.
Qed.

Lemma log_bytes_snoc log rec :
  log_bytes (log ++ [rec]) = (bs ← log_bytes log; b ← record_bytes rec; Ok (bs ++ b)).
Proof.
  induction log as [|rec' log IH]; cbn.
  - destruct (record_bytes rec); cbn; by rewrite ?app_nil_r.
  - rewrite IH. destruct (record_bytes rec'); cbn; [|done].
    destruct (log_bytes log); cbn; [|done].
    destruct (record_bytes rec); cbn; by rewrite ?app_assoc.
Qed.

Lemma log_legal_snoc log rec r :
  log_legal (log ++ [rec]) r = log_legal log r && record_legal rec (add_log log r).
Proof.
  revert r. induction log as [|rec' log IH]; intros r; cbn; [by rewrite andb_true_r|].
  by rewrite IH, andb_assoc.
Qed.

Lemma add_log_snoc log rec r : add_log (log ++ [rec]) r = add_record rec (add_log log r).
Proof. unfold add_log. by rewrite foldl_app. Qed.

(** A header followed by a lawful record sequence reads as that sequence. *)
Lemma read_document_log src tick_hz header log bs :
  1 ≤ tick_hz → pack _HEADER (header_vals tick_hz) = Ok header →
  log_bytes log = Ok bs → Forall record_decodes log → log_legal log empty_reader = true →
  expectations_unique (add_log log empty_reader) →
  read_document (header ++ bs) src = Ok (document_of tick_hz 0 (add_log log empty_reader)).
Proof.
  intros Hhz Hh Hb Hd Hl Hu. pose proof (length_pack _ _ _ Hh) as Hlen.
  change (size_of _HEADER) with 16%nat in Hlen.
  unfold read_document.
  rewrite (proj2 (Z.ltb_ge _ _)) by (rewrite length_app; unfold HEADER_SIZE; lia).
  cbn [raise_if mbind result_bind].
  rewrite (unpack_from_0 _ _ _ _ Hh eq_refl). unfold header_vals. cbn [mbind result_bind].
  rewrite bool_decide_eq_true_2 by done. change (FORMAT_VERSION =? FORMAT_VERSION) with true.
  rewrite (proj2 (Z.ltb_ge tick_hz 1)) by lia. cbn [negb raise_if mbind result_bind Z.eqb].
  change (HEADER_SIZE <? HEADER_SIZE) with false. cbn [raise_if mbind result_bind].
  change (Z.to_nat HEADER_SIZE) with 16%nat. rewrite <-Hlen.
  rewrite (read_records_log src log) by
    (try done; rewrite length_app; pose proof (length_log_bytes _ _ Hb); lia).
  done.
Qed.

End WithJson.
