(* ===== verification/ReplayWriter.v ===== *)
(** * The streaming writer refines an abstract recording session

    The abstract session is the list of what was recorded, with the ordering
    law as the legality of each call.  The writer of [ReplayFormat] keeps
    only a byte stream and four fields; the simulation shows that it accepts
    exactly the legal calls, that a refused call changes nothing, and that
    the bytes written so far always read back as the session. *)

From S2P Require Import Prelude PyStruct Json ReplayFormat ReplayCodec.

#[local] Open Scope Z_scope.

(** Expose a writer operation as the state transformer it is. *)
Ltac run_writer :=
  unfold write_meta, write_tick, write_expected_hash, write_rng_checkpoint, writer_close,
    _ensure_open, set_closed, set_meta_written, set_last_tick, set_last_stream_key,
    guard, lift, get, modify, raise_if, mbind, M_bind.

Section WithJson.
Context `{JsonCodec}.

(** ** The abstract session *)

Record session := mkSession {
  ss_closed : bool;
  ss_meta : option jdict;
  ss_ticks : list TickRecord;
  ss_expected : list ExpectedHash;
  ss_checkpoints : list RngCheckpoint;
}.

Definition new_session : session := mkSession false None [] [] [].

(** The public operations of [ReplayWriter]. *)
Inductive call :=
  | CallMeta (meta : jdict)
  | CallTick (tick : Z) (events : list Event)
  | CallExpected (tick hash_value : Z)
  | CallCheckpoint (tick stream_key : Z) (state : bytes)
  | CallClose.

(** The metadata passed is one JSON represents. *)
Definition call_ok (c : call) : bool :=
  match c with CallMeta m => jdict_ok m | _ => true end.

(** The ordering law and the field widths, per operation. *)
Definition call_legal (c : call) (s : session) : bool :=
  match c with
  | CallMeta m =>
      negb (ss_closed s) &&
      match ss_meta s, ss_ticks s with None, [] => true | _, _ => false end &&
      match json_dumps m with Ok p => in_u 4 (Z.of_nat (length p)) | Err _ => false end
  | CallTick t es =>
      negb (ss_closed s) &&
      match last_tick_of (ss_ticks s) with Some l => l <? t | None => true end &&
      (Z.of_nat (length es) <=? _U16_MAX) && in_u 8 t && forallb event_fits es
  | CallExpected t h => negb (ss_closed s) && in_u 8 t && in_u 8 h
  | CallCheckpoint t k st =>
      negb (ss_closed s) &&
      bool_decide (last_tick_of (ss_ticks s) = Some t) &&
      forallb (λ c, negb (ck_tick c =? t) || (ck_stream_key c <? k)) (ss_checkpoints s) &&
      bool_decide (length st = RNG_STATE_SIZE) && in_u 8 t && in_u 8 k
  | CallClose => true
  end.

Definition call_effect (c : call) (s : session) : session :=
  match c with
  | CallMeta m =>
      mkSession (ss_closed s) (Some m) (ss_ticks s) (ss_expected s) (ss_checkpoints s)
  | CallTick t es =>
      mkSession (ss_closed s) (ss_meta s) (ss_ticks s ++ [mkTick t (_sort_events es)])
                (ss_expected s) (ss_checkpoints s)
  | CallExpected t h =>
      mkSession (ss_closed s) (ss_meta s) (ss_ticks s) (ss_expected s ++ [mkExpected t h])
                (ss_checkpoints s)
  | CallCheckpoint t k st =>
      mkSession (ss_closed s) (ss_meta s) (ss_ticks s) (ss_expected s)
                (ss_checkpoints s ++ [mkCheckpoint t k st])
  | CallClose =>
      mkSession true (ss_meta s) (ss_ticks s) (ss_expected s) (ss_checkpoints s)
  end.

Definition spec_call (c : call) (s : session) : session * bool :=
  if call_legal c s then (call_effect c s, true) else (s, false).

(** A caller that issues calls one after the other and catches what they
    raise; the flags tell which calls returned normally. *)
Fixpoint spec_calls (cs : list call) (s : session) : session * list bool :=
  match cs with
  | [] => (s, [])
  | c :: cs =>
      let '(s, b) := spec_call c s in
      let '(s, bs) := spec_calls cs s in (s, b :: bs)
  end.

Definition run_call (c : call) : M ReplayWriter unit :=
  match c with
  | CallMeta m => write_meta m
  | CallTick t es => write_tick t es
  | CallExpected t h => write_expected_hash t h
  | CallCheckpoint t k st => write_rng_checkpoint t k st
  | CallClose => writer_close
  end.

Fixpoint run_calls (cs : list call) (w : ReplayWriter) : ReplayWriter * list bool :=
  match cs with
  | [] => (w, [])
  | c :: cs =>
      let '(w, res) := run_call c w in
      let '(w, bs) := run_calls cs w in (w, is_ok res :: bs)
  end.

(** A document carries the content of a session. *)
Definition meta_equiv (m m' : option jdict) : Prop :=
  match m, m' with
  | None, None => True
  | Some m, Some m' => jdict_equiv m m'
  | _, _ => False
  end.

Definition document_matches (d : ReplayDocument) (tick_hz : Z) (s : session) : Prop :=
  doc_header d = mkHeader tick_hz 0 ∧ meta_equiv (doc_meta d) (ss_meta s) ∧
  doc_ticks d = ss_ticks s ∧ doc_expected_hashes d = ss_expected s ∧
  doc_rng_checkpoints d = ss_checkpoints s.

(** ** The simulation relation *)

Definition reader_matches (r : reader) (s : session) : Prop :=
  meta_equiv (r_meta r) (ss_meta s) ∧ r_ticks r = ss_ticks s ∧
  r_expected r = ss_expected s ∧ r_checkpoints r = ss_checkpoints s.

(** The bytes after [pre] are a lawful record sequence with the session's
    content. *)
Definition stream_inv (pre : bytes) (w : ReplayWriter) (s : session) : Prop :=
  ∃ log bs, s_data (w_stream w) = pre ++ bs ∧ log_bytes log = Ok bs ∧
    Forall record_decodes log ∧ log_legal log empty_reader = true ∧
    reader_matches (add_log log empty_reader) s.

(** The four fields agree with the session.  The last two clauses say what
    [_last_stream_key] stands for. *)
Record fields_inv (w : ReplayWriter) (s : session) : Prop := {
  fi_closed : w_closed w = ss_closed s;
  fi_meta : w_meta_written w = bool_decide (is_Some (ss_meta s));
  fi_tick : w_last_tick w = last_tick_of (ss_ticks s);
  fi_cks : Forall (λ c, ∃ l, w_last_tick w = Some l ∧ ck_tick c ≤ l) (ss_checkpoints s);
  fi_key : Forall (λ c, w_last_tick w = Some (ck_tick c) →
             ∃ k, w_last_stream_key w = Some k ∧ ck_stream_key c ≤ k) (ss_checkpoints s);
  fi_key_in : ∀ k, w_last_stream_key w = Some k → ∃ c, c ∈ ss_checkpoints s ∧
             w_last_tick w = Some (ck_tick c) ∧ ck_stream_key c = k;
}.

Definition writer_inv (pre : bytes) (w : ReplayWriter) (s : session) : Prop :=
  stream_inv pre w s ∧ fields_inv w s.

(** ** Emission *)

Definition appended (bs : bytes) (w : ReplayWriter) : ReplayWriter :=
  mkWriter (stream_write bs (w_stream w)) (w_closed w) (w_meta_written w)
           (w_last_tick w) (w_last_stream_key w).

Lemma emit_frame ty p w :
  _emit ty p w = match frame ty p with
                 | Ok bs => (appended bs w, Ok tt)
                 | Err e => (w, Err e)
                 end.
Proof.
  unfold _emit, frame, lift, w_write, modify, mbind, M_bind, result_bind.
  destruct (pack _RECORD _) as [prefix|e]; [|done]. cbn.
  unfold appended, stream_write. cbn. by rewrite app_assoc.
Qed.

Lemma frame_cases rec p : record_payload rec = Ok p →
  (in_u 4 (Z.of_nat (length p)) = true ∧ ∃ bs, frame (record_type rec) p = Ok bs ∧ record_bytes rec = Ok bs) ∨
  (in_u 4 (Z.of_nat (length p)) = false ∧ frame (record_type rec) p = Err StructError).
Proof.
  intros Hp. unfold record_bytes. rewrite Hp. cbn [mbind result_bind]. unfold frame.
  destruct (pack_cases _RECORD (record_type rec, (0, (0, (Z.of_nat (length p), tt)))) eq_refl)
    as [[Hf [bs ->]]|[Hf ->]]; unfold fits in Hf; cbn [fits_fld _RECORD] in Hf.
  - left. bool_hyps. cbn. eauto.
  - right. split; [|done]. destruct rec; cbn in Hf; by rewrite andb_true_r in Hf.
Qed.

Lemma stream_inv_snoc pre w w' s s' rec bs :
  stream_inv pre w s → record_bytes rec = Ok bs → record_decodes rec →
  (∀ r, reader_matches r s → record_legal rec r = true ∧ reader_matches (add_record rec r) s') →
  s_data (w_stream w') = s_data (w_stream w) ++ bs →
  stream_inv pre w' s'.
Proof.
  intros (log & bs' & Hdata & Hb & Hd & Hl & Hm) Hrec Hdec Hstep Hw'.
  destruct (Hstep _ Hm) as [Hlegal Hm'].
  exists (log ++ [rec]), (bs' ++ bs). repeat split.
  - by rewrite Hw', Hdata, app_assoc.
  - rewrite log_bytes_snoc, Hb. cbn. by rewrite Hrec.
  - apply Forall_app. auto.
  - rewrite log_legal_snoc, Hl. done.
  - rewrite add_log_snoc. apply Hm'.
  - rewrite add_log_snoc. apply Hm'.
  - rewrite add_log_snoc. apply Hm'.
  - rewrite add_log_snoc. apply Hm'.
Qed.

Lemma stream_inv_same pre w w' s s' :
  stream_inv pre w s → w_stream w' = w_stream w →
  (∀ r, reader_matches r s → reader_matches r s') → stream_inv pre w' s'.
Proof.
  intros (log & bs & Hdata & ? & ? & ? & Hm) Hw Hs.
  exists log, bs. rewrite Hw. eauto 10.
Qed.

(** ** One call

    [outcome pre c w s] is what the simulation promises of running [c]. *)

Definition outcome (pre : bytes) (c : call) (w : ReplayWriter) (s : session) : Prop :=
  let '(w', res) := run_call c w in
  if call_legal c s
  then res = Ok tt ∧ writer_inv pre w' (call_effect c s)
  else is_ok res = false ∧ w' = w.

Lemma close_outcome pre w s : writer_inv pre w s → outcome pre CallClose w s.
Proof.
  intros [Hs [? ? ? ? ? ?]]. unfold outcome, run_call. run_writer. cbn. split; [done|]. split.
  - by eapply stream_inv_same.
  - by constructor.
Qed.

Lemma expected_outcome pre t h w s :
  writer_inv pre w s → outcome pre (CallExpected t h) w s.
Proof.
  intros [Hs [Hc ? ? ? ? ?]]. unfold outcome, run_call. run_writer. cbn [call_legal]. rewrite <-Hc.
  destruct (w_closed w) eqn:Hcl; cbn [negb andb]; [done|].
  set (rec := RecExpected (mkExpected t h)).
  destruct (pack_cases _EXPECTED_HASH (t, (h, tt)) eq_refl) as [[Hf [p Hp]]|[Hf Hp]];
    rewrite Hp; unfold fits in Hf; cbn in Hf; rewrite andb_true_r in Hf; rewrite Hf; [|done].
  rewrite emit_frame. change EXPECTED_HASH_RECORD_TYPE with (record_type rec).
  destruct (frame_cases rec p) as [[_ (bs & -> & Hb)]|[Hbad _]]; [done| |].
  - split; [done|]. split.
    + eapply (stream_inv_snoc _ _ _ _ _ rec); try done.
      intros r (? & ? & He & ?). repeat split; cbn; try done. by rewrite He.
    + constructor; cbn; try done; congruence.
  - apply length_pack in Hp. rewrite Hp in Hbad. by vm_compute in Hbad.
Qed.

(** The writer's key test against [_last_stream_key] is the session's test
    against every checkpoint of the current tick. *)
Lemma key_guard w s t k :
  fields_inv w s → w_last_tick w = Some t →
  forallb (λ c, negb (ck_tick c =? t) || (ck_stream_key c <? k)) (ss_checkpoints s)
  = negb (match w_last_stream_key w with Some l => k <=? l | None => false end).
Proof.
  intros [_ _ _ _ Hkey Hin] Ht. apply eq_true_iff_eq. rewrite forallb_forall, negb_true_iff.
  rewrite Forall_forall in Hkey. split.
  - intros Hall. destruct (w_last_stream_key w) as [l|] eqn:El; [|done].
    destruct (Hin l eq_refl) as (c & Hc & Hct & <-). rewrite list_elem_of_In in Hc.
    specialize (Hall c Hc). rewrite Ht in Hct. injection Hct as ->.
    rewrite Z.eqb_refl in Hall. cbn in Hall. bool_hyps. by apply Z.leb_gt.
  - intros Hk c Hc. rewrite <-list_elem_of_In in Hc.
    destruct (Z.eqb_spec (ck_tick c) t) as [<-|]; [|done]. cbn.
    destruct (Hkey c Hc Ht) as (l & El & Hle). rewrite El in Hk. bool_hyps.
    apply Z.ltb_lt. lia.
Qed.

Lemma checkpoint_legal c r s :
  reader_matches r s → last_tick_of (ss_ticks s) = Some (ck_tick c) →
  length (ck_state c) = RNG_STATE_SIZE →
  forallb (λ c', negb (ck_tick c' =? ck_tick c) || (ck_stream_key c' <? ck_stream_key c))
    (ss_checkpoints s) = true →
  record_legal (RecCheckpoint c) r = true.
Proof.
  intros (_ & Ht & _ & Hc) Hlast Hlen Hall. cbn. rewrite Ht, Hc, Hlast.
  rewrite !bool_decide_eq_true_2 by done. cbn.
  destruct (last (ss_checkpoints s)) as [l|] eqn:El; [|done].
  rewrite forallb_forall in Hall. apply Hall. rewrite <-list_elem_of_In.
  by apply last_Some_elem_of.
Qed.

Lemma fields_inv_checkpoint w s t k st :
  fields_inv w s → w_last_tick w = Some t →
  forallb (λ c, negb (ck_tick c =? t) || (ck_stream_key c <? k)) (ss_checkpoints s) = true →
  ∀ w', w_closed w' = w_closed w → w_meta_written w' = w_meta_written w →
  w_last_tick w' = w_last_tick w → w_last_stream_key w' = Some k →
  fields_inv w' (call_effect (CallCheckpoint t k st) s).
Proof.
  intros [Hc Hm Ht Hcks Hkey Hin] Hl Hall w' Ec Em Et Ek.
  rewrite forallb_forall in Hall.
  constructor; rewrite ?Ec, ?Em, ?Et, ?Ek; cbn; try done.
  - apply Forall_app. split; [done|]. repeat constructor. cbn. eauto with lia.
  - apply Forall_app. split.
    + apply Forall_forall. intros c Hcin Hct. exists k. split; [done|].
      rewrite Hl in Hct. injection Hct as ->.
      specialize (Hall c). rewrite <-list_elem_of_In, Z.eqb_refl in Hall.
      specialize (Hall Hcin). cbn in Hall. bool_hyps. lia.
    + repeat constructor. cbn. eauto with lia.
  - intros k' [= <-]. eexists. split; [apply elem_of_app; right; by apply list_elem_of_singleton|].
    done.
Qed.

Lemma checkpoint_outcome pre t k st w s :
  writer_inv pre w s → outcome pre (CallCheckpoint t k st) w s.
Proof.
  intros [Hs Hfi]. pose proof Hfi as [Hc Hmt Ht Hcks Hkey Hin].
  unfold outcome, run_call. run_writer. cbn [call_legal]. rewrite <-Hc, <-Ht.
  destruct (w_closed w) eqn:Hcl; cbn [negb andb]; [done|].
  destruct (w_last_tick w) as [l|] eqn:El; cbn [andb]; [|done].
  destruct (Z.eqb_spec t l) as [->|Hne]; cbn [negb].
  2: { rewrite (bool_decide_eq_false_2 (Some l = Some t)) by congruence. done. }
  rewrite (bool_decide_eq_true_2 (Some l = Some l)) by done. cbn [andb].
  pose proof (key_guard w s l k Hfi El) as Hg. rewrite Hg.
  destruct (match w_last_stream_key w with Some l => k <=? l | None => false end) eqn:Hkg;
    cbn [negb andb] in Hg |- *; [done|].
  destruct (decide (length st = RNG_STATE_SIZE)) as [Hst|Hst].
  2: { rewrite !bool_decide_eq_false_2 by done. done. }
  rewrite !bool_decide_eq_true_2 by done. cbn [negb andb]. rewrite Hst.
  set (rec := RecCheckpoint (mkCheckpoint l k st)).
  destruct (pack_cases _CHECKPOINT_HEAD (l, (k, (Z.of_nat RNG_STATE_SIZE, tt))) eq_refl)
    as [[Hf [p Hp]]|[Hf Hp]]; rewrite Hp;
    unfold fits in Hf; cbn in Hf; rewrite andb_true_r in Hf; rewrite Hf; [|done].
  rewrite emit_frame. change RNG_CHECKPOINT_RECORD_TYPE with (record_type rec).
  destruct (frame_cases rec (p ++ st)) as [[_ (bs & -> & Hb)]|[Hbad _]].
  - cbn. by rewrite Hst, Hp.
  - split; [done|]. split.
    + eapply (stream_inv_snoc _ _ _ _ _ rec); try done.
      intros r Hr. split.
      * eapply checkpoint_legal; try done.
      * destruct Hr as (? & ? & ? & Hck). repeat split; cbn; try done. by rewrite Hck.
    + by eapply fields_inv_checkpoint.
  - apply length_pack in Hp. rewrite length_app, Hp, Hst in Hbad. by vm_compute in Hbad.
Qed.

Lemma meta_outcome pre m w s :
  jdict_ok m = true → writer_inv pre w s → outcome pre (CallMeta m) w s.
Proof.
  intros Hok [Hs [Hc Hmt Ht Hcks Hkey Hin]]. unfold outcome, run_call. run_writer. cbn [call_legal]. rewrite <-Hc, Hmt, Ht.
  destruct (w_closed w) eqn:Hcl; cbn [negb andb]; [done|].
  destruct (ss_meta s) as [m0|] eqn:Em; cbn [andb].
  { rewrite bool_decide_eq_true_2 by eauto. done. }
  rewrite bool_decide_eq_false_2 by by intros [? [=]].
  unfold last_tick_of. destruct (ss_ticks s) as [|t ts] eqn:Ets; cbn [last fmap option_fmap option_map andb].
  2: { rewrite bool_decide_eq_true_2; [done|]. by destruct (last (t :: ts)) eqn:El;
       [|apply last_None in El]. }
  rewrite bool_decide_eq_false_2 by by intros [].
  destruct (json_dumps m) as [p|e] eqn:Hp; [|done].
  destruct (json_loads_dumps m p Hok Hp) as (m' & Hm' & Heq).
  set (rec := RecMeta p m'). rewrite emit_frame. change META_RECORD_TYPE with (record_type rec).
  destruct (frame_cases rec p) as [[-> (bs & -> & Hb)]|[-> ->]]; [done| |done].
  split; [done|]. split.
  - eapply (stream_inv_snoc _ _ _ _ _ rec); try done.
    intros r (Hrm & Hrt & Hre & Hrc). cbn. rewrite Hrt, Ets.
    rewrite Em in Hrm. destruct (r_meta r); [done|]. by repeat split.
  - constructor; cbn; rewrite ?Ets, ?bool_decide_eq_true_2 by eauto; try done; congruence.
Qed.

Lemma sorted_events_fits es : forallb event_fits (_sort_events es) = forallb event_fits es.
Proof.
  apply eq_true_iff_eq. rewrite !forallb_forall.
  split; intros Hall e He; apply Hall; rewrite <-list_elem_of_In in He |- *.
  - unfold _sort_events. by rewrite sorted_by_perm.
  - unfold _sort_events in He. by rewrite sorted_by_perm in He.
Qed.

(** A tick of at most 65535 events always fits the 32-bit payload length. *)
Lemma tick_payload_bound es head body t :
  Z.of_nat (length es) ≤ _U16_MAX → pack _TICK_HEAD t = Ok head → pack_events es = Ok body →
  in_u 4 (Z.of_nat (length (head ++ body))) = true.
Proof.
  intros Hn Hh Hb. apply length_pack in Hh. apply length_pack_events in Hb.
  change (size_of _TICK_HEAD) with 10%nat in Hh.
  apply in_u_spec. rewrite length_app. unfold _U16_MAX in Hn.
  change (pow256 4) with 4294967296. lia.
Qed.

Lemma fields_inv_tick w s t es :
  fields_inv w s → match w_last_tick w with Some l => l <? t | None => true end = true →
  ∀ w', w_closed w' = w_closed w → w_meta_written w' = w_meta_written w →
  w_last_tick w' = Some t → w_last_stream_key w' = None →
  fields_inv w' (call_effect (CallTick t es) s).
Proof.
  intros [Hc Hm Ht Hcks Hkey Hin] Hlt w' Ec Em Et Ek.
  assert (Forall (λ c, ck_tick c < t) (ss_checkpoints s)) as Hold.
  { eapply Forall_impl; [exact Hcks|]. intros c (l & El & Hle). rewrite El in Hlt.
    bool_hyps. lia. }
  constructor; rewrite ?Ec, ?Em, ?Et, ?Ek; cbn; try done.
  - unfold last_tick_of. by rewrite last_snoc.
  - eapply Forall_impl; [exact Hold|]. intros c ?. cbn in *. exists t. split; [done|lia].
  - eapply Forall_impl; [exact Hold|]. intros c ? [= ->]. cbn in *. lia.
Qed.

Lemma tick_outcome pre t es w s :
  writer_inv pre w s → outcome pre (CallTick t es) w s.
Proof.
  intros [Hs Hfi]. pose proof Hfi as [Hc Hmt Ht Hcks Hkey Hin].
  unfold outcome, run_call. run_writer. cbn [call_legal]. rewrite <-Hc, <-Ht.
  destruct (w_closed w) eqn:Hcl; cbn [negb andb]; [done|].
  replace (match w_last_tick w with Some l => t <=? l | None => false end)
    with (negb (match w_last_tick w with Some l => l <? t | None => true end))
    by (destruct (w_last_tick w); [by rewrite Z.leb_antisym|done]).
  destruct (match w_last_tick w with Some l => l <? t | None => true end) eqn:Hlt;
    cbn [negb andb]; [|done].
  unfold _sort_events at 1. rewrite length_sorted_by, Z.ltb_antisym.
  destruct (Z.leb_spec (Z.of_nat (length es)) _U16_MAX) as [Hn|]; cbn [negb andb]; [|done].
  set (rec := RecTick (mkTick t (_sort_events es))).
  assert (length (_sort_events es) = length es) as Hlen by apply length_sorted_by.
  assert (in_u 2 (Z.of_nat (length es)) = true) as Hcnt.
  { apply in_u_spec. unfold _U16_MAX in Hn. change (pow256 2) with 65536. lia. }
  rewrite Hlen.
  destruct (pack_cases _TICK_HEAD (t, (Z.of_nat (length es), tt)) eq_refl)
    as [[Hf [head Hh]]|[Hf Hh]]; rewrite Hh; unfold fits in Hf; cbn in Hf;
    rewrite Hcnt, !andb_true_r in Hf; rewrite Hf; [|done]; cbn [andb].
  rewrite <-(sorted_events_fits es).
  destruct (pack_events (_sort_events es)) as [body|e] eqn:Hb.
  2: { destruct (forallb event_fits _) eqn:Hfe; [|done].
       apply pack_events_fits in Hfe as [? ?]. congruence. }
  rewrite (proj2 (pack_events_fits _)) by eauto. cbn [mbind result_bind].
  rewrite emit_frame. change TICK_RECORD_TYPE with (record_type rec).
  assert (record_payload rec = Ok (head ++ body)) as Hp.
  { cbn. by rewrite Hlen, Hh, Hb. }
  destruct (frame_cases rec (head ++ body) Hp) as [[_ (bs & -> & Hbs)]|[Hbad _]].
  - split; [done|]. split.
    + eapply (stream_inv_snoc _ _ _ _ _ rec); try done.
      intros r (Hrm & Hrt & Hre & Hrc). cbn. rewrite Hrt, <-Ht, Hlt.
      unfold _sort_events at 1. rewrite sorted_by_ascending. by repeat split; cbn; rewrite ?Hrt.
    + by eapply fields_inv_tick.
  - rewrite (tick_payload_bound (_sort_events es) head body (t, (Z.of_nat (length es), tt))) in Hbad;
      [done| |done|done]. by rewrite Hlen.
Qed.

Lemma call_outcome pre c w s : call_ok c = true → writer_inv pre w s → outcome pre c w s.
Proof.
  destruct c; eauto using meta_outcome, tick_outcome, expected_outcome,
    checkpoint_outcome, close_outcome.
Qed.

Lemma calls_outcome pre cs : forallb call_ok cs = true → ∀ w s, writer_inv pre w s →
  let '(w', flags) := run_calls cs w in
  let '(s', flags') := spec_calls cs s in
  flags = flags' ∧ writer_inv pre w' s'.
Proof.
  induction cs as [|c cs IH]; [done|]. intros [Hc Hcs]%andb_true_iff w s Hinv. cbn.
  specialize (IH Hcs). pose proof (call_outcome pre c w s Hc Hinv) as Ho. unfold outcome in Ho. unfold spec_call.
  destruct (run_call c w) as [w1 res]. destruct (call_legal c s).
  - destruct Ho as [-> Hinv']. specialize (IH _ _ Hinv').
    destruct (run_calls cs w1), (spec_calls cs _). by destruct IH as [-> ?].
  - destruct Ho as [Hres ->]. specialize (IH _ _ Hinv).
    destruct (run_calls cs w), (spec_calls cs _). destruct IH as [-> ?].
    by rewrite Hres.
Qed.

Lemma init_Ok st tick_hz w :
  ReplayWriter_init st tick_hz = Ok w → 1 ≤ tick_hz ∧ ∃ header,
  pack _HEADER (header_vals tick_hz) = Ok header ∧
  w = mkWriter (stream_write header st) false false None None.
Proof. unfold ReplayWriter_init. intros Hi. inv_result. bool_hyps. eauto. Qed.

Lemma init_inv header st :
  writer_inv (s_data st ++ header) (mkWriter (stream_write header st) false false None None)
    new_session.
Proof.
  split.
  - exists [], []. cbn. rewrite app_nil_r. by repeat split.
  - by constructor.
Qed.

Lemma inv_reads_back src tick_hz header w s :
  1 ≤ tick_hz → pack _HEADER (header_vals tick_hz) = Ok header →
  writer_inv header w s → NoDup (ex_tick <$> ss_expected s) →
  ∃ d, read_document (s_data (w_stream w)) src = Ok d ∧ document_matches d tick_hz s.
Proof.
  intros Hhz Hh [(log & bs & -> & Hb & Hd & Hl & Hm) _] Hu.
  destruct Hm as (Hmm & Hmt & Hme & Hmc). eexists. split.
  - eapply read_document_log; try done. unfold expectations_unique. by rewrite Hme.
  - by repeat split.
Qed.

(** C1: Every sequence of writer calls, legal or not, behaves as the abstract
    session: exactly the calls the ordering law and the field widths allow
    return normally, a rejected call leaves the writer unchanged, and, when no
    tick has two expectations, the bytes written read back as a document with
    the session's metadata, ticks, expectations and checkpoints. *)
Theorem writer_refines_session tick_hz w0 cs src :
  ReplayWriter_init empty_sink tick_hz = Ok w0 → forallb call_ok cs = true →
  let '(w, flags) := run_calls cs w0 in
  let '(s, flags') := spec_calls cs new_session in
  flags = flags' ∧
  (NoDup (ex_tick <$> ss_expected s) →
   ∃ d, read_document (s_data (w_stream w)) src = Ok d ∧ document_matches d tick_hz s).
Proof.
  intros (Hhz & header & Hh & ->)%init_Ok Hok.
  pose proof (calls_outcome header cs Hok _ _ (init_inv header empty_sink)) as Hc.
  destruct (run_calls cs _) as [w flags], (spec_calls cs _) as [s flags'].
  destruct Hc as [-> Hinv]. split; [done|]. by eapply inv_reads_back.
Qed.
End WithJson.
