(* ===== verification/ReplayDocument.v ===== *)
(** * Whole documents: reader soundness, round trip, error discipline

    A document is lawful when it obeys the ordering law and the field
    widths.  The reader only returns lawful documents, every lawful document
    encodes, and what it encodes to reads back as itself. *)

From S2P Require Import Prelude PyStruct Json ReplayFormat ReplayCodec ReplayWriter.

#[local] Open Scope Z_scope.

Definition tick_lawful (t : TickRecord) : bool :=
  in_u 8 (tr_tick t) && forallb event_fits (tr_events t) &&
  ascending canonical_event_key (tr_events t) &&
  (Z.of_nat (length (tr_events t)) <=? _U16_MAX).

Definition expected_lawful (e : ExpectedHash) : bool :=
  in_u 8 (ex_tick e) && in_u 8 (ex_hash e).

Definition checkpoint_lawful (ticks : list TickRecord) (c : RngCheckpoint) : bool :=
  in_u 8 (ck_tick c) && in_u 8 (ck_stream_key c) &&
  bool_decide (length (ck_state c) = RNG_STATE_SIZE) &&
  bool_decide (ck_tick c ∈ tr_tick <$> ticks).

Definition ck_key (c : RngCheckpoint) : Z * Z := (ck_tick c, ck_stream_key c).

(** Ticks strictly ascend; each tick's events are canonically ordered; no
    tick has two expectations; checkpoints are grouped by tick, each group
    after its own tick record, with strictly ascending stream keys. *)
Definition content_lawful (ticks : list TickRecord) (expected : list ExpectedHash)
    (checkpoints : list RngCheckpoint) : bool :=
  forallb tick_lawful ticks && strictly_ascending tr_tick ticks &&
  forallb expected_lawful expected && bool_decide (NoDup (ex_tick <$> expected)) &&
  forallb (checkpoint_lawful ticks) checkpoints && strictly_ascending ck_key checkpoints.

Lemma ltb_pair (a b a' b' : Z) :
  ltb (a, b) (a', b') = true ↔ a < a' ∨ a = a' ∧ b < b'.
Proof.
  unfold ltb. cbn. rewrite negb_true_iff.
  destruct (Z.leb_spec a a'), (Z.leb_spec a' a), (Z.leb_spec b' b); cbn;
    split; intros; try done; try lia; first [by left; lia|by right; lia|idtac].
Qed.

Section WithJson.
Context `{JsonCodec}.

(** Metadata that JSON represents. *)
Definition meta_ok (m : option jdict) : bool :=
  match m with Some m => jdict_ok m | None => true end.

Definition doc_lawful (d : ReplayDocument) : bool :=
  meta_ok (doc_meta d) && (hd_flags (doc_header d) =? 0) && (1 <=? hd_tick_hz (doc_header d)) &&
  in_u 4 (hd_tick_hz (doc_header d)) &&
  content_lawful (doc_ticks d) (doc_expected_hashes d) (doc_rng_checkpoints d).

(** The metadata has a JSON encoding that fits a record. *)
Definition meta_encodable (m : option jdict) : bool :=
  match m with
  | Some m => match json_dumps m with Ok p => in_u 4 (Z.of_nat (length p)) | Err _ => false end
  | None => true
  end.

(** Equality of documents, the metadata compared by its entries. *)
Definition doc_equiv (d d' : ReplayDocument) : Prop :=
  doc_header d = doc_header d' ∧ meta_equiv (doc_meta d) (doc_meta d') ∧
  doc_ticks d = doc_ticks d' ∧ doc_expected_hashes d = doc_expected_hashes d' ∧
  doc_rng_checkpoints d = doc_rng_checkpoints d'.

(** ** The reader only returns lawful documents *)

Lemma unpack_from_fits F bs o vs : unpack_from F bs o = Ok vs → fits F vs = true.
Proof.
  unfold unpack_from. destruct (decide _); [|done]. intros [= <-].
  apply fits_unpack_raw. rewrite length_drop. lia.
Qed.

Lemma unpack_event_fits payload o w e :
  _unpack_event payload o w = Ok e → event_fits e = true.
Proof.
  unfold _unpack_event. intros Hu. inv_result.
  repeat destruct (_ =? _); inv_result; try done.
  - pose proof (unpack_from_fits _SPAWN _ _ _ Hx1) as Hf.
    destruct x1 as (?&?&?&?&?&?&?&?&[]). by inv_result.
  - pose proof (unpack_from_fits _MOVE _ _ _ Hx1) as Hf.
    destruct x1 as (?&?&?&?&?&?&[]). by inv_result.
  - pose proof (unpack_from_fits _DESPAWN _ _ _ Hx1) as Hf.
    destruct x1 as (?&[]). by inv_result.
Qed.

Lemma parse_events_lawful n cnt payload w : ∀ o previous es o',
  parse_events n cnt payload o previous w = Ok (es, o') →
  length es = n ∧ forallb event_fits es = true ∧
  ascending canonical_event_key es = true ∧ key_bounded previous es = true.
Proof.
  induction n as [|n IH]; intros o previous es o' Hp; cbn [parse_events] in Hp.
  { inv_result. by destruct previous. }
  inv_result. destruct x2 as [es' o'']. inv_result.
  apply IH in Hx2 as (Hlen & Hfit & Hasc & Hk). cbn. repeat split.
  - by rewrite Hlen.
  - by rewrite (unpack_event_fits _ _ _ _ Hx0), Hfit.
  - destruct es' as [|e' es']; [done|]. by apply andb_true_iff.
  - destruct previous; [|done]. by apply ltb_false in Hx1.
Qed.

Lemma parse_tick_lawful payload w t : _parse_tick payload w = Ok t → tick_lawful t = true.
Proof.
  unfold _parse_tick. intros Hp. inv_result.
  pose proof (unpack_from_fits _TICK_HEAD _ _ _ Hx0) as Hf.
  destruct x0 as (tick & count & []). inv_result. destruct x0 as [es o]. inv_result.
  apply parse_events_lawful in Hx1 as (Hlen & Hfit & Hasc & _).
  unfold fits in Hf. cbn in Hf. apply andb_true_iff in Hf as [Ht [Hc _]%andb_true_iff].
  unfold tick_lawful. cbn. rewrite Ht, Hfit, Hasc, Hlen. cbn. apply Z.leb_le.
  apply in_u_spec in Hc. change (pow256 2) with 65536 in Hc. unfold _U16_MAX. lia.
Qed.

Definition reader_lawful (r : reader) : bool :=
  content_lawful (r_ticks r) (r_expected r) (r_checkpoints r).

Lemma content_lawful_iff ts es cs : content_lawful ts es cs = true ↔
  (forallb tick_lawful ts = true ∧ strictly_ascending tr_tick ts = true) ∧
  (forallb expected_lawful es = true ∧ NoDup (ex_tick <$> es)) ∧
  forallb (checkpoint_lawful ts) cs = true ∧ strictly_ascending ck_key cs = true.
Proof. unfold content_lawful. rewrite !andb_true_iff, bool_decide_eq_true. tauto. Qed.

Lemma ticks_le_last ts t l :
  strictly_ascending tr_tick ts = true → last_tick_of ts = Some l →
  t ∈ tr_tick <$> ts → t ≤ l.
Proof.
  destruct ts as [|x ts _] using rev_ind; [done|].
  intros (_ & _ & Hlt)%strictly_ascending_app. unfold last_tick_of.
  rewrite last_snoc. intros [= <-] (y & -> & Hy)%list_elem_of_fmap.
  apply elem_of_app in Hy as [Hy| ->%list_elem_of_singleton]; [|lia].
  specialize (Hlt y x Hy (proj2 (list_elem_of_singleton x x) eq_refl)).
  unfold key_lt in Hlt. rewrite ltb_Z in Hlt. bool_hyps. lia.
Qed.

Lemma read_tick_lawful r t :
  reader_lawful r = true → tick_lawful t = true →
  match last_tick_of (r_ticks r) with Some l => tr_tick t <=? l | None => false end = false →
  content_lawful (r_ticks r ++ [t]) (r_expected r) (r_checkpoints r) = true.
Proof.
  unfold reader_lawful. rewrite !content_lawful_iff. intros ([Hts Hasc] & He & [Hcs Hca]) Ht Hlast.
  repeat split; try apply He; try done.
  - rewrite forallb_app, Hts. cbn. by rewrite Ht.
  - apply strictly_ascending_snoc; [done|]. unfold last_tick_of in Hlast.
    destruct (last (r_ticks r)); [|done]. cbn in Hlast.
    rewrite ltb_Z. bool_hyps. by apply Z.ltb_lt.
  - apply forallb_forall. intros c Hc. rewrite forallb_forall in Hcs. specialize (Hcs c Hc).
    unfold checkpoint_lawful in Hcs |- *. rewrite fmap_app.
    rewrite !andb_true_iff, !bool_decide_eq_true in Hcs |- *. set_solver.
Qed.

Lemma read_expected_lawful r e :
  reader_lawful r = true → expected_lawful e = true →
  existsb (λ seen, ex_tick e =? ex_tick seen) (r_expected r) = false →
  content_lawful (r_ticks r) (r_expected r ++ [e]) (r_checkpoints r) = true.
Proof.
  unfold reader_lawful. rewrite !content_lawful_iff. intros (Hts & [He Hnd] & Hcs) Hel Hfresh.
  repeat split; try apply Hts; try apply Hcs.
  - rewrite forallb_app, He. cbn. by rewrite Hel.
  - rewrite fmap_app. apply NoDup_app. repeat split; [done| |apply NoDup_singleton].
    intros t (x & -> & Hx)%list_elem_of_fmap Heq%list_elem_of_singleton.
    apply not_true_iff_false in Hfresh. apply Hfresh. apply existsb_exists. exists x.
    rewrite <-list_elem_of_In. split; [done|]. by apply Z.eqb_eq.
Qed.

Lemma parse_checkpoint_lawful payload w ts cs c :
  strictly_ascending tr_tick ts = true → forallb (checkpoint_lawful ts) cs = true →
  strictly_ascending ck_key cs = true →
  _parse_checkpoint payload w ts cs = Ok c →
  checkpoint_lawful ts c = true ∧ strictly_ascending ck_key (cs ++ [c]) = true.
Proof.
  intros Hts Hcs Hasc. unfold _parse_checkpoint, new_RngCheckpoint. intros Hp. inv_result.
  pose proof (unpack_from_fits _CHECKPOINT_HEAD _ _ _ Hx0) as Hf.
  destruct x0 as (t & k & sl & []). inv_result. destruct (decide _) as [Hlen|]; [|done]. inv_result.
  unfold fits in Hf. cbn in Hf.
  apply andb_true_iff in Hf as [Hft [Hfk _]%andb_true_iff].
  destruct (last_tick_of ts) as [l|] eqn:Hl; [|done]. bool_hyps. subst l.
  assert (t ∈ tr_tick <$> ts) as Hin.
  { unfold last_tick_of in Hl. apply fmap_Some in Hl as (y & Hl & ->).
    apply list_elem_of_fmap_2. by apply last_Some_elem_of. }
  split.
  - unfold checkpoint_lawful. cbn. rewrite Hft, Hfk, !bool_decide_eq_true_2 by done. done.
  - apply strictly_ascending_snoc; [done|].
    destruct (last cs) as [c|] eqn:Ec; [|done]. apply ltb_pair.
    apply last_Some_elem_of in Ec. rewrite forallb_forall in Hcs.
    rewrite list_elem_of_In in Ec. specialize (Hcs c Ec). unfold checkpoint_lawful in Hcs. bool_hyps.
    assert (ck_tick c ≤ t) by by eapply ticks_le_last.
    destruct (Z.eqb_spec (ck_tick c) t); cbn in *; bool_hyps; lia.
Qed.

Lemma read_record_lawful ty fl p w r r' :
  reader_lawful r = true → read_record ty fl p w r = Ok r' → reader_lawful r' = true.
Proof.
  intros Hr. unfold read_record.
  destruct (ty =? TICK_RECORD_TYPE); [|destruct (ty =? META_RECORD_TYPE);
    [|destruct (ty =? EXPECTED_HASH_RECORD_TYPE);
      [|destruct (ty =? RNG_CHECKPOINT_RECORD_TYPE)]]]; intros Hp; inv_result; try done.
  - apply (read_tick_lawful r); [done|by eapply parse_tick_lawful|done].
  - unfold unpack in Hx1. destruct (decide _) as [Hlen|]; [|done].
    apply Ok_inj in Hx1. pose proof (fits_unpack_raw _EXPECTED_HASH p) as Hf.
    rewrite Hx1 in Hf. destruct x1 as (t & h & []). inv_result.
    apply (read_expected_lawful r); [done| |done].
    assert (fits _EXPECTED_HASH (t, (h, ())) = true) as Hf' by (apply Hf; lia).
    unfold fits in Hf'. cbn in Hf'. unfold expected_lawful. cbn. by rewrite andb_true_r in Hf'.
  - apply content_lawful_iff in Hr as ([? ?] & ? & [? ?]).
    apply parse_checkpoint_lawful in Hx0 as [? ?]; try done.
    apply content_lawful_iff. cbn. rewrite forallb_app. cbn.
    rewrite !andb_true_iff. tauto.
Qed.

Lemma read_records_lawful src data fuel : ∀ o r r',
  reader_lawful r = true → read_records fuel src data o r = Ok r' → reader_lawful r' = true.
Proof.
  induction fuel as [|fuel IH]; intros o r r' Hr Hp; cbn in Hp;
    destruct (bool_decide _) in Hp; inv_result; try done.
  destruct x0 as (ty & fl & rs & len & []). inv_result.
  eapply IH; [|exact Hp]. by eapply read_record_lawful.
Qed.

Lemma read_record_meta ty fl p w r r' :
  meta_ok (r_meta r) = true → read_record ty fl p w r = Ok r' → meta_ok (r_meta r') = true.
Proof.
  intros Hr. unfold read_record.
  destruct (ty =? TICK_RECORD_TYPE); [|destruct (ty =? META_RECORD_TYPE);
    [|destruct (ty =? EXPECTED_HASH_RECORD_TYPE);
      [|destruct (ty =? RNG_CHECKPOINT_RECORD_TYPE)]]]; intros Hp; inv_result; try done.
  - unfold _parse_meta in Hx0. destruct (json_loads p) as [[m|]|e] eqn:Hl; [|done|by destruct e].
    inv_result. by eapply json_loads_ok.
  - destruct x1 as (t & h & []). by inv_result.
Qed.

Lemma read_records_meta src data fuel : ∀ o r r',
  meta_ok (r_meta r) = true → read_records fuel src data o r = Ok r' → meta_ok (r_meta r') = true.
Proof.
  induction fuel as [|fuel IH]; intros o r r' Hr Hp; cbn in Hp;
    destruct (bool_decide _) in Hp; inv_result; try done.
  destruct x0 as (ty & fl & rs & len & []). inv_result.
  eapply IH; [|exact Hp]. by eapply read_record_meta.
Qed.

Lemma document_lawful data src d : read_document data src = Ok d → doc_lawful d = true.
Proof.
  unfold read_document. intros Hp. inv_result.
  pose proof (unpack_from_fits _HEADER _ _ _ Hx0) as Hf.
  destruct x0 as (mg & ver & hs & hz & fl & []). inv_result.
  assert (meta_ok (r_meta x5) = true) as Hmeta by by eapply read_records_meta; [|exact Hx6].
  apply read_records_lawful in Hx6; [|done].
  unfold fits in Hf. cbn in Hf. apply andb_true_iff in Hf as [_ [_ [_ [Hhz _]%andb_true_iff]%andb_true_iff]%andb_true_iff].
  unfold doc_lawful. cbn. bool_hyps. subst. rewrite Hmeta.
  rewrite Hhz. apply andb_true_iff. split; [|done]. by rewrite andb_true_r; apply Z.leb_le.
Qed.

(** C33: A document the reader returns is lawful: ticks strictly ascend, each
    tick's events are in canonical order and within their field widths,
    expectations are unique per tick, checkpoints follow their tick with
    ascending stream keys, and the header is valid. *)
Theorem read_document_lawful data src d :
  read_document data src = Ok d → doc_lawful d = true.
Proof. apply document_lawful. Qed.

(** ** Every failure is a located [ReplayFormatError]

    [located src e]: [e] is the codec's own exception and its message begins
    with the source; [json_escape e]: [e] is the plain [ValueError] that
    [json.loads] raised on some payload (an integer beyond the digit limit),
    which the codec does not handle. *)

Definition located (src : pystr) (e : exn) : Prop :=
  ∃ msg, e = ReplayFormatError (Txt src :: msg).

Definition json_escape (e : exn) : Prop :=
  (∃ msg, e = ValueError msg) ∧ ∃ p, json_loads p = Err e.

Definition failure (src : pystr) (e : exn) : Prop := located src e ∨ json_escape e.

Lemma located_at src o msg : failure src (ReplayFormatError (_at src o ++ msg)).
Proof. left. by eexists. Qed.

Lemma unpack_from_total F bs o e : unpack_from F bs o = Err e → (length bs < o + size_of F)%nat.
Proof. unfold unpack_from. destruct (decide _); [done|]. lia. Qed.

(** The outcome of a parsing step: success or a failure at [src]. *)
Definition fails_at {A} (src : pystr) (r : result A) : Prop :=
  ∀ e, r = Err e → failure src e.

Lemma fails_at_Ok {A} src (a : A) : fails_at src (Ok a).
Proof. by intros e. Qed.

Lemma fails_at_raise src c o msg :
  fails_at src (raise_if c (ReplayFormatError (_at src o ++ msg))).
Proof. intros e [_ <-]%raise_if_Err. apply located_at. Qed.

Lemma fails_at_bind {A B} src (m : result A) (f : A → result B) :
  fails_at src m → (∀ a, m = Ok a → fails_at src (f a)) → fails_at src (m ≫= f).
Proof. intros Hm Hf e [He|(a & Ha & He)]%bind_Err; [by apply Hm|by eapply Hf]. Qed.

Lemma at_least_inv bs n w u : _require_at_least bs n w = Ok u → (n ≤ length bs)%nat.
Proof. unfold _require_at_least. intros ?%raise_if_Ok. bool_hyps. lia. Qed.

Lemma exact_len_inv bs n w u : _require_exact_len bs n w = Ok u → length bs = n.
Proof. unfold _require_exact_len. intros ?%raise_if_Ok. by bool_hyps. Qed.

Lemma fails_at_unpack src F bs : (size_of F ≤ length bs)%nat → fails_at src (unpack_from F bs 0).
Proof. intros Hl e He%unpack_from_total. lia. Qed.

Ltac fails_step :=
  match goal with
  | |- fails_at _ (Ok _) => apply fails_at_Ok
  | |- fails_at _ (raise_if _ _) => apply fails_at_raise
  | |- fails_at _ (_require_at_least _ _ _) => apply fails_at_raise
  | |- fails_at _ (_require_exact_len _ _ _) => apply fails_at_raise
  | |- fails_at _ (_ ≫= _) => apply fails_at_bind; [|intros ? ?]
  | |- fails_at _ (Err (ReplayFormatError (_at _ _ ++ _))) => intros ? [= <-]; apply located_at
  | |- fails_at _ (match ?x with _ => _ end) => destruct x
  | Hl : _require_at_least ?bs (size_of ?F) _ = Ok _ |- fails_at _ (unpack_from ?F ?bs 0) =>
      apply (fails_at_unpack _ F bs); by eapply at_least_inv
  end.

Lemma unpack_event_fails src o payload offset :
  (offset < length payload)%nat → fails_at src (_unpack_event payload offset (_at src o)).
Proof.
  intros Hlt. unfold _unpack_event. apply fails_at_bind.
  { unfold byte_at. apply lookup_lt_is_Some_2 in Hlt as [b ->]. apply fails_at_Ok. }
  intros code _. repeat fails_step.
Qed.

Lemma parse_events_fails src o n cnt payload : ∀ offset previous,
  fails_at src (parse_events n cnt payload offset previous (_at src o)).
Proof.
  induction n as [|n IH]; intros offset previous; cbn [parse_events]; repeat fails_step.
  - apply unpack_event_fails. inv_result. bool_hyps. lia.
  - apply IH.
Qed.

Lemma parse_tick_fails src o payload : fails_at src (_parse_tick payload (_at src o)).
Proof.
  unfold _parse_tick. repeat fails_step. apply parse_events_fails.
Qed.

Lemma parse_checkpoint_fails src o payload ts cs :
  fails_at src (_parse_checkpoint payload (_at src o) ts cs).
Proof.
  unfold _parse_checkpoint, new_RngCheckpoint. repeat fails_step.
  - apply (fails_at_unpack _ _CHECKPOINT_HEAD). apply exact_len_inv in H0. lia.
  - apply exact_len_inv in H0. rewrite length_drop in n. lia.
Qed.

Lemma parse_meta_fails src o payload : fails_at src (_parse_meta payload (_at src o)).
Proof.
  intros e. unfold _parse_meta. destruct (json_loads payload) as [[m|]|e'] eqn:Hl; [done| |].
  - intros [= <-]. apply located_at.
  - pose proof (json_loads_error _ _ Hl) as [->|[->|[msg ->]]]; intros [= <-];
      [apply located_at..|]. right. split; by eexists.
Qed.

Lemma read_record_fails src o ty fl p r : fails_at src (read_record ty fl p (_at src o) r).
Proof.
  unfold read_record. repeat fails_step;
    auto using parse_tick_fails, parse_meta_fails, parse_checkpoint_fails.
  intros e. unfold unpack. rewrite decide_True by by eapply exact_len_inv. done.
Qed.

(** The loop consumes at least a framing per iteration, so [fuel] bytes of
    fuel are enough for [fuel] remaining bytes. *)
Lemma read_records_fails src data fuel : ∀ o r,
  (length data ≤ o + fuel)%nat → fails_at src (read_records fuel src data o r).
Proof.
  induction fuel as [|fuel IH]; intros o r Hf; cbn [read_records].
  { rewrite bool_decide_eq_true_2 by lia. apply fails_at_Ok. }
  destruct (bool_decide _) eqn:Hb; [apply fails_at_Ok|].
  fails_step; [fails_step|]. inv_result. bool_hyps. unfold RECORD_HEADER_SIZE in *.
  fails_step.
  { intros e He. apply (unpack_from_total _RECORD) in He. change (size_of _RECORD) with 8%nat in He. lia. }
  destruct a0 as (ty & fl & rs & len & []). fails_step; [fails_step|].
  fails_step; [apply read_record_fails|]. apply IH. lia.
Qed.

Lemma document_errors data src e : read_document data src = Err e → failure src e.
Proof.
  revert e. change (fails_at src (read_document data src)). unfold read_document.
  assert (∀ c msg, fails_at src (raise_if c (ReplayFormatError (Txt src :: msg)))) as Hraise.
  { intros c msg e [_ <-]%raise_if_Err. left. by eexists. }
  fails_step; [apply Hraise|]. inv_result. bool_hyps. unfold HEADER_SIZE in *.
  fails_step.
  { apply (fails_at_unpack _ _HEADER). change (size_of _HEADER) with 16%nat. lia. }
  destruct a0 as (mg & ver & hs & hz & fl & []).
  do 5 (fails_step; [apply Hraise|]). fails_step; [|apply fails_at_Ok].
  apply read_records_fails. lia.
Qed.

(** On arbitrary bytes the reader terminates within its fuel and raises
    nothing but a ReplayFormatError naming the source, except for the plain
    ValueError that json.loads raises on an integer with too many digits; in
    particular no struct error and no index error escapes. *)
Theorem read_document_errors data src e :
  read_document data src = Err e →
  (∃ msg, e = ReplayFormatError (Txt src :: msg)) ∨ json_escape e.
Proof. apply document_errors. Qed.
End WithJson.
