(* ===== verification/ReplayEncode.v ===== *)
(** * Encoding and diffing documents

    The encoder drives the writer through a fixed sequence of calls; on a
    lawful document each of them is legal in the abstract session, and the
    session it ends in has the document's content.  The differ's report is
    empty on lawful documents with equal content and on no others, and is
    symmetric in its arguments as to emptiness. *)

From S2P Require Import Prelude PyStruct Json ReplayFormat ReplayCodec ReplayWriter ReplayDocument.

#[local] Open Scope Z_scope.

(** ** Loops over the writer *)

Lemma for_each_app {S A} (l1 l2 : list A) (body : A → M S unit) s :
  for_each (l1 ++ l2) body s = (for_each l1 body;; for_each l2 body) s.
Proof.
  revert s. induction l1 as [|x l1 IH]; intros s; cbn; [done|].
  unfold mbind, M_bind. destruct (body x s) as [s' [u|e]]; [|done].
  rewrite IH. done.
Qed.

Lemma for_each_ext {S A} (l : list A) (f g : A → M S unit) s :
  (∀ x s, f x s = g x s) → for_each l f s = for_each l g s.
Proof.
  intros Hfg. revert s. induction l as [|x l IH]; intros s; cbn; [done|].
  unfold mbind, M_bind. rewrite Hfg. by destruct (g x s) as [s' [u|e]].
Qed.

Lemma for_each_bind {S A B} (l : list A) (f : A → list B) (body : B → M S unit) s :
  for_each (l ≫= f) body s = for_each l (λ x, for_each (f x) body) s.
Proof.
  revert s. induction l as [|x l IH]; intros s; cbn; [done|].
  rewrite for_each_app. unfold mbind, M_bind.
  destruct (for_each (f x) body s) as [s' [u|e]]; [|done]. by rewrite IH.
Qed.

Lemma for_each_fmap {S A B} (l : list A) (f : A → B) (body : B → M S unit) s :
  for_each (f <$> l) body s = for_each l (λ x, body (f x)) s.
Proof.
  revert s. induction l as [|x l IH]; intros s; cbn; [done|].
  unfold mbind, M_bind. by destruct (body (f x) s) as [s' [u|e]].
Qed.

(** ** Grouping the checkpoints by tick *)

Definition checkpoints_of (t : Z) (cs : list RngCheckpoint) : list RngCheckpoint :=
  filter (λ c, ck_tick c = t) cs.

Lemma checkpoints_by_tick_lookup cs t :
  default [] (checkpoints_by_tick cs !! t) = checkpoints_of t cs.
Proof.
  unfold checkpoints_by_tick, checkpoints_of.
  induction cs as [|c cs IH] using rev_ind; [done|].
  rewrite foldl_app, filter_app. cbn [foldl]. rewrite lookup_insert.
  destruct (decide (ck_tick c = t)) as [<-|Hne].
  - cbn [from_option]. unfold id at 1. rewrite IH. by rewrite filter_cons_True.
  - rewrite IH, filter_cons_False by done. by rewrite app_nil_r.
Qed.

Lemma checkpoints_by_tick_dom cs t :
  t ∈ dom (checkpoints_by_tick cs) ↔ t ∈ ck_tick <$> cs.
Proof.
  unfold checkpoints_by_tick. induction cs as [|c cs IH] using rev_ind; [cbn; set_solver|].
  rewrite foldl_app, fmap_app. cbn. rewrite dom_insert. set_solver.
Qed.

(** Splitting an ascending list off at its least tick. *)
Lemma checkpoints_split t cs :
  strictly_ascending ck_key cs = true → Forall (λ c, t ≤ ck_tick c) cs →
  cs = checkpoints_of t cs ++ filter (λ c, ck_tick c ≠ t) cs.
Proof.
  intros Hasc Hge. unfold checkpoints_of. induction cs as [|c cs IH]; [done|].
  apply strictly_ascending_cons in Hasc as [Hlt Hasc]. apply Forall_cons in Hge as [Hc Hge].
  destruct (decide (ck_tick c = t)) as [Heq|Hne].
  - rewrite filter_cons_True, (filter_cons_False (λ c, ck_tick c ≠ t)) by tauto.
    cbn. f_equal. by apply IH.
  - rewrite filter_cons_False, (filter_cons_True (λ c, ck_tick c ≠ t)) by done.
    assert (Forall (λ c, ck_tick c ≠ t) cs) as Hall.
    { eapply Forall_impl; [exact Hlt|]. intros c' Hk. apply ltb_pair in Hk. lia. }
    assert (filter (λ c, ck_tick c = t) cs = []) as ->.
    { by apply filter_none. }
    cbn. f_equal. symmetry. by apply filter_all.
Qed.

(** The groups of the ascending ticks, concatenated, are the list itself. *)
Lemma checkpoints_regroup ts : ∀ cs,
  strictly_ascending id ts = true → strictly_ascending ck_key cs = true →
  Forall (λ c, ck_tick c ∈ ts) cs → (ts ≫= λ t, checkpoints_of t cs) = cs.
Proof.
  induction ts as [|t ts IH]; intros cs Hts Hcs Hin.
  { destruct cs as [|c cs]; [done|]. apply Forall_cons in Hin as [Hin _]. set_solver. }
  apply strictly_ascending_cons in Hts as [Hlt Hts]. rewrite Forall_forall in Hlt.
  assert (∀ t', t' ∈ ts → t < t') as Hlt'.
  { intros t' Ht'. specialize (Hlt t' Ht'). unfold key_lt in Hlt.
    rewrite ltb_Z in Hlt. by bool_hyps. }
  cbn. set (rest := filter (λ c, ck_tick c ≠ t) cs).
  assert (cs = checkpoints_of t cs ++ rest) as Hsplit.
  { apply checkpoints_split; [done|]. eapply Forall_impl; [exact Hin|].
    intros c [->|Hc]%elem_of_cons; [lia|]. specialize (Hlt' _ Hc). lia. }
  etransitivity; [|symmetry; exact Hsplit]. f_equal. rewrite <-(IH rest).
  - apply bind_ext_in. intros t' Ht'. unfold checkpoints_of, rest.
    symmetry. apply list_filter_filter_l. intros c <-. specialize (Hlt' _ Ht'). lia.
  - done.
  - assert (strictly_ascending ck_key (checkpoints_of t cs ++ rest) = true) as Hcs' by by rewrite <-Hsplit.
    by apply strictly_ascending_app in Hcs' as (_ & ? & _).
  - apply Forall_forall. intros c [Hne Hc]%list_elem_of_filter.
    rewrite Forall_forall in Hin. specialize (Hin c Hc). set_solver.
Qed.

Section WithJson.
Context `{JsonCodec}.

(** ** The calls of the encoder *)

Definition ck_call (c : RngCheckpoint) : call :=
  CallCheckpoint (ck_tick c) (ck_stream_key c) (ck_state c).

Definition expected_call (e : ExpectedHash) : call := CallExpected (ex_tick e) (ex_hash e).

Definition tick_calls (cs : list RngCheckpoint) (t : TickRecord) : list call :=
  CallTick (tr_tick t) (tr_events t) :: (ck_call <$> checkpoints_of (tr_tick t) cs).

Definition doc_calls (d : ReplayDocument) : list call :=
  (CallMeta <$> option_list (doc_meta d)) ++
  (doc_ticks d ≫= tick_calls (doc_rng_checkpoints d)) ++
  (expected_call <$> doc_expected_hashes d) ++ [CallClose].

Definition effects (cs : list call) (s : session) : session :=
  foldl (λ s c, call_effect c s) s cs.

Fixpoint all_legal (cs : list call) (s : session) : bool :=
  match cs with
  | [] => true
  | c :: cs => call_legal c s && all_legal cs (call_effect c s)
  end.

Lemma effects_app cs1 cs2 s : effects (cs1 ++ cs2) s = effects cs2 (effects cs1 s).
Proof. apply foldl_app. Qed.

Lemma all_legal_app cs1 cs2 s :
  all_legal (cs1 ++ cs2) s = all_legal cs1 s && all_legal cs2 (effects cs1 s).
Proof.
  revert s. induction cs1 as [|c cs1 IH]; intros s; cbn; [done|]. by rewrite IH, andb_assoc.
Qed.

Lemma run_legal pre cs : forallb call_ok cs = true → ∀ w s, writer_inv pre w s →
  all_legal cs s = true → ∃ w', for_each cs run_call w = (w', Ok tt) ∧ writer_inv pre w' (effects cs s).
Proof.
  induction cs as [|c cs IH]; intros Hok w s Hw Hl; cbn in Hok, Hl |- *; [by eauto|].
  apply andb_true_iff in Hok as [Hc Hok]. bool_hyps.
  pose proof (call_outcome pre c w s Hc Hw) as Ho. unfold outcome in Ho.
  destruct (run_call c w) as [w1 res] eqn:Hr. rewrite H0 in Ho. destruct Ho as [-> Hw1].
  unfold mbind, M_bind. rewrite Hr. by apply IH.
Qed.

Lemma encode_body_calls d w :
  Forall (λ c, ck_tick c ∈ tr_tick <$> doc_ticks d) (doc_rng_checkpoints d) →
  encode_body d w = for_each (doc_calls d) run_call w.
Proof.
  intros Hk. unfold encode_body, doc_calls. rewrite for_each_app.
  set (unknown := sorted_by id (elements _)).
  assert (unknown = []) as ->.
  { unfold unknown. apply sorted_by_nil. apply elements_empty_iff, set_equiv. intros t.
    rewrite elem_of_difference, checkpoints_by_tick_dom. unfold known_ticks.
    rewrite elem_of_list_to_set. split; [|set_solver].
    intros [(c & -> & Hc)%list_elem_of_fmap Hn]. rewrite Forall_forall in Hk.
    by specialize (Hk c Hc). }
  rewrite bool_decide_eq_true_2 by done. cbn [negb].
  assert (∀ w, (match doc_meta d with Some m => write_meta m | None => mret () end) w
    = for_each (CallMeta <$> option_list (doc_meta d)) run_call w) as Hm.
  { intros w0. destruct (doc_meta d); cbn; [|done]. unfold mbind, M_bind, mret, M_ret.
    by destruct (write_meta j w0) as [? [[]|]]. }
  apply M_bind_ext; [exact Hm|intros _ w1]. rewrite guard_false, for_each_app.
  apply M_bind_ext; [intros w2|intros _ w2; rewrite for_each_app; apply M_bind_ext].
  - rewrite for_each_bind. apply for_each_ext. intros t w3. cbn [tick_calls for_each].
    apply M_bind_ext; [done|intros _ w4]. rewrite checkpoints_by_tick_lookup.
    by rewrite for_each_fmap.
  - intros w3. by rewrite for_each_fmap.
  - done.
Qed.

(** ** The calls are legal *)

Lemma checkpoint_calls_legal t l : ∀ s, ss_closed s = false → last_tick_of (ss_ticks s) = Some t →
  Forall (λ c, ck_tick c = t ∧ length (ck_state c) = RNG_STATE_SIZE ∧
               in_u 8 (ck_tick c) = true ∧ in_u 8 (ck_stream_key c) = true) l →
  strictly_ascending ck_key (filter (λ c, ck_tick c = t) (ss_checkpoints s) ++ l) = true →
  all_legal (ck_call <$> l) s = true ∧
  effects (ck_call <$> l) s =
    mkSession (ss_closed s) (ss_meta s) (ss_ticks s) (ss_expected s) (ss_checkpoints s ++ l).
Proof.
  induction l as [|c l IH]; intros s Hcl Ht Hall Hasc.
  { cbn. rewrite app_nil_r. by destruct s. }
  apply Forall_cons in Hall as [(Hct & Hlen & Hu & Hk) Hall].
  set (s1 := mkSession (ss_closed s) (ss_meta s) (ss_ticks s) (ss_expected s)
                       (ss_checkpoints s ++ [c])).
  assert (call_effect (ck_call c) s = s1) as Hs1 by by destruct c.
  cbn [fmap list_fmap all_legal effects foldl]. rewrite Hs1.
  destruct (IH s1) as [-> Heff]; [done|done|done| |].
  { cbn [s1 ss_checkpoints]. rewrite filter_app, filter_cons_True, filter_nil by done.
    by rewrite <-app_assoc. }
  split.
  - cbn. rewrite Hcl, Ht, Hct, !bool_decide_eq_true_2, Hk by done. rewrite Hct in Hu. rewrite Hu.
    cbn. rewrite !andb_true_r.
    apply forallb_forall. intros c' Hc'. destruct (Z.eqb_spec (ck_tick c') t); [|done].
    apply strictly_ascending_app in Hasc as (_ & _ & Hlt).
    assert (key_lt ck_key c' c) as Hk'.
    { apply Hlt; [apply list_elem_of_filter; by rewrite list_elem_of_In|set_solver]. }
    apply ltb_pair in Hk'. cbn. apply Z.ltb_lt. lia.
  - etransitivity; [exact Heff|]. cbn. by rewrite <-app_assoc.
Qed.

Definition ck_fields (c : RngCheckpoint) : Prop :=
  length (ck_state c) = RNG_STATE_SIZE ∧ in_u 8 (ck_tick c) = true ∧ in_u 8 (ck_stream_key c) = true.

(** The ticks still to be written lie after everything in the session. *)
Definition session_before (s : session) (ts : list TickRecord) : Prop :=
  ∀ t, t ∈ ts →
    match last_tick_of (ss_ticks s) with Some l => l <? tr_tick t | None => true end = true ∧
    Forall (λ c, ck_tick c < tr_tick t) (ss_checkpoints s).

Lemma tick_calls_legal cs t s :
  ss_closed s = false → tick_lawful t = true → Forall ck_fields cs →
  strictly_ascending ck_key cs = true → session_before s [t] →
  all_legal (tick_calls cs t) s = true ∧
  effects (tick_calls cs t) s =
    mkSession (ss_closed s) (ss_meta s) (ss_ticks s ++ [t]) (ss_expected s)
              (ss_checkpoints s ++ checkpoints_of (tr_tick t) cs).
Proof.
  intros Hcl Ht Hcs Hasc Hbefore. unfold tick_lawful in Ht. bool_hyps.
  destruct (Hbefore t ltac:(set_solver)) as [Hlast Hold].
  set (s1 := mkSession (ss_closed s) (ss_meta s) (ss_ticks s ++ [t]) (ss_expected s)
                       (ss_checkpoints s)).
  assert (call_effect (CallTick (tr_tick t) (tr_events t)) s = s1) as Hs1.
  { cbn. unfold _sort_events. rewrite sorted_by_id by done. by destruct t. }
  cbn [tick_calls all_legal effects foldl]. rewrite Hs1.
  destruct (checkpoint_calls_legal (tr_tick t) (checkpoints_of (tr_tick t) cs) s1)
    as [-> Heff]; cbn [s1 ss_closed ss_ticks ss_checkpoints]; [done| | | |].
  - unfold last_tick_of. by rewrite last_snoc.
  - apply Forall_forall. intros c [Hc Hin]%list_elem_of_filter.
    rewrite Forall_forall in Hcs. split; [done|]. by apply Hcs.
  - rewrite filter_none; [by apply strictly_ascending_filter|].
    eapply Forall_impl; [exact Hold|]. cbn. lia.
  - split; [|exact Heff]. cbn. rewrite Hcl, Hlast. cbn.
    rewrite !andb_true_iff, Z.leb_le. tauto.
Qed.

Lemma ticks_calls_legal cs ts : ∀ s,
  ss_closed s = false → forallb tick_lawful ts = true → strictly_ascending tr_tick ts = true →
  Forall ck_fields cs → strictly_ascending ck_key cs = true → session_before s ts →
  all_legal (ts ≫= tick_calls cs) s = true ∧
  effects (ts ≫= tick_calls cs) s =
    mkSession (ss_closed s) (ss_meta s) (ss_ticks s ++ ts) (ss_expected s)
              (ss_checkpoints s ++ (ts ≫= λ t, checkpoints_of (tr_tick t) cs)).
Proof.
  induction ts as [|t ts IH]; intros s Hcl Hts Hasc Hcs Hck Hb.
  { cbn. rewrite !app_nil_r. by destruct s. }
  cbn in Hts. bool_hyps. apply strictly_ascending_cons in Hasc as [Hlt Hasc].
  destruct (tick_calls_legal cs t s) as [Hl1 He1]; auto.
  { intros t' ->%list_elem_of_singleton. apply Hb. set_solver. }
  cbn [mbind list_bind]. rewrite all_legal_app, effects_app, Hl1, He1.
  set (s1 := mkSession _ _ _ _ _).
  destruct (IH s1) as [-> ->]; auto; cbn.
  - intros t' Ht'. rewrite Forall_forall in Hlt. specialize (Hlt t' Ht').
    unfold key_lt in Hlt. rewrite ltb_Z in Hlt.
    destruct (Hb t' ltac:(set_solver)) as [_ Hold]. cbn.
    unfold last_tick_of. rewrite last_snoc. cbn. split; [done|].
    apply Forall_app. split; [done|]. apply Forall_forall.
    intros c [-> _]%list_elem_of_filter. by bool_hyps.
  - split; [done|]. by rewrite <-!app_assoc.
Qed.

Lemma expected_calls_legal es : ∀ s, ss_closed s = false → forallb expected_lawful es = true →
  all_legal (expected_call <$> es) s = true ∧
  effects (expected_call <$> es) s =
    mkSession (ss_closed s) (ss_meta s) (ss_ticks s) (ss_expected s ++ es) (ss_checkpoints s).
Proof.
  induction es as [|e es IH]; intros s Hcl Hes.
  { cbn. rewrite app_nil_r. by destruct s. }
  cbn in Hes. bool_hyps. cbn [fmap list_fmap all_legal effects foldl].
  destruct (IH (call_effect (expected_call e) s)) as [-> Heff]; [done|done|].
  unfold expected_lawful in *. bool_hyps. split.
  - cbn. rewrite Hcl. cbn. rewrite !andb_true_iff. tauto.
  - etransitivity; [exact Heff|]. cbn. rewrite <-app_assoc. by destruct e.
Qed.

Lemma doc_calls_legal d : doc_lawful d = true → meta_encodable (doc_meta d) = true →
  all_legal (doc_calls d) new_session = true ∧
  effects (doc_calls d) new_session =
    mkSession true (doc_meta d) (doc_ticks d) (doc_expected_hashes d) (doc_rng_checkpoints d).
Proof.
  unfold doc_lawful. intros Hd Hm. bool_hyps.
  apply content_lawful_iff in H1 as ([Ht Hta] & [He _] & [Hc Hca]).
  rewrite forallb_forall in Hc.
  set (s1 := mkSession false (doc_meta d) [] [] []).
  assert (all_legal (CallMeta <$> option_list (doc_meta d)) new_session = true ∧
          effects (CallMeta <$> option_list (doc_meta d)) new_session = s1) as [Hl1 He1].
  { unfold s1. destruct (doc_meta d) as [m|]; [|done]. cbn in Hm |- *.
    destruct (json_dumps m); [|done]. by rewrite Hm. }
  destruct (ticks_calls_legal (doc_rng_checkpoints d) (doc_ticks d) s1) as [Hl2 He2]; try done.
  { apply Forall_forall. intros c Hin. rewrite list_elem_of_In in Hin. specialize (Hc c Hin).
    unfold checkpoint_lawful in Hc. bool_hyps. done. }
  unfold doc_calls. rewrite !all_legal_app, !effects_app, Hl1, He1, Hl2, He2. cbn [andb].
  set (s2 := mkSession _ _ _ _ _).
  destruct (expected_calls_legal (doc_expected_hashes d) s2) as [Hl3 He3]; [done|done|].
  rewrite Hl3, He3. split; [done|]. cbn. f_equal.
  etransitivity; [|apply (checkpoints_regroup (tr_tick <$> doc_ticks d))].
  - by rewrite list_fmap_bind.
  - by rewrite strictly_ascending_fmap.
  - done.
  - apply Forall_forall. intros c Hin. rewrite list_elem_of_In in Hin. specialize (Hc c Hin).
    unfold checkpoint_lawful in Hc. by bool_hyps.
Qed.

Lemma doc_calls_ok d : meta_ok (doc_meta d) = true → forallb call_ok (doc_calls d) = true.
Proof.
  intros Hm. unfold doc_calls. rewrite !forallb_app, !andb_true_iff. repeat split.
  - destruct (doc_meta d); cbn in *; [by rewrite Hm|done].
  - apply forallb_forall. intros c Hc. apply list_elem_of_In, list_elem_of_bind in Hc as (t & Hc & _).
    unfold tick_calls in Hc. apply elem_of_cons in Hc as [->|(k & -> & _)%list_elem_of_fmap]; done.
  - apply forallb_forall. intros c Hc.
    by apply list_elem_of_In, list_elem_of_fmap in Hc as (e & -> & _).
Qed.

Lemma encode_reads d src :
  doc_lawful d = true → meta_encodable (doc_meta d) = true →
  ∃ bs d', encode_document d = Ok bs ∧ read_document bs src = Ok d' ∧ doc_equiv d' d.
Proof.
  intros Hd Hm. destruct (doc_calls_legal d Hd Hm) as [Hl He].
  assert (meta_ok (doc_meta d) = true) as Hmok by (unfold doc_lawful in Hd; by bool_hyps).
  unfold doc_lawful in Hd. bool_hyps. pose proof H1 as Hcontent.
  apply content_lawful_iff in H1 as ([Ht Hta] & [_ Hnd] & [Hc Hca]).
  destruct (fits_pack _HEADER (header_vals (hd_tick_hz (doc_header d)))) as [header Hh].
  { unfold fits. cbn. by rewrite H2. }
  destruct (run_legal header (doc_calls d) (doc_calls_ok d Hmok) _ _ (init_inv header empty_sink) Hl) as (w' & Hrun & Hw').
  rewrite He in Hw'.
  destruct (inv_reads_back src _ header w' _ H3 Hh Hw' Hnd) as (d' & Hread & Hmatch).
  exists (s_data (w_stream w')), d'. split; [|split; [done|]].
  - unfold encode_document, ReplayWriter_init. rewrite (proj2 (Z.ltb_ge _ _)) by done.
    cbn [raise_if mbind result_bind]. rewrite Hh. cbn [mbind result_bind].
    rewrite encode_body_calls, Hrun; [done|].
    apply Forall_forall. intros c Hin. rewrite forallb_forall in Hc.
    rewrite list_elem_of_In in Hin. specialize (Hc c Hin). unfold checkpoint_lawful in Hc. by bool_hyps.
  - destruct Hmatch as (Hhd & ? & ? & ? & ?). repeat split; try done.
    rewrite Hhd. destruct d as [[hz fl] ? ? ? ?]. cbn in *. by subst.
Qed.

(** C2: Every lawful document whose metadata has a JSON encoding that fits a
    record is encoded without error, and reading the encoding gives the
    document back (metadata up to the order of its entries). *)
Theorem encode_read_roundtrip d src :
  doc_lawful d = true → meta_encodable (doc_meta d) = true →
  ∃ bs d', encode_document d = Ok bs ∧ read_document bs src = Ok d' ∧ doc_equiv d' d.
Proof. apply encode_reads. Qed.

(** Any document the reader returns can be encoded again, and the new file
    reads back as the same document: reading and writing are inverse on
    everything the reader accepts. *)
Theorem reencode_roundtrip data src d src' :
  read_document data src = Ok d → meta_encodable (doc_meta d) = true →
  ∃ bs d', encode_document d = Ok bs ∧ read_document bs src' = Ok d' ∧ doc_equiv d' d.
Proof. intros Hr Hm. apply encode_reads; [|done]. by eapply document_lawful. Qed.
End WithJson.

(** ** Dictionaries built from lists *)

Section Dict.
Context {A V : Type} (k : A → Z) (v : A → V).

Lemma dict_of_snoc l x : dict_of k v (l ++ [x]) = <[k x := v x]> (dict_of k v l).
Proof. unfold dict_of. by rewrite foldl_app. Qed.

Lemma dict_of_lookup l t y : NoDup (k <$> l) →
  dict_of k v l !! t = Some y ↔ ∃ x, x ∈ l ∧ k x = t ∧ v x = y.
Proof.
  induction l as [|x l IH] using rev_ind; intros Hnd.
  { unfold dict_of. cbn. rewrite lookup_empty. split; [done|]. set_solver. }
  rewrite fmap_app, NoDup_app in Hnd. destruct Hnd as (Hnd & Hdis & _).
  rewrite dict_of_snoc, lookup_insert. destruct (decide (k x = t)) as [<-|Hne].
  - split.
    + intros [= <-]. exists x. set_solver.
    + intros (x' & Hx' & Hk & <-). apply elem_of_app in Hx' as [Hx'|Hx'].
      * exfalso. apply (Hdis (k x)); [|set_solver]. rewrite <-Hk. by apply list_elem_of_fmap_2.
      * apply list_elem_of_singleton in Hx' as ->. done.
  - rewrite IH by done. set_solver.
Qed.

Lemma dict_of_dom l t : t ∈ dom (dict_of k v l) ↔ t ∈ k <$> l.
Proof.
  induction l as [|x l IH] using rev_ind; [cbn; set_solver|].
  rewrite dict_of_snoc, dom_insert, fmap_app. cbn. set_solver.
Qed.
End Dict.

Lemma strictly_ascending_weak {A K} `{LebOrder K} (key : A → K) l :
  strictly_ascending key l = true → ascending key l = true.
Proof.
  induction l as [|x l IH]; [done|]. intros [Hx Hl]%strictly_ascending_cons.
  apply ascending_cons. split; [|by apply IH].
  eapply Forall_impl; [exact Hx|]. intros y. apply ltb_leb.
Qed.

(** Distinct keys identify the elements. *)
Lemma NoDup_key_inj {A K} (key : A → K) l a b :
  NoDup (key <$> l) → a ∈ l → b ∈ l → key a = key b → a = b.
Proof.
  intros Hnd [i Ha]%list_elem_of_lookup [j Hb]%list_elem_of_lookup Hk.
  assert (i = j) as ->; [|congruence].
  apply (NoDup_lookup _ i j (key a) Hnd); rewrite list_lookup_fmap.
  - by rewrite Ha.
  - by rewrite Hb, Hk.
Qed.

(** Two strictly ascending lists with the same elements are equal. *)
Lemma strictly_ascending_unique {A K} `{LebOrder K} (key : A → K) l l' :
  strictly_ascending key l = true → strictly_ascending key l' = true →
  (∀ x, x ∈ l ↔ x ∈ l') → l = l'.
Proof.
  intros Hl Hl' Hin. pose proof (strictly_ascending_NoDup _ _ Hl) as Hnd.
  pose proof (strictly_ascending_NoDup _ _ Hl') as Hnd'.
  apply (ascending_perm_unique key); try by apply strictly_ascending_weak.
  - intros a b Ha Hb Hk. exact (NoDup_key_inj key l a b Hnd Ha Hb Hk).
  - apply NoDup_Permutation; [by eapply NoDup_fmap_1..|done].
Qed.

Section WithJson.
Context `{JsonCodec}.

Lemma bind_nil {A B} (f : A → list B) l : l ≫= f = [] ↔ ∀ x, x ∈ l → f x = [].
Proof.
  induction l as [|x l IH]; cbn; [set_solver|].
  rewrite app_nil, IH. set_solver.
Qed.

Lemma diff_tick_nil L R t : diff_tick L R t = [] ↔
  ∃ x y, L !! t = Some x ∧ R !! t = Some y ∧ tr_events x = tr_events y.
Proof.
  unfold diff_tick. destruct (L !! t) as [x|], (R !! t) as [y|].
  - case_decide; split; try done; [by eauto 10|].
    intros (? & ? & [= <-] & [= <-] & ?). done.
  - split; [done|]. by intros (? & ? & _ & [=] & _).
  - split; [done|]. by intros (? & ? & [=] & _).
  - split; [done|]. by intros (? & ? & [=] & _).
Qed.

Lemma diff_ticks_nil l r :
  strictly_ascending tr_tick l = true → strictly_ascending tr_tick r = true →
  _diff_ticks l r = [] ↔ l = r.
Proof.
  intros Hl Hr. pose proof (strictly_ascending_NoDup _ _ Hl) as Hndl.
  pose proof (strictly_ascending_NoDup _ _ Hr) as Hndr.
  unfold _diff_ticks. rewrite bind_nil. setoid_rewrite diff_tick_nil.
  setoid_rewrite sorted_by_perm. setoid_rewrite elem_of_elements.
  setoid_rewrite elem_of_union. setoid_rewrite dict_of_dom.
  setoid_rewrite dict_of_lookup; [|done..]. split.
  - intros Hall. apply (strictly_ascending_unique tr_tick); [done..|].
    assert (∀ x, x ∈ l ∨ x ∈ r → x ∈ l ∧ x ∈ r) as Hboth; [|naive_solver].
    intros x Hx. destruct (Hall (tr_tick x)) as (xl & xr & (x1 & H1 & Ht1 & Hv1) & (x2 & H2 & Ht2 & Hv2) & He).
    { destruct Hx; [left|right]; by apply list_elem_of_fmap_2. }
    unfold id in *. subst x1 x2.
    assert (xl = xr) as -> by (destruct xl, xr; cbn in *; congruence).
    destruct Hx as [Hx|Hx]; [rewrite (NoDup_key_inj tr_tick l x xr)|rewrite (NoDup_key_inj tr_tick r x xr)];
      auto.
  - intros <- t [(x & -> & Hx)%list_elem_of_fmap|(x & -> & Hx)%list_elem_of_fmap];
      exists x, x; unfold id; eauto 10.
Qed.

Lemma expected_dict_eq (l r : list ExpectedHash) :
  NoDup (ex_tick <$> l) → NoDup (ex_tick <$> r) →
  dict_of ex_tick ex_hash l = dict_of ex_tick ex_hash r ↔ l ≡ₚ r.
Proof.
  intros Hl Hr.
  assert (∀ e (k : list ExpectedHash), NoDup (ex_tick <$> k) →
    e ∈ k ↔ dict_of ex_tick ex_hash k !! ex_tick e = Some (ex_hash e)) as Hin.
  { intros e k Hk. rewrite dict_of_lookup by done. split; [by eauto|].
    intros (x & Hx & Ht & Hh). destruct e, x; cbn in *; by subst. }
  split.
  - intros Heq. apply NoDup_Permutation; [by eapply NoDup_fmap_1..|].
    intros e. by rewrite !Hin, Heq.
  - intros Hp. apply map_eq. intros t. apply option_eq. intros h.
    rewrite !dict_of_lookup by done. by setoid_rewrite Hp.
Qed.

(** Equal logical content: the expectations compare as a map. *)
Definition same_content (l r : ReplayDocument) : Prop :=
  doc_header l = doc_header r ∧ meta_eqb (doc_meta l) (doc_meta r) = true ∧
  doc_ticks l = doc_ticks r ∧ doc_expected_hashes l ≡ₚ doc_expected_hashes r ∧
  doc_rng_checkpoints l = doc_rng_checkpoints r.

(** C39: On two documents that satisfy the format's ordering and uniqueness
    laws the differ reports nothing exactly when they have the same content:
    header, metadata under Python's ==, ticks with their events, the set of
    expected hashes and the checkpoints. *)
Theorem diff_documents_exact l r :
  doc_lawful l = true → doc_lawful r = true →
  diff_documents l r = [] ↔ same_content l r.
Proof.
  unfold doc_lawful. intros Hl Hr. bool_hyps.
  repeat match goal with H : content_lawful _ _ _ = true |- _ =>
    apply content_lawful_iff in H as ((_ & ?) & (_ & ?) & _) end.
  unfold diff_documents, same_content. rewrite !app_nil, diff_ticks_nil by done.
  rewrite <-expected_dict_eq by done.
  destruct (decide (doc_header l = doc_header r)), (meta_eqb (doc_meta l) (doc_meta r));
    repeat case_decide; naive_solver.
Qed.

Lemma meta_eqb_sym m m' : meta_eqb m m' = meta_eqb m' m.
Proof. destruct m, m'; try done. apply jdict_eqb_sym. Qed.

Lemma diff_ticks_nil_sym l r : _diff_ticks l r = [] → _diff_ticks r l = [].
Proof.
  unfold _diff_ticks. rewrite !bind_nil. intros Hall t Ht.
  rewrite sorted_by_perm, (union_comm_L (dom _)), <-(sorted_by_perm id) in Ht.
  specialize (Hall t Ht). rewrite diff_tick_nil in Hall |- *. naive_solver.
Qed.

(** Whether the differ reports a difference does not depend on which document
    is on the left. *)
Theorem diff_documents_symmetric l r :
  diff_documents l r = [] ↔ diff_documents r l = [].
Proof.
  assert (∀ l r, diff_documents l r = [] → diff_documents r l = []) as Himp;
    [|split; apply Himp].
  clear l r. intros l r. unfold diff_documents. rewrite !app_nil, (meta_eqb_sym (doc_meta r)).
  intros (Hh & Hm & Ht & He & Hc). apply diff_ticks_nil_sym in Ht.
  destruct (meta_eqb (doc_meta l) (doc_meta r)); [|done].
  cbv zeta in *. repeat case_decide; try done; try congruence; by repeat split.
Qed.
End WithJson.
