(* ===== verification/ReplayRecorder.v ===== *)
(** * The tick-boundary recorder ([examples/_common/replay_recorder.py])

    Every operation holds the recorder's lock for its whole body, so a run
    of worker threads is a sequence of atomic operations; a run is modelled
    as that sequence. *)

From S2P Require Import Prelude PyStruct Json ReplayFormat ReplayCodec ReplayWriter ReplayDocument.

#[local] Open Scope Z_scope.

Definition DEFAULT_STREAM_KEY : Z := 0.

(** [rc_provider] tells whether a generator-state provider is configured;
    what a call of it returns is an argument of the operation that calls it. *)
Record ReplayRecorder := mkRecorder {
  rc_writer : ReplayWriter;
  rc_provider : bool;
  rc_pending : list Event;
  rc_closed : bool;
}.

Definition set_pending (es : list Event) : M ReplayRecorder unit :=
  modify (λ r, mkRecorder (rc_writer r) (rc_provider r) es (rc_closed r)).
Definition set_rc_closed (b : bool) : M ReplayRecorder unit :=
  modify (λ r, mkRecorder (rc_writer r) (rc_provider r) (rc_pending r) b).

(** A call on [self._writer]. *)
Definition on_writer {A} (m : M ReplayWriter A) : M ReplayRecorder A := λ r,
  let '(w, res) := m (rc_writer r) in
  (mkRecorder w (rc_provider r) (rc_pending r) (rc_closed r), res).

(** [self._stream.flush()]; the stream is the writer's. *)
Definition flush_stream : M ReplayRecorder unit :=
  on_writer (modify (λ w, mkWriter (stream_flush (w_stream w)) (w_closed w) (w_meta_written w)
                                   (w_last_tick w) (w_last_stream_key w))).

(** [ReplayRecorder.__init__] *)
Definition ReplayRecorder_init (s : stream) (tick_hz : Z) (provider : bool)
    : result ReplayRecorder :=
  w ← ReplayWriter_init s tick_hz;
  Ok (mkRecorder w provider [] false).

Definition recorder_ensure_open : M ReplayRecorder unit :=
  r ← get;
  guard (rc_closed r) (ValueError [Lit "recorder is closed"]).

(** [record] *)
Definition record_event (event : Event) : M ReplayRecorder unit :=
  r ← get;
  if rc_closed r then mret () else set_pending (rc_pending r ++ [event]).

(** [flush_tick]; [provided] is the outcome of calling the provider. *)
Definition flush_tick (tick : Z) (provided : result bytes) : M ReplayRecorder unit :=
  r ← get;
  if rc_closed r then mret () else
  let events := sorted_by canonical_event_key (rc_pending r) in
  set_pending [];;
  match events with
  | [] => mret ()
  | _ =>
      on_writer (write_tick tick events);;
      (if rc_provider r then
         state ← lift provided;
         guard (negb (bool_decide (length state = RNG_STATE_SIZE)))
           (ValueError [Lit "rng state provider returned "; Num (Z.of_nat (length state));
                        Lit " bytes, expected "; Num (Z.of_nat RNG_STATE_SIZE)]);;
         on_writer (write_rng_checkpoint tick DEFAULT_STREAM_KEY state)
       else mret ());;
      flush_stream
  end.

(** [close] *)
Definition recorder_close : M ReplayRecorder unit :=
  r ← get;
  if rc_closed r then mret () else
  set_rc_closed true;;
  set_pending [];;
  on_writer writer_close.

Section WithJson.
Context `{JsonCodec}.

Definition recorder_write_meta (meta : jdict) : M ReplayRecorder unit :=
  recorder_ensure_open;;
  on_writer (write_meta meta);;
  flush_stream.

(** The public operations. *)
Inductive rop :=
  | OpMeta (meta : jdict)
  | OpRecord (event : Event)
  | OpFlush (tick : Z) (provided : result bytes)
  | OpClose.

(** The metadata passed is one JSON represents. *)
Definition rop_ok (o : rop) : bool :=
  match o with OpMeta m => jdict_ok m | _ => true end.

Definition run_rop (o : rop) : M ReplayRecorder unit :=
  match o with
  | OpMeta m => recorder_write_meta m
  | OpRecord e => record_event e
  | OpFlush t p => flush_tick t p
  | OpClose => recorder_close
  end.

(** A run whose callers catch what an operation raises. *)
Definition run_rops (os : list rop) (r : ReplayRecorder) : ReplayRecorder :=
  foldl (λ r o, fst (run_rop o r)) r os.

(** ** The abstract recording

    The buffered events, whether the recording has ended, and the session
    its writer calls amount to. *)

Record recording := mkRecording {
  rec_session : session;
  rec_pending : list Event;
  rec_closed : bool;
}.

Definition new_recording : recording := mkRecording new_session [] false.

Definition spec_flush (provider : bool) (t : Z) (provided : result bytes) (rc : recording)
    : recording :=
  match rec_pending rc with
  | [] => mkRecording (rec_session rc) [] false
  | es =>
      let '(s, ok) := spec_call (CallTick t (sorted_by canonical_event_key es)) (rec_session rc) in
      let s := match ok, provider, provided with
               | true, true, Ok st =>
                   if decide (length st = RNG_STATE_SIZE)
                   then fst (spec_call (CallCheckpoint t DEFAULT_STREAM_KEY st) s) else s
               | _, _, _ => s
               end in
      mkRecording s [] false
  end.

Definition spec_rop (provider : bool) (o : rop) (rc : recording) : recording :=
  if rec_closed rc then rc else
  match o with
  | OpMeta m => mkRecording (fst (spec_call (CallMeta m) (rec_session rc))) (rec_pending rc) false
  | OpRecord e => mkRecording (rec_session rc) (rec_pending rc ++ [e]) false
  | OpFlush t p => spec_flush provider t p rc
  | OpClose => mkRecording (call_effect CallClose (rec_session rc)) [] true
  end.

Definition spec_rops (provider : bool) (os : list rop) : recording :=
  foldl (λ rc o, spec_rop provider o rc) new_recording os.

(** ** Simulation *)

(** Writer calls only append to the stream. *)
Definition extends (w w' : ReplayWriter) : Prop :=
  s_data (w_stream w) `prefix_of` s_data (w_stream w') ∧
  s_flushed (w_stream w') = s_flushed (w_stream w).

Lemma emit_extends ty p w w' u : _emit ty p w = (w', u) → extends w w'.
Proof.
  rewrite emit_frame. destruct (frame ty p) as [bs|e]; intros [= <- <-]; split; try done.
  cbn. by exists bs.
Qed.

Lemma run_call_extends c w : extends w (fst (run_call c w)).
Proof.
  destruct c; cbn [run_call]; run_writer;
    repeat match goal with
    | |- context [_emit ?ty ?p ?w] => destruct (_emit ty p w) eqn:?
    | |- context [match ?x with _ => _ end] => destruct x eqn:?
    end; simplify_eq;
    try match goal with He : _emit _ _ _ = _ |- _ => apply emit_extends in He as [? ?] end;
    by split.
Qed.

Lemma flush_inv pre w s :
  writer_inv pre w s →
  writer_inv pre (mkWriter (stream_flush (w_stream w)) (w_closed w) (w_meta_written w)
                           (w_last_tick w) (w_last_stream_key w)) s.
Proof.
  intros [(log & bs & ? & ?) [? ? ? ? ? ?]]. split; [by exists log, bs|by constructor].
Qed.

(** What was flushed is the stream of an earlier session. *)
Definition durable (pre : bytes) (w : ReplayWriter) (s : session) : Prop :=
  s_flushed (w_stream w) = 0%nat ∨
  ∃ w0 s0, writer_inv pre w0 s0 ∧ ss_expected s0 = [] ∧
    ss_ticks s0 `prefix_of` ss_ticks s ∧
    s_data (w_stream w0) `prefix_of` s_data (w_stream w) ∧
    s_flushed (w_stream w) = length (s_data (w_stream w0)).

Record rec_inv (pre : bytes) (r : ReplayRecorder) (provider : bool) (rc : recording) : Prop := {
  ri_provider : rc_provider r = provider;
  ri_pending : rc_pending r = rec_pending rc;
  ri_closed : rc_closed r = rec_closed rc;
  ri_writer : writer_inv pre (rc_writer r) (rec_session rc);
  ri_expected : ss_expected (rec_session rc) = [];
  ri_durable : durable pre (rc_writer r) (rec_session rc);
}.

Definition no_expectation (c : call) : bool :=
  match c with CallExpected _ _ => false | _ => true end.

Lemma call_effect_grows c s :
  no_expectation c = true →
  ss_expected (call_effect c s) = ss_expected s ∧ ss_ticks s `prefix_of` ss_ticks (call_effect c s).
Proof. destruct c; cbn; try done. intros _. split; [done|]. by eexists. Qed.

(** One writer call made by the recorder. *)
Lemma writer_call_step pre c w s :
  call_ok c = true → no_expectation c = true → writer_inv pre w s → ss_expected s = [] → durable pre w s →
  let '(w', res) := run_call c w in
  let '(s', ok) := spec_call c s in
  is_ok res = ok ∧ writer_inv pre w' s' ∧ ss_expected s' = [] ∧ durable pre w' s'.
Proof.
  intros Hok Hc Hw He Hd. pose proof (call_outcome pre c w s Hok Hw) as Ho.
  pose proof (run_call_extends c w) as [Hpre Hfl]. unfold outcome in Ho.
  destruct (run_call c w) as [w' res]. unfold spec_call. destruct (call_legal c s).
  - destruct Ho as [-> Hw'], (call_effect_grows c s Hc) as [Hexp Hticks].
    split; [done|]. split; [done|]. split; [by rewrite Hexp|].
    destruct Hd as [Hd|(w0 & s0 & ? & ? & ? & ? & ?)]; [left; cbn in *; congruence|].
    right. exists w0, s0. cbn in *. split; [done|]. split; [done|].
    split; [by etransitivity|]. split; [by etransitivity|congruence].
  - destruct Ho as [-> ->]. done.
Qed.

Lemma durable_flush pre w s :
  writer_inv pre w s → ss_expected s = [] →
  durable pre (mkWriter (stream_flush (w_stream w)) (w_closed w) (w_meta_written w)
                        (w_last_tick w) (w_last_stream_key w)) s.
Proof. intros. right. exists w, s. cbn. auto. Qed.

Lemma meta_step pre m r provider rc :
  jdict_ok m = true → rec_inv pre r provider rc → rec_inv pre (fst (run_rop (OpMeta m) r)) provider
                                          (spec_rop provider (OpMeta m) rc).
Proof.
  intros Hok Hinv. pose proof Hinv as [Hp Hpe Hcl Hw He Hd]. unfold spec_rop.
  unfold run_rop, recorder_write_meta, recorder_ensure_open, guard, lift, get, mbind, M_bind.
  cbn. rewrite Hcl. destruct (rec_closed rc) eqn:Ec; cbn; [done|].
  pose proof (writer_call_step pre (CallMeta m) _ _ Hok eq_refl Hw He Hd) as Hs. cbn [run_call] in Hs.
  unfold on_writer. destruct (write_meta m (rc_writer r)) as [w' [u|e]],
    (spec_call (CallMeta m) (rec_session rc)) as [s' ok]; destruct Hs as (<- & ? & ? & ?); cbn.
  - constructor; cbn; auto using flush_inv, durable_flush.
  - constructor; cbn; auto.
Qed.

(** The checkpoint a written tick is followed by, then the flush. *)
Definition after_tick (provider : bool) (t : Z) (provided : result bytes) : M ReplayRecorder unit :=
  (if provider then
     state ← lift provided;
     guard (negb (bool_decide (length state = RNG_STATE_SIZE)))
       (ValueError [Lit "rng state provider returned "; Num (Z.of_nat (length state));
                    Lit " bytes, expected "; Num (Z.of_nat RNG_STATE_SIZE)]);;
     on_writer (write_rng_checkpoint t DEFAULT_STREAM_KEY state)
   else mret ());;
  flush_stream.

Lemma after_tick_step pre provider t p r s :
  rc_provider r = provider → rc_closed r = false → writer_inv pre (rc_writer r) s →
  ss_expected s = [] → durable pre (rc_writer r) s →
  rec_inv pre (fst (after_tick provider t p r)) provider
    (mkRecording
       match provider, p with
       | true, Ok st => if decide (length st = RNG_STATE_SIZE)
                        then fst (spec_call (CallCheckpoint t DEFAULT_STREAM_KEY st) s) else s
       | _, _ => s
       end (rc_pending r) false).
Proof.
  intros Hp Hcl Hw He Hd. unfold after_tick, lift, guard, mbind, M_bind.
  destruct provider; [|constructor; cbn; auto using flush_inv, durable_flush].
  destruct p as [st|e]; [|by constructor].
  destruct (decide (length st = RNG_STATE_SIZE)) as [Hl|Hl].
  2: { rewrite bool_decide_eq_false_2 by done. by constructor. }
  rewrite bool_decide_eq_true_2 by done. cbn [negb raise_if lift].
  pose proof (writer_call_step pre (CallCheckpoint t DEFAULT_STREAM_KEY st) _ _ eq_refl eq_refl Hw He Hd) as Hs.
  cbn [run_call] in Hs. unfold on_writer, lift.
  destruct (write_rng_checkpoint _ _ _ _) as [w' [u|e]], (spec_call _ s) as [s' ok];
    destruct Hs as (<- & ? & ? & ?); constructor; cbn; auto using flush_inv, durable_flush.
Qed.

Lemma on_writer_bind {A B} (m : M ReplayWriter A) (k : A → M ReplayRecorder B) r :
  (on_writer m ≫= k) r =
  let '(w, res) := m (rc_writer r) in
  let r' := mkRecorder w (rc_provider r) (rc_pending r) (rc_closed r) in
  match res with Ok a => k a r' | Err e => (r', Err e) end.
Proof. unfold mbind, M_bind, on_writer. by destruct (m _) as [? [?|?]]. Qed.

Lemma flush_step pre t p r provider rc :
  rec_inv pre r provider rc → rec_inv pre (fst (run_rop (OpFlush t p) r)) provider
                                          (spec_rop provider (OpFlush t p) rc).
Proof.
  intros Hinv. pose proof Hinv as [Hp Hpe Hcl Hw He Hd]. unfold spec_rop, spec_flush.
  unfold run_rop, flush_tick, get, set_pending, modify. unfold mbind at 1, M_bind at 1. cbn beta iota.
  rewrite Hcl, Hpe, Hp. destruct (rec_closed rc) eqn:Ec; [done|].
  unfold mbind at 1, M_bind at 1. cbn beta iota.
  destruct (rec_pending rc) as [|e1 es1]; [by constructor|].
  pose proof (writer_call_step pre (CallTick t (sorted_by canonical_event_key (e1 :: es1)))
                _ _ eq_refl eq_refl Hw He Hd) as Hs.
  destruct (sorted_by canonical_event_key (e1 :: es1)) as [|e0 es0] eqn:Es.
  { by apply sorted_by_nil in Es. }
  cbn [run_call] in Hs. rewrite on_writer_bind. cbn [rc_writer rc_provider rc_pending rc_closed].
  destruct (write_tick t (e0 :: es0) (rc_writer r)) as [w' res], (spec_call _ _) as [s' ok].
  destruct Hs as (Hok & Hw' & He' & Hd'). rewrite Hcl.
  destruct res as [u|e], ok; try done.
  by apply (after_tick_step pre provider t p (mkRecorder w' (rc_provider r) [] false) s').
Qed.

Lemma rop_step pre o r provider rc :
  rop_ok o = true → rec_inv pre r provider rc → rec_inv pre (fst (run_rop o r)) provider (spec_rop provider o rc).
Proof.
  intros Hok. destruct o as [m|e|t p|]; [by apply meta_step| |apply flush_step|];
    intros Hinv; pose proof Hinv as [Hp Hpe Hcl Hw He Hd]; unfold spec_rop, run_rop.
  - unfold record_event, get, mbind, M_bind. rewrite Hcl. destruct (rec_closed rc) eqn:Ec; [done|].
    constructor; cbn; congruence.
  - unfold recorder_close, get, mbind, M_bind. rewrite Hcl. destruct (rec_closed rc) eqn:Ec; [done|].
    pose proof (writer_call_step pre CallClose _ _ eq_refl eq_refl Hw He Hd) as Hs.
    cbn in Hs. destruct Hs as (_ & ? & ? & ?). constructor; cbn; auto.
Qed.

Lemma rops_inv pre os r provider rc :
  forallb rop_ok os = true → rec_inv pre r provider rc →
  rec_inv pre (run_rops os r) provider (foldl (λ rc o, spec_rop provider o rc) rc os).
Proof.
  revert r rc. induction os as [|o os IH]; intros r rc Hok Hr; [done|].
  apply andb_true_iff in Hok as [? ?]. cbn [run_rops foldl]. by apply IH, rop_step.
Qed.

Lemma recorder_init_inv tick_hz provider r0 :
  ReplayRecorder_init empty_sink tick_hz provider = Ok r0 →
  1 ≤ tick_hz ∧ ∃ header, pack _HEADER (header_vals tick_hz) = Ok header ∧
  rec_inv header r0 provider new_recording.
Proof.
  unfold ReplayRecorder_init. intros Hi. inv_result.
  apply init_Ok in Hx as (? & header & ? & ->). split; [done|]. exists header. split; [done|].
  constructor; try done; [|by left]. apply (init_inv header empty_sink).
Qed.

Lemma run_rops_app os1 os2 r : run_rops (os1 ++ os2) r = run_rops os2 (run_rops os1 r).
Proof. apply foldl_app. Qed.

Lemma closed_rop o r : rc_closed r = true → fst (run_rop o r) = r.
Proof.
  intros Hc. destruct o; cbn [run_rop];
    unfold recorder_write_meta, recorder_ensure_open, record_event, flush_tick, recorder_close,
      guard, lift, get, mbind, M_bind; by rewrite Hc.
Qed.

Lemma closed_rops os r : rc_closed r = true → run_rops os r = r.
Proof.
  intros Hc. induction os as [|o os IH]; [done|].
  cbn [run_rops foldl]. by rewrite closed_rop.
Qed.

Lemma close_closes r : rc_closed (fst (recorder_close r)) = true.
Proof.
  unfold recorder_close, get, mbind, M_bind. by destruct (rc_closed r) eqn:E.
Qed.

Lemma run_records es r :
  rc_closed r = false →
  run_rops (OpRecord <$> es) r =
  mkRecorder (rc_writer r) (rc_provider r) (rc_pending r ++ es) false.
Proof.
  revert r. induction es as [|e es IH]; intros r Hc.
  { cbn. rewrite app_nil_r, <-Hc. by destruct r. }
  change (run_rops (OpRecord <$> (e :: es)) r)
    with (run_rops (OpRecord <$> es) (fst (record_event e r))).
  unfold record_event, get, mbind, M_bind. rewrite Hc. cbn [fst set_pending modify].
  rewrite IH by done. cbn. by rewrite <-app_assoc.
Qed.

Lemma after_tick_flushes provider t p r r' :
  after_tick provider t p r = (r', Ok tt) →
  s_flushed (w_stream (rc_writer r')) = length (s_data (w_stream (rc_writer r'))).
Proof.
  unfold after_tick, mbind at 1, M_bind at 1.
  match goal with |- context [match ?x with _ => _ end] => destruct x as [r1 [u|ex]] end; [|done].
  unfold flush_stream, on_writer, modify. by intros [= <-].
Qed.

(** A drain that writes and returns has flushed what it wrote. *)
Lemma flush_tick_flushes t p r r' :
  rc_closed r = false → rc_pending r ≠ [] → flush_tick t p r = (r', Ok tt) →
  s_flushed (w_stream (rc_writer r')) = length (s_data (w_stream (rc_writer r'))).
Proof.
  intros Hc Hp. unfold flush_tick, get, set_pending, modify. unfold mbind at 1, M_bind at 1.
  rewrite Hc. unfold mbind at 1, M_bind at 1.
  destruct (sorted_by _ _) eqn:Es; [by apply sorted_by_nil in Es|].
  rewrite on_writer_bind. destruct (write_tick _ _ _) as [w [u|ex]]; [|done].
  apply after_tick_flushes.
Qed.

(** A drain depends on the buffer through its sorted form. *)
Lemma flush_tick_pending t p w pr l l' :
  sorted_by canonical_event_key l = sorted_by canonical_event_key l' →
  fst (flush_tick t p (mkRecorder w pr l false)) = fst (flush_tick t p (mkRecorder w pr l' false)).
Proof.
  intros Hl. unfold flush_tick, get, set_pending, modify, mbind, M_bind.
  cbn [rc_closed rc_pending rc_writer rc_provider]. by rewrite Hl.
Qed.

(** C19: Whatever sequence of operations the recorder goes through, failing
    ones included, its buffer and its closed flag are those of the abstract
    recording and the stream reads back as the document of the recording's
    session: drained batches in canonical order, each followed by its
    checkpoint, idle ticks elided, the unflushed tail discarded. *)
Theorem recorder_refines_recording tick_hz provider r0 os src :
  ReplayRecorder_init empty_sink tick_hz provider = Ok r0 → forallb rop_ok os = true →
  let r := run_rops os r0 in
  let rc := spec_rops provider os in
  rc_pending r = rec_pending rc ∧ rc_closed r = rec_closed rc ∧
  ∃ d, read_document (s_data (w_stream (rc_writer r))) src = Ok d ∧
       document_matches d tick_hz (rec_session rc).
Proof.
  intros (Hhz & header & Hh & Hinv)%recorder_init_inv Hok r rc.
  apply (rops_inv _ os _ _ _ Hok) in Hinv as [_ Hpe Hcl Hw He _]. repeat split; [done..|].
  eapply inv_reads_back; [done..|].
  change (ss_expected (rec_session rc) = []) in He. rewrite He. constructor.
Qed.

(** At any moment the flushed prefix of the stream is empty or reads back as a
    document whose ticks are a prefix of the recorded ones, and a drain that
    wrote a tick and returned has flushed everything written so far. *)
Theorem recorder_durable tick_hz provider r0 os src :
  ReplayRecorder_init empty_sink tick_hz provider = Ok r0 → forallb rop_ok os = true →
  let r := run_rops os r0 in
  let out := w_stream (rc_writer r) in
  (s_flushed out = 0%nat ∨
   ∃ d, read_document (take (s_flushed out) (s_data out)) src = Ok d ∧
        doc_header d = mkHeader tick_hz 0 ∧
        doc_ticks d `prefix_of` ss_ticks (rec_session (spec_rops provider os))) ∧
  (∀ t p r', rc_closed r = false → rc_pending r ≠ [] → flush_tick t p r = (r', Ok tt) →
   s_flushed (w_stream (rc_writer r')) = length (s_data (w_stream (rc_writer r')))).
Proof.
  intros (Hhz & header & Hh & Hinv)%recorder_init_inv Hok r out. split.
  2: { intros t p r' Hc Hp Hf. by eapply flush_tick_flushes. }
  apply (rops_inv _ os _ _ _ Hok) in Hinv as [_ _ _ _ _ [Hd|(w0 & s0 & Hw & He & Ht & Hpre & Hf)]];
    [by left|right].
  destruct (inv_reads_back src tick_hz header w0 s0) as (d & Hd & Hm & _ & Htk & _); [done..| |].
  { rewrite He. constructor. }
  exists d. subst out r. rewrite Hf. destruct Hpre as [rest ->].
  rewrite take_app_length, Htk. done.
Qed.

(** The recorder's state after a drain, the artifact included, does not depend
    on the order in which the batch's events arrived, provided events of the
    batch with equal canonical keys are equal. *)
Theorem recorder_arrival_order es es' t p r :
  es ≡ₚ es' →
  (∀ a b, a ∈ rc_pending r ++ es → b ∈ rc_pending r ++ es →
          canonical_event_key a = canonical_event_key b → a = b) →
  run_rops ((OpRecord <$> es) ++ [OpFlush t p]) r = run_rops ((OpRecord <$> es') ++ [OpFlush t p]) r.
Proof.
  intros Hp Hinj. destruct (rc_closed r) eqn:Hc; [by rewrite !closed_rops|].
  rewrite !run_rops_app, !run_records by done. cbn [run_rops foldl run_rop].
  apply flush_tick_pending.
  apply (ascending_perm_unique canonical_event_key); auto using sorted_by_ascending.
  - intros a b. rewrite !sorted_by_perm. apply Hinj.
  - rewrite !sorted_by_perm. by rewrite Hp.
Qed.

(** After close no operation changes the recorder or its artifact. *)
Theorem recorder_close_final os os' r :
  run_rops (os ++ OpClose :: os') r = run_rops (os ++ [OpClose]) r.
Proof.
  rewrite (cons_middle OpClose os os'), app_assoc, run_rops_app. apply closed_rops.
  rewrite run_rops_app. apply close_closes.
Qed.

(** A drain at a tick that does not advance past the last written one raises
    the writer's ValueError, leaves the artifact unchanged and drops the
    buffered events. *)
Theorem failed_drain_drops_batch t p r last :
  rc_closed r = false → w_closed (rc_writer r) = false → rc_pending r ≠ [] →
  w_last_tick (rc_writer r) = Some last → t ≤ last →
  flush_tick t p r =
  (mkRecorder (rc_writer r) (rc_provider r) [] false,
   Err (ValueError [Lit "tick "; Num t; Lit " does not advance past the previously written tick ";
                    Nums [last]])).
Proof.
  intros Hc Hw Hp Hl Ht. unfold flush_tick, get, set_pending, modify. unfold mbind at 1, M_bind at 1.
  rewrite Hc. unfold mbind at 1, M_bind at 1.
  destruct (sorted_by _ _) eqn:Es; [by apply sorted_by_nil in Es|].
  rewrite on_writer_bind. cbn [rc_writer]. unfold write_tick. run_writer. rewrite Hw. cbn.
  rewrite Hl. replace (t <=? last) with true by lia. by rewrite Hc.
Qed.
End WithJson.
