(* ===== verification/ReplayText.v ===== *)
(** * Legacy text records ([tools/replay.py])

    The line-oriented reader of the replay tool: events, their grouping into
    per-tick records, and the sidecar of expected hashes. *)

From S2P Require Import Prelude PyStruct PyText ReplayFormat ReplayCodec.

#[local] Open Scope Z_scope.

(** ** Parsing *)

Definition parse_int (token : pystr) (what : string) (lo hi : Z) : result Z :=
  match py_int 10 token with
  | None => Err (RecordError [Lit what; Lit ": expected integer, got "; ReprStr token])
  | Some value =>
      if (value <? lo) || (hi <? value)
      then Err (RecordError [Lit what; Lit ": "; Num value; Lit " out of range ["; Num lo;
                             Lit ", "; Num hi; Lit "]"])
      else Ok value
  end.

Definition parse_i64 (token : pystr) (what : string) : result Z :=
  parse_int token what (- 2 ^ 63) (2 ^ 63 - 1).
Definition parse_i16 (token : pystr) (what : string) : result Z :=
  parse_int token what (- 2 ^ 15) (2 ^ 15 - 1).

(** [tokens[i]]; the code only indexes below the length it has checked. *)
Definition token (tokens : list pystr) (i : nat) : pystr := nth i tokens [].

Definition parse_event (tokens : list pystr) : result (Z * Event) :=
  raise_if (bool_decide (length tokens < 3)%nat)
    (RecordError [Lit "expected at least tick, kind, actor_id"]);;
  tick ← parse_int (token tokens 0) "tick" 0 (2 ^ 63 - 1);
  let kind := token tokens 1 in
  actor_id ← parse_int (token tokens 2) "actor_id" 0 (2 ^ 64 - 1);
  if bool_decide (kind = str "SPAWN") then
    raise_if (negb (bool_decide (length tokens = 10%nat)))
      (RecordError [Lit "SPAWN needs pos_x pos_y pos_z vel_x vel_y vel_z flags"]);;
    pos_x ← parse_i64 (token tokens 3) "pos_x";
    pos_y ← parse_i64 (token tokens 4) "pos_y";
    pos_z ← parse_i64 (token tokens 5) "pos_z";
    vel_x ← parse_i64 (token tokens 6) "vel_x";
    vel_y ← parse_i64 (token tokens 7) "vel_y";
    vel_z ← parse_i64 (token tokens 8) "vel_z";
    flags ← parse_int (token tokens 9) "flags" 0 (2 ^ 32 - 1);
    Ok (tick, ESpawn (mkSpawn actor_id pos_x pos_y pos_z vel_x vel_y vel_z flags))
  else if bool_decide (kind = str "MOVE") then
    raise_if (negb (bool_decide (length tokens = 8%nat)))
      (RecordError [Lit "MOVE needs input_tick move_x move_y move_z flags"]);;
    input_tick ← parse_int (token tokens 3) "input_tick" 0 (2 ^ 32 - 1);
    move_x ← parse_i16 (token tokens 4) "move_x";
    move_y ← parse_i16 (token tokens 5) "move_y";
    move_z ← parse_i16 (token tokens 6) "move_z";
    flags ← parse_int (token tokens 7) "flags" 0 (2 ^ 8 - 1);
    Ok (tick, EMove (mkMove actor_id input_tick move_x move_y move_z flags))
  else if bool_decide (kind = str "DESPAWN") then
    raise_if (negb (bool_decide (length tokens = 3%nat)))
      (RecordError [Lit "DESPAWN takes only tick and actor_id"]);;
    Ok (tick, EDespawn (mkDespawn actor_id))
  else Err (RecordError [Lit "unknown event kind: "; ReprStr kind]).

(** [not line or line.startswith("#")] *)
Definition skip_line (line : pystr) : bool :=
  match line with [] => true | c :: _ => c =? 35 end.

(** [raise RecordError(f"{path}:{lineno}: {exc}") from exc] *)
Definition at_line {A} (path : pystr) (lineno : Z) (r : result A) : result A :=
  match r with
  | Err (RecordError msg) => Err (RecordError ([Txt path; Lit ":"; Num lineno; Lit ": "] ++ msg))
  | r => r
  end.

(** The loop of [parse_record] from line [lineno] on. *)
Fixpoint parse_lines (path : pystr) (lineno : Z) (lines : list pystr) : result (list (Z * Event)) :=
  match lines with
  | [] => Ok []
  | raw :: lines =>
      let line := strip raw in
      if skip_line line then parse_lines path (lineno + 1) lines else
      pair ← at_line path lineno (parse_event (split line));
      pairs ← parse_lines path (lineno + 1) lines;
      Ok (pair :: pairs)
  end.

(** [parse_record(path)] of a file with contents [data]. *)
Definition parse_record (path : pystr) (data : bytes) : result (list (Z * Event)) :=
  text ← read_text data;
  parse_lines path 1 (splitlines text).

(** ** Grouping *)

(** [groupby(l, key)]: maximal runs of equal keys. *)
Fixpoint groupby {A} (key : A → Z) (l : list A) : list (Z * list A) :=
  match l with
  | [] => []
  | x :: l =>
      match groupby key l with
      | (k, g) :: gs => if key x =? k then (k, x :: g) :: gs else (key x, [x]) :: (k, g) :: gs
      | [] => [(key x, [x])]
      end
  end.

Definition text_groups (pairs : list (Z * Event)) : list TickRecord :=
  let ordered := sorted_by fst pairs in
  (λ '(tick, group), mkTick tick (snd <$> group)) <$> groupby fst ordered.

(** ** Expected hashes *)

(** [int(token, base)] outside any handler. *)
Definition int_or_raise (base : Z) (t : pystr) : result Z :=
  match py_int base t with
  | Some z => Ok z
  | None => Err (ValueError [Lit "invalid literal for int(): "; ReprStr t])
  end.

Fixpoint expect_lines (path : pystr) (lineno : Z) (lines : list pystr) (expected : gmap Z Z)
    : result (gmap Z Z) :=
  match lines with
  | [] => Ok expected
  | raw :: lines =>
      let line := strip raw in
      if skip_line line then expect_lines path (lineno + 1) lines expected else
      let tokens := split (replace_char 61 32 line) in
      raise_if (negb (bool_decide (length tokens = 4%nat)) ||
                negb (bool_decide (token tokens 0 = str "tick")) ||
                negb (bool_decide (token tokens 2 = str "hash")))
        (RecordError [Txt path; Lit ":"; Num lineno; Lit ": expected 'tick=N hash=HEX'"]);;
      hash ← int_or_raise 16 (token tokens 3);
      tick ← int_or_raise 10 (token tokens 1);
      expect_lines path (lineno + 1) lines (<[tick := hash]> expected)
  end.

Definition load_expect_file (path : pystr) (data : bytes) : result (gmap Z Z) :=
  text ← read_text data;
  expect_lines path 1 (splitlines text) ∅.

(** ** Groups *)

Lemma groupby_nil {A} (key : A → Z) l : groupby key l = [] → l = [].
Proof.
  destruct l as [|x l]; [done|]. cbn. destruct (groupby key l) as [|[k g] gs]; [done|].
  by destruct (_ =? _).
Qed.

Lemma groupby_cons {A} (key : A → Z) x l : ∃ g gs, groupby key (x :: l) = (key x, g) :: gs.
Proof.
  cbn. destruct (groupby key l) as [|[k g] gs]; [by eauto|].
  destruct (Z.eqb_spec (key x) k) as [->|]; eauto.
Qed.

(** The group of key [k] among [l]. *)
Definition group_of {A} (key : A → Z) (l : list A) (p : Z * list A) : Prop :=
  snd p = filter (λ x, key x = fst p) l ∧ fst p ∈ key <$> l.

Lemma group_of_cons {A} (key : A → Z) x l p :
  key x ≠ fst p → group_of key l p → group_of key (x :: l) p.
Proof. intros Hne [Hg Hin]. split; [by rewrite Hg, filter_cons_False|]. cbn. by right. Qed.

Lemma groupby_ascending {A} (key : A → Z) l :
  ascending key l = true →
  strictly_ascending fst (groupby key l) = true ∧ Forall (group_of key l) (groupby key l) ∧
  (∀ x, x ∈ l → key x ∈ fst <$> groupby key l).
Proof.
  induction l as [|x l IH]; [intros _; split; [done|split; [constructor|set_solver]]|]. intros [Hx Hl]%ascending_cons.
  destruct (IH Hl) as (Hs & Hg & Hk). clear IH. cbn [groupby].
  destruct l as [|y l].
  { cbn. split; [done|]. split; [|set_solver]. constructor; [|done]. split; [|set_solver].
    by rewrite filter_cons_True. }
  destruct (groupby_cons key y l) as (g & gs & E). rewrite E in *.
  apply Forall_cons in Hx as [Hxy Hxl]. apply strictly_ascending_cons in Hs as [Hlt Hs].
  apply Forall_cons in Hg as [Hgy Hgs]. unfold key_le in Hxy. cbn in Hxy. apply Z.leb_le in Hxy.
  assert (∀ p, p ∈ gs → key y < fst p) as Hgt.
  { intros p Hp. rewrite Forall_forall in Hlt. specialize (Hlt p Hp). unfold key_lt in Hlt.
    rewrite ltb_Z in Hlt. cbn in Hlt. by apply Z.ltb_lt in Hlt. }
  assert (Forall (group_of key (x :: y :: l)) gs) as Hgs'.
  { rewrite Forall_forall in Hgs |- *. intros p Hp. apply group_of_cons; [|by apply Hgs].
    specialize (Hgt p Hp). lia. }
  destruct (Z.eqb_spec (key x) (key y)) as [Hxeq|Hne].
  - split; [by apply strictly_ascending_cons|]. split; [|set_solver]. constructor; [|done].
    destruct Hgy as [Hgy _]. cbn in Hgy. split; [|set_solver]. cbn [fst snd].
    rewrite filter_cons_True by done. by rewrite Hgy.
  - split; [|split].
    + apply strictly_ascending_cons. split; [|by apply strictly_ascending_cons]. constructor.
      * unfold key_lt. rewrite ltb_Z. cbn. apply Z.ltb_lt. lia.
      * apply Forall_forall. intros p Hp. unfold key_lt. rewrite ltb_Z. apply Z.ltb_lt. cbn.
        specialize (Hgt p Hp). lia.
    + constructor; [|constructor; [by apply group_of_cons|done]]. split; [|set_solver]. cbn [fst snd].
      rewrite filter_cons_True by done. f_equal. symmetry. apply filter_none, Forall_forall.
      intros z Hz. apply ascending_cons in Hl as [Hyl _]. rewrite Forall_forall in Hyl.
      apply elem_of_cons in Hz as [->|Hz]; [done|]. specialize (Hyl z Hz). unfold key_le in Hyl.
      cbn in Hyl. apply Z.leb_le in Hyl. lia.
    + set_solver.
Qed.

Lemma text_groups_facts pairs :
  strictly_ascending tr_tick (text_groups pairs) = true ∧
  (∀ t, t ∈ tr_tick <$> text_groups pairs ↔ t ∈ fst <$> pairs) ∧
  Forall (λ g, tr_events g = snd <$> filter (λ p, fst p = tr_tick g) pairs) (text_groups pairs).
Proof.
  unfold text_groups. destruct (groupby_ascending fst (sorted_by fst pairs)) as (Hs & Hg & Hk);
    [apply sorted_by_ascending|].
  set (gs := groupby fst _) in *.
  assert (tr_tick <$> ((λ '(tick, group), mkTick tick (snd <$> group)) <$> gs) = fst <$> gs) as Ht.
  { rewrite <-list_fmap_compose. apply list_fmap_ext. by intros i []. }
  split; [|split].
  - rewrite <-strictly_ascending_fmap, Ht. by rewrite strictly_ascending_fmap.
  - intros t. rewrite Ht. split.
    + intros (p & -> & Hp)%list_elem_of_fmap. rewrite Forall_forall in Hg.
      destruct (Hg p Hp) as [_ Hin]. by rewrite sorted_by_perm in Hin.
    + intros (p & -> & Hp)%list_elem_of_fmap. apply Hk. by rewrite sorted_by_perm.
  - apply Forall_fmap, Forall_forall. intros [k g] Hp. rewrite Forall_forall in Hg.
    destruct (Hg _ Hp) as [Hgk _]. cbn in *. by rewrite Hgk, sorted_by_filter.
Qed.

(** Grouping a text record by tick gives strictly ascending ticks, exactly the
    ticks that occur, and under each tick its events in file order. *)
Theorem text_groups_stable pairs :
  strictly_ascending tr_tick (text_groups pairs) = true ∧
  (∀ t, t ∈ tr_tick <$> text_groups pairs ↔ t ∈ fst <$> pairs) ∧
  Forall (λ g, tr_events g = snd <$> filter (λ p, fst p = tr_tick g) pairs) (text_groups pairs).
Proof. apply text_groups_facts. Qed.

(** ** Well-formed events *)

(** A pair the text format can hold: the tick is a nonnegative [int64]. *)
Definition pair_fits (p : Z * Event) : bool :=
  (0 <=? fst p) && (fst p <? 2 ^ 63) && event_fits (snd p).

Lemma parse_int_range t what lo hi z : parse_int t what lo hi = Ok z → lo ≤ z ≤ hi.
Proof.
  unfold parse_int. destruct (py_int 10 t) as [v|]; [|done].
  destruct (_ || _) eqn:E; [done|]. intros [= <-]. bool_hyps. lia.
Qed.

Lemma in_u_iff n z : in_u n z = true ↔ 0 ≤ z ≤ pow256 n - 1.
Proof. rewrite in_u_spec. lia. Qed.

Lemma in_s_iff n z : in_s n z = true ↔ - (pow256 n / 2) ≤ z ≤ pow256 n / 2 - 1.
Proof. rewrite in_s_spec. lia. Qed.

(** The ranges the text reader checks are those of the binary fields. *)
Definition event_ranges (e : Event) : Prop :=
  match e with
  | ESpawn e => 0 ≤ sp_actor_id e ≤ 2 ^ 64 - 1 ∧
      Forall (λ z, - 2 ^ 63 ≤ z ≤ 2 ^ 63 - 1)
        [sp_pos_x e; sp_pos_y e; sp_pos_z e; sp_vel_x e; sp_vel_y e; sp_vel_z e] ∧
      0 ≤ sp_flags e ≤ 2 ^ 32 - 1
  | EMove e => 0 ≤ mv_actor_id e ≤ 2 ^ 64 - 1 ∧ 0 ≤ mv_input_tick e ≤ 2 ^ 32 - 1 ∧
      Forall (λ z, - 2 ^ 15 ≤ z ≤ 2 ^ 15 - 1) [mv_move_x e; mv_move_y e; mv_move_z e] ∧
      0 ≤ mv_flags e ≤ 2 ^ 8 - 1
  | EDespawn e => 0 ≤ ds_actor_id e ≤ 2 ^ 64 - 1
  end.

Lemma event_fits_ranges e : event_fits e = true ↔ event_ranges e.
Proof.
  destruct e as [e|e|e]; unfold event_fits, event_ranges, fits, spawn_vals, move_vals;
    cbn -[in_u in_s Z.pow];
    rewrite !andb_true_iff, ?Forall_cons, !in_u_iff, ?in_s_iff;
    change (pow256 8) with (2 ^ 64); change (pow256 4) with (2 ^ 32); change (pow256 2) with (2 ^ 16);
    change (pow256 1) with (2 ^ 8); change (2 ^ 64 / 2) with (2 ^ 63); change (2 ^ 16 / 2) with (2 ^ 15).
  - rewrite Forall_nil. tauto.
  - rewrite Forall_nil. tauto.
  - tauto.
Qed.

Lemma parse_event_fits tokens p : parse_event tokens = Ok p → pair_fits p = true.
Proof.
  unfold parse_event, parse_i64, parse_i16. intros Hp. inv_result.
  apply parse_int_range in Hx0, Hx1. unfold pair_fits.
  repeat destruct (bool_decide (_ = str _)); inv_result;
    repeat match goal with H : parse_int _ _ _ _ = Ok _ |- _ => apply parse_int_range in H end;
    cbn [fst snd]; rewrite !andb_true_iff, Z.leb_le, Z.ltb_lt, event_fits_ranges; cbn;
    rewrite ?Forall_cons, ?Forall_nil; repeat split; lia.
Qed.

(** ** The text round trip *)

Definition event_words (p : Z * Event) : list pystr :=
  match snd p with
  | ESpawn e => [int_text (fst p); str "SPAWN"; int_text (sp_actor_id e);
                 int_text (sp_pos_x e); int_text (sp_pos_y e); int_text (sp_pos_z e);
                 int_text (sp_vel_x e); int_text (sp_vel_y e); int_text (sp_vel_z e);
                 int_text (sp_flags e)]
  | EMove e => [int_text (fst p); str "MOVE"; int_text (mv_actor_id e); int_text (mv_input_tick e);
                int_text (mv_move_x e); int_text (mv_move_y e); int_text (mv_move_z e);
                int_text (mv_flags e)]
  | EDespawn e => [int_text (fst p); str "DESPAWN"; int_text (ds_actor_id e)]
  end.

(** The line a text record has for an event. *)
Definition event_line (p : Z * Event) : pystr := join_space (event_words p).

Lemma int_text_word z : is_word (int_text z) = true.
Proof.
  unfold is_word, int_text. rewrite andb_true_iff, negb_true_iff, bool_decide_eq_false. split.
  - intros [_ E]%app_eq_nil. apply fmap_nil_inv in E. by apply digits_nonempty in E.
  - rewrite forallb_app. apply andb_true_iff. split; [by destruct (_ <? _)|].
    apply forallb_forall. intros c Hc. apply list_elem_of_In, list_elem_of_fmap in Hc as (d & -> & Hd).
    pose proof (digits_ok (Z.abs z) ltac:(lia)) as Hok. rewrite Forall_forall in Hok.
    specialize (Hok d Hd). unfold digit_ok, is_word_char, digit_char in *. lia.
Qed.

Lemma event_words_word p : forallb is_word (event_words p) = true.
Proof. destruct p as [t [e|e|e]]; cbn [event_words fst snd forallb]; by rewrite !int_text_word. Qed.

Lemma parse_int_text z what lo hi :
  lo ≤ z ≤ hi → - 10 ^ 29 ≤ lo → hi ≤ 10 ^ 29 → parse_int (int_text z) what lo hi = Ok z.
Proof.
  intros Hz Hlo Hhi. unfold parse_int. rewrite py_int_text by lia.
  replace ((z <? lo) || (hi <? z)) with false by lia. done.
Qed.

Lemma parse_event_words p : pair_fits p = true → parse_event (event_words p) = Ok p.
Proof.
  destruct p as [t e]. unfold pair_fits. rewrite !andb_true_iff, Z.leb_le, Z.ltb_lt, event_fits_ranges.
  cbn [fst snd]. intros [[Ht1 Ht2] He].
  assert (∀ what, parse_int (int_text t) what 0 (2 ^ 63 - 1) = Ok t) as Ht
    by (intros; apply parse_int_text; lia).
  assert (∀ z what, 0 ≤ z ≤ 2 ^ 64 - 1 → parse_int (int_text z) what 0 (2 ^ 64 - 1) = Ok z) as H64
    by (intros; apply parse_int_text; lia).
  assert (∀ z what, 0 ≤ z ≤ 2 ^ 32 - 1 → parse_int (int_text z) what 0 (2 ^ 32 - 1) = Ok z) as H32
    by (intros; apply parse_int_text; lia).
  assert (∀ z what, 0 ≤ z ≤ 2 ^ 8 - 1 → parse_int (int_text z) what 0 (2 ^ 8 - 1) = Ok z) as H8
    by (intros; apply parse_int_text; lia).
  assert (∀ z what, - 2 ^ 63 ≤ z ≤ 2 ^ 63 - 1 → parse_i64 (int_text z) what = Ok z) as Hi64
    by (intros; apply parse_int_text; lia).
  assert (∀ z what, - 2 ^ 15 ≤ z ≤ 2 ^ 15 - 1 → parse_i16 (int_text z) what = Ok z) as Hi16
    by (intros; apply parse_int_text; lia).
  unfold parse_event. destruct e as [e|e|e]; cbn [event_ranges] in He;
    cbn [event_words fst snd length token nth]; rewrite Ht.
  - destruct He as (Ha & Hp & Hf). rewrite !Forall_cons in Hp.
    rewrite H64, H32, !Hi64 by tauto. by destruct e.
  - destruct He as (Ha & Hi & Hp & Hf). rewrite !Forall_cons in Hp.
    rewrite H64, H32, H8, !Hi16 by tauto. by destruct e.
  - rewrite H64 by done. by destruct e.
Qed.

Lemma skip_event_line p : 0 ≤ fst p → skip_line (event_line p) = false.
Proof.
  intros Hp. assert (∃ rest, event_line p = int_text (fst p) ++ rest) as [rest ->].
  { destruct p as [t [e|e|e]]; by eexists. }
  unfold int_text. replace (fst p <? 0) with false by lia. cbn [app].
  destruct (digit_char <$> digits (Z.abs (fst p))) as [|c s] eqn:E.
  { apply fmap_nil_inv in E. by apply digits_nonempty in E. }
  pose proof (digit_char_is_digit _ (digits_ok (Z.abs (fst p)) ltac:(lia))) as Hd.
  rewrite E in Hd. apply Forall_cons in Hd as [Hd _]. unfold is_digit in Hd. cbn. lia.
Qed.

Lemma event_line_words p :
  strip (event_line p) = event_line p ∧ split (event_line p) = event_words p.
Proof.
  pose proof (event_words_word p). unfold event_line. by rewrite strip_join, split_join.
Qed.

Lemma parse_event_lines path n pairs :
  forallb pair_fits pairs = true → parse_lines path n (event_line <$> pairs) = Ok pairs.
Proof.
  revert n. induction pairs as [|p pairs IH]; intros n; [done|]. cbn [forallb].
  intros [Hp Hps]%andb_true_iff. cbn [fmap list_fmap parse_lines].
  destruct (event_line_words p) as [-> ->]. rewrite skip_event_line, parse_event_words; [|done|].
  2: { unfold pair_fits in Hp. bool_hyps. done. }
  cbn. change (list_fmap _ _ event_line pairs) with (event_line <$> pairs). by rewrite IH.
Qed.

(** A text record written one line per event parses back to the same ticks and
    events, for every event within its field widths. *)
Theorem text_record_roundtrip path pairs :
  forallb pair_fits pairs = true →
  parse_record path (Z_to_byte <$> unlines (event_line <$> pairs)) = Ok pairs.
Proof.
  intros Hp. assert (forallb (forallb line_char) (event_line <$> pairs) = true) as Hl.
  { apply forallb_forall. intros l Hl. apply list_elem_of_In, list_elem_of_fmap in Hl as (p & -> & _).
    apply join_space_chars, event_words_word. }
  unfold parse_record. rewrite read_text_unlines by done. cbn [mbind result_bind].
  rewrite splitlines_unlines by done. by apply parse_event_lines.
Qed.

(** ** What a text record yields *)

Lemma parse_lines_fits path n lines pairs :
  parse_lines path n lines = Ok pairs → forallb pair_fits pairs = true.
Proof.
  revert n pairs. induction lines as [|raw lines IH]; intros n pairs Hp; cbn [parse_lines] in Hp.
  { by inv_result. }
  destruct (skip_line (strip raw)); [by eapply IH|]. inv_result. cbn [forallb].
  unfold at_line in Hx. destruct (parse_event _) as [p|e] eqn:E; [|by destruct e].
  inv_result. rewrite (parse_event_fits _ _ E). by eapply IH.
Qed.

Lemma parse_event_error tokens e : parse_event tokens = Err e → ∃ msg, e = RecordError msg.
Proof.
  assert (∀ t what lo hi e, parse_int t what lo hi = Err e → ∃ msg, e = RecordError msg) as Hint.
  { intros t what lo hi e'. unfold parse_int. repeat case_match; intros [= <-]; eauto. }
  unfold parse_event, parse_i64, parse_i16. intros Hp.
  repeat match goal with
  | H : (_ ≫= _) = Err _ |- _ => apply bind_Err in H as [H|(? & _ & H)]
  | H : (if ?b then _ else _) = Err _ |- _ => destruct b
  | H : raise_if _ _ = Err _ |- _ => apply raise_if_Err in H as [_ <-]
  | H : parse_int _ _ _ _ = Err _ |- _ => by eapply Hint
  | H : Ok _ = Err _ |- _ => discriminate H
  end; inv_result; eauto.
Qed.

Lemma parse_lines_error path n lines e :
  parse_lines path n lines = Err e → ∃ k msg, n ≤ k < n + Z.of_nat (length lines) ∧
  e = RecordError ([Txt path; Lit ":"; Num k; Lit ": "] ++ msg).
Proof.
  revert n. induction lines as [|raw lines IH]; intros n Hp; cbn [parse_lines] in Hp; [done|].
  cbn [length].
  assert (parse_lines path (n + 1) lines = Err e → ∃ k msg, n ≤ k < n + Z.of_nat (S (length lines)) ∧
    e = RecordError ([Txt path; Lit ":"; Num k; Lit ": "] ++ msg)) as Hrest.
  { intros (k & msg & Hk & ->)%IH. exists k, msg. split; [lia|done]. }
  destruct (skip_line (strip raw)); [by apply Hrest|].
  apply bind_Err in Hp as [Hp|(p & _ & [Hp|(? & _ & [=])]%bind_Err)]; [|by apply Hrest].
  unfold at_line in Hp. destruct (parse_event _) as [p|e'] eqn:E; [done|].
  apply parse_event_error in E as [msg ->]. apply Err_inj in Hp as <-.
  exists n, msg. split; [lia|done].
Qed.

Lemma record_outcome path data :
  match parse_record path data with
  | Ok pairs => forallb pair_fits pairs = true
  | Err e => e = UnicodeDecodeError ∨
      ∃ k msg, 1 ≤ k ∧ e = RecordError ([Txt path; Lit ":"; Num k; Lit ": "] ++ msg)
  end.
Proof.
  unfold parse_record, read_text, decode_utf8. destruct (utf8_decode data) as [s|]; [|by left].
  cbn [fmap result_fmap mbind result_bind].
  destruct (parse_lines path 1 _) as [pairs|e] eqn:E.
  - by eapply parse_lines_fits.
  - apply parse_lines_error in E as (k & msg & ? & ->). right. exists k, msg. split; [lia|done].
Qed.

(** On arbitrary bytes the text parser either returns pairs whose fields all
    fit the binary format, or raises a RecordError naming the path and a line,
    or fails to decode UTF-8. *)
Theorem parse_record_outcome path data :
  match parse_record path data with
  | Ok pairs => forallb pair_fits pairs = true
  | Err e => e = UnicodeDecodeError ∨
      ∃ k msg, 1 ≤ k ∧ e = RecordError ([Txt path; Lit ":"; Num k; Lit ": "] ++ msg)
  end.
Proof. apply record_outcome. Qed.
