(* ===== verification/ActorStore.v ===== *)
(** * The actor store of the replay tool ([tools/replay.py])

    A dense array of actors with an id-to-slot map, the calls it makes on
    the simulation library, and the hash of the actor set. *)

From S2P Require Import Prelude PyStruct PyText PyFloat ReplayFormat ReplayCodec.

#[local] Open Scope Z_scope.

Definition KITH_ABI_VERSION : Z := 1.
Definition MAX_ACTORS : Z := Z.shiftl 1 16.
Definition FNV_OFFSET : Z := 0xCBF29CE484222325.
Definition FNV_PRIME : Z := 0x100000001B3.
Definition U64_MASK : Z := 0xFFFFFFFFFFFFFFFF.

(** ** The structures shared with the library *)

Definition SimParams_fields : fields :=
  [("size", c_uintN 4); ("abi_version", c_uintN 4); ("tick_hz", c_uintN 4);
   ("artifact_bucket_count", c_uintN 4); ("reserved", c_array c_void_p 8)]%string.

Definition SimConfig_fields : fields :=
  [("size", c_uintN 4); ("abi_version", c_uintN 4); ("base_speed", c_uintN 4);
   ("run_speed", c_uintN 4); ("accel", c_uintN 4); ("decel", c_uintN 4); ("move_eps", c_float);
   ("collision_radius", c_uintN 4); ("reserved", c_array c_void_p 8)]%string.

Definition SimActor_fields : fields :=
  [("id", c_uintN 8); ("pos_x", c_intN 8); ("pos_y", c_intN 8); ("pos_z", c_intN 8);
   ("vel_x", c_intN 8); ("vel_y", c_intN 8); ("vel_z", c_intN 8); ("input_tick", c_uintN 4);
   ("flags", c_uintN 4)]%string.

Definition SimInput_fields : fields :=
  [("input_tick", c_uintN 4); ("move_x", c_intN 2); ("move_y", c_intN 2); ("move_z", c_intN 2);
   ("flags", c_uintN 1)]%string.

(** The library's own layouts, as its generated bindings declare them. *)
Definition kith_sim_config_fields : fields :=
  [("size", c_uintN 4); ("abi_version", c_uintN 4); ("base_speed", c_uintN 4);
   ("run_speed", c_uintN 4); ("accel", c_uintN 4); ("decel", c_uintN 4); ("move_eps", c_float);
   ("collision_radius", c_uintN 4); ("reserved", c_array c_void_p 8)]%string.

Definition kith_sim_params_fields : fields :=
  [("size", c_uintN 4); ("abi_version", c_uintN 4); ("tick_hz", c_uintN 4);
   ("artifact_bucket_count", c_uintN 4); ("reserved", c_array c_void_p 8)]%string.

Definition kith_sim_actor_fields : fields :=
  [("id", c_uintN 8); ("pos_x", c_intN 8); ("pos_y", c_intN 8); ("pos_z", c_intN 8);
   ("vel_x", c_intN 8); ("vel_y", c_intN 8); ("vel_z", c_intN 8); ("input_tick", c_uintN 4);
   ("flags", c_uintN 4); ("update_seq", c_uintN 4)]%string.

Definition kith_sim_input_fields : fields :=
  [("input_tick", c_uintN 4); ("move_x", c_intN 2); ("move_y", c_intN 2); ("move_z", c_intN 2);
   ("flags", c_uintN 1)]%string.

(** Values of the structures. *)
Record SimActor := mkActor {
  ac_id : Z;
  ac_pos_x : Z; ac_pos_y : Z; ac_pos_z : Z;
  ac_vel_x : Z; ac_vel_y : Z; ac_vel_z : Z;
  ac_input_tick : Z;
  ac_flags : Z;
}.

Definition zero_actor : SimActor := mkActor 0 0 0 0 0 0 0 0 0.

Record SimInput := mkInput {
  in_input_tick : Z;
  in_move_x : Z; in_move_y : Z; in_move_z : Z;
  in_flags : Z;
}.

Record SimConfig := mkConfig {
  cfg_size : Z;
  cfg_abi_version : Z;
  cfg_base_speed : Z;
  cfg_run_speed : Z;
  cfg_accel : Z;
  cfg_decel : Z;
  cfg_move_eps : double;
  cfg_collision_radius : Z;
}.

(** ** The simulation library

    The functions of [libkith_sim] the tool calls.  A negative return code
    is an error; [mstate] is the state behind a model handle, and a call
    returns what it leaves in the memory it was given. *)
Class SimLib := {
  mstate : Type;
  kith_sim_create : Z * bool;
  kith_sim_create_model : pystr → option SimConfig → Z * option mstate;
  kith_sim_model_load_behavior : mstate → pystr → Z * mstate;
  kith_sim_model_apply_input : mstate → SimActor → SimInput → Z * (mstate * SimActor);
  kith_sim_model_step : mstate → list SimActor → Z → Z * (mstate * list SimActor);
}.

Definition check_rc (rc : Z) (what : string) : result Z :=
  if rc <? 0 then Err (KithSimError [Lit what; Lit " failed: kith error "; Num (- rc)]) else Ok rc.

(** ** The store *)

Record ActorStore := mkStore {
  st_buf : list SimActor;
  st_slot : gmap Z nat;
  st_live : nat;
}.

Definition ActorStore_init : ActorStore :=
  mkStore (replicate (Z.to_nat MAX_ACTORS) zero_actor) ∅ 0.

Definition spawn_node (event : SpawnEvent) : SimActor :=
  mkActor (c_uint 8 (sp_actor_id event)) (c_int 8 (sp_pos_x event)) (c_int 8 (sp_pos_y event))
    (c_int 8 (sp_pos_z event)) (c_int 8 (sp_vel_x event)) (c_int 8 (sp_vel_y event))
    (c_int 8 (sp_vel_z event)) 0 (c_uint 4 (sp_flags event)).

Definition spawn (event : SpawnEvent) : M ActorStore unit :=
  s ← get;
  guard (bool_decide (is_Some (st_slot s !! sp_actor_id event)))
    (RecordError [Lit "SPAWN: actor "; Num (sp_actor_id event); Lit " already exists"]);;
  guard (MAX_ACTORS <=? Z.of_nat (st_live s))
    (KithSimError [Lit "actor capacity "; Num MAX_ACTORS; Lit " exceeded"]);;
  let idx := st_live s in
  modify (λ s, mkStore (<[idx := spawn_node event]> (st_buf s))
                       (<[sp_actor_id event := idx]> (st_slot s)) (S (st_live s))).

(** [self.buf[idx]] *)
Definition buf_at (s : ActorStore) (idx : nat) : result SimActor :=
  match st_buf s !! idx with Some a => Ok a | None => Err IndexError end.

Definition despawn (event : DespawnEvent) : M ActorStore unit :=
  s ← get;
  match st_slot s !! ds_actor_id event with
  | None => mret ()
  | Some idx =>
      let slot := delete (ds_actor_id event) (st_slot s) in
      let last := (st_live s - 1)%nat in
      if decide (idx = last) then modify (λ s, mkStore (st_buf s) slot last) else
      moved ← lift (buf_at s last);
      modify (λ s, mkStore (<[idx := moved]> (st_buf s)) (<[ac_id moved := idx]> slot) last)
  end.

Definition sim_input (event : MoveEvent) : SimInput :=
  mkInput (c_uint 4 (mv_input_tick event)) (c_int 2 (mv_move_x event)) (c_int 2 (mv_move_y event))
    (c_int 2 (mv_move_z event)) (c_uint 1 (mv_flags event)).

(** ** The hash *)

Definition _fnv1a_update (hash_val : Z) (data : bytes) : Z :=
  foldl (λ h b, Z.land (Z.lxor h (byte_to_Z b) * FNV_PRIME) U64_MASK) hash_val data.

Definition _HASH_COUNT : fmt := [FQ].
Definition _HASH_NODE : fmt := [FQ; Fq; Fq; Fq; Fq; Fq; Fq; FI; FI].

Definition node_vals (aid : Z) (node : SimActor) : svals _HASH_NODE :=
  (aid, (ac_pos_x node, (ac_pos_y node, (ac_pos_z node, (ac_vel_x node, (ac_vel_y node,
    (ac_vel_z node, (ac_input_tick node, (ac_flags node, tt))))))))).

Fixpoint hash_nodes (s : ActorStore) (aids : list Z) (h : Z) : result Z :=
  match aids with
  | [] => Ok h
  | aid :: aids =>
      node ← buf_at s (default O (st_slot s !! aid));
      data ← pack _HASH_NODE (node_vals aid node);
      hash_nodes s aids (_fnv1a_update h data)
  end.

Definition hash (s : ActorStore) : result Z :=
  let ordered := sorted_by id (elements (dom (st_slot s))) in
  data ← pack _HASH_COUNT (Z.of_nat (length ordered), tt);
  h ← hash_nodes s ordered (_fnv1a_update FNV_OFFSET data);
  Ok (Z.land h U64_MASK).

Section WithLib.
Context `{SimLib}.

(** The store together with the model its methods are given. *)
Record sim_run := mkRun { rn_model : mstate; rn_store : ActorStore }.

Definition on_store {A} (m : M ActorStore A) : M sim_run A := λ r,
  let '(s, res) := m (rn_store r) in (mkRun (rn_model r) s, res).

Definition apply_move (event : MoveEvent) : M sim_run unit :=
  r ← get;
  match st_slot (rn_store r) !! mv_actor_id event with
  | None => raise (RecordError [Lit "MOVE: actor "; Num (mv_actor_id event); Lit " not spawned"])
  | Some idx =>
      node ← lift (buf_at (rn_store r) idx);
      let '(rc, (m, node)) := kith_sim_model_apply_input (rn_model r) node (sim_input event) in
      let s := rn_store r in
      modify (λ _, mkRun m (mkStore (<[idx := node]> (st_buf s)) (st_slot s) (st_live s)));;
      _ ← lift (check_rc rc "kith_sim_model_apply_input");
      mret ()
  end.

(** The library is taken to have the layout of [SimActor] that the tool
    declares; its own has one field more ([ToolTheorems.actor_layouts_differ]). *)
Definition store_step (dt_ms : Z) : M sim_run unit :=
  r ← get;
  let s := rn_store r in
  if decide (st_live s = 0%nat) then mret () else
  let '(rc, (m, nodes)) :=
    kith_sim_model_step (rn_model r) (take (st_live s) (st_buf s)) (c_uint 4 dt_ms) in
  modify (λ _, mkRun m (mkStore (nodes ++ drop (st_live s) (st_buf s)) (st_slot s) (st_live s)));;
  _ ← lift (check_rc rc "kith_sim_model_step");
  mret ().

Definition apply_event (event : Event) : M sim_run unit :=
  match event with
  | ESpawn e => on_store (spawn e)
  | EMove e => apply_move e
  | EDespawn e => on_store (despawn e)
  end.
End WithLib.
