(* ===== verification/ActorRefine.v ===== *)
(** * The actor store refines a finite map

    The dense array and the slot map implement a map from actor ids to
    actors: swap-removal, the array order and stale array contents are not
    observable, and the hash is a function of the map. *)

From S2P Require Import Prelude PyStruct PyText PyFloat ReplayFormat ReplayCodec ActorStore.

#[local] Open Scope Z_scope.

(** An actor whose fields are within their C types. *)
Definition actor_ok (a : SimActor) : bool := fits _HASH_NODE (node_vals (ac_id a) a).

(** What the tool relies on of the library: an input changes one actor and
    keeps its id; a step treats every actor by itself, keeps ids and leaves
    the model as it was. *)
Class SimLaws `{SimLib} := {
  step_rc : mstate → Z → Z;
  step_actor : mstate → Z → SimActor → SimActor;
  step_pointwise m acts dt :
    kith_sim_model_step m acts dt = (step_rc m dt, (m, step_actor m dt <$> acts));
  step_actor_id m dt a : ac_id (step_actor m dt a) = ac_id a;
  step_actor_ok m dt a : actor_ok a = true → actor_ok (step_actor m dt a) = true;
  apply_input_id m a i rc m' a' :
    kith_sim_model_apply_input m a i = (rc, (m', a')) → ac_id a' = ac_id a;
  apply_input_ok m a i rc m' a' :
    kith_sim_model_apply_input m a i = (rc, (m', a')) → actor_ok a = true → actor_ok a' = true;
}.

(** ** The abstract world *)

Section Spec.
Context `{SimLib}.

Record world := mkWorld { wd_model : mstate; wd_actors : gmap Z SimActor }.

Definition spec_event (e : Event) (w : world) : result world :=
  match e with
  | ESpawn e =>
      if decide (is_Some (wd_actors w !! sp_actor_id e)) then
        Err (RecordError [Lit "SPAWN: actor "; Num (sp_actor_id e); Lit " already exists"])
      else if MAX_ACTORS <=? Z.of_nat (size (wd_actors w)) then
        Err (KithSimError [Lit "actor capacity "; Num MAX_ACTORS; Lit " exceeded"])
      else Ok (mkWorld (wd_model w) (<[sp_actor_id e := spawn_node e]> (wd_actors w)))
  | EMove e =>
      match wd_actors w !! mv_actor_id e with
      | None => Err (RecordError [Lit "MOVE: actor "; Num (mv_actor_id e); Lit " not spawned"])
      | Some a =>
          let '(rc, (m, a)) := kith_sim_model_apply_input (wd_model w) a (sim_input e) in
          _ ← check_rc rc "kith_sim_model_apply_input";
          Ok (mkWorld m (<[mv_actor_id e := a]> (wd_actors w)))
      end
  | EDespawn e => Ok (mkWorld (wd_model w) (delete (ds_actor_id e) (wd_actors w)))
  end.

(** The hash of an actor set: its size, then the actors by ascending id. *)
Definition spec_hash (actors : gmap Z SimActor) : Z :=
  let ids := sorted_by id (elements (dom actors)) in
  let bytes_of {F} (v : svals F) := match pack F v with Ok bs => bs | Err _ => [] end in
  foldl (λ h a, _fnv1a_update h (bytes_of (F := _HASH_NODE)
                   (node_vals a (default zero_actor (actors !! a)))))
    (_fnv1a_update FNV_OFFSET (bytes_of (F := _HASH_COUNT) (Z.of_nat (size actors), tt))) ids.

Definition spec_step `{!SimLaws} (dt_ms : Z) (w : world) : result world :=
  if decide (wd_actors w = ∅) then Ok w else
  _ ← check_rc (step_rc (wd_model w) (c_uint 4 dt_ms)) "kith_sim_model_step";
  Ok (mkWorld (wd_model w) (step_actor (wd_model w) (c_uint 4 dt_ms) <$> wd_actors w)).
End Spec.

(** ** Lists of actors as maps *)

Definition actor_map (l : list SimActor) : gmap Z SimActor :=
  list_to_map ((λ a, (ac_id a, a)) <$> l).

Lemma actor_map_keys (l : list SimActor) : ((λ a, (ac_id a, a)) <$> l).*1 = ac_id <$> l.
Proof. rewrite <-list_fmap_compose. by apply list_fmap_ext. Qed.

Lemma actor_map_lookup l k a :
  NoDup (ac_id <$> l) → actor_map l !! k = Some a ↔ a ∈ l ∧ ac_id a = k.
Proof.
  intros Hnd. unfold actor_map. rewrite <-elem_of_list_to_map by by rewrite actor_map_keys.
  rewrite list_elem_of_fmap. split.
  - intros (x & [= -> ->] & Hx). done.
  - intros [Ha <-]. by exists a.
Qed.

Lemma actor_map_size l : NoDup (ac_id <$> l) → size (actor_map l) = length l.
Proof.
  intros Hnd. unfold actor_map. rewrite map_size_list_to_map by by rewrite actor_map_keys.
  by rewrite length_fmap.
Qed.

Lemma actor_map_perm l l' : NoDup (ac_id <$> l) → l ≡ₚ l' → actor_map l = actor_map l'.
Proof.
  intros Hnd Hp. apply list_to_map_proper; [by rewrite actor_map_keys|]. by rewrite Hp.
Qed.

Lemma actor_map_cons a l : actor_map (a :: l) = <[ac_id a := a]> (actor_map l).
Proof. done. Qed.

Lemma actor_map_None l k : actor_map l !! k = None ↔ k ∉ ac_id <$> l.
Proof. unfold actor_map. rewrite <-not_elem_of_list_to_map. by rewrite actor_map_keys. Qed.

Lemma actor_map_delete x l l' :
  NoDup (ac_id <$> l) → l ≡ₚ x :: l' → actor_map l' = delete (ac_id x) (actor_map l).
Proof.
  intros Hnd Hp. rewrite (actor_map_perm l (x :: l')), actor_map_cons by done.
  rewrite delete_insert_eq. symmetry. apply delete_id, actor_map_None.
  rewrite Hp in Hnd. cbn in Hnd. by apply NoDup_cons in Hnd as [? _].
Qed.

Lemma actor_map_fmap (f : SimActor → SimActor) l :
  (∀ a, ac_id (f a) = ac_id a) → actor_map (f <$> l) = f <$> actor_map l.
Proof.
  intros Hf. unfold actor_map. rewrite <-list_to_map_fmap. f_equal.
  rewrite <-!list_fmap_compose. apply list_fmap_ext. intros i a _. cbn. by rewrite Hf.
Qed.

Lemma list_delete_insert {A} (l : list A) i x : delete i (<[i := x]> l) = delete i l.
Proof. revert i. induction l as [|y l IH]; intros [|i]; cbn; [done..|]. f_equal. apply IH. Qed.

Lemma actor_map_insert l i a b :
  NoDup (ac_id <$> l) → l !! i = Some a → ac_id b = ac_id a →
  actor_map (<[i := b]> l) = <[ac_id a := b]> (actor_map l) ∧ NoDup (ac_id <$> <[i := b]> l).
Proof.
  intros Hnd Hi Hb.
  assert (ac_id <$> <[i := b]> l = ac_id <$> l) as Hids.
  { rewrite list_fmap_insert, Hb. apply list_insert_id. by rewrite list_lookup_fmap, Hi. }
  split; [|by rewrite Hids].
  pose proof (delete_Permutation _ _ _ Hi) as Hp.
  rewrite (actor_map_perm l (a :: delete i l)) by done. rewrite actor_map_cons.
  rewrite (actor_map_perm (<[i := b]> l) (b :: delete i l)); [|by rewrite Hids|].
  - rewrite actor_map_cons, Hb, insert_insert_eq. done.
  - assert (<[i := b]> l !! i = Some b) as Hib.
    { apply list_lookup_insert_eq. by eapply lookup_lt_Some. }
    rewrite (delete_Permutation _ _ _ Hib) at 1. by rewrite list_delete_insert.
Qed.

(** ** Slot maps *)

(** [m] tells every id's position in [ids]. *)
Definition indexes (m : gmap Z nat) (ids : list Z) : Prop :=
  ∀ k i, m !! k = Some i ↔ ids !! i = Some k.

Lemma indexes_NoDup m ids : indexes m ids → NoDup ids.
Proof. intros Hm. apply NoDup_alt. intros i j k Hi%Hm Hj%Hm. congruence. Qed.

Lemma indexes_None m ids k : indexes m ids → m !! k = None ↔ k ∉ ids.
Proof.
  intros Hm. rewrite list_elem_of_lookup, eq_None_not_Some. unfold is_Some.
  by setoid_rewrite (Hm k).
Qed.

Lemma indexes_dom m ids : indexes m ids → dom m = list_to_set ids.
Proof.
  intros Hm. apply set_eq. intros k. rewrite elem_of_list_to_set, list_elem_of_lookup.
  rewrite elem_of_dom. unfold is_Some. by setoid_rewrite (Hm k).
Qed.

Lemma indexes_snoc m ids k :
  indexes m ids → m !! k = None → indexes (<[k := length ids]> m) (ids ++ [k]).
Proof.
  intros Hm Hk k' i. rewrite lookup_insert_Some, lookup_app_Some, (Hm k' i), list_lookup_singleton_Some.
  apply (indexes_None _ _ _ Hm) in Hk. split.
  - intros [[-> <-]|[_ Hi]]; [right; lia|by left].
  - intros [Hi|(Hi & He & ->)]; [right|left; split; [done|lia]].
    split; [|done]. intros ->. apply Hk. by eapply list_elem_of_lookup_2.
Qed.

Lemma indexes_pop m ids k : indexes m (ids ++ [k]) → indexes (delete k m) ids.
Proof.
  intros Hm k' i. rewrite lookup_delete_Some, (Hm k' i). pose proof (indexes_NoDup _ _ Hm) as Hnd.
  apply NoDup_app in Hnd as (_ & Hk & _). rewrite lookup_app_Some, list_lookup_singleton_Some. split.
  - intros [Hne [Hi|(_ & _ & <-)]]; done.
  - intros Hi. split; [|by left]. intros <-. apply (Hk k); [by eapply list_elem_of_lookup_2|set_solver].
Qed.

(** Swap-removal: the last id takes the slot of the removed one. *)
Lemma indexes_swap m ids k l idx :
  indexes m (ids ++ [l]) → ids !! idx = Some k →
  indexes (<[l := idx]> (delete k m)) (<[idx := l]> ids).
Proof.
  intros Hm Hidx. pose proof (indexes_NoDup _ _ Hm) as Hnd.
  apply NoDup_app in Hnd as (Hnd & Hl & _).
  assert (idx < length ids)%nat by by eapply lookup_lt_Some.
  intros k' i. rewrite lookup_insert_Some, lookup_delete_Some, (Hm k' i).
  rewrite lookup_app_Some, list_lookup_singleton_Some, list_lookup_insert_Some. split.
  - intros [[<- <-]|(Hne & Hne' & [Hi|(_ & _ & ->)])]; [by left| |done].
    right. split; [|done]. intros ->. congruence.
  - intros [(-> & -> & _)|[Hne Hi]]; [by left|right].
    split; [intros ->; apply (Hl k'); [by eapply list_elem_of_lookup_2|set_solver]|].
    split; [intros ->; apply Hne; by eapply (NoDup_lookup ids)|by left].
Qed.

(** ** The representation invariant *)

(** The live actors, in array order. *)
Definition live_actors (s : ActorStore) : list SimActor := take (st_live s) (st_buf s).

Definition view (s : ActorStore) : gmap Z SimActor := actor_map (live_actors s).

Record store_inv (s : ActorStore) : Prop := {
  si_buf : Z.of_nat (length (st_buf s)) = MAX_ACTORS;
  si_live : Z.of_nat (st_live s) ≤ MAX_ACTORS;
  si_slot : indexes (st_slot s) (ac_id <$> live_actors s);
  si_ok : Forall (λ a, actor_ok a = true) (live_actors s);
}.

Lemma si_length s : store_inv s → length (live_actors s) = st_live s.
Proof. intros [Hb Hl _ _]. unfold live_actors. rewrite length_take. lia. Qed.

Lemma si_NoDup s : store_inv s → NoDup (ac_id <$> live_actors s).
Proof. intros [_ _ Hs _]. by eapply indexes_NoDup. Qed.

Lemma view_size s : store_inv s → size (view s) = st_live s.
Proof. intros Hs. unfold view. rewrite actor_map_size by by apply si_NoDup. by apply si_length. Qed.

Lemma view_slot s k i :
  store_inv s → st_slot s !! k = Some i →
  ∃ a, live_actors s !! i = Some a ∧ ac_id a = k ∧ st_buf s !! i = Some a ∧ view s !! k = Some a.
Proof.
  intros Hinv Hk. apply (si_slot _ Hinv) in Hk. rewrite list_lookup_fmap in Hk.
  apply fmap_Some in Hk as (a & Hi & ->). exists a. split; [done|]. split; [done|].
  unfold live_actors in Hi. apply lookup_take_Some in Hi as Hi'. destruct Hi' as [Hb Hlt].
  split; [done|]. apply actor_map_lookup; [by apply si_NoDup|]. split; [|done].
  by eapply list_elem_of_lookup_2.
Qed.

Lemma view_None s k : store_inv s → st_slot s !! k = None → view s !! k = None.
Proof.
  intros Hinv Hk. apply actor_map_None. by apply (indexes_None _ _ _ (si_slot _ Hinv)).
Qed.

Lemma view_dom s : store_inv s → dom (view s) = dom (st_slot s).
Proof.
  intros Hinv. apply set_eq. intros k. rewrite !elem_of_dom. destruct (st_slot s !! k) as [i|] eqn:E.
  - destruct (view_slot s k i Hinv E) as (a & _ & _ & _ & ->). split; eauto.
  - rewrite (view_None s k) by done. done.
Qed.

Lemma init_inv_store : store_inv ActorStore_init ∧ view ActorStore_init = ∅.
Proof.
  split; [|done]. constructor; unfold ActorStore_init; cbn [st_buf st_slot st_live].
  - rewrite length_replicate. by apply Z2Nat.id.
  - done.
  - intros k i. cbn. by rewrite lookup_empty.
  - constructor.
Qed.

(** ** Every operation simulates its map operation *)

(** What an operation leaves when it returns. *)
Definition simulates (s' : ActorStore) (m : gmap Z SimActor) : Prop := store_inv s' ∧ view s' = m.

Lemma take_insert_snoc {A} (l : list A) n x :
  (n < length l)%nat → take (S n) (<[n := x]> l) = take n l ++ [x].
Proof.
  intros Hn. rewrite (take_S_r _ _ x) by by apply list_lookup_insert_eq.
  by rewrite take_insert_ge.
Qed.

Lemma spawn_node_ok e : actor_ok (spawn_node e) = true.
Proof.
  unfold actor_ok, spawn_node, node_vals, fits. cbn -[in_u in_s c_uint c_int].
  rewrite !c_uint_range, !c_int_range by lia. done.
Qed.

Lemma spawn_simulates s e :
  store_inv s → in_u 8 (sp_actor_id e) = true →
  match spawn e s with
  | (s', Ok _) => view s !! sp_actor_id e = None ∧ Z.of_nat (size (view s)) < MAX_ACTORS ∧
      simulates s' (<[sp_actor_id e := spawn_node e]> (view s))
  | (s', Err x) => s' = s ∧
      ((is_Some (view s !! sp_actor_id e) ∧
        x = RecordError [Lit "SPAWN: actor "; Num (sp_actor_id e); Lit " already exists"]) ∨
       (view s !! sp_actor_id e = None ∧ MAX_ACTORS ≤ Z.of_nat (size (view s)) ∧
        x = KithSimError [Lit "actor capacity "; Num MAX_ACTORS; Lit " exceeded"]))
  end.
Proof.
  intros Hinv Hid. unfold spawn, get, guard, lift, modify, mbind, M_bind.
  destruct (st_slot s !! sp_actor_id e) as [i|] eqn:Ek.
  { rewrite bool_decide_eq_true_2 by eauto. cbn. split; [done|]. left.
    destruct (view_slot s _ _ Hinv Ek) as (a & _ & _ & _ & ->). eauto. }
  rewrite bool_decide_eq_false_2 by by intros [? [=]]. cbn [raise_if].
  pose proof (view_None s _ Hinv Ek) as Hv. rewrite (view_size s Hinv).
  destruct (Z.leb_spec MAX_ACTORS (Z.of_nat (st_live s))) as [Hm|Hm]; cbn [raise_if].
  { split; [done|]. right. done. }
  split; [done|]. split; [done|]. pose proof Hinv as [Hb Hl Hs Hok].
  pose proof (si_length s Hinv) as Hlen. set (s' := mkStore _ _ _).
  assert (live_actors s' = live_actors s ++ [spawn_node e]) as Hlive.
  { unfold live_actors, s'. cbn. apply take_insert_snoc. lia. }
  assert (ac_id (spawn_node e) = sp_actor_id e) as Hnode by by apply c_uint_id.
  split; [constructor|].
  - subst s'. cbn. by rewrite length_insert.
  - subst s'. cbn. lia.
  - rewrite Hlive, fmap_app. cbn [fmap list_fmap]. rewrite Hnode. subst s'. cbn.
    replace (st_live s) with (length (ac_id <$> live_actors s)) by (rewrite length_fmap; lia).
    by apply indexes_snoc.
  - rewrite Hlive. apply Forall_app. split; [done|]. constructor; [apply spawn_node_ok|constructor].
  - unfold view. rewrite Hlive, (actor_map_perm _ (spawn_node e :: live_actors s)).
    + by rewrite actor_map_cons, Hnode.
    + rewrite fmap_app. cbn [fmap list_fmap]. rewrite Hnode.
      eapply indexes_NoDup, indexes_snoc; [exact Hs|done].
    + symmetry. apply Permutation_cons_append.
Qed.

(** The live actors end with the one at the last slot. *)
Lemma live_last s n : store_inv s → st_live s = S n →
  ∃ x, st_buf s !! n = Some x ∧ live_actors s = take n (st_buf s) ++ [x].
Proof.
  intros [Hb Hl _ _] Hn. destruct (lookup_lt_is_Some_2 (st_buf s) n) as [x Hx]; [lia|].
  exists x. split; [done|]. unfold live_actors. rewrite Hn. by apply take_S_r.
Qed.

Lemma despawn_simulates s e :
  store_inv s → match despawn e s with
  | (s', Ok _) => simulates s' (delete (ds_actor_id e) (view s))
  | (_, Err _) => False
  end.
Proof.
  intros Hinv. unfold despawn, get, lift, modify, mbind, M_bind.
  destruct (st_slot s !! ds_actor_id e) as [idx|] eqn:Ek.
  2: { split; [done|]. symmetry. apply delete_id. by apply view_None. }
  destruct (view_slot s _ _ Hinv Ek) as (a & Hi & Hid & Hb & _). rewrite <-Hid in Ek |- *.
  destruct (st_live s) as [|n] eqn:En.
  { apply lookup_lt_Some in Hi. rewrite si_length in Hi by done. lia. }
  replace (S n - 1)%nat with n by lia. destruct (live_last s n Hinv En) as (x & Hx & Hlive).
  pose proof Hinv as [HB HL HS HO]. pose proof (si_NoDup s Hinv) as Hnd.
  rewrite Hlive in HO. apply Forall_app in HO as [HO Hxo]. apply Forall_cons in Hxo as [Hxo _].
  assert (length (take n (st_buf s)) = n) as Hn by (rewrite length_take; lia).
  destruct (decide (idx = n)) as [->|Hne].
  - assert (x = a) as -> by congruence. split; [constructor|]; cbn; try done; try lia.
    + rewrite Hlive, fmap_app in HS. by apply indexes_pop in HS.
    + unfold view at 1. apply (actor_map_delete a (live_actors s)); [done|].
      rewrite Hlive. unfold live_actors. cbn. symmetry. apply Permutation_cons_append.
  - unfold buf_at. rewrite Hx. set (s' := mkStore _ _ _).
    assert (idx < n)%nat as Hlt.
    { apply lookup_lt_Some in Hi. rewrite si_length in Hi by done. lia. }
    assert (take n (st_buf s) !! idx = Some a) as Hia by by rewrite lookup_take_lt.
    assert (live_actors s' = <[idx := x]> (take n (st_buf s))) as Hlive'.
    { unfold live_actors, s'. cbn. by apply take_insert_lt. }
    split; [constructor|].
    + subst s'. cbn. by rewrite length_insert.
    + subst s'. cbn. lia.
    + rewrite Hlive', list_fmap_insert. subst s'. cbn. apply indexes_swap.
      * by rewrite Hlive, fmap_app in HS.
      * by rewrite list_lookup_fmap, Hia.
    + rewrite Hlive'. apply Forall_insert; [exact HO|exact Hxo].
    + unfold view. apply (actor_map_delete a (live_actors s)); [done|].
      rewrite Hlive, Hlive'. rewrite <-Permutation_cons_append.
      rewrite (delete_Permutation _ _ _ Hia) at 1.
      rewrite (delete_Permutation (<[idx := x]> (take n (st_buf s))) idx x).
      * rewrite list_delete_insert. apply Permutation_swap.
      * apply list_lookup_insert_eq. lia.
Qed.

(** Replacing a live actor by one of the same id. *)
Lemma update_simulates s k i a b :
  store_inv s → st_slot s !! k = Some i → st_buf s !! i = Some a → ac_id b = k → actor_ok b = true →
  simulates (mkStore (<[i := b]> (st_buf s)) (st_slot s) (st_live s)) (<[k := b]> (view s)).
Proof.
  intros Hinv Hk Ha Hb Hok. destruct (view_slot s k i Hinv Hk) as (a' & Hi & Hid & Ha' & _).
  assert (a' = a) as -> by congruence. pose proof Hinv as [HB HL HS HO].
  set (s' := mkStore _ _ _).
  assert (i < st_live s)%nat as Hlt.
  { apply lookup_lt_Some in Hi. by rewrite si_length in Hi. }
  assert (live_actors s' = <[i := b]> (live_actors s)) as Hlive.
  { unfold live_actors, s'. cbn. by apply take_insert_lt. }
  destruct (actor_map_insert (live_actors s) i a b) as [Hm Hnd]; [by apply si_NoDup|done|congruence|].
  split; [constructor|].
  - subst s'. cbn. by rewrite length_insert.
  - done.
  - rewrite Hlive, list_fmap_insert, Hb, list_insert_id; [done|].
    rewrite list_lookup_fmap, Hi. cbn. by rewrite Hid.
  - rewrite Hlive. by apply Forall_insert.
  - unfold view. rewrite Hlive, Hm. by rewrite Hid.
Qed.

Lemma hash_nodes_view s : store_inv s → ∀ ids h, (∀ k, k ∈ ids → k ∈ dom (view s)) →
  hash_nodes s ids h = Ok (foldl (λ h a, _fnv1a_update h
    match pack _HASH_NODE (node_vals a (default zero_actor (view s !! a))) with
    | Ok bs => bs | Err _ => [] end) h ids).
Proof.
  intros Hinv ids. induction ids as [|k ids IH]; intros h Hids; [done|]. cbn [hash_nodes foldl].
  assert (k ∈ dom (st_slot s)) as Hk by (rewrite <-view_dom by done; apply Hids; set_solver).
  apply elem_of_dom in Hk as [i Hi].
  destruct (view_slot s k i Hinv Hi) as (a & Hl & Hid & Hb & Hv).
  rewrite Hi, Hv. cbn [from_option]. unfold buf_at, id at 1. rewrite Hb. cbn [mbind result_bind].
  destruct (fits_pack _HASH_NODE (node_vals k a)) as [bs Hbs].
  { pose proof (si_ok _ Hinv) as Hok. rewrite Forall_forall in Hok. rewrite <-Hid.
    apply Hok. by eapply list_elem_of_lookup_2. }
  unfold id. rewrite Hbs. cbn [mbind result_bind]. apply IH. set_solver.
Qed.

Lemma fnv1a_range h bs : 0 ≤ h ≤ U64_MASK → 0 ≤ _fnv1a_update h bs ≤ U64_MASK.
Proof.
  unfold _fnv1a_update. revert h. induction bs as [|b bs IH]; intros h Hh; [done|]. cbn. apply IH.
  change U64_MASK with (Z.ones 64). rewrite Z.land_ones by lia.
  change (Z.ones 64) with (2 ^ 64 - 1).
  pose proof (Z.mod_pos_bound (Z.lxor h (byte_to_Z b) * FNV_PRIME) (2 ^ 64) ltac:(lia)). lia.
Qed.

Lemma foldl_fnv_range {A} (f : A → bytes) l h :
  0 ≤ h ≤ U64_MASK → 0 ≤ foldl (λ h a, _fnv1a_update h (f a)) h l ≤ U64_MASK.
Proof. revert h. induction l as [|x l IH]; intros h Hh; [done|]. cbn. by apply IH, fnv1a_range. Qed.

Lemma spec_hash_range actors : 0 ≤ spec_hash actors ≤ U64_MASK.
Proof. unfold spec_hash. apply foldl_fnv_range, fnv1a_range. unfold FNV_OFFSET, U64_MASK. lia. Qed.

Lemma land_mask h : 0 ≤ h ≤ U64_MASK → Z.land h U64_MASK = h.
Proof.
  intros Hh. change U64_MASK with (Z.ones 64). rewrite Z.land_ones by lia. apply Z.mod_small.
  change U64_MASK with (2 ^ 64 - 1) in Hh. lia.
Qed.

Lemma hash_view s : store_inv s → hash s = Ok (spec_hash (view s)).
Proof.
  intros Hinv. unfold hash. rewrite <-view_dom by done.
  assert (length (sorted_by id (elements (dom (view s)))) = size (view s)) as ->.
  { rewrite length_sorted_by. apply (size_dom (view s)). }
  pose proof (view_size s Hinv) as Hsz. pose proof (si_live s Hinv) as Hl.
  destruct (fits_pack _HASH_COUNT (Z.of_nat (size (view s)), tt)) as [bs Hbs].
  { unfold fits. cbn -[in_u]. rewrite andb_true_r. apply in_u_spec. change (pow256 8) with (2 ^ 64).
    change MAX_ACTORS with 65536 in Hl. lia. }
  rewrite Hbs. cbn [mbind result_bind]. rewrite hash_nodes_view by
    (first [done|intros k; by rewrite sorted_by_perm, elem_of_elements]).
  cbn [mbind result_bind]. f_equal. pose proof (spec_hash_range (view s)) as Hr.
  unfold spec_hash in *. rewrite Hbs in *. by apply land_mask.
Qed.

(** ** Simulation of the tool's event and step operations *)

Section Laws.
Context `{SimLib, !SimLaws}.

Record run_inv (r : sim_run) (w : world) : Prop := {
  ri_model : rn_model r = wd_model w;
  ri_store : store_inv (rn_store r);
  ri_view : view (rn_store r) = wd_actors w;
}.

(** A concrete outcome against an abstract one: the same error, or related
    states. *)
Definition agrees (out : sim_run * result unit) (spec : result world) : Prop :=
  match out, spec with
  | (r, Ok _), Ok w => run_inv r w
  | (_, Err e), Err e' => e = e'
  | _, _ => False
  end.

Lemma spawn_agrees e r w :
  run_inv r w → in_u 8 (sp_actor_id e) = true →
  agrees (apply_event (ESpawn e) r) (spec_event (ESpawn e) w).
Proof.
  intros [Hm Hs Hv] Hid. cbn [apply_event spec_event]. unfold on_store.
  pose proof (spawn_simulates (rn_store r) e Hs Hid) as Hsp.
  destruct (spawn e (rn_store r)) as [s' [u|x]]; rewrite Hv in Hsp.
  - destruct Hsp as (Hn & Hsz & Hinv & Hview). rewrite Hn.
    rewrite decide_False by by intros [? [=]]. replace (MAX_ACTORS <=? _) with false by lia.
    by constructor.
  - destruct Hsp as (-> & [[Hk ->]|(Hn & Hsz & ->)]).
    + by rewrite decide_True.
    + rewrite Hn, decide_False by by intros [? [=]]. by replace (MAX_ACTORS <=? _) with true by lia.
Qed.

Lemma despawn_agrees e r w :
  run_inv r w → agrees (apply_event (EDespawn e) r) (spec_event (EDespawn e) w).
Proof.
  intros [Hm Hs Hv]. cbn [apply_event spec_event]. unfold on_store.
  pose proof (despawn_simulates (rn_store r) e Hs) as Hsp.
  destruct (despawn e (rn_store r)) as [s' [u|x]]; [|done]. destruct Hsp as [Hinv Hview].
  rewrite Hv in Hview. by constructor.
Qed.

Lemma move_agrees e r w :
  run_inv r w → agrees (apply_event (EMove e) r) (spec_event (EMove e) w).
Proof.
  intros [Hm Hs Hv]. cbn [apply_event spec_event]. unfold apply_move, get, raise, lift, modify, mbind, M_bind.
  rewrite <-Hv. destruct (st_slot (rn_store r) !! mv_actor_id e) as [i|] eqn:Ek.
  2: { by rewrite (view_None _ _ Hs Ek). }
  destruct (view_slot _ _ _ Hs Ek) as (a & Hi & Hid & Hb & ->). unfold buf_at. rewrite Hb, <-Hm.
  destruct (kith_sim_model_apply_input (rn_model r) a (sim_input e)) as [rc [m a']] eqn:Ea.
  unfold check_rc. destruct (rc <? 0); [done|]. cbn.
  destruct (update_simulates (rn_store r) _ _ a a' Hs Ek Hb) as [Hinv Hview].
  - rewrite <-Hid. by eapply apply_input_id.
  - eapply apply_input_ok; [done|]. pose proof (si_ok _ Hs) as Hok. rewrite Forall_forall in Hok.
    apply Hok. by eapply list_elem_of_lookup_2.
  - by constructor.
Qed.

Lemma event_agrees e r w :
  run_inv r w → event_fits e = true → agrees (apply_event e r) (spec_event e w).
Proof.
  destruct e as [e|e|e]; auto using despawn_agrees, move_agrees. intros Hr Hf.
  apply spawn_agrees; [done|]. unfold event_fits, fits in Hf. cbn -[in_u in_s] in Hf. by bool_hyps.
Qed.

Lemma view_empty s : store_inv s → view s = ∅ ↔ st_live s = 0%nat.
Proof. intros Hs. rewrite <-(view_size s Hs). symmetry. apply map_size_empty_iff. Qed.

Lemma step_agrees dt r w : run_inv r w → agrees (store_step dt r) (spec_step dt w).
Proof.
  intros [Hm Hs Hv]. unfold store_step, spec_step, get, modify, lift, mbind, M_bind.
  pose proof (view_empty _ Hs) as He. rewrite Hv in He.
  destruct (decide (st_live (rn_store r) = 0%nat)) as [Hz|Hz].
  { rewrite decide_True by tauto. by constructor. }
  rewrite decide_False by tauto. rewrite step_pointwise, Hm. unfold check_rc.
  destruct (_ <? 0); [done|]. cbn. set (f := step_actor _ _). set (s' := mkStore _ _ _).
  pose proof Hs as [HB HL HS HO]. pose proof (si_length _ Hs) as Hlen.
  assert (live_actors s' = f <$> live_actors (rn_store r)) as Hlive.
  { unfold live_actors, s'. cbn. apply take_app_length'. rewrite length_fmap. symmetry. exact Hlen. }
  assert (ac_id <$> (f <$> live_actors (rn_store r)) = ac_id <$> live_actors (rn_store r)) as Hids.
  { rewrite <-list_fmap_compose. apply list_fmap_ext. intros i a _. apply step_actor_id. }
  constructor; cbn [rn_model rn_store wd_model wd_actors]; [done| |].
  - constructor.
    + subst s'. cbn. rewrite length_app, length_fmap, length_drop. unfold live_actors in Hlen. lia.
    + done.
    + rewrite Hlive, Hids. done.
    + rewrite Hlive. apply Forall_fmap. eapply Forall_impl; [exact HO|]. intros a. apply step_actor_ok.
  - unfold view. rewrite Hlive, actor_map_fmap by (intros; apply step_actor_id).
    by rewrite <-Hv.
Qed.
End Laws.
