(* ===== verification/ReplayTool.v ===== *)
(** * The replay tool ([tools/replay.py])

    The tick loop that replays a record on the simulation library, the
    comparison of emitted hashes with expectations, and the four modes with
    their exit codes. *)

From S2P Require Import Prelude PyStruct PyText PyFloat Json PyJson.
From S2P Require Import ReplayFormat ReplayCodec ReplayText ActorStore.

#[local] Open Scope Z_scope.

Definition DEFAULT_TICK_HZ : Z := 20.
Definition MAX_REPORTED_MISSING : nat := 8.

Inductive command := Play | Verify | Diff | Transcode.

#[global] Instance command_eq_dec : EqDecision command.
Proof. solve_decision. Defined.

Definition _COMMANDS : list pystr := [str "play"; str "verify"; str "diff"; str "transcode"].

(** The parsed arguments; an option a mode does not declare is [None] or the
    default that mode's code assumes. *)
Record args := mkArgs {
  a_command : command;
  a_input : pystr;
  a_input_b : pystr;
  a_output : pystr;
  a_model : pystr;
  a_lib : option pystr;
  a_tick_hz : option Z;
  a_ticks : option Z;
  a_hash_every : Z;
  a_behavior : option pystr;
  a_base_speed : Z;
  a_run_speed : Z;
  a_accel : Z;
  a_decel : Z;
  a_move_eps : option double;
  a_collision_radius : option Z;
  a_expect_hash : option pystr;
  a_expect_file : option pystr;
  a_expectations_from : option pystr;
  a_quiet : bool;
}.

(** [if args.x:] for an optional string: [None] and [""] are false. *)
Definition truthy (o : option pystr) : option pystr :=
  match o with Some [] | None => None | Some s => Some s end.

(** ** Effects

    Lines printed, files written, and library handles created and destroyed,
    in order. *)

Inductive line :=
  | Out (l : fstr)
  | OutDifference (d : difference)
  | ErrOut (l : fstr).

Inductive handle_call := SimCreated | SimDestroyed | ModelCreated | ModelDestroyed.

Record tool := mkTool {
  tl_lines : list line;
  tl_written : list (pystr * bytes);
  tl_handles : list handle_call;
}.

Definition print (l : line) : M tool unit :=
  modify (λ t, mkTool (tl_lines t ++ [l]) (tl_written t) (tl_handles t)).
Definition log_handle (h : handle_call) : M tool unit :=
  modify (λ t, mkTool (tl_lines t) (tl_written t) (tl_handles t ++ [h])).
Definition write_file (path : pystr) (data : bytes) : M tool unit :=
  modify (λ t, mkTool (tl_lines t) (tl_written t ++ [(path, data)]) (tl_handles t)).

(** [try: body finally: cleanup], for a cleanup that does not raise. *)
Definition try_finally {S A} (body : M S A) (cleanup : M S unit) : M S A := λ s,
  let '(s, r) := body s in (fst (cleanup s), r).

(** ** Configuration *)

Definition build_config (a : args) : option SimConfig :=
  if negb (a_base_speed a =? 0) || negb (a_run_speed a =? 0) || negb (a_accel a =? 0) ||
     negb (a_decel a =? 0) || bool_decide (is_Some (a_collision_radius a)) ||
     bool_decide (is_Some (a_move_eps a))
  then Some (mkConfig (c_uint 4 (sizeof SimConfig_fields)) (c_uint 4 KITH_ABI_VERSION)
               (c_uint 4 (a_base_speed a)) (c_uint 4 (a_run_speed a)) (c_uint 4 (a_accel a))
               (c_uint 4 (a_decel a)) (c_float_of (default (DFin false 0 EMIN) (a_move_eps a)))
               (c_uint 4 (default 0 (a_collision_radius a))))
  else None.

Definition resolve_tick_hz (a : args) (document : option (ReplayHeader)) : Z :=
  match a_tick_hz a, document with
  | Some hz, _ => hz
  | None, Some header => hd_tick_hz header
  | None, None => DEFAULT_TICK_HZ
  end.

(** ** Comparing hashes *)

Definition print_hashes (hashes : list (Z * Z)) (quiet : bool) : M tool unit :=
  if quiet then mret () else
  for_each hashes (λ '(tick, h), print (Out [Lit "tick="; Num tick; Lit " hash="; Hex 16 h])).

(** The first loop of [compare_against_map]; [false] when it returns 1. *)
Fixpoint compare_emitted (hashes : list (Z * Z)) (expected : gmap Z Z) (require_coverage : bool)
    : M tool bool :=
  match hashes with
  | [] => mret true
  | (tick, h) :: hashes =>
      match expected !! tick with
      | None =>
          if require_coverage then
            print (ErrOut [Lit "error: no expected hash for tick "; Num tick]);; mret false
          else compare_emitted hashes expected require_coverage
      | Some want =>
          if h =? want then compare_emitted hashes expected require_coverage else
          print (ErrOut [Lit "error: tick "; Num tick; Lit " hash "; Hex 16 h;
                         Lit " != expected "; Hex 16 want]);;
          mret false
      end
  end.

Definition compare_against_map (hashes : list (Z * Z)) (expected : gmap Z Z)
    (require_coverage : bool) : M tool Z :=
  ok ← compare_emitted hashes expected require_coverage;
  if negb ok then mret 1 else
  let missing := sorted_by id (elements (dom expected ∖ list_to_set (fst <$> hashes))) in
  for_each (take MAX_REPORTED_MISSING missing) (λ tick,
    print (ErrOut [Lit "error: expected hash for tick "; Num tick;
                   Lit " was never emitted (check --hash-every)"]));;
  (if bool_decide (MAX_REPORTED_MISSING < length missing)%nat then
     print (ErrOut [Lit "error: "; Num (Z.of_nat (length missing) - Z.of_nat MAX_REPORTED_MISSING);
                    Lit " more expected ticks were never emitted"])
   else mret ());;
  mret (match missing with [] => 0 | _ => 1 end).

Definition _compare_final_hash (hashes : list (Z * Z)) (want : Z) : M tool Z :=
  match last hashes with
  | None =>
      print (ErrOut [Lit "error: no hashes emitted to compare (check --hash-every)"]);; mret 1
  | Some (_, got) =>
      if got =? want then mret 0 else
      print (ErrOut [Lit "error: final hash "; Hex 16 got; Lit " != expected "; Hex 16 want]);;
      mret 1
  end.

(** ** The replay loop *)

Section Replay.
Context `{SimLib}.

Definition create_sim : M tool unit :=
  let '(raw, handle) := kith_sim_create in
  rc ← lift (check_rc raw "kith_sim_create");
  guard (negb (rc =? 0) || negb handle)
    (KithSimError [Lit "kith_sim_create returned a null handle"]);;
  log_handle SimCreated.

Definition create_model (name : pystr) (cfg : option SimConfig) : M tool mstate :=
  let '(raw, handle) := kith_sim_create_model name cfg in
  rc ← lift (check_rc raw "kith_sim_create_model");
  match handle with
  | Some m => if rc =? 0 then log_handle ModelCreated;; mret m else
      raise (KithSimError [Lit "kith_sim_create_model("; ReprStr name; Lit ") returned a null handle"])
  | None =>
      raise (KithSimError [Lit "kith_sim_create_model("; ReprStr name; Lit ") returned a null handle"])
  end.

(** [while index < len(groups) and groups[index].tick == tick], on the groups
    from [index] on. *)
Fixpoint apply_groups (tick : Z) (groups : list TickRecord) : M sim_run (list TickRecord) :=
  match groups with
  | g :: groups' =>
      if tr_tick g =? tick then for_each (tr_events g) apply_event;; apply_groups tick groups'
      else mret groups
  | [] => mret []
  end.

(** [for tick in range(tick, tick + n)] *)
Fixpoint tick_loop (n : nat) (tick dt_ms hash_every : Z) (groups : list TickRecord)
    (hashes : list (Z * Z)) : M sim_run (list (Z * Z)) :=
  match n with
  | O => mret hashes
  | S n =>
      groups ← apply_groups tick groups;
      store_step dt_ms;;
      r ← get;
      hashes ← (if (0 <? hash_every) && (tick mod hash_every =? 0)
                then h ← lift (hash (rn_store r)); mret (hashes ++ [(tick, h)])
                else mret hashes);
      tick_loop n (tick + 1) dt_ms hash_every groups hashes
  end.

Definition tick_duration (tick_hz : Z) : result Z :=
  if tick_hz =? 0 then Err ZeroDivisionError else Ok ((1000 + tick_hz / 2) / tick_hz).

Definition tick_limit (a : args) (groups : list TickRecord) : Z :=
  match a_ticks a with
  | Some n => n
  | None => foldr Z.max (default 0 (tr_tick <$> head groups)) (tr_tick <$> groups) + 1
  end.

(** The part of [replay] that runs on the model. *)
Definition replay_model (groups : list TickRecord) (a : args) (tick_hz : Z) (m : mstate)
    : result (list (Z * Z)) :=
  m ← match a_behavior a with
      | Some path =>
          let '(rc, m) := kith_sim_model_load_behavior m path in
          _ ← check_rc rc "kith_sim_model_load_behavior"; Ok m
      | None => Ok m
      end;
  dt_ms ← tick_duration tick_hz;
  snd (tick_loop (Z.to_nat (tick_limit a groups)) 0 dt_ms (a_hash_every a) groups []
         (mkRun m ActorStore_init)).

Definition replay (groups : list TickRecord) (a : args) (tick_hz : Z) : M tool (list (Z * Z)) :=
  create_sim;;
  try_finally
    (let cfg := build_config a in
     model ← create_model (a_model a) cfg;
     try_finally (lift (replay_model groups a tick_hz model)) (log_handle ModelDestroyed))
    (log_handle SimDestroyed).
End Replay.

(** ** Files and modes *)

(** The environment the tool runs in: file contents, which paths exist as
    files, the [KITH_SIM_LIB] variable, and whether the loader finds the
    library by its base name. *)
Record environment := mkEnv {
  ev_files : gmap pystr bytes;
  ev_sim_lib : option pystr;
  ev_repo_root : pystr;
  ev_system_lib : bool;
}.

Definition LIB_BASENAME : pystr := str "libkith_sim.so.1".

Definition read_bytes (env : environment) (path : pystr) : result bytes :=
  match ev_files env !! path with Some data => Ok data | None => Err OSError end.

Definition is_file (env : environment) (path : pystr) : bool :=
  bool_decide (is_Some (ev_files env !! path)).

(** The build trees searched, in order. *)
Definition lib_candidates (root : pystr) : list pystr :=
  (λ dir, root ++ dir ++ LIB_BASENAME) <$>
  [str "/build/debug/"; str "/build/release/"; str "/cmake-build-debug/"; str "/cmake-build-release/"].

Definition find_sim_lib (env : environment) (explicit : option pystr) : result pystr :=
  match truthy explicit with
  | Some path =>
      if is_file env path then Ok path
      else Err (KithSimError [Lit "library not found: "; Txt path])
  | None =>
      match truthy (ev_sim_lib env) with
      | Some path =>
          if is_file env path then Ok path
          else Err (KithSimError [Lit "library not found: "; Txt path])
      | None =>
          match find (is_file env) (lib_candidates (ev_repo_root env)) with
          | Some cand => Ok cand
          | None => if ev_system_lib env then Ok LIB_BASENAME else Err OSError
          end
      end
  end.

Section Modes.
Context `{SimLib} (env : environment).

(** [load_record]: the groups, and the document of a binary record. *)
Definition load_record (path : pystr) : result (list TickRecord * option ReplayDocument) :=
  data ← read_bytes env path;
  if sniff_is_binary data then
    document ← read_document data path;
    Ok (doc_ticks document, Some document)
  else
    pairs ← parse_record path data;
    Ok (text_groups pairs, None).

Definition load_expectations (path : pystr) : result (gmap Z Z) :=
  data ← read_bytes env path;
  load_expect_file path data.

Definition expectation_map (a : args) (document : option ReplayDocument) : result (gmap Z Z) :=
  match truthy (a_expect_file a) with
  | Some path => load_expectations path
  | None =>
      match truthy (a_expect_hash a), document with
      | Some _, _ => Ok ∅
      | None, Some d => Ok (dict_of ex_tick ex_hash (doc_expected_hashes d))
      | None, None => Ok ∅
      end
  end.

(** The end of the play mode. *)
Definition finish_play (a : args) (hashes : list (Z * Z)) : M tool Z :=
  print_hashes hashes (a_quiet a);;
  match truthy (a_expect_file a), truthy (a_expect_hash a) with
  | Some path, _ =>
      expected ← lift (load_expectations path);
      compare_against_map hashes expected true
  | None, Some text =>
      want ← lift (int_or_raise 16 text);
      _compare_final_hash hashes want
  | None, None => mret 0
  end.

(** The end of the verify mode. *)
Definition finish_verify (a : args) (document : option ReplayDocument) (hashes : list (Z * Z))
    : M tool Z :=
  expected ← lift (expectation_map a document);
  if bool_decide (expected = ∅) && bool_decide (truthy (a_expect_hash a) = None) then
    print (ErrOut [Lit "error: verify found no expectations (embed EXPECTED_HASH records ";
                   Lit "or pass --expect-hash/--expect-file)"]);;
    mret 2
  else
    print_hashes hashes (a_quiet a);;
    match truthy (a_expect_hash a) with
    | Some text =>
        want ← lift (int_or_raise 16 text);
        _compare_final_hash hashes want
    | None => compare_against_map hashes expected true
    end.

Definition run_play_or_verify (a : args) : M tool Z :=
  if bool_decide (a_command a = Verify) && (a_hash_every a <=? 0) then
    print (ErrOut [Lit "error: verify requires a positive --hash-every to emit comparable hashes"]);;
    mret 2
  else
    '(groups, document) ← lift (load_record (a_input a));
    match groups with
    | [] => print (ErrOut [Lit "error: no events in "; Txt (a_input a)]);; mret 1
    | _ =>
        _ ← lift (find_sim_lib env (a_lib a));
        hashes ← replay groups a (resolve_tick_hz a (doc_header <$> document));
        if bool_decide (a_command a = Play) then finish_play a hashes
        else finish_verify a document hashes
    end.

Definition _text_document (groups : list TickRecord) : ReplayDocument :=
  mkDocument (mkHeader DEFAULT_TICK_HZ 0) None groups [] [].

Definition run_diff (a : args) : M tool Z :=
  '(left_groups, left_doc) ← lift (load_record (a_input a));
  '(right_groups, right_doc) ← lift (load_record (a_input_b a));
  let left := default (_text_document left_groups) left_doc in
  let right := default (_text_document right_groups) right_doc in
  match diff_documents left right with
  | [] =>
      (if a_quiet a then mret () else print (Out [Lit "records are logically identical"]));;
      mret 0
  | differences => for_each differences (λ d, print (OutDifference d));; mret 1
  end.

(** The document [run_transcode] builds. *)
Definition transcode_document (a : args) (groups : list TickRecord)
    (expected : gmap Z Z) : ReplayDocument :=
  mkDocument (mkHeader (default DEFAULT_TICK_HZ (a_tick_hz a)) 0) (Some [(str "model", JStr (a_model a))])
    groups ((λ '(t, h), mkExpected t h) <$> sorted_by fst (map_to_list expected)) [].

Definition run_transcode (a : args) : M tool Z :=
  data ← lift (read_bytes env (a_input a));
  if sniff_is_binary data then
    print (ErrOut [Lit "error: "; Txt (a_input a); Lit " is already binary"]);; mret 2
  else
    pairs ← lift (parse_record (a_input a) data);
    let groups := text_groups pairs in
    match groups with
    | [] => print (ErrOut [Lit "error: no events in "; Txt (a_input a)]);; mret 1
    | _ =>
        expected ← lift (match truthy (a_expectations_from a) with
                         | Some path => load_expectations path
                         | None => Ok ∅
                         end);
        let document := transcode_document a groups expected in
        encoded ← lift (encode_document document);
        write_file (a_output a) encoded;;
        (if a_quiet a then mret () else
           print (Out [Lit "wrote "; Txt (a_output a); Lit ": ";
                       Num (Z.of_nat (length (doc_ticks document))); Lit " ticks, ";
                       Num (Z.of_nat (length (doc_expected_hashes document))); Lit " expectations"]));;
        mret 0
    end.

(** The mode the parsed arguments select. *)
Definition run_mode (a : args) : M tool Z :=
  match a_command a with
  | Play | Verify => run_play_or_verify a
  | Diff => run_diff a
  | Transcode => run_transcode a
  end.

(** [main] on parsed arguments. *)
Definition main (a : args) : M tool Z := λ t,
  if match a_tick_hz a with Some hz => hz <=? 0 | None => false end then
    (print (ErrOut [Lit "error: --tick-hz must be positive"]);; mret 2) t
  else if a_hash_every a <? 0 then
    (print (ErrOut [Lit "error: --hash-every must be non-negative"]);; mret 2) t
  else match run_mode a t with
  | (t, Err (KithSimError msg)) => (print (ErrOut (Lit "error: " :: msg));; mret 1) t
  | (t, Err (RecordError msg)) => (print (ErrOut (Lit "error: " :: msg));; mret 2) t
  | (t, Err (ReplayFormatError msg)) => (print (ErrOut (Lit "error: " :: msg));; mret 2) t
  | out => out
  end.
End Modes.

(** The mode inserted before the arguments are parsed. *)
Definition normalize_argv (argv : list pystr) : list pystr :=
  match tail argv with
  | [] => [str "play"; str "--help"]
  | first :: rest =>
      if bool_decide (first ∈ _COMMANDS) then first :: rest else str "play" :: first :: rest
  end.
