(* ===== verification/ToolTheorems.v ===== *)
(** * The replay tool's theorems

    The tick loop implements the abstract replay on the actor map, hash
    comparison is exact, handles are released on every path, transcoding
    preserves the record up to canonical order, and exit codes follow the
    documented contract.  Every computation of the tool either returns an exit
    code or raises one of a fixed set of exceptions: the rules compose such
    bounds along the monad, and show which exceptions [main] reports as an
    exit code and which it lets through. *)

From S2P Require Import Prelude Outcome PyStruct PyText PyFloat Json PyJson ReplayFormat ReplayCodec ReplayWriter ReplayDocument ReplayEncode ReplayText ActorStore ActorRefine ReplayTool.

#[local] Open Scope Z_scope.

(** ** The abstract replay *)

(** The events recorded for a tick. *)
Definition events_at (groups : list TickRecord) (tick : Z) : list Event :=
  filter (λ g, tr_tick g = tick) groups ≫= tr_events.

Section Spec.
Context `{SimLib}.

Fixpoint spec_events (es : list Event) (w : world) : result world :=
  match es with
  | [] => Ok w
  | e :: es => w ← spec_event e w; spec_events es w
  end.

(** Each tick: its events, one step, and the hash when it is due. *)
Fixpoint spec_loop `{!SimLaws} (n : nat) (tick dt_ms hash_every : Z) (groups : list TickRecord)
    (w : world) : result (list (Z * Z)) :=
  match n with
  | O => Ok []
  | S n =>
      w ← spec_events (events_at groups tick) w;
      w ← spec_step dt_ms w;
      rest ← spec_loop n (tick + 1) dt_ms hash_every groups w;
      Ok ((if (0 <? hash_every) && (tick mod hash_every =? 0)
           then [(tick, spec_hash (wd_actors w))] else []) ++ rest)
  end.
End Spec.

(** Records as the tool loads them: ascending ticks, events within their
    field widths. *)
Definition groups_ok (groups : list TickRecord) : bool :=
  strictly_ascending tr_tick groups && forallb (λ g, 0 <=? tr_tick g) groups &&
  forallb (λ g, forallb event_fits (tr_events g)) groups.

Lemma events_at_from groups tick t :
  t ≤ tick → events_at (filter (λ g, t ≤ tr_tick g) groups) tick = events_at groups tick.
Proof.
  intros Ht. unfold events_at. f_equal. rewrite list_filter_filter. apply list_filter_iff.
  intros g. lia.
Qed.

Section Loop.
Context `{SimLib, !SimLaws}.

Lemma events_agree es : ∀ r w,
  run_inv r w → forallb event_fits es = true →
  agrees (for_each es apply_event r) (spec_events es w).
Proof.
  induction es as [|e es IH]; intros r w Hr Hes; [done|]. cbn [forallb] in Hes.
  apply andb_true_iff in Hes as [He Hes]. cbn [for_each spec_events].
  pose proof (event_agrees e r w Hr He) as Ha. unfold mbind at 1, M_bind at 1.
  destruct (apply_event e r) as [r' [u|x]], (spec_event e w) as [w'|x']; try done. by apply IH.
Qed.

(** The group loop applies the tick's events and leaves the later groups. *)
Lemma apply_groups_agree tick groups r w :
  run_inv r w → strictly_ascending tr_tick groups = true →
  Forall (λ g, tick ≤ tr_tick g) groups →
  forallb (λ g, forallb event_fits (tr_events g)) groups = true →
  match apply_groups tick groups r, spec_events (events_at groups tick) w with
  | (r', Ok rest), Ok w' => run_inv r' w' ∧ rest = filter (λ g, tick + 1 ≤ tr_tick g) groups
  | (_, Err e), Err e' => e = e'
  | _, _ => False
  end.
Proof.
  intros Hr Hasc Hge Hfit. destruct groups as [|g groups]; [done|].
  apply strictly_ascending_cons in Hasc as [Hlt _]. apply Forall_cons in Hge as [Hg Hge].
  cbn [forallb] in Hfit. apply andb_true_iff in Hfit as [Hgf _].
  assert (Forall (λ g', tr_tick g < tr_tick g') groups) as Hlt'.
  { eapply Forall_impl; [exact Hlt|]. intros g' Hg'. unfold key_lt in Hg'.
    rewrite ltb_Z in Hg'. by apply Z.ltb_lt. }
  assert (∀ r, apply_groups tick groups r = (r, Ok groups)) as Hstop.
  { intros r'. destruct groups as [|g' groups]; [done|]. apply Forall_cons in Hlt' as [? _].
    cbn [apply_groups]. by replace (tr_tick g' =? tick) with false by lia. }
  assert (filter (λ g', tick + 1 ≤ tr_tick g') groups = groups) as Hrest.
  { apply filter_all. eapply Forall_impl; [exact Hlt'|]. cbn. lia. }
  assert (filter (λ g', tr_tick g' = tick) groups = []) as Hnone.
  { apply filter_none. eapply Forall_impl; [exact Hlt'|]. cbn. lia. }
  cbn [apply_groups]. unfold events_at. rewrite !filter_cons.
  destruct (Z.eqb_spec (tr_tick g) tick) as [Heq|Hne].
  - rewrite decide_True, (decide_False (P := tick + 1 ≤ _)) by lia. rewrite Hnone, Hrest.
    cbn [mbind list_bind]. rewrite app_nil_r.
    pose proof (events_agree (tr_events g) r w Hr Hgf) as Ha. unfold mbind at 1, M_bind at 1.
    destruct (for_each _ _ r) as [r' [u|x]], (spec_events _ w) as [w'|x']; try done.
    by rewrite Hstop.
  - rewrite decide_False, (decide_True (P := tick + 1 ≤ _)) by lia. rewrite Hnone, Hrest. done.
Qed.

Lemma filter_from_next (groups : list TickRecord) t :
  filter (λ g, t + 1 ≤ tr_tick g) (filter (λ g, t ≤ tr_tick g) groups)
  = filter (λ g, t + 1 ≤ tr_tick g) groups.
Proof. rewrite list_filter_filter. apply list_filter_iff. intros g. lia. Qed.

Lemma tick_loop_agrees n dt he G : ∀ tick acc r w,
  run_inv r w → groups_ok G = true →
  snd (tick_loop n tick dt he (filter (λ g, tick ≤ tr_tick g) G) acc r) =
  (rest ← spec_loop n tick dt he G w; Ok (acc ++ rest)).
Proof.
  induction n as [|n IH]; intros tick acc r w Hr Hok.
  { cbn. by rewrite app_nil_r. }
  pose proof Hok as Hok'. unfold groups_ok in Hok'. apply andb_true_iff in Hok' as [[Hasc _]%andb_true_iff Hfit].
  cbn [tick_loop spec_loop].
  assert (forallb (λ g, forallb event_fits (tr_events g)) (filter (λ g, tick ≤ tr_tick g) G) = true) as Hf.
  { apply forallb_forall. intros g Hin. rewrite forallb_forall in Hfit. apply Hfit.
    apply list_elem_of_In in Hin. apply list_elem_of_filter in Hin as [_ ?]. by apply list_elem_of_In. }
  pose proof (apply_groups_agree tick (filter (λ g, tick ≤ tr_tick g) G) r w Hr
    (strictly_ascending_filter _ _ _ Hasc)
    (proj2 (Forall_forall _ _) (λ g Hin, proj1 (proj1 (list_elem_of_filter _ _ _) Hin))) Hf) as Hg.
  rewrite events_at_from, filter_from_next in Hg by lia.
  rewrite bind_run.
  destruct (apply_groups _ _ r) as [r1 [rest|x]], (spec_events _ w) as [w1|x']; try done.
  2: { cbn. congruence. }
  destruct Hg as [Hr1 ->]. pose proof (step_agrees dt r1 w1 Hr1) as Hst.
  cbn [mbind result_bind]. rewrite bind_run.
  destruct (store_step dt r1) as [r2 [u|x]], (spec_step dt w1) as [w2|x']; try done.
  2: { cbn in *. congruence. }
  cbn in Hst. rewrite bind_get. cbn [mbind result_bind].
  destruct ((0 <? he) && (tick mod he =? 0)).
  - rewrite (hash_view _ (ri_store _ _ Hst)), (ri_view _ _ Hst), bind_run, bind_lift.
    unfold mret, M_ret.
    rewrite (IH (tick + 1) (acc ++ [(tick, spec_hash (wd_actors w2))]) r2 w2 Hst Hok).
    destruct (spec_loop n (tick + 1) dt he G w2); [|done]. cbn. by rewrite <-app_assoc.
  - rewrite bind_ret, (IH (tick + 1) acc r2 w2 Hst Hok).
    destruct (spec_loop n (tick + 1) dt he G w2); done.
Qed.

(** The abstract replay of a record on a fresh model. *)
Definition spec_replay (groups : list TickRecord) (a : args) (tick_hz : Z) (m : mstate)
    : result (list (Z * Z)) :=
  m ← match a_behavior a with
      | Some path =>
          let '(rc, m) := kith_sim_model_load_behavior m path in
          _ ← check_rc rc "kith_sim_model_load_behavior"; Ok m
      | None => Ok m
      end;
  dt_ms ← tick_duration tick_hz;
  spec_loop (Z.to_nat (tick_limit a groups)) 0 dt_ms (a_hash_every a) groups (mkWorld m ∅).

Lemma replay_model_spec groups a tick_hz m :
  groups_ok groups = true → replay_model groups a tick_hz m = spec_replay groups a tick_hz m.
Proof.
  intros Hok. unfold replay_model, spec_replay.
  destruct (match a_behavior a with Some _ => _ | None => _ end) as [m'|x]; [|done].
  cbn [mbind result_bind]. destruct (tick_duration tick_hz) as [dt|x]; [|done]. cbn [mbind result_bind].
  destruct init_inv_store as [Hinv Hview].
  assert (filter (λ g, 0 ≤ tr_tick g) groups = groups) as Hall.
  { apply filter_all, Forall_forall. intros g Hg. unfold groups_ok in Hok.
    apply andb_true_iff in Hok as [[_ Hnn]%andb_true_iff _].
    rewrite forallb_forall in Hnn. apply list_elem_of_In in Hg. specialize (Hnn g Hg). lia. }
  rewrite <-Hall at 2. rewrite (tick_loop_agrees _ _ _ _ _ _ _ (mkWorld m' ∅)); [|by constructor|done].
  by destruct (spec_loop _ _ _ _ _ _).
Qed.
End Loop.

(** ** Comparison with expectations *)

(** A computation that always returns [a]. *)
Definition returns {S A} (m : M S A) (a : A) : Prop := ∀ s, snd (m s) = Ok a.

Lemma returns_bind {S A B} (m : M S A) (k : A → M S B) a b :
  returns m a → returns (k a) b → returns (m ≫= k) b.
Proof.
  intros Hm Hk s. rewrite bind_run. specialize (Hm s). destruct (m s) as [s' r]. cbn in Hm. by subst.
Qed.

Lemma returns_print l : returns (print l) ().
Proof. done. Qed.

Lemma returns_for_each {S A} (l : list A) (f : A → M S unit) :
  (∀ x, returns (f x) ()) → returns (for_each l f) ().
Proof.
  intros Hf. induction l as [|x l IH]; [done|]. cbn [for_each]. eapply returns_bind; [apply Hf|done].
Qed.

(** The emitted hashes agree with the expectations. *)
Definition emitted_agree (hashes : list (Z * Z)) (expected : gmap Z Z) (require_coverage : bool) : Prop :=
  ∀ tick h, (tick, h) ∈ hashes →
  match expected !! tick with Some want => h = want | None => require_coverage = false end.

Lemma compare_emitted_exact hashes expected rc :
  ∃ b, returns (compare_emitted hashes expected rc) b ∧ (b = true ↔ emitted_agree hashes expected rc).
Proof.
  unfold emitted_agree. induction hashes as [|[tick h] hashes (b & IH & Hb)].
  { exists true. split; [done|]. set_solver. }
  cbn [compare_emitted]. destruct (expected !! tick) as [want|] eqn:E.
  - destruct (Z.eqb_spec h want) as [->|Hne].
    + exists b. split; [done|]. rewrite Hb. split; [|set_solver].
      intros Hall tick' h' [[= -> ->]|Hin]%elem_of_cons; [by rewrite E|by apply Hall].
    + exists false. split; [by eapply returns_bind|]. split; [done|].
      intros Hall. specialize (Hall tick h ltac:(set_solver)). rewrite E in Hall. done.
  - destruct rc.
    + exists false. split; [by eapply returns_bind|]. split; [done|].
      intros Hall. specialize (Hall tick h ltac:(set_solver)). by rewrite E in Hall.
    + exists b. split; [done|]. rewrite Hb. split; [|set_solver].
      intros Hall tick' h' [[= -> ->]|Hin]%elem_of_cons; [by rewrite E|by apply Hall].
Qed.

Lemma compare_exact hashes expected rc : ∃ status,
  returns (compare_against_map hashes expected rc) status ∧ (status = 0 ∨ status = 1) ∧
  (status = 0 ↔ emitted_agree hashes expected rc ∧ ∀ t, t ∈ dom expected → t ∈ fst <$> hashes).
Proof.
  destruct (compare_emitted_exact hashes expected rc) as (b & Hret & Hb).
  unfold compare_against_map. destruct b.
  - set (missing := sorted_by id (elements (dom expected ∖ list_to_set (fst <$> hashes)))).
    exists (match missing with [] => 0 | _ => 1 end). split; [|split].
    + eapply returns_bind; [exact Hret|]. cbn [negb]. eapply returns_bind.
      { by apply returns_for_each. }
      by eapply returns_bind; [destruct (bool_decide _); done|].
    + destruct missing; auto.
    + assert (missing = [] ↔ ∀ t, t ∈ dom expected → t ∈ fst <$> hashes) as Hm.
      { unfold missing. rewrite sorted_by_nil, elements_empty_iff, set_equiv.
        setoid_rewrite elem_of_difference. setoid_rewrite elem_of_list_to_set.
        split; [|set_solver]. intros Hall t Ht. destruct (decide (t ∈ fst <$> hashes)); set_solver. }
      destruct missing; [|split; [done|]].
      * split; [|done]. intros _. split; [by apply Hb|by apply Hm].
      * intros [_ Hall]. apply Hm in Hall. done.
  - exists 1. split; [by eapply returns_bind|]. split; [auto|]. split; [done|].
    intros [Ha _]. by apply Hb in Ha.
Qed.

(** Agreement of every emitted hash plus coverage of the expectations is
    equality of the two tables. *)
Lemma compare_covers (hashes : list (Z * Z)) (expected : gmap Z Z) :
  NoDup (fst <$> hashes) →
  emitted_agree hashes expected true ∧ (∀ t, t ∈ dom expected → t ∈ fst <$> hashes) ↔
  list_to_map hashes = expected.
Proof.
  intros Hnd. split.
  - intros [Hag Hdom]. apply map_eq. intros k. apply option_eq. intros h.
    rewrite <-elem_of_list_to_map by done. split.
    + intros Hin. specialize (Hag k h Hin). destruct (expected !! k); [by subst|done].
    + intros Hk. specialize (Hdom k). apply (elem_of_dom_2 expected) in Hk as Hd.
      apply Hdom, list_elem_of_fmap in Hd as ([k' h'] & -> & Hin).
      specialize (Hag _ _ Hin). cbn in *. rewrite Hk in Hag. by subst.
  - intros <-. split.
    + intros k h Hin. by rewrite (elem_of_list_to_map_1 _ _ h) by done.
    + intros k. rewrite dom_list_to_map, elem_of_list_to_set. done.
Qed.

(** With coverage required, comparing emitted hashes with expectations returns
    0 exactly when the two tables are equal and 1 otherwise. *)
Theorem compare_against_map_exact hashes expected t :
  NoDup (fst <$> hashes) →
  snd (compare_against_map hashes expected true t) =
  Ok (if decide (list_to_map hashes = expected) then 0 else 1).
Proof.
  intros Hnd. destruct (compare_exact hashes expected true) as (status & Hret & Hst & Hiff).
  rewrite (Hret t). f_equal. rewrite compare_covers in Hiff by done.
  case_decide as Hd; [by apply Hiff|]. destruct Hst as [Hs|]; [|done]. by destruct Hd; apply Hiff.
Qed.

(** ** Handles *)

(** A replay prints and writes nothing, and destroys what it created, model
    before simulation, on every path, errors included. *)
Theorem replay_releases_handles `{SimLib} groups a tick_hz t :
  let '(t', r) := replay groups a tick_hz t in
  tl_lines t' = tl_lines t ∧ tl_written t' = tl_written t ∧
  (tl_handles t' = tl_handles t ∧ is_ok r = false ∨
   tl_handles t' = tl_handles t ++ [SimCreated; SimDestroyed] ∧ is_ok r = false ∨
   tl_handles t' = tl_handles t ++ [SimCreated; ModelCreated; ModelDestroyed; SimDestroyed]).
Proof.
  unfold replay. rewrite bind_run. unfold create_sim at 1. destruct kith_sim_create as [raw handle].
  rewrite bind_lift. unfold check_rc. destruct (raw <? 0); [by auto|].
  unfold guard. rewrite bind_lift. destruct (raise_if _ _) as [u|x]; [|by auto].
  unfold log_handle at 1, modify at 1, try_finally at 1. rewrite bind_run. unfold create_model.
  destruct (kith_sim_create_model (a_model a) (build_config a)) as [raw' [m|]]; rewrite bind_lift;
    unfold check_rc; destruct (raw' <? 0); cbn; rewrite ?app_nil_r, <-?app_assoc; auto 6.
  destruct (raw' =? 0); [rewrite (bind_run (log_handle ModelCreated))|]; cbn; rewrite <-?app_assoc; auto 6.
Qed.

(** ** Loaded records *)

Lemma text_groups_ok pairs : forallb pair_fits pairs = true → groups_ok (text_groups pairs) = true.
Proof.
  intros Hp. rewrite forallb_forall in Hp. unfold groups_ok.
  destruct (text_groups_facts pairs) as (Hasc & Hticks & Hev). rewrite Hasc. cbn [andb].
  rewrite Forall_forall in Hev. apply andb_true_iff. split; apply forallb_forall; intros g Hg;
    apply list_elem_of_In in Hg.
  - assert (tr_tick g ∈ fst <$> pairs) as Hin by (apply Hticks; by apply list_elem_of_fmap_2).
    apply list_elem_of_fmap in Hin as (p & -> & Hpin). apply list_elem_of_In in Hpin.
    specialize (Hp p Hpin). unfold pair_fits in Hp. by bool_hyps; apply Z.leb_le.
  - rewrite (Hev g Hg). apply forallb_forall. intros e He.
    apply list_elem_of_In, list_elem_of_fmap in He as (p & -> & [_ Hpin]%list_elem_of_filter).
    apply list_elem_of_In in Hpin. specialize (Hp p Hpin). unfold pair_fits in Hp. by bool_hyps.
Qed.

Lemma document_groups_ok d : doc_lawful d = true → groups_ok (doc_ticks d) = true.
Proof.
  unfold doc_lawful. intros Hd. bool_hyps.
  match goal with Hc : content_lawful _ _ _ = true |- _ =>
    apply content_lawful_iff in Hc as ((Ht & Hasc) & _) end.
  unfold groups_ok. rewrite Hasc. cbn [andb]. rewrite forallb_forall in Ht.
  apply andb_true_iff. split; apply forallb_forall; intros g Hg; specialize (Ht g Hg);
    unfold tick_lawful in Ht; bool_hyps; [|done].
  match goal with Hu : in_u 8 _ = true |- _ => apply in_u_spec in Hu end. apply Z.leb_le. lia.
Qed.

(** ** The verdict of verify *)

Section Verdict.
Context `{SimLib, !SimLaws}.

Lemma spec_loop_ticks n dt he G : ∀ tick w hashes,
  spec_loop n tick dt he G w = Ok hashes →
  Forall (λ p, tick ≤ fst p) hashes ∧ NoDup (fst <$> hashes).
Proof.
  induction n as [|n IH]; intros tick w hashes Hl; cbn [spec_loop] in Hl.
  { inv_result. split; constructor. }
  inv_result. destruct (IH _ _ _ Hx1) as [Hge Hnd].
  assert (Forall (λ p, tick ≤ fst p) x1) as Hge'.
  { eapply Forall_impl; [exact Hge|]. cbn. lia. }
  destruct ((0 <? he) && (tick mod he =? 0)); [|done]. cbn. split.
  - constructor; [cbn; lia|done].
  - constructor; [|done]. intros (p & Hp & Hin)%list_elem_of_fmap. rewrite Forall_forall in Hge.
    specialize (Hge p Hin). cbn in Hp. lia.
Qed.

Lemma spec_replay_ticks groups a tick_hz m hashes :
  spec_replay groups a tick_hz m = Ok hashes → NoDup (fst <$> hashes).
Proof.
  unfold spec_replay. intros Hr. inv_result. by apply spec_loop_ticks in Hr as [_ ?].
Qed.

(** [replay] once the library has handed out its handles. *)
Lemma replay_run groups a tick_hz m t :
  groups_ok groups = true → kith_sim_create = (0, true) →
  kith_sim_create_model (a_model a) (build_config a) = (0, Some m) →
  snd (replay groups a tick_hz t) = spec_replay groups a tick_hz m.
Proof.
  intros Hok Hc Hm. unfold replay. rewrite bind_run. unfold create_sim at 1. rewrite Hc.
  unfold create_model. rewrite bind_lift. cbn -[replay_model spec_replay]. rewrite Hm.
  cbn -[replay_model spec_replay]. by apply replay_model_spec.
Qed.

Definition verify_expectations (d : ReplayDocument) : gmap Z Z :=
  dict_of ex_tick ex_hash (doc_expected_hashes d).

(** On a binary record with embedded expectations and a working library,
    verify exits 0 exactly when the table of hashes the abstract replay emits
    equals the table of expectations, exits 1 when the tables differ, and
    fails with the replay's own error otherwise. *)
Theorem verify_verdict env a t data d lib m :
  a_command a = Verify → 0 < a_hash_every a →
  truthy (a_expect_file a) = None → truthy (a_expect_hash a) = None →
  ev_files env !! a_input a = Some data → sniff_is_binary data = true →
  read_document data (a_input a) = Ok d → doc_ticks d ≠ [] → doc_expected_hashes d ≠ [] →
  find_sim_lib env (a_lib a) = Ok lib → kith_sim_create = (0, true) →
  kith_sim_create_model (a_model a) (build_config a) = (0, Some m) →
  snd (run_play_or_verify env a t) =
  match spec_replay (doc_ticks d) a (resolve_tick_hz a (Some (doc_header d))) m with
  | Ok hashes => Ok (if decide (list_to_map hashes = verify_expectations d) then 0 else 1)
  | Err e => Err e
  end.
Proof.
  intros Hcmd Hhe Hef Heh Hfile Hbin Hread Hne Hexp Hlib Hc Hm. unfold run_play_or_verify.
  rewrite Hcmd, bool_decide_eq_true_2 by done. replace (a_hash_every a <=? 0) with false by lia.
  cbn [andb]. rewrite bind_lift. unfold load_record, read_bytes. rewrite Hfile.
  cbn [mbind result_bind]. rewrite Hbin, Hread. cbn [mbind result_bind].
  assert (groups_ok (doc_ticks d) = true) as Hok by by apply document_groups_ok, (document_lawful data (a_input a)).
  destruct (doc_ticks d) as [|g gs] eqn:Eg; [done|]. rewrite <-Eg in Hok |- *. clear Hne Eg g gs.
  rewrite bind_lift, Hlib, bind_run. cbn [fmap option_fmap option_map].
  pose proof (replay_run (doc_ticks d) a (resolve_tick_hz a (Some (doc_header d))) m t Hok Hc Hm) as Hr.
  destruct (replay _ _ _ t) as [t1 r]. cbn [snd] in Hr. subst r.
  destruct (spec_replay _ _ _ m) as [hashes|e] eqn:Es; [|done].
  rewrite bool_decide_eq_false_2 by done. unfold finish_verify.
  rewrite bind_lift. unfold expectation_map. rewrite Hef, Heh. fold (verify_expectations d).
  assert (verify_expectations d ≠ ∅) as Hne.
  { unfold verify_expectations, dict_of. destruct (doc_expected_hashes d) as [|e es _] using rev_ind; [done|].
    rewrite foldl_app. cbn. apply insert_non_empty. }
  rewrite bool_decide_eq_false_2 by done. cbn [andb]. rewrite bind_run.
  assert (∀ s, snd (print_hashes hashes (a_quiet a) s) = Ok ()) as Hp.
  { unfold print_hashes. destruct (a_quiet a); [done|]. apply returns_for_each. by intros []. }
  specialize (Hp t1). destruct (print_hashes _ _ t1) as [t2 r2]. cbn in Hp. subst r2.
  destruct (compare_exact hashes (verify_expectations d) true) as (status & Hret & Hst & Hiff).
  rewrite Hret. f_equal.
rewrite compare_covers in Hiff by eauto using spec_replay_ticks.
  case_decide as Hd; [by apply Hiff|]. destruct Hst as [Hs|]; [|done]. by destruct Hd; apply Hiff.
Qed.
End Verdict.

(** ** Transcoding *)

Lemma run_ok pre cs : forallb call_ok cs = true → ∀ w s w', writer_inv pre w s →
  for_each cs run_call w = (w', Ok tt) → writer_inv pre w' (effects cs s).
Proof.
  induction cs as [|c cs IH]; intros Hok w s w' Hw Hr; [by injection Hr as <-|].
  apply andb_true_iff in Hok as [Hc Hok]. cbn [for_each] in Hr. rewrite bind_run in Hr.
  pose proof (call_outcome pre c w s Hc Hw) as Ho. unfold outcome in Ho.
  destruct (run_call c w) as [w1 [[]|e]]; [|done]. apply (IH Hok w1 (call_effect c s)); [|done].
  destruct (call_legal c s); [by destruct Ho|by destruct Ho].
Qed.

Definition sorted_tick (g : TickRecord) : TickRecord := mkTick (tr_tick g) (_sort_events (tr_events g)).

Lemma tick_effects ts s :
  effects (ts ≫= tick_calls []) s =
  mkSession (ss_closed s) (ss_meta s) (ss_ticks s ++ (sorted_tick <$> ts)) (ss_expected s) (ss_checkpoints s).
Proof.
  revert s. induction ts as [|t ts IH]; intros s.
  { cbn. rewrite app_nil_r. by destruct s. }
  cbn [mbind list_bind]. rewrite effects_app, IH. cbn. by rewrite <-app_assoc.
Qed.

Lemma expected_effects es s :
  effects (expected_call <$> es) s =
  mkSession (ss_closed s) (ss_meta s) (ss_ticks s) (ss_expected s ++ es) (ss_checkpoints s).
Proof.
  revert s. induction es as [|e es IH]; intros s.
  { cbn. rewrite app_nil_r. by destruct s. }
  cbn [fmap list_fmap effects foldl]. etransitivity; [apply IH|]. cbn. rewrite <-app_assoc. by destruct e.
Qed.

(** What [encode_document] writes for a document without checkpoints, lawful
    or not, reads back with every tick's events sorted. *)
Lemma encode_ok_reads d bs src :
  doc_rng_checkpoints d = [] → meta_ok (doc_meta d) = true →
  NoDup (ex_tick <$> doc_expected_hashes d) → encode_document d = Ok bs →
  ∃ d', read_document bs src = Ok d' ∧ doc_header d' = mkHeader (hd_tick_hz (doc_header d)) 0 ∧
    meta_equiv (doc_meta d') (doc_meta d) ∧ doc_ticks d' = sorted_tick <$> doc_ticks d ∧
    doc_expected_hashes d' = doc_expected_hashes d ∧ doc_rng_checkpoints d' = [].
Proof.
  intros Hck Hm Hnd He. unfold encode_document in He. inv_result.
  apply init_Ok in Hx as (Hhz & header & Hh & ->).
  assert (effects (doc_calls d) new_session =
          mkSession true (doc_meta d) (sorted_tick <$> doc_ticks d) (doc_expected_hashes d) []) as Heff.
  { unfold doc_calls. rewrite Hck, !effects_app, tick_effects, expected_effects. by destruct (doc_meta d). }
  rewrite encode_body_calls in He by by rewrite Hck.
  destruct (for_each (doc_calls d) run_call _) as [w' [[]|e]] eqn:Hrun; [|done]. inv_result.
  pose proof (run_ok header _ (doc_calls_ok d Hm) _ _ _ (init_inv header empty_sink) Hrun) as Hw.
  rewrite Heff in Hw.
  destruct (inv_reads_back src _ header w' _ Hhz Hh Hw Hnd) as (d' & Hread & Hmatch).
  exists d'. split; [done|]. by destruct Hmatch as (-> & ? & ? & ? & ?).
Qed.

(** The expectations listed from a table rebuild the table. *)
Lemma expectations_of_table (expected : gmap Z Z) :
  let es := (λ '(t, h), mkExpected t h) <$> sorted_by fst (map_to_list expected) in
  NoDup (ex_tick <$> es) ∧ dict_of ex_tick ex_hash es = expected.
Proof.
  intros es. assert (ex_tick <$> es ≡ₚ fst <$> map_to_list expected) as Hp.
  { unfold es. rewrite <-list_fmap_compose. erewrite (list_fmap_ext _ fst).
    - apply fmap_Permutation, sorted_by_perm.
    - by intros ? []. }
  assert (NoDup (ex_tick <$> es)) as Hnd by (rewrite Hp; apply NoDup_fst_map_to_list).
  split; [done|]. apply map_eq. intros t. apply option_eq. intros h.
  rewrite dict_of_lookup by done. rewrite <-elem_of_map_to_list. unfold es.
  setoid_rewrite list_elem_of_fmap. setoid_rewrite sorted_by_perm. split.
  - by intros (x & ([t' h'] & -> & Hin) & <- & <-).
  - intros Hin. exists (mkExpected t h). split; [|done]. by exists (t, h).
Qed.

(** The expectations a transcode run embeds. *)
Definition transcode_expectations (env : environment) (a : args) : result (gmap Z Z) :=
  match truthy (a_expectations_from a) with
  | Some path => load_expectations env path
  | None => Ok ∅
  end.

(** When transcode exits 0 it has written exactly one file, and that file
    reads back with the requested tick rate, the model name, every tick of the
    text record with its events in canonical order, and the same table of
    expectations. *)
Theorem transcode_reads_back env a t t' src :
  run_transcode env a t = (t', Ok 0) → text_ok (a_model a) = true →
  ∃ data pairs expected bs d,
    ev_files env !! a_input a = Some data ∧ parse_record (a_input a) data = Ok pairs ∧
    transcode_expectations env a = Ok expected ∧
    tl_written t' = tl_written t ++ [(a_output a, bs)] ∧ read_document bs src = Ok d ∧
    doc_header d = mkHeader (default DEFAULT_TICK_HZ (a_tick_hz a)) 0 ∧
    meta_equiv (doc_meta d) (Some [(str "model", JStr (a_model a))]) ∧
    doc_ticks d = sorted_tick <$> text_groups pairs ∧
    dict_of ex_tick ex_hash (doc_expected_hashes d) = expected ∧ doc_rng_checkpoints d = [].
Proof.
  unfold run_transcode, read_bytes. intros Hr Hm. rewrite bind_lift in Hr.
  destruct (ev_files env !! a_input a) as [data|] eqn:Ef; [|done].
  destruct (sniff_is_binary data); [done|]. rewrite bind_lift in Hr.
  destruct (parse_record (a_input a) data) as [pairs|e] eqn:Ep; [|done].
  exists data, pairs. destruct (text_groups pairs) as [|g gs] eqn:Eg; [done|].
  rewrite <-Eg in Hr |- *. fold (transcode_expectations env a) in Hr. rewrite bind_lift in Hr.
  destruct (transcode_expectations env a) as [expected|e] eqn:Ex; [|done]. rewrite bind_lift in Hr.
  destruct (encode_document _) as [bs|e] eqn:Ee; [|done].
  destruct (expectations_of_table expected) as [Hnd Hdict].
  destruct (encode_ok_reads (transcode_document a (text_groups pairs) expected) bs src) as (d & Hread & Hh & Hmeta & Hts & Hes & Hcs); [done| |done|done|].
  { cbn. by rewrite Hm. }
  exists expected, bs, d. repeat (split; [done|]). split.
  { rewrite bind_run in Hr. cbn -[length] in Hr. destruct (a_quiet a); by injection Hr as <-. }
  split_and!; try done. by rewrite Hes.
Qed.

(** ** The replay as a whole *)

Section Whole.
Context `{SimLib, !SimLaws}.

(** For a simulation library that has the structure layout the tool declares:
    once it hands out a simulation and a model, replaying any record the tool
    can load is the abstract replay: per tick, the events of that tick applied
    to a finite map of actors, one step of every actor, and the hash of the
    map when due, with the same error in the same place. Slots, swap-removal
    and stale array contents are not observable. *)
Theorem replay_refines groups a tick_hz m t :
  groups_ok groups = true → kith_sim_create = (0, true) →
  kith_sim_create_model (a_model a) (build_config a) = (0, Some m) →
  snd (replay groups a tick_hz t) = spec_replay groups a tick_hz m.
Proof. apply replay_run. Qed.

(** The state hash is a function of the set of actors: two event histories
    that end with the same actors have the same 64-bit hash, whatever the
    order of the array they leave. *)
Theorem hash_canonical m es1 es2 r1 r2 :
  forallb event_fits es1 = true → forallb event_fits es2 = true →
  for_each es1 apply_event (mkRun m ActorStore_init) = (r1, Ok tt) →
  for_each es2 apply_event (mkRun m ActorStore_init) = (r2, Ok tt) →
  view (rn_store r1) = view (rn_store r2) →
  ∃ h, hash (rn_store r1) = Ok h ∧ hash (rn_store r2) = Ok h ∧ 0 ≤ h < 2 ^ 64.
Proof.
  intros Hf1 Hf2 Hr1 Hr2 Hv. destruct init_inv_store as [Hinv Hview].
  assert (run_inv (mkRun m ActorStore_init) (mkWorld m ∅)) as Hi by done.
  pose proof (events_agree es1 _ _ Hi Hf1) as H1. pose proof (events_agree es2 _ _ Hi Hf2) as H2.
  rewrite Hr1 in H1. rewrite Hr2 in H2. unfold agrees in H1, H2.
  destruct (spec_events es1 _) as [w1|]; [|done]. destruct (spec_events es2 _) as [w2|]; [|done].
  rewrite !hash_view, <-Hv by eapply ri_store, H1 || eapply ri_store, H2. eexists. split_and!; [done..| |];
    pose proof (spec_hash_range (view (rn_store r1))); unfold U64_MASK in *; lia.
Qed.
End Whole.

(** ** Layout of the actor array *)

(** The library's actor has one field more than the tool's, so the elements of
    an array of actors lie 72 bytes apart for one and 64 for the other. *)
Lemma actor_layouts_differ : sizeof SimActor_fields = 64 ∧ sizeof kith_sim_actor_fields = 72.
Proof. done. Qed.

(** The exceptions [main] turns into an exit code. *)
Definition reported (e : exn) : bool :=
  match e with KithSimError _ | RecordError _ | ReplayFormatError _ => true | _ => false end.

(** The exceptions that end the tool with a traceback: files that cannot be
    read, text or expectations that do not parse, values that do not fit the
    fields of the binary format. *)
Definition unreported (e : exn) : bool :=
  match e with
  | OSError | UnicodeDecodeError | UnicodeEncodeError | StructError | ValueError _ => true
  | _ => false
  end.

Definition tool_exn (e : exn) : bool := reported e || unreported e.

Definition exit_code (c : Z) : Prop := c = 0 ∨ c = 1 ∨ c = 2.

Lemma within_finally {S A} E (P : A → Prop) (m : M S A) c : within E P m → within E P (try_finally m c).
Proof. intros Hm s. specialize (Hm s). unfold try_finally. by destruct (m s). Qed.

Lemma within_print E l : within E (λ _, True) (print l).
Proof. by intros s. Qed.

Lemma within_returns {S A} E (P : A → Prop) (m : M S A) x : returns m x → P x → within E P m.
Proof. intros Hm HP s. by rewrite (Hm s). Qed.

#[export] Hint Resolve within_print within_finally : exits.

(** ** Loading *)

Lemma read_bytes_bounded env path : bounded tool_exn (λ _, True) (read_bytes env path).
Proof. unfold read_bytes. by destruct (_ !! _). Qed.

Lemma int_or_raise_bounded base s : bounded tool_exn (λ _, True) (int_or_raise base s).
Proof. unfold int_or_raise. by destruct (py_int base s). Qed.

Lemma read_text_bounded data : bounded tool_exn (λ _, True) (read_text data).
Proof. unfold read_text, decode_utf8. by destruct (utf8_decode data). Qed.

#[export] Hint Resolve read_bytes_bounded int_or_raise_bounded read_text_bounded : exits.

Lemma expect_lines_bounded path lines : ∀ k expected,
  bounded tool_exn (λ _, True) (expect_lines path k lines expected).
Proof.
  induction lines as [|raw lines IH]; intros k expected; cbn [expect_lines]; [done|].
  destruct (skip_line (strip raw)); [apply IH|]. exits.
Qed.

Lemma load_expectations_bounded env path : bounded tool_exn (λ _, True) (load_expectations env path).
Proof.
  unfold load_expectations, load_expect_file. exits. apply expect_lines_bounded.
Qed.

(** What [load_record] hands on: groups the replay accepts, and a document
    with a positive tick rate. *)
Definition loaded (p : list TickRecord * option ReplayDocument) : Prop :=
  groups_ok (fst p) = true ∧ match snd p with Some d => 1 ≤ hd_tick_hz (doc_header d) | None => True end.

Lemma read_document_bounded data path :
  bounded tool_exn (λ d, doc_lawful d = true) (read_document data path).
Proof.
  destruct (read_document data path) as [d|e] eqn:Er; [by eapply document_lawful|].
  apply document_errors in Er as [[msg ->]|[[msg ->] _]]; done.
Qed.

Lemma load_record_bounded env path : bounded tool_exn loaded (load_record env path).
Proof.
  unfold load_record. eapply bounded_bind; [apply read_bytes_bounded|]. intros data _.
  destruct (sniff_is_binary data).
  - eapply bounded_bind; [apply read_document_bounded|]. intros d Hd. split; cbn.
    + by apply document_groups_ok.
    + unfold doc_lawful in Hd. by bool_hyps.
  - pose proof (record_outcome path data) as Ho. destruct (parse_record path data) as [pairs|e]; cbn.
    + split; [by apply text_groups_ok|done].
    + by destruct Ho as [->|(k & msg & _ & ->)].
Qed.

Lemma find_sim_lib_bounded env explicit : bounded tool_exn (λ _, True) (find_sim_lib env explicit).
Proof.
  unfold find_sim_lib. destruct (truthy explicit); [by destruct (is_file _ _)|].
  destruct (truthy (ev_sim_lib env)); [by destruct (is_file _ _)|].
  destruct (find _ _); [done|]. by destruct (ev_system_lib env).
Qed.

#[export] Hint Resolve load_expectations_bounded load_record_bounded find_sim_lib_bounded : exits.

(** ** The simulation run *)

Section Sim.
Context `{SimLib, !SimLaws}.

Lemma check_rc_bounded rc what : bounded tool_exn (λ _, True) (check_rc rc what).
Proof. unfold check_rc. by destruct (rc <? 0). Qed.

#[local] Hint Resolve check_rc_bounded : exits.

Lemma spec_event_bounded e w : bounded tool_exn (λ _, True) (spec_event e w).
Proof.
  destruct e as [e|e|e]; cbn [spec_event]; [| |done].
  - case_decide; [done|]. by destruct (MAX_ACTORS <=? _).
  - destruct (wd_actors w !! _) as [x|]; [|done].
    destruct (kith_sim_model_apply_input _ _ _) as [rc [m' x']]. by exits.
Qed.

Lemma spec_events_bounded es : ∀ w, bounded tool_exn (λ _, True) (spec_events es w).
Proof.
  induction es as [|e es IH]; intros w; cbn [spec_events]; [done|].
  eapply bounded_bind; [apply spec_event_bounded|auto].
Qed.

Lemma spec_step_bounded dt w : bounded tool_exn (λ _, True) (spec_step dt w).
Proof. unfold spec_step. case_decide; [done|]. by exits. Qed.

#[local] Hint Resolve spec_events_bounded spec_step_bounded : exits.

Lemma spec_loop_bounded n dt he G : ∀ tick w, bounded tool_exn (λ _, True) (spec_loop n tick dt he G w).
Proof. induction n as [|n IH]; intros tick w; cbn [spec_loop]; [done|]. by exits. Qed.

Lemma replay_model_bounded groups a tick_hz m : groups_ok groups = true → tick_hz ≠ 0 →
  bounded tool_exn (λ _, True) (replay_model groups a tick_hz m).
Proof.
  intros Hok Hhz. rewrite replay_model_spec by done. unfold spec_replay, tick_duration.
  apply (bounded_bind _ (λ _, True)).
  { destruct (a_behavior a); [|done]. destruct (kith_sim_model_load_behavior _ _) as [rc m'].
    by exits. }
  intros m' _. destruct (Z.eqb_spec tick_hz 0); [done|]. apply spec_loop_bounded.
Qed.

Lemma create_sim_within : within tool_exn (λ _, True) create_sim.
Proof.
  unfold create_sim. destruct kith_sim_create as [raw handle]. unfold guard, log_handle. exits.
Qed.

Lemma create_model_within name cfg : within tool_exn (λ _, True) (create_model name cfg).
Proof.
  unfold create_model. destruct (kith_sim_create_model name cfg) as [raw [m|]]; exits; [|done].
  match goal with |- context [if ?b then _ else _] => destruct b end; [|done].
  unfold log_handle. exits.
Qed.

Lemma replay_within groups a tick_hz : groups_ok groups = true → tick_hz ≠ 0 →
  within tool_exn (λ _, True) (replay groups a tick_hz).
Proof.
  intros Hok Hhz. unfold replay. eapply within_bind; [apply create_sim_within|]. intros _ _.
  apply within_finally. eapply within_bind; [apply create_model_within|]. intros m _.
  apply within_finally, within_lift. by apply replay_model_bounded.
Qed.
End Sim.

(** ** The modes *)

Lemma print_hashes_within hashes quiet : within tool_exn (λ _, True) (print_hashes hashes quiet).
Proof.
  unfold print_hashes. destruct quiet; [by apply within_ret|]. apply within_for_each. by intros [].
Qed.

Lemma compare_within hashes expected rc :
  within tool_exn exit_code (compare_against_map hashes expected rc).
Proof.
  destruct (compare_exact hashes expected rc) as (c & Hret & Hc & _).
  eapply within_returns; [done|]. unfold exit_code. tauto.
Qed.

Lemma compare_final_within hashes want : within tool_exn exit_code (_compare_final_hash hashes want).
Proof.
  unfold _compare_final_hash, exit_code. destruct (last hashes) as [[_ got]|]; [destruct (got =? want)|]; exits;
    by intros s; cbn; auto.
Qed.

#[export] Hint Resolve print_hashes_within compare_within compare_final_within : exits.

Lemma finish_play_within env a hashes : within tool_exn exit_code (finish_play env a hashes).
Proof.
  unfold finish_play. destruct (truthy (a_expect_file a)), (truthy (a_expect_hash a)); exits.
  all: by intros s; left.
Qed.

Lemma expectation_map_bounded env a d : bounded tool_exn (λ _, True) (expectation_map env a d).
Proof.
  unfold expectation_map. destruct (truthy (a_expect_file a)); [apply load_expectations_bounded|].
  by destruct (truthy (a_expect_hash a)), d.
Qed.

#[export] Hint Resolve expectation_map_bounded : exits.

Lemma finish_verify_within env a d hashes : within tool_exn exit_code (finish_verify env a d hashes).
Proof.
  unfold finish_verify. eapply within_bind; [by apply within_lift, expectation_map_bounded|]. intros expected _.
  destruct (bool_decide _ && bool_decide _).
  { intros s. right. by right. }
  exits. destruct (truthy (a_expect_hash a)); exits.
Qed.

(** The writer raises [ValueError] and [struct.error] only. *)
Lemma pack_bounded F vs : bounded tool_exn (λ _, True) (pack F vs).
Proof. destruct (pack F vs) as [bs|e] eqn:E; [done|]. by apply pack_Err in E as ->. Qed.

#[export] Hint Resolve pack_bounded : exits.

Lemma ensure_open_within : within tool_exn (λ _, True) _ensure_open.
Proof. unfold _ensure_open. exits. Qed.

Lemma emit_within ty p : within tool_exn (λ _, True) (_emit ty p).
Proof. unfold _emit, w_write. exits. Qed.

#[export] Hint Resolve ensure_open_within emit_within : exits.

Lemma pack_events_bounded es : bounded tool_exn (λ _, True) (pack_events es).
Proof.
  induction es as [|e es IH]; cbn [pack_events]; [done|].
  apply (bounded_bind _ (λ _, True)); [unfold _pack_event; destruct e; by exits|]. by exits.
Qed.

#[export] Hint Resolve pack_events_bounded : exits.

Lemma write_tick_within t es : within tool_exn (λ _, True) (write_tick t es).
Proof. unfold write_tick, set_last_tick, set_last_stream_key. exits. Qed.

Lemma write_expected_within t h : within tool_exn (λ _, True) (write_expected_hash t h).
Proof. unfold write_expected_hash. exits. Qed.

Lemma write_checkpoint_within t k st : within tool_exn (λ _, True) (write_rng_checkpoint t k st).
Proof. unfold write_rng_checkpoint, set_last_stream_key. exits. Qed.

Lemma write_meta_within k m : within tool_exn (λ _, True) (write_meta [(k, JStr m)]).
Proof.
  unfold write_meta, set_meta_written. eapply within_bind; [apply ensure_open_within|]. intros _ _.
  eapply within_bind; [apply within_get|]. intros w _. do 2 (eapply within_bind; [auto with exits|]; intros _ _).
  apply (within_bind _ (λ _, True)); [|exits].
  apply within_lift. cbn [json_dumps PyJson]. unfold dumps_bytes. cbn. by destruct (utf8_encode _).
Qed.

Lemma encode_document_bounded d k m : doc_meta d = Some [(k, JStr m)] →
  bounded tool_exn (λ _, True) (encode_document d).
Proof.
  intros Hm. unfold encode_document, ReplayWriter_init. apply (bounded_bind _ (λ _, True)).
  { by exits. }
  intros w _. assert (within tool_exn (λ _, True) (encode_body d)) as Hb.
  { unfold encode_body. rewrite Hm. eapply within_bind; [apply write_meta_within|]. intros _ _.
    eapply within_bind; [auto with exits|]. intros _ _. apply (within_bind _ (λ _, True)).
    { apply within_for_each. intros g _. eapply within_bind; [apply write_tick_within|]. intros _ _.
      apply within_for_each. intros c _. apply write_checkpoint_within. }
    intros _ _. apply (within_bind _ (λ _, True)); [|by unfold writer_close, set_closed; exits].
    apply within_for_each. intros e _. apply write_expected_within. }
  specialize (Hb w). by destruct (encode_body d w) as [w' [|]].
Qed.

Lemma exits_print c l : exit_code c → within tool_exn exit_code (print l;; mret c).
Proof. intros Hc. by exits. Qed.

Lemma exit_0 : exit_code 0.
Proof. by left. Qed.
Lemma exit_1 : exit_code 1.
Proof. right. by left. Qed.
Lemma exit_2 : exit_code 2.
Proof. right. by right. Qed.

#[export] Hint Resolve exits_print exit_0 exit_1 exit_2 : exits.

Lemma run_diff_within env a : within tool_exn exit_code (run_diff env a).
Proof.
  unfold run_diff. eapply within_bind; [by apply within_lift, load_record_bounded|].
  intros [g d] _. eapply within_bind; [by apply within_lift, load_record_bounded|]. intros [g' d'] _.
  destruct (diff_documents _ _).
  - apply (within_bind _ (λ _, True)); [destruct (a_quiet a); exits|exits].
  - exits.
Qed.

Lemma run_transcode_within env a : within tool_exn exit_code (run_transcode env a).
Proof.
  unfold run_transcode. eapply within_bind; [by apply within_lift, read_bytes_bounded|]. intros data _.
  destruct (sniff_is_binary data); [exits|].
  apply (within_bind _ (λ _, True)).
  { apply within_lift. pose proof (record_outcome (a_input a) data) as Ho.
    destruct (parse_record _ _); [done|]. by destruct Ho as [->|(k & msg & _ & ->)]. }
  intros pairs _. destruct (text_groups pairs) as [|g gs]; [exits|].
  apply (within_bind _ (λ _, True)).
  { apply within_lift. destruct (truthy _); [apply load_expectations_bounded|done]. }
  intros expected _. eapply within_bind; [by apply within_lift; eapply encode_document_bounded|].
  intros bs _. eapply within_bind; [apply within_modify|]. intros _ _.
  apply (within_bind _ (λ _, True)); [destruct (a_quiet a); exits|exits].
Qed.

Section Main.
Context `{SimLib, !SimLaws}.

Lemma run_play_or_verify_within env a : (∀ hz, a_tick_hz a = Some hz → 0 < hz) →
  within tool_exn exit_code (run_play_or_verify env a).
Proof.
  intros Hhz. unfold run_play_or_verify. destruct (_ && _); [exits|].
  eapply within_bind; [by apply within_lift, load_record_bounded|]. intros [groups d] [Hok Hd].
  destruct groups as [|g gs]; [exits|]. eapply within_bind; [by apply within_lift, find_sim_lib_bounded|].
  intros _ _. eapply within_bind; [apply replay_within; [done|]|].
  - unfold resolve_tick_hz. destruct (a_tick_hz a) as [hz|]; [specialize (Hhz hz eq_refl); lia|].
    destruct d; cbn in *; [lia|done].
  - intros hashes _. destruct (bool_decide _); [apply finish_play_within|apply finish_verify_within].
Qed.

Lemma run_mode_within env a : (∀ hz, a_tick_hz a = Some hz → 0 < hz) →
  within tool_exn exit_code (run_mode env a).
Proof.
  intros Hhz. unfold run_mode.
  destruct (a_command a); auto using run_play_or_verify_within, run_diff_within, run_transcode_within.
Qed.

(** Whatever the arguments and the files, the tool exits with 0, 1 or 2 or
    ends with one of five exceptions it does not handle; a division by zero,
    an index error or an unhandled error of its own three kinds never escapes.
    *)
Theorem main_exits env a t :
  match snd (main env a t) with
  | Ok code => code = 0 ∨ code = 1 ∨ code = 2
  | Err e => unreported e = true
  end.
Proof.
  unfold main. destruct (match a_tick_hz a with Some hz => hz <=? 0 | None => false end) eqn:Ehz; [right; by right|].
  destruct (a_hash_every a <? 0); [right; by right|].
  assert (∀ hz, a_tick_hz a = Some hz → 0 < hz) as Hhz.
  { intros hz Ea. rewrite Ea in Ehz. lia. }
  pose proof (run_mode_within env a Hhz t) as Hm.
  destruct (run_mode env a t) as [t' [c|e]]; [done|]. cbn [snd] in Hm. destruct e; first [done | right; by left | right; by right].
Qed.
End Main.
