(* ===== verification/SimPending.v ===== *)
(** * The pending-input map of the simulation models ([src/src/sim/sim.c])

    An open-addressed table of fixed size: linear probing from a mixed hash,
    no deletion, and a silent drop when an actor finds no free node.  The
    table refines a finite map of bounded size. *)

From S2P Require Import Prelude PyStruct PyText PyFloat ReplayFormat ActorStore ActorRefine.

#[local] Open Scope Z_scope.

Definition KITH_SIM_DEFAULT_BUCKET_COUNT : Z := 4096.

Record sim_pending_node := mkNode {
  pn_actor_id : Z;
  pn_input : SimInput;
  pn_used : bool;
}.

Record sim_pending_map := mkPending {
  pm_nodes : list sim_pending_node;
  pm_buckets : Z;
}.

Definition free_node : sim_pending_node := mkNode 0 (mkInput 0 0 0 0 0) false.

(** Allocation succeeds. *)
Definition sim_pending_init (buckets : Z) : sim_pending_map :=
  let buckets := if buckets =? 0 then KITH_SIM_DEFAULT_BUCKET_COUNT else buckets in
  mkPending (replicate (Z.to_nat buckets) free_node) buckets.

Definition sim_pending_mask (m : sim_pending_map) : Z := c_uint 8 (pm_buckets m - 1).

Definition sim_hash_u64 (k : Z) : Z :=
  let k := Z.lxor k (Z.shiftr k 33) in
  let k := c_uint 8 (k * 0xff51afd7ed558ccd) in
  let k := Z.lxor k (Z.shiftr k 33) in
  let k := c_uint 8 (k * 0xc4ceb9fe1a85ec53) in
  Z.lxor k (Z.shiftr k 33).

(** [(i + probe) & mask], the node of one probe. *)
Definition probe_index (m : sim_pending_map) (actor_id probe : Z) : nat :=
  let mask := sim_pending_mask m in
  let i := Z.land (sim_hash_u64 actor_id) mask in
  Z.to_nat (Z.land (c_uint 8 (i + probe)) mask).

(** [for (probe = ...; probe < m->buckets; ++probe)] of [sim_pending_put],
    with [n] probes left. *)
Fixpoint put_probes (n : nat) (probe : Z) (m : sim_pending_map) (actor_id : Z) (input : SimInput)
    : sim_pending_map :=
  match n with
  | O => m
  | S n =>
      let idx := probe_index m actor_id probe in
      let node := default free_node (pm_nodes m !! idx) in
      if negb (pn_used node) || (pn_actor_id node =? actor_id)
      then mkPending (<[idx := mkNode actor_id input true]> (pm_nodes m)) (pm_buckets m)
      else put_probes n (probe + 1) m actor_id input
  end.

Definition sim_pending_put (m : sim_pending_map) (actor_id : Z) (input : SimInput) : sim_pending_map :=
  put_probes (Z.to_nat (pm_buckets m)) 0 m actor_id input.

(** The loop of [sim_pending_get]. *)
Fixpoint get_probes (n : nat) (probe : Z) (m : sim_pending_map) (actor_id : Z) : option SimInput :=
  match n with
  | O => None
  | S n =>
      let node := default free_node (pm_nodes m !! probe_index m actor_id probe) in
      if negb (pn_used node) then None
      else if pn_actor_id node =? actor_id then Some (pn_input node)
      else get_probes n (probe + 1) m actor_id
  end.

Definition sim_pending_get (m : sim_pending_map) (actor_id : Z) : option SimInput :=
  get_probes (Z.to_nat (pm_buckets m)) 0 m actor_id.

(** ** The abstract map *)

(** A map that holds at most [cap] keys and ignores further ones. *)
Definition bounded_put (cap : Z) (s : gmap Z SimInput) (actor_id : Z) (input : SimInput) : gmap Z SimInput :=
  if decide (is_Some (s !! actor_id)) then <[actor_id := input]> s
  else if Z.of_nat (size s) <? cap then <[actor_id := input]> s else s.

(** ** Probe sequences *)

Section Probes.
Context (k : nat) (Hk : (k < 64)%nat).

Definition cap : Z := 2 ^ Z.of_nat k.

Lemma cap_pos : 0 < cap.
Proof. unfold cap. apply Z.pow_pos_nonneg; lia. Qed.

Lemma cap_bound : cap ≤ 2 ^ 63.
Proof. unfold cap. apply Z.pow_le_mono_r; lia. Qed.

(** The [d]-th node an id probes. *)
Definition slot (id d : Z) : nat := Z.to_nat ((sim_hash_u64 id + d) mod cap).

Lemma land_mask_mod z m : pm_buckets m = cap → Z.land z (sim_pending_mask m) = z mod cap.
Proof.
  intros Hm. unfold sim_pending_mask. rewrite Hm. pose proof cap_pos. pose proof cap_bound.
  rewrite c_uint_id by (apply in_u_spec; change (pow256 8) with (2 ^ 64); lia).
  unfold cap. rewrite <-Z.land_ones by lia. by rewrite Z.ones_equiv, <-Z.sub_1_r.
Qed.

Lemma probe_index_slot m id d : pm_buckets m = cap → 0 ≤ d < cap → probe_index m id d = slot id d.
Proof.
  intros Hm Hd. unfold probe_index, slot. rewrite !land_mask_mod by done.
  pose proof cap_pos. pose proof cap_bound.
  pose proof (Z.mod_pos_bound (sim_hash_u64 id) cap ltac:(lia)).
  rewrite c_uint_id by (apply in_u_spec; change (pow256 8) with (2 ^ 64); lia).
  by rewrite Z.add_mod_idemp_l by lia.
Qed.

Lemma slot_lt id d : Z.of_nat (slot id d) < cap.
Proof.
  unfold slot. pose proof cap_pos. pose proof (Z.mod_pos_bound (sim_hash_u64 id + d) cap ltac:(lia)). lia.
Qed.

Lemma slot_inj id d d' : 0 ≤ d < cap → 0 ≤ d' < cap → slot id d = slot id d' → d = d'.
Proof.
  unfold slot. intros Hd Hd' Heq. pose proof cap_pos.
  pose proof (Z.mod_pos_bound (sim_hash_u64 id + d) cap ltac:(lia)).
  pose proof (Z.mod_pos_bound (sim_hash_u64 id + d') cap ltac:(lia)).
  assert ((sim_hash_u64 id + d) mod cap = (sim_hash_u64 id + d') mod cap) as Hm by lia.
  apply Z.cong_iff_0 in Hm. replace (sim_hash_u64 id + d - (sim_hash_u64 id + d')) with (d - d') in Hm by lia.
  apply Z.mod_divide in Hm as [q Hq]; [|lia].
  assert (q ≤ -1 ∨ q = 0 ∨ 1 ≤ q) as [|[->|]] by lia; nia.
Qed.

Lemma slot_surj id (idx : nat) : Z.of_nat idx < cap → ∃ d, 0 ≤ d < cap ∧ slot id d = idx.
Proof.
  intros Hidx. pose proof cap_pos. exists ((Z.of_nat idx - sim_hash_u64 id) mod cap).
  split; [apply Z.mod_pos_bound; lia|]. unfold slot. rewrite Z.add_mod_idemp_r by lia.
  rewrite Zplus_minus, Z.mod_small by lia. lia.
Qed.

(** ** Refinement *)

Definition node_at (m : sim_pending_map) (idx : nat) : sim_pending_node :=
  default free_node (pm_nodes m !! idx).

(** The first [d] probes of [id] pass nodes of other ids. *)
Definition passed (m : sim_pending_map) (id d : Z) : Prop := ∀ d', 0 ≤ d' < d →
  pn_used (node_at m (slot id d')) = true ∧ pn_actor_id (node_at m (slot id d')) ≠ id.

Definition used_count (l : list sim_pending_node) : nat := length (filter (λ n, pn_used n = true) l).

Record pending_refines (m : sim_pending_map) (s : gmap Z SimInput) : Prop := {
  pr_length : Z.of_nat (length (pm_nodes m)) = cap;
  pr_buckets : pm_buckets m = cap;
  pr_reach idx n : pm_nodes m !! idx = Some n → pn_used n = true →
    ∃ d, 0 ≤ d < cap ∧ slot (pn_actor_id n) d = idx ∧ passed m (pn_actor_id n) d;
  pr_content id inp : s !! id = Some inp ↔ mkNode id inp true ∈ pm_nodes m;
  pr_count : size s = used_count (pm_nodes m);
}.

Lemma node_at_lookup m s id d : pending_refines m s →
  pm_nodes m !! slot id d = Some (node_at m (slot id d)).
Proof.
  intros Hr. unfold node_at. destruct (lookup_lt_is_Some_2 (pm_nodes m) (slot id d)) as [n ->]; [|done].
  pose proof (slot_lt id d). pose proof (pr_length _ _ Hr). lia.
Qed.

(** An id whose probes reach a free node, or pass every node, is absent. *)
Lemma absent m s id d : pending_refines m s → 0 ≤ d ≤ cap → passed m id d →
  (d < cap → pn_used (node_at m (slot id d)) = false) → s !! id = None.
Proof.
  intros Hr Hd Hp Hfree. destruct (s !! id) as [inp|] eqn:Es; [|done].
  apply (pr_content _ _ Hr), list_elem_of_lookup in Es as [idx Hidx].
  destruct (pr_reach _ _ Hr idx _ Hidx eq_refl) as (d0 & Hd0 & Hslot & Hpass). cbn in *.
  assert (node_at m (slot id d0) = mkNode id inp true) as Hn.
  { unfold node_at. by rewrite Hslot, Hidx. }
  destruct (Z.lt_trichotomy d0 d) as [Hlt|[->|Hgt]].
  - destruct (Hp d0 ltac:(lia)) as [_ Hne]. by rewrite Hn in Hne.
  - specialize (Hfree ltac:(lia)). by rewrite Hn in Hfree.
  - destruct (Hpass d ltac:(lia)) as [Hu _]. rewrite Hfree in Hu by lia. done.
Qed.

Lemma passed_next m id d : passed m id d → pn_used (node_at m (slot id d)) = true →
  pn_actor_id (node_at m (slot id d)) ≠ id → passed m id (d + 1).
Proof.
  intros Hp Hu Hne d' Hd'. destruct (decide (d' = d)) as [->|]; [done|]. apply Hp. lia.
Qed.

Lemma get_probes_refines m s id n : ∀ d, pending_refines m s → 0 ≤ d → d + Z.of_nat n = cap →
  passed m id d → get_probes n d m id = s !! id.
Proof.
  induction n as [|n IH]; intros d Hr Hd Hn Hp; cbn [get_probes].
  { symmetry. apply (absent m s id d); try done; lia. }
  rewrite probe_index_slot by (eauto using pr_buckets; lia). fold (node_at m (slot id d)).
  destruct (pn_used (node_at m (slot id d))) eqn:Hu; cbn [negb].
  2: { symmetry. apply (absent m s id d); try done; lia. }
  destruct (Z.eqb_spec (pn_actor_id (node_at m (slot id d))) id) as [Hid|Hne].
  - symmetry. apply (pr_content _ _ Hr). apply list_elem_of_lookup. exists (slot id d).
    rewrite (node_at_lookup m s) by done. destruct (node_at m (slot id d)); cbn in *; congruence.
  - apply IH; [done|lia|lia|]. by apply passed_next.
Qed.

Lemma used_count_insert l idx n n' : l !! idx = Some n →
  (used_count (<[idx := n']> l) + (if pn_used n then 1 else 0) =
   used_count l + (if pn_used n' then 1 else 0))%nat.
Proof.
  intros Hl. unfold used_count.
  assert (∀ l x, l !! idx = Some x →
    length (filter (λ n, pn_used n = true) l) =
    ((if pn_used x then 1 else 0) + length (filter (λ n, pn_used n = true) (delete idx l)))%nat) as Hc.
  { intros l0 x Hx. rewrite (delete_Permutation l0 idx x) at 1 by done. rewrite filter_cons.
    destruct (pn_used x); case_decide; done. }
  rewrite (Hc l n) by done. rewrite (Hc (<[idx := n']> l) n').
  - rewrite list_delete_insert. lia.
  - apply list_lookup_insert_eq. by eapply lookup_lt_Some.
Qed.

Lemma node_at_insert m b idx n idx' : (idx < length (pm_nodes m))%nat →
  node_at (mkPending (<[idx := n]> (pm_nodes m)) b) idx' = if decide (idx = idx') then n else node_at m idx'.
Proof.
  intros Hlt. unfold node_at. cbn. case_decide as Hd.
  - subst. by rewrite list_lookup_insert_eq.
  - by rewrite list_lookup_insert_ne.
Qed.

Section Put.
Context (m : sim_pending_map) (s : gmap Z SimInput) (id d : Z) (inp : SimInput).
Context (Hr : pending_refines m s) (Hd : 0 ≤ d < cap) (Hp : passed m id d).
Context (Hstop : pn_used (node_at m (slot id d)) = false ∨ pn_actor_id (node_at m (slot id d)) = id).

Lemma put_lookup : pm_nodes m !! slot id d = Some (node_at m (slot id d)).
Proof. by eapply node_at_lookup. Qed.

Lemma put_present : pn_used (node_at m (slot id d)) = true → is_Some (s !! id).
Proof.
  intros Hu. destruct Hstop as [Hf|Hid]; [congruence|]. exists (pn_input (node_at m (slot id d))).
  apply (pr_content _ _ Hr), list_elem_of_lookup. exists (slot id d). rewrite put_lookup.
  destruct (node_at m (slot id d)); cbn in *; congruence.
Qed.

Lemma put_absent : pn_used (node_at m (slot id d)) = false → s !! id = None ∧ Z.of_nat (size s) < cap.
Proof.
  intros Hf. split; [by apply (absent m s id d); [|lia|..]|]. rewrite (pr_count _ _ Hr), <-(pr_length _ _ Hr).
  apply inj_lt, (length_filter_lt _ _ (node_at m (slot id d))); [|congruence].
  eapply list_elem_of_lookup_2, put_lookup.
Qed.

Lemma bounded_put_accepts : bounded_put cap s id inp = <[id := inp]> s.
Proof.
  unfold bounded_put. case_decide as Hs; [done|].
  destruct (Bool.bool_dec (pn_used (node_at m (slot id d))) true) as [Hu|Hu%not_true_is_false].
  { by destruct Hs; apply put_present. }
  destruct (put_absent Hu). by rewrite (proj2 (Z.ltb_lt _ _)).
Qed.

(** The node found is the only one that may hold the id. *)
Lemma put_elsewhere idx n : pm_nodes m !! idx = Some n → pn_used n = true → idx ≠ slot id d →
  pn_actor_id n ≠ id.
Proof.
  intros Hn Hu Hne <-. destruct (pr_reach _ _ Hr _ _ Hn Hu) as (d0 & Hd0 & Hslot & Hpass).
  assert (node_at m (slot (pn_actor_id n) d0) = n) as Hat by (unfold node_at; by rewrite Hslot, Hn).
  destruct (Z.lt_trichotomy d0 d) as [Hlt|[->|Hgt]]; [|done|].
  - destruct (Hp d0 ltac:(lia)) as [_ Hx]. by rewrite Hat in Hx.
  - destruct (Hpass d ltac:(lia)) as [Hx Hy]. by destruct Hstop as [Hf|]; [congruence|].
Qed.

Let m' : sim_pending_map :=
  mkPending (<[slot id d := mkNode id inp true]> (pm_nodes m)) (pm_buckets m).

Lemma put_node_at idx :
  node_at m' idx = if decide (slot id d = idx) then mkNode id inp true else node_at m idx.
Proof. apply node_at_insert. eapply lookup_lt_Some, put_lookup. Qed.

Lemma put_passed id' d' : passed m id' d' → id' ≠ id → passed m' id' d'.
Proof.
  intros Hpass Hne x Hx. rewrite put_node_at. case_decide as Hs; [|by apply Hpass]. by split; cbn.
Qed.

Lemma put_reach idx n : pm_nodes m' !! idx = Some n → pn_used n = true →
  ∃ d, 0 ≤ d < cap ∧ slot (pn_actor_id n) d = idx ∧ passed m' (pn_actor_id n) d.
Proof.
  intros Hn Hu. destruct (decide (slot id d = idx)) as [<-|Hne].
  - cbn in Hn. rewrite list_lookup_insert_eq in Hn by eapply lookup_lt_Some, put_lookup.
    injection Hn as <-. exists d. split; [done|]. split; [done|]. cbn. intros x Hx.
    rewrite put_node_at. case_decide as Hs; [|by apply Hp].
    apply slot_inj in Hs; lia.
  - cbn in Hn. rewrite list_lookup_insert_ne in Hn by done.
    destruct (pr_reach _ _ Hr _ _ Hn Hu) as (d0 & Hd0 & Hslot & Hpass). exists d0.
    split; [done|]. split; [done|]. apply put_passed; [done|]. by eapply put_elsewhere.
Qed.

Lemma put_content id' inp' : <[id := inp]> s !! id' = Some inp' ↔ mkNode id' inp' true ∈ pm_nodes m'.
Proof.
  rewrite list_elem_of_lookup. destruct (decide (id' = id)) as [->|Hne].
  - rewrite lookup_insert_eq. split.
    + intros [= <-]. exists (slot id d). apply list_lookup_insert_eq. eapply lookup_lt_Some, put_lookup.
    + intros [idx Hidx]. cbn in Hidx. destruct (decide (slot id d = idx)) as [<-|Hne].
      * rewrite list_lookup_insert_eq in Hidx by eapply lookup_lt_Some, put_lookup. by injection Hidx as <-.
      * rewrite list_lookup_insert_ne in Hidx by done.
        by destruct (put_elsewhere idx _ Hidx eq_refl).
  - rewrite lookup_insert_ne, (pr_content _ _ Hr), list_elem_of_lookup by done. cbn.
    apply exist_proper. intros idx. destruct (decide (slot id d = idx)) as [<-|Hs].
    + rewrite list_lookup_insert_eq by eapply lookup_lt_Some, put_lookup. rewrite put_lookup.
      split; [|by intros [= ??]]. intros [= Hn]. rewrite Hn in Hstop. by destruct Hstop.
    + by rewrite list_lookup_insert_ne.
Qed.

Lemma put_count : size (<[id := inp]> s) = used_count (pm_nodes m').
Proof.
  pose proof (used_count_insert _ _ _ (mkNode id inp true) put_lookup) as Hc. cbn [pn_used] in Hc.
  rewrite map_size_insert, (pr_count _ _ Hr). cbn [m' pm_nodes].
  destruct (Bool.bool_dec (pn_used (node_at m (slot id d))) true) as [Hu|Hu%not_true_is_false];
    rewrite Hu in Hc.
  - destruct (put_present Hu) as [x ->]. unfold Datatypes.id. lia.
  - destruct (put_absent Hu) as [-> _]. lia.
Qed.

Lemma put_here : pending_refines m' (bounded_put cap s id inp).
Proof.
  rewrite bounded_put_accepts. constructor.
  - cbn. rewrite length_insert. apply (pr_length _ _ Hr).
  - apply (pr_buckets _ _ Hr).
  - apply put_reach.
  - apply put_content.
  - apply put_count.
Qed.
End Put.

Lemma put_probes_refines m s id inp n : ∀ d, pending_refines m s → 0 ≤ d → d + Z.of_nat n = cap →
  passed m id d → pending_refines (put_probes n d m id inp) (bounded_put cap s id inp).
Proof.
  induction n as [|n IH]; intros d Hr Hd Hn Hp; cbn [put_probes].
  { assert (s !! id = None) as Hs by (apply (absent m s id d); try done; lia).
    unfold bounded_put. rewrite decide_False by (rewrite Hs; by intros [? [=]]).
    rewrite (proj2 (Z.ltb_ge _ _)); [done|]. rewrite (pr_count _ _ Hr), <-(pr_length _ _ Hr).
    unfold used_count. rewrite filter_all; [done|]. apply Forall_lookup. intros idx n Hidx.
    destruct (slot_surj id idx) as (d' & Hd' & Hs').
    { apply lookup_lt_Some in Hidx. pose proof (pr_length _ _ Hr). lia. }
    destruct (Hp d' ltac:(lia)) as [Hu _]. unfold node_at in Hu. by rewrite Hs', Hidx in Hu. }
  rewrite probe_index_slot by (eauto using pr_buckets; lia). fold (node_at m (slot id d)).
  destruct (negb _ || _) eqn:Hstop.
  - apply put_here; [done|lia|done|]. apply orb_true_iff in Hstop as [Hf|Hid].
    + left. by apply negb_true_iff.
    + right. by apply Z.eqb_eq.
  - apply orb_false_iff in Hstop as [Hu%negb_false_iff Hid%Z.eqb_neq].
    apply IH; [done|lia|lia|]. by apply passed_next.
Qed.

Lemma put_refines m s id inp : pending_refines m s →
  pending_refines (sim_pending_put m id inp) (bounded_put cap s id inp).
Proof.
  intros Hr. unfold sim_pending_put. pose proof cap_pos. rewrite (pr_buckets _ _ Hr).
  apply put_probes_refines; [done|lia|lia|]. intros d' Hd'. lia.
Qed.

Lemma get_refines m s id : pending_refines m s → sim_pending_get m id = s !! id.
Proof.
  intros Hr. unfold sim_pending_get. pose proof cap_pos. rewrite (pr_buckets _ _ Hr).
  apply get_probes_refines; [done|lia|lia|]. intros d' Hd'. lia.
Qed.

Lemma init_refines : pending_refines (sim_pending_init cap) ∅.
Proof.
  pose proof cap_pos. unfold sim_pending_init. rewrite (proj2 (Z.eqb_neq _ _)) by lia. constructor; cbn.
  - rewrite length_replicate. lia.
  - done.
  - intros idx n [-> _]%lookup_replicate Hu. done.
  - intros id inp. rewrite lookup_empty. split; [done|]. intros Hin%elem_of_replicate_inv. discriminate.
  - unfold used_count. rewrite filter_none; [done|]. by apply Forall_replicate.
Qed.
End Probes.

(** The map after a sequence of inputs. *)
Definition pending_puts (buckets : Z) (puts : list (Z * SimInput)) : sim_pending_map :=
  foldl (λ m '(id, inp), sim_pending_put m id inp) (sim_pending_init buckets) puts.

Definition spec_puts (cap : Z) (puts : list (Z * SimInput)) : gmap Z SimInput :=
  foldl (λ s '(id, inp), bounded_put cap s id inp) ∅ puts.

Lemma puts_refine k puts : (k < 64)%nat →
  pending_refines k (pending_puts (cap k) puts) (spec_puts (cap k) puts).
Proof.
  intros Hk. unfold pending_puts, spec_puts. induction puts as [|[id inp] puts IH] using rev_ind.
  - by apply init_refines.
  - rewrite !foldl_app. by apply put_refines.
Qed.

(** C34: For every power-of-two size, any sequence of puts leaves an
    open-addressed table whose lookups are those of a finite map of at most
    that many ids: a later input of an actor replaces the earlier one, and a
    new actor is dropped exactly when the table is full. *)
Theorem pending_map_refines (k : nat) puts id :
  (k < 64)%nat → sim_pending_get (pending_puts (2 ^ Z.of_nat k) puts) id = spec_puts (2 ^ Z.of_nat k) puts !! id.
Proof. intros Hk. eapply (get_refines k Hk), puts_refine, Hk. Qed.
