(* ===== verification/SimModels.v ===== *)
(** * The movement models of the simulation library

    Q16.16 physics ([src/src/sim/sim.c]), the two built-in models
    ([src/src/sim/models/free2d.c], [tile2d.c]) and the entry points that
    dispatch to them, as an instance of the interface the replay tool uses.

    Signed 64-bit arithmetic that could overflow, which C leaves undefined,
    is written with wrap-around; [SimTheorems] gives the range in which it
    never happens.  Allocation succeeds. *)

From S2P Require Import Prelude PyStruct PyText PyFloat ReplayFormat ActorStore SimPending.

#[local] Open Scope Z_scope.

Definition KITH_SIM_FIX_SHIFT : Z := 16.
Definition SIM_REF_TICK_MS : Z := 50.
Definition KITH_EINVAL : Z := 1.
Definition KITH_ENOENT : Z := 4.
Definition KITH_EIO : Z := 12.
Definition KITH_ESIZE : Z := 18.
Definition KITH_EABIVER : Z := 19.

Abbreviation i64 := (c_int 8).
Definition INT64_MIN : Z := - 2 ^ 63.

(** ** Fixed point *)

Definition sim_to_fix (v : Z) : Z := Z.shiftl v KITH_SIM_FIX_SHIFT.

(** [(int64_t)(v * 65536.0f)]: the product is exact, the conversion truncates.
    A value out of range, undefined in C, gives [INT64_MIN] as on x86-64. *)
Definition sim_float_to_fix (v : double) : Z :=
  match v with
  | DFin neg m e =>
      let e := e + KITH_SIM_FIX_SHIFT in
      let z := if e <? 0 then m / 2 ^ (- e) else m * 2 ^ e in
      let z := if neg then - z else z in
      if in_s 8 z then z else INT64_MIN
  | _ => INT64_MIN
  end.

Definition sim_abs_fix (v : Z) : Z := i64 (if v <? 0 then - v else v).

(** ** Physics *)

Record sim_physics := mkPhysics {
  base_speed_fix : Z;
  run_speed_fix : Z;
  accel_fix : Z;
  decel_fix : Z;
  move_eps_fix : Z;
}.

Definition sim_ramp_axis (current target accel decel : Z) : Z :=
  let delta := i64 (target - current) in
  if delta =? 0 then current else
  let speeding_up := sim_abs_fix current <? sim_abs_fix target in
  let rate := if speeding_up then accel else decel in
  let abs_delta := sim_abs_fix delta in
  if abs_delta <=? rate then target
  else i64 (current + (if 0 <? delta then rate else - rate)).

(** [ckd_add]: [None] when the sum overflows. *)
Definition ckd_add (a b : Z) : option Z := if in_s 8 (a + b) then Some (a + b) else None.

Definition with_motion (a : SimActor) (px py vx vy : Z) : SimActor :=
  mkActor (ac_id a) px py (ac_pos_z a) vx vy (ac_vel_z a) (ac_input_tick a) (ac_flags a).

Definition target_velocity (p : sim_physics) (inp : option SimInput) : Z * Z :=
  match inp with
  | None => (0, 0)
  | Some i =>
      let speed := if Z.testbit (in_flags i) 0 then run_speed_fix p else base_speed_fix p in
      (Z.quot (i64 (in_move_x i * speed)) 32767, Z.quot (i64 (in_move_y i * speed)) 32767)
  end.

Definition sim_physics_step (p : sim_physics) (actor : SimActor) (inp : option SimInput) (dt_ms : Z)
    : SimActor :=
  let '(target_vx, target_vy) := target_velocity p inp in
  let vx := sim_ramp_axis (ac_vel_x actor) target_vx (accel_fix p) (decel_fix p) in
  let vy := sim_ramp_axis (ac_vel_y actor) target_vy (accel_fix p) (decel_fix p) in
  let '(vx, vy) :=
    if (sim_abs_fix vx <? move_eps_fix p) && (sim_abs_fix vy <? move_eps_fix p)
    then (0, 0) else (vx, vy) in
  let step_vx := Z.quot (i64 (vx * dt_ms)) SIM_REF_TICK_MS in
  let step_vy := Z.quot (i64 (vy * dt_ms)) SIM_REF_TICK_MS in
  match ckd_add (ac_pos_x actor) step_vx, ckd_add (ac_pos_y actor) step_vy with
  | Some new_x, Some new_y => with_motion actor new_x new_y vx vy
  | _, _ => with_motion actor (ac_pos_x actor) (ac_pos_y actor) vx vy
  end.

(** ** Configuration *)

Definition DEFAULT_BASE_SPEED : Z := 32.
Definition DEFAULT_RUN_SPEED : Z := 64.
Definition DEFAULT_ACCEL : Z := 96.
Definition DEFAULT_DECEL : Z := 120.
(** [0.25f] *)
Definition DEFAULT_MOVE_EPS : double := DFin false 8388608 (-25).
Definition TILE2D_DEFAULT_COLLISION_R : Z := 1.

(** [v > 0.0f] *)
Definition float_pos (v : double) : bool :=
  match v with DFin neg m _ => negb neg && (0 <? m) | DInf neg => negb neg | DNaN => false end.

(** [(cfg && cfg->field) ? cfg->field : fallback] *)
Definition field_or (cfg : option SimConfig) (field : SimConfig → Z) (fallback : Z) : Z :=
  match cfg with Some c => if field c =? 0 then fallback else field c | None => fallback end.

(** The physics both models initialise; their defaults coincide. *)
Definition init_physics (cfg : option SimConfig) : sim_physics :=
  mkPhysics (sim_to_fix (field_or cfg cfg_base_speed DEFAULT_BASE_SPEED))
    (sim_to_fix (field_or cfg cfg_run_speed DEFAULT_RUN_SPEED))
    (sim_to_fix (field_or cfg cfg_accel DEFAULT_ACCEL))
    (sim_to_fix (field_or cfg cfg_decel DEFAULT_DECEL))
    (match cfg with
     | Some c => if float_pos (cfg_move_eps c) then sim_float_to_fix (cfg_move_eps c)
                 else sim_float_to_fix DEFAULT_MOVE_EPS
     | None => sim_float_to_fix DEFAULT_MOVE_EPS
     end).

(** ** free2d *)

Record free2d_state := mkFree2d { f2_phys : sim_physics; f2_pending : sim_pending_map }.

Definition free2d_init (cfg : option SimConfig) : free2d_state :=
  mkFree2d (init_physics cfg) (sim_pending_init KITH_SIM_DEFAULT_BUCKET_COUNT).

Definition free2d_step_actor (st : free2d_state) (dt_ms : Z) (a : SimActor) : SimActor :=
  sim_physics_step (f2_phys st) a (sim_pending_get (f2_pending st) (ac_id a)) dt_ms.

Definition free2d_step (st : free2d_state) (actors : list SimActor) (dt_ms : Z) : list SimActor :=
  free2d_step_actor st dt_ms <$> actors.

(** The actor an input leaves behind. *)
Definition with_input (a : SimActor) (i : SimInput) : SimActor :=
  mkActor (ac_id a) (ac_pos_x a) (ac_pos_y a) (ac_pos_z a) (ac_vel_x a) (ac_vel_y a) (ac_vel_z a)
    (c_uint 4 (in_input_tick i)) (c_uint 4 (in_flags i)).

Definition free2d_apply_input (st : free2d_state) (actor : SimActor) (input : SimInput)
    : free2d_state * SimActor :=
  (mkFree2d (f2_phys st) (sim_pending_put (f2_pending st) (ac_id actor) input), with_input actor input).

(** ** tile2d *)

Record tile_grid := mkGrid { g_cells : list Z; g_w : Z; g_h : Z }.

Record tile2d_state := mkTile2d {
  t2_phys : sim_physics;
  t2_pending : sim_pending_map;
  collision_radius_fix : Z;
  t2_grid : option tile_grid;
}.

Definition tile2d_init (cfg : option SimConfig) : tile2d_state :=
  mkTile2d (init_physics cfg) (sim_pending_init KITH_SIM_DEFAULT_BUCKET_COUNT)
    (sim_to_fix (match cfg with Some c => cfg_collision_radius c | None => TILE2D_DEFAULT_COLLISION_R end))
    None.

Definition newline : Byte.byte := Byte.x0a.
Definition hash_sign : Byte.byte := Byte.x23.

(** The loop of [tile2d_measure]: widest line so far, current width, lines
    ended so far. *)
Definition measure_byte (acc : Z * Z * Z) (c : Byte.byte) : Z * Z * Z :=
  let '(width, cur_w, height) := acc in
  if Byte.eqb c newline then (if width <? cur_w then cur_w else width, 0, height + 1)
  else (width, cur_w + 1, height).

Definition tile2d_measure (buf : bytes) : Z * Z :=
  let '(width, cur_w, height) := foldl measure_byte (0, 0, 0) buf in
  if 0 <? cur_w then (if width <? cur_w then cur_w else width, height + 1) else (width, height).

(** The loop that fills the grid. *)
Definition fill_byte (w h : Z) (acc : list Z * Z * Z) (c : Byte.byte) : list Z * Z * Z :=
  let '(grid, x, y) := acc in
  if Byte.eqb c newline then (grid, 0, y + 1)
  else
    let grid := if (y <? h) && (x <? w)
                then <[Z.to_nat (y * w + x) := (if Byte.eqb c hash_sign then 1 else 0)]> grid
                else grid in
    (grid, x + 1, y).

(** [tile2d_grid_load] on the bytes of the file. *)
Definition tile2d_grid_load (st : tile2d_state) (file : option bytes) : Z * tile2d_state :=
  match file with
  | None => (- KITH_EIO, st)
  | Some buf =>
      let cleared := mkTile2d (t2_phys st) (t2_pending st) (collision_radius_fix st) None in
      let '(width, height) := tile2d_measure buf in
      if (width =? 0) || (height =? 0) then (- KITH_EINVAL, cleared) else
      let '(grid, _, _) := foldl (fill_byte width height) (replicate (Z.to_nat (width * height)) 0, 0, 0) buf in
      (0, mkTile2d (t2_phys st) (t2_pending st) (collision_radius_fix st)
            (Some (mkGrid grid width height)))
  end.

Definition solid (g : tile_grid) (tx ty : Z) : bool :=
  (0 <=? ty) && (ty <? g_h g) && (0 <=? tx) && (tx <? g_w g) &&
  negb (default 0 (g_cells g !! Z.to_nat (ty * g_w g + tx)) =? 0).

(** [for (t = lo; t <= hi; ++t)] *)
Definition tile_range (lo hi : Z) : list Z := seqZ lo (hi - lo + 1).

Definition tile_of (z : Z) : Z := c_int 4 (Z.shiftr (i64 z) KITH_SIM_FIX_SHIFT).

Definition tile2d_blocked (st : tile2d_state) (px py : Z) : bool :=
  match t2_grid st with
  | None => false
  | Some g =>
      let r := collision_radius_fix st in
      existsb (λ ty, existsb (λ tx, solid g tx ty) (tile_range (tile_of (px - r)) (tile_of (px + r))))
        (tile_range (tile_of (py - r)) (tile_of (py + r)))
  end.

Definition tile2d_resolve (st : tile2d_state) (a : SimActor) (old_x old_y : Z) : SimActor :=
  match t2_grid st with
  | None => a
  | Some _ =>
      let a := if tile2d_blocked st (ac_pos_x a) old_y
               then with_motion a old_x (ac_pos_y a) 0 (ac_vel_y a) else a in
      if tile2d_blocked st (ac_pos_x a) (ac_pos_y a)
      then with_motion a (ac_pos_x a) old_y (ac_vel_x a) 0 else a
  end.

Definition tile2d_step_actor (st : tile2d_state) (dt_ms : Z) (a : SimActor) : SimActor :=
  tile2d_resolve st
    (sim_physics_step (t2_phys st) a (sim_pending_get (t2_pending st) (ac_id a)) dt_ms)
    (ac_pos_x a) (ac_pos_y a).

Definition tile2d_step (st : tile2d_state) (actors : list SimActor) (dt_ms : Z) : list SimActor :=
  tile2d_step_actor st dt_ms <$> actors.

Definition tile2d_apply_input (st : tile2d_state) (actor : SimActor) (input : SimInput)
    : tile2d_state * SimActor :=
  (mkTile2d (t2_phys st) (sim_pending_put (t2_pending st) (ac_id actor) input)
     (collision_radius_fix st) (t2_grid st), with_input actor input).

(** ** The library *)

(** A model instance: the vtable it was created with and its state. *)
Inductive kith_sim_model :=
  | Free2d (st : free2d_state)
  | Tile2d (st : tile2d_state).

(** [strcmp] sees the name up to its first NUL. *)
Fixpoint c_str (s : pystr) : pystr :=
  match s with [] => [] | c :: s => if c =? 0 then [] else c :: c_str s end.

(** The registry holds the two built-in models. *)
Definition sim_registry_find (name : pystr) : option (option SimConfig → kith_sim_model) :=
  if decide (c_str name = str "tile2d") then Some (λ cfg, Tile2d (tile2d_init cfg))
  else if decide (c_str name = str "free2d") then Some (λ cfg, Free2d (free2d_init cfg))
  else None.

Definition sim_create_model (name : pystr) (cfg : option SimConfig) : Z * option kith_sim_model :=
  match sim_registry_find name with
  | None => (- KITH_ENOENT, None)
  | Some init =>
      match cfg with
      | Some c =>
          if cfg_size c <? sizeof kith_sim_config_fields then (- KITH_ESIZE, None)
          else if negb (cfg_abi_version c =? KITH_ABI_VERSION) then (- KITH_EABIVER, None)
          else (0, Some (init cfg))
      | None => (0, Some (init cfg))
      end
  end.

Definition sim_model_step (m : kith_sim_model) (actors : list SimActor) (dt_ms : Z)
    : Z * (kith_sim_model * list SimActor) :=
  match m with
  | Free2d st => (0, (m, free2d_step st actors dt_ms))
  | Tile2d st => (0, (m, tile2d_step st actors dt_ms))
  end.

Definition sim_model_apply_input (m : kith_sim_model) (actor : SimActor) (input : SimInput)
    : Z * (kith_sim_model * SimActor) :=
  match m with
  | Free2d st => let '(st, a) := free2d_apply_input st actor input in (0, (Free2d st, a))
  | Tile2d st => let '(st, a) := tile2d_apply_input st actor input in (0, (Tile2d st, a))
  end.

(** The files a behavior path may name. *)
Definition file_system := pystr → option bytes.

Definition sim_model_load_behavior (fs : file_system) (m : kith_sim_model) (path : pystr)
    : Z * kith_sim_model :=
  match m with
  | Free2d st => (0, m)
  | Tile2d st => let '(rc, st) := tile2d_grid_load st (fs path) in (rc, Tile2d st)
  end.

(** The library as the replay tool calls it. *)
Definition KithSim (fs : file_system) : SimLib := {|
  mstate := kith_sim_model;
  kith_sim_create := (0, true);
  kith_sim_create_model := sim_create_model;
  kith_sim_model_load_behavior := sim_model_load_behavior fs;
  kith_sim_model_apply_input := sim_model_apply_input;
  kith_sim_model_step := sim_model_step;
|}.
