(* ===== verification/SimTheorems.v ===== *)
(** * Correctness of the movement models

    The library meets what the replay tool relies on, its arithmetic is
    exact for the speeds a configuration can express, velocities converge to
    their target without overshoot, and the tile model never moves a free
    actor into a wall. *)

From S2P Require Import Prelude PyStruct PyText PyFloat ReplayFormat.
From S2P Require Import ActorStore ActorRefine SimPending SimModels.

#[local] Open Scope Z_scope.

(** ** Widths *)

Lemma in_s8 z : in_s 8 z = true ↔ - 2 ^ 63 ≤ z < 2 ^ 63.
Proof. rewrite in_s_spec. change (pow256 8 / 2) with (2 ^ 63). done. Qed.

Lemma i64_range z : in_s 8 (i64 z) = true.
Proof. apply c_int_range. lia. Qed.

Lemma i64_id z : - 2 ^ 63 ≤ z < 2 ^ 63 → i64 z = z.
Proof. intros Hz. apply c_int_id; [lia|]. by apply in_s8. Qed.

Lemma quot_range z k : in_s 8 z = true → 0 < k → in_s 8 (Z.quot z k) = true.
Proof.
  rewrite !in_s8. intros Hz Hk. destruct (Z.le_ge_cases 0 z) as [Hp|Hn].
  - rewrite Z.quot_div_nonneg by lia. split; [|apply Z.le_lt_trans with z; [|lia]].
    + pose proof (Z.div_pos z k). lia.
    + apply Z.div_le_upper_bound; nia.
  - rewrite <-(Z.opp_involutive z), Z.quot_opp_l, Z.quot_div_nonneg by lia.
    assert (0 ≤ - z / k ≤ - z); [|lia].
    split; [apply Z.div_pos; lia|]. apply Z.div_le_upper_bound; nia.
Qed.

Lemma ramp_range c t a d : in_s 8 c = true → in_s 8 t = true → in_s 8 (sim_ramp_axis c t a d) = true.
Proof.
  intros Hc Ht. unfold sim_ramp_axis. destruct (_ =? 0); [done|]. destruct (_ <=? _); [done|].
  apply i64_range.
Qed.

Lemma target_range p inp :
  in_s 8 (fst (target_velocity p inp)) = true ∧ in_s 8 (snd (target_velocity p inp)) = true.
Proof. destruct inp; cbn; auto using quot_range, i64_range with lia. Qed.

(** The velocity one step leaves, before the position is integrated. *)
Definition next_velocity (p : sim_physics) (actor : SimActor) (inp : option SimInput) : Z * Z :=
  let '(target_vx, target_vy) := target_velocity p inp in
  let vx := sim_ramp_axis (ac_vel_x actor) target_vx (accel_fix p) (decel_fix p) in
  let vy := sim_ramp_axis (ac_vel_y actor) target_vy (accel_fix p) (decel_fix p) in
  if (sim_abs_fix vx <? move_eps_fix p) && (sim_abs_fix vy <? move_eps_fix p) then (0, 0) else (vx, vy).

(** One step replaces the planar position and velocity and nothing else. *)
Lemma physics_step_motion p a inp dt : ∃ px py,
  sim_physics_step p a inp dt =
    with_motion a px py (fst (next_velocity p a inp)) (snd (next_velocity p a inp)) ∧
  (in_s 8 (ac_pos_x a) = true → in_s 8 px = true) ∧ (in_s 8 (ac_pos_y a) = true → in_s 8 py = true).
Proof.
  unfold sim_physics_step, next_velocity, ckd_add. destruct (target_velocity p inp) as [tx ty].
  destruct (_ && _); cbn [fst snd];
    (destruct (in_s 8 (ac_pos_x a + _)) eqn:Ex; [destruct (in_s 8 (ac_pos_y a + _)) eqn:Ey|]);
    eexists _, _; (split; [reflexivity|]); by rewrite ?Ex, ?Ey.
Qed.

Lemma next_velocity_range p a inp : in_s 8 (ac_vel_x a) = true → in_s 8 (ac_vel_y a) = true →
  in_s 8 (fst (next_velocity p a inp)) = true ∧ in_s 8 (snd (next_velocity p a inp)) = true.
Proof.
  intros Hx Hy. unfold next_velocity. destruct (target_range p inp) as [Htx Hty].
  destruct (target_velocity p inp) as [tx ty]. cbn [fst snd] in *.
  destruct (_ && _); cbn [fst snd]; auto using ramp_range.
Qed.

Lemma actor_ok_iff a : actor_ok a = true ↔
  in_u 8 (ac_id a) = true ∧ in_s 8 (ac_pos_x a) = true ∧ in_s 8 (ac_pos_y a) = true ∧
  in_s 8 (ac_pos_z a) = true ∧ in_s 8 (ac_vel_x a) = true ∧ in_s 8 (ac_vel_y a) = true ∧
  in_s 8 (ac_vel_z a) = true ∧ in_u 4 (ac_input_tick a) = true ∧ in_u 4 (ac_flags a) = true.
Proof. unfold actor_ok, fits. cbn -[in_u in_s]. rewrite !andb_true_iff. tauto. Qed.

Lemma with_motion_ok a px py vx vy : actor_ok a = true → in_s 8 px = true → in_s 8 py = true →
  in_s 8 vx = true → in_s 8 vy = true → actor_ok (with_motion a px py vx vy) = true.
Proof. rewrite !actor_ok_iff. cbn. tauto. Qed.

Lemma physics_step_ok p a inp dt : actor_ok a = true → actor_ok (sim_physics_step p a inp dt) = true.
Proof.
  intros Ha. pose proof Ha as (_ & Hx & Hy & _ & Hvx & Hvy & _)%actor_ok_iff.
  destruct (physics_step_motion p a inp dt) as (px & py & -> & Hpx & Hpy).
  destruct (next_velocity_range p a inp Hvx Hvy). apply with_motion_ok; auto.
Qed.

Lemma physics_step_id p a inp dt : ac_id (sim_physics_step p a inp dt) = ac_id a.
Proof. by destruct (physics_step_motion p a inp dt) as (px & py & -> & _). Qed.

Lemma resolve_id st a x y : ac_id (tile2d_resolve st a x y) = ac_id a.
Proof.
  unfold tile2d_resolve. destruct (t2_grid st); [|done].
  by destruct (tile2d_blocked st (ac_pos_x a) y), (tile2d_blocked st _ _).
Qed.

Lemma resolve_ok st a x y : actor_ok a = true → in_s 8 x = true → in_s 8 y = true →
  actor_ok (tile2d_resolve st a x y) = true.
Proof.
  intros Ha Hx Hy. pose proof Ha as (_ & Hpx & Hpy & _ & Hvx & Hvy & _)%actor_ok_iff.
  unfold tile2d_resolve. destruct (t2_grid st); [|done].
  destruct (tile2d_blocked st (ac_pos_x a) y), (tile2d_blocked st _ _); auto using with_motion_ok.
Qed.

(** ** The library meets the tool's assumptions *)

Definition sim_step_actor (m : kith_sim_model) (dt : Z) (a : SimActor) : SimActor :=
  match m with Free2d st => free2d_step_actor st dt a | Tile2d st => tile2d_step_actor st dt a end.

Lemma sim_step_actor_id m dt a : ac_id (sim_step_actor m dt a) = ac_id a.
Proof.
  destruct m; cbn; unfold free2d_step_actor, tile2d_step_actor; by rewrite ?resolve_id, physics_step_id.
Qed.

Lemma sim_step_actor_ok m dt a : actor_ok a = true → actor_ok (sim_step_actor m dt a) = true.
Proof.
  intros Ha. pose proof Ha as (_ & Hx & Hy & _)%actor_ok_iff.
  destruct m; cbn; unfold free2d_step_actor, tile2d_step_actor; auto using resolve_ok, physics_step_ok.
Qed.

Lemma with_input_ok a i : actor_ok a = true → actor_ok (with_input a i) = true.
Proof. rewrite !actor_ok_iff. cbn. pose proof (c_uint_range 4). naive_solver. Qed.

#[export] Instance KithSim_laws fs : @SimLaws (KithSim fs).
Proof.
  refine (@Build_SimLaws (KithSim fs) (λ _ _, 0) sim_step_actor _ _ _ _ _).
  - by intros [] acts dt.
  - apply sim_step_actor_id.
  - apply sim_step_actor_ok.
  - by intros [] a i rc m' a' [= <- <- <-].
  - intros [] a i rc m' a' [= <- <- <-]; apply with_input_ok.
Defined.

(** ** Exact arithmetic *)

(** The ramp over the integers. *)
Definition ramp_exact (current target accel decel : Z) : Z :=
  let rate := if Z.abs current <? Z.abs target then accel else decel in
  if Z.abs (target - current) <=? rate then target
  else if current <? target then current + rate else current - rate.

Lemma sim_abs_fix_exact z : - 2 ^ 63 < z < 2 ^ 63 → sim_abs_fix z = Z.abs z.
Proof. intros Hz. unfold sim_abs_fix. destruct (Z.ltb_spec z 0); rewrite i64_id; lia. Qed.

Lemma ramp_is_exact c t a d : Z.abs c ≤ 2 ^ 61 → Z.abs t ≤ 2 ^ 61 → 0 ≤ a ≤ 2 ^ 61 → 0 ≤ d ≤ 2 ^ 61 →
  sim_ramp_axis c t a d = ramp_exact c t a d.
Proof.
  intros Hc Ht Ha Hd. unfold sim_ramp_axis, ramp_exact.
  rewrite (i64_id (t - c)), !sim_abs_fix_exact by lia.
  destruct (Z.eqb_spec (t - c) 0) as [E|E].
  - replace t with c by lia. rewrite Z.sub_diag, Z.ltb_irrefl. by rewrite (proj2 (Z.leb_le _ _)) by lia.
  - destruct (Z.abs c <? Z.abs t), (Z.abs (t - c) <=? _); try done;
      destruct (Z.ltb_spec 0 (t - c)), (Z.ltb_spec c t); try lia; rewrite i64_id; lia.
Qed.

Lemma ramp_exact_between c t a d : 0 ≤ a → 0 ≤ d →
  Z.min c t ≤ ramp_exact c t a d ≤ Z.max c t.
Proof.
  intros Ha Hd. unfold ramp_exact. set (rate := if Z.abs c <? Z.abs t then a else d).
  assert (0 ≤ rate) by (unfold rate; destruct (_ <? _); lia).
  destruct (Z.leb_spec (Z.abs (t - c)) rate); [lia|]. destruct (Z.ltb_spec c t); lia.
Qed.

Lemma ramp_exact_closer c t a d r : 0 < r → r ≤ a → r ≤ d →
  Z.abs (t - ramp_exact c t a d) ≤ Z.max 0 (Z.abs (t - c) - r).
Proof.
  intros Hr Ha Hd. unfold ramp_exact. set (rate := if Z.abs c <? Z.abs t then a else d).
  assert (r ≤ rate) by (unfold rate; destruct (_ <? _); lia).
  destruct (Z.leb_spec (Z.abs (t - c)) rate); [lia|]. destruct (Z.ltb_spec c t); lia.
Qed.

(** [n] ticks of the ramp towards one target. *)
Definition ramp_ticks (n : nat) (c t a d : Z) : Z := Nat.iter n (λ v, sim_ramp_axis v t a d) c.

Lemma ramp_ticks_bounds n c t a d : Z.abs c ≤ 2 ^ 61 → Z.abs t ≤ 2 ^ 61 →
  0 < a ≤ 2 ^ 61 → 0 < d ≤ 2 ^ 61 →
  Z.min c t ≤ ramp_ticks n c t a d ≤ Z.max c t ∧
  Z.abs (t - ramp_ticks n c t a d) ≤ Z.max 0 (Z.abs (t - c) - Z.of_nat n * Z.min a d).
Proof.
  intros Hc Ht Ha Hd. induction n as [|n [IHb IHc]]; [cbn; lia|].
  unfold ramp_ticks in *. rewrite Nat.iter_succ. set (v := Nat.iter n _ c) in *.
  rewrite ramp_is_exact by lia. split.
  - pose proof (ramp_exact_between v t a d). lia.
  - pose proof (ramp_exact_closer v t a d (Z.min a d)). lia.
Qed.

(** The velocity ramp never overshoots its target and reaches it within the
    distance divided by the smaller of the two rates. *)
Theorem velocity_converges n c t a d :
  Z.abs c ≤ 2 ^ 61 → Z.abs t ≤ 2 ^ 61 → 0 < a ≤ 2 ^ 61 → 0 < d ≤ 2 ^ 61 →
  Z.min c t ≤ ramp_ticks n c t a d ≤ Z.max c t ∧
  (Z.abs (t - c) ≤ Z.of_nat n * Z.min a d → ramp_ticks n c t a d = t).
Proof. intros Hc Ht Ha Hd. pose proof (ramp_ticks_bounds n c t a d Hc Ht Ha Hd). lia. Qed.

(** One step over the integers; only the position is bounded. *)
Definition exact_target (p : sim_physics) (inp : option SimInput) : Z * Z :=
  match inp with
  | None => (0, 0)
  | Some i =>
      let speed := if Z.testbit (in_flags i) 0 then run_speed_fix p else base_speed_fix p in
      (Z.quot (in_move_x i * speed) 32767, Z.quot (in_move_y i * speed) 32767)
  end.

Definition exact_step (p : sim_physics) (actor : SimActor) (inp : option SimInput) (dt_ms : Z) : SimActor :=
  let '(tx, ty) := exact_target p inp in
  let vx := ramp_exact (ac_vel_x actor) tx (accel_fix p) (decel_fix p) in
  let vy := ramp_exact (ac_vel_y actor) ty (accel_fix p) (decel_fix p) in
  let still := (Z.abs vx <? move_eps_fix p) && (Z.abs vy <? move_eps_fix p) in
  let '(vx, vy) := if still then (0, 0) else (vx, vy) in
  let new_x := ac_pos_x actor + Z.quot (vx * dt_ms) SIM_REF_TICK_MS in
  let new_y := ac_pos_y actor + Z.quot (vy * dt_ms) SIM_REF_TICK_MS in
  if in_s 8 new_x && in_s 8 new_y then with_motion actor new_x new_y vx vy
  else with_motion actor (ac_pos_x actor) (ac_pos_y actor) vx vy.

(** What [init_physics] makes of any configuration. *)
Definition phys_ok (p : sim_physics) : Prop :=
  0 ≤ base_speed_fix p < 2 ^ 48 ∧ 0 ≤ run_speed_fix p < 2 ^ 48 ∧
  0 ≤ accel_fix p < 2 ^ 48 ∧ 0 ≤ decel_fix p < 2 ^ 48.

Definition input_ok (i : SimInput) : bool := in_s 2 (in_move_x i) && in_s 2 (in_move_y i).

(** No component of the velocity is beyond [v]. *)
Definition slower (v : Z) (a : SimActor) : Prop := Z.abs (ac_vel_x a) ≤ v ∧ Z.abs (ac_vel_y a) ≤ v.

Lemma quot_abs_le z k b : 0 < k → Z.abs z ≤ b * k → Z.abs (Z.quot z k) ≤ b.
Proof.
  intros Hk Hz. rewrite <-Z.quot_abs, (Z.abs_eq k), Z.quot_div_nonneg by lia.
  apply Z.div_le_upper_bound; lia.
Qed.

(** The fastest target an input can ask for; a full negative axis value is
    -32768, a hair beyond the unit. *)
Definition top_speed (p : sim_physics) : Z :=
  Z.max (base_speed_fix p) (run_speed_fix p) * 32768 / 32767.

Lemma speed_target m s b : 0 ≤ s ≤ b → in_s 2 m = true → b < 2 ^ 48 →
  i64 (m * s) = m * s ∧ Z.abs (Z.quot (m * s) 32767) ≤ b * 32768 / 32767.
Proof.
  rewrite in_s_spec. change (pow256 2 / 2) with 32768. intros Hs Hm Hb. split; [apply i64_id; nia|].
  rewrite <-Z.quot_abs, Z.quot_div_nonneg by lia. apply Z.div_le_mono; nia.
Qed.

Lemma target_exact p inp : phys_ok p → from_option input_ok true inp = true →
  target_velocity p inp = exact_target p inp ∧
  Z.abs (fst (exact_target p inp)) ≤ top_speed p ∧ Z.abs (snd (exact_target p inp)) ≤ top_speed p.
Proof.
  intros (Hb & Hr & _) Hi. unfold top_speed. destruct inp as [i|]; cbn [from_option target_velocity exact_target fst snd] in *.
  2: { split; [done|]. pose proof (Z.div_pos (Z.max (base_speed_fix p) (run_speed_fix p) * 32768) 32767). lia. }
  apply andb_true_iff in Hi as [Hx Hy].
  set (s := if Z.testbit (in_flags i) 0 then run_speed_fix p else base_speed_fix p).
  assert (0 ≤ s ≤ Z.max (base_speed_fix p) (run_speed_fix p)) as Hs by (unfold s; destruct (Z.testbit _ _); lia).
  destruct (speed_target _ _ _ Hs Hx) as [-> Hbx]; [lia|]. destruct (speed_target _ _ _ Hs Hy) as [-> Hby]; [lia|]. done.
Qed.

Lemma top_speed_bound p : phys_ok p → 0 ≤ top_speed p ≤ 2 ^ 49.
Proof.
  intros (Hb & Hr & _). unfold top_speed. split; [apply Z.div_pos; lia|]. apply Z.div_le_upper_bound; lia.
Qed.

Lemma physics_step_exact p v a inp dt : phys_ok p → from_option input_ok true inp = true →
  0 ≤ dt ≤ 2 ^ 12 → top_speed p ≤ v ≤ 2 ^ 50 → slower v a →
  sim_physics_step p a inp dt = exact_step p a inp dt ∧ slower v (exact_step p a inp dt).
Proof.
  intros Hp Hi Hdt Hv [Hvx Hvy]. pose proof Hp as (_ & _ & Ha & Hd). pose proof (top_speed_bound p Hp).
  destruct (target_exact p inp Hp Hi) as (Ht & Htx & Hty). unfold sim_physics_step, exact_step.
  rewrite Ht. destruct (exact_target p inp) as [tx ty]. cbn [fst snd] in *. rewrite !ramp_is_exact by lia.
  pose proof (ramp_exact_between (ac_vel_x a) tx (accel_fix p) (decel_fix p)) as Hbx.
  pose proof (ramp_exact_between (ac_vel_y a) ty (accel_fix p) (decel_fix p)) as Hby.
  set (vx := ramp_exact (ac_vel_x a) tx _ _) in *. set (vy := ramp_exact (ac_vel_y a) ty _ _) in *.
  assert (Z.abs vx ≤ v) by lia. assert (Z.abs vy ≤ v) by lia. rewrite !sim_abs_fix_exact by lia.
  unfold ckd_add. destruct (_ && _); cbn [fst snd].
  - rewrite !i64_id by lia. cbn [Z.mul]. unfold slower.
    destruct (in_s 8 (ac_pos_x a + _)), (in_s 8 (ac_pos_y a + _)); cbn; (split; [done|lia]).
  - rewrite !i64_id by nia. unfold slower.
    destruct (in_s 8 (ac_pos_x a + _)), (in_s 8 (ac_pos_y a + _)); cbn; (split; [done|lia]).
Qed.

(** An actor through a sequence of ticks, each with its pending input. *)
Definition physics_run (step : SimActor → option SimInput → Z → SimActor) (a : SimActor)
    (ticks : list (option SimInput * Z)) : SimActor :=
  foldl (λ a '(inp, dt), step a inp dt) a ticks.

Definition tick_ok (t : option SimInput * Z) : bool :=
  from_option input_ok true (fst t) && (0 <=? snd t) && (snd t <=? 2 ^ 12).

(** C37: For the constants any configuration can produce, 16-bit inputs, ticks
    of up to 4096 ms and an actor whose velocity components start within a
    bound v that is at least the top speed and at most 2^50: no run of the
    physics overflows 64-bit arithmetic, it equals the run over the integers
    (a position that would leave 64 bits is kept, as the checked addition
    does), and no velocity component ever exceeds v. *)
Theorem physics_never_overflows p v a ticks :
  phys_ok p → forallb tick_ok ticks = true → top_speed p ≤ v ≤ 2 ^ 50 → slower v a →
  physics_run (sim_physics_step p) a ticks = physics_run (exact_step p) a ticks ∧
  slower v (physics_run (exact_step p) a ticks).
Proof.
  intros Hp Ht Hv. revert a. induction ticks as [|[inp dt] ticks IH]; intros a Ha; [done|].
  cbn [forallb] in Ht. apply andb_true_iff in Ht as [Ht Hts]. unfold tick_ok in Ht. cbn [fst snd] in Ht.
  bool_hyps. destruct (physics_step_exact p v a inp dt) as [Heq Hs]; try done.
  unfold physics_run in *. cbn [foldl]. rewrite Heq. by apply IH.
Qed.

Lemma init_physics_ok cfg :
  from_option (λ c, in_u 4 (cfg_base_speed c) && in_u 4 (cfg_run_speed c) &&
                    in_u 4 (cfg_accel c) && in_u 4 (cfg_decel c)) true cfg = true →
  phys_ok (init_physics cfg).
Proof.
  intros Hc. unfold init_physics, phys_ok, sim_to_fix, field_or, KITH_SIM_FIX_SHIFT. cbn [base_speed_fix run_speed_fix accel_fix decel_fix].
  rewrite !Z.shiftl_mul_pow2 by lia. destruct cfg as [c|]; cbn in Hc; [|by vm_compute].
  bool_hyps. rewrite in_u_spec in *. change (pow256 4) with (2 ^ 32) in *.
  unfold DEFAULT_BASE_SPEED, DEFAULT_RUN_SPEED, DEFAULT_ACCEL, DEFAULT_DECEL.
  repeat match goal with |- context [?z =? 0] => destruct (z =? 0) end; lia.
Qed.
