(* ===== verification/SimGrid.v ===== *)
(** * The tile grid, and replays on the built-in models

    The behavior file is text: one line per row, [#] for a solid tile.  The
    loader agrees with that reading, and an actor that starts clear of solid
    tiles stays clear of them.  The replay theorems instantiated with the
    modelled library: without a behavior grid the two models are
    indistinguishable to a replay. *)

From S2P Require Import Prelude PyStruct PyText PyFloat ReplayFormat ReplayCodec ActorStore ActorRefine ReplayTool ToolTheorems SimPending SimModels SimTheorems.

#[local] Open Scope Z_scope.

(** ** Rows of the file *)

Lemma lookup_snoc {A} (l : list A) x i :
  (l ++ [x]) !! i = if decide (i = length l) then Some x else l !! i.
Proof.
  case_decide as Hi; [subst; by apply list_lookup_middle|].
  destruct (decide (i < length l)%nat); [by rewrite lookup_app_l|].
  rewrite !lookup_ge_None_2; [done|lia|]. rewrite length_app. cbn. lia.
Qed.

(** The complete lines and the line in progress. *)
Definition row_byte (acc : list bytes * bytes) (c : Byte.byte) : list bytes * bytes :=
  if Byte.eqb c newline then (fst acc ++ [snd acc], []) else (fst acc, snd acc ++ [c]).

Definition rows (buf : bytes) : list bytes :=
  let '(ls, cur) := foldl row_byte ([], []) buf in ls ++ [cur].

Definition tile_char (buf : bytes) (x y : nat) : option Byte.byte :=
  rows buf !! y ≫= λ row, row !! x.

Definition widest (ls : list bytes) : Z := foldr Z.max 0 ((λ l, Z.of_nat (length l)) <$> ls).

Lemma widest_snoc ls l : widest (ls ++ [l]) = Z.max (widest ls) (Z.of_nat (length l)).
Proof.
  unfold widest. rewrite fmap_app. cbn. induction (_ <$> ls) as [|z zs IH]; cbn; [lia|]. rewrite IH. lia.
Qed.

Lemma widest_elem ls l : l ∈ ls → Z.of_nat (length l) ≤ widest ls.
Proof. induction 1; unfold widest in *; cbn; lia. Qed.

Lemma measure_rows buf :
  foldl measure_byte (0, 0, 0) buf =
  let '(ls, cur) := foldl row_byte ([], []) buf in
  (widest ls, Z.of_nat (length cur), Z.of_nat (length ls)).
Proof.
  induction buf as [|c buf IH] using rev_ind; [done|]. rewrite !foldl_app. cbn [foldl]. rewrite IH.
  destruct (foldl row_byte ([], []) buf) as [ls cur]. unfold measure_byte, row_byte. cbn [fst snd].
  destruct (Byte.eqb c newline).
  - rewrite widest_snoc, length_app. cbn [length]. f_equal; [|lia]. f_equal.
    destruct (Z.ltb_spec (widest ls) (Z.of_nat (length cur))); lia.
  - rewrite length_app. cbn [length]. repeat f_equal. lia.
Qed.

(** The dimensions cover every character of the file. *)
Lemma measure_covers buf w h x y c : tile2d_measure buf = (w, h) → tile_char buf x y = Some c →
  Z.of_nat x < w ∧ Z.of_nat y < h.
Proof.
  unfold tile2d_measure, tile_char, rows. rewrite measure_rows.
  destruct (foldl row_byte ([], []) buf) as [ls cur]. intros Hm Hc.
  apply bind_Some in Hc as (row & Hrow & Hx). apply lookup_lt_Some in Hx.
  assert (widest ls ≤ w ∧ Z.of_nat (length cur) ≤ w ∧
          (Z.of_nat (length ls) < h ∨ Z.of_nat (length ls) = h ∧ length cur = 0%nat)) as (Hw & Hcw & Hh).
  { destruct (Z.ltb_spec 0 (Z.of_nat (length cur))); [destruct (Z.ltb_spec (widest ls) (Z.of_nat (length cur)))|];
      injection Hm as <- <-; split_and!; try lia. unfold widest. induction (_ <$> ls); cbn; lia. }
  apply lookup_app_Some in Hrow as [Hrow|[Hge Hrow]].
  - pose proof (widest_elem ls row (list_elem_of_lookup_2 _ _ _ Hrow)). apply lookup_lt_Some in Hrow. lia.
  - apply list_lookup_singleton_Some in Hrow as [Hy ->]. lia.
Qed.

(** ** Filling the grid *)

Definition char_cell (o : option Byte.byte) : Z :=
  match o with Some c => if Byte.eqb c hash_sign then 1 else 0 | None => 0 end.

Definition row_cell (ls : list bytes) (cur : bytes) (x y : nat) : Z :=
  char_cell ((ls ++ [cur]) !! y ≫= λ row, row !! x).

Section Fill.
Context (w h : Z).

Definition index (x y : nat) : nat := Z.to_nat (Z.of_nat y * w + Z.of_nat x).

Definition cells_match (grid : list Z) (ls : list bytes) (cur : bytes) : Prop :=
  Z.of_nat (length grid) = w * h ∧
  ∀ x y, Z.of_nat x < w → Z.of_nat y < h → grid !! index x y = Some (row_cell ls cur x y).

Lemma index_inj x y x' y' : Z.of_nat x < w → Z.of_nat x' < w → index x y = index x' y' → x = x' ∧ y = y'.
Proof.
  unfold index. intros Hx Hx' He. assert (Z.of_nat y = Z.of_nat y'); [|nia].
  assert (Z.of_nat y * w + Z.of_nat x = Z.of_nat y' * w + Z.of_nat x') as Heq by nia. nia.
Qed.

Lemma row_cell_newline ls cur x y : row_cell (ls ++ [cur]) [] x y = row_cell ls cur x y.
Proof.
  unfold row_cell. rewrite (lookup_snoc (ls ++ [cur])). case_decide as Hy; [|done].
  subst. by rewrite (lookup_ge_None_2 (ls ++ [cur])) by lia.
Qed.

Lemma row_cell_char ls cur c x y :
  row_cell ls (cur ++ [c]) x y =
  if decide (y = length ls ∧ x = length cur) then char_cell (Some c) else row_cell ls cur x y.
Proof.
  unfold row_cell. rewrite !lookup_snoc. destruct (decide (y = length ls)) as [->|Hy].
  - cbn [mbind option_bind]. rewrite lookup_snoc. by destruct (decide (x = length cur)), (decide (_ ∧ _)); try tauto.
  - by rewrite decide_False by tauto.
Qed.

Lemma fill_matches buf grid0 ls0 cur0 : cells_match grid0 ls0 cur0 →
  let '(grid, x, y) := foldl (fill_byte w h) (grid0, Z.of_nat (length cur0), Z.of_nat (length ls0)) buf in
  let '(ls, cur) := foldl row_byte (ls0, cur0) buf in
  cells_match grid ls cur.
Proof.
  revert grid0 ls0 cur0. induction buf as [|c buf IH]; intros grid0 ls0 cur0 Hm; [done|].
  cbn [foldl]. unfold fill_byte at 2, row_byte at 2. cbn [fst snd]. destruct (Byte.eqb c newline).
  - replace (Z.of_nat (length ls0) + 1) with (Z.of_nat (length (ls0 ++ [cur0])))
      by (rewrite length_app; cbn; lia).
    apply (IH grid0 (ls0 ++ [cur0]) []). destruct Hm as [Hl Hc]. split; [done|]. intros x y Hx Hy.
    rewrite row_cell_newline. by apply Hc.
  - replace (Z.of_nat (length cur0) + 1) with (Z.of_nat (length (cur0 ++ [c])))
      by (rewrite length_app; cbn; lia).
    apply IH. fold (index (length cur0) (length ls0)). destruct Hm as [Hl Hc].
    change (if Byte.eqb c hash_sign then 1 else 0) with (char_cell (Some c)).
    destruct (Z.ltb_spec (Z.of_nat (length ls0)) h) as [Hh|Hh]; cbn [andb];
      [destruct (Z.ltb_spec (Z.of_nat (length cur0)) w) as [Hw|Hw]|].
    + split; [by rewrite length_insert|]. intros x y Hx Hy. rewrite row_cell_char.
      case_decide as Hd; [destruct Hd as [-> ->]|].
      * apply list_lookup_insert_eq. unfold index. nia.
      * rewrite list_lookup_insert_ne; [by apply Hc|]. intros He.
        apply index_inj in He as [<- <-]; [|done..]. by destruct Hd.
    + split; [done|]. intros x y Hx Hy. rewrite row_cell_char, decide_False by lia. by apply Hc.
    + split; [done|]. intros x y Hx Hy. rewrite row_cell_char, decide_False by lia. by apply Hc.
Qed.
End Fill.

Lemma measure_nonneg buf w h : tile2d_measure buf = (w, h) → 0 ≤ w ∧ 0 ≤ h.
Proof.
  unfold tile2d_measure. rewrite measure_rows. destruct (foldl row_byte ([], []) buf) as [ls cur].
  assert (0 ≤ widest ls) by (unfold widest; induction (_ <$> ls); cbn; lia).
  intros Hm. destruct (0 <? _); [destruct (_ <? _)|]; injection Hm as <- <-; lia.
Qed.

Lemma init_matches w h : 0 ≤ w → 0 ≤ h → cells_match w h (replicate (Z.to_nat (w * h)) 0) [] [].
Proof.
  intros Hw Hh. split; [rewrite length_replicate; nia|]. intros x y Hx Hy.
  assert (row_cell [] [] x y = 0) as -> by by destruct x, y as [|[]].
  apply lookup_replicate. split; [done|]. unfold index. nia.
Qed.

Lemma byte_eqb_eq a b : Byte.eqb a b = true → a = b.
Proof. apply Byte.byte_dec_bl. Qed.

(** A loaded behavior grid is the text file: the tile in column x of row y is
    solid exactly when the x-th character of the y-th line is #. *)
Theorem grid_load_reads_rows st buf st' g x y :
  tile2d_grid_load st (Some buf) = (0, st') → t2_grid st' = Some g →
  solid g (Z.of_nat x) (Z.of_nat y) = true ↔ tile_char buf x y = Some hash_sign.
Proof.
  unfold tile2d_grid_load. destruct (tile2d_measure buf) as [w h] eqn:Hm.
  destruct ((w =? 0) || (h =? 0)); [intros [= ]|].
  destruct (foldl (fill_byte w h) _ buf) as [[grid xx] yy] eqn:Hf. intros [= <-] [= <-].
  destruct (measure_nonneg buf w h Hm) as [Hw Hh].
  assert (let '(grid, x, y) := foldl (fill_byte w h) (replicate (Z.to_nat (w * h)) 0, 0, 0) buf in
          let '(ls, cur) := foldl row_byte ([], []) buf in cells_match w h grid ls cur) as Hc
    by exact (fill_matches w h buf _ [] [] (init_matches w h Hw Hh)).
  rewrite Hf in Hc. pose proof (measure_covers buf w h x y hash_sign Hm) as Hcov.
  unfold tile_char, rows in *. destruct (foldl row_byte ([], []) buf) as [ls cur]. destruct Hc as [_ Hc].
  unfold solid. cbn [g_cells g_w g_h]. rewrite !andb_true_iff, !Z.leb_le, !Z.ltb_lt. fold (index w x y). split.
  - intros ((((_ & Hy) & _) & Hx) & Hs). rewrite Hc in Hs by done. cbn in Hs. unfold row_cell, char_cell in Hs.
    destruct ((ls ++ [cur]) !! y ≫= _) as [c|]; [|done].
    destruct (Byte.eqb c hash_sign) eqn:E; [|done]. by apply byte_eqb_eq in E as ->.
  - intros Hch. destruct (Hcov Hch). rewrite Hc by done. unfold row_cell. rewrite Hch. cbn. lia.
Qed.

(** ** Collision *)

Definition clear (st : tile2d_state) (a : SimActor) : Prop :=
  tile2d_blocked st (ac_pos_x a) (ac_pos_y a) = false.

Lemma resolve_clear st a x y : tile2d_blocked st x y = false → clear st (tile2d_resolve st a x y).
Proof.
  intros Hold. unfold clear, tile2d_resolve. destruct (t2_grid st) eqn:Eg.
  2: { unfold tile2d_blocked. by rewrite Eg. }
  destruct (tile2d_blocked st (ac_pos_x a) y) eqn:Ex; cbn [ac_pos_x ac_pos_y with_motion].
  - by destruct (tile2d_blocked st x (ac_pos_y a)) eqn:Ey.
  - by destruct (tile2d_blocked st (ac_pos_x a) (ac_pos_y a)) eqn:Ey.
Qed.

(** What a server does to a tile model between behavior loads. *)
Inductive tile_op :=
  | TileStep (dt_ms : Z)
  | TileInput (i : nat) (input : SimInput).

Definition tile_run_op (s : tile2d_state * list SimActor) (o : tile_op) : tile2d_state * list SimActor :=
  let '(st, actors) := s in
  match o with
  | TileStep dt => (st, tile2d_step st actors dt)
  | TileInput i input =>
      match actors !! i with
      | Some a => let '(st, a) := tile2d_apply_input st a input in (st, <[i := a]> actors)
      | None => s
      end
  end.

Lemma blocked_grid st st' x y : t2_grid st' = t2_grid st →
  collision_radius_fix st' = collision_radius_fix st → tile2d_blocked st' x y = tile2d_blocked st x y.
Proof. intros Hg Hr. unfold tile2d_blocked. by rewrite Hg, Hr. Qed.

(** Through any sequence of inputs and steps, the tile model keeps its grid
    and never moves an actor that is clear of solid tiles into one. *)
Theorem tile2d_stays_clear st actors ops :
  Forall (clear st) actors →
  let '(st', actors') := foldl tile_run_op (st, actors) ops in
  t2_grid st' = t2_grid st ∧ Forall (clear st) actors'.
Proof.
  assert (∀ st0, t2_grid st0 = t2_grid st → collision_radius_fix st0 = collision_radius_fix st →
    Forall (clear st) actors → let '(st', actors') := foldl tile_run_op (st0, actors) ops in
    t2_grid st' = t2_grid st ∧ Forall (clear st) actors') as Hgen; [|by apply Hgen].
  revert actors. induction ops as [|o ops IH]; intros actors st0 Hg Hr Ha; [done|]. cbn [foldl].
  destruct o as [dt|i input]; cbn [tile_run_op].
  - apply IH; [done|done|]. apply Forall_fmap. eapply Forall_impl; [exact Ha|]. intros a Hca. unfold compose.
    unfold clear in *. rewrite <-(blocked_grid st st0) in * by done. by apply resolve_clear.
  - destruct (actors !! i) as [a|] eqn:Ei; [|by apply IH]. apply IH; [done|done|].
    apply Forall_insert; [done|]. by apply (Forall_lookup_1 _ _ _ _ Ha Ei).
Qed.

(** A tile model without a grid next to a free model in the same state. *)
Inductive ungridded : kith_sim_model → kith_sim_model → Prop :=
  | ungridded_intro p q r : ungridded (Tile2d (mkTile2d p q r None)) (Free2d (mkFree2d p q)).

Section Ungridded.
Context (fs : file_system).

#[local] Instance lib : SimLib := KithSim fs.
#[local] Instance laws : SimLaws := KithSim_laws fs.

Definition worlds_alike (w w' : world) : Prop :=
  ungridded (wd_model w) (wd_model w') ∧ wd_actors w = wd_actors w'.

Definition results_alike (r r' : result world) : Prop :=
  match r, r' with
  | Ok w, Ok w' => worlds_alike w w'
  | Err e, Err e' => e = e'
  | _, _ => False
  end.

Lemma event_alike e w w' : worlds_alike w w' → results_alike (spec_event e w) (spec_event e w').
Proof.
  destruct w as [m acts], w' as [m' acts']. intros [Hm Ha]. cbn in Hm, Ha. subst acts'.
  destruct e as [e|e|e]; cbn [spec_event wd_actors wd_model].
  - case_decide; [done|]. by destruct (MAX_ACTORS <=? _).
  - destruct (acts !! mv_actor_id e); [|done]. by destruct Hm.
  - by destruct Hm.
Qed.

Lemma events_alike es : ∀ w w', worlds_alike w w' →
  results_alike (spec_events es w) (spec_events es w').
Proof.
  induction es as [|e es IH]; intros w w' Hw; [done|]. cbn [spec_events].
  pose proof (event_alike e w w' Hw) as He.
  destruct (spec_event e w), (spec_event e w'); try done. by apply IH.
Qed.

Lemma step_alike dt w w' : worlds_alike w w' → results_alike (spec_step dt w) (spec_step dt w').
Proof.
  destruct w as [m acts], w' as [m' acts']. intros [Hm Ha]. cbn in Hm, Ha. subst acts'.
  unfold spec_step. cbn [wd_actors wd_model]. case_decide; [done|]. by destruct Hm.
Qed.

Lemma loop_alike n dt he G : ∀ tick w w', worlds_alike w w' →
  spec_loop n tick dt he G w = spec_loop n tick dt he G w'.
Proof.
  induction n as [|n IH]; intros tick w w' Hw; [done|]. cbn [spec_loop].
  pose proof (events_alike (events_at G tick) w w' Hw) as He.
  destruct (spec_events _ w) as [w1|], (spec_events _ w') as [w1'|]; try done; [|by cbn in *; subst].
  cbn [mbind result_bind]. pose proof (step_alike dt w1 w1' He) as Hs.
  destruct (spec_step dt w1) as [w2|], (spec_step dt w1') as [w2'|]; try done; [|by cbn in *; subst].
  cbn [mbind result_bind]. rewrite (IH _ w2 w2') by done. destruct Hs as [_ ->]. done.
Qed.
End Ungridded.

(** The same arguments for another model. *)
Definition with_model (a : args) (name : pystr) : args :=
  mkArgs (a_command a) (a_input a) (a_input_b a) (a_output a) name (a_lib a) (a_tick_hz a) (a_ticks a)
    (a_hash_every a) (a_behavior a) (a_base_speed a) (a_run_speed a) (a_accel a) (a_decel a) (a_move_eps a)
    (a_collision_radius a) (a_expect_hash a) (a_expect_file a) (a_expectations_from a) (a_quiet a).

(** The configuration the tool builds passes the library's checks. *)
Lemma build_config_accepted a c : build_config a = Some c →
  (cfg_size c <? sizeof kith_sim_config_fields) = false ∧ cfg_abi_version c = KITH_ABI_VERSION.
Proof. unfold build_config. destruct (_ || _); [|done]. by intros [= <-]. Qed.

Lemma create_model_builtin name cfg init :
  sim_registry_find name = Some init →
  (∀ c, cfg = Some c →
    (cfg_size c <? sizeof kith_sim_config_fields) = false ∧ cfg_abi_version c = KITH_ABI_VERSION) →
  sim_create_model name cfg = (0, Some (init cfg)).
Proof.
  intros Hf Hc. unfold sim_create_model. rewrite Hf. destruct cfg as [c|]; [|done].
  destruct (Hc c eq_refl) as [-> ->]. by rewrite Z.eqb_refl.
Qed.

(** Without a behavior grid, replaying a record on tile2d and on free2d emits
    the same hashes or fails with the same error. *)
Theorem ungridded_models_agree fs groups a tick_hz t t' :
  groups_ok groups = true → a_behavior a = None →
  snd (@replay (KithSim fs) groups (with_model a (str "tile2d")) tick_hz t) =
  snd (@replay (KithSim fs) groups (with_model a (str "free2d")) tick_hz t').
Proof.
  intros Hok Hb.
  rewrite (@replay_run (KithSim fs) (KithSim_laws fs) _ (with_model a (str "tile2d")) _
    (Tile2d (tile2d_init (build_config a))));
    [|done|done|exact (create_model_builtin (str "tile2d") (build_config a) (λ cfg, Tile2d (tile2d_init cfg)) eq_refl
                  (build_config_accepted a))].
  rewrite (@replay_run (KithSim fs) (KithSim_laws fs) _ (with_model a (str "free2d")) _
    (Free2d (free2d_init (build_config a))));
    [|done|done|exact (create_model_builtin (str "free2d") (build_config a) (λ cfg, Free2d (free2d_init cfg)) eq_refl
                  (build_config_accepted a))].
  unfold spec_replay. cbn [with_model a_behavior a_ticks a_hash_every]. rewrite Hb. cbn [mbind result_bind].
  destruct (tick_duration tick_hz) as [dt|]; [|done]. cbn [mbind result_bind].
  apply loop_alike. split; [apply ungridded_intro|done].
Qed.
