(* ===== verification/ToolExamples.v ===== *)
(** * Worked examples of the replay format and of the replay tool

    Concrete replays, simulations and runs of the tool, and the theorems
    about them applied at them. *)

From S2P Require Import Prelude PyStruct PyText PyFloat Json PyJson ReplayFormat ReplayCodec ReplayWriter ReplayDocument ReplayEncode ReplayRecorder ReplayText ActorStore ActorRefine ReplayTool ToolTheorems SimPending SimModels SimTheorems SimGrid.

#[local] Open Scope Z_scope.

Definition sample_spawn (actor : Z) : Event := ESpawn (mkSpawn actor 1000 (-2000) 0 0 0 0 1).
Definition sample_move (actor input_tick : Z) : Event := EMove (mkMove actor input_tick 1 (-1) 0 0).
Definition sample_despawn (actor : Z) : Event := EDespawn (mkDespawn actor).

Definition sample_meta : list (pystr * jval) :=
  [(str "server", JStr (str "tile_rpg")); (str "build", JInt 17);
   (str "scale", JFloat (DFin false 5404319552844595 (-53)))].

Definition sample_state : bytes := replicate RNG_STATE_SIZE Byte.x2a.

Definition sample_document : ReplayDocument :=
  mkDocument (mkHeader 20 0) (Some sample_meta)
    [mkTick 3 [sample_spawn 1; sample_spawn 2; sample_move 1 7];
     mkTick 9 [sample_move 2 8; sample_despawn 1]]
    [mkExpected 9 0xcbf29ce484222325]
    [mkCheckpoint 3 0 sample_state; mkCheckpoint 3 5 sample_state; mkCheckpoint 9 0 sample_state].

Definition sample_bytes : bytes :=
  match encode_document sample_document with Ok bs => bs | Err _ => [] end.

(** What reading the encoded sample gives: the metadata in key order. *)
Definition sample_read : ReplayDocument :=
  match read_document sample_bytes (str "a.rec") with Ok d => d | Err _ => sample_document end.

Lemma sample_reads : read_document sample_bytes (str "a.rec") = Ok sample_read.
Proof. evaluates. Qed.

Definition sample_calls : list call :=
  [CallMeta sample_meta; CallTick 3 [sample_move 1 7; sample_spawn 1];
   CallTick 3 [sample_despawn 1]; CallCheckpoint 3 0 sample_state; CallExpected 3 77; CallClose;
   CallTick 4 []].

Definition sample_writer : ReplayWriter :=
  match ReplayWriter_init empty_sink 20 with
  | Ok w => w
  | Err _ => mkWriter empty_sink true false None None
  end.

Lemma writer_refines_session_witness :
  let '(w, flags) := run_calls sample_calls sample_writer in
  let '(s, flags') := spec_calls sample_calls new_session in
  flags = flags' ∧ flags = [true; true; false; true; true; true; false] ∧
  (∃ d, read_document (s_data (w_stream w)) (str "a.rec") = Ok d ∧ document_matches d 20 s).
Proof.
  pose proof (writer_refines_session 20 sample_writer sample_calls (str "a.rec") eq_refl eq_refl) as H.
  assert (snd (spec_calls sample_calls new_session) = [true; true; false; true; true; true; false])
    as Ef by evaluates.
  assert (ex_tick <$> ss_expected (fst (spec_calls sample_calls new_session)) = [3]) as Ex by evaluates.
  destruct (run_calls sample_calls sample_writer) as [w flags].
  destruct (spec_calls sample_calls new_session) as [s flags']. cbn [fst snd] in Ef, Ex.
  destruct H as [Hf Hd]. split; [exact Hf|]. split; [congruence|].
  apply Hd. rewrite Ex. apply NoDup_singleton.
Defined.

Lemma encode_read_roundtrip_witness : ∃ bs d',
  encode_document sample_document = Ok bs ∧ read_document bs (str "a.rec") = Ok d' ∧
  doc_equiv d' sample_document.
Proof.
  apply (encode_read_roundtrip sample_document (str "a.rec")); evaluates.
Defined.

Lemma reencode_roundtrip_witness : ∃ bs d',
  encode_document sample_read = Ok bs ∧ read_document bs (str "b.rec") = Ok d' ∧
  doc_equiv d' sample_read.
Proof.
  apply (reencode_roundtrip sample_bytes (str "a.rec") sample_read (str "b.rec") sample_reads).
  evaluates.
Defined.

Lemma read_document_lawful_witness : doc_lawful sample_read = true.
Proof. exact (read_document_lawful sample_bytes (str "a.rec") sample_read sample_reads). Defined.

(** The sample cut in the middle of a record. *)
Definition sample_error : exn :=
  match read_document (take 150 sample_bytes) (str "a.rec") with Err e => e | Ok _ => OutOfFuel end.

Lemma read_document_errors_witness :
  (∃ msg, sample_error = ReplayFormatError (Txt (str "a.rec") :: msg)) ∨ json_escape sample_error.
Proof.
  apply (read_document_errors (take 150 sample_bytes)). evaluates.
Defined.

Lemma diff_documents_exact_witness :
  diff_documents sample_document sample_read = [] ∧ same_content sample_document sample_read.
Proof.
  split; [evaluates|].
  apply (diff_documents_exact sample_document sample_read); evaluates.
Defined.

(** ** The recorder *)

Definition sample_recorder : ReplayRecorder := mkRecorder sample_writer true [] false.

Definition sample_rops : list rop :=
  [OpMeta sample_meta; OpRecord (sample_move 1 7); OpRecord (sample_spawn 1);
   OpFlush 3 (Ok sample_state); OpFlush 4 (Ok sample_state); OpRecord (sample_despawn 1);
   OpClose; OpFlush 5 (Ok sample_state)].

Lemma recorder_refines_recording_witness :
  ∃ d, read_document (s_data (w_stream (rc_writer (run_rops sample_rops sample_recorder))))
         (str "a.rec") = Ok d ∧
       document_matches d 20 (rec_session (spec_rops true sample_rops)).
Proof.
  apply (recorder_refines_recording 20 true sample_recorder sample_rops (str "a.rec"));
    evaluates.
Defined.

Lemma recorder_durable_witness :
  let r := run_rops sample_rops sample_recorder in
  let out := w_stream (rc_writer r) in
  s_flushed out ≠ 0%nat ∧
  ∃ d, read_document (take (s_flushed out) (s_data out)) (str "a.rec") = Ok d ∧
       doc_ticks d `prefix_of` ss_ticks (rec_session (spec_rops true sample_rops)).
Proof.
  split; [vm_compute; discriminate|].
  destruct (recorder_durable 20 true sample_recorder sample_rops (str "a.rec") eq_refl eq_refl)
    as [[H|(d & Hd & _ & Ht)] _]; [vm_compute in H; discriminate H|].
  exists d. split; assumption.
Defined.

Lemma recorder_arrival_order_witness :
  run_rops ((OpRecord <$> [sample_move 1 7; sample_spawn 1]) ++ [OpFlush 3 (Ok sample_state)]) sample_recorder =
  run_rops ((OpRecord <$> [sample_spawn 1; sample_move 1 7]) ++ [OpFlush 3 (Ok sample_state)]) sample_recorder.
Proof.
  apply (recorder_arrival_order [sample_move 1 7; sample_spawn 1] [sample_spawn 1; sample_move 1 7]).
  - apply Permutation_swap.
  - cbn [sample_recorder rc_pending app]. intros a b Ha Hb.
    rewrite !elem_of_cons in Ha, Hb. destruct Ha as [->|[->|[]%elem_of_nil]], Hb as [->|[->|[]%elem_of_nil]];
      vm_compute; done.
Defined.

Lemma failed_drain_drops_batch_witness :
  let r := run_rops [OpRecord (sample_spawn 1); OpFlush 3 (Ok sample_state);
                     OpRecord (sample_move 1 7)] sample_recorder in
  flush_tick 3 (Ok sample_state) r =
  (mkRecorder (rc_writer r) true [] false,
   Err (ValueError [Lit "tick "; Num 3; Lit " does not advance past the previously written tick ";
                    Nums [3]])).
Proof.
  apply (failed_drain_drops_batch 3 (Ok sample_state)); try (evaluates); try discriminate.
Defined.

(** ** Observed divergences from the format's documentation *)

(** The writer takes a second expectation for a tick; the reader refuses the
    file it produces. *)
Lemma duplicate_expectation_unreadable :
  let d := mkDocument (mkHeader 20 0) None [] [mkExpected 1 5; mkExpected 1 6] [] in
  match encode_document d with
  | Ok bs => is_ok (read_document bs (str "a.rec")) = false
  | Err _ => False
  end.
Proof. vm_compute. reflexivity. Qed.

(** The encoded order of two moves of one actor with the same input tick is
    their arrival order, not a function of the set of events. *)
Lemma arrival_order_visible :
  let m1 := EMove (mkMove 1 7 1 0 0 0) in
  let m2 := EMove (mkMove 1 7 0 1 0 0) in
  _sort_events [m1; m2] ≠ _sort_events [m2; m1].
Proof. vm_compute. discriminate. Qed.

(** A header size past the end of the file reads as an empty document. *)
Lemma header_past_end_reads :
  match pack _HEADER (MAGIC, (FORMAT_VERSION, (60000, (20, (0, tt))))) with
  | Ok bs => is_ok (read_document bs (str "a.rec")) = true
  | Err _ => False
  end.
Proof. vm_compute. reflexivity. Qed.

(** Flag bits on a META record are not looked at. *)
Lemma meta_flags_ignored : 
  match pack _HEADER (header_vals 20), pack _RECORD (META_RECORD_TYPE, (255, (0, (2, tt)))) with
  | Ok h, Ok r => is_ok (read_document (h ++ r ++ [Byte.x7b; Byte.x7d]) (str "a.rec")) = true
  | _, _ => False
  end.
Proof. vm_compute. reflexivity. Qed.

(** ** The library *)

Definition sample_grid : bytes :=
  [hash_sign; Byte.x2e; Byte.x2e; newline; Byte.x2e; Byte.x2e; hash_sign].

Definition sample_fs : file_system := λ path, if decide (path = str "grid") then Some sample_grid else None.

#[local] Instance sample_lib : SimLib := KithSim sample_fs.
#[local] Instance sample_laws : SimLaws := KithSim_laws sample_fs.

(** ** Records *)

Definition sample_groups : list TickRecord :=
  [mkTick 1 [sample_spawn 1; sample_spawn 2; sample_move 1 7]; mkTick 3 [sample_move 2 8; sample_despawn 1]].

Definition sample_args (c : command) (input : pystr) : args :=
  mkArgs c input (str "b.rec") (str "out.rec") (str "free2d") None None None 1 None
    0 0 0 0 None None None None None false.

Definition sample_tool : tool := mkTool [] [] [].

Definition sample_model : mstate := Free2d (free2d_init None).

Definition sample_hashes : list (Z * Z) :=
  match spec_replay sample_groups (sample_args Play (str "v.rec")) 20 sample_model with
  | Ok hashes => hashes
  | Err _ => []
  end.

Lemma sample_hashes_four : length sample_hashes = 4%nat.
Proof. evaluates. Qed.

Lemma replay_refines_witness :
  snd (replay sample_groups (sample_args Play (str "v.rec")) 20 sample_tool) = Ok sample_hashes.
Proof.
  etransitivity; [apply (replay_refines _ _ _ sample_model); evaluates|evaluates].
Defined.

(** The record with its hashes embedded, as a file. *)
Definition verify_document : ReplayDocument :=
  mkDocument (mkHeader 20 0) None sample_groups ((λ '(t, h), mkExpected t h) <$> sample_hashes) [].

Definition verify_bytes : bytes :=
  match encode_document verify_document with Ok bs => bs | Err _ => [] end.

Definition sample_pairs : list (Z * Event) :=
  [(3, sample_move 2 8); (1, sample_spawn 1); (1, sample_spawn 2); (3, sample_despawn 1)].

Definition text_bytes : bytes := Z_to_byte <$> unlines (event_line <$> sample_pairs).

Definition sample_env : environment :=
  mkEnv (<[str "v.rec" := verify_bytes]> (<[str "t.txt" := text_bytes]>
          (<[str "/build/debug/" ++ LIB_BASENAME := []]> ∅))) None [] false.

Lemma verify_verdict_witness :
  snd (run_play_or_verify sample_env (sample_args Verify (str "v.rec")) sample_tool) = Ok 0.
Proof.
  etransitivity.
  - apply (verify_verdict sample_env (sample_args Verify (str "v.rec")) sample_tool verify_bytes
             verify_document (str "/build/debug/" ++ LIB_BASENAME) sample_model);
      [reflexivity|reflexivity|reflexivity|reflexivity|evaluates|evaluates|evaluates|discriminate|
       intros Hn; apply (f_equal length) in Hn; vm_compute in Hn; discriminate|evaluates..].
  - evaluates.
Defined.

Lemma text_record_roundtrip_witness : parse_record (str "t.txt") text_bytes = Ok sample_pairs.
Proof. apply (text_record_roundtrip (str "t.txt") sample_pairs). evaluates. Defined.

Lemma compare_against_map_exact_witness :
  snd (compare_against_map [(3, 5); (4, 6)] (<[3 := 5]> (<[4 := 7]> ∅)) true sample_tool) = Ok 1.
Proof.
  etransitivity; [apply compare_against_map_exact; apply (bool_decide_unpack _); exact I|evaluates].
Defined.

Definition transcode_run : tool * result Z :=
  run_transcode sample_env (sample_args Transcode (str "t.txt")) sample_tool.

Lemma transcode_reads_back_witness : ∃ data pairs expected bs d,
  ev_files sample_env !! str "t.txt" = Some data ∧ parse_record (str "t.txt") data = Ok pairs ∧
  transcode_expectations sample_env (sample_args Transcode (str "t.txt")) = Ok expected ∧
  tl_written (fst transcode_run) = [(str "out.rec", bs)] ∧ read_document bs (str "o") = Ok d ∧
  doc_header d = mkHeader 20 0 ∧
  meta_equiv (doc_meta d) (Some [(str "model", JStr (str "free2d"))]) ∧
  doc_ticks d = sorted_tick <$> text_groups pairs ∧
  dict_of ex_tick ex_hash (doc_expected_hashes d) = expected ∧ doc_rng_checkpoints d = [].
Proof.
  apply (transcode_reads_back sample_env (sample_args Transcode (str "t.txt")) sample_tool
           (fst transcode_run)); evaluates.
Defined.

(** Two ways to the same two actors: the array orders differ, the hash does
    not. *)
Definition direct_events : list Event := [sample_spawn 1; sample_spawn 2].
Definition detour_events : list Event :=
  [sample_spawn 3; sample_spawn 1; sample_spawn 2; sample_despawn 3].

Definition run_sample (es : list Event) : sim_run :=
  fst (for_each es apply_event (mkRun sample_model ActorStore_init)).

Lemma hash_canonical_witness :
  (ac_id <$> live_actors (rn_store (run_sample direct_events))) ≠
  (ac_id <$> live_actors (rn_store (run_sample detour_events))) ∧
  ∃ h, hash (rn_store (run_sample direct_events)) = Ok h ∧
       hash (rn_store (run_sample detour_events)) = Ok h ∧ 0 ≤ h < 2 ^ 64.
Proof.
  split; [by intros E; vm_compute in E|].
  apply (hash_canonical sample_model direct_events detour_events); evaluates.
Defined.

Lemma main_exits_witness :
  match snd (main sample_env (sample_args Diff (str "v.rec")) sample_tool) with
  | Ok code => code = 0 ∨ code = 1 ∨ code = 2
  | Err e => unreported e = true
  end.
Proof. apply (main_exits sample_env (sample_args Diff (str "v.rec")) sample_tool). Defined.

(** Transcoding sorts the events of a tick, so a record that despawns an
    actor and spawns it again in one tick no longer replays. *)
Definition respawn_pairs : list (Z * Event) :=
  [(0, sample_spawn 1); (1, sample_despawn 1); (1, sample_spawn 1)].

Lemma transcode_reorders :
  is_ok (spec_replay (text_groups respawn_pairs) (sample_args Play (str "t.txt")) 20 sample_model) = true ∧
  is_ok (spec_replay (sorted_tick <$> text_groups respawn_pairs) (sample_args Play (str "t.txt")) 20
           sample_model) = false.
Proof. split; evaluates. Qed.

(** ** The models *)

Definition sample_input (x y : Z) : SimInput := mkInput 7 x y 0 0.

(** Five puts into four nodes: the last new id is dropped. *)
Lemma pending_map_refines_witness :
  sim_pending_get (pending_puts (2 ^ Z.of_nat 2)
    [(1, sample_input 1 0); (2, sample_input 2 0); (3, sample_input 3 0); (4, sample_input 4 0);
     (5, sample_input 5 0); (2, sample_input 9 0)]) 2 = Some (sample_input 9 0).
Proof. etransitivity; [apply (pending_map_refines 2); lia|evaluates]. Defined.

Lemma velocity_converges_witness : ramp_ticks 3 (-100) 200 100 120 = 200.
Proof. apply (velocity_converges 3 (-100) 200 100 120); lia. Defined.

Definition sample_actor : SimActor := mkActor 1 65536 65536 0 0 0 0 0 0.

Definition sample_ticks : list (option SimInput * Z) :=
  [(None, 50); (Some (sample_input 32767 (-32768)), 50); (Some (sample_input 100 100), 50)].

Lemma physics_never_overflows_witness :
  physics_run (sim_physics_step (init_physics None)) sample_actor sample_ticks =
  physics_run (exact_step (init_physics None)) sample_actor sample_ticks ∧
  slower (2 ^ 30) (physics_run (exact_step (init_physics None)) sample_actor sample_ticks).
Proof.
  apply (physics_never_overflows (init_physics None) (2 ^ 30) sample_actor sample_ticks).
  - apply init_physics_ok. evaluates.
  - evaluates.
  - vm_compute. split; discriminate.
  - vm_compute. split; discriminate.
Defined.

Definition sample_tile : tile2d_state := snd (tile2d_grid_load (tile2d_init None) (Some sample_grid)).

Definition sample_tiles : tile_grid := default (mkGrid [] 0 0) (t2_grid sample_tile).

Lemma grid_load_reads_rows_witness :
  solid sample_tiles (Z.of_nat 2) (Z.of_nat 1) = true ↔ tile_char sample_grid 2 1 = Some hash_sign.
Proof.
  apply (grid_load_reads_rows (tile2d_init None) sample_grid sample_tile); evaluates.
Defined.

(** An actor in the clear column of a wider map, pushed against the wall. *)
Definition wide_grid : bytes := replicate 8 Byte.x2e ++ [hash_sign].
Definition wide_tile : tile2d_state := snd (tile2d_grid_load (tile2d_init None) (Some wide_grid)).
Definition wall_ops : list tile_op :=
  [TileInput 0 (sample_input 32767 0); TileStep 50; TileStep 50; TileStep 50].

Lemma tile2d_stays_clear_witness :
  let '(st, actors) := foldl tile_run_op (wide_tile, [sample_actor]) wall_ops in
  t2_grid st = t2_grid wide_tile ∧ Forall (clear wide_tile) actors.
Proof.
  apply (tile2d_stays_clear wide_tile [sample_actor] wall_ops).
  constructor; [unfold clear; evaluates|constructor].
Defined.

Lemma ungridded_models_agree_witness :
  snd (@replay (KithSim sample_fs) sample_groups
         (with_model (sample_args Play (str "v.rec")) (str "tile2d")) 20 sample_tool) =
  snd (@replay (KithSim sample_fs) sample_groups
         (with_model (sample_args Play (str "v.rec")) (str "free2d")) 20 sample_tool).
Proof. apply ungridded_models_agree; evaluates. Defined.
