(* ===== verification/PyWire.v ===== *)
(** * Wire helpers

    UTF-8 round trips on arbitrary text, little-endian [struct] formats and
    slices, as the payload codecs of the examples use them, and what the
    servers and clients use of [asyncio.StreamReader] and of Latin-1 text: a
    stream is the bytes that will arrive. *)

From S2P Require Import Prelude Outcome PyStruct PyText.

#[local] Open Scope Z_scope.

(** [lia] on quotients and remainders by constants. *)
#[local] Ltac Zify.zify_post_hook ::= Z.div_mod_to_equations.

(** ** UTF-8 *)

Definition is_code_point (c : Z) : bool := (0 <=? c) && (c <=? 0x10ffff).

Lemma utf8_cont_byte z : 0 ≤ z < 64 → utf8_cont (Z_to_byte (0x80 + z)) = Some z.
Proof.
  intros Hz. unfold utf8_cont. rewrite byte_to_Z_to_byte, Z.mod_small by lia.
  replace ((128 <=? 128 + z) && (128 + z <? 192)) with true by lia. f_equal. lia.
Qed.

Lemma utf8_in_ok lo hi c : lo ≤ c ≤ hi → is_surrogate c = false → utf8_in lo hi c = Some c.
Proof. intros Hc Hs. unfold utf8_in. rewrite Hs. by replace ((lo <=? c) && (c <=? hi)) with true by lia. Qed.

Lemma utf8_decode_char c b rest : is_code_point c = true → utf8_char c = Some b →
  utf8_decode (b ++ rest) = (s ← utf8_decode rest; Some (c :: s)).
Proof.
  unfold is_code_point, utf8_char. intros Hc Hb. bool_hyps.
  destruct (Z.ltb_spec c 0x80); [|destruct (Z.ltb_spec c 0x800); [|
    destruct (is_surrogate c) eqn:Es; [done|destruct (Z.ltb_spec c 0x10000)]]];
    injection Hb as <-; cbn [app utf8_decode]; rewrite byte_to_Z_to_byte, Z.mod_small by lia.
  - by replace (c <? 128) with true by lia.
  - replace (192 + c / 64 <? 128) with false by lia. replace (192 + c / 64 <? 192) with false by lia.
    rewrite utf8_cont_byte by lia. cbn [mbind option_bind]. replace (192 + c / 64 <? 224) with true by lia.
    replace ((192 + c / 64 - 192) * 64 + c mod 64) with c by lia.
    by rewrite utf8_in_ok by (unfold is_surrogate; lia).
  - replace (224 + c / 4096 <? 128) with false by lia. replace (224 + c / 4096 <? 192) with false by lia.
    rewrite !utf8_cont_byte by lia. cbn [mbind option_bind]. replace (224 + c / 4096 <? 224) with false by lia.
    replace (224 + c / 4096 <? 240) with true by lia.
    replace (((224 + c / 4096 - 224) * 64 + c / 64 mod 64) * 64 + c mod 64) with c by lia.
    by rewrite utf8_in_ok by (done || lia).
  - replace (240 + c / 262144 <? 128) with false by lia. replace (240 + c / 262144 <? 192) with false by lia.
    rewrite !utf8_cont_byte by lia. cbn [mbind option_bind].
    replace (240 + c / 262144 <? 224) with false by lia. replace (240 + c / 262144 <? 240) with false by lia.
    replace ((((240 + c / 262144 - 240) * 64 + c / 4096 mod 64) * 64 + c / 64 mod 64) * 64 + c mod 64)
      with c by lia.
    by rewrite utf8_in_ok by (done || lia).
Qed.

Lemma utf8_encode_decode s bs : forallb is_code_point s = true → utf8_encode s = Some bs →
  utf8_decode bs = Some s.
Proof.
  revert bs. induction s as [|c s IH]; intros bs Hs He; cbn in *; [by injection He as <-|].
  apply andb_true_iff in Hs as [Hc Hs]. apply bind_Some in He as (b & Hb & He).
  apply bind_Some in He as (bs' & He & [= <-]). rewrite (utf8_decode_char c) by done. by rewrite (IH bs').
Qed.

Lemma utf8_cont_inv b c : utf8_cont b = Some c → 0 ≤ c < 64 ∧ Z_to_byte (0x80 + c) = b.
Proof.
  unfold utf8_cont. destruct (_ && _) eqn:E; [|done]. intros [= <-]. bool_hyps. split; [lia|].
  rewrite <-(Z_to_byte_to_Z b) at 2. f_equal. lia.
Qed.

Lemma utf8_in_inv lo hi c c' : utf8_in lo hi c = Some c' → c' = c ∧ lo ≤ c ≤ hi ∧ is_surrogate c = false.
Proof. unfold utf8_in. destruct (_ && _) eqn:E; [|done]. intros [= <-]. bool_hyps. split_and!; auto; lia. Qed.

Lemma lead_byte b k z : byte_to_Z b = k + z → Z_to_byte (k + z) = b.
Proof. intros <-. apply Z_to_byte_to_Z. Qed.

(** One decoded character re-encodes to the bytes it came from. *)
Lemma utf8_encode_step c b s bs : utf8_char c = Some b → is_code_point c = true →
  utf8_encode s = Some bs ∧ forallb is_code_point s = true →
  utf8_encode (c :: s) = Some (b ++ bs) ∧ forallb is_code_point (c :: s) = true.
Proof. intros Hb Hc [He Hs]. cbn. by rewrite Hb, He, Hc, Hs. Qed.

Lemma utf8_char_2 z c1 : 0xc0 ≤ z → 0x80 ≤ (z - 0xc0) * 64 + c1 ≤ 0x7ff → 0 ≤ c1 < 64 →
  utf8_char ((z - 0xc0) * 64 + c1) = Some [Z_to_byte z; Z_to_byte (0x80 + c1)].
Proof.
  intros Hz Hc H1. unfold utf8_char. replace (_ <? 128) with false by lia. replace (_ <? 2048) with true by lia.
  do 2 f_equal; [f_equal; lia|do 2 f_equal; lia].
Qed.

Lemma utf8_char_3 z c1 c2 : let c := ((z - 0xe0) * 64 + c1) * 64 + c2 in
  0x800 ≤ c ≤ 0xffff → is_surrogate c = false → 0 ≤ c1 < 64 → 0 ≤ c2 < 64 →
  utf8_char c = Some [Z_to_byte z; Z_to_byte (0x80 + c1); Z_to_byte (0x80 + c2)].
Proof.
  intros c Hc Hs H1 H2. unfold utf8_char. rewrite Hs. replace (c <? 128) with false by lia.
  replace (c <? 2048) with false by lia. replace (c <? 65536) with true by lia.
  replace (224 + c / 4096) with z by (unfold c; lia). replace (c / 64 mod 64) with c1 by (unfold c; lia).
  by replace (c mod 64) with c2 by (unfold c; lia).
Qed.

Lemma utf8_char_4 z c1 c2 c3 : let c := (((z - 0xf0) * 64 + c1) * 64 + c2) * 64 + c3 in
  0x10000 ≤ c ≤ 0x10ffff → is_surrogate c = false → 0 ≤ c1 < 64 → 0 ≤ c2 < 64 → 0 ≤ c3 < 64 →
  utf8_char c = Some [Z_to_byte z; Z_to_byte (0x80 + c1); Z_to_byte (0x80 + c2); Z_to_byte (0x80 + c3)].
Proof.
  intros c Hc Hs H1 H2 H3. unfold utf8_char. rewrite Hs. replace (c <? 128) with false by lia.
  replace (c <? 2048) with false by lia. replace (c <? 65536) with false by lia.
  replace (240 + c / 262144) with z by (unfold c; lia). replace (c / 4096 mod 64) with c1 by (unfold c; lia).
  replace (c / 64 mod 64) with c2 by (unfold c; lia). by replace (c mod 64) with c3 by (unfold c; lia).
Qed.

Lemma utf8_decode_encode_len n : ∀ bs s, (length bs ≤ n)%nat → utf8_decode bs = Some s →
  utf8_encode s = Some bs ∧ forallb is_code_point s = true.
Proof.
  induction n as [|n IH]; intros bs s Hn Hd; (destruct bs as [|b0 bs0]; [by injection Hd as <-|]); [cbn in Hn; lia|].
  cbn [utf8_decode length] in Hd, Hn. pose proof (byte_to_Z_range b0) as Hb0.
  destruct (Z.ltb_spec (byte_to_Z b0) 128).
  { apply bind_Some in Hd as (s' & Hd & [= <-]). apply (utf8_encode_step _ [b0]); [|unfold is_code_point; lia|apply IH; [lia|done]].
    unfold utf8_char. replace (_ <? 128) with true by lia. by rewrite Z_to_byte_to_Z. }
  destruct (Z.ltb_spec (byte_to_Z b0) 192); [done|]. destruct bs0 as [|b1 bs1]; [done|].
  apply bind_Some in Hd as (c1 & [Hk1 <-]%utf8_cont_inv & Hd). cbn [length] in Hn.
  destruct (Z.ltb_spec (byte_to_Z b0) 224).
  { apply bind_Some in Hd as (c & (-> & Hc & Hs)%utf8_in_inv & Hd). apply bind_Some in Hd as (s' & Hd & [= <-]).
    apply (utf8_encode_step _ [b0; Z_to_byte (128 + c1)]); [|unfold is_code_point; lia|apply IH; [lia|done]].
    rewrite utf8_char_2 by lia. by rewrite Z_to_byte_to_Z. }
  destruct bs1 as [|b2 bs2]; [done|]. apply bind_Some in Hd as (c2 & [Hk2 <-]%utf8_cont_inv & Hd). cbn [length] in Hn.
  destruct (Z.ltb_spec (byte_to_Z b0) 240).
  { apply bind_Some in Hd as (c & (-> & Hc & Hs)%utf8_in_inv & Hd). apply bind_Some in Hd as (s' & Hd & [= <-]).
    apply (utf8_encode_step _ [b0; Z_to_byte (128 + c1); Z_to_byte (128 + c2)]);
      [|unfold is_code_point; lia|apply IH; [lia|done]].
    rewrite utf8_char_3 by done. by rewrite Z_to_byte_to_Z. }
  destruct bs2 as [|b3 bs3]; [done|]. apply bind_Some in Hd as (c3 & [Hk3 <-]%utf8_cont_inv & Hd). cbn [length] in Hn.
  apply bind_Some in Hd as (c & (-> & Hc & Hs)%utf8_in_inv & Hd). apply bind_Some in Hd as (s' & Hd & [= <-]).
  apply (utf8_encode_step _ [b0; Z_to_byte (128 + c1); Z_to_byte (128 + c2); Z_to_byte (128 + c3)]);
    [|unfold is_code_point; lia|apply IH; [lia|done]].
  rewrite utf8_char_4 by done. by rewrite Z_to_byte_to_Z.
Qed.

Lemma utf8_decode_encode bs s : utf8_decode bs = Some s →
  utf8_encode s = Some bs ∧ forallb is_code_point s = true.
Proof. by eapply utf8_decode_encode_len. Qed.

(** [s.encode("utf-8")] as the sources call it. *)
Definition encode_utf8 (s : pystr) : result bytes :=
  match utf8_encode s with Some bs => Ok bs | None => Err UnicodeEncodeError end.

Lemma encode_utf8_decode s bs : forallb is_code_point s = true → encode_utf8 s = Ok bs → decode_utf8 bs = Ok s.
Proof.
  unfold encode_utf8, decode_utf8. intros Hs. destruct (utf8_encode s) eqn:E; [|done]. intros [= <-].
  by rewrite (utf8_encode_decode s).
Qed.

Lemma decode_utf8_encode bs s : decode_utf8 bs = Ok s → encode_utf8 s = Ok bs ∧ forallb is_code_point s = true.
Proof.
  unfold encode_utf8, decode_utf8. destruct (utf8_decode bs) eqn:E; [|done]. intros [= <-].
  by destruct (utf8_decode_encode bs _ E) as [-> ?].
Qed.

(** ** Little-endian formats *)

Definition fld_swap (f : fld) (bs : bytes) : bytes :=
  match f with Fs _ => bs | _ => reverse bs end.

(** Each integer field's bytes in the other order. *)
Fixpoint swap (F : fmt) (bs : bytes) : bytes :=
  match F with
  | [] => []
  | f :: F => fld_swap f (take (fld_size f) bs) ++ swap F (drop (fld_size f) bs)
  end.

(** [struct.pack("<...")] *)
Definition pack_le (F : fmt) (vs : svals F) : result bytes := swap F <$> pack F vs.

(** [struct.unpack("<...", bs)]: exactly the format's size. *)
Definition unpack_le (F : fmt) (bs : bytes) : result (svals F) :=
  if decide (length bs = size_of F) then Ok (unpack_raw F (swap F bs)) else Err StructError.

Lemma length_fld_swap f bs : length (fld_swap f bs) = length bs.
Proof. destruct f; cbn; rewrite ?length_reverse; done. Qed.

Lemma length_swap F bs : length bs = size_of F → length (swap F bs) = size_of F.
Proof.
  revert bs. induction F as [|f F IH]; intros bs Hl; [done|]. unfold size_of in *. cbn in *.
  rewrite length_app, length_fld_swap, length_take, IH; rewrite ?length_drop; lia.
Qed.

Lemma swap_swap F bs : length bs = size_of F → swap F (swap F bs) = bs.
Proof.
  revert bs. induction F as [|f F IH]; intros bs Hl; unfold size_of in *; cbn [swap sum_list_with] in *.
  { by destruct bs. }
  rewrite take_app_length', drop_app_length' by (rewrite length_fld_swap, length_take; lia).
  rewrite IH by (rewrite length_drop; lia).
  assert (∀ bs, fld_swap f (fld_swap f bs) = bs) as -> by (intros; unfold fld_swap; destruct f; by rewrite ?reverse_involutive).
  apply take_drop.
Qed.

Lemma length_pack_le F vs bs : pack_le F vs = Ok bs → length bs = size_of F.
Proof.
  unfold pack_le. destruct (pack F vs) as [bs'|] eqn:E; [|done]. intros Hb. injection Hb as <-.
  apply length_swap. by apply length_pack in E.
Qed.

Lemma unpack_pack_le F vs bs : pack_le F vs = Ok bs → bytes_exact F vs = true → unpack_le F bs = Ok vs.
Proof.
  intros Hp Hb. pose proof (length_pack_le _ _ _ Hp) as Hl. unfold pack_le in Hp.
  destruct (pack F vs) as [bs'|] eqn:E; [|done]. injection Hp as <-. unfold unpack_le. rewrite decide_True by done.
  pose proof (length_pack _ _ _ E) as Hl'. rewrite swap_swap by done. f_equal.
  rewrite <-(app_nil_r bs'). apply unpack_raw_pack; [by eapply pack_Ok_fits|done].
Qed.

Lemma pack_le_fits F vs : fits F vs = true → ∃ bs, pack_le F vs = Ok bs.
Proof. intros Hf. unfold pack_le. destruct (fits_pack F vs Hf) as [bs ->]. by eexists. Qed.

Lemma unpack_le_fits F bs vs : unpack_le F bs = Ok vs → fits F vs = true ∧ pack_le F vs = Ok bs.
Proof.
  unfold unpack_le, pack_le. case_decide as Hl; [|done]. intros [= <-]. pose proof (length_swap F bs Hl) as Hs.
  split; [apply fits_unpack_raw; lia|]. rewrite pack_unpack_raw by lia. cbn [fmap result_fmap].
  by rewrite <-Hs, firstn_all, swap_swap.
Qed.

#[global] Arguments pack_le : simpl never.
#[global] Arguments unpack_le : simpl never.

(** ** Buffers *)

Definition zlen {A} (l : list A) : Z := Z.of_nat (length l).

(** [payload[a:b]] for [0 <= a <= b]. *)
Definition slice (a b : nat) (bs : bytes) : bytes := take (b - a) (drop a bs).

(** [payload[i]] *)
Definition byte_at (bs : bytes) (i : nat) : result Z :=
  match bs !! i with Some b => Ok (byte_to_Z b) | None => Err IndexError end.

Lemma zlen_app {A} (l1 l2 : list A) : zlen (l1 ++ l2) = zlen l1 + zlen l2.
Proof. unfold zlen. rewrite length_app. lia. Qed.

Lemma zlen_nonneg {A} (l : list A) : 0 ≤ zlen l.
Proof. unfold zlen. lia. Qed.

Lemma drop_slice a b bs : (a ≤ b)%nat → drop a bs = slice a b bs ++ drop b bs.
Proof.
  intros Hab. unfold slice. rewrite <-(take_drop (b - a) (drop a bs)) at 1. rewrite drop_drop.
  by replace (a + (b - a))%nat with b by lia.
Qed.

Lemma length_slice a b bs : (a ≤ b)%nat → (b ≤ length bs)%nat → length (slice a b bs) = (b - a)%nat.
Proof. intros Ha Hb. unfold slice. rewrite length_take, length_drop. lia. Qed.

Lemma slice_app pre bs rest a b : length pre = a → (length pre + length bs)%nat = b →
  slice a b (pre ++ bs ++ rest) = bs.
Proof. intros <- <-. unfold slice. rewrite drop_app_length. apply take_app_length'. lia. Qed.

Lemma take_slice n bs : take n bs = slice 0 n bs.
Proof. unfold slice. by rewrite drop_0, Nat.sub_0_r. Qed.

(** One byte written and read back. *)
Lemma pack_le_byte z bs : pack_le [FB] (z, tt) = Ok bs → bs = [Z_to_byte z] ∧ 0 ≤ z < 256.
Proof.
  intros Hp. pose proof (length_pack_le _ _ _ Hp) as Hl.
  pose proof (unpack_le_fits [FB] bs (z, tt) (unpack_pack_le _ _ _ Hp eq_refl)) as [Hf _].
  unfold fits in Hf. cbn -[in_u] in Hf. rewrite andb_true_r, in_u_spec in Hf. change (pow256 1) with 256 in Hf.
  split; [|done]. unfold pack_le, pack in Hp. cbn -[in_u] in Hp. unfold pack_int in Hp.
  rewrite (proj2 (in_u_spec 1 z)) in Hp by done. by injection Hp as <-.
Qed.

Lemma byte_at_app pre z rest : 0 ≤ z < 256 → byte_at (pre ++ Z_to_byte z :: rest) (length pre) = Ok z.
Proof.
  intros Hz. unfold byte_at. rewrite list_lookup_middle by done. by rewrite byte_to_Z_to_byte, Z.mod_small.
Qed.

Lemma byte_at_head z rest : 0 ≤ z < 256 → byte_at (Z_to_byte z :: rest) 0 = Ok z.
Proof. apply (byte_at_app []). Qed.

Lemma byte_at_slice bs i z : byte_at bs i = Ok z →
  (i < length bs)%nat ∧ 0 ≤ z < 256 ∧ pack_le [FB] (z, tt) = Ok (slice i (S i) bs).
Proof.
  unfold byte_at. destruct (bs !! i) as [b|] eqn:E; [|done]. intros [= <-].
  pose proof (byte_to_Z_range b) as Hb. split; [by eapply lookup_lt_Some|]. split; [done|].
  unfold slice. rewrite (drop_S _ b) by done. replace (S i - i)%nat with 1%nat by lia. cbn [take].
  unfold pack_le, pack. cbn -[in_u]. unfold pack_int. rewrite (proj2 (in_u_spec 1 _)) by done.
  cbn. by rewrite Z_to_byte_to_Z.
Qed.

Lemma unpack_le_Ok_slice F bs a b vs : unpack_le F (slice a b bs) = Ok vs →
  fits F vs = true ∧ pack_le F vs = Ok (slice a b bs).
Proof. apply unpack_le_fits. Qed.

Lemma unpack_le_total F bs a b : (a ≤ b)%nat → (b ≤ length bs)%nat → (b - a)%nat = size_of F →
  ∃ vs, unpack_le F (slice a b bs) = Ok vs.
Proof.
  intros Ha Hb Hs. unfold unpack_le. rewrite decide_True; [by eexists|]. by rewrite length_slice.
Qed.

Lemma unpack_le_app F vs bs pre rest a b : pack_le F vs = Ok bs → bytes_exact F vs = true →
  length pre = a → (a + size_of F)%nat = b → unpack_le F (slice a b (pre ++ bs ++ rest)) = Ok vs.
Proof.
  intros Hp Hb Ha Hs. rewrite slice_app; [by apply unpack_pack_le|done|].
  by rewrite (length_pack_le _ _ _ Hp), Ha.
Qed.

Lemma pack_cons f F v vs : pack (f :: F) (v, vs) = (b ← pack_fld f v; bs ← pack F vs; Ok (b ++ bs)).
Proof. reflexivity. Qed.

(** Packing several fields is packing them one by one. *)
Lemma pack_le_cons f F v vs :
  pack_le (f :: F) (v, vs) = (b ← pack_le [f] (v, tt); bs ← pack_le F vs; Ok (b ++ bs)).
Proof.
  unfold pack_le. rewrite !pack_cons. destruct (pack_fld f v) as [b|] eqn:E; [|done].
  change (pack [] tt) with (@Ok bytes []). destruct (pack F vs) as [bs|]; [|done].
  cbn [mbind result_bind fmap result_fmap swap]. f_equal.
  pose proof (length_pack_fld _ _ _ E) as Hl.
  rewrite !take_app_length', !drop_app_length', app_nil_r by done. done.
Qed.

Lemma fits_one f v : fits [f] (v, tt) = fits_fld f v.
Proof. unfold fits. by rewrite andb_true_r. Qed.

Lemma fits_u16 z : fits [FH] (z, tt) = true → 0 ≤ z < 65536.
Proof. rewrite fits_one. apply in_u_spec. Qed.

Lemma pack_le_2 f F v vs bs bs' : pack_le [f] (v, tt) = Ok bs → pack_le F vs = Ok bs' →
  pack_le (f :: F) (v, vs) = Ok (bs ++ bs').
Proof. intros Hf HF. rewrite pack_le_cons. by rewrite Hf, HF. Qed.

(** ** Decoders raise nothing but [ValueError] *)

Lemma bounded_check E a b e : E e = true → bounded E (λ _, b ≤ a) (raise_if (a <? b) e).
Proof. intros He. unfold raise_if. destruct (Z.ltb_spec a b); cbn; [done|lia]. Qed.

Lemma bounded_byte_at E bs i : (i < length bs)%nat → bounded E (λ z, 0 ≤ z < 256) (byte_at bs i).
Proof.
  intros Hi. unfold byte_at. destruct (lookup_lt_is_Some_2 bs i Hi) as [b ->]. apply byte_to_Z_range.
Qed.

Lemma bounded_unpack_le E F bs : length bs = size_of F → bounded E (λ vs, fits F vs = true) (unpack_le F bs).
Proof.
  intros Hl. unfold unpack_le. rewrite decide_True by done. cbn. apply fits_unpack_raw. by rewrite length_swap.
Qed.

Lemma bounded_decode_utf8 bs : bounded is_value_error (λ s, forallb is_code_point s = true) (decode_utf8 bs).
Proof.
  unfold decode_utf8. destruct (utf8_decode bs) eqn:E; [|done]. by apply utf8_decode_encode in E as [_ ?].
Qed.

(** [await reader.readline()] on the bytes to come. *)
Fixpoint readline (input : bytes) : bytes * bytes :=
  match input with
  | [] => ([], [])
  | b :: input => if Byte.eqb b x0a then ([b], input) else let '(line, rest) := readline input in (b :: line, rest)
  end.

(** [decode("iso-8859-1")] *)
Definition latin1 (bs : bytes) : pystr := (λ b, Z.of_N (Byte.to_N b)) <$> bs.

(** ASCII and Latin-1 letters; [µ], [ß] and [ÿ] map to themselves. *)
Definition lower (s : pystr) : pystr :=
  (λ c, if ((65 <=? c) && (c <=? 90)) || ((192 <=? c) && (c <=? 222) && negb (c =? 215)) then c + 32 else c) <$> s.

(** [await reader.readexactly(n)] *)
Definition readexactly (n : Z) (input : bytes) : result bytes :=
  if n <? 0 then Err (ValueError [Lit "readexactly size can not be less than zero"])
  else if zlen input <? n then Err IncompleteReadError
  else Ok (take (Z.to_nat n) input).

(** ** [decode("utf-8", "replace")] *)

(** The character at the start of the bytes, with its length. *)
Definition utf8_first (bs : bytes) : option (Z * nat) :=
  head (omap (λ n, match utf8_decode (take n bs) with Some [c] => Some (c, n) | _ => None end) [1; 2; 3; 4]%nat).

(** How many bytes at the start of an ill-formed sequence one replacement
    character stands for: the beginning of a character as far as it is
    well-formed. *)
Definition ill_formed (bs : bytes) : nat :=
  match byte_to_Z <$> bs with
  | b0 :: b1 :: rest =>
      let lo := if b0 =? 0xe0 then 0xa0 else if b0 =? 0xf0 then 0x90 else 0x80 in
      let hi := if b0 =? 0xed then 0x9f else if b0 =? 0xf4 then 0x8f else 0xbf in
      if (0xe0 <=? b0) && (b0 <=? 0xf4) && (lo <=? b1) && (b1 <=? hi) then
        match rest with
        | b2 :: _ => if (0xf0 <=? b0) && (0x80 <=? b2) && (b2 <=? 0xbf) then 3%nat else 2%nat
        | [] => 2%nat
        end
      else 1%nat
  | _ => 1%nat
  end.

(** Every turn takes a byte. *)
Fixpoint replace_loop (fuel : nat) (bs : bytes) : pystr :=
  match fuel, bs with
  | O, _ | _, [] => []
  | S fuel, _ =>
      match utf8_first bs with
      | Some (c, n) => c :: replace_loop fuel (drop n bs)
      | None => 0xfffd :: replace_loop fuel (drop (ill_formed bs) bs)
      end
  end.

Definition decode_replace (bs : bytes) : pystr := replace_loop (length bs) bs.
