(* ===== verification/LobbyCodec.v ===== *)
(** * Payload codecs of the lobby example ([examples/lobby/handlers.py])

    Six message types, each an encoder and a decoder between Python values
    and little-endian byte strings. *)

From S2P Require Import Prelude Outcome PyStruct PyText PyWire.

#[local] Open Scope Z_scope.

Definition LOGIN_PAYLOAD_LEN : Z := 8.
Definition _ROOM_HEADER_LEN : Z := 1.
Definition ROOM_MAX_NAME : Z := 64.
Definition _CHAT_ROOM_ROOM_LEN : Z := 1.
Definition _CHAT_ROOM_TEXT_LEN_SIZE : Z := 2.
Definition CHAT_MAX_TEXT : Z := 4096.
Definition PRESENCE_UPDATE_PAYLOAD_LEN : Z := 9.
Definition PRESENCE_MAX_NAME : Z := 64.
Definition PRESENCE_MAX_TEXT : Z := 4096.

Definition KIND_JOIN : Z := 0.
Definition KIND_LEAVE : Z := 1.
Definition KIND_CHAT : Z := 2.
Definition KIND_STATUS : Z := 3.

Definition encode_login (principal_id : Z) : result bytes := pack_le [FQ] (principal_id, tt).

Definition decode_login (payload : bytes) : result Z :=
  raise_if (zlen payload <? LOGIN_PAYLOAD_LEN)
    (ValueError [Lit "login payload too short: "; Num (zlen payload); Lit " < "; Num LOGIN_PAYLOAD_LEN]);;
  '(principal_id, _) ← unpack_le [FQ] (take (Z.to_nat LOGIN_PAYLOAD_LEN) payload);
  Ok principal_id.

Definition _encode_room_op (room : pystr) : result bytes :=
  name ← encode_utf8 room;
  raise_if (ROOM_MAX_NAME <? zlen name)
    (ValueError [Lit "room name too long: "; Num (zlen name); Lit " > "; Num ROOM_MAX_NAME]);;
  head ← pack_le [FB] (zlen name, tt);
  Ok (head ++ name).

Definition _decode_room_op (payload : bytes) (label : string) : result pystr :=
  raise_if (zlen payload <? _ROOM_HEADER_LEN)
    (ValueError [Lit label; Lit " payload too short: "; Num (zlen payload); Lit " < "; Num _ROOM_HEADER_LEN]);;
  name_len ← byte_at payload 0;
  raise_if (ROOM_MAX_NAME <? name_len)
    (ValueError [Lit label; Lit " room name length out of range: "; Num name_len; Lit " > "; Num ROOM_MAX_NAME]);;
  let end_ := _ROOM_HEADER_LEN + name_len in
  raise_if (zlen payload <? end_)
    (ValueError [Lit label; Lit " room name truncated: need "; Num end_; Lit ", have "; Num (zlen payload)]);;
  decode_utf8 (slice (Z.to_nat _ROOM_HEADER_LEN) (Z.to_nat end_) payload).

Definition encode_room_join (room : pystr) : result bytes := _encode_room_op room.
Definition decode_room_join (payload : bytes) : result pystr := _decode_room_op payload "room_join".
Definition encode_room_leave (room : pystr) : result bytes := _encode_room_op room.
Definition decode_room_leave (payload : bytes) : result pystr := _decode_room_op payload "room_leave".

Definition encode_chat_room (room text : pystr) : result bytes :=
  name ← encode_utf8 room;
  raise_if (ROOM_MAX_NAME <? zlen name)
    (ValueError [Lit "room name too long: "; Num (zlen name); Lit " > "; Num ROOM_MAX_NAME]);;
  text_bytes ← encode_utf8 text;
  raise_if (CHAT_MAX_TEXT <? zlen text_bytes)
    (ValueError [Lit "chat text too long: "; Num (zlen text_bytes); Lit " > "; Num CHAT_MAX_TEXT]);;
  head ← pack_le [FB] (zlen name, tt);
  mid ← pack_le [FH] (zlen text_bytes, tt);
  Ok (head ++ name ++ mid ++ text_bytes).

Definition decode_chat_room (payload : bytes) : result (pystr * pystr) :=
  raise_if (zlen payload <? _CHAT_ROOM_ROOM_LEN)
    (ValueError [Lit "chat_room payload too short: "; Num (zlen payload); Lit " < "; Num _CHAT_ROOM_ROOM_LEN]);;
  name_len ← byte_at payload 0;
  raise_if (ROOM_MAX_NAME <? name_len)
    (ValueError [Lit "chat_room room name length out of range: "; Num name_len; Lit " > "; Num ROOM_MAX_NAME]);;
  let name_end := _CHAT_ROOM_ROOM_LEN + name_len in
  raise_if (zlen payload <? name_end + _CHAT_ROOM_TEXT_LEN_SIZE)
    (ValueError [Lit "chat_room payload truncated after room name: have "; Num (zlen payload)]);;
  room ← decode_utf8 (slice (Z.to_nat _CHAT_ROOM_ROOM_LEN) (Z.to_nat name_end) payload);
  '(text_len, _) ← unpack_le [FH]
     (slice (Z.to_nat name_end) (Z.to_nat (name_end + _CHAT_ROOM_TEXT_LEN_SIZE)) payload);
  raise_if (CHAT_MAX_TEXT <? text_len)
    (ValueError [Lit "chat_room text length out of range: "; Num text_len; Lit " > "; Num CHAT_MAX_TEXT]);;
  let text_start := name_end + _CHAT_ROOM_TEXT_LEN_SIZE in
  let text_end := text_start + text_len in
  raise_if (zlen payload <? text_end)
    (ValueError [Lit "chat_room text truncated: need "; Num text_end; Lit ", have "; Num (zlen payload)]);;
  text ← decode_utf8 (slice (Z.to_nat text_start) (Z.to_nat text_end) payload);
  Ok (room, text).

Definition encode_presence_update (member_id status : Z) : result bytes :=
  pack_le [FQ; FB] (member_id, (status, tt)).

Definition decode_presence_update (payload : bytes) : result (Z * Z) :=
  raise_if (zlen payload <? PRESENCE_UPDATE_PAYLOAD_LEN)
    (ValueError [Lit "presence_update payload too short: "; Num (zlen payload); Lit " < ";
                 Num PRESENCE_UPDATE_PAYLOAD_LEN]);;
  '(member_id, (status, _)) ← unpack_le [FQ; FB] (take (Z.to_nat PRESENCE_UPDATE_PAYLOAD_LEN) payload);
  Ok (member_id, status).

Record PresenceEvent := mkPresence {
  pe_kind : Z;
  pe_member_id : Z;
  pe_display_name : pystr;
  pe_status : Z;
  pe_text : pystr;
}.

Definition encode_presence (e : PresenceEvent) : result bytes :=
  name ← encode_utf8 (pe_display_name e);
  raise_if (PRESENCE_MAX_NAME <? zlen name)
    (ValueError [Lit "presence display name too long: "; Num (zlen name); Lit " > "; Num PRESENCE_MAX_NAME]);;
  text_bytes ← encode_utf8 (pe_text e);
  raise_if (PRESENCE_MAX_TEXT <? zlen text_bytes)
    (ValueError [Lit "presence text too long: "; Num (zlen text_bytes); Lit " > "; Num PRESENCE_MAX_TEXT]);;
  head ← pack_le [FB; FQ; FB] (pe_kind e, (pe_member_id e, (zlen name, tt)));
  mid ← pack_le [FB; FH] (pe_status e, (zlen text_bytes, tt));
  Ok (head ++ name ++ mid ++ text_bytes).

Definition decode_presence (payload : bytes) : result PresenceEvent :=
  raise_if (zlen payload <? 1 + 8 + 1)
    (ValueError [Lit "presence payload too short: "; Num (zlen payload)]);;
  kind ← byte_at payload 0;
  '(member_id, _) ← unpack_le [FQ] (slice 1 9 payload);
  name_len ← byte_at payload 9;
  raise_if (PRESENCE_MAX_NAME <? name_len)
    (ValueError [Lit "presence name length out of range: "; Num name_len; Lit " > "; Num PRESENCE_MAX_NAME]);;
  let name_end := 10 + name_len in
  raise_if (zlen payload <? name_end + 3)
    (ValueError [Lit "presence payload truncated after name: have "; Num (zlen payload)]);;
  display_name ← decode_utf8 (slice 10 (Z.to_nat name_end) payload);
  status ← byte_at payload (Z.to_nat name_end);
  '(text_len, _) ← unpack_le [FH] (slice (Z.to_nat (name_end + 1)) (Z.to_nat (name_end + 3)) payload);
  raise_if (PRESENCE_MAX_TEXT <? text_len)
    (ValueError [Lit "presence text length out of range: "; Num text_len; Lit " > "; Num PRESENCE_MAX_TEXT]);;
  let text_start := name_end + 3 in
  let text_end := text_start + text_len in
  raise_if (zlen payload <? text_end)
    (ValueError [Lit "presence text truncated: need "; Num text_end; Lit ", have "; Num (zlen payload)]);;
  text ← decode_utf8 (slice (Z.to_nat text_start) (Z.to_nat text_end) payload);
  Ok (mkPresence kind member_id display_name status text).

(** ** Messages *)

(** The types of [examples/lobby/messages.py]. *)
Definition LOGIN_TYPE : Z := 1100.
Definition PRESENCE_TYPE : Z := 1101.
Definition ROOM_JOIN_TYPE : Z := 1102.
Definition ROOM_LEAVE_TYPE : Z := 1103.
Definition CHAT_ROOM_TYPE : Z := 1104.
Definition PRESENCE_UPDATE_TYPE : Z := 1105.

Inductive message :=
  | MLogin (principal_id : Z)
  | MRoomJoin (room : pystr)
  | MRoomLeave (room : pystr)
  | MChatRoom (room text : pystr)
  | MPresenceUpdate (member_id status : Z)
  | MPresence (e : PresenceEvent).

Definition message_type (m : message) : Z :=
  match m with
  | MLogin _ => LOGIN_TYPE
  | MRoomJoin _ => ROOM_JOIN_TYPE
  | MRoomLeave _ => ROOM_LEAVE_TYPE
  | MChatRoom _ _ => CHAT_ROOM_TYPE
  | MPresenceUpdate _ _ => PRESENCE_UPDATE_TYPE
  | MPresence _ => PRESENCE_TYPE
  end.

Definition encode_message (m : message) : result bytes :=
  match m with
  | MLogin p => encode_login p
  | MRoomJoin room => encode_room_join room
  | MRoomLeave room => encode_room_leave room
  | MChatRoom room text => encode_chat_room room text
  | MPresenceUpdate member_id status => encode_presence_update member_id status
  | MPresence e => encode_presence e
  end.

(** The decoder of each type; [None] for a type that is not the lobby's. *)
Definition decode_message (ty : Z) (payload : bytes) : option (result message) :=
  if ty =? LOGIN_TYPE then Some (MLogin <$> decode_login payload)
  else if ty =? ROOM_JOIN_TYPE then Some (MRoomJoin <$> decode_room_join payload)
  else if ty =? ROOM_LEAVE_TYPE then Some (MRoomLeave <$> decode_room_leave payload)
  else if ty =? CHAT_ROOM_TYPE then
    Some ((λ '(room, text), MChatRoom room text) <$> decode_chat_room payload)
  else if ty =? PRESENCE_UPDATE_TYPE then
    Some ((λ '(member_id, status), MPresenceUpdate member_id status) <$> decode_presence_update payload)
  else if ty =? PRESENCE_TYPE then Some (MPresence <$> decode_presence payload)
  else None.

(** Strings hold code points. *)
Definition texts (m : message) : list pystr :=
  match m with
  | MRoomJoin room | MRoomLeave room => [room]
  | MChatRoom room text => [room; text]
  | MPresence e => [pe_display_name e; pe_text e]
  | _ => []
  end.

(** ** Decoding what was encoded *)

(** Discharge a length check that holds. *)
Ltac pass_check := lazymatch goal with
  | |- context [raise_if ?c _] =>
      replace c with false by (symmetry; apply Z.ltb_ge; lia); cbn [raise_if mbind result_bind]
  end.

Lemma zlen_cons {A} (x : A) l : zlen (x :: l) = 1 + zlen l.
Proof. unfold zlen. cbn. lia. Qed.

Lemma zlen_length {A} (l : list A) : Z.to_nat (zlen l) = length l.
Proof. unfold zlen. lia. Qed.

Lemma decode_login_app p bs rest : encode_login p = Ok bs → decode_login (bs ++ rest) = Ok p.
Proof.
  unfold encode_login, decode_login, LOGIN_PAYLOAD_LEN. intros Hp.
  pose proof (length_pack_le _ _ _ Hp) as Hl. rewrite zlen_app.
  assert (zlen bs = 8) by (unfold zlen; rewrite Hl; done). pose proof (zlen_nonneg rest). pass_check.
  rewrite take_slice, <-(app_nil_l (bs ++ rest)). by rewrite (unpack_le_app [FQ] (p, tt) bs).
Qed.

Lemma decode_presence_update_app m st bs rest : encode_presence_update m st = Ok bs →
  decode_presence_update (bs ++ rest) = Ok (m, st).
Proof.
  unfold encode_presence_update, decode_presence_update, PRESENCE_UPDATE_PAYLOAD_LEN. intros Hp.
  pose proof (length_pack_le _ _ _ Hp) as Hl. rewrite zlen_app.
  assert (zlen bs = 9) by (unfold zlen; rewrite Hl; done). pose proof (zlen_nonneg rest). pass_check.
  rewrite take_slice, <-(app_nil_l (bs ++ rest)). by rewrite (unpack_le_app [FQ; FB] (m, (st, tt)) bs).
Qed.

Lemma decode_room_app room bs label rest : forallb is_code_point room = true →
  _encode_room_op room = Ok bs → _decode_room_op (bs ++ rest) label = Ok room.
Proof.
  intros Hr He. unfold _encode_room_op, ROOM_MAX_NAME in He. inv_result. bool_hyps.
  apply pack_le_byte in Hx1 as [-> Hlen]. unfold _decode_room_op, _ROOM_HEADER_LEN, ROOM_MAX_NAME.
  pose proof (zlen_nonneg rest). pose proof (zlen_nonneg x). cbn [app]. rewrite !zlen_cons, !zlen_app.
  pass_check. rewrite byte_at_head by done. cbn [mbind result_bind]. do 2 pass_check.
  rewrite (slice_app [Z_to_byte (zlen x)] x rest); [by apply encode_utf8_decode|done|].
  unfold zlen. cbn [length]. lia.
Qed.

Lemma decode_chat_app room text bs rest :
  forallb is_code_point room = true → forallb is_code_point text = true →
  encode_chat_room room text = Ok bs → decode_chat_room (bs ++ rest) = Ok (room, text).
Proof.
  intros Hr Ht He. unfold encode_chat_room, ROOM_MAX_NAME, CHAT_MAX_TEXT in He. inv_result. bool_hyps.
  rename x into name, x1 into txt. apply pack_le_byte in Hx3 as [-> Hlen].
  pose proof (length_pack_le _ _ _ Hx4) as Hl. change (size_of [FH]) with 2%nat in Hl.
  unfold decode_chat_room, _CHAT_ROOM_ROOM_LEN, ROOM_MAX_NAME, _CHAT_ROOM_TEXT_LEN_SIZE, CHAT_MAX_TEXT.
  set (p := ([Z_to_byte (zlen name)] ++ name ++ x4 ++ txt) ++ rest).
  assert (zlen p = 1 + zlen name + 2 + zlen txt + zlen rest) as Hp.
  { unfold p. rewrite !zlen_app. assert (zlen x4 = 2) by (unfold zlen; lia). unfold zlen at 1. cbn [length]. lia. }
  pose proof (zlen_nonneg rest). pose proof (zlen_nonneg name). pose proof (zlen_nonneg txt).
  assert (p = [] ++ Z_to_byte (zlen name) :: name ++ x4 ++ txt ++ rest) as E0 by (unfold p; by rewrite <-!app_assoc).
  assert (p = [Z_to_byte (zlen name)] ++ name ++ (x4 ++ txt ++ rest)) as E1 by done.
  assert (p = ([Z_to_byte (zlen name)] ++ name) ++ x4 ++ (txt ++ rest)) as E2 by (by rewrite E1, <-!app_assoc).
  assert (p = ([Z_to_byte (zlen name)] ++ name ++ x4) ++ txt ++ rest) as E3 by (by rewrite E1, <-!app_assoc).
  assert (byte_at p 0 = Ok (zlen name)) as -> by (rewrite E0; by apply (byte_at_app [])).
  rewrite Hp. cbn [mbind result_bind]. do 3 pass_check.
  assert (slice (Z.to_nat 1) (Z.to_nat (1 + zlen name)) p = name) as ->.
  { rewrite E1. apply slice_app; [done|]. unfold zlen. cbn. lia. }
  rewrite (encode_utf8_decode room) by done. cbn [mbind result_bind].
  assert (unpack_le [FH] (slice (Z.to_nat (1 + zlen name)) (Z.to_nat (1 + zlen name + 2)) p) = Ok (zlen txt, tt)) as ->.
  { rewrite E2. apply unpack_le_app; [done|done|unfold zlen; cbn; lia|]. change (size_of [FH]) with 2%nat. unfold zlen. lia. }
  cbn [mbind result_bind]. do 2 pass_check.
  assert (slice (Z.to_nat (1 + zlen name + 2)) (Z.to_nat (1 + zlen name + 2 + zlen txt)) p = txt) as ->.
  { rewrite E3. apply slice_app; rewrite !length_app, Hl; unfold zlen; cbn; lia. }
  by rewrite (encode_utf8_decode text).
Qed.

Lemma pack_presence_head k m n bs : pack_le [FB; FQ; FB] (k, (m, (n, tt))) = Ok bs → ∃ b,
  bs = Z_to_byte k :: b ++ [Z_to_byte n] ∧ pack_le [FQ] (m, tt) = Ok b ∧ 0 ≤ k < 256 ∧ 0 ≤ n < 256.
Proof.
  rewrite pack_le_cons, (pack_le_cons FQ [FB]). intros Hp. inv_result. apply pack_le_byte in Hx as [-> Hk].
  apply pack_le_byte in Hx2 as [-> Hn]. by exists x1.
Qed.

Lemma pack_presence_mid s n bs : pack_le [FB; FH] (s, (n, tt)) = Ok bs → ∃ b,
  bs = Z_to_byte s :: b ∧ pack_le [FH] (n, tt) = Ok b ∧ 0 ≤ s < 256.
Proof.
  rewrite pack_le_cons. intros Hp. inv_result. apply pack_le_byte in Hx as [-> Hs]. by exists x0.
Qed.

Lemma decode_presence_app e bs rest :
  forallb is_code_point (pe_display_name e) = true → forallb is_code_point (pe_text e) = true →
  encode_presence e = Ok bs → decode_presence (bs ++ rest) = Ok e.
Proof.
  intros Hn Ht He. unfold encode_presence, PRESENCE_MAX_NAME, PRESENCE_MAX_TEXT in He. inv_result. bool_hyps.
  rename x into name, x1 into txt.
  apply pack_presence_head in Hx3 as (idb & -> & Hid & Hk & Hlen).
  apply pack_presence_mid in Hx4 as (tl & -> & Htl & Hs).
  pose proof (length_pack_le _ _ _ Hid) as Hidl. pose proof (length_pack_le _ _ _ Htl) as Htll.
  change (size_of [FQ]) with 8%nat in Hidl. change (size_of [FH]) with 2%nat in Htll.
  pose proof (zlen_nonneg rest). pose proof (zlen_nonneg name). pose proof (zlen_nonneg txt).
  unfold decode_presence, PRESENCE_MAX_NAME, PRESENCE_MAX_TEXT.
  set (kb := Z_to_byte (pe_kind e)). set (nb := Z_to_byte (zlen name)). set (sb := Z_to_byte (pe_status e)).
  set (p := _ ++ rest).
  assert (p = ((kb :: idb) ++ [nb]) ++ name ++ (sb :: tl) ++ txt ++ rest) as Ep.
  { unfold p. by simplify_list_eq. }
  assert (p = [kb] ++ idb ++ (nb :: name ++ (sb :: tl) ++ txt ++ rest)) as E1 by (rewrite Ep; by simplify_list_eq).
  assert (p = (kb :: idb) ++ nb :: (name ++ (sb :: tl) ++ txt ++ rest)) as E2 by (rewrite Ep; by simplify_list_eq).
  assert (p = (((kb :: idb) ++ [nb]) ++ name) ++ sb :: (tl ++ txt ++ rest)) as E3 by (rewrite Ep; by simplify_list_eq).
  assert (p = ((((kb :: idb) ++ [nb]) ++ name) ++ [sb]) ++ tl ++ (txt ++ rest)) as E4
    by (rewrite Ep; by simplify_list_eq).
  assert (p = (((((kb :: idb) ++ [nb]) ++ name) ++ [sb]) ++ tl) ++ txt ++ rest) as E5
    by (rewrite Ep; by simplify_list_eq).
  assert (length (((kb :: idb) ++ [nb]) ++ name) = (10 + length name)%nat) as Hln by (rewrite !length_app; cbn; lia).
  assert (zlen p = 13 + zlen name + zlen txt + zlen rest) as Hp.
  { assert (zlen idb = 8) by (unfold zlen; lia). assert (zlen tl = 2) by (unfold zlen; lia).
    rewrite Ep, !zlen_app, !zlen_cons. change (zlen (A := Byte.byte) []) with 0. lia. }
  rewrite Hp. pass_check.
  assert (byte_at p 0 = Ok (pe_kind e)) as -> by (rewrite E1; by apply byte_at_head).
  assert (unpack_le [FQ] (slice 1 9 p) = Ok (pe_member_id e, tt)) as ->.
  { rewrite E1. by apply unpack_le_app. }
  assert (byte_at p 9 = Ok (zlen name)) as ->.
  { rewrite E2. replace 9%nat with (length (kb :: idb)) by (cbn; lia). by apply byte_at_app. }
  cbn [mbind result_bind]. do 2 pass_check.
  assert (slice 10 (Z.to_nat (10 + zlen name)) p = name) as ->.
  { rewrite Ep. apply slice_app; unfold zlen; rewrite ?length_app; cbn [length]; lia. }
  rewrite (encode_utf8_decode (pe_display_name e)) by done.
  assert (Z.to_nat (10 + zlen name) = length (((kb :: idb) ++ [nb]) ++ name)) as Hpos by (unfold zlen; lia).
  assert (byte_at p (Z.to_nat (10 + zlen name)) = Ok (pe_status e)) as ->.
  { rewrite E3, Hpos. by apply byte_at_app. }
  assert (unpack_le [FH] (slice (Z.to_nat (10 + zlen name + 1)) (Z.to_nat (10 + zlen name + 3)) p)
          = Ok (zlen txt, tt)) as ->.
  { rewrite E4. apply unpack_le_app; [done|done|rewrite length_app; cbn [length]; lia|].
    change (size_of [FH]) with 2%nat. lia. }
  cbn [mbind result_bind]. do 2 pass_check.
  assert (slice (Z.to_nat (10 + zlen name + 3)) (Z.to_nat (10 + zlen name + 3 + zlen txt)) p = txt) as ->.
  { rewrite E5. apply slice_app; rewrite !(length_app (_ ++ [sb])), (length_app _ [sb]); unfold zlen; cbn [length]; lia. }
  rewrite (encode_utf8_decode (pe_text e)) by done. by destruct e.
Qed.

(** ** Decoded payloads are encodings followed by ignored bytes *)

Definition encodes (m : message) (payload : bytes) : Prop :=
  ∃ bs rest, encode_message m = Ok bs ∧ payload = bs ++ rest ∧
    forallb (forallb is_code_point) (texts m) = true.

Lemma raise_if_ltb {a b e u} : raise_if (a <? b) e = Ok u → b ≤ a.
Proof. unfold raise_if. destruct (Z.ltb_spec a b); [done|lia]. Qed.

Lemma zlen_slice a b bs : (a ≤ b)%nat → Z.of_nat b ≤ zlen bs → zlen (slice a b bs) = Z.of_nat b - Z.of_nat a.
Proof. intros Ha Hb. unfold zlen in *. rewrite length_slice; lia. Qed.

Lemma not_long {a b} e : a ≤ b → raise_if (b <? a) e = Ok tt.
Proof. intros Hab. by rewrite (proj2 (Z.ltb_ge _ _)). Qed.

Lemma split_at a bs : (a ≤ length bs)%nat → bs = slice 0 a bs ++ drop a bs.
Proof. intros _. by rewrite <-drop_slice, drop_0 by lia. Qed.

Lemma decode_login_encodes p pl : decode_login pl = Ok p → encodes (MLogin p) pl.
Proof.
  unfold decode_login, LOGIN_PAYLOAD_LEN. intros Hd. inv_result. destruct x0 as [p' []]. injection Hd as ->.
  apply (unpack_le_fits [FQ] _ (p, tt)) in Hx0 as [_ Hp]. eexists _, (drop 8 pl). split; [exact Hp|]. split; [|done].
  symmetry. apply take_drop.
Qed.

Lemma decode_presence_update_encodes m st pl :
  decode_presence_update pl = Ok (m, st) → encodes (MPresenceUpdate m st) pl.
Proof.
  unfold decode_presence_update, PRESENCE_UPDATE_PAYLOAD_LEN. intros Hd. inv_result.
  destruct x0 as [m' [st' []]]. injection Hd as -> ->.
  apply (unpack_le_fits [FQ; FB] _ (m, (st, tt))) in Hx0 as [_ Hp]. eexists _, (drop 9 pl). split; [exact Hp|]. split; [|done].
  symmetry. apply take_drop.
Qed.

Lemma decode_room_encodes room pl label : _decode_room_op pl label = Ok room →
  ∃ bs rest, _encode_room_op room = Ok bs ∧ pl = bs ++ rest ∧ forallb is_code_point room = true.
Proof.
  unfold _decode_room_op, _encode_room_op, _ROOM_HEADER_LEN, ROOM_MAX_NAME. intros Hd. inv_result.
  bool_hyps. rename x0 into n. apply byte_at_slice in Hx0 as (Hl & Hn & Hb).
  apply decode_utf8_encode in Hd as [He Hc].
  assert (zlen (slice (Z.to_nat 1) (Z.to_nat (1 + n)) pl) = n) as Hz by (rewrite zlen_slice; lia).
  exists (slice 0 1 pl ++ slice 1 (Z.to_nat (1 + n)) pl), (drop (Z.to_nat (1 + n)) pl).
  rewrite He. cbn [mbind result_bind]. rewrite Hz, not_long by lia. cbn [mbind result_bind]. rewrite Hb.
  split; [done|]. split; [|done]. rewrite <-app_assoc, <-!drop_slice by lia. by rewrite drop_0.
Qed.

Lemma decode_chat_encodes room text pl : decode_chat_room pl = Ok (room, text) →
  encodes (MChatRoom room text) pl.
Proof.
  unfold decode_chat_room, _CHAT_ROOM_ROOM_LEN, ROOM_MAX_NAME, _CHAT_ROOM_TEXT_LEN_SIZE, CHAT_MAX_TEXT.
  intros Hd. inv_result. bool_hyps. rename x0 into n. apply byte_at_slice in Hx0 as (Hl & Hn & Hb).
  destruct x4 as [tl []]. inv_result. bool_hyps.
  apply (unpack_le_fits [FH] _ (tl, tt)) in Hx4 as [Hf Hm].
  apply fits_u16 in Hf.
  apply decode_utf8_encode in Hx3 as [Her Hcr]. apply decode_utf8_encode in Hx6 as [Het Hct].
  exists (slice 0 1 pl ++ slice 1 (Z.to_nat (1 + n)) pl ++ slice (Z.to_nat (1 + n)) (Z.to_nat (1 + n + 2)) pl ++
     slice (Z.to_nat (1 + n + 2)) (Z.to_nat (1 + n + 2 + tl)) pl), (drop (Z.to_nat (1 + n + 2 + tl)) pl).
  cbn [encode_message texts forallb]. rewrite Hcr, Hct. unfold encode_chat_room, ROOM_MAX_NAME, CHAT_MAX_TEXT.
  rewrite Her, Het. cbn [mbind result_bind]. rewrite !zlen_slice by lia.
  replace (Z.of_nat (Z.to_nat (1 + n)) - Z.of_nat (Z.to_nat 1)) with n by lia.
  replace (Z.of_nat (Z.to_nat (1 + n + 2 + tl)) - Z.of_nat (Z.to_nat (1 + n + 2))) with tl by lia.
  rewrite !not_long by lia. cbn [mbind result_bind]. rewrite Hb, Hm. split; [done|]. split; [|done].
  rewrite <-!app_assoc, <-!drop_slice by lia. by rewrite drop_0.
Qed.

Lemma decode_presence_encodes e pl : decode_presence pl = Ok e → encodes (MPresence e) pl.
Proof.
  unfold decode_presence, PRESENCE_MAX_NAME, PRESENCE_MAX_TEXT. intros Hd. inv_result. bool_hyps.
  destruct x1 as [m []]. inv_result. bool_hyps. destruct x6 as [tl []]. inv_result. bool_hyps.
  rename x0 into k, x1 into n, x5 into st. apply (unpack_le_fits [FQ] _ (m, tt)) in Hx1 as [_ Hid].
  apply (unpack_le_fits [FH] _ (tl, tt)) in Hx7 as [Hf%fits_u16 Htl].
  apply byte_at_slice in Hx0 as (_ & _ & Hk). apply byte_at_slice in Hx2 as (_ & Hn & Hnb).
  apply byte_at_slice in Hx6 as (_ & _ & Hst). apply decode_utf8_encode in Hx5 as [Her Hcr].
  match goal with Hx : decode_utf8 _ = Ok _ |- _ => apply decode_utf8_encode in Hx as [Het Hct] end.
  set (a := Z.to_nat (10 + n)) in *. replace (Z.to_nat (10 + n + 1)) with (S a) in * by lia.
  set (b := Z.to_nat (10 + n + 3)) in *. set (c := Z.to_nat (10 + n + 3 + tl)) in *.
  exists ((slice 0 1 pl ++ slice 1 9 pl ++ slice 9 10 pl) ++ slice 10 a pl ++
          (slice a (S a) pl ++ slice (S a) b pl) ++ slice b c pl), (drop c pl).
  cbn [encode_message texts forallb pe_display_name pe_text]. rewrite Hcr, Hct.
  unfold encode_presence, PRESENCE_MAX_NAME, PRESENCE_MAX_TEXT. cbn [pe_display_name pe_text pe_kind pe_member_id pe_status].
  rewrite Her, Het. cbn [mbind result_bind]. rewrite !zlen_slice by lia.
  replace (Z.of_nat a - Z.of_nat 10) with n by lia. replace (Z.of_nat c - Z.of_nat b) with tl by lia.
  rewrite !not_long by lia. cbn [mbind result_bind].
  assert (pack_le [FB; FQ; FB] (k, (m, (n, tt))) = Ok (slice 0 1 pl ++ slice 1 9 pl ++ slice 9 10 pl)) as ->.
  { exact (pack_le_2 FB [FQ; FB] k (m, (n, tt)) _ _ Hk (pack_le_2 FQ [FB] m (n, tt) _ _ Hid Hnb)). }
  assert (pack_le [FB; FH] (st, (tl, tt)) = Ok (slice a (S a) pl ++ slice (S a) b pl)) as ->.
  { exact (pack_le_2 FB [FH] st (tl, tt) _ _ Hst Htl). }
  split; [done|]. split; [|done].
  rewrite <-!app_assoc, <-!drop_slice by lia. by rewrite drop_0.
Qed.

(** ** Errors *)

(** One step of a decoder: a length check, a read within the checked length,
    or a text. *)
Ltac decode_step := first
  [ eapply bounded_bind; [by apply bounded_check|intros ? ?; cbv beta in *]
  | eapply bounded_bind; [apply bounded_byte_at; unfold zlen in *; lia|intros ? ?; cbv beta in *]
  | eapply bounded_bind; [apply bounded_decode_utf8|intros ? ?] ].

Lemma decode_login_bounded pl : bounded is_value_error (λ _, True) (decode_login pl).
Proof.
  unfold decode_login, LOGIN_PAYLOAD_LEN. decode_step.
  eapply bounded_bind; [apply (bounded_unpack_le _ [FQ])|by intros [? ?] _].
  unfold zlen in *. rewrite length_take. change (size_of [FQ]) with 8%nat. lia.
Qed.

Lemma decode_presence_update_bounded pl : bounded is_value_error (λ _, True) (decode_presence_update pl).
Proof.
  unfold decode_presence_update, PRESENCE_UPDATE_PAYLOAD_LEN. decode_step.
  eapply bounded_bind; [apply (bounded_unpack_le _ [FQ; FB])|by intros (? & ? & ?) _].
  unfold zlen in *. rewrite length_take. change (size_of [FQ; FB]) with 9%nat. lia.
Qed.

Lemma decode_room_bounded pl label : bounded is_value_error (λ _, True) (_decode_room_op pl label).
Proof.
  unfold _decode_room_op, _ROOM_HEADER_LEN, ROOM_MAX_NAME. do 4 decode_step.
  eapply bounded_any, bounded_decode_utf8.
Qed.

Lemma decode_chat_bounded pl : bounded is_value_error (λ _, True) (decode_chat_room pl).
Proof.
  unfold decode_chat_room, _CHAT_ROOM_ROOM_LEN, ROOM_MAX_NAME, _CHAT_ROOM_TEXT_LEN_SIZE, CHAT_MAX_TEXT.
  do 5 decode_step. eapply bounded_bind.
  { apply (bounded_unpack_le _ [FH]). rewrite length_slice by (unfold zlen in *; lia).
    change (size_of [FH]) with 2%nat. lia. }
  intros [tl []] Htl. do 3 decode_step. done.
Qed.

Lemma decode_presence_bounded pl : bounded is_value_error (λ _, True) (decode_presence pl).
Proof.
  unfold decode_presence, PRESENCE_MAX_NAME, PRESENCE_MAX_TEXT. do 2 decode_step. eapply bounded_bind.
  { apply (bounded_unpack_le _ [FQ]). by rewrite length_slice by (unfold zlen in *; lia). }
  intros [m []] _. do 5 decode_step. eapply bounded_bind.
  { apply (bounded_unpack_le _ [FH]). rewrite length_slice by (unfold zlen in *; lia).
    change (size_of [FH]) with 2%nat. lia. }
  intros [tl []] Htl. do 3 decode_step. done.
Qed.

(** A decoder's result as a message. *)
Lemma bounded_fmap {A} (f : A → message) r : bounded is_value_error (λ _, True) r →
  bounded is_value_error (λ _, True) (f <$> r).
Proof. by destruct r. Qed.

(** On arbitrary payload bytes a lobby decoder either returns a message or
    raises a ValueError, the exception the handlers catch. *)
Theorem lobby_decode_errors ty payload e :
  decode_message ty payload = Some (Err e) → is_value_error e = true.
Proof.
  intros Hd. assert (from_option (bounded is_value_error (λ _, True)) True (decode_message ty payload)) as Hb.
  { unfold decode_message.
    repeat (match goal with |- context [ty =? ?t] => destruct (ty =? t) end;
      [cbn [from_option]; apply bounded_fmap|]);
      first [exact I | apply decode_login_bounded | apply decode_room_bounded | apply decode_chat_bounded
            | apply decode_presence_update_bounded | apply decode_presence_bounded]. }
  by rewrite Hd in Hb.
Qed.

Lemma decode_message_type m payload : decode_message (message_type m) payload =
  Some (match m with
        | MLogin _ => MLogin <$> decode_login payload
        | MRoomJoin _ => MRoomJoin <$> decode_room_join payload
        | MRoomLeave _ => MRoomLeave <$> decode_room_leave payload
        | MChatRoom _ _ => (λ '(room, text), MChatRoom room text) <$> decode_chat_room payload
        | MPresenceUpdate _ _ =>
            (λ '(member_id, status), MPresenceUpdate member_id status) <$> decode_presence_update payload
        | MPresence _ => MPresence <$> decode_presence payload
        end).
Proof. by destruct m. Qed.

Lemma decode_encodes m payload : encodes m payload → decode_message (message_type m) payload = Some (Ok m).
Proof.
  intros (bs & rest & He & -> & Ht). rewrite decode_message_type.
  destruct m; cbn [encode_message texts forallb] in *; bool_hyps;
    unfold decode_room_join, decode_room_leave, encode_room_join, encode_room_leave in *.
  - by rewrite (decode_login_app _ _ _ He).
  - by rewrite (decode_room_app room bs).
  - by rewrite (decode_room_app room bs).
  - by rewrite (decode_chat_app room text bs).
  - by rewrite (decode_presence_update_app _ _ _ _ He).
  - by rewrite (decode_presence_app e bs).
Qed.

Lemma result_fmap_Ok {A B} (f : A → B) (r : result A) b : f <$> r = Ok b → ∃ a, r = Ok a ∧ b = f a.
Proof. destruct r; [|done]. intros [= <-]. by eexists. Qed.

Lemma decode_message_encodes ty payload m : decode_message ty payload = Some (Ok m) →
  message_type m = ty ∧ encodes m payload.
Proof.
  unfold decode_message. intros Hd.
  repeat match type of Hd with context [ty =? ?t] => destruct (Z.eqb_spec ty t) as [->|] end; [..|done];
    injection Hd as Hd; apply result_fmap_Ok in Hd as (x & Hx & ->).
  - split; [done|]. by apply decode_login_encodes.
  - split; [done|]. by apply decode_room_encodes in Hx as (bs & rest & ? & ? & Hc); exists bs, rest; cbn; rewrite Hc.
  - split; [done|]. by apply decode_room_encodes in Hx as (bs & rest & ? & ? & Hc); exists bs, rest; cbn; rewrite Hc.
  - destruct x. split; [done|]. by apply decode_chat_encodes.
  - destruct x. split; [done|]. by apply decode_presence_update_encodes.
  - split; [done|]. by apply decode_presence_encodes.
Qed.

(** Each lobby decoder accepts exactly the payloads that begin with an
    encoding of a message of its type, and returns that message: decoding
    inverts encoding, and whatever decodes re-encodes to the bytes it was
    decoded from. *)
Theorem lobby_codec_exact ty payload m :
  decode_message ty payload = Some (Ok m) ↔ message_type m = ty ∧ encodes m payload.
Proof.
  split; [apply decode_message_encodes|]. intros [<- He]. by apply decode_encodes.
Qed.
