(* ===== verification/Lobby.v ===== *)
(** * The lobby server ([examples/lobby/handlers.py])

    Members, rooms and chat.  Each method of [LobbyState] and of the outbox
    holds its lock for its whole body, so it is one atomic operation; a
    handler is a program over these operations, and the worker pool may
    interleave the programs of several frames. *)

From S2P Require Import Prelude Outcome PyStruct PyText PyWire LobbyCodec.

#[local] Open Scope Z_scope.

(** ** State *)

Record Member := mkMember {
  mb_member_id : Z;
  mb_principal_id : Z;
  mb_display_name : pystr;
  mb_status : Z;
}.

Record LobbyState := mkLobby {
  lb_members : gmap Z Member;
  lb_by_principal : gmap Z Z;
  lb_rooms : gmap pystr (gset Z);
  lb_chat_log : list (pystr * Z * pystr);
  lb_next_member_id : Z;
}.

Definition LobbyState_init : LobbyState := mkLobby ∅ ∅ ∅ [] 1.

(** [f"member-{member_id}"] *)
Definition default_name (member_id : Z) : pystr := str "member-" ++ (digit_char <$> digits member_id).

Definition get_or_create_member (principal_id : Z) (s : LobbyState) : LobbyState * result Member :=
  match lb_by_principal s !! principal_id with
  | Some member_id =>
      (s, match lb_members s !! member_id with Some m => Ok m | None => Err KeyError end)
  | None =>
      let member_id := lb_next_member_id s in
      let member := mkMember member_id principal_id (default_name member_id) 0 in
      (mkLobby (<[member_id := member]> (lb_members s)) (<[principal_id := member_id]> (lb_by_principal s))
         (lb_rooms s) (lb_chat_log s) (member_id + 1), Ok member)
  end.

Definition with_members (s : LobbyState) (members : gmap Z Member) : LobbyState :=
  mkLobby members (lb_by_principal s) (lb_rooms s) (lb_chat_log s) (lb_next_member_id s).

Definition with_rooms (s : LobbyState) (rooms : gmap pystr (gset Z)) : LobbyState :=
  mkLobby (lb_members s) (lb_by_principal s) rooms (lb_chat_log s) (lb_next_member_id s).

Definition set_display_name (member_id : Z) (display_name : pystr) (s : LobbyState) : LobbyState :=
  match lb_members s !! member_id with
  | None => s
  | Some m =>
      with_members s (<[member_id := mkMember (mb_member_id m) (mb_principal_id m) display_name
                                       (mb_status m)]> (lb_members s))
  end.

Definition join_room (room : pystr) (member_id : Z) (s : LobbyState) : LobbyState * bool :=
  let members := default ∅ (lb_rooms s !! room) in
  if decide (member_id ∈ members) then (with_rooms s (<[room := members]> (lb_rooms s)), false)
  else (with_rooms s (<[room := {[member_id]} ∪ members]> (lb_rooms s)), true).

Definition leave_room (room : pystr) (member_id : Z) (s : LobbyState) : LobbyState * bool :=
  match lb_rooms s !! room with
  | None => (s, false)
  | Some members =>
      if decide (member_id ∈ members) then
        let members := members ∖ {[member_id]} in
        if decide (members = ∅) then (with_rooms s (delete room (lb_rooms s)), true)
        else (with_rooms s (<[room := members]> (lb_rooms s)), true)
      else (s, false)
  end.

Definition room_members (room : pystr) (s : LobbyState) : list Z :=
  sorted_by id (elements (default ∅ (lb_rooms s !! room))).

Definition room_names (s : LobbyState) : list pystr := sorted_by id (elements (dom (lb_rooms s))).

Definition record_chat (room : pystr) (member_id : Z) (text : pystr) (s : LobbyState) : LobbyState :=
  mkLobby (lb_members s) (lb_by_principal s) (lb_rooms s) (lb_chat_log s ++ [(room, member_id, text)])
    (lb_next_member_id s).

Definition chat_log (room : option pystr) (s : LobbyState) : list (pystr * Z * pystr) :=
  match room with
  | None => lb_chat_log s
  | Some r => filter (λ e, fst (fst e) = r) (lb_chat_log s)
  end.

Definition set_status (member_id status : Z) (s : LobbyState) : LobbyState * bool :=
  match lb_members s !! member_id with
  | None => (s, false)
  | Some m =>
      if mb_status m =? status then (s, false) else
      (with_members s (<[member_id := mkMember (mb_member_id m) (mb_principal_id m) (mb_display_name m)
                                        status]> (lb_members s)), true)
  end.

Definition member (member_id : Z) (s : LobbyState) : option Member := lb_members s !! member_id.

Definition members (s : LobbyState) : list Member :=
  sorted_by mb_member_id (snd <$> map_to_list (lb_members s)).

(** The outbox sink and the gateway's table of bound sessions; a session
    without an entry has actor id 0. *)
Record lobby := mkLobbyWorld {
  lw_state : LobbyState;
  lw_outbox : list (list Z * bytes);
  lw_sessions : gmap Z Z;
}.

Definition lobby_init : lobby := mkLobbyWorld LobbyState_init [] ∅.

(** ** Atomic operations *)

Inductive op : Set → Set :=
  | OpGetOrCreate (principal_id : Z) : op (result Member)
  | OpJoin (room : pystr) (member_id : Z) : op bool
  | OpLeave (room : pystr) (member_id : Z) : op bool
  | OpRoomMembers (room : pystr) : op (list Z)
  | OpRoomNames : op (list pystr)
  | OpRecordChat (room : pystr) (member_id : Z) (text : pystr) : op unit
  | OpSetStatus (member_id status : Z) : op bool
  | OpMember (member_id : Z) : op (option Member)
  | OpDeliver (targets : list Z) (payload : bytes) : op unit
  | OpBindActor (session actor_id : Z) : op (result unit)
  | OpSessionActor (session : Z) : op Z.

(** What [getattr(session, "info", None)] gives: nothing, a record that has
    the bound actor id, or, as on [kith.gateway.Session], a bound method. *)
Inductive info_attr := InfoAbsent | InfoRecord | InfoMethod.

(** The session surface: what the gateway answers when a session is bound to
    an actor, and how a session shows its metadata. *)
Record gateway := mkGateway {
  gw_bind : Z → Z → result unit;
  gw_info : info_attr;
}.

(** [int(getattr(info, "actor_id", 0))]; a bound method has no [actor_id]. *)
Definition info_actor_id (info : info_attr) (actor_id : Z) : Z :=
  match info with InfoRecord => actor_id | InfoAbsent | InfoMethod => 0 end.

(** [OutboxSink] *)
Definition deliver (session_ids : list Z) (payload : bytes) (entries : list (list Z * bytes)) :
    list (list Z * bytes) := entries ++ [(session_ids, payload)].
Definition outbox_entries (entries : list (list Z * bytes)) : list (list Z * bytes) := entries.
Definition outbox_clear (entries : list (list Z * bytes)) : list (list Z * bytes) := [].

Definition on_lobby {A} (f : LobbyState → LobbyState * A) (w : lobby) : lobby * A :=
  let '(s, x) := f (lw_state w) in (mkLobbyWorld s (lw_outbox w) (lw_sessions w), x).

Definition exec_op (gw : gateway) {A : Set} (o : op A) : lobby → lobby * A :=
  match o with
  | OpGetOrCreate p => on_lobby (get_or_create_member p)
  | OpJoin r m => on_lobby (join_room r m)
  | OpLeave r m => on_lobby (leave_room r m)
  | OpRoomMembers r => λ w, (w, room_members r (lw_state w))
  | OpRoomNames => λ w, (w, room_names (lw_state w))
  | OpRecordChat r m t => on_lobby (λ s, (record_chat r m t s, tt))
  | OpSetStatus m st => on_lobby (set_status m st)
  | OpMember m => λ w, (w, member m (lw_state w))
  | OpDeliver ts p => λ w, (mkLobbyWorld (lw_state w) (deliver ts p (lw_outbox w)) (lw_sessions w), tt)
  | OpBindActor sid a => λ w,
      match gw_bind gw sid a with
      | Ok _ => (mkLobbyWorld (lw_state w) (lw_outbox w) (<[sid := c_uint 8 a]> (lw_sessions w)), Ok tt)
      | Err e => (w, Err e)
      end
  | OpSessionActor sid => λ w, (w, info_actor_id (gw_info gw) (default 0 (lw_sessions w !! sid)))
  end.

(** ** Handler programs *)

Inductive prog (A : Type) : Type :=
  | PRet (x : A)
  | PRaise (e : exn)
  | POp {B : Set} (o : op B) (k : B → prog A).
Arguments PRet {_} _.
Arguments PRaise {_} _.
Arguments POp {_ _} _ _.

#[export] Instance prog_ret : MRet prog := @PRet.

Fixpoint prog_bind_go {A B} (k : A → prog B) (p : prog A) : prog B :=
  match p with
  | PRet x => k x
  | PRaise e => PRaise e
  | POp o f => POp o (λ x, prog_bind_go k (f x))
  end.

#[export] Instance prog_bind : MBind prog := @prog_bind_go.

Definition call {B : Set} (o : op B) : prog B := POp o PRet.

Definition of_result {A} (r : result A) : prog A := match r with Ok x => PRet x | Err e => PRaise e end.

(** [try: x = decode(...) except ValueError: return] followed by the rest of
    the handler. *)
Definition decoded {A} (r : result A) (k : A → prog unit) : prog unit :=
  match r with
  | Ok x => k x
  | Err e => if is_value_error e then PRet tt else PRaise e
  end.

Fixpoint prog_each {A} (l : list A) (f : A → prog unit) : prog unit :=
  match l with [] => PRet tt | x :: l => f x;; prog_each l f end.

Definition _session_member_id (session : Z) : prog Z := call (OpSessionActor session).

Definition _notify_room (room : pystr) (kind member_id : Z) (text : pystr) : prog unit :=
  m ← call (OpMember member_id);
  match m with
  | None => PRet tt
  | Some m =>
      payload ← of_result (encode_presence (mkPresence kind member_id (mb_display_name m) (mb_status m) text));
      targets ← call (OpRoomMembers room);
      call (OpDeliver targets payload)
  end.

Definition on_login (payload : bytes) (session : Z) : prog unit :=
  if zlen payload <? LOGIN_PAYLOAD_LEN then PRet tt else
  principal_id ← of_result (decode_login payload);
  r ← call (OpGetOrCreate principal_id);
  m ← of_result r;
  b ← call (OpBindActor session (mb_member_id m));
  of_result b.

Definition on_room_join (payload : bytes) (session : Z) : prog unit :=
  decoded (decode_room_join payload) (λ room,
    member_id ← _session_member_id session;
    if member_id =? 0 then PRet tt else
    changed ← call (OpJoin room member_id);
    if negb changed then PRet tt else _notify_room room KIND_JOIN member_id []).

Definition on_room_leave (payload : bytes) (session : Z) : prog unit :=
  decoded (decode_room_leave payload) (λ room,
    member_id ← _session_member_id session;
    if member_id =? 0 then PRet tt else
    changed ← call (OpLeave room member_id);
    if negb changed then PRet tt else _notify_room room KIND_LEAVE member_id []).

Definition on_chat_room (payload : bytes) (session : Z) : prog unit :=
  decoded (decode_chat_room payload) (λ '(room, text),
    member_id ← _session_member_id session;
    if member_id =? 0 then PRet tt else
    in_room ← call (OpRoomMembers room);
    if negb (bool_decide (member_id ∈ in_room)) then PRet tt else
    call (OpRecordChat room member_id text);;
    _notify_room room KIND_CHAT member_id text).

Definition on_presence_update (payload : bytes) (session : Z) : prog unit :=
  if zlen payload <? PRESENCE_UPDATE_PAYLOAD_LEN then PRet tt else
  '(member_id, status) ← of_result (decode_presence_update payload);
  changed ← call (OpSetStatus member_id status);
  if negb changed then PRet tt else
  rooms ← call OpRoomNames;
  prog_each rooms (λ room,
    in_room ← call (OpRoomMembers room);
    if bool_decide (member_id ∈ in_room) then _notify_room room KIND_STATUS member_id [] else PRet tt).

(** An inbound frame, and the handler [register] installs for its type. *)
Record frame := mkFrame { fr_type : Z; fr_payload : bytes; fr_session : Z }.

Definition handle (f : frame) : prog unit :=
  let ty := fr_type f in
  if ty =? LOGIN_TYPE then on_login (fr_payload f) (fr_session f)
  else if ty =? ROOM_JOIN_TYPE then on_room_join (fr_payload f) (fr_session f)
  else if ty =? ROOM_LEAVE_TYPE then on_room_leave (fr_payload f) (fr_session f)
  else if ty =? CHAT_ROOM_TYPE then on_chat_room (fr_payload f) (fr_session f)
  else if ty =? PRESENCE_UPDATE_TYPE then on_presence_update (fr_payload f) (fr_session f)
  else PRet tt.

(** ** Running *)

Section Running.
Context (gw : gateway).

(** One handler without interference. *)
Fixpoint run {A} (p : prog A) (w : lobby) : lobby * result A :=
  match p with
  | PRet x => (w, Ok x)
  | PRaise e => (w, Err e)
  | POp o k => let '(w, x) := exec_op gw o w in run (k x) w
  end.

(** A worker pool: frames arrive at any time, and at each moment one of the
    running handlers takes its next atomic step. *)
Record pool := mkPool { pl_world : lobby; pl_running : list (prog unit); pl_failed : list exn }.

Inductive pool_step : pool → pool → Prop :=
  | step_arrive f w ps es : pool_step (mkPool w ps es) (mkPool w (ps ++ [handle f]) es)
  | step_op (B : Set) (o : op B) k w w' x ps1 ps2 es :
      exec_op gw o w = (w', x) →
      pool_step (mkPool w (ps1 ++ POp o k :: ps2) es) (mkPool w' (ps1 ++ k x :: ps2) es)
  | step_done w ps1 ps2 es :
      pool_step (mkPool w (ps1 ++ PRet tt :: ps2) es) (mkPool w (ps1 ++ ps2) es)
  | step_fail e w ps1 ps2 es :
      pool_step (mkPool w (ps1 ++ PRaise e :: ps2) es) (mkPool w (ps1 ++ ps2) (e :: es)).

Definition pool_init : pool := mkPool lobby_init [] [].
End Running.
