(* ===== verification/LobbyRefine.v ===== *)
(** * The lobby against its specification

    The specification knows accounts, room membership, the chat log and the
    announcements made; the handlers of [examples/lobby/handlers.py]
    implement it message by message. *)

From S2P Require Import Prelude Outcome PyStruct PyText PyWire LobbyCodec Lobby LobbyTheorems.

#[local] Open Scope Z_scope.

#[local] Arguments default_name : simpl never.

(** ** The specification *)

(** Members carry a principal and a status and are numbered from 1 in the
    order of their first login; an announcement has its recipients. *)
Record alobby := mkAlobby {
  al_members : gmap Z (Z * Z);
  al_accounts : gmap Z Z;
  al_rooms : gset (pystr * Z);
  al_chat : list (pystr * Z * pystr);
  al_notes : list (gset Z * PresenceEvent);
  al_sessions : gmap Z Z;
}.

Definition alobby_init : alobby := mkAlobby ∅ ∅ ∅ [] [] ∅.

Definition occupants (room : pystr) (a : alobby) : gset Z :=
  set_map snd (filter (λ p, fst p = room) (al_rooms a)).

Definition rooms_with (m : Z) (a : alobby) : list pystr :=
  sorted_by id (elements (set_map (D := gset pystr) fst (filter (λ p, snd p = m) (al_rooms a)))).

Definition set_rooms (a : alobby) (rooms : gset (pystr * Z)) : alobby :=
  mkAlobby (al_members a) (al_accounts a) rooms (al_chat a) (al_notes a) (al_sessions a).

(** Everyone in the room hears of the member, with its current status. *)
Definition announce (room : pystr) (kind m : Z) (text : pystr) (a : alobby) : alobby :=
  match al_members a !! m with
  | None => a
  | Some (_, st) =>
      mkAlobby (al_members a) (al_accounts a) (al_rooms a) (al_chat a)
        (al_notes a ++ [(occupants room a, mkPresence kind m (default_name m) st text)]) (al_sessions a)
  end.

Definition bind_session (sid m : Z) (a : alobby) : alobby :=
  mkAlobby (al_members a) (al_accounts a) (al_rooms a) (al_chat a) (al_notes a) (<[sid := m]> (al_sessions a)).

Definition new_account (p : Z) (a : alobby) : alobby :=
  let m := 1 + Z.of_nat (size (al_members a)) in
  mkAlobby (<[m := (p, 0)]> (al_members a)) (<[p := m]> (al_accounts a)) (al_rooms a) (al_chat a) (al_notes a)
    (al_sessions a).

Definition speaker (sid : Z) (a : alobby) : option Z := al_sessions a !! sid.

Definition spec_message (gw : gateway) (sid : Z) (msg : message) (a : alobby) : alobby * result unit :=
  match msg with
  | MLogin p =>
      let a := if al_accounts a !! p is Some _ then a else new_account p a in
      let m := default 0 (al_accounts a !! p) in
      match gw_bind gw sid m with Ok _ => (bind_session sid m a, Ok tt) | Err e => (a, Err e) end
  | MRoomJoin room =>
      (match speaker sid a with
       | None => a
       | Some m =>
           if decide ((room, m) ∈ al_rooms a) then a
           else announce room KIND_JOIN m [] (set_rooms a ({[(room, m)]} ∪ al_rooms a))
       end, Ok tt)
  | MRoomLeave room =>
      (match speaker sid a with
       | None => a
       | Some m =>
           if decide ((room, m) ∈ al_rooms a)
           then announce room KIND_LEAVE m [] (set_rooms a (al_rooms a ∖ {[(room, m)]})) else a
       end, Ok tt)
  | MChatRoom room text =>
      (match speaker sid a with
       | None => a
       | Some m =>
           if decide ((room, m) ∈ al_rooms a)
           then announce room KIND_CHAT m text
                  (mkAlobby (al_members a) (al_accounts a) (al_rooms a) (al_chat a ++ [(room, m, text)]) (al_notes a)
                     (al_sessions a))
           else a
       end, Ok tt)
  | MPresenceUpdate m st =>
      (match al_members a !! m with
       | None => a
       | Some (p, st') =>
           if st' =? st then a else
           foldl (λ a room, announce room KIND_STATUS m [] a)
             (mkAlobby (<[m := (p, st)]> (al_members a)) (al_accounts a) (al_rooms a) (al_chat a) (al_notes a)
                (al_sessions a)) (rooms_with m a)
       end, Ok tt)
  | MPresence _ => (a, Ok tt)
  end.

(** A frame that does not decode, or is not a client's, changes nothing. *)
Definition spec_frame (gw : gateway) (f : frame) (a : alobby) : alobby * result unit :=
  match decode_message (fr_type f) (fr_payload f) with
  | Some (Ok msg) => spec_message gw (fr_session f) msg a
  | _ => (a, Ok tt)
  end.

(** ** The abstraction relation *)

Definition note_of (d : list Z * bytes) (n : gset Z * PresenceEvent) : Prop :=
  fst d = sorted_by id (elements (fst n)) ∧ decode_presence (snd d) = Ok (snd n).

Record represents (w : lobby) (a : alobby) : Prop := {
  rp_members : al_members a = (λ mem, (mb_principal_id mem, mb_status mem)) <$> lb_members (lw_state w);
  rp_accounts : al_accounts a = lb_by_principal (lw_state w);
  rp_next : lb_next_member_id (lw_state w) = 1 + Z.of_nat (size (lb_members (lw_state w)));
  rp_rooms r m : (r, m) ∈ al_rooms a ↔ m ∈ default ∅ (lb_rooms (lw_state w) !! r);
  rp_chat : al_chat a = lb_chat_log (lw_state w);
  rp_sessions : al_sessions a = lw_sessions w;
  rp_notes : Forall2 note_of (lw_outbox w) (al_notes a);
}.

Lemma represents_init : represents lobby_init alobby_init.
Proof. constructor; cbn; done. Qed.

Section Refine.
Context (gw : gateway) (Hinfo : gw_info gw = InfoRecord).

Lemma run_bind {A B} (p : prog A) (k : A → prog B) w :
  run gw (p ≫= k) w = match run gw p w with (w', Ok x) => run gw (k x) w' | (w', Err e) => (w', Err e) end.
Proof.
  revert w. induction p as [x|e|C o k' IH]; intros w; [done|done|]. cbn. destruct (exec_op gw o w). apply IH.
Qed.

Lemma occupants_represented w a r : represents w a → occupants r a = default ∅ (lb_rooms (lw_state w) !! r).
Proof.
  intros Hr. apply set_eq. intros m. rewrite <-(rp_rooms w a Hr). unfold occupants. rewrite elem_of_map. split.
  - intros ([r' m'] & -> & Hin). apply elem_of_filter in Hin as [<- Hin]. done.
  - intros Hin. exists (r, m). split; [done|]. by apply elem_of_filter.
Qed.

Lemma member_represented w a m : represents w a →
  al_members a !! m = (λ mem, (mb_principal_id mem, mb_status mem)) <$> lb_members (lw_state w) !! m.
Proof. intros Hr. by rewrite (rp_members w a Hr), lookup_fmap. Qed.

Lemma notify_represents w a room kind m text : lobby_inv w → represents w a → 0 ≤ kind < 256 → text_fits text →
  ∃ w', run gw (_notify_room room kind m text) w = (w', Ok tt) ∧
    lw_state w' = lw_state w ∧ lobby_inv w' ∧ represents w' (announce room kind m text a).
Proof.
  intros Hi Hr Hk Ht.
  pose proof (run_inv gw (_notify_room room kind m text) ∅ ends w Hi ltac:(set_solver)) as Hinv.
  specialize (Hinv (safe_notify gw room kind m text ∅ Hk Ht)). revert Hinv.
  unfold _notify_room, announce. rewrite (member_represented w a) by done. cbn. unfold member.
  destruct (lb_members (lw_state w) !! m) as [mem|] eqn:Em; cbn; [|by exists w].
  destruct (li_members w Hi m mem Em) as (_ & Hm & _ & -> & Hst). pose proof (li_next w Hi).
  destruct (encode_presence_ok kind m (mb_status mem) text) as (p & -> & Hp); [done|lia|done|done|].
  cbn. intros Hinv. eexists. split; [done|]. split; [done|]. split; [apply Hinv; lia|]. destruct Hr. constructor; cbn; try done.
  apply Forall2_app; [done|]. constructor; [|done]. split; [|done]. cbn. unfold room_members.
  by rewrite (occupants_represented w a).
Qed.

(** A handler's run agrees with a step of the specification. *)
Definition agrees (p : prog unit) (w : lobby) (s : alobby * result unit) : Prop :=
  ∃ w', run gw p w = (w', snd s) ∧ represents w' (fst s).

Lemma agrees_idle w a : represents w a → agrees (PRet tt) w (a, Ok tt).
Proof. intros Hr. by exists w. Qed.

Lemma agrees_notify w a room kind m text : lobby_inv w → represents w a → 0 ≤ kind < 256 → text_fits text →
  agrees (_notify_room room kind m text) w (announce room kind m text a, Ok tt).
Proof.
  intros Hi Hr Hk Ht. destruct (notify_represents w a room kind m text) as (w' & Hw & _ & _ & Hr'); [done..|].
  by exists w'.
Qed.

Lemma agrees_call {A : Set} (o : op A) (k : A → prog unit) w w' x s :
  exec_op gw o w = (w', x) → agrees (k x) w' s → agrees (call o ≫= k) w s.
Proof. intros He (w'' & Hw & Hr). exists w''. split; [|done]. rewrite run_bind. cbn. by rewrite He. Qed.

Lemma agrees_session w a sid (k : Z → prog unit) s : lobby_inv w → represents w a →
  (speaker sid a = None → s = (a, Ok tt)) →
  (∀ m, speaker sid a = Some m → m ∈ ids w → agrees (k m) w s) →
  agrees (m ← _session_member_id sid; if m =? 0 then PRet tt else k m) w s.
Proof.
  intros Hi Hr Hn Hs. unfold speaker in *. rewrite (rp_sessions w a Hr) in *. unfold agrees. rewrite run_bind. cbn. rewrite Hinfo.
  destruct (lw_sessions w !! sid) as [m|] eqn:E; cbn; [|rewrite Hn by done; by exists w].
  pose proof (li_sessions w Hi sid m E) as Hin. pose proof (member_u64 w m Hi Hin).
  replace (m =? 0) with false by lia. by apply Hs.
Qed.

Lemma rooms_represents w a rooms arooms : represents w a →
  (∀ r m, (r, m) ∈ arooms ↔ m ∈ default ∅ (rooms !! r)) →
  represents (mkLobbyWorld (with_rooms (lw_state w) rooms) (lw_outbox w) (lw_sessions w)) (set_rooms a arooms).
Proof. intros [] Hrooms. by constructor. Qed.

(** The room table after a join or a leave. *)
Lemma join_represents w a room m : represents w a → (room, m) ∉ al_rooms a →
  represents (mkLobbyWorld (with_rooms (lw_state w)
      (<[room := {[m]} ∪ default ∅ (lb_rooms (lw_state w) !! room)]> (lb_rooms (lw_state w)))) (lw_outbox w) (lw_sessions w))
    (set_rooms a ({[(room, m)]} ∪ al_rooms a)).
Proof.
  intros Hr Hn. apply rooms_represents; [done|]. intros r' m'.
  rewrite elem_of_union, elem_of_singleton, (rp_rooms w a Hr).
  destruct (decide (room = r')) as [<-|Hne]; [rewrite lookup_insert_eq|rewrite lookup_insert_ne by done]; set_solver.
Qed.

Lemma join_agrees payload sid room w a : decode_room_join payload = Ok room → lobby_inv w → represents w a →
  agrees (on_room_join payload sid) w (spec_message gw sid (MRoomJoin room) a).
Proof.
  intros Hd Hi Hr. unfold on_room_join. rewrite Hd. cbn [decoded spec_message].
  apply (agrees_session w a); [done..|by intros ->|]. intros m -> Hin.
  pose proof (join_inv w room m Hi Hin) as Hi'. pose proof (rp_rooms w a Hr room m) as Hrm.
  eapply agrees_call; [apply surjective_pairing|]. cbn [exec_op]. unfold on_lobby, join_room in *.
  repeat case_decide; try tauto; cbn [fst snd negb] in *.
  - apply agrees_idle. destruct (lb_rooms (lw_state w) !! room) eqn:E; cbn in *; [|set_solver].
    rewrite insert_id by done. by destruct w as [[]].
  - apply agrees_notify; [done|by apply join_represents|done|apply empty_text_fits].
Qed.

Lemma leave_represents w a room m rooms : represents w a →
  (∀ r' m', m' ∈ default ∅ (rooms !! r') ↔
    m' ∈ default ∅ (lb_rooms (lw_state w) !! r') ∧ (r', m') ≠ (room, m)) →
  represents (mkLobbyWorld (with_rooms (lw_state w) rooms) (lw_outbox w) (lw_sessions w))
    (set_rooms a (al_rooms a ∖ {[(room, m)]})).
Proof.
  intros Hr Hrooms. apply rooms_represents; [done|]. intros r' m'.
  rewrite elem_of_difference, not_elem_of_singleton, (rp_rooms w a Hr), Hrooms. tauto.
Qed.

Lemma leave_agrees payload sid room w a : decode_room_leave payload = Ok room → lobby_inv w → represents w a →
  agrees (on_room_leave payload sid) w (spec_message gw sid (MRoomLeave room) a).
Proof.
  intros Hd Hi Hr. unfold on_room_leave. rewrite Hd. cbn [decoded spec_message].
  apply (agrees_session w a); [done..|by intros ->|]. intros m -> Hin.
  pose proof (leave_inv w room m Hi) as Hi'. pose proof (rp_rooms w a Hr room m) as Hrm.
  eapply agrees_call; [apply surjective_pairing|]. cbn [exec_op]. unfold on_lobby, leave_room in *.
  destruct (lb_rooms (lw_state w) !! room) as [S|] eqn:E; cbn [default fst snd negb] in *.
  2: { rewrite decide_False by set_solver. apply agrees_idle. by destruct w. }
  case_decide as HS; cbn [fst snd negb] in *.
  2: { rewrite decide_False by tauto. apply agrees_idle. by destruct w. }
  rewrite (decide_True (P := (room, m) ∈ _)) by tauto.
  case_decide as Hempty; cbn [fst snd negb] in *;
    (apply agrees_notify; [done| |done|apply empty_text_fits]); apply leave_represents; try done; intros r' m';
    destruct (decide (room = r')) as [<-|Hne]; rewrite ?lookup_delete_eq, ?lookup_insert_eq, ?lookup_delete_ne,
      ?lookup_insert_ne by done; cbn; rewrite ?E; cbn; set_solver.
Qed.

Lemma chat_agrees payload sid room text w a : decode_chat_room payload = Ok (room, text) → lobby_inv w →
  represents w a → agrees (on_chat_room payload sid) w (spec_message gw sid (MChatRoom room text) a).
Proof.
  intros Hd Hi Hr. unfold on_chat_room. rewrite Hd. cbn [decoded spec_message].
  apply (agrees_session w a); [done..|by intros ->|]. intros m -> Hin.
  eapply agrees_call; [done|]. rewrite (bool_decide_ext _ ((room, m) ∈ al_rooms a));
    [|by rewrite room_members_elem, <-(rp_rooms w a Hr)].
  case_bool_decide as Hm; [rewrite decide_True by done|rewrite decide_False by done; by apply agrees_idle].
  cbn [negb]. eapply agrees_call; [done|]. apply agrees_notify; [| |done|by eapply decoded_text_fits].
  - destruct (exec_op_inv gw (OpRecordChat room m text) (ids w) w _ tt Hi ltac:(done) Hin eq_refl); [|done].
    cbn. by apply (li_next w Hi).
  - destruct Hr. constructor; cbn; try done. by rewrite rp_chat0.
Qed.

(** The rooms the status handler announces in are the rooms of the member. *)
Lemma rooms_with_represented w a m : represents w a →
  filter (λ r, m ∈ room_members r (lw_state w)) (room_names (lw_state w)) = rooms_with m a.
Proof.
  intros Hr. unfold room_names, rooms_with. rewrite sorted_by_filter_any. apply sorted_by_id_perm.
  apply NoDup_Permutation; [apply NoDup_filter, NoDup_elements|apply NoDup_elements|].
  intros r. rewrite list_elem_of_filter, !elem_of_elements, elem_of_dom, room_members_elem, elem_of_map.
  rewrite <-(rp_rooms w a Hr). split.
  - intros [Hin _]. exists (r, m). by rewrite elem_of_filter.
  - intros ([r' m'] & -> & [Heq Hin]%elem_of_filter). cbn in *. subst m'. split; [done|].
    apply (rp_rooms w a Hr) in Hin. destruct (_ !! r'); [by eexists|set_solver].
Qed.

Lemma announce_members room kind m text a : al_members (announce room kind m text a) = al_members a.
Proof. unfold announce. by destruct (al_members a !! m) as [[]|]. Qed.

Lemma status_loop_agrees m rooms w a : lobby_inv w → represents w a →
  agrees (prog_each rooms (λ room, in_room ← call (OpRoomMembers room);
      if bool_decide (m ∈ in_room) then _notify_room room KIND_STATUS m [] else PRet tt)) w
    (foldl (λ a room, announce room KIND_STATUS m [] a) a (filter (λ r, m ∈ room_members r (lw_state w)) rooms), Ok tt).
Proof.
  revert w a. induction rooms as [|r rooms IH]; intros w a Hi Hr; [by apply agrees_idle|]. cbn [prog_each].
  unfold agrees. rewrite run_bind, run_bind. cbn [call run exec_op]. rewrite filter_cons.
  case_bool_decide as Hin; [rewrite decide_True by done|rewrite decide_False by done; by apply IH].
  destruct (notify_represents w a r KIND_STATUS m []) as (w' & -> & Hs & Hi' & Hr'); [done..|apply empty_text_fits|].
  rewrite <-Hs. by apply IH.
Qed.

Lemma update_agrees payload sid m st w a : decode_presence_update payload = Ok (m, st) → lobby_inv w →
  represents w a → agrees (on_presence_update payload sid) w (spec_message gw sid (MPresenceUpdate m st) a).
Proof.
  intros Hd Hi Hr. unfold on_presence_update. destruct (_ <? _) eqn:Hl.
  { unfold decode_presence_update in Hd. by rewrite Hl in Hd. }
  destruct (decode_update_long payload Hl) as (m' & st' & Hd' & Hst). rewrite Hd in Hd'. injection Hd' as <- <-.
  rewrite Hd. cbn [of_result spec_message]. change (PRet (m, st) ≫= ?k) with (k (m, st)). cbn beta iota.
  pose proof (set_status_inv w m st Hi Hst) as Hi'. eapply agrees_call; [apply surjective_pairing|].
  rewrite (member_represented w a) by done. cbn [exec_op]. unfold on_lobby, set_status in *.
  destruct (lb_members (lw_state w) !! m) as [mem|] eqn:Em; cbn [fmap option_fmap option_map fst snd negb] in *.
  2: { apply agrees_idle. by destruct w. }
  destruct (mb_status mem =? st) eqn:Es; cbn [fst snd negb] in *; [apply agrees_idle; by destruct w|].
  eapply agrees_call; [done|]. set (w1 := mkLobbyWorld _ _ _) in *.
  assert (represents w1 (mkAlobby (<[m := (mb_principal_id mem, st)]> (al_members a)) (al_accounts a) (al_rooms a)
    (al_chat a) (al_notes a) (al_sessions a))) as Hr1.
  { destruct Hr. constructor; cbn; try done.
    - by rewrite fmap_insert, <-rp_members0.
    - by rewrite map_size_insert_Some by by eexists. }
  pose proof (rooms_with_represented w1 _ m Hr1) as Hrooms. cbn in Hrooms.
  change (rooms_with m _) with (rooms_with m a) in Hrooms. rewrite <-Hrooms. by apply status_loop_agrees.
Qed.

Lemma login_state_represents w a p : lobby_inv w → represents w a → lb_next_member_id (lw_state w) < 2 ^ 64 →
  ∃ m w', exec_op gw (OpGetOrCreate p) w = (w', Ok m) ∧ lobby_inv w' ∧ mb_member_id m ∈ ids w' ∧
    represents w' (if al_accounts a !! p is Some _ then a else new_account p a) ∧
    lb_by_principal (lw_state w') !! p = Some (mb_member_id m).
Proof.
  intros Hi Hr Hn. cbn [exec_op]. unfold on_lobby, get_or_create_member. rewrite (rp_accounts w a Hr).
  destruct (lb_by_principal (lw_state w) !! p) as [m|] eqn:E.
  - destruct (li_principals w Hi p m E) as (mem & Hm & Hp). destruct (li_members w Hi m mem Hm) as (Hid & _).
    rewrite Hm. exists mem, w. split; [by destruct w|]. split; [done|]. rewrite Hid. split; [|done].
    apply ids_elem. by eexists.
  - pose proof (create_inv w p Hi E) as Hinv. unfold on_lobby, get_or_create_member in Hinv. rewrite E in Hinv.
    destruct Hinv as [Hi' _]; [cbn; lia|]. eexists _, _. split; [done|]. split; [exact Hi'|].
    cbn [mb_member_id lw_state lb_by_principal]. rewrite lookup_insert_eq. split; [|split; [|done]].
    + unfold ids. cbn. rewrite dom_insert_L. set_solver.
    + pose proof (rp_next w a Hr) as Hnext. pose proof (fresh_id w Hi). destruct Hr.
      assert (lb_next_member_id (lw_state w) = 1 + Z.of_nat (size (al_members a))) as Hsz.
      { by rewrite rp_members0, map_size_fmap. }
      constructor; cbn; try done.
      * by rewrite fmap_insert, <-rp_members0, <-Hsz.
      * by rewrite rp_accounts0, <-Hsz.
      * rewrite map_size_insert_None by done. lia.
Qed.

Lemma login_agrees payload sid p w a : decode_login payload = Ok p → lobby_inv w → represents w a →
  lb_next_member_id (lw_state w) < 2 ^ 64 →
  agrees (on_login payload sid) w (spec_message gw sid (MLogin p) a).
Proof.
  intros Hd Hi Hr Hn. unfold on_login. destruct (_ <? _) eqn:Hl.
  { unfold decode_login in Hd. by rewrite Hl in Hd. }
  rewrite Hd. cbn [of_result spec_message]. change (PRet p ≫= ?k) with (k p). cbn beta.
  destruct (login_state_represents w a p Hi Hr Hn) as (m & w1 & He & Hi1 & Hin & Hr1 & Hp).
  eapply agrees_call; [exact He|]. cbn [of_result]. change (PRet m ≫= ?k) with (k m). cbn beta.
  set (a1 := if al_accounts a !! p is Some _ then a else new_account p a) in *.
  rewrite (rp_accounts w1 a1 Hr1), Hp. cbn [default from_option id].
  eapply agrees_call; [apply surjective_pairing|]. cbn [exec_op].
  destruct (gw_bind gw sid (mb_member_id m)) as [[]|e]; cbn [fst snd of_result]; [|by exists w1].
  eexists. split; [done|]. pose proof (member_u64 w1 _ Hi1 Hin) as Hm.
  destruct Hr1. constructor; cbn; try done. rewrite rp_sessions0. rewrite c_uint_id; [done|].
  apply in_u_spec. change (pow256 8) with (2 ^ 64). lia.
Qed.

(** The specification makes at most one account per frame. *)
Lemma announce_size room kind m text a : size (al_members (announce room kind m text a)) = size (al_members a).
Proof. by rewrite announce_members. Qed.

Lemma announce_all_size rooms kind m text a :
  size (al_members (foldl (λ a room, announce room kind m text a) a rooms)) = size (al_members a).
Proof. revert a. induction rooms as [|r rooms IH]; intros a; cbn [foldl]; [done|]. by rewrite IH, announce_size. Qed.

Lemma spec_frame_size f a : (size (al_members (fst (spec_frame gw f a))) ≤ S (size (al_members a)))%nat.
Proof.
  unfold spec_frame. destruct (decode_message _ _) as [[msg|e]|]; cbn [fst]; [|lia..].
  destruct msg as [p|r|r|r t|m st|e]; cbn [spec_message fst].
  - set (a1 := if al_accounts a !! p is Some _ then a else new_account p a).
    assert (size (al_members a1) ≤ S (size (al_members a)))%nat as Hs.
    { subst a1. destruct (al_accounts a !! p); [lia|]. cbn. rewrite map_size_insert. destruct (_ !! _); cbn; lia. }
    by destruct (gw_bind gw _ _).
  - destruct (speaker _ a); [|lia]. case_decide; [lia|]. rewrite announce_size. cbn. lia.
  - destruct (speaker _ a); [|lia]. case_decide; [|lia]. rewrite announce_size. cbn. lia.
  - destruct (speaker _ a); [|lia]. case_decide; [|lia]. rewrite announce_size. cbn. lia.
  - destruct (al_members a !! m) as [[p st']|] eqn:E; [|lia]. destruct (_ =? _); [lia|].
    rewrite announce_all_size. cbn. rewrite map_size_insert_Some by by eexists. lia.
  - lia.
Qed.

Lemma agrees_undecoded {A} (r : result A) e k w a : bounded is_value_error (λ _, True) r → r = Err e →
  represents w a → agrees (decoded r k) w (a, Ok tt).
Proof. intros Hb -> Hr. cbn in Hb. cbn [decoded]. rewrite Hb. by apply agrees_idle. Qed.

Lemma handle_agrees f w a : lobby_inv w → represents w a → lb_next_member_id (lw_state w) < 2 ^ 64 →
  agrees (handle f) w (spec_frame gw f a).
Proof.
  intros Hi Hr Hn. unfold handle, spec_frame, decode_message. destruct f as [ty payload sid]. cbn [fr_type fr_payload fr_session].
  destruct (ty =? LOGIN_TYPE); [|destruct (ty =? ROOM_JOIN_TYPE); [|destruct (ty =? ROOM_LEAVE_TYPE);
    [|destruct (ty =? CHAT_ROOM_TYPE); [|destruct (ty =? PRESENCE_UPDATE_TYPE)]]]].
  - destruct (decode_login payload) as [p|e] eqn:Ed; cbn [fmap result_fmap]; [by apply login_agrees|].
    unfold on_login. destruct (_ <? _) eqn:Hl; [by apply agrees_idle|].
    destruct (decode_login_long payload Hl) as [p Hp]. congruence.
  - destruct (decode_room_join payload) as [r|e] eqn:Ed; cbn [fmap result_fmap]; [by apply join_agrees|].
    eapply agrees_undecoded; [apply decode_room_bounded|done..].
  - destruct (decode_room_leave payload) as [r|e] eqn:Ed; cbn [fmap result_fmap]; [by apply leave_agrees|].
    eapply agrees_undecoded; [apply decode_room_bounded|done..].
  - destruct (decode_chat_room payload) as [[r t]|e] eqn:Ed; cbn [fmap result_fmap]; [by apply chat_agrees|].
    eapply agrees_undecoded; [apply decode_chat_bounded|done..].
  - destruct (decode_presence_update payload) as [[m st]|e] eqn:Ed; cbn [fmap result_fmap]; [by apply update_agrees|].
    unfold on_presence_update. destruct (_ <? _) eqn:Hl; [by apply agrees_idle|].
    destruct (decode_update_long payload Hl) as (m & st & Hp & _). congruence.
  - destruct (ty =? PRESENCE_TYPE); [|by apply agrees_idle].
    destruct (decode_presence payload); by apply agrees_idle.
Qed.

(** ** Runs *)

(** The frames handled one after the other, and their outcomes. *)
Fixpoint serve (fs : list frame) (w : lobby) : lobby * list (result unit) :=
  match fs with
  | [] => (w, [])
  | f :: fs => let '(w, r) := run gw (handle f) w in let '(w, rs) := serve fs w in (w, r :: rs)
  end.

Fixpoint spec_serve (fs : list frame) (a : alobby) : alobby * list (result unit) :=
  match fs with
  | [] => (a, [])
  | f :: fs => let '(a, r) := spec_frame gw f a in let '(a, rs) := spec_serve fs a in (a, r :: rs)
  end.

Lemma serve_agrees fs w a : lobby_inv w → represents w a →
  lb_next_member_id (lw_state w) + Z.of_nat (length fs) ≤ 2 ^ 64 →
  snd (serve fs w) = snd (spec_serve fs a) ∧ represents (fst (serve fs w)) (fst (spec_serve fs a)).
Proof.
  revert w a. induction fs as [|f fs IH]; intros w a Hi Hr Hn; [done|]. cbn [serve spec_serve length] in *.
  destruct (handle_agrees f w a Hi Hr ltac:(lia)) as (w' & Hw & Hr').
  pose proof (run_inv gw (handle f) ∅ ends w Hi ltac:(set_solver) (safe_handle gw f ∅)) as Hi'. rewrite Hw in Hi'.
  pose proof (spec_frame_size f a) as Hsz. rewrite Hw. destruct (spec_frame gw f a) as [a' r]. cbn [fst snd] in *.
  assert (lb_next_member_id (lw_state w') ≤ lb_next_member_id (lw_state w) + 1) as Hstep.
  { rewrite (rp_next w' a' Hr'), (rp_next w a Hr). rewrite (rp_members w' a' Hr'), (rp_members w a Hr) in Hsz.
    rewrite !map_size_fmap in Hsz. lia. }
  specialize (IH w' a' ltac:(apply Hi'; lia) Hr' ltac:(lia)).
  destruct (serve fs w') as [w2 rs], (spec_serve fs a') as [a2 rs']. cbn in *. by destruct IH as [-> ?].
Qed.
End Refine.

(** Whatever frames arrive, well-formed or not, handling them one after the
    other implements the lobby specification: the same outcomes (a refused
    bind is the only exception), the same members, accounts, rooms, chat log
    and bindings, and for every announcement of the specification one delivery
    to the sorted occupants of the room whose payload decodes to the announced
    event. (For sessions whose info is a record, as the handlers read it, and
    fewer than 2^64 frames; a presence update is for the member it names, as
    the code has it.) *)
Theorem lobby_refines gw fs :
  gw_info gw = InfoRecord → Z.of_nat (length fs) < 2 ^ 64 →
  snd (serve gw fs lobby_init) = snd (spec_serve gw fs alobby_init) ∧
  represents (fst (serve gw fs lobby_init)) (fst (spec_serve gw fs alobby_init)).
Proof. intros Hinfo Hl. apply serve_agrees; [done|apply init_lobby_inv|apply represents_init|]. cbn. lia. Qed.

(** ** Sessions that show their metadata through a method *)

Section Facade.
Context (gw : gateway) (Hinfo : gw_info gw = InfoMethod).

(** No room, no chat line, no announcement. *)
Definition silent (w : lobby) : Prop :=
  lb_rooms (lw_state w) = ∅ ∧ lb_chat_log (lw_state w) = [] ∧ lw_outbox w = [].

(** A program that, in silence, stays silent. *)
Fixpoint quiet {A} (p : prog A) : Prop :=
  match p with
  | PRet _ | PRaise _ => True
  | POp o k => ∀ w w' x, silent w → exec_op gw o w = (w', x) → silent w' ∧ quiet (k x)
  end.

Lemma quiet_bind {A B} (p : prog A) (k : A → prog B) : quiet p → (∀ x, quiet (k x)) → quiet (p ≫= k).
Proof.
  intros Hp Hk. induction p as [x|e|C o k' IH]; [apply Hk|done|]. intros w w' x Hw He.
  destruct (Hp w w' x Hw He) as [Hw' Hq]. split; [done|]. by apply IH.
Qed.

Lemma quiet_call {A : Set} (o : op A) (k : A → prog unit) :
  (∀ w w' x, silent w → exec_op gw o w = (w', x) → silent w' ∧ quiet (k x)) → quiet (call o ≫= k).
Proof. done. Qed.

Lemma quiet_session sid (k : Z → prog unit) : quiet (m ← _session_member_id sid; if m =? 0 then PRet tt else k m).
Proof. apply quiet_call. intros w w' x Hw. cbn. rewrite Hinfo. by intros [= <- <-]. Qed.

Lemma quiet_decoded {A} (r : result A) k : (∀ x, quiet (k x)) → quiet (decoded r k).
Proof. intros Hk. unfold decoded. destruct r as [x|e]; [apply Hk|by destruct (is_value_error e)]. Qed.

Lemma quiet_of_result {A} (r : result A) : quiet (of_result r).
Proof. by destruct r. Qed.

Lemma quiet_login payload sid : quiet (on_login payload sid).
Proof.
  unfold on_login. destruct (_ <? _); [done|]. apply quiet_bind; [apply quiet_of_result|]. intros p.
  apply quiet_call. intros w w' r Hw He. split.
  { cbn in He. unfold on_lobby, get_or_create_member in He. destruct (_ !! p); injection He as <- <-; [|done].
    by destruct w. }
  apply quiet_bind; [apply quiet_of_result|]. intros m. apply quiet_call. intros w1 w1' b Hw1. cbn.
  destruct (gw_bind gw sid (mb_member_id m)); intros [= <- <-]; (split; [done|apply quiet_of_result]).
Qed.

Lemma quiet_update payload sid : quiet (on_presence_update payload sid).
Proof.
  unfold on_presence_update. destruct (_ <? _); [done|]. apply quiet_bind; [apply quiet_of_result|]. intros [m st].
  apply quiet_call. intros w w' c Hw He. split.
  { cbn in He. unfold on_lobby, set_status in He. destruct (_ !! m); [destruct (_ =? _)|]; injection He as <- <-; by destruct w. }
  destruct c; [|done]. apply quiet_call. intros w1 w1' names Hw1 [= <- <-]. split; [done|].
  destruct Hw1 as (Hrooms & _). unfold room_names. by rewrite Hrooms, dom_empty_L, elements_empty.
Qed.

Lemma quiet_handle f : quiet (handle f).
Proof.
  unfold handle. repeat case_match; try done; auto using quiet_login, quiet_update.
  - apply quiet_decoded. intros room. apply quiet_session.
  - apply quiet_decoded. intros room. apply quiet_session.
  - apply quiet_decoded. intros [room text]. apply quiet_session.
Qed.

Lemma facade_silent q : rtc (pool_step gw) pool_init q → silent (pl_world q) ∧ Forall quiet (pl_running q).
Proof.
  revert q. apply (rtc_ind_r (λ q, silent (pl_world q) ∧ Forall quiet (pl_running q))); [by repeat split|].
  intros q q' _ Hs [Hw Hq]. destruct Hs as [f w ps es|B o k w w' x ps1 ps2 es He|w ps1 ps2 es|e w ps1 ps2 es]; cbn in *.
  - split; [done|]. apply Forall_app. split; [done|]. constructor; [apply quiet_handle|done].
  - apply Forall_app in Hq as [Hq1 Hq2]. inversion Hq2 as [|p ps Hp Hps]; subst.
    destruct (Hp w w' x Hw He) as [Hw' Hk]. split; [done|]. apply Forall_app. split; [done|]. by constructor.
  - split; [done|]. apply Forall_app in Hq as [Hq1 Hq2]. inversion Hq2; subst. by apply Forall_app.
  - split; [done|]. apply Forall_app in Hq as [Hq1 Hq2]. inversion Hq2; subst. by apply Forall_app.
Qed.
End Facade.

(** With sessions that show their metadata through a method, as the facade's
    Session does, no sequence of frames under any interleaving ever creates a
    room, records a chat line or delivers a notification. *)
Theorem lobby_facade_drops gw q :
  gw_info gw = InfoMethod → rtc (pool_step gw) pool_init q →
  lb_rooms (lw_state (pl_world q)) = ∅ ∧ lb_chat_log (lw_state (pl_world q)) = [] ∧ lw_outbox (pl_world q) = [].
Proof. intros Hinfo Hq. by destruct (facade_silent gw Hinfo q Hq). Qed.
