(* ===== verification/Threads.v ===== *)
(** * Threads with locks

    Programs over atomic operations that also take and release locks, as
    [with lock:] does, and pools of such programs.

    - Programs that take locks in increasing order never deadlock, and a
      pool that gets no new work finishes.
    - Data guarded by a lock: each lock has the part of the world it guards
      and an invariant on it; a program proved against the invariants alone,
      under any change others may make to what it does not guard, keeps them
      in every interleaving. *)

From S2P Require Import Prelude Outcome.

#[local] Open Scope Z_scope.

(** ** Programs *)

Section Programs.
Context {op : Set → Type}.

Inductive tprog (A : Type) : Type :=
  | TRet (x : A)
  | TRaise (e : exn)
  | TOp {B : Set} (o : op B) (k : B → tprog A)
  | TAcquire (l : Z) (k : tprog A)
  | TRelease (l : Z) (k : tprog A).
#[global] Arguments TRet {_} _.
#[global] Arguments TRaise {_} _.
#[global] Arguments TOp {_ _} _ _.
#[global] Arguments TAcquire {_} _ _.
#[global] Arguments TRelease {_} _ _.

#[global] Instance tprog_ret : MRet tprog := @TRet.

Fixpoint tprog_bind_go {A B} (k : A → tprog B) (p : tprog A) : tprog B :=
  match p with
  | TRet x => k x
  | TRaise e => TRaise e
  | TOp o f => TOp o (λ x, tprog_bind_go k (f x))
  | TAcquire l p => TAcquire l (tprog_bind_go k p)
  | TRelease l p => TRelease l (tprog_bind_go k p)
  end.

#[global] Instance tprog_bind : MBind tprog := @tprog_bind_go.

Definition tcall {B : Set} (o : op B) : tprog B := TOp o TRet.

Definition tresult {A} (r : result A) : tprog A := match r with Ok x => TRet x | Err e => TRaise e end.

(** [try: p except: handler], where the handler may decline by re-raising. *)
Fixpoint tcatch {A} (p : tprog A) (handler : exn → tprog A) : tprog A :=
  match p with
  | TRet x => TRet x
  | TRaise e => handler e
  | TOp o k => TOp o (λ x, tcatch (k x) handler)
  | TAcquire l p => TAcquire l (tcatch p handler)
  | TRelease l p => TRelease l (tcatch p handler)
  end.

(** The lock is released however the body ends. *)
Fixpoint tfinally {A} (p : tprog A) (l : Z) : tprog A :=
  match p with
  | TRet x => TRelease l (TRet x)
  | TRaise e => TRelease l (TRaise e)
  | TOp o k => TOp o (λ x, tfinally (k x) l)
  | TAcquire l' p => TAcquire l' (tfinally p l)
  | TRelease l' p => TRelease l' (tfinally p l)
  end.

(** [with lock: body] *)
Definition with_lock {A} (l : Z) (body : tprog A) : tprog A := TAcquire l (tfinally body l).

(** [for x in l: f(x)] *)
Fixpoint teach {A} (l : list A) (f : A → tprog unit) : tprog unit :=
  match l with [] => TRet tt | x :: l => f x ≫= λ _, teach l f end.
End Programs.
Arguments tprog : clear implicits.

(** ** Pools *)

Section Pools.
Context {op : Set → Type} {W : Type} (exec : ∀ B : Set, op B → W → W * B).

(** A program run alone. *)
Fixpoint trun {A} (p : tprog op A) (w : W) : W * result A :=
  match p with
  | TRet x => (w, Ok x)
  | TRaise e => (w, Err e)
  | TOp o k => let '(w, x) := exec _ o w in trun (k x) w
  | TAcquire _ p | TRelease _ p => trun p w
  end.

Lemma trun_bind {A B} (p : tprog op A) (k : A → tprog op B) w :
  trun (p ≫= k) w = let '(w, r) := trun p w in match r with Ok x => trun (k x) w | Err e => (w, Err e) end.
Proof.
  revert w. induction p as [x|e|C o f IH|l p IH|l p IH]; intros w; cbn; [done..| |apply IH|apply IH].
  destruct (exec C o w) as [w' x]. apply IH.
Qed.

Lemma trun_catch {A} (p : tprog op A) h w :
  trun (tcatch p h) w = let '(w, r) := trun p w in match r with Ok x => (w, Ok x) | Err e => trun (h e) w end.
Proof.
  revert w. induction p as [x|e|C o f IH|l p IH|l p IH]; intros w; cbn; [done..| |apply IH|apply IH].
  destruct (exec C o w) as [w' x]. apply IH.
Qed.

Lemma trun_with {A} l (p : tprog op A) w : trun (with_lock l p) w = trun p w.
Proof.
  unfold with_lock. cbn. revert w. induction p as [x|e|C o f IH|l' p IH|l' p IH]; intros w; cbn; [done..| |apply IH|apply IH].
  destruct (exec C o w) as [w' x]. apply IH.
Qed.

(** A running program and the locks it holds. *)
Record thread := mkThread { th_prog : tprog op unit; th_held : gset Z }.

Record tpool := mkTpool { tp_world : W; tp_threads : list thread; tp_failed : list exn }.

Definition lock_free (l : Z) (ts : list thread) : Prop := ∀ t, t ∈ ts → l ∉ th_held t.

(** One step of one of the running programs; a lock is taken when free. *)
Inductive work : tpool → tpool → Prop :=
  | work_op (B : Set) (o : op B) k H w w' x ts1 ts2 es :
      exec B o w = (w', x) →
      work (mkTpool w (ts1 ++ mkThread (TOp o k) H :: ts2) es) (mkTpool w' (ts1 ++ mkThread (k x) H :: ts2) es)
  | work_acquire l p H w ts1 ts2 es :
      lock_free l (ts1 ++ mkThread (TAcquire l p) H :: ts2) →
      work (mkTpool w (ts1 ++ mkThread (TAcquire l p) H :: ts2) es)
        (mkTpool w (ts1 ++ mkThread p ({[l]} ∪ H) :: ts2) es)
  | work_release l p H w ts1 ts2 es :
      work (mkTpool w (ts1 ++ mkThread (TRelease l p) H :: ts2) es)
        (mkTpool w (ts1 ++ mkThread p (H ∖ {[l]}) :: ts2) es)
  | work_done H w ts1 ts2 es :
      work (mkTpool w (ts1 ++ mkThread (TRet tt) H :: ts2) es) (mkTpool w (ts1 ++ ts2) es)
  | work_fail e H w ts1 ts2 es :
      work (mkTpool w (ts1 ++ mkThread (TRaise e) H :: ts2) es) (mkTpool w (ts1 ++ ts2) (e :: es)).

(** Work, and the arrival of jobs of a given kind. *)
Inductive serve_step (job : tprog op unit → Prop) : tpool → tpool → Prop :=
  | serve_work q q' : work q q' → serve_step job q q'
  | serve_arrive p w ts es : job p → serve_step job (mkTpool w ts es) (mkTpool w (ts ++ [mkThread p ∅]) es).
End Pools.

(** ** Lock order *)

Section Order.
Context {op : Set → Type} {W : Type} (exec : ∀ B : Set, op B → W → W * B).

(** With [H] held, the program takes only locks above those it holds,
    releases only what it holds, and ends holding [E]. *)
Fixpoint locks {A} (p : tprog op A) (H E : gset Z) : Prop :=
  match p with
  | TRet _ | TRaise _ => H = E
  | TOp o k => ∀ x, locks (k x) H E
  | TAcquire l p => (∀ l', l' ∈ H → l' < l) ∧ locks p ({[l]} ∪ H) E
  | TRelease l p => l ∈ H ∧ locks p (H ∖ {[l]}) E
  end.

Lemma locks_bind {A B} (p : tprog op A) (k : A → tprog op B) H E :
  locks p H E → (∀ x, locks (k x) E E) → locks (p ≫= k) H E.
Proof.
  intros Hp Hk. revert H Hp. induction p as [x|e|C o f IH|l p IH|l p IH]; intros H; cbn.
  - intros ->. apply Hk.
  - done.
  - intros Hf x. by apply IH.
  - intros [Hl Hp]. split; [done|]. by apply IH.
  - intros [Hl Hp]. split; [done|]. by apply IH.
Qed.

Lemma locks_catch {A} (p : tprog op A) h H E :
  locks p H E → (∀ e, locks (h e) E E) → locks (tcatch p h) H E.
Proof.
  intros Hp Hk. revert H Hp. induction p as [x|e|C o f IH|l p IH|l p IH]; intros H; cbn.
  - done.
  - intros ->. apply Hk.
  - intros Hf x. by apply IH.
  - intros [Hl Hp]. split; [done|]. by apply IH.
  - intros [Hl Hp]. split; [done|]. by apply IH.
Qed.

Lemma locks_finally {A} (p : tprog op A) l H E : l ∉ E → locks p H ({[l]} ∪ E) → locks (tfinally p l) H E.
Proof.
  intros Hl. revert H. assert (({[l]} ∪ E) ∖ {[l]} = E) as HE by set_solver.
  induction p as [x|e|C o f IH|l' p IH|l' p IH]; intros H; cbn.
  - intros ->. split; [set_solver|done].
  - intros ->. split; [set_solver|done].
  - intros Hf x. by apply IH.
  - intros [Hl' Hp]. split; [done|]. by apply IH.
  - intros [Hl' Hp]. split; [done|]. by apply IH.
Qed.

Lemma locks_with {A} l (body : tprog op A) H :
  (∀ l', l' ∈ H → l' < l) → locks body ({[l]} ∪ H) ({[l]} ∪ H) → locks (with_lock l body) H H.
Proof.
  intros Hl Hb. split; [done|]. apply locks_finally; [|done]. intros Hin. specialize (Hl l Hin). lia.
Qed.

Lemma locks_each {A} (xs : list A) f H : (∀ x, x ∈ xs → locks (f x) H H) → locks (teach (op := op) xs f) H H.
Proof.
  induction xs as [|x xs IH]; intros Hf; [done|]. cbn [teach]. apply locks_bind; [apply Hf; set_solver|].
  intros _. apply IH. set_solver.
Qed.

Lemma locks_call {A : Set} (o : op A) H : locks (tcall o) H H.
Proof. done. Qed.

Lemma locks_result {A} (r : result A) H : locks (tresult (op := op) r) H H.
Proof. by destruct r. Qed.

(** ** Progress *)

Definition pool_ordered (q : @tpool op W) : Prop := ∀ t, t ∈ tp_threads q → locks (th_prog t) (th_held t) ∅.

Lemma work_ordered q q' : work exec q q' → pool_ordered q → pool_ordered q'.
Proof.
  intros Hw Hq t. pose proof (λ p H, Hq (mkThread p H)) as Hq'.
  destruct Hw as [B o k H w w' x ts1 ts2 es He|l p H w ts1 ts2 es Hl|l p H w ts1 ts2 es|H w ts1 ts2 es|e H w ts1 ts2 es];
    cbn [tp_threads]; rewrite !elem_of_app, ?elem_of_cons; cbn in *;
    (intros Ht; destruct_or? Ht; subst; try (apply Hq; cbn; set_solver)).
  - apply (Hq' (TOp o k) H). set_solver.
  - apply (Hq' (TAcquire l p) H). set_solver.
  - apply (Hq' (TRelease l p) H). set_solver.
Qed.

Definition wanted (t : thread (op := op)) : option Z :=
  match th_prog t with TAcquire l _ => Some l | _ => None end.

Lemma unblocked t w ts1 ts2 es : (∀ l, wanted t = Some l → lock_free l (ts1 ++ t :: ts2)) →
  ∃ q', work exec (mkTpool w (ts1 ++ t :: ts2) es) q'.
Proof.
  destruct t as [[[]|e|B o k|l p|l p] H]; cbn; intros Hf.
  - eexists. apply work_done.
  - eexists. apply work_fail.
  - destruct (exec B o w) as [w' x] eqn:E. eexists. by apply work_op.
  - eexists. apply work_acquire. by apply Hf.
  - eexists. apply work_release.
Qed.

Lemma lock_held_by l (ts : list (thread (op := op))) : lock_free l ts ∨ ∃ t, t ∈ ts ∧ l ∈ th_held t.
Proof.
  induction ts as [|t ts [Hf|(t' & Ht' & Hl)]]; [left; intros t; set_solver| |right; exists t'; set_solver].
  destruct (decide (l ∈ th_held t)) as [Hl|Hl]; [right; exists t; set_solver|].
  left. intros t' [->|Ht']%elem_of_cons; [done|by apply Hf].
Qed.

(** Follow the chain of blocked threads; the lock wanted increases. *)
Lemma chain_ends q M n t l : pool_ordered q → t ∈ tp_threads q → wanted t = Some l →
  (∀ t' l', t' ∈ tp_threads q → wanted t' = Some l' → l' ≤ M) → M - l < Z.of_nat n → ∃ q', work exec q q'.
Proof.
  intros Hq. revert t l. induction n as [|n IH]; intros t l Ht Hl HM Hn.
  { specialize (HM t l Ht Hl). lia. }
  destruct q as [w ts es]. cbn in *. destruct (lock_held_by l ts) as [Hf|(t' & Ht' & Hheld)].
  { apply list_elem_of_split in Ht as (ts1 & ts2 & ->). apply (unblocked t). intros l' Hl'. by rewrite Hl in Hl'; injection Hl' as <-. }
  destruct (wanted t') as [l'|] eqn:Hw'.
  - assert (l < l') as Hlt.
    { specialize (Hq t' Ht'). unfold wanted in Hw'. destruct (th_prog t'); try done. injection Hw' as ->.
      destruct Hq as [Hlt _]. by apply Hlt. }
    apply (IH t' l'); [done..|]. lia.
  - apply list_elem_of_split in Ht' as (ts1 & ts2 & ->). apply (unblocked t'). congruence.
Qed.

Lemma wanted_bounded (ts : list (thread (op := op))) : ∃ M, ∀ t l, t ∈ ts → wanted t = Some l → l ≤ M.
Proof.
  induction ts as [|t ts [M IH]]; [exists 0; set_solver|].
  exists (M `max` default 0 (wanted t)). intros t' l [->|Ht']%elem_of_cons Hl.
  - rewrite Hl. cbn. lia.
  - specialize (IH t' l Ht' Hl). lia.
Qed.

(** A pool that takes its locks in order can always work on. *)
Lemma work_progress q : pool_ordered q → tp_threads q ≠ [] → ∃ q', work exec q q'.
Proof.
  intros Hq Hne. destruct q as [w [|t ts] es]; [done|]. destruct (wanted t) as [l|] eqn:Hl.
  - destruct (wanted_bounded (t :: ts)) as [M HM].
    apply (chain_ends _ M (S (Z.to_nat (M - l))) t l); [done|set_solver|done|done|lia].
  - apply (unblocked t w [] ts). congruence.
Qed.

(** ** Termination *)

(** One program of a list takes a step or ends. *)
Inductive advance : list (tprog op unit) → list (tprog op unit) → Prop :=
  | advance_op (B : Set) (o : op B) k x ps1 ps2 : advance (ps1 ++ TOp o k :: ps2) (ps1 ++ k x :: ps2)
  | advance_acquire l p ps1 ps2 : advance (ps1 ++ TAcquire l p :: ps2) (ps1 ++ p :: ps2)
  | advance_release l p ps1 ps2 : advance (ps1 ++ TRelease l p :: ps2) (ps1 ++ p :: ps2)
  | advance_end p ps1 ps2 : advance (ps1 ++ p :: ps2) (ps1 ++ ps2).

Lemma advance_cons p ps qs : advance (p :: ps) qs →
  qs = ps ∨ (∃ ps', qs = p :: ps' ∧ advance ps ps') ∨
  (∃ p', qs = p' :: ps ∧ match p with
    | TOp o k => ∃ x, p' = k x | TAcquire _ p0 | TRelease _ p0 => p' = p0 | _ => False end).
Proof.
  inversion 1 as [B o k x [|p1 ps1] ps2 E|l p0 [|p1 ps1] ps2 E|l p0 [|p1 ps1] ps2 E|p0 [|p1 ps1] ps2 E];
    simplify_eq/=; try (by left); right;
    first [right; eexists; split; [reflexivity|]; by eauto | left; eexists; split; [reflexivity|]; constructor].
Qed.

Lemma advance_sn ps : sn advance ps.
Proof.
  induction ps as [|p ps IHps].
  { constructor. intros ps' Ha. inversion Ha as [B o k x ps1|l p ps1|l p ps1|p ps1]; by destruct ps1. }
  revert p. induction IHps as [ps Hps IH]. intros p. pose proof (Acc_intro ps Hps : sn advance ps) as Hsn.
  induction p as [x|e|B o k IHk|l p IHp|l p IHp]; constructor; intros qs Hq; unfold flip in Hq;
    (apply advance_cons in Hq as [->|[(ps' & -> & Ha)|(p' & -> & Hp')]]; [exact Hsn|exact (IH ps' Ha _)|]).
  - destruct Hp'.
  - destruct Hp'.
  - destruct Hp' as [x ->]. apply IHk.
  - subst p'. exact IHp.
  - subst p'. exact IHp.
Qed.

Lemma work_advance q q' : work exec q q' → advance (th_prog <$> tp_threads q) (th_prog <$> tp_threads q').
Proof. destruct 1; cbn; rewrite !fmap_app; cbn; constructor. Qed.

(** Without new arrivals every schedule ends. *)
Lemma work_terminates q : sn (work exec) q.
Proof.
  remember (th_prog <$> tp_threads q) as ps eqn:E. revert q E. induction (advance_sn ps) as [ps _ IH].
  intros q ->. constructor. intros q' Hq. eapply IH; [|done]. by apply work_advance.
Qed.
End Order.

(** ** One program at a time *)

Section Alone.
Context {op : Set → Type} {W : Type} (exec : ∀ B : Set, op B → W → W * B).

(** What a program run alone leaves behind. *)
Definition after (p : tprog op unit) (q : W * list exn) : W * list exn :=
  match trun exec p q.1 with (w, Ok _) => (w, q.2) | (w, Err e) => (w, e :: q.2) end.

Lemma work_alone p H w es : locks p H ∅ →
  rtc (work exec) (mkTpool w [mkThread p H] es) (mkTpool (after p (w, es)).1 [] (after p (w, es)).2).
Proof.
  unfold after. cbn [fst snd].
  revert H w. induction p as [[]|e|B o k IH|l p IH|l p IH]; intros H w; cbn.
  - intros _. apply rtc_once. apply (work_done exec H w [] [] es).
  - intros _. apply rtc_once. apply (work_fail exec e H w [] [] es).
  - intros Hk. destruct (exec B o w) as [w' x] eqn:E. eapply rtc_l; [|by apply (IH x H w')].
    by apply (work_op exec B o k H w w' x [] [] es).
  - intros [Hl Hp]. eapply rtc_l; [|by apply IH]. apply (work_acquire exec l p H w [] [] es).
    intros t ->%list_elem_of_singleton Hin. specialize (Hl l Hin). lia.
  - intros [Hl Hp]. eapply rtc_l; [|by apply IH]. apply (work_release exec l p H w [] [] es).
Qed.

(** Jobs served one after another reach the state of running them in turn. *)
Lemma serve_alone (job : tprog op unit → Prop) ps w es : (∀ p, p ∈ ps → job p ∧ locks p ∅ ∅) →
  let q := foldl (λ q p, after p q) (w, es) ps in rtc (serve_step exec job) (mkTpool w [] es) (mkTpool q.1 [] q.2).
Proof.
  revert w es. induction ps as [|p ps IH]; intros w es Hps; cbn; [done|].
  destruct (Hps p) as [Hj Hl]; [set_solver|]. eapply rtc_l; [by apply serve_arrive|]. cbn.
  etrans; [eapply (rtc_subrel (work exec)); [by constructor|by apply work_alone]|].
  destruct (after p (w, es)) as [w' es'] eqn:E. cbn. apply IH. set_solver.
Qed.
End Alone.

(** ** Guarded data *)

Section Guarded.
Context {op : Set → Type} {W : Type} (exec : ∀ B : Set, op B → W → W * B).

(** [same l]: the part of the world the lock guards is unchanged;
    [evolves]: what no operation ever undoes; [inv l]: what holds of the
    guarded part whenever the lock is free; [ok]: a bound on the worlds
    considered, which holds of a world if it holds of a later one. *)
Class Guards := {
  same : Z → W → W → Prop;
  evolves : W → W → Prop;
  inv : Z → W → Prop;
  ok : W → Prop;
  same_refl l w : same l w w;
  same_trans l w1 w2 w3 : same l w1 w2 → same l w2 w3 → same l w1 w3;
  evolves_refl w : evolves w w;
  evolves_trans w1 w2 w3 : evolves w1 w2 → evolves w2 w3 → evolves w1 w3;
  exec_evolves (B : Set) (o : op B) w w' x : exec B o w = (w', x) → evolves w w';
  inv_same l w w' : inv l w → same l w w' → evolves w w' → inv l w';
  ok_evolves w w' : evolves w w' → ok w' → ok w;
}.
Context {GS : Guards}.

(** What others may do while this thread holds [H]. *)
Definition rely (H : gset Z) (w w' : W) : Prop := evolves w w' ∧ ∀ l, l ∈ H → same l w w'.

Lemma rely_refl H w : rely H w w.
Proof. split; [apply evolves_refl|intros; apply same_refl]. Qed.

Lemma rely_trans H w1 w2 w3 : rely H w1 w2 → rely H w2 w3 → rely H w1 w3.
Proof. intros [He1 Hs1] [He2 Hs2]. split; [by eapply evolves_trans|]. intros l Hl. eapply same_trans; eauto. Qed.

Lemma rely_sub H H' w w' : H ⊆ H' → rely H' w w' → rely H w w'.
Proof. intros HH [He Hs]. split; [done|]. intros l Hl. apply Hs. set_solver. Qed.

Fixpoint guarded {A} (p : tprog op A) (H : gset Z) (w : W) (Q : result A → gset Z → W → Prop) : Prop :=
  match p with
  | TRet x => Q (Ok x) H w
  | TRaise e => Q (Err e) H w
  | TOp o k => ∀ w1 w2 x, ok w2 → rely H w w1 → exec _ o w1 = (w2, x) →
      (∀ l, l ∉ H → same l w1 w2) ∧ guarded (k x) H w2 Q
  | TAcquire l p => ∀ w1, ok w1 → rely H w w1 → inv l w1 → guarded p ({[l]} ∪ H) w1 Q
  | TRelease l p => ∀ w1, ok w1 → rely H w w1 → inv l w1 ∧ guarded p (H ∖ {[l]}) w1 Q
  end.

Lemma guarded_post {A} (p : tprog op A) H w (Q Q' : result A → gset Z → W → Prop) :
  guarded p H w Q → (∀ r H w, Q r H w → Q' r H w) → guarded p H w Q'.
Proof.
  intros Hp HQ. revert H w Hp. induction p as [x|e|B o k IH|l p IH|l p IH]; intros H w; cbn; [auto..| | |].
  - intros Hk w1 w2 x Ho Hr He. destruct (Hk w1 w2 x Ho Hr He) as (? & ?). auto.
  - auto.
  - intros Hp w1 Ho Hr. destruct (Hp w1 Ho Hr). auto.
Qed.

Lemma guarded_bind {A B} (p : tprog op A) (k : A → tprog op B) H w Q :
  guarded p H w (λ r H' w', match r with Ok x => guarded (k x) H' w' Q | Err e => Q (Err e) H' w' end) →
  guarded (p ≫= k) H w Q.
Proof.
  revert H w. induction p as [x|e|C o f IH|l p IH|l p IH]; intros H w; cbn; [done..| | |].
  - intros Hk w1 w2 x Ho Hr He. destruct (Hk w1 w2 x Ho Hr He) as (? & ?). split; [done|]. by apply IH.
  - intros Hp w1 Ho Hr Hi. by apply IH, Hp.
  - intros Hp w1 Ho Hr. destruct (Hp w1 Ho Hr). split; [done|]. by apply IH.
Qed.

Lemma guarded_catch {A} (p : tprog op A) h H w Q :
  guarded p H w (λ r H' w', match r with Ok x => Q (Ok x) H' w' | Err e => guarded (h e) H' w' Q end) →
  guarded (tcatch p h) H w Q.
Proof.
  revert H w. induction p as [x|e|C o f IH|l p IH|l p IH]; intros H w; cbn; [done..| | |].
  - intros Hk w1 w2 x Ho Hr He. destruct (Hk w1 w2 x Ho Hr He) as (? & ?). split; [done|]. by apply IH.
  - intros Hp w1 Ho Hr Hi. by apply IH, Hp.
  - intros Hp w1 Ho Hr. destruct (Hp w1 Ho Hr). split; [done|]. by apply IH.
Qed.

Lemma guarded_finally {A} (p : tprog op A) l H w Q :
  guarded p H w (λ r H' w', ∀ w1, ok w1 → rely H' w' w1 → inv l w1 ∧ Q r (H' ∖ {[l]}) w1) →
  guarded (tfinally p l) H w Q.
Proof.
  revert H w. induction p as [x|e|C o f IH|l' p IH|l' p IH]; intros H w; cbn; [done..| | |].
  - intros Hk w1 w2 x Ho Hr He. destruct (Hk w1 w2 x Ho Hr He) as (? & ?). split; [done|]. by apply IH.
  - intros Hp w1 Ho Hr Hi. by apply IH, Hp.
  - intros Hp w1 Ho Hr. destruct (Hp w1 Ho Hr). split; [done|]. by apply IH.
Qed.

(** Enter with the invariant, leave with the invariant. *)
Lemma guarded_with {A} l (body : tprog op A) H w (Q : result A → gset Z → W → Prop) : l ∉ H →
  (∀ r w w', rely H w w' → Q r H w → Q r H w') →
  (∀ w1, ok w1 → rely H w w1 → inv l w1 → guarded body ({[l]} ∪ H) w1 (λ r H' w', H' = {[l]} ∪ H ∧ inv l w' ∧ Q r H w')) →
  guarded (with_lock l body) H w Q.
Proof.
  intros Hl HQ Hb w1 Ho Hr Hi. apply guarded_finally. eapply guarded_post; [by apply Hb|]. cbn.
  intros r H' w' (-> & Hi' & HQ') w2 Ho2 Hr'. replace (({[l]} ∪ H) ∖ {[l]}) with H by set_solver. split.
  - destruct Hr' as [He Hs]. eapply inv_same; [done| |done]. apply Hs. set_solver.
  - eapply HQ; [|done]. eapply rely_sub; [|done]. set_solver.
Qed.

Lemma guarded_rely {A} (p : tprog op A) H w w' (Q : result A → gset Z → W → Prop) :
  (∀ r H w w', rely H w w' → Q r H w → Q r H w') → rely H w w' → guarded p H w Q → guarded p H w' Q.
Proof.
  intros HQ Hr. destruct p as [x|e|C o f|l p|l p]; cbn; [by apply HQ..| | |].
  - intros Hk w1 w2 x Ho Hr1. apply Hk; [done|]. by eapply rely_trans.
  - intros Hp w1 Ho Hr1. apply Hp; [done|]. by eapply rely_trans.
  - intros Hp w1 Ho Hr1. apply Hp; [done|]. by eapply rely_trans.
Qed.

Lemma guarded_each {A} (xs : list A) f H w (Q : W → Prop) :
  Q w → (∀ w w', rely H w w' → Q w → Q w') →
  (∀ x w, x ∈ xs → Q w → guarded (f x) H w (λ r H' w', H' = H ∧ Q w')) →
  guarded (teach xs f) H w (λ r H' w', H' = H ∧ Q w').
Proof.
  intros Hw HQ. revert w Hw. induction xs as [|x xs IH]; intros w Hw Hf; [done|]. cbn [teach]. apply guarded_bind.
  eapply guarded_post; [apply Hf; [set_solver|done]|]. cbn. intros [[]|e] H' w' [-> Hw']; [|done].
  apply IH; [done|]. intros y w'' Hy. apply Hf. set_solver.
Qed.

(** ** Pools of guarded programs *)

Context (E : exn → Prop).

Definition ends_in (r : result unit) (H : gset Z) (w : W) : Prop := match r with Ok _ => True | Err e => E e end.

Fixpoint held_disjoint (ts : list (thread (op := op))) : Prop :=
  match ts with
  | [] => True
  | t :: ts => (∀ t', t' ∈ ts → th_held t ## th_held t') ∧ held_disjoint ts
  end.

Lemma held_disjoint_middle ts1 t ts2 : held_disjoint (ts1 ++ t :: ts2) ↔
  (∀ t', t' ∈ ts1 ++ ts2 → th_held t ## th_held t') ∧ held_disjoint (ts1 ++ ts2).
Proof.
  induction ts1 as [|t1 ts1 IH]; [done|]. cbn. rewrite IH. split.
  - intros (Ht1 & Ht & Hd). split; [|split; [|done]].
    + intros t' [->|Ht']%elem_of_cons; [|by apply Ht]. symmetry. apply Ht1. set_solver.
    + intros t' Ht'. apply Ht1. set_solver.
  - intros (Ht & Ht1 & Hd). split; [|split; [|done]].
    + intros t' [Ht'|[->|Ht']%elem_of_cons]%elem_of_app; [apply Ht1; set_solver| |apply Ht1; set_solver].
      symmetry. apply Ht. set_solver.
    + intros t' Ht'. apply Ht. set_solver.
Qed.

Record pool_guarded (q : @tpool op W) : Prop := {
  pg_ordered : pool_ordered q;
  pg_threads t : t ∈ tp_threads q → guarded (th_prog t) (th_held t) (tp_world q) ends_in;
  pg_free l : lock_free l (tp_threads q) → inv l (tp_world q);
  pg_disjoint : held_disjoint (tp_threads q);
  pg_failed e : e ∈ tp_failed q → E e;
}.

Lemma ends_in_stable r H w w' : rely H w w' → ends_in r H w → ends_in r H w'.
Proof. done. Qed.

(** A step of one thread seen by the others: what they hold is untouched. *)
Lemma others_rely ts1 t ts2 w w' t' : held_disjoint (ts1 ++ t :: ts2) → evolves w w' →
  (∀ l, l ∉ th_held t → same l w w') → t' ∈ ts1 ++ ts2 → rely (th_held t') w w'.
Proof.
  intros [Hd _]%held_disjoint_middle He Hs Ht'. split; [done|]. intros l Hl. apply Hs. specialize (Hd t' Ht'). set_solver.
Qed.

Lemma lock_free_middle l ts1 (t : thread (op := op)) ts2 :
  lock_free l (ts1 ++ t :: ts2) ↔ (l ∉ th_held t) ∧ lock_free l (ts1 ++ ts2).
Proof.
  unfold lock_free. split.
  - intros Hf. split; [apply Hf; set_solver|]. intros t' Ht'. apply Hf. set_solver.
  - intros [Ht Hf] t' [Ht'|[->|Ht']%elem_of_cons]%elem_of_app; [apply Hf; set_solver|done|apply Hf; set_solver].
Qed.

Lemma work_op_guarded {B : Set} (o : op B) k H w w' x ts1 ts2 es : ok w' → exec B o w = (w', x) →
  pool_guarded (mkTpool w (ts1 ++ mkThread (TOp o k) H :: ts2) es) →
  pool_guarded (mkTpool w' (ts1 ++ mkThread (k x) H :: ts2) es).
Proof.
  intros Hok He Hq. pose proof (exec_evolves _ _ _ _ _ He) as Hev.
  pose proof (work_ordered exec _ _ (work_op exec B o k H w w' x ts1 ts2 es He) (pg_ordered _ Hq)) as Ho.
  destruct Hq as [_ Ht Hf Hd Hfl]. cbn in *.
  destruct (Ht (mkThread (TOp o k) H)) with (w1 := w) (w2 := w') (x := x) as (Hsame & Hk);
    [set_solver|done|apply rely_refl|done|]. constructor; cbn; [done| | | |done].
  - intros t Hin. assert (t = mkThread (k x) H ∨ t ∈ ts1 ++ ts2) as [->|Hin'] by set_solver; [done|].
    eapply guarded_rely; [apply ends_in_stable|by eapply others_rely|]. apply Ht. set_solver.
  - intros l Hl. apply lock_free_middle in Hl as [Hl1 Hl2]. cbn in Hl1.
    eapply inv_same; [apply Hf, lock_free_middle; by split|by apply Hsame|done].
  - apply held_disjoint_middle. by apply held_disjoint_middle in Hd.
Qed.

Lemma work_acquire_guarded l p H w ts1 ts2 es : ok w → lock_free l (ts1 ++ mkThread (TAcquire l p) H :: ts2) →
  pool_guarded (mkTpool w (ts1 ++ mkThread (TAcquire l p) H :: ts2) es) →
  pool_guarded (mkTpool w (ts1 ++ mkThread p ({[l]} ∪ H) :: ts2) es).
Proof.
  intros Hok Hl Hq. pose proof (work_ordered exec _ _ (work_acquire exec l p H w ts1 ts2 es Hl) (pg_ordered _ Hq)) as Ho.
  destruct Hq as [_ Ht Hf Hd Hfl]. cbn in *. pose proof (Hf l Hl) as Hi.
  apply lock_free_middle in Hl as [Hl1 Hl2]. apply held_disjoint_middle in Hd as [Hd1 Hd2]. cbn in *.
  constructor; cbn; [done| | | |done].
  - intros t Hin. assert (t = mkThread p ({[l]} ∪ H) ∨ t ∈ ts1 ++ ts2) as [->|Hin'] by set_solver.
    + by apply (Ht (mkThread (TAcquire l p) H) ltac:(set_solver) w Hok (rely_refl _ _)).
    + apply Ht. set_solver.
  - intros l' [Hl1' Hl2']%lock_free_middle. cbn in *. apply Hf, lock_free_middle. set_solver.
  - apply held_disjoint_middle. split; [|done]. cbn. intros t' Ht'. specialize (Hd1 t' Ht'). specialize (Hl2 t' Ht'). set_solver.
Qed.

Lemma work_release_guarded l p H w ts1 ts2 es : ok w →
  pool_guarded (mkTpool w (ts1 ++ mkThread (TRelease l p) H :: ts2) es) →
  pool_guarded (mkTpool w (ts1 ++ mkThread p (H ∖ {[l]}) :: ts2) es).
Proof.
  intros Hok Hq. pose proof (work_ordered exec _ _ (work_release exec l p H w ts1 ts2 es) (pg_ordered _ Hq)) as Ho.
  destruct Hq as [_ Ht Hf Hd Hfl]. cbn in *. apply held_disjoint_middle in Hd as [Hd1 Hd2]. cbn in *.
  destruct (Ht (mkThread (TRelease l p) H) ltac:(set_solver) w Hok (rely_refl _ _)) as [Hi Hp].
  constructor; cbn; [done| | | |done].
  - intros t Hin. assert (t = mkThread p (H ∖ {[l]}) ∨ t ∈ ts1 ++ ts2) as [->|Hin'] by set_solver; [done|].
    apply Ht. set_solver.
  - intros l' [Hl1' Hl2']%lock_free_middle. cbn in *. destruct (decide (l' = l)) as [->|Hne]; [done|].
    apply Hf, lock_free_middle. set_solver.
  - apply held_disjoint_middle. split; [|done]. cbn. intros t' Ht'. specialize (Hd1 t' Ht'). set_solver.
Qed.

(** A thread that ends has released its locks. *)
Lemma work_end_guarded t w ts1 ts2 es es' : th_held t = ∅ → (∀ e, e ∈ es' → E e) →
  pool_guarded (mkTpool w (ts1 ++ t :: ts2) es) → pool_guarded (mkTpool w (ts1 ++ ts2) es').
Proof.
  intros Hh Hes [Ho Ht Hf Hd Hfl]. cbn in *. apply held_disjoint_middle in Hd as [Hd1 Hd2].
  constructor; cbn; [|intros t' Ht'; apply Ht; set_solver| |done|done].
  - intros t' Ht'. apply Ho. cbn in *. set_solver.
  - intros l Hl. apply Hf, lock_free_middle. rewrite Hh. split; [set_solver|done].
Qed.

Lemma work_guarded q q' : ok (tp_world q') → work exec q q' → pool_guarded q → pool_guarded q'.
Proof.
  intros Hok Hw Hq. pose proof (pg_ordered q Hq) as Ho. pose proof (pg_threads q Hq) as Ht.
  destruct Hw as [B o k H w w' x ts1 ts2 es He|l p H w ts1 ts2 es Hl|l p H w ts1 ts2 es|H w ts1 ts2 es|e H w ts1 ts2 es].
  - by eapply work_op_guarded.
  - by apply work_acquire_guarded.
  - by apply work_release_guarded.
  - apply (work_end_guarded (mkThread (TRet tt) H) w ts1 ts2 es es); [|apply Hq|done].
    apply (Ho (mkThread (TRet tt) H)). cbn. set_solver.
  - apply (work_end_guarded (mkThread (TRaise e) H) w ts1 ts2 es (e :: es)); [| |done].
    + apply (Ho (mkThread (TRaise e) H)). cbn. set_solver.
    + intros e' [->|He']%elem_of_cons; [|by apply Hq]. apply (Ht (mkThread (TRaise e) H)). cbn. set_solver.
Qed.

Lemma arrive_guarded p w ts es : locks p ∅ ∅ → guarded p ∅ w ends_in →
  pool_guarded (mkTpool w ts es) → pool_guarded (mkTpool w (ts ++ [mkThread p ∅]) es).
Proof.
  intros Hl Hp [Ho Ht Hf Hd Hfl]. constructor; cbn in *; [| | | |done].
  - intros t [Hin| ->%list_elem_of_singleton]%elem_of_app; [by apply Ho|done].
  - intros t [Hin| ->%list_elem_of_singleton]%elem_of_app; [by apply Ht|done].
  - intros l [_ Hl']%lock_free_middle. apply Hf. by rewrite app_nil_r in Hl'.
  - apply held_disjoint_middle. rewrite app_nil_r. split; [|done]. cbn. set_solver.
Qed.

Lemma serve_evolves job q q' : serve_step exec job q q' → evolves (tp_world q) (tp_world q').
Proof.
  intros [q1 q2 Hw|p w ts es _]; [|apply evolves_refl].
  destruct Hw as [B o k H w w' x ts1 ts2 es He| | | |]; try apply evolves_refl. by eapply exec_evolves.
Qed.

(** Every pool reached by serving well-behaved jobs is guarded. *)
Lemma serve_guarded job q q' : (∀ p w, job p → locks p ∅ ∅ ∧ guarded p ∅ w ends_in) →
  rtc (serve_step exec job) q q' → ok (tp_world q') → pool_guarded q → pool_guarded q'.
Proof.
  intros Hjob Hq Hok Hg. revert q' Hq Hok. apply (rtc_ind_r (λ q', ok (tp_world q') → pool_guarded q')); [done|].
  intros q1 q2 _ Hs IH Hok. pose proof (serve_evolves job q1 q2 Hs) as Hev.
  specialize (IH (ok_evolves _ _ Hev Hok)). destruct Hs as [q1 q2 Hw|p w ts es Hp]; [by eapply work_guarded|].
  destruct (Hjob p w Hp). by apply arrive_guarded.
Qed.
End Guarded.
