(* ===== verification/SpatialCodec.v ===== *)
(** * Payload codecs of the spatial examples

    The client-to-server payloads of [examples/spatial/handlers.py]; those of
    [python/kith/examples/visual/_protocol.py] are the same code with another
    bound on the chat text and one more message, the login reply. *)

From S2P Require Import Prelude Outcome PyStruct PyText PyWire LobbyCodec.

#[local] Open Scope Z_scope.

(** [kith.SimInput] *)
Record SimInput := mkSimInput {
  si_input_tick : Z;
  si_move_x : Z;
  si_move_y : Z;
  si_move_z : Z;
  si_flags : Z;
}.

Definition LOGIN_PAYLOAD_LEN : Z := 8.
Definition ACTOR_INPUT_PAYLOAD_LEN : Z := 19.
Definition _CHAT_HEADER_LEN : Z := 10.
Definition CHAT_MAX_TEXT : Z := 4096.

Definition encode_login (principal_id : Z) : result bytes := pack_le [FQ] (principal_id, tt).

Definition decode_login (payload : bytes) : result Z :=
  raise_if (zlen payload <? LOGIN_PAYLOAD_LEN)
    (ValueError [Lit "login payload too short: "; Num (zlen payload); Lit " < "; Num LOGIN_PAYLOAD_LEN]);;
  '(principal_id, _) ← unpack_le [FQ] (take (Z.to_nat LOGIN_PAYLOAD_LEN) payload);
  Ok principal_id.

(** ["<QIhhhB"] *)
Definition _ACTOR_INPUT_FMT : fmt := [FQ; FI; Fh; Fh; Fh; FB].

Definition encode_actor_input (actor_id : Z) (inp : SimInput) : result bytes :=
  pack_le _ACTOR_INPUT_FMT
    (actor_id, (si_input_tick inp, (si_move_x inp, (si_move_y inp, (si_move_z inp, (si_flags inp, tt)))))).

Definition decode_actor_input (payload : bytes) : result (Z * SimInput) :=
  raise_if (zlen payload <? ACTOR_INPUT_PAYLOAD_LEN)
    (ValueError [Lit "actor_input payload too short: "; Num (zlen payload); Lit " < "; Num ACTOR_INPUT_PAYLOAD_LEN]);;
  '(actor_id, (input_tick, (move_x, (move_y, (move_z, (flags, _)))))) ←
    unpack_le _ACTOR_INPUT_FMT (take (Z.to_nat ACTOR_INPUT_PAYLOAD_LEN) payload);
  Ok (actor_id, mkSimInput input_tick move_x move_y move_z flags).

(** The chat codec for a given bound on the text. *)
Definition encode_chat_upto (max_text actor_id : Z) (text : pystr) : result bytes :=
  text_bytes ← encode_utf8 text;
  raise_if (max_text <? zlen text_bytes)
    (ValueError [Lit "chat text too long: "; Num (zlen text_bytes); Lit " > "; Num max_text]);;
  head ← pack_le [FQ; FH] (actor_id, (zlen text_bytes, tt));
  Ok (head ++ text_bytes).

Definition decode_chat_upto (max_text : Z) (payload : bytes) : result (Z * pystr) :=
  raise_if (zlen payload <? _CHAT_HEADER_LEN)
    (ValueError [Lit "chat payload too short: "; Num (zlen payload); Lit " < "; Num _CHAT_HEADER_LEN]);;
  '(actor_id, (text_len, _)) ← unpack_le [FQ; FH] (take (Z.to_nat _CHAT_HEADER_LEN) payload);
  raise_if (max_text <? text_len)
    (ValueError [Lit "chat text length out of range: "; Num text_len; Lit " > "; Num max_text]);;
  let end_ := _CHAT_HEADER_LEN + text_len in
  raise_if (zlen payload <? end_)
    (ValueError [Lit "chat text truncated: need "; Num end_; Lit ", have "; Num (zlen payload)]);;
  text ← decode_utf8 (slice (Z.to_nat _CHAT_HEADER_LEN) (Z.to_nat end_) payload);
  Ok (actor_id, text).

Definition encode_chat : Z → pystr → result bytes := encode_chat_upto CHAT_MAX_TEXT.
Definition decode_chat : bytes → result (Z * pystr) := decode_chat_upto CHAT_MAX_TEXT.

(** The visual example's bound, and its login reply. *)
Module Visual.
Definition CHAT_MAX_TEXT : Z := 256.
Definition encode_login : Z → result bytes := encode_login.
Definition decode_login : bytes → result Z := decode_login.
Definition encode_actor_input : Z → SimInput → result bytes := encode_actor_input.
Definition decode_actor_input : bytes → result (Z * SimInput) := decode_actor_input.
Definition encode_chat : Z → pystr → result bytes := encode_chat_upto CHAT_MAX_TEXT.
Definition decode_chat : bytes → result (Z * pystr) := decode_chat_upto CHAT_MAX_TEXT.
Definition _LOGIN_REPLY_FMT : fmt := [FQ].
Definition encode_login_reply (actor_id : Z) : result bytes := pack_le _LOGIN_REPLY_FMT (actor_id, tt).
Definition decode_login_reply (payload : bytes) : result Z :=
  raise_if (zlen payload <? Z.of_nat (size_of _LOGIN_REPLY_FMT))
    (ValueError [Lit "login_reply payload too short: "; Num (zlen payload)]);;
  '(actor_id, _) ← unpack_le _LOGIN_REPLY_FMT (take (size_of _LOGIN_REPLY_FMT) payload);
  Ok actor_id.
End Visual.

(** ** Messages *)

(** The client-to-server messages, with the chat bound of the example. *)
Inductive smessage :=
  | SLogin (principal_id : Z)
  | SActorInput (actor_id : Z) (inp : SimInput)
  | SChat (actor_id : Z) (text : pystr)
  | SLoginReply (actor_id : Z).

Definition encode_smessage (max_text : Z) (m : smessage) : result bytes :=
  match m with
  | SLogin p => encode_login p
  | SActorInput a inp => encode_actor_input a inp
  | SChat a text => encode_chat_upto max_text a text
  | SLoginReply a => Visual.encode_login_reply a
  end.

(** The decoder of the message's kind. *)
Definition decode_like (max_text : Z) (m : smessage) (payload : bytes) : result smessage :=
  match m with
  | SLogin _ => SLogin <$> decode_login payload
  | SActorInput _ _ => (λ '(a, inp), SActorInput a inp) <$> decode_actor_input payload
  | SChat _ _ => (λ '(a, text), SChat a text) <$> decode_chat_upto max_text payload
  | SLoginReply _ => SLoginReply <$> Visual.decode_login_reply payload
  end.

Definition stext_ok (m : smessage) : bool :=
  match m with SChat _ text => forallb is_code_point text | _ => true end.

(** ** Fixed-layout payloads *)

(** A payload of at least [n] bytes decoded from its first [n]. *)
Section Fixed.
Context (F : fmt) (n : nat) (Hn : size_of F = n).

Lemma fixed_decodes vs bs rest : pack_le F vs = Ok bs → bytes_exact F vs = true →
  unpack_le F (take n (bs ++ rest)) = Ok vs ∧ Z.of_nat n ≤ zlen (bs ++ rest).
Proof.
  intros Hp He. pose proof (length_pack_le F vs bs Hp) as Hl. split.
  - rewrite take_app_length' by lia. by apply unpack_pack_le.
  - unfold zlen. rewrite length_app. lia.
Qed.

Lemma fixed_encodes vs payload : unpack_le F (take n payload) = Ok vs →
  ∃ bs rest, pack_le F vs = Ok bs ∧ payload = bs ++ rest.
Proof.
  intros Hu. apply unpack_le_fits in Hu as [_ Hp]. exists (take n payload), (drop n payload).
  by rewrite take_drop.
Qed.

Lemma fixed_total E payload : Z.of_nat n ≤ zlen payload → bounded E (λ vs, fits F vs = true) (unpack_le F (take n payload)).
Proof. intros Hl. apply bounded_unpack_le. rewrite length_take. unfold zlen in Hl. lia. Qed.
End Fixed.

(** ** Exactness *)

Lemma result_fmap_inj {A B} (f : A → B) (r : result A) a :
  (∀ x, f x = f a → x = a) → f <$> r = Ok (f a) ↔ r = Ok a.
Proof.
  intros Hf. destruct r as [x|e]; cbn; [|done]. split; intros Hx; injection Hx as Hx; [by rewrite (Hf x)|by rewrite Hx].
Qed.

Section Exact.
Context (max_text : Z) (Hmax : 0 ≤ max_text < 65536).

Lemma decode_login_exact p payload :
  decode_login payload = Ok p ↔ ∃ bs rest, encode_login p = Ok bs ∧ payload = bs ++ rest.
Proof.
  unfold decode_login, encode_login, LOGIN_PAYLOAD_LEN. split.
  - intros Hd. inv_result. destruct x0 as [p' []]. injection Hd as ->. by apply (fixed_encodes [FQ] 8).
  - intros (bs & rest & He & ->). destruct (fixed_decodes [FQ] 8 eq_refl (p, tt) bs rest He eq_refl) as [Hu Hl].
    rewrite not_long by done. cbn [mbind result_bind]. change (Z.to_nat 8) with 8%nat. by rewrite Hu.
Qed.

Lemma decode_login_reply_exact p payload :
  Visual.decode_login_reply payload = Ok p ↔ ∃ bs rest, Visual.encode_login_reply p = Ok bs ∧ payload = bs ++ rest.
Proof.
  unfold Visual.decode_login_reply, Visual.encode_login_reply, Visual._LOGIN_REPLY_FMT.
  change (size_of [FQ]) with 8%nat. split.
  - intros Hd. inv_result. destruct x0 as [p' []]. injection Hd as ->. by apply (fixed_encodes [FQ] 8).
  - intros (bs & rest & He & ->). destruct (fixed_decodes [FQ] 8 eq_refl (p, tt) bs rest He eq_refl) as [Hu Hl].
    rewrite not_long by done. cbn [mbind result_bind]. by rewrite Hu.
Qed.

Lemma decode_input_exact a inp payload :
  decode_actor_input payload = Ok (a, inp) ↔ ∃ bs rest, encode_actor_input a inp = Ok bs ∧ payload = bs ++ rest.
Proof.
  unfold decode_actor_input, encode_actor_input, ACTOR_INPUT_PAYLOAD_LEN. change (Z.to_nat 19) with 19%nat. split.
  - intros Hd. inv_result. destruct x0 as (a' & t & mx & my & mz & fl & []). inv_result.
    cbn [si_input_tick si_move_x si_move_y si_move_z si_flags]. by apply (fixed_encodes _ACTOR_INPUT_FMT 19).
  - intros (bs & rest & He & ->). destruct inp as [t mx my mz fl].
    destruct (fixed_decodes _ACTOR_INPUT_FMT 19 eq_refl _ bs rest He eq_refl) as [Hu Hl].
    rewrite not_long by done. cbn [mbind result_bind]. by rewrite Hu.
Qed.

Lemma decode_chat_exact a text payload : decode_chat_upto max_text payload = Ok (a, text) ↔
  ∃ bs rest, encode_chat_upto max_text a text = Ok bs ∧ payload = bs ++ rest ∧ forallb is_code_point text = true.
Proof.
  unfold decode_chat_upto, encode_chat_upto, _CHAT_HEADER_LEN. change (Z.to_nat 10) with 10%nat. split.
  - intros Hd. inv_result. destruct x0 as (a' & tl & []). inv_result. bool_hyps.
    match goal with Hx : unpack_le _ _ = Ok _ |- _ => apply (unpack_le_fits [FQ; FH] _ (a, (tl, tt))) in Hx as [Hf Hp] end.
    match goal with Hx : decode_utf8 _ = Ok _ |- _ => apply decode_utf8_encode in Hx as [He Hc] end.
    assert (0 ≤ tl < 65536) as Htl.
    { unfold fits in Hf. cbn -[in_u] in Hf. bool_hyps.
      match goal with Hs : in_u 2 tl = true |- _ => apply in_u_spec in Hs; change (pow256 2) with 65536 in Hs end. done. }
    exists (take 10 payload ++ slice 10 (Z.to_nat (10 + tl)) payload), (drop (Z.to_nat (10 + tl)) payload).
    rewrite He. cbn [mbind result_bind]. rewrite zlen_slice by lia.
    replace (Z.of_nat (Z.to_nat (10 + tl)) - Z.of_nat 10) with tl by lia. rewrite not_long by lia.
    cbn [mbind result_bind]. rewrite Hp. split; [done|]. split; [|done].
    by rewrite <-app_assoc, <-drop_slice, take_drop by lia.
  - intros (bs & rest & He & -> & Hc). inv_result. bool_hyps. rename x into txt.
    match goal with Hx : pack_le _ _ = Ok _ |- _ => rename Hx into Hp end.
    destruct (fixed_decodes [FQ; FH] 10 eq_refl _ _ (txt ++ rest) Hp eq_refl) as [Hu Hl].
    pose proof (length_pack_le _ _ _ Hp) as Hlen. change (size_of [FQ; FH]) with 10%nat in Hlen.
    pose proof (zlen_nonneg txt). pose proof (zlen_nonneg rest). rewrite <-app_assoc, Hu.
    rewrite not_long by done. cbn [mbind result_bind]. rewrite (not_long (b := max_text)) by lia.
    cbn [mbind result_bind]. rewrite not_long by (rewrite !zlen_app; unfold zlen in *; lia). cbn [mbind result_bind].
    rewrite (slice_app _ txt rest) by (unfold zlen; lia). by rewrite (encode_utf8_decode text).
Qed.

(** C40: For each of the four spatial messages, the decoder returns the
    message exactly on the payloads that begin with its encoding, for chat
    text of Unicode characters within a limit below 2^16 bytes: decoding
    inverts encoding, whatever decodes re-encodes to the bytes it was decoded
    from, and bytes after the message are ignored. *)
Theorem spatial_codec_exact m payload :
  decode_like max_text m payload = Ok m ↔
  stext_ok m = true ∧ ∃ bs rest, encode_smessage max_text m = Ok bs ∧ payload = bs ++ rest.
Proof.
  destruct m as [p|a inp|a text|a]; cbn [decode_like encode_smessage stext_ok].
  - rewrite (result_fmap_inj SLogin) by (by intros x [= ->]). rewrite decode_login_exact. tauto.
  - rewrite (result_fmap_inj (λ '(a, inp), SActorInput a inp) _ (a, inp)) by (by intros [] [= -> ->]).
    rewrite decode_input_exact. tauto.
  - rewrite (result_fmap_inj (λ '(a, text), SChat a text) _ (a, text)) by (by intros [] [= -> ->]).
    rewrite decode_chat_exact. naive_solver.
  - rewrite (result_fmap_inj SLoginReply) by (by intros x [= ->]). rewrite decode_login_reply_exact. tauto.
Qed.
End Exact.

(** ** Errors *)

Lemma decode_chat_upto_bounded max_text payload : bounded is_value_error (λ _, True) (decode_chat_upto max_text payload).
Proof.
  unfold decode_chat_upto, _CHAT_HEADER_LEN. decode_step.
  eapply bounded_bind; [by apply (fixed_total [FQ; FH] 10 eq_refl)|]. intros (a & tl & []) _.
  do 3 decode_step. done.
Qed.

Lemma decode_login_enough payload : (zlen payload <? LOGIN_PAYLOAD_LEN) = false → ∃ p, decode_login payload = Ok p.
Proof.
  intros Hl. cut (bounded (λ _, false) (λ _, True) (decode_login payload)).
  { intros (p & Hp & _)%bounded_returns. by exists p. }
  unfold decode_login. rewrite Hl. apply Z.ltb_ge in Hl. unfold LOGIN_PAYLOAD_LEN in *. cbn [raise_if mbind result_bind].
  eapply bounded_bind; [by apply (fixed_total [FQ] 8 eq_refl)|by intros [? ?] _].
Qed.

Lemma decode_input_long payload : (zlen payload <? ACTOR_INPUT_PAYLOAD_LEN) = false →
  ∃ a inp, decode_actor_input payload = Ok (a, inp).
Proof.
  intros Hl. cut (bounded (λ _, false) (λ _, True) (decode_actor_input payload)).
  { intros ([a inp] & Hp & _)%bounded_returns. by exists a, inp. }
  unfold decode_actor_input. rewrite Hl. apply Z.ltb_ge in Hl. unfold ACTOR_INPUT_PAYLOAD_LEN in *.
  cbn [raise_if mbind result_bind].
  eapply bounded_bind; [by apply (fixed_total _ACTOR_INPUT_FMT 19 eq_refl)|by intros (? & ? & ? & ? & ? & ? & ?) _].
Qed.
