(* ===== verification/Replication.v ===== *)
(** * Replication records ([examples/spatial/client.py])

    The records the gateway delivers, alone or in a batch: the reference
    decoder and the two iterators that read selected fields only. *)

From S2P Require Import Prelude Outcome PyStruct PyText PyWire LobbyCodec.

#[local] Open Scope Z_scope.

(** The types of [examples/spatial/messages.py]. *)
Definition _USER_BASE : Z := 1000.
Definition LOGIN_TYPE : Z := _USER_BASE + 0.
Definition LOGIN_REPLY_TYPE : Z := _USER_BASE + 1.
Definition ACTOR_INPUT_TYPE : Z := _USER_BASE + 2.
Definition CHAT_TYPE : Z := _USER_BASE + 3.
Definition ACTOR_STATE_TYPE : Z := _USER_BASE + 4.
Definition ACTOR_STATE_BATCH_TYPE : Z := _USER_BASE + 5.
Definition CHAT_EVENT_TYPE : Z := _USER_BASE + 6.

Definition ACTOR_STATE_PAYLOAD_SIZE : nat := 68.
Definition ACTOR_STATE_BATCH_HEADER_SIZE : nat := 4.
Definition _BATCH_RECORD_SIZE : nat := ACTOR_STATE_PAYLOAD_SIZE.

(** [">QqqqqqqIII"], [">HH"] *)
Definition _ACTOR_STATE_FMT : fmt := [FQ; Fq; Fq; Fq; Fq; Fq; Fq; FI; FI; FI].
Definition _BATCH_HEADER_FMT : fmt := [FH; FH].

Record ActorStateView := mkView {
  av_actor_id : Z;
  av_pos_x : Z;
  av_pos_y : Z;
  av_pos_z : Z;
  av_vel_x : Z;
  av_vel_y : Z;
  av_vel_z : Z;
  av_input_tick : Z;
  av_update_seq : Z;
  av_product_level : Z;
}.

Definition view_of (vs : svals _ACTOR_STATE_FMT) : ActorStateView :=
  let '(a, (px, (py, (pz, (vx, (vy, (vz, (t, (u, (l, _)))))))))) := vs in mkView a px py pz vx vy vz t u l.

Definition view_values (v : ActorStateView) : svals _ACTOR_STATE_FMT :=
  (av_actor_id v, (av_pos_x v, (av_pos_y v, (av_pos_z v, (av_vel_x v, (av_vel_y v, (av_vel_z v,
    (av_input_tick v, (av_update_seq v, (av_product_level v, tt)))))))))).

Definition _decode_actor_state_at (payload : bytes) (offset : nat) : result ActorStateView :=
  view_of <$> unpack_from _ACTOR_STATE_FMT payload offset.

Definition decode_actor_state (payload : bytes) : result ActorStateView :=
  raise_if (zlen payload <? Z.of_nat ACTOR_STATE_PAYLOAD_SIZE)
    (ValueError [Lit "actor_state payload too short: "; Num (zlen payload); Lit " < ";
                 Num (Z.of_nat ACTOR_STATE_PAYLOAD_SIZE)]);;
  _decode_actor_state_at payload 0.

Definition encode_actor_state (view : ActorStateView) : result bytes := pack _ACTOR_STATE_FMT (view_values view).

Definition MEMBERSHIP_EVENT_MARKER : Z := 0x80000000.

(** [bool(word & MEMBERSHIP_EVENT_MARKER)] *)
Definition marked (word : Z) : bool := negb (Z.land word MEMBERSHIP_EVENT_MARKER =? 0).

Definition is_membership_record (view : ActorStateView) : bool := marked (av_product_level view).

(** [for _i in range(count)]: a record that is too short ends the loop. *)
Fixpoint batch_views (payload : bytes) (count base : nat) : result (list ActorStateView) :=
  match count with
  | O => Ok []
  | S count =>
      let rec := slice base (base + _BATCH_RECORD_SIZE) payload in
      if (length rec <? ACTOR_STATE_PAYLOAD_SIZE)%nat then Ok [] else
      v ← decode_actor_state rec;
      vs ← batch_views payload count (base + _BATCH_RECORD_SIZE);
      Ok (v :: vs)
  end.

Definition decode_actor_state_batch (payload : bytes) : result (list ActorStateView) :=
  raise_if (zlen payload <? Z.of_nat ACTOR_STATE_BATCH_HEADER_SIZE)
    (ValueError [Lit "actor_state_batch payload too short: "; Num (zlen payload); Lit " < ";
                 Num (Z.of_nat ACTOR_STATE_BATCH_HEADER_SIZE)]);;
  '(count, (_, _)) ← unpack _BATCH_HEADER_FMT (take ACTOR_STATE_BATCH_HEADER_SIZE payload);
  batch_views payload (Z.to_nat count) ACTOR_STATE_BATCH_HEADER_SIZE.

Definition _STATE_ID_FIELD : fmt := [FQ].
Definition _STATE_MARKER_FIELD : fmt := [FI].

(** One step of the loop of [iter_actor_states_for]. *)
Definition state_for (payload : bytes) (actor_id : Z) (offset : nat) : result (list ActorStateView) :=
  '(id, _) ← unpack_from _STATE_ID_FIELD payload offset;
  if negb (id =? actor_id) then Ok [] else
  '(marker, _) ← unpack_from _STATE_MARKER_FIELD payload (offset + 64);
  if negb (marked marker) then v ← _decode_actor_state_at payload offset; Ok [v] else Ok [].

(** What a generator yields, in order. *)
Fixpoint yields {A} (f : nat → result (list A)) (offsets : list nat) : result (list A) :=
  match offsets with
  | [] => Ok []
  | o :: os => vs ← f o; ws ← yields f os; Ok (vs ++ ws)
  end.

(** [range(start, start + count * _BATCH_RECORD_SIZE, _BATCH_RECORD_SIZE)] *)
Definition record_offsets (start count : nat) : list nat :=
  (λ i, start + i * _BATCH_RECORD_SIZE)%nat <$> seq 0 count.

Definition iter_actor_states_for (type_id : Z) (payload : bytes) (actor_id : Z) : result (list ActorStateView) :=
  if type_id =? ACTOR_STATE_TYPE then
    let count := if (ACTOR_STATE_PAYLOAD_SIZE <=? length payload)%nat then 1%nat else 0%nat in
    yields (state_for payload actor_id) (record_offsets 0 count)
  else if type_id =? ACTOR_STATE_BATCH_TYPE then
    if (length payload <? ACTOR_STATE_BATCH_HEADER_SIZE)%nat then Ok [] else
    '(declared, (_, _)) ← unpack_from _BATCH_HEADER_FMT payload 0;
    let start := ACTOR_STATE_BATCH_HEADER_SIZE in
    let count := (Z.to_nat declared `min` ((length payload - start) / _BATCH_RECORD_SIZE))%nat in
    yields (state_for payload actor_id) (record_offsets start count)
  else Ok [].

(** [">Q56xI"]: the identity and the marker word of one record. *)
Definition _STATE_ID_RECORD : fmt := [FQ; Fs 56; FI].

(** [iter_unpack] over a buffer of whole records, [n] of them. *)
Fixpoint iter_id_records (n : nat) (records : bytes) : result (list (Z * Z)) :=
  match n with
  | O => Ok []
  | S n =>
      '(actor_id, (_, (marker, _))) ← unpack_from _STATE_ID_RECORD records 0;
      rest ← iter_id_records n (drop (size_of _STATE_ID_RECORD) records);
      Ok ((actor_id, marker) :: rest)
  end.

(** The ids of the records without the marker bit. *)
Definition state_ids (pairs : list (Z * Z)) : list Z := fst <$> filter (λ p, marked (snd p) = false) pairs.

Definition iter_actor_state_ids (type_id : Z) (payload : bytes) : result (list Z) :=
  if type_id =? ACTOR_STATE_TYPE then
    if (ACTOR_STATE_PAYLOAD_SIZE <=? length payload)%nat then
      '(marker, _) ← unpack_from _STATE_MARKER_FIELD payload 64;
      if negb (marked marker) then '(id, _) ← unpack_from _STATE_ID_FIELD payload 0; Ok [id] else Ok []
    else Ok []
  else if negb (type_id =? ACTOR_STATE_BATCH_TYPE) then Ok []
  else if (length payload <? ACTOR_STATE_BATCH_HEADER_SIZE)%nat then Ok [] else
  '(count, (_, _)) ← unpack_from _BATCH_HEADER_FMT payload 0;
  let count := (Z.to_nat count `min` ((length payload - ACTOR_STATE_BATCH_HEADER_SIZE) / _BATCH_RECORD_SIZE))%nat in
  let end_ := (ACTOR_STATE_BATCH_HEADER_SIZE + count * _BATCH_RECORD_SIZE)%nat in
  let records := slice ACTOR_STATE_BATCH_HEADER_SIZE end_ payload in
  state_ids <$> iter_id_records (length records / size_of _STATE_ID_RECORD) records.

(** [actor_state_for(actor_id)(event)] on the event's type and payload. *)
Definition actor_state_for (actor_id type_id : Z) (payload : bytes) : result bool :=
  let matched :=
    if type_id =? ACTOR_STATE_BATCH_TYPE then
      views ← decode_actor_state_batch payload;
      Ok (existsb (λ v, (av_actor_id v =? actor_id) && negb (is_membership_record v)) views)
    else v ← decode_actor_state payload; Ok (av_actor_id v =? actor_id) in
  match matched with
  | Ok b => Ok b
  | Err e => if is_value_error e then Ok false else Err e
  end.

(** The predicate of the visual example. *)
Definition visual_actor_state_for (actor_id type_id : Z) (payload : bytes) : result bool :=
  let matched :=
    if type_id =? 1205 then
      views ← decode_actor_state_batch payload;
      Ok (existsb (λ v, (av_actor_id v =? actor_id) && negb (is_membership_record v)) views)
    else if negb (type_id =? 1204) then Ok false
    else v ← decode_actor_state payload; Ok ((av_actor_id v =? actor_id) && negb (is_membership_record v)) in
  match matched with
  | Ok b => Ok b
  | Err e => if is_value_error e then Ok false else Err e
  end.

(** ** The iterators against the decoder *)

Lemma unpack_raw_cons f F bs :
  unpack_raw (f :: F) bs = (unpack_fld f (take (fld_size f) bs), unpack_raw F (drop (fld_size f) bs)).
Proof. done. Qed.

Lemma unpack_raw_take F bs : (size_of F ≤ length bs)%nat → unpack_raw F (take (size_of F) bs) = unpack_raw F bs.
Proof.
  intros Hl. rewrite <-(app_nil_r (take _ _)). apply unpack_raw_pack; [by apply fits_unpack_raw|by apply pack_unpack_raw].
Qed.

Definition view_at (payload : bytes) (offset : nat) : ActorStateView :=
  view_of (unpack_raw _ACTOR_STATE_FMT (drop offset payload)).

(** The records a payload carries, by the reference decoders. *)
Definition reference_views (type_id : Z) (payload : bytes) : list ActorStateView :=
  if type_id =? ACTOR_STATE_TYPE then match decode_actor_state payload with Ok v => [v] | Err _ => [] end
  else if type_id =? ACTOR_STATE_BATCH_TYPE then
    match decode_actor_state_batch payload with Ok vs => vs | Err _ => [] end
  else [].

Definition state_records (type_id : Z) (payload : bytes) : list ActorStateView :=
  filter (λ v, is_membership_record v = false) (reference_views type_id payload).

Lemma decode_at payload offset : (offset + 68 ≤ length payload)%nat →
  _decode_actor_state_at payload offset = Ok (view_at payload offset).
Proof.
  intros Hl. unfold _decode_actor_state_at, unpack_from. change (size_of _ACTOR_STATE_FMT) with 68%nat.
  by rewrite decide_True.
Qed.

Lemma view_id payload offset : (offset + 8 ≤ length payload)%nat →
  unpack_from _STATE_ID_FIELD payload offset = Ok (av_actor_id (view_at payload offset), tt).
Proof. intros Hl. unfold unpack_from. change (size_of _STATE_ID_FIELD) with 8%nat. by rewrite decide_True. Qed.

Lemma view_marker payload offset : (offset + 68 ≤ length payload)%nat →
  unpack_from _STATE_MARKER_FIELD payload (offset + 64) = Ok (av_product_level (view_at payload offset), tt).
Proof.
  intros Hl. unfold unpack_from. change (size_of _STATE_MARKER_FIELD) with 4%nat. rewrite decide_True by lia.
  unfold view_at, _ACTOR_STATE_FMT, _STATE_MARKER_FIELD. rewrite !unpack_raw_cons.
  cbn [view_of av_product_level fld_size]. by rewrite !drop_drop.
Qed.

Lemma decode_slice payload offset : (offset + 68 ≤ length payload)%nat →
  decode_actor_state (slice offset (offset + 68) payload) = Ok (view_at payload offset).
Proof.
  intros Hl. unfold decode_actor_state, ACTOR_STATE_PAYLOAD_SIZE.
  pose proof (length_slice offset (offset + 68) payload ltac:(lia) Hl) as Hs.
  rewrite not_long by (unfold zlen; lia). cbn [mbind result_bind]. rewrite decode_at by lia. f_equal.
  unfold view_at, slice. rewrite drop_0. f_equal. replace (offset + 68 - offset)%nat with (size_of _ACTOR_STATE_FMT) by (change (size_of _ACTOR_STATE_FMT) with 68%nat; lia).
  apply unpack_raw_take. rewrite length_drop. change (size_of _ACTOR_STATE_FMT) with 68%nat. lia.
Qed.

(** The number of whole records from [base] on, at most [count]. *)
Definition whole (payload : bytes) (count base : nat) : nat := (count `min` ((length payload - base) / 68))%nat.

Lemma record_offsets_S base n : record_offsets base (S n) = base :: record_offsets (base + 68) n.
Proof.
  unfold record_offsets, _BATCH_RECORD_SIZE, ACTOR_STATE_PAYLOAD_SIZE. cbn [seq]. rewrite fmap_cons. f_equal; [lia|].
  rewrite <-fmap_S_seq, <-list_fmap_compose. apply list_fmap_ext. intros i x _. cbn. lia.
Qed.

Lemma record_offsets_fit payload count base o : o ∈ record_offsets base (whole payload count base) →
  (o + 68 ≤ length payload)%nat.
Proof.
  unfold record_offsets, whole, _BATCH_RECORD_SIZE, ACTOR_STATE_PAYLOAD_SIZE. rewrite list_elem_of_fmap.
  intros (i & -> & Hi%elem_of_seq). pose proof (Nat.Div0.mul_div_le (length payload - base) 68). lia.
Qed.

Lemma whole_S payload count base : (base + 68 ≤ length payload)%nat →
  whole payload (S count) base = S (whole payload count (base + 68)).
Proof.
  intros Hl. unfold whole. replace (length payload - base)%nat with (1 * 68 + (length payload - (base + 68)))%nat by lia.
  rewrite Nat.div_add_l by lia. lia.
Qed.

Lemma batch_views_exact payload count base :
  batch_views payload count base = Ok (view_at payload <$> record_offsets base (whole payload count base)).
Proof.
  revert base. induction count as [|count IH]; intros base; [done|]. cbn [batch_views].
  unfold _BATCH_RECORD_SIZE, ACTOR_STATE_PAYLOAD_SIZE. destruct (Nat.ltb_spec (length (slice base (base + 68) payload)) 68) as [Hs|Hs].
  - assert (length payload - base < 68)%nat as Hl.
    { unfold slice in Hs. rewrite length_take, length_drop in Hs. lia. }
    unfold whole. rewrite Nat.div_small by done. by rewrite Nat.min_0_r.
  - assert (base + 68 ≤ length payload)%nat as Hl.
    { unfold slice in Hs. rewrite length_take, length_drop in Hs. lia. }
    rewrite decode_slice by done. cbn [mbind result_bind]. rewrite IH. cbn [mbind result_bind].
    by rewrite whole_S, record_offsets_S by done.
Qed.

Lemma yields_exact {A} (f : nat → result (list A)) (g : nat → list A) os :
  (∀ o, o ∈ os → f o = Ok (g o)) → yields f os = Ok (os ≫= g).
Proof.
  induction os as [|o os IH]; intros Hf; [done|]. cbn [yields]. rewrite Hf by set_solver. cbn [mbind result_bind].
  rewrite IH by set_solver. done.
Qed.

Lemma state_for_exact payload a o : (o + 68 ≤ length payload)%nat →
  state_for payload a o = Ok (filter (λ v, av_actor_id v = a) (filter (λ v, is_membership_record v = false) [view_at payload o])).
Proof.
  intros Hl. unfold state_for. rewrite view_id by lia. cbn [mbind result_bind]. rewrite !filter_cons, !filter_nil.
  unfold is_membership_record. destruct (Z.eqb_spec (av_actor_id (view_at payload o)) a) as [He|He]; cbn [negb].
  - rewrite view_marker by lia. cbn [mbind result_bind].
    destruct (marked (av_product_level (view_at payload o))) eqn:Em; cbn [negb].
    + by rewrite decide_False.
    + rewrite decode_at by lia. cbn [mbind result_bind]. rewrite decide_True by done.
      by rewrite filter_cons, decide_True by done.
  - case_decide; [|done]. by rewrite filter_cons, decide_False by done.
Qed.

Lemma filter_singletons {A B} (P Q : B → Prop) `{∀ x, Decision (P x), ∀ x, Decision (Q x)} (g : A → B) (l : list A) :
  (l ≫= λ x, filter P (filter Q [g x])) = filter P (filter Q (g <$> l)).
Proof.
  induction l as [|x l IH]; [done|]. rewrite fmap_cons, bind_cons, IH, !filter_cons.
  destruct (decide (Q (g x))); [|done]. rewrite !filter_cons. by destruct (decide (P (g x))).
Qed.

Definition id_mark (v : ActorStateView) : Z * Z := (av_actor_id v, av_product_level v).

Lemma id_record records : (68 ≤ length records)%nat → ∃ pad,
  unpack_from _STATE_ID_RECORD records 0 = Ok (av_actor_id (view_at records 0), (pad, (av_product_level (view_at records 0), tt))).
Proof.
  intros Hl. unfold unpack_from. change (size_of _STATE_ID_RECORD) with 68%nat. rewrite decide_True by lia.
  unfold view_at, _ACTOR_STATE_FMT, _STATE_ID_RECORD. rewrite !unpack_raw_cons.
  cbn [view_of av_product_level av_actor_id fld_size]. rewrite !drop_drop. by eexists.
Qed.

Lemma view_at_drop records a o : view_at (drop a records) o = view_at records (a + o).
Proof. unfold view_at. by rewrite drop_drop. Qed.

Lemma iter_id_records_exact n records base : (base + n * 68 ≤ length records)%nat →
  iter_id_records n (drop base records) = Ok (id_mark ∘ view_at records <$> record_offsets base n).
Proof.
  revert base. induction n as [|n IH]; intros base Hl; [done|]. cbn [iter_id_records].
  destruct (id_record (drop base records)) as [pad ->]; [rewrite length_drop; lia|]. cbn [mbind result_bind].
  change (size_of _STATE_ID_RECORD) with 68%nat. rewrite drop_drop, IH by lia. cbn [mbind result_bind].
  rewrite record_offsets_S, fmap_cons. unfold compose at 2, id_mark at 2. by rewrite view_at_drop, Nat.add_0_r.
Qed.

Lemma view_at_take payload n o : (o + 68 ≤ n)%nat → (n ≤ length payload)%nat →
  view_at (take n payload) o = view_at payload o.
Proof.
  intros Ho Hn. unfold view_at. f_equal. rewrite skipn_firstn_comm.
  rewrite <-(unpack_raw_take _ (take (n - o) _)), <-(unpack_raw_take _ (drop o payload));
    change (size_of _ACTOR_STATE_FMT) with 68%nat; rewrite ?length_take, ?length_drop; try lia.
  by rewrite take_take, Nat.min_l by lia.
Qed.

(** The ids of the first [n] records behind the header. *)
Lemma iter_ids_exact payload n : (4 + n * 68 ≤ length payload)%nat →
  iter_id_records n (slice 4 (4 + n * 68) payload) = Ok (id_mark ∘ view_at payload <$> record_offsets 4 n).
Proof.
  intros Hl. unfold slice. replace (4 + n * 68 - 4)%nat with (n * 68)%nat by lia.
  rewrite <-(drop_0 (take _ _)), iter_id_records_exact by (rewrite length_take, length_drop; lia). f_equal.
  unfold record_offsets, _BATCH_RECORD_SIZE, ACTOR_STATE_PAYLOAD_SIZE. rewrite <-!list_fmap_compose.
  apply list_fmap_ext. intros k i Hi. apply lookup_seq in Hi as [-> Hk]. unfold compose. f_equal.
  rewrite view_at_take, view_at_drop by (rewrite ?length_drop; lia). done.
Qed.

Lemma state_ids_exact (vs : list ActorStateView) :
  state_ids (id_mark <$> vs) = av_actor_id <$> filter (λ v, is_membership_record v = false) vs.
Proof.
  unfold state_ids. induction vs as [|v vs IH]; [done|]. rewrite fmap_cons, !filter_cons. unfold is_membership_record at 1.
  cbn [id_mark snd]. destruct (decide (marked _ = false)); [|done]. rewrite !fmap_cons. by f_equal.
Qed.

Lemma batch_header payload : (4 ≤ length payload)%nat → ∃ c r,
  unpack_from _BATCH_HEADER_FMT payload 0 = Ok (c, (r, tt)) ∧
  decode_actor_state_batch payload = Ok (view_at payload <$> record_offsets 4 (whole payload (Z.to_nat c) 4)).
Proof.
  intros Hl. unfold decode_actor_state_batch, unpack_from, unpack, ACTOR_STATE_BATCH_HEADER_SIZE.
  change (size_of _BATCH_HEADER_FMT) with 4%nat. rewrite not_long by (unfold zlen; lia). cbn [mbind result_bind].
  rewrite !decide_True by (rewrite ?length_take; lia). rewrite drop_0.
  pose proof (unpack_raw_take _BATCH_HEADER_FMT payload Hl) as Ht.
  change (size_of _BATCH_HEADER_FMT) with 4%nat in Ht. rewrite Ht.
  destruct (unpack_raw _BATCH_HEADER_FMT payload) as (c & r & []). exists c, r. split; [done|].
  cbn [mbind result_bind]. apply batch_views_exact.
Qed.

Lemma decode_single payload : decode_actor_state payload =
  if (68 <=? length payload)%nat then Ok (view_at payload 0)
  else Err (ValueError [Lit "actor_state payload too short: "; Num (zlen payload); Lit " < "; Num 68]).
Proof.
  unfold decode_actor_state, ACTOR_STATE_PAYLOAD_SIZE. destruct (Nat.leb_spec 68 (length payload)) as [Hl|Hl].
  - rewrite not_long by (unfold zlen; lia). cbn [mbind result_bind]. by rewrite decode_at.
  - by rewrite (proj2 (Z.ltb_lt _ _)) by (unfold zlen; lia).
Qed.

Lemma iterators_exact type_id payload actor_id :
  iter_actor_states_for type_id payload actor_id =
    Ok (filter (λ v, av_actor_id v = actor_id) (state_records type_id payload)) ∧
  iter_actor_state_ids type_id payload = Ok (av_actor_id <$> state_records type_id payload).
Proof.
  unfold iter_actor_states_for, iter_actor_state_ids, state_records, reference_views.
  destruct (type_id =? ACTOR_STATE_TYPE).
  { rewrite decode_single. unfold ACTOR_STATE_PAYLOAD_SIZE. destruct (Nat.leb_spec 68 (length payload)) as [Hl|Hl]; [|done].
    cbn [record_offsets yields]. change (record_offsets 0 1) with [0%nat]. cbn [yields]. rewrite state_for_exact by lia.
    pose proof (view_marker payload 0 ltac:(lia)) as Hm. change (0 + 64)%nat with 64%nat in Hm.
    rewrite Hm, (view_id payload 0) by lia. cbn [mbind result_bind]. rewrite app_nil_r. split; [done|].
    rewrite filter_cons. unfold is_membership_record. destruct (marked _) eqn:Em; cbn [negb].
    - by rewrite decide_False.
    - by rewrite decide_True. }
  destruct (type_id =? ACTOR_STATE_BATCH_TYPE); cbn [negb]; [|done]. unfold ACTOR_STATE_BATCH_HEADER_SIZE.
  destruct (Nat.ltb_spec (length payload) 4) as [Hl|Hl].
  { unfold decode_actor_state_batch, ACTOR_STATE_BATCH_HEADER_SIZE.
    by rewrite (proj2 (Z.ltb_lt _ _)) by (unfold zlen; lia). }
  destruct (batch_header payload Hl) as (c & r & -> & ->). cbn [mbind result_bind].
  unfold _BATCH_RECORD_SIZE, ACTOR_STATE_PAYLOAD_SIZE. fold (whole payload (Z.to_nat c) 4).
  pose proof (λ o, record_offsets_fit payload (Z.to_nat c) 4 o) as Hfit. split.
  - rewrite (yields_exact _ (λ o, filter (λ v, av_actor_id v = actor_id)
      (filter (λ v, is_membership_record v = false) [view_at payload o]))) by (intros o Ho; by apply state_for_exact, Hfit).
    f_equal. apply filter_singletons.
  - set (n := whole payload (Z.to_nat c) 4).
    assert (4 + n * 68 ≤ length payload)%nat as Hn.
    { unfold n, whole. pose proof (Nat.Div0.mul_div_le (length payload - 4) 68). nia. }
    rewrite length_slice by lia. change (size_of _STATE_ID_RECORD) with 68%nat.
    replace ((4 + n * 68 - 4) / 68)%nat with n by (replace (4 + n * 68 - 4)%nat with (n * 68)%nat by lia; by rewrite Nat.div_mul).
    rewrite iter_ids_exact by done. cbn [fmap result_fmap]. by rewrite list_fmap_compose, state_ids_exact.
Qed.

(** C35: On every payload, truncated or with a wrong count included, the two
    iterators that read selected fields never raise and yield what decoding
    the whole payload yields: all actor states of the given actor, and the ids
    of all actor states, membership records left out. *)
Theorem iterators_agree type_id payload actor_id :
  iter_actor_states_for type_id payload actor_id =
    Ok (filter (λ v, av_actor_id v = actor_id) (state_records type_id payload)) ∧
  iter_actor_state_ids type_id payload = Ok (av_actor_id <$> state_records type_id payload).
Proof. apply iterators_exact. Qed.

(** A single record survives the encoder. *)
Lemma actor_state_roundtrip v bs rest : encode_actor_state v = Ok bs → decode_actor_state (bs ++ rest) = Ok v.
Proof.
  intros He. pose proof (length_pack _ _ _ He) as Hl. change (size_of _ACTOR_STATE_FMT) with 68%nat in Hl.
  rewrite decode_single, length_app. replace (68 <=? length bs + length rest)%nat with true by (symmetry; apply Nat.leb_le; lia).
  f_equal. unfold view_at. rewrite drop_0, (unpack_raw_pack _ (view_values v)); [by destruct v| |done].
  by apply (pack_Ok_fits _ (view_values v) bs).
Qed.

(** Outside batches the predicate of [examples/spatial/client.py] looks
    neither at the type nor at the marker. *)
Lemma actor_state_for_single actor_id type_id payload : (type_id =? ACTOR_STATE_BATCH_TYPE) = false →
  (68 ≤ length payload)%nat →
  actor_state_for actor_id type_id payload = Ok (av_actor_id (view_at payload 0) =? actor_id).
Proof.
  intros Ht Hl. unfold actor_state_for. rewrite Ht, decode_single.
  by replace (68 <=? length payload)%nat with true by (symmetry; by apply Nat.leb_le).
Qed.
