(* ===== verification/Spatial.v ===== *)
(** * The spatial example server ([examples/spatial/handlers.py])

    Actors on a grid of cells, published to subscribers.  The handlers run
    on worker threads: per-actor data is guarded by 64 stripe locks, the
    lifecycle records by a control lock, the dirty cells and epochs by a
    bookkeeping lock.  This is the Python path of the handlers, the default;
    the [native] branches delegate to the C core and are not modelled. *)

From S2P Require Import Prelude Outcome PyStruct PyText PyWire Threads SpatialCodec.
From S2P Require ReplayFormat Replication.

#[local] Open Scope Z_scope.

(** ** Data *)

(** [kith.sim.Actor] *)
Record Actor := mkActor {
  a_id : Z;
  a_pos_x : Z;
  a_pos_y : Z;
  a_pos_z : Z;
  a_vel_x : Z;
  a_vel_y : Z;
  a_vel_z : Z;
  a_input_tick : Z;
  a_flags : Z;
  a_update_seq : Z;
}.

Abbreviation cell := (Z * Z * Z)%type.

(** [kith.fabric.CellKey]; [ArtifactKey] has the same locator, its other
    fields at their defaults. *)
Record CellKey := mkCellKey { ck_zone : Z; ck_x : Z; ck_y : Z; ck_z : Z; ck_lod : Z }.

#[global] Instance CellKey_eq_dec : EqDecision CellKey.
Proof. solve_decision. Defined.
#[global] Instance CellKey_countable : Countable CellKey.
Proof.
  refine (inj_countable' (λ k, (ck_zone k, ck_x k, ck_y k, ck_z k, ck_lod k))
    (λ '(z, x, y, c, l), mkCellKey z x y c l) _); by intros [].
Defined.

Definition CELL_SIZE_Q16 : Z := Z.shiftl 1 16.
Definition CELL_RADIUS : Z := 1.
Definition STRIPE_COUNT : Z := 64.

(** [_InputModel]: the movement model behind the handlers.  Each call is one
    step of the model's own state. *)
Class InputModel := {
  im_state : Type;
  im_apply_input : im_state → Actor → SimInput → im_state * result Actor;
  im_step : im_state → list Actor → Z → im_state * result (list Actor);
}.

(** The constructor arguments. *)
Record config := mkConfig {
  cf_zone_id : Z;
  cf_cell_size : Z;
  cf_cell_radius : Z;
  cf_recorder : bool;
}.

(** ** State *)

(** Per-actor tables, guarded by the actor's stripe; the sim's artifact
    store holds one artifact per actor. *)
Record tables := mkTables {
  t_actors : gmap Z Actor;
  t_actor_cells : gmap Z cell;
  t_artifacts : gmap Z (CellKey * Actor);
}.

(** Lifecycle records, guarded by the control lock. *)
Record control := mkControl {
  c_principals : list (Z * Z);
  c_next_actor_id : Z;
  c_session_actors : gmap Z Z;
  c_actor_binds : gmap Z (gset Z);
  c_bind_conflicts : Z;
}.

(** Bookkeeping, guarded by its own lock. *)
Record book := mkBook {
  b_dirty_cells : gset CellKey;
  b_cell_epochs : gmap CellKey Z;
  b_gate_drops : Z;
}.

(** The calls the handlers make of the server and of the sessions. *)
Inductive call :=
  | CPublishArtifact (key : CellKey) (actor : Actor)
  | CPublishCellProduct (key : CellKey) (authority_epoch : Z)
  | CBroadcastCell (key : CellKey) (msg_type : Z) (payload : bytes)
  | CInfo (session_id : Z)
  | CPopulate (session_id actor_id : Z) (cells : list CellKey)
  | CWindowAdd (session_id : Z) (key : CellKey)
  | CWindowRemove (session_id : Z) (key : CellKey).

(** What has been called, with its answer, and what has been recorded. *)
Record outside := mkOutside {
  o_calls : list (call * result Z);
  o_events : list ReplayFormat.Event;
}.

Section Model.
Context `{IM : InputModel}.

Record world := mkWorld {
  w_tables : tables;
  w_control : control;
  w_book : book;
  w_model : im_state;
  w_outside : outside;
}.

Definition world_init (m : im_state) : world :=
  mkWorld (mkTables ∅ ∅ ∅) (mkControl [] 1 ∅ ∅ 0) (mkBook ∅ ∅ 0) m (mkOutside [] []).

(** What the server and the sessions answer: anything, depending on all that
    happened before.  The answer of [info] is the bound actor's id. *)
Definition env := world → call → result Z.

(** ** Atomic operations *)

Inductive op : Set → Type :=
  | OpActorGet (actor_id : Z) : op (option Actor)
  | OpActorSet (actor_id : Z) (actor : Actor) : op unit
  | OpCellGet (actor_id : Z) : op (option cell)
  | OpCellSet (actor_id : Z) (c : cell) : op unit
  | OpActorValues : op (list Actor)
  | OpPrincipalGet (principal_id : Z) : op (option Z)
  | OpAllocId : op Z
  | OpPrincipalSet (principal_id actor_id : Z) : op unit
  | OpRecordBind (session_id actor_id : Z) : op unit
  | OpSessionGone (session_id : Z) : op unit
  | OpPrincipals : op (list (Z * Z) * Z)
  | OpDirtyAdd (key : CellKey) : op unit
  | OpDirtyDrain : op (list CellKey)
  | OpEpochBump (key : CellKey) : op Z
  | OpGateDrop : op unit
  | OpGateDrops : op Z
  | OpModelApply (actor : Actor) (inp : SimInput) : op (result Actor)
  | OpModelStep (actors : list Actor) (dt_ms : Z) : op (result (list Actor))
  | OpCall (c : call) : op (result Z)
  | OpRecord (event : ReplayFormat.Event) : op unit.

Definition on_tables {A} (f : tables → tables * A) (w : world) : world * A :=
  let '(t, x) := f (w_tables w) in (mkWorld t (w_control w) (w_book w) (w_model w) (w_outside w), x).
Definition on_control {A} (f : control → control * A) (w : world) : world * A :=
  let '(c, x) := f (w_control w) in (mkWorld (w_tables w) c (w_book w) (w_model w) (w_outside w), x).
Definition on_book {A} (f : book → book * A) (w : world) : world * A :=
  let '(b, x) := f (w_book w) in (mkWorld (w_tables w) (w_control w) b (w_model w) (w_outside w), x).
Definition on_model {A} (f : im_state → im_state * A) (w : world) : world * A :=
  let '(m, x) := f (w_model w) in (mkWorld (w_tables w) (w_control w) (w_book w) m (w_outside w), x).

Definition on_outside {A} (f : outside → outside * A) (w : world) : world * A :=
  let '(o, x) := f (w_outside w) in (mkWorld (w_tables w) (w_control w) (w_book w) (w_model w) o, x).

(** The store keeps one artifact per actor: a publish replaces it. *)
Definition publish_effect (c : call) (r : result Z) (t : tables) : tables :=
  match c, r with
  | CPublishArtifact key actor, Ok _ => mkTables (t_actors t) (t_actor_cells t) (<[a_id actor := (key, actor)]> (t_artifacts t))
  | _, _ => t
  end.

(** [dict.get] on the principal map, kept in insertion order. *)
Definition principal_get (principal_id : Z) (ps : list (Z * Z)) : option Z :=
  snd <$> head (filter (λ p, fst p = principal_id) ps).

(** Discard the session from the actor's set, and the set when empty. *)
Definition unbind (session_id actor_id : Z) (binds : gmap Z (gset Z)) : gmap Z (gset Z) :=
  match binds !! actor_id with
  | None => binds
  | Some held =>
      if decide (held ∖ {[session_id]} = ∅) then delete actor_id binds
      else <[actor_id := held ∖ {[session_id]}]> binds
  end.

(** The body of [_record_bind] under the control lock. *)
Definition record_bind (session_id actor_id : Z) (c : control) : control :=
  let previous := c_session_actors c !! session_id in
  if decide (previous = Some actor_id) then c else
  let holders := default ∅ (c_actor_binds c !! actor_id) ∖ {[session_id]} in
  let conflicts := if decide (holders = ∅) then c_bind_conflicts c else c_bind_conflicts c + 1 in
  let binds := match previous with None => c_actor_binds c | Some p => unbind session_id p (c_actor_binds c) end in
  mkControl (c_principals c) (c_next_actor_id c) (<[session_id := actor_id]> (c_session_actors c))
    (<[actor_id := {[session_id]} ∪ default ∅ (binds !! actor_id)]> binds) conflicts.

(** The body of [on_session_destroyed] under the control lock. *)
Definition session_gone (session_id : Z) (c : control) : control :=
  match c_session_actors c !! session_id with
  | None => c
  | Some actor_id =>
      mkControl (c_principals c) (c_next_actor_id c) (delete session_id (c_session_actors c))
        (unbind session_id actor_id (c_actor_binds c)) (c_bind_conflicts c)
  end.

Definition exec (ev : env) (B : Set) (o : op B) (w : world) : world * B :=
  match o with
  | OpActorGet a => (w, t_actors (w_tables w) !! a)
  | OpActorSet a x => on_tables (λ t, (mkTables (<[a := x]> (t_actors t)) (t_actor_cells t) (t_artifacts t), tt)) w
  | OpCellGet a => (w, t_actor_cells (w_tables w) !! a)
  | OpCellSet a c => on_tables (λ t, (mkTables (t_actors t) (<[a := c]> (t_actor_cells t)) (t_artifacts t), tt)) w
  | OpActorValues => (w, snd <$> map_to_list (t_actors (w_tables w)))
  | OpPrincipalGet p => (w, principal_get p (c_principals (w_control w)))
  | OpAllocId => on_control (λ c, (mkControl (c_principals c) (c_next_actor_id c + 1) (c_session_actors c)
      (c_actor_binds c) (c_bind_conflicts c), c_next_actor_id c)) w
  | OpPrincipalSet p a => on_control (λ c, (mkControl (c_principals c ++ [(p, a)]) (c_next_actor_id c)
      (c_session_actors c) (c_actor_binds c) (c_bind_conflicts c), tt)) w
  | OpRecordBind s a => on_control (λ c, (record_bind s a c, tt)) w
  | OpSessionGone s => on_control (λ c, (session_gone s c, tt)) w
  | OpPrincipals => (w, (c_principals (w_control w), c_bind_conflicts (w_control w)))
  | OpDirtyAdd k => on_book (λ b, (mkBook ({[k]} ∪ b_dirty_cells b) (b_cell_epochs b) (b_gate_drops b), tt)) w
  | OpDirtyDrain => on_book (λ b, (mkBook ∅ (b_cell_epochs b) (b_gate_drops b), elements (b_dirty_cells b))) w
  | OpEpochBump k => on_book (λ b, let e := default 0 (b_cell_epochs b !! k) + 1 in
      (mkBook (b_dirty_cells b) (<[k := e]> (b_cell_epochs b)) (b_gate_drops b), e)) w
  | OpGateDrop => on_book (λ b, (mkBook (b_dirty_cells b) (b_cell_epochs b) (b_gate_drops b + 1), tt)) w
  | OpGateDrops => (w, b_gate_drops (w_book w))
  | OpModelApply x i => on_model (λ m, im_apply_input m x i) w
  | OpModelStep xs dt => on_model (λ m, im_step m xs dt) w
  | OpCall c => let r := ev w c in
      let '(w, _) := on_tables (λ t, (publish_effect c r t, tt)) w in
      on_outside (λ o, (mkOutside (o_calls o ++ [(c, r)]) (o_events o), r)) w
  | OpRecord e => on_outside (λ o, (mkOutside (o_calls o) (o_events o ++ [e]), tt)) w
  end.

Abbreviation prog := (tprog op).

(** A call whose error is raised. *)
Definition invoke {A : Set} (o : op (result A)) : prog A := r ← tcall o; tresult r.

(** ** Locks *)

Definition _control_lock : Z := 0.
Definition _stripe_of (actor_id : Z) : Z := 1 + actor_id mod STRIPE_COUNT.
Definition _book_lock : Z := 1 + STRIPE_COUNT.

(** ** Handlers *)

Section Handlers.
Context (cf : config).

Definition cell_key (c : cell) : CellKey :=
  let '(x, y, z) := c in mkCellKey (cf_zone_id cf) x y z 0.

Definition _cell_of (actor : Actor) : result cell :=
  let size := cf_cell_size cf in
  raise_if (size =? 0) ZeroDivisionError;;
  Ok (a_pos_x actor / size, a_pos_y actor / size, a_pos_z actor / size).

Definition _publish_locked (actor : Actor) : prog unit :=
  new_cell ← tresult (_cell_of actor);
  old_cell ← tcall (OpCellGet (a_id actor));
  invoke (OpCall (CPublishArtifact (cell_key new_cell) actor));;
  tcall (OpCellSet (a_id actor) new_cell);;
  with_lock _book_lock (
    tcall (OpDirtyAdd (cell_key new_cell));;
    match old_cell with
    | Some old => if decide (old = new_cell) then mret tt else tcall (OpDirtyAdd (cell_key old))
    | None => mret tt
    end).

Definition record (event : ReplayFormat.Event) : prog unit :=
  if cf_recorder cf then tcall (OpRecord event) else mret tt.

Definition spawn_event (fresh : Actor) : ReplayFormat.Event :=
  ReplayFormat.ESpawn (ReplayFormat.mkSpawn (a_id fresh) (a_pos_x fresh) (a_pos_y fresh) (a_pos_z fresh)
    (a_vel_x fresh) (a_vel_y fresh) (a_vel_z fresh) (a_flags fresh)).

Definition move_event (actor_id : Z) (inp : SimInput) : ReplayFormat.Event :=
  ReplayFormat.EMove (ReplayFormat.mkMove actor_id (si_input_tick inp) (si_move_x inp) (si_move_y inp)
    (si_move_z inp) (si_flags inp)).

(** The actor, and whether it is new. *)
Definition spawn_locked (principal_id : Z) : prog (bool * Actor) :=
  bound ← tcall (OpPrincipalGet principal_id);
  match bound with
  | None =>
      actor_id ← tcall OpAllocId;
      let fresh := mkActor actor_id 0 0 0 0 0 0 0 0 0 in
      tcall (OpPrincipalSet principal_id actor_id);;
      with_lock (_stripe_of actor_id) (
        tcall (OpActorSet actor_id fresh);;
        _publish_locked fresh);;
      mret (true, fresh)
  | Some actor_id =>
      stored ← tcall (OpActorGet actor_id);
      match stored with Some actor => mret (false, actor) | None => TRaise KeyError end
  end.

Definition spawn_actor (principal_id : Z) : prog Actor :=
  '(fresh, actor) ← with_lock _control_lock (spawn_locked principal_id);
  (if fresh : bool then record (spawn_event actor) else mret tt);;
  mret actor.

Definition first_actor (actors : list Actor) : result Actor :=
  match actors with actor :: _ => Ok actor | [] => Err IndexError end.

Definition _apply_movement_locked (actor_id : Z) (inp : SimInput) (dt_ms : Z) : prog (option Actor) :=
  stored ← tcall (OpActorGet actor_id);
  match stored with
  | None => mret None
  | Some actor =>
      applied ← invoke (OpModelApply actor inp);
      actors ← invoke (OpModelStep [applied] dt_ms);
      stepped ← tresult (first_actor actors);
      tcall (OpActorSet actor_id stepped);;
      _publish_locked stepped;;
      mret (Some stepped)
  end.

Definition apply_movement (actor_id : Z) (inp : SimInput) (dt_ms : Z) : prog (option Actor) :=
  stepped ← with_lock (_stripe_of actor_id) (_apply_movement_locked actor_id inp dt_ms);
  match stepped with
  | Some _ => record (move_event actor_id inp);; mret stepped
  | None => mret None
  end.

Definition teleport_actor (actor_id pos_x pos_y : Z) : prog (option Actor) :=
  with_lock (_stripe_of actor_id) (
    stored ← tcall (OpActorGet actor_id);
    match stored with
    | None => mret None
    | Some actor =>
        let updated := mkActor (a_id actor) pos_x pos_y (a_pos_z actor) 0 0 0 (a_input_tick actor) (a_flags actor)
          (a_update_seq actor) in
        tcall (OpActorSet actor_id updated);;
        _publish_locked updated;;
        mret (Some updated)
    end).

Definition actor_state (actor_id : Z) : prog (option Actor) :=
  with_lock (_stripe_of actor_id) (tcall (OpActorGet actor_id)).

(** [_actor_of] is the same look-up. *)
Definition _actor_of : Z → prog (option Actor) := actor_state.

(** [stack.enter_context] on each lock in turn, left in reverse. *)
Fixpoint with_locks {A} (ls : list Z) (body : prog A) : prog A :=
  match ls with [] => body | l :: ls => with_lock l (with_locks ls body) end.

Definition _stripes : list Z := seqZ 1 STRIPE_COUNT.

Definition actor_states : prog (list Actor) :=
  with_lock _control_lock (with_locks _stripes (tcall OpActorValues)).

Definition binding_stats : prog (list (Z * Z) * Z * Z) :=
  with_lock _control_lock (with_lock _book_lock (
    drops ← tcall OpGateDrops;
    '(bindings, conflicts) ← tcall OpPrincipals;
    mret (bindings, conflicts, drops))).

Definition axis_range (c : Z) : list Z :=
  (λ d, c + d) <$> seqZ (- cf_cell_radius cf) (2 * cf_cell_radius cf + 1).

Definition _neighborhood (c : cell) : list CellKey :=
  let '(cx, cy, cz) := c in
  x ← axis_range cx; y ← axis_range cy; z ← axis_range cz; [cell_key (x, y, z)].

Definition _diff_window (session_id : Z) (actor : Actor) (old_cell : cell) : prog unit :=
  new_cell ← tresult (_cell_of actor);
  let old_set : gset CellKey := list_to_set (_neighborhood old_cell) in
  let new_set : gset CellKey := list_to_set (_neighborhood new_cell) in
  teach (elements (old_set ∖ new_set)) (λ key, invoke (OpCall (CWindowRemove session_id key));; mret tt);;
  teach (elements (new_set ∖ old_set)) (λ key, invoke (OpCall (CWindowAdd session_id key));; mret tt).

Definition _mark_dirty (c : cell) : prog unit :=
  with_lock _book_lock (tcall (OpDirtyAdd (cell_key c))).

Definition _record_bind (session_id actor_id : Z) : prog unit :=
  invoke (OpCall (CInfo session_id));;
  with_lock _control_lock (tcall (OpRecordBind session_id actor_id)).

Definition on_login (payload : bytes) (session_id : Z) : prog unit :=
  if zlen payload <? LOGIN_PAYLOAD_LEN then mret tt else
  principal_id ← tresult (decode_login payload);
  actor ← spawn_actor principal_id;
  _record_bind session_id (a_id actor);;
  c ← tresult (_cell_of actor);
  invoke (OpCall (CPopulate session_id (a_id actor) (_neighborhood c)));;
  mret tt.

Definition on_session_destroyed (session_id : Z) : prog unit :=
  with_lock _control_lock (tcall (OpSessionGone session_id)).

(** Under the stripe: whether the input is to be recorded. *)
Definition input_locked (actor_id : Z) (inp : SimInput) (session_id : Z) : prog bool :=
  before ← tcall (OpActorGet actor_id);
  match before with
  | None => mret false
  | Some before =>
      moved ← _apply_movement_locked actor_id inp 50;
      match moved with
      | None => mret false
      | Some stepped =>
          gate ← tcatch (actor ← invoke (OpCall (CInfo session_id)); mret (Some actor)) (λ _, mret None);
          match gate with
          | None => mret false
          | Some bound =>
              (if bound =? actor_id then
                old_cell ← tresult (_cell_of before);
                new_cell ← tresult (_cell_of stepped);
                if decide (old_cell = new_cell) then mret tt else _diff_window session_id stepped old_cell
              else with_lock _book_lock (tcall OpGateDrop));;
              mret true
          end
      end
  end.

Definition on_actor_input (payload : bytes) (session_id : Z) : prog unit :=
  if zlen payload <? ACTOR_INPUT_PAYLOAD_LEN then mret tt else
  '(actor_id, inp) ← tresult (decode_actor_input payload);
  applied ← with_lock (_stripe_of actor_id) (input_locked actor_id inp session_id);
  if applied : bool then record (move_event actor_id inp) else mret tt.

(** [contextlib.suppress] *)
Definition suppress (caught : exn → bool) (p : prog unit) : prog unit :=
  tcatch p (λ e, if caught e then mret tt else TRaise e).

Definition is_network_error (e : exn) : bool := match e with KithError FNetwork _ _ => true | _ => false end.
Definition is_state_error (e : exn) : bool := match e with KithError FState _ _ => true | _ => false end.

Definition on_chat (payload : bytes) (session_id : Z) : prog unit :=
  match decode_chat payload with
  | Err e => if is_value_error e then mret tt else TRaise e
  | Ok (actor_id, _) =>
      stored ← _actor_of actor_id;
      match stored with
      | None => mret tt
      | Some actor =>
          c ← tresult (_cell_of actor);
          suppress is_network_error (
            invoke (OpCall (CBroadcastCell (cell_key c) Replication.CHAT_EVENT_TYPE payload));; mret tt);;
          _mark_dirty c
      end
  end.

Definition bump_cell (key : CellKey) : prog unit :=
  epoch ← with_lock _book_lock (tcall (OpEpochBump key));
  suppress is_state_error (invoke (OpCall (CPublishCellProduct key epoch));; mret tt).

Definition flush_dirty_cells (tick : Z) : prog unit :=
  cells ← with_lock _book_lock (tcall OpDirtyDrain);
  teach cells bump_cell.

(** ** What the server runs *)

(** Frames of the registered types, session ends, ticks, and the calls of
    the control plane. *)
Inductive request :=
  | RMessage (msg_type : Z) (payload : bytes) (session_id : Z)
  | RSessionDestroyed (session_id : Z)
  | RTick (tick : Z)
  | RSpawn (principal_id : Z)
  | RMove (actor_id : Z) (inp : SimInput) (dt_ms : Z)
  | RTeleport (actor_id pos_x pos_y : Z)
  | RState (actor_id : Z)
  | RStates
  | RStats.

Definition registered (msg_type : Z) : option (bytes → Z → prog unit) :=
  if msg_type =? Replication.LOGIN_TYPE then Some on_login
  else if msg_type =? Replication.ACTOR_INPUT_TYPE then Some on_actor_input
  else if msg_type =? Replication.CHAT_TYPE then Some on_chat
  else None.

Definition ignore {A} (p : prog A) : prog unit := p ≫= λ _, mret tt.

Definition handle (r : request) : prog unit :=
  match r with
  | RMessage ty payload s => match registered ty with Some h => h payload s | None => mret tt end
  | RSessionDestroyed s => on_session_destroyed s
  | RTick t => flush_dirty_cells t
  | RSpawn p => ignore (spawn_actor p)
  | RMove a inp dt => ignore (apply_movement a inp dt)
  | RTeleport a x y => ignore (teleport_actor a x y)
  | RState a => ignore (actor_state a)
  | RStates => ignore actor_states
  | RStats => ignore binding_stats
  end.

Definition requested (p : prog unit) : Prop := ∃ r, p = handle r.
End Handlers.
End Model.

Abbreviation prog := (tprog op).
