(* ===== verification/SpatialTheorems.v ===== *)
(** * The spatial handlers under concurrency

    Every handler takes its locks in the order control, stripe, bookkeeping,
    so the pool never deadlocks and every schedule ends.  What each lock
    guards satisfies its invariant whenever the lock is free, in every
    interleaving of any requests, whatever the server and the sessions
    answer. *)

From S2P Require Import Prelude Outcome PyStruct PyText PyWire Threads SpatialCodec Spatial.

#[local] Open Scope Z_scope.

(** What the handlers rely on in the movement model: it keeps actor ids. *)
Class InputModelLaws `{IM : InputModel} := {
  im_apply_id m x i m' y : 0 ≤ a_id x < 2 ^ 64 → im_apply_input m x i = (m', Ok y) → a_id y = a_id x;
  im_step_ids m xs dt m' ys : Forall (λ x, 0 ≤ a_id x < 2 ^ 64) xs → im_step m xs dt = (m', Ok ys) →
    a_id <$> ys = a_id <$> xs;
}.

(** ** Definitions *)

Section Invariants.
Context `{IM : InputModel} (cf : config) (ev : env).

(** Errors that come from outside the handlers. *)
Inductive foreign (e : exn) : Prop :=
  | foreign_call w c : ev w c = Err e → foreign e
  | foreign_apply m x i m' : im_apply_input m x i = (m', Err e) → foreign e
  | foreign_step m xs dt m' : im_step m xs dt = (m', Err e) → foreign e
  | foreign_zero : cf_cell_size cf = 0 → e = ZeroDivisionError → foreign e.

(** No publish is ever refused. *)
Definition reliable : Prop :=
  cf_cell_size cf ≠ 0 ∧ ∀ w k x, is_ok (ev w (CPublishArtifact k x)) = true.

(** One actor's row of the tables, guarded by its stripe: the recorded cell
    is the one its artifact is published in; when publishes succeed the
    artifact is the stored actor. *)
Record row_ok (w : world) (a : Z) : Prop := {
  row_actor x : t_actors (w_tables w) !! a = Some x → a_id x = a ∧ 1 ≤ a < c_next_actor_id (w_control w) ∧
    (reliable → ∃ c, _cell_of cf x = Ok c ∧ t_artifacts (w_tables w) !! a = Some (cell_key cf c, x));
  row_cell c : t_actor_cells (w_tables w) !! a = Some c → ∃ x, t_artifacts (w_tables w) !! a = Some (cell_key cf c, x) ∧
    _cell_of cf x = Ok c ∧ a_id x = a;
  row_artifact : t_actor_cells (w_tables w) !! a = None → t_artifacts (w_tables w) !! a = None;
}.

(** The session's actor is the one whose set holds the session; no set is empty. *)
Definition bound_to (binds : gmap Z (gset Z)) (s a : Z) : Prop := ∃ held, binds !! a = Some held ∧ s ∈ held.

Record binds_ok (c : control) : Prop := {
  bd_inverse s a : c_session_actors c !! s = Some a ↔ bound_to (c_actor_binds c) s a;
  bd_held a : c_actor_binds c !! a ≠ Some ∅;
}.

(** The lifecycle records, guarded by the control lock: one actor per
    principal, all distinct and allocated, each with a live actor; the two
    bind maps are inverse to each other and hold no empty sets. *)
Record control_ok (w : world) : Prop := {
  ctl_next : 1 ≤ c_next_actor_id (w_control w);
  ctl_principals : NoDup (fst <$> c_principals (w_control w));
  ctl_actors : NoDup (snd <$> c_principals (w_control w));
  ctl_live p a : (p, a) ∈ c_principals (w_control w) →
    1 ≤ a < c_next_actor_id (w_control w) ∧ is_Some (t_actors (w_tables w) !! a);
  ctl_binds : binds_ok (w_control w);
}.

Definition book_ok (w : world) : Prop :=
  0 ≤ b_gate_drops (w_book w) ∧ ∀ k e, b_cell_epochs (w_book w) !! k = Some e → 1 ≤ e.

(** The invariant of each lock. *)
Definition lock_inv (l : Z) (w : world) : Prop :=
  (l = _control_lock → control_ok w) ∧ (∀ a, _stripe_of a = l → row_ok w a) ∧ (l = _book_lock → book_ok w).

Definition same_row (w w' : world) (a : Z) : Prop :=
  t_actors (w_tables w) !! a = t_actors (w_tables w') !! a ∧
  t_actor_cells (w_tables w) !! a = t_actor_cells (w_tables w') !! a ∧
  t_artifacts (w_tables w) !! a = t_artifacts (w_tables w') !! a.

Definition lock_same (l : Z) (w w' : world) : Prop :=
  (l = _control_lock → w_control w = w_control w') ∧ (∀ a, _stripe_of a = l → same_row w w' a) ∧
  (l = _book_lock → w_book w = w_book w').

(** Ids only grow and actors are never removed. *)
Definition world_evolves (w w' : world) : Prop :=
  c_next_actor_id (w_control w) ≤ c_next_actor_id (w_control w') ∧
  ∀ a, is_Some (t_actors (w_tables w) !! a) → is_Some (t_actors (w_tables w') !! a).

(** Actor ids fit in 64 bits. *)
Definition ids_fit (w : world) : Prop := c_next_actor_id (w_control w) ≤ 2 ^ 64.
End Invariants.

Lemma stripe_range a : 1 ≤ _stripe_of a ≤ 64.
Proof. unfold _stripe_of, STRIPE_COUNT. pose proof (Z.mod_pos_bound a 64 ltac:(lia)). lia. Qed.

(** ** Lock order *)

Section LockOrder.
Context `{IM : InputModel} (cf : config) (ev : env).

Lemma locks_ret {A} (x : A) H : locks (mret x : prog A) H H.
Proof. done. Qed.

Lemma locks_raise {A} e H : locks (TRaise e : prog A) H H.
Proof. done. Qed.

Lemma locks_invoke {A : Set} (o : op (result A)) H : locks (invoke o) H H.
Proof. apply locks_bind; [apply locks_call|]. intros x. apply locks_result. Qed.

Lemma locks_with_locks {A} n i (body : prog A) H : (∀ l', l' ∈ H → l' < i) → (∀ H', locks body H' H') →
  locks (with_locks (seqZ i (Z.of_nat n)) body) H H.
Proof.
  revert i H. induction n as [|n IH]; intros i H Hi Hb; [apply Hb|].
  rewrite seqZ_cons by lia. replace (Z.pred (Z.of_nat (S n))) with (Z.of_nat n) by lia. cbn [with_locks].
  apply locks_with; [done|]. apply IH; [|done]. intros l' [->%elem_of_singleton|Hl']%elem_of_union; [lia|].
  specialize (Hi l' Hl'). lia.
Qed.
End LockOrder.

Create HintDb spatial_locks discriminated.
#[export] Hint Resolve locks_ret locks_raise locks_call locks_result locks_invoke : spatial_locks.

(** The locks held lie below the one taken. *)
Ltac stripe_ranges :=
  unfold _control_lock, _book_lock, STRIPE_COUNT in *;
  repeat match goal with
  | _ : context [_stripe_of ?a] |- _ =>
      lazymatch goal with _ : 1 ≤ _stripe_of a ≤ 64 |- _ => fail | _ => pose proof (stripe_range a) end
  | |- context [_stripe_of ?a] =>
      lazymatch goal with _ : 1 ≤ _stripe_of a ≤ 64 |- _ => fail | _ => pose proof (stripe_range a) end
  end.

Ltac below :=
  let l := fresh "l" in let Hl := fresh "Hl" in
  intros l Hl; repeat (apply elem_of_union in Hl as [Hl|Hl]);
  first [by apply elem_of_empty in Hl | apply elem_of_singleton in Hl; stripe_ranges; lia | eauto].

Ltac ordered :=
  repeat first
    [ solve [auto with spatial_locks]
    | apply locks_each; intros ? _
    | apply locks_catch; [|intros ?]
    | apply locks_with; [below|]
    | apply locks_bind; [|intros ?]
    | match goal with
      | |- locks (if ?b then _ else _) _ _ => destruct b
      | |- locks (match ?x with _ => _ end) _ _ => destruct x
      end ].

Section Orders.
Context `{IM : InputModel} (cf : config) (ev : env).

Lemma publish_locks actor H : (∀ l, l ∈ H → l < _book_lock) → locks (_publish_locked cf actor) H H.
Proof. intros HH. unfold _publish_locked. ordered. Qed.

Lemma record_locks e H : locks (record cf e) H H.
Proof. unfold record. ordered. Qed.
End Orders.
#[export] Hint Resolve record_locks : spatial_locks.
#[export] Hint Extern 1 (locks (_publish_locked _ _) _ _) => apply publish_locks; below : spatial_locks.

Section Handlers.
Context `{IM : InputModel} (cf : config) (ev : env).

Lemma spawn_locks p : locks (spawn_actor cf p) ∅ ∅.
Proof. unfold spawn_actor, spawn_locked. ordered. Qed.

Lemma movement_locks a inp dt H : (∀ l, l ∈ H → l < _book_lock) → locks (_apply_movement_locked cf a inp dt) H H.
Proof. intros HH. unfold _apply_movement_locked. ordered. Qed.

#[local] Hint Extern 1 (locks (_apply_movement_locked _ _ _ _) _ _) => apply movement_locks; below : spatial_locks.

Lemma input_locks a inp s : locks (input_locked cf a inp s) ({[_stripe_of a]} ∪ ∅) ({[_stripe_of a]} ∪ ∅).
Proof. unfold input_locked, _diff_window. ordered. Qed.

#[local] Hint Resolve spawn_locks input_locks : spatial_locks.

Lemma message_locks ty h payload s : registered cf ty = Some h → locks (h payload s) ∅ ∅.
Proof.
  unfold registered. intros Hh. repeat case_match; simplify_eq.
  - unfold on_login, _record_bind. ordered.
  - unfold on_actor_input. ordered.
  - unfold on_chat, _actor_of, actor_state, suppress, _mark_dirty. ordered.
Qed.

(** Every request takes its locks in order and releases them all. *)
Lemma handle_locks r : locks (handle cf r) ∅ ∅.
Proof.
  destruct r as [ty payload s|s|t|p|a inp dt|a x y|a| |]; cbn [handle].
  - destruct (registered cf ty) as [h|] eqn:E; [by eapply message_locks|apply locks_ret].
  - unfold on_session_destroyed. ordered.
  - unfold flush_dirty_cells, bump_cell, suppress. ordered.
  - unfold ignore. ordered.
  - unfold ignore, apply_movement. ordered.
  - unfold ignore, teleport_actor. ordered.
  - unfold ignore, actor_state. ordered.
  - unfold ignore, actor_states, _stripes. apply locks_bind; [|intros; apply locks_ret]. apply locks_with; [below|].
    change STRIPE_COUNT with (Z.of_nat 64). apply locks_with_locks; [below|intros; ordered].
  - unfold ignore, binding_stats. ordered.
Qed.
End Handlers.

(** ** No deadlock *)

Section Progress.
Context `{IM : InputModel} (cf : config) (ev : env).

Lemma serve_ordered q q' : serve_step (exec ev) (requested cf) q q' → pool_ordered q → pool_ordered q'.
Proof.
  intros [q1 q2 Hw|p w ts es [r ->]] Hq; [by eapply work_ordered|].
  intros t [Ht| ->%list_elem_of_singleton]%elem_of_app; [by apply Hq|apply handle_locks].
Qed.

(** C6: From every state the spatial server can reach, however its concurrent
    requests interleave, the threads already started take finitely many steps,
    and as long as one of them is unfinished some thread can take a step:
    nested control, stripe and book locks never deadlock, and every request
    ends. *)
Theorem spatial_live m q :
  rtc (serve_step (exec ev) (requested cf)) (mkTpool (world_init m) [] []) q →
  sn (work (exec ev)) q ∧ (nf (work (exec ev)) q ↔ tp_threads q = []).
Proof.
  intros Hq. assert (pool_ordered q) as Ho.
  { revert q Hq. apply (rtc_ind_r (λ q, pool_ordered q)); [|intros; by eapply serve_ordered].
    intros t Ht. by apply elem_of_nil in Ht. }
  split; [apply work_terminates|]. split.
  - intros Hnf. destruct (tp_threads q) eqn:E; [done|]. exfalso. apply Hnf.
    apply (work_progress (exec ev) q Ho). congruence.
  - intros Hts [q' Hw]. destruct Hw; by destruct ts1.
Qed.
End Progress.

Section Guards.
Context `{IM : InputModel} (cf : config) (ev : env).

Lemma same_row_refl (w : world) a : same_row w w a.
Proof. done. Qed.

Lemma exec_world_evolves (B : Set) (o : op B) w w' x : exec ev B o w = (w', x) → world_evolves w w'.
Proof.
  intros He. assert (fst (exec ev B o w) = w') as <- by (by rewrite He).
  destruct o; cbn; try (split; cbn; [lia|done]).
  - split; cbn; [lia|]. intros a Ha. destruct (decide (a = actor_id)) as [->|Hne]; simplify_map_eq; eauto.
  - unfold record_bind. split; cbn; [|done]. by case_decide.
  - unfold session_gone. split; cbn; [|done]. by case_match.
  - unfold on_model. destruct (im_apply_input _ _ _). split; cbn; [lia|done].
  - unfold on_model. destruct (im_step _ _ _). split; cbn; [lia|done].
  - split; cbn; [lia|]. destruct c, (ev w _); done.
Qed.

Lemma row_ok_same w w' a : row_ok cf ev w a → same_row w w' a → world_evolves w w' → row_ok cf ev w' a.
Proof.
  intros [Ha Hc Hx] (E1 & E2 & E3) [Hn _]. split; rewrite <- ?E1, <- ?E2, <- ?E3; [|done..].
  intros x Hx'. destruct (Ha x Hx') as (? & ? & ?). split; [done|]. split; [lia|done].
Qed.

Lemma control_ok_same w w' : control_ok w → w_control w = w_control w' → world_evolves w w' → control_ok w'.
Proof.
  intros [Hn Hp Ha Hl Hb] E [_ Hev]. split; rewrite <- ?E; try done.
  intros p a Hin. destruct (Hl p a Hin). auto.
Qed.

Lemma book_ok_same (w w' : world) : book_ok w → w_book w = w_book w' → book_ok w'.
Proof. unfold book_ok. by intros ? <-. Qed.

#[global, refine] Instance spatial_guards : Guards (exec ev) := {|
  same := lock_same;
  evolves := world_evolves;
  inv := lock_inv cf ev;
  ok := ids_fit;
|}.
Proof.
  - done.
  - intros l w1 w2 w3 (A1 & A2 & A3) (B1 & B2 & B3). split; [|split]; intros.
    + by rewrite A1, B1.
    + destruct (A2 a) as (? & ? & ?), (B2 a) as (? & ? & ?); [done..|]. repeat split; congruence.
    + by rewrite A3, B3.
  - done.
  - intros w1 w2 w3 [A1 A2] [B1 B2]. split; [lia|auto].
  - apply exec_world_evolves.
  - intros l w w' (I1 & I2 & I3) (S1 & S2 & S3) Hev. split; [|split].
    + intros Hl. by eapply control_ok_same; [apply I1|apply S1|].
    + intros a Ha. by eapply row_ok_same; [apply I2|apply S2|].
    + intros Hl. by eapply book_ok_same; [apply I3|apply S3].
  - unfold ids_fit. intros w w' [Hn _]. lia.
Defined.
End Guards.

(** ** Triples *)

Section Triples.
Context `{IM : InputModel} (cf : config) (ev : env).

#[local] Existing Instance spatial_guards.
#[local] Abbreviation guarded p H w Q := (guarded (GS := spatial_guards cf ev) (exec ev) p H w Q).
#[local] Abbreviation rely := (rely (GS := spatial_guards cf ev) (exec ev)).

(** With the locks [H] held throughout, from [P] the program ends in [Q]. *)
Definition triple {A} (p : prog A) (H : gset Z) (P : world → Prop) (Q : result A → world → Prop) : Prop :=
  ∀ w, P w → guarded p H w (λ r H' w', H' = H ∧ Q r w').

(** Not disturbed by others while [H] is held. *)
Definition stable (H : gset Z) (P : world → Prop) : Prop := ∀ w w', rely H w w' → P w → P w'.

Definition errs {A} (r : result A) : Prop := match r with Ok _ => True | Err e => foreign cf ev e end.

Lemma triple_conseq {A} (p : prog A) H (P P' : world → Prop) (Q Q' : result A → world → Prop) :
  triple p H P Q → (∀ w, P' w → P w) → (∀ r w, Q r w → Q' r w) → triple p H P' Q'.
Proof. intros Hp HP HQ w Hw. eapply guarded_post; [by apply Hp, HP|]. cbn. intros r H' w' [-> Hr]. auto. Qed.

Lemma triple_pre {A} (p : prog A) H (P P' : world → Prop) (Q : result A → world → Prop) :
  triple p H P Q → (∀ w, P' w → P w) → triple p H P' Q.
Proof. intros Hp HP w Hw. by apply Hp, HP. Qed.

Lemma triple_bind {A B} (p : prog A) (k : A → prog B) H P (R : result A → world → Prop) Q :
  triple p H P R → (∀ x, triple (k x) H (R (Ok x)) Q) → (∀ e w, R (Err e) w → Q (Err e) w) →
  triple (p ≫= k) H P Q.
Proof.
  intros Hp Hk He w Hw. apply guarded_bind. eapply guarded_post; [by apply Hp|]. cbn.
  intros [x|e] H' w' [-> Hr]; [by apply Hk|auto].
Qed.

Lemma triple_ret {A} (x : A) H P (Q : result A → world → Prop) : (∀ w, P w → Q (Ok x) w) → triple (mret x) H P Q.
Proof. intros HQ w Hw. split; [done|auto]. Qed.

Lemma triple_value {A B} (x : A) (k : A → prog B) H P (Q : result B → world → Prop) :
  triple (k x) H P Q → triple (TRet x ≫= k) H P Q.
Proof. done. Qed.

Lemma triple_raise {A} e H P (Q : result A → world → Prop) : (∀ w, P w → Q (Err e) w) → triple (TRaise e) H P Q.
Proof. intros HQ w Hw. split; [done|auto]. Qed.

Lemma triple_result {A} (r : result A) H (P : world → Prop) (Q : result A → world → Prop) :
  (∀ w, P w → Q r w) → triple (tresult r) H P Q.
Proof. destruct r; [apply triple_ret|apply triple_raise]. Qed.

Lemma triple_catch {A} (p : prog A) h H P (R Q : result A → world → Prop) :
  triple p H P R → (∀ e, triple (h e) H (R (Err e)) Q) → (∀ x w, R (Ok x) w → Q (Ok x) w) → triple (tcatch p h) H P Q.
Proof.
  intros Hp Hh Hx w Hw. apply guarded_catch. eapply guarded_post; [by apply Hp|]. cbn.
  intros [x|e] H' w' [-> Hr]; [auto|by apply Hh].
Qed.

Lemma triple_with {A} l (body : prog A) H (P : world → Prop) (Q : result A → world → Prop) :
  l ∉ H → stable H P → (∀ r, stable H (Q r)) →
  triple body ({[l]} ∪ H) (λ w, P w ∧ lock_inv cf ev l w) (λ r w, lock_inv cf ev l w ∧ Q r w) →
  triple (with_lock l body) H P Q.
Proof.
  intros Hl HP HQ Hb w Hw. apply guarded_with; [done| |].
  - intros r w1 w2 Hr [_ Hq]. split; [done|]. by eapply HQ.
  - intros w1 Hok Hr Hi. eapply guarded_post; [apply Hb; split; [by eapply HP|done]|]. cbn. tauto.
Qed.

Lemma triple_call {A : Set} (o : op A) H (P : world → Prop) (Q : result A → world → Prop) : stable H P →
  (∀ w w' x, ids_fit w' → P w → exec ev A o w = (w', x) → (∀ l, l ∉ H → lock_same l w w') ∧ Q (Ok x) w') →
  triple (tcall o) H P Q.
Proof.
  intros HP Hq w Hw w1 w2 x Hok Hr He. destruct (Hq w1 w2 x) as [Hs Hx]; [done|by eapply HP|done|]. by split.
Qed.

Lemma triple_each {A} (xs : list A) f H (P : world → Prop) (E : exn → Prop) : stable H P →
  (∀ x, triple (f x) H P (λ r w, P w ∧ match r with Ok _ => True | Err e => E e end)) →
  triple (teach xs f) H P (λ r w, P w ∧ match r with Ok _ => True | Err e => E e end).
Proof.
  intros HP Hf. induction xs as [|x xs IH]; [by apply triple_ret|]. cbn [teach].
  eapply triple_bind; [apply Hf| |done]. intros []. eapply triple_conseq; [apply IH| |done]. tauto.
Qed.

Lemma stable_pure H (P : Prop) : stable H (λ _, P).
Proof. by intros w w' _. Qed.

Lemma stable_and H P Q : stable H P → stable H Q → stable H (λ w, P w ∧ Q w).
Proof. intros HP HQ w w' Hr [? ?]. split; eauto. Qed.

Lemma stable_inv H l : l ∈ H → stable H (lock_inv cf ev l).
Proof. intros Hl w w' [Hev Hs] Hi. exact (@inv_same _ _ _ (spatial_guards cf ev) l w w' Hi (Hs l Hl) Hev). Qed.
End Triples.
