(* ===== verification/SpatialInvariant.v ===== *)
(** * The spatial handlers keep the lock invariants

    A triple for each handler, and the invariant of every pool the server can
    reach. *)

From S2P Require Import Prelude Outcome PyStruct PyText PyWire Threads SpatialCodec Spatial SpatialTheorems.

#[local] Open Scope Z_scope.

Section Handlers.
Context `{IML : InputModelLaws} (cf : config) (ev : env).

Abbreviation triple := (triple cf ev).
Abbreviation stable := (stable cf ev).
Abbreviation errs := (errs cf ev).
Abbreviation rely := (rely (GS := spatial_guards cf ev) (exec ev)).

(** ** Operations *)

(** Nothing guarded changes. *)
Definition all_same (w w' : world) : Prop :=
  w_tables w = w_tables w' ∧ w_control w = w_control w' ∧ w_book w = w_book w'.

Lemma all_same_lock w w' l : all_same w w' → lock_same l w w'.
Proof. intros (E1 & E2 & E3). repeat split; intros; congruence. Qed.

Lemma all_same_rely H w w' : all_same w w' → rely H w w'.
Proof.
  intros Hs. split; [|intros l _; by apply all_same_lock]. destruct Hs as (E1 & E2 & E3).
  split; cbn; rewrite E1 || rewrite E2; [lia|done].
Qed.

(** An operation that changes nothing guarded. *)
Definition quiet {A : Set} (o : op A) : Prop := ∀ w w' x, exec ev A o w = (w', x) → all_same w w'.

Lemma triple_quiet {A : Set} (o : op A) H (P : world → Prop) : quiet o → stable H P →
  triple (tcall o) H P (λ r w', P w' ∧ ∃ w x, r = Ok x ∧ exec ev A o w = (w', x)).
Proof.
  intros Hq HP. apply triple_call; [done|]. intros w w' x _ Hw He. pose proof (Hq w w' x He) as Hs. split.
  - intros l _. by apply all_same_lock.
  - split; [|by eauto]. eapply HP; [by apply all_same_rely|done].
Qed.

Lemma quiet_get a : quiet (OpActorGet a).
Proof. intros w w' x [= <- <-]. done. Qed.

Lemma quiet_cell a : quiet (OpCellGet a).
Proof. intros w w' x [= <- <-]. done. Qed.

Lemma quiet_apply x i : quiet (OpModelApply x i).
Proof. intros w w' y. cbn. unfold on_model. destruct (im_apply_input _ _ _). by intros [= <- <-]. Qed.

Lemma quiet_step xs dt : quiet (OpModelStep xs dt).
Proof. intros w w' y. cbn. unfold on_model. destruct (im_step _ _ _). by intros [= <- <-]. Qed.

Definition publishes (c : call) : bool := match c with CPublishArtifact _ _ => true | _ => false end.

Lemma quiet_outside_call c : publishes c = false → quiet (OpCall c).
Proof. intros Hc w w' y. cbn. intros [= <- <-]. destruct c, (ev w _); done. Qed.

Lemma quiet_record e : quiet (OpRecord e).
Proof. intros w w' x [= <- <-]. done. Qed.

Lemma triple_outside c H P : publishes c = false → stable H P →
  triple (invoke (OpCall c)) H P (λ r w, P w ∧ errs r).
Proof.
  intros Hc HP. eapply triple_bind; [apply triple_quiet; [by apply quiet_outside_call|done]| |].
  - intros r. apply triple_result. intros w (Hw & w0 & y & [= <-] & He). split; [done|].
    cbn in He. injection He as <- <-. destruct (ev w0 c) eqn:E; [done|]. by eapply foreign_call.
  - intros e w (_ & w0 & y & ? & _). done.
Qed.

Lemma triple_record e H P : stable H P → triple (record cf e) H P (λ r w, P w ∧ errs r).
Proof.
  intros HP. unfold record. destruct (cf_recorder cf); [|by apply triple_ret].
  eapply triple_conseq; [apply triple_quiet; [apply quiet_record|done]|done|].
  by intros r w (Hw & w0 & x & -> & _).
Qed.

(** ** Bookkeeping *)

Lemma lock_same_other w w' l : w_tables w = w_tables w' → w_control w = w_control w' → l ≠ _book_lock →
  lock_same l w w'.
Proof. intros E1 E2 Hl. split; [|split]; [done| |done]. intros a _. by unfold same_row; rewrite E1. Qed.

Lemma stable_more l H P : stable H P → stable ({[l]} ∪ H) P.
Proof. intros HP w w' [Hev Hs]. apply HP. split; [done|]. intros l' Hl. apply Hs. set_solver. Qed.

Lemma book_inv w : lock_inv cf ev _book_lock w ↔ book_ok w.
Proof.
  split; [intros (_ & _ & Hb); by apply Hb|]. intros Hb. split; [|split; [|done]].
  - intros E. unfold _book_lock, _control_lock, STRIPE_COUNT in E. lia.
  - intros a E. exfalso. stripe_ranges. lia.
Qed.

(** Work on the bookkeeping alone, under its lock. *)
Lemma triple_book {A} (body : prog A) H (P : world → Prop) : _book_lock ∉ H → stable H P →
  triple body ({[_book_lock]} ∪ H) (λ w, P w ∧ book_ok w) (λ r w, (P w ∧ book_ok w) ∧ errs r) →
  triple (with_lock _book_lock body) H P (λ r w, P w ∧ errs r).
Proof.
  intros Hb HP Ht. apply triple_with; [done|done|intros r; apply stable_and; [done|apply stable_pure]|].
  eapply triple_conseq; [apply Ht| |]; cbn; intros *; rewrite book_inv; tauto.
Qed.

Lemma triple_book_op {A : Set} (o : op A) H (P : world → Prop) : _book_lock ∉ H → stable H P →
  (∀ w w' x, exec ev A o w = (w', x) → w_tables w = w_tables w' ∧ w_control w = w_control w' ∧
    (book_ok w → book_ok w')) →
  triple (tcall o) ({[_book_lock]} ∪ H) (λ w, P w ∧ book_ok w) (λ r w, (P w ∧ book_ok w) ∧ errs r).
Proof.
  intros Hb HP Ho. apply triple_call.
  { apply stable_and; [by apply stable_more|]. intros w w' Hr. rewrite <- !book_inv. apply stable_inv with ({[_book_lock]} ∪ H); [set_solver|done]. }
  intros w w' x _ (Hw & Hi) He. destruct (Ho w w' x He) as (E1 & E2 & Hbk).
  assert (∀ l, l ≠ _book_lock → lock_same l w w') as Hs by (intros; by apply lock_same_other).
  split; [intros l Hl; apply Hs; set_solver|]. split; [|done]. split; [|auto].
  eapply HP; [|done]. split; [by eapply exec_world_evolves|]. intros l Hl. apply Hs. by intros ->.
Qed.

Lemma dirty_add_book k w w' x : exec ev unit (OpDirtyAdd k) w = (w', x) →
  w_tables w = w_tables w' ∧ w_control w = w_control w' ∧ (book_ok w → book_ok w').
Proof. by intros [= <- <-]. Qed.

Lemma dirty_drain_book w w' x : exec ev (list CellKey) OpDirtyDrain w = (w', x) →
  w_tables w = w_tables w' ∧ w_control w = w_control w' ∧ (book_ok w → book_ok w').
Proof. by intros [= <- <-]. Qed.

Lemma gate_drop_book w w' x : exec ev unit OpGateDrop w = (w', x) →
  w_tables w = w_tables w' ∧ w_control w = w_control w' ∧ (book_ok w → book_ok w').
Proof. intros [= <- <-]. split; [done|]. split; [done|]. intros [Hg He]. split; cbn; [lia|done]. Qed.

Lemma epoch_bump_book k w w' x : exec ev Z (OpEpochBump k) w = (w', x) →
  w_tables w = w_tables w' ∧ w_control w = w_control w' ∧ (book_ok w → book_ok w').
Proof.
  intros [= <- <-]. split; [done|]. split; [done|]. intros [Hg He]. split; cbn; [done|].
  intros k' e. destruct (decide (k' = k)) as [->|Hne]; [|rewrite lookup_insert_ne by done; apply He].
  rewrite lookup_insert_eq. intros [= <-]. destruct (b_cell_epochs (w_book w) !! k) as [e|] eqn:E; cbn; [|lia].
  specialize (He k e E). lia.
Qed.

(** ** Rows *)

Lemma rely_row H w w' a : _stripe_of a ∈ H → rely H w w' → same_row w w' a.
Proof. intros Ha [_ Hs]. by apply (Hs (_stripe_of a)). Qed.

Lemma rely_next H w w' : rely H w w' → c_next_actor_id (w_control w) ≤ c_next_actor_id (w_control w').
Proof. by intros [[Hn _] _]. Qed.

(** The cell and the artifact agree. *)
Definition cell_ok (w : world) (a : Z) : Prop :=
  (∀ c, t_actor_cells (w_tables w) !! a = Some c → ∃ x, t_artifacts (w_tables w) !! a = Some (cell_key cf c, x) ∧
    _cell_of cf x = Ok c ∧ a_id x = a) ∧
  (t_actor_cells (w_tables w) !! a = None → t_artifacts (w_tables w) !! a = None).

(** The other rows of the stripe are in order, and this one has been given a new actor. *)
Record stored (actor : Actor) (w : world) : Prop := {
  st_rows a : _stripe_of a = _stripe_of (a_id actor) → a ≠ a_id actor → row_ok cf ev w a;
  st_actor : t_actors (w_tables w) !! a_id actor = Some actor;
  st_id : 1 ≤ a_id actor < c_next_actor_id (w_control w);
}.

Lemma stored_same actor w w' : (∀ a, _stripe_of a = _stripe_of (a_id actor) → same_row w w' a) →
  world_evolves w w' → stored actor w → stored actor w'.
Proof.
  intros Hr Hev [Ha Hx Hn]. destruct (Hr (a_id actor) eq_refl) as (E1 & _). pose proof Hev as [Hnx _]. split.
  - intros a Hs Hne. eapply row_ok_same; [by apply Ha|by apply Hr|done].
  - by rewrite <- E1.
  - lia.
Qed.

Lemma stable_stored actor H : _stripe_of (a_id actor) ∈ H → stable H (stored actor).
Proof.
  intros Hl w w' Hr. apply stored_same; [|apply Hr]. intros a Ha. eapply rely_row; [|done]. by rewrite Ha.
Qed.

Lemma cell_ok_same w w' a : same_row w w' a → cell_ok w a → cell_ok w' a.
Proof. unfold cell_ok. by intros (E1 & E2 & E3); rewrite E2, E3. Qed.

Lemma stable_cell_ok a H : _stripe_of a ∈ H → stable H (λ w, cell_ok w a).
Proof. intros Hl w w' Hr. apply cell_ok_same. by eapply rely_row. Qed.

(** The row is in order again once the actor is published, or if it cannot be. *)
Lemma stored_rows actor w : stored actor w → cell_ok w (a_id actor) →
  (reliable cf ev → ∃ c, _cell_of cf actor = Ok c ∧ t_artifacts (w_tables w) !! a_id actor = Some (cell_key cf c, actor)) →
  ∀ a, _stripe_of a = _stripe_of (a_id actor) → row_ok cf ev w a.
Proof.
  intros [Ha Hx Hn] [Hc1 Hc2] Hr a Hs. destruct (decide (a = a_id actor)) as [->|Hne]; [|by apply Ha].
  split; [|done..]. intros x. rewrite Hx. by intros [= <-].
Qed.
(** ** Publishing *)

(** Kept by work on the tables and the bookkeeping. *)
Definition frame (H : gset Z) (F : world → Prop) : Prop := ∀ w w', world_evolves w w' →
  (_control_lock ∈ H → w_control w = w_control w') → F w → F w'.

Lemma frame_stable H F : frame H F → stable H F.
Proof. intros HF w w' [Hev Hs]. apply HF; [done|]. intros Hl. by apply (Hs _control_lock). Qed.

Definition rows_ok (l : Z) (w : world) : Prop := ∀ a, _stripe_of a = l → row_ok cf ev w a.

Lemma stable_rows l H : l ∈ H → stable H (rows_ok l).
Proof.
  intros Hl w w' Hr Hw a Ha. subst l. eapply row_ok_same; [by apply Hw|by eapply rely_row|apply Hr].
Qed.

(** Only the row of [a] changes. *)
Definition only_row (a : Z) (w w' : world) : Prop :=
  w_control w = w_control w' ∧ w_book w = w_book w' ∧ ∀ a', a' ≠ a → same_row w w' a'.

Lemma only_row_lock a w w' l : only_row a w w' → l ≠ _stripe_of a → lock_same l w w'.
Proof. intros (E1 & E2 & E3) Hl. split; [done|]. split; [|done]. intros a' Ha'. apply E3. by intros ->. Qed.

Lemma cell_set_row a c w w' x : exec ev unit (OpCellSet a c) w = (w', x) → only_row a w w'.
Proof. intros [= <- <-]. split; [done|]. split; [done|]. intros a' Ha'. unfold same_row. cbn. by rewrite lookup_insert_ne by done. Qed.

Lemma actor_set_row a y w w' x : exec ev unit (OpActorSet a y) w = (w', x) → only_row a w w'.
Proof. intros [= <- <-]. split; [done|]. split; [done|]. intros a' Ha'. unfold same_row. cbn. by rewrite lookup_insert_ne by done. Qed.

Lemma publish_row k y w w' x : exec ev (result Z) (OpCall (CPublishArtifact k y)) w = (w', x) → only_row (a_id y) w w'.
Proof.
  cbn. intros [= <- _]. destruct (ev w _); [|done]. split; [done|]. split; [done|]. intros a' Ha'. unfold same_row. cbn.
  by rewrite lookup_insert_ne by done.
Qed.

Lemma stored_only actor w w' : only_row (a_id actor) w w' → world_evolves w w' →
  t_actors (w_tables w) = t_actors (w_tables w') → stored actor w → stored actor w'.
Proof.
  intros (E1 & E2 & E3) Hev Et [Ha Hx Hn]. split; [|by rewrite <- Et|by rewrite <- E1].
  intros a Hs Hne. eapply row_ok_same; [by apply Ha|by apply E3|done].
Qed.

Definition artifact_is (c : cell) (actor : Actor) (w : world) : Prop :=
  t_artifacts (w_tables w) !! a_id actor = Some (cell_key cf c, actor).

Lemma stable_artifact c actor H : _stripe_of (a_id actor) ∈ H → stable H (artifact_is c actor).
Proof. intros Hl w w' Hr. unfold artifact_is. by destruct (rely_row _ _ _ (a_id actor) Hl Hr) as (_ & _ & ->). Qed.

Section Publish.
Context (actor : Actor) (H : gset Z) (F : world → Prop).
Hypothesis (Hs : _stripe_of (a_id actor) ∈ H) (HF : frame H F).

(** Published, whatever the recorded cell. *)
Lemma triple_publish_artifact c : _cell_of cf actor = Ok c →
  triple (invoke (OpCall (CPublishArtifact (cell_key cf c) actor))) H
    (λ w, stored actor w ∧ cell_ok w (a_id actor) ∧ F w)
    (λ r w, stored actor w ∧ F w ∧ match r with
      | Ok _ => artifact_is c actor w
      | Err e => cell_ok w (a_id actor) ∧ ¬ reliable cf ev ∧ foreign cf ev e end).
Proof.
  intros Hc. eapply triple_bind with (R := λ r w, ∃ x, r = Ok x ∧ stored actor w ∧ F w ∧ match x with
      | Ok _ => artifact_is c actor w
      | Err e => cell_ok w (a_id actor) ∧ ¬ reliable cf ev ∧ foreign cf ev e end).
  2: { intros r. apply triple_result. intros w (x & [= <-] & Hw). destruct r; tauto. }
  2: { by intros e w (x & ? & _). }
  apply triple_call.
  { apply stable_and; [by apply stable_stored|]. apply stable_and; [by apply stable_cell_ok|by apply frame_stable]. }
  intros w w' x _ (Hst & Hcell & Hf) He. pose proof (publish_row _ _ _ _ _ He) as Hrow.
  pose proof (exec_world_evolves ev _ _ _ _ _ He) as Hev. pose proof Hrow as (E1 & E2 & E3). split.
  { intros l Hl. apply only_row_lock with (a_id actor); [done|]. by intros ->. }
  exists x. split; [done|]. cbn in He. injection He as Ew Ex. destruct (ev w _) as [n|e] eqn:E; subst w' x; cbn [publish_effect] in *.
  - split; [by apply stored_only with w|]. split; [by eapply HF|]. unfold artifact_is. cbn. by rewrite lookup_insert_eq.
  - split; [by apply stored_only with w|]. split; [by eapply HF|]. split; [by eapply cell_ok_same|]. split.
    + intros [_ Hr]. specialize (Hr w (cell_key cf c) actor). by rewrite E in Hr.
    + by eapply foreign_call.
Qed.

Lemma triple_cell_set c : _cell_of cf actor = Ok c →
  triple (tcall (OpCellSet (a_id actor) c)) H (λ w, stored actor w ∧ artifact_is c actor w ∧ F w)
    (λ r w, r = Ok tt ∧ rows_ok (_stripe_of (a_id actor)) w ∧ t_actors (w_tables w) !! a_id actor = Some actor ∧ F w).
Proof.
  intros Hc. apply triple_call.
  { apply stable_and; [by apply stable_stored|]. apply stable_and; [by apply stable_artifact|by apply frame_stable]. }
  intros w w' [] _ (Hst & Hart & Hf) He. pose proof (cell_set_row _ _ _ _ _ He) as Hrow.
  pose proof (exec_world_evolves ev _ _ _ _ _ He) as Hev. pose proof Hrow as (E1 & E2 & E3). split.
  { intros l Hl. apply only_row_lock with (a_id actor); [done|]. by intros ->. }
  split; [done|]. cbn in He. injection He as <-. split; [|split; [apply Hst|by eapply HF]].
  intros a Ha. apply (stored_rows actor); [by apply stored_only with w| |by eauto|done]. split; cbn; rewrite lookup_insert_eq; [|done].
  intros c' [= <-]. eauto.
Qed.
End Publish.

Lemma stable_found actor H : _stripe_of (a_id actor) ∈ H →
  stable H (λ w, t_actors (w_tables w) !! a_id actor = Some actor).
Proof. intros Hl w w' Hr. by destruct (rely_row _ _ _ (a_id actor) Hl Hr) as (-> & _). Qed.

Lemma stable_published actor H F : _stripe_of (a_id actor) ∈ H → frame H F →
  stable H (λ w, rows_ok (_stripe_of (a_id actor)) w ∧ t_actors (w_tables w) !! a_id actor = Some actor ∧ F w).
Proof.
  intros Hs HF. apply stable_and; [by apply stable_rows|]. apply stable_and; [by apply stable_found|by apply frame_stable].
Qed.

(** However the publish ends, the stripe is in order and the actor stays. *)
Lemma triple_publish actor H F : _stripe_of (a_id actor) ∈ H → _book_lock ∉ H → frame H F →
  triple (_publish_locked cf actor) H (λ w, stored actor w ∧ cell_ok w (a_id actor) ∧ F w)
    (λ r w, (rows_ok (_stripe_of (a_id actor)) w ∧ t_actors (w_tables w) !! a_id actor = Some actor ∧ F w) ∧ errs r).
Proof.
  intros Hs Hb HF. unfold _publish_locked. destruct (_cell_of cf actor) as [c|e] eqn:Hc; cbn [tresult].
  2: { apply triple_raise. intros w (Hst & Hcell & Hf). unfold _cell_of in Hc.
    destruct (Z.eqb_spec (cf_cell_size cf) 0) as [Hz|]; [|done]. injection Hc as <-. split; [|by apply foreign_zero].
    split; [|split; [apply Hst|done]]. intros a Ha. apply (stored_rows actor); [done..| |done]. by intros [? _]. }
  apply triple_value. cbn beta.
  eapply triple_bind; [apply triple_quiet; [apply quiet_cell|]| |by intros e w (_ & w0 & x & ? & _)].
  { apply stable_and; [by apply stable_stored|]. apply stable_and; [by apply stable_cell_ok|by apply frame_stable]. }
  intros old. eapply triple_bind.
  { eapply triple_conseq; [by apply (triple_publish_artifact actor H F Hs HF c)| |by intros r w Hw; apply Hw]. by intros w [Hw _]. }
  2: { intros e w (Hst & Hf & Hcell & Hr & He). split; [|done]. split; [|split; [apply Hst|done]].
    intros a Ha. by apply (stored_rows actor). }
  intros n. eapply triple_bind.
  { eapply triple_conseq; [by apply (triple_cell_set actor H F Hs HF c)| |by intros r w Hw; apply Hw]. cbn. tauto. }
  2: { by intros e w [? _]. }
  intros []. eapply triple_conseq; [apply triple_book; [done| |]|by intros w [_ Hw]; apply Hw|done].
  { by apply stable_published. }
  eapply triple_bind; [apply triple_book_op; [done| |apply dirty_add_book]| |done].
  { by apply stable_published. }
  intros []. eapply triple_pre; [|by intros w [Hw _]; exact Hw].
  destruct old as [old|]; [case_decide|]; try (by apply triple_ret).
  apply triple_book_op; [done|by apply stable_published|apply dirty_add_book].
Qed.
(** ** Movement *)

Lemma triple_actor_get a H F : _stripe_of a ∈ H → frame H F →
  triple (tcall (OpActorGet a)) H (λ w, rows_ok (_stripe_of a) w ∧ F w)
    (λ r w, ∃ x, r = Ok x ∧ (rows_ok (_stripe_of a) w ∧ F w) ∧ match x with
      | Some actor => a_id actor = a ∧ 1 ≤ a < c_next_actor_id (w_control w) ∧ a < 2 ^ 64
      | None => True end).
Proof.
  intros Hs HF. apply triple_call; [apply stable_and; [by apply stable_rows|by apply frame_stable]|].
  intros w w' x Hok (Hrows & Hf) [= <- <-]. split; [intros l _; by apply all_same_lock|]. eexists. split; [done|]. split; [done|].
  destruct (t_actors (w_tables w) !! a) as [actor|] eqn:E; [|done].
  destruct (row_actor _ _ _ _ (Hrows a eq_refl) actor E) as (Hid & Hn & _). unfold ids_fit in Hok. split; [done|]. lia.
Qed.

Lemma triple_actor_set a actor H F : a = a_id actor → _stripe_of a ∈ H → frame H F →
  triple (tcall (OpActorSet a actor)) H
    (λ w, rows_ok (_stripe_of a) w ∧ 1 ≤ a < c_next_actor_id (w_control w) ∧ F w)
    (λ r w, r = Ok tt ∧ stored actor w ∧ cell_ok w a ∧ F w).
Proof.
  intros -> Hs HF. set (a := a_id actor) in *. apply triple_call.
  { apply stable_and; [by apply stable_rows|]. apply stable_and; [|by apply frame_stable].
    intros w w' Hr. pose proof (rely_next _ _ _ Hr). lia. }
  intros w w' [] _ (Hrows & Hn & Hf) He. pose proof (actor_set_row _ _ _ _ _ He) as Hrow.
  pose proof (exec_world_evolves ev _ _ _ _ _ He) as Hev. pose proof Hrow as (E1 & E2 & E3). split.
  { intros l Hl. apply only_row_lock with a; [done|]. by intros ->. }
  split; [done|]. cbn in He. injection He as <-. split; [|split; [|by eapply HF]].
  - split; [|by cbn; rewrite lookup_insert_eq|done].
    intros a' Ha' Hne. eapply row_ok_same; [by apply Hrows|by apply E3|done].
  - destruct (Hrows a eq_refl). done.
Qed.

Lemma triple_apply actor inp H P : 0 ≤ a_id actor < 2 ^ 64 → stable H P →
  triple (invoke (OpModelApply actor inp)) H P
    (λ r w, P w ∧ match r with Ok y => a_id y = a_id actor | Err e => foreign cf ev e end).
Proof.
  intros Hid HP. eapply triple_bind; [apply triple_quiet; [apply quiet_apply|done]| |by intros e w (_ & w0 & y & ? & _)].
  intros r. apply triple_result. intros w (Hw & w0 & y & [= <-] & He). split; [done|].
  cbn in He. unfold on_model in He. destruct (im_apply_input _ _ _) as [m x] eqn:E. injection He as _ <-.
  destruct x as [y|e]; [by eapply im_apply_id|by eapply foreign_apply].
Qed.

Lemma triple_step actor dt H P : 0 ≤ a_id actor < 2 ^ 64 → stable H P →
  triple (invoke (OpModelStep [actor] dt)) H P
    (λ r w, P w ∧ match r with Ok ys => ∃ y, ys = [y] ∧ a_id y = a_id actor | Err e => foreign cf ev e end).
Proof.
  intros Hid HP. eapply triple_bind; [apply triple_quiet; [apply quiet_step|done]| |by intros e w (_ & w0 & y & ? & _)].
  intros r. apply triple_result. intros w (Hw & w0 & y & [= <-] & He). split; [done|].
  cbn in He. unfold on_model in He. destruct (im_step _ _ _) as [m x] eqn:E. injection He as _ <-.
  destruct x as [ys|e]; [|by eapply foreign_step].
  apply im_step_ids in E; [|by constructor]. destruct ys as [|y [|]]; try done. injection E as E. eauto.
Qed.

Lemma frame_True H : frame H (λ _, True).
Proof. done. Qed.

Lemma triple_movement a inp dt H : _stripe_of a ∈ H → _book_lock ∉ H →
  triple (_apply_movement_locked cf a inp dt) H (rows_ok (_stripe_of a)) (λ r w, rows_ok (_stripe_of a) w ∧ errs r).
Proof.
  intros Hs Hb. unfold _apply_movement_locked. set (P := λ w, rows_ok (_stripe_of a) w ∧ 1 ≤ a < c_next_actor_id (w_control w) ∧ True).
  assert (stable H P) as HP.
  { apply stable_and; [by apply stable_rows|]. intros w w' Hr. pose proof (rely_next _ _ _ Hr). lia. }
  eapply triple_bind; [eapply triple_pre; [by apply triple_actor_get, frame_True|done]| |by intros e w (x & ? & _)].
  intros [actor|]; [|by apply triple_ret; intros w (x & [= <-] & [? _] & _)].
  intros w0 (x & [= <-] & Hrows & Hid & Hn & Ha). assert (0 ≤ a < 2 ^ 64) as Hlt by lia. generalize (conj (proj1 Hrows) (conj Hn I) : P w0). clear Hrows Hn Ha. revert w0.
  eapply triple_bind; [apply triple_apply; [by rewrite Hid|done]| |by intros e w [[? _] ?]].
  intros applied. intros w0 [Hw Happ]. revert w0 Hw.
  eapply triple_bind; [apply triple_step; [by rewrite Happ, Hid|done]| |by intros e w [[? _] ?]].
  intros actors w0 [Hw (y & -> & Hy)]. revert w0 Hw. cbn [first_actor tresult]. apply triple_value.
  eapply triple_bind; [by apply triple_actor_set; [congruence| |apply frame_True]| |by intros e w [? _]].
  intros []. eapply triple_bind.
  - eapply triple_pre; [apply (triple_publish y H (λ _, True)); [by rewrite Hy, Happ, Hid|done|apply frame_True]|].
    rewrite Hy, Happ, Hid. tauto.
  - intros []. apply triple_ret. rewrite Hy, Happ, Hid. tauto.
  - intros e w. rewrite Hy, Happ, Hid. tauto.
Qed.
(** ** Lifecycle records *)

Lemma bound_unbind s p binds s' a : bound_to (unbind s p binds) s' a ↔ bound_to binds s' a ∧ ¬ (s' = s ∧ a = p).
Proof.
  unfold unbind, bound_to. destruct (binds !! p) as [held|] eqn:E.
  2: { split; [|tauto]. intros (h & Hh & Hs). split; [by eauto|]. intros [-> ->]. congruence. }
  destruct (decide (a = p)) as [->|Hne].
  - rewrite E. case_decide as Hd; rewrite ?lookup_delete_eq, ?lookup_insert_eq.
    + split; [by intros (h & ? & _)|]. intros [(h & <-%(inj Some) & Hs) Hn]. assert (s' ≠ s) by tauto. exfalso. set_solver.
    + split; [intros (h & <-%(inj Some) & Hs); set_solver|]. intros [(h & <-%(inj Some) & Hs) Hn]. assert (s' ≠ s) by tauto.
      eexists. split; [done|]. set_solver.
  - assert ((if decide (held ∖ {[s]} = ∅) then delete p binds else <[p := held ∖ {[s]}]> binds) !! a = binds !! a) as ->.
    { case_decide; [by rewrite lookup_delete_ne by done|by rewrite lookup_insert_ne by done]. }
    naive_solver.
Qed.

Lemma held_unbind s p binds : (∀ a, binds !! a ≠ Some ∅) → ∀ a, unbind s p binds !! a ≠ Some ∅.
Proof.
  unfold unbind. intros Hh a. destruct (binds !! p) as [held|] eqn:E; [|done]. destruct (decide (a = p)) as [->|Hne].
  - case_decide; [by rewrite lookup_delete_eq|]. rewrite lookup_insert_eq. by intros ?%(inj Some).
  - case_decide; [rewrite lookup_delete_ne by done|rewrite lookup_insert_ne by done]; apply Hh.
Qed.

Lemma bound_add s a binds s' a' :
  bound_to (<[a := {[s]} ∪ default ∅ (binds !! a)]> binds) s' a' ↔ (s' = s ∧ a' = a) ∨ bound_to binds s' a'.
Proof.
  unfold bound_to. destruct (decide (a' = a)) as [->|Hne].
  - rewrite lookup_insert_eq. split.
    + intros (h & <-%(inj Some) & Hs). apply elem_of_union in Hs as [->%elem_of_singleton|Hs]; [by left|right].
      destruct (binds !! a) as [held|]; [by eauto|set_solver].
    + intros [[-> _]|(h & -> & Hs)]; eexists; (split; [done|]); set_solver.
  - rewrite lookup_insert_ne by done. naive_solver.
Qed.

Lemma record_bind_ok s a c : binds_ok c → binds_ok (record_bind s a c).
Proof.
  intros [Hi Hh]. unfold record_bind. case_decide as Hd; [done|].
  set (binds := match c_session_actors c !! s with None => _ | Some p => _ end).
  assert (∀ s' a', bound_to binds s' a' ↔ bound_to (c_actor_binds c) s' a' ∧ s' ≠ s) as Hb.
  { intros s' a'. subst binds. destruct (c_session_actors c !! s) as [p|] eqn:E.
    - rewrite bound_unbind. split; intros [Hb Hn]; (split; [done|]); [|tauto]. intros ->. apply Hn. split; [done|].
      apply Hi in Hb. congruence.
    - split; [|tauto]. intros Hb. split; [done|]. intros ->. apply Hi in Hb. congruence. }
  split; cbn [c_session_actors c_actor_binds].
  - intros s' a'. rewrite bound_add, Hb. destruct (decide (s' = s)) as [->|Hne].
    + rewrite lookup_insert_eq. naive_solver.
    + rewrite lookup_insert_ne by done. rewrite Hi. naive_solver.
  - intros a'. destruct (decide (a' = a)) as [->|Hne].
    + rewrite lookup_insert_eq. intros E%(inj Some). set_solver.
    + rewrite lookup_insert_ne by done. subst binds. destruct (c_session_actors c !! s); [by apply held_unbind|done].
Qed.

Lemma session_gone_ok s c : binds_ok c → binds_ok (session_gone s c).
Proof.
  intros [Hi Hh]. unfold session_gone. destruct (c_session_actors c !! s) as [p|] eqn:E; [|done].
  split; cbn [c_session_actors c_actor_binds]; [|by apply held_unbind].
  intros s' a'. rewrite bound_unbind. destruct (decide (s' = s)) as [->|Hne].
  - rewrite lookup_delete_eq. split; [done|]. intros [Hb Hn]. apply Hi in Hb. exfalso. apply Hn. split; [done|congruence].
  - rewrite lookup_delete_ne by done. rewrite Hi. tauto.
Qed.
(** ** The control lock *)

Lemma control_inv w : lock_inv cf ev _control_lock w ↔ control_ok w.
Proof.
  split; [intros (Hc & _); by apply Hc|]. intros Hc. split; [done|]. split.
  - intros a E. exfalso. stripe_ranges. lia.
  - intros E. unfold _book_lock, _control_lock, STRIPE_COUNT in E. lia.
Qed.

Lemma stripe_inv a w : lock_inv cf ev (_stripe_of a) w ↔ rows_ok (_stripe_of a) w.
Proof.
  split; [by intros (_ & Hr & _)|]. intros Hr. split; [|split; [done|]].
  - intros E. exfalso. stripe_ranges. lia.
  - intros E. exfalso. stripe_ranges. lia.
Qed.

Lemma rely_control H w w' : _control_lock ∈ H → rely H w w' → w_control w = w_control w'.
Proof. intros Hl [_ Hs]. by apply (Hs _control_lock). Qed.

Lemma stable_control H : _control_lock ∈ H → stable H control_ok.
Proof. intros Hl w w' Hr Hc. eapply control_ok_same; [done|by eapply rely_control|apply Hr]. Qed.

(** An operation on the lifecycle records alone. *)
Lemma triple_control {A : Set} (o : op A) (P : world → Prop) (Q : result A → world → Prop) :
  stable ({[_control_lock]} ∪ ∅) P →
  (∀ w w' x, P w → exec ev A o w = (w', x) → w_tables w = w_tables w' ∧ w_book w = w_book w' ∧ Q (Ok x) w') →
  triple (tcall o) ({[_control_lock]} ∪ ∅) P Q.
Proof.
  intros HP Ho. apply triple_call; [done|]. intros w w' x _ Hw He. destruct (Ho w w' x Hw He) as (E1 & E2 & Hq).
  split; [|done]. intros l Hl. split; [|split; [|done]].
  - intros ->. set_solver.
  - intros a _. by unfold same_row; rewrite E1.
Qed.

(** What is held stays true, and only what comes from outside fails. *)
Definition keeps {A} (H : gset Z) (P : world → Prop) (p : prog A) : Prop := triple p H P (λ r w, P w ∧ errs r).

(** Holding no lock before and after. *)
Abbreviation plain p := (keeps ∅ (λ _, True) p).

Lemma keeps_bind {A B} H P (p : prog A) (k : A → prog B) :
  keeps H P p → (∀ x, keeps H P (k x)) → keeps H P (p ≫= k).
Proof.
  intros Hp Hk. eapply triple_bind; [apply Hp| |done]. intros x. eapply triple_pre; [apply Hk|by intros w [? _]].
Qed.

Lemma keeps_ret {A} H P (x : A) : keeps H P (mret x).
Proof. by apply triple_ret. Qed.

Lemma keeps_result {A} H P (r : result A) : errs r → keeps H P (tresult r).
Proof. intros Hr. by apply triple_result. Qed.

Lemma keeps_suppress H P caught p : keeps H P p → keeps H P (suppress caught p).
Proof.
  intros Hp. eapply triple_catch; [apply Hp| |done]. intros e. destruct (caught e).
  - apply triple_ret. by intros w [? _].
  - by apply triple_raise.
Qed.

Lemma keeps_each {A} H P (xs : list A) f : (∀ x, keeps H P (f x)) → keeps H P (teach xs f).
Proof. intros Hf. induction xs as [|x xs IH]; [apply keeps_ret|]. apply keeps_bind; [apply Hf|done]. Qed.

Lemma keeps_outside H P c : publishes c = false → stable H P → keeps H P (invoke (OpCall c)).
Proof. apply triple_outside. Qed.

Lemma keeps_book {A : Set} H P (o : op A) : _book_lock ∉ H → stable H P →
  (∀ w w' x, exec ev A o w = (w', x) →
    w_tables w = w_tables w' ∧ w_control w = w_control w' ∧ (book_ok w → book_ok w')) →
  keeps H P (with_lock _book_lock (tcall o)).
Proof. intros Hb HP Ho. apply triple_book; [done..|]. by apply triple_book_op. Qed.

Lemma plain_book {A : Set} (o : op A) : (∀ w w' x, exec ev A o w = (w', x) →
    w_tables w = w_tables w' ∧ w_control w = w_control w' ∧ (book_ok w → book_ok w')) →
  plain (with_lock _book_lock (tcall o)).
Proof. apply keeps_book; [set_solver|apply stable_pure]. Qed.

Lemma plain_outside c : publishes c = false → plain (invoke (OpCall c)).
Proof. intros Hc. apply keeps_outside; [done|apply stable_pure]. Qed.

Lemma plain_record e : plain (record cf e).
Proof. apply triple_record, stable_pure. Qed.

Lemma triple_locked {A} (body : prog A) :
  keeps ({[_control_lock]} ∪ ∅) control_ok body → plain (with_lock _control_lock body).
Proof.
  intros Hb. apply triple_with; [set_solver|done|intros; apply stable_and; apply stable_pure|].
  eapply triple_conseq; [apply Hb| |]; cbn; intros *; rewrite control_inv; tauto.
Qed.

Lemma triple_striped {A} a (body : prog A) :
  keeps ({[_stripe_of a]} ∪ ∅) (rows_ok (_stripe_of a)) body → plain (with_lock (_stripe_of a) body).
Proof.
  intros Hb. apply triple_with; [set_solver|done|intros; apply stable_and; apply stable_pure|].
  eapply triple_conseq; [apply Hb| |]; cbn; intros *; rewrite stripe_inv; tauto.
Qed.

Lemma plain_record_bind s a : plain (_record_bind s a).
Proof.
  apply keeps_bind; [by apply plain_outside|]. intros n. apply triple_locked. apply triple_control; [apply stable_control; set_solver|].
  intros w w' x Hc [= <- <-]. split; [done|]. split; [done|]. split; [|done]. destruct Hc as [Hn Hp Ha Hl Hb].
  pose proof (record_bind_ok s a _ Hb) as Hb'. unfold record_bind in *. case_decide; by split.
Qed.

Lemma plain_destroyed s : plain (on_session_destroyed s).
Proof.
  apply triple_locked. apply triple_control; [apply stable_control; set_solver|].
  intros w w' x Hc [= <- <-]. split; [done|]. split; [done|]. split; [|done]. destruct Hc as [Hn Hp Ha Hl Hb].
  pose proof (session_gone_ok s _ Hb) as Hb'. unfold session_gone in *. case_match; by split.
Qed.

(** ** Spawning *)

(** The lifecycle records, while actor [a] may not be in the table yet. *)
Record control_but (a : Z) (w : world) : Prop := {
  cb_next : 1 ≤ a < c_next_actor_id (w_control w);
  cb_principals : NoDup (fst <$> c_principals (w_control w));
  cb_actors : NoDup (snd <$> c_principals (w_control w));
  cb_live p a' : (p, a') ∈ c_principals (w_control w) →
    1 ≤ a' < c_next_actor_id (w_control w) ∧ (a' ≠ a → is_Some (t_actors (w_tables w) !! a'));
  cb_binds : binds_ok (w_control w);
}.

Lemma control_but_frame a H : _control_lock ∈ H → frame H (control_but a).
Proof.
  intros Hl w w' [_ Hev] Hc [Hn Hp Ha Hv Hb]. split; rewrite <- ?(Hc Hl); try done.
  intros p a' Hin. destruct (Hv p a' Hin). auto.
Qed.

Lemma control_but_ok a w : control_but a w → is_Some (t_actors (w_tables w) !! a) → control_ok w.
Proof.
  intros [Hn Hp Ha Hl Hb] Hx. split; [lia|done..| |done]. intros p a' Hin. destruct (Hl p a' Hin) as [? Hv].
  split; [done|]. destruct (decide (a' = a)) as [->|Hne]; auto.
Qed.

Lemma principal_get_some p a ps : principal_get p ps = Some a → (p, a) ∈ ps.
Proof.
  unfold principal_get. intros Hg. destruct (filter _ ps) as [|[p' a'] l] eqn:E; [done|]. injection Hg as ->.
  assert ((p', a) ∈ filter (λ q, fst q = p) ps) as Hin by (rewrite E; left). apply list_elem_of_filter in Hin as [<- ?]. done.
Qed.

Lemma principal_get_none p ps : principal_get p ps = None → p ∉ ps.*1.
Proof.
  unfold principal_get. intros Hg ((p' & a) & Ep & Hin)%list_elem_of_fmap. cbn in Ep. subst p'.
  destruct (filter _ ps) as [|[p0 a0] l] eqn:E; [|done].
  assert ((p, a) ∈ filter (λ q, fst q = p) ps) as Hf by (by apply list_elem_of_filter). rewrite E in Hf.
  by apply elem_of_nil in Hf.
Qed.

(** A new id and a new principal. *)
Record allotted (p a : Z) (w : world) : Prop := {
  al_control : control_ok w;
  al_id : 1 ≤ a < c_next_actor_id (w_control w);
  al_principal : p ∉ (c_principals (w_control w)).*1;
  al_actor : a ∉ (c_principals (w_control w)).*2;
}.

Lemma stable_control_only H (P : world → Prop) : _control_lock ∈ H →
  (∀ w w', w_control w = w_control w' → P w → P w') → stable H (λ w, control_ok w ∧ P w).
Proof.
  intros Hl HP. apply stable_and; [by apply stable_control|]. intros w w' Hr. apply HP. by eapply rely_control.
Qed.

Lemma stable_allotted p a H : _control_lock ∈ H → stable H (allotted p a).
Proof.
  intros Hl w w' Hr [Hc Hi Hp Ha]. pose proof (rely_control _ _ _ Hl Hr) as E.
  split; [by eapply (stable_control H Hl)|by rewrite <- E..].
Qed.

Lemma triple_alloc p :
  triple (tcall OpAllocId) ({[_control_lock]} ∪ ∅)
    (λ w, control_ok w ∧ p ∉ (c_principals (w_control w)).*1)
    (λ r w, ∃ a, r = Ok a ∧ allotted p a w).
Proof.
  apply triple_control; [apply stable_control_only; [set_solver|by intros w w' ->]|].
  intros w w' x [[Hn Hp Ha Hl Hb] Hnew] [= <- <-]. split; [done|]. split; [done|]. eexists. split; [done|].
  split; cbn; [|lia|done|].
  - split; cbn; [lia|done|done| |by destruct Hb; split]. intros p' a' Hin. destruct (Hl p' a' Hin). split; [lia|done].
  - intros ((p' & a') & E & Hin)%list_elem_of_fmap. cbn in E. destruct (Hl p' a' Hin). lia.
Qed.

Lemma triple_enter p a :
  triple (tcall (OpPrincipalSet p a)) ({[_control_lock]} ∪ ∅) (allotted p a) (λ r w, r = Ok tt ∧ control_but a w).
Proof.
  apply triple_control; [apply stable_allotted; set_solver|].
  intros w w' [] [[Hn Hp Ha Hl Hb] Hid Hnp Hna] [= <-]. split; [done|]. split; [done|]. split; [done|].
  split; cbn; [done|..].
  - rewrite fmap_app. apply NoDup_app. split; [done|]. split; [|apply NoDup_singleton]. set_solver.
  - rewrite fmap_app. apply NoDup_app. split; [done|]. split; [|apply NoDup_singleton]. set_solver.
  - intros p' a' [Hin|[= -> ->]%list_elem_of_singleton]%elem_of_app; [|done]. destruct (Hl p' a' Hin). auto.
  - destruct Hb. by split.
Qed.

(** The new actor, stored and published under its stripe. *)
Lemma triple_fresh a actor : a = a_id actor →
  triple (with_lock (_stripe_of a) (tcall (OpActorSet a actor);; _publish_locked cf actor)) ({[_control_lock]} ∪ ∅)
    (control_but a) (λ r w, control_ok w ∧ errs r).
Proof.
  intros Ea. assert (_control_lock ≠ _stripe_of a) as Hne by (stripe_ranges; lia).
  assert (_book_lock ∉ ({[_stripe_of a]} ∪ ({[_control_lock]} ∪ ∅) : gset Z)) as Hb.
  { intros Hin. repeat (apply elem_of_union in Hin as [Hin|Hin]); try (apply elem_of_singleton in Hin); [stripe_ranges; lia..|].
    by apply elem_of_empty in Hin. }
  assert (frame ({[_stripe_of a]} ∪ ({[_control_lock]} ∪ ∅)) (control_but a)) as HF by (apply control_but_frame; set_solver).
  apply triple_with; [set_solver| | |].
  { apply frame_stable, control_but_frame. set_solver. }
  { intros r. apply stable_and; [apply stable_control; set_solver|apply stable_pure]. }
  eapply triple_bind; [eapply triple_pre; [apply (triple_actor_set a actor _ (control_but a) Ea); [set_solver|done]|]| |by intros e w [? _]].
  { intros w [Hw Hi]. apply stripe_inv in Hi. split; [done|]. split; [apply Hw|done]. }
  intros []. subst a. eapply triple_conseq; [apply (triple_publish actor _ (control_but (a_id actor))); [set_solver|done|done]| |].
  { tauto. }
  cbn. intros r w [(Hrows & Hx & Hc) He]. rewrite stripe_inv. split; [done|]. split; [|done].
  apply (control_but_ok (a_id actor)); [done|by eauto].
Qed.

Lemma triple_spawn p :
  keeps ({[_control_lock]} ∪ ∅) control_ok (spawn_locked cf p).
Proof.
  unfold spawn_locked. eapply triple_bind with (R := λ r w, ∃ x, r = Ok x ∧ control_ok w ∧ match x with
    | Some a => ∃ p, (p, a) ∈ c_principals (w_control w) | None => p ∉ (c_principals (w_control w)).*1 end).
  - apply triple_control; [apply stable_control; set_solver|]. intros w w' x Hc [= <- <-]. split; [done|]. split; [done|].
    eexists. split; [done|]. split; [done|]. destruct (principal_get _ _) eqn:E; [|by apply principal_get_none].
    exists p. by apply principal_get_some.
  - intros [a|].
    + eapply triple_pre with (P := λ w, control_ok w ∧ ∃ p, (p, a) ∈ c_principals (w_control w)); [|by intros w (x & [= <-] & Hw)].
      eapply triple_bind with (R := λ r w, ∃ x, r = Ok x ∧ control_ok w ∧ is_Some x); [| |by intros e w (x & ? & _)].
      * apply triple_control; [apply stable_control_only; [set_solver|by intros w w' ->]|].
        intros w w' x [Hc [p' Hin]] [= <- <-]. split; [done|]. split; [done|]. eexists. split; [done|]. split; [done|].
        by apply (ctl_live _ Hc p' a).
      * intros [actor|]; [|by intros w (x & [= <-] & _ & [? ?])]. apply triple_ret. by intros w (x & _ & ? & _).
    + eapply triple_bind; [eapply triple_pre; [apply (triple_alloc p)|by intros w (x & [= <-] & Hw)]| |by intros e w (x & ? & _)].
      intros a. eapply triple_bind; [eapply triple_pre; [apply (triple_enter p a)|by intros w (x & [= <-] & Hw)]| |by intros e w [? _]].
      intros []. eapply triple_bind; [eapply triple_pre; [by apply triple_fresh|by intros w [_ Hw]]| |done].
      intros []. by apply triple_ret.
  - by intros e w (x & ? & _).
Qed.
(** ** Handlers *)

Lemma plain_spawn p : plain (spawn_actor cf p).
Proof.
  apply keeps_bind; [apply triple_locked, triple_spawn|]. intros [[|] actor]; (apply keeps_bind; [|intros; apply keeps_ret]).
  - apply plain_record.
  - apply keeps_ret.
Qed.

Lemma errs_cell actor : errs (_cell_of cf actor).
Proof. unfold _cell_of. destruct (Z.eqb_spec (cf_cell_size cf) 0); [by apply foreign_zero|done]. Qed.

Lemma book_apart a : _book_lock ∉ ({[_stripe_of a]} ∪ ∅ : gset Z).
Proof. rewrite union_empty_r_L. intros Hin%elem_of_singleton. stripe_ranges. lia. Qed.

Lemma plain_move a inp dt : plain (apply_movement cf a inp dt).
Proof.
  apply keeps_bind; [apply triple_striped, triple_movement; [set_solver|apply book_apart]|]. intros [x|]; [|apply keeps_ret].
  apply keeps_bind; [apply plain_record|intros; apply keeps_ret].
Qed.

Lemma plain_teleport a x y : plain (teleport_actor cf a x y).
Proof.
  assert (_stripe_of a ∈ ({[_stripe_of a]} ∪ ∅ : gset Z)) as Hs by set_solver. pose proof (book_apart a) as Hb.
  apply triple_striped. eapply triple_bind; [eapply triple_pre; [by apply triple_actor_get, frame_True|done]| |by intros e w (z & ? & _)].
  intros [actor|]; [|by apply triple_ret; intros w (z & [= <-] & [? _] & _)].
  intros w0 (z & [= <-] & [Hrows _] & Hid & Hn & _). generalize (conj Hrows (conj Hn I)). clear Hrows Hn. revert w0.
  eapply triple_bind; [apply triple_actor_set; [by symmetry|done|apply frame_True]| |by intros e w [? _]].
  set (u := mkActor _ _ _ _ _ _ _ _ _ _). assert (a_id u = a) as Hu by done. clearbody u. clear Hid. subst a.
  intros []. eapply triple_bind.
  - eapply triple_pre; [apply (triple_publish u _ (λ _, True)); [done|done|apply frame_True]|]. cbn. tauto.
  - intros []. apply triple_ret. cbn. tauto.
  - intros e w. cbn. tauto.
Qed.

Lemma keeps_quiet {A : Set} H P (o : op A) : quiet o → stable H P → keeps H P (tcall o).
Proof.
  intros Ho HP. eapply triple_conseq; [by apply triple_quiet|done|]. by intros r w (Hw & w0 & x & -> & _).
Qed.

Lemma plain_state a : plain (actor_state a).
Proof. apply triple_striped, keeps_quiet; [apply quiet_get|apply stable_rows; set_solver]. Qed.

Lemma plain_mark c : plain (_mark_dirty cf c).
Proof. apply plain_book, dirty_add_book. Qed.

Lemma plain_flush t : plain (flush_dirty_cells t).
Proof.
  apply keeps_bind; [apply plain_book, dirty_drain_book|]. intros cells. apply keeps_each. intros k.
  apply keeps_bind; [apply plain_book, epoch_bump_book|]. intros e. apply keeps_suppress.
  apply keeps_bind; [by apply plain_outside|intros; apply keeps_ret].
Qed.

Lemma plain_login payload s : plain (on_login cf payload s).
Proof.
  unfold on_login. destruct (zlen payload <? LOGIN_PAYLOAD_LEN) eqn:E; [apply keeps_ret|].
  apply decode_login_enough in E as [p ->].
  apply keeps_bind; [by apply keeps_result|]. intros p'. apply keeps_bind; [apply plain_spawn|]. intros actor.
  apply keeps_bind; [apply plain_record_bind|]. intros []. apply keeps_bind; [apply keeps_result, errs_cell|]. intros c.
  apply keeps_bind; [by apply plain_outside|intros; apply keeps_ret].
Qed.

Lemma plain_chat payload s : plain (on_chat cf payload s).
Proof.
  unfold on_chat, decode_chat. pose proof (decode_chat_upto_bounded CHAT_MAX_TEXT payload) as Hd.
  destruct (decode_chat_upto CHAT_MAX_TEXT payload) as [[a text]|e].
  - apply keeps_bind; [apply plain_state|]. intros [actor|]; [|apply keeps_ret].
    apply keeps_bind; [apply keeps_result, errs_cell|]. intros c. apply keeps_bind; [|intros; apply plain_mark].
    apply keeps_suppress. apply keeps_bind; [by apply plain_outside|intros; apply keeps_ret].
  - cbn in Hd. rewrite Hd. apply keeps_ret.
Qed.
Lemma keeps_diff H P s actor old : stable H P → keeps H P (_diff_window cf s actor old).
Proof.
  intros HP. unfold _diff_window. apply keeps_bind; [apply keeps_result, errs_cell|]. intros new.
  apply keeps_bind; [|intros []]; apply keeps_each; intros k;
    (apply keeps_bind; [by apply keeps_outside|intros; apply keeps_ret]).
Qed.

(** An error of [info] ends the handler quietly. *)
Lemma keeps_input a inp s : keeps ({[_stripe_of a]} ∪ ∅) (rows_ok (_stripe_of a)) (input_locked cf a inp s).
Proof.
  assert (_stripe_of a ∈ ({[_stripe_of a]} ∪ ∅ : gset Z)) as Hs by set_solver. pose proof (book_apart a) as Hb.
  pose proof (stable_rows (_stripe_of a) _ Hs) as HP.
  apply keeps_bind; [by apply keeps_quiet; [apply quiet_get|]|]. intros [before|]; [|apply keeps_ret].
  apply keeps_bind; [by apply triple_movement|]. intros [stepped|]; [|apply keeps_ret].
  apply keeps_bind.
  { eapply triple_catch; [apply keeps_bind; [by apply keeps_outside|]; intros; apply keeps_ret| |done].
    intros e. apply triple_ret. by intros w [? _]. }
  intros [bound|]; [|apply keeps_ret]. apply keeps_bind; [|intros; apply keeps_ret]. destruct (bound =? a).
  - apply keeps_bind; [apply keeps_result, errs_cell|]. intros old. apply keeps_bind; [apply keeps_result, errs_cell|].
    intros new. case_decide; [apply keeps_ret|by apply keeps_diff].
  - apply keeps_book; [done..|apply gate_drop_book].
Qed.

Lemma plain_input payload s : plain (on_actor_input cf payload s).
Proof.
  unfold on_actor_input. destruct (zlen payload <? ACTOR_INPUT_PAYLOAD_LEN) eqn:E; [apply keeps_ret|].
  apply decode_input_long in E as (a & inp & ->). apply keeps_bind; [by apply keeps_result|]. intros [a' inp'].
  apply keeps_bind; [apply triple_striped, keeps_input|]. intros [|]; [apply plain_record|apply keeps_ret].
Qed.

(** ** Snapshots *)

Lemma keeps_with {A} l (body : prog A) H P : l ∉ H → stable H P →
  keeps ({[l]} ∪ H) (λ w, P w ∧ lock_inv cf ev l w) body → keeps H P (with_lock l body).
Proof.
  intros Hl HP Hb. apply triple_with; [done..|intros r; apply stable_and; [done|apply stable_pure]|].
  eapply triple_conseq; [apply Hb|done|]. cbn. tauto.
Qed.

(** A body that only reads may run under any locks. *)
Definition reads {A} (body : prog A) : Prop := ∀ H P, stable H P → keeps H P body.

Lemma reads_quiet {A : Set} (o : op A) : quiet o → reads (tcall o).
Proof. intros Ho H P. by apply keeps_quiet. Qed.

Lemma reads_with {A} l (body : prog A) H P : l ∉ H → stable H P → reads body → keeps H P (with_lock l body).
Proof.
  intros Hl HP Hb. apply keeps_with; [done..|]. apply Hb. apply stable_and; [by apply stable_more|].
  apply stable_inv. set_solver.
Qed.

Lemma reads_with_locks {A} n i (body : prog A) H P : (∀ l, l ∈ H → l < i) → stable H P → reads body →
  keeps H P (with_locks (seqZ i (Z.of_nat n)) body).
Proof.
  revert i H P. induction n as [|n IH]; intros i H P HH HP Hb; [by apply Hb|].
  rewrite seqZ_cons by lia. replace (Z.pred (Z.of_nat (S n))) with (Z.of_nat n) by lia. cbn [with_locks].
  apply keeps_with; [by intros Hin%HH; lia|done|]. apply IH; [|apply stable_and|done].
  - intros l [->%elem_of_singleton|Hl%HH]%elem_of_union; lia.
  - by apply stable_more.
  - apply stable_inv. set_solver.
Qed.

Lemma plain_states : plain actor_states.
Proof.
  apply keeps_with; [set_solver|apply stable_pure|]. unfold _stripes. change STRIPE_COUNT with (Z.of_nat 64).
  apply reads_with_locks; [below|apply stable_and; [apply stable_pure|apply stable_inv; set_solver]|].
  apply reads_quiet. intros w w' x [= <- <-]. done.
Qed.

Lemma plain_stats : plain binding_stats.
Proof.
  apply keeps_with; [set_solver|apply stable_pure|]. apply reads_with.
  - unfold _control_lock, _book_lock, STRIPE_COUNT. set_solver by lia.
  - apply stable_and; [apply stable_pure|apply stable_inv; set_solver].
  - intros H P HP. apply keeps_bind; [|intros drops; apply keeps_bind; [|intros []; apply keeps_ret]];
      (apply keeps_quiet; [by intros w w' x [= <- <-]|done]).
Qed.

(** Every request keeps the invariants. *)
Lemma plain_handle r : plain (handle cf r).
Proof.
  destruct r as [ty payload s|s|t|p|a inp dt|a x y|a| |]; cbn [handle]; unfold ignore.
  - unfold registered. repeat case_match; simplify_eq; [apply plain_login|apply plain_input|apply plain_chat|apply keeps_ret].
  - apply plain_destroyed.
  - apply plain_flush.
  - apply keeps_bind; [apply plain_spawn|intros; apply keeps_ret].
  - apply keeps_bind; [apply plain_move|intros; apply keeps_ret].
  - apply keeps_bind; [apply plain_teleport|intros; apply keeps_ret].
  - apply keeps_bind; [apply plain_state|intros; apply keeps_ret].
  - apply keeps_bind; [apply plain_states|intros; apply keeps_ret].
  - apply keeps_bind; [apply plain_stats|intros; apply keeps_ret].
Qed.
(** ** The server *)

Lemma world_init_inv m l : lock_inv cf ev l (world_init m).
Proof.
  split; [|split].
  - intros _. split; cbn; [lia|constructor|constructor|by intros p a Hin%elem_of_nil|].
    split; [|done]. intros s a. cbn. rewrite lookup_empty. split; [done|]. by intros (h & Hh & _).
  - intros a _. by split.
  - intros _. by split.
Qed.

Lemma init_guarded m : pool_guarded (GS := spatial_guards cf ev) (exec ev) (foreign cf ev) (mkTpool (world_init m) [] []).
Proof.
  split; cbn; [by intros t Ht%elem_of_nil|by intros t Ht%elem_of_nil| |done|by intros e He%elem_of_nil].
  intros l _. apply world_init_inv.
Qed.

(** C5: Whatever the gateway, the recorder and the session facade answer, and
    however many handler calls, movement calls, teleports, session ends and
    flushes run concurrently: at every moment, each lock no thread holds
    guards consistent data. The control lock: principals and actors are one to
    one, every bound actor is live, sessions and actors are bound to each
    other mutually. A stripe: the recorded cell of each of its actors is the
    cell the actor's latest artifact is published in, and that artifact is the
    stored actor itself when publishing cannot fail. The book lock: epochs are
    positive. Every exception a thread ends with is one an outside call
    returned, the movement model's own, or that of dividing by a cell size of
    zero. (For a lawful movement model, and while actor ids fit 64 bits.) *)
Theorem spatial_invariant m q :
  rtc (serve_step (exec ev) (requested cf)) (mkTpool (world_init m) [] []) q → ids_fit (tp_world q) →
  (∀ l, lock_free l (tp_threads q) → lock_inv cf ev l (tp_world q)) ∧ (∀ e, e ∈ tp_failed q → foreign cf ev e).
Proof.
  intros Hq Hok.
  assert (pool_guarded (GS := spatial_guards cf ev) (exec ev) (foreign cf ev) q) as [_ _ Hf _ He]; [|by split].
  eapply serve_guarded; [|done..|apply init_guarded]. intros p w [r ->]. split; [apply handle_locks|].
  eapply guarded_post; [by apply plain_handle|]. intros x H w' [_ [_ He]]. by destruct x.
Qed.
End Handlers.
