(* ===== verification/SpatialWindow.v ===== *)
(** * Windows and ticks of the spatial server

    What a cell crossing asks of the session's window, and what a tick does
    with the dirty cells. *)

From S2P Require Import Prelude Outcome PyStruct PyText PyWire Threads SpatialCodec Spatial.

#[local] Open Scope Z_scope.

(** ** Definitions *)

(** The cells within the radius along each axis. *)
Definition in_reach (cf : config) (c : cell) (k : CellKey) : Prop :=
  let '(x, y, z) := c in let r := cf_cell_radius cf in
  ck_zone k = cf_zone_id cf ∧ ck_lod k = 0 ∧ Z.abs (ck_x k - x) ≤ r ∧ Z.abs (ck_y k - y) ≤ r ∧ Z.abs (ck_z k - z) ≤ r.

(** A session's window after calls, as the calls are documented: an accepted
    add enters a cell, an accepted remove drops it. *)
Definition window_call (s : Z) (W : gset CellKey) (c : call * result Z) : gset CellKey :=
  match c with
  | (CWindowAdd s' k, Ok _) => if s' =? s then {[k]} ∪ W else W
  | (CWindowRemove s' k, Ok _) => if s' =? s then W ∖ {[k]} else W
  | _ => W
  end.

Definition window_after (s : Z) (W : gset CellKey) (cs : list (call * result Z)) : gset CellKey :=
  fold_left (window_call s) cs W.

(** The world after further calls that change nothing in it. *)
Definition logged `{IM : InputModel} (cs : list (call * result Z)) (w : world) : world :=
  mkWorld (w_tables w) (w_control w) (w_book w) (w_model w)
    (mkOutside (o_calls (w_outside w) ++ cs) (o_events (w_outside w))).

Definition is_window (c : call) : bool := match c with CWindowAdd _ _ | CWindowRemove _ _ => true | _ => false end.

Definition epoch_of (b : book) (k : CellKey) : Z := default 0 (b_cell_epochs b !! k).

Section Window.
Context `{IM : InputModel} (cf : config) (ev : env).

Lemma axis_range_spec c x : x ∈ axis_range cf c ↔ Z.abs (x - c) ≤ cf_cell_radius cf.
Proof.
  unfold axis_range. rewrite list_elem_of_fmap. setoid_rewrite elem_of_seqZ. split.
  - intros (d & -> & Hd). lia.
  - intros Hx. exists (x - c). lia.
Qed.

Lemma neighborhood_spec c k : k ∈ _neighborhood cf c ↔ in_reach cf c k.
Proof.
  destruct c as [[cx cy] cz], k as [zone x y z lod]. cbn [_neighborhood in_reach ck_zone ck_x ck_y ck_z ck_lod].
  rewrite list_elem_of_bind. split.
  - intros (x' & (y' & (z' & Hk & Hz)%list_elem_of_bind & Hy)%list_elem_of_bind & Hx).
    apply list_elem_of_singleton in Hk. cbn in Hk. simplify_eq. rewrite axis_range_spec in *. done.
  - intros (-> & -> & Hx & Hy & Hz). exists x. rewrite list_elem_of_bind, axis_range_spec. split; [|done].
    exists y. rewrite list_elem_of_bind, axis_range_spec. split; [|done].
    exists z. rewrite axis_range_spec. split; [|done]. by apply list_elem_of_singleton.
Qed.

Lemma logged_nil w : logged [] w = w.
Proof. unfold logged. rewrite app_nil_r. by destruct w as [? ? ? ? []]. Qed.

Lemma logged_app cs cs' w : logged cs' (logged cs w) = logged (cs ++ cs') w.
Proof. unfold logged. cbn. by rewrite app_assoc. Qed.

(** Calls made one after another: all, or up to the first that is refused. *)
Definition calls_made (f : CellKey → call) (keys : list CellKey) (cs : list (call * result Z)) (r : result unit) : Prop :=
  match r with
  | Ok _ => cs.*1 = f <$> keys ∧ Forall (λ c, is_ok c.2 = true) cs
  | Err e => ∃ k before after cs', keys = before ++ k :: after ∧ cs = cs' ++ [(f k, Err e)] ∧ cs'.*1 = f <$> before ∧
      Forall (λ c, is_ok c.2 = true) cs'
  end.

Lemma trun_invoke c w : is_window c = true → trun (exec ev) (invoke (OpCall c)) w = (logged [(c, ev w c)] w, ev w c).
Proof.
  intros Hc. unfold invoke. rewrite trun_bind. cbn [tcall trun].
  assert (exec ev (result Z) (OpCall c) w = (logged [(c, ev w c)] w, ev w c)) as ->.
  { cbn. destruct c; try done. all: by destruct (ev w _). }
  by destruct (ev w c).
Qed.

Lemma trun_calls (f : CellKey → call) keys w : (∀ k, is_window (f k) = true) →
  ∃ cs r, trun (exec ev) (teach keys (λ k, invoke (OpCall (f k));; mret tt)) w = (logged cs w, r) ∧ calls_made f keys cs r.
Proof.
  intros Hf. revert w. induction keys as [|k keys IH]; intros w.
  { exists [], (Ok tt). rewrite logged_nil. by repeat constructor. }
  cbn [teach]. rewrite trun_bind, trun_bind, trun_invoke by done. destruct (ev w (f k)) as [n|e].
  - destruct (IH (logged [(f k, Ok n)] w)) as (cs & r & Hr & Hc). cbn [trun mret tprog_ret].
    exists ((f k, Ok n) :: cs), r. rewrite Hr, logged_app. split; [done|]. destruct r as [[]|e]; cbn in *.
    + destruct Hc as [-> Hc]. split; [done|]. by constructor.
    + destruct Hc as (k' & before & after & cs' & -> & -> & Ek & Hok). exists k', (k :: before), after, ((f k, Ok n) :: cs').
      cbn. rewrite Ek. repeat split; [done..|]. by constructor.
  - exists [(f k, Err e)], (Err e). split; [done|]. cbn. exists k, [], keys, []. by repeat constructor.
Qed.

Lemma window_removes s keys cs W : cs.*1 = CWindowRemove s <$> keys → Forall (λ c, is_ok c.2 = true) cs →
  window_after s W cs = W ∖ list_to_set keys.
Proof.
  revert keys W. induction cs as [|[c r] cs IH]; intros [|k keys] W; cbn; try done.
  { intros _ _. set_solver. }
  intros [= -> Ek] Hok. apply Forall_cons in Hok as [Hr Hok]. destruct r as [n|e]; [|done].
  rewrite Z.eqb_refl. unfold window_after in IH. rewrite (IH keys) by done. set_solver.
Qed.

Lemma window_adds s keys cs W : cs.*1 = CWindowAdd s <$> keys → Forall (λ c, is_ok c.2 = true) cs →
  window_after s W cs = W ∪ list_to_set keys.
Proof.
  revert keys W. induction cs as [|[c r] cs IH]; intros [|k keys] W; cbn; try done.
  { intros _ _. set_solver. }
  intros [= -> Ek] Hok. apply Forall_cons in Hok as [Hr Hok]. destruct r as [n|e]; [|done].
  rewrite Z.eqb_refl. unfold window_after in IH. rewrite (IH keys) by done. set_solver.
Qed.

(** The calls made are among the ones asked for, each once. *)
Lemma calls_made_among f keys cs r : Inj (=) (=) f → NoDup keys → calls_made f keys cs r →
  NoDup cs.*1 ∧ ∀ c, c ∈ cs.*1 → ∃ k, c = f k ∧ k ∈ keys.
Proof.
  intros Hf Hn Hc. assert (∃ some rest, keys = some ++ rest ∧ cs.*1 = f <$> some) as (some & rest & -> & ->).
  { destruct r as [[]|e]; cbn in Hc.
    - exists keys, []. rewrite app_nil_r. by destruct Hc.
    - destruct Hc as (k & before & after & cs' & -> & -> & Ek & _). exists (before ++ [k]), after.
      rewrite <- app_assoc, !fmap_app, Ek. done. }
  apply NoDup_app in Hn as (Hn & _ & _). split; [by apply NoDup_fmap_2|].
  intros c (k & -> & Hk)%list_elem_of_fmap. exists k. set_solver.
Qed.
(** A call that takes a cell out of the window or brings one in. *)
Definition diff_call (s : Z) (old new : cell) (c : call) : Prop :=
  (∃ k, c = CWindowRemove s k ∧ in_reach cf old k ∧ ¬ in_reach cf new k) ∨
  (∃ k, c = CWindowAdd s k ∧ in_reach cf new k ∧ ¬ in_reach cf old k).

Lemma window_after_app s W cs cs' : window_after s W (cs ++ cs') = window_after s (window_after s W cs) cs'.
Proof. apply fold_left_app. Qed.

Lemma elem_difference c c' k :
  k ∈ elements ((list_to_set (_neighborhood cf c) : gset CellKey) ∖ list_to_set (_neighborhood cf c')) ↔
  in_reach cf c k ∧ ¬ in_reach cf c' k.
Proof. by rewrite elem_of_elements, elem_of_difference, !elem_of_list_to_set, !neighborhood_spec. Qed.

Lemma removes_made s old new keys cs r : (∀ k, k ∈ keys ↔ in_reach cf old k ∧ ¬ in_reach cf new k) → NoDup keys →
  calls_made (CWindowRemove s) keys cs r → NoDup cs.*1 ∧ ∀ c, c ∈ cs.*1 → diff_call s old new c.
Proof.
  intros Hk Hn Hc. apply calls_made_among in Hc as [Hd Hm]; [|by intros ? ? [= ->]|done]. split; [done|].
  intros c (k & -> & ?%Hk)%Hm. left. eauto.
Qed.

Lemma adds_made s old new keys cs r : (∀ k, k ∈ keys ↔ in_reach cf new k ∧ ¬ in_reach cf old k) → NoDup keys →
  calls_made (CWindowAdd s) keys cs r → NoDup cs.*1 ∧ ∀ c, c ∈ cs.*1 → diff_call s old new c.
Proof.
  intros Hk Hn Hc. apply calls_made_among in Hc as [Hd Hm]; [|by intros ? ? [= ->]|done]. split; [done|].
  intros c (k & -> & ?%Hk)%Hm. right. eauto.
Qed.

Lemma removes_adds_apart s keys keys' cs cs' r r' : calls_made (CWindowRemove s) keys cs r →
  calls_made (CWindowAdd s) keys' cs' r' → NoDup keys → NoDup keys' → NoDup (cs ++ cs').*1.
Proof.
  intros Hc Hc' Hn Hn'. apply calls_made_among in Hc as [Hd Hm]; [|by intros ? ? [= ->]|done].
  apply calls_made_among in Hc' as [Hd' Hm']; [|by intros ? ? [= ->]|done].
  rewrite fmap_app. apply NoDup_app. split; [done|]. split; [|done].
  intros c (k & -> & _)%Hm (k' & ? & _)%Hm'. done.
Qed.

Lemma in_reach_dec c k : in_reach cf c k ∨ ¬ in_reach cf c k.
Proof. rewrite <- neighborhood_spec. destruct (decide (k ∈ _neighborhood cf c)); tauto. Qed.

(** If a session's window holds exactly the cells in reach of the old cell,
    updating it for an actor whose present cell is another one makes no call
    twice, removes only cells in reach of the old and not of the new cell,
    adds only cells in reach of the new and not of the old one, and, when no
    call fails, leaves a window of exactly the cells in reach of the new cell;
    otherwise it stops at the failing call with that call's error. *)
Theorem diff_window_exact s actor old new w W :
  _cell_of cf actor = Ok new → (∀ k, k ∈ W ↔ in_reach cf old k) →
  ∃ cs r, trun (exec ev) (_diff_window cf s actor old) w = (logged cs w, r) ∧
    NoDup cs.*1 ∧ (∀ c, c ∈ cs.*1 → diff_call s old new c) ∧
    match r with
    | Ok _ => ∀ k, k ∈ window_after s W cs ↔ in_reach cf new k
    | Err e => ∃ c, last cs = Some (c, Err e)
    end.
Proof.
  intros Hc HW. unfold _diff_window. rewrite trun_bind, Hc. cbn [tresult trun]. rewrite trun_bind.
  set (rm := elements (list_to_set (_neighborhood cf old) ∖ _)). set (ad := elements (list_to_set (_neighborhood cf new) ∖ _)).
  pose proof (elem_difference old new : ∀ k, k ∈ rm ↔ _) as Hrm. pose proof (elem_difference new old : ∀ k, k ∈ ad ↔ _) as Had.
  assert (NoDup rm ∧ NoDup ad) as [Hnr Hna] by (split; apply NoDup_elements). clearbody rm ad.
  destruct (trun_calls (CWindowRemove s) rm w ltac:(done)) as (cs & r & -> & Hm).
  pose proof (removes_made s old new rm cs r Hrm Hnr Hm) as [Hd Hin]. destruct r as [[]|e].
  2: { exists cs, (Err e). do 3 (split; [done|]). destruct Hm as (k & b & a & cs' & _ & -> & _). exists (CWindowRemove s k). apply last_snoc. }
  destruct (trun_calls (CWindowAdd s) ad (logged cs w) ltac:(done)) as (cs2 & r & -> & Hm2).
  pose proof (adds_made s old new ad cs2 r Had Hna Hm2) as [Hd2 Hin2].
  exists (cs ++ cs2), r. rewrite logged_app. split; [done|]. split; [by eapply removes_adds_apart|]. split.
  { intros c. rewrite fmap_app, elem_of_app. intros [?|?]; auto. }
  destruct r as [[]|e].
  2: { destruct Hm2 as (k & b & a & cs' & _ & -> & _). exists (CWindowAdd s k). rewrite app_assoc. apply last_snoc. }
  destruct Hm as [E1 Hok1], Hm2 as [E2 Hok2]. intros k. rewrite window_after_app, (window_removes s rm cs), (window_adds s ad cs2) by done.
  rewrite elem_of_union, elem_of_difference, !elem_of_list_to_set, HW, Hrm, Had.
  destruct (in_reach_dec old k), (in_reach_dec new k); tauto.
Qed.
End Window.

(** ** Ticks *)

Section Flush.
Context `{IM : InputModel} (cf : config) (ev : env).

(** The bookkeeping and the calls after bumping some cells. *)
Record bumped (keys : list CellKey) (cs : list (call * result Z)) (w w' : world) : Prop := {
  bp_tables : w_tables w' = w_tables w;
  bp_control : w_control w' = w_control w;
  bp_model : w_model w' = w_model w;
  bp_drops : b_gate_drops (w_book w') = b_gate_drops (w_book w);
  bp_dirty : b_dirty_cells (w_book w') = b_dirty_cells (w_book w);
  bp_epochs k : epoch_of (w_book w') k = epoch_of (w_book w) k + if decide (k ∈ keys) then 1 else 0;
  bp_outside : w_outside w' = mkOutside (o_calls (w_outside w) ++ cs) (o_events (w_outside w));
  bp_calls : cs.*1 = (λ k, CPublishCellProduct k (epoch_of (w_book w) k + 1)) <$> keys;
}.

Definition stale (c : call * result Z) : Prop := ∀ e, c.2 = Err e → is_state_error e = true.

(** One cell: its epoch goes up and its product is published. *)
Lemma trun_bump k w : ∃ a w', bumped [k] [(CPublishCellProduct k (epoch_of (w_book w) k + 1), a)] w w' ∧
  trun (exec ev) (bump_cell k) w =
    (w', match a with Ok _ => Ok tt | Err e => if is_state_error e then Ok tt else Err e end).
Proof.
  unfold bump_cell. rewrite trun_bind, trun_with. cbn [tcall trun exec on_book fst].
  unfold suppress. fold (epoch_of (w_book w) k). set (e := epoch_of (w_book w) k + 1).
  rewrite trun_catch, trun_bind. unfold invoke. rewrite trun_bind. cbn [tcall trun].
  set (w1 := mkWorld _ _ _ _ _). cbn [exec publish_effect on_tables on_outside].
  assert (∀ r : result Z, bumped [k] [(CPublishCellProduct k e, r)] w
    (mkWorld (w_tables w1) (w_control w1) (w_book w1) (w_model w1)
      (mkOutside (o_calls (w_outside w1) ++ [(CPublishCellProduct k e, r)]) (o_events (w_outside w1))))) as Hb.
  { intros r. split; try done. intros k'. cbn. unfold epoch_of. cbn. destruct (decide (k' = k)) as [->|Hne].
    - rewrite lookup_insert_eq, decide_True by set_solver. done.
    - rewrite lookup_insert_ne by done. rewrite decide_False by set_solver. lia. }
  destruct (ev w1 _) as [n|x] eqn:E; cbn; [by eexists (Ok n), _|]. eexists (Err x), _. split; [apply Hb|]. by destruct (is_state_error x).
Qed.
Lemma bumped_cons k keys c cs w w1 w' : k ∉ keys → bumped [k] [c] w w1 → bumped keys cs w1 w' →
  bumped (k :: keys) (c :: cs) w w'.
Proof.
  intros Hk [T1 C1 M1 G1 D1 E1 O1 L1] [T2 C2 M2 G2 D2 E2 O2 L2]. split; try congruence.
  - intros k'. rewrite E2, E1. destruct (decide (k' = k)) as [->|Hne].
    + rewrite (decide_False (P := k ∈ keys)) by done. rewrite !decide_True by set_solver. lia.
    + rewrite (decide_False (P := k' ∈ [k])) by set_solver. destruct (decide (k' ∈ keys)).
      * rewrite decide_True by set_solver. lia.
      * rewrite decide_False by set_solver. lia.
  - rewrite O2, O1. cbn. by rewrite <- app_assoc.
  - cbn in *. injection L1 as ->. rewrite L2. f_equal. apply list_fmap_ext. intros i k' Hi%list_elem_of_lookup_2.
    rewrite E1, decide_False; [f_equal; lia|]. intros ->%list_elem_of_singleton. done.
Qed.

Lemma bumped_nil w : bumped [] [] w w.
Proof. split; try done. - intros k. rewrite decide_False by set_solver. lia. - rewrite app_nil_r. by destruct (w_outside w). Qed.

Lemma trun_bumps keys w : NoDup keys → ∃ done lost cs w' r, trun (exec ev) (teach keys bump_cell) w = (w', r) ∧
  keys = done ++ lost ∧ bumped done cs w w' ∧
  match r with
  | Ok _ => lost = [] ∧ Forall stale cs
  | Err e => is_state_error e = false ∧ ∃ c, last cs = Some (c, Err e)
  end.
Proof.
  intros Hn. revert w. induction Hn as [|k keys Hk Hn IH]; intros w.
  { exists [], [], [], w, (Ok tt). split; [done|]. split; [done|]. split; [apply bumped_nil|]. by split. }
  cbn [teach]. rewrite trun_bind. destruct (trun_bump k w) as (a & w1 & Hb & ->).
  destruct (match a with Ok _ => Ok tt | Err e => if is_state_error e then Ok tt else Err e end) as [[]|e] eqn:Ea.
  - destruct (IH w1) as (done & lost & cs & w' & r & -> & -> & Hbs & Hr).
    eexists (k :: done), lost, (_ :: cs), w', r. split; [done|]. split; [done|].
    split; [eapply bumped_cons; [set_solver|done..]|]. destruct r as [[]|e].
    + destruct Hr as [-> Hst]. split; [done|]. constructor; [|done]. intros e. cbn. intros ->. by destruct (is_state_error e).
    + destruct Hr as [He [c Hl]]. split; [done|]. exists c. destruct cs; [done|]. exact Hl.
  - exists [k], keys, [(CPublishCellProduct k (epoch_of (w_book w) k + 1), a)], w1, (Err e).
    split; [done|]. split; [done|]. split; [done|]. destruct a as [n|x]; [done|].
    destruct (is_state_error x) eqn:Ex; [done|]. injection Ea as ->. split; [done|]. by eexists.
Qed.

(** A flush empties the set of dirty cells, and publishes once each of the
    cells it handles with an epoch one above the cell's last, touching neither
    actors nor bindings. Without an error, or with stale-epoch errors only, it
    handles every dirty cell; any other error ends it there and the cells not
    yet handled are lost. *)
Theorem flush_exact tick w : ∃ done lost cs w' r, trun (exec ev) (flush_dirty_cells tick) w = (w', r) ∧
  b_dirty_cells (w_book w') = ∅ ∧
  done ++ lost ≡ₚ elements (b_dirty_cells (w_book w)) ∧
  (∀ k, epoch_of (w_book w') k = epoch_of (w_book w) k + if decide (k ∈ done) then 1 else 0) ∧
  w_outside w' = mkOutside (o_calls (w_outside w) ++ cs) (o_events (w_outside w)) ∧
  cs.*1 = (λ k, CPublishCellProduct k (epoch_of (w_book w) k + 1)) <$> done ∧
  w_tables w' = w_tables w ∧ w_control w' = w_control w ∧
  match r with
  | Ok _ => lost = [] ∧ Forall stale cs
  | Err e => is_state_error e = false ∧ ∃ c, last cs = Some (c, Err e)
  end.
Proof.
  unfold flush_dirty_cells. rewrite trun_bind, trun_with. cbn [tcall trun exec on_book].
  set (w1 := mkWorld _ _ _ _ _). destruct (trun_bumps (elements (b_dirty_cells (w_book w))) w1) as (done & lost & cs & w' & r & -> & E & Hb & Hr);
    [apply NoDup_elements|].
  exists done, lost, cs, w', r. destruct Hb as [T C M G D Ep O L]. split; [done|]. split; [by rewrite D|].
  split; [by rewrite E|]. split; [exact Ep|]. split; [exact O|]. split; [exact L|]. done.
Qed.
End Flush.
