(* ===== verification/SimFacade.v ===== *)
(** * The Python facade of the movement models

    Error translation of [python/kith/exceptions.py] and the value
    conversions and model calls of [python/kith/sim.py], over the C models. *)

From S2P Require Import Prelude Outcome PyStruct PyText PyWire Threads SpatialCodec Spatial SpatialTheorems.
From S2P Require ActorStore SimPending SimModels SimTheorems.

#[local] Open Scope Z_scope.

(** ** Errors *)

(** The enumerators of [kith_error]. *)
Definition KITH_ENOENT : Z := 4.
Definition KITH_EEXIST : Z := 5.
Definition KITH_EBUSY : Z := 6.
Definition KITH_EAGAIN : Z := 7.
Definition KITH_EPERM : Z := 8.
Definition KITH_EABIVER : Z := 19.
Definition KITH_ETIMEDOUT : Z := 13.
Definition KITH_ECONNRESET : Z := 14.
Definition KITH_ESHUTDOWN : Z := 15.
Definition KITH_ESTATE : Z := 16.
Definition KITH_EPROTO : Z := 17.
Definition KITH_EUSER : Z := 10000.

Definition is_enumerator (code : Z) : bool := ((0 <=? code) && (code <=? KITH_EABIVER)) || (code =? KITH_EUSER).

Definition code_for (rc : Z) : Z := let magnitude := - rc in if is_enumerator magnitude then magnitude else KITH_EUSER.

Definition _FAMILY_BY_CODE : list (Z * kith_family) :=
  [(KITH_ENOENT, FNotFound); (KITH_EEXIST, FState); (KITH_EBUSY, FState); (KITH_EAGAIN, FState); (KITH_EPERM, FState);
   (KITH_ESTATE, FState); (KITH_EPROTO, FProtocol); (KITH_ECONNRESET, FNetwork); (KITH_ESHUTDOWN, FNetwork);
   (KITH_ETIMEDOUT, FNetwork)].

Definition exception_for (code : Z) : kith_family :=
  match filter (λ p, fst p = code) _FAMILY_BY_CODE with (_, f) :: _ => f | [] => FBase end.

Definition check_error (rc : Z) (context : fstr) (exc : option kith_family) : result unit :=
  if 0 <=? rc then Ok tt else
  let code := code_for rc in
  Err (KithError (default (exception_for code) exc) code context).

(** ** Conversions *)

(** [kith_sim_actor_t]: the fields the models read and write, and the
    counter they increment on an input. *)
Record kith_sim_actor_t := mkCActor { ca_actor : ActorStore.SimActor; ca_update_seq : Z }.

Definition _actor_to_c (a : Actor) : kith_sim_actor_t :=
  mkCActor (ActorStore.mkActor (c_uint 8 (a_id a)) (c_int 8 (a_pos_x a)) (c_int 8 (a_pos_y a)) (c_int 8 (a_pos_z a))
    (c_int 8 (a_vel_x a)) (c_int 8 (a_vel_y a)) (c_int 8 (a_vel_z a)) (c_uint 4 (a_input_tick a)) (c_uint 4 (a_flags a)))
    (c_uint 4 (a_update_seq a)).

Definition _actor_from_c (c : kith_sim_actor_t) : Actor :=
  let a := ca_actor c in
  mkActor (ActorStore.ac_id a) (ActorStore.ac_pos_x a) (ActorStore.ac_pos_y a) (ActorStore.ac_pos_z a)
    (ActorStore.ac_vel_x a) (ActorStore.ac_vel_y a) (ActorStore.ac_vel_z a) (ActorStore.ac_input_tick a)
    (ActorStore.ac_flags a) (ca_update_seq c).

Definition _input_to_c (i : SimInput) : ActorStore.SimInput :=
  ActorStore.mkInput (c_uint 4 (si_input_tick i)) (c_int 2 (si_move_x i)) (c_int 2 (si_move_y i))
    (c_int 2 (si_move_z i)) (c_uint 1 (si_flags i)).

(** ** Model calls *)

(** The C entry points on whole actors: a step leaves the counter alone, an
    input increments it. *)
Definition c_model_step (m : SimModels.kith_sim_model) (arr : list kith_sim_actor_t) (dt_ms : Z)
    : Z * (SimModels.kith_sim_model * list kith_sim_actor_t) :=
  let '(rc, (m, actors)) := SimModels.sim_model_step m (ca_actor <$> arr) dt_ms in
  (rc, (m, zip_with mkCActor actors (ca_update_seq <$> arr))).

Definition c_model_apply_input (m : SimModels.kith_sim_model) (c : kith_sim_actor_t) (i : ActorStore.SimInput)
    : Z * (SimModels.kith_sim_model * kith_sim_actor_t) :=
  let '(rc, (m, a)) := SimModels.sim_model_apply_input m (ca_actor c) i in
  (rc, (m, mkCActor a (c_uint 4 (ca_update_seq c + 1)))).

(** [SimModel.step] *)
Definition step (m : SimModels.kith_sim_model) (actors : list Actor) (dt_ms : Z)
    : SimModels.kith_sim_model * result (list Actor) :=
  match actors with
  | [] => (m, Ok [])
  | _ =>
      let '(rc, (m, arr)) := c_model_step m (_actor_to_c <$> actors) (c_uint 4 dt_ms) in
      (m, check_error rc [Lit "kith_sim_model_step"] None;; Ok (_actor_from_c <$> arr))
  end.

(** [SimModel.apply_input] *)
Definition apply_input (m : SimModels.kith_sim_model) (actor : Actor) (inp : SimInput)
    : SimModels.kith_sim_model * result Actor :=
  let '(rc, (m, c)) := c_model_apply_input m (_actor_to_c actor) (_input_to_c inp) in
  (m, check_error rc [Lit "kith_sim_model_apply_input"] None;; Ok (_actor_from_c c)).

#[global] Instance SimModel : InputModel := {|
  im_state := SimModels.kith_sim_model;
  im_apply_input := apply_input;
  im_step := step;
|}.

(** ** The facade meets what the handlers rely on *)

Lemma check_error_ok rc context exc : check_error rc context exc = Ok tt ↔ 0 ≤ rc.
Proof. unfold check_error. destruct (Z.leb_spec 0 rc); split; try done; lia. Qed.

Definition actor_fits (a : Actor) : bool :=
  in_u 8 (a_id a) && in_s 8 (a_pos_x a) && in_s 8 (a_pos_y a) && in_s 8 (a_pos_z a) && in_s 8 (a_vel_x a) &&
  in_s 8 (a_vel_y a) && in_s 8 (a_vel_z a) && in_u 4 (a_input_tick a) && in_u 4 (a_flags a) && in_u 4 (a_update_seq a).

(** Crossing the boundary and back changes nothing exactly when the fields
    fit their C types. *)
Lemma actor_roundtrip a : _actor_from_c (_actor_to_c a) = a ↔ actor_fits a = true.
Proof.
  unfold actor_fits. rewrite !andb_true_iff. split.
  - intros E. unfold _actor_from_c, _actor_to_c in E. destruct a. cbn in *. injection E as E1 E2 E3 E4 E5 E6 E7 E8 E9 E10.
    rewrite <- E1, <- E2, <- E3, <- E4, <- E5, <- E6, <- E7, <- E8, <- E9, <- E10.
    repeat split; first [apply c_uint_range|apply c_int_range; lia].
  - intros (((((((((H1 & H2) & H3) & H4) & H5) & H6) & H7) & H8) & H9) & H10). unfold _actor_from_c, _actor_to_c. cbn.
    rewrite !c_uint_id, !c_int_id by (done || lia). by destruct a.
Qed.

Lemma c_uint_u64 z : 0 ≤ z < 2 ^ 64 → c_uint 8 z = z.
Proof. intros Hz. apply Z.mod_small. exact Hz. Qed.

Lemma c_step_ids m xs dt : Forall (λ x, 0 ≤ a_id x < 2 ^ 64) xs →
  a_id <$> (_actor_from_c <$> (c_model_step m (_actor_to_c <$> xs) dt).2.2) = a_id <$> xs.
Proof.
  intros Hx. unfold c_model_step.
  assert (∀ acts, SimModels.sim_model_step m acts dt = (0, (m, SimTheorems.sim_step_actor m dt <$> acts))) as Hs by (by destruct m).
  rewrite Hs. cbn [fst snd]. induction Hx as [|x xs Hx _ IH]; [done|]. cbn. f_equal; [|exact IH].
  rewrite SimTheorems.sim_step_actor_id. by apply c_uint_u64.
Qed.

#[global] Instance SimModel_laws : InputModelLaws.
Proof.
  split.
  - intros m x i m' y Hx. cbn. unfold apply_input, c_model_apply_input.
    destruct m; cbn; intros [= _ <-]; cbn; by apply c_uint_u64.
  - intros m xs dt m' ys Hx. cbn. unfold step. destruct xs as [|x xs]; [by intros [= _ <-]|].
    pose proof (c_step_ids m (x :: xs) (c_uint 4 dt) Hx) as Hids.
    destruct (c_model_step m (_actor_to_c <$> (x :: xs)) (c_uint 4 dt)) as [rc [m1 arr]]. intros [= _ Hr].
    destruct (check_error rc _ _); [|done]. by injection Hr as <-.
Qed.
