(* ===== verification/SpatialExamples.v ===== *)
(** * Worked examples of the lobby and of the spatial simulation

    Concrete runs, and the theorems of both applied at them. *)

From S2P Require Import Prelude Outcome PyStruct PyText PyWire LobbyCodec Lobby LobbyTheorems LobbyRefine.

#[local] Open Scope Z_scope.

(** ** The lobby *)

Definition encoded (m : message) : bytes := match encode_message m with Ok bs => bs | Err _ => [] end.

Definition sent (sid : Z) (m : message) : frame := mkFrame (message_type m) (encoded m) sid.

(** A gateway that refuses session 9. *)
Definition sample_bind (sid _ : Z) : result unit :=
  if sid =? 9 then Err (ValueError [Lit "session is closed"]) else Ok tt.

Definition sample_gateway : gateway := mkGateway sample_bind InfoRecord.

Definition sample_frames : list frame :=
  [sent 1 (MLogin 70); sent 2 (MLogin 80); sent 9 (MLogin 80); sent 1 (MRoomJoin (str "hall"));
   sent 2 (MRoomJoin (str "hall")); sent 2 (MChatRoom (str "hall") (str "hello"));
   sent 1 (MPresenceUpdate 2 3); sent 1 (MRoomLeave (str "hall")); mkFrame ROOM_JOIN_TYPE [] 1].

Lemma lobby_decode_errors_witness : ∃ e,
  decode_message ROOM_JOIN_TYPE [Byte.x05; Byte.x41] = Some (Err e) ∧ is_value_error e = true.
Proof.
  eexists. split; [reflexivity|].
  apply (lobby_decode_errors ROOM_JOIN_TYPE [Byte.x05; Byte.x41]). reflexivity.
Defined.

(** Two of the frames, handled one after the other by the pool. *)
Definition login_frame : frame := sent 1 (MLogin 70).
Definition join_frame : frame := sent 1 (MRoomJoin (str "hall")).

Definition sample_lobby : lobby := fst (run sample_gateway (handle join_frame)
  (fst (run sample_gateway (handle login_frame) lobby_init))).

Lemma frame_handled gw f w q : snd (run gw (handle f) w) = Ok tt →
  rtc (pool_step gw) (mkPool (fst (run gw (handle f) w)) [] []) q → rtc (pool_step gw) (mkPool w [] []) q.
Proof.
  intros Hok Hq. eapply rtc_l; [apply (step_arrive _ f _ [])|].
  etrans; [apply (pool_runs gw _ _ [] [])|]. by rewrite Hok.
Qed.

Lemma sample_lobby_reached : rtc (pool_step sample_gateway) pool_init (mkPool sample_lobby [] []).
Proof.
  apply (frame_handled sample_gateway login_frame); [evaluates|].
  apply (frame_handled sample_gateway join_frame); [evaluates|apply rtc_refl].
Qed.


Lemma lobby_refines_witness :
  snd (serve sample_gateway sample_frames lobby_init) =
    [Ok tt; Ok tt; Err (ValueError [Lit "session is closed"]); Ok tt; Ok tt; Ok tt; Ok tt; Ok tt; Ok tt] ∧
  represents (fst (serve sample_gateway sample_frames lobby_init))
    (fst (spec_serve sample_gateway sample_frames alobby_init)) ∧
  length (al_notes (fst (spec_serve sample_gateway sample_frames alobby_init))) = 5%nat.
Proof.
  destruct (lobby_refines sample_gateway sample_frames) as [_ Hr]; [reflexivity..|].
  split; [evaluates|]. split; [exact Hr|evaluates].
Defined.

(** The same frames through the facade's sessions. *)
Definition facade_gateway : gateway := mkGateway sample_bind InfoMethod.

Definition facade_world : lobby := fst (run facade_gateway (handle join_frame)
  (fst (run facade_gateway (handle login_frame) lobby_init))).

Lemma lobby_facade_drops_witness :
  lb_rooms (lw_state facade_world) = ∅ ∧ lb_chat_log (lw_state facade_world) = [] ∧ lw_outbox facade_world = [].
Proof.
  apply (lobby_facade_drops facade_gateway (mkPool facade_world [] [])); [reflexivity|].
  apply (frame_handled facade_gateway login_frame); [evaluates|].
  apply (frame_handled facade_gateway join_frame); [evaluates|apply rtc_refl].
Defined.

From S2P Require SimModels.


(** ** The spatial simulation *)

From S2P Require Import Threads SpatialCodec Replication Spatial SpatialTheorems SpatialInvariant SpatialWindow SimFacade.

Definition sample_config : config := mkConfig 1 CELL_SIZE_Q16 CELL_RADIUS true.

(** A server that accepts everything; a session is bound to the actor of its
    last accepted populate. *)
Definition bound_actor (calls : list (call * result Z)) (s : Z) : Z :=
  foldl (λ a c, match c with (CPopulate s' a' _, Ok _) => if s' =? s then a' else a | _ => a end) 0 calls.

Definition accepting : env := λ w c,
  match c with CInfo s => Ok (bound_actor (o_calls (w_outside w)) s) | _ => Ok 0 end.

Definition sample_model : im_state := SimModels.Free2d (SimModels.free2d_init None).

Definition login_payload (principal : Z) : bytes := match encode_login principal with Ok b => b | Err _ => [] end.
Definition input_payload (actor tick x : Z) : bytes :=
  match encode_actor_input actor (mkSimInput tick x 0 0 0) with Ok b => b | Err _ => [] end.

(** A login, inputs that carry the actor over a cell boundary, a chat of a
    stranger, a tick and a session end. *)
Definition sample_requests : list request :=
  [RMessage LOGIN_TYPE (login_payload 7) 100; RMessage ACTOR_INPUT_TYPE (input_payload 1 1 32767) 100;
   RMessage ACTOR_INPUT_TYPE (input_payload 1 2 32767) 100; RSpawn 8; RTeleport 2 (-1) 70000; RTick 1; RStates;
   RSessionDestroyed 100; RMessage CHAT_TYPE [] 101; RTick 2].

Definition serve_all (rs : list request) : world * list exn :=
  foldl (λ q r, after (exec accepting) (handle sample_config r) q) (world_init sample_model, []) rs.

Lemma serve_all_reached rs :
  rtc (serve_step (exec accepting) (requested sample_config)) (mkTpool (world_init sample_model) [] [])
    (mkTpool (serve_all rs).1 [] (serve_all rs).2).
Proof.
  pose proof (serve_alone (exec accepting) (requested sample_config) (handle sample_config <$> rs) (world_init sample_model) []) as Hs.
  cbv zeta in Hs. rewrite foldl_fmap in Hs. apply Hs.
  intros p (r & -> & _)%list_elem_of_fmap. split; [by exists r|apply handle_locks].
Qed.

Definition sample_pool : @tpool op world := mkTpool (serve_all sample_requests).1 [] (serve_all sample_requests).2.
Definition sample_world : world := tp_world sample_pool.

(** The moved actor crosses to cell (64, 0, 0) in two steps, each replacing
    the whole window of 27 cells. *)
Lemma sample_cells : map_to_list (t_actor_cells (w_tables sample_world)) = [(2, (-1, 1, 0)); (1, (64, 0, 0))].
Proof. evaluates. Qed.

Lemma sample_window :
  window_after 100 (list_to_set (_neighborhood sample_config (0, 0, 0))) (o_calls (w_outside sample_world)) =
  list_to_set (_neighborhood sample_config (64, 0, 0)).
Proof. evaluates. Qed.

(** A face crossing at radius 1 takes 9 cells out and 9 in. *)
Lemma crossing_cost :
  length (o_calls (w_outside (trun (exec accepting)
    (_diff_window sample_config 100 (mkActor 1 65536 0 0 0 0 0 0 0 0) (0, 0, 0)) (world_init sample_model)).1)) = 18%nat.
Proof. evaluates. Qed.

(** ** Witnesses *)

Lemma spatial_live_witness :
  sn (work (exec accepting)) sample_pool ∧ (nf (work (exec accepting)) sample_pool ↔ tp_threads sample_pool = []).
Proof. exact (spatial_live sample_config accepting sample_model sample_pool (serve_all_reached sample_requests)). Defined.

Lemma sample_ids : ids_fit (tp_world sample_pool).
Proof. apply Z.leb_le. evaluates. Qed.

Lemma spatial_invariant_witness :
  (∀ l, lock_free l (tp_threads sample_pool) → lock_inv sample_config accepting l (tp_world sample_pool)) ∧
  (∀ e, e ∈ tp_failed sample_pool → foreign sample_config accepting e).
Proof.
  exact (spatial_invariant sample_config accepting sample_model sample_pool (serve_all_reached sample_requests) sample_ids).
Defined.

Lemma sample_reach k : k ∈ (list_to_set (_neighborhood sample_config (0, 0, 0)) : gset CellKey) ↔
  in_reach sample_config (0, 0, 0) k.
Proof. rewrite elem_of_list_to_set. apply neighborhood_spec. Qed.

Lemma diff_window_exact_witness :
  ∃ cs r, trun (exec accepting) (_diff_window sample_config 100 (mkActor 1 65536 0 0 0 0 0 0 0 0) (0, 0, 0))
      (world_init sample_model) = (logged cs (world_init sample_model), r) ∧
    NoDup cs.*1 ∧ (∀ c, c ∈ cs.*1 → diff_call sample_config 100 (0, 0, 0) (1, 0, 0) c) ∧
    match r with
    | Ok _ => ∀ k, k ∈ window_after 100 (list_to_set (_neighborhood sample_config (0, 0, 0))) cs ↔
        in_reach sample_config (1, 0, 0) k
    | Err e => ∃ c, last cs = Some (c, Err e)
    end.
Proof.
  exact (diff_window_exact sample_config accepting 100 (mkActor 1 65536 0 0 0 0 0 0 0 0) (0, 0, 0) (1, 0, 0)
    (world_init sample_model) _ eq_refl sample_reach).
Defined.

Lemma spatial_codec_exact_witness :
  decode_like CHAT_MAX_TEXT (SLogin 7) (login_payload 7) = Ok (SLogin 7) ↔
  stext_ok (SLogin 7) = true ∧ ∃ bs rest, encode_smessage CHAT_MAX_TEXT (SLogin 7) = Ok bs ∧ login_payload 7 = bs ++ rest.
Proof. exact (spatial_codec_exact CHAT_MAX_TEXT ltac:(unfold CHAT_MAX_TEXT; lia) (SLogin 7) (login_payload 7)). Defined.
