(* ===== verification/PyArith.v ===== *)
(** * Arithmetic on [float] and [int], and dictionaries of lists

    Each operation rounds its exact result once, to nearest, ties to even;
    comparisons with an [int] are exact.  A Python [dict] whose values are
    lists is filled with [setdefault], in insertion order. *)

From S2P Require Import Prelude PyStruct PyText PyFloat.

#[local] Open Scope Z_scope.

Section Buckets.
Context {K A : Type} `{EqDecision K}.

(** ** Operations *)

Abbreviation buckets := (list (K * list A)).

Definition bucket_get (k : K) (d : buckets) : list A :=
  default [] (snd <$> head (filter (λ p, fst p = k) d)).

(** [d.setdefault(k, []).append(e)] *)
Fixpoint bucket_add (k : K) (e : A) (d : buckets) : buckets :=
  match d with
  | [] => [(k, [e])]
  | (k', b) :: d => if decide (k' = k) then (k', b ++ [e]) :: d else (k', b) :: bucket_add k e d
  end.

(** A list distributed by key. *)
Definition group_by (f : A → K) (l : list A) : buckets := foldl (λ d e, bucket_add (f e) e d) [] l.

(** ** Buckets hold a list *)

Record holds (f : A → K) (d : buckets) (l : list A) : Prop := {
  hd_keys : NoDup d.*1;
  hd_get k : bucket_get k d = filter (λ e, f e = k) l;
  hd_full p : p ∈ d → p.2 ≠ [];
  hd_all : (d ≫= snd) ≡ₚ l;
}.

Lemma bucket_get_cons k k' b d : bucket_get k ((k', b) :: d) = if decide (k' = k) then b else bucket_get k d.
Proof. unfold bucket_get. rewrite filter_cons. cbn. by case_decide. Qed.

Lemma bucket_get_add k e d k' : NoDup d.*1 →
  bucket_get k' (bucket_add k e d) = if decide (k = k') then bucket_get k' d ++ [e] else bucket_get k' d.
Proof.
  induction d as [|[k0 b] d IH]; cbn [bucket_add]; intros Hn.
  { rewrite bucket_get_cons. by case_decide. }
  apply NoDup_cons in Hn as [Hk Hn]. destruct (decide (k0 = k)) as [->|Hne]; rewrite !bucket_get_cons.
  - by repeat case_decide.
  - rewrite IH by done. repeat case_decide; simplify_eq; done.
Qed.

Lemma bucket_add_keys k e d k' : k' ∈ (bucket_add k e d).*1 ↔ k' = k ∨ k' ∈ d.*1.
Proof.
  induction d as [|[k0 b] d IH]; cbn [bucket_add]; [cbn; set_solver|].
  destruct (decide (k0 = k)) as [->|Hne]; cbn; [set_solver|]. rewrite !elem_of_cons, IH. tauto.
Qed.

Lemma bucket_add_NoDup k e d : NoDup d.*1 → NoDup (bucket_add k e d).*1.
Proof.
  induction d as [|[k0 b] d IH]; cbn [bucket_add]; intros Hn; [apply NoDup_singleton|].
  destruct (decide (k0 = k)) as [->|Hne]; [done|]. cbn in *. apply NoDup_cons in Hn as [Hk Hn].
  apply NoDup_cons. split; [|auto]. rewrite bucket_add_keys. intros [->|?]; done.
Qed.

Lemma bucket_add_all k e d : (bucket_add k e d ≫= snd) ≡ₚ (d ≫= snd) ++ [e].
Proof.
  induction d as [|[k0 b] d IH]; cbn [bucket_add]; [done|].
  destruct (decide (k0 = k)) as [->|Hne]; cbn.
  - rewrite <- !app_assoc. f_equiv. apply Permutation_app_comm.
  - by rewrite IH, app_assoc.
Qed.

Lemma bucket_add_full k e d p : (∀ q, q ∈ d → q.2 ≠ []) → p ∈ bucket_add k e d → p.2 ≠ [].
Proof.
  induction d as [|[k0 b] d IH]; cbn [bucket_add]; intros Hf.
  - by intros ->%list_elem_of_singleton.
  - destruct (decide (k0 = k)) as [->|Hne]; intros [->|Hp]%elem_of_cons.
    + cbn. by destruct b.
    + apply Hf. set_solver.
    + apply (Hf (k0, b)). set_solver.
    + apply IH; [|done]. intros q Hq. apply Hf. set_solver.
Qed.

Lemma holds_add f d l e : holds f d l → holds f (bucket_add (f e) e d) (l ++ [e]).
Proof.
  intros [Hk Hg Hf Ha]. split.
  - by apply bucket_add_NoDup.
  - intros k. rewrite bucket_get_add, Hg, filter_app by done. rewrite filter_cons, filter_nil. case_decide; [done|].
    by rewrite app_nil_r.
  - intros p. by apply bucket_add_full.
  - by rewrite bucket_add_all, Ha.
Qed.

Lemma holds_nil f : holds f [] [].
Proof. split; try done; [constructor|]. by intros p ?%elem_of_nil. Qed.

Lemma bucket_keys_get d k : (∀ p, p ∈ d → p.2 ≠ []) → NoDup d.*1 → k ∈ d.*1 ↔ bucket_get k d ≠ [].
Proof.
  induction d as [|[k0 b] d IH]; intros Hf Hn; [cbn; set_solver|]. cbn in *. apply NoDup_cons in Hn as [Hk Hn].
  rewrite elem_of_cons, bucket_get_cons. case_decide as Hd.
  - subst. split; [|by left]. intros _. apply (Hf (k, b)). set_solver.
  - rewrite IH by (set_solver || done). split; [intros [->|?]; done|by right].
Qed.

Lemma holds_group_by f l : holds f (group_by f l) l.
Proof.
  induction l as [|e l IH] using rev_ind; [apply holds_nil|].
  unfold group_by in *. rewrite foldl_app. by apply holds_add.
Qed.
End Buckets.

(** ** Lists *)

Lemma filter_bind_perm {A B} (P : B → Prop) `{∀ x, Decision (P x)} (f : A → list B) (d : list A) :
  filter P (d ≫= f) = d ≫= (λ x, filter P (f x)).
Proof. induction d as [|x d IH]; [done|]. cbn. by rewrite filter_app, <- IH. Qed.

Lemma bind_perm {A B} (f g : A → list B) (d : list A) : (∀ x, f x ≡ₚ g x) → (d ≫= f) ≡ₚ (d ≫= g).
Proof. intros Hf. induction d as [|x d IH]; [done|]. cbn. by rewrite Hf, IH. Qed.

Lemma filter_some {A} (P : A → Prop) `{∀ x, Decision (P x)} l : filter P l ≠ [] ↔ ∃ x, x ∈ l ∧ P x.
Proof.
  split.
  - intros Hl. destruct (filter P l) as [|x r] eqn:E; [done|]. exists x.
    assert (x ∈ filter P l) as Hin by (rewrite E; left). by apply list_elem_of_filter in Hin as [? ?].
  - intros (x & Hx & HP) E. apply (not_elem_of_nil x). rewrite <- E. by apply list_elem_of_filter.
Qed.

(** ** Definitions *)

(** The value of a finite [float] as a ratio with positive denominator. *)
Definition ratio (neg : bool) (m e : Z) : Z * Z :=
  let s := if neg then - m else m in if e <? 0 then (s, 2 ^ (- e)) else (s * 2 ^ e, 1).

Definition round_signed (num den : Z) : double := double_of_ratio (num <? 0) (Z.abs num) den.

Definition is_neg (d : double) : bool := match d with DFin neg _ _ | DInf neg => neg | DNaN => false end.
Definition is_zero (d : double) : bool := match d with DFin _ m _ => m =? 0 | _ => false end.

Definition fmul (a b : double) : double :=
  match a, b with
  | DNaN, _ | _, DNaN => DNaN
  | DFin na ma ea, DFin nb mb eb =>
      let '(n1, d1) := ratio na ma ea in let '(n2, d2) := ratio nb mb eb in
      if n1 * n2 =? 0 then DFin (xorb na nb) 0 EMIN else round_signed (n1 * n2) (d1 * d2)
  | _, _ => if is_zero a || is_zero b then DNaN else DInf (xorb (is_neg a) (is_neg b))
  end.

Definition fadd (a b : double) : double :=
  match a, b with
  | DNaN, _ | _, DNaN => DNaN
  | DInf na, DInf nb => if Bool.eqb na nb then DInf na else DNaN
  | DInf na, _ => DInf na
  | _, DInf nb => DInf nb
  | DFin na ma ea, DFin nb mb eb =>
      let '(n1, d1) := ratio na ma ea in let '(n2, d2) := ratio nb mb eb in
      let n := n1 * d2 + n2 * d1 in
      if n =? 0 then DFin (na && nb) 0 EMIN else round_signed n (d1 * d2)
  end.

(** [a / b] of a [float] by a nonzero finite one. *)
Definition fdiv (a b : double) : result double :=
  match a, b with
  | DNaN, _ | _, DNaN => Ok DNaN
  | DInf _, DInf _ => Ok DNaN
  | DFin na _ _, DInf nb => Ok (DFin (xorb na nb) 0 EMIN)
  | _, DFin nb mb eb =>
      if mb =? 0 then Err ZeroDivisionError else
      match a with
      | DFin na ma ea =>
          let '(n1, d1) := ratio na ma ea in let '(n2, d2) := ratio nb mb eb in
          if n1 =? 0 then Ok (DFin (xorb na nb) 0 EMIN)
          else Ok (round_signed (n1 * d2 * Z.sgn n2) (d1 * Z.abs n2))
      | _ => Ok (DInf (xorb (is_neg a) nb))
      end
  end.

(** [float(z)] *)
Definition to_float (z : Z) : result double :=
  match double_of_Z z with Some d => Ok d | None => Err OverflowError end.

(** [x / y] of two [int]s: rounded once. *)
Definition int_div (x y : Z) : result double :=
  if y =? 0 then Err ZeroDivisionError else
  match round_signed (x * Z.sgn y) (Z.abs y) with DInf _ => Err OverflowError | d => Ok d end.

(** [int(x)] of a [float]: truncated towards zero. *)
Definition int_of_double (d : double) : result Z :=
  match d with
  | DFin neg m e => let a := if e <? 0 then m / 2 ^ (- e) else m * 2 ^ e in Ok (if neg then - a else a)
  | DInf _ => Err OverflowError
  | DNaN => Err (ValueError [Lit "cannot convert float NaN to integer"])
  end.

(** [z > d], [z <= d] and [z >= d], exact. *)
Definition int_gt (z : Z) (d : double) : bool :=
  match d with
  | DFin neg m e => let '(n, den) := ratio neg m e in n <? z * den
  | DInf neg => neg
  | DNaN => false
  end.

Definition int_le (z : Z) (d : double) : bool :=
  match d with
  | DFin neg m e => let '(n, den) := ratio neg m e in z * den <=? n
  | DInf neg => negb neg
  | DNaN => false
  end.

Definition int_ge (z : Z) (d : double) : bool :=
  match d with
  | DFin neg m e => let '(n, den) := ratio neg m e in n <=? z * den
  | DInf neg => neg
  | DNaN => false
  end.

(** [a <= b] *)
Definition fle (a b : double) : bool :=
  match a, b with
  | DNaN, _ | _, DNaN => false
  | DInf na, DInf nb => na || negb nb
  | DInf na, _ => na
  | _, DInf nb => negb nb
  | DFin na ma ea, DFin nb mb eb =>
      let '(n1, d1) := ratio na ma ea in let '(n2, d2) := ratio nb mb eb in n1 * d2 <=? n2 * d1
  end.

(** [1_000_000.0] *)
Definition MILLION : double := DFin false 8589934592000000 (-33).

(** ** Properties *)

Lemma ratio_pos neg m e : 0 < snd (ratio neg m e).
Proof. unfold ratio. destruct (Z.ltb_spec e 0); cbn; [apply Z.pow_pos_nonneg; lia|lia]. Qed.

(** A comparison with an [int] has one of two outcomes. *)
Lemma int_gt_le z d : d ≠ DNaN → int_gt z d = negb (int_le z d).
Proof.
  destruct d as [neg m e|neg|]; [| |done]; intros _; cbn.
  - destruct (ratio neg m e) as [n den]. by rewrite Z.leb_antisym, negb_involutive.
  - by rewrite negb_involutive.
Qed.

(** Larger [int]s compare alike. *)
Lemma int_gt_mono z z' d : z ≤ z' → int_gt z d = true → int_gt z' d = true.
Proof.
  intros Hz. destruct d as [neg m e|neg|]; cbn; [|done..]. pose proof (ratio_pos neg m e) as Hp.
  destruct (ratio neg m e) as [n den]. cbn in Hp. rewrite !Z.ltb_lt. nia.
Qed.

Lemma million_exact : double_of_Z 1000000 = Some MILLION.
Proof. evaluates. Qed.

(** ** No overflow *)

Lemma floor_log2_le num den : 0 < den → floor_log2 num den ≤ Z.log2 num.
Proof.
  intros Hd. unfold floor_log2. pose proof (Z.log2_nonneg den). destruct (scaled _ _ _) as [n d].
  destruct (n <? d); lia.
Qed.

Lemma round_signed_finite num den : 0 < den → Z.abs num < 2 ^ 1022 → ∃ neg m e, round_signed num den = DFin neg m e.
Proof.
  intros Hd Hn. unfold round_signed, double_of_ratio, round_ratio. destruct (Z.eqb_spec (Z.abs num) 0) as [E|E]; [by eauto|].
  pose proof (floor_log2_le (Z.abs num) den Hd) as Hl.
  assert (Z.log2 (Z.abs num) < 1022) as Hlog by (apply Z.log2_lt_pow2; lia).
  set (e := Z.max _ _). assert (e ≤ 970) as He by (unfold e, EMIN; lia). clearbody e.
  destruct (scaled (Z.abs num) den e) as [n d]. destruct (round_even n d =? 2 ^ 53); unfold EMAX.
  - destruct (Z.ltb_spec 971 (e + 1)); [lia|eauto].
  - destruct (Z.ltb_spec 971 e); [lia|eauto].
Qed.

(** ** Integers of ordinary size *)

Lemma to_float_total z : Z.abs z < 2 ^ 1022 → ∃ neg m e, to_float z = Ok (DFin neg m e).
Proof.
  intros Hz. destruct (round_signed_finite z 1 ltac:(lia) Hz) as (neg & m & e & E).
  unfold round_signed in E. unfold to_float, double_of_Z. rewrite E. eauto.
Qed.

Lemma int_div_total x y : 0 < y → Z.abs x < 2 ^ 1022 → ∃ neg m e, int_div x y = Ok (DFin neg m e).
Proof.
  intros Hy Hx. unfold int_div. destruct (Z.eqb_spec y 0); [lia|]. rewrite Z.sgn_pos, Z.mul_1_r, Z.abs_eq by lia.
  destruct (round_signed_finite x y Hy Hx) as (neg & m & e & ->). eauto.
Qed.
