(* ===== verification/Correlator.v ===== *)
(** * The event correlator ([tools/agent/event_correlator.py])

    Client and server events indexed by correlation id and by type, with
    eviction by age.  The two indices and the count always describe one flat
    list of events in order of arrival, the specification. *)

From S2P Require Import Prelude PyStruct PyText PyFloat PyJson PyArith.

#[local] Open Scope Z_scope.

(** ** Events *)

Inductive EventKind := CLIENT | SERVER.

#[global] Instance EventKind_eq_dec : EqDecision EventKind.
Proof. solve_decision. Defined.

(** [tools.agent.ahc.ClientEvent] *)
Record ClientEvent := mkClientEvent {
  ce_ts_mono_ns : Z;
  ce_type_id : Z;
  ce_correlation_id : Z;
  ce_payload : bytes;
}.

Record CorrelatedEvent := mkEvent {
  ts_mono_ns : Z;
  source : pystr;
  kind : EventKind;
  correlation_id : Z;
  type_id : Z;
  payload : bytes;
  detail : list (pystr * jval);
}.

Definition from_client (src : pystr) (e : ClientEvent) : CorrelatedEvent :=
  mkEvent (ce_ts_mono_ns e) src CLIENT (ce_correlation_id e) (ce_type_id e) (ce_payload e) [].

(** [str(value)] of an array or an object starts with a bracket, which
    [int] rejects. *)
Definition _to_int (value : option jval) : result Z :=
  match value with
  | None | Some JNull => Ok 0
  | Some (JBool b) => Ok (if b then 1 else 0)
  | Some (JInt z) => Ok z
  | Some (JFloat d) => int_of_double d
  | Some (JStr s) => Ok (default 0 (py_int 10 s))
  | Some (JArr _) | Some (JObj _) => Ok 0
  end.

(** [event.get(key)] *)
Definition field (key : pystr) (event : list (pystr * jval)) : option jval :=
  snd <$> head (filter (λ p, fst p = key) event).

(** [now] is the clock at the call. *)
Definition from_server (now : Z) (src : pystr) (event : list (pystr * jval)) : result CorrelatedEvent :=
  c ← _to_int (field (str "correlation_id") event);
  t ← _to_int (field (str "type_id") event);
  Ok (mkEvent now src SERVER c t [] event).

(** ** Buckets *)

Definition fresh (cutoff : Z) (e : CorrelatedEvent) : Prop := cutoff ≤ ts_mono_ns e.

#[global] Instance fresh_dec cutoff e : Decision (fresh cutoff e).
Proof. unfold fresh. apply _. Defined.

#[local] Abbreviation buckets := (list (Z * list CorrelatedEvent)).

(** Keep what is recent; drop the buckets that become empty. *)
Fixpoint bucket_evict (cutoff : Z) (d : buckets) : buckets :=
  match d with
  | [] => []
  | (k, b) :: d =>
      match filter (fresh cutoff) b with
      | [] => bucket_evict cutoff d
      | kept => (k, kept) :: bucket_evict cutoff d
      end
  end.

(** ** The correlator *)

Definition _NO_CORRELATION : Z := 0.

Record EventCorrelator := mkCorrelator {
  _window_ns : Z;
  _by_correlation : buckets;
  _by_type : buckets;
  _event_count : Z;
}.

(** [1_000_000_000] as a [float] *)
Definition BILLION : double := DFin false 8388608000000000 (-23).

Definition correlator_init (window_s : double) : result EventCorrelator :=
  window_ns ← int_of_double (fmul window_s BILLION);
  Ok (mkCorrelator window_ns [] [] 0).

Definition total (d : buckets) : Z := foldr (λ p n, Z.of_nat (length (snd p)) + n) 0 d.

Definition evict (now : Z) (s : EventCorrelator) : EventCorrelator :=
  let cutoff := now - _window_ns s in
  let by_type := bucket_evict cutoff (_by_type s) in
  mkCorrelator (_window_ns s) (bucket_evict cutoff (_by_correlation s)) by_type (total by_type).

Definition _index (e : CorrelatedEvent) (s : EventCorrelator) : EventCorrelator :=
  mkCorrelator (_window_ns s)
    (if correlation_id e =? _NO_CORRELATION then _by_correlation s
     else bucket_add (correlation_id e) e (_by_correlation s))
    (bucket_add (type_id e) e (_by_type s)) (_event_count s + 1).

Definition flush (s : EventCorrelator) : EventCorrelator := mkCorrelator (_window_ns s) [] [] 0.

Definition ingest_client (now : Z) (src : pystr) (e : ClientEvent) (s : EventCorrelator) : EventCorrelator :=
  _index (from_client src e) (evict now s).

Definition ingest_client_batch (now : Z) (src : pystr) (es : list ClientEvent) (s : EventCorrelator) : EventCorrelator :=
  foldl (λ s e, _index (from_client src e) s) (evict now s) es.

(** Each server event has the clock reading it is stamped with; an event
    that cannot be read ends the call. *)
Fixpoint index_server (src : pystr) (es : list (Z * list (pystr * jval))) (s : EventCorrelator)
    : EventCorrelator * result unit :=
  match es with
  | [] => (s, Ok tt)
  | (now, e) :: es =>
      match from_server now src e with
      | Ok e => index_server src es (_index e s)
      | Err x => (s, Err x)
      end
  end.

Definition ingest_server (now : Z) (src : pystr) (stamp : Z) (e : list (pystr * jval)) (s : EventCorrelator)
    : EventCorrelator * result unit :=
  index_server src [(stamp, e)] (evict now s).

Definition ingest_server_batch (now : Z) (src : pystr) (es : list (Z * list (pystr * jval))) (s : EventCorrelator)
    : EventCorrelator * result unit :=
  index_server src es (evict now s).

(** ** Queries *)

Definition by_time (es : list CorrelatedEvent) : list CorrelatedEvent := sorted_by ts_mono_ns es.

Definition selected (src : option pystr) (k : option EventKind) (e : CorrelatedEvent) : Prop :=
  (src = None ∨ src = Some (source e)) ∧ (k = None ∨ k = Some (kind e)).

#[global] Instance selected_dec src k e : Decision (selected src k e).
Proof. unfold selected. apply _. Defined.

Definition _filter (events : list CorrelatedEvent) (src : option pystr) (k : option EventKind) : list CorrelatedEvent :=
  by_time (filter (selected src k) events).

Definition find_by_correlation (c : Z) (s : EventCorrelator) : list CorrelatedEvent :=
  by_time (bucket_get c (_by_correlation s)).

Definition find_by_type (t : Z) (src : option pystr) (k : option EventKind) (s : EventCorrelator) : list CorrelatedEvent :=
  _filter (bucket_get t (_by_type s)) src k.

Definition find_matching (predicate : CorrelatedEvent → bool) (src : option pystr) (k : option EventKind)
    (s : EventCorrelator) : list CorrelatedEvent :=
  by_time (d ← _by_type s; filter (λ e, predicate e = true) (_filter (snd d) src k)).

Definition correlations (s : EventCorrelator) : list Z := fst <$> _by_correlation s.
Definition correlation_count (s : EventCorrelator) : Z := Z.of_nat (length (_by_correlation s)).
Definition event_count (s : EventCorrelator) : Z := _event_count s.

(** ** Specification *)

(** The events as one list in order of arrival. *)
Inductive operation :=
  | OpClient (now : Z) (src : pystr) (e : ClientEvent)
  | OpClientBatch (now : Z) (src : pystr) (es : list ClientEvent)
  | OpServer (now : Z) (src : pystr) (stamp : Z) (e : list (pystr * jval))
  | OpServerBatch (now : Z) (src : pystr) (es : list (Z * list (pystr * jval)))
  | OpEvict (now : Z)
  | OpFlush.

Definition perform (o : operation) (s : EventCorrelator) : EventCorrelator * result unit :=
  match o with
  | OpClient now src e => (ingest_client now src e s, Ok tt)
  | OpClientBatch now src es => (ingest_client_batch now src es s, Ok tt)
  | OpServer now src stamp e => ingest_server now src stamp e s
  | OpServerBatch now src es => ingest_server_batch now src es s
  | OpEvict now => (evict now s, Ok tt)
  | OpFlush => (flush s, Ok tt)
  end.

(** JSON as Python reads it has the numbers NaN and Infinity, which [int]
    raises on; every other value of a field gives a number. *)
Definition legible_field (v : option jval) : Prop :=
  match v with Some (JFloat (DInf _)) | Some (JFloat DNaN) => False | _ => True end.

Definition legible_event (e : list (pystr * jval)) : Prop :=
  legible_field (field (str "correlation_id") e) ∧ legible_field (field (str "type_id") e).

Definition legible (o : operation) : Prop :=
  match o with
  | OpServer _ _ _ e => legible_event e
  | OpServerBatch _ _ es => Forall (λ p, legible_event (snd p)) es
  | _ => True
  end.

(** A field is 0 if it is absent or not a number. *)
Definition number_of (v : option jval) : Z :=
  match v with
  | Some (JBool b) => if b then 1 else 0
  | Some (JInt z) => z
  | Some (JFloat d) => match int_of_double d with Ok z => z | Err _ => 0 end
  | Some (JStr s) => default 0 (py_int 10 s)
  | _ => 0
  end.

Definition server_event (src : pystr) (p : Z * list (pystr * jval)) : CorrelatedEvent :=
  mkEvent (fst p) src SERVER (number_of (field (str "correlation_id") (snd p))) (number_of (field (str "type_id") (snd p))) [] (snd p).

Definition recent (window now : Z) (l : list CorrelatedEvent) : list CorrelatedEvent :=
  filter (λ e, now - ts_mono_ns e ≤ window) l.

Definition spec_perform (window : Z) (l : list CorrelatedEvent) (o : operation) : list CorrelatedEvent :=
  match o with
  | OpClient now src e => recent window now l ++ [from_client src e]
  | OpClientBatch now src es => recent window now l ++ (from_client src <$> es)
  | OpServer now src stamp e => recent window now l ++ [server_event src (stamp, e)]
  | OpServerBatch now src es => recent window now l ++ (server_event src <$> es)
  | OpEvict now => recent window now l
  | OpFlush => []
  end.

(** The correlator after a sequence of calls, and what each returned. *)
Definition run_ops (ops : list operation) (s : EventCorrelator) : EventCorrelator * list (result unit) :=
  foldl (λ '(s, rs) o, let '(s, r) := perform o s in (s, rs ++ [r])) (s, []) ops.

(** Every query answers from the flat list. *)
Record answers (s : EventCorrelator) (l : list CorrelatedEvent) : Prop := {
  an_count : event_count s = Z.of_nat (length l);
  an_correlation c : find_by_correlation c s = if c =? _NO_CORRELATION then [] else
    by_time (filter (λ e, correlation_id e = c) l);
  an_type t src k : find_by_type t src k s = by_time (filter (λ e, type_id e = t ∧ selected src k e) l);
  an_matching p src k : find_matching p src k s ≡ₚ filter (λ e, p e = true ∧ selected src k e) l ∧
    ascending ts_mono_ns (find_matching p src k s) = true ∧
    ∀ t, filter (λ e, type_id e = t) (find_matching p src k s) = by_time (filter (λ e, type_id e = t ∧ p e = true ∧ selected src k e) l);
  an_correlations c : c ∈ correlations s ↔ c ≠ _NO_CORRELATION ∧ ∃ e, e ∈ l ∧ correlation_id e = c;
  an_distinct : NoDup (correlations s) ∧ correlation_count s = Z.of_nat (length (correlations s));
}.

(** ** Buckets hold the list *)

Lemma bucket_evict_keys c d k : k ∈ (bucket_evict c d).*1 → k ∈ d.*1.
Proof.
  induction d as [|[k0 b] d IH]; cbn; [done|]. destruct (filter (fresh c) b); cbn; set_solver.
Qed.

Lemma bucket_get_evict c d k : NoDup d.*1 → bucket_get k (bucket_evict c d) = filter (fresh c) (bucket_get k d).
Proof.
  induction d as [|[k0 b] d IH]; intros Hn; [done|]. cbn [bucket_evict]. cbn in Hn. apply NoDup_cons in Hn as [Hk Hn].
  rewrite bucket_get_cons. specialize (IH Hn). destruct (filter (fresh c) b) as [|x kept] eqn:E.
  - case_decide as Hd; [|done]. subst k0. rewrite E. unfold bucket_get.
    destruct (filter _ (bucket_evict c d)) as [|[k' b'] r] eqn:Er; [done|]. exfalso. apply Hk, (bucket_evict_keys c).
    assert ((k', b') ∈ filter (λ p, p.1 = k) (bucket_evict c d)) as Hin by (rewrite Er; left).
    apply list_elem_of_filter in Hin as [E' Hin]. apply list_elem_of_fmap. exists (k', b'). by rewrite <- E'.
  - rewrite bucket_get_cons. case_decide; [by rewrite E|done].
Qed.

Lemma bucket_get_absent k (d : buckets) : k ∉ d.*1 → bucket_get k d = [].
Proof. induction d as [|[k0 b] d IH]; cbn; [done|]. rewrite bucket_get_cons. intros Hk. rewrite decide_False by set_solver. apply IH. set_solver. Qed.

Lemma bucket_get_elem (d : buckets) p : NoDup d.*1 → p ∈ d → bucket_get p.1 d = p.2.
Proof.
  induction d as [|[k0 b] d IH]; intros Hn Hp; [by apply elem_of_nil in Hp|]. cbn in Hn. apply NoDup_cons in Hn as [Hk Hn].
  rewrite bucket_get_cons. apply elem_of_cons in Hp as [->|Hp]; [by rewrite decide_True|]. rewrite decide_False; [by apply IH|].
  intros ->. apply Hk, list_elem_of_fmap. by exists p.
Qed.

Lemma holds_evict f d l c : holds f d l → holds f (bucket_evict c d) (filter (fresh c) l).
Proof.
  intros [Hk Hg Hf Ha]. split.
  - clear Hg Hf Ha. induction d as [|[k0 b] d IH]; [done|]. cbn in *. apply NoDup_cons in Hk as [Hk Hn].
    destruct (filter (fresh c) b); [by apply IH|]. cbn. apply NoDup_cons. split; [|by apply IH].
    by intros ?%bucket_evict_keys.
  - intros k. rewrite bucket_get_evict, Hg by done. by rewrite !list_filter_filter; apply list_filter_iff; tauto.
  - clear. induction d as [|[k0 b] d IH]; intros p; cbn; [by intros ?%elem_of_nil|].
    destruct (filter (fresh c) b) eqn:E; [apply IH|]. intros [->|?]%elem_of_cons; [done|by apply IH].
  - rewrite <- Ha. clear. induction d as [|[k0 b] d IH]; [done|]. cbn [bucket_evict mbind list_bind fmap list_fmap snd].
    rewrite filter_app. destruct (filter (fresh c) b) eqn:E; cbn; by rewrite IH.
Qed.

(** ** Refinement *)

Record represents (s : EventCorrelator) (l : list CorrelatedEvent) : Prop := {
  rp_type : holds type_id (_by_type s) l;
  rp_correlation : holds correlation_id (_by_correlation s) (filter (λ e, correlation_id e ≠ _NO_CORRELATION) l);
  rp_count : _event_count s = Z.of_nat (length l);
}.

Lemma represents_index s l e : represents s l → represents (_index e s) (l ++ [e]).
Proof.
  intros [Ht Hc Hn]. split; cbn.
  - by apply holds_add.
  - rewrite filter_app, filter_cons, filter_nil. destruct (Z.eqb_spec (correlation_id e) _NO_CORRELATION) as [E|E].
    + rewrite decide_False by (intros Hx; by apply Hx). by rewrite app_nil_r.
    + rewrite decide_True by done. by apply holds_add.
  - rewrite length_app. cbn. lia.
Qed.

Lemma represents_indexes s l es : represents s l → represents (foldl (λ s e, _index e s) s es) (l ++ es).
Proof.
  revert s l. induction es as [|e es IH]; intros s l Hr; cbn; [by rewrite app_nil_r|].
  rewrite cons_middle, app_assoc. by apply IH, represents_index.
Qed.

Lemma total_length d : total d = Z.of_nat (length (d ≫= snd)).
Proof. unfold total. induction d as [|[k b] d IH]; [done|]. cbn in *. rewrite length_app, IH. lia. Qed.

Lemma recent_fresh window now l : recent window now l = filter (fresh (now - window)) l.
Proof. apply list_filter_iff. unfold fresh. intros e. lia. Qed.

Lemma represents_evict s l now : represents s l → represents (evict now s) (recent (_window_ns s) now l).
Proof.
  intros [Ht Hc Hn]. rewrite recent_fresh. set (c := now - _window_ns s). split; cbn; fold c.
  - by apply holds_evict.
  - apply (holds_evict _ _ _ c) in Hc. by rewrite !list_filter_filter in *; erewrite list_filter_iff; [apply Hc|cbn; tauto].
  - rewrite total_length. apply (holds_evict _ _ _ c) in Ht as [_ _ _ ->]. done.
Qed.

Lemma to_int_legible v : legible_field v → _to_int v = Ok (number_of v).
Proof. destruct v as [[]|]; try done. cbn. by destruct d. Qed.

Lemma index_server_legible src es s : Forall (λ p, legible_event (snd p)) es →
  index_server src es s = (foldl (λ s e, _index e s) s (server_event src <$> es), Ok tt).
Proof.
  intros Hes. revert s. induction Hes as [|[now e] es [Hc Ht] Hes IH]; intros s; [done|]. cbn [index_server]. unfold from_server.
  rewrite !to_int_legible by done. apply IH.
Qed.

Lemma window_indexes s es : _window_ns (foldl (λ s e, _index e s) s es) = _window_ns s.
Proof. revert s. induction es as [|e es IH]; intros s; [done|]. cbn. by rewrite IH. Qed.

Lemma client_batch_indexes src es s :
  foldl (λ s e, _index (from_client src e) s) s es = foldl (λ s e, _index e s) s (from_client src <$> es).
Proof. by rewrite foldl_fmap. Qed.

Lemma perform_spec o s l : legible o → represents s l →
  (perform o s).2 = Ok tt ∧ represents (perform o s).1 (spec_perform (_window_ns s) l o) ∧ _window_ns (perform o s).1 = _window_ns s.
Proof.
  intros Ho Hr. destruct o as [now src e|now src es|now src stamp e|now src es|now|]; cbn [perform spec_perform legible] in *.
  - split; [done|]. split; [|done]. by apply represents_index, represents_evict.
  - split; [done|]. unfold ingest_client_batch; rewrite client_batch_indexes. cbn. split; [|by rewrite window_indexes].
    by apply represents_indexes, represents_evict.
  - unfold ingest_server. rewrite index_server_legible by by apply Forall_singleton. split; [done|]. split; [|done].
    by apply represents_index, represents_evict.
  - unfold ingest_server_batch. rewrite index_server_legible by done. split; [done|]. cbn [fst]. split; [|by rewrite window_indexes].
    by apply represents_indexes, represents_evict.
  - split; [done|]. split; [|done]. by apply represents_evict.
  - split; [done|]. split; [|done]. split; [apply holds_nil..|done].
Qed.

(** ** Answers *)

(** The events of one key among what is taken from every bucket. *)
Lemma filter_buckets (g : list CorrelatedEvent → list CorrelatedEvent) (d : buckets) t :
  NoDup d.*1 → (∀ b, filter (λ e, type_id e = t) (g b) = g (filter (λ e, type_id e = t) b)) → g [] = [] →
  (∀ p e, p ∈ d → e ∈ snd p → type_id e = fst p) →
  filter (λ e, type_id e = t) (p ← d; g (snd p)) = g (bucket_get t d).
Proof.
  intros Hn Hg H0. induction d as [|[k b] d IH]; intros Hd; [done|]. cbn in Hn. apply NoDup_cons in Hn as [Hk Hn].
  cbn [mbind list_bind snd]. rewrite filter_app, Hg, IH by (done || (intros p e Hp; apply Hd; by right)). rewrite bucket_get_cons.
  assert (∀ e, e ∈ b → type_id e = k) as Hb by (intros e He; apply (Hd (k, b)); [left|done]). case_decide as E.
  - rewrite filter_all by (apply Forall_forall; intros e He; rewrite <- E; by apply Hb). rewrite bucket_get_absent by by rewrite <- E.
    by rewrite H0, app_nil_r.
  - rewrite filter_none; [by rewrite H0|]. apply Forall_forall. intros e He. by rewrite (Hb e He).
Qed.

Lemma bucket_elements f (d : buckets) l p e : holds f d l → p ∈ d → e ∈ snd p → f e = fst p.
Proof.
  intros [Hk Hg _ _] Hp He. specialize (Hg p.1). rewrite (bucket_get_elem _ _ Hk Hp) in Hg. rewrite Hg in He.
  by apply list_elem_of_filter in He as [? _].
Qed.

Lemma matching_type s l p src k t : holds type_id (_by_type s) l →
  filter (λ e, type_id e = t) (find_matching p src k s) = by_time (filter (λ e, type_id e = t ∧ p e = true ∧ selected src k e) l).
Proof.
  intros Ht. unfold find_matching, by_time. rewrite sorted_by_filter_any.
  rewrite (filter_buckets (λ b, filter (λ e, p e = true) (_filter b src k))).
  - rewrite (hd_get _ _ _ Ht). unfold _filter, by_time. rewrite sorted_by_filter_any, (sorted_by_id _ (sorted_by _ _)) by apply sorted_by_ascending.
    rewrite !list_filter_filter. f_equal. apply list_filter_iff. tauto.
  - apply Ht.
  - intros b. unfold _filter, by_time. rewrite !sorted_by_filter_any, !list_filter_filter. f_equal. apply list_filter_iff. tauto.
  - done.
  - intros q e. by apply bucket_elements with (l := l).
Qed.

Lemma represents_answers s l : represents s l → answers s l.
Proof.
  intros [Ht Hc Hn]. pose proof Ht as [Tk Tg Tf Ta]. destruct Hc as [Ck Cg Cf Ca]. split.
  - done.
  - intros c. unfold find_by_correlation. rewrite Cg, list_filter_filter. destruct (Z.eqb_spec c _NO_CORRELATION) as [->|Hne].
    + rewrite filter_none; [done|]. apply Forall_forall. tauto.
    + f_equal. apply list_filter_iff. intros e. split; [tauto|]. intros E. by rewrite E.
  - intros t src k. unfold find_by_type, _filter. by rewrite Tg, list_filter_filter; f_equal; apply list_filter_iff; tauto.
  - intros p src k. split; [|split; [apply sorted_by_ascending|intros t; by apply matching_type]]. unfold find_matching.
    unfold by_time. rewrite sorted_by_perm, <- Ta, filter_bind_perm. apply bind_perm. intros [t b]. cbn [snd].
    unfold _filter, by_time. rewrite sorted_by_perm, list_filter_filter. done.
  - intros c. unfold correlations. rewrite (bucket_keys_get _ _ Cf Ck), Cg, filter_some. split.
    + intros (e & Hin & <-). apply list_elem_of_filter in Hin as [? ?]. eauto.
    + intros (Hne & e & Hin & <-). exists e. by rewrite list_elem_of_filter.
  - split; [done|]. unfold correlation_count, correlations. by rewrite length_fmap.
Qed.

(** C20: After any sequence of ingests, evictions and flushes on a new
    correlator, what it holds is a plain list of events in arrival order, of
    which an eviction keeps those not older than the window, and no call
    raises: the lookups by correlation id and by type return exactly the
    events of the list that match, ordered by time and then by arrival; the
    lookup by predicate returns exactly the matching events ordered by time,
    those of one type also by arrival, with no stated order between types at
    equal times; the correlation ids in use are listed once each, in no stated
    order; and both counts are exact. (The window is a finite number of
    seconds, and no server event's correlation or type id is NaN or infinite,
    on which the code raises.) *)
Theorem correlator_refines window_s s0 ops : correlator_init window_s = Ok s0 → Forall legible ops →
  let '(s, rs) := run_ops ops s0 in
  answers s (foldl (spec_perform (_window_ns s0)) [] ops) ∧ rs = replicate (length ops) (Ok tt).
Proof.
  unfold correlator_init. destruct (int_of_double _) as [window|]; [|done]. intros [= <-] Hops. cbn [_window_ns].
  cut (let '(s, rs) := run_ops ops (mkCorrelator window [] [] 0) in
    represents s (foldl (spec_perform window) [] ops) ∧ rs = replicate (length ops) (Ok tt) ∧ _window_ns s = window).
  { destruct (run_ops ops _). intros (Hr & Hrs & _). split; [|done]. by apply represents_answers. }
  induction ops as [|o ops IH] using rev_ind; [by repeat split; try apply holds_nil|].
  apply Forall_app in Hops as [Hops Ho]. apply Forall_cons in Ho as [Ho _]. specialize (IH Hops).
  unfold run_ops in *. rewrite !foldl_app. cbn [foldl]. destruct (foldl _ (mkCorrelator window [] [] 0, []) ops) as [s rs].
  destruct IH as (Hr & -> & <-). pose proof (perform_spec o s _ Ho Hr) as (Hr' & Hs & Hw). destruct (perform o s) as [s' r]. cbn in *.
  split; [done|]. split; [|done]. by rewrite Hr', length_app, replicate_add.
Qed.
