(* ===== verification/GapLedger.v ===== *)
(** * The flicker-gap ledger ([tools/agent/gap_ledger.py])

    Gaps in the frames each client receives, merged into clusters per server
    instance, with the spread of arrivals and the scheduler counters of the
    sampled processes ([tools/agent/proc_sampler.py]) around them. *)

From S2P Require Import Prelude PyStruct PyText PyFloat PyArith.

#[local] Open Scope Z_scope.

(** ** Sampled counters *)

Record ThreadSample := mkThreadSample {
  ts_tid : Z;
  ts_comm : pystr;
  ts_utime_ticks : Z;
  ts_stime_ticks : Z;
  ts_nvcsw : Z;
  ts_nivcsw : Z;
}.

Record TargetSample := mkTargetSample { tg_target : pystr; tg_pid : Z; tg_threads : list ThreadSample }.
Record ProcSample := mkProcSample { ps_t_ns : Z; ps_targets : list TargetSample }.
Record ProcTrace := mkProcTrace { pt_interval_s : double; pt_clk_tck : Z; pt_samples : list ProcSample }.

(** ** Constants *)

Definition _CLUSTER_TOLERANCE_MS : double := DFin false 7036874417766400 (-46).
Definition _CATCHUP_WINDOW_MS : double := DFin false 7036874417766400 (-46).
Definition _SPREAD_BASELINE_MARGIN_MS : double := DFin false 5277655813324800 (-45).
Definition _CPU_BUSY_FRACTION : double := DFin false 4503599627370496 (-53).
Definition _SWITCH_ELEVATION_FACTOR : double := DFin false 6755399441055744 (-51).
Definition _SWITCH_ELEVATION_MARGIN : Z := 8.
Definition _VERDICT_BUSY : pystr := str "cpu-busy".
Definition _VERDICT_PREEMPTED : pystr := str "preempted".
Definition _VERDICT_BLOCKED : pystr := str "blocked".
Definition _VERDICT_QUIET : pystr := str "quiet".
Definition _VERDICT_UNBASELINED : pystr := str "unbaselined".
Definition _TICK_THREAD_COMM : pystr := str "kith-server-run".
Definition _LEADING_EDGE_TICK : Z := -1.

(** [200.0], [0.0], [2.0], [1000.0] and [1e9] *)
Definition GAP_THRESHOLD_MS : double := DFin false 7036874417766400 (-45).
Definition ZERO : double := DFin false 0 EMIN.
Definition TWO : double := DFin false 4503599627370496 (-51).
Definition THOUSAND : double := DFin false 8796093022208000 (-43).
Definition BILLION : double := DFin false 8388608000000000 (-23).

(** ** Series and gaps *)

Record SeriesFrame := mkFrame { fr_ts_ns : Z; fr_input_tick : Z; fr_update_seq : Z }.

Record ClientSeries := mkSeries {
  se_name : pystr;
  se_instance_index : Z;
  se_window_start_ns : Z;
  se_window_end_ns : Z;
  se_frames : list SeriesFrame;
}.

Record ClientGap := mkGap { gp_start_ns : Z; gp_end_ns : Z; gp_last_tick : Z; gp_first_tick : Z }.

Record GapClusterRecord := mkCluster {
  gc_instance_index : Z;
  gc_start_ns : Z;
  gc_end_ns : Z;
  gc_duration_ms : Z;
  gc_participants : Z;
  gc_sampled_on_instance : Z;
  gc_onset_spread_ms : Z;
  gc_aligned_onset : bool;
  gc_last_ticks : list Z;
  gc_first_ticks : list Z;
  gc_ranges_agree : bool;
  gc_resume_spread_ms : option Z;
  gc_catchup_median : double;
}.

Record InstanceTickSpread := mkSpread {
  is_instance_index : Z;
  is_ticks : Z;
  is_median_ms : option double;
  is_p95_ms : option double;
}.

Record TargetAttributionRow := mkRow {
  ro_target : pystr;
  ro_scope : pystr;
  ro_wall_ms : Z;
  ro_cpu_ms : double;
  ro_utime_ms : double;
  ro_stime_ms : double;
  ro_nvcsw_delta : Z;
  ro_nivcsw_delta : Z;
  ro_verdict : pystr;
}.

Record ClusterAttribution := mkAttribution {
  at_instance_index : Z;
  at_start_ns : Z;
  at_rows : list TargetAttributionRow;
}.

Record FlickerLedger := mkLedger {
  lg_window_start_ns : Z;
  lg_interval_s : double;
  lg_clk_tck : Z;
  lg_clusters : list GapClusterRecord;
  lg_attributions : list ClusterAttribution;
  lg_tick_spreads : list InstanceTickSpread;
}.

(** [itertools.pairwise] *)
Fixpoint pairwise {A} (l : list A) : list (A * A) :=
  match l with a :: (b :: _) as l => (a, b) :: pairwise l | _ => [] end.

(** [min] and [max] of a nonempty list. *)
Definition min_of (l : list Z) : Z := match l with [] => 0 | x :: l => foldl Z.min x l end.
Definition max_of (l : list Z) : Z := match l with [] => 0 | x :: l => foldl Z.max x l end.

(** [sorted(set(l))] *)
Definition sorted_set (l : list Z) : list Z := sorted_by id (remove_dups l).

Definition client_gaps (series : ClientSeries) (threshold_ms : double) : list ClientGap :=
  let frames := sorted_by fr_ts_ns (se_frames series) in
  let floor_ns := fmul threshold_ms MILLION in
  match frames with
  | [] => []
  | first :: _ =>
      (if int_gt (fr_ts_ns first - se_window_start_ns series) floor_ns
       then [mkGap (se_window_start_ns series) (fr_ts_ns first) _LEADING_EDGE_TICK (fr_input_tick first)] else [])
      ++ (pc ← pairwise frames;
          let '(prev, curr) := pc in
          if int_gt (fr_ts_ns curr - fr_ts_ns prev) floor_ns
          then [mkGap (fr_ts_ns prev) (fr_ts_ns curr) (fr_input_tick prev) (fr_input_tick curr)] else [])
  end.

(** ** Statistics *)

(** Average of the two middle values for an even count. *)
Definition _median (values : list Z) : result double :=
  match values with
  | [] => Ok ZERO
  | _ =>
      let ordered := sorted_by id values in
      let mid := (length ordered / 2)%nat in
      if Nat.odd (length ordered) then to_float (nth mid ordered 0)
      else s ← to_float (nth (mid - 1) ordered 0 + nth mid ordered 0); fdiv s TWO
  end.

Definition percentile_index (n : nat) (pct : Z) : Z :=
  Z.max 0 (Z.min (Z.of_nat n - 1) ((pct * Z.of_nat n + 99) / 100 - 1)).

Definition _percentile (ordered : list Z) (pct : Z) : result double :=
  match ordered with
  | [] => Ok ZERO
  | _ => to_float (nth (Z.to_nat (percentile_index (length ordered) pct)) ordered 0)
  end.

(** [int(ns / 1_000_000)] *)
Definition whole_ms (ns : Z) : result Z := q ← int_div ns 1000000; int_of_double q.

(** ** Clusters *)

Abbreviation member := (ClientSeries * ClientGap)%type.

Definition _group_end (group : list member) : Z := max_of ((λ m, gp_end_ns (snd m)) <$> group).

(** [bisect_right] on an ascending list: how many elements are not above. *)
Definition bisect_right (times : list Z) (x : double) : Z := Z.of_nat (length (filter (λ t, int_gt t x = false) times)).
Definition bisect_right_int (times : list Z) (x : Z) : Z := Z.of_nat (length (filter (λ t, t ≤ x) times)).

(** [frame_times[name]]: of the last entry with the name. *)
Definition frame_times (entries : list ClientSeries) (name : pystr) : list Z :=
  match filter (λ e, se_name e = name) (rev entries) with
  | e :: _ => sorted_by id (fr_ts_ns <$> se_frames e)
  | [] => []
  end.

Definition catchup (entries : list ClientSeries) (catchup_ns : double) (m : member) : result Z :=
  let '(entry, gap) := m in
  let times := frame_times entries (se_name entry) in
  e ← to_float (gp_end_ns gap);
  Ok (bisect_right times (fadd e catchup_ns) - bisect_right_int times (gp_end_ns gap)).

Fixpoint map_result {A B} (f : A → result B) (l : list A) : result (list B) :=
  match l with [] => Ok [] | x :: l => y ← f x; ys ← map_result f l; Ok (y :: ys) end.

(** How far apart the participants saw the first commonly resumed tick. *)
Definition resume_spread (group : list member) (first_ticks : list Z) : result (option Z) :=
  match first_ticks with
  | [] => Ok None
  | _ =>
      let common_first := min_of first_ticks in
      let arrivals := (λ m, gp_end_ns (snd m)) <$> filter (λ m, gp_first_tick (snd m) = common_first) group in
      if (2 <=? length arrivals)%nat then Some <$> whole_ms (max_of arrivals - min_of arrivals) else Ok None
  end.

Definition _cluster_record (instance_index sampled_on_instance : Z) (entries : list ClientSeries)
    (catchup_ns : double) (group : list member) : result GapClusterRecord :=
  let starts := (λ m, gp_start_ns (snd m)) <$> group in
  let ends := (λ m, gp_end_ns (snd m)) <$> group in
  let last_ticks := sorted_set ((λ m, gp_last_tick (snd m)) <$> group) in
  let first_ticks := sorted_set ((λ m, gp_first_tick (snd m)) <$> group) in
  resume_spread_ms ← resume_spread group first_ticks;
  catchups ← map_result (catchup entries catchup_ns) group;
  let start_ns := min_of starts in
  let end_ns := max_of ends in
  duration_ms ← whole_ms (end_ns - start_ns);
  onset_spread_ms ← whole_ms (max_of starts - min_of starts);
  catchup_median ← _median catchups;
  Ok (mkCluster instance_index start_ns end_ns duration_ms
    (Z.of_nat (length (remove_dups ((λ m, se_name (fst m)) <$> group)))) sampled_on_instance onset_spread_ms
    (length last_ticks =? 1)%nat last_ticks first_ticks
    ((length last_ticks =? 1)%nat && (length first_ticks =? 1)%nat) resume_spread_ms catchup_median).

(** The members in order of onset: a member too far behind the open group
    closes it. *)
Fixpoint cluster_loop {R} (record : list member → result R) (tolerance_ns : double)
    (members group : list member) : result (list R) :=
  match members with
  | [] => match group with [] => Ok [] | _ => r ← record group; Ok [r] end
  | item :: members =>
      match group with
      | [] => cluster_loop record tolerance_ns members [item]
      | _ =>
          e ← to_float (_group_end group);
          if int_gt (gp_start_ns (snd item)) (fadd e tolerance_ns) then
            r ← record group;
            rs ← cluster_loop record tolerance_ns members [item];
            Ok (r :: rs)
          else cluster_loop record tolerance_ns members (group ++ [item])
      end
  end.

(** The gaps of one instance, in order of onset. *)
Definition members_of (entries : list ClientSeries) (gap_threshold_ms : double) : list member :=
  sorted_by (λ m, gp_start_ns (snd m)) (entry ← entries; (λ gap, (entry, gap)) <$> client_gaps entry gap_threshold_ms).

Definition instance_clusters (gap_threshold_ms tolerance_ns catchup_ns : double) (inst : Z * list ClientSeries)
    : result (list GapClusterRecord) :=
  let '(instance_index, entries) := inst in
  cluster_loop (_cluster_record instance_index (Z.of_nat (length entries)) entries catchup_ns) tolerance_ns
    (members_of entries gap_threshold_ms) [].

Definition instances (series : list ClientSeries) : list (Z * list ClientSeries) :=
  sorted_by fst (group_by se_instance_index series).

Definition cluster_gaps (series : list ClientSeries) (gap_threshold_ms tolerance_ms : double)
    : result (list GapClusterRecord) :=
  let tolerance_ns := fmul tolerance_ms MILLION in
  let catchup_ns := fmul _CATCHUP_WINDOW_MS MILLION in
  records ← map_result (instance_clusters gap_threshold_ms tolerance_ns catchup_ns) (instances series);
  Ok (concat records).

(** ** Arrival spreads *)

Definition widened (margin : Z) (c : GapClusterRecord) : Z * Z := (gc_start_ns c - margin, gc_end_ns c + margin).

Definition inside_any (t : Z) (windows : list (Z * Z)) : bool :=
  existsb (λ w, (fst w <=? t) && (t <=? snd w)) windows.

(** The arrival times of each tick seen by the instance's clients outside
    the windows. *)
Definition arrivals (series : list ClientSeries) (instance_index : Z) (windows : list (Z * Z)) : list (Z * list Z) :=
  foldl (λ d f, bucket_add (fr_input_tick f) (fr_ts_ns f) d) []
    (filter (λ f, inside_any (fr_ts_ns f) windows = false)
      (e ← filter (λ s, se_instance_index s = instance_index) series; se_frames e)).

Definition tick_spreads (series : list ClientSeries) (instance_index : Z) (windows : list (Z * Z)) : list Z :=
  sorted_by id ((λ d, max_of (snd d) - min_of (snd d)) <$>
    filter (λ d, (2 ≤ length (snd d))%nat) (arrivals series instance_index windows)).

(** [_percentile(spreads, pct) / 1_000_000 if spreads else None] *)
Definition percentile_ms (spreads : list Z) (pct : Z) : result (option double) :=
  match spreads with
  | [] => Ok None
  | _ => p ← _percentile spreads pct; Some <$> fdiv p MILLION
  end.

Definition instance_spread (series : list ClientSeries) (clusters : list GapClusterRecord) (margin_ns : Z)
    (instance_index : Z) : result InstanceTickSpread :=
  let windows := widened margin_ns <$> filter (λ c, gc_instance_index c = instance_index) clusters in
  let spreads := tick_spreads series instance_index windows in
  median_ms ← percentile_ms spreads 50;
  p95_ms ← percentile_ms spreads 95;
  Ok (mkSpread instance_index (Z.of_nat (length spreads)) median_ms p95_ms).

Definition tick_arrival_spreads (series : list ClientSeries) (clusters : list GapClusterRecord) (margin_ms : double)
    : result (list InstanceTickSpread) :=
  margin_ns ← int_of_double (fmul margin_ms MILLION);
  map_result (instance_spread series clusters margin_ns) (sorted_set (se_instance_index <$> series)).

(** ** Attribution *)

Record _Delta := mkDelta {
  dl_t0_ns : Z;
  dl_t1_ns : Z;
  dl_utime_ticks : Z;
  dl_stime_ticks : Z;
  dl_nvcsw : Z;
  dl_nivcsw : Z;
}.

Record _BaselineBand := mkBand {
  bb_median_nvcsw : double;
  bb_p90_nvcsw : double;
  bb_median_nivcsw : double;
  bb_p90_nivcsw : double;
}.

(** Cumulative counters at an instant. *)
Record counters := mkCounters { cn_t_ns : Z; cn_utime : Z; cn_stime : Z; cn_nvcsw : Z; cn_nivcsw : Z }.

Definition sum_of {A} (f : A → Z) (l : list A) : Z := foldr (λ x n, f x + n) 0 l.

Definition thread_counters (t_ns : Z) (t : ThreadSample) : counters :=
  mkCounters t_ns (ts_utime_ticks t) (ts_stime_ticks t) (ts_nvcsw t) (ts_nivcsw t).

Abbreviation scope_key := (pystr * pystr)%type.

(** The rows one sample of one target adds.  [main is not tick] compares
    identities: the positions of the two threads. *)
Definition target_rows (t_ns : Z) (tg : TargetSample) : list (scope_key * counters) :=
  let threads := tg_threads tg in
  let tick := list_find (λ t, ts_comm t = _TICK_THREAD_COMM) threads in
  let main := list_find (λ t, ts_tid t = tg_pid tg) threads in
  [((tg_target tg, str "total"), mkCounters t_ns (sum_of ts_utime_ticks threads) (sum_of ts_stime_ticks threads)
      (sum_of ts_nvcsw threads) (sum_of ts_nivcsw threads))]
  ++ match tick with Some (_, t) => [((tg_target tg, str "tick"), thread_counters t_ns t)] | None => [] end
  ++ match main with
     | Some (i, t) => if decide (fst <$> tick = Some i) then [] else [((tg_target tg, str "main"), thread_counters t_ns t)]
     | None => []
     end.

Definition cumulative (trace : ProcTrace) : list (scope_key * list counters) :=
  foldl (λ d r, bucket_add (fst r) (snd r) d) []
    (sample ← pt_samples trace; target_sample ← ps_targets sample; target_rows (ps_t_ns sample) target_sample).

Definition delta (p : counters * counters) : _Delta :=
  let '(a, b) := p in
  mkDelta (cn_t_ns a) (cn_t_ns b) (Z.max 0 (cn_utime b - cn_utime a)) (Z.max 0 (cn_stime b - cn_stime a))
    (Z.max 0 (cn_nvcsw b - cn_nvcsw a)) (Z.max 0 (cn_nivcsw b - cn_nivcsw a)).

Definition _target_series (trace : ProcTrace) : list (scope_key * list _Delta) :=
  (λ '(key, rows), (key, delta <$> pairwise (sorted_by cn_t_ns rows))) <$> cumulative trace.

Definition _overlaps_any (d : _Delta) (windows : list (Z * Z)) : bool :=
  existsb (λ w, (dl_t0_ns d <=? snd w) && (fst w <=? dl_t1_ns d)) windows.

Definition _baseline_band (deltas : list _Delta) : result (option _BaselineBand) :=
  match deltas with
  | [] => Ok None
  | _ =>
      let nvcsw := sorted_by id (dl_nvcsw <$> deltas) in
      let nivcsw := sorted_by id (dl_nivcsw <$> deltas) in
      median_nvcsw ← _percentile nvcsw 50;
      p90_nvcsw ← _percentile nvcsw 90;
      median_nivcsw ← _percentile nivcsw 50;
      p90_nivcsw ← _percentile nivcsw 90;
      Ok (Some (mkBand median_nvcsw p90_nvcsw median_nivcsw p90_nivcsw))
  end.

Definition _sum_deltas (deltas : list _Delta) : _Delta :=
  mkDelta (min_of (dl_t0_ns <$> deltas)) (max_of (dl_t1_ns <$> deltas)) (sum_of dl_utime_ticks deltas)
    (sum_of dl_stime_ticks deltas) (sum_of dl_nvcsw deltas) (sum_of dl_nivcsw deltas).

Definition _ticks_to_ms (ticks clk_tck : Z) : result double :=
  if clk_tck <=? 0 then Ok ZERO else
  t ← to_float ticks;
  c ← to_float clk_tck;
  fdiv (fmul t THOUSAND) c.

(** [max(a, b)]: the first unless the second is greater. *)
Definition fmax (a b : double) : double := if fle a b && negb (fle b a) then b else a.

Definition _elevated (value intervals : Z) (band : _BaselineBand) (voluntary : bool) : result bool :=
  let median := if voluntary then bb_median_nvcsw band else bb_median_nivcsw band in
  let p90 := if voluntary then bb_p90_nvcsw band else bb_p90_nivcsw band in
  margin ← to_float _SWITCH_ELEVATION_MARGIN;
  let bar := fmax (fmul _SWITCH_ELEVATION_FACTOR p90) (fadd median margin) in
  n ← to_float (Z.max 1 intervals);
  Ok (int_ge value (fmul n bar)).

Definition _verdict (cpu_ms : double) (wall_ms nvcsw nivcsw intervals : Z) (band : option _BaselineBand) : result pystr :=
  wall ← to_float wall_ms;
  if fle (fmul _CPU_BUSY_FRACTION wall) cpu_ms then Ok _VERDICT_BUSY else
  match band with
  | None => Ok _VERDICT_UNBASELINED
  | Some band =>
      preempted ← _elevated nivcsw intervals band false;
      if preempted : bool then Ok _VERDICT_PREEMPTED else
      blocked ← _elevated nvcsw intervals band true;
      if blocked : bool then Ok _VERDICT_BLOCKED else Ok _VERDICT_QUIET
  end.

Definition within (low high : Z) (d : _Delta) : Prop := low ≤ dl_t0_ns d ∧ dl_t1_ns d ≤ high.

#[global] Instance within_dec low high d : Decision (within low high d).
Proof. unfold within. apply _. Defined.

(** The row of one target and scope, unless no delta lies in the window. *)
Definition attribution_row (clk_tck wall_ms low high : Z) (key : scope_key) (deltas : list _Delta)
    (band : option _BaselineBand) : result (list TargetAttributionRow) :=
  match filter (within low high) deltas with
  | [] => Ok []
  | in_window =>
      let agg := _sum_deltas in_window in
      cpu_ms ← _ticks_to_ms (dl_utime_ticks agg + dl_stime_ticks agg) clk_tck;
      utime_ms ← _ticks_to_ms (dl_utime_ticks agg) clk_tck;
      stime_ms ← _ticks_to_ms (dl_stime_ticks agg) clk_tck;
      verdict ← _verdict cpu_ms wall_ms (dl_nvcsw agg) (dl_nivcsw agg) (Z.of_nat (length in_window)) band;
      Ok [mkRow (fst key) (snd key) wall_ms cpu_ms utime_ms stime_ms (dl_nvcsw agg) (dl_nivcsw agg) verdict]
  end.

(** Each key's deltas with its baseline. *)
Definition baselined (windows : list (Z * Z)) (s : scope_key * list _Delta)
    : result (scope_key * (list _Delta * option _BaselineBand)) :=
  let '(key, deltas) := s in
  band ← _baseline_band (filter (λ d, _overlaps_any d windows = false) deltas);
  Ok (key, (deltas, band)).

Definition attribute_cluster (clk_tck interval_ns : Z)
    (by_target : list (scope_key * (list _Delta * option _BaselineBand))) (cluster : GapClusterRecord)
    : result ClusterAttribution :=
  let '(low, high) := widened interval_ns cluster in
  wall_ms ← whole_ms (gc_end_ns cluster - gc_start_ns cluster);
  rows ← map_result (λ s, attribution_row clk_tck wall_ms low high (fst s) (fst (snd s)) (snd (snd s)))
    (sorted_by fst by_target);
  Ok (mkAttribution (gc_instance_index cluster) (gc_start_ns cluster) (concat rows)).

Definition attribute_clusters (trace : ProcTrace) (clusters : list GapClusterRecord) : result (list ClusterAttribution) :=
  interval_ns ← int_of_double (fmul (pt_interval_s trace) BILLION);
  let windows := widened interval_ns <$> clusters in
  by_target ← map_result (baselined windows) (_target_series trace);
  map_result (attribute_cluster (pt_clk_tck trace) interval_ns by_target) clusters.

Definition build_flicker_ledger (trace : ProcTrace) (series : list ClientSeries) : result FlickerLedger :=
  clusters ← cluster_gaps series GAP_THRESHOLD_MS _CLUSTER_TOLERANCE_MS;
  attributions ← attribute_clusters trace clusters;
  tick_spreads ← tick_arrival_spreads series clusters _SPREAD_BASELINE_MARGIN_MS;
  Ok (mkLedger (min_of (se_window_start_ns <$> series)) (pt_interval_s trace) (pt_clk_tck trace) clusters attributions
    tick_spreads).
