(* ===== verification/LedgerTheorems.v ===== *)
(** * The gap ledger's analysis is sound

    Gaps cover exactly the silences above the threshold; clusters are the
    single-linkage groups of the gaps; percentiles are nearest-rank. *)

From S2P Require Import Prelude PyStruct PyText PyFloat PyArith GapLedger.

#[local] Open Scope Z_scope.

(** ** Definitions *)

(** The latest end of a group's gaps. *)
Definition latest (group : list member) : Z :=
  match group with [] => 0 | m :: ms => foldr (λ m e, Z.max (gp_end_ns (snd m)) e) (gp_end_ns (snd m)) ms end.

(** How far an open group reaches. *)
Definition reach (tolerance_ns : double) (group : list member) : result double :=
  e ← to_float (latest group); Ok (fadd e tolerance_ns).

Definition beyond (tolerance_ns : double) (group : list member) (m : member) : bool :=
  match reach tolerance_ns group with Ok r => int_gt (gp_start_ns (snd m)) r | Err _ => true end.

(** Each member starts within reach of those before it in its group. *)
Definition linked (tolerance_ns : double) (group : list member) : Prop :=
  ∀ before m after, group = before ++ m :: after → before ≠ [] → beyond tolerance_ns before m = false.

(** Groups of linked members; a later group starts beyond an earlier one. *)
Record single_linkage (tolerance_ns : double) (members : list member) (groups : list (list member)) : Prop := {
  sl_all : concat groups = members;
  sl_nonempty : Forall (λ g, g ≠ []) groups;
  sl_linked : Forall (linked tolerance_ns) groups;
  sl_apart before g after m : groups = before ++ g :: after → m ∈ concat after → beyond tolerance_ns g m = true;
}.

(** Timestamps and sizes of ordinary magnitude. *)
Definition small (z : Z) : Prop := Z.abs z < 2 ^ 63.
Definition series_fits (s : ClientSeries) : Prop :=
  small (se_window_start_ns s) ∧ Forall (λ f, small (fr_ts_ns f)) (se_frames s) ∧ small (Z.of_nat (length (se_frames s))).

(** ** Percentiles *)

Lemma ascending_nth (l : list Z) i j : ascending id l = true → (i ≤ j < length l)%nat → nth i l 0 ≤ nth j l 0.
Proof.
  revert i j. induction l as [|x l IH]; intros i j Ha Hj; [cbn in Hj; lia|].
  apply ascending_cons in Ha as [Hx Ha]. destruct j as [|j].
  { replace i with 0%nat by lia. lia. }
  destruct i as [|i]; [|cbn in *; apply IH; [done|lia]]. cbn in *.
  rewrite Forall_forall in Hx. specialize (Hx (nth j l 0)). 
  assert (nth j l 0 ∈ l) as Hin by (apply list_elem_of_In, nth_In; lia). specialize (Hx Hin).
  unfold key_le in Hx. cbn in Hx. lia.
Qed.

Lemma in_take_nth (l : list Z) i x : x ∈ take i l → ∃ j, (j < i)%nat ∧ (j < length l)%nat ∧ x = nth j l 0.
Proof.
  intros (j & Hj)%list_elem_of_lookup. apply lookup_take_Some in Hj as [Hj Hlt]. exists j.
  split; [done|]. split; [by eapply lookup_lt_Some|]. symmetry. by apply nth_lookup_Some.
Qed.

Lemma in_drop_nth (l : list Z) i x : x ∈ drop i l → ∃ j, (i ≤ j < length l)%nat ∧ x = nth j l 0.
Proof.
  intros (j & Hj)%list_elem_of_lookup. rewrite lookup_drop in Hj. exists (i + j)%nat.
  split; [apply lookup_lt_Some in Hj; lia|]. symmetry. by apply nth_lookup_Some.
Qed.

Lemma count_not_above (l : list Z) i : ascending id l = true → (i < length l)%nat →
  (S i ≤ length (filter (λ x, (x ≤ nth i l 0)%Z) l))%nat.
Proof.
  intros Ha Hi. assert (filter (λ x, x ≤ nth i l 0) (take (S i) l) = take (S i) l) as E.
  { apply filter_all, Forall_forall. intros x (j & Hj & Hl & ->)%in_take_nth. apply ascending_nth; [done|lia]. }
  revert E. generalize (nth i l 0) as v. intros v E. rewrite <- (take_drop (S i) l), filter_app, length_app, E.
  rewrite length_take. lia.
Qed.

Lemma count_below (l : list Z) i : ascending id l = true → (i < length l)%nat →
  (length (filter (λ x, (x < nth i l 0)%Z) l) ≤ i)%nat.
Proof.
  intros Ha Hi. assert (filter (λ x, x < nth i l 0) (drop i l) = []) as Ed.
  { destruct (filter _ (drop i l)) as [|x r] eqn:E; [done|]. exfalso.
    assert (x ∈ filter (λ x, x < nth i l 0) (drop i l)) as Hin by (rewrite E; left).
    apply list_elem_of_filter in Hin as [Hx (j & Hj & ->)%in_drop_nth]. pose proof (ascending_nth l i j Ha ltac:(lia)). lia. }
  revert Ed. generalize (nth i l 0) as v. intros v Ed. rewrite <- (take_drop i l), filter_app, length_app, Ed.
  pose proof (length_filter (λ x, x < v) (take i l)). rewrite length_take in *. cbn. lia.
Qed.

Lemma percentile_index_spec n pct : (0 < n)%nat → 1 ≤ pct ≤ 100 →
  let i := percentile_index n pct in
  0 ≤ i < Z.of_nat n ∧ 100 * i < pct * Z.of_nat n ≤ 100 * (i + 1).
Proof.
  intros Hn Hp. unfold percentile_index. set (N := Z.of_nat n). assert (1 ≤ N) by lia.
  set (q := (pct * N + 99) / 100). pose proof (Z.div_mod (pct * N + 99) 100 ltac:(lia)) as Hq. fold q in Hq.
  pose proof (Z.mod_pos_bound (pct * N + 99) 100 ltac:(lia)). cbv zeta. nia.
Qed.

(** The percentile of a nonempty sorted list is the nearest-rank percentile:
    an element such that at least pct percent of the values are not above it
    and fewer than pct percent are below it. *)
Theorem percentile_nearest_rank ordered pct : ordered ≠ [] → ascending id ordered = true → 1 ≤ pct ≤ 100 →
  ∃ v, v ∈ ordered ∧ _percentile ordered pct = to_float v ∧
    pct * Z.of_nat (length ordered) ≤ 100 * Z.of_nat (length (filter (λ x, x ≤ v) ordered)) ∧
    100 * Z.of_nat (length (filter (λ x, x < v) ordered)) < pct * Z.of_nat (length ordered).
Proof.
  intros Hne Ha Hp. assert (0 < length ordered)%nat as Hl by (destruct ordered; [done|cbn; lia]).
  pose proof (percentile_index_spec (length ordered) pct Hl Hp) as Hi. cbv zeta in Hi.
  unfold _percentile. set (i := percentile_index (length ordered) pct) in *.
  assert (Z.to_nat i < length ordered)%nat as Hlt by lia.
  exists (nth (Z.to_nat i) ordered 0). split; [apply list_elem_of_In, nth_In; lia|]. split; [by destruct ordered|].
  pose proof (count_not_above ordered (Z.to_nat i) Ha Hlt). pose proof (count_below ordered (Z.to_nat i) Ha Hlt). lia.
Qed.

(** ** Clusters *)

Definition member_fits (m : member) : Prop :=
  small (gp_start_ns (snd m)) ∧ small (gp_end_ns (snd m)).

Lemma small_float z : small z → ∃ neg m e, to_float z = Ok (DFin neg m e).
Proof. unfold small. intros Hz. apply to_float_total. lia. Qed.

Lemma max_of_in l : l ≠ [] → max_of l ∈ l.
Proof.
  destruct l as [|x l]; [done|]. intros _. cbn. revert x. induction l as [|y l IH]; intros x; cbn; [by left|].
  specialize (IH (Z.max x y)). apply elem_of_cons in IH as [->|IH]; [|rewrite !elem_of_cons; tauto].
  destruct (Z.max_spec x y) as [[_ ->]|[_ ->]]; rewrite !elem_of_cons; tauto.
Qed.

Lemma min_of_in l : l ≠ [] → min_of l ∈ l.
Proof.
  destruct l as [|x l]; [done|]. intros _. cbn. revert x. induction l as [|y l IH]; intros x; cbn; [by left|].
  specialize (IH (Z.min x y)). apply elem_of_cons in IH as [->|IH]; [|rewrite !elem_of_cons; tauto].
  destruct (Z.min_spec x y) as [[_ ->]|[_ ->]]; rewrite !elem_of_cons; tauto.
Qed.

Lemma group_end_latest g : _group_end g = latest g.
Proof.
  destruct g as [|m g]; [done|]. unfold _group_end. cbn. generalize (gp_end_ns (snd m)) as e.
  induction g as [|m' g IH]; intros e; cbn; [done|]. rewrite <- IH, foldl_fmap, foldl_fmap. clear.
  revert e. induction g as [|y g IH]; intros e; cbn; [lia|]. rewrite <- IH. f_equal. lia.
Qed.

Lemma group_end_small g : g ≠ [] → Forall member_fits g → small (_group_end g).
Proof.
  intros Hg Hf. unfold _group_end. pose proof (max_of_in ((λ m, gp_end_ns (snd m)) <$> g) ltac:(by destruct g)) as Hin.
  apply list_elem_of_fmap in Hin as (m & -> & Hm). rewrite Forall_forall in Hf. by apply (Hf m).
Qed.

Lemma linked_one tol m : linked tol [m].
Proof. intros before m' after E Hb. destruct before as [|? [|]]; naive_solver. Qed.

Lemma linked_snoc tol g m : linked tol g → beyond tol g m = false → linked tol (g ++ [m]).
Proof.
  intros Hg Hm before m' after E Hb. destruct after as [|x after _] using rev_ind.
  - apply app_inj_tail in E as [<- <-]. done.
  - rewrite app_comm_cons, app_assoc in E. apply app_inj_tail in E as [E _]. by apply (Hg before m' after).
Qed.

Lemma beyond_mono tol g m m' : gp_start_ns (snd m) ≤ gp_start_ns (snd m') → beyond tol g m = true → beyond tol g m' = true.
Proof. unfold beyond. intros Hm. destruct (reach tol g); [|done]. by apply int_gt_mono. Qed.

Abbreviation onset := (λ m : member, gp_start_ns (snd m)).

Lemma linkage_cons tol g m ms groups : g ≠ [] → linked tol g → beyond tol g m = true →
  (∀ m', m' ∈ m :: ms → onset m ≤ onset m') → single_linkage tol (m :: ms) groups →
  single_linkage tol (g ++ m :: ms) (g :: groups).
Proof.
  intros Hg Hl Hb Hs [Ha Hn Hk Hap]. split; [by cbn; rewrite Ha|by constructor|by constructor|].
  intros [|g0 before] g' after m' E Hin; injection E as <- E.
  - subst. rewrite Ha in Hin. eapply beyond_mono; [by apply Hs|done].
  - by apply (Hap before g' after).
Qed.

Section Loop.
Context {R : Type} (record : list member → result R) (tol : double).
Hypothesis (Hrec : ∀ g, g ≠ [] → Forall member_fits g → ∃ r, record g = Ok r).

Lemma cluster_loop_spec ms g : linked tol g → Forall member_fits (g ++ ms) → ascending onset (g ++ ms) = true →
  ∃ groups rs, cluster_loop record tol ms g = Ok rs ∧ Forall2 (λ g r, record g = Ok r) groups rs ∧
    single_linkage tol (g ++ ms) groups.
Proof.
  revert g. induction ms as [|m ms IH]; intros g Hl Hf Ha; cbn [cluster_loop].
  { rewrite app_nil_r in *. destruct g as [|x g]; [by exists [], []; repeat split; try done; intros [] ? ? ? ?|].
    destruct (Hrec (x :: g)) as [r Hr]; [done..|]. exists [x :: g], [r]. rewrite Hr. split; [done|]. split; [by repeat constructor|].
    split; [cbn; by rewrite app_nil_r|by repeat constructor|by repeat constructor|].
    intros [|? []] g' after m' E; [|done..]. injection E as <- <-. cbn. by intros ?%elem_of_nil. }
  destruct g as [|x g']; [apply (IH [m]); [apply linked_one|done..]|]. set (g := x :: g') in *.
  assert (g ≠ []) as Hg by done. clearbody g. clear x g'.
  pose proof Hf as [Hfg Hfm]%Forall_app. destruct (small_float _ (group_end_small g Hg Hfg)) as (neg & mm & ee & Ee).
  assert (beyond tol g m = int_gt (gp_start_ns (snd m)) (fadd (DFin neg mm ee) tol)) as Hbm 
    by (unfold beyond, reach; by rewrite <- group_end_latest, Ee).
  destruct g as [|x g'] eqn:Eg; [done|]. rewrite <- Eg in *. rewrite Ee. cbn [mbind result_bind]. rewrite <- Hbm.
  destruct (beyond tol g m) eqn:Hb.
  - destruct (Hrec g Hg Hfg) as [r Hr].
    assert (ascending onset (m :: ms) = true) as Ham.
    { clear -Ha. induction g as [|y g IHg]; [done|]. apply IHg. by apply ascending_cons in Ha as [_ ?]. }
    destruct (IH [m]) as (groups & rs & Hrs & Hf2 & Hsl); [apply linked_one|done..|].
    exists (g :: groups), (r :: rs). rewrite Hr, Hrs. split; [done|]. split; [by constructor|].
    apply linkage_cons; [done..| |done]. apply ascending_cons in Ham as [Hx _]. rewrite Forall_forall in Hx.
    intros m' [->|Hin]%elem_of_cons; [lia|]. specialize (Hx m' Hin). unfold key_le in Hx. cbn in Hx. lia.
  - replace (g ++ m :: ms) with ((g ++ [m]) ++ ms) in * by (by rewrite <- app_assoc).
    apply IH; [by apply linked_snoc|done..].
Qed.
End Loop.

(** ** Every record can be made *)

Lemma map_result_total {A B} (f : A → result B) (P : B → Prop) l : (∀ x, x ∈ l → ∃ y, f x = Ok y ∧ P y) →
  ∃ ys, map_result f l = Ok ys ∧ Forall2 (λ x y, f x = Ok y) l ys ∧ Forall P ys.
Proof.
  induction l as [|x l IH]; intros Hf; [by exists []|]. destruct (Hf x) as (y & Hy & HP); [left|].
  destruct IH as (ys & Hys & H2 & HPs); [intros; apply Hf; by right|]. exists (y :: ys). cbn. rewrite Hy, Hys. cbn.
  split; [done|]. split; by constructor.
Qed.

Lemma whole_ms_total z : Z.abs z < 2 ^ 64 → ∃ ms, whole_ms z = Ok ms.
Proof.
  intros Hz. unfold whole_ms. destruct (int_div_total z 1000000) as (neg & m & e & ->); [lia..|]. cbn. eauto.
Qed.

Lemma min_of_small l : l ≠ [] → Forall small l → small (min_of l).
Proof. intros Hl Hf. rewrite Forall_forall in Hf. by apply Hf, min_of_in. Qed.

Lemma max_of_small l : l ≠ [] → Forall small l → small (max_of l).
Proof. intros Hl Hf. rewrite Forall_forall in Hf. by apply Hf, max_of_in. Qed.

Lemma spread_total l : l ≠ [] → Forall small l → ∃ ms, whole_ms (max_of l - min_of l) = Ok ms.
Proof.
  intros Hl Hf. apply whole_ms_total. pose proof (min_of_small l Hl Hf). pose proof (max_of_small l Hl Hf).
  unfold small in *. lia.
Qed.

Lemma nth_small l i : Forall small l → small (nth i l 0).
Proof.
  intros Hf. destruct (nth_in_or_default i l 0) as [Hin| ->]; [|done]. rewrite Forall_forall in Hf. apply Hf. by apply list_elem_of_In.
Qed.

Lemma median_total l : Forall small l → ∃ d, _median l = Ok d.
Proof.
  intros Hf. unfold _median. destruct l as [|x l]; [by eauto|].
  assert (Forall small (sorted_by id (x :: l))) as Hs by (by rewrite sorted_by_perm). destruct (Nat.odd _).
  - destruct (small_float _ (nth_small _ (length (sorted_by id (x :: l)) / 2) Hs)) as (? & ? & ? & ->). eauto.
  - set (a := nth _ _ 0). set (b := nth _ _ 0). assert (small a ∧ small b) as [Ha Hb] by (split; by apply nth_small).
    unfold small in Ha, Hb. destruct (to_float_total (a + b)) as (neg & m & e & ->); [lia|]. cbn.
    destruct (ratio neg m e). destruct (_ =? 0); eauto.
Qed.

Section Records.
Context (entries : list ClientSeries).
Hypothesis (Hent : Forall series_fits entries).

Lemma frame_times_length name : small (Z.of_nat (length (frame_times entries name))).
Proof.
  unfold frame_times. destruct (filter _ (rev entries)) as [|e r] eqn:E; [done|].
  rewrite length_sorted_by, length_fmap. rewrite Forall_forall in Hent. apply (Hent e).
  assert (e ∈ filter (λ e, se_name e = name) (rev entries)) as Hin by (rewrite E; left).
  apply list_elem_of_filter in Hin as [_ Hin]. by apply list_elem_of_In, in_rev, list_elem_of_In.
Qed.

Lemma catchup_total catchup_ns m : member_fits m → ∃ n, catchup entries catchup_ns m = Ok n ∧ small n.
Proof.
  destruct m as [entry gap]. intros [_ He]. unfold catchup. cbn in He.
  destruct (small_float _ He) as (neg & mm & ee & ->). cbn [mbind result_bind]. eexists. split; [done|].
  pose proof (frame_times_length (se_name entry)) as Hl. set (times := frame_times entries (se_name entry)) in *.
  unfold bisect_right, bisect_right_int, small in *.
  pose proof (length_filter (λ t, int_gt t (fadd (DFin neg mm ee) catchup_ns) = false) times).
  pose proof (length_filter (λ t, t ≤ gp_end_ns gap) times). lia.
Qed.

Lemma resume_total g ticks : Forall member_fits g → ∃ o, resume_spread g ticks = Ok o.
Proof.
  intros Hf. unfold resume_spread. destruct ticks as [|t ticks]; [by eauto|].
  set (arr := _ <$> filter _ g). destruct (Nat.leb_spec 2 (length arr)) as [Hl|]; [|by eauto].
  destruct (spread_total arr) as [ms ->]; [by destruct arr; cbn in Hl; try lia| |by eexists].
  apply Forall_fmap, Forall_forall. intros m [_ Hm]%list_elem_of_filter. rewrite Forall_forall in Hf. by apply Hf.
Qed.

Lemma record_total i n catchup_ns g : g ≠ [] → Forall member_fits g → ∃ r, _cluster_record i n entries catchup_ns g = Ok r.
Proof.
  intros Hg Hf. unfold _cluster_record.
  set (first_ticks := sorted_set ((λ m, gp_first_tick (snd m)) <$> g)). set (last_ticks := sorted_set _).
  destruct (resume_total g first_ticks Hf) as [o ->]. cbn [mbind result_bind].
  destruct (map_result_total (catchup entries catchup_ns) small g) as (cs & -> & _ & Hcs).
  { intros m Hm. apply catchup_total. rewrite Forall_forall in Hf. by apply Hf. }
  cbn [mbind result_bind]. set (starts := (λ m, gp_start_ns (snd m)) <$> g). set (ends := (λ m, gp_end_ns (snd m)) <$> g).
  assert (starts ≠ [] ∧ ends ≠ []) as [Hs1 He1] by (split; by destruct g).
  assert (Forall small starts ∧ Forall small ends) as [Hs2 He2].
  { rewrite Forall_forall in Hf. split; apply Forall_fmap, Forall_forall; intros m Hm; by apply Hf. }
  destruct (whole_ms_total (max_of ends - min_of starts)) as [d ->].
  { pose proof (max_of_small ends He1 He2). pose proof (min_of_small starts Hs1 Hs2). unfold small in *. lia. }
  cbn [mbind result_bind]. destruct (spread_total starts Hs1 Hs2) as [sp ->]. cbn [mbind result_bind].
  destruct (median_total cs Hcs) as [md ->]. cbn [mbind result_bind]. eauto.
Qed.
End Records.

(** ** Gaps *)

Lemma pairwise_split {A} (l : list A) a b : (a, b) ∈ pairwise l → ∃ l1 l2, l = l1 ++ a :: b :: l2.
Proof.
  induction l as [|x [|y l] IH]; [by intros ?%elem_of_nil|by intros ?%elem_of_nil|].
  change (pairwise (x :: y :: l)) with ((x, y) :: pairwise (y :: l)).
  intros [[= -> ->]|Hin]%elem_of_cons; [by exists [], l|].
  destruct (IH Hin) as (l1 & l2 & ->). by exists (x :: l1), l2.
Qed.

Lemma pairwise_around (ts : SeriesFrame → Z) l x t f : ts x < t → f ∈ x :: l → t ≤ ts f →
  ∃ a b, (a, b) ∈ pairwise (x :: l) ∧ ts a ≤ t ≤ ts b.
Proof.
  revert x. induction l as [|y l IH]; intros x Hx Hf Ht.
  { apply list_elem_of_singleton in Hf as ->. lia. }
  change (pairwise (x :: y :: l)) with ((x, y) :: pairwise (y :: l)).
  destruct (Z.le_gt_cases t (ts y)) as [Hy|Hy]; [exists x, y; split; [left|lia]|].
  apply elem_of_cons in Hf as [->|Hf]; [lia|]. destruct (IH y Hy Hf Ht) as (a & b & Hab & Hle).
  exists a, b. split; [by right|done].
Qed.

Section Gaps.
Context (s : ClientSeries) (threshold_ms : double).
#[local] Abbreviation frames := (se_frames s).
#[local] Abbreviation floor_ns := (fmul threshold_ms MILLION).

Lemma sorted_frames_in f : f ∈ sorted_by fr_ts_ns frames ↔ f ∈ frames.
Proof. by rewrite sorted_by_perm. Qed.

(** The start of the window or a frame, and the next frame. *)
Definition stretch (a b : Z) : Prop :=
  (a = se_window_start_ns s ∨ ∃ f, f ∈ frames ∧ fr_ts_ns f = a) ∧ (∃ f, f ∈ frames ∧ fr_ts_ns f = b) ∧
  ∀ f, f ∈ frames → ¬ (a < fr_ts_ns f < b).

Lemma ascending_around (l1 l2 : list SeriesFrame) a b f : ascending fr_ts_ns (l1 ++ a :: b :: l2) = true →
  f ∈ l1 ++ a :: b :: l2 → ¬ (fr_ts_ns a < fr_ts_ns f < fr_ts_ns b).
Proof.
  induction l1 as [|x l1 IH]; cbn [app]; intros [Hx Ha]%ascending_cons; rewrite Forall_forall in Hx; unfold key_le in Hx; cbn in Hx.
  - apply ascending_cons in Ha as [Hy _]. rewrite Forall_forall in Hy. unfold key_le in Hy. cbn in Hy.
    intros [->|[->|Hf%Hy]%elem_of_cons]%elem_of_cons; lia.
  - intros [->|Hf]%elem_of_cons; [|by apply IH]. specialize (Hx a ltac:(set_solver)). lia.
Qed.

Lemma pairs_stretch a b : (a, b) ∈ pairwise (sorted_by fr_ts_ns frames) → stretch (fr_ts_ns a) (fr_ts_ns b).
Proof.
  intros Hab. destruct (pairwise_split _ a b Hab) as (l1 & l2 & E).
  assert (a ∈ frames ∧ b ∈ frames) as [Ha Hb] by (rewrite <- !sorted_frames_in, E; set_solver).
  split; [right; by exists a|]. split; [by exists b|]. intros f Hf. apply (ascending_around l1 l2).
  - rewrite <- E. apply sorted_by_ascending.
  - by rewrite <- E, sorted_frames_in.
Qed.

Lemma first_stretch first rest : sorted_by fr_ts_ns frames = first :: rest →
  stretch (se_window_start_ns s) (fr_ts_ns first).
Proof.
  intros E. assert (first ∈ frames) as Hf by (rewrite <- sorted_frames_in, E; left).
  split; [by left|]. split; [by exists first|]. intros f Hin.
  pose proof (sorted_by_ascending fr_ts_ns frames) as Ha. rewrite E in Ha. apply ascending_cons in Ha as [Hx _].
  rewrite Forall_forall in Hx. unfold key_le in Hx. cbn in Hx. apply sorted_frames_in in Hin. rewrite E in Hin.
  apply elem_of_cons in Hin as [->|Hin]; [lia|]. specialize (Hx f Hin). lia.
Qed.

(** A gap is a stretch above the threshold, and any such stretch between
    neighbours is a gap. *)
Lemma gap_stretch g : g ∈ client_gaps s threshold_ms →
  stretch (gp_start_ns g) (gp_end_ns g) ∧ int_gt (gp_end_ns g - gp_start_ns g) floor_ns = true.
Proof.
  unfold client_gaps. destruct (sorted_by fr_ts_ns frames) as [|first rest] eqn:E; [by intros ?%elem_of_nil|].
  intros [Hg|Hg]%elem_of_app.
  - destruct (int_gt _ _) eqn:Hi; [|by apply elem_of_nil in Hg]. apply list_elem_of_singleton in Hg as ->. cbn.
    split; [by eapply first_stretch|done].
  - apply list_elem_of_bind in Hg as ([prev curr] & Hg & Hin). rewrite <- E in Hin.
    destruct (int_gt _ _) eqn:Hi; [|by apply elem_of_nil in Hg]. apply list_elem_of_singleton in Hg as ->. cbn.
    split; [by apply pairs_stretch|done].
Qed.

(** Every gap reported for a client is a stretch above the threshold between
    two frames, or between the start of the window and the first frame, with
    no frame inside; and every moment from the window's start to the last
    frame lies in a reported gap or in a stretch not above the threshold. *)
Theorem client_gaps_exact :
  (∀ g, g ∈ client_gaps s threshold_ms →
    stretch (gp_start_ns g) (gp_end_ns g) ∧ int_gt (gp_end_ns g - gp_start_ns g) floor_ns = true) ∧
  (∀ t f, f ∈ frames → se_window_start_ns s ≤ t ≤ fr_ts_ns f →
    (∃ g, g ∈ client_gaps s threshold_ms ∧ gp_start_ns g ≤ t ≤ gp_end_ns g) ∨
    (∃ a b, stretch a b ∧ a ≤ t ≤ b ∧ int_gt (b - a) floor_ns = false)).
Proof.
  split; [apply gap_stretch|]. intros t f Hf Ht. unfold client_gaps.
  destruct (sorted_by fr_ts_ns frames) as [|first rest] eqn:E.
  { apply sorted_by_nil in E. rewrite E in Hf. by apply elem_of_nil in Hf. }
  destruct (Z.le_gt_cases t (fr_ts_ns first)) as [Hle|Hgt].
  - destruct (int_gt (fr_ts_ns first - se_window_start_ns s) floor_ns) eqn:Hi.
    + left. eexists. split; [apply elem_of_app; left; by apply list_elem_of_singleton|]. cbn. lia.
    + right. exists (se_window_start_ns s), (fr_ts_ns first). split; [by eapply first_stretch|]. split; [lia|done].
  - apply sorted_frames_in in Hf. rewrite E in Hf.
    destruct (pairwise_around fr_ts_ns rest first t f Hgt Hf ltac:(lia)) as (a & b & Hab & Hle).
    destruct (int_gt (fr_ts_ns b - fr_ts_ns a) floor_ns) eqn:Hi.
    + left. exists (mkGap (fr_ts_ns a) (fr_ts_ns b) (fr_input_tick a) (fr_input_tick b)). split; [|done].
      apply elem_of_app. right. apply list_elem_of_bind. exists (a, b). split; [|done]. rewrite Hi. by apply list_elem_of_singleton.
    + right. exists (fr_ts_ns a), (fr_ts_ns b). split; [apply pairs_stretch; by rewrite E|]. done.
Qed.

Lemma gap_fits g : series_fits s → g ∈ client_gaps s threshold_ms → member_fits (s, g).
Proof.
  intros (Hw & Hfr & _) Hg. apply gap_stretch in Hg as [(Ha & (f & Hf & Eb) & _) _]. rewrite Forall_forall in Hfr.
  split; cbn.
  - destruct Ha as [->|(f' & Hf' & <-)]; [done|by apply Hfr].
  - rewrite <- Eb. by apply Hfr.
Qed.
End Gaps.

(** ** All instances *)

Lemma members_fit entries thr : Forall series_fits entries → Forall member_fits (members_of entries thr).
Proof.
  intros He. unfold members_of. rewrite sorted_by_perm. apply Forall_forall.
  intros m (entry & (g & -> & Hg)%list_elem_of_fmap & Hin)%list_elem_of_bind. apply (gap_fits _ thr); [|done].
  rewrite Forall_forall in He. by apply He.
Qed.

(** The records of one instance are those of its linked groups. *)
Definition instance_linkage (thr tol catchup_ns : double) (inst : Z * list ClientSeries) (rs : list GapClusterRecord) : Prop :=
  let '(i, entries) := inst in
  ∃ groups, single_linkage tol (members_of entries thr) groups ∧
    Forall2 (λ g r, _cluster_record i (Z.of_nat (length entries)) entries catchup_ns g = Ok r) groups rs.

Lemma instance_entries series i entries : (i, entries) ∈ instances series →
  entries = filter (λ s, se_instance_index s = i) series.
Proof.
  unfold instances. rewrite sorted_by_perm. intros Hin. pose proof (holds_group_by se_instance_index series) as [Hk Hg Hf _].
  rewrite <- Hg. clear Hg Hf. revert Hk Hin. generalize (group_by se_instance_index series) as d. intros d.
  induction d as [|[k b] d IH]; intros Hk Hin; [by apply elem_of_nil in Hin|].
  cbn in Hk. apply NoDup_cons in Hk as [Hn Hk]. rewrite bucket_get_cons. apply elem_of_cons in Hin as [[= <- <-]|Hin].
  - by rewrite decide_True.
  - case_decide as Hd; [|by apply IH]. subst k. exfalso. apply Hn. apply list_elem_of_fmap. by exists (i, entries).
Qed.

(** C21: On series whose times fit 63 bits, clustering never raises, and the
    records of each server instance are the records of the single-linkage
    groups of that instance's gaps: every gap is in exactly one group, a gap
    joins a group when it starts within the tolerance of the group's end so
    far, and gaps of later groups start beyond every earlier one. *)
Theorem cluster_gaps_linkage series thr tol_ms : Forall series_fits series →
  ∃ rss, cluster_gaps series thr tol_ms = Ok (concat rss) ∧
    Forall2 (instance_linkage thr (fmul tol_ms MILLION) (fmul _CATCHUP_WINDOW_MS MILLION)) (instances series) rss ∧
    (∀ i entries, (i, entries) ∈ instances series → entries = filter (λ s, se_instance_index s = i) series).
Proof.
  intros Hs. unfold cluster_gaps. set (tol := fmul tol_ms MILLION). set (cu := fmul _CATCHUP_WINDOW_MS MILLION).
  assert (∀ inst, inst ∈ instances series → ∃ rs, instance_clusters thr tol cu inst = Ok rs ∧ instance_linkage thr tol cu inst rs) as Hi.
  { intros [i entries] Hin. assert (Forall series_fits entries) as He.
    { rewrite (instance_entries _ _ _ Hin), Forall_forall. rewrite Forall_forall in Hs. by intros x [_ Hx%Hs]%list_elem_of_filter. }
    destruct (cluster_loop_spec (_cluster_record i (Z.of_nat (length entries)) entries cu) tol
      (λ g, record_total entries He i _ cu g) (members_of entries thr) []) as (groups & rs & Hrs & H2 & Hl).
    - by intros [].
    - by apply members_fit.
    - apply sorted_by_ascending.
    - exists rs. split; [done|]. by exists groups. }
  assert (∃ rss, map_result (instance_clusters thr tol cu) (instances series) = Ok rss ∧
    Forall2 (instance_linkage thr tol cu) (instances series) rss) as (rss & E & H2).
  { clear Hs. induction (instances series) as [|inst l IH]; [by exists []|].
    destruct (Hi inst) as (rs & Hrs & Hl); [left|]. destruct IH as (rss & E & H2); [intros; apply Hi; by right|].
    exists (rs :: rss). cbn [map_result]. rewrite Hrs, E. split; [done|by constructor]. }
  exists rss. rewrite E. split; [done|]. split; [done|]. apply instance_entries.
Qed.
