(* ===== verification/ServerControl.v ===== *)
(** * The control-plane client ([python/kith/_agent/server_control.py])

    HTTP requests over one connection that is kept open, replaced when it is
    lost, and shared under a lock, so requests run one after the other.  A
    connection is the bytes its peer will send and how they end; the outcomes
    of the connection attempts to come are the environment's. *)

From S2P Require Import Prelude PyStruct PyText PyFloat PyJson PyWire.

#[local] Open Scope Z_scope.

(** ** Connections *)

(** After the bytes: the end of the stream, silence until the timeout, or a
    reset. *)
Inductive ending := Eof | Silent | Reset.

(** [cn_closing] is [writer.is_closing()]; on a lost connection [drain]
    raises. *)
Record conn := mkConn { cn_in : bytes; cn_end : ending; cn_closing : bool; cn_lost : bool; cn_out : bytes }.

(** [None] in [ct_attempts] is a connection refused or timed out; [ct_dropped]
    holds the connections given up, the latest first. *)
Record control := mkControl {
  ct_host : pystr;
  ct_port : Z;
  ct_conn : option conn;
  ct_attempts : list (option conn);
  ct_dropped : list conn;
}.

Definition set_conn (k : option conn) (c : control) : control := mkControl (ct_host c) (ct_port c) k (ct_attempts c) (ct_dropped c).
Definition set_attempts (l : list (option conn)) (c : control) : control := mkControl (ct_host c) (ct_port c) (ct_conn c) l (ct_dropped c).
Definition with_in (b : bytes) (k : conn) : conn := mkConn b (cn_end k) (cn_closing k) (cn_lost k) (cn_out k).
Definition with_out (b : bytes) (k : conn) : conn := mkConn (cn_in k) (cn_end k) (cn_closing k) (cn_lost k) b.

Definition _MAX_BODY_BYTES : Z := Z.shiftl 1 20.

(** [HTTP_READ_ERRORS]; [ConnectionError] and [TimeoutError] are [OSError]s. *)
Definition is_read_error (e : exn) : bool :=
  match e with IncompleteReadError | ConnectionResetError | OSError => true | _ => false end.

Definition is_control_error (e : exn) : bool := match e with ServerControlError _ => true | _ => false end.

(** ** Reading *)

Section Control.
(** The text of an exception. *)
Context (exc_text : exn → pystr).

(** What waiting for more than the bytes at hand raises. *)
Definition starved (k : conn) : exn := match cn_end k with Eof => IncompleteReadError | Silent => OSError | Reset => ConnectionResetError end.

(** The reader's limit on a line. *)
Definition STREAM_LIMIT : nat := Z.to_nat (2 ^ 16).

(** [await wait_for(reader.readline())] *)
Definition read_line : M control bytes := λ c,
  match ct_conn c with
  | None => (c, Err (AssertionError []))
  | Some k =>
      let '(line, rest) := readline (cn_in k) in
      let complete := match last line with Some b => Byte.eqb b x0a | None => false end in
      if (STREAM_LIMIT <? (if complete then length line - 1 else length line))%nat
      then (c, Err (ValueError [Lit "Separator is not found, and chunk exceed the limit"]))
      else if complete then (set_conn (Some (with_in rest k)) c, Ok line)
      else match cn_end k with Eof => (set_conn (Some (with_in [] k)) c, Ok line) | _ => (c, Err (starved k)) end
  end.

(** [await wait_for(reader.readexactly(n))] *)
Definition read_exactly (n : Z) : M control bytes := λ c,
  match ct_conn c with
  | None => (c, Err (AssertionError []))
  | Some k =>
      match readexactly n (cn_in k) with
      | Ok body => (set_conn (Some (with_in (drop (Z.to_nat n) (cn_in k)) k)) c, Ok body)
      | Err IncompleteReadError => (c, Err (starved k))
      | Err e => (c, Err e)
      end
  end.

Definition _drop_connection : M control unit := λ c,
  (mkControl (ct_host c) (ct_port c) None (ct_attempts c) (match ct_conn c with Some k => k :: ct_dropped c | None => ct_dropped c end), Ok tt).

Definition bad_status (line : bytes) (what : string) : exn := ServerControlError [Lit what; ReprBytes line].

(** [line.decode("iso-8859-1").split(None, 2)] up to its second part. *)
Definition _parse_status_code (status_line : bytes) : result Z :=
  match split (latin1 status_line) with
  | _ :: code :: _ =>
      match py_int 10 code with Some z => Ok z | None => Err (bad_status status_line "malformed status code in ") end
  | _ => Err (bad_status status_line "malformed status line: ")
  end.

(** The length so far, and the one a header line gives. *)
Definition header_length (content_length : option Z) (line : bytes) : option Z :=
  let '(key, value) := partition_at 58 (latin1 line) in
  if bool_decide (lower (strip key) = str "content-length") then py_int 10 (strip value) else content_length.

(** Every turn but the last takes a byte. *)
Fixpoint headers_loop (fuel : nat) (content_length : option Z) : M control (option Z) :=
  match fuel with
  | O => raise OutOfFuel
  | S fuel =>
      line ← read_line;
      if bool_decide (latin1 line ∈ [[13; 10]; [10]; []]) then mret content_length else
      headers_loop fuel (header_length content_length line)
  end.

Definition in_left (c : control) : nat := match ct_conn c with Some k => length (cn_in k) | None => 0 end.

Definition _read_headers : M control (option Z) := c ← get; headers_loop (S (in_left c)) None.

Definition too_large : exn := ServerControlError [Lit "response body exceeds "; Num _MAX_BODY_BYTES; Lit " bytes"].

(** Without a length the body ends with the stream; it is counted chunk by
    chunk as it arrives. *)
Definition _read_body (content_length : option Z) : M control bytes :=
  match content_length with
  | Some n =>
      guard (_MAX_BODY_BYTES <? n) too_large;;
      read_exactly n
  | None => λ c,
      match ct_conn c with
      | None => (c, Err (AssertionError []))
      | Some k =>
          if _MAX_BODY_BYTES <? zlen (cn_in k) then (c, Err too_large) else
          match cn_end k with
          | Eof => (fst (_drop_connection (set_conn (Some (with_in [] k)) c)), Ok (cn_in k))
          | _ => (c, Err (starved k))
          end
      end
  end.

Definition _read_response : M control (Z * bytes) :=
  status_line ← read_line;
  guard (zlen status_line =? 0) OSError;;
  status ← lift (_parse_status_code status_line);
  content_length ← _read_headers;
  body ← _read_body content_length;
  mret (status, body).

(** ** Sending *)

(** [encode("iso-8859-1")] *)
Definition latin1_encode (s : pystr) : result bytes :=
  if forallb (λ c, (0 <=? c) && (c <? 256)) s then Ok (Z_to_byte <$> s) else Err UnicodeEncodeError.

Definition crlf : pystr := [13; 10].
Definition join_lines (lines : list pystr) : pystr := (l ← lines; l ++ crlf) ++ crlf.

Definition _ensure_connected : M control unit :=
  c ← get;
  match ct_conn c with
  | Some k => if negb (cn_closing k) then mret tt else _drop_connection
  | None => mret tt
  end;;
  c ← get;
  match ct_conn c with
  | Some _ => mret tt
  | None =>
      match ct_attempts c with
      | Some k :: rest => modify (λ c, set_conn (Some k) (set_attempts rest c))
      | failed =>
          modify (set_attempts (tail failed));;
          raise (ServerControlError [Lit "connect to "; Txt (ct_host c); Lit ":"; Num (ct_port c); Lit " failed: "; Txt (exc_text OSError)])
      end
  end.

(** The request line and the headers. *)
Definition request_head (method path accept : pystr) (content_type : option pystr) (body : option bytes) (c : control) : result bytes :=
  port ← int_repr (ct_port c);
  content ← match body with
            | Some b =>
                n ← int_repr (zlen b);
                Ok [str "Content-Type: " ++ default (str "application/json") content_type; str "Content-Length: " ++ n]
            | None => Ok []
            end;
  latin1_encode (join_lines ([method ++ str " " ++ path ++ str " HTTP/1.1"; str "Host: " ++ ct_host c ++ str ":" ++ port;
    str "Accept: " ++ accept; str "Connection: keep-alive"] ++ content)).

Definition _send_request (method path accept : pystr) (content_type : option pystr) (body : option bytes) : M control unit :=
  c ← get;
  match ct_conn c with
  | None => raise (AssertionError [])
  | Some k =>
      head ← lift (request_head method path accept content_type body c);
      modify (set_conn (Some (with_out (cn_out k ++ head ++ default [] body) k)));;
      if cn_lost k then raise ConnectionResetError else mret tt
  end.

(** ** Requests *)

Definition exchange (method path accept : pystr) (content_type : option pystr) (body : option bytes) : M control (Z * bytes) :=
  _send_request method path accept content_type body;;
  _read_response.

(** [try: m except (matching e): handler e] *)
Definition catching {A} (matches : exn → bool) (m : M control A) (handler : exn → M control A) : M control A := λ c,
  match m c with (c, Err e) => if matches e then handler e c else (c, Err e) | done => done end.

(** The first [except] whose class fits handles an exception; what the handler
    raises is not handled by the others. *)
Definition _request (method path accept : pystr) (content_type : option pystr) (body : option bytes) : M control (Z * bytes) := λ c,
  match (_ensure_connected;; exchange method path accept content_type body) c with
  | (c, Ok r) => (c, Ok r)
  | (c, Err e) =>
      if is_read_error e then
        (_drop_connection;;
         _ensure_connected;;
         catching is_read_error (exchange method path accept content_type body)
           (λ e2, _drop_connection;;
                  raise (ServerControlError [Txt method; Lit " "; Txt path; Lit " failed: "; Txt (exc_text e2)]))) c
      else if is_control_error e then (_drop_connection;; raise e) c
      else (c, Err e)
  end.

(** The names of the types [json.loads] returns. *)
Definition type_name (v : jval) : pystr :=
  str match v with
      | JNull => "NoneType" | JBool _ => "bool" | JInt _ => "int" | JFloat _ => "float" | JStr _ => "str" | JArr _ => "list"
      | JObj _ => "dict"
      end.

Definition _decode_json (path : pystr) (body : bytes) : result (list (pystr * jval)) :=
  match loads (decode_replace body) with
  | Ok (JObj l) => Ok l
  | Ok v => Err (ServerControlError [Txt path; Lit " returned JSON "; Txt (type_name v); Lit ", expected object"])
  | Err JSONDecodeError =>
      Err (ServerControlError [Txt path; Lit " returned non-JSON body: "; Txt (exc_text JSONDecodeError)])
  | Err e => Err e
  end.

Definition control_metrics : M control pystr :=
  '(status, body) ← _request (str "GET") (str "/metrics") (str "text/plain") None None;
  guard (negb (status =? 200)) (ServerControlError [Lit "metrics returned HTTP "; Num status]);;
  mret (decode_replace body).

Definition control_get (path : pystr) : M control (list (pystr * jval)) :=
  '(status, body) ← _request (str "GET") path (str "application/json") None None;
  guard (negb (status =? 200)) (ServerControlError [Lit "GET "; Txt path; Lit " returned HTTP "; Num status]);;
  lift (_decode_json path body).

Definition comma_join (l : list pystr) : pystr := match l with [] => [] | x :: l => x ++ (l ≫= λ t, 44 :: t) end.

(** [json.dumps(v, separators=(",", ":"))], entries in their order. *)
Fixpoint compact (v : jval) : result pystr :=
  match v with
  | JNull => Ok (str "null")
  | JBool b => Ok (if b then str "true" else str "false")
  | JInt z => int_repr z
  | JFloat d => float_repr d
  | JStr s => Ok (quote s)
  | JArr l => ts ← sequence (map compact l); Ok (str "[" ++ comma_join ts ++ str "]")
  | JObj l =>
      ts ← sequence (map (λ '(k, v), t ← compact v; Ok (quote k ++ 58 :: t)) l);
      Ok (str "{" ++ comma_join ts ++ str "}")
  end.

Definition control_post (path : pystr) (body : list (pystr * jval)) : M control (list (pystr * jval)) :=
  text ← lift (compact (JObj body));
  payload ← lift (encode_utf8 text);
  '(status, resp) ← _request (str "POST") path (str "application/json") (Some (str "application/json")) (Some payload);
  guard (negb (status =? 200)) (ServerControlError [Lit "POST "; Txt path; Lit " returned HTTP "; Num status]);;
  lift (_decode_json path resp).

Definition health : M control (list (pystr * jval)) := control_get (str "/health").

Definition control_close : M control unit := _drop_connection.
End Control.
