(* ===== verification/ServerControlTheorems.v ===== *)
(** * Properties of the control-plane client

    Replies are read exactly, across connections the server closes between
    requests, and every failure is one of the declared errors. *)

From S2P Require Import Prelude PyStruct PyText PyFloat PyJson PyWire ServerControl.

#[local] Open Scope Z_scope.

(** ** Replies *)

Definition whole_line (l : bytes) : Prop := ∃ s, l = s ++ [x0a] ∧ (x0a ∉ s) ∧ (length s ≤ STREAM_LIMIT)%nat.

Definition blank (l : bytes) : Prop := latin1 l ∈ [[13; 10]; [10]; []].

Record reply := mkReply { rp_status : Z; rp_line : bytes; rp_headers : list bytes; rp_body : bytes }.

Definition reply_bytes (r : reply) : bytes := rp_line r ++ concat (rp_headers r) ++ [x0d; x0a] ++ rp_body r.

(** A status line with the status, header lines whose last content length is
    that of the body, and a body within the limit. *)
Record reply_ok (r : reply) : Prop := {
  ro_line : whole_line (rp_line r);
  ro_status : _parse_status_code (rp_line r) = Ok (rp_status r);
  ro_headers : Forall (λ h, whole_line h ∧ ¬ blank h) (rp_headers r);
  ro_length : foldl header_length None (rp_headers r) = Some (zlen (rp_body r));
  ro_size : zlen (rp_body r) ≤ _MAX_BODY_BYTES;
}.

Lemma readline_app s rest : x0a ∉ s → readline (s ++ x0a :: rest) = (s ++ [x0a], rest).
Proof.
  induction s as [|b s IH]; intros Hs; [done|]. apply not_elem_of_cons in Hs as [Hb Hs]. cbn [app readline].
  destruct (Byte.eqb b x0a) eqn:E; [by apply Byte.byte_dec_bl in E|]. by rewrite (IH Hs).
Qed.

Lemma readline_split input : fst (readline input) ++ snd (readline input) = input.
Proof.
  induction input as [|b input IH]; [done|]. cbn [readline]. destruct (Byte.eqb b x0a); [done|].
  destruct (readline input) as [line rest]. cbn [fst snd] in *. cbn [app]. by rewrite IH.
Qed.

Lemma read_line_whole c k l rest : ct_conn c = Some k → cn_in k = l ++ rest → whole_line l →
  read_line c = (set_conn (Some (with_in rest k)) c, Ok l).
Proof.
  intros Hc Hk (s & -> & Hs & Hl). unfold read_line. rewrite Hc, Hk, <- app_assoc. cbn [app]. rewrite (readline_app s rest Hs), last_snoc.
  change (Byte.eqb x0a x0a) with true. cbn iota. rewrite length_app. cbn [length].
  replace (STREAM_LIMIT <? length s + 1 - 1)%nat with false; [done|]. symmetry. apply Nat.ltb_ge. lia.
Qed.

Lemma set_conn_twice k k' c : set_conn k (set_conn k' c) = set_conn k c.
Proof. done. Qed.

Lemma headers_exact hs : ∀ fuel len c k rest, ct_conn c = Some k → cn_in k = concat hs ++ [x0d; x0a] ++ rest → (length hs < fuel)%nat →
  Forall (λ h, whole_line h ∧ ¬ blank h) hs →
  headers_loop fuel len c = (set_conn (Some (with_in rest k)) c, Ok (foldl header_length len hs)).
Proof.
  induction hs as [|h hs IH]; intros fuel len c k rest Hc Hk Hf Hh; (destruct fuel as [|fuel]; [cbn in Hf; lia|]); cbn [headers_loop].
  - rewrite bind_run, (read_line_whole c k [x0d; x0a] rest Hc Hk); [done|]. exists [x0d]. split; [done|]. split; [|cbn; unfold STREAM_LIMIT; lia].
    intros H%list_elem_of_singleton. done.
  - apply Forall_cons in Hh as [[Hw Hb] Hh]. cbn [concat] in Hk. rewrite <- app_assoc in Hk.
    rewrite bind_run, (read_line_whole c k h _ Hc Hk Hw). case_bool_decide; [done|]. rewrite (IH fuel _ _ (with_in (concat hs ++ [x0d; x0a] ++ rest) k) rest); try done.
    cbn [length] in Hf. lia.
Qed.

Lemma whole_line_length l : whole_line l → (0 < length l)%nat.
Proof. intros (s & -> & _). rewrite length_app. cbn. lia. Qed.

Lemma headers_length hs : Forall (λ h, whole_line h ∧ ¬ blank h) hs → (length hs ≤ length (concat hs))%nat.
Proof. induction 1 as [|h hs [Hw _] _ IH]; [done|]. cbn [concat length]. rewrite length_app. pose proof (whole_line_length h Hw). lia. Qed.

Lemma read_response_exact c k r rest : ct_conn c = Some k → cn_in k = reply_bytes r ++ rest → reply_ok r →
  _read_response c = (set_conn (Some (with_in rest k)) c, Ok (rp_status r, rp_body r)).
Proof.
  intros Hc Hk [Hl Hs Hh Hn Hz]. unfold reply_bytes in Hk. rewrite <- !app_assoc in Hk. unfold _read_response.
  rewrite bind_run, (read_line_whole c k _ _ Hc Hk Hl).
  replace (zlen (rp_line r) =? 0) with false by (pose proof (whole_line_length _ Hl); unfold zlen; lia).
  rewrite guard_false, bind_lift, Hs. unfold _read_headers. rewrite bind_run, bind_get.
  rewrite (headers_exact (rp_headers r) _ None _ (with_in (concat (rp_headers r) ++ [x0d; x0a] ++ rp_body r ++ rest) k) (rp_body r ++ rest)); try done.
  2: { unfold in_left. cbn [set_conn ct_conn with_in cn_in]. rewrite length_app. pose proof (headers_length _ Hh). lia. }
  rewrite Hn. unfold _read_body. rewrite bind_run. replace (_MAX_BODY_BYTES <? zlen (rp_body r)) with false by lia.
  rewrite guard_false. unfold read_exactly. cbn [set_conn ct_conn with_in cn_in]. unfold readexactly.
  assert (0 ≤ zlen (rp_body r) ∧ 0 ≤ zlen rest) as [Hb Hr] by (unfold zlen; lia).
  rewrite (proj2 (Z.ltb_ge _ _) Hb), zlen_app, (proj2 (Z.ltb_ge _ _)) by lia.
  unfold zlen at 1 2. rewrite Nat2Z.id, take_app_length, drop_app_length. done.
Qed.

(** ** Requests *)

Record request := mkRequest { rq_method : pystr; rq_path : pystr; rq_accept : pystr; rq_content_type : option pystr; rq_body : option bytes }.

Section Requests.
Context (exc_text : exn → pystr).

Definition issue (q : request) : M control (Z * bytes) :=
  _request exc_text (rq_method q) (rq_path q) (rq_accept q) (rq_content_type q) (rq_body q).

Fixpoint requests (qs : list request) : M control (list (Z * bytes)) :=
  match qs with
  | [] => mret []
  | q :: qs => r ← issue q; rs ← requests qs; mret (r :: rs)
  end.

(** The request can be written in Latin-1. *)
Definition encodable (c : control) (q : request) : Prop :=
  ∃ head, request_head (rq_method q) (rq_path q) (rq_accept q) (rq_content_type q) (rq_body q) c = Ok head.

(** A connection whose peer sends [seg] and then closes it. *)
Definition feeds (seg : list reply) (k : conn) : Prop :=
  cn_in k = concat (reply_bytes <$> seg) ∧ cn_end k = Eof ∧ cn_closing k = false ∧ cn_lost k = false.

(** The replies still to come, in the order of the connections that carry
    them; every new connection carries at least one. *)
Record serves (c : control) (seg : list reply) (segs : list (list reply)) : Prop := {
  sv_conn : match ct_conn c with Some k => feeds seg k | None => seg = [] end;
  sv_attempts : Forall2 (λ o s, ∃ k, o = Some k ∧ feeds s k ∧ s ≠ []) (ct_attempts c) segs;
}.

Lemma send_ok c k q : ct_conn c = Some k → cn_lost k = false → encodable c q → ∃ out,
  _send_request (rq_method q) (rq_path q) (rq_accept q) (rq_content_type q) (rq_body q) c = (set_conn (Some (with_out out k)) c, Ok tt).
Proof.
  intros Hc Hl [head Hh]. unfold _send_request. rewrite bind_get, Hc, bind_lift, Hh. cbn iota beta. rewrite bind_run, Hl. by eexists.
Qed.

(** One exchange over a connection that carries a reply. *)
Lemma exchange_exact c k q r seg : ct_conn c = Some k → feeds (r :: seg) k → reply_ok r → encodable c q → ∃ k',
  exchange (rq_method q) (rq_path q) (rq_accept q) (rq_content_type q) (rq_body q) c =
    (set_conn (Some k') c, Ok (rp_status r, rp_body r)) ∧ feeds seg k'.
Proof.
  intros Hc (Hi & He & Hcl & Hl) Hr Hq. destruct (send_ok c k q Hc Hl Hq) as [out Hs]. unfold exchange. rewrite bind_run, Hs.
  cbn [fmap list_fmap concat] in Hi. rewrite (read_response_exact _ (with_out out k) r (concat (reply_bytes <$> seg))); try done.
  eexists. split; [done|]. done.
Qed.

Definition same_peer (c c' : control) : Prop := ct_host c' = ct_host c ∧ ct_port c' = ct_port c.

Lemma encodable_ext c c' q : same_peer c c' → encodable c q → encodable c' q.
Proof. intros [Hh Hp] [head H]. exists head. unfold request_head in *. by rewrite Hh, Hp. Qed.

(** Opening the next connection. *)
Lemma connects c segs seg : ct_conn c = None → serves c [] (seg :: segs) → ∃ k,
  _ensure_connected exc_text c = (set_conn (Some k) (set_attempts (tail (ct_attempts c)) c), Ok tt) ∧ feeds seg k ∧ seg ≠ [] ∧
  serves (set_conn (Some k) (set_attempts (tail (ct_attempts c)) c)) seg segs.
Proof.
  intros Hn [_ Ha]. apply Forall2_cons_inv_r in Ha as (o & l & (k & -> & Hf & Hs) & Ha & E).
  unfold _ensure_connected. rewrite bind_get, Hn. cbn [mret M_ret]. rewrite bind_run. cbn [mret M_ret]. rewrite bind_get, Hn, E. by exists k.
Qed.

Lemma request_step c q seg segs r rest : serves c seg segs → seg ++ concat segs = r :: rest → reply_ok r → encodable c q →
  ∃ c' seg' segs', issue q c = (c', Ok (rp_status r, rp_body r)) ∧ serves c' seg' segs' ∧ seg' ++ concat segs' = rest ∧ same_peer c c'.
Proof.
  intros Hs Hr Hok Hq. unfold issue, _request. rewrite bind_run. destruct (ct_conn c) as [k|] eqn:Hc.
  - pose proof (sv_conn _ _ _ Hs) as Hk. rewrite Hc in Hk. destruct Hk as (Hi & He & Hcl & Hl).
    assert (_ensure_connected exc_text c = (c, Ok tt)) as ->.
    { unfold _ensure_connected. rewrite bind_get, Hc, Hcl. cbn [negb]. rewrite bind_run. cbn [mret M_ret]. by rewrite bind_get, Hc. }
    destruct seg as [|r0 seg].
    + destruct (send_ok c k q Hc Hl Hq) as [out Hsend]. cbn [app] in Hr. destruct segs as [|s0 segs]; [done|].
      assert (exchange (rq_method q) (rq_path q) (rq_accept q) (rq_content_type q) (rq_body q) c =
              (set_conn (Some (with_in [] (with_out out k))) c, Err OSError)) as ->.
      { unfold exchange. rewrite bind_run, Hsend. unfold _read_response. rewrite bind_run. unfold read_line. cbn [set_conn ct_conn with_out cn_in].
        rewrite Hi. cbn [fmap list_fmap concat readline last]. replace (STREAM_LIMIT <? length [])%nat with false by done.
        cbn [cn_end with_out]. by rewrite He. }
      cbn [is_read_error]. rewrite bind_run. unfold _drop_connection at 1. cbn iota beta.
      match goal with |- context [mkControl ?a ?b None ?d ?e] => set (c1 := mkControl a b None d e) end.
      destruct (connects c1 segs s0) as (k' & E & Hf & Hne & Hs'); [done|split; [done|apply Hs]|]. rewrite bind_run, E. cbn iota beta.
      destruct s0 as [|r0 s0]; [done|]. injection Hr as <- <-.
      destruct (exchange_exact (set_conn (Some k') (set_attempts (tail (ct_attempts c1)) c1)) k' q r0 s0) as (k'' & E' & Hf'); try done.
      unfold catching. rewrite E'. eexists _, s0, segs. split; [done|]. split; [|done]. split; [done|apply Hs'].
    + injection Hr as <- <-. destruct (exchange_exact c k q r0 seg) as (k' & E & Hf); try done. rewrite E.
      eexists _, seg, segs. split; [done|]. split; [|done]. split; [done|apply Hs].
  - pose proof (sv_conn _ _ _ Hs) as Hk. rewrite Hc in Hk. subst seg. cbn [app] in Hr. destruct segs as [|s0 segs]; [done|].
    destruct (connects c segs s0 Hc Hs) as (k' & E & Hf & Hne & Hs'). rewrite E. destruct s0 as [|r0 s0]; [done|]. injection Hr as <- <-.
    destruct (exchange_exact (set_conn (Some k') (set_attempts (tail (ct_attempts c)) c)) k' q r0 s0) as (k'' & E' & Hf'); try done.
    rewrite E'. eexists _, s0, segs. split; [done|]. split; [|done]. split; [done|apply Hs'].
Qed.

Lemma requests_exact qs : ∀ c seg segs, serves c seg segs → length qs = length (seg ++ concat segs) → Forall reply_ok (seg ++ concat segs) →
  Forall (encodable c) qs → snd (requests qs c) = Ok ((λ r, (rp_status r, rp_body r)) <$> (seg ++ concat segs)).
Proof.
  induction qs as [|q qs IH]; intros c seg segs Hs Hl Hr Hq; (destruct (seg ++ concat segs) as [|r rest] eqn:E; [done|]); [done|].
  apply Forall_cons in Hr as [Hr Hrest]. apply Forall_cons in Hq as [Hq Hqs].
  destruct (request_step c q seg segs r rest Hs E Hr Hq) as (c' & seg' & segs' & Ei & Hs' & E' & Hp).
  cbn [requests]. rewrite bind_run, Ei. subst rest. specialize (IH c' seg' segs' Hs' ltac:(cbn in Hl; lia) Hrest).
  rewrite bind_run. destruct (requests qs c') as [c'' [rs|e]]; cbn [snd] in IH.
  - cbn. f_equal. f_equal. apply Ok_inj, IH. eapply Forall_impl; [exact Hqs|]. intros q' Hq'. by apply (encodable_ext c).
  - exfalso. enough (@Err (list (Z * bytes)) e = Ok ((λ r, (rp_status r, rp_body r)) <$> (seg' ++ concat segs'))) by done.
    apply IH. eapply Forall_impl; [exact Hqs|]. intros q' Hq'. by apply (encodable_ext c).
Qed.

(** C30: Requests issued one after another over connections that each carry at
    least one well-formed reply and are then closed are answered, in order,
    with exactly the status and body of the replies, over as many connections
    as the replies are spread across: a connection found closed costs one
    reconnect and no request, and no reply is skipped, repeated or cut. *)
Theorem control_requests_exact c qs segs : ct_conn c = None → Forall2 (λ o s, ∃ k, o = Some k ∧ feeds s k ∧ s ≠ []) (ct_attempts c) segs →
  Forall reply_ok (concat segs) → length qs = length (concat segs) → Forall (encodable c) qs →
  snd (requests qs c) = Ok ((λ r, (rp_status r, rp_body r)) <$> concat segs).
Proof. intros Hc Ha Hr Hl Hq. apply (requests_exact qs c [] segs); try done. split; [by rewrite Hc|done]. Qed.
End Requests.

(** ** Failures *)

(** What an exchange can fail with. *)
Definition io_error (e : exn) : Prop := is_read_error e = true ∨ is_control_error e = true ∨ is_value_error e = true.

(** [m], run on a connection, keeps it and takes no byte back, or fails with
    one of these. *)
Definition reads {A} (P : control → A → control → Prop) (m : M control A) : Prop := ∀ c, ct_conn c ≠ None →
  let '(c', r) := m c in ct_attempts c' = ct_attempts c ∧
  match r with Ok x => ct_conn c' ≠ None ∧ P c x c' | Err e => io_error e end.

Lemma starved_io k : io_error (starved k).
Proof. unfold io_error, starved. destruct (cn_end k); by left. Qed.

Lemma read_line_reads : reads (λ c l c', (in_left c' + length l ≤ in_left c)%nat) read_line.
Proof.
  intros c Hc. unfold read_line. destruct (ct_conn c) as [k|] eqn:E; [|done]. pose proof (readline_split (cn_in k)) as Hs.
  destruct (readline (cn_in k)) as [line rest]. cbn [fst snd] in Hs. unfold in_left. rewrite E.
  assert (length (cn_in k) = length line + length rest)%nat as Hl by (by rewrite <- Hs, length_app).
  destruct (match last line with Some b => Byte.eqb b x0a | None => false end); destruct (_ <? _)%nat; try (split; [done|]; by right; right).
  - split; [done|]. split; [done|]. cbn [set_conn ct_conn with_in cn_in]. lia.
  - pose proof (starved_io k). destruct (cn_end k); [|by split..]. split; [done|]. split; [done|]. cbn [set_conn ct_conn with_in cn_in length]. lia.
Qed.

Lemma headers_reads fuel : ∀ len c, ct_conn c ≠ None → (in_left c < fuel)%nat →
  let '(c', r) := headers_loop fuel len c in ct_attempts c' = ct_attempts c ∧ match r with Ok _ => ct_conn c' ≠ None | Err e => io_error e end.
Proof.
  induction fuel as [|fuel IH]; intros len c Hc Hf; [lia|]. cbn [headers_loop]. rewrite bind_run.
  pose proof (read_line_reads c Hc) as Hr. destruct (read_line c) as [c' [l|e]]; [|done]. destruct Hr as (Ha & Hc' & Hl).
  case_bool_decide as Hb; [done|]. assert (0 < length l)%nat by (destruct l; [|cbn; lia]; exfalso; apply Hb; set_solver).
  specialize (IH (header_length len l) c' Hc' ltac:(lia)). destruct (headers_loop fuel _ c') as [c'' r]. by rewrite Ha in IH.
Qed.

Lemma body_reads len c : ct_conn c ≠ None → let '(c', r) := _read_body len c in ct_attempts c' = ct_attempts c ∧ match r with Ok _ => True | Err e => io_error e end.
Proof.
  intros Hc. unfold _read_body. destruct len as [n|].
  - unfold guard. rewrite bind_lift. unfold raise_if. destruct (_MAX_BODY_BYTES <? n); [split; [done|]; by right; left|]. unfold read_exactly.
    destruct (ct_conn c) as [k|]; [|done]. unfold readexactly. destruct (n <? 0); [split; [done|]; by right; right|].
    destruct (_ <? _); [split; [done|apply starved_io]|done].
  - destruct (ct_conn c) as [k|]; [|done]. destruct (_ <? _); [split; [done|]; by right; left|].
    pose proof (starved_io k). by destruct (cn_end k).
Qed.

Lemma status_io line e : _parse_status_code line = Err e → io_error e.
Proof. unfold _parse_status_code. destruct (split _) as [|? [|? ?]]; [..|destruct (py_int _ _)]; intros [= <-]; by right; left. Qed.

Lemma response_reads c : ct_conn c ≠ None →
  let '(c', r) := _read_response c in ct_attempts c' = ct_attempts c ∧ match r with Ok _ => True | Err e => io_error e end.
Proof.
  intros Hc. unfold _read_response. rewrite bind_run. pose proof (read_line_reads c Hc) as Hr.
  destruct (read_line c) as [c1 [l|e]]; [|done]. destruct Hr as (Ha & Hc1 & _). unfold guard. rewrite bind_lift. unfold raise_if.
  destruct (zlen l =? 0); [split; [done|]; by left|]. rewrite bind_lift.
  destruct (_parse_status_code l) as [st|e] eqn:Es; [|split; [done|by eapply status_io]].
  unfold _read_headers. rewrite bind_run, bind_get. pose proof (headers_reads (S (in_left c1)) None c1 Hc1 ltac:(lia)) as Hh.
  destruct (headers_loop _ _ c1) as [c2 [len|e]]; [|destruct Hh; split; [congruence|done]]. destruct Hh as [Ha2 Hc2].
  rewrite bind_run. pose proof (body_reads len c2 Hc2) as Hb. destruct (_read_body len c2) as [c3 [b|e]]; destruct Hb; split; try done; congruence.
Qed.

Lemma int_repr_value z e : int_repr z = Err e → is_value_error e = true.
Proof.
  unfold int_repr. intros H. apply bind_Err in H as [H|(u & _ & H)]; [|done]. unfold int_limit in H. by apply raise_if_Err in H as [_ <-].
Qed.

Lemma head_value m p a t b c e : request_head m p a t b c = Err e → is_value_error e = true.
Proof.
  unfold request_head. intros H. apply bind_Err in H as [H|(port & _ & H)]; [by eapply int_repr_value|].
  apply bind_Err in H as [H|(content & _ & H)].
  - destruct b as [b|]; [|done]. apply bind_Err in H as [H|(n & _ & H)]; [by eapply int_repr_value|done].
  - unfold latin1_encode in H. destruct (forallb _ _); [done|]. by injection H as <-.
Qed.

Lemma exchange_fails m p a t b c : ct_conn c ≠ None →
  let '(c', r) := exchange m p a t b c in ct_attempts c' = ct_attempts c ∧ match r with Ok _ => True | Err e => io_error e end.
Proof.
  intros Hc. unfold exchange, _send_request. rewrite bind_run, bind_get. destruct (ct_conn c) as [k|] eqn:E; [|done]. rewrite bind_lift.
  destruct (request_head m p a t b c) as [head|e] eqn:Hh; [|split; [done|]; right; right; by eapply head_value].
  rewrite bind_run. cbn [modify]. destruct (cn_lost k); [split; [done|]; by left|]. cbn [mret M_ret].
  apply (response_reads (set_conn _ c)). done.
Qed.

Lemma dropped_raise {A} e c : ∃ c', (_drop_connection;; raise e) c = (c', @Err A e) ∧ ct_attempts c' = ct_attempts c.
Proof. by eexists. Qed.

Section Outcome.
Context (exc_text : exn → pystr).

(** Connected with at most one attempt, or a control error. *)
Lemma ensure_fails c : let '(c', r) := _ensure_connected exc_text c in
  (length (ct_attempts c) ≤ length (ct_attempts c') + 1)%nat ∧ match r with Ok _ => ct_conn c' ≠ None | Err e => is_control_error e = true end.
Proof.
  unfold _ensure_connected. rewrite bind_get, bind_run. set (m := match ct_conn c with Some _ => _ | None => _ end).
  assert (∃ c1, m c = (c1, Ok tt) ∧ ct_attempts c1 = ct_attempts c) as (c1 & -> & Ea).
  { unfold m. destruct (ct_conn c) as [k|]; [destruct (negb _)|]; by eexists. }
  rewrite bind_get. destruct (ct_conn c1) as [k|] eqn:E; [split; [rewrite Ea; lia|by rewrite E]|].
  rewrite <- Ea. destruct (ct_attempts c1) as [|[k|] rest]; cbn; split; try done; cbn; lia.
Qed.

(** A request uses at most two connect attempts, and when it fails it fails
    with a control error or, for a malformed length or an over-long line, a
    ValueError; no other exception leaves it and no loop fails to end. *)
Theorem control_outcome m p a t b c : let '(c', r) := _request exc_text m p a t b c in
  (length (ct_attempts c) ≤ length (ct_attempts c') + 2)%nat ∧
  match r with Ok _ => True | Err e => is_control_error e = true ∨ is_value_error e = true end.
Proof.
  unfold _request. rewrite bind_run. pose proof (ensure_fails c) as H0. destruct (_ensure_connected exc_text c) as [c0 [u|e]].
  2: { destruct H0 as [Hl He]. destruct e; try done. change (is_read_error _) with false. cbn iota. split; [cbn [fst ct_attempts]; lia|by left]. }
  destruct H0 as [Hl0 Hc0]. pose proof (exchange_fails m p a t b c0 Hc0) as H1. destruct (exchange m p a t b c0) as [c1 [r|e]].
  { destruct H1 as [Ha _]. split; [rewrite Ha; lia|done]. }
  destruct H1 as [Ha He]. destruct (is_read_error e) eqn:Er.
  - rewrite bind_run. cbn. set (c2 := mkControl _ _ None _ _). rewrite bind_run. pose proof (ensure_fails c2) as H2. change (ct_attempts c2) with (ct_attempts c1) in H2. rewrite Ha in H2.
    destruct (_ensure_connected exc_text c2) as [c3 [v|e']]; [|destruct H2 as [Hl2 He2]; split; [lia|by left]].
    destruct H2 as [Hl2 Hc3]. unfold catching. pose proof (exchange_fails m p a t b c3 Hc3) as H3.
    destruct (exchange m p a t b c3) as [c4 [r|e']]; [destruct H3 as [Ha3 _]; split; [rewrite Ha3; lia|done]|].
    destruct H3 as [Ha3 He3]. destruct (is_read_error e') eqn:Er'.
    { destruct (dropped_raise (A := Z * bytes) (ServerControlError [Txt m; Lit " "; Txt p; Lit " failed: "; Txt (exc_text e')]) c4) as (c5 & -> & Ha5).
      split; [rewrite Ha5, Ha3; lia|by left]. }
   
    split; [rewrite Ha3; lia|]. destruct He3 as [?|[?|?]]; [congruence|by left|by right].
  - destruct (is_control_error e) eqn:Ec.
    { destruct (dropped_raise (A := Z * bytes) e c1) as (c5 & -> & Ha5). split; [rewrite Ha5, Ha; lia|by left]. }
   
    split; [rewrite Ha; lia|]. destruct He as [?|[?|?]]; [congruence..|by right].
Qed.
End Outcome.
