(* ===== verification/Roster.v ===== *)
(** * Paged control routes and their readers

    The pages of a roster ([examples/_common/query_state.py]), the routes that
    serve them ([examples/embedded/server.py]) and the loops that read them back
    ([roster_positions] and [principal_bindings] of
    [tools/agent/_load_harness/]), with what they use of [urllib.parse]. *)

From S2P Require Import Prelude PyStruct PyText PyFloat PyJson PyWire PyArith GapLedger Correlator Spatial.

#[local] Open Scope Z_scope.

(** ** [urllib.parse] *)

Fixpoint drop_controls (s : pystr) : pystr :=
  match s with c :: s' => if (0 <=? c) && (c <=? 32) then drop_controls s' else s | [] => [] end.

(** [urlparse(path).query]; a scheme and a host hold neither of the two
    separators, and the checks of a host do not apply to a path that begins
    with a single slash. *)
Definition url_query (path : pystr) : pystr :=
  let url := filter (λ c, c ∉ [9; 13; 10]) (drop_controls path) in
  snd (partition_at 63 (fst (partition_at 35 url))).

(** The bytes of ASCII text, percent escapes resolved. *)
Fixpoint unquote_to_bytes (s : pystr) : bytes :=
  match s with
  | [] => []
  | c :: s' =>
      let plain := Z_to_byte c :: unquote_to_bytes s' in
      if negb (c =? 37) then plain else
      match s' with
      | a :: ((b :: rest) as r) =>
          match hex_value a, hex_value b with
          | Some h, Some l => Z_to_byte (h * 16 + l) :: unquote_to_bytes rest
          | _, _ => plain
          end
      | _ => plain
      end
  end.

(** [unquote(s)]: runs of ASCII are decoded, other characters stay; [run] is
    the run being read. *)
Fixpoint unquote_from (run : pystr) (s : pystr) : pystr :=
  let decoded := decode_replace (unquote_to_bytes run) in
  match s with
  | [] => decoded
  | c :: s => if c <? 128 then unquote_from (run ++ [c]) s else decoded ++ c :: unquote_from [] s
  end.

Definition unquote (s : pystr) : pystr := if bool_decide (37 ∈ s) then unquote_from [] s else s.

Definition query_text (s : pystr) : pystr := unquote (replace_char 43 32 s).

(** Pairs with a value, in order. *)
Definition parse_qsl (qs : pystr) : list (pystr * pystr) :=
  nv ← split_at 38 qs;
  let '(name, value) := partition_at 61 nv in
  if bool_decide (value = []) then [] else [(query_text name, query_text value)].

(** [parse_qs(qs)[name]] *)
Definition query_values (name : pystr) (qs : pystr) : list pystr := snd <$> filter (λ p, fst p = name) (parse_qsl qs).

(** ** Pages *)

Abbreviation json_dict := (list (pystr * jval)).

Definition QUERY_STATE_DEFAULT_PAGE_SIZE : Z := 32.

(** [int(s)] *)
Definition int_text_of (s : pystr) : result Z :=
  match py_int 10 s with Some z => Ok z | None => Err (ValueError [Lit "invalid literal for int() with base 10"]) end.

Definition dict_update (d e : json_dict) : json_dict := foldl (λ d p, dict_set (fst p) (snd p) d) d e.

Definition paginate_query_state (path : pystr) (actors : list jval) (key : pystr) (extra : json_dict) : result json_dict :=
  let query := url_query path in
  body ← match query_values (str "offset") query, query_values (str "limit") query with
         | o :: _, l :: _ =>
             o ← int_text_of o;
             l ← int_text_of l;
             let offset := Z.max o 0 in
             let limit := Z.max l 0 in
             let page := if 0 <? limit then take (Z.to_nat limit) (drop (Z.to_nat offset) actors) else [] in
             Ok (dict_pairs [(key, JArr page); (str "offset", JInt offset); (str "limit", JInt limit); (str "total", JInt (zlen actors))])
         | _, _ => Ok [(key, JArr actors)]
         end;
  Ok (dict_update body extra).

(** ** Routes ([examples/embedded/server.py]) *)

(** [asdict(ActorState(...))] *)
Definition _actor_dict (actor : Actor) : jval :=
  JObj [(str "actor_id", JInt (a_id actor)); (str "pos_x", JInt (a_pos_x actor)); (str "pos_y", JInt (a_pos_y actor));
        (str "pos_z", JInt (a_pos_z actor)); (str "vel_x", JInt (a_vel_x actor)); (str "vel_y", JInt (a_vel_y actor));
        (str "vel_z", JInt (a_vel_z actor)); (str "input_tick", JInt (a_input_tick actor))].

(** [p in s] *)
Fixpoint contains (p s : pystr) : bool :=
  match strip_prefix p s with
  | Some _ => true
  | None => match s with _ :: s => contains p s | [] => false end
  end.

(** [s.rpartition(sep)[2]]: what follows the last separator, or all of it. *)
Fixpoint after_last (sep : Z) (s : pystr) : pystr :=
  match s with
  | [] => []
  | c :: s' => if bool_decide (sep ∈ s') then after_last sep s' else if c =? sep then s' else s
  end.

(** Status and body; [actor_state] and [actors] are the handlers' answers. *)
Definition _route_query_state (path : pystr) (actor_state : Z → option Actor) (actors : list Actor) : result (Z * jval) :=
  let actor_id_str := if contains (str "actor_id=") path then after_last 61 path else [] in
  if bool_decide (actor_id_str = []) then
    body ← paginate_query_state path (_actor_dict <$> actors) (str "actors") [];
    Ok (200, JObj body)
  else
    actor_id ← int_text_of actor_id_str;
    match actor_state actor_id with
    | Some actor => Ok (200, _actor_dict actor)
    | None => Ok (404, JObj [(str "error", JStr (str "actor not found"))])
    end.

Definition binding_dict (b : Z * Z) : jval := JObj [(str "principal_id", JInt (fst b)); (str "actor_id", JInt (snd b))].

Definition _route_bindings (path : pystr) (stats : list (Z * Z) * Z * Z) : result (Z * jval) :=
  let '(bindings, conflicts, drops) := stats in
  body ← paginate_query_state path (binding_dict <$> bindings) (str "bindings")
           [(str "bind_conflicts", JInt conflicts); (str "identity_gate_drops", JInt drops)];
  Ok (200, JObj body).

(** ** Dispatch ([src/control/router.c]) *)

Fixpoint skip_until (stops : list Z) (s : pystr) : pystr :=
  match s with c :: s' => if bool_decide (c ∈ stops) then s else skip_until stops s' | [] => [] end.

(** Every turn takes a character of the pattern. *)
Fixpoint match_loop (fuel : nat) (rp ru : pystr) : bool :=
  match fuel with
  | O => false
  | S fuel =>
      match rp, ru with
      | [], [] => true
      | [], u :: _ => u =? 63
      | _, [] => false
      | c :: rp', u :: ru' =>
          if u =? 63 then false
          else if (c =? 58) && match rp' with d :: _ => (97 <=? d) && (d <=? 122) | [] => false end
          then match_loop fuel (skip_until [47] rp) (skip_until [47; 63] ru)
          else if c =? u then match_loop fuel rp' ru' else false
      end
  end.

Definition match_path (route_path req_url : pystr) : bool := match_loop (S (length route_path)) route_path req_url.

Record route_entry := mkRoute { rt_method : pystr; rt_path : pystr; rt_handler : pystr → result (Z * jval) }.

Definition control_router_match (routes : list route_entry) (method path : pystr) : option route_entry :=
  find (λ r, bool_decide (rt_method r = method) && match_path (rt_path r) path) routes.

(** The GET routes of the embedded server, and its answer to a request. *)
Definition get_routes (actor_state : Z → option Actor) (actors : list Actor) (stats : list (Z * Z) * Z * Z) : list route_entry :=
  [mkRoute (str "GET") (str "/query_state") (λ path, _route_query_state path actor_state actors);
   mkRoute (str "GET") (str "/bindings") (λ path, _route_bindings path stats)].

Definition serve (routes : list route_entry) (path : pystr) : result (Z * jval) :=
  match control_router_match routes (str "GET") path with
  | Some r => rt_handler r path
  | None => Ok (404, JObj [(str "error", JStr (str "not_found"))])
  end.

(** ** Readers ([tools/agent/_load_harness/breadth.py], [depth.py]) *)

(** [int(value)] *)
Definition int_of_value (v : jval) : result Z :=
  match v with
  | JBool b => Ok (if b then 1 else 0)
  | JInt z => Ok z
  | JFloat d => int_of_double d
  | JStr s => int_text_of s
  | JNull | JArr _ | JObj _ => Err TypeError
  end.

(** [QUERY_STATE_ERRORS] *)
Definition is_query_error (e : exn) : bool :=
  is_value_error e || match e with RuntimeError _ | OSError | ConnectionResetError | ServerControlError _ => true | _ => false end.

Abbreviation position := (Z * Z * Z)%type.

Section Readers.
(** The control plane's answer to a GET, and the text of an exception. *)
Context {W : Type} (control_get : pystr → M W json_dict) (exc_text : exn → pystr).

Definition page_path (route : pystr) (offset limit : Z) : result pystr :=
  o ← int_repr offset;
  l ← int_repr limit;
  Ok (route ++ str "?offset=" ++ o ++ str "&limit=" ++ l).

(** [control.get], a failure reported as unavailable. *)
Definition fetch (what : string) (path : pystr) : M W json_dict := λ w,
  match control_get path w with
  | (w, Err e) => (w, Err (if is_query_error e then RuntimeError [Lit what; Lit " unavailable ("; Txt (exc_text e); Lit ")"] else e))
  | done => done
  end.

(** [item[key]] *)
Definition entry (key : string) (item : json_dict) : result jval :=
  match field (str key) item with Some v => Ok v | None => Err KeyError end.

Definition has_field (key : string) (item : json_dict) : bool := match field (str key) item with Some _ => true | None => false end.

Definition read_position (item : jval) : result (Z * position) :=
  match item with
  | JObj l =>
      if has_field "actor_id" l && has_field "pos_x" l && has_field "pos_y" l && has_field "pos_z" l then
        x ← entry "pos_x" l; x ← int_of_value x;
        y ← entry "pos_y" l; y ← int_of_value y;
        z ← entry "pos_z" l; z ← int_of_value z;
        i ← entry "actor_id" l; i ← int_of_value i;
        Ok (i, (x, y, z))
      else Err (RuntimeError [Lit "/query_state roster entry malformed"])
  | _ => Err (RuntimeError [Lit "/query_state roster entry malformed"])
  end.

(** The dictionary built from the entries, a later one over an earlier. *)
Fixpoint add_positions (items : list jval) (positions : gmap Z position) : result (gmap Z position) :=
  match items with
  | [] => Ok positions
  | item :: items => '(i, p) ← read_position item; add_positions items (<[i := p]> positions)
  end.

(** The loop ends only when a page is short: its turns are the caller's. *)
Fixpoint positions_loop (fuel : nat) (offset : Z) (positions : gmap Z position) : M W (gmap Z position) :=
  match fuel with
  | O => raise OutOfFuel
  | S fuel =>
      path ← lift (page_path (str "/query_state") offset QUERY_STATE_DEFAULT_PAGE_SIZE);
      mapping ← fetch "roster positions" path;
      match field (str "actors") mapping with
      | Some (JArr actors) =>
          positions ← lift (add_positions actors positions);
          if (zlen actors <? QUERY_STATE_DEFAULT_PAGE_SIZE) || negb (has_field "total" mapping) then mret positions
          else positions_loop fuel (offset + QUERY_STATE_DEFAULT_PAGE_SIZE) positions
      | _ => raise (RuntimeError [Lit "roster positions unavailable (/query_state response malformed)"])
      end
  end.

Definition roster_positions (fuel : nat) : M W (gmap Z position) := positions_loop fuel 0 ∅.

Definition read_binding (item : jval) : result (list (Z * Z)) :=
  match item with
  | JObj l =>
      p ← entry "principal_id" l; p ← int_of_value p;
      a ← entry "actor_id" l; a ← int_of_value a;
      Ok [(p, a)]
  | _ => Ok []
  end.

Fixpoint bindings_loop (fuel : nat) (offset : Z) (pairs : list (Z * Z)) : M W (list (Z * Z)) :=
  match fuel with
  | O => raise OutOfFuel
  | S fuel =>
      path ← lift (page_path (str "/bindings") offset QUERY_STATE_DEFAULT_PAGE_SIZE);
      mapping ← fetch "binding truth" path;
      match field (str "bindings") mapping with
      | Some (JArr entries) =>
          page ← lift (map_result read_binding entries);
          let page := concat page in
          if (zlen page <? QUERY_STATE_DEFAULT_PAGE_SIZE) || negb (has_field "total" mapping) then mret (pairs ++ page)
          else bindings_loop fuel (offset + QUERY_STATE_DEFAULT_PAGE_SIZE) (pairs ++ page)
      | _ => raise (RuntimeError [Lit "binding truth unavailable (/bindings response malformed)"])
      end
  end.

Definition principal_bindings (fuel : nat) : M W (gmap Z Z) :=
  pairs ← bindings_loop fuel 0 [];
  guard (negb (bool_decide (NoDup pairs.*1))) (RuntimeError [Lit "binding map carries a duplicate principal id"]);;
  mret (list_to_map pairs).
End Readers.
