(* ===== verification/RosterTheorems.v ===== *)
(** * Paged reads are complete

    What the routes serve page by page is what the readers collect. *)

From S2P Require Import Prelude PyStruct PyText PyFloat PyJson PyWire PyArith GapLedger Correlator Spatial Roster.

#[local] Open Scope Z_scope.

(** ** Text *)

Lemma partition_at_app sep a b : sep ∉ a → partition_at sep (a ++ sep :: b) = (a, b).
Proof.
  induction a as [|c a IH]; intros Ha; cbn [app partition_at]; [by rewrite Z.eqb_refl|]. apply not_elem_of_cons in Ha as [Hc Ha].
  rewrite (proj2 (Z.eqb_neq _ _)) by congruence. by rewrite (IH Ha).
Qed.

Lemma partition_at_none sep a : sep ∉ a → partition_at sep a = (a, []).
Proof.
  induction a as [|c a IH]; intros Ha; [done|]. apply not_elem_of_cons in Ha as [Hc Ha]. cbn [partition_at].
  rewrite (proj2 (Z.eqb_neq _ _)) by congruence. by rewrite (IH Ha).
Qed.

Lemma split_at_app sep a b : sep ∉ a → split_at sep (a ++ sep :: b) = a :: split_at sep b.
Proof.
  induction a as [|c a IH]; intros Ha; cbn [app split_at]; [by rewrite Z.eqb_refl|]. apply not_elem_of_cons in Ha as [Hc Ha].
  rewrite (proj2 (Z.eqb_neq _ _)) by congruence. by rewrite (IH Ha).
Qed.

Lemma split_at_none sep a : sep ∉ a → split_at sep a = [a].
Proof.
  induction a as [|c a IH]; intros Ha; [done|]. apply not_elem_of_cons in Ha as [Hc Ha]. cbn [split_at].
  rewrite (proj2 (Z.eqb_neq _ _)) by congruence. by rewrite (IH Ha).
Qed.

(** Letters, digits and the punctuation of a path. *)
Definition plain (c : Z) : Prop := 33 ≤ c ∧ c ∉ [35; 37; 38; 43; 61; 63].

Lemma plain_not s c : Forall plain s → c ∈ [9; 10; 13; 32; 35; 37; 38; 43; 61; 63] → c ∉ s.
Proof. intros Hs Hc Hin. rewrite Forall_forall in Hs. specialize (Hs c Hin) as [H1 H2]. unfold plain in *. set_unfold. lia. Qed.

Lemma query_text_plain s : Forall plain s → query_text s = s.
Proof.
  intros Hs. unfold query_text, replace_char. assert ((λ c, if c =? 43 then 32 else c) <$> s = s) as ->.
  { rewrite <- (list_fmap_id s) at 2. apply list_fmap_ext. intros i c Hi. apply list_elem_of_lookup_2 in Hi.
    rewrite (proj2 (Z.eqb_neq _ _)); [done|]. intros ->. by apply (plain_not s 43); [|set_solver|]. }
  unfold unquote. rewrite bool_decide_eq_false_2; [done|]. by apply plain_not; [|set_solver].
Qed.

Lemma digits_plain n : 0 ≤ n → Forall plain (digit_char <$> digits n).
Proof.
  intros Hn. rewrite Forall_fmap. eapply Forall_impl; [by apply digits_ok|]. intros d Hd. unfold compose, plain, digit_char, digit_ok in *.
  split; [lia|]. set_unfold. lia.
Qed.

Lemma int_repr_digits n : 0 ≤ n < 10 ^ 30 → int_repr n = Ok (digit_char <$> digits n) ∧ py_int 10 (digit_char <$> digits n) = Some n.
Proof.
  intros Hn. assert (int_text n = digit_char <$> digits n) as E.
  { unfold int_text. rewrite Z.abs_eq by lia. by replace (n <? 0) with false by lia. }
  split; [|rewrite <- E; apply py_int_text; lia]. unfold int_repr. rewrite Z.abs_eq by lia. replace (n <? 0) with false by lia.
  unfold int_limit. rewrite bool_decide_eq_false_2; [done|]. unfold digits.
  pose proof (length_digits_fuel (S (Z.to_nat (Z.log2 n))) n 30 ltac:(lia) ltac:(change (Z.of_nat 30) with 30; lia)). unfold INT_MAX_STR_DIGITS. lia.
Qed.

(** ** One page *)

Section Page.
Context (route : pystr) (Hroute : Forall plain route) (Hslash : ∃ r, route = 47 :: r).
Context (offset limit : Z) (Ho : 0 ≤ offset < 10 ^ 30) (Hl : 0 ≤ limit < 10 ^ 30).

Let o := digit_char <$> digits offset.
Let l := digit_char <$> digits limit.
Definition page_text : pystr := route ++ str "?offset=" ++ o ++ str "&limit=" ++ l.

Lemma page_path_text : page_path route offset limit = Ok page_text.
Proof. unfold page_path. destruct (int_repr_digits offset Ho) as [-> _]. by destruct (int_repr_digits limit Hl) as [-> _]. Qed.

Lemma page_query : url_query page_text = str "offset=" ++ o ++ str "&limit=" ++ l.
Proof.
  assert (Forall plain o ∧ Forall plain l) as [Hpo Hpl] by (split; apply digits_plain; lia).
  unfold url_query, page_text. destruct Hslash as [r Er]. rewrite Er. change (drop_controls ((47 :: r) ++ ?x)) with ((47 :: r) ++ x). rewrite <- Er.
  assert (∀ s, Forall plain s → Forall (λ c, c ∉ [9; 13; 10]) s) as Hn.
  { intros s Hs. eapply Forall_impl; [exact Hs|]. intros c [H1 _]. set_unfold. lia. }
  rewrite filter_all.
  2: { rewrite !Forall_app. repeat split; try (by apply Hn); by apply (bool_decide_unpack (Forall _ _)). }
  rewrite (partition_at_none 35).
  2: { rewrite !not_elem_of_app. repeat split; try (by apply plain_not; [|set_solver]); by apply (bool_decide_unpack (_ ∉ _)). }
  cbn [fst]. change (str "?offset=" ++ ?x) with (63 :: str "offset=" ++ x). by rewrite partition_at_app by (by apply plain_not; [|set_solver]).
Qed.

Lemma page_pairs : parse_qsl (url_query page_text) = [(str "offset", o); (str "limit", l)].
Proof.
  assert (Forall plain o ∧ Forall plain l) as [Hpo Hpl] by (split; apply digits_plain; lia). rewrite page_query. unfold parse_qsl.
  change (str "offset=" ++ o ++ str "&limit=" ++ l) with ((str "offset" ++ 61 :: o) ++ 38 :: str "limit" ++ 61 :: l).
  assert (∀ s, Forall plain s → (38 ∉ s) ∧ (61 ∉ s)) as Hn by (intros s Hs; split; apply plain_not; try done; set_solver).
  assert ((38 ∉ str "offset" ++ 61 :: o) ∧ (38 ∉ str "limit" ++ 61 :: l)) as [H1 H2].
  { split; (rewrite not_elem_of_app, not_elem_of_cons; split; [by apply (bool_decide_unpack (_ ∉ _))|split; [done|by apply Hn]]). }
  rewrite (split_at_app 38 _ _ H1), (split_at_none 38 _ H2). cbn [mbind list_bind].
  rewrite !partition_at_app by (by apply (bool_decide_unpack (_ ∉ _))).
  rewrite !bool_decide_eq_false_2 by (unfold o, l; intros E%fmap_nil_inv; by apply digits_nonempty in E).
  rewrite (query_text_plain o Hpo), (query_text_plain l Hpl). done.
Qed.

Lemma page_body actors key extra : 0 < limit →
  paginate_query_state page_text actors key extra =
    Ok (dict_update (dict_pairs [(key, JArr (take (Z.to_nat limit) (drop (Z.to_nat offset) actors))); (str "offset", JInt offset);
                                 (str "limit", JInt limit); (str "total", JInt (zlen actors))]) extra).
Proof.
  intros Hpos. unfold paginate_query_state, query_values. rewrite page_pairs.
  change (snd <$> filter (λ p, p.1 = str "offset") [(str "offset", o); (str "limit", l)]) with [o].
  change (snd <$> filter (λ p, p.1 = str "limit") [(str "offset", o); (str "limit", l)]) with [l]. cbn iota beta. unfold int_text_of.
  pose proof (proj2 (int_repr_digits offset Ho)) as E1. pose proof (proj2 (int_repr_digits limit Hl)) as E2. fold o in E1. fold l in E2.
  rewrite E1, E2. cbn [mbind result_bind].
  rewrite !Z.max_l by lia. by rewrite (proj2 (Z.ltb_lt 0 limit)).
Qed.
End Page.

(** ** Collecting *)

Lemma strip_prefix_elem p s r c : strip_prefix p s = Some r → c ∈ p → c ∈ s.
Proof. intros H%strip_prefix_app Hc. subst. set_solver. Qed.

Lemma contains_none p s c : c ∈ p → c ∉ s → contains p s = false.
Proof.
  intros Hp. induction s as [|d s IH]; intros Hs; cbn [contains].
  - destruct (strip_prefix p []) eqn:E; [|done]. by destruct (Hs (strip_prefix_elem _ _ _ _ E Hp)).
  - destruct (strip_prefix p (d :: s)) eqn:E; [by destruct (Hs (strip_prefix_elem _ _ _ _ E Hp))|]. apply IH. set_solver.
Qed.

Definition position_of (a : Actor) : position := (a_pos_x a, a_pos_y a, a_pos_z a).

Definition positions_of (actors : list Actor) (m : gmap Z position) : gmap Z position :=
  foldl (λ m a, <[a_id a := position_of a]> m) m actors.

Lemma read_actor_dict a : read_position (_actor_dict a) = Ok (a_id a, position_of a).
Proof. reflexivity. Qed.

Lemma add_actor_dicts actors : ∀ m, add_positions (_actor_dict <$> actors) m = Ok (positions_of actors m).
Proof. induction actors as [|a actors IH]; intros m; [done|]. cbn [fmap list_fmap add_positions]. rewrite read_actor_dict. apply IH. Qed.

Lemma read_binding_dicts bs : map_result read_binding (binding_dict <$> bs) = Ok ((λ b, [b]) <$> bs).
Proof. induction bs as [|[p a] bs IH]; [done|]. cbn [fmap list_fmap map_result]. by rewrite IH. Qed.

Lemma plain_text s : bool_decide (Forall (λ c, 33 ≤ c ∧ c ∉ [35; 37; 38; 43; 61; 63]) s) = true → Forall plain s.
Proof. intros H. by apply bool_decide_eq_true_1 in H. Qed.

Lemma query_state_plain : Forall plain (str "/query_state").
Proof. by apply plain_text. Qed.

Lemma bindings_plain : Forall plain (str "/bindings").
Proof. by apply plain_text. Qed.

(** A digit is neither letter nor slash. *)
Lemma not_in_page c route offset limit : 0 ≤ offset → 0 ≤ limit → 58 ≤ c → c ∉ route → c ∉ str "?offset=" → c ∉ str "&limit=" →
  c ∉ page_text route offset limit.
Proof.
  intros Ho Hl Hc H1 H2 H3. unfold page_text. rewrite !not_elem_of_app. assert (∀ n, 0 ≤ n → c ∉ digit_char <$> digits n) as Hd; [|repeat split; auto].
  intros n Hn (d & -> & Hd)%list_elem_of_fmap. pose proof (digits_ok n Hn) as Hok. rewrite Forall_forall in Hok.
  specialize (Hok d Hd). unfold digit_ok, digit_char in *. lia.
Qed.

Lemma query_state_page actors st offset : 0 ≤ offset < 10 ^ 30 → ∃ body,
  _route_query_state (page_text (str "/query_state") offset 32) st actors = Ok (200, JObj body) ∧
  field (str "actors") body = Some (JArr (_actor_dict <$> take 32 (drop (Z.to_nat offset) actors))) ∧ has_field "total" body = true.
Proof.
  intros Ho. unfold _route_query_state.
  rewrite (contains_none (str "actor_id=") _ 99); [|set_solver|apply not_in_page; try lia; by apply (bool_decide_unpack (_ ∉ _))].
  rewrite bool_decide_eq_true_2 by done. rewrite (page_body (str "/query_state") query_state_plain ltac:(by eexists) offset 32 Ho ltac:(lia)) by lia.
  cbn [mbind result_bind]. eexists. split; [done|]. change (Z.to_nat 32) with 32%nat. rewrite fmap_take, fmap_drop. done.
Qed.

Lemma bindings_page stats offset : 0 ≤ offset < 10 ^ 30 → ∃ body,
  _route_bindings (page_text (str "/bindings") offset 32) stats = Ok (200, JObj body) ∧
  field (str "bindings") body = Some (JArr (binding_dict <$> take 32 (drop (Z.to_nat offset) stats.1.1))) ∧ has_field "total" body = true.
Proof.
  intros Ho. destruct stats as [[bs conflicts] drops]. unfold _route_bindings.
  rewrite (page_body (str "/bindings") bindings_plain ltac:(by eexists) offset 32 Ho ltac:(lia)) by lia.
  cbn [mbind result_bind fst]. eexists. split; [done|]. change (Z.to_nat 32) with 32%nat. rewrite fmap_take, fmap_drop. done.
Qed.

(** A pattern without parameters matches the path it spells, whatever the
    query. *)
Lemma match_literal route q : Forall (λ c, c ≠ 58 ∧ c ≠ 63) route → match_path route (route ++ 63 :: q) = true.
Proof.
  unfold match_path. induction 1 as [|c route [H1 H2] _ IH]; [done|]. cbn [length app match_loop].
  rewrite (proj2 (Z.eqb_neq c 63) H2), (proj2 (Z.eqb_neq c 58) H1), Z.eqb_refl. exact IH.
Qed.

Lemma serve_query_state st actors stats offset : serve (get_routes st actors stats) (page_text (str "/query_state") offset 32) =
  _route_query_state (page_text (str "/query_state") offset 32) st actors.
Proof.
  unfold serve, control_router_match, get_routes. cbn [find rt_method rt_path]. rewrite bool_decide_eq_true_2 by done.
  unfold page_text at 1. change (str "?offset=" ++ ?x) with (63 :: str "offset=" ++ x).
  rewrite match_literal by (by apply (bool_decide_unpack (Forall _ _))). done.
Qed.

Lemma serve_bindings st actors stats offset : serve (get_routes st actors stats) (page_text (str "/bindings") offset 32) =
  _route_bindings (page_text (str "/bindings") offset 32) stats.
Proof.
  unfold serve, control_router_match, get_routes. cbn [find rt_method rt_path]. rewrite !bool_decide_eq_true_2 by done.
  unfold page_text at 1. change (match_path (str "/query_state") (str "/bindings" ++ ?x)) with false. cbn [andb].
  unfold page_text at 1. change (str "?offset=" ++ ?x) with (63 :: str "offset=" ++ x).
  rewrite match_literal by (by apply (bool_decide_unpack (Forall _ _))). done.
Qed.

Section Reads.
Context {W : Type} (get : pystr → M W json_dict) (exc_text : exn → pystr).

(** The transport answers with what the route responds. *)
Definition delivers (route : pystr → result (Z * jval)) : Prop :=
  ∀ path w body, route path = Ok (200, JObj body) → ∃ w', get path w = (w', Ok body).

Lemma fetch_delivers route what path w body : delivers route → route path = Ok (200, JObj body) →
  ∃ w', fetch get exc_text what path w = (w', Ok body).
Proof. intros Hd Hr. destruct (Hd path w body Hr) as [w' E]. unfold fetch. rewrite E. by eexists. Qed.

Lemma positions_loop_exact actors st stats fuel : ∀ offset m w, delivers (serve (get_routes st actors stats)) →
  0 ≤ offset ≤ zlen actors → zlen actors < 10 ^ 30 → (length (drop (Z.to_nat offset) actors) / 32 < fuel)%nat →
  ∃ w', positions_loop get exc_text fuel offset m w = (w', Ok (positions_of (drop (Z.to_nat offset) actors) m)).
Proof.
  induction fuel as [|fuel IH]; intros offset m w Hd Ho Hb Hf; [lia|]. set (rest := drop (Z.to_nat offset) actors) in *.
  assert (0 ≤ offset < 10 ^ 30) as Hr by lia. destruct (query_state_page actors st offset Hr) as (body & Hroute & Hfield & Htotal).
  rewrite <- (serve_query_state st actors stats) in Hroute.
  cbn [positions_loop]. change QUERY_STATE_DEFAULT_PAGE_SIZE with 32. rewrite bind_lift, (page_path_text (str "/query_state") offset 32 Hr) by lia.
  destruct (fetch_delivers _ "roster positions" _ w body Hd Hroute) as [w1 E]. rewrite bind_run, E, Hfield, bind_lift, add_actor_dicts. cbn iota beta. fold rest.
  rewrite Htotal. cbn [negb]. rewrite orb_false_r. unfold zlen. rewrite length_fmap, length_take.
  destruct (Z.ltb_spec (Z.of_nat (32 `min` length rest)) 32) as [Hs|Hs].
  - rewrite take_ge by lia. by eexists.
  - assert (drop (Z.to_nat (offset + 32)) actors = drop 32 rest) as Hdrop by (unfold rest; rewrite drop_drop; f_equal; lia).
    assert (length rest = 32 + length (drop 32 rest))%nat as Hlen by (rewrite length_drop; lia).
    assert (length rest / 32 = 1 + length (drop 32 rest) / 32)%nat as Hq by (rewrite Hlen, Nat.add_comm, (Nat.div_add _ 1 32) by lia; lia).
    assert (length rest ≤ length actors - Z.to_nat offset)%nat by (unfold rest; rewrite length_drop; lia).
    destruct (IH (offset + 32) (positions_of (take 32 rest) m) w1 Hd ltac:(unfold zlen; lia) Hb ltac:(rewrite Hdrop; lia)) as [w' E'].
    rewrite E', Hdrop. exists w'. do 2 f_equal. unfold positions_of. by rewrite <- foldl_app, take_drop.
Qed.

Lemma bindings_loop_exact actors st stats fuel : ∀ offset pairs w, delivers (serve (get_routes st actors stats)) →
  0 ≤ offset ≤ zlen stats.1.1 → zlen stats.1.1 < 10 ^ 30 → (length (drop (Z.to_nat offset) stats.1.1) / 32 < fuel)%nat →
  ∃ w', bindings_loop get exc_text fuel offset pairs w = (w', Ok (pairs ++ drop (Z.to_nat offset) stats.1.1)).
Proof.
  induction fuel as [|fuel IH]; intros offset pairs w Hd Ho Hb Hf; [lia|]. set (rest := drop (Z.to_nat offset) stats.1.1) in *.
  assert (0 ≤ offset < 10 ^ 30) as Hr by lia. destruct (bindings_page stats offset Hr) as (body & Hroute & Hfield & Htotal).
  rewrite <- (serve_bindings st actors stats) in Hroute.
  cbn [bindings_loop]. change QUERY_STATE_DEFAULT_PAGE_SIZE with 32. rewrite bind_lift, (page_path_text (str "/bindings") offset 32 Hr) by lia.
  destruct (fetch_delivers _ "binding truth" _ w body Hd Hroute) as [w1 E]. rewrite bind_run, E, Hfield, bind_lift, read_binding_dicts. cbn iota beta. fold rest.
  rewrite Htotal. cbn [negb]. rewrite orb_false_r. assert (∀ l : list (Z * Z), concat ((λ b, [b]) <$> l) = l) as -> by (induction l; cbn; congruence).
  unfold zlen at 1. rewrite length_take. destruct (Z.ltb_spec (Z.of_nat (32 `min` length rest)) 32) as [Hs|Hs].
  - rewrite take_ge by lia. by eexists.
  - assert (drop (Z.to_nat (offset + 32)) stats.1.1 = drop 32 rest) as Hdrop by (unfold rest; rewrite drop_drop; f_equal; lia).
    assert (length rest = 32 + length (drop 32 rest))%nat as Hlen by (rewrite length_drop; lia).
    assert (length rest / 32 = 1 + length (drop 32 rest) / 32)%nat as Hq by (rewrite Hlen, Nat.add_comm, (Nat.div_add _ 1 32) by lia; lia).
    assert (length rest ≤ length stats.1.1 - Z.to_nat offset)%nat by (unfold rest; rewrite length_drop; lia).
    destruct (IH (offset + 32) (pairs ++ take 32 rest) w1 Hd ltac:(unfold zlen; lia) Hb ltac:(rewrite Hdrop; lia)) as [w' E'].
    rewrite E', Hdrop. exists w'. do 2 f_equal. by rewrite <- app_assoc, take_drop.
Qed.

(** C29: Through the routes of the embedded server and any transport that
    delivers their answers, the harness reads every actor's position and every
    binding, however many pages they take, and stops; a principal bound twice
    is reported as an error. (Fewer than 10^30 entries; the pages are read
    while the server's tables do not change.) *)
Theorem paged_reads_complete actors st stats w w' : delivers (serve (get_routes st actors stats)) →
  zlen actors < 10 ^ 30 → zlen stats.1.1 < 10 ^ 30 →
  snd (roster_positions get exc_text (S (length actors / 32)) w) = Ok (positions_of actors ∅) ∧
  snd (principal_bindings get exc_text (S (length stats.1.1 / 32)) w') =
    if decide (NoDup stats.1.1.*1) then Ok (list_to_map stats.1.1)
    else Err (RuntimeError [Lit "binding map carries a duplicate principal id"]).
Proof.
  intros Hd Ha Hb. split.
  - destruct (positions_loop_exact actors st stats (S (length actors / 32)) 0 ∅ w Hd) as [w1 E]; [unfold zlen; lia|done|rewrite drop_0; lia|].
    unfold roster_positions. by rewrite E.
  - destruct (bindings_loop_exact actors st stats (S (length stats.1.1 / 32)) 0 [] w' Hd) as [w1 E]; [unfold zlen; lia|done|rewrite drop_0; lia|].
    unfold principal_bindings. rewrite bind_run, E. cbn iota beta. rewrite drop_0. cbn [app]. unfold guard. rewrite bind_lift.
    destruct (decide (NoDup stats.1.1.*1)) as [Hn|Hn]; [by rewrite bool_decide_eq_true_2|by rewrite bool_decide_eq_false_2].
Qed.
End Reads.
