(* ===== verification/Proto.v ===== *)
(** * The wire protocol ([src/src/proto/proto.c])

    The registry of message types, the frame encoder and the frame decoder.
    Allocation and locking succeed; pointers are not null. *)

From S2P Require Import Prelude PyStruct PyWire.

#[local] Open Scope Z_scope.

(** ** Error codes ([include/kith/types.h]); a call returns the negation. *)

Definition KITH_EINVAL : Z := 1.
Definition KITH_EEXIST : Z := 5.
Definition KITH_ENOENT : Z := 4.
Definition KITH_EBUSY : Z := 6.
Definition KITH_EAGAIN : Z := 7.
Definition KITH_EOVERFLOW : Z := 10.
Definition KITH_ESTATE : Z := 16.
Definition KITH_EPROTO : Z := 17.

Definition KITH_PROTO_MAGIC0 : Z := 0x4B.
Definition KITH_PROTO_MAGIC1 : Z := 0x54.
Definition KITH_PROTO_VERSION : Z := 1.
Definition KITH_PROTO_HDR_SIZE : Z := 10.
Definition KITH_PROTO_CORR_TRAILER_SIZE : Z := 8.
Definition KITH_PROTO_FLAG_CORRELATION : Z := 0x02.
Definition KITH_PROTO_DEFAULT_MAX_PAYLOAD : Z := 1024 * 1024.

Definition UINT32_MAX : Z := 2 ^ 32 - 1.

#[global] Instance byte_eq_decision : EqDecision byte := Byte.byte_eq_dec.

(** ** The handle *)

Record proto := mkProto {
  pr_types : list (bytes * Z);
  pr_max_payload : Z;
  pr_rejections : Z;
}.

Definition kith_proto_create (max_payload : Z) : proto :=
  mkProto [] (if max_payload =? 0 then KITH_PROTO_DEFAULT_MAX_PAYLOAD else max_payload) 0.

(** A C string ends before the first zero byte. *)
Fixpoint c_string (bs : bytes) : bytes :=
  match bs with b :: bs => if Byte.eqb b x00 then [] else b :: c_string bs | [] => [] end.

Definition find_by_id_locked (p : proto) (id : Z) : option (bytes * Z) :=
  head (filter (λ e, snd e = id) (pr_types p)).

Definition find_by_name_locked (p : proto) (name : bytes) : option (bytes * Z) :=
  head (filter (λ e, fst e = name) (pr_types p)).

Definition kith_proto_register_type_id (name : bytes) (type_id : Z) (p : proto) : proto * Z :=
  let name := c_string name in
  if bool_decide (name = []) then (p, - KITH_EINVAL) else
  match find_by_name_locked p name with
  | Some e => (p, if snd e =? type_id then 0 else - KITH_EINVAL)
  | None =>
      match find_by_id_locked p type_id with
      | Some _ => (p, - KITH_EEXIST)
      | None => (mkProto (pr_types p ++ [(name, type_id)]) (pr_max_payload p) (pr_rejections p), 0)
      end
  end.

Definition kith_proto_lookup_type (p : proto) (name : bytes) : Z + Z :=
  match find_by_name_locked p (c_string name) with Some e => inr (snd e) | None => inl (- KITH_ENOENT) end.

Definition kith_proto_type_name (p : proto) (type_id : Z) : option bytes := fst <$> find_by_id_locked p type_id.

(** ** Encoding *)

(** [(flags & KITH_PROTO_FLAG_CORRELATION) != 0u] *)
Definition correlated (flags : Z) : bool := negb (Z.land flags KITH_PROTO_FLAG_CORRELATION =? 0).

(** [uint32_t] addition with its overflow check. *)
Definition ckd_add32 (a b : Z) : option Z := if UINT32_MAX <? a + b then None else Some (a + b).

Definition write_be_u64 (v : Z) : bytes := be_bytes 8 v.

Definition header_bytes (flags type_id wire_len : Z) : bytes :=
  [Z_to_byte KITH_PROTO_MAGIC0; Z_to_byte KITH_PROTO_MAGIC1; Z_to_byte KITH_PROTO_VERSION; Z_to_byte flags;
   Z_to_byte (Z.shiftr type_id 8); Z_to_byte type_id;
   Z_to_byte (Z.shiftr wire_len 24); Z_to_byte (Z.shiftr wire_len 16);
   Z_to_byte (Z.shiftr wire_len 8); Z_to_byte wire_len].

(** [memcpy] of at most [n - off] bytes of [src]. *)
Definition copy_upto (n off : nat) (src : bytes) : bytes :=
  take (if (off + length src <=? n)%nat then length src else n - off) src.

(** What is written of header, payload and trailer into [n] bytes. *)
Definition encode_into (n : nat) (hdr payload trailer : bytes) : bytes :=
  let hdr_part := take (if (n <? Z.to_nat KITH_PROTO_HDR_SIZE)%nat then n else Z.to_nat KITH_PROTO_HDR_SIZE) hdr in
  let off := length hdr_part in
  let payload_part := if negb (zlen payload =? 0) && (off <? n)%nat then copy_upto n off payload else [] in
  let off := (off + length payload_part)%nat in
  let trailer_part := if negb (zlen trailer =? 0) && (off <? n)%nat then copy_upto n off trailer else [] in
  hdr_part ++ payload_part ++ trailer_part.

(** The size of the frame (0 when it cannot be encoded) and the bytes stored
    into a buffer of [cap] bytes; [None] is the null buffer. *)
Definition kith_proto_encode (p : proto) (type_id flags correlation_id : Z) (payload : bytes) (cap : option Z) : Z * bytes :=
  let trailer_len := if correlated flags then KITH_PROTO_CORR_TRAILER_SIZE else 0 in
  match ckd_add32 (zlen payload) trailer_len with
  | None => (0, [])
  | Some wire_len =>
      if pr_max_payload p <? wire_len then (0, []) else
      let total := KITH_PROTO_HDR_SIZE + wire_len in
      match cap with
      | None => (total, [])
      | Some cap =>
          if cap =? 0 then (total, []) else
          let trailer := if correlated flags then write_be_u64 correlation_id else [] in
          (total, encode_into (Z.to_nat (if cap <? total then cap else total))
                    (header_bytes flags type_id wire_len) payload trailer)
      end
  end.

(** ** Decoding *)

Record frame := mkFrame {
  fm_type_id : Z;
  fm_flags : Z;
  fm_has_correlation : bool;
  fm_correlation_id : Z;
  fm_payload : bytes;
}.

Definition at_byte (buf : bytes) (i : nat) : Z := byte_to_Z (nth i buf x00).

Definition read_be_u16 (buf : bytes) (i : nat) : Z := Z.lor (Z.shiftl (at_byte buf i) 8) (at_byte buf (i + 1)).

Definition read_be_u32 (buf : bytes) (i : nat) : Z :=
  Z.lor (Z.lor (Z.lor (Z.shiftl (at_byte buf i) 24) (Z.shiftl (at_byte buf (i + 1)) 16))
    (Z.shiftl (at_byte buf (i + 2)) 8)) (at_byte buf (i + 3)).

Definition read_be_u64 (bs : bytes) : Z := foldl (λ v b, Z.lor (Z.shiftl v 8) (byte_to_Z b)) 0 (take 8 bs).

(** The type, the flags and the length on the wire. *)
Definition parse_header (buf : bytes) : Z + Z * Z * Z :=
  if zlen buf <? KITH_PROTO_HDR_SIZE then inl (- KITH_EAGAIN)
  else if negb (at_byte buf 0 =? KITH_PROTO_MAGIC0) || negb (at_byte buf 1 =? KITH_PROTO_MAGIC1) then inl (- KITH_EPROTO)
  else if negb (at_byte buf 2 =? KITH_PROTO_VERSION) then inl (- KITH_EPROTO)
  else inr (read_be_u16 buf 4, at_byte buf 3, read_be_u32 buf 6).

Definition proto_reject (p : proto) : proto * (Z + frame * Z) :=
  (mkProto (pr_types p) (pr_max_payload p) ((pr_rejections p + 1) mod 2 ^ 64), inl (- KITH_EPROTO)).

(** The frame at the start of [buf], and how many bytes it takes. *)
Definition kith_proto_decode (p : proto) (buf : bytes) : proto * (Z + frame * Z) :=
  match parse_header buf with
  | inl pr => if pr =? - KITH_EPROTO then proto_reject p else (p, inl pr)
  | inr (type_id, flags, wire_len) =>
      if pr_max_payload p <? wire_len then proto_reject p else
      let frame_total := KITH_PROTO_HDR_SIZE + wire_len in
      if zlen buf <? frame_total then (p, inl (- KITH_EAGAIN)) else
      match find_by_id_locked p type_id with
      | None => proto_reject p
      | Some _ =>
          if correlated flags && (wire_len <? KITH_PROTO_CORR_TRAILER_SIZE) then proto_reject p else
          let payload_len := if correlated flags then wire_len - KITH_PROTO_CORR_TRAILER_SIZE else wire_len in
          let correlation_id :=
            if correlated flags
            then read_be_u64 (drop (Z.to_nat (KITH_PROTO_HDR_SIZE + wire_len - KITH_PROTO_CORR_TRAILER_SIZE)) buf) else 0 in
          (p, inr (mkFrame type_id flags (correlated flags) correlation_id
                     (take (Z.to_nat payload_len) (drop (Z.to_nat KITH_PROTO_HDR_SIZE) buf)), frame_total))
      end
  end.

Definition kith_proto_declared_total (buf : bytes) : Z + Z :=
  match parse_header buf with inl pr => inl pr | inr (_, _, wire_len) => inr (KITH_PROTO_HDR_SIZE + wire_len) end.

(** The sixteen hexadecimal digits, most significant first. *)
Definition kith_proto_correlation_hex (correlation_id : Z) : list Z :=
  (λ i, let nibble := Z.land (Z.shiftr correlation_id (4 * (15 - Z.of_nat i))) 0x0F in
        if nibble <? 10 then 48 + nibble else 87 + nibble) <$> seq 0 16.
