(* ===== verification/ProtoTheorems.v ===== *)
(** * Frames round-trip

    The decoder accepts exactly the encodings of frames of registered types,
    and waits on every proper prefix of one. *)

From S2P Require Import Prelude PyStruct PyWire Proto.

#[local] Open Scope Z_scope.

(** ** Frames on the wire *)

Definition trailer_of (f : frame) : bytes := if correlated (fm_flags f) then write_be_u64 (fm_correlation_id f) else [].
Definition wire_len (f : frame) : Z := zlen (fm_payload f) + zlen (trailer_of f).
Definition wire_of (f : frame) : bytes :=
  header_bytes (fm_flags f) (fm_type_id f) (wire_len f) ++ fm_payload f ++ trailer_of f.

(** The fields are in range, and there is a correlation id exactly when the
    flag says so. *)
Record frame_ok (f : frame) : Prop := {
  fo_type : 0 ≤ fm_type_id f < 2 ^ 16;
  fo_flags : 0 ≤ fm_flags f < 2 ^ 8;
  fo_has : fm_has_correlation f = correlated (fm_flags f);
  fo_corr : if correlated (fm_flags f) then 0 ≤ fm_correlation_id f < 2 ^ 64 else fm_correlation_id f = 0;
}.

Definition registered (p : proto) (id : Z) : Prop := id ∈ (pr_types p).*2.

(** What the codec's buffers and its limit allow. *)
Definition accepts (p : proto) (f : frame) : Prop :=
  frame_ok f ∧ registered p (fm_type_id f) ∧ wire_len f ≤ pr_max_payload p.

Ltac fields := cbn [fm_type_id fm_flags fm_has_correlation fm_correlation_id fm_payload] in *.

(** ** Integers *)


Lemma land_shifted a b n : 0 ≤ n → 0 ≤ b < 2 ^ n → Z.land (Z.shiftl a n) b = 0.
Proof.
  intros Hn Hb. apply Z.bits_inj'. intros k Hk. rewrite Z.land_spec, Z.bits_0.
  destruct (Z.lt_ge_cases k n) as [Hlt|Hge]; [by rewrite Z.shiftl_spec_low by lia|].
  rewrite andb_comm. assert (Z.testbit b k = false) as ->; [|done].
  destruct (Z.eq_dec b 0) as [->|Hne]; [by rewrite Z.bits_0|].
  apply Z.bits_above_log2; [lia|]. apply Z.log2_lt_pow2; [lia|]. eapply Z.lt_le_trans; [apply Hb|]. apply Z.pow_le_mono_r; lia.
Qed.

Lemma lor_shifted a b n : 0 ≤ n → 0 ≤ b < 2 ^ n → Z.lor (Z.shiftl a n) b = a * 2 ^ n + b.
Proof.
  intros Hn Hb. rewrite <- Z.lxor_lor, <- Z.add_nocarry_lxor by (by apply land_shifted).
  by rewrite Z.shiftl_mul_pow2.
Qed.

Lemma read_be_u64_be bs : read_be_u64 bs = of_be (take 8 bs).
Proof.
  unfold read_be_u64, of_be. generalize 0 as v. induction (take 8 bs) as [|b l IH]; intros v; [done|]. cbn [foldl].
  rewrite IH, (lor_shifted v (byte_to_Z b) 8) by (pose proof (byte_to_Z_range b); lia). done.
Qed.

Lemma read_u16 b0 b1 rest : read_be_u16 (b0 :: b1 :: rest) 0 = byte_to_Z b0 * 256 + byte_to_Z b1.
Proof. unfold read_be_u16, at_byte. cbn. apply (lor_shifted _ _ 8); [lia|]. apply byte_to_Z_range. Qed.

Lemma read_u32_be b0 b1 b2 b3 pre rest : length pre = 6%nat →
  read_be_u32 (pre ++ b0 :: b1 :: b2 :: b3 :: rest) 6 = of_be [b0; b1; b2; b3].
Proof.
  intros Hp. unfold read_be_u32, at_byte. rewrite !app_nth2 by lia. rewrite Hp. cbn.
  pose proof (byte_to_Z_range b0). pose proof (byte_to_Z_range b1). pose proof (byte_to_Z_range b2). pose proof (byte_to_Z_range b3).
  set (x0 := byte_to_Z b0) in *. set (x1 := byte_to_Z b1) in *. set (x2 := byte_to_Z b2) in *. set (x3 := byte_to_Z b3) in *.
  replace (Z.shiftl x0 24) with (Z.shiftl (Z.shiftl x0 8) 16) by (by rewrite Z.shiftl_shiftl).
  rewrite <- Z.shiftl_lor, (lor_shifted x0 x1 8) by lia.
  replace (Z.shiftl (x0 * 2 ^ 8 + x1) 16) with (Z.shiftl (Z.shiftl (x0 * 2 ^ 8 + x1) 8) 8) by (by rewrite Z.shiftl_shiftl).
  rewrite <- Z.shiftl_lor, (lor_shifted _ x2 8), (lor_shifted _ x3 8) by lia. lia.
Qed.

Lemma read_u16_be b0 b1 pre rest : length pre = 4%nat → read_be_u16 (pre ++ b0 :: b1 :: rest) 4 = of_be [b0; b1].
Proof.
  intros Hp. unfold read_be_u16, at_byte. rewrite !app_nth2 by lia. rewrite Hp. cbn.
  rewrite (lor_shifted _ _ 8) by (pose proof (byte_to_Z_range b1); lia). lia.
Qed.

Lemma header_bytes_be flags type_id w :
  header_bytes flags type_id w =
  [Z_to_byte KITH_PROTO_MAGIC0; Z_to_byte KITH_PROTO_MAGIC1; Z_to_byte KITH_PROTO_VERSION] ++ be_bytes 1 flags ++ be_bytes 2 type_id ++ be_bytes 4 w.
Proof. unfold header_bytes. cbn [be_bytes app]. rewrite !Z.shiftr_div_pow2 by lia. rewrite !Z.div_div by lia. done. Qed.

Lemma length_header flags type_id w : length (header_bytes flags type_id w) = 10%nat.
Proof. done. Qed.

(** Ten bytes and what follows. *)
Lemma long_buffer (buf : bytes) : 10 ≤ zlen buf → ∃ b0 b1 b2 b3 b4 b5 b6 b7 b8 b9 rest,
  buf = [b0; b1; b2; b3; b4; b5; b6; b7; b8; b9] ++ rest.
Proof.
  intros Hl. do 10 (destruct buf as [|? buf]; [unfold zlen in Hl; cbn in Hl; lia|]). by repeat eexists.
Qed.

Lemma byte_eq_Z b z : 0 ≤ z < 256 → byte_to_Z b = z → b = Z_to_byte z.
Proof. intros Hz <-. by rewrite Z_to_byte_to_Z. Qed.

(** Parsing inverts the header. *)
Lemma parse_header_inv buf t fl w : parse_header buf = inr (t, fl, w) →
  ∃ rest, buf = header_bytes fl t w ++ rest ∧ 0 ≤ t < 2 ^ 16 ∧ 0 ≤ fl < 2 ^ 8 ∧ 0 ≤ w < 2 ^ 32.
Proof.
  unfold parse_header, KITH_PROTO_HDR_SIZE. destruct (Z.ltb_spec (zlen buf) 10) as [|Hl]; [done|].
  destruct (long_buffer buf Hl) as (b0 & b1 & b2 & b3 & b4 & b5 & b6 & b7 & b8 & b9 & rest & ->).
  pose proof (read_u32_be b6 b7 b8 b9 [b0; b1; b2; b3; b4; b5] rest eq_refl) as E32.
  pose proof (read_u16_be b4 b5 [b0; b1; b2; b3] ([b6; b7; b8; b9] ++ rest) eq_refl) as E16.
  cbn [app] in *. rewrite E32, E16. unfold at_byte. cbn [nth].
  destruct (Z.eqb_spec (byte_to_Z b0) KITH_PROTO_MAGIC0) as [H0|]; [|done].
  destruct (Z.eqb_spec (byte_to_Z b1) KITH_PROTO_MAGIC1) as [H1|]; [|done].
  destruct (Z.eqb_spec (byte_to_Z b2) KITH_PROTO_VERSION) as [H2|]; [|done]. cbn [negb orb]. intros [= <- <- <-].
  exists rest. rewrite header_bytes_be, (be_bytes_of_be [b4; b5] : be_bytes 2 _ = _), (be_bytes_of_be [b6; b7; b8; b9] : be_bytes 4 _ = _).
  pose proof (of_be_range [b4; b5]). pose proof (of_be_range [b6; b7; b8; b9]). pose proof (byte_to_Z_range b3).
  cbn [be_bytes app]. rewrite Z_to_byte_to_Z, <- H0, <- H1, <- H2, !Z_to_byte_to_Z. done.
Qed.

Lemma parse_header_header t fl w rest : 0 ≤ t < 2 ^ 16 → 0 ≤ fl < 2 ^ 8 → 0 ≤ w < 2 ^ 32 →
  parse_header (header_bytes fl t w ++ rest) = inr (t, fl, w).
Proof.
  intros Ht Hf Hw. unfold parse_header, KITH_PROTO_HDR_SIZE.
  destruct (Z.ltb_spec (zlen (header_bytes fl t w ++ rest)) 10) as [Hl|_]; [unfold zlen in Hl; rewrite length_app, length_header in Hl; lia|].
  rewrite header_bytes_be. set (bt := be_bytes 2 t). set (bw := be_bytes 4 w).
  assert (∃ x y, bt = [x; y]) as (x & y & Ebt) by (by repeat eexists).
  assert (∃ a b c d, bw = [a; b; c; d]) as (a & b & c & d & Ebw) by (by repeat eexists).
  rewrite Ebt, Ebw. cbn [be_bytes app].
  match goal with |- context [at_byte (?b0 :: ?b1 :: ?b2 :: ?b3 :: _) 0] =>
    pose proof (read_u32_be a b c d [b0; b1; b2; b3; x; y] rest eq_refl) as E32;
    pose proof (read_u16_be x y [b0; b1; b2; b3] (a :: b :: c :: d :: rest) eq_refl) as E16 end.
  cbn [app] in E32, E16. rewrite E32, E16.
  rewrite <- Ebt, <- Ebw. unfold bt, bw. rewrite !of_be_bytes. unfold at_byte. cbn [nth]. rewrite !byte_to_Z_to_byte.
  rewrite (Z.mod_small fl), (Z.mod_small t), (Z.mod_small w) by (unfold pow256; lia). done.
Qed.

(** ** The encoder *)

Lemma copied n off (src : bytes) :
  (if negb (zlen src =? 0) && (off <? n)%nat then copy_upto n off src else []) = take (n - off) src.
Proof.
  unfold zlen, copy_upto. destruct (Z.eqb_spec (Z.of_nat (length src)) 0) as [H0|_]; cbn [negb andb].
  { destruct src; [by rewrite take_nil|cbn in H0; lia]. }
  destruct (Nat.ltb_spec off n); [|by replace (n - off)%nat with 0%nat by lia].
  destruct (Nat.leb_spec (off + length src) n); [|done]. by rewrite !take_ge by lia.
Qed.

Lemma encode_into_take n hdr payload trailer : length hdr = 10%nat →
  encode_into n hdr payload trailer = take n (hdr ++ payload ++ trailer).
Proof.
  intros Hh. unfold encode_into. change (Z.to_nat KITH_PROTO_HDR_SIZE) with 10%nat. rewrite !copied.
  assert (take (if (n <? 10)%nat then n else 10%nat) hdr = take n hdr) as ->.
  { destruct (Nat.ltb_spec n 10); [done|]. by rewrite !take_ge by lia. }
  rewrite !take_app, !length_take, Hh. f_equal. f_equal; f_equal; lia.
Qed.

Definition frame_of (type_id flags correlation_id : Z) (payload : bytes) : frame :=
  mkFrame type_id flags (correlated flags) (if correlated flags then correlation_id else 0) payload.

Lemma zlen_trailer f : zlen (trailer_of f) = if correlated (fm_flags f) then 8 else 0.
Proof. unfold trailer_of. by destruct (correlated _). Qed.

Lemma zlen_wire f : zlen (wire_of f) = 10 + wire_len f.
Proof. unfold wire_of, wire_len. by rewrite !zlen_app. Qed.

Lemma wire_len_nonneg f : 0 ≤ wire_len f.
Proof. unfold wire_len, zlen. lia. Qed.

(** The bytes stored into any buffer are the start of the frame. *)
Lemma encode_wire p t fl corr payload cap : pr_max_payload p ≤ UINT32_MAX →
  let f := frame_of t fl corr payload in
  kith_proto_encode p t fl corr payload cap =
  if pr_max_payload p <? wire_len f then (0, [])
  else (zlen (wire_of f), match cap with Some c => take (Z.to_nat c) (wire_of f) | None => [] end).
Proof.
  intros Hp f. unfold kith_proto_encode. pose proof (zlen_wire f) as Hz. pose proof (wire_len_nonneg f) as Hn.
  assert ((if correlated fl then KITH_PROTO_CORR_TRAILER_SIZE else 0) = zlen (trailer_of f)) as -> by (by rewrite zlen_trailer).
  change (zlen payload) with (zlen (fm_payload f)). fold (wire_len f). unfold ckd_add32. fold (wire_len f).
  destruct (Z.ltb_spec UINT32_MAX (wire_len f)); [by rewrite (proj2 (Z.ltb_lt _ _)) by lia|].
  destruct (Z.ltb_spec (pr_max_payload p) (wire_len f)); [done|]. change KITH_PROTO_HDR_SIZE with 10. rewrite <- Hz.
  destruct cap as [c|]; [|done]. destruct (Z.eqb_spec c 0) as [->|Hc]; [done|]. f_equal. rewrite encode_into_take by done.
  assert (header_bytes fl t (wire_len f) ++ payload ++ (if correlated fl then write_be_u64 corr else []) = wire_of f) as ->.
  { unfold wire_of, trailer_of, f, frame_of. cbn. by destruct (correlated fl). }
  destruct (Z.ltb_spec c (zlen (wire_of f))); [done|]. unfold zlen in *. by rewrite !take_ge by lia.
Qed.

(** ** The decoder *)

Lemma find_registered p id : is_Some (find_by_id_locked p id) ↔ registered p id.
Proof.
  unfold find_by_id_locked, registered. rewrite list_elem_of_fmap. split.
  - destruct (filter _ _) as [|e l] eqn:E; [by intros []|]. intros _. exists e.
    assert (e ∈ filter (λ e, snd e = id) (pr_types p)) as [<- Hin]%list_elem_of_filter by (rewrite E; left). done.
  - intros (e & -> & Hin). assert (e ∈ filter (λ e', snd e' = snd e) (pr_types p)) as He by (by apply list_elem_of_filter).
    destruct (filter _ _); [by apply elem_of_nil in He|by eexists].
Qed.

Lemma wire_parse f rest : frame_ok f → wire_len f ≤ UINT32_MAX →
  parse_header (wire_of f ++ rest) = inr (fm_type_id f, fm_flags f, wire_len f).
Proof.
  intros [Ht Hf _ _] Hw. unfold wire_of. rewrite <- app_assoc. pose proof (wire_len_nonneg f).
  apply parse_header_header; unfold UINT32_MAX in Hw; lia.
Qed.

Lemma drop_trailer f rest : correlated (fm_flags f) = true →
  drop (Z.to_nat (zlen (wire_of f) - 8)) (wire_of f ++ rest) = trailer_of f ++ rest.
Proof.
  intros Hc. pose proof (zlen_trailer f) as Htr. rewrite Hc in Htr. rewrite zlen_wire. unfold wire_len, wire_of.
  rewrite (app_assoc (header_bytes _ _ _)), <- app_assoc. apply drop_app_length'. rewrite length_app, length_header.
  unfold zlen in *. lia.
Qed.

Lemma decode_wire p f rest : accepts p f → pr_max_payload p ≤ UINT32_MAX →
  kith_proto_decode p (wire_of f ++ rest) = (p, inr (f, zlen (wire_of f))).
Proof.
  intros (Hok & Hreg & Hw) Hp. unfold kith_proto_decode. rewrite wire_parse by (done || lia).
  rewrite (proj2 (Z.ltb_ge _ _) Hw). change KITH_PROTO_HDR_SIZE with 10. rewrite <- zlen_wire.
  rewrite (proj2 (Z.ltb_ge _ _)) by (rewrite zlen_app; unfold zlen; lia).
  apply find_registered in Hreg as [e ->]. pose proof (zlen_trailer f) as Htr. destruct Hok as [Ht Hf Hhas Hcorr].
  assert (drop (Z.to_nat 10) (wire_of f ++ rest) = fm_payload f ++ trailer_of f ++ rest) as ->.
  { unfold wire_of. rewrite <- !app_assoc. apply drop_app_length'. done. }
  destruct f as [t fl has corr payload]. fields. subst has. unfold wire_len, KITH_PROTO_CORR_TRAILER_SIZE in *. fields.
  destruct (correlated fl) eqn:Ec; cbn [andb]; rewrite ?Ec in *.
  - rewrite (proj2 (Z.ltb_ge _ _)) by (rewrite Htr; unfold zlen; lia). rewrite Htr. do 4 f_equal.
    + rewrite read_be_u64_be, drop_trailer by done. unfold trailer_of. fields. rewrite Ec, take_app_length' by done.
      unfold write_be_u64. rewrite of_be_bytes. apply Z.mod_small. unfold pow256. lia.
    + rewrite take_app_length'; [done|]. unfold zlen. lia.
  - subst corr. rewrite Htr. do 3 f_equal. rewrite take_app_length'; [done|]. unfold zlen. lia.
Qed.

Lemma of_be_u64 (bs : bytes) : 8 ≤ zlen bs → 0 ≤ read_be_u64 bs < 2 ^ 64 ∧ write_be_u64 (read_be_u64 bs) = take 8 bs.
Proof.
  intros Hl. rewrite read_be_u64_be. assert (length (take 8 bs) = 8%nat) as H8 by (rewrite length_take; unfold zlen in Hl; lia).
  pose proof (of_be_range (take 8 bs)) as Hr. rewrite H8 in Hr. split; [exact Hr|]. unfold write_be_u64. rewrite <- H8 at 1. apply be_bytes_of_be.
Qed.

(** The frame read from a body of [w] bytes, and its encoding. *)
Lemma read_frame t fl w (rest : bytes) : 0 ≤ t < 2 ^ 16 → 0 ≤ fl < 2 ^ 8 → 0 ≤ w ≤ zlen rest → (correlated fl = true → 8 ≤ w) →
  let f := mkFrame t fl (correlated fl) (if correlated fl then read_be_u64 (drop (Z.to_nat (w - 8)) rest) else 0)
             (take (Z.to_nat (if correlated fl then w - 8 else w)) rest) in
  frame_ok f ∧ wire_len f = w ∧ header_bytes fl t w ++ rest = wire_of f ++ drop (Z.to_nat w) rest.
Proof.
  intros Ht Hf Hw H8 f. pose proof (zlen_trailer f) as Htr.
  assert (wire_len f = w) as Hwl.
  { unfold wire_len. rewrite Htr. unfold f, zlen in *. fields. rewrite length_take. destruct (correlated fl); [specialize (H8 eq_refl)|]; lia. }
  assert (frame_ok f) as Hok.
  { split; unfold f; fields; try done. destruct (correlated fl); [|done]. apply of_be_u64. specialize (H8 eq_refl). unfold zlen in *. rewrite length_drop. lia. }
  split; [done|]. split; [done|]. unfold wire_of. rewrite Hwl, <- !app_assoc. unfold trailer_of, f. fields. f_equal.
  destruct (correlated fl); [|cbn [app]; by rewrite take_drop]. specialize (H8 eq_refl).
  destruct (of_be_u64 (drop (Z.to_nat (w - 8)) rest)) as [_ ->]; [unfold zlen in *; rewrite length_drop; lia|].
  rewrite <- (take_drop (Z.to_nat (w - 8)) rest) at 1. f_equal. rewrite <- (take_drop 8 (drop _ rest)) at 1. f_equal.
  rewrite drop_drop. f_equal. lia.
Qed.

Lemma decode_inv p buf p' f n : kith_proto_decode p buf = (p', inr (f, n)) →
  p' = p ∧ accepts p f ∧ n = zlen (wire_of f) ∧ ∃ rest, buf = wire_of f ++ rest.
Proof.
  unfold kith_proto_decode. destruct (parse_header buf) as [pr|[[t fl] w]] eqn:Hh; [by destruct (_ =? _)|].
  apply parse_header_inv in Hh as (rest & -> & Ht & Hf & Hw). destruct (Z.ltb_spec (pr_max_payload p) w) as [|Hm]; [done|].
  change KITH_PROTO_HDR_SIZE with 10. change KITH_PROTO_CORR_TRAILER_SIZE with 8. rewrite zlen_app. change (zlen (header_bytes fl t w)) with 10.
  destruct (Z.ltb_spec (10 + zlen rest) (10 + w)) as [|Hl]; [done|].
  destruct (find_by_id_locked p t) eqn:Hreg; [|done]. destruct (correlated fl && (w <? 8)) eqn:H8; [done|].
  assert (correlated fl = true → 8 ≤ w) as H8'.
  { intros Hc. rewrite Hc in H8. by apply Z.ltb_ge in H8. }
  assert (drop (Z.to_nat 10) (header_bytes fl t w ++ rest) = rest) as -> by (by apply drop_app_length').
  assert ((if correlated fl then read_be_u64 (drop (Z.to_nat (10 + w - 8)) (header_bytes fl t w ++ rest)) else 0) =
          if correlated fl then read_be_u64 (drop (Z.to_nat (w - 8)) rest) else 0) as ->.
  { destruct (correlated fl); [|done]. specialize (H8' eq_refl). rewrite drop_app_ge by (rewrite length_header; lia).
    rewrite length_header. do 2 f_equal. lia. }
  destruct (read_frame t fl w rest) as (Hok & Hwl & E); [done|done|lia|done|].
  set (f0 := mkFrame _ _ _ _ _) in *. intros Heq. assert (p' = p ∧ f = f0 ∧ n = 10 + w) as (-> & -> & ->) by (clear -Heq; by simplify_eq).
  rewrite E.
  split; [done|]. split; [|split; [by rewrite zlen_wire, Hwl|by exists (drop (Z.to_nat w) rest)]].
  split; [done|]. split; [by apply find_registered; eexists|]. by rewrite Hwl.
Qed.

(** A frame that has not arrived in full is waited for. *)
Lemma decode_prefix p f k : accepts p f → pr_max_payload p ≤ UINT32_MAX → (k < length (wire_of f))%nat →
  kith_proto_decode p (take k (wire_of f)) = (p, inl (- KITH_EAGAIN)).
Proof.
  intros (Hok & _ & Hw) Hp Hk. unfold kith_proto_decode. pose proof (zlen_wire f) as Hz. unfold zlen in Hz at 1.
  destruct (Nat.lt_ge_cases k 10) as [Hlt|Hge].
  { unfold parse_header. rewrite (proj2 (Z.ltb_lt _ _)); [done|]. unfold zlen. rewrite length_take. unfold KITH_PROTO_HDR_SIZE. lia. }
  assert (take k (wire_of f) = header_bytes (fm_flags f) (fm_type_id f) (wire_len f) ++ take (k - 10) (fm_payload f ++ trailer_of f)) as ->.
  { unfold wire_of. rewrite take_app_ge by (rewrite length_header; lia). by rewrite length_header. }
  destruct Hok as [Ht Hf _ _]. pose proof (wire_len_nonneg f). unfold UINT32_MAX in Hp.
  rewrite parse_header_header by lia. rewrite (proj2 (Z.ltb_ge _ _) Hw), (proj2 (Z.ltb_lt _ _)); [done|].
  unfold zlen. rewrite length_app, length_header, length_take. unfold KITH_PROTO_HDR_SIZE. lia.
Qed.

(** C31: The decoder returns a frame exactly on the buffers that begin with
    that frame's encoding, for the frames of registered types that fit the
    maximum payload, and consumes exactly the encoding; encoding such a frame
    gives those bytes, and on every proper prefix of them the decoder asks for
    more. *)
Theorem proto_codec_exact p buf f n : pr_max_payload p ≤ UINT32_MAX →
  (kith_proto_decode p buf = (p, inr (f, n)) ↔ accepts p f ∧ n = zlen (wire_of f) ∧ ∃ rest, buf = wire_of f ++ rest) ∧
  (accepts p f →
   kith_proto_encode p (fm_type_id f) (fm_flags f) (fm_correlation_id f) (fm_payload f) (Some (zlen (wire_of f))) =
     (zlen (wire_of f), wire_of f) ∧
   ∀ k, (k < length (wire_of f))%nat → kith_proto_decode p (take k (wire_of f)) = (p, inl (- KITH_EAGAIN))).
Proof.
  intros Hp. split; [split|].
  - by intros (_ & ? & ? & ?)%decode_inv.
  - intros (Ha & -> & rest & ->). by apply decode_wire.
  - intros Ha. pose proof Ha as (Hok & _ & Hw). split.
    + rewrite encode_wire by done. assert (frame_of (fm_type_id f) (fm_flags f) (fm_correlation_id f) (fm_payload f) = f) as ->.
      { destruct f as [t fl has corr pl], Hok as [? ? Hhas Hcorr]. unfold frame_of. fields. subst. by destruct (correlated fl); subst. }
      rewrite (proj2 (Z.ltb_ge _ _) Hw). unfold zlen. by rewrite Nat2Z.id, firstn_all.
    + intros k Hk. by apply decode_prefix.
Qed.
