(* ===== verification/CWords.v ===== *)
(** * Machine words

    Unsigned arithmetic of fixed width as the C modules use it: wrap-around,
    checked operations, masks and the doubling loops that round sizes up to
    powers of two. *)

From S2P Require Import Prelude PyWire.

#[local] Open Scope Z_scope.

(** Error codes ([include/kith/types.h]) and the ABI version ([version.h]). *)
Definition KITH_ENOMEM : Z := 2.
Definition KITH_ESIZE : Z := 18.
Definition KITH_EABIVER : Z := 19.
Definition KITH_ABI_VERSION : Z := 1.

Definition u64 (z : Z) : Z := z mod 2 ^ 64.

(** [ckd_add] and [ckd_mul] on [uint64_t]: [None] when the result does not fit. *)
Definition ckd64 (z : Z) : option Z := if z <? 2 ^ 64 then Some z else None.

(** [while (p < x) { p <<= 1; }] on [w]-bit words, given up after [fuel] turns:
    [None] when the loop is still running. *)
Fixpoint double_until (w : Z) (fuel : nat) (p x : Z) : option Z :=
  if p <? x then
    match fuel with O => None | S fuel => double_until w fuel (Z.shiftl p 1 mod 2 ^ w) x end
  else Some p.

Lemma u64_range z : 0 ≤ u64 z < 2 ^ 64.
Proof. apply Z.mod_pos_bound. lia. Qed.

Lemma u64_id z : 0 ≤ z < 2 ^ 64 → u64 z = z.
Proof. apply Z.mod_small. Qed.

Lemma u64_mod_pow z k : 0 ≤ k ≤ 64 → u64 z mod 2 ^ k = z mod 2 ^ k.
Proof.
  intros Hk. unfold u64. replace (2 ^ 64) with (2 ^ k * 2 ^ (64 - k)) by (rewrite <- Z.pow_add_r by lia; f_equal; lia).
  rewrite Z.rem_mul_r by (try apply Z.pow_nonzero; try apply Z.pow_pos_nonneg; lia).
  rewrite Z.mul_comm, Z_mod_plus_full. by rewrite Zmod_mod.
Qed.

(** A mask of the low bits is a remainder. *)
Lemma land_low z k : 0 ≤ k → Z.land z (2 ^ k - 1) = z mod 2 ^ k.
Proof. intros Hk. rewrite <- Z.land_ones by done. by rewrite Z.ones_equiv, <- Z.sub_1_r. Qed.

Lemma pow2_pos k : 0 ≤ k → 0 < 2 ^ k.
Proof. intros. by apply Z.pow_pos_nonneg. Qed.

Lemma pow2_le a b : 0 ≤ a ≤ b → 2 ^ a ≤ 2 ^ b.
Proof. intros. apply Z.pow_le_mono_r; lia. Qed.

Section Doubling.
Context (w : Z) (Hw : 1 ≤ w).

Lemma double_pow2 k : 0 ≤ k < w - 1 → Z.shiftl (2 ^ k) 1 mod 2 ^ w = 2 ^ (k + 1).
Proof.
  intros Hk. rewrite Z.shiftl_mul_pow2, <- Z.pow_add_r by lia. apply Z.mod_small.
  pose proof (pow2_pos (k + 1) ltac:(lia)). pose proof (Z.pow_lt_mono_r 2 (k + 1) w ltac:(lia) ltac:(lia) ltac:(lia)). lia.
Qed.

(** From a power of two the loop reaches a power of two, within one turn per
    bit, when the target is at most [2 ^ (w - 1)]. *)
Lemma double_until_reaches x m fuel : ∀ k, 0 ≤ k ≤ m → m ≤ w - 1 → x ≤ 2 ^ m → (Z.to_nat (m - k) ≤ fuel)%nat →
  ∃ j, k ≤ j ≤ m ∧ double_until w fuel (2 ^ k) x = Some (2 ^ j) ∧ x ≤ 2 ^ j ∧ (j = k ∨ 2 ^ (j - 1) < x).
Proof.
  induction fuel as [|fuel IH]; intros k Hk Hm Hx Hf; cbn [double_until].
  - assert (k = m) as -> by lia. rewrite (proj2 (Z.ltb_ge _ _)) by done. exists m. naive_solver lia.
  - destruct (Z.ltb_spec (2 ^ k) x) as [Hlt|Hge]; [|exists k; naive_solver lia].
    assert (k < m) by (destruct (decide (k = m)) as [->|]; lia). rewrite double_pow2 by lia.
    destruct (IH (k + 1)) as (j & Hj & Hd & Hle & Hlow); [lia|done|done|lia|].
    exists j. split_and!; [lia|lia|done|done|]. right. destruct Hlow as [->|]; [|done].
    by replace (k + 1 - 1) with k by lia.
Qed.

Lemma double_zero fuel x : 0 < x → double_until w fuel 0 x = None.
Proof.
  intros Hx. induction fuel as [|fuel IH]; cbn [double_until]; rewrite (proj2 (Z.ltb_lt _ _)) by done; [done|].
  rewrite Z.shiftl_0_l, Zmod_0_l. exact IH.
Qed.

(** Beyond that the shift leaves zero and the loop never ends. *)
Lemma double_until_diverges x fuel : 2 ^ (w - 1) < x → ∀ k, 0 ≤ k ≤ w - 1 → double_until w fuel (2 ^ k) x = None.
Proof.
  intros Hx. induction fuel as [|fuel IH]; intros k Hk; cbn [double_until];
    rewrite (proj2 (Z.ltb_lt _ _)) by (pose proof (pow2_le k (w - 1) ltac:(lia)); lia); [done|].
  destruct (decide (k = w - 1)) as [->|]; [|rewrite double_pow2 by lia; apply IH; lia].
  rewrite Z.shiftl_mul_pow2, <- Z.pow_add_r, Z.sub_add, Z_mod_same_full by lia.
  apply double_zero. pose proof (pow2_pos (w - 1) ltac:(lia)). lia.
Qed.
End Doubling.
