(* ===== verification/RingBuffer.v ===== *)
(** * The ring buffer of a connection ([src/src/net/ringbuf.c])

    A byte ring whose size is a power of two: the counters run freely modulo
    [2 ^ 64] and are masked into the buffer, which doubles when a write does
    not fit and shrinks when little of it is used.  It refines a bounded queue
    of bytes.  Handles are not null. *)

From S2P Require Import Prelude PyStruct PyWire Proto CWords.

#[local] Open Scope Z_scope.

Record kith_ringbuf := mkRing {
  rb_buf : option bytes;
  rb_size : Z;
  rb_mask : Z;
  rb_head : Z;
  rb_tail : Z;
  rb_initial_size : Z;
  rb_max_size : Z;
}.

(** What the allocator answers for a size: a block of arbitrary content, or
    nothing. *)
Definition allocator := Z → option bytes.

(** [memcpy(b + off, src, len)] and the [n] bytes at [b + off]. *)
Definition blit (off : Z) (src b : bytes) : bytes :=
  take (Z.to_nat off) b ++ src ++ drop (Z.to_nat off + length src) b.
Definition bytes_at (off n : Z) (b : bytes) : bytes := take (Z.to_nat n) (drop (Z.to_nat off) b).

(** Enough turns for every loop that ends; the others run forever. *)
Definition doublings : nat := 64.

Definition next_pow2 (x : Z) : option Z := if x <=? 1 then Some 1 else double_until 64 doublings 1 x.

(** [None]: the call does not return.  [inl]: it returns [-1]. *)
Definition kith_ringbuf_init (alloc : allocator) (initial_size max_size : Z) : option (Z + kith_ringbuf) :=
  if (initial_size =? 0) || (max_size =? 0) || (max_size <? initial_size) then Some (inl (-1)) else
  initial_size ← next_pow2 initial_size;
  max_size ← next_pow2 max_size;
  if max_size <? initial_size then Some (inl (-1)) else
  match alloc initial_size with
  | None => Some (inl (-1))
  | Some buf => Some (inr (mkRing (Some buf) initial_size (u64 (initial_size - 1)) 0 0 initial_size max_size))
  end.

Definition kith_ringbuf_free (rb : kith_ringbuf) : kith_ringbuf :=
  mkRing None 0 0 (rb_head rb) (rb_tail rb) (rb_initial_size rb) (rb_max_size rb).

Definition kith_ringbuf_used (rb : kith_ringbuf) : Z := u64 (rb_head rb - rb_tail rb).
Definition kith_ringbuf_space (rb : kith_ringbuf) : Z := u64 (rb_size rb - kith_ringbuf_used rb).

Definition ringbuf_realloc (alloc : allocator) (new_size : Z) (rb : kith_ringbuf) : kith_ringbuf * Z :=
  if rb_max_size rb <? new_size then (rb, -1) else
  match alloc new_size, rb_buf rb with
  | Some next, Some buf =>
      let used := kith_ringbuf_used rb in
      let idx := Z.land (rb_tail rb) (rb_mask rb) in
      let next :=
        if idx + used <=? rb_size rb then blit 0 (bytes_at idx used buf) next
        else let first := rb_size rb - idx in
             blit first (bytes_at 0 (used - first) buf) (blit 0 (bytes_at idx first buf) next) in
      (mkRing (Some next) new_size (u64 (new_size - 1)) used 0 (rb_initial_size rb) (rb_max_size rb), 0)
  | _, _ => (rb, -1)
  end.

Definition store (data : bytes) (rb : kith_ringbuf) : kith_ringbuf :=
  let idx := Z.land (rb_head rb) (rb_mask rb) in
  let first := rb_size rb - idx in
  let len := zlen data in
  let buf :=
    (λ b, if len <=? first then blit idx data b
          else blit 0 (drop (Z.to_nat first) data) (blit idx (take (Z.to_nat first) data) b)) <$> rb_buf rb in
  mkRing buf (rb_size rb) (rb_mask rb) (u64 (rb_head rb + len)) (rb_tail rb) (rb_initial_size rb) (rb_max_size rb).

Definition kith_ringbuf_write (alloc : allocator) (data : bytes) (rb : kith_ringbuf) : option (kith_ringbuf * Z) :=
  match rb_buf rb with
  | None => Some (rb, -1)
  | Some _ =>
      let len := zlen data in
      if len =? 0 then Some (rb, 0)
      else if kith_ringbuf_space rb <? len then
        let used := kith_ringbuf_used rb in
        new_size ← double_until 64 doublings (rb_size rb) (u64 (used + len));
        let '(rb, rc) := ringbuf_realloc alloc new_size rb in
        if negb (rc =? 0) then Some (rb, -1) else Some (store data rb, 0)
      else Some (store data rb, 0)
  end.

(** The readable region that starts at the tail. *)
Definition kith_ringbuf_peek (rb : kith_ringbuf) : bytes :=
  match rb_buf rb with
  | None => []
  | Some buf =>
      let used := kith_ringbuf_used rb in
      if used =? 0 then [] else
      let idx := Z.land (rb_tail rb) (rb_mask rb) in
      let contiguous := rb_size rb - idx in
      bytes_at idx (if used <? contiguous then used else contiguous) buf
  end.

Definition kith_ringbuf_consume (len : Z) (rb : kith_ringbuf) : kith_ringbuf :=
  let used := kith_ringbuf_used rb in
  mkRing (rb_buf rb) (rb_size rb) (rb_mask rb) (rb_head rb) (u64 (rb_tail rb + if used <? len then used else len))
    (rb_initial_size rb) (rb_max_size rb).

Definition kith_ringbuf_maybe_shrink (alloc : allocator) (rb : kith_ringbuf) : option (kith_ringbuf * Z) :=
  match rb_buf rb with
  | None => Some (rb, -1)
  | Some _ =>
      if rb_size rb <=? rb_initial_size rb then Some (rb, 0) else
      let used := kith_ringbuf_used rb in
      if rb_size rb / 4 <? used then Some (rb, 0) else
      new_size ← double_until 64 doublings (rb_initial_size rb) (u64 (used * 2));
      if rb_size rb <=? new_size then Some (rb, 0) else Some (ringbuf_realloc alloc new_size rb)
  end.

Definition kith_ringbuf_copy (cap : Z) (rb : kith_ringbuf) : bytes :=
  match rb_buf rb with
  | None => []
  | Some buf =>
      let used := kith_ringbuf_used rb in
      if (cap =? 0) || (used =? 0) then [] else
      let n := if used <? cap then used else cap in
      let idx := Z.land (rb_tail rb) (rb_mask rb) in
      let first := if idx + n <=? rb_size rb then n else rb_size rb - idx in
      bytes_at idx first buf ++ (if first <? n then bytes_at 0 (n - first) buf else [])
  end.

(** ** The bytes a ring holds *)

#[global] Instance byte_inhabited : Inhabited byte := populate x00.

(** [n] bytes from position [t] on, wrapping around the buffer. *)
Definition ring_bytes (b : bytes) (t n : Z) : bytes :=
  (λ i, b !!! Z.to_nat ((t + Z.of_nat i) mod zlen b)) <$> seq 0 (Z.to_nat n).

Record ring_holds (rb : kith_ringbuf) (q : bytes) : Prop := {
  rh_pow : ∃ j k m, 0 ≤ j ≤ k ∧ k ≤ m ≤ 62 ∧
    rb_initial_size rb = 2 ^ j ∧ rb_size rb = 2 ^ k ∧ rb_max_size rb = 2 ^ m;
  rh_mask : rb_mask rb = rb_size rb - 1;
  rh_head : 0 ≤ rb_head rb < 2 ^ 64;
  rh_tail : 0 ≤ rb_tail rb < 2 ^ 64;
  rh_used : kith_ringbuf_used rb ≤ rb_size rb;
  rh_buf : ∃ b, rb_buf rb = Some b ∧ zlen b = rb_size rb ∧ q = ring_bytes b (rb_tail rb) (kith_ringbuf_used rb);
}.

(** The allocator returns blocks of the size asked for. *)
Definition allocates (alloc : allocator) : Prop := ∀ n b, alloc n = Some b → zlen b = n.

Lemma ring_index t (b : bytes) : 0 < zlen b → (Z.to_nat (t mod zlen b) < length b)%nat.
Proof. intros Hb. pose proof (Z.mod_pos_bound t _ Hb). unfold zlen in *. lia. Qed.

Lemma lookup_ring_bytes b t n i : 0 < zlen b → (i < Z.to_nat n)%nat →
  ring_bytes b t n !! i = b !! Z.to_nat ((t + Z.of_nat i) mod zlen b).
Proof.
  intros Hb Hi. unfold ring_bytes. rewrite list_lookup_fmap, lookup_seq_lt by done. cbn.
  symmetry. by apply list_lookup_lookup_total_lt, ring_index.
Qed.

Lemma length_ring_bytes b t n : length (ring_bytes b t n) = Z.to_nat n.
Proof. unfold ring_bytes. by rewrite length_fmap, length_seq. Qed.

Lemma ring_bytes_app b t n m : 0 ≤ n → 0 ≤ m → ring_bytes b t (n + m) = ring_bytes b t n ++ ring_bytes b (t + n) m.
Proof.
  intros Hn Hm. unfold ring_bytes. rewrite Z2Nat.inj_add, seq_app, fmap_app by done. f_equal. cbn.
  rewrite <- (Nat.add_0_r (Z.to_nat n)) at 1. rewrite <- fmap_add_seq, <- list_fmap_compose.
  apply list_fmap_ext. intros i x _. cbn. do 3 f_equal. lia.
Qed.

Lemma ring_bytes_mod b t n : ring_bytes b (t mod zlen b) n = ring_bytes b t n.
Proof. unfold ring_bytes. apply list_fmap_ext. intros i x _. by rewrite Zplus_mod_idemp_l. Qed.

(** A region that does not wrap. *)
Lemma bytes_at_ring b t n : 0 ≤ t → 0 ≤ n → t + n ≤ zlen b → bytes_at t n b = ring_bytes b t n.
Proof.
  intros Ht Hn Hb. apply list_eq_same_length with (Z.to_nat n).
  - apply length_ring_bytes.
  - unfold bytes_at, zlen in *. rewrite length_take, length_drop. lia.
  - intros i x y Hi Hx Hy. unfold bytes_at in Hx. rewrite lookup_take_lt, lookup_drop in Hx by done.
    rewrite lookup_ring_bytes, Z.mod_small in Hy by (unfold zlen in *; lia).
    replace (Z.to_nat (t + Z.of_nat i)) with (Z.to_nat t + i)%nat in Hy by lia. congruence.
Qed.

(** A region that may wrap is read in two parts. *)
Lemma wrapped_read b idx n : 0 ≤ idx < zlen b → 0 ≤ n ≤ zlen b →
  (if idx + n <=? zlen b then bytes_at idx n b
   else bytes_at idx (zlen b - idx) b ++ bytes_at 0 (n - (zlen b - idx)) b) = ring_bytes b idx n.
Proof.
  intros Hi Hn. destruct (Z.leb_spec (idx + n) (zlen b)); [apply bytes_at_ring; lia|].
  rewrite !bytes_at_ring by lia. replace n with (zlen b - idx + (n - (zlen b - idx))) at 2 by lia.
  rewrite ring_bytes_app by lia. f_equal. replace (idx + (zlen b - idx)) with (zlen b) by lia.
  rewrite <- (ring_bytes_mod b (zlen b)). by rewrite Z_mod_same_full.
Qed.

Lemma zlen_blit off src b : 0 ≤ off → off + zlen src ≤ zlen b → zlen (blit off src b) = zlen b.
Proof. intros Ho Hb. unfold blit, zlen in *. rewrite !length_app, length_take, length_drop. lia. Qed.

Lemma lookup_blit off src b i : 0 ≤ off → off + zlen src ≤ zlen b →
  blit off src b !! i =
  if decide (off ≤ Z.of_nat i < off + zlen src) then src !! (i - Z.to_nat off)%nat else b !! i.
Proof.
  intros Ho Hb. unfold blit, zlen in *. assert (length (take (Z.to_nat off) b) = Z.to_nat off) as Hl by (rewrite length_take; lia).
  destruct (decide (i < Z.to_nat off)%nat).
  - rewrite lookup_app_l, lookup_take_lt by lia. by rewrite decide_False by lia.
  - rewrite lookup_app_r by lia. rewrite Hl. destruct (decide (i - Z.to_nat off < length src)%nat).
    + rewrite lookup_app_l by lia. by rewrite decide_True by lia.
    + rewrite lookup_app_r, lookup_drop, decide_False by lia. f_equal. lia.
Qed.

(** The two copies of a write that may wrap. *)
Definition wrapped_write (idx : Z) (data b : bytes) : bytes :=
  let first := zlen b - idx in
  if zlen data <=? first then blit idx data b
  else blit 0 (drop (Z.to_nat first) data) (blit idx (take (Z.to_nat first) data) b).

Section Wrapped.
Context (b data : bytes) (idx : Z) (Hidx : 0 ≤ idx < zlen b) (Hdata : zlen data ≤ zlen b).

Lemma zlen_parts : zlen b - idx < zlen data →
  zlen (take (Z.to_nat (zlen b - idx)) data) = zlen b - idx ∧
  zlen (drop (Z.to_nat (zlen b - idx)) data) = zlen data - (zlen b - idx).
Proof. intros Hf. unfold zlen in *. rewrite length_take, length_drop. lia. Qed.

Lemma zlen_wrapped_write : zlen (wrapped_write idx data b) = zlen b.
Proof.
  unfold wrapped_write. destruct (Z.leb_spec (zlen data) (zlen b - idx)) as [Hf|Hf]; [apply zlen_blit; lia|].
  destruct (zlen_parts Hf). rewrite !zlen_blit; try lia. rewrite zlen_blit; lia.
Qed.

(** Byte [i] lies [(i - idx) mod size] after the start of the write. *)
Lemma lookup_wrapped_write i : (i < length b)%nat →
  let d := (Z.of_nat i - idx) mod zlen b in
  wrapped_write idx data b !! i = if decide (d < zlen data) then data !! Z.to_nat d else b !! i.
Proof.
  intros Hi d. assert (d = if decide (idx ≤ Z.of_nat i) then Z.of_nat i - idx else Z.of_nat i - idx + zlen b) as Hd.
  { unfold d, zlen in *. case_decide; [apply Z.mod_small; lia|].
    rewrite <- (Z_mod_plus_full _ 1), Z.mul_1_l. apply Z.mod_small. lia. }
  unfold wrapped_write. destruct (Z.leb_spec (zlen data) (zlen b - idx)) as [Hf|Hf].
  - rewrite lookup_blit by lia. unfold zlen in *. rewrite Hd. repeat case_decide; try lia; f_equal; lia.
  - destruct (zlen_parts Hf) as [H1 H2]. rewrite !lookup_blit; rewrite ?zlen_blit; try lia. rewrite H1, H2, Hd.
    unfold zlen in *. repeat case_decide; try lia.
    + rewrite lookup_take_lt by lia. f_equal. lia.
    + rewrite lookup_drop. f_equal. lia.
    + done.
Qed.

(** Writing after [n] bytes that start at [t] keeps them and appends. *)
Lemma ring_bytes_write t n : idx = (t + n) mod zlen b → 0 ≤ n → n + zlen data ≤ zlen b →
  ring_bytes (wrapped_write idx data b) t (n + zlen data) = ring_bytes b t n ++ data.
Proof.
  intros Ht Hn Hnd. pose proof zlen_wrapped_write as Hz. assert (0 < zlen b) by lia. assert (0 ≤ zlen data) by (unfold zlen; lia).
  apply list_eq_same_length with (Z.to_nat (n + zlen data)).
  - rewrite length_app, length_ring_bytes. unfold zlen. lia.
  - apply length_ring_bytes.
  - intros i x y Hi Hx Hy. rewrite lookup_ring_bytes in Hx by (rewrite ?Hz; lia). rewrite Hz in Hx.
    pose proof (ring_index (t + Z.of_nat i) b ltac:(lia)) as Hin. rewrite lookup_wrapped_write in Hx by done.
    pose proof (Z.mod_pos_bound (t + Z.of_nat i) (zlen b) ltac:(lia)).
    rewrite Z2Nat.id in Hx by lia. rewrite Ht in Hx.
    rewrite <- Zminus_mod in Hx. replace (t + Z.of_nat i - (t + n)) with (Z.of_nat i - n) in Hx by lia.
    destruct (decide (i < Z.to_nat n)%nat).
    + rewrite lookup_app_l, lookup_ring_bytes in Hy by (rewrite ?length_ring_bytes; lia).
      rewrite <- (Z_mod_plus_full (Z.of_nat i - n) 1), Z.mul_1_l, (Z.mod_small (Z.of_nat i - n + zlen b)) in Hx by lia.
      rewrite decide_False in Hx by lia. congruence.
    + rewrite lookup_app_r, length_ring_bytes in Hy by (rewrite ?length_ring_bytes; lia).
      rewrite (Z.mod_small (Z.of_nat i - n)) in Hx by (unfold zlen in *; lia). rewrite decide_True in Hx by (unfold zlen in *; lia).
      replace (Z.to_nat (Z.of_nat i - n)) with (i - Z.to_nat n)%nat in Hx by lia. congruence.
Qed.
End Wrapped.

(** Two copies one after the other are one copy. *)
Lemma blit_front_app s1 s2 b : zlen s1 + zlen s2 ≤ zlen b → blit (zlen s1) s2 (blit 0 s1 b) = blit 0 (s1 ++ s2) b.
Proof.
  intros Hl. unfold blit, zlen in *. change (Z.to_nat 0) with O. rewrite !take_0, Nat2Z.id, !app_nil_l, take_app_length. rewrite <- app_assoc. do 2 f_equal.
  rewrite drop_app_ge by lia. rewrite drop_drop, length_app. f_equal. lia.
Qed.

(** ** The operations on a ring that holds a queue *)

Section Holds.
Context (rb : kith_ringbuf) (q : bytes) (Hr : ring_holds rb q).

Lemma holds_used : kith_ringbuf_used rb = zlen q.
Proof.
  destruct (rh_buf _ _ Hr) as (b & _ & _ & ->). unfold zlen. rewrite length_ring_bytes.
  pose proof (u64_range (rb_head rb - rb_tail rb)). unfold kith_ringbuf_used in *. lia.
Qed.

Lemma holds_fits : zlen q ≤ rb_size rb ≤ rb_max_size rb ∧ 0 < rb_size rb ∧ rb_max_size rb ≤ 2 ^ 62.
Proof.
  destruct (rh_pow _ _ Hr) as (j & k & m & Hj & Hk & _ & Hs & Hm). rewrite <- holds_used.
  pose proof (rh_used _ _ Hr). pose proof (pow2_pos k ltac:(lia)).
  pose proof (pow2_le k m ltac:(lia)). pose proof (pow2_le m 62 ltac:(lia)). lia.
Qed.

Lemma holds_space : kith_ringbuf_space rb = rb_size rb - zlen q.
Proof. unfold kith_ringbuf_space. rewrite holds_used. apply u64_id. pose proof holds_fits. pose proof (zlen_nonneg q). lia. Qed.

Lemma holds_index t : Z.land t (rb_mask rb) = t mod rb_size rb.
Proof. rewrite (rh_mask _ _ Hr). destruct (rh_pow _ _ Hr) as (j & k & m & Hj & _ & _ & -> & _). apply land_low. lia. Qed.

(** Offsets modulo [2 ^ 64] are offsets in the buffer. *)
Lemma u64_mod_size t : u64 t mod rb_size rb = t mod rb_size rb.
Proof. destruct (rh_pow _ _ Hr) as (j & k & m & Hj & Hk & _ & -> & _). apply u64_mod_pow. lia. Qed.

Lemma head_mod : rb_head rb mod rb_size rb = (rb_tail rb + zlen q) mod rb_size rb.
Proof.
  rewrite <- holds_used. unfold kith_ringbuf_used. rewrite Zplus_mod, u64_mod_size, <- Zplus_mod. f_equal. lia.
Qed.

Lemma index_range t : 0 ≤ t mod rb_size rb < rb_size rb.
Proof. pose proof holds_fits. apply Z.mod_pos_bound. lia. Qed.

Lemma store_holds data : zlen q + zlen data ≤ rb_size rb → ring_holds (store data rb) (q ++ data).
Proof.
  intros Hd. pose proof holds_fits as (Hf & Hpos & Hmax). pose proof (zlen_nonneg q). pose proof (zlen_nonneg data).
  destruct (rh_buf _ _ Hr) as (b & Hb & Hz & Hq).
  assert (kith_ringbuf_used (store data rb) = zlen q + zlen data) as Hu.
  { unfold kith_ringbuf_used, store, u64. cbn -[Z.pow]. rewrite Zminus_mod_idemp_l.
    replace (rb_head rb + zlen data - rb_tail rb) with (rb_head rb - rb_tail rb + zlen data) by lia.
    rewrite <- Zplus_mod_idemp_l. change ((rb_head rb - rb_tail rb) mod 2 ^ 64) with (kith_ringbuf_used rb).
    rewrite holds_used. apply Z.mod_small. lia. }
  constructor; try rewrite Hu; cbn.
  1,2,4: apply Hr.
  - apply u64_range.
  - done.
  - rewrite Hb, holds_index. cbn. eexists. split; [done|]. rewrite <- Hz. change (if _ <=? _ then _ else _) with (wrapped_write (rb_head rb mod zlen b) data b).
    pose proof (index_range (rb_head rb)) as Hi. rewrite <- Hz in Hi. split; [apply zlen_wrapped_write; lia|].
    rewrite holds_used in Hq. rewrite ring_bytes_write; rewrite ?Hz; try lia; [by rewrite <- Hq|apply index_range|apply head_mod].
Qed.

Lemma consume_holds n : 0 ≤ n → ring_holds (kith_ringbuf_consume n rb) (drop (Z.to_nat n) q).
Proof.
  intros Hn. pose proof holds_fits as (Hf & Hpos & Hmax). destruct (rh_buf _ _ Hr) as (b & Hb & Hz & Hq).
  set (d := if zlen q <? n then zlen q else n). assert (0 ≤ d ≤ zlen q) as Hd.
  { unfold d. pose proof (zlen_nonneg q). destruct (Z.ltb_spec (zlen q) n); lia. }
  assert (kith_ringbuf_used (kith_ringbuf_consume n rb) = zlen q - d) as Hu.
  { unfold kith_ringbuf_used at 1, kith_ringbuf_consume. cbn -[Z.pow]. rewrite holds_used. fold d. unfold u64. rewrite Zminus_mod_idemp_r.
    replace (rb_head rb - (rb_tail rb + d)) with (rb_head rb - rb_tail rb - d) by lia.
    rewrite <- Zminus_mod_idemp_l. change ((rb_head rb - rb_tail rb) mod 2 ^ 64) with (kith_ringbuf_used rb).
    rewrite holds_used. apply Z.mod_small. lia. }
  constructor; try rewrite Hu; cbn -[kith_ringbuf_used].
  1,2,3: apply Hr.
  - apply u64_range.
  - lia.
  - exists b. split_and!; [done|done|]. rewrite holds_used. fold d.
    rewrite <- (ring_bytes_mod b (u64 _)), Hz, u64_mod_size, <- Hz, ring_bytes_mod.
    assert (q = ring_bytes b (rb_tail rb) (d + (zlen q - d))) as Hq' by (rewrite Hq at 1; f_equal; rewrite holds_used; lia).
    rewrite Hq' at 1. rewrite ring_bytes_app by lia. unfold d in *. destruct (Z.ltb_spec (zlen q) n).
    + rewrite Z.sub_diag. rewrite drop_ge; [done|]. rewrite length_app, !length_ring_bytes. lia.
    + rewrite drop_app_ge, length_ring_bytes, Nat.sub_diag by (rewrite length_ring_bytes; lia). done.
Qed.

Lemma realloc_holds alloc k' : allocates alloc →
  0 ≤ k' → rb_initial_size rb ≤ 2 ^ k' → zlen q ≤ 2 ^ k' →
  if (2 ^ k' <=? rb_max_size rb) && bool_decide (is_Some (alloc (2 ^ k')))
  then ∃ rb', ringbuf_realloc alloc (2 ^ k') rb = (rb', 0) ∧ ring_holds rb' q ∧ rb_size rb' = 2 ^ k' ∧
         rb_initial_size rb' = rb_initial_size rb ∧ rb_max_size rb' = rb_max_size rb
  else ringbuf_realloc alloc (2 ^ k') rb = (rb, -1).
Proof.
  intros Ha Hk Hi Hq. unfold ringbuf_realloc. destruct (rh_buf _ _ Hr) as (b & Hb & Hz & Hqb). rewrite Z.leb_antisym, Hb.
  destruct (Z.ltb_spec (rb_max_size rb) (2 ^ k')) as [|Hmax]; cbn [negb andb]; [done|].
  destruct (alloc (2 ^ k')) as [next|] eqn:Hn; [|by rewrite bool_decide_eq_false_2 by by intros []].
  rewrite bool_decide_eq_true_2 by done. apply Ha in Hn. eexists. split; [done|]. split; [|done].
  destruct (rh_pow _ _ Hr) as (j & k & m & Hj & Hkm & Hinit & Hs & Hm). pose proof (zlen_nonneg q).
  assert (k' ≤ m) by (rewrite Hm in Hmax; by apply Z.pow_le_mono_r_iff in Hmax; [|lia|lia]).
  assert (j ≤ k') by (rewrite Hinit in Hi; by apply Z.pow_le_mono_r_iff in Hi; [|lia|lia]).
  pose proof (pow2_pos k' ltac:(lia)). pose proof (pow2_le k' 62 ltac:(lia)). pose proof (index_range (rb_tail rb)) as Hix.
  assert (∀ x, kith_ringbuf_used (mkRing x (2 ^ k') (u64 (2 ^ k' - 1)) (zlen q) 0 (rb_initial_size rb) (rb_max_size rb)) = zlen q) as Hu.
  { intros x. unfold kith_ringbuf_used. cbn. rewrite Z.sub_0_r. apply u64_id. lia. }
  rewrite holds_used. constructor; try rewrite Hu; cbn -[kith_ringbuf_used].
  - exists j, k', m. split_and!; (done || lia).
  - apply u64_id. lia.
  - lia.
  - lia.
  - done.
  - rewrite holds_index, <- Hz.
    (* both branches copy the queue to the front of the block *)
    assert (∀ s : bytes, s = q → zlen (blit 0 s next) = 2 ^ k' ∧ q = ring_bytes (blit 0 s next) 0 (zlen q)) as Hfront.
    { intros s ->. rewrite zlen_blit by lia. split; [done|]. rewrite <- bytes_at_ring by (rewrite ?zlen_blit; lia).
      unfold bytes_at, blit, zlen. change (Z.to_nat 0) with O. by rewrite drop_0, take_0, app_nil_l, Nat2Z.id, take_app_length. }
    rewrite <- Hz in Hix. pose proof holds_fits. pose proof (wrapped_read b (rb_tail rb mod zlen b) (zlen q) ltac:(lia) ltac:(lia)) as Hw.
    rewrite ring_bytes_mod in Hw. rewrite holds_used in Hqb. rewrite <- Hqb in Hw.
    destruct (Z.leb_spec (rb_tail rb mod zlen b + zlen q) (zlen b)); eexists; (split; [done|]); [by apply Hfront|].
    set (i := rb_tail rb mod zlen b) in *. assert (zlen (bytes_at i (zlen b - i) b) = zlen b - i) as Hl
      by (unfold bytes_at, zlen in *; rewrite length_take, length_drop; lia).
    replace (blit _ _ _) with (blit 0 q next); [by apply Hfront|].
    rewrite <- Hl at 1. rewrite blit_front_app by (rewrite <- zlen_app, Hw; lia). by rewrite Hw.
Qed.
End Holds.

(** ** The queue

    What a write answers: the bytes are appended exactly when they fit the
    maximum and the allocator serves the growth they need. *)

Definition grown_size (rb : kith_ringbuf) (total : Z) : Z :=
  default 0 (double_until 64 doublings (rb_size rb) total).

Definition write_accepted (alloc : allocator) (rb : kith_ringbuf) (total : Z) : bool :=
  (total <=? rb_size rb) ||
  ((total <=? rb_max_size rb) && bool_decide (is_Some (alloc (grown_size rb total)))).

Section Operations.
Context (alloc : allocator) (Ha : allocates alloc).

(** The size a total grows the ring to. *)
Lemma grown rb q total : ring_holds rb q → zlen q ≤ total ≤ 2 ^ 63 → rb_size rb < total →
  ∃ k, 0 ≤ k ∧ double_until 64 doublings (rb_size rb) (u64 total) = Some (2 ^ k) ∧ grown_size rb total = 2 ^ k ∧
    rb_initial_size rb ≤ 2 ^ k ∧ total ≤ 2 ^ k ∧ (2 ^ k <=? rb_max_size rb) = (total <=? rb_max_size rb).
Proof.
  intros Hr Ht Hs. destruct (rh_pow _ _ Hr) as (j & k & m & Hj & Hk & Hi & Hsz & Hm). pose proof (zlen_nonneg q).
  unfold grown_size. rewrite (u64_id total) by lia. rewrite Hsz in *.
  destruct (double_until_reaches 64 ltac:(lia) total 63 doublings k) as (k' & Hk' & -> & Hle & Hlow); [lia|lia|lia|unfold doublings; lia|].
  exists k'. pose proof (pow2_le j k' ltac:(lia)). split_and!; try done; try lia. rewrite Hm.
  destruct (Z.leb_spec total (2 ^ m)) as [Hfit|Hbig]; [|apply Z.leb_gt; lia].
  apply Z.leb_le, pow2_le. destruct Hlow as [->|Hlow]; [lia|].
  assert (2 ^ (k' - 1) < 2 ^ m) as Hlt by lia. apply Z.pow_lt_mono_r_iff in Hlt; lia.
Qed.

Lemma write_holds rb q data : ring_holds rb q → zlen data ≤ 2 ^ 62 →
  let ok := write_accepted alloc rb (zlen q + zlen data) in
  ∃ rb', kith_ringbuf_write alloc data rb = Some (rb', if ok then 0 else -1) ∧
    ring_holds rb' (if ok then q ++ data else q) ∧ rb_max_size rb' = rb_max_size rb.
Proof.
  intros Hr Hd ok. pose proof (holds_fits _ _ Hr) as (Hf & Hpos & Hmax). pose proof (zlen_nonneg q). pose proof (zlen_nonneg data).
  unfold kith_ringbuf_write. destruct (rh_buf _ _ Hr) as (b & -> & _). rewrite (holds_space _ _ Hr).
  unfold ok, write_accepted. destruct (Z.eqb_spec (zlen data) 0) as [He|He].
  { assert (data = []) as -> by (destruct data; [done|]; unfold zlen in He; cbn in He; lia).
    rewrite (proj2 (Z.leb_le _ _)) by lia. rewrite app_nil_r. by exists rb. }
  destruct (Z.ltb_spec (rb_size rb - zlen q) (zlen data)) as [Hs|Hs].
  2: { rewrite (proj2 (Z.leb_le _ _)) by lia. eexists. split_and!; [done|apply store_holds; [done|lia]|done]. }
  rewrite (proj2 (Z.leb_gt (zlen q + zlen data) (rb_size rb))) by lia. cbn [orb].
  destruct (grown rb q (zlen q + zlen data) Hr) as (k & Hk & Hdu & -> & Hi & Hle & <-); [lia|lia|].
  rewrite (holds_used _ _ Hr), Hdu. cbn.
  pose proof (realloc_holds rb q Hr alloc k Ha Hk Hi ltac:(lia)) as Hre. destruct (_ && _).
  - destruct Hre as (rb' & -> & Hh & Hsz & _ & Hm). cbn. eexists. split_and!; [done| |done]. apply store_holds; [done|lia].
  - rewrite Hre. cbn. by exists rb.
Qed.

(** What is peeked starts the queue, and is empty only if the queue is. *)
Lemma peek_holds rb q : ring_holds rb q →
  ∃ rest, q = kith_ringbuf_peek rb ++ rest ∧ (kith_ringbuf_peek rb = [] → q = []).
Proof.
  intros Hr. pose proof (holds_fits _ _ Hr) as (Hf & Hpos & Hmax). pose proof (zlen_nonneg q).
  unfold kith_ringbuf_peek. destruct (rh_buf _ _ Hr) as (b & -> & Hz & Hq). rewrite (holds_used _ _ Hr) in *.
  destruct (Z.eqb_spec (zlen q) 0) as [He|He].
  { assert (q = []) as -> by (destruct q; [done|]; unfold zlen in He; cbn in He; lia). by exists []. }
  rewrite (holds_index _ _ Hr). pose proof (index_range _ _ Hr (rb_tail rb)) as Hix. rewrite <- Hz in *.
  set (i := rb_tail rb mod zlen b) in *. set (n := if zlen q <? zlen b - i then zlen q else zlen b - i).
  assert (0 < n ≤ zlen q ∧ n ≤ zlen b - i) as Hn by (unfold n; destruct (Z.ltb_spec (zlen q) (zlen b - i)); lia).
  rewrite bytes_at_ring by lia. exists (ring_bytes b (i + n) (zlen q - n)). split.
  - rewrite <- ring_bytes_app by lia. unfold i. rewrite ring_bytes_mod, Zplus_minus. done.
  - intros Hnil%(f_equal length). rewrite length_ring_bytes in Hnil. cbn in Hnil. lia.
Qed.

Lemma copy_holds rb q cap : ring_holds rb q → 0 ≤ cap → kith_ringbuf_copy cap rb = take (Z.to_nat cap) q.
Proof.
  intros Hr Hc. pose proof (holds_fits _ _ Hr) as (Hf & Hpos & Hmax). pose proof (zlen_nonneg q).
  unfold kith_ringbuf_copy. destruct (rh_buf _ _ Hr) as (b & -> & Hz & Hq). rewrite (holds_used _ _ Hr) in *.
  destruct (Z.eqb_spec cap 0) as [->|Hcap]; [done|]. destruct (Z.eqb_spec (zlen q) 0) as [He|He]; cbn [orb].
  { assert (q = []) as -> by (destruct q; [done|]; unfold zlen in He; cbn in He; lia). by rewrite take_nil. }
  rewrite (holds_index _ _ Hr). pose proof (index_range _ _ Hr (rb_tail rb)) as Hix. rewrite <- Hz in *.
  set (i := rb_tail rb mod zlen b) in *. set (n := if zlen q <? cap then zlen q else cap).
  assert (n = Z.min cap (zlen q)) as Hn by (unfold n; destruct (Z.ltb_spec (zlen q) cap); lia).
  assert (take (Z.to_nat cap) q = ring_bytes b i n) as ->.
  { unfold i. rewrite ring_bytes_mod. rewrite Hq at 1. replace (zlen q) with (n + (zlen q - n)) at 1 by lia.
    rewrite ring_bytes_app by lia. destruct (decide (cap ≤ zlen q)).
    - rewrite take_app_le, take_ge by (rewrite length_ring_bytes; lia). done.
    - rewrite take_ge by (rewrite length_app, !length_ring_bytes; lia). replace (zlen q - n) with 0 by lia. apply app_nil_r. }
  rewrite <- wrapped_read by lia. destruct (Z.leb_spec (i + n) (zlen b)); [rewrite Z.ltb_irrefl; apply app_nil_r|].
  by rewrite (proj2 (Z.ltb_lt _ _)) by lia.
Qed.

Lemma shrink_holds rb q : ring_holds rb q →
  ∃ rb' rc, kith_ringbuf_maybe_shrink alloc rb = Some (rb', rc) ∧ ring_holds rb' q ∧ rb_max_size rb' = rb_max_size rb ∧
    (rc = 0 ∨ rc = -1 ∧ ∃ n, zlen q ≤ n ∧ alloc n = None).
Proof.
  intros Hr. pose proof (holds_fits _ _ Hr) as (Hf & Hpos & Hmax). pose proof (zlen_nonneg q).
  unfold kith_ringbuf_maybe_shrink. destruct (rh_buf _ _ Hr) as (b & -> & _). rewrite (holds_used _ _ Hr).
  destruct (_ <=? _); [by exists rb, 0; eauto|]. destruct (Z.ltb_spec (rb_size rb / 4) (zlen q)) as [|Hq]; [by exists rb, 0; eauto|].
  destruct (rh_pow _ _ Hr) as (j & k & m & Hj & Hk & Hi & Hs & Hm). rewrite Hi.
  assert (zlen q * 2 ≤ 2 ^ k) as H2. { rewrite Hs in Hq. pose proof (Z.div_mod (2 ^ k) 4 ltac:(lia)). pose proof (Z.mod_pos_bound (2 ^ k) 4 ltac:(lia)). lia. }
  rewrite u64_id by lia. destruct (double_until_reaches 64 ltac:(lia) (zlen q * 2) k doublings j) as (k' & Hk' & -> & Hle & _);
    [lia|lia|done|unfold doublings; lia|]. cbn.
  destruct (_ <=? _); [by exists rb, 0; eauto|].
  pose proof (realloc_holds rb q Hr alloc k' Ha ltac:(lia) ltac:(rewrite Hi; apply pow2_le; lia) ltac:(lia)) as Hre.
  destruct (_ && _) eqn:Hcond.
  - destruct Hre as (rb' & -> & Hh & _ & _ & Hm'). exists rb', 0. eauto.
  - rewrite Hre. exists rb, (-1). split_and!; try done. right. split; [done|]. exists (2 ^ k'). split; [lia|].
    pose proof (pow2_le k' k ltac:(lia)). rewrite (proj2 (Z.leb_le _ _)) in Hcond by lia. cbn in Hcond.
    apply bool_decide_eq_false_1 in Hcond. by apply eq_None_not_Some.
Qed.
End Operations.

Lemma next_pow2_spec x : 1 ≤ x ≤ 2 ^ 62 →
  ∃ k, 0 ≤ k ≤ 62 ∧ next_pow2 x = Some (2 ^ k) ∧ x ≤ 2 ^ k ∧ (∀ m, 0 ≤ m → x ≤ 2 ^ m → 2 ^ k ≤ 2 ^ m).
Proof.
  intros Hx. unfold next_pow2. destruct (Z.leb_spec x 1).
  - exists 0. split_and!; [lia|lia|done|lia|]. intros m Hm _. apply pow2_le. lia.
  - destruct (double_until_reaches 64 ltac:(lia) x 62 doublings 0) as (k & Hk & Hd & Hle & Hlow); [lia|lia|lia|unfold doublings; lia|].
    exists k. split_and!; [lia|lia|done|done|]. intros m Hm Hxm. apply pow2_le. split; [lia|].
    destruct Hlow as [->|Hlow]; [lia|]. assert (2 ^ (k - 1) < 2 ^ m) as Hlt by lia. apply Z.pow_lt_mono_r_iff in Hlt; lia.
Qed.

Lemma init_holds alloc initial max : allocates alloc → 1 ≤ initial ≤ max → max ≤ 2 ^ 62 →
  kith_ringbuf_init alloc initial max = Some (inl (-1)) ∧ (∃ n, initial ≤ n ∧ alloc n = None) ∨
  ∃ rb, kith_ringbuf_init alloc initial max = Some (inr rb) ∧ ring_holds rb [] ∧ next_pow2 max = Some (rb_max_size rb).
Proof.
  intros Ha Hi Hm. unfold kith_ringbuf_init.
  rewrite (proj2 (Z.eqb_neq initial 0)), (proj2 (Z.eqb_neq max 0)), (proj2 (Z.ltb_ge max initial)) by lia. cbn [orb].
  destruct (next_pow2_spec initial) as (j & Hj & -> & Hij & Hleast); [lia|].
  destruct (next_pow2_spec max) as (m & Hmm & -> & Hmax & _); [lia|]. cbn.
  pose proof (Hleast m ltac:(lia) ltac:(lia)) as Hjm. rewrite (proj2 (Z.ltb_ge _ _)) by done.
  destruct (alloc (2 ^ j)) as [b|] eqn:Hb; [|by left; eauto]. right. eexists. split_and!; [done| |done]. apply Ha in Hb.
  assert (j ≤ m) by (apply Z.pow_le_mono_r_iff in Hjm; lia).
  pose proof (pow2_pos j ltac:(lia)). pose proof (pow2_le j 62 ltac:(lia)). constructor; cbn.
  - exists j, j, m. split_and!; (done || lia).
  - apply u64_id. lia.
  - lia.
  - lia.
  - change (0 ≤ 2 ^ j). lia.
  - exists b. done.
Qed.

(** ** Refinement of a bounded queue *)

Inductive ring_call :=
  | RbWrite (alloc : allocator) (data : bytes)
  | RbPeek
  | RbConsume (len : Z)
  | RbCopy (cap : Z)
  | RbShrink (alloc : allocator)
  | RbUsed.

Inductive ring_answer :=
  | Code (rc : Z)
  | View (bs : bytes)
  | Count (n : Z)
  | NoAnswer.

Definition ring_call_step (c : ring_call) (rb : kith_ringbuf) : option (kith_ringbuf * ring_answer) :=
  match c with
  | RbWrite alloc data => '(rb, rc) ← kith_ringbuf_write alloc data rb; Some (rb, Code rc)
  | RbPeek => Some (rb, View (kith_ringbuf_peek rb))
  | RbConsume len => Some (kith_ringbuf_consume len rb, NoAnswer)
  | RbCopy cap => Some (rb, View (kith_ringbuf_copy cap rb))
  | RbShrink alloc => '(rb, rc) ← kith_ringbuf_maybe_shrink alloc rb; Some (rb, Code rc)
  | RbUsed => Some (rb, Count (kith_ringbuf_used rb))
  end.

Fixpoint ring_calls (cs : list ring_call) (rb : kith_ringbuf) : option (kith_ringbuf * list ring_answer) :=
  match cs with
  | [] => Some (rb, [])
  | c :: cs =>
      '(rb, a) ← ring_call_step c rb;
      '(rb, answers) ← ring_calls cs rb;
      Some (rb, a :: answers)
  end.

(** What a queue of at most [max] bytes may answer, and the queue after. *)
Inductive queue_step (max : Z) (q : bytes) : ring_call → ring_answer → bytes → Prop :=
  | queue_write alloc data : zlen q + zlen data ≤ max → queue_step max q (RbWrite alloc data) (Code 0) (q ++ data)
  | queue_full alloc data : max < zlen q + zlen data → queue_step max q (RbWrite alloc data) (Code (-1)) q
  | queue_no_memory alloc data n : zlen q + zlen data ≤ n ≤ max → alloc n = None → queue_step max q (RbWrite alloc data) (Code (-1)) q
  | queue_peek bs rest : q = bs ++ rest → (bs = [] → q = []) → queue_step max q RbPeek (View bs) q
  | queue_consume len : queue_step max q (RbConsume len) NoAnswer (drop (Z.to_nat len) q)
  | queue_copy cap : queue_step max q (RbCopy cap) (View (take (Z.to_nat cap) q)) q
  | queue_shrink alloc : queue_step max q (RbShrink alloc) (Code 0) q
  | queue_no_shrink alloc n : zlen q ≤ n → alloc n = None → queue_step max q (RbShrink alloc) (Code (-1)) q
  | queue_used : queue_step max q RbUsed (Count (zlen q)) q.

Inductive queue_steps (max : Z) : bytes → list ring_call → list ring_answer → bytes → Prop :=
  | queue_done q : queue_steps max q [] [] q
  | queue_next q c a q1 cs answers q2 :
      queue_step max q c a q1 → queue_steps max q1 cs answers q2 → queue_steps max q (c :: cs) (a :: answers) q2.

Definition call_ok (c : ring_call) : Prop :=
  match c with
  | RbWrite alloc data => allocates alloc ∧ zlen data ≤ 2 ^ 62
  | RbConsume n | RbCopy n => 0 ≤ n
  | RbShrink alloc => allocates alloc
  | _ => True
  end.

Lemma accepted_queue alloc rb q data : ring_holds rb q →
  let ok := write_accepted alloc rb (zlen q + zlen data) in
  queue_step (rb_max_size rb) q (RbWrite alloc data) (Code (if ok then 0 else -1)) (if ok then q ++ data else q).
Proof.
  intros Hr. cbn. pose proof (holds_fits _ _ Hr). unfold write_accepted.
  destruct (Z.leb_spec (zlen q + zlen data) (rb_size rb)); cbn [orb]; [constructor; lia|].
  destruct (Z.leb_spec (zlen q + zlen data) (rb_max_size rb)); cbn [andb]; [|by constructor].
  case_bool_decide as Hs; [by constructor|]. pose proof (zlen_nonneg data).
  destruct (grown rb q (zlen q + zlen data) Hr) as (k & _ & _ & Hg & _ & Hle & Hk); [lia|lia|].
  apply queue_no_memory with (grown_size rb (zlen q + zlen data)); [|by apply eq_None_not_Some].
  rewrite Hg. apply Z.leb_le in H1. rewrite H1 in Hk. apply Z.leb_le in Hk. lia.
Qed.

Lemma step_refines rb q c : ring_holds rb q → call_ok c →
  ∃ rb' a q', ring_call_step c rb = Some (rb', a) ∧ queue_step (rb_max_size rb) q c a q' ∧
    ring_holds rb' q' ∧ rb_max_size rb' = rb_max_size rb.
Proof.
  intros Hr Hc. destruct c as [alloc data| |n|n|alloc|]; cbn [ring_call_step call_ok] in *.
  - destruct Hc as [Ha Hd]. destruct (write_holds alloc Ha rb q data Hr Hd) as (rb' & -> & Hh & Hm).
    do 3 eexists. split_and!; [done|by apply accepted_queue|done|done].
  - destruct (peek_holds rb q Hr) as (rest & Hq & Hnil). do 3 eexists. split_and!; [done|by econstructor|done|done].
  - do 3 eexists. split_and!; [done|constructor|by apply consume_holds|done].
  - do 3 eexists. split_and!; [done|rewrite (copy_holds rb q) by done; constructor|done|done].
  - destruct (shrink_holds alloc Hc rb q Hr) as (rb' & rc & -> & Hh & Hm & Hrc). do 3 eexists. split_and!; [done| |done|done].
    destruct Hrc as [->|(-> & n & Hn & Hnone)]; by econstructor.
  - do 3 eexists. split_and!; [done|rewrite (holds_used rb q) by done; constructor|done|done].
Qed.

Lemma calls_refine cs : ∀ rb q, ring_holds rb q → Forall call_ok cs →
  ∃ rb' answers q', ring_calls cs rb = Some (rb', answers) ∧ queue_steps (rb_max_size rb) q cs answers q' ∧ ring_holds rb' q'.
Proof.
  induction cs as [|c cs IH]; intros rb q Hr Hcs; [exists rb, [], q; split_and!; [done|apply queue_done|done]|]. apply Forall_cons in Hcs as [Hc Hcs]. cbn.
  destruct (step_refines rb q c Hr Hc) as (rb1 & a & q1 & -> & Hs & Hr1 & Hm1). cbn.
  destruct (IH rb1 q1 Hr1 Hcs) as (rb2 & answers & q2 & -> & Hss & Hr2). rewrite Hm1 in Hss. cbn.
  do 3 eexists. split_and!; [done|by econstructor|done].
Qed.


(** A write to a ring returns as long as what it holds and what is written are
    within 2^63 bytes together; beyond that, its doubling loop never ends. *)
Theorem write_returns alloc rb q data : ring_holds rb q → zlen q + zlen data < 2 ^ 64 →
  (zlen q + zlen data ≤ 2 ^ 63 → ∃ rb' rc, kith_ringbuf_write alloc data rb = Some (rb', rc)) ∧
  (2 ^ 63 < zlen q + zlen data →
   ∀ fuel, double_until 64 fuel (rb_size rb) (u64 (kith_ringbuf_used rb + zlen data)) = None).
Proof.
  intros Hr Ht. pose proof (holds_fits _ _ Hr) as (Hf & Hpos & _). pose proof (zlen_nonneg q). pose proof (zlen_nonneg data).
  rewrite (holds_used _ _ Hr). split; intros Hle.
  - unfold kith_ringbuf_write. destruct (rh_buf _ _ Hr) as (b & -> & _). destruct (_ =? _); [eauto|].
    rewrite (holds_space _ _ Hr). destruct (Z.ltb_spec (rb_size rb - zlen q) (zlen data)); [|eauto].
    destruct (grown rb q (zlen q + zlen data) Hr) as (k & _ & Hd & _); [lia|lia|]. rewrite (holds_used _ _ Hr), Hd. cbn.
    destruct (ringbuf_realloc _ _ _) as [rb' rc]. destruct (negb _); eauto.
  - intros fuel. rewrite u64_id by lia. destruct (rh_pow _ _ Hr) as (j & k & m & Hj & Hk & _ & -> & _).
    apply double_until_diverges; lia.
Qed.
