(* ===== verification/NetConn.v ===== *)
(** * Connections of the transport ([src/src/net/conn.c], [src/src/net/net.c])

    The read path (socket to ring to decoder to callback), the write path
    (queue to [writev]) and the transport's parameters and connection table.
    A system call is an element of a script, the list of its results: an
    exhausted script would block.  Handles are not null and locking succeeds;
    what the allocator serves is a parameter of each call. *)

From S2P Require Import Prelude PyStruct PyWire Proto CWords RingBuffer.

#[local] Open Scope Z_scope.

Definition KITH_EIO : Z := 12.
Definition KITH_ECONNRESET : Z := 14.

Definition KITH_NET_READ_SCRATCH : Z := 256.
Definition KITH_NET_READ_CHUNK : Z := 8192.
Definition KITH_NET_WRITE_BATCH : nat := 64.
Definition KITH_NET_MIN_READ_BUF_MAX : Z := 8 * 1024.
Definition KITH_NET_IN : Z := 1.
Definition KITH_NET_OUT : Z := 2.

(** ** Parameters *)

Record kith_net_params := mkNetParams {
  np_max_connections : Z;
  np_read_buffer_initial : Z;
  np_read_buffer_max : Z;
  np_in_high_water : Z;
  np_in_low_water : Z;
  np_out_high_water : Z;
  np_out_low_water : Z;
  np_out_drain_cap : Z;
}.

Record kith_conn_cfg := mkConnCfg {
  cc_rb_initial : Z;
  cc_rb_max : Z;
  cc_in_high_water : Z;
  cc_in_low_water : Z;
  cc_out_high_water : Z;
  cc_out_low_water : Z;
  cc_out_drain_cap : Z;
}.

Definition resolve_cfg_field (value fallback : Z) : Z := if value =? 0 then fallback else value.

Definition build_conn_cfg (params : kith_net_params) : kith_conn_cfg :=
  mkConnCfg (resolve_cfg_field (np_read_buffer_initial params) (4 * 1024))
    (resolve_cfg_field (np_read_buffer_max params) (256 * 1024))
    (resolve_cfg_field (np_in_high_water params) (192 * 1024))
    (resolve_cfg_field (np_in_low_water params) (96 * 1024))
    (resolve_cfg_field (np_out_high_water params) (256 * 1024))
    (resolve_cfg_field (np_out_low_water params) (128 * 1024))
    (if negb (np_out_drain_cap params =? 0) then np_out_drain_cap params else 64 * 1024).

(** ** A connection *)

(** A queued frame and how much of it has been written. *)
Record kith_net_out_item := mkOutItem { oi_frame : bytes; oi_offset : Z }.

Record kith_net_conn := mkConn {
  nc_inbuf : kith_ringbuf;
  nc_outq : list kith_net_out_item;
  nc_outq_bytes : Z;
  nc_read_blocked : bool;
  nc_closed : bool;
  nc_fd : Z;
  nc_cfg : kith_conn_cfg;
}.

(** What connections share: the decoder and the counters. *)
Record transport := mkTransport {
  tr_proto : proto;
  tr_rejections : Z;
  tr_write_deferrals : Z;
}.

Definition set_inbuf (rb : kith_ringbuf) (c : kith_net_conn) : kith_net_conn :=
  mkConn rb (nc_outq c) (nc_outq_bytes c) (nc_read_blocked c) (nc_closed c) (nc_fd c) (nc_cfg c).
Definition set_outq (q : list kith_net_out_item) (n : Z) (c : kith_net_conn) : kith_net_conn :=
  mkConn (nc_inbuf c) q n (nc_read_blocked c) (nc_closed c) (nc_fd c) (nc_cfg c).
Definition set_read_blocked (b : bool) (c : kith_net_conn) : kith_net_conn :=
  mkConn (nc_inbuf c) (nc_outq c) (nc_outq_bytes c) b (nc_closed c) (nc_fd c) (nc_cfg c).
Definition set_proto (p : proto) (t : transport) : transport := mkTransport p (tr_rejections t) (tr_write_deferrals t).

Definition kith_net_count_rejection (t : transport) : transport :=
  mkTransport (tr_proto t) (u64 (tr_rejections t + 1)) (tr_write_deferrals t).
Definition kith_net_count_write_deferral (t : transport) : transport :=
  mkTransport (tr_proto t) (tr_rejections t) (u64 (tr_write_deferrals t + 1)).

(** [None]: the call does not return. *)
Definition kith_conn_create (alloc : allocator) (fd : Z) (cfg : kith_conn_cfg) : option (option kith_net_conn) :=
  if fd <? 0 then Some None else
  r ← kith_ringbuf_init alloc (cc_rb_initial cfg) (cc_rb_max cfg);
  Some (match r with inl _ => None | inr rb => Some (mkConn rb [] 0 false false fd cfg) end).

(** The connection's part of [kith_net_conn_close]; [net_close] adds the table. *)
Definition kith_net_conn_close (c : kith_net_conn) : kith_net_conn :=
  if nc_closed c then c
  else mkConn (nc_inbuf c) (nc_outq c) (nc_outq_bytes c) (nc_read_blocked c) true (-1) (nc_cfg c).

Definition desired_in_events (c : kith_net_conn) : Z := if nc_read_blocked c then 0 else KITH_NET_IN.

(** ** The write queue *)

(** [mem]: the item is allocated. *)
Definition kith_net_conn_enqueue (mem : bool) (frame : bytes) (c : kith_net_conn) : kith_net_conn * Z :=
  if nc_closed c then (c, - KITH_ESTATE)
  else if cc_out_high_water (nc_cfg c) <=? nc_outq_bytes c then (c, - KITH_EAGAIN)
  else if negb mem then (c, - KITH_ENOMEM)
  else
    let next_bytes := u64 (nc_outq_bytes c + zlen frame) in
    let next_bytes := if next_bytes <? nc_outq_bytes c then 2 ^ 64 - 1 else next_bytes in
    (set_outq (nc_outq c ++ [mkOutItem frame 0]) next_bytes c, 0).

(** The bytes of an item not yet written: [rem] of them. *)
Definition item_rem (i : kith_net_out_item) : Z :=
  if oi_offset i <? zlen (oi_frame i) then zlen (oi_frame i) - oi_offset i else 0.
Definition item_rest (i : kith_net_out_item) : bytes := bytes_at (oi_offset i) (item_rem i) (oi_frame i).

(** At most [n] more vectors; written items take none. *)
Fixpoint build_writev_batch (n : nat) (outq : list kith_net_out_item) : list bytes :=
  match n, outq with
  | O, _ | _, [] => []
  | S n', i :: outq =>
      if item_rem i =? 0 then build_writev_batch n outq else item_rest i :: build_writev_batch n' outq
  end.

Fixpoint advance_outq (outq : list kith_net_out_item) (outq_bytes remaining : Z) : list kith_net_out_item * Z :=
  match outq with
  | [] => ([], outq_bytes)
  | head :: rest =>
      if remaining =? 0 then (outq, outq_bytes) else
      let frame_len := zlen (oi_frame head) in
      let rem := item_rem head in
      let sent := if rem <? remaining then rem else remaining in
      let offset := oi_offset head + sent in
      if frame_len <=? offset then
        let dec := if frame_len <=? outq_bytes then frame_len else outq_bytes in
        advance_outq rest (outq_bytes - dec) (remaining - sent)
      else (mkOutItem (oi_frame head) offset :: rest, outq_bytes)
  end.

Definition advance_outq_after_write (written : Z) (c : kith_net_conn) : kith_net_conn :=
  let '(q, n) := advance_outq (nc_outq c) (nc_outq_bytes c) written in set_outq q n c.

(** [Room n]: the socket takes [n] bytes, or all it is given if that is less. *)
Inductive writev_result :=
  | Room (n : nat)
  | WriteAgain
  | WriteInterrupted
  | WriteError.

(** The connection, the bytes that went out, the return code and
    [out_capped]. *)
Fixpoint conn_write_drain (script : list writev_result) (c : kith_net_conn) (written_total : Z)
    : kith_net_conn * bytes * Z * bool :=
  match nc_outq c with
  | [] => (c, [], 0, false)
  | _ =>
      let iov := build_writev_batch KITH_NET_WRITE_BATCH (nc_outq c) in
      match iov, script with
      | [], _ | _, [] | _, WriteAgain :: _ => (c, [], 0, false)
      | _, WriteInterrupted :: script => conn_write_drain script c written_total
      | _, WriteError :: _ => (c, [], - KITH_EIO, false)
      | _, Room room :: script =>
          let n := Z.min (Z.of_nat room) (zlen (concat iov)) in
          if n =? 0 then (c, [], 0, false) else
          let out := take (Z.to_nat n) (concat iov) in
          let c := advance_outq_after_write n c in
          let written_total := u64 (written_total + n) in
          if negb (cc_out_drain_cap (nc_cfg c) =? UINT32_MAX) && (cc_out_drain_cap (nc_cfg c) <=? written_total)
          then (c, out, 0, true)
          else let '(c, out', rc, capped) := conn_write_drain script c written_total in (c, out ++ out', rc, capped)
      end
  end.

Definition kith_net_conn_write (script : list writev_result) (c : kith_net_conn) (t : transport)
    : kith_net_conn * transport * bytes * Z :=
  if nc_closed c || (nc_fd c <? 0) then (c, t, [], - KITH_ESTATE) else
  let '(c, out, rc, capped) := conn_write_drain script c 0 in
  let t := if capped && negb (bool_decide (length (nc_outq c) = O)) then kith_net_count_write_deferral t else t in
  if negb (rc =? 0) then (kith_net_conn_close c, t, out, rc) else (c, t, out, 0).

Definition kith_net_conn_events (c : kith_net_conn) : Z :=
  Z.lor (desired_in_events c) (match nc_outq c with [] => 0 | _ => KITH_NET_OUT end).

(** ** Reading *)

Definition leading_frame_total (c : kith_net_conn) : Z :=
  let peeked := kith_ringbuf_peek (nc_inbuf c) in
  if KITH_PROTO_HDR_SIZE <=? zlen peeked then
    match kith_proto_declared_total peeked with inl _ => 0 | inr total => total end
  else if kith_ringbuf_used (nc_inbuf c) <? KITH_PROTO_HDR_SIZE then 0
  else match kith_proto_declared_total (kith_ringbuf_copy KITH_PROTO_HDR_SIZE (nc_inbuf c)) with inl _ => 0 | inr total => total end.

Definition finish_partial_frame (c : kith_net_conn) (decode_buf : bytes) (t : transport) : transport * Z :=
  let overflow :=
    (KITH_PROTO_HDR_SIZE <=? zlen decode_buf) &&
    match kith_proto_declared_total decode_buf with inl _ => false | inr total => cc_rb_max (nc_cfg c) <? total end in
  if overflow then (kith_net_count_rejection t, - KITH_EPROTO) else (t, 0).

Definition input_pause_at (c : kith_net_conn) : Z :=
  let pause_at := cc_in_high_water (nc_cfg c) in
  let total := leading_frame_total c in
  let pause_at := if pause_at <? total then total else pause_at in
  if cc_rb_max (nc_cfg c) <? pause_at then cc_rb_max (nc_cfg c) else pause_at.

Inductive recv_result :=
  | Received (chunk : bytes)
  | RecvAgain
  | RecvInterrupted
  | RecvError
  | EndOfStream.

Fixpoint recv_into_ringbuf (alloc : allocator) (script : list recv_result) (c : kith_net_conn) (t : transport)
    : option (kith_net_conn * transport * Z) :=
  match script with
  | [] | RecvAgain :: _ => Some (c, t, 0)
  | RecvInterrupted :: script => recv_into_ringbuf alloc script c t
  | RecvError :: _ => Some (c, t, - KITH_EIO)
  | EndOfStream :: _ => Some (c, t, - KITH_ECONNRESET)
  | Received chunk :: script =>
      '(rb, rc) ← kith_ringbuf_write alloc chunk (nc_inbuf c);
      let c := set_inbuf rb c in
      if negb (rc =? 0) then
        if cc_rb_max (nc_cfg c) <? leading_frame_total c then Some (c, kith_net_count_rejection t, - KITH_EPROTO)
        else Some (c, t, - KITH_ENOMEM)
      else recv_into_ringbuf alloc script c t
  end.

(** What a callback may do to the connection it is called for. *)
Inductive cb_action :=
  | Enqueue (mem : bool) (frame : bytes)
  | Close.

Definition cb_act (c : kith_net_conn) (a : cb_action) : kith_net_conn :=
  match a with
  | Enqueue mem frame => fst (kith_net_conn_enqueue mem frame c)
  | Close => kith_net_conn_close c
  end.

Section Callback.
Context {U : Type} (on_message : frame → U → U * list cb_action).

(** The bytes handed to the decoder: the peeked region, or the whole content
    gathered into a scratch buffer when it wraps.  [None]: no memory. *)
Definition decode_buffer (alloc : allocator) (rb : kith_ringbuf) : option bytes :=
  let peeked := kith_ringbuf_peek rb in
  let total_used := kith_ringbuf_used rb in
  if zlen peeked <? total_used then
    if KITH_NET_READ_SCRATCH <? total_used then
      _ ← alloc total_used; Some (kith_ringbuf_copy total_used rb)
    else Some (kith_ringbuf_copy KITH_NET_READ_SCRATCH rb)
  else Some peeked.

(** After the callback: consume the frame, release the pause, shrink. *)
Definition consume_frame (alloc : allocator) (consumed : Z) (c : kith_net_conn) : option kith_net_conn :=
  let c := set_inbuf (kith_ringbuf_consume consumed (nc_inbuf c)) c in
  let c := if kith_ringbuf_used (nc_inbuf c) <=? cc_in_low_water (nc_cfg c) then set_read_blocked false c else c in
  '(rb, _) ← kith_ringbuf_maybe_shrink alloc (nc_inbuf c);
  Some (set_inbuf rb c).

(** [None]: still running after [fuel] turns, or a call does not return. *)
Fixpoint deliver_frames (fuel : nat) (alloc : allocator) (c : kith_net_conn) (t : transport) (u : U)
    : option (kith_net_conn * transport * U * Z) :=
  match fuel with
  | O => None
  | S fuel =>
      if nc_closed c then Some (c, t, u, 0) else
      if bool_decide (length (kith_ringbuf_peek (nc_inbuf c)) = O) then Some (c, t, u, 0) else
      match decode_buffer alloc (nc_inbuf c) with
      | None => Some (c, t, u, - KITH_ENOMEM)
      | Some buf =>
          let '(p, r) := kith_proto_decode (tr_proto t) buf in
          let t := set_proto p t in
          match r with
          | inl rc =>
              if rc =? - KITH_EAGAIN then let '(t, rc) := finish_partial_frame c buf t in Some (c, t, u, rc)
              else Some (c, t, u, rc)
          | inr (f, consumed) =>
              let '(u, actions) := on_message f u in
              c ← consume_frame alloc consumed (foldl cb_act c actions);
              deliver_frames fuel alloc c t u
          end
      end
  end.

(** Every turn takes at least a header. *)
Definition kith_net_conn_read (alloc : allocator) (script : list recv_result) (c : kith_net_conn) (t : transport) (u : U)
    : option (kith_net_conn * transport * U * Z) :=
  if nc_closed c then Some (c, t, u, - KITH_ESTATE) else
  '(c, t, rr) ← recv_into_ringbuf alloc script c t;
  if negb (rr =? 0) then Some (kith_net_conn_close c, t, u, rr) else
  '(c, t, u, dr) ← deliver_frames (S (Z.to_nat (kith_ringbuf_used (nc_inbuf c)))) alloc c t u;
  if negb (dr =? 0) then Some (kith_net_conn_close c, t, u, dr) else
  let c := if input_pause_at c <=? kith_ringbuf_used (nc_inbuf c) then set_read_blocked true c else c in
  Some (c, t, u, 0).
End Callback.

(** ** The connection table ([src/src/net/net.c])

    A dense array of connections; each knows its index so that closing it
    swaps the last one into its place.  A handle stands for the pointer. *)

Record table_entry := mkEntry {
  te_conn_id : Z;
  te_table_index : Z;
  te_closed : bool;
}.

Record conn_table := mkTable {
  ct_conns : list (option nat);
  ct_conn_count : Z;
  ct_conn_cap : Z;
  ct_next_conn_id : Z;
  ct_entries : list table_entry;  (* by handle, in order of creation *)
}.

Definition net_table (max_connections : Z) : conn_table :=
  let cap := resolve_cfg_field max_connections 4096 in
  mkTable (replicate (Z.to_nat cap) None) 0 cap 1 [].

Definition set_index (h : nat) (i : Z) (es : list table_entry) : list table_entry :=
  alter (λ e, mkEntry (te_conn_id e) i (te_closed e)) h es.

(** What [accept4] gives: a socket, with whether [kith_conn_create] makes a
    connection of it, or its [errno]. *)
Inductive accept_result := Accepted (created : bool) | NonePending | AcceptInterrupted | AcceptFails.

Definition kith_net_accept (listening : bool) (a : accept_result) (t : conn_table) : conn_table * (Z + nat) :=
  if negb listening then (t, inl (- KITH_ESTATE)) else
  match a with
  | NonePending | AcceptInterrupted => (t, inl (- KITH_EAGAIN))
  | AcceptFails => (t, inl (- KITH_EIO))
  | Accepted created =>
      if ct_conn_cap t <=? ct_conn_count t then (t, inl (- KITH_EBUSY)) else
      let conn_id := ct_next_conn_id t in
      let next := (conn_id + 1) mod 2 ^ 32 in
      let index := ct_conn_count t in
      if negb created then (mkTable (ct_conns t) (ct_conn_count t) (ct_conn_cap t) next (ct_entries t), inl (- KITH_ENOMEM)) else
      let h := length (ct_entries t) in
      (mkTable (<[Z.to_nat index := Some h]> (ct_conns t)) (ct_conn_count t + 1) (ct_conn_cap t)
         next (ct_entries t ++ [mkEntry conn_id index false]), inr h)
  end.

Definition kith_net_table_remove (index : Z) (t : conn_table) : conn_table :=
  if ct_conn_count t <=? index then t else
  let last := ct_conn_count t - 1 in
  let moved := mjoin (ct_conns t !! Z.to_nat last) in
  let '(conns, entries) :=
    if negb (index =? last) then
      (<[Z.to_nat index := moved]> (ct_conns t),
       match moved with Some m => set_index m index (ct_entries t) | None => ct_entries t end)
    else (ct_conns t, ct_entries t) in
  mkTable (<[Z.to_nat last := None]> conns) (ct_conn_count t - 1) (ct_conn_cap t) (ct_next_conn_id t) entries.

(** The table's part of [kith_net_conn_close]. *)
Definition net_close (h : nat) (t : conn_table) : conn_table :=
  match ct_entries t !! h with
  | None => t
  | Some e =>
      if te_closed e then t else
      let t := mkTable (ct_conns t) (ct_conn_count t) (ct_conn_cap t) (ct_next_conn_id t)
                 (<[h := mkEntry (te_conn_id e) (te_table_index e) true]> (ct_entries t)) in
      if negb (te_table_index e =? UINT32_MAX) then
        let t := kith_net_table_remove (te_table_index e) t in
        mkTable (ct_conns t) (ct_conn_count t) (ct_conn_cap t) (ct_next_conn_id t) (set_index h UINT32_MAX (ct_entries t))
      else t
  end.

(** The sweep of [kith_net_destroy], from index [i - 1] down. *)
Fixpoint net_destroy (i : nat) (t : conn_table) : conn_table :=
  match i with
  | O => t
  | S i =>
      let t := match mjoin (ct_conns t !! i) with
               | None => t
               | Some h =>
                   let t := net_close h t in
                   mkTable (<[i := None]> (ct_conns t)) (ct_conn_count t) (ct_conn_cap t) (ct_next_conn_id t) (ct_entries t)
               end in
      net_destroy i t
  end.

Definition kith_net_destroy (t : conn_table) : conn_table := net_destroy (Z.to_nat (ct_conn_count t)) t.
