(* ===== verification/NetTheorems.v ===== *)
(** * Connections deliver what their peers send

    However the bytes of a stream of frames are cut into reads and receive
    calls, the callback sees exactly the frames, in order; what is enqueued
    goes out unchanged, in order, whatever [writev] accepts. *)

From S2P Require Import Prelude PyStruct PyWire Proto ProtoTheorems CWords RingBuffer NetConn.

#[local] Open Scope Z_scope.
#[local] Arguments wire_of : simpl never.

(** ** Frames in the ring *)

(** All the bytes of a stream of frames. *)
Definition stream_of (fs : list frame) : bytes := concat (wire_of <$> fs).

Lemma stream_cons f fs : stream_of (f :: fs) = wire_of f ++ stream_of fs.
Proof. done. Qed.

(** A frame of which [part] has arrived, if anything. *)
Definition partial_of (p : proto) (limit : Z) (part : bytes) : Prop :=
  part = [] ∨ ∃ g k, accepts p g ∧ zlen (wire_of g) ≤ limit ∧ (k < length (wire_of g))%nat ∧ part = take k (wire_of g).

Lemma declared_prefix p g k : accepts p g → pr_max_payload p ≤ UINT32_MAX → (10 ≤ k)%nat →
  kith_proto_declared_total (take k (wire_of g)) = inr (zlen (wire_of g)).
Proof.
  intros (Hok & _ & Hw) Hp Hk. unfold kith_proto_declared_total.
  assert (take k (wire_of g) = header_bytes (fm_flags g) (fm_type_id g) (wire_len g) ++ take (k - 10) (fm_payload g ++ trailer_of g)) as ->.
  { unfold wire_of. rewrite take_app_ge by (rewrite length_header; lia). by rewrite length_header. }
  destruct Hok as [Ht Hf _ _]. pose proof (wire_len_nonneg g). unfold UINT32_MAX in Hp.
  rewrite parse_header_header by lia. by rewrite zlen_wire.
Qed.

Lemma zlen_take {A} k (l : list A) : (k ≤ length l)%nat → zlen (take k l) = Z.of_nat k.
Proof. intros. unfold zlen. rewrite length_take. lia. Qed.

Lemma peek_nil rb q : ring_holds rb q → bool_decide (length (kith_ringbuf_peek rb) = O) = bool_decide (q = []).
Proof.
  intros Hr. destruct (peek_holds rb q Hr) as (rest & Hq & Hnil). apply bool_decide_ext. split.
  - intros Hl. apply Hnil. by apply nil_length_inv.
  - intros ->. symmetry in Hq. by apply app_nil in Hq as [-> _].
Qed.

(** The decoder sees the whole content, wrapped or not. *)
Lemma decode_buffer_holds alloc rb q : ring_holds rb q → is_Some (alloc (zlen q)) → decode_buffer alloc rb = Some q.
Proof.
  intros Hr [x Hx]. unfold decode_buffer. destruct (peek_holds rb q Hr) as (rest & Hq & _). rewrite (holds_used rb q Hr).
  pose proof (zlen_nonneg q). destruct (Z.ltb_spec (zlen (kith_ringbuf_peek rb)) (zlen q)) as [Hlt|Hge].
  - destruct (Z.ltb_spec KITH_NET_READ_SCRATCH (zlen q)) as [|Hs]; [rewrite Hx; cbn|]; f_equal.
    all: rewrite (copy_holds rb q) by (done || lia); apply take_ge; unfold zlen, KITH_NET_READ_SCRATCH in *; lia.
  - f_equal. apply (f_equal zlen) in Hq as Hl. rewrite zlen_app in Hl. destruct rest as [|b rest]; [by rewrite app_nil_r in Hq|].
    unfold zlen in *. cbn in *. lia.
Qed.

Lemma leading_partial p c limit part : ring_holds (nc_inbuf c) part → pr_max_payload p ≤ UINT32_MAX → partial_of p limit part →
  zlen part < 10 ∧ leading_frame_total c = 0 ∨ zlen part < leading_frame_total c ≤ limit.
Proof.
  intros Hr Hp Hpart. unfold leading_frame_total. destruct (peek_holds _ _ Hr) as (rest & Hq & _).
  pose proof (f_equal zlen Hq) as Hl. rewrite zlen_app in Hl. pose proof (zlen_nonneg rest). unfold KITH_PROTO_HDR_SIZE.
  rewrite (holds_used _ _ Hr), (copy_holds _ part) by (done || lia). destruct (Z.lt_ge_cases (zlen part) 10) as [Hs|Hs].
  { left. split; [done|]. rewrite (proj2 (Z.leb_gt _ _)), (proj2 (Z.ltb_lt _ _)) by lia. done. }
  right. destruct Hpart as [->|(g & k & Hg & Hlim & Hk & Hpk)]; [done|].
  assert (zlen part = Z.of_nat k) as Hz by (rewrite Hpk; apply zlen_take; lia).
  destruct (Z.leb_spec 10 (zlen (kith_ringbuf_peek (nc_inbuf c)))) as [Hge|Hlt].
  - assert (kith_ringbuf_peek (nc_inbuf c) = take (length (kith_ringbuf_peek (nc_inbuf c))) (wire_of g)) as ->.
    { apply (f_equal (take (length (kith_ringbuf_peek (nc_inbuf c))))) in Hq. rewrite take_app_length in Hq.
      rewrite Hpk, take_take in Hq. rewrite <- Hq at 1. f_equal. unfold zlen in *. lia. }
    rewrite (declared_prefix p) by (done || (unfold zlen in *; lia)). unfold zlen in *. lia.
  - rewrite (proj2 (Z.ltb_ge _ _)) by lia. rewrite Hpk, take_take, Nat.min_l by lia.
    rewrite (declared_prefix p), zlen_take by (done || lia). unfold zlen in *. lia.
Qed.

(** A stream cut anywhere: whole frames and part of the next. *)
Definition begins (todo : list frame) (part : bytes) : Prop :=
  match todo with [] => part = [] | g :: _ => ∃ k, (k < length (wire_of g))%nat ∧ part = take k (wire_of g) end.

Lemma begins_partial p limit todo part : Forall (λ f, accepts p f ∧ zlen (wire_of f) ≤ limit) todo → begins todo part →
  partial_of p limit part.
Proof. destruct todo as [|g todo]; [by left|]. intros [[Ha Hl] _]%Forall_cons (k & Hk & ->). right. by exists g, k. Qed.

(** Nothing is missing: everything has arrived. *)
Lemma begins_all todo part : begins todo part → part = stream_of todo → todo = [].
Proof.
  destruct todo as [|g todo]; [done|]. intros (k & Hk & ->) Heq%(f_equal length).
  rewrite stream_cons, length_app, length_take in Heq. lia.
Qed.

Lemma cut_stream fs : ∀ s rest, s ++ rest = stream_of fs →
  ∃ dn todo part, fs = dn ++ todo ∧ s = stream_of dn ++ part ∧ part ++ rest = stream_of todo ∧ begins todo part.
Proof.
  induction fs as [|f fs IH]; intros s rest Hs.
  { apply app_nil in Hs as [-> ->]. by exists [], [], []. }
  rewrite stream_cons in Hs. destruct (Nat.lt_ge_cases (length s) (length (wire_of f))) as [Hlt|Hge].
  - exists [], (f :: fs), s. split_and!; [done|done|done|]. exists (length s). split; [done|].
    apply (f_equal (take (length s))) in Hs. rewrite take_app_length, take_app_le in Hs by lia. done.
  - assert (s = wire_of f ++ drop (length (wire_of f)) s) as Hsp.
    { rewrite <- (take_drop (length (wire_of f)) s) at 1. f_equal. apply (f_equal (take (length (wire_of f)))) in Hs.
      by rewrite take_app_length, take_app_le in Hs by lia. }
    rewrite Hsp, <- app_assoc in Hs. apply app_inv_head in Hs.
    destruct (IH _ _ Hs) as (dn & todo & part & -> & Hd & Ht & Hp). exists (f :: dn), todo, part.
    split_and!; [done| |done|done]. rewrite Hsp, Hd, stream_cons. by rewrite app_assoc.
Qed.

Lemma stream_app fs gs : stream_of (fs ++ gs) = stream_of fs ++ stream_of gs.
Proof. unfold stream_of. by rewrite fmap_app, concat_app. Qed.

Lemma stream_length fs : 10 * Z.of_nat (length fs) ≤ zlen (stream_of fs).
Proof.
  induction fs as [|f fs IH]; [done|]. rewrite stream_cons, zlen_app, zlen_wire. pose proof (wire_len_nonneg f). cbn [length]. lia.
Qed.

(** ** Delivery *)

(** An allocator that serves every request. *)
Definition serves (alloc : allocator) : Prop := allocates alloc ∧ ∀ n, 0 ≤ n → is_Some (alloc n).

Definition closes (actions : list cb_action) : bool := existsb (λ a, match a with Close => true | _ => false end) actions.

(** What two states of a connection share while it is read. *)
Record same_reader (c c' : kith_net_conn) : Prop := {
  sr_cfg : nc_cfg c' = nc_cfg c;
  sr_max : rb_max_size (nc_inbuf c') = rb_max_size (nc_inbuf c);
  sr_open : nc_read_blocked c = false → nc_read_blocked c' = false;
}.

#[global] Instance same_reader_refl : Reflexive same_reader.
Proof. by intros c. Qed.

#[global] Instance same_reader_trans : Transitive same_reader.
Proof. intros c1 c2 c3 [? ? ?] [? ? ?]. split; [congruence|congruence|auto]. Qed.

Lemma act_keeps c a : nc_inbuf (cb_act c a) = nc_inbuf c ∧ nc_cfg (cb_act c a) = nc_cfg c ∧
  nc_read_blocked (cb_act c a) = nc_read_blocked c ∧
  nc_closed (cb_act c a) = nc_closed c || match a with Close => true | _ => false end.
Proof.
  destruct a as [mem frame|]; cbn; unfold kith_net_conn_enqueue, kith_net_conn_close.
  - rewrite orb_false_r. by repeat case_match.
  - by destruct (nc_closed c) eqn:E; cbn; rewrite ?E.
Qed.

Lemma acts_keep actions : ∀ c, let c' := foldl cb_act c actions in
  nc_inbuf c' = nc_inbuf c ∧ nc_closed c' = nc_closed c || closes actions ∧ same_reader c c'.
Proof.
  induction actions as [|a actions IH]; intros c; [by rewrite orb_false_r|]. cbn [foldl].
  destruct (act_keeps c a) as (Hi & Hc & Hb & Hcl). destruct (IH (cb_act c a)) as (Hi' & Hcl' & Hs).
  split_and!; [congruence| |]. { rewrite Hcl', Hcl. cbn. by rewrite orb_assoc. }
  etrans; [|exact Hs]. split; congruence.
Qed.

Lemma consume_frame_holds alloc n c q : serves alloc → ring_holds (nc_inbuf c) q → 0 ≤ n →
  ∃ c', consume_frame alloc n c = Some c' ∧ ring_holds (nc_inbuf c') (drop (Z.to_nat n) q) ∧
    nc_closed c' = nc_closed c ∧ same_reader c c'.
Proof.
  intros [Ha _] Hr Hn. unfold consume_frame. set (rb1 := kith_ringbuf_consume n (nc_inbuf c)).
  assert (ring_holds rb1 (drop (Z.to_nat n) q)) as H1 by by apply consume_holds.
  set (c1 := if _ <=? _ then _ else _). assert (nc_inbuf c1 = rb1 ∧ nc_closed c1 = nc_closed c ∧ same_reader c c1) as (Hi & Hc & Hs).
  { unfold c1. destruct (_ <=? _); by split_and!. }
  rewrite Hi. destruct (shrink_holds alloc Ha rb1 _ H1) as (rb2 & rc & -> & H2 & Hm & _). cbn. eexists.
  split_and!; [done|done|done|]. etrans; [exact Hs|]. split; cbn; [done|by rewrite Hi|done].
Qed.

Section Deliver.
Context {U : Type} (on_message : frame → U → U * list cb_action).

(** The callback on each frame until it closes the connection: its state,
    whether it did, and the frames left. *)
Fixpoint callbacks (fs : list frame) (u : U) : U * bool * list frame :=
  match fs with
  | [] => (u, false, [])
  | f :: fs => let '(u, actions) := on_message f u in if closes actions then (u, true, fs) else callbacks fs u
  end.

Context (alloc : allocator) (Halloc : serves alloc).

Lemma set_proto_same t : set_proto (tr_proto t) t = t.
Proof. by destruct t. Qed.

(** With no whole frame in the ring the loop stops. *)
Lemma deliver_partial fuel c t u part : ring_holds (nc_inbuf c) part → pr_max_payload (tr_proto t) ≤ UINT32_MAX →
  partial_of (tr_proto t) (cc_rb_max (nc_cfg c)) part → deliver_frames on_message (S fuel) alloc c t u = Some (c, t, u, 0).
Proof.
  intros Hr Hp Hpart. cbn [deliver_frames]. destruct (nc_closed c); [done|]. rewrite (peek_nil _ _ Hr). case_bool_decide as Hnil; [done|].
  destruct Hpart as [->|(g & k & Hg & Hlim & Hk & ->)]; [done|].
  rewrite (decode_buffer_holds alloc _ _ Hr) by (apply Halloc; apply zlen_nonneg).
  rewrite decode_prefix, set_proto_same, Z.eqb_refl by done. unfold finish_partial_frame, KITH_PROTO_HDR_SIZE.
  destruct (Z.leb_spec 10 (zlen (take k (wire_of g)))) as [H10|]; cbn [andb]; [|done].
  rewrite (declared_prefix (tr_proto t)); [|done|done|rewrite zlen_take in H10; lia].
  by rewrite (proj2 (Z.ltb_ge _ _)).
Qed.

Lemma deliver_exact fs : ∀ fuel c t u part, (length fs < fuel)%nat → ring_holds (nc_inbuf c) (stream_of fs ++ part) →
  nc_closed c = false → pr_max_payload (tr_proto t) ≤ UINT32_MAX →
  partial_of (tr_proto t) (cc_rb_max (nc_cfg c)) part → Forall (accepts (tr_proto t)) fs →
  let '(u', shut, undelivered) := callbacks fs u in
  ∃ c', deliver_frames on_message fuel alloc c t u = Some (c', t, u', 0) ∧ ring_holds (nc_inbuf c') (stream_of undelivered ++ part) ∧
    nc_closed c' = shut ∧ same_reader c c'.
Proof.
  induction fs as [|f fs IH]; intros [|fuel] c t u part Hf Hr Hopen Hp Hpart Hacc; try (cbn in Hf; lia).
  { cbn [callbacks]. exists c. split_and!; [by eapply deliver_partial|done|done|done]. }
  apply Forall_cons in Hacc as [Hacc Hrest]. cbn [callbacks deliver_frames]. rewrite Hopen, (peek_nil _ _ Hr).
  rewrite stream_cons, <- app_assoc in Hr. rewrite bool_decide_eq_false_2 by by intros [? _]%app_nil.
  rewrite (decode_buffer_holds alloc _ _ Hr) by (apply Halloc; apply zlen_nonneg).
  rewrite decode_wire, set_proto_same by done. destruct (on_message f u) as [u1 actions].
  destruct (acts_keep actions c) as (Hi & Hcl & Hs). rewrite <- Hi in Hr.
  destruct (consume_frame_holds alloc (zlen (wire_of f)) _ _ Halloc Hr ltac:(apply zlen_nonneg)) as (c1 & -> & Hr1 & Hc1 & Hs1).
  assert (same_reader c c1) as Hsame by by etrans. cbn [mbind option_bind].
  unfold zlen in Hr1. rewrite Nat2Z.id, drop_app_length in Hr1. rewrite Hopen in Hcl. cbn [orb] in Hcl. rewrite Hcl in Hc1.
  destruct (closes actions).
  - exists c1. split_and!; try done. destruct fuel; [cbn in Hf; lia|]. cbn. by rewrite Hc1.
  - assert (nc_cfg c1 = nc_cfg c) as Hcfg by apply Hsame. specialize (IH fuel c1 t u1 part ltac:(cbn in Hf; lia) Hr1 Hc1 Hp ltac:(by rewrite Hcfg) Hrest).
    destruct (callbacks fs u1) as [[u' shut] undelivered]. destruct IH as (c' & Hd & Hh & Hc' & Hs'). exists c'.
    split_and!; [done|done|done|by etrans].
Qed.
End Deliver.

(** ** Receiving *)

(** The bytes a script delivers; it ends when the socket would block. *)
Definition received (script : list recv_result) : bytes :=
  concat ((λ r, match r with Received chunk => chunk | _ => [] end) <$> script).

Definition recv_ok (r : recv_result) : Prop :=
  match r with Received chunk => zlen chunk ≤ KITH_NET_READ_CHUNK | RecvInterrupted => True | _ => False end.

Lemma served_write alloc rb q (data : bytes) : serves alloc → ring_holds rb q → zlen q + zlen data ≤ rb_max_size rb →
  write_accepted alloc rb (zlen q + zlen data) = true.
Proof.
  intros [_ Hs] Hr Hle. unfold write_accepted. pose proof (holds_fits _ _ Hr) as (Hf & _ & Hmax). pose proof (zlen_nonneg data).
  destruct (Z.leb_spec (zlen q + zlen data) (rb_size rb)) as [|Hbig]; [done|]. cbn [orb]. rewrite (proj2 (Z.leb_le _ _)) by done.
  destruct (grown rb q (zlen q + zlen data) Hr) as (k & Hk & _ & -> & _); [lia|lia|]. cbn [andb].
  apply bool_decide_eq_true_2, Hs. pose proof (pow2_pos k Hk). lia.
Qed.

Lemma recv_holds alloc script : serves alloc → Forall recv_ok script → ∀ c t q, ring_holds (nc_inbuf c) q →
  zlen q + zlen (received script) ≤ rb_max_size (nc_inbuf c) →
  ∃ c', recv_into_ringbuf alloc script c t = Some (c', t, 0) ∧ ring_holds (nc_inbuf c') (q ++ received script) ∧
    nc_closed c' = nc_closed c ∧ same_reader c c'.
Proof.
  intros Ha. induction script as [|r script IH]; intros Hok c t q Hr Hle.
  { exists c. by rewrite app_nil_r. }
  apply Forall_cons in Hok as [Hok1 Hok]. specialize (IH Hok). destruct r as [chunk| | | |]; try done; [|by apply IH].
  cbn [recv_into_ringbuf]. change (received (Received chunk :: script)) with (chunk ++ received script) in *. rewrite zlen_app in Hle.
  pose proof (zlen_nonneg (received script)). cbn in Hok1. unfold KITH_NET_READ_CHUNK in Hok1.
  destruct (write_holds alloc (proj1 Ha) (nc_inbuf c) q chunk Hr) as (rb & -> & Hr' & Hm); [lia|].
  rewrite served_write in * by (done || lia). cbn.
  destruct (IH (set_inbuf rb c) t (q ++ chunk)) as (c' & -> & Hh & Hc & Hs); [done|cbn; rewrite zlen_app, Hm; lia|].
  exists c'. rewrite app_assoc. split_and!; try done. etrans; [|exact Hs]. by split.
Qed.

(** ** Reads *)

Section Reads.
Context {U : Type} (on_message : frame → U → U * list cb_action).

(** One read, from part of a frame to part of a later one. *)
Lemma one_read alloc script c t u part fs part' : serves alloc → Forall recv_ok script →
  ring_holds (nc_inbuf c) part → nc_closed c = false → nc_read_blocked c = false →
  pr_max_payload (tr_proto t) ≤ UINT32_MAX → 10 ≤ cc_in_high_water (nc_cfg c) → 10 ≤ cc_rb_max (nc_cfg c) →
  zlen part + zlen (received script) ≤ rb_max_size (nc_inbuf c) →
  part ++ received script = stream_of fs ++ part' → Forall (accepts (tr_proto t)) fs →
  partial_of (tr_proto t) (cc_rb_max (nc_cfg c)) part' →
  let '(u', shut, undelivered) := callbacks on_message fs u in
  ∃ c', kith_net_conn_read on_message alloc script c t u = Some (c', t, u', 0) ∧
    ring_holds (nc_inbuf c') (stream_of undelivered ++ part') ∧ nc_closed c' = shut ∧
    nc_cfg c' = nc_cfg c ∧ rb_max_size (nc_inbuf c') = rb_max_size (nc_inbuf c) ∧
    (undelivered = [] → nc_read_blocked c' = false).
Proof.
  intros Ha Hok Hr Hopen Hunb Hp Hhigh Hmax Hle Hcut Hacc Hpart. unfold kith_net_conn_read. rewrite Hopen.
  destruct (recv_holds alloc script Ha Hok c t part Hr Hle) as (c1 & -> & Hr1 & Hc1 & Hs1). rewrite Hcut in Hr1. cbn [mbind option_bind]. rewrite Z.eqb_refl. cbn [negb].
  destruct Hs1 as [Hcfg1 Hmax1 Hopen1]. rewrite <- Hcfg1 in *. rewrite (holds_used _ _ Hr1).
  assert (length fs < S (Z.to_nat (zlen (stream_of fs ++ part'))))%nat as Hfuel.
  { pose proof (stream_length fs). rewrite zlen_app. pose proof (zlen_nonneg part'). lia. }
  pose proof (deliver_exact on_message alloc Ha fs _ c1 t u part' Hfuel Hr1 ltac:(congruence) Hp Hpart Hacc) as Hd.
  destruct (callbacks on_message fs u) as [[u' shut] undelivered]. destruct Hd as (c2 & -> & Hr2 & Hc2 & [Hcfg2 Hmax2 Hopen2]).
  cbn [mbind option_bind]. rewrite Z.eqb_refl. cbn [negb]. eexists. split; [done|].
  set (b := _ <=? _). assert (undelivered = [] → b = false) as Hb.
  { intros ->. unfold b. apply Z.leb_gt. rewrite (holds_used _ _ Hr2). cbn [app] in Hr2. rewrite <- Hcfg2 in *.
    unfold input_pause_at. destruct (leading_partial (tr_proto t) c2 _ part' Hr2 Hp Hpart) as [[? ->]|?];
      repeat match goal with |- context [?x <? ?y] => destruct (Z.ltb_spec x y) end; change (stream_of [] ++ part') with part'; lia. }
  assert (nc_inbuf (if b then set_read_blocked true c2 else c2) = nc_inbuf c2) as -> by by destruct b.
  split_and!; [done|by destruct b|by destruct b|congruence|].
  intros Hn. rewrite (Hb Hn). apply Hopen2, Hopen1, Hunb.
Qed.

Fixpoint conn_reads (reads : list (allocator * list recv_result)) (c : kith_net_conn) (t : transport) (u : U)
    : option (kith_net_conn * transport * U * list Z) :=
  match reads with
  | [] => Some (c, t, u, [])
  | (alloc, script) :: reads =>
      '(c, t, u, rc) ← kith_net_conn_read on_message alloc script c t u;
      '(c, t, u, rcs) ← conn_reads reads c t u;
      Some (c, t, u, rc :: rcs)
  end.

(** The callback's state after some frames. *)
Definition after (fs : list frame) (u : U) : U := foldl (λ u f, fst (on_message f u)) u fs.

Definition arriving (reads : list (allocator * list recv_result)) : bytes := concat ((λ r, received (snd r)) <$> reads).

Context (Hnever : ∀ f u, closes (snd (on_message f u)) = false).

Lemma callbacks_all fs : ∀ u, callbacks on_message fs u = (after fs u, false, []).
Proof.
  induction fs as [|f fs IH]; intros u; [done|]. cbn [callbacks]. pose proof (Hnever f u) as Hn. change (after (f :: fs) u) with (after fs (fst (on_message f u))).
  destruct (on_message f u) as [u1 actions]. cbn [snd] in Hn. by rewrite Hn, IH.
Qed.

Definition read_ok (limit most : Z) (r : allocator * list recv_result) : Prop :=
  serves (fst r) ∧ Forall recv_ok (snd r) ∧ zlen (received (snd r)) + most ≤ limit.

Lemma reads_exact most reads : ∀ c t u part todo rest,
  ring_holds (nc_inbuf c) part → nc_closed c = false → nc_read_blocked c = false →
  pr_max_payload (tr_proto t) ≤ UINT32_MAX → 10 ≤ cc_in_high_water (nc_cfg c) → 10 ≤ cc_rb_max (nc_cfg c) →
  most ≤ cc_rb_max (nc_cfg c) ≤ rb_max_size (nc_inbuf c) →
  Forall (read_ok (cc_rb_max (nc_cfg c)) most) reads → begins todo part →
  Forall (λ f, accepts (tr_proto t) f ∧ zlen (wire_of f) ≤ most) todo →
  part ++ arriving reads ++ rest = stream_of todo → 0 ≤ most →
  ∃ c' dn todo' part', conn_reads reads c t u = Some (c', t, after dn u, replicate (length reads) 0) ∧
    todo = dn ++ todo' ∧ part ++ arriving reads = stream_of dn ++ part' ∧ part' ++ rest = stream_of todo' ∧ begins todo' part' ∧
    ring_holds (nc_inbuf c') part' ∧ nc_closed c' = false ∧ nc_read_blocked c' = false.
Proof.
  induction reads as [|[alloc script] reads IH]; intros c t u part todo rest Hr Hopen Hunb Hp Hhigh H10 Hmost Hok Hbeg Hacc Hs Hm0.
  { exists c, [], todo, part. split_and!; try done. by rewrite app_nil_r. }
  apply Forall_cons in Hok as [(Ha & Hrecv & Hfit) Hok]. cbn [fst snd] in *.
  change (arriving ((alloc, script) :: reads)) with (received script ++ arriving reads) in *. rewrite <- app_assoc in Hs.
  rewrite app_assoc in Hs. destruct (cut_stream _ _ _ Hs) as (dn & todo1 & part1 & -> & Hcut & Hs1 & Hbeg1).
  pose proof Hacc as [Hacc1 Hacc2]%Forall_app. rewrite Forall_and in Hacc1. destruct Hacc1 as [Hacc1 _].
  assert (zlen part ≤ most) as Hpm.
  { destruct (dn ++ todo1) as [|g l]; cbn in Hbeg; [by subst|]. destruct Hbeg as (k & Hk & ->).
    apply Forall_cons in Hacc as [[_ Hg] _]. rewrite zlen_take by lia. unfold zlen in Hg. lia. }
  pose proof (one_read alloc script c t u part dn part1 Ha Hrecv Hr Hopen Hunb Hp Hhigh H10 ltac:(lia) Hcut Hacc1) as Hread.
  rewrite callbacks_all in Hread. destruct Hread as (c1 & Hc & Hr1 & Ho1 & Hcfg1 & Hmax1 & Hb1).
  { eapply begins_partial; [|done]. eapply Forall_impl; [exact Hacc2|]. cbn. intros f [? ?]. split; [done|lia]. }
  cbn [conn_reads]. rewrite Hc. cbn [mbind option_bind]. rewrite <- Hcfg1, <- Hmax1 in *.
  destruct (IH c1 t (after dn u) part1 todo1 rest Hr1 Ho1 (Hb1 eq_refl) Hp Hhigh H10 Hmost Hok Hbeg1 Hacc2 Hs1 Hm0)
    as (c' & dn' & todo' & part' & -> & -> & Hcut' & Hrest & Hbeg' & Hr' & Ho' & Hb').
  exists c', (dn ++ dn'), todo', part'. split_and!; try done; [|by rewrite app_assoc|].
  - cbn. unfold after. by rewrite foldl_app.
  - rewrite app_assoc, Hcut, <- app_assoc, Hcut', stream_app. by rewrite app_assoc.
Qed.

Lemma created_reads alloc fd cfg most reads fs rest t u :
  serves alloc → 0 ≤ fd → 1 ≤ cc_rb_initial cfg ≤ cc_rb_max cfg → cc_rb_max cfg ≤ UINT32_MAX → 10 ≤ cc_rb_max cfg →
  10 ≤ cc_in_high_water cfg → pr_max_payload (tr_proto t) ≤ UINT32_MAX → 0 ≤ most ≤ cc_rb_max cfg →
  Forall (λ f, accepts (tr_proto t) f ∧ zlen (wire_of f) ≤ most) fs →
  Forall (read_ok (cc_rb_max cfg) most) reads →
  arriving reads ++ rest = stream_of fs →
  ∃ c c' dn todo part, kith_conn_create alloc fd cfg = Some (Some c) ∧
    conn_reads reads c t u = Some (c', t, after dn u, replicate (length reads) 0) ∧
    fs = dn ++ todo ∧ arriving reads = stream_of dn ++ part ∧ begins todo part ∧ (rest = [] → dn = fs) ∧
    kith_ringbuf_used (nc_inbuf c') = zlen part ∧ nc_closed c' = false ∧ desired_in_events c' = KITH_NET_IN.
Proof.
  intros Ha Hfd Hinit Hmax H10 Hhigh Hp Hmost Hacc Hok Hs. unfold UINT32_MAX in Hmax.
  destruct (init_holds alloc (cc_rb_initial cfg) (cc_rb_max cfg) (proj1 Ha)) as [[_ (n & Hge & Hn)]|(rb & Hi & Hr & Hlim)]; [lia|lia| |].
  { destruct (proj2 Ha n) as [b Hb]; [lia|congruence]. }
  destruct (next_pow2_spec (cc_rb_max cfg)) as (k & _ & Hpow & Hk & _); [lia|].
  assert (cc_rb_max cfg ≤ rb_max_size rb) as Hle by (rewrite Hpow in Hlim; injection Hlim as <-; done).
  set (c := mkConn rb [] 0 false false fd cfg).
  destruct (reads_exact most reads c t u [] fs rest) as (c' & dn & todo & part & Hrun & -> & Hcut & Hrest & Hbeg & Hr' & Ho & Hb);
    try done; cbn [c nc_cfg nc_inbuf]; try lia.
  { destruct fs as [|f fs]; [done|]. exists O. split; [|done]. pose proof (zlen_wire f) as Hz. pose proof (wire_len_nonneg f). unfold zlen in Hz. lia. }
  exists c, c', dn, todo, part. split_and!; try done.
  - unfold kith_conn_create. rewrite (proj2 (Z.ltb_ge _ _)) by done. by rewrite Hi.
  - intros ->. rewrite app_nil_r in Hrest. apply begins_all in Hbeg as ->; [|done]. by rewrite app_nil_r.
  - by apply holds_used.
  - unfold desired_in_events. by rewrite Hb.
Qed.
End Reads.

(** ** Writes *)

(** The bytes of the queue still to be written. *)
Definition unsent (outq : list kith_net_out_item) : bytes := concat (item_rest <$> outq).

Definition item_ok (i : kith_net_out_item) : Prop := 0 ≤ oi_offset i ≤ zlen (oi_frame i).

(** The lengths of the queued frames. *)
Definition queued_bytes (outq : list kith_net_out_item) : Z := foldr (λ i n, zlen (oi_frame i) + n) 0 outq.

Lemma item_rest_drop i : item_ok i → item_rest i = drop (Z.to_nat (oi_offset i)) (oi_frame i) ∧ item_rem i = zlen (item_rest i).
Proof.
  intros Hi. unfold item_ok, zlen in *. assert (item_rem i = zlen (drop (Z.to_nat (oi_offset i)) (oi_frame i))) as Hr.
  { unfold item_rem, zlen. rewrite length_drop. destruct (Z.ltb_spec (oi_offset i) (Z.of_nat (length (oi_frame i)))); lia. }
  assert (item_rest i = drop (Z.to_nat (oi_offset i)) (oi_frame i)) as ->; [|done].
  unfold item_rest, bytes_at. rewrite Hr. apply take_ge. unfold zlen. lia.
Qed.

Lemma zlen_zero {A} (l : list A) : zlen l = 0 → l = [].
Proof. destruct l; [done|]. unfold zlen. cbn. lia. Qed.

Lemma unsent_cons i outq : unsent (i :: outq) = item_rest i ++ unsent outq.
Proof. done. Qed.

Lemma queued_cons i outq : queued_bytes (i :: outq) = zlen (oi_frame i) + queued_bytes outq.
Proof. done. Qed.

Lemma queued_nonneg outq : 0 ≤ queued_bytes outq.
Proof. induction outq as [|i outq IH]; [done|]. rewrite queued_cons. pose proof (zlen_nonneg (oi_frame i)). lia. Qed.

Lemma batch_unsent outq : ∀ n, Forall item_ok outq → ∃ rest, unsent outq = concat (build_writev_batch n outq) ++ rest.
Proof.
  induction outq as [|i outq IH]; intros [|n] Hok; try (by eexists). apply Forall_cons in Hok as [Hi Hok].
  rewrite unsent_cons. cbn [build_writev_batch].
  destruct (item_rest_drop i Hi) as [_ Hrem]. destruct (Z.eqb_spec (item_rem i) 0) as [H0|_].
  - rewrite Hrem in H0. rewrite (zlen_zero _ H0). by apply IH.
  - destruct (IH n Hok) as [rest Hrest]. exists rest. cbn. by rewrite Hrest, app_assoc.
Qed.

Lemma advance_exact outq : ∀ b n, Forall item_ok outq → 0 ≤ n ≤ zlen (unsent outq) → b = queued_bytes outq →
  let '(outq', b') := advance_outq outq b n in
  unsent outq' = drop (Z.to_nat n) (unsent outq) ∧ Forall item_ok outq' ∧ b' = queued_bytes outq'.
Proof.
  induction outq as [|i outq IH]; intros b n Hok Hn Hb; cbn [advance_outq]; [by split_and!; [destruct (Z.to_nat n)| |]|].
  destruct (Z.eqb_spec n 0) as [->|Hpos]; [done|]. apply Forall_cons in Hok as [Hi Hok].
  destruct (item_rest_drop i Hi) as [Hrest Hrem]. rewrite unsent_cons, zlen_app in Hn. rewrite unsent_cons.
  pose proof (zlen_nonneg (item_rest i)). pose proof (zlen_nonneg (unsent outq)). pose proof (zlen_nonneg (oi_frame i)).
  assert (zlen (item_rest i) = zlen (oi_frame i) - oi_offset i) as Hlen.
  { rewrite Hrest. unfold item_ok, zlen in *. rewrite length_drop. lia. }
  pose proof (queued_nonneg outq). rewrite queued_cons in Hb. rewrite Hrem. unfold item_ok in Hi.
  destruct (Z.ltb_spec (zlen (item_rest i)) n) as [Hlt|Hge].
  - rewrite (proj2 (Z.leb_le _ _)), (proj2 (Z.leb_le (zlen (oi_frame i)) b)) by lia.
    specialize (IH (b - zlen (oi_frame i)) (n - zlen (item_rest i)) Hok ltac:(lia) ltac:(lia)).
    destruct (advance_outq outq _ _) as [outq' b']. destruct IH as (-> & ? & ?). split_and!; try done.
    rewrite drop_app_ge by (unfold zlen in *; lia). f_equal. unfold zlen. lia.
  - destruct (Z.leb_spec (zlen (oi_frame i)) (oi_offset i + n)) as [Hall|Hpart].
    + rewrite (proj2 (Z.leb_le (zlen (oi_frame i)) b)) by lia. assert (n = zlen (item_rest i)) as -> by lia. rewrite Z.sub_diag.
      specialize (IH (b - zlen (oi_frame i)) 0 Hok ltac:(lia) ltac:(lia)).
      destruct (advance_outq outq _ _) as [outq' b']. destruct IH as (-> & ? & ?). split_and!; try done.
      unfold zlen. rewrite Nat2Z.id, drop_app_length. done.
    + assert (item_ok (mkOutItem (oi_frame i) (oi_offset i + n))) as Hi' by (unfold item_ok; cbn; lia).
      split_and!; [|by constructor|done]. rewrite unsent_cons, (proj1 (item_rest_drop _ Hi')). cbn [oi_frame oi_offset].
      rewrite drop_app_le by (unfold zlen in *; lia). f_equal. rewrite Hrest, drop_drop. f_equal. lia.
Qed.

(** The queue of a connection and its byte count. *)
Definition outq_counts (c : kith_net_conn) : Prop := Forall item_ok (nc_outq c) ∧ nc_outq_bytes c = queued_bytes (nc_outq c).

Lemma drain_step script c n :
  conn_write_drain script c n =
  match build_writev_batch KITH_NET_WRITE_BATCH (nc_outq c), script with
  | [], _ | _, [] | _, WriteAgain :: _ => (c, [], 0, false)
  | _, WriteInterrupted :: script => conn_write_drain script c n
  | _, WriteError :: _ => (c, [], - KITH_EIO, false)
  | iov, Room room :: script =>
      let k := Z.min (Z.of_nat room) (zlen (concat iov)) in
      if k =? 0 then (c, [], 0, false) else
      let out := take (Z.to_nat k) (concat iov) in
      let c := advance_outq_after_write k c in
      if negb (cc_out_drain_cap (nc_cfg c) =? UINT32_MAX) && (cc_out_drain_cap (nc_cfg c) <=? u64 (n + k))
      then (c, out, 0, true)
      else let '(c, out', rc, capped) := conn_write_drain script c (u64 (n + k)) in (c, out ++ out', rc, capped)
  end.
Proof.
  destruct script as [|[room| | |] script]; cbn [conn_write_drain]; destruct (nc_outq c) as [|i outq] eqn:Hq; try reflexivity;
    by destruct (build_writev_batch _ _).
Qed.

Lemma drain_exact script : ∀ c n, outq_counts c →
  let '(c', out, rc, capped) := conn_write_drain script c n in
  unsent (nc_outq c) = out ++ unsent (nc_outq c') ∧ outq_counts c' ∧ nc_closed c' = nc_closed c ∧ nc_cfg c' = nc_cfg c.
Proof.
  induction script as [|r script IH]; intros c n Hc; rewrite drain_step;
    destruct (batch_unsent (nc_outq c) KITH_NET_WRITE_BATCH (proj1 Hc)) as [rest Hrest];
    destruct (build_writev_batch _ _) as [|v iov]; try done.
  destruct r as [room| | |]; try done; [|by apply IH].
  cbv zeta. set (k := Z.min (Z.of_nat room) (zlen (concat (v :: iov)))). destruct (Z.eqb_spec k 0); [done|].
  pose proof (zlen_nonneg (concat (v :: iov))). pose proof (zlen_nonneg rest). pose proof (f_equal zlen Hrest) as Hl. rewrite zlen_app in Hl.
  pose proof (advance_exact (nc_outq c) (nc_outq_bytes c) k (proj1 Hc) ltac:(lia) (proj2 Hc)) as Hadv.
  unfold advance_outq_after_write. destruct (advance_outq _ _ k) as [outq' b']. destruct Hadv as (Hu & Hok' & Hb').
  assert (take (Z.to_nat k) (concat (v :: iov)) ++ unsent outq' = unsent (nc_outq c)) as Hsplit.
  { rewrite Hu. rewrite <- (take_drop (Z.to_nat k) (unsent (nc_outq c))) at 2. f_equal. rewrite Hrest.
    rewrite take_app_le; [done|]. unfold zlen in *. lia. }
  cbv zeta. destruct (_ && _); [by split_and!|].
  specialize (IH (set_outq outq' b' c) (u64 (n + k)) (conj Hok' Hb')). cbn [nc_outq nc_closed nc_cfg set_outq] in IH.
  destruct (conn_write_drain script _ _) as [[[c' out'] rc] capped]. destruct IH as (Hu' & Hc' & Hcl & Hcfg).
  split_and!; try done. by rewrite <- Hsplit, Hu', app_assoc.
Qed.

(** ** Sequences of enqueues and writes *)

Inductive out_op :=
  | Put (mem : bool) (frame : bytes)
  | Flush (script : list writev_result).

(** The connection, the bytes sent and the frames accepted. *)
Fixpoint out_run (ops : list out_op) (c : kith_net_conn) (t : transport) : kith_net_conn * transport * bytes * list bytes :=
  match ops with
  | [] => (c, t, [], [])
  | Put mem frame :: ops =>
      let '(c, rc) := kith_net_conn_enqueue mem frame c in
      let '(c, t, sent, accepted) := out_run ops c t in
      (c, t, sent, if rc =? 0 then frame :: accepted else accepted)
  | Flush script :: ops =>
      let '(c, t, out, _) := kith_net_conn_write script c t in
      let '(c, t, sent, accepted) := out_run ops c t in
      (c, t, out ++ sent, accepted)
  end.

Definition out_op_ok (o : out_op) : Prop := match o with Put _ frame => zlen frame ≤ UINT32_MAX | _ => True end.

Lemma queued_app q1 q2 : queued_bytes (q1 ++ q2) = queued_bytes q1 + queued_bytes q2.
Proof. induction q1 as [|i q1 IH]; [done|]. cbn [app]. rewrite !queued_cons. lia. Qed.

Lemma enqueue_exact mem frame c : outq_counts c → zlen frame ≤ UINT32_MAX → cc_out_high_water (nc_cfg c) ≤ UINT32_MAX →
  let '(c', rc) := kith_net_conn_enqueue mem frame c in
  outq_counts c' ∧ unsent (nc_outq c') = unsent (nc_outq c) ++ (if rc =? 0 then frame else []) ∧ nc_cfg c' = nc_cfg c ∧
  nc_closed c' = nc_closed c ∧
  (rc = 0 ↔ nc_closed c = false ∧ nc_outq_bytes c < cc_out_high_water (nc_cfg c) ∧ mem = true).
Proof.
  intros [Hok Hb] Hf Hh. unfold kith_net_conn_enqueue. destruct (nc_closed c) eqn:Hcl; [rewrite app_nil_r; split_and!; (done || naive_solver)|].
  destruct (Z.leb_spec (cc_out_high_water (nc_cfg c)) (nc_outq_bytes c)) as [|Hroom]; [rewrite app_nil_r; split_and!; (done || naive_solver lia)|].
  destruct mem; cbn [negb]; [|rewrite app_nil_r; split_and!; (done || naive_solver)].
  pose proof (queued_nonneg (nc_outq c)).
  pose proof (zlen_nonneg frame). unfold UINT32_MAX in *. rewrite u64_id, (proj2 (Z.ltb_ge _ _)) by lia. cbn [nc_outq nc_outq_bytes nc_cfg nc_closed set_outq].
  assert (item_ok (mkOutItem frame 0)) as Hi by (unfold item_ok; cbn; lia). split_and!; try done.
  - split; cbn; [by apply Forall_app; split; [|constructor]|]. rewrite queued_app, Hb. cbn. lia.
  - unfold unsent. rewrite fmap_app, concat_app. cbn. rewrite (proj1 (item_rest_drop _ Hi)). cbn. by rewrite app_nil_r.
Qed.

Lemma output_exact ops c t : outq_counts c → cc_out_high_water (nc_cfg c) ≤ UINT32_MAX → Forall out_op_ok ops →
  let '(c', t', sent, accepted) := out_run ops c t in
  unsent (nc_outq c) ++ concat accepted = sent ++ unsent (nc_outq c') ∧ nc_outq_bytes c' = queued_bytes (nc_outq c').
Proof.
  revert c t. induction ops as [|o ops IH]; intros c t Hc Hh Hok; cbn [out_run]; [by rewrite app_nil_r; split; [|apply Hc]|].
  apply Forall_cons in Hok as [Ho Hok]. destruct o as [mem frame|script].
  - pose proof (enqueue_exact mem frame c Hc Ho Hh) as He. destruct (kith_net_conn_enqueue mem frame c) as [c1 rc].
    destruct He as (Hc1 & Hu1 & Hcfg & _). specialize (IH c1 t Hc1 ltac:(by rewrite Hcfg) Hok).
    destruct (out_run ops c1 t) as [[[c' t'] sent] accepted]. destruct IH as [IH Hb]. split; [|done].
    rewrite <- IH, Hu1. destruct (rc =? 0); cbn; [by rewrite app_assoc|by rewrite app_nil_r].
  - unfold kith_net_conn_write. destruct (_ || _).
    + specialize (IH c t Hc Hh Hok). destruct (out_run ops c t) as [[[c' t'] sent] accepted]. done.
    + pose proof (drain_exact script c 0 Hc) as Hd. destruct (conn_write_drain script c 0) as [[[c1 out] rc] capped].
      destruct Hd as (Hu & Hc1 & _ & Hcfg). set (t1 := if _ && _ then _ else _).
      assert (∀ c2, nc_outq c2 = nc_outq c1 → nc_outq_bytes c2 = nc_outq_bytes c1 → nc_cfg c2 = nc_cfg c1 →
        let '(c', t', sent, accepted) := out_run ops c2 t1 in
        unsent (nc_outq c) ++ concat accepted = (out ++ sent) ++ unsent (nc_outq c') ∧ nc_outq_bytes c' = queued_bytes (nc_outq c')) as Hrest.
      { intros c2 Hq2 Hb2 Hcfg2. specialize (IH c2 t1). destruct (out_run ops c2 t1) as [[[c' t'] sent] accepted].
        destruct IH as [IH Hb]; [split; rewrite ?Hb2, Hq2; apply Hc1|by rewrite Hcfg2, Hcfg|done|]. split; [|done].
        rewrite Hu, <- !app_assoc. f_equal. by rewrite <- Hq2. }
      destruct (negb (rc =? 0)); [|specialize (Hrest c1 eq_refl eq_refl eq_refl); by destruct (out_run ops c1 t1) as [[[c' t'] sent] accepted]].
      specialize (Hrest (kith_net_conn_close c1)). destruct (out_run ops (kith_net_conn_close c1) t1) as [[[c' t'] sent] accepted].
      unfold kith_net_conn_close in Hrest. apply Hrest; by destruct (nc_closed c1).
Qed.

(** ** From one end to the other *)

(** C11: Frames that a peer encodes one after another, cut anywhere into any
    number of reads, are delivered to the callback exactly once each, in order
    and unchanged, each by the read in which its last byte arrives, and every
    read reports success, provided that the bytes one read call takes from the
    socket together with the largest frame fit the read buffer's maximum (a
    larger burst in one call fails with -KITH_ENOMEM); what is left in the
    ring is the beginning of the next frame, and the connection still asks for
    input. (Frames of registered types within the protocol's maximum payload
    and the read buffer's maximum; a maximum of at least one header and at
    most 2^32 - 1; a pause threshold of at least one header; memory suffices;
    no read meets an error or the end of the stream; the callback does not
    close the connection.) *)
Theorem conn_reads_exact {U} (on_message : frame → U → U * list cb_action) alloc fd cfg most reads fs rest t u :
  (∀ f u, closes (snd (on_message f u)) = false) →
  serves alloc → 0 ≤ fd → 1 ≤ cc_rb_initial cfg ≤ cc_rb_max cfg → cc_rb_max cfg ≤ UINT32_MAX → 10 ≤ cc_rb_max cfg →
  10 ≤ cc_in_high_water cfg → pr_max_payload (tr_proto t) ≤ UINT32_MAX → 0 ≤ most ≤ cc_rb_max cfg →
  Forall (λ f, accepts (tr_proto t) f ∧ zlen (wire_of f) ≤ most) fs →
  Forall (read_ok (cc_rb_max cfg) most) reads →
  arriving reads ++ rest = stream_of fs →
  ∃ c c' dn todo part, kith_conn_create alloc fd cfg = Some (Some c) ∧
    conn_reads on_message reads c t u = Some (c', t, after on_message dn u, replicate (length reads) 0) ∧
    fs = dn ++ todo ∧ arriving reads = stream_of dn ++ part ∧ begins todo part ∧ (rest = [] → dn = fs) ∧
    kith_ringbuf_used (nc_inbuf c') = zlen part ∧ nc_closed c' = false ∧ desired_in_events c' = KITH_NET_IN.
Proof. intros Hnever. by apply created_reads. Qed.

(** A connection just created, with nothing queued. *)
Definition fresh_conn (c : kith_net_conn) : Prop := nc_outq c = [] ∧ nc_outq_bytes c = 0 ∧ cc_out_high_water (nc_cfg c) ≤ UINT32_MAX.

(** C9: Frames accepted by one connection's output queue and written by writes
    that take any part of what they are offered, then read by another
    connection in reads that each, together with the largest frame, fit the
    read buffer's maximum, are delivered in order, unchanged and once each,
    with every read reporting success: always a prefix of the frames, and all
    of them when nothing is left to send. (The sender's queue is empty at
    first; the receiver registers the types, allows the sizes, has a read
    buffer's maximum and a pause threshold of at least one header and a
    maximum of at most 2^32 - 1; memory suffices on its side; no read meets an
    error or the end of the stream; the callback does not close the
    connection.) *)
Theorem net_end_to_end {U} (on_message : frame → U → U * list cb_action) c t ops fs alloc fd cfg most reads t' u :
  (* the sender: the frames its queue accepted are [fs] *)
  fresh_conn c → Forall out_op_ok ops →
  let '(c1, _, sent, accepted) := out_run ops c t in
  accepted = wire_of <$> fs →
  (* the receiver, and the bytes it has read *)
  (∀ f u, closes (snd (on_message f u)) = false) →
  serves alloc → 0 ≤ fd → 1 ≤ cc_rb_initial cfg ≤ cc_rb_max cfg → cc_rb_max cfg ≤ UINT32_MAX → 10 ≤ cc_rb_max cfg →
  10 ≤ cc_in_high_water cfg → pr_max_payload (tr_proto t') ≤ UINT32_MAX → 0 ≤ most ≤ cc_rb_max cfg →
  Forall (λ f, accepts (tr_proto t') f ∧ zlen (wire_of f) ≤ most) fs →
  Forall (read_ok (cc_rb_max cfg) most) reads →
  arriving reads = sent →
  ∃ c2 c2' dn todo, kith_conn_create alloc fd cfg = Some (Some c2) ∧
    conn_reads on_message reads c2 t' u = Some (c2', t', after on_message dn u, replicate (length reads) 0) ∧
    fs = dn ++ todo ∧ (unsent (nc_outq c1) = [] → dn = fs).
Proof.
  intros (Hq & Hb & Hh) Hops. pose proof (output_exact ops c t) as Hout. destruct (out_run ops c t) as [[[c1 t1] sent] accepted].
  intros -> Hnever Ha Hfd Hinit Hmax H10 Hhigh Hp Hmost Hacc Hok Harr.
  destruct Hout as [Hsent _]; [by split; rewrite Hq|done|done|]. rewrite Hq in Hsent. cbn [app] in Hsent.
  destruct (created_reads on_message Hnever alloc fd cfg most reads fs (unsent (nc_outq c1)) t' u) as (c2 & c2' & dn & todo & part & Hc & Hr & Hfs & _ & _ & Hall & _);
    try done; [by rewrite Harr, <- Hsent|]. by exists c2, c2', dn, todo.
Qed.

(** ** The connection table *)

(** The open connections are exactly those of the table's first places, each
    at the index it records. *)
Record table_ok (t : conn_table) (opened : gset nat) : Prop := {
  to_cap : Z.of_nat (length (ct_conns t)) = ct_conn_cap t ∧ ct_conn_cap t ≤ UINT32_MAX;
  to_count : Z.of_nat (size opened) = ct_conn_count t ∧ ct_conn_count t ≤ ct_conn_cap t;
  to_open h : h ∈ opened ↔ ∃ e, ct_entries t !! h = Some e ∧ te_closed e = false;
  to_index h e : ct_entries t !! h = Some e → te_closed e = false →
    0 ≤ te_table_index e < ct_conn_count t ∧ ct_conns t !! Z.to_nat (te_table_index e) = Some (Some h);
  to_used i : (Z.of_nat i < ct_conn_count t) → ∃ h e, ct_conns t !! i = Some (Some h) ∧ ct_entries t !! h = Some e ∧
    te_closed e = false ∧ te_table_index e = Z.of_nat i;
  to_free i : ct_conn_count t ≤ Z.of_nat i → (i < length (ct_conns t))%nat → ct_conns t !! i = Some None;
}.

Lemma table_init max : 0 ≤ max ≤ UINT32_MAX → table_ok (net_table max) ∅.
Proof.
  intros Hm. unfold net_table. set (cap := resolve_cfg_field max 4096).
  assert (0 ≤ cap ≤ UINT32_MAX) by (unfold cap, resolve_cfg_field; destruct (max =? 0); [done|done]). split; cbn.
  - rewrite length_replicate. lia.
  - rewrite size_empty. lia.
  - intros h. split; [set_solver|]. by intros (e & He & _).
  - done.
  - intros i Hi. lia.
  - intros i _ Hi. rewrite length_replicate in Hi. by apply lookup_replicate_2.
Qed.

Lemma accept_ok t opened : table_ok t opened →
  if ct_conn_cap t <=? Z.of_nat (size opened) then ∀ created, kith_net_accept true (Accepted created) t = (t, inl (- KITH_EBUSY))
  else (∃ t', kith_net_accept true (Accepted false) t = (t', inl (- KITH_ENOMEM)) ∧ table_ok t' opened ∧ ct_conn_cap t' = ct_conn_cap t) ∧
    ∃ t' h, kith_net_accept true (Accepted true) t = (t', inr h) ∧ (h ∉ opened) ∧ table_ok t' ({[h]} ∪ opened) ∧ ct_conn_cap t' = ct_conn_cap t.
Proof.
  intros [[Hlen Hcap] [Hsize Hcount] Hopen Hindex Hused Hfree]. unfold kith_net_accept. rewrite Hsize. cbn [negb].
  destruct (Z.leb_spec (ct_conn_cap t) (ct_conn_count t)) as [|Hroom]; [done|]. split; [by eexists|]. do 2 eexists. split; [done|].
  assert (length (ct_entries t) ∉ opened) as Hfresh.
  { intros (e & He & _)%Hopen. apply lookup_lt_Some in He. lia. }
  assert (∀ h e, (ct_entries t ++ [mkEntry (ct_next_conn_id t) (ct_conn_count t) false]) !! h = Some e ↔
    ct_entries t !! h = Some e ∨ h = length (ct_entries t) ∧ e = mkEntry (ct_next_conn_id t) (ct_conn_count t) false) as Hent.
  { intros h e. rewrite lookup_snoc_Some. split; [intros [[? ?]|[? ?]]; naive_solver|].
    intros [He|[-> ->]]; [left; split; [by eapply lookup_lt_Some|done]|by right]. }
  pose proof (size_union {[length (ct_entries t)]} opened ltac:(set_solver)) as Hsz. rewrite size_singleton in Hsz.
  split; [done|]. split; [|done]. split; cbn [ct_conns ct_conn_count ct_conn_cap ct_entries].
  - rewrite length_insert. lia.
  - lia.
  - intros h. rewrite elem_of_union, elem_of_singleton, Hopen. setoid_rewrite Hent. split.
    + intros [->|(e & He & Hc)]; eexists; naive_solver.
    + intros (e & [He|[-> _]] & Hc); naive_solver.
  - intros h e [He|[-> ->]]%Hent Hc; cbn.
    + destruct (Hindex h e He Hc) as [Hi Hl]. split; [lia|]. rewrite list_lookup_insert_ne by lia. done.
    + split; [lia|]. rewrite list_lookup_insert_eq by lia. done.
  - intros i Hi. destruct (decide (Z.of_nat i = ct_conn_count t)) as [Heq|Hne].
    + replace (Z.to_nat (ct_conn_count t)) with i by lia. rewrite list_lookup_insert_eq by lia.
      do 2 eexists. split; [done|]. rewrite Hent. split; [by right|]. cbn. split; [done|lia].
    + destruct (Hused i ltac:(lia)) as (h & e & Hl & He & Hc & Hx). exists h, e.
      rewrite list_lookup_insert_ne by lia. rewrite Hent. naive_solver.
  - intros i Hi Hl. rewrite length_insert in Hl. rewrite list_lookup_insert_ne by lia. apply Hfree; [lia|done].
Qed.

(** What closing an open connection leaves. *)
Lemma close_shape t opened h e m : table_ok t opened → ct_entries t !! h = Some e → te_closed e = false →
  let last := Z.to_nat (ct_conn_count t - 1) in
  ct_conns t !! last = Some (Some m) →
  let t' := net_close h t in
  ct_conn_count t' = ct_conn_count t - 1 ∧ ct_conn_cap t' = ct_conn_cap t ∧ length (ct_conns t') = length (ct_conns t) ∧
  (∀ i, (i < length (ct_conns t))%nat → ct_conns t' !! i =
     if decide (i = last) then Some None else if decide (i = Z.to_nat (te_table_index e)) then Some (Some m) else ct_conns t !! i) ∧
  (∀ x, ct_entries t' !! x =
     if decide (x = h) then Some (mkEntry (te_conn_id e) UINT32_MAX true)
     else if decide (x = m) then (λ e', mkEntry (te_conn_id e') (te_table_index e) (te_closed e')) <$> ct_entries t !! x
     else ct_entries t !! x).
Proof.
  intros Hok He Hc last Hm. destruct Hok as [[Hlen Hcap] [Hsize Hcount] Hopen Hindex Hused Hfree].
  destruct (Hindex h e He Hc) as [Hi Hl]. unfold net_close. rewrite He, Hc. unfold UINT32_MAX in *.
  rewrite (proj2 (Z.eqb_neq _ _)) by lia. cbn [negb]. unfold kith_net_table_remove. cbn [ct_conn_count ct_conns ct_entries ct_conn_cap ct_next_conn_id].
  rewrite (proj2 (Z.leb_gt _ _)) by lia. fold last. rewrite Hm. cbn [mjoin option_join].
  destruct (Z.eqb_spec (te_table_index e) (ct_conn_count t - 1)) as [Heq|Hne]; cbn [negb ct_conns ct_conn_count ct_conn_cap ct_entries].
  - assert (m = h) as -> by (rewrite Heq in Hl; fold last in Hl; congruence).
    split_and!; [done|done|by rewrite length_insert| |].
    + intros i Hlt. case_decide as Hd; [subst i; by rewrite list_lookup_insert_eq|]. rewrite list_lookup_insert_ne by done.
      rewrite Heq. fold last. by rewrite decide_False.
    + intros x. unfold set_index. case_decide as Hd; [subst x|].
      * rewrite list_lookup_alter_eq, list_lookup_insert_eq by by eapply lookup_lt_Some. done.
      * rewrite list_lookup_alter_ne, list_lookup_insert_ne by done. done.
  - assert (m ≠ h) as Hmh by (intros ->; destruct (Hused last) as (h' & e' & ? & ? & ? & ?); [lia|simplify_eq; lia]).
    split_and!; [done|done|by rewrite !length_insert| |].
    + intros i Hlt. case_decide as Hd; [subst i; by rewrite list_lookup_insert_eq by (by rewrite length_insert)|].
      rewrite list_lookup_insert_ne by done. case_decide as Hd'; [subst i; by rewrite list_lookup_insert_eq|].
      by rewrite list_lookup_insert_ne.
    + intros x. unfold set_index. case_decide as Hd; [subst x|].
      * rewrite list_lookup_alter_eq, list_lookup_alter_ne, list_lookup_insert_eq by (done || by eapply lookup_lt_Some). done.
      * rewrite list_lookup_alter_ne by done. case_decide as Hd'; [subst x; rewrite list_lookup_alter_eq|rewrite list_lookup_alter_ne by done];
          by rewrite list_lookup_insert_ne.
Qed.

Lemma close_ok t opened h : table_ok t opened → table_ok (net_close h t) (opened ∖ {[h]}) ∧ ct_conn_cap (net_close h t) = ct_conn_cap t.
Proof.
  intros Hok. pose proof Hok as [[Hlen Hcap] [Hsize Hcount] Hopen Hindex Hused Hfree].
  destruct (decide (h ∈ opened)) as [Hin|Hout].
  2: { replace (opened ∖ {[h]}) with opened by set_solver. assert (net_close h t = t) as ->; [|done]. unfold net_close.
       destruct (ct_entries t !! h) as [e|] eqn:He; [|done]. destruct (te_closed e) eqn:Hc; [done|]. destruct Hout. apply Hopen. eauto. }
  pose proof Hin as (e & He & Hc)%Hopen. destruct (Hindex h e He Hc) as [Hi Hl].
  destruct (Hused (Z.to_nat (ct_conn_count t - 1))) as (m & em & Hm & Hem & Hcm & Hxm); [lia|].
  destruct (close_shape t opened h e m Hok He Hc Hm) as (Hcount' & Hcap' & Hlen' & Hconns & Hents).
  set (t' := net_close h t) in *. split; [|done].
  assert (size (opened ∖ {[h]}) = (size opened - 1)%nat) as Hsz.
  { rewrite size_difference by set_solver. by rewrite size_singleton. }
  assert (∀ x e', ct_entries t' !! x = Some e' → te_closed e' = false → x ≠ h ∧ ∃ e0, ct_entries t !! x = Some e0 ∧ te_closed e0 = false ∧
    te_table_index e' = if decide (x = m) then te_table_index e else te_table_index e0) as Hback.
  { intros x e' Hx Hx'. rewrite Hents in Hx. case_decide; [by simplify_eq|]. split; [done|]. case_decide; [|by eauto].
    destruct (ct_entries t !! x) as [e0|]; [|done]. injection Hx as <-. eauto. }
  split.
  - lia.
  - rewrite Hsz, Hcount'. lia.
  - intros x. rewrite elem_of_difference, elem_of_singleton, Hopen, Hents. split.
    + intros [(e' & Hx & Hx') Hne]. rewrite decide_False by done. case_decide; [rewrite Hx; cbn|]; eauto.
    + intros (e' & Hx & Hx'). rewrite <- Hents in Hx. destruct (Hback x e' Hx Hx') as (Hne & e0 & ? & ? & _). eauto.
  - intros x e' Hx Hx'. destruct (Hback x e' Hx Hx') as (Hne & e0 & Hx0 & Hc0 & Hidx). destruct (Hindex x e0 Hx0 Hc0) as [Hi0 Hl0].
    rewrite Hcount', Hidx. destruct (decide (x = m)) as [->|Hxm'].
    + assert (te_table_index e ≠ ct_conn_count t - 1) as Hnl.
      { intros Heq. rewrite Heq in Hl. simplify_eq. }
      split; [lia|]. rewrite Hconns by lia. rewrite decide_False, decide_True by lia. done.
    + assert (te_table_index e0 ≠ ct_conn_count t - 1) as Hnl by (intros Heq; rewrite Heq in Hl0; simplify_eq).
      split; [lia|]. rewrite Hconns by lia. rewrite decide_False by lia. case_decide as Hd; [|done].
      apply Z2Nat.inj in Hd; [|lia|lia]. rewrite Hd in Hl0. simplify_eq.
  - intros i Hlt. rewrite Hcount' in Hlt. rewrite Hconns by lia. rewrite decide_False by lia. case_decide as Hd.
    + exists m. rewrite Hents, Hem. assert (m ≠ h) as Hmh by (intros ->; simplify_eq; lia).
      rewrite decide_False, decide_True by done. eexists. split_and!; [done|done|done|]. cbn. lia.
    + destruct (Hused i ltac:(lia)) as (x & e0 & Hx & Hx0 & Hc0 & Hi0). exists x. rewrite Hents.
      rewrite decide_False by (intros ->; simplify_eq; lia). rewrite decide_False by (intros ->; simplify_eq; lia). eauto.
  - intros i Hge Hlt. rewrite Hcount' in Hge. rewrite Hlen' in Hlt. rewrite Hconns by done. case_decide as Hd; [done|].
    rewrite decide_False by lia. apply Hfree; [lia|done].
Qed.

Lemma destroy_ok n : ∀ t opened, table_ok t opened → ct_conn_count t = Z.of_nat n → table_ok (net_destroy n t) ∅.
Proof.
  induction n as [|n IH]; intros t opened Hok Hn; cbn [net_destroy].
  { pose proof (to_count _ _ Hok) as [Hs _]. assert (size opened = O) as H0%size_empty_inv%leibniz_equiv by lia. by subst. }
  pose proof Hok as [_ [Hsize _] Hopen _ Hused _]. destruct (Hused n ltac:(lia)) as (h & e & Hc & He & Hcl & Hi). rewrite Hc. cbn [mjoin option_join].
  assert (h ∈ opened) as Hin by (apply Hopen; eauto). destruct (close_ok t opened h Hok) as [Hok' Hcap'].
  pose proof (to_count _ _ Hok') as [Hs' _]. rewrite size_difference, size_singleton in Hs' by set_solver.
  apply (IH _ (opened ∖ {[h]})); [|cbn; lia]. destruct Hok' as [[Hlen Hcap] Hcnt Hop Hidx Hus Hfr].
  assert (n < length (ct_conns (net_close h t)))%nat as Hlt by (apply lookup_lt_Some in Hc; pose proof (to_cap _ _ Hok); lia).
  assert (<[n := None]> (ct_conns (net_close h t)) = ct_conns (net_close h t)) as Hsame by (apply list_insert_id, Hfr; [lia|done]).
  split; cbn [ct_conns ct_conn_count ct_conn_cap ct_entries]; rewrite ?Hsame; done.
Qed.

(** ** Sequences of accepts and closes *)

Inductive table_op := Accept (listening : bool) (a : accept_result) | CloseConn (h : nat).

Definition table_step (o : table_op) (t : conn_table) : conn_table * option (Z + nat) :=
  match o with
  | Accept listening a => let '(t, r) := kith_net_accept listening a t in (t, Some r)
  | CloseConn h => (net_close h t, None)
  end.

(** The set of open connections: at most [cap] of them, each new one distinct
    from all that are open. *)
Inductive opened_step (cap : Z) (s : gset nat) : table_op → option (Z + nat) → gset nat → Prop :=
  | open_idle a : opened_step cap s (Accept false a) (Some (inl (- KITH_ESTATE))) s
  | open_none a : a ∈ [NonePending; AcceptInterrupted] → opened_step cap s (Accept true a) (Some (inl (- KITH_EAGAIN))) s
  | open_error : opened_step cap s (Accept true AcceptFails) (Some (inl (- KITH_EIO))) s
  | open_full created : cap ≤ Z.of_nat (size s) → opened_step cap s (Accept true (Accepted created)) (Some (inl (- KITH_EBUSY))) s
  | open_refused : Z.of_nat (size s) < cap → opened_step cap s (Accept true (Accepted false)) (Some (inl (- KITH_ENOMEM))) s
  | open_new h : Z.of_nat (size s) < cap → h ∉ s → opened_step cap s (Accept true (Accepted true)) (Some (inr h)) ({[h]} ∪ s)
  | open_close h : opened_step cap s (CloseConn h) None (s ∖ {[h]}).

Fixpoint table_run (ops : list table_op) (t : conn_table) : conn_table * list (option (Z + nat)) :=
  match ops with
  | [] => (t, [])
  | o :: ops => let '(t, r) := table_step o t in let '(t, rs) := table_run ops t in (t, r :: rs)
  end.

Inductive opened_run (cap : Z) : list table_op → gset nat → list (option (Z + nat)) → gset nat → Prop :=
  | opened_run_nil s : opened_run cap [] s [] s
  | opened_run_cons o ops s r s' rs s'' :
      opened_step cap s o r s' → opened_run cap ops s' rs s'' → opened_run cap (o :: ops) s (r :: rs) s''.

Lemma table_run_refines ops : ∀ t s, table_ok t s →
  let '(t', rs) := table_run ops t in ∃ s', opened_run (ct_conn_cap t) ops s rs s' ∧ table_ok t' s'.
Proof.
  induction ops as [|o ops IH]; intros t s Hok; [by exists s; split; [constructor|]|]. cbn [table_run].
  destruct (table_step o t) as [t1 r] eqn:Hstep.
  assert (∃ s1, opened_step (ct_conn_cap t) s o r s1 ∧ table_ok t1 s1 ∧ ct_conn_cap t1 = ct_conn_cap t) as (s1 & Hs & Hok1 & Hcap).
  { destruct o as [listening a|h]; cbn [table_step] in Hstep.
    - destruct listening; [|injection Hstep as <- <-; exists s; split; [constructor|done]].
      destruct a as [created| | |]; try (injection Hstep as <- <-; exists s; split; [constructor; set_solver|done]).
      pose proof (accept_ok t s Hok) as Ha. destruct (Z.leb_spec (ct_conn_cap t) (Z.of_nat (size s))) as [Hfull|Hroom].
      + rewrite Ha in Hstep. injection Hstep as <- <-. exists s. split; [by constructor|done].
      + destruct Ha as [(t1' & Hno & Hok1' & Hcap1) (t2 & h & Hacc & Hfresh & Hok2 & Hcap)].
        destruct created; [rewrite Hacc in Hstep|rewrite Hno in Hstep]; injection Hstep as <- <-; eexists; (split; [by constructor|done]).
    - injection Hstep as <- <-. destruct (close_ok t s h Hok). eexists. split; [by constructor|done]. }
  specialize (IH t1 s1 Hok1). destruct (table_run ops t1) as [t' rs]. destruct IH as (s' & Hr & Hok'). rewrite Hcap in Hr.
  exists s'. split; [by econstructor|done].
Qed.

(** C26: The table of connections is a bounded set: for any sequence of
    accepts and closes, an accept adds a connection not yet open exactly when
    the transport listens, a socket is accepted, there is room and the
    connection can be created, and otherwise changes no connection and returns
    -KITH_ESTATE, -KITH_EAGAIN (none pending or interrupted) or -KITH_EIO,
    -KITH_EBUSY when full, or -KITH_ENOMEM; a connection is in the table
    exactly while it is open, at one index below the count, although closing
    one moves the last into its place, and destroying the transport closes
    every connection. (A configured maximum of at most 2^32 - 1.) *)
Theorem conn_table_refines max ops : 0 ≤ max ≤ UINT32_MAX →
  let '(t, rs) := table_run ops (net_table max) in
  ∃ s, opened_run (resolve_cfg_field max 4096) ops ∅ rs s ∧ ct_conn_count t = Z.of_nat (size s) ∧
    (∀ h, h ∈ s ↔ ∃ i : nat, (i < size s)%nat ∧ ct_conns t !! i = Some (Some h)) ∧
    ∀ e, e ∈ ct_entries (kith_net_destroy t) → te_closed e = true.
Proof.
  intros Hm. pose proof (table_run_refines ops _ ∅ (table_init max Hm)) as Hrun.
  destruct (table_run ops (net_table max)) as [t rs]. destruct Hrun as (s & Hs & Hok). exists s.
  pose proof Hok as [_ [Hsize _] Hopen Hindex Hused _]. split_and!; [done|done| |].
  - intros h. rewrite Hopen. split.
    + intros (e & He & Hc). destruct (Hindex h e He Hc) as [Hi Hl]. exists (Z.to_nat (te_table_index e)). split; [lia|done].
    + intros (i & Hi & Hl). destruct (Hused i ltac:(lia)) as (h' & e & Hl' & He & Hc & _). simplify_eq. eauto.
  - intros e (h & He)%list_elem_of_lookup. pose proof (destroy_ok (Z.to_nat (ct_conn_count t)) t s Hok ltac:(lia)) as Hd.
    destruct (te_closed e) eqn:Hc; [done|]. assert (h ∈ (∅ : gset nat)) by (apply (to_open _ _ Hd); eauto). set_solver.
Qed.
