(* ===== verification/Aoi.v ===== *)
(** * The spatial index ([src/src/aoi/aoi.c], [src/src/aoi/aoi_internal.h])

    Two open-addressed tables that never grow: objects by identifier, with
    tombstones, and cells of a grid by coordinate, never reclaimed.  A cell
    lists the slots of its objects, and each object knows its place in the
    list.  Queries walk the cells of a region.  Handles are not null; [mem]
    says whether the allocator serves the one request a call may make. *)

From S2P Require Import Prelude PyStruct PyWire Proto CWords.

#[local] Open Scope Z_scope.

Definition INT32_MAX : Z := 2 ^ 31 - 1.
Definition INT32_MIN : Z := - 2 ^ 31.
Definition KITH_AOI_DEFAULT_BUCKET_COUNT : Z := 4096.
Definition KITH_AOI_DEFAULT_CELL_SIZE : Z := Z.shiftl 16 16.
Definition KITH_AOI_MAX_BUCKET_COUNT : Z := 0x80000000.

Record kith_aoi_object := mkObject {
  ob_id : Z;
  ob_pos_x : Z;
  ob_pos_y : Z;
  ob_pos_z : Z;
  ob_radius : Z;
  ob_user_ptr : Z;
}.

Record kith_aoi_sphere := mkSphere { sp_cx : Z; sp_cy : Z; sp_cz : Z; sp_radius : Z }.

Record kith_aoi_box := mkBox {
  bx_min_x : Z; bx_min_y : Z; bx_min_z : Z;
  bx_max_x : Z; bx_max_y : Z; bx_max_z : Z;
}.

Definition cell_coord : Type := Z * Z * Z.

Record aoi_obj_node := mkObjNode {
  on_obj : kith_aoi_object;
  on_cell : cell_coord;
  on_cell_pos : Z;
  on_used : bool;
  on_deleted : bool;
}.

(** [cn_members] is the allocated array, of [cn_member_cap] entries. *)
Record aoi_cell_node := mkCellNode {
  cn_members : list Z;
  cn_member_count : Z;
  cn_member_cap : Z;
  cn_cell : cell_coord;
  cn_used : bool;
}.

Record kith_aoi := mkAoi {
  ao_objs : list aoi_obj_node;
  ao_obj_buckets : Z;
  ao_obj_count : Z;
  ao_cells : list aoi_cell_node;
  ao_cell_buckets : Z;
  ao_cell_size : Z;
  ao_max_radius : Z;
}.

Definition zero_object : kith_aoi_object := mkObject 0 0 0 0 0 0.
Definition zero_obj_node : aoi_obj_node := mkObjNode zero_object (0, 0, 0) 0 false false.
Definition zero_cell_node : aoi_cell_node := mkCellNode [] 0 0 (0, 0, 0) false.

(** ** Shared helpers *)

Definition aoi_mask (buckets : Z) : Z := u64 (buckets - 1).

(** Enough turns for every request up to the ceiling. *)
Definition aoi_next_pow2 (v : Z) : option Z := double_until 32 32 1 v.

Definition aoi_resolve_buckets (requested : Z) : option Z :=
  b ← aoi_next_pow2 requested; Some (if b <? 16 then 16 else b).

Definition aoi_obj_hash (id : Z) : Z :=
  let k := id in
  let k := Z.lxor k (Z.shiftr k 33) in
  let k := u64 (k * 0xff51afd7ed558ccd) in
  let k := Z.lxor k (Z.shiftr k 33) in
  let k := u64 (k * 0xc4ceb9fe1a85ec53) in
  Z.lxor k (Z.shiftr k 33).

Definition aoi_cell_hash (c : cell_coord) : Z :=
  let '(cx, cy, cz) := c in
  let k := 0 in
  let k := u64 (k * 131 + cx mod 2 ^ 32) in
  let k := u64 (k * 131 + cy mod 2 ^ 32) in
  let k := u64 (k * 131 + cz mod 2 ^ 32) in
  let k := Z.lxor k (Z.shiftr k 33) in
  let k := u64 (k * 0xff51afd7ed558ccd) in
  Z.lxor k (Z.shiftr k 33).

Definition aoi_clamp (v lo hi : Z) : Z := if v <? lo then lo else if hi <? v then hi else v.

(** Floored division, saturated to [int32_t]; C divides towards zero. *)
Definition aoi_cell_of (pos cell_size : Z) : Z :=
  let q := Z.quot pos cell_size in
  let r := Z.rem pos cell_size in
  let q := if r <? 0 then q - 1 else q in
  if INT32_MAX <? q then INT32_MAX else if q <? INT32_MIN then INT32_MIN else q.

(** ** Creation *)

Record kith_aoi_params := mkAoiParams { ap_size : Z; ap_abi_version : Z; ap_cell_size : Z; ap_bucket_count : Z }.

(** [sizeof(kith_aoi_params_t)]: the words, the padding and eight reserved pointers. *)
Definition AOI_PARAMS_SIZE : Z := 4 + 4 + 8 + 4 + 4 + 8 * 8.

Definition aoi_params_validate (params : kith_aoi_params) : option Z :=
  if ap_size params <? AOI_PARAMS_SIZE then Some KITH_ESIZE
  else if negb (ap_abi_version params =? KITH_ABI_VERSION) then Some KITH_EABIVER
  else if ap_cell_size params <? 0 then Some KITH_EINVAL
  else if KITH_AOI_MAX_BUCKET_COUNT <? ap_bucket_count params then Some KITH_EINVAL
  else None.

Definition aoi_resolve_params (p : kith_aoi_params) : kith_aoi_params :=
  mkAoiParams (ap_size p) (ap_abi_version p) (if ap_cell_size p =? 0 then KITH_AOI_DEFAULT_CELL_SIZE else ap_cell_size p)
    (if ap_bucket_count p =? 0 then KITH_AOI_DEFAULT_BUCKET_COUNT else ap_bucket_count p).

(** [None]: the call does not return. *)
Definition kith_aoi_create (mem : bool) (params : kith_aoi_params) : option (Z + kith_aoi) :=
  match aoi_params_validate params with
  | Some err => Some (inl (- err))
  | None =>
      let resolved := aoi_resolve_params params in
      if negb mem then Some (inl (- KITH_ENOMEM)) else
      buckets ← aoi_resolve_buckets (ap_bucket_count resolved);
      Some (inr (mkAoi (replicate (Z.to_nat buckets) zero_obj_node) buckets 0
                   (replicate (Z.to_nat buckets) zero_cell_node) buckets (ap_cell_size resolved) 0))
  end.

(** ** Probing *)

(** [(i + probe) & mask] with [i = hash & mask]. *)
Definition probe_at (buckets hash probe : Z) : nat :=
  Z.to_nat (Z.land (u64 (Z.land hash (aoi_mask buckets) + probe)) (aoi_mask buckets)).

Definition obj_at (a : kith_aoi) (idx : nat) : aoi_obj_node := default zero_obj_node (ao_objs a !! idx).
Definition cell_at (a : kith_aoi) (idx : nat) : aoi_cell_node := default zero_cell_node (ao_cells a !! idx).

(** The loops over [probe], with [n] probes left. *)
Fixpoint obj_find_probes (n : nat) (probe : Z) (a : kith_aoi) (id : Z) : option nat :=
  match n with
  | O => None
  | S n =>
      let idx := probe_at (ao_obj_buckets a) (aoi_obj_hash id) probe in
      let node := obj_at a idx in
      if negb (on_used node) then None
      else if on_deleted node then obj_find_probes n (probe + 1) a id
      else if ob_id (on_obj node) =? id then Some idx
      else obj_find_probes n (probe + 1) a id
  end.

Definition aoi_obj_find (a : kith_aoi) (id : Z) : option nat := obj_find_probes (Z.to_nat (ao_obj_buckets a)) 0 a id.

Fixpoint obj_slot_probes (n : nat) (probe : Z) (first_tomb : option nat) (a : kith_aoi) (id : Z) : option nat :=
  match n with
  | O => first_tomb
  | S n =>
      let idx := probe_at (ao_obj_buckets a) (aoi_obj_hash id) probe in
      let node := obj_at a idx in
      if negb (on_used node) then match first_tomb with Some t => Some t | None => Some idx end
      else if on_deleted node
      then obj_slot_probes n (probe + 1) (match first_tomb with Some t => Some t | None => Some idx end) a id
      else obj_slot_probes n (probe + 1) first_tomb a id
  end.

Definition aoi_obj_slot_for_insert (a : kith_aoi) (id : Z) : option nat :=
  obj_slot_probes (Z.to_nat (ao_obj_buckets a)) 0 None a id.

Fixpoint cell_find_probes (n : nat) (probe : Z) (a : kith_aoi) (c : cell_coord) : option nat :=
  match n with
  | O => None
  | S n =>
      let idx := probe_at (ao_cell_buckets a) (aoi_cell_hash c) probe in
      let node := cell_at a idx in
      if negb (cn_used node) then None
      else if bool_decide (cn_cell node = c) then Some idx
      else cell_find_probes n (probe + 1) a c
  end.

Definition aoi_cell_find (a : kith_aoi) (c : cell_coord) : option nat :=
  cell_find_probes (Z.to_nat (ao_cell_buckets a)) 0 a c.

Definition set_cell (idx : nat) (node : aoi_cell_node) (a : kith_aoi) : kith_aoi :=
  mkAoi (ao_objs a) (ao_obj_buckets a) (ao_obj_count a) (<[idx := node]> (ao_cells a)) (ao_cell_buckets a)
    (ao_cell_size a) (ao_max_radius a).

Definition set_obj (idx : nat) (node : aoi_obj_node) (a : kith_aoi) : kith_aoi :=
  mkAoi (<[idx := node]> (ao_objs a)) (ao_obj_buckets a) (ao_obj_count a) (ao_cells a) (ao_cell_buckets a)
    (ao_cell_size a) (ao_max_radius a).

Fixpoint cell_create_probes (n : nat) (probe : Z) (a : kith_aoi) (c : cell_coord) : kith_aoi * option nat :=
  match n with
  | O => (a, None)
  | S n =>
      let idx := probe_at (ao_cell_buckets a) (aoi_cell_hash c) probe in
      let node := cell_at a idx in
      if negb (cn_used node) then (set_cell idx (mkCellNode [] 0 0 c true) a, Some idx)
      else if bool_decide (cn_cell node = c) then (a, Some idx)
      else cell_create_probes n (probe + 1) a c
  end.

Definition aoi_cell_find_or_create (a : kith_aoi) (c : cell_coord) : kith_aoi * option nat :=
  cell_create_probes (Z.to_nat (ao_cell_buckets a)) 0 a c.

(** ** Members of a cell *)

(** The entries past the old ones are unspecified. *)
Definition aoi_cell_grow (mem : bool) (idx : nat) (a : kith_aoi) : kith_aoi * Z :=
  let cell := cell_at a idx in
  let cap := if cn_member_cap cell =? 0 then 4 else u64 (cn_member_cap cell * 2) in
  if negb mem then (a, - KITH_ENOMEM) else
  (set_cell idx (mkCellNode (cn_members cell ++ replicate (Z.to_nat (cap - cn_member_cap cell)) 0)
                   (cn_member_count cell) cap (cn_cell cell) (cn_used cell)) a, 0).

Definition aoi_cell_attach (mem : bool) (idx slot : nat) (a : kith_aoi) : kith_aoi * Z :=
  let '(a, rc) :=
    if cn_member_count (cell_at a idx) =? cn_member_cap (cell_at a idx) then aoi_cell_grow mem idx a else (a, 0) in
  if negb (rc =? 0) then (a, rc) else
  let cell := cell_at a idx in
  (set_cell idx (mkCellNode (<[Z.to_nat (cn_member_count cell) := Z.of_nat slot]> (cn_members cell))
                   (cn_member_count cell + 1) (cn_member_cap cell) (cn_cell cell) (cn_used cell)) a, 0).

Definition member (cell : aoi_cell_node) (i : Z) : Z := default 0 (cn_members cell !! Z.to_nat i).

Definition set_cell_pos (i : Z) (n : aoi_obj_node) : aoi_obj_node :=
  mkObjNode (on_obj n) (on_cell n) i (on_used n) (on_deleted n).

Definition aoi_cell_detach (slot : nat) (a : kith_aoi) : kith_aoi :=
  let obj := obj_at a slot in
  match aoi_cell_find a (on_cell obj) with
  | None => a
  | Some ci =>
      let cell := cell_at a ci in
      if cn_member_count cell =? 0 then a else
      let i := on_cell_pos obj in
      if (cn_member_count cell <=? i) || negb (member cell i =? Z.of_nat slot) then a else
      let count := cn_member_count cell - 1 in
      if negb (i =? count) then
        let moved := member cell count in
        let a := set_cell ci (mkCellNode (<[Z.to_nat i := moved]> (cn_members cell)) count (cn_member_cap cell)
                                (cn_cell cell) (cn_used cell)) a in
        set_obj (Z.to_nat moved) (set_cell_pos i (obj_at a (Z.to_nat moved))) a
      else set_cell ci (mkCellNode (cn_members cell) count (cn_member_cap cell) (cn_cell cell) (cn_used cell)) a
  end.

(** ** Insert, update, remove, look up *)

Definition cell_of_object (a : kith_aoi) (obj : kith_aoi_object) : cell_coord :=
  (aoi_cell_of (ob_pos_x obj) (ao_cell_size a), aoi_cell_of (ob_pos_y obj) (ao_cell_size a),
   aoi_cell_of (ob_pos_z obj) (ao_cell_size a)).

Definition set_count_radius (count : Z) (obj : kith_aoi_object) (a : kith_aoi) : kith_aoi :=
  mkAoi (ao_objs a) (ao_obj_buckets a) count (ao_cells a) (ao_cell_buckets a) (ao_cell_size a)
    (if ao_max_radius a <? ob_radius obj then ob_radius obj else ao_max_radius a).

Definition kith_aoi_insert (mem : bool) (obj : kith_aoi_object) (a : kith_aoi) : kith_aoi * Z :=
  match aoi_obj_find a (ob_id obj) with
  | Some _ => (a, - KITH_EEXIST)
  | None =>
      match ckd64 (ao_obj_count a + 1) with
      | None => (a, - KITH_EOVERFLOW)
      | Some total =>
          match aoi_obj_slot_for_insert a (ob_id obj) with
          | None => (a, - KITH_EBUSY)
          | Some slot =>
              let c := cell_of_object a obj in
              match aoi_cell_find_or_create a c with
              | (a, None) => (a, - KITH_EBUSY)
              | (a, Some ci) =>
                  let '(a, rc) := aoi_cell_attach mem ci slot a in
                  if negb (rc =? 0) then (a, rc) else
                  let a := set_obj slot (mkObjNode obj c (cn_member_count (cell_at a ci) - 1) true false) a in
                  (set_count_radius total obj a, 0)
              end
          end
      end
  end.

Definition kith_aoi_update (mem : bool) (obj : kith_aoi_object) (a : kith_aoi) : kith_aoi * Z :=
  match aoi_obj_find a (ob_id obj) with
  | None => (a, - KITH_ENOENT)
  | Some slot =>
      let c := cell_of_object a obj in
      let '(a, rc) :=
        if negb (bool_decide (c = on_cell (obj_at a slot))) then
          match aoi_cell_find_or_create a c with
          | (a, None) => (a, - KITH_EBUSY)
          | (a, Some ci) =>
              let '(a, rc) := aoi_cell_attach mem ci slot a in
              if negb (rc =? 0) then (a, rc) else
              let a := aoi_cell_detach slot a in
              let n := obj_at a slot in
              (set_obj slot (mkObjNode (on_obj n) c (cn_member_count (cell_at a ci) - 1) (on_used n) (on_deleted n)) a, 0)
          end
        else (a, 0) in
      if negb (rc =? 0) then (a, rc) else
      let n := obj_at a slot in
      let a := set_obj slot (mkObjNode obj (on_cell n) (on_cell_pos n) (on_used n) (on_deleted n)) a in
      (set_count_radius (ao_obj_count a) obj a, 0)
  end.

Definition kith_aoi_remove (id : Z) (a : kith_aoi) : kith_aoi * Z :=
  match aoi_obj_find a id with
  | None => (a, 0)
  | Some slot =>
      let a := aoi_cell_detach slot a in
      let n := obj_at a slot in
      let a := set_obj slot (mkObjNode (on_obj n) (on_cell n) (on_cell_pos n) (on_used n) true) a in
      (mkAoi (ao_objs a) (ao_obj_buckets a) (if 0 <? ao_obj_count a then ao_obj_count a - 1 else ao_obj_count a)
         (ao_cells a) (ao_cell_buckets a) (ao_cell_size a) (ao_max_radius a), 0)
  end.

Definition kith_aoi_lookup (a : kith_aoi) (id : Z) : Z + kith_aoi_object :=
  match aoi_obj_find a id with
  | None => inl (- KITH_ENOENT)
  | Some slot => inr (on_obj (obj_at a slot))
  end.

Definition kith_aoi_size (a : kith_aoi) : Z := ao_obj_count a.

(** ** Predicates and regions *)

Definition u128 (z : Z) : Z := z mod 2 ^ 128.

Definition abs128 (z : Z) : Z := if z <? 0 then u128 (- z) else z.

Fixpoint axes_within (axes : list Z) (ar r2 sum : Z) : bool :=
  match axes with
  | [] => true
  | d :: axes =>
      let ad := abs128 d in
      if ar <? ad then false else
      let sq := u128 (ad * ad) in
      if u128 (r2 - sum) <? sq then false else axes_within axes ar r2 (u128 (sum + sq))
  end.

Definition aoi_dist_within (dx dy dz radius : Z) : bool :=
  let ar := abs128 radius in axes_within [dx; dy; dz] ar (u128 (ar * ar)) 0.

Definition aoi_pred_sphere (s : kith_aoi_sphere) (o : kith_aoi_object) : bool :=
  aoi_dist_within (ob_pos_x o - sp_cx s) (ob_pos_y o - sp_cy s) (ob_pos_z o - sp_cz s) (sp_radius s + ob_radius o).

Definition aoi_pred_box (b : kith_aoi_box) (o : kith_aoi_object) : bool :=
  aoi_dist_within (ob_pos_x o - aoi_clamp (ob_pos_x o) (bx_min_x b) (bx_max_x b))
    (ob_pos_y o - aoi_clamp (ob_pos_y o) (bx_min_y b) (bx_max_y b))
    (ob_pos_z o - aoi_clamp (ob_pos_z o) (bx_min_z b) (bx_max_z b)) (ob_radius o).

Definition aoi_region_cell (endpoint cell_size : Z) : Z :=
  let q := Z.quot endpoint cell_size in
  let r := Z.rem endpoint cell_size in
  let q := if r <? 0 then q - 1 else q in
  if INT32_MAX <? q then INT32_MAX else if q <? INT32_MIN then INT32_MIN else q.

Definition aoi_region_sphere (a : kith_aoi) (s : kith_aoi_sphere) : cell_coord * cell_coord :=
  let reach := sp_radius s + ao_max_radius a in
  let cell e := aoi_region_cell e (ao_cell_size a) in
  ((cell (sp_cx s - reach), cell (sp_cy s - reach), cell (sp_cz s - reach)),
   (cell (sp_cx s + reach), cell (sp_cy s + reach), cell (sp_cz s + reach))).

Definition aoi_region_box (a : kith_aoi) (b : kith_aoi_box) : cell_coord * cell_coord :=
  let m := ao_max_radius a in
  let cell e := aoi_region_cell e (ao_cell_size a) in
  ((cell (bx_min_x b - m), cell (bx_min_y b - m), cell (bx_min_z b - m)),
   (cell (bx_max_x b + m), cell (bx_max_y b + m), cell (bx_max_z b + m))).

(** ** Queries *)

(** [++] on an [int32_t]; the step past [INT32_MAX] is undefined. *)
Definition next32 (c : Z) : option Z := if c =? INT32_MAX then None else Some (c + 1).

Section Visit.
Context {V : Type} (pred : kith_aoi_object → bool) (visit : kith_aoi_object → V → V * bool).

(** The visitor's state, and whether to go on. *)
Fixpoint visit_members (a : kith_aoi) (slots : list Z) (v : V) : V * bool :=
  match slots with
  | [] => (v, true)
  | m :: slots =>
      let o := on_obj (obj_at a (Z.to_nat m)) in
      if negb (pred o) then visit_members a slots v else
      let '(v, go) := visit o v in
      if negb go then (v, false) else visit_members a slots v
  end.

Definition visit_cell (a : kith_aoi) (c : cell_coord) (v : V) : V * bool :=
  match aoi_cell_find a c with
  | None => (v, true)
  | Some ci => visit_members a (take (Z.to_nat (cn_member_count (cell_at a ci))) (cn_members (cell_at a ci))) v
  end.

(** [for (int32_t c = lo; c <= hi; ++c)], given up after [fuel] turns and where [++c] is undefined. *)
Fixpoint for_axis (fuel : nat) (c hi : Z) (body : Z → V → option (V * bool)) (v : V) : option (V * bool) :=
  match fuel with
  | O => None
  | S fuel =>
      if c <=? hi then
        '(v, go) ← body c v;
        if negb go then Some (v, false) else c ← next32 c; for_axis fuel c hi body v
      else Some (v, true)
  end.

Definition aoi_visit_region (fuel : nat) (a : kith_aoi) (region : cell_coord * cell_coord) (v : V) : option (V * bool) :=
  let '((lox, loy, loz), (hix, hiy, hiz)) := region in
  for_axis fuel loz hiz (λ cz, for_axis fuel loy hiy (λ cy, for_axis fuel lox hix (λ cx v, Some (visit_cell a (cx, cy, cz) v)))) v.
End Visit.

(** [None]: still running when every loop has had [fuel] turns, or behaviour the language does not define. *)
Definition kith_aoi_query_sphere {V} (fuel : nat) (a : kith_aoi) (s : kith_aoi_sphere)
    (visit : kith_aoi_object → V → V * bool) (v : V) : option V :=
  fst <$> aoi_visit_region (aoi_pred_sphere s) visit fuel a (aoi_region_sphere a s) v.

Definition kith_aoi_query_box {V} (fuel : nat) (a : kith_aoi) (b : kith_aoi_box)
    (visit : kith_aoi_object → V → V * bool) (v : V) : option V :=
  fst <$> aoi_visit_region (aoi_pred_box b) visit fuel a (aoi_region_box a b) v.
