(* ===== verification/AoiTables.v ===== *)
(** * The tables of the spatial index

    Linear probing with tombstones in general, then the object table, the
    cell table and the member lists of the index: what each of them holds and
    how the steps of an insert, a move and a removal change it. *)

From S2P Require Import Prelude PyStruct PyWire Proto CWords Aoi.

#[local] Open Scope Z_scope.

Lemma delete_after_insert {A} (l : list A) i x : delete i (<[i := x]> l) = delete i l.
Proof. revert i. induction l as [|y l IH]; intros [|i]; cbn; [done|done|done|]. f_equal. apply IH. Qed.

(** ** Open addressing

    A table of [2 ^ k] nodes probed linearly from a hash of the key.  A node
    is occupied when probing goes past it and live when it holds its key. *)

Section OpenTable.
Context {N K : Type} `{EqDecision K} (live : N → bool) (key : N → K).

(** The live node of a key. *)
Definition holds_key (l : list N) (x : K) (i : nat) : Prop := ∃ n, l !! i = Some n ∧ live n = true ∧ key n = x.

Lemma holds_insert l i nd x j : (i < length l)%nat →
  holds_key (<[i := nd]> l) x j ↔ (j = i ∧ live nd = true ∧ key nd = x) ∨ (j ≠ i ∧ holds_key l x j).
Proof.
  intros Hi. unfold holds_key. destruct (decide (j = i)) as [->|Hne].
  - rewrite list_lookup_insert_eq by done. naive_solver.
  - rewrite list_lookup_insert_ne by done. naive_solver.
Qed.

(** The number of live nodes. *)
Definition live_count (l : list N) : nat := length (filter (λ n, live n = true) l).

Lemma live_count_insert l i n nd : l !! i = Some n →
  (live_count (<[i := nd]> l) + (if live n then 1 else 0) = live_count l + (if live nd then 1 else 0))%nat.
Proof.
  intros Hl. unfold live_count.
  assert (∀ l x, l !! i = Some x → length (filter (λ n, live n = true) l) =
    ((if live x then 1 else 0) + length (filter (λ n, live n = true) (delete i l)))%nat) as Hc.
  { intros l0 x Hx. rewrite (delete_Permutation l0 i x) at 1 by done. rewrite filter_cons. destruct (live x); case_decide; done. }
  rewrite (Hc l n) by done. rewrite (Hc (<[i := nd]> l) nd).
  - rewrite delete_after_insert. lia.
  - apply list_lookup_insert_eq. by eapply lookup_lt_Some.
Qed.

Context (free : N) (occupied : N → bool) (hash : K → Z).
Context (Hlive : ∀ n, live n = true → occupied n = true).
Context (k : Z) (Hk : 0 ≤ k ≤ 62).

Let cap : Z := 2 ^ k.

(** The [d]-th node probed for a key. *)
Definition slot_of (x : K) (d : Z) : nat := Z.to_nat ((hash x + d) mod cap).

Lemma table_cap : 0 < cap ≤ 2 ^ 62.
Proof. unfold cap. pose proof (pow2_pos k ltac:(lia)). pose proof (pow2_le k 62 ltac:(lia)). lia. Qed.

Lemma probe_slot x d : 0 ≤ d < cap → probe_at cap (hash x) d = slot_of x d.
Proof.
  intros Hd. pose proof table_cap. unfold probe_at, slot_of, aoi_mask. rewrite (u64_id (cap - 1)) by lia.
  unfold cap at 1 2. rewrite !land_low by lia. fold cap. pose proof (Z.mod_pos_bound (hash x) cap ltac:(lia)).
  rewrite u64_id by lia. by rewrite Zplus_mod_idemp_l.
Qed.

Lemma slot_of_lt x d : Z.of_nat (slot_of x d) < cap.
Proof. pose proof table_cap. pose proof (Z.mod_pos_bound (hash x + d) cap ltac:(lia)). unfold slot_of. lia. Qed.

Lemma slot_of_inj x d d' : 0 ≤ d < cap → 0 ≤ d' < cap → slot_of x d = slot_of x d' → d = d'.
Proof.
  unfold slot_of. intros Hd Hd' Heq. pose proof table_cap.
  pose proof (Z.mod_pos_bound (hash x + d) cap ltac:(lia)). pose proof (Z.mod_pos_bound (hash x + d') cap ltac:(lia)).
  assert ((hash x + d) mod cap = (hash x + d') mod cap) as Hm by lia.
  apply Z.cong_iff_0 in Hm. replace (hash x + d - (hash x + d')) with (d - d') in Hm by lia.
  apply Z.mod_divide in Hm as [q Hq]; [|lia]. assert (q ≤ -1 ∨ q = 0 ∨ 1 ≤ q) as [|[->|]] by lia; nia.
Qed.

Lemma slot_of_surj x (i : nat) : Z.of_nat i < cap → ∃ d, 0 ≤ d < cap ∧ slot_of x d = i.
Proof.
  intros Hi. pose proof table_cap. exists ((Z.of_nat i - hash x) mod cap).
  split; [apply Z.mod_pos_bound; lia|]. unfold slot_of. rewrite Z.add_mod_idemp_r, Zplus_minus, Z.mod_small by lia. lia.
Qed.

Definition node_of (l : list N) (i : nat) : N := default free (l !! i).

(** The nodes probed before the [d]-th are occupied. *)
Definition crosses (l : list N) (x : K) (d : Z) : Prop := ∀ d', 0 ≤ d' < d → occupied (node_of l (slot_of x d')) = true.

Record table_inv (l : list N) : Prop := {
  ti_len : Z.of_nat (length l) = cap;
  ti_reach i x : holds_key l x i → ∃ d, 0 ≤ d < cap ∧ slot_of x d = i ∧ crosses l x d;
  ti_unique i j x : holds_key l x i → holds_key l x j → i = j;
}.

Lemma node_lookup l i n : l !! i = Some n → node_of l i = n.
Proof. unfold node_of. by intros ->. Qed.

Lemma node_of_lookup l x d : table_inv l → l !! slot_of x d = Some (node_of l (slot_of x d)).
Proof.
  intros Hi. destruct (lookup_lt_is_Some_2 l (slot_of x d)) as [n Hn]; [|by rewrite Hn, (node_lookup _ _ _ Hn)].
  pose proof (slot_of_lt x d). pose proof (ti_len _ Hi). lia.
Qed.

(** *** Finding *)

Fixpoint find_node (n : nat) (d : Z) (l : list N) (x : K) : option nat :=
  match n with
  | O => None
  | S n =>
      let nd := node_of l (slot_of x d) in
      if negb (occupied nd) then None
      else if live nd && bool_decide (key nd = x) then Some (slot_of x d)
      else find_node n (d + 1) l x
  end.

Lemma find_node_spec l x : table_inv l → ∀ n d i, 0 ≤ d → d + Z.of_nat n = cap →
  (∀ d', 0 ≤ d' < d → ¬ holds_key l x (slot_of x d')) → find_node n d l x = Some i ↔ holds_key l x i.
Proof.
  intros Hi. induction n as [|n IH]; intros d i Hd Hn Hno; cbn [find_node].
  { split; [done|]. intros Hh. destruct (ti_reach _ Hi _ _ Hh) as (d0 & Hd0 & <- & _). by destruct (Hno d0 ltac:(lia)). }
  pose proof (node_of_lookup l x d Hi) as Hl. set (nd := node_of l (slot_of x d)) in *.
  assert (¬ holds_key l x (slot_of x d) → holds_key l x i → ∃ d0, d < d0 < cap ∧ slot_of x d0 = i ∧ crosses l x d0) as Hlater.
  { intros Hnh Hh. destruct (ti_reach _ Hi _ _ Hh) as (d0 & Hd0 & <- & Hc). exists d0. split; [|done].
    destruct (Z.lt_trichotomy d0 d) as [|[->|]]; [by destruct (Hno d0 ltac:(lia))|done|lia]. }
  destruct (occupied nd) eqn:Ho; cbn [negb].
  2: { split; [done|]. intros Hh. destruct Hlater as (d0 & Hd0 & _ & Hc); [|done|].
       - intros (n' & Hn' & Hlv & _). rewrite Hl in Hn'. injection Hn' as <-. apply Hlive in Hlv. congruence.
       - specialize (Hc d ltac:(lia)). fold nd in Hc. congruence. }
  destruct (live nd && bool_decide (key nd = x)) eqn:Hm.
  - apply andb_true_iff in Hm as [Hlv Hkey%bool_decide_eq_true_1].
    assert (holds_key l x (slot_of x d)) as Hh by by exists nd.
    split; [by intros [= <-]|]. intros Hh'. f_equal. by eapply ti_unique.
  - apply IH; [lia|lia|]. intros d' Hd'. destruct (decide (d' = d)) as [->|]; [|by apply Hno; lia].
    intros (n' & Hn' & Hlv & Hkey). rewrite Hl in Hn'. injection Hn' as <-.
    by rewrite Hlv, bool_decide_eq_true_2 in Hm.
Qed.

Lemma find_node_all l x i : table_inv l → find_node (Z.to_nat cap) 0 l x = Some i ↔ holds_key l x i.
Proof. intros Hi. pose proof table_cap. apply find_node_spec; [done|lia|lia|]. intros d' Hd'. lia. Qed.

(** *** Changing a node *)

Lemma crosses_insert l i nd x d : (i < length l)%nat → occupied nd = true → crosses l x d → crosses (<[i := nd]> l) x d.
Proof.
  intros Hi Ho Hc d' Hd'. unfold node_of. destruct (decide (slot_of x d' = i)) as [Heq|Hne].
  - rewrite Heq, list_lookup_insert_eq by done. done.
  - rewrite list_lookup_insert_ne by done. by apply Hc.
Qed.

(** The key of a live node may not change; a live node may die. *)
Lemma table_change l i n nd : table_inv l → l !! i = Some n → occupied nd = true →
  (live nd = true → live n = true ∧ key nd = key n) → table_inv (<[i := nd]> l).
Proof.
  intros [Hlen Hreach Huniq] Hi Ho Hkeep. pose proof (lookup_lt_Some _ _ _ Hi) as Hlt.
  assert (∀ x j, holds_key (<[i := nd]> l) x j → holds_key l x j) as Hback.
  { intros x j [(-> & Hl & <-)|[_ Hh]]%holds_insert; [|done|done]. destruct (Hkeep Hl) as [Hln ->]. by exists n. }
  split.
  - by rewrite length_insert.
  - intros j x Hh%Hback. destruct (Hreach j x Hh) as (d & Hd & Hs & Hc). exists d. split_and!; [lia|lia|done|by apply crosses_insert].
  - intros j j' x Hh%Hback Hh'%Hback. by eapply Huniq.
Qed.

(** A new key goes where its probes lead. *)
Lemma table_add l x d nd : table_inv l → (∀ j, ¬ holds_key l x j) → 0 ≤ d < cap → crosses l x d →
  live nd = true → key nd = x → live (node_of l (slot_of x d)) = false → table_inv (<[slot_of x d := nd]> l).
Proof.
  intros Hi Hno Hd Hc Hl Hkey Hdead. pose proof (node_of_lookup l x d Hi) as Hat. pose proof (lookup_lt_Some _ _ _ Hat) as Hlt.
  assert (∀ y j, holds_key (<[slot_of x d := nd]> l) y j → (j = slot_of x d ∧ y = x) ∨ (j ≠ slot_of x d ∧ y ≠ x ∧ holds_key l y j)) as Hback.
  { intros y j [(-> & _ & <-)|[Hne Hh]]%holds_insert; [by left| |done]. right. split_and!; [done|intros ->; by eapply Hno|done]. }
  split.
  - rewrite length_insert. apply Hi.
  - intros j y [[-> ->]|(Hne & _ & Hh)]%Hback.
    + exists d. split_and!; [lia|lia|done|]. apply crosses_insert; [done|by apply Hlive|done].
    + destruct (ti_reach _ Hi _ _ Hh) as (d0 & Hd0 & Hs & Hc0). exists d0. split_and!; [lia|lia|done|].
      apply crosses_insert; [done|by apply Hlive|done].
  - intros j j' y [[-> ->]|(Hne & Hny & Hh)]%Hback [[-> ?]|(Hne' & Hny' & Hh')]%Hback; try congruence.
    by eapply (ti_unique _ Hi).
Qed.

(** Every node is live when the count says so. *)
Lemma live_count_full l : table_inv l → (∀ i n, l !! i = Some n → live n = true) ↔ Z.of_nat (live_count l) = cap.
Proof.
  intros Hi. rewrite <- (ti_len _ Hi). unfold live_count. split.
  - intros Hall. rewrite filter_all; [done|]. by apply Forall_lookup.
  - intros Heq i n Hn. destruct (live n) eqn:Hl; [done|]. exfalso.
    assert (length (filter (λ n, live n = true) l) < length l)%nat; [|lia].
    apply (length_filter_lt _ _ n); [by eapply list_elem_of_lookup_2|congruence].
Qed.
End OpenTable.

(** ** The two tables of the index *)

Definition obj_live (n : aoi_obj_node) : bool := on_used n && negb (on_deleted n).
Definition obj_key (n : aoi_obj_node) : Z := ob_id (on_obj n).

Abbreviation obj_table := (table_inv obj_live obj_key zero_obj_node on_used aoi_obj_hash).
Abbreviation cell_table := (table_inv cn_used cn_cell zero_cell_node cn_used aoi_cell_hash).
Abbreviation has_id := (holds_key obj_live obj_key).
Abbreviation has_cell := (holds_key cn_used cn_cell).

Lemma obj_live_used n : obj_live n = true → on_used n = true.
Proof. unfold obj_live. by intros [? _]%andb_true_iff. Qed.

Section Tables.
Context (k : Z) (Hk : 0 ≤ k ≤ 62) (a : kith_aoi).
Context (Hob : ao_obj_buckets a = 2 ^ k) (Hcb : ao_cell_buckets a = 2 ^ k).
Context (Hobjs : obj_table k (ao_objs a)) (Hcells : cell_table k (ao_cells a)).

Abbreviation islot := (slot_of aoi_obj_hash k).
Abbreviation cslot := (slot_of aoi_cell_hash k).

Lemma obj_find_spec id i : aoi_obj_find a id = Some i ↔ has_id (ao_objs a) id i.
Proof.
  unfold aoi_obj_find. rewrite Hob. rewrite <- (find_node_all obj_live obj_key zero_obj_node on_used aoi_obj_hash obj_live_used k Hk) by done. f_equiv.
  assert (∀ n d, 0 ≤ d → d + Z.of_nat n = 2 ^ k →
    obj_find_probes n d a id = find_node obj_live obj_key zero_obj_node on_used aoi_obj_hash k n d (ao_objs a) id) as Heq.
  { induction n as [|n IH]; intros d Hd Hn; [done|]. cbn [obj_find_probes find_node]. rewrite Hob, probe_slot by lia.
    unfold obj_at. fold (node_of zero_obj_node (ao_objs a) (islot id d)). set (nd := node_of _ _ _).
    rewrite IH by lia. unfold obj_live, obj_key. destruct (on_used nd); [|done]. cbn [negb andb].
    destruct (on_deleted nd); [done|]. cbn [negb andb]. destruct (Z.eqb_spec (ob_id (on_obj nd)) id); by case_bool_decide. }
  rewrite Heq; [done|lia|]. pose proof (pow2_pos k ltac:(lia)). lia.
Qed.

Lemma cell_find_spec c i : aoi_cell_find a c = Some i ↔ has_cell (ao_cells a) c i.
Proof.
  unfold aoi_cell_find. rewrite Hcb. rewrite <- (find_node_all cn_used cn_cell zero_cell_node cn_used aoi_cell_hash (λ _ H, H) k Hk) by done. f_equiv.
  assert (∀ n d, 0 ≤ d → d + Z.of_nat n = 2 ^ k →
    cell_find_probes n d a c = find_node cn_used cn_cell zero_cell_node cn_used aoi_cell_hash k n d (ao_cells a) c) as Heq.
  { induction n as [|n IH]; intros d Hd Hn; [done|]. cbn [cell_find_probes find_node]. rewrite Hcb, probe_slot by lia.
    unfold cell_at. fold (node_of zero_cell_node (ao_cells a) (cslot c d)). set (nd := node_of _ _ _).
    rewrite IH by lia. destruct (cn_used nd); [|done]. cbn [negb andb]. done. }
  rewrite Heq; [done|lia|]. pose proof (pow2_pos k ltac:(lia)). lia.
Qed.

(** Where a new object goes: the first tombstone or free node of its probes,
    and nowhere only if every node is live. *)
Definition slot_good (id : Z) (i : nat) : Prop :=
  ∃ d, 0 ≤ d < 2 ^ k ∧ i = islot id d ∧ crosses zero_obj_node on_used aoi_obj_hash k (ao_objs a) id d ∧
    obj_live (node_of zero_obj_node (ao_objs a) i) = false.

Lemma slot_probes_spec id n : ∀ d tomb, 0 ≤ d → d + Z.of_nat n = 2 ^ k →
  crosses zero_obj_node on_used aoi_obj_hash k (ao_objs a) id d →
  match tomb with
  | Some t => slot_good id t
  | None => ∀ d', 0 ≤ d' < d → obj_live (node_of zero_obj_node (ao_objs a) (islot id d')) = true
  end →
  match obj_slot_probes n d tomb a id with
  | Some i => slot_good id i
  | None => ∀ d', 0 ≤ d' < 2 ^ k → obj_live (node_of zero_obj_node (ao_objs a) (islot id d')) = true
  end.
Proof.
  induction n as [|n IH]; intros d tomb Hd Hn Hc Ht; cbn [obj_slot_probes].
  { destruct tomb; [done|]. intros d' Hd'. apply Ht. lia. }
  rewrite Hob, probe_slot by lia. unfold obj_at. fold (node_of zero_obj_node (ao_objs a) (islot id d)). set (nd := node_of _ _ _).
  destruct (on_used nd) eqn:Hu; cbn [negb].
  2: { destruct tomb; [done|]. exists d. split_and!; [lia|lia|done|done|]. unfold obj_live. fold nd. by rewrite Hu. }
  assert (crosses zero_obj_node on_used aoi_obj_hash k (ao_objs a) id (d + 1)) as Hc1.
  { intros d' Hd'. destruct (decide (d' = d)) as [->|]; [done|]. apply Hc. lia. }
  destruct (on_deleted nd) eqn:Hdel; apply IH; try done; try lia.
  - destruct tomb; [done|]. exists d. split_and!; [lia|lia|done|done|]. unfold obj_live. fold nd. by rewrite Hu, Hdel.
  - destruct tomb; [done|]. intros d' Hd'. destruct (decide (d' = d)) as [->|]; [|apply Ht; lia]. unfold obj_live. fold nd. by rewrite Hu, Hdel.
Qed.

Lemma slot_for_insert_spec id :
  match aoi_obj_slot_for_insert a id with
  | Some i => slot_good id i
  | None => Z.of_nat (live_count obj_live (ao_objs a)) = 2 ^ k
  end.
Proof.
  unfold aoi_obj_slot_for_insert. rewrite Hob. pose proof (pow2_pos k ltac:(lia)).
  pose proof (slot_probes_spec id (Z.to_nat (2 ^ k)) 0 None ltac:(lia) ltac:(lia)) as Hs.
  destruct (obj_slot_probes _ _ _ _ _); [apply Hs; intros d' Hd'; lia|].
  apply (live_count_full obj_live obj_key zero_obj_node on_used aoi_obj_hash k Hk); [done|]. intros i n Hn.
  destruct (slot_of_surj aoi_obj_hash k Hk id i) as (d & Hd & Hi).
  { pose proof (ti_len _ _ _ _ _ _ _ Hobjs). apply lookup_lt_Some in Hn. lia. }
  assert (obj_live (node_of zero_obj_node (ao_objs a) (islot id d)) = true) as Hl by (apply Hs; [intros d' Hd'; lia|intros d' Hd'; lia|done]).
  by rewrite Hi, (node_lookup _ _ _ _ Hn) in Hl.
Qed.

(** A cell found or made. *)
Lemma find_or_create_spec c :
  (∃ i, aoi_cell_find_or_create a c = (a, Some i) ∧ has_cell (ao_cells a) c i) ∨
  (∀ i, ¬ has_cell (ao_cells a) c i) ∧
  ((∃ d, 0 ≤ d < 2 ^ k ∧ crosses zero_cell_node cn_used aoi_cell_hash k (ao_cells a) c d ∧
      cn_used (node_of zero_cell_node (ao_cells a) (cslot c d)) = false ∧
      aoi_cell_find_or_create a c = (set_cell (cslot c d) (mkCellNode [] 0 0 c true) a, Some (cslot c d))) ∨
   aoi_cell_find_or_create a c = (a, None) ∧ Z.of_nat (live_count cn_used (ao_cells a)) = 2 ^ k).
Proof.
  pose proof (pow2_pos k ltac:(lia)). unfold aoi_cell_find_or_create. rewrite Hcb.
  assert (∀ n d, 0 ≤ d → d + Z.of_nat n = 2 ^ k → crosses zero_cell_node cn_used aoi_cell_hash k (ao_cells a) c d →
    (∀ d', 0 ≤ d' < d → cn_cell (node_of zero_cell_node (ao_cells a) (cslot c d')) ≠ c) →
    (∃ i, cell_create_probes n d a c = (a, Some i) ∧ has_cell (ao_cells a) c i) ∨
    (∃ d', 0 ≤ d' < 2 ^ k ∧ crosses zero_cell_node cn_used aoi_cell_hash k (ao_cells a) c d' ∧
       (∀ d'', 0 ≤ d'' < d' → cn_cell (node_of zero_cell_node (ao_cells a) (cslot c d'')) ≠ c) ∧
       cn_used (node_of zero_cell_node (ao_cells a) (cslot c d')) = false ∧
       cell_create_probes n d a c = (set_cell (cslot c d') (mkCellNode [] 0 0 c true) a, Some (cslot c d'))) ∨
    cell_create_probes n d a c = (a, None) ∧ (∀ d', 0 ≤ d' < 2 ^ k →
       cn_used (node_of zero_cell_node (ao_cells a) (cslot c d')) = true ∧ cn_cell (node_of zero_cell_node (ao_cells a) (cslot c d')) ≠ c)) as Hloop.
  { induction n as [|n IH]; intros d Hd Hn Hc Hno; cbn [cell_create_probes].
    { right. right. split; [done|]. intros d' Hd'. split; [apply Hc; lia|apply Hno; lia]. }
    rewrite Hcb, probe_slot by lia. unfold cell_at. fold (node_of zero_cell_node (ao_cells a) (cslot c d)).
    destruct (cn_used (node_of zero_cell_node (ao_cells a) (cslot c d))) eqn:Hu; cbn [negb].
    2: { right. left. exists d. split_and!; try done; lia. }
    case_bool_decide as Hcell.
    - left. exists (cslot c d). split; [done|]. eexists. split_and!; [by eapply node_of_lookup|done|done].
    - apply IH; [lia|lia| |]; intros d' Hd'; (destruct (decide (d' = d)) as [->|]; [done|]); [apply Hc|apply Hno]; lia. }
  destruct (Hloop (Z.to_nat (2 ^ k)) 0) as [Hf|[(d & Hd & Hc & Hno & Hu & He)|[He Hall]]]; try lia; try (intros d' Hd'; lia).
  - by left.
  - right. split; [|left; by exists d]. intros i (n & Hn & Hlv & Hkey).
    destruct (ti_reach _ _ _ _ _ _ _ Hcells i c) as (d0 & Hd0 & <- & Hc0); [by exists n|].
    pose proof (node_lookup zero_cell_node _ _ _ Hn) as Hnd. destruct (Z.lt_trichotomy d0 d) as [Hlt|[->|Hgt]].
    + destruct (Hno d0 ltac:(lia)). by rewrite Hnd.
    + by rewrite Hnd, Hlv in Hu.
    + specialize (Hc0 d ltac:(lia)). congruence.
  - right. split.
    + intros i (n & Hn & Hlv & Hkey). destruct (ti_reach _ _ _ _ _ _ _ Hcells i c) as (d0 & Hd0 & <- & _); [by exists n|].
      destruct (Hall d0 Hd0) as [_ Hne]. by rewrite (node_lookup zero_cell_node _ _ _ Hn) in Hne.
    + right. split; [done|]. apply (live_count_full cn_used cn_cell zero_cell_node cn_used aoi_cell_hash k Hk); [done|]. intros i n Hn.
      destruct (slot_of_surj aoi_cell_hash k Hk c i) as (d & Hd & Hi).
      { pose proof (ti_len _ _ _ _ _ _ _ Hcells). apply lookup_lt_Some in Hn. lia. }
      destruct (Hall d Hd) as [Hu _]. by rewrite Hi, (node_lookup _ _ _ _ Hn) in Hu.
Qed.
End Tables.

(** ** The members of the cells *)

(** Slot [x] is at position [j] of the member list of cell [c]. *)
Definition listed (cells : list aoi_cell_node) (x : nat) (c : cell_coord) (j : Z) : Prop :=
  ∃ ci cell, cells !! ci = Some cell ∧ cn_used cell = true ∧ cn_cell cell = c ∧ 0 ≤ j < cn_member_count cell ∧
    cn_members cell !! Z.to_nat j = Some (Z.of_nat x).

(** The member array is allocated for its count. *)
Definition cell_fits (limit : Z) (cell : aoi_cell_node) : Prop :=
  0 ≤ cn_member_count cell ≤ cn_member_cap cell ∧ zlen (cn_members cell) = cn_member_cap cell ∧ cn_member_cap cell ≤ limit ∧
  Forall (λ z, 0 ≤ z) (cn_members cell).

Lemma member_in_range limit cell i : cell_fits limit cell → 0 ≤ i < cn_member_count cell →
  cn_members cell !! Z.to_nat i = Some (member cell i).
Proof.
  intros (Hc & Hz & _) Hi. unfold member. destruct (lookup_lt_is_Some_2 (cn_members cell) (Z.to_nat i)) as [x ->]; [|done].
  unfold zlen in Hz. lia.
Qed.

Lemma cell_at_lookup a ci cell : ao_cells a !! ci = Some cell → cell_at a ci = cell.
Proof. unfold cell_at. by intros ->. Qed.

Lemma obj_at_lookup a i n : ao_objs a !! i = Some n → obj_at a i = n.
Proof. unfold obj_at. by intros ->. Qed.

(** A cell with one more member. *)
Record extends (cell cell' : aoi_cell_node) (slot : nat) (limit : Z) : Prop := {
  ex_cell : cn_cell cell' = cn_cell cell;
  ex_used : cn_used cell' = cn_used cell;
  ex_count : cn_member_count cell' = cn_member_count cell + 1;
  ex_last : cn_members cell' !! Z.to_nat (cn_member_count cell) = Some (Z.of_nat slot);
  ex_others j : 0 ≤ j < cn_member_count cell → cn_members cell' !! Z.to_nat j = cn_members cell !! Z.to_nat j;
  ex_fits : cell_fits limit cell';
}.

Lemma grown_extends limit cell members cap slot : cell_fits limit cell → cap ≤ limit →
  cn_member_count cell < cap → (∃ tail, members = cn_members cell ++ tail) → Forall (λ z, 0 ≤ z) members → zlen members = cap →
  extends cell (mkCellNode (<[Z.to_nat (cn_member_count cell) := Z.of_nat slot]> members) (cn_member_count cell + 1) cap
    (cn_cell cell) (cn_used cell)) slot limit.
Proof.
  intros (Hc & Hz & Hl & Hn) Hcap Hlt [tail ->] Hnt Hm. unfold zlen in *. split; cbn; try done.
  - apply list_lookup_insert_eq. lia.
  - intros j Hj. rewrite list_lookup_insert_ne by lia. apply lookup_app_l. lia.
  - split_and!; cbn; try lia; [unfold zlen; rewrite length_insert; lia|]. apply Forall_insert; [done|lia].
Qed.

Lemma attach_shape mem ci slot a cell limit : ao_cells a !! ci = Some cell → cell_fits limit cell → 4 ≤ limit ≤ 2 ^ 62 →
  2 * cn_member_count cell ≤ limit →
  aoi_cell_attach mem ci slot a = (a, - KITH_ENOMEM) ∧ mem = false ∨
  ∃ cell', aoi_cell_attach mem ci slot a = (set_cell ci cell' a, 0) ∧ extends cell cell' slot limit.
Proof.
  intros Hci Hfit Hlim H2. pose proof Hfit as (Hc & Hz & Hle & Hnn). unfold aoi_cell_attach. rewrite (cell_at_lookup _ _ _ Hci).
  destruct (Z.eqb_spec (cn_member_count cell) (cn_member_cap cell)) as [Hfull|Hroom].
  2: { right. cbn [negb Z.eqb]. rewrite (cell_at_lookup _ _ _ Hci). eexists. split; [done|].
       apply grown_extends; try done; [lia|]. exists []. by rewrite app_nil_r. }
  unfold aoi_cell_grow. rewrite (cell_at_lookup _ _ _ Hci). destruct mem; cbn [negb]; [|by left].
  right. set (cap := if cn_member_cap cell =? 0 then 4 else u64 (cn_member_cap cell * 2)).
  assert (cn_member_count cell < cap ≤ limit) as Hcap.
  { unfold cap. destruct (Z.eqb_spec (cn_member_cap cell) 0); [lia|]. rewrite u64_id by lia. lia. }
  rewrite Z.eqb_refl. cbn [negb]. set (members := cn_members cell ++ _). set (grown := mkCellNode members _ _ _ _).
  assert (cell_at (set_cell ci grown a) ci = grown) as ->.
  { apply cell_at_lookup. cbn. apply list_lookup_insert_eq. by eapply lookup_lt_Some. }
  cbn [grown cn_member_count cn_members cn_member_cap cn_cell cn_used]. eexists. split.
  { unfold set_cell. cbn. by rewrite list_insert_insert_eq. }
  apply grown_extends; try done; [lia|lia|by eexists| |].
  - apply Forall_app. split; [done|]. by apply Forall_replicate.
  - unfold members, zlen in *. rewrite length_app, length_replicate. lia.
Qed.

Lemma listed_extends cells ci cell cell' slot limit x c j : cells !! ci = Some cell → cn_used cell = true → extends cell cell' slot limit →
  0 ≤ cn_member_count cell →
  listed (<[ci := cell']> cells) x c j ↔
  listed cells x c j ∨ x = slot ∧ c = cn_cell cell ∧ j = cn_member_count cell.
Proof.
  intros Hci Hu [Hcell Hused Hcount Hlast Hothers _] Hpos. pose proof (lookup_lt_Some _ _ _ Hci) as Hlt. split.
  - intros (ci' & nd & Hl & Hu' & Hc & Hj & Hm). destruct (decide (ci' = ci)) as [->|Hne].
    + rewrite list_lookup_insert_eq in Hl by done. injection Hl as <-. destruct (decide (j = cn_member_count cell)) as [->|].
      * right. rewrite Hlast in Hm. injection Hm as Hm. split_and!; [lia|congruence|done].
      * left. exists ci, cell. rewrite Hothers in Hm by lia. split_and!; try done; (congruence || lia).
    + rewrite list_lookup_insert_ne in Hl by done. left. by exists ci', nd.
  - intros [(ci' & nd & Hl & Hu' & Hc & Hj & Hm)|(-> & -> & ->)].
    + destruct (decide (ci' = ci)) as [->|Hne].
      * assert (nd = cell) as -> by congruence. exists ci, cell'. rewrite list_lookup_insert_eq by done.
        rewrite Hothers by lia. split_and!; try done; (congruence || lia).
      * exists ci', nd. by rewrite list_lookup_insert_ne.
    + exists ci, cell'. rewrite list_lookup_insert_eq by done. split_and!; try done; (congruence || lia).
Qed.

(** A cell without the member at [i], the last one moved into its place. *)
Record shrinks (cell cell' : aoi_cell_node) (i : Z) (m : nat) (limit : Z) : Prop := {
  sh_cell : cn_cell cell' = cn_cell cell;
  sh_used : cn_used cell' = cn_used cell;
  sh_count : cn_member_count cell' = cn_member_count cell - 1;
  sh_moved : 0 ≤ i < cn_member_count cell - 1 → cn_members cell' !! Z.to_nat i = Some (Z.of_nat m);
  sh_others j : 0 ≤ j < cn_member_count cell - 1 → j ≠ i → cn_members cell' !! Z.to_nat j = cn_members cell !! Z.to_nat j;
  sh_fits : cell_fits limit cell';
}.

Lemma detach_shape a slot n ci cell m nm limit :
  ao_objs a !! slot = Some n → aoi_cell_find a (on_cell n) = Some ci → ao_cells a !! ci = Some cell → cell_fits limit cell →
  0 ≤ on_cell_pos n < cn_member_count cell → cn_members cell !! Z.to_nat (on_cell_pos n) = Some (Z.of_nat slot) →
  member cell (cn_member_count cell - 1) = Z.of_nat m → ao_objs a !! m = Some nm →
  ∃ cell', shrinks cell cell' (on_cell_pos n) m limit ∧
    aoi_cell_detach slot a =
    if decide (on_cell_pos n = cn_member_count cell - 1) then set_cell ci cell' a
    else set_obj m (set_cell_pos (on_cell_pos n) nm) (set_cell ci cell' a).
Proof.
  intros Hs Hf Hci Hfit Hi Hm Hlast Hnm. pose proof Hfit as (Hc & Hz & Hl & Hnn). unfold aoi_cell_detach.
  rewrite (obj_at_lookup _ _ _ Hs), Hf, (cell_at_lookup _ _ _ Hci), (proj2 (Z.eqb_neq _ _)), (proj2 (Z.leb_gt _ _)) by lia. cbn [orb].
  assert (member cell (on_cell_pos n) = Z.of_nat slot) as -> by (unfold member; by rewrite Hm). rewrite Z.eqb_refl. cbn [negb].
  destruct (Z.eqb_spec (on_cell_pos n) (cn_member_count cell - 1)) as [Heq|Hne]; cbn [negb].
  - eexists. rewrite decide_True by done. split; [|done]. split; cbn; try done; [lia|]. split_and!; cbn; (done || lia).
  - eexists. rewrite decide_False, Hlast, Nat2Z.id by done. unfold zlen in *. split; [|f_equal; f_equal; by apply obj_at_lookup].
    split; cbn; try done.
    + intros _. apply list_lookup_insert_eq. lia.
    + intros j Hj Hji. apply list_lookup_insert_ne. lia.
    + split_and!; cbn; try lia; [unfold zlen; rewrite length_insert; lia|]. apply Forall_insert; [done|lia].
Qed.

Lemma listed_shrinks cells ci cell cell' i m limit x c j : cells !! ci = Some cell → cn_used cell = true →
  (∀ ci', has_cell cells (cn_cell cell) ci' → ci' = ci) → shrinks cell cell' i m limit → 0 ≤ i < cn_member_count cell →
  listed (<[ci := cell']> cells) x c j ↔
  c ≠ cn_cell cell ∧ listed cells x c j ∨
  c = cn_cell cell ∧ 0 ≤ j < cn_member_count cell - 1 ∧ (j = i ∧ x = m ∨ j ≠ i ∧ listed cells x c j).
Proof.
  intros Hci Hu Huniq [Hcell Hused Hcount Hmoved Hothers _] Hi. pose proof (lookup_lt_Some _ _ _ Hci) as Hlt. split.
  - intros (ci' & nd & Hl & Hu' & Hc & Hj & Hm). destruct (decide (ci' = ci)) as [->|Hne].
    + rewrite list_lookup_insert_eq in Hl by done. injection Hl as <-. rewrite Hcell in Hc. rewrite Hcount in Hj. right.
      split_and!; [done|lia|lia|]. destruct (decide (j = i)) as [->|Hji].
      * left. rewrite Hmoved in Hm by lia. injection Hm as Hm. split; [done|lia].
      * right. split; [done|]. exists ci, cell. rewrite Hothers in Hm by lia. split_and!; try done; lia.
    + rewrite list_lookup_insert_ne in Hl by done. left. split; [|by exists ci', nd].
      intros Heq. apply Hne, Huniq. exists nd. split_and!; [done|done|congruence].
  - intros [[Hne (ci' & nd & Hl & Hu' & Hc & Hj & Hm)]|(-> & Hj & [[-> ->]|[Hji (ci' & nd & Hl & Hu' & Hc & Hj' & Hm)]])].
    + exists ci', nd. assert (ci' ≠ ci) by congruence. by rewrite list_lookup_insert_ne.
    + exists ci, cell'. rewrite list_lookup_insert_eq by done. rewrite Hmoved by lia. split_and!; try done; (congruence || lia).
    + assert (ci' = ci) as -> by (apply Huniq; by exists nd). assert (nd = cell) as -> by congruence.
      exists ci, cell'. rewrite list_lookup_insert_eq by done. rewrite Hothers by done. split_and!; try done; (congruence || lia).
Qed.

(** ** The invariant *)

(** The objects of [s] are those of the live nodes. *)
Record objs_ok (k : Z) (objs : list aoi_obj_node) (s : gmap Z kith_aoi_object) : Prop := {
  oo_table : obj_table k objs;
  oo_content id o : s !! id = Some o ↔ ∃ i n, objs !! i = Some n ∧ obj_live n = true ∧ on_obj n = o ∧ ob_id o = id;
  oo_count : size s = live_count obj_live objs;
}.

(** The cells of [cs] are those with a node. *)
Record cells_ok (k : Z) (cells : list aoi_cell_node) (cs : gset cell_coord) : Prop := {
  co_table : cell_table k cells;
  co_set c : c ∈ cs ↔ ∃ i, has_cell cells c i;
  co_count : size cs = live_count cn_used cells;
  co_fits ci cell : cells !! ci = Some cell → cn_used cell = true → cell_fits (2 ^ (k + 1)) cell;
}.

(** The member lists and the objects' own records agree. *)
Definition linked (objs : list aoi_obj_node) (cells : list aoi_cell_node) : Prop :=
  ∀ x c j, listed cells x c j ↔ ∃ n, objs !! x = Some n ∧ obj_live n = true ∧ on_cell n = c ∧ on_cell_pos n = j.

(** The index holds the objects of [s] and has ever used the cells of [cs]. *)
Record aoi_ok (k : Z) (a : kith_aoi) (s : gmap Z kith_aoi_object) (cs : gset cell_coord) : Prop := {
  ok_buckets : 4 ≤ k ≤ 31 ∧ ao_obj_buckets a = 2 ^ k ∧ ao_cell_buckets a = 2 ^ k;
  ok_objs : objs_ok k (ao_objs a) s;
  ok_cells : cells_ok k (ao_cells a) cs;
  ok_cell_size : 0 < ao_cell_size a;
  ok_count : ao_obj_count a = Z.of_nat (size s);
  ok_link : linked (ao_objs a) (ao_cells a);
  ok_place x n : ao_objs a !! x = Some n → obj_live n = true → on_cell n = cell_of_object a (on_obj n);
  ok_radius : 0 ≤ ao_max_radius a ∧ ∀ id o, s !! id = Some o → ob_radius o ≤ ao_max_radius a;
}.

(** A cell lists distinct slots, so no more than there are. *)
Lemma members_bounded k a s cs ci cell : aoi_ok k a s cs → ao_cells a !! ci = Some cell → cn_used cell = true →
  cn_member_count cell ≤ 2 ^ k.
Proof.
  intros Hok Hci Hu. pose proof (co_fits _ _ _ (ok_cells _ _ _ _ Hok) _ _ Hci Hu) as Hfit. pose proof Hfit as (Hc & _ & _ & Hnn).
  rewrite <- (ti_len _ _ _ _ _ _ _ (oo_table _ _ _ (ok_objs _ _ _ _ Hok))).
  set (slots := (λ j, Z.to_nat (member cell (Z.of_nat j))) <$> seq 0 (Z.to_nat (cn_member_count cell))).
  assert (∀ j, (j < Z.to_nat (cn_member_count cell))%nat →
    ∃ n, ao_objs a !! Z.to_nat (member cell (Z.of_nat j)) = Some n ∧ on_cell_pos n = Z.of_nat j) as Hslot.
  { intros j Hj. pose proof (member_in_range _ _ (Z.of_nat j) Hfit ltac:(lia)) as Hm.
    pose proof (Forall_lookup_1 _ _ _ _ Hnn Hm) as Hpos. cbn in Hpos.
    destruct (proj1 (ok_link _ _ _ _ Hok (Z.to_nat (member cell (Z.of_nat j))) (cn_cell cell) (Z.of_nat j))) as (n & Hn & _ & _ & Hp); [|by exists n].
    exists ci, cell. rewrite Z2Nat.id by done. split_and!; (done || lia). }
  assert (length slots = Z.to_nat (cn_member_count cell)) as Hlen by (unfold slots; by rewrite length_fmap, length_seq).
  assert (NoDup slots) as Hnd.
  { apply NoDup_fmap_2_strong; [|apply NoDup_seq]. intros j j' Hj%elem_of_seq Hj'%elem_of_seq Heq.
    destruct (Hslot j) as (n & Hn & Hp); [lia|]. destruct (Hslot j') as (n' & Hn' & Hp'); [lia|].
    rewrite Heq, Hn' in Hn. injection Hn as ->. lia. }
  assert (slots ⊆+ seq 0 (length (ao_objs a))) as Hsub%submseteq_length.
  { apply NoDup_submseteq; [done|]. intros x (j & -> & Hj%elem_of_seq)%list_elem_of_fmap.
    destruct (Hslot j) as (n & Hn & _); [lia|]. apply lookup_lt_Some in Hn. apply elem_of_seq. lia. }
  rewrite length_seq, Hlen in Hsub. lia.
Qed.

(** *** Changing objects *)

Lemma content_id k objs s i n : objs_ok k objs s → objs !! i = Some n → obj_live n = true → s !! obj_key n = Some (on_obj n).
Proof. intros Hok Hi Hl. apply (oo_content _ _ _ Hok). by exists i, n. Qed.

(** A key names one node. *)
Lemma same_node k objs s i j n m : objs_ok k objs s → objs !! i = Some n → objs !! j = Some m →
  obj_live n = true → obj_live m = true → obj_key n = obj_key m → i = j.
Proof. intros Hok Hi Hj Hn Hm Hkey. eapply (ti_unique _ _ _ _ _ _ _ (oo_table _ _ _ Hok)); [by exists n|by exists m]. Qed.

Lemma objs_change k objs s i n n' : 0 ≤ k ≤ 62 → objs_ok k objs s → objs !! i = Some n → obj_live n = true → obj_live n' = true →
  obj_key n' = obj_key n → objs_ok k (<[i := n']> objs) (<[obj_key n := on_obj n']> s).
Proof.
  intros Hk Hok Hi Hn Hn' Hkey. pose proof (lookup_lt_Some _ _ _ Hi) as Hlt. pose proof (content_id _ _ _ _ _ Hok Hi Hn) as Hs. split.
  - eapply table_change; [apply Hok|done|by apply obj_live_used|done].
  - intros id o. destruct (decide (id = obj_key n)) as [->|Hid].
    + rewrite lookup_insert_eq. split.
      * intros [= <-]. exists i, n'. rewrite list_lookup_insert_eq by done. done.
      * intros (j & m & Hj & Hm & <- & Hid'). destruct (decide (j = i)) as [->|Hne].
        -- rewrite list_lookup_insert_eq in Hj by done. by injection Hj as <-.
        -- rewrite list_lookup_insert_ne in Hj by done. destruct Hne. by eapply same_node.
    + rewrite lookup_insert_ne, (oo_content _ _ _ Hok) by done. split.
      * intros (j & m & Hj & Hm & <- & Hid'). exists j, m. rewrite list_lookup_insert_ne; [done|]. intros ->. apply Hid. unfold obj_key. congruence.
      * intros (j & m & Hj & Hm & <- & Hid'). destruct (decide (j = i)) as [->|Hne].
        -- rewrite list_lookup_insert_eq in Hj by done. injection Hj as <-. destruct Hid. rewrite <- Hkey. done.
        -- rewrite list_lookup_insert_ne in Hj by done. by exists j, m.
  - pose proof (live_count_insert obj_live objs i n n' Hi) as Hc. rewrite Hn, Hn' in Hc. rewrite map_size_insert, Hs, (oo_count _ _ _ Hok).
    cbn. lia.
Qed.

Lemma objs_kill k objs s i n n' : 0 ≤ k ≤ 62 → objs_ok k objs s → objs !! i = Some n → obj_live n = true → on_used n' = true → obj_live n' = false →
  objs_ok k (<[i := n']> objs) (delete (obj_key n) s).
Proof.
  intros Hk Hok Hi Hn Hu Hn'. pose proof (lookup_lt_Some _ _ _ Hi) as Hlt. pose proof (content_id _ _ _ _ _ Hok Hi Hn) as Hs. split.
  - eapply table_change; [apply Hok|done|done|by rewrite Hn'].
  - intros id o. rewrite lookup_delete_Some, (oo_content _ _ _ Hok). split.
    + intros (Hne & j & m & Hj & Hm & <- & Hid'). exists j, m. rewrite list_lookup_insert_ne; [done|]. intros ->. apply Hne. unfold obj_key. congruence.
    + intros (j & m & Hj & Hm & <- & Hid'). destruct (decide (j = i)) as [->|Hne].
      * rewrite list_lookup_insert_eq in Hj by done. injection Hj as <-. congruence.
      * rewrite list_lookup_insert_ne in Hj by done. split; [|by exists j, m]. intros Hid. destruct Hne. eapply same_node; try done. unfold obj_key in *. congruence.
  - pose proof (live_count_insert obj_live objs i n n' Hi) as Hc. rewrite Hn, Hn' in Hc. rewrite map_size_delete, Hs, (oo_count _ _ _ Hok). cbn. lia.
Qed.

Lemma objs_add k objs s i n d : 0 ≤ k ≤ 62 → objs_ok k objs s → s !! obj_key n = None → obj_live n = true → 0 ≤ d < 2 ^ k →
  i = slot_of aoi_obj_hash k (obj_key n) d → crosses zero_obj_node on_used aoi_obj_hash k objs (obj_key n) d →
  obj_live (node_of zero_obj_node objs i) = false → objs_ok k (<[i := n]> objs) (<[obj_key n := on_obj n]> s).
Proof.
  intros Hk Hok Hnone Hn Hd -> Hc Hdead. pose proof (oo_table _ _ _ Hok) as Ht.
  pose proof (node_of_lookup obj_live obj_key zero_obj_node on_used aoi_obj_hash k Hk objs (obj_key n) d Ht) as Hi.
  pose proof (lookup_lt_Some _ _ _ Hi) as Hlt. set (i := slot_of _ _ _ _) in *. set (old := node_of _ _ _) in *.
  assert (∀ j, ¬ has_id objs (obj_key n) j) as Hno.
  { intros j (m & Hj & Hm & Hkey). rewrite <- Hkey in Hnone. by rewrite (content_id _ _ _ _ _ Hok Hj Hm) in Hnone. }
  split.
  - eapply table_add; try done. apply obj_live_used.
  - intros id o. destruct (decide (id = obj_key n)) as [->|Hid].
    + rewrite lookup_insert_eq. split; [intros [= <-]; exists i, n; by rewrite list_lookup_insert_eq|].
      intros (j & m & Hj & Hm & <- & Hkey). destruct (decide (j = i)) as [->|Hne].
      * rewrite list_lookup_insert_eq in Hj by done. by injection Hj as <-.
      * rewrite list_lookup_insert_ne in Hj by done. destruct (Hno j). by exists m.
    + rewrite lookup_insert_ne, (oo_content _ _ _ Hok) by done. split.
      * intros (j & m & Hj & Hm & <- & Hkey). exists j, m. rewrite list_lookup_insert_ne; [done|]. intros ->. congruence.
      * intros (j & m & Hj & Hm & <- & Hkey). destruct (decide (j = i)) as [->|Hne].
        -- rewrite list_lookup_insert_eq in Hj by done. injection Hj as <-. done.
        -- rewrite list_lookup_insert_ne in Hj by done. by exists j, m.
  - pose proof (live_count_insert obj_live objs i old n Hi) as Hc'. rewrite Hn, Hdead in Hc'.
    rewrite map_size_insert, Hnone, (oo_count _ _ _ Hok). lia.
Qed.

(** *** Changing cells *)

Lemma cells_change k cells cs ci cell cell' : 0 ≤ k ≤ 62 → cells_ok k cells cs → cells !! ci = Some cell → cn_used cell = true →
  cn_cell cell' = cn_cell cell → cn_used cell' = cn_used cell → cell_fits (2 ^ (k + 1)) cell' → cells_ok k (<[ci := cell']> cells) cs.
Proof.
  intros Hk Hok Hci Hu Hc Hu' Hf. pose proof (lookup_lt_Some _ _ _ Hci) as Hlt. rewrite Hu in Hu'. split.
  - eapply table_change; [apply Hok|done|done|done].
  - intros c. rewrite (co_set _ _ _ Hok). split.
    + intros [j Hj]. exists j. rewrite (holds_insert cn_used cn_cell) by done. destruct (decide (j = ci)) as [->|]; [|by right].
      left. destruct Hj as (n & Hn & _ & <-). split_and!; [done|done|congruence].
    + intros [j [(-> & _ & <-)|[_ Hj]]%holds_insert]; [|by exists j|done]. exists ci. by exists cell.
  - pose proof (live_count_insert cn_used cells ci cell cell' Hci) as Hn. rewrite Hu, Hu' in Hn. rewrite (co_count _ _ _ Hok). lia.
  - intros j nd Hj. destruct (decide (j = ci)) as [->|Hne].
    + rewrite list_lookup_insert_eq in Hj by done. by injection Hj as <-.
    + rewrite list_lookup_insert_ne in Hj by done. by apply (co_fits _ _ _ Hok j).
Qed.

Lemma cells_add k cells cs c d : 0 ≤ k ≤ 62 → cells_ok k cells cs → (∀ i, ¬ has_cell cells c i) → 0 ≤ d < 2 ^ k →
  let i := slot_of aoi_cell_hash k c d in
  crosses zero_cell_node cn_used aoi_cell_hash k cells c d → cn_used (node_of zero_cell_node cells i) = false →
  let cells' := <[i := mkCellNode [] 0 0 c true]> cells in
  cells_ok k cells' ({[c]} ∪ cs) ∧ has_cell cells' c i ∧ (c ∉ cs) ∧ (∀ x c' j, listed cells' x c' j ↔ listed cells x c' j).
Proof.
  intros Hk Hok Hno Hd i Hc Hfree cells'. pose proof (co_table _ _ _ Hok) as Ht.
  pose proof (node_of_lookup cn_used cn_cell zero_cell_node cn_used aoi_cell_hash k Hk cells c d Ht) as Hi. fold i in Hi.
  pose proof (lookup_lt_Some _ _ _ Hi) as Hlt. set (old := node_of _ _ _) in *.
  assert (c ∉ cs) as Hout by (intros [j Hj]%(co_set _ _ _ Hok); by eapply Hno).
  assert (has_cell cells' c i) as Hhas by (eexists; split; [by apply list_lookup_insert_eq|done]).
  split_and!; [|done|done|].
  - split.
    + by eapply table_add.
    + intros c'. rewrite elem_of_union, elem_of_singleton, (co_set _ _ _ Hok). split.
      * intros [->|[j Hj]]; [by exists i|]. exists j. unfold cells'. rewrite (holds_insert cn_used cn_cell) by done. right. split; [|done].
        intros ->. destruct Hj as (n & Hn & Hlv & _). rewrite Hi in Hn. injection Hn as <-. congruence.
      * intros [j [(-> & _ & <-)|[_ Hj]]%holds_insert]; [by left|right; by exists j|done].
    + pose proof (live_count_insert cn_used cells i old (mkCellNode [] 0 0 c true) Hi) as Hn. rewrite Hfree in Hn. cbn in Hn.
      rewrite size_union by set_solver. rewrite size_singleton, (co_count _ _ _ Hok). unfold cells'. lia.
    + intros j nd Hj Hu. destruct (decide (j = i)) as [->|Hne].
      * unfold cells' in Hj. rewrite list_lookup_insert_eq in Hj by done. injection Hj as <-.
        pose proof (pow2_pos (k + 1) ltac:(lia)). unfold cell_fits. cbn. split_and!; (done || lia || by constructor).
      * unfold cells' in Hj. rewrite list_lookup_insert_ne in Hj by done. by apply (co_fits _ _ _ Hok j).
  - intros x c' j. unfold listed, cells'. split; intros (ci & cell & Hci & Hu & Hcell & Hj & Hm).
    + destruct (decide (ci = i)) as [->|Hne].
      * rewrite list_lookup_insert_eq in Hci by done. injection Hci as <-. cbn in Hj. lia.
      * rewrite list_lookup_insert_ne in Hci by done. by exists ci, cell.
    + exists ci, cell. rewrite list_lookup_insert_ne; [done|]. intros ->. congruence.
Qed.

(** *** Taking a slot out of its cell *)

(** The node of [x] records position [j] of cell [c]. *)
Definition recorded (objs : list aoi_obj_node) (x : nat) (c : cell_coord) (j : Z) : Prop :=
  ∃ n, objs !! x = Some n ∧ obj_live n = true ∧ on_cell n = c ∧ on_cell_pos n = j.

Lemma recorded_fun objs x c j c' j' : recorded objs x c j → recorded objs x c' j' → c = c' ∧ j = j'.
Proof. intros (n & Hn & _ & <- & <-) (n' & Hn' & _ & <- & <-). by simplify_eq. Qed.

(** A place of a cell has one slot. *)
Lemma listed_fun k cells cs x x' c j : cells_ok k cells cs → listed cells x c j → listed cells x' c j → x = x'.
Proof.
  intros Hok (ci & cell & Hci & Hu & Hc & _ & Hm) (ci' & cell' & Hci' & Hu' & Hc' & _ & Hm').
  assert (ci = ci') as <- by (eapply (ti_unique _ _ _ _ _ _ _ (co_table _ _ _ Hok)); [by exists cell|exists cell'; by split_and!; [| |congruence]]).
  by simplify_eq.
Qed.

Section Detach.
Context (k : Z) (a : kith_aoi) (s : gmap Z kith_aoi_object) (cs : gset cell_coord) (slot : nat) (n : aoi_obj_node).
Context (Hk : 0 ≤ k ≤ 62) (Hcb : ao_cell_buckets a = 2 ^ k).
Context (Hobjs : objs_ok k (ao_objs a) s) (Hcells : cells_ok k (ao_cells a) cs).
Context (Hslot : ao_objs a !! slot = Some n) (Hlive : obj_live n = true).
Context (Hat : listed (ao_cells a) slot (on_cell n) (on_cell_pos n)).
Context (Honly : ∀ j, listed (ao_cells a) slot (on_cell n) j → j = on_cell_pos n).
Context (Hothers : ∀ x c j, x ≠ slot → listed (ao_cells a) x c j ↔ recorded (ao_objs a) x c j).

(** The cell, its last place and the slot there. *)
Lemma detach_cell : ∃ ci cell m, ao_cells a !! ci = Some cell ∧ cn_used cell = true ∧ cn_cell cell = on_cell n ∧
  aoi_cell_find a (on_cell n) = Some ci ∧ 0 ≤ on_cell_pos n < cn_member_count cell ∧
  cn_members cell !! Z.to_nat (on_cell_pos n) = Some (Z.of_nat slot) ∧ member cell (cn_member_count cell - 1) = Z.of_nat m ∧
  listed (ao_cells a) m (on_cell n) (cn_member_count cell - 1) ∧ recorded (ao_objs a) m (on_cell n) (cn_member_count cell - 1).
Proof.
  destruct Hat as (ci & cell & Hci & Hu & Hc & Hj & Hm). exists ci, cell.
  pose proof (co_fits _ _ _ Hcells _ _ Hci Hu) as Hfit. pose proof Hfit as (_ & _ & _ & Hnn).
  pose proof (member_in_range _ _ (cn_member_count cell - 1) Hfit ltac:(lia)) as Hlast.
  pose proof (Forall_lookup_1 _ _ _ _ Hnn Hlast) as Hpos. cbn in Hpos. exists (Z.to_nat (member cell (cn_member_count cell - 1))).
  rewrite Z2Nat.id by done. assert (listed (ao_cells a) (Z.to_nat (member cell (cn_member_count cell - 1))) (on_cell n) (cn_member_count cell - 1)) as Hl.
  { exists ci, cell. rewrite Z2Nat.id by done. split_and!; (done || lia). }
  split_and!; try done; try lia.
  - apply (cell_find_spec k); [done|done|apply Hcells|]. by exists cell.
  - destruct (decide (Z.to_nat (member cell (cn_member_count cell - 1)) = slot)) as [Heq|Hne]; [|by apply Hothers].
    rewrite Heq in *. exists n. split_and!; try done. symmetry. by apply Honly.
Qed.

Lemma detach_ok : ∃ objs' cells', aoi_cell_detach slot a =
    mkAoi objs' (ao_obj_buckets a) (ao_obj_count a) cells' (ao_cell_buckets a) (ao_cell_size a) (ao_max_radius a) ∧
  objs_ok k objs' s ∧ cells_ok k cells' cs ∧ objs' !! slot = Some n ∧
  (∀ ci cell, ao_cells a !! ci = Some cell → cn_cell cell ≠ on_cell n → cells' !! ci = Some cell) ∧
  (∀ c j, listed cells' slot c j ↔ c ≠ on_cell n ∧ listed (ao_cells a) slot c j) ∧
  (∀ x c j, x ≠ slot → listed cells' x c j ↔ recorded objs' x c j) ∧
  (∀ x nx, objs' !! x = Some nx → obj_live nx = true → ∃ nx', ao_objs a !! x = Some nx' ∧ obj_live nx' = true ∧ on_obj nx' = on_obj nx ∧ on_cell nx' = on_cell nx).
Proof.
  destruct detach_cell as (ci & cell & m & Hci & Hu & Hc & Hf & Hpos & Hm & Hlast & Hlm & Hrm). pose proof Hrm as (nm & Hnm & Hlvm & Hcm & Hpm).
  destruct (detach_shape a slot n ci cell m nm (2 ^ (k + 1)) Hslot Hf Hci (co_fits _ _ _ Hcells _ _ Hci Hu) Hpos Hm Hlast Hnm) as (cell' & Hsh & ->).
  assert (m = slot ↔ on_cell_pos n = cn_member_count cell - 1) as Hms.
  { split; [intros ->; simplify_eq; lia|]. intros Heq. eapply listed_fun; [done|exact Hlm|]. rewrite <- Heq. exact Hat. }
  set (last := cn_member_count cell - 1) in *. set (pos := on_cell_pos n) in *.
  set (objs' := if decide (pos = last) then ao_objs a else <[m := set_cell_pos pos nm]> (ao_objs a)).
  exists objs', (<[ci := cell']> (ao_cells a)). pose proof (lookup_lt_Some _ _ _ Hnm) as Hltm.
  assert (∀ x, x ≠ slot → objs' !! x = if decide (x = m) then Some (set_cell_pos pos nm) else ao_objs a !! x) as Hobjs'.
  { intros x Hx. unfold objs'. destruct (decide (pos = last)) as [Heq|Hne].
    - apply Hms in Heq as ->. by rewrite decide_False.
    - destruct (decide (x = m)) as [->|Hxm]; [by apply list_lookup_insert_eq|by apply list_lookup_insert_ne]. }
  assert (∀ x c j, listed (<[ci := cell']> (ao_cells a)) x c j ↔ c ≠ on_cell n ∧ listed (ao_cells a) x c j ∨
    c = on_cell n ∧ 0 ≤ j < last ∧ (j = pos ∧ x = m ∨ j ≠ pos ∧ listed (ao_cells a) x c j)) as Hlisted.
  { intros x c j. rewrite <- Hc. eapply (listed_shrinks _ _ _ _ _ _ _ _ _ _ Hci Hu); [|done|done].
    intros ci' Hci'. eapply (ti_unique _ _ _ _ _ _ _ (co_table _ _ _ Hcells)); [exact Hci'|by exists cell]. }
  split_and!.
  - unfold objs'. by destruct (decide (pos = last)).
  - unfold objs'. destruct (decide (pos = last)); [done|]. rewrite <- (insert_id s (obj_key nm) (on_obj nm)) by by eapply content_id.
    by apply (objs_change k (ao_objs a) s m nm (set_cell_pos pos nm)).
  - eapply cells_change; try done; apply Hsh.
  - unfold objs'. destruct (decide (pos = last)) as [|Hne]; [done|]. rewrite list_lookup_insert_ne; [done|]. intros ->. by apply Hne, Hms.
  - intros ci' nd Hci' Hnd. rewrite list_lookup_insert_ne; [done|]. intros ->. congruence.
  - intros c j. rewrite Hlisted. split; [|naive_solver]. intros [?|(-> & Hj & [[-> ->]|[Hjp Hl]])]; [done| |].
    + assert (pos = last) by by apply Hms. lia.
    + by apply Honly in Hl.
  - intros x c j Hx. rewrite Hlisted. unfold recorded. rewrite Hobjs' by done. destruct (decide (x = m)) as [->|Hxm].
    + assert (pos ≠ last) as Hpl by (intros ?%Hms; done). split.
      * intros [[Hcn Hl]|(-> & Hj & [[-> _]|[Hjp Hl]])].
        -- apply Hothers in Hl; [|done]. destruct (recorded_fun _ _ _ _ _ _ Hl Hrm). congruence.
        -- exists (set_cell_pos pos nm). by split_and!.
        -- apply Hothers in Hl; [|done]. destruct (recorded_fun _ _ _ _ _ _ Hl Hrm). lia.
      * intros (nx & [= <-] & _ & <- & <-). right. cbn. rewrite Hcm. split_and!; [done|lia|lia|by left].
    + fold (recorded (ao_objs a) x c j). rewrite <- Hothers by done. split; [naive_solver|].
      intros Hl. destruct (decide (c = on_cell n)) as [->|Hcn]; [|by left]. right.
      assert (j ≠ pos) by (intros ->; apply Hx; by eapply listed_fun). assert (j ≠ last) by (intros ->; apply Hxm; by eapply listed_fun).
      split_and!; [done|..|right; done]; destruct Hl as (ci' & nd & Hci' & Hu' & Hc' & Hj & _);
        assert (ci' = ci) as -> by (eapply (ti_unique _ _ _ _ _ _ _ (co_table _ _ _ Hcells)); [exists nd; by split_and!|exists cell; by split_and!]); simplify_eq; lia.
  - intros x nx Hxn Hlx. destruct (decide (x = slot)) as [->|Hx].
    + unfold objs' in Hxn. exists n. destruct (decide (pos = last)) as [|Hne]; [by simplify_eq|].
      rewrite list_lookup_insert_ne in Hxn by (intros ->; by apply Hne, Hms). by simplify_eq.
    + rewrite Hobjs' in Hxn by done. destruct (decide (x = m)) as [->|]; [injection Hxn as <-; by exists nm|by exists nx].
Qed.
End Detach.
