(* ===== verification/AoiTheorems.v ===== *)
(** * The spatial index refines a finite map of objects

    Every call answers as the plain map from identifiers to objects does, the
    capacity limits apart, and a query visits exactly the matching objects. *)

From S2P Require Import Prelude PyStruct PyWire Proto CWords Aoi AoiTables.

#[local] Open Scope Z_scope.

(** ** The abstract index *)

(** The objects, and the cells any object has ever been in. *)
Definition spatial : Type := gmap Z kith_aoi_object * gset cell_coord.

Inductive aoi_call :=
  | Insert (mem : bool) (obj : kith_aoi_object)
  | Update (mem : bool) (obj : kith_aoi_object)
  | Remove (id : Z)
  | Lookup (id : Z)
  | Size.

Inductive aoi_reply :=
  | Status (rc : Z)
  | Found (obj : kith_aoi_object)
  | Total (n : Z).

Section Spec.
Context (cap : Z) (cell : kith_aoi_object → cell_coord).

(** There is room for a cell. *)
Definition cell_room (cs : gset cell_coord) (c : cell_coord) : Prop := c ∈ cs ∨ Z.of_nat (size cs) < cap.

Inductive spatial_step : spatial → aoi_call → aoi_reply → spatial → Prop :=
  | insert_exists s cs mem o o' : s !! ob_id o = Some o' → spatial_step (s, cs) (Insert mem o) (Status (- KITH_EEXIST)) (s, cs)
  | insert_objects_full s cs mem o : s !! ob_id o = None → Z.of_nat (size s) = cap →
      spatial_step (s, cs) (Insert mem o) (Status (- KITH_EBUSY)) (s, cs)
  | insert_cells_full s cs mem o : s !! ob_id o = None → Z.of_nat (size s) < cap → ¬ cell_room cs (cell o) →
      spatial_step (s, cs) (Insert mem o) (Status (- KITH_EBUSY)) (s, cs)
  | insert_no_memory s cs o : s !! ob_id o = None → Z.of_nat (size s) < cap → cell_room cs (cell o) →
      spatial_step (s, cs) (Insert false o) (Status (- KITH_ENOMEM)) (s, {[cell o]} ∪ cs)
  | insert_done s cs mem o : s !! ob_id o = None → Z.of_nat (size s) < cap → cell_room cs (cell o) →
      spatial_step (s, cs) (Insert mem o) (Status 0) (<[ob_id o := o]> s, {[cell o]} ∪ cs)
  | update_missing s cs mem o : s !! ob_id o = None → spatial_step (s, cs) (Update mem o) (Status (- KITH_ENOENT)) (s, cs)
  | update_cells_full s cs mem o o' : s !! ob_id o = Some o' → cell o ≠ cell o' → ¬ cell_room cs (cell o) →
      spatial_step (s, cs) (Update mem o) (Status (- KITH_EBUSY)) (s, cs)
  | update_no_memory s cs o o' : s !! ob_id o = Some o' → cell o ≠ cell o' → cell_room cs (cell o) →
      spatial_step (s, cs) (Update false o) (Status (- KITH_ENOMEM)) (s, {[cell o]} ∪ cs)
  | update_done s cs mem o o' : s !! ob_id o = Some o' → cell o = cell o' ∨ cell_room cs (cell o) →
      spatial_step (s, cs) (Update mem o) (Status 0) (<[ob_id o := o]> s, {[cell o]} ∪ cs)
  | remove_done s cs id : spatial_step (s, cs) (Remove id) (Status 0) (delete id s, cs)
  | lookup_found s cs id o : s !! id = Some o → spatial_step (s, cs) (Lookup id) (Found o) (s, cs)
  | lookup_missing s cs id : s !! id = None → spatial_step (s, cs) (Lookup id) (Status (- KITH_ENOENT)) (s, cs)
  | size_done s cs : spatial_step (s, cs) Size (Total (Z.of_nat (size s))) (s, cs).
End Spec.

Definition aoi_step (c : aoi_call) (a : kith_aoi) : kith_aoi * aoi_reply :=
  match c with
  | Insert mem o => let '(a, rc) := kith_aoi_insert mem o a in (a, Status rc)
  | Update mem o => let '(a, rc) := kith_aoi_update mem o a in (a, Status rc)
  | Remove id => let '(a, rc) := kith_aoi_remove id a in (a, Status rc)
  | Lookup id => (a, match kith_aoi_lookup a id with inl rc => Status rc | inr o => Found o end)
  | Size => (a, Total (kith_aoi_size a))
  end.

(** ** Simulation *)

Section Ok.
Context (k : Z) (a : kith_aoi) (s : gmap Z kith_aoi_object) (cs : gset cell_coord) (Hok : aoi_ok k a s cs).

Lemma ok_k : 0 ≤ k ≤ 62.
Proof. pose proof (ok_buckets _ _ _ _ Hok). lia. Qed.

(** What a lookup finds. *)
Lemma find_ok id :
  match aoi_obj_find a id with
  | Some i => ∃ n, ao_objs a !! i = Some n ∧ obj_live n = true ∧ obj_key n = id ∧ s !! id = Some (on_obj n)
  | None => s !! id = None
  end.
Proof.
  pose proof (ok_buckets _ _ _ _ Hok) as (_ & Hob & _). pose proof (ok_objs _ _ _ _ Hok) as Ho.
  pose proof (obj_find_spec k ok_k a Hob (oo_table _ _ _ Ho) id) as Hf. destruct (aoi_obj_find a id) as [i|].
  - destruct (proj1 (Hf i) eq_refl) as (n & Hi & Hl & Hkey). exists n. split_and!; try done. rewrite <- Hkey. by eapply content_id.
  - destruct (s !! id) as [o|] eqn:Hs; [|done]. apply (oo_content _ _ _ Ho) in Hs as (i & n & Hi & Hl & <- & Hid).
    assert (None = Some i) by (apply Hf; by exists n). done.
Qed.

Lemma size_bound : Z.of_nat (size s) ≤ 2 ^ k.
Proof.
  pose proof (ok_objs _ _ _ _ Hok) as Ho. rewrite (oo_count _ _ _ Ho), <- (ti_len _ _ _ _ _ _ _ (oo_table _ _ _ Ho)).
  unfold live_count. pose proof (length_filter (λ n, obj_live n = true) (ao_objs a)). lia.
Qed.

(** The state with a cell ready for an object, or no room for it. *)
Lemma cell_ready c :
  (∃ a' ci, aoi_cell_find_or_create a c = (a', Some ci) ∧ aoi_ok k a' s ({[c]} ∪ cs) ∧ has_cell (ao_cells a') c ci ∧
     ao_objs a' = ao_objs a ∧ ao_obj_count a' = ao_obj_count a ∧ ao_cell_size a' = ao_cell_size a ∧
     ao_max_radius a' = ao_max_radius a ∧ cell_room (2 ^ k) cs c) ∨
  aoi_cell_find_or_create a c = (a, None) ∧ ¬ cell_room (2 ^ k) cs c.
Proof.
  pose proof Hok as [(Hk & Hob & Hcb) Ho Hc Hsz Hcnt Hlink Hplace Hrad]. pose proof ok_k as Hk'.
  destruct (find_or_create_spec k Hk' a Hcb (co_table _ _ _ Hc) c) as [(ci & He & Hhas)|[Hno [(d & Hd & Hcr & Hfree & He)|[He Hfull]]]].
  - left. exists a, ci. assert (c ∈ cs) as Hin by (apply (co_set _ _ _ Hc); by exists ci).
    replace ({[c]} ∪ cs) with cs by set_solver. split_and!; try done. by left.
  - left. destruct (cells_add k (ao_cells a) cs c d Hk' Hc Hno Hd Hcr Hfree) as (Hc' & Hhas & Hout & Hl).
    eexists _, _. split; [exact He|]. split_and!; try done.
    + split; try done. intros x c' j. cbn. rewrite Hl. apply Hlink.
    + right. rewrite (co_count _ _ _ Hc). destruct (lookup_lt_is_Some_2 (ao_cells a) (slot_of aoi_cell_hash k c d)) as [nd Hnd].
      { pose proof (slot_of_lt aoi_cell_hash k Hk' c d). pose proof (ti_len _ _ _ _ _ _ _ (co_table _ _ _ Hc)). lia. }
      rewrite (node_lookup _ _ _ _ Hnd) in Hfree. rewrite <- (ti_len _ _ _ _ _ _ _ (co_table _ _ _ Hc)). unfold live_count.
      apply inj_lt, (length_filter_lt _ _ nd); [by eapply list_elem_of_lookup_2|congruence].
  - right. split; [done|]. intros [Hin|Hlt]; [apply (co_set _ _ _ Hc) in Hin as [i Hi]; by eapply Hno|].
    rewrite (co_count _ _ _ Hc) in Hlt. lia.
Qed.
End Ok.

(** The attachment of a slot to a cell that is ready. *)
Lemma attach_ok k a s cs c ci mem slot : aoi_ok k a s cs → has_cell (ao_cells a) c ci →
  aoi_cell_attach mem ci slot a = (a, - KITH_ENOMEM) ∧ mem = false ∨
  ∃ cell', aoi_cell_attach mem ci slot a = (set_cell ci cell' a, 0) ∧ cells_ok k (<[ci := cell']> (ao_cells a)) cs ∧
    cn_cell cell' = c ∧ cn_used cell' = true ∧ (ci < length (ao_cells a))%nat ∧ 0 ≤ cn_member_count cell' - 1 ∧
    (∀ x c' j, listed (<[ci := cell']> (ao_cells a)) x c' j ↔
       listed (ao_cells a) x c' j ∨ x = slot ∧ c' = c ∧ j = cn_member_count cell' - 1) ∧
    (∀ x, ¬ listed (ao_cells a) x c (cn_member_count cell' - 1)).
Proof.
  intros Hok (cell & Hci & Hu & Hcell). pose proof (ok_cells _ _ _ _ Hok) as Hc. pose proof (co_fits _ _ _ Hc _ _ Hci Hu) as Hfit.
  pose proof (ok_buckets _ _ _ _ Hok) as (Hk & _). pose proof (members_bounded _ _ _ _ _ _ Hok Hci Hu) as Hb.
  assert (2 ^ (k + 1) = 2 * 2 ^ k) as Hpow by (rewrite Z.pow_add_r by lia; lia).
  pose proof (pow2_le (k + 1) 62 ltac:(lia)). pose proof (pow2_le 4 k ltac:(lia)).
  destruct (attach_shape mem ci slot a cell (2 ^ (k + 1)) Hci Hfit) as [Hno|(cell' & He & Hex)]; [lia|lia|by left|].
  right. exists cell'. pose proof Hex as [Hcl Hus Hcnt _ _ Hf]. destruct Hfit as (Hcount & _).
  replace (cn_member_count cell' - 1) with (cn_member_count cell) by lia. split_and!; try done.
  - eapply cells_change; try done. exact (ok_k _ _ _ _ Hok).
  - congruence.
  - congruence.
  - by eapply lookup_lt_Some.
  - lia.
  - intros x c' j. rewrite <- Hcell. eapply listed_extends; try done. lia.
  - intros x (ci' & nd & Hci' & Hu' & Hc' & Hj & _).
    assert (ci' = ci) as -> by (eapply (ti_unique _ _ _ _ _ _ _ (co_table _ _ _ Hc)); [exists nd; by split_and!|exists cell; by split_and!]).
    simplify_eq. lia.
Qed.

Lemma cell_of_object_size a a' o : ao_cell_size a = ao_cell_size a' → cell_of_object a o = cell_of_object a' o.
Proof. unfold cell_of_object. by intros ->. Qed.

(** The largest radius stays an upper bound. *)
Lemma radius_insert s id o r : 0 ≤ r ∧ (∀ id' o', s !! id' = Some o' → ob_radius o' ≤ r) →
  let r' := if r <? ob_radius o then ob_radius o else r in
  0 ≤ r' ∧ ∀ id' o', (<[id := o]> s : gmap Z kith_aoi_object) !! id' = Some o' → ob_radius o' ≤ r'.
Proof.
  intros [H0 Hr] r'. assert (r ≤ r' ∧ ob_radius o ≤ r') as [? ?] by (unfold r'; destruct (Z.ltb_spec r (ob_radius o)); lia).
  split; [lia|]. intros id' o' [[<- <-]|[_ Ho]]%lookup_insert_Some; [done|]. pose proof (Hr _ _ Ho). lia.
Qed.

Section Steps.
Context (k : Z) (a : kith_aoi) (s : gmap Z kith_aoi_object) (cs : gset cell_coord) (Hok : aoi_ok k a s cs).

Abbreviation step_ok call rc a' := (∃ s' cs', spatial_step (2 ^ k) (cell_of_object a) (s, cs) call (Status rc) (s', cs') ∧
  aoi_ok k a' s' cs' ∧ ao_cell_size a' = ao_cell_size a).

Lemma insert_ok mem o : let '(a', rc) := kith_aoi_insert mem o a in step_ok (Insert mem o) rc a'.
Proof.
  unfold kith_aoi_insert. pose proof (find_ok k a s cs Hok (ob_id o)) as Hf. destruct (aoi_obj_find a (ob_id o)) as [i|].
  { destruct Hf as (n & _ & _ & _ & Hs). exists s, cs. split_and!; try done. by econstructor. }
  pose proof Hok as [(Hk & Hob & Hcb) Ho Hc Hsz Hcnt Hlink Hplace Hrad]. pose proof (ok_k _ _ _ _ Hok) as Hk'.
  pose proof (size_bound k a s cs Hok) as Hsb. pose proof (pow2_le k 31 ltac:(lia)).
  unfold ckd64. rewrite (proj2 (Z.ltb_lt _ _)) by lia.
  pose proof (slot_for_insert_spec k Hk' a Hob (oo_table _ _ _ Ho) (ob_id o)) as Hslot.
  destruct (aoi_obj_slot_for_insert a (ob_id o)) as [slot|].
  2: { exists s, cs. split_and!; try done. apply insert_objects_full; [done|]. by rewrite (oo_count _ _ _ Ho). }
  destruct Hslot as (d & Hd & Hsl & Hcr & Hdead).
  pose proof (node_of_lookup obj_live obj_key zero_obj_node on_used aoi_obj_hash k Hk' (ao_objs a) (ob_id o) d (oo_table _ _ _ Ho)) as Hat.
  rewrite <- Hsl in Hat. assert (Z.of_nat (size s) < 2 ^ k) as Hroom.
  { rewrite (oo_count _ _ _ Ho), <- (ti_len _ _ _ _ _ _ _ (oo_table _ _ _ Ho)). unfold live_count.
    apply inj_lt, (length_filter_lt _ _ (node_of zero_obj_node (ao_objs a) slot)); [by eapply list_elem_of_lookup_2|congruence]. }
  destruct (cell_ready k a s cs Hok (cell_of_object a o)) as [(a1 & ci & -> & Hok1 & Hhas & Ho1 & Hcnt1 & Hsz1 & Hr1 & Hcroom)|[-> Hfull]].
  2: { exists s, cs. split_and!; try done. by apply insert_cells_full. }
  destruct (attach_ok k a1 s _ _ ci mem slot Hok1 Hhas) as [[-> ->]|(cell' & -> & Hc2 & Hcl & Hus & Hlt & Hpos & Hl & Hnew)].
  { exists s, ({[cell_of_object a o]} ∪ cs). split_and!; try done. by apply insert_no_memory. }
  cbn [negb Z.eqb]. exists (<[ob_id o := o]> s), ({[cell_of_object a o]} ∪ cs). split_and!; [by apply insert_done| |done].
  assert (cell_at (set_cell ci cell' a1) ci = cell') as -> by (apply cell_at_lookup; cbn; by apply list_lookup_insert_eq).
  set (node := mkObjNode o (cell_of_object a o) (cn_member_count cell' - 1) true false).
  pose proof (lookup_lt_Some _ _ _ Hat) as Hlts. pose proof (ok_buckets _ _ _ _ Hok1) as (_ & Hob1 & Hcb1).
  split; cbn [ao_objs ao_cells ao_obj_buckets ao_cell_buckets ao_obj_count ao_cell_size ao_max_radius set_count_radius set_obj set_cell]; rewrite ?Ho1.
  - done.
  - by apply (objs_add k (ao_objs a) s slot node d).
  - done.
  - by rewrite Hsz1.
  - rewrite map_size_insert, Hf. lia.
  - intros x c j. rewrite Hl, (ok_link _ _ _ _ Hok1 x c j), Ho1. destruct (decide (x = slot)) as [->|Hne].
    + rewrite list_lookup_insert_eq by done. split.
      * intros [(n & Hn & Hlv & _)|(_ & -> & ->)]; [congruence|]. by exists node.
      * intros (n & [= <-] & _ & <- & <-). by right.
    + rewrite list_lookup_insert_ne by done. naive_solver.
  - intros x n Hx Hn. rewrite (cell_of_object_size _ a) by done. destruct (decide (x = slot)) as [->|Hne].
    + rewrite list_lookup_insert_eq in Hx by done. by injection Hx as <-.
    + rewrite list_lookup_insert_ne in Hx by done. by apply Hplace with x.
  - rewrite Hr1. apply radius_insert, Hrad.
Qed.

Lemma remove_ok id : let '(a', rc) := kith_aoi_remove id a in step_ok (Remove id) rc a'.
Proof.
  unfold kith_aoi_remove. pose proof (find_ok k a s cs Hok id) as Hf. destruct (aoi_obj_find a id) as [slot|].
  2: { exists s, cs. split_and!; try done. rewrite <- (delete_id s id) at 2 by done. constructor. }
  destruct Hf as (n & Hn & Hlv & Hkey & Hs). pose proof Hok as [(Hk & Hob & Hcb) Ho Hc Hsz Hcnt Hlink Hplace Hrad].
  assert (recorded (ao_objs a) slot (on_cell n) (on_cell_pos n)) as Hrec by by exists n.
  destruct (detach_ok k a s cs slot n (ok_k _ _ _ _ Hok) Hcb Ho Hc Hn Hlv) as (objs' & cells' & -> & Ho' & Hc' & Hn' & _ & Hls & Hlx & Hback).
  { by apply Hlink. }
  { intros j Hj%Hlink. by destruct (recorded_fun _ _ _ _ _ _ Hj Hrec). }
  { intros x c j _. apply Hlink. }
  rewrite (obj_at_lookup (mkAoi objs' _ _ _ _ _ _) slot n Hn'). set (dead := mkObjNode _ _ _ _ true). exists (delete id s), cs. split_and!; [constructor| |done].
  pose proof (lookup_lt_Some _ _ _ Hn') as Hlt. assert (obj_live dead = false) as Hd by (unfold obj_live, dead; cbn; apply andb_false_r).
  split; cbn [ao_objs ao_cells ao_obj_buckets ao_cell_buckets ao_obj_count ao_cell_size ao_max_radius set_obj].
  - done.
  - rewrite <- Hkey. apply objs_kill; try done; [exact (ok_k _ _ _ _ Hok)|]. exact (obj_live_used n Hlv).
  - done.
  - done.
  - rewrite map_size_delete, Hs. rewrite Hcnt. assert (size s ≠ O) by (intros H0%map_size_empty_inv; by rewrite H0, lookup_empty in Hs).
    destruct (Z.ltb_spec 0 (Z.of_nat (size s))); lia.
  - intros x c j. destruct (decide (x = slot)) as [->|Hne].
    + rewrite Hls, list_lookup_insert_eq by done. split.
      * intros [Hcn Hl%Hlink]. by destruct (recorded_fun _ _ _ _ _ _ Hl Hrec).
      * intros (n' & [= <-] & Hlv' & _). congruence.
    + rewrite list_lookup_insert_ne by done. by apply Hlx.
  - intros x n' Hx Hn''. destruct (decide (x = slot)) as [->|Hne].
    + rewrite list_lookup_insert_eq in Hx by done. injection Hx as <-. congruence.
    + rewrite list_lookup_insert_ne in Hx by done. destruct (Hback x n' Hx Hn'') as (n0 & Hn0 & Hl0 & <- & <-). by apply Hplace with x.
  - split; [apply Hrad|]. intros id' o' [_ Ho1]%lookup_delete_Some. by eapply Hrad.
Qed.
(** The state of an update before the new object is stored: the slot records
    its new cell, and everything else is as before. *)
Lemma move_ok slot n mem o : ao_objs a !! slot = Some n → obj_live n = true → obj_key n = ob_id o →
  let c := cell_of_object a o in
  c ≠ on_cell n →
  let '(a', rc) :=
    match aoi_cell_find_or_create a c with
    | (a, None) => (a, - KITH_EBUSY)
    | (a, Some ci) =>
        let '(a, rc) := aoi_cell_attach mem ci slot a in
        if negb (rc =? 0) then (a, rc) else
        let a := aoi_cell_detach slot a in
        let n := obj_at a slot in
        (set_obj slot (mkObjNode (on_obj n) c (cn_member_count (cell_at a ci) - 1) (on_used n) (on_deleted n)) a, 0)
    end in
  (rc = - KITH_EBUSY ∧ a' = a ∧ ¬ cell_room (2 ^ k) cs c ∨
   rc = - KITH_ENOMEM ∧ mem = false ∧ aoi_ok k a' s ({[c]} ∪ cs) ∧ cell_room (2 ^ k) cs c ∧ ao_cell_size a' = ao_cell_size a) ∨
  rc = 0 ∧ cell_room (2 ^ k) cs c ∧ ao_cell_size a' = ao_cell_size a ∧ ao_max_radius a' = ao_max_radius a ∧
  ao_obj_count a' = ao_obj_count a ∧ ao_obj_buckets a' = 2 ^ k ∧ ao_cell_buckets a' = 2 ^ k ∧
  objs_ok k (ao_objs a') s ∧ cells_ok k (ao_cells a') ({[c]} ∪ cs) ∧ linked (ao_objs a') (ao_cells a') ∧
  (∃ pos, ao_objs a' !! slot = Some (mkObjNode (on_obj n) c pos (on_used n) (on_deleted n))) ∧
  (∀ x nx, x ≠ slot → ao_objs a' !! x = Some nx → obj_live nx = true → on_cell nx = cell_of_object a (on_obj nx)).
Proof.
  intros Hn Hlv Hkey c Hne. pose proof (ok_k _ _ _ _ Hok) as Hk'.
  destruct (cell_ready k a s cs Hok c) as [(a1 & ci & -> & Hok1 & Hhas & Ho1 & Hcnt1 & Hsz1 & Hr1 & Hcroom)|[-> Hfull]]; [|by left; left].
  destruct (attach_ok k a1 s _ c ci mem slot Hok1 Hhas) as [[-> ->]|(cell' & -> & Hc2 & Hcl & Hus & Hlt & Hpos & Hl & Hnew)].
  { left. right. by split_and!. }
  rewrite Z.eqb_refl. cbn [negb]. pose proof (ok_buckets _ _ _ _ Hok1) as (_ & Hob1 & Hcb1). pose proof (ok_link _ _ _ _ Hok1) as Hlink.
  set (a2 := set_cell ci cell' a1). rewrite <- Ho1 in Hn. assert (recorded (ao_objs a1) slot (on_cell n) (on_cell_pos n)) as Hrec by by exists n.
  destruct (detach_ok k a2 s ({[c]} ∪ cs) slot n Hk' Hcb1 (ok_objs _ _ _ _ Hok1) Hc2 Hn Hlv) as
    (objs' & cells' & -> & Ho' & Hc' & Hn' & Hkeep & Hls & Hlx & Hback).
  { apply Hl. left. by apply Hlink. }
  { intros j [Hj%Hlink|(_ & ? & _)]%Hl; [|congruence]. by destruct (recorded_fun _ _ _ _ _ _ Hj Hrec). }
  { intros x c' j Hx. change (ao_cells a2) with (<[ci := cell']> (ao_cells a1)). rewrite Hl, (Hlink x c' j). unfold recorded. naive_solver. }
  rewrite (obj_at_lookup (mkAoi objs' _ _ _ _ _ _) slot n Hn').
  assert (cells' !! ci = Some cell') as Hci by (apply Hkeep; [by apply list_lookup_insert_eq|congruence]).
  rewrite (cell_at_lookup (mkAoi _ _ _ cells' _ _ _) ci cell' Hci). set (moved := mkObjNode (on_obj n) c _ _ _).
  pose proof (lookup_lt_Some _ _ _ Hn') as Hlts. assert (obj_live moved = true) as Hlm by done.
  right. cbn [ao_objs ao_cells ao_obj_buckets ao_cell_buckets ao_obj_count ao_cell_size ao_max_radius set_obj set_cell a2].
  split_and!; try done.
  - rewrite <- (insert_id s (obj_key n) (on_obj n)) by by eapply content_id. by apply (objs_change k objs' s slot n moved).
  - intros x c' j. destruct (decide (x = slot)) as [->|Hx].
    + rewrite Hls, list_lookup_insert_eq by done. change (ao_cells a2) with (<[ci := cell']> (ao_cells a1)). rewrite Hl. split.
      * intros [Hcn [Hj%Hlink|(_ & -> & ->)]]; [by destruct (recorded_fun _ _ _ _ _ _ Hj Hrec)|by exists moved].
      * intros (n' & [= <-] & _ & <- & <-). split; [done|by right].
    + rewrite list_lookup_insert_ne by done. by apply Hlx.
  - eexists. by apply list_lookup_insert_eq.
  - intros x nx Hx Hxn Hlx'. rewrite list_lookup_insert_ne in Hxn by done. destruct (Hback x nx Hxn Hlx') as (n0 & Hn0 & Hl0 & <- & <-).
    rewrite <- (cell_of_object_size a1 a) by done. by apply (ok_place _ _ _ _ Hok1 x).
Qed.

(** Storing an object whose cell is already right. *)
Lemma put_ok a1 cs1 slot n o : ao_cell_size a1 = ao_cell_size a → ao_max_radius a1 = ao_max_radius a → ao_obj_count a1 = ao_obj_count a →
  ao_obj_buckets a1 = 2 ^ k → ao_cell_buckets a1 = 2 ^ k → objs_ok k (ao_objs a1) s → cells_ok k (ao_cells a1) cs1 →
  linked (ao_objs a1) (ao_cells a1) → ao_objs a1 !! slot = Some n → obj_live n = true → obj_key n = ob_id o → on_cell n = cell_of_object a o →
  (∀ x nx, x ≠ slot → ao_objs a1 !! x = Some nx → obj_live nx = true → on_cell nx = cell_of_object a (on_obj nx)) →
  aoi_ok k (set_count_radius (ao_obj_count a1) o (set_obj slot (mkObjNode o (on_cell n) (on_cell_pos n) (on_used n) (on_deleted n)) a1))
    (<[ob_id o := o]> s) cs1.
Proof.
  intros Hsz Hr Hcnt Hob Hcb Ho Hc Hlink Hn Hlv Hkey Hcell Hplace. pose proof (lookup_lt_Some _ _ _ Hn) as Hlt.
  pose proof (content_id _ _ _ _ _ Ho Hn Hlv) as Hs. pose proof Hok as [(Hk & _ & _) _ _ Hsz0 Hcnt0 _ _ Hrad]. set (n' := mkObjNode o _ _ _ _).
  split; cbn [ao_objs ao_cells ao_obj_buckets ao_cell_buckets ao_obj_count ao_cell_size ao_max_radius set_count_radius set_obj].
  - done.
  - rewrite <- Hkey. apply (objs_change k (ao_objs a1) s slot n n'); try done. exact (ok_k _ _ _ _ Hok).
  - done.
  - by rewrite Hsz.
  - rewrite Hkey in Hs. rewrite map_size_insert, Hs. cbn. congruence.
  - intros x c j. rewrite (Hlink x c j). destruct (decide (x = slot)) as [->|Hx].
    + rewrite list_lookup_insert_eq, Hn by done. split; intros (m & [= <-] & _ & <- & <-); by eexists.
    + by rewrite list_lookup_insert_ne.
  - intros x nx Hx Hlx. rewrite (cell_of_object_size _ a) by done. destruct (decide (x = slot)) as [->|Hne].
    + rewrite list_lookup_insert_eq in Hx by done. by injection Hx as <-.
    + rewrite list_lookup_insert_ne in Hx by done. by apply Hplace with x.
  - rewrite Hr. apply radius_insert, Hrad.
Qed.

Lemma update_ok mem o : let '(a', rc) := kith_aoi_update mem o a in step_ok (Update mem o) rc a'.
Proof.
  unfold kith_aoi_update. pose proof (find_ok k a s cs Hok (ob_id o)) as Hf. destruct (aoi_obj_find a (ob_id o)) as [slot|].
  2: { exists s, cs. split_and!; try done. by constructor. }
  destruct Hf as (n & Hn & Hlv & Hkey & Hs). pose proof Hok as [(Hk & Hob & Hcb) Ho Hc Hsz Hcnt Hlink Hplace Hrad].
  pose proof (Hplace _ _ Hn Hlv) as Hcell. rewrite (obj_at_lookup _ _ _ Hn). case_bool_decide as Hsame; cbn [negb].
  - rewrite Z.eqb_refl. cbn [negb]. rewrite (obj_at_lookup _ _ _ Hn). exists (<[ob_id o := o]> s), ({[cell_of_object a o]} ∪ cs).
    assert (cell_of_object a o ∈ cs) as Hin.
    { apply (co_set _ _ _ Hc). destruct (proj2 (Hlink slot (on_cell n) (on_cell_pos n))) as (ci & cell & Hci & Hu & Hcl & _); [by exists n|].
      exists ci, cell. split_and!; [done|done|congruence]. }
    split_and!; [eapply update_done; [done|]; left; congruence| |done].
    replace ({[cell_of_object a o]} ∪ cs) with cs by set_solver. apply (put_ok a cs slot n o); try done. intros x nx _ Hx Hlx. by apply Hplace with x.
  - pose proof (move_ok slot n mem o Hn Hlv Hkey Hsame) as Hm. cbv zeta in Hm.
    set (r := match aoi_cell_find_or_create a _ with (_, Some _) => _ | _ => _ end) in *. destruct r as [a1 rc].
    destruct Hm as [[(-> & -> & Hfull)|(-> & -> & Hok1 & Hroom & Hsz1)]|(-> & Hroom & Hsz1 & Hr1 & Hcnt1 & Hob1 & Hcb1 & Ho1 & Hc1 & Hl1 & [pos Hn1] & Hp1)].
    + cbn. exists s, cs. split_and!; try done. eapply update_cells_full; [done|congruence|done].
    + cbn. eexists s, _. split_and!; try done. eapply update_no_memory; [done|congruence|done].
    + rewrite Z.eqb_refl. cbn [negb]. rewrite (obj_at_lookup _ _ _ Hn1). eexists _, _. split_and!; [eapply update_done; [done|by right]| |done].
      by apply (put_ok a1 _ slot (mkObjNode (on_obj n) (cell_of_object a o) pos (on_used n) (on_deleted n)) o).
Qed.
End Steps.

(** Every call keeps the invariant and answers as the abstract index. *)
Lemma aoi_step_refines k a s cs c : aoi_ok k a s cs →
  let '(a', r) := aoi_step c a in
  ∃ s' cs', spatial_step (2 ^ k) (cell_of_object a) (s, cs) c r (s', cs') ∧ aoi_ok k a' s' cs' ∧ ao_cell_size a' = ao_cell_size a.
Proof.
  intros Hok. destruct c as [mem o|mem o|id|id|]; cbn [aoi_step].
  - pose proof (insert_ok k a s cs Hok mem o). by destruct (kith_aoi_insert mem o a).
  - pose proof (update_ok k a s cs Hok mem o). by destruct (kith_aoi_update mem o a).
  - pose proof (remove_ok k a s cs Hok id). by destruct (kith_aoi_remove id a).
  - exists s, cs. split; [|done]. unfold kith_aoi_lookup. pose proof (find_ok k a s cs Hok id) as Hf. destruct (aoi_obj_find a id) as [i|].
    + destruct Hf as (n & Hn & _ & _ & Hs). rewrite (obj_at_lookup _ _ _ Hn). by constructor.
    + by constructor.
  - exists s, cs. split; [|done]. unfold kith_aoi_size. rewrite (ok_count _ _ _ _ Hok). constructor.
Qed.

(** ** Creation and runs *)

Lemma aoi_create_ok params : 0 ≤ ap_bucket_count params → aoi_params_validate params = None →
  ∃ k a, kith_aoi_create true params = Some (inr a) ∧ aoi_ok k a ∅ ∅ ∧
    ao_cell_size a = (if ap_cell_size params =? 0 then KITH_AOI_DEFAULT_CELL_SIZE else ap_cell_size params) ∧
    Z.max 16 (if ap_bucket_count params =? 0 then KITH_AOI_DEFAULT_BUCKET_COUNT else ap_bucket_count params) ≤ 2 ^ k.
Proof.
  intros Hb Hv. unfold kith_aoi_create. rewrite Hv. unfold aoi_params_validate, KITH_AOI_MAX_BUCKET_COUNT in Hv. cbn [negb].
  destruct (_ <? AOI_PARAMS_SIZE); [done|]. destruct (negb _); [done|].
  destruct (Z.ltb_spec (ap_cell_size params) 0) as [|Hcs]; [done|]. destruct (Z.ltb_spec 0x80000000 (ap_bucket_count params)) as [|Hmax]; [done|].
  cbn [aoi_resolve_params ap_bucket_count ap_cell_size]. unfold KITH_AOI_DEFAULT_BUCKET_COUNT.
  set (want := if ap_bucket_count params =? 0 then 4096 else ap_bucket_count params).
  assert (0 < want ≤ 2 ^ 31) as Hw by (unfold want; destruct (Z.eqb_spec (ap_bucket_count params) 0); lia).
  unfold aoi_resolve_buckets, aoi_next_pow2.
  destruct (double_until_reaches 32 ltac:(lia) want 31 32 0) as (j & Hj & Hd & Hle & _); [lia|lia|lia|lia|].
  change (double_until 32 32 1 want = Some (2 ^ j)) in Hd. rewrite Hd. cbn [mbind option_bind].
  assert (∃ k, 4 ≤ k ≤ 31 ∧ (if 2 ^ j <? 16 then 16 else 2 ^ j) = 2 ^ k ∧ Z.max 16 want ≤ 2 ^ k) as (k & Hk & -> & Hmx).
  { destruct (Z.ltb_spec (2 ^ j) 16) as [Hlt|Hge]; [exists 4; split_and!; (done || lia)|exists j].
    split_and!; [|lia|done|lia]. change 16 with (2 ^ 4) in Hge. apply Z.pow_le_mono_r_iff in Hge; lia. }
  set (cs := if ap_cell_size params =? 0 then _ else _). assert (0 < cs) as Hcs' by (unfold cs; destruct (Z.eqb_spec (ap_cell_size params) 0); [done|lia]).
  pose proof (pow2_pos k ltac:(lia)). eexists k, _. split_and!; [done| |done|done].
  assert (∀ {A} (x y : A) i, replicate (Z.to_nat (2 ^ k)) x !! i = Some y → y = x) as Hrep by (by intros A x y i [-> _]%lookup_replicate).
  split; cbn; try done.
  - split; [split|..].
    + rewrite length_replicate. lia.
    + intros i x (n & Hn%Hrep & Hl & _). by subst.
    + intros i j' x (n & Hn%Hrep & Hl & _). by subst.
    + intros id o. rewrite lookup_empty. split; [done|]. intros (i & n & Hn%Hrep & Hl & _). by subst.
    + unfold live_count. rewrite filter_none; [done|]. by apply Forall_replicate.
  - split; [split|..].
    + rewrite length_replicate. lia.
    + intros i x (n & Hn%Hrep & Hl & _). by subst.
    + intros i j' x (n & Hn%Hrep & Hl & _). by subst.
    + intros c. split; [by intros ?%not_elem_of_empty|]. intros (i & n & Hn%Hrep & Hl & _). by subst.
    + unfold live_count. rewrite filter_none; [done|]. by apply Forall_replicate.
    + intros ci cell Hn%Hrep Hu. by subst.
  - intros x c j'. split.
    + intros (ci & cell & Hn%Hrep & Hu & _). by subst.
    + intros (n & Hn%Hrep & Hl & _). by subst.
  - intros x n Hn%Hrep Hl. by subst.
Qed.

Fixpoint aoi_run (calls : list aoi_call) (a : kith_aoi) : kith_aoi * list aoi_reply :=
  match calls with
  | [] => (a, [])
  | c :: calls => let '(a, r) := aoi_step c a in let '(a, rs) := aoi_run calls a in (a, r :: rs)
  end.

Inductive spatial_run (cap : Z) (cell : kith_aoi_object → cell_coord) : spatial → list aoi_call → list aoi_reply → spatial → Prop :=
  | spatial_nil st : spatial_run cap cell st [] [] st
  | spatial_cons st c r st1 calls rs st2 :
      spatial_step cap cell st c r st1 → spatial_run cap cell st1 calls rs st2 → spatial_run cap cell st (c :: calls) (r :: rs) st2.

Lemma run_refines k calls : ∀ a s cs, aoi_ok k a s cs →
  let '(a', rs) := aoi_run calls a in
  ∃ s' cs', spatial_run (2 ^ k) (cell_of_object a) (s, cs) calls rs (s', cs') ∧ aoi_ok k a' s' cs' ∧ ao_cell_size a' = ao_cell_size a.
Proof.
  induction calls as [|c calls IH]; intros a s cs Hok; cbn [aoi_run]; [exists s, cs; split_and!; [apply spatial_nil|done|done]|].
  pose proof (aoi_step_refines k a s cs c Hok) as Hstep. destruct (aoi_step c a) as [a1 r].
  destruct Hstep as (s1 & cs1 & Hs & Hok1 & Hsz). specialize (IH a1 s1 cs1 Hok1). destruct (aoi_run calls a1) as [a' rs].
  destruct IH as (s' & cs' & Hrun & Hok' & Hsz'). exists s', cs'. split_and!; [|done|congruence].
  econstructor; [exact Hs|]. replace (cell_of_object a) with (cell_of_object a1); [done|]. unfold cell_of_object. by rewrite Hsz.
Qed.

(** ** Geometry *)

(** The cell index of a coordinate: floored, then clamped. *)
Definition grid (size z : Z) : Z := Z.max INT32_MIN (Z.min INT32_MAX (z / size)).

Lemma floor_quot z d : 0 < d → (if Z.rem z d <? 0 then Z.quot z d - 1 else Z.quot z d) = z / d.
Proof.
  intros Hd. pose proof (Z.quot_rem' z d) as Hqr. pose proof (Z.rem_bound_abs z d ltac:(lia)) as Hb.
  destruct (Z.ltb_spec (Z.rem z d) 0).
  - apply Z.div_unique with (Z.rem z d + d); lia.
  - apply Z.div_unique with (Z.rem z d); lia.
Qed.

Lemma cell_of_grid z d : 0 < d → aoi_cell_of z d = grid d z ∧ aoi_region_cell z d = grid d z.
Proof.
  intros Hd. assert (aoi_cell_of z d = grid d z) as He; [|done]. unfold aoi_cell_of, grid. cbv zeta. rewrite floor_quot by done.
  unfold INT32_MAX, INT32_MIN. destruct (Z.ltb_spec (2 ^ 31 - 1) (z / d)); [lia|]. destruct (Z.ltb_spec (z / d) (- 2 ^ 31)); lia.
Qed.

Lemma grid_mono d x y : 0 < d → x ≤ y → grid d x ≤ grid d y.
Proof. intros Hd Hxy. unfold grid. pose proof (Z.div_le_mono x y d Hd Hxy). lia. Qed.

Lemma grid_range d x : INT32_MIN ≤ grid d x ≤ INT32_MAX.
Proof. unfold grid, INT32_MIN, INT32_MAX. lia. Qed.

(** The squares are compared exactly. *)
Lemma within_exact dx dy dz r : Z.abs dx < 2 ^ 127 → Z.abs dy < 2 ^ 127 → Z.abs dz < 2 ^ 127 → Z.abs r < 2 ^ 64 →
  aoi_dist_within dx dy dz r = (dx * dx + dy * dy + dz * dz <=? r * r).
Proof.
  intros Hx Hy Hz Hr. unfold aoi_dist_within.
  assert (∀ d, Z.abs d < 2 ^ 127 → abs128 d = Z.abs d) as Habs.
  { intros d Hd. unfold abs128, u128. destruct (Z.ltb_spec d 0); [rewrite Z.mod_small; lia|lia]. }
  rewrite (Habs r) by lia. assert (Z.abs r * Z.abs r = r * r) as Hsq by nia. assert (0 ≤ r * r < 2 ^ 128) as Hr2 by nia.
  unfold u128 at 1. rewrite Hsq, Z.mod_small by lia.
  assert (∀ axes sum, 0 ≤ sum ≤ r * r → Forall (λ d, Z.abs d < 2 ^ 127) axes →
    axes_within axes (Z.abs r) (r * r) sum = (sum + foldr (λ d n, d * d + n) 0 axes <=? r * r)) as Hloop.
  { induction axes as [|d axes IH]; intros sum Hs Hf; cbn [axes_within foldr]; [by rewrite Z.add_0_r, (proj2 (Z.leb_le _ _)) by lia|].
    apply Forall_cons in Hf as [Hd Hf]. rewrite (Habs d Hd). assert (Z.abs d * Z.abs d = d * d) as Hdd by nia.
    assert (0 ≤ foldr (λ d n, d * d + n) 0 axes) as Hpos by (clear; induction axes as [|e axes IH]; cbn; nia).
    destruct (Z.ltb_spec (Z.abs r) (Z.abs d)) as [Hfar|Hnear]; [symmetry; apply Z.leb_gt; nia|].
    assert (0 ≤ d * d ≤ r * r) by nia. unfold u128. rewrite Hdd, (Z.mod_small (d * d)), (Z.mod_small (r * r - sum)) by lia.
    destruct (Z.ltb_spec (r * r - sum) (d * d)); [symmetry; apply Z.leb_gt; lia|].
    rewrite (Z.mod_small (sum + d * d)), IH by (done || lia). f_equal. lia. }
  rewrite Hloop by (lia || by repeat constructor). cbn [foldr]. f_equal. lia.
Qed.

(** ** What a query walks over *)

Section Visits.
Context {V : Type} (visit : kith_aoi_object → V → V * bool).

(** The visitor on a list of objects, until it stops. *)
Fixpoint visit_list (l : list kith_aoi_object) (v : V) : V * bool :=
  match l with
  | [] => (v, true)
  | o :: l => let '(v, go) := visit o v in if negb go then (v, false) else visit_list l v
  end.

Lemma visit_list_app l1 l2 v : visit_list (l1 ++ l2) v =
  let '(v, go) := visit_list l1 v in if negb go then (v, false) else visit_list l2 v.
Proof.
  revert v. induction l1 as [|o l1 IH]; intros v; [done|]. cbn. destruct (visit o v) as [v1 go]. by destruct go; cbn.
Qed.

Lemma visit_members_list pred a slots v :
  visit_members pred visit a slots v = visit_list (filter (λ o, pred o = true) ((λ m, on_obj (obj_at a (Z.to_nat m))) <$> slots)) v.
Proof.
  revert v. induction slots as [|m slots IH]; intros v; [done|]. cbn [visit_members fmap list_fmap]. rewrite filter_cons.
  destruct (pred _) eqn:Hp; case_decide; try done; cbn [negb visit_list]; [|apply IH].
  destruct (visit _ v) as [v1 go]. by destruct go; cbn.
Qed.

(** The loop over one axis, whose body walks over a list. *)
Lemma for_axis_list (f : Z → list kith_aoi_object) hi body : hi < INT32_MAX → (∀ c v, body c v = Some (visit_list (f c) v)) →
  ∀ fuel c v, INT32_MIN ≤ c → Z.max 0 (hi - c + 1) < Z.of_nat fuel →
  for_axis fuel c hi body v = Some (visit_list (seqZ c (hi - c + 1) ≫= f) v).
Proof.
  intros Hhi Hbody. induction fuel as [|fuel IH]; intros c v Hc Hf; [lia|]. cbn [for_axis].
  destruct (Z.leb_spec c hi) as [Hle|Hlt]; [|by rewrite seqZ_nil by lia]. rewrite Hbody. cbn [mbind option_bind].
  rewrite seqZ_cons by lia. cbn [mbind list_bind]. rewrite visit_list_app. destruct (visit_list (f c) v) as [v1 go].
  destruct go; cbn [negb]; [|done].
  unfold next32. rewrite (proj2 (Z.eqb_neq _ _)) by lia. cbn [mbind option_bind]. rewrite IH by lia. do 4 f_equal. lia.
Qed.

(** With a visitor that never stops, a loop up to [INT32_MAX] steps past it. *)
Definition goes_on (r : option (V * bool)) : Prop := match r with Some (_, go) => go = true | None => True end.

Lemma for_axis_goes fuel hi body : (∀ c v, goes_on (body c v)) → ∀ c v, goes_on (for_axis fuel c hi body v).
Proof.
  intros Hb. induction fuel as [|fuel IH]; intros c v; [done|]. cbn [for_axis]. destruct (c <=? hi); [|done].
  pose proof (Hb c v) as Hg. destruct (body c v) as [[v1 go]|]; [|done]. cbn in Hg |- *. subst go. cbn [negb].
  destruct (next32 c); [apply IH|done].
Qed.

Lemma for_axis_endless fuel body : (∀ c v, goes_on (body c v)) → ∀ c v, c ≤ INT32_MAX → for_axis fuel c INT32_MAX body v = None.
Proof.
  intros Hb. induction fuel as [|fuel IH]; intros c v Hc; [done|]. cbn [for_axis]. rewrite (proj2 (Z.leb_le _ _) Hc).
  pose proof (Hb c v) as Hg. destruct (body c v) as [[v1 go]|]; [|done]. cbn in Hg |- *. subst go. cbn [negb].
  unfold next32. destruct (Z.eqb_spec c INT32_MAX) as [|Hne]; [done|]. cbn [mbind option_bind]. apply IH. lia.
Qed.

Lemma for_axis_none fuel lo hi (body : Z → V → option (V * bool)) v : lo ≤ hi → (∀ c v, body c v = None) → for_axis fuel lo hi body v = None.
Proof. intros Hle Hb. destruct fuel; [done|]. cbn [for_axis]. by rewrite (proj2 (Z.leb_le _ _) Hle), Hb. Qed.
End Visits.

(** The slots of a cell and of a region, in the order of the loops. *)
Definition cell_members (a : kith_aoi) (c : cell_coord) : list Z :=
  match aoi_cell_find a c with
  | None => []
  | Some ci => take (Z.to_nat (cn_member_count (cell_at a ci))) (cn_members (cell_at a ci))
  end.

Definition axis (lo hi : Z) : list Z := seqZ lo (hi - lo + 1).

Definition region_members (a : kith_aoi) (region : cell_coord * cell_coord) : list Z :=
  let '((lox, loy, loz), (hix, hiy, hiz)) := region in
  axis loz hiz ≫= λ cz, axis loy hiy ≫= λ cy, axis lox hix ≫= λ cx, cell_members a (cx, cy, cz).

Definition objects_at (a : kith_aoi) (slots : list Z) : list kith_aoi_object := (λ m, on_obj (obj_at a (Z.to_nat m))) <$> slots.

Lemma visit_cell_list {V} pred (visit : kith_aoi_object → V → V * bool) a c v :
  visit_cell pred visit a c v = visit_list visit (filter (λ o, pred o = true) (objects_at a (cell_members a c))) v.
Proof. unfold visit_cell, cell_members. destruct (aoi_cell_find a c) as [ci|]; [apply visit_members_list|done]. Qed.

Lemma elem_of_axis lo hi c : c ∈ axis lo hi ↔ lo ≤ c ≤ hi.
Proof. unfold axis. rewrite elem_of_seqZ. lia. Qed.

Lemma filter_bind {A B} (P : B → Prop) `{!∀ x, Decision (P x)} (f : A → list B) l : filter P (l ≫= f) = l ≫= λ x, filter P (f x).
Proof. induction l as [|x l IH]; [done|]. cbn. by rewrite filter_app, IH. Qed.

Lemma fmap_bind {A B C} (g : B → C) (f : A → list B) l : g <$> (l ≫= f) = l ≫= λ x, g <$> f x.
Proof. induction l as [|x l IH]; [done|]. cbn. by rewrite fmap_app, IH. Qed.

(** The whole walk. *)
Definition region_small (region : cell_coord * cell_coord) : Prop :=
  let '((lox, loy, loz), (hix, hiy, hiz)) := region in
  (INT32_MIN ≤ lox ∧ INT32_MIN ≤ loy ∧ INT32_MIN ≤ loz) ∧ hix < INT32_MAX ∧ hiy < INT32_MAX ∧ hiz < INT32_MAX.

Lemma visit_region_list {V} pred (visit : kith_aoi_object → V → V * bool) a region fuel v : region_small region → 2 ^ 32 < Z.of_nat fuel →
  aoi_visit_region pred visit fuel a region v =
  Some (visit_list visit (filter (λ o, pred o = true) (objects_at a (region_members a region))) v).
Proof.
  destruct region as [[[lox loy] loz] [[hix hiy] hiz]]. intros ((Hlx & Hly & Hlz) & Hhx & Hhy & Hhz) Hf. unfold INT32_MIN, INT32_MAX in *.
  unfold aoi_visit_region, region_members, objects_at.
  rewrite fmap_bind, filter_bind. apply for_axis_list; [done| |done|lia]. intros cz w.
  rewrite fmap_bind, filter_bind. apply for_axis_list; [done| |done|lia]. intros cy w'.
  rewrite fmap_bind, filter_bind. apply for_axis_list; [done| |done|lia]. intros cx w''. f_equal. apply visit_cell_list.
Qed.

(** ** A region's objects *)

Section Regions.
Context (k : Z) (a : kith_aoi) (s : gmap Z kith_aoi_object) (cs : gset cell_coord) (Hok : aoi_ok k a s cs).

Lemma cell_members_at c i m : cell_members a c !! i = Some m ↔ 0 ≤ m ∧ recorded (ao_objs a) (Z.to_nat m) c (Z.of_nat i).
Proof.
  pose proof (ok_buckets _ _ _ _ Hok) as (Hk & _ & Hcb). pose proof (ok_cells _ _ _ _ Hok) as Hcells.
  pose proof (cell_find_spec k ltac:(lia) a Hcb (co_table _ _ _ Hcells) c) as Hfind. pose proof (ok_link _ _ _ _ Hok) as Hlink.
  unfold linked in Hlink. unfold recorded. rewrite <- Hlink.
  unfold cell_members. destruct (aoi_cell_find a c) as [ci|].
  - destruct (proj1 (Hfind ci) eq_refl) as (cell & Hci & Hu & Hc). rewrite (cell_at_lookup _ _ _ Hci).
    pose proof (co_fits _ _ _ Hcells _ _ Hci Hu) as (Hcnt & Hz & _ & Hnn). rewrite lookup_take_Some. split.
    + intros [Hm Hi]. pose proof (Forall_lookup_1 _ _ _ _ Hnn Hm) as Hpos. cbn in Hpos. split; [done|].
      exists ci, cell. rewrite Z2Nat.id, Nat2Z.id by done. split_and!; (done || lia).
    + intros (Hm & ci' & cell' & Hci' & Hu' & Hc' & Hj & Hm'). rewrite Z2Nat.id, Nat2Z.id in Hm' by done.
      assert (ci' = ci) as ->.
      { eapply (ti_unique _ _ _ _ _ _ _ (co_table _ _ _ Hcells)); [by exists cell'|exists cell; by split_and!; [| |congruence]]. }
      simplify_eq. split; [done|lia].
  - split; [done|]. intros (_ & ci & cell & Hci & Hu & Hc & _). exfalso.
    assert (has_cell (ao_cells a) c ci) as Hh by (by exists cell). by apply Hfind in Hh.
Qed.

Lemma elem_of_cell_members c m : m ∈ cell_members a c ↔
  0 ≤ m ∧ ∃ n, ao_objs a !! Z.to_nat m = Some n ∧ obj_live n = true ∧ cell_of_object a (on_obj n) = c.
Proof.
  rewrite list_elem_of_lookup. split.
  - intros [i (Hm & n & Hn & Hl & Hc & _)%cell_members_at]. split; [done|]. exists n. split_and!; [done..|].
    by rewrite <- (ok_place _ _ _ _ Hok _ _ Hn Hl).
  - intros (Hm & n & Hn & Hl & Hc). rewrite <- (ok_place _ _ _ _ Hok _ _ Hn Hl) in Hc.
    assert (recorded (ao_objs a) (Z.to_nat m) c (on_cell_pos n)) as Hr by (by exists n).
    destruct (proj2 (ok_link _ _ _ _ Hok (Z.to_nat m) c (on_cell_pos n)) Hr) as (ci & cell & _ & _ & _ & Hj & _).
    exists (Z.to_nat (on_cell_pos n)). apply cell_members_at. by rewrite Z2Nat.id by lia.
Qed.

Lemma cell_members_NoDup c : NoDup (cell_members a c).
Proof.
  apply NoDup_alt. intros i j m [_ Hi]%cell_members_at [_ Hj]%cell_members_at. destruct (recorded_fun _ _ _ _ _ _ Hi Hj). lia.
Qed.

Definition in_region (region : cell_coord * cell_coord) (c : cell_coord) : Prop :=
  let '((lox, loy, loz), (hix, hiy, hiz)) := region in
  let '(cx, cy, cz) := c in lox ≤ cx ≤ hix ∧ loy ≤ cy ≤ hiy ∧ loz ≤ cz ≤ hiz.

#[local] Instance in_region_dec region c : Decision (in_region region c).
Proof. destruct region as [[[lox loy] loz] [[hix hiy] hiz]], c as [[cx cy] cz]. apply _. Defined.

Lemma elem_of_region region m : m ∈ region_members a region ↔
  0 ≤ m ∧ ∃ n, ao_objs a !! Z.to_nat m = Some n ∧ obj_live n = true ∧ in_region region (cell_of_object a (on_obj n)).
Proof.
  destruct region as [[[lox loy] loz] [[hix hiy] hiz]]. unfold region_members. rewrite list_elem_of_bind. setoid_rewrite list_elem_of_bind.
  setoid_rewrite list_elem_of_bind. setoid_rewrite elem_of_cell_members. setoid_rewrite elem_of_axis. split.
  - intros (cz & (cy & (cx & (Hm & n & Hn & Hl & Hc) & Hx) & Hy) & Hz). split; [done|]. exists n. by rewrite Hc.
  - intros (Hm & n & Hn & Hl & Hin). unfold cell_of_object in *. destruct Hin as (Hx & Hy & Hz).
    eexists. split; [|exact Hz]. eexists. split; [|exact Hy]. eexists. split; [|exact Hx]. split; [done|]. by exists n.
Qed.

Lemma region_NoDup region : NoDup (region_members a region).
Proof.
  destruct region as [[[lox loy] loz] [[hix hiy] hiz]]. unfold region_members.
  assert (∀ c c' m, m ∈ cell_members a c → m ∈ cell_members a c' → c = c') as Hone.
  { intros c c' m (_ & n & Hn & _ & <-)%elem_of_cell_members (_ & n' & Hn' & _ & <-)%elem_of_cell_members. by simplify_eq. }
  apply NoDup_bind; [| |apply NoDup_seqZ].
  - intros z z' m _ _. do 2 setoid_rewrite list_elem_of_bind. intros (y & (x & Hm & _) & _) (y' & (x' & Hm' & _) & _).
    by injection (Hone _ _ _ Hm Hm') as -> -> ->.
  - intros z _. apply NoDup_bind; [| |apply NoDup_seqZ].
    + intros y y' m _ _. setoid_rewrite list_elem_of_bind. intros (x & Hm & _) (x' & Hm' & _). by injection (Hone _ _ _ Hm Hm') as -> ->.
    + intros y _. apply NoDup_bind; [| |apply NoDup_seqZ]; [|intros; apply cell_members_NoDup].
      intros x x' m _ _ Hm Hm'. by injection (Hone _ _ _ Hm Hm') as ->.
Qed.

(** The objects a walk meets: those of the index in the region's cells, each once. *)
Lemma elem_of_values o : o ∈ snd <$> map_to_list s ↔ s !! ob_id o = Some o.
Proof.
  pose proof (oo_content _ _ _ (ok_objs _ _ _ _ Hok)) as Hcontent. rewrite list_elem_of_fmap. split.
  - intros ([id o'] & -> & Hin%elem_of_map_to_list). cbn. pose proof Hin as (i & n & _ & _ & _ & Hid)%Hcontent. by rewrite Hid.
  - intros Hs. exists (ob_id o, o). split; [done|]. by apply elem_of_map_to_list.
Qed.

Lemma values_NoDup : NoDup (snd <$> map_to_list s).
Proof.
  apply (NoDup_fmap_1 ob_id). rewrite <- list_fmap_compose. erewrite (list_fmap_ext _ fst); [apply NoDup_fst_map_to_list|].
  intros i [id o] Hi. cbn. apply list_elem_of_lookup_2, elem_of_map_to_list in Hi.
  by apply (oo_content _ _ _ (ok_objs _ _ _ _ Hok)) in Hi as (j & n & _ & _ & _ & Hid).
Qed.

Lemma region_objects region :
  objects_at a (region_members a region) ≡ₚ filter (λ o, in_region region (cell_of_object a o)) (snd <$> map_to_list s).
Proof.
  pose proof (ok_objs _ _ _ _ Hok) as Hobjs. apply NoDup_Permutation.
  - apply NoDup_fmap_2_strong; [|apply region_NoDup].
    intros m m' (Hm & n & Hn & Hl & _)%elem_of_region (Hm' & n' & Hn' & Hl' & _)%elem_of_region.
    rewrite (obj_at_lookup _ _ _ Hn), (obj_at_lookup _ _ _ Hn'). intros Ho.
    assert (Z.to_nat m = Z.to_nat m') by (eapply same_node; [exact Hobjs|exact Hn|exact Hn'|done..|by unfold obj_key; rewrite Ho]). lia.
  - apply NoDup_filter, values_NoDup.
  - intros o. rewrite list_elem_of_filter, elem_of_values. unfold objects_at. rewrite list_elem_of_fmap. split.
    + intros (m & -> & (Hm & n & Hn & Hl & Hin)%elem_of_region). rewrite (obj_at_lookup _ _ _ Hn). split; [done|].
      by apply (content_id k (ao_objs a) s (Z.to_nat m)).
    + intros [Hin (i & n & Hn & Hl & <- & _)%(oo_content _ _ _ Hobjs)]. exists (Z.of_nat i). rewrite Nat2Z.id, (obj_at_lookup _ _ _ Hn).
      split; [done|]. apply elem_of_region. split; [lia|]. exists n. by rewrite Nat2Z.id.
Qed.

(** A walk whose region has every matching object visits exactly those. *)
Lemma region_walk region pred (P : kith_aoi_object → Prop) `{!∀ o, Decision (P o)} :
  (∀ id o, s !! id = Some o → pred o = true ↔ P o) → (∀ id o, s !! id = Some o → P o → in_region region (cell_of_object a o)) →
  filter (λ o, pred o = true) (objects_at a (region_members a region)) ≡ₚ filter P (snd <$> map_to_list s).
Proof.
  intros Hpred Hin. rewrite region_objects, list_filter_filter. apply NoDup_Permutation; [apply NoDup_filter, values_NoDup..|].
  intros o. rewrite !list_elem_of_filter, elem_of_values. naive_solver.
Qed.
End Regions.

(** ** Matching objects *)

Definition int64 (z : Z) : Prop := - 2 ^ 63 ≤ z < 2 ^ 63.

Definition object_wf (o : kith_aoi_object) : Prop :=
  int64 (ob_pos_x o) ∧ int64 (ob_pos_y o) ∧ int64 (ob_pos_z o) ∧ 0 ≤ ob_radius o < 2 ^ 63.

Definition call_wf (c : aoi_call) : Prop := match c with Insert _ o | Update _ o => object_wf o | _ => True end.

Definition sphere_wf (s : kith_aoi_sphere) : Prop := int64 (sp_cx s) ∧ int64 (sp_cy s) ∧ int64 (sp_cz s) ∧ 0 ≤ sp_radius s < 2 ^ 63.

Definition box_wf (b : kith_aoi_box) : Prop :=
  Forall int64 [bx_min_x b; bx_max_x b; bx_min_y b; bx_max_y b; bx_min_z b; bx_max_z b] ∧
  bx_min_x b ≤ bx_max_x b ∧ bx_min_y b ≤ bx_max_y b ∧ bx_min_z b ≤ bx_max_z b.

(** The object's ball meets the sphere, or the box. *)
Definition meets_sphere (s : kith_aoi_sphere) (o : kith_aoi_object) : Prop :=
  (ob_pos_x o - sp_cx s) ^ 2 + (ob_pos_y o - sp_cy s) ^ 2 + (ob_pos_z o - sp_cz s) ^ 2 ≤ (sp_radius s + ob_radius o) ^ 2.

Definition gap (lo hi z : Z) : Z := Z.max 0 (Z.max (lo - z) (z - hi)).

Definition meets_box (b : kith_aoi_box) (o : kith_aoi_object) : Prop :=
  gap (bx_min_x b) (bx_max_x b) (ob_pos_x o) ^ 2 + gap (bx_min_y b) (bx_max_y b) (ob_pos_y o) ^ 2 +
  gap (bx_min_z b) (bx_max_z b) (ob_pos_z o) ^ 2 ≤ ob_radius o ^ 2.

#[export] Instance meets_sphere_dec s o : Decision (meets_sphere s o).
Proof. unfold meets_sphere. apply _. Defined.
#[export] Instance meets_box_dec b o : Decision (meets_box b o).
Proof. unfold meets_box. apply _. Defined.

Lemma pred_sphere_exact s o : sphere_wf s → object_wf o → aoi_pred_sphere s o = true ↔ meets_sphere s o.
Proof.
  unfold sphere_wf, object_wf, int64. intros Hs Ho. unfold aoi_pred_sphere, meets_sphere. rewrite within_exact by lia.
  rewrite Z.leb_le, !Z.pow_2_r. done.
Qed.

Lemma clamp_gap lo hi z : lo ≤ hi → (z - aoi_clamp z lo hi) * (z - aoi_clamp z lo hi) = gap lo hi z ^ 2 ∧
  Z.abs (z - aoi_clamp z lo hi) = gap lo hi z.
Proof.
  intros Hle. assert (Z.abs (z - aoi_clamp z lo hi) = gap lo hi z) as He; [|split; [rewrite <- He, Z.pow_2_r; lia|done]].
  unfold aoi_clamp, gap. destruct (Z.ltb_spec z lo); [lia|]. destruct (Z.ltb_spec hi z); lia.
Qed.

Lemma pred_box_exact b o : box_wf b → object_wf o → aoi_pred_box b o = true ↔ meets_box b o.
Proof.
  intros [Hb (Hx & Hy & Hz)] Ho. unfold object_wf in Ho. rewrite !Forall_cons in Hb. unfold aoi_pred_box, meets_box.
  destruct (clamp_gap _ _ (ob_pos_x o) Hx) as [Hx2 Hxa], (clamp_gap _ _ (ob_pos_y o) Hy) as [Hy2 Hya], (clamp_gap _ _ (ob_pos_z o) Hz) as [Hz2 Hza].
  assert (∀ lo hi z, int64 lo → int64 hi → int64 z → gap lo hi z < 2 ^ 127) as Hgap by (unfold gap, int64; lia).
  rewrite within_exact; [|rewrite ?Hxa, ?Hya, ?Hza; (apply Hgap; tauto) || (unfold int64 in *; lia)..].
  rewrite Z.leb_le, Hx2, Hy2, Hz2, (Z.pow_2_r (ob_radius o)). done.
Qed.

Lemma squares_le x y z r : 0 ≤ r → x ^ 2 + y ^ 2 + z ^ 2 ≤ r ^ 2 → Z.abs x ≤ r ∧ Z.abs y ≤ r ∧ Z.abs z ≤ r.
Proof. intros Hr Hle. rewrite !Z.pow_2_r in Hle. split_and!; nia. Qed.

(** ** Regions cover the matching objects *)

Section Cover.
Context (k : Z) (a : kith_aoi) (s : gmap Z kith_aoi_object) (cs : gset cell_coord) (Hok : aoi_ok k a s cs).

(** The end of a query's loop on an axis is below the last index. *)
Definition stops (a : kith_aoi) (e : Z) : Prop := e / ao_cell_size a < INT32_MAX.

Lemma grid_below e : grid (ao_cell_size a) e < INT32_MAX ↔ stops a e.
Proof. unfold grid, stops, INT32_MAX, INT32_MIN. lia. Qed.

Lemma region_sphere_grid sph : let reach := sp_radius sph + ao_max_radius a in let g := grid (ao_cell_size a) in
  aoi_region_sphere a sph = ((g (sp_cx sph - reach), g (sp_cy sph - reach), g (sp_cz sph - reach)),
                             (g (sp_cx sph + reach), g (sp_cy sph + reach), g (sp_cz sph + reach))).
Proof.
  intros reach g. unfold aoi_region_sphere. pose proof (ok_cell_size _ _ _ _ Hok) as Hd.
  assert (∀ z, aoi_region_cell z (ao_cell_size a) = g z) as Hg by (intros z; apply (cell_of_grid z _ Hd)). by rewrite !Hg.
Qed.

Lemma region_box_grid b : let m := ao_max_radius a in let g := grid (ao_cell_size a) in
  aoi_region_box a b = ((g (bx_min_x b - m), g (bx_min_y b - m), g (bx_min_z b - m)),
                        (g (bx_max_x b + m), g (bx_max_y b + m), g (bx_max_z b + m))).
Proof.
  intros m g. unfold aoi_region_box. pose proof (ok_cell_size _ _ _ _ Hok) as Hd.
  assert (∀ z, aoi_region_cell z (ao_cell_size a) = g z) as Hg by (intros z; apply (cell_of_grid z _ Hd)). by rewrite !Hg.
Qed.

Lemma in_grid_region o lox loy loz hix hiy hiz : let g := grid (ao_cell_size a) in
  lox ≤ ob_pos_x o ≤ hix → loy ≤ ob_pos_y o ≤ hiy → loz ≤ ob_pos_z o ≤ hiz →
  in_region ((g lox, g loy, g loz), (g hix, g hiy, g hiz)) (cell_of_object a o).
Proof.
  intros g Hx Hy Hz. pose proof (ok_cell_size _ _ _ _ Hok) as Hd. unfold cell_of_object.
  rewrite (proj1 (cell_of_grid (ob_pos_x o) _ Hd)), (proj1 (cell_of_grid (ob_pos_y o) _ Hd)), (proj1 (cell_of_grid (ob_pos_z o) _ Hd)).
  cbn. split_and!; by apply grid_mono; [|lia].
Qed.

Lemma sphere_covered sph id o : sphere_wf sph → object_wf o → s !! id = Some o → meets_sphere sph o →
  in_region (aoi_region_sphere a sph) (cell_of_object a o).
Proof.
  intros Hs Ho Hid Hm. rewrite region_sphere_grid. unfold sphere_wf, object_wf, meets_sphere in *.
  pose proof (proj2 (ok_radius _ _ _ _ Hok) _ _ Hid) as Hr.
  apply squares_le in Hm; [|lia]. apply in_grid_region; lia.
Qed.

Lemma box_covered b id o : box_wf b → object_wf o → s !! id = Some o → meets_box b o →
  in_region (aoi_region_box a b) (cell_of_object a o).
Proof.
  intros [_ Hb] (_ & _ & _ & Ho) Hid Hm. rewrite region_box_grid. pose proof (proj2 (ok_radius _ _ _ _ Hok) _ _ Hid) as Hr.
  apply squares_le in Hm; [|lia]. unfold gap in Hm. apply in_grid_region; lia.
Qed.

Lemma region_sphere_small sph : region_small (aoi_region_sphere a sph) ↔
  Forall (λ c, stops a (c + (sp_radius sph + ao_max_radius a))) [sp_cx sph; sp_cy sph; sp_cz sph].
Proof.
  rewrite region_sphere_grid. cbn. rewrite !Forall_cons, !grid_below, Forall_nil. pose proof (grid_range (ao_cell_size a)). naive_solver.
Qed.

Lemma region_box_small b : region_small (aoi_region_box a b) ↔
  Forall (λ c, stops a (c + ao_max_radius a)) [bx_max_x b; bx_max_y b; bx_max_z b].
Proof.
  rewrite region_box_grid. cbn. rewrite !Forall_cons, !grid_below, Forall_nil. pose proof (grid_range (ao_cell_size a)). naive_solver.
Qed.
End Cover.

(** A walk with a visitor that never stops. *)
Lemma visit_cell_goes {V} pred (visit : kith_aoi_object → V → V * bool) a c v : (∀ o v, (visit o v).2 = true) →
  (visit_cell pred visit a c v).2 = true.
Proof.
  intros Hgo. rewrite visit_cell_list. generalize (filter (λ o, pred o = true) (objects_at a (cell_members a c))). intros l.
  revert v. induction l as [|o l IH]; intros v; [done|]. cbn. pose proof (Hgo o v). destruct (visit o v) as [v1 go]. cbn in *. subst go. apply IH.
Qed.

Lemma fuel_above z : ∃ fuel, z < Z.of_nat fuel.
Proof. exists (Z.to_nat (Z.max 0 z + 1)). lia. Qed.

Lemma visit_region_ends {V} pred (visit : kith_aoi_object → V → V * bool) a lox loy loz hix hiy hiz v :
  (∀ o v, (visit o v).2 = true) → Forall (λ p : Z * Z, INT32_MIN ≤ p.1 ≤ p.2 ∧ p.2 ≤ INT32_MAX) [(lox, hix); (loy, hiy); (loz, hiz)] →
  (∃ fuel, is_Some (aoi_visit_region pred visit fuel a ((lox, loy, loz), (hix, hiy, hiz)) v)) ↔
  region_small ((lox, loy, loz), (hix, hiy, hiz)).
Proof.
  rewrite !Forall_cons. cbn [fst snd]. intros Hgo (Hx & Hy & Hz & _). split.
  - intros [fuel [r Hr]]. unfold aoi_visit_region in Hr.
    set (bx := λ cz cy cx w, Some (visit_cell pred visit a (cx, cy, cz) w)) in Hr.
    assert (∀ cz cy cx w, goes_on (bx cz cy cx w)) as Hbx.
    { intros cz cy cx w. cbn. pose proof (visit_cell_goes pred visit a (cx, cy, cz) w Hgo). by destruct (visit_cell _ _ _ _ _). }
    assert (∀ cz cy w, goes_on (for_axis fuel lox hix (bx cz cy) w)) as Hby by (intros; by apply for_axis_goes).
    assert (∀ cz w, goes_on (for_axis fuel loy hiy (λ cy, for_axis fuel lox hix (bx cz cy)) w)) as Hbz
      by (intros; apply for_axis_goes; intros; apply Hby).
    cbn. split_and!; try lia.
    + destruct (decide (hix = INT32_MAX)) as [->|]; [|lia].
      rewrite for_axis_none in Hr; [done|lia|]. intros cz w. apply for_axis_none; [lia|]. intros cy w'.
      apply for_axis_endless; [intros; apply Hbx|lia].
    + destruct (decide (hiy = INT32_MAX)) as [->|]; [|lia].
      rewrite for_axis_none in Hr; [done|lia|]. intros cz w. apply for_axis_endless; [intros; apply Hby|lia].
    + destruct (decide (hiz = INT32_MAX)) as [->|]; [|lia]. rewrite for_axis_endless in Hr; [done|intros; apply Hbz|lia].
  - intros Hs. destruct (fuel_above (2 ^ 32)) as [fuel Hf]. exists fuel. rewrite visit_region_list by done. by eexists.
Qed.

(** ** Runs of well-formed calls *)

Lemma spatial_run_objects cap cell (P : kith_aoi_object → Prop) st calls rs st' : spatial_run cap cell st calls rs st' →
  Forall (λ c, match c with Insert _ o | Update _ o => P o | _ => True end) calls →
  map_Forall (λ _, P) st.1 → map_Forall (λ _, P) st'.1.
Proof.
  induction 1 as [|st c r st1 calls rs st2 Hstep _ IH]; [done|]. intros [Hc Hcalls]%Forall_cons Hst. apply (IH Hcalls).
  destruct Hstep; cbn in *; try done; [by apply map_Forall_insert_2..|by apply map_Forall_delete].
Qed.

Section Claims.
Context (params : kith_aoi_params) (Hb : 0 ≤ ap_bucket_count params).

(** A created index after any calls. *)
Lemma created_run a0 calls : kith_aoi_create true params = Some (inr a0) → ∃ k s cs,
  spatial_run (2 ^ k) (cell_of_object a0) (∅, ∅) calls (aoi_run calls a0).2 (s, cs) ∧ aoi_ok k (aoi_run calls a0).1 s cs ∧
  Z.max 16 (if ap_bucket_count params =? 0 then KITH_AOI_DEFAULT_BUCKET_COUNT else ap_bucket_count params) ≤ 2 ^ k ∧
  (Forall call_wf calls → map_Forall (λ _, object_wf) s).
Proof.
  intros Hc. destruct (aoi_params_validate params) as [e|] eqn:Hv; [unfold kith_aoi_create in Hc; by rewrite Hv in Hc|].
  destruct (aoi_create_ok params Hb Hv) as (k & a & Hc' & Hok & _ & Hk). rewrite Hc in Hc'. injection Hc' as <-.
  pose proof (run_refines k calls a0 ∅ ∅ Hok) as Hrun. destruct (aoi_run calls a0) as [a rs].
  destruct Hrun as (s & cs & Hrun & Hok' & _). exists k, s, cs. split_and!; [done..|]. intros Hwf.
  by apply (spatial_run_objects _ _ object_wf _ _ _ _ Hrun).
Qed.
End Claims.

(** C10: The spatial index is a finite map of objects: creation succeeds
    exactly on valid parameters with memory, and any sequence of insertions,
    updates, removals, lookups and size queries is answered as the map answers
    it, although objects and cells live in open-addressing tables with
    tombstones and move between cells; an object is refused only when it is
    there already, the map is full, memory fails or no cell is free. *)
Theorem aoi_refines (mem : bool) (params : kith_aoi_params) (Hb : 0 ≤ ap_bucket_count params) :
  match aoi_params_validate params with
  | Some e => kith_aoi_create mem params = Some (inl (- e))
  | None =>
      if mem then ∃ a k, kith_aoi_create mem params = Some (inr a) ∧
        Z.max 16 (if ap_bucket_count params =? 0 then KITH_AOI_DEFAULT_BUCKET_COUNT else ap_bucket_count params) ≤ 2 ^ k ∧
        ∀ calls, ∃ s cs, spatial_run (2 ^ k) (cell_of_object a) (∅, ∅) calls (aoi_run calls a).2 (s, cs)
      else kith_aoi_create mem params = Some (inl (- KITH_ENOMEM))
  end.
Proof.
  destruct (aoi_params_validate params) as [e|] eqn:Hv; [unfold kith_aoi_create; by rewrite Hv|].
  destruct mem; [|unfold kith_aoi_create; by rewrite Hv].
  destruct (aoi_create_ok params Hb Hv) as (k & a & Hc & Hok & _ & Hk). exists a, k. split_and!; [done..|]. intros calls.
  pose proof (run_refines k calls a ∅ ∅ Hok) as Hrun. destruct (aoi_run calls a) as [a' rs].
  destruct Hrun as (s & cs & Hrun & _). by exists s, cs.
Qed.

(** C12: After any sequence of calls, a sphere or box query visits exactly the
    stored objects that meet the region, each once, in one order, until the
    visitor stops, although it walks only the cells around the region.
    (Coordinates and radii in their ranges, regions that end before the last
    cell of an axis.) *)
Theorem aoi_queries_exact (params : kith_aoi_params) (a0 : kith_aoi) (calls : list aoi_call) :
  0 ≤ ap_bucket_count params → kith_aoi_create true params = Some (inr a0) → Forall call_wf calls →
  let a := (aoi_run calls a0).1 in
  ∃ cap s cs, spatial_run cap (cell_of_object a0) (∅, ∅) calls (aoi_run calls a0).2 (s, cs) ∧
  (∀ sph, sphere_wf sph → Forall (λ c, stops a (c + (sp_radius sph + ao_max_radius a))) [sp_cx sph; sp_cy sph; sp_cz sph] →
   ∃ l, l ≡ₚ filter (meets_sphere sph) (snd <$> map_to_list s) ∧
   ∀ (V : Type) visit (v : V) fuel, 2 ^ 32 < Z.of_nat fuel →
     kith_aoi_query_sphere fuel a sph visit v = Some (visit_list visit l v).1) ∧
  (∀ b, box_wf b → Forall (λ c, stops a (c + ao_max_radius a)) [bx_max_x b; bx_max_y b; bx_max_z b] →
   ∃ l, l ≡ₚ filter (meets_box b) (snd <$> map_to_list s) ∧
   ∀ (V : Type) visit (v : V) fuel, 2 ^ 32 < Z.of_nat fuel →
     kith_aoi_query_box fuel a b visit v = Some (visit_list visit l v).1).
Proof.
  intros Hb Hc Hcalls. destruct (created_run params Hb a0 calls Hc) as (k & s & cs & Hrun & Hok & _ & Hwf). specialize (Hwf Hcalls).
  exists (2 ^ k), s, cs. split_and!; [done|..].
  - intros sph Hs Hst%(region_sphere_small k _ s cs Hok). eexists. split.
    + apply (region_walk k _ s cs Hok (aoi_region_sphere (aoi_run calls a0).1 sph) (aoi_pred_sphere sph)).
      * intros id o Hid. apply pred_sphere_exact; [done|by apply (Hwf id)].
      * intros id o Hid. eapply sphere_covered; [done..|by apply (Hwf id)|done].
    + intros V visit v fuel Hf. unfold kith_aoi_query_sphere. by rewrite visit_region_list by done.
  - intros b Hs Hst%(region_box_small k _ s cs Hok). eexists. split.
    + apply (region_walk k _ s cs Hok (aoi_region_box (aoi_run calls a0).1 b) (aoi_pred_box b)).
      * intros id o Hid. apply pred_box_exact; [done|by apply (Hwf id)].
      * intros id o Hid. eapply box_covered; [done..|by apply (Hwf id)|done].
    + intros V visit v fuel Hf. unfold kith_aoi_query_box. by rewrite visit_region_list by done.
Qed.

(** A query of a region that is not empty, whose visitor never stops it, has a
    result the language defines exactly when the region, widened by the
    largest radius, ends before the last cell of every axis. *)
Lemma aoi_query_defined (params : kith_aoi_params) (a0 : kith_aoi) (calls : list aoi_call) :
  0 ≤ ap_bucket_count params → kith_aoi_create true params = Some (inr a0) →
  let a := (aoi_run calls a0).1 in
  ∀ (V : Type) (visit : kith_aoi_object → V → V * bool) (v : V), (∀ o v, (visit o v).2 = true) →
  (∀ sph, 0 ≤ sp_radius sph → (∃ fuel, is_Some (kith_aoi_query_sphere fuel a sph visit v)) ↔
     Forall (λ c, stops a (c + (sp_radius sph + ao_max_radius a))) [sp_cx sph; sp_cy sph; sp_cz sph]) ∧
  (∀ b, bx_min_x b ≤ bx_max_x b → bx_min_y b ≤ bx_max_y b → bx_min_z b ≤ bx_max_z b →
     (∃ fuel, is_Some (kith_aoi_query_box fuel a b visit v)) ↔
     Forall (λ c, stops a (c + ao_max_radius a)) [bx_max_x b; bx_max_y b; bx_max_z b]).
Proof.
  intros Hb Hc a V visit v Hgo. destruct (created_run params Hb a0 calls Hc) as (k & s & cs & _ & Hok & _). fold a in Hok.
  pose proof (ok_cell_size _ _ _ _ Hok) as Hd. pose proof (proj1 (ok_radius _ _ _ _ Hok)) as Hr.
  assert (∀ lo hi, lo ≤ hi → INT32_MIN ≤ grid (ao_cell_size a) lo ≤ grid (ao_cell_size a) hi ∧ grid (ao_cell_size a) hi ≤ INT32_MAX) as Hg.
  { intros lo hi Hle. pose proof (grid_mono _ _ _ Hd Hle). pose proof (grid_range (ao_cell_size a) lo).
    pose proof (grid_range (ao_cell_size a) hi). lia. }
  split.
  - intros sph Hs. rewrite <- (region_sphere_small k a s cs Hok). unfold kith_aoi_query_sphere. setoid_rewrite fmap_is_Some.
    rewrite (region_sphere_grid k a s cs Hok). apply visit_region_ends; [done|]. do 3 (apply Forall_cons; split; [apply Hg; lia|]). done.
  - intros b Hx Hy Hz. rewrite <- (region_box_small k a s cs Hok). unfold kith_aoi_query_box. setoid_rewrite fmap_is_Some.
    rewrite (region_box_grid k a s cs Hok). apply visit_region_ends; [done|]. do 3 (apply Forall_cons; split; [apply Hg; lia|]). done.
Qed.
