(* ===== verification/HttpParser.v ===== *)
(** * Requests of the control server ([src/src/control/http_parser.c])

    The request line, the headers and the body, out of what a connection's
    read buffer holds so far.  A C string ends at its first zero byte; the
    header strings lie in a scratch arena whose use is counted.  On the text
    of a request, whole or cut anywhere, the parser asks for more until the
    last byte, and then has the method, the path, the headers and the body
    that were sent. *)

From S2P Require Import Prelude PyStruct PyText PyWire Proto.

#[local] Open Scope Z_scope.

Definition CONTROL_MAX_HEADERS : Z := 32.
Definition CONTROL_MAX_URL : Z := 256.
Definition CONTROL_MAX_METHOD : Z := 8.
Definition CONTROL_MAX_HEADER_NAME : Z := 64.
Definition CONTROL_MAX_HEADER_VALUE : Z := 256.
Definition CONTROL_MAX_BODY : Z := 65536.

Inductive conn_state := READING | RESPONDING | DISPATCHING | WRITING | SSE | CLOSING.
Inductive method := GET | POST | PUT | DELETE | UNKNOWN.

#[export] Instance conn_state_eq_dec : EqDecision conn_state.
Proof. solve_decision. Defined.
#[export] Instance method_eq_dec : EqDecision method.
Proof. solve_decision. Defined.

(** The fields of a request, and the connection's fields the parser uses. *)
Record parser := mkParser {
  hp_state : conn_state;
  hp_buf : bytes; (** [read_buf] up to [read_pos] *)
  hp_cap : Z;
  hp_method : method;
  hp_path : bytes;
  hp_headers : list (bytes * bytes);
  hp_scratch_used : Z;
  hp_scratch_cap : Z;
  hp_body : option bytes;
}.

Definition set_state (st : conn_state) (p : parser) : parser :=
  mkParser st (hp_buf p) (hp_cap p) (hp_method p) (hp_path p) (hp_headers p) (hp_scratch_used p) (hp_scratch_cap p) (hp_body p).
Definition set_method (m : method) (p : parser) : parser :=
  mkParser (hp_state p) (hp_buf p) (hp_cap p) m (hp_path p) (hp_headers p) (hp_scratch_used p) (hp_scratch_cap p) (hp_body p).
Definition set_path (u : bytes) (p : parser) : parser :=
  mkParser (hp_state p) (hp_buf p) (hp_cap p) (hp_method p) u (hp_headers p) (hp_scratch_used p) (hp_scratch_cap p) (hp_body p).
Definition set_headers (hs : list (bytes * bytes)) (used : Z) (p : parser) : parser :=
  mkParser (hp_state p) (hp_buf p) (hp_cap p) (hp_method p) (hp_path p) hs used (hp_scratch_cap p) (hp_body p).
Definition set_body (b : option bytes) (p : parser) : parser :=
  mkParser (hp_state p) (hp_buf p) (hp_cap p) (hp_method p) (hp_path p) (hp_headers p) (hp_scratch_used p) (hp_scratch_cap p) b.

Abbreviation CR := x0d.
Abbreviation LF := x0a.
Abbreviation SP := x20.
Abbreviation COLON := x3a.

Definition ascii (s : string) : bytes := Z_to_byte <$> str s.

(** [memchr]: the offset of the first [c]. *)
Fixpoint memchr (c : byte) (l : bytes) : option nat :=
  match l with
  | [] => None
  | b :: l => if Byte.eqb b c then Some O else S <$> memchr c l
  end.

(** [tolower] *)
Definition tolower (b : byte) : Z := let z := byte_to_Z b in if (65 <=? z) && (z <=? 90) then z + 32 else z.

(** On C strings, of which [a] and [b] are the characters: at most [n] are
    compared, the terminating zeros among them. *)
Fixpoint ci_equal (a b : bytes) (n : nat) : bool :=
  match n with
  | O => true
  | S n =>
      let x := default x00 (head a) in
      let y := default x00 (head b) in
      if negb (tolower x =? tolower y) then false
      else if Byte.eqb x x00 then true
      else ci_equal (tail a) (tail b) n
  end.

(** ** The request line *)

Definition method_of (name : bytes) : method :=
  if bool_decide (name = ascii "GET") then GET
  else if bool_decide (name = ascii "POST") then POST
  else if bool_decide (name = ascii "PUT") then PUT
  else if bool_decide (name = ascii "DELETE") then DELETE
  else UNKNOWN.

Definition parse_request_line (data : bytes) (p : parser) : parser * bool :=
  match memchr CR data with
  | None => (p, false)
  | Some eol =>
      if negb (bool_decide (data !! S eol = Some LF)) then (p, false) else
      let line := take eol data in
      match memchr SP line with
      | None => (p, false)
      | Some method_len =>
          if CONTROL_MAX_METHOD <=? Z.of_nat method_len then (p, false) else
          let p := set_method (method_of (take method_len line)) p in
          let rest := drop (S method_len) line in
          match memchr SP rest with
          | None => (p, false)
          | Some url_len =>
              if CONTROL_MAX_URL <=? Z.of_nat url_len then (p, false)
              else (set_path (take url_len rest) p, true)
          end
      end
  end.

(** ** Headers *)

Fixpoint skip_spaces (l : bytes) : bytes :=
  match l with b :: l' => if Byte.eqb b SP then skip_spaces l' else l | [] => [] end.

(** One line, its end of line taken off; [None]: the scratch is full. *)
Definition parse_header (line : bytes) (p : parser) : option parser :=
  if Z.of_nat (length (hp_headers p)) <? CONTROL_MAX_HEADERS then
    match memchr COLON line with
    | None => Some p
    | Some name_len =>
        let name := take name_len line in
        let value := skip_spaces (drop (S name_len) line) in
        if (zlen name <? CONTROL_MAX_HEADER_NAME) && (zlen value <? CONTROL_MAX_HEADER_VALUE) then
          let need := zlen name + 1 + zlen value + 1 in
          if hp_scratch_cap p <? hp_scratch_used p + need then None
          else Some (set_headers (hp_headers p ++ [(c_string name, c_string value)]) (hp_scratch_used p + need) p)
        else Some p
    end
  else Some p.

(** The bytes taken, or [None] on a failure; every turn takes two bytes. *)
Fixpoint header_lines (fuel : nat) (data : bytes) (consumed : nat) (p : parser) : parser * option nat :=
  match fuel with
  | O => (p, None)
  | S fuel =>
      if bool_decide (length data < 2)%nat then (p, None)
      else if bool_decide (take 2 data = [CR; LF]) then (p, Some (consumed + 2)%nat)
      else
        match memchr CR data with
        | None => (p, None)
        | Some eol =>
            if negb (bool_decide (data !! S eol = Some LF)) then (p, None) else
            match parse_header (take eol data) p with
            | None => (p, None)
            | Some p => header_lines fuel (drop (eol + 2) data) (consumed + eol + 2) p
            end
        end
  end.

Definition parse_headers (data : bytes) (p : parser) : parser * option nat :=
  header_lines (S (length data)) data 0 (set_headers [] 0 p).

(** ** The body's length *)

Fixpoint content_digits (s : bytes) (result : Z) : option Z :=
  match s with
  | b :: s =>
      if is_digit (byte_to_Z b) then
        let result := result * 10 in
        if 2 ^ 32 <=? result then None else
        let result := result + (byte_to_Z b - 48) in
        if 2 ^ 32 <=? result then None else content_digits s result
      else Some result
  | [] => Some result
  end.

Definition parse_content_length (s : bytes) : option Z :=
  match s with
  | b :: _ => if is_digit (byte_to_Z b) then content_digits s 0 else None
  | [] => None
  end.

Definition find_header (name : bytes) (hs : list (bytes * bytes)) : option bytes :=
  snd <$> find (λ h, ci_equal h.1 name (length name)) hs.

(** ** Where the headers end *)

(** Every turn takes at least one byte. *)
Fixpoint terminator_scan (fuel : nat) (data : bytes) (off : nat) : option nat :=
  match fuel with
  | O => None
  | S fuel =>
      if bool_decide (length data < 4)%nat then None else
      match memchr CR data with
      | None => None
      | Some cr =>
          if bool_decide (length data < cr + 4)%nat then None
          else if bool_decide (take 3 (drop (S cr) data) = [LF; CR; LF]) then Some (off + cr)%nat
          else terminator_scan fuel (drop (S cr) data) (off + S cr)
      end
  end.

Definition find_header_terminator (data : bytes) : option nat := terminator_scan (S (length data)) data 0.

(** ** A request *)

(** [0]: complete; [1]: more is needed; [-1]: refused. *)
Definition control_http_parser_consume (p : parser) : parser * Z :=
  if negb (bool_decide (hp_state p = READING)) then (p, 1) else
  let data := hp_buf p in
  let refuse p := (set_state CLOSING p, -1) in
  match find_header_terminator data with
  | None => if hp_cap p <=? zlen data then refuse p else (p, 1)
  | Some _ =>
      let '(p, ok) := parse_request_line data p in
      if negb ok then refuse p else
      match memchr LF data with
      | None => refuse p
      | Some nl =>
          match parse_headers (drop (S nl) data) p with
          | (p, None) => refuse p
          | (p, Some headers_consumed) =>
              let headers_total := (S nl + headers_consumed)%nat in
              let p := set_body None p in
              let respond p := (set_state RESPONDING p, 0) in
              if bool_decide (hp_method p = POST) || bool_decide (hp_method p = PUT) then
                match find_header (ascii "content-length") (hp_headers p) with
                | None => respond p
                | Some cl =>
                    match parse_content_length cl with
                    | None => refuse p
                    | Some content_len =>
                        if CONTROL_MAX_BODY <? content_len then refuse p
                        else if content_len <=? zlen data - Z.of_nat headers_total
                        then respond (set_body (Some (take (Z.to_nat content_len) (drop headers_total data))) p)
                        else (p, 1)
                    end
                end
              else respond p
          end
      end
  end.

Abbreviation EOL := [CR; LF].

(** Lines, then the empty one. *)
Definition lines_text (ls : list bytes) : bytes := concat ((λ l, l ++ EOL) <$> ls) ++ EOL.

(** A line that holds no end of line and is not the empty one. *)
Definition clean (l : bytes) : Prop := l ≠ [] ∧ (CR ∉ l) ∧ (LF ∉ l).

Lemma lines_text_cons l ls : lines_text (l :: ls) = l ++ EOL ++ lines_text ls.
Proof. unfold lines_text. cbn. by rewrite <- !app_assoc. Qed.

(** ** Searches *)

Lemma memchr_app c pre post : c ∉ pre → memchr c (pre ++ c :: post) = Some (length pre).
Proof.
  induction pre as [|b pre IH]; cbn; intros Hn; [by rewrite (Byte.byte_dec_lb eq_refl)|]. apply not_elem_of_cons in Hn as [Hb Hn].
  destruct (Byte.eqb b c) eqn:E; [by apply Byte.byte_dec_bl in E|]. by rewrite IH.
Qed.

Lemma memchr_Some c l i : memchr c l = Some i → ∃ pre post, l = pre ++ c :: post ∧ length pre = i ∧ c ∉ pre.
Proof.
  revert i. induction l as [|b l IH]; intros i; [done|]. cbn. destruct (Byte.eqb b c) eqn:E.
  - apply Byte.byte_dec_bl in E as ->. intros [= <-]. exists [], l. split_and!; [done..|apply not_elem_of_nil].
  - intros (j & Hj & ->)%fmap_Some. destruct (IH j Hj) as (pre & post & -> & <- & Hn). exists (b :: pre), post. split_and!; [done..|].
    apply not_elem_of_cons. split; [|done]. intros ->. by rewrite (Byte.byte_dec_lb eq_refl) in E.
Qed.

Lemma memchr_None c l : memchr c l = None ↔ c ∉ l.
Proof.
  split.
  - intros Hn (pre & post & ->)%list_elem_of_split. revert Hn. induction pre as [|b pre IH]; cbn.
    + by rewrite (Byte.byte_dec_lb eq_refl).
    + destruct (Byte.eqb b c); [done|]. by intros ?%fmap_None%IH.
  - intros Hn. destruct (memchr c l) as [i|] eqn:E; [|done]. apply memchr_Some in E as (pre & post & -> & _). set_solver.
Qed.

(** The scan finds the two ends of line wherever they are. *)
Abbreviation TERM := [CR; LF; CR; LF].

Lemma scan_finds fuel : ∀ data off, (length data < fuel)%nat →
  terminator_scan fuel data off = None ↔ ∀ pre post, data ≠ pre ++ TERM ++ post.
Proof.
  induction fuel as [|fuel IH]; intros data off Hf; [lia|]. cbn [terminator_scan]. case_bool_decide as Hl.
  { split; [|done]. intros _ pre post ->. rewrite !length_app in Hl. cbn in Hl. lia. }
  destruct (memchr CR data) as [cr|] eqn:Hcr.
  2: { apply memchr_None in Hcr. split; [|done]. intros _ pre post ->. set_solver. }
  apply memchr_Some in Hcr as (pre & post & -> & <- & Hn). rewrite length_app in *. cbn [length] in *.
  assert (drop (S (length pre)) (pre ++ CR :: post) = post) as -> by (rewrite drop_app_ge, Nat.sub_succ_l, Nat.sub_diag by lia; done).
  (* an occurrence starts at the first carriage return or after it *)
  assert (∀ pre' post', pre ++ CR :: post = pre' ++ TERM ++ post' →
    (pre' = pre ∧ post = [LF; CR; LF] ++ post') ∨ ∃ mid, pre' = pre ++ CR :: mid ∧ post = mid ++ TERM ++ post') as Hocc.
  { intros pre' post' Heq. apply app_eq_inv in Heq as [(k & -> & Heq)|(k & -> & Heq)].
    - destruct k as [|b k]; [left; rewrite app_nil_r; by injection Heq|]. injection Heq as <- ?. set_solver.
    - destruct k as [|b k]; [left; rewrite app_nil_r in *; by injection Heq|]. injection Heq as <- Heq. right. by exists k. }
  case_bool_decide as Hlen; [|case_bool_decide as Ht].
  - split; [|done]. intros _ pre' post' [[-> ->]|(mid & -> & ->)]%Hocc; rewrite ?length_app in Hlen; cbn in Hlen; lia.
  - split; [done|]. intros Hno. exfalso. apply (Hno pre (drop 3 post)). rewrite <- (take_drop 3 post) at 1. by rewrite Ht.
  - rewrite IH by lia. split.
    + intros Hno pre' post' [[-> ->]|(mid & -> & ->)]%Hocc; [done|by apply (Hno mid post')].
    + intros Hno pre' post' ->. apply (Hno (pre ++ CR :: pre') post'). by rewrite <- app_assoc.
Qed.

Lemma terminator_None data : find_header_terminator data = None ↔ ∀ pre post, data ≠ pre ++ TERM ++ post.
Proof. apply scan_finds. lia. Qed.

Lemma clean_start l rest x : clean l → l ++ rest ≠ CR :: x.
Proof. intros (Hne & Hcr & _) Heq. destruct l as [|b l]; [done|]. injection Heq as -> _. apply Hcr, list_elem_of_here. Qed.

(** In the text of clean lines the terminator is the end. *)
Lemma lines_term ls pre post : Forall clean ls → lines_text ls = pre ++ TERM ++ post → post = [].
Proof.
  intros Hc. revert pre. induction Hc as [|l ls (Hne & Hcr & _) Hc IH]; intros pre Heq.
  { apply (f_equal length) in Heq. rewrite !length_app in Heq. cbn in Heq. lia. }
  rewrite lines_text_cons in Heq. apply app_eq_inv in Heq as [(k & -> & Heq)|(k & -> & Heq)].
  - destruct k as [|b k]; [|injection Heq as <- ?; exfalso; apply Hcr; set_solver]. injection Heq as Heq. destruct ls as [|l' ls].
    + by injection Heq.
    + rewrite lines_text_cons in Heq. apply Forall_cons in Hc as [Hl _]. by destruct (clean_start l' (EOL ++ lines_text ls) (LF :: post)).
  - destruct k as [|b k]; [|destruct k as [|b' k]].
    + injection Heq as Heq. destruct ls as [|l' ls]; [by injection Heq|].
      rewrite lines_text_cons in Heq. apply Forall_cons in Hc as [Hl _]. by destruct (clean_start l' (EOL ++ lines_text ls) (LF :: post)).
    + done.
    + injection Heq as _ _ Heq. by apply (IH k).
Qed.

Lemma lines_has_term l ls : ∃ pre, lines_text (l :: ls) = pre ++ TERM.
Proof.
  assert (∀ l, ∃ pre, l ++ EOL ++ lines_text ls = pre ++ TERM) as Hall.
  { induction ls as [|l' ls IH]; intros l0; [by exists l0|]. rewrite lines_text_cons. destruct (IH l') as [pre ->].
    exists (l0 ++ EOL ++ pre). by rewrite <- !app_assoc. }
  rewrite lines_text_cons. apply Hall.
Qed.

(** ** The request line and the headers *)

(** What a header line adds. *)
Definition header_of (line : bytes) : option (bytes * bytes) :=
  name_len ← memchr COLON line;
  let name := take name_len line in
  let value := skip_spaces (drop (S name_len) line) in
  if (zlen name <? CONTROL_MAX_HEADER_NAME) && (zlen value <? CONTROL_MAX_HEADER_VALUE) then Some (c_string name, c_string value) else None.

(** The scratch arena of a connection: it has room for every header kept. *)
Definition SCRATCH_CAP : Z := CONTROL_MAX_HEADERS * (CONTROL_MAX_HEADER_NAME + CONTROL_MAX_HEADER_VALUE).

Definition scratch_ok (p : parser) : Prop :=
  hp_scratch_cap p = SCRATCH_CAP ∧
  0 ≤ hp_scratch_used p ≤ zlen (hp_headers p) * (CONTROL_MAX_HEADER_NAME + CONTROL_MAX_HEADER_VALUE) ∧ zlen (hp_headers p) ≤ CONTROL_MAX_HEADERS.

Lemma parse_header_spec line p : scratch_ok p → ∃ used,
  parse_header line p = Some (set_headers (take 32 (hp_headers p ++ option_list (header_of line))) used p) ∧
  scratch_ok (set_headers (take 32 (hp_headers p ++ option_list (header_of line))) used p).
Proof.
  intros (Hcap & Hused & Hlen).
  assert (∀ o, o = None ∨ 32 ≤ zlen (hp_headers p) → ∃ used,
    Some p = Some (set_headers (take 32 (hp_headers p ++ option_list o)) used p) ∧
    scratch_ok (set_headers (take 32 (hp_headers p ++ option_list o)) used p)) as Hsame.
  { intros o Ho. exists (hp_scratch_used p). assert (take 32 (hp_headers p ++ option_list o) = hp_headers p) as ->; [|by destruct p].
    unfold zlen, CONTROL_MAX_HEADERS in *. destruct Ho as [->|Hge]; [cbn; rewrite app_nil_r, take_ge by lia; done|].
    rewrite take_app_le, take_ge by lia. done. }
  unfold parse_header, header_of. unfold CONTROL_MAX_HEADERS at 1. destruct (Z.ltb_spec (Z.of_nat (length (hp_headers p))) 32) as [Hlt|Hge].
  2: { apply Hsame. right. unfold zlen. lia. }
  destruct (memchr COLON line) as [n|]; cbn [mbind option_bind]; [|apply Hsame; by left].
  set (name := take n line). set (value := skip_spaces (drop (S n) line)).
  destruct (Z.ltb_spec (zlen name) CONTROL_MAX_HEADER_NAME) as [Hn|]; cbn [andb]; [|apply Hsame; by left].
  destruct (Z.ltb_spec (zlen value) CONTROL_MAX_HEADER_VALUE) as [Hv|]; [|apply Hsame; by left].
  rewrite Hcap. unfold scratch_ok, SCRATCH_CAP, CONTROL_MAX_HEADERS, CONTROL_MAX_HEADER_NAME, CONTROL_MAX_HEADER_VALUE, zlen in *.
  rewrite (proj2 (Z.ltb_ge _ _)) by lia. eexists. cbn [option_list]. rewrite (take_ge (hp_headers p ++ _)) by (rewrite length_app; cbn; lia).
  split; [done|]. cbn. rewrite length_app. cbn [length]. split_and!; [done|lia..].
Qed.

Lemma take_take_app {A} n (a b : list A) : take n (take n a ++ b) = take n (a ++ b).
Proof. rewrite !take_app, take_take, length_take, Nat.min_id. f_equal. f_equal. lia. Qed.

(** The headers kept, at most [CONTROL_MAX_HEADERS] of them. *)
Definition headers_of (ls : list bytes) : list (bytes * bytes) := take 32 (omap header_of ls).

Lemma header_lines_spec ls more : ∀ fuel consumed p, Forall clean ls → (length ls < fuel)%nat → scratch_ok p → ∃ used,
  header_lines fuel (lines_text ls ++ more) consumed p =
  (set_headers (take 32 (hp_headers p ++ omap header_of ls)) used p, Some (consumed + length (lines_text ls))%nat).
Proof.
  induction ls as [|l ls IH]; intros fuel consumed p Hc Hf Hs; (destruct fuel as [|fuel]; [cbn in Hf; lia|]); cbn [header_lines].
  - change (lines_text []) with EOL. rewrite bool_decide_eq_false_2 by (cbn; lia). rewrite bool_decide_eq_true_2 by done.
    exists (hp_scratch_used p). cbn [omap list_omap]. destruct Hs as (_ & _ & Hl). unfold CONTROL_MAX_HEADERS, zlen in Hl.
    rewrite app_nil_r, take_ge by lia. by destruct p.
  - apply Forall_cons in Hc as [Hl Hc]. rewrite lines_text_cons, <- !app_assoc. cbn [app]. pose proof Hl as (Hne & Hcr & _).
    rewrite bool_decide_eq_false_2 by (rewrite length_app; cbn; lia).
    rewrite bool_decide_eq_false_2.
    2: { intros Ht. apply (clean_start l (CR :: LF :: lines_text ls ++ more) (LF :: drop 2 (l ++ CR :: LF :: lines_text ls ++ more)) Hl).
         rewrite <- (take_drop 2 (l ++ _)) at 1. by rewrite Ht. }
    rewrite (memchr_app CR l) by done. rewrite lookup_app_r, Nat.sub_succ_l, Nat.sub_diag by lia. cbn [lookup list_lookup].
    rewrite bool_decide_eq_true_2 by done. cbn [negb]. rewrite take_app_length.
    destruct (parse_header_spec l p Hs) as (used & -> & Hs').
    replace (drop (length l + 2) (l ++ CR :: LF :: lines_text ls ++ more)) with (lines_text ls ++ more) by (by rewrite drop_app_add).
    destruct (IH fuel (consumed + length l + 2)%nat _ Hc ltac:(cbn in Hf; lia) Hs') as [used' ->]. exists used'.
    f_equal; [|f_equal; rewrite length_app; cbn [length]; lia]. cbn [set_headers hp_headers omap list_omap]. unfold set_headers. cbn. f_equal.
    rewrite take_take_app, <- app_assoc. by destruct (header_of l).
Qed.

(** ** Whole and cut requests *)

(** A request as it is sent: the three parts of the request line, the header
    lines and the body. *)
Record http_request := mkHttp { hr_method : bytes; hr_path : bytes; hr_version : bytes; hr_lines : list bytes; hr_body : bytes }.

Definition request_line (r : http_request) : bytes := hr_method r ++ SP :: hr_path r ++ SP :: hr_version r.
Definition request_head_text (r : http_request) : bytes := lines_text (request_line r :: hr_lines r).
Definition request_text (r : http_request) : bytes := request_head_text r ++ hr_body r.

(** The declared length of the body, for the methods that have one. *)
Definition declared (r : http_request) : option bytes :=
  if bool_decide (method_of (hr_method r) = POST) || bool_decide (method_of (hr_method r) = PUT)
  then find_header (ascii "content-length") (headers_of (hr_lines r)) else None.

Record http_ok (r : http_request) : Prop := {
  ho_line : clean (request_line r);
  ho_method : (SP ∉ hr_method r) ∧ zlen (hr_method r) < CONTROL_MAX_METHOD;
  ho_path : (SP ∉ hr_path r) ∧ zlen (hr_path r) < CONTROL_MAX_URL;
  ho_lines : Forall clean (hr_lines r);
  ho_body : match declared r with
            | Some cl => parse_content_length cl = Some (zlen (hr_body r)) ∧ zlen (hr_body r) ≤ CONTROL_MAX_BODY
            | None => hr_body r = []
            end;
}.

(** A connection's parser that reads, holding [buf]. *)
Definition reading (p : parser) (buf : bytes) : Prop := hp_state p = READING ∧ hp_buf p = buf ∧ hp_scratch_cap p = SCRATCH_CAP.

(** The parser after a request. *)
Definition parsed (r : http_request) (p : parser) : Prop :=
  hp_state p = RESPONDING ∧ hp_method p = method_of (hr_method r) ∧ hp_path p = hr_path r ∧ hp_headers p = headers_of (hr_lines r) ∧
  hp_body p = (match declared r with Some _ => Some (hr_body r) | None => None end).

Lemma request_line_spec r p more : http_ok r →
  parse_request_line (request_head_text r ++ more) p = (set_path (hr_path r) (set_method (method_of (hr_method r)) p), true) ∧
  memchr LF (request_head_text r ++ more) = Some (S (length (request_line r))) ∧
  drop (S (S (length (request_line r)))) (request_head_text r ++ more) = lines_text (hr_lines r) ++ more.
Proof.
  intros [(Hne & Hcr & Hlf) [Hm Hml] [Hu Hul] _ _]. unfold request_head_text. rewrite lines_text_cons, <- !app_assoc. cbn [app]. split_and!.
  - unfold parse_request_line. rewrite (memchr_app CR (request_line r)) by done.
    rewrite lookup_app_r, Nat.sub_succ_l, Nat.sub_diag by lia. cbn [lookup list_lookup]. rewrite bool_decide_eq_true_2 by done. cbn [negb].
    rewrite take_app_length. unfold request_line at 1. rewrite (memchr_app SP (hr_method r)) by done.
    unfold zlen in *. rewrite (proj2 (Z.leb_gt _ _)) by done. unfold request_line. rewrite take_app_length.
    replace (drop (S (length (hr_method r))) (hr_method r ++ SP :: hr_path r ++ SP :: hr_version r)) with (hr_path r ++ SP :: hr_version r)
      by (rewrite <- Nat.add_1_r, drop_app_add; done).
    rewrite (memchr_app SP (hr_path r)) by done. rewrite (proj2 (Z.leb_gt _ _)) by done. by rewrite take_app_length.
  - change (request_line r ++ CR :: LF :: lines_text (hr_lines r) ++ more) with (request_line r ++ [CR] ++ LF :: lines_text (hr_lines r) ++ more).
    rewrite app_assoc, memchr_app, length_app by set_solver. f_equal. cbn. lia.
  - rewrite <- Nat.add_1_r, <- Nat.add_1_r, <- Nat.add_assoc, drop_app_add. done.
Qed.

(** Once the head has arrived. *)
Lemma consume_head r p more : http_ok r → reading p (request_head_text r ++ more) → ∃ used,
  let p' := mkParser READING (hp_buf p) (hp_cap p) (method_of (hr_method r)) (hr_path r) (headers_of (hr_lines r)) used (hp_scratch_cap p) None in
  control_http_parser_consume p =
  match declared r with
  | None => (set_state RESPONDING p', 0)
  | Some _ =>
      if zlen (hr_body r) <=? zlen more then (set_state RESPONDING (set_body (Some (take (length (hr_body r)) more)) p'), 0) else (p', 1)
  end.
Proof.
  intros Hok (Hst & Hbuf & Hcap). pose proof (ho_lines _ Hok) as Hlines. pose proof (ho_line _ Hok) as Hline.
  destruct (request_line_spec r p more Hok) as (Hrl & Hnl & Hdrop).
  destruct (header_lines_spec (hr_lines r) more (S (length (lines_text (hr_lines r) ++ more))) 0
              (set_headers [] 0 (set_path (hr_path r) (set_method (method_of (hr_method r)) p)))) as [used Hhl]; [done| |by unfold scratch_ok|].
  { assert (length (hr_lines r) ≤ length (lines_text (hr_lines r)))%nat; [|rewrite length_app; lia].
    clear. induction (hr_lines r) as [|l ls IH]; [cbn; lia|]. rewrite lines_text_cons, !length_app. cbn [length]. lia. }
  exists used. unfold control_http_parser_consume. rewrite Hst, Hbuf. rewrite bool_decide_eq_true_2 by done. cbn [negb].
  destruct (find_header_terminator (request_head_text r ++ more)) as [t|] eqn:Ht.
  2: { exfalso. destruct (lines_has_term (request_line r) (hr_lines r)) as [pre Hpre].
       apply (proj1 (terminator_None _) Ht pre more). unfold request_head_text. by rewrite Hpre, <- app_assoc. }
  rewrite Hrl. cbn [negb]. rewrite Hnl, Hdrop. unfold parse_headers. rewrite Hhl. clear Ht Hrl Hhl.
  unfold set_state, set_body, set_headers, set_path, set_method.
  cbn [hp_headers hp_method hp_cap hp_path hp_state hp_buf hp_scratch_used hp_scratch_cap hp_body app]. rewrite Hbuf.
  fold (headers_of (hr_lines r)). pose proof (ho_body _ Hok) as Hb. unfold declared in *.
  destruct (bool_decide (method_of (hr_method r) = POST) || bool_decide (method_of (hr_method r) = PUT)); [|done].
  destruct (find_header _ _) as [cl|]; [|done]. destruct Hb as [-> Hmax]. rewrite (proj2 (Z.ltb_ge _ _)) by done.
  assert (S (S (length (request_line r))) + (0 + length (lines_text (hr_lines r))) = length (request_head_text r))%nat as ->.
  { unfold request_head_text. rewrite lines_text_cons, !length_app. cbn [length]. lia. }
  rewrite drop_app_length, zlen_app.
  replace (Z.to_nat (zlen (hr_body r))) with (length (hr_body r)) by (unfold zlen; lia).
  replace (zlen (request_head_text r) + zlen more - Z.of_nat (length (request_head_text r))) with (zlen more) by (unfold zlen; lia).
  destruct (_ <=? _); by rewrite ?Hst.
Qed.

Lemma consume_whole r p more : http_ok r → reading p (request_text r ++ more) → ∃ p',
  control_http_parser_consume p = (p', 0) ∧ parsed r p' ∧ hp_cap p' = hp_cap p.
Proof.
  intros Hok Hr. unfold request_text in Hr. rewrite <- app_assoc in Hr. destruct (consume_head r p _ Hok Hr) as [used ->].
  unfold parsed. destruct (declared r) as [cl|] eqn:Hd; [|by eexists].
  rewrite (proj2 (Z.leb_le _ _)) by (rewrite zlen_app; pose proof (zlen_nonneg more); lia). eexists. split; [done|]. by rewrite take_app_length.
Qed.

Lemma consume_cut r p n : http_ok r → (n < length (request_text r))%nat → reading p (take n (request_text r)) → zlen (hp_buf p) < hp_cap p →
  ∃ p', control_http_parser_consume p = (p', 1) ∧ reading p' (take n (request_text r)) ∧ hp_cap p' = hp_cap p.
Proof.
  intros Hok Hn Hr Hcap. pose proof Hr as (Hst & Hbuf & Hsc). unfold request_text in *. rewrite length_app in Hn.
  destruct (decide (n < length (request_head_text r))%nat) as [Hlt|Hge].
  - exists p. split; [|done]. unfold control_http_parser_consume. rewrite Hst. rewrite bool_decide_eq_true_2 by done. cbn [negb].
    rewrite Hbuf, take_app_le by lia. rewrite (proj2 (terminator_None _)).
    + rewrite Hbuf, take_app_le in Hcap by lia. by rewrite (proj2 (Z.leb_gt _ _)).
    + intros pre post Heq. assert (request_head_text r = pre ++ TERM ++ (post ++ drop n (request_head_text r))) as Heq'.
      { rewrite <- (take_drop n (request_head_text r)) at 1. rewrite Heq. by rewrite <- !app_assoc. }
      apply lines_term in Heq'; [|constructor; apply Hok]. apply app_eq_nil in Heq' as [_ Hd]. apply (f_equal length) in Hd.
      rewrite length_drop, (eq_refl : length (@nil byte) = 0%nat) in Hd. lia.
  - rewrite take_app_ge in * by lia. destruct (consume_head r p _ Hok Hr) as [used ->].
    pose proof (ho_body _ Hok) as Hb. destruct (declared r) as [cl|] eqn:Hd; [|rewrite Hb, (eq_refl : length (@nil byte) = 0%nat) in Hn; lia].
    rewrite (proj2 (Z.leb_gt _ _)) by (unfold zlen; rewrite length_take; lia). by eexists.
Qed.
