(* ===== verification/ControlServer.v ===== *)
(** * The control server ([src/src/control])

    Responses and routes ([control.c], [router.c], [handlers.c]), the event
    bus ([event_bus.c]) and the connections ([conn.c]): requests answered on
    the reactor or by a worker, and event streams.  A system call is an
    element of a script, the list of its results; an exhausted script would
    block.  Registering with the reactor and posting to it succeed. *)

From S2P Require Import Prelude PyStruct PyText PyWire Proto CWords Roster HttpParser.

#[local] Open Scope Z_scope.

Definition CONTROL_MAX_ROUTES : Z := 64.
Definition CONTROL_EVENT_MAX_PAYLOAD : Z := 1024.
Definition CONTROL_EVENT_MAX_TYPE : Z := 64.

Definition u32w (z : Z) : Z := z mod 2 ^ 32.

(** ** Responses *)

(** [rs_text] is the buffer up to [len]. *)
Record response := mkResponse { rs_text : bytes; rs_cap : Z; rs_sse : bool }.

Definition set_text (t : bytes) (r : response) : response := mkResponse t (rs_cap r) (rs_sse r).

(** [%u], [%llu] and [%d] *)
Definition dec (z : Z) : bytes := Z_to_byte <$> ((if z <? 0 then [45] else []) ++ (digit_char <$> digits (Z.abs z))).

Definition quoted (s : string) : bytes := x22 :: ascii s ++ [x22].
Definition EOLN : bytes := [x0d; x0a].

Definition status_text (code : Z) : bytes :=
  ascii (if code =? 200 then "OK" else if code =? 201 then "Created" else if code =? 204 then "No Content"
         else if code =? 400 then "Bad Request" else if code =? 404 then "Not Found" else if code =? 405 then "Method Not Allowed"
         else if code =? 500 then "Internal Server Error" else "OK").

Definition kith_control_response_status (code : Z) (content_type : option bytes) (r : response) : response * Z :=
  let text := ascii "HTTP/1.1 " ++ dec code ++ ascii " " ++ status_text code ++ EOLN ++
              match content_type with Some t => ascii "Content-Type: " ++ t ++ EOLN | None => [] end in
  if rs_cap r <=? zlen text then (r, - KITH_EOVERFLOW) else (set_text text r, 0).

Definition kith_control_response_header (name value : bytes) (r : response) : response * Z :=
  let text := name ++ ascii ": " ++ value ++ EOLN in
  if rs_cap r - zlen (rs_text r) <=? zlen text then (r, - KITH_EOVERFLOW) else (set_text (rs_text r ++ text) r, 0).

Definition kith_control_response_body (body : bytes) (r : response) : response * Z :=
  let text := ascii "Content-Length: " ++ dec (zlen body) ++ EOLN ++ EOLN in
  if rs_cap r - zlen (rs_text r) <=? zlen text then (r, - KITH_EOVERFLOW) else
  let r := set_text (rs_text r ++ text) r in
  if 0 <? zlen body then
    if rs_cap r <? zlen (rs_text r) + zlen body then (r, - KITH_EOVERFLOW) else (set_text (rs_text r ++ body) r, 0)
  else (r, 0).

(** A fixed response: nothing when it does not fit. *)
Definition fixed_response (status : bytes) (body : bytes) (r : response) : response :=
  let text := ascii "HTTP/1.1 " ++ status ++ EOLN ++ ascii "Content-Type: application/json" ++ EOLN ++
              ascii "Content-Length: " ++ dec (zlen body) ++ EOLN ++ EOLN ++ body in
  set_text (if rs_cap r <=? zlen text then [] else text) r.

Definition error_body (what : string) : bytes := ascii "{" ++ quoted "error" ++ ascii ":" ++ quoted what ++ ascii "}".

Definition control_router_write_404 : response → response := fixed_response (ascii "404 Not Found") (error_body "not_found").
Definition control_router_write_501 : response → response := fixed_response (ascii "501 Not Implemented") (error_body "not_implemented").
Definition control_router_write_503 : response → response := fixed_response (ascii "503 Service Unavailable") (error_body "unavailable").

(** Quotes and backslashes are escaped, bytes that are not printable ASCII
    dropped; at most [cap - 1] bytes, whole escapes only. *)
Fixpoint control_json_escape_route (route : bytes) (out : bytes) (cap : Z) : bytes :=
  match route with
  | [] => out
  | b :: route =>
      if cap <=? zlen out + 2 then out else
      let c := byte_to_Z b in
      if (c <? 0x20) || (0x7e <? c) then control_json_escape_route route out cap
      else control_json_escape_route route (out ++ (if (c =? 34) || (c =? 92) then [x5c] else []) ++ [b]) cap
  end.

(** [snprintf] into a buffer of [cap] bytes. *)
Definition snprintf (cap : Z) (text : bytes) : bytes := take (Z.to_nat (cap - 1)) text.

(** Without the metric it counts. *)
Definition kith_control_reject_overflow (route : option bytes) (attempted : Z) (r : response) : response * Z :=
  let route_part :=
    match route with
    | Some route => snprintf 528 (ascii "," ++ quoted "route" ++ ascii ":" ++ [x22] ++ control_json_escape_route route [] 512 ++ [x22])
    | None => []
    end in
  let size_part :=
    snprintf 48 ((if negb (attempted =? 0) then ascii "," ++ quoted "attempted" ++ ascii ":" ++ dec attempted else []) ++
                 ascii "," ++ quoted "cap" ++ ascii ":" ++ dec (rs_cap r)) in
  let body := ascii "{" ++ quoted "error" ++ ascii ":" ++ quoted "response_too_large" ++ route_part ++ size_part ++ ascii "}" in
  let text := ascii "HTTP/1.1 500 Internal Server Error" ++ EOLN ++ ascii "Content-Type: application/json" ++ EOLN ++
              ascii "Content-Length: " ++ dec (zlen body) ++ EOLN ++ EOLN ++ body in
  if (640 <=? zlen body) || (rs_cap r <=? zlen text) then (set_text [] r, - KITH_EOVERFLOW) else (set_text text r, 0).

(** ** Routes *)

(** What a handler sees. *)
Record request_view := mkView { vw_method : method; vw_path : bytes; vw_headers : list (bytes * bytes); vw_body : option bytes }.

(** [W] is the world a handler reads, such as the clock. *)
Record route_slot (W : Type) := mkSlot {
  sl_method : bytes;
  sl_path : bytes;
  sl_python : bool;
  sl_handler : W → request_view → response → response * Z;
}.
Arguments mkSlot {W}.
Arguments sl_method {W}.
Arguments sl_path {W}.
Arguments sl_python {W}.
Arguments sl_handler {W}.

Definition method_string (m : method) : bytes :=
  ascii match m with GET => "GET" | POST => "POST" | PUT => "PUT" | DELETE => "DELETE" | UNKNOWN => "UNKNOWN" end.

Definition path_text (u : bytes) : list Z := byte_to_Z <$> c_string u.

Definition router_match {W} (routes : list (route_slot W)) (p : parser) : option (route_slot W) :=
  find (λ r, bool_decide (sl_method r = method_string (hp_method p)) && match_path (path_text (sl_path r)) (path_text (hp_path p))) routes.

Definition build_request (p : parser) : request_view := mkView (hp_method p) (c_string (hp_path p)) (hp_headers p) (hp_body p).

(** [strncpy] into an array of [n] bytes, its last byte set to zero. *)
Definition truncated (n : Z) (s : bytes) : bytes := take (Z.to_nat (n - 1)) (c_string s).

Definition kith_control_register_route {W} (r : route_slot W) (routes : list (route_slot W)) : list (route_slot W) * Z :=
  if CONTROL_MAX_ROUTES <=? Z.of_nat (length routes) then (routes, - KITH_EBUSY)
  else (routes ++ [mkSlot (truncated CONTROL_MAX_METHOD (sl_method r)) (truncated CONTROL_MAX_URL (sl_path r)) (sl_python r) (sl_handler r)], 0).

(** *** The built-in routes *)

Definition control_handler_health (now_ns : Z) (r : response) : response * Z :=
  let body := ascii "{" ++ quoted "status" ++ ascii ":" ++ quoted "ok" ++ ascii "," ++ quoted "uptime_ns" ++ ascii ":" ++ dec now_ns ++ ascii "}" in
  let '(r, _) := kith_control_response_status 200 (Some (ascii "application/json")) r in
  let '(r, _) := kith_control_response_body body r in (r, 0).

(** [render]: the text of the metrics, when there are any. *)
Definition control_handler_metrics (render : option bytes) (r : response) : response * Z :=
  match render with
  | None =>
      let '(r, _) := kith_control_response_status 200 (Some (ascii "text/plain; version=0.0.4")) r in
      let '(r, _) := kith_control_response_body [] r in (r, 0)
  | Some text =>
      let prefix := ascii "HTTP/1.1 200 OK" ++ EOLN ++ ascii "Content-Type: text/plain; version=0.0.4" ++ EOLN ++
                    ascii "Content-Length: " ++ dec (zlen text) ++ EOLN ++ EOLN in
      if (rs_cap r <=? zlen prefix) || (rs_cap r <? zlen prefix + zlen text)
      then let '(r, _) := kith_control_reject_overflow (Some (ascii "/metrics")) (u32w (zlen text)) r in (r, 0)
      else (set_text (prefix ++ text) r, 0)
  end.

Definition stream_header : bytes :=
  ascii "HTTP/1.1 200 OK" ++ EOLN ++ ascii "Content-Type: text/event-stream" ++ EOLN ++ ascii "Cache-Control: no-cache" ++ EOLN ++
  ascii "Connection: keep-alive" ++ EOLN ++ EOLN.

(** Both [/events/stream] and [/logs/stream]. *)
Definition control_handler_events_stream (r : response) : response * Z :=
  if rs_cap r <? zlen stream_header then (r, 0) else (mkResponse stream_header (rs_cap r) true, 0).

Definition control_handlers_register {W} (now_ns : W → Z) (render : W → option bytes) : list (route_slot W) :=
  [mkSlot (ascii "GET") (ascii "/health") false (λ w _, control_handler_health (now_ns w));
   mkSlot (ascii "GET") (ascii "/metrics") false (λ w _, control_handler_metrics (render w));
   mkSlot (ascii "GET") (ascii "/events/stream") false (λ _ _, control_handler_events_stream);
   mkSlot (ascii "GET") (ascii "/logs/stream") false (λ _ _, control_handler_events_stream)].

(** ** The event bus *)

Record kith_control_event := mkEvent {
  ev_ts : Z;
  ev_type : option bytes;
  ev_correlation : option bytes;
  ev_payload : option bytes;
  ev_payload_len : Z;
}.

Record event_record := mkRecord {
  er_ts : Z;
  er_type : bytes;
  er_correlation : bytes;
  er_has_correlation : bool;
  er_payload : bytes;
  er_payload_len : Z;
}.

Record event_bus := mkBus { eb_records : list event_record; eb_capacity : Z; eb_head : Z; eb_tail : Z }.

Definition zero_record : event_record := mkRecord 0 [] (replicate 8 x00) false (replicate 1024 x00) 0.

Definition control_event_bus_init (capacity : Z) : event_bus := mkBus (replicate (Z.to_nat capacity) zero_record) capacity 0 0.

(** The record over what its place held. *)
Definition fill_record (e : kith_control_event) (old : event_record) : event_record :=
  let plen := if CONTROL_EVENT_MAX_PAYLOAD <? ev_payload_len e then CONTROL_EVENT_MAX_PAYLOAD else ev_payload_len e in
  mkRecord (ev_ts e)
    (match ev_type e with Some t => truncated CONTROL_EVENT_MAX_TYPE t | None => [] end)
    (match ev_correlation e with Some c => take 8 c | None => er_correlation old end)
    (match ev_correlation e with Some _ => true | None => false end)
    (match ev_payload e with
     | Some d => if 0 <? plen then take (Z.to_nat plen) d ++ drop (Z.to_nat plen) (er_payload old) else er_payload old
     | None => er_payload old
     end)
    plen.

Definition record_at (b : event_bus) (i : Z) : event_record := default zero_record (eb_records b !! Z.to_nat i).

Definition control_event_bus_publish (e : kith_control_event) (b : event_bus) : event_bus * Z :=
  let next := u32w (eb_head b + 1) mod eb_capacity b in
  if next =? eb_tail b then (b, -1)
  else (mkBus (<[Z.to_nat (eb_head b) := fill_record e (record_at b (eb_head b))]> (eb_records b)) (eb_capacity b) next (eb_tail b), 0).

(** At most [out_cap] records, and the new cursor. *)
Fixpoint control_event_bus_drain (out_cap : nat) (idx : Z) (b : event_bus) : list event_record * Z :=
  match out_cap with
  | O => ([], idx)
  | S out_cap =>
      if idx =? eb_head b then ([], idx)
      else let '(rs, cursor) := control_event_bus_drain out_cap (u32w (idx + 1) mod eb_capacity b) b in (record_at b idx :: rs, cursor)
  end.

Definition control_event_bus_release (cursor : Z) (b : event_bus) : event_bus :=
  let dist z := u32w (u32w (z + eb_capacity b) - eb_tail b) mod eb_capacity b in
  if dist (eb_head b) <? dist cursor then b else mkBus (eb_records b) (eb_capacity b) (eb_head b) cursor.

Definition kith_control_publish_event (e : kith_control_event) (b : event_bus) : event_bus * Z :=
  let '(b, rc) := control_event_bus_publish e b in (b, if negb (rc =? 0) then - KITH_EBUSY else 0).

(** ** Connections *)

(** The buffers are allocated while [cc_buffers]; [cc_watched] is what the
    reactor watches the socket for (writing too when [true]), and [cc_sent]
    what the socket has taken. *)
Record control_conn (W : Type) := mkCtl {
  cc_parser : parser;
  cc_fd : Z;
  cc_in_use : bool;
  cc_buffers : bool;
  cc_resp : response;
  cc_write_pos : Z;
  cc_subscribed : bool;
  cc_cursor : Z;
  cc_route : option (route_slot W);
  cc_watched : option bool;
  cc_sent : bytes;
}.
Arguments mkCtl {W}.
Arguments cc_parser {W}.
Arguments cc_fd {W}.
Arguments cc_in_use {W}.
Arguments cc_buffers {W}.
Arguments cc_resp {W}.
Arguments cc_write_pos {W}.
Arguments cc_subscribed {W}.
Arguments cc_cursor {W}.
Arguments cc_route {W}.
Arguments cc_watched {W}.
Arguments cc_sent {W}.

(** [ks_work] holds the tasks submitted to the pool that have not finished,
    [ks_flushes] those posted back to the reactor. *)
Record kith_control (W : Type) := mkServer {
  ks_conns : list (control_conn W);
  ks_conn_count : nat;
  ks_read_cap : Z;
  ks_write_cap : Z;
  ks_routes : list (route_slot W);
  ks_workers : bool;
  ks_bus : event_bus;
  ks_subscribers : Z;
  ks_work : list nat;
  ks_flushes : list nat;
  ks_dropped : Z;
}.
Arguments mkServer {W}.
Arguments ks_conns {W}.
Arguments ks_conn_count {W}.
Arguments ks_read_cap {W}.
Arguments ks_write_cap {W}.
Arguments ks_routes {W}.
Arguments ks_workers {W}.
Arguments ks_bus {W}.
Arguments ks_subscribers {W}.
Arguments ks_work {W}.
Arguments ks_flushes {W}.
Arguments ks_dropped {W}.

(** The results of [read] (no bytes: the end of the stream) and of [write]. *)
Inductive read_result := ReadData (bs : bytes) | ReadFails.
Inductive write_result := Wrote (n : nat) | WouldBlock | WriteFails.

Section Server.
Context {W : Type}.

Abbreviation conn := (control_conn W).
Abbreviation server := (kith_control W).

(** A free slot; its descriptor is not read before it is set. *)
Definition zero_parser : parser := mkParser READING [] 0 GET [] [] 0 0 None.
Definition zero_conn : conn := mkCtl zero_parser (-1) false false (mkResponse [] 0 false) 0 false 0 None None [].

Definition conn_at (s : server) (i : nat) : conn := default zero_conn (ks_conns s !! i).

Definition with_conns (l : list conn) (s : server) : server :=
  mkServer l (ks_conn_count s) (ks_read_cap s) (ks_write_cap s) (ks_routes s) (ks_workers s) (ks_bus s) (ks_subscribers s) (ks_work s)
    (ks_flushes s) (ks_dropped s).
Definition with_bus (b : event_bus) (s : server) : server :=
  mkServer (ks_conns s) (ks_conn_count s) (ks_read_cap s) (ks_write_cap s) (ks_routes s) (ks_workers s) b (ks_subscribers s) (ks_work s)
    (ks_flushes s) (ks_dropped s).
Definition with_subscribers (n : Z) (s : server) : server :=
  mkServer (ks_conns s) (ks_conn_count s) (ks_read_cap s) (ks_write_cap s) (ks_routes s) (ks_workers s) (ks_bus s) n (ks_work s)
    (ks_flushes s) (ks_dropped s).
Definition with_tasks (work flushes : list nat) (dropped : Z) (s : server) : server :=
  mkServer (ks_conns s) (ks_conn_count s) (ks_read_cap s) (ks_write_cap s) (ks_routes s) (ks_workers s) (ks_bus s) (ks_subscribers s) work
    flushes dropped.

Definition put (i : nat) (c : conn) (s : server) : server := with_conns (<[i := c]> (ks_conns s)) s.

Definition with_parser (p : parser) (c : conn) : conn :=
  mkCtl p (cc_fd c) (cc_in_use c) (cc_buffers c) (cc_resp c) (cc_write_pos c) (cc_subscribed c) (cc_cursor c) (cc_route c) (cc_watched c) (cc_sent c).
Definition with_state (st : conn_state) (c : conn) : conn := with_parser (set_state st (cc_parser c)) c.
Definition with_resp (r : response) (c : conn) : conn :=
  mkCtl (cc_parser c) (cc_fd c) (cc_in_use c) (cc_buffers c) r (cc_write_pos c) (cc_subscribed c) (cc_cursor c) (cc_route c) (cc_watched c) (cc_sent c).
Definition with_write (pos : Z) (sent : bytes) (c : conn) : conn :=
  mkCtl (cc_parser c) (cc_fd c) (cc_in_use c) (cc_buffers c) (cc_resp c) pos (cc_subscribed c) (cc_cursor c) (cc_route c) (cc_watched c) sent.
Definition with_stream (subscribed : bool) (cursor : Z) (c : conn) : conn :=
  mkCtl (cc_parser c) (cc_fd c) (cc_in_use c) (cc_buffers c) (cc_resp c) (cc_write_pos c) subscribed cursor (cc_route c) (cc_watched c) (cc_sent c).
Definition with_route (r : option (route_slot W)) (c : conn) : conn :=
  mkCtl (cc_parser c) (cc_fd c) (cc_in_use c) (cc_buffers c) (cc_resp c) (cc_write_pos c) (cc_subscribed c) (cc_cursor c) r (cc_watched c) (cc_sent c).
Definition with_watched (w : option bool) (c : conn) : conn :=
  mkCtl (cc_parser c) (cc_fd c) (cc_in_use c) (cc_buffers c) (cc_resp c) (cc_write_pos c) (cc_subscribed c) (cc_cursor c) (cc_route c) w (cc_sent c).
Definition with_socket (fd : Z) (in_use buffers : bool) (c : conn) : conn :=
  mkCtl (cc_parser c) fd in_use buffers (cc_resp c) (cc_write_pos c) (cc_subscribed c) (cc_cursor c) (cc_route c) (cc_watched c) (cc_sent c).

Definition state_of (c : conn) : conn_state := hp_state (cc_parser c).

(** [kith_reactor_add] refuses a descriptor it watches already (-KITH_EEXIST),
    and the result is not looked at: what a socket is watched for never
    changes. *)
Definition conn_register (out : bool) (c : conn) : conn :=
  if cc_fd c <? 0 then c else
  match cc_watched c with Some _ => c | None => with_watched (Some out) c end.

(** *** Slots *)

(** [mem]: the buffers are allocated. *)
Definition control_conn_alloc (mem : bool) (s : server) : server * option nat :=
  match list_find (λ c, cc_in_use c = false) (ks_conns s) with
  | None => (s, None)
  | Some (i, _) =>
      if negb mem then (put i zero_conn s, None) else
      let c := mkCtl (mkParser READING [] (ks_read_cap s) GET [] [] 0 (CONTROL_MAX_HEADERS * (CONTROL_MAX_HEADER_NAME + CONTROL_MAX_HEADER_VALUE)) None)
                 (-1) true true (mkResponse [] (ks_write_cap s) false) 0 false 0 None None [] in
      let s := put i c s in
      (mkServer (ks_conns s) (Nat.max (ks_conn_count s) (S i)) (ks_read_cap s) (ks_write_cap s) (ks_routes s) (ks_workers s) (ks_bus s)
         (ks_subscribers s) (ks_work s) (ks_flushes s) (ks_dropped s), Some i)
  end.

Definition control_conn_close (i : nat) (s : server) : server :=
  let c := conn_at s i in
  if cc_fd c <? 0 then s else
  let c := with_watched None (with_socket (-1) (cc_in_use c) (cc_buffers c) c) in
  let '(c, s) := if cc_subscribed c then (with_stream false (cc_cursor c) c, with_subscribers (u32w (ks_subscribers s - 1)) s) else (c, s) in
  if bool_decide (state_of c = DISPATCHING) then put i c s else put i (with_socket (-1) false false c) s.

(** A descriptor, whether there is memory for it and whether it can be made
    non-blocking. *)
Fixpoint handle_accept (script : list (Z * bool * bool)) (s : server) : server :=
  match script with
  | [] => s
  | (client_fd, mem, nonblocking) :: script =>
      if client_fd <? 0 then s else
      match control_conn_alloc mem s with
      | (s, None) => handle_accept script s
      | (s, Some i) =>
          if negb nonblocking then handle_accept script (put i (with_socket (-1) false false (conn_at s i)) s)
          else handle_accept script (put i (conn_register false (with_state READING (with_socket client_fd true true (conn_at s i)))) s)
      end
  end.

(** *** Writing *)

Inductive write_outcome := Drained | Blocked | Broken.

Fixpoint write_loop (writes : list write_result) (c : conn) : conn * write_outcome :=
  if cc_write_pos c <? zlen (rs_text (cc_resp c)) then
    match writes with
    | [] | WouldBlock :: _ => (c, Blocked)
    | WriteFails :: _ => (c, Broken)
    | Wrote n :: writes =>
        let chunk := take n (drop (Z.to_nat (cc_write_pos c)) (rs_text (cc_resp c))) in
        write_loop writes (with_write (cc_write_pos c + zlen chunk) (cc_sent c ++ chunk) c)
    end
  else (c, Drained).

Definition handle_write (writes : list write_result) (i : nat) (s : server) : server :=
  match write_loop writes (conn_at s i) with
  | (c, Blocked) => put i c s
  | (c, Broken) => control_conn_close i (put i c s)
  | (c, Drained) =>
      if rs_sse (cc_resp c) then
        let c := with_state SSE (with_resp (set_text [] (cc_resp c)) (with_write 0 (cc_sent c) c)) in
        if negb (cc_subscribed c)
        then with_subscribers (u32w (ks_subscribers s + 1)) (put i (with_stream true (eb_head (ks_bus s)) c) s)
        else put i c s
      else control_conn_close i (put i c s)
  end.

(** Still writing: the socket is to be watched for writing too. *)
Definition arm_if_writing (i : nat) (s : server) : server :=
  let c := conn_at s i in
  if (0 <=? cc_fd c) && bool_decide (state_of c = WRITING) then put i (conn_register true c) s else s.

(** *** Answering *)

Definition find_header_value (name : bytes) (hs : list (bytes * bytes)) : option bytes := find_header name hs.

Definition wants_websocket (p : parser) : bool :=
  match find_header_value (ascii "upgrade") (hp_headers p) with
  | Some upgrade => ci_equal upgrade (ascii "websocket") 10
  | None => false
  end.

(** The connection, whether the route is deferred, and the handler's own
    return value. *)
Definition control_router_dispatch (w : W) (routes : list (route_slot W)) (c : conn) : conn * bool * Z :=
  match router_match routes (cc_parser c) with
  | None => (with_resp (control_router_write_404 (cc_resp c)) c, false, 0)
  | Some r =>
      if sl_python r then (c, true, 0) else
      let '(resp, rc) := sl_handler r w (build_request (cc_parser c)) (mkResponse [] (rs_cap (cc_resp c)) false) in
      (with_resp resp c, false, rc)
  end.

(** [submits]: the pool takes the task. *)
Definition handle_respond (w : W) (submits : bool) (i : nat) (s : server) : server :=
  let c := conn_at s i in
  let c := with_write 0 (cc_sent c) (with_resp (mkResponse [] (rs_cap (cc_resp c)) false) c) in
  if wants_websocket (cc_parser c) then put i (with_state WRITING (with_resp (control_router_write_501 (cc_resp c)) c)) s else
  let '(c, deferred, handler_rc) := control_router_dispatch w (ks_routes s) c in
  if deferred then
    let c := with_route (router_match (ks_routes s) (cc_parser c)) (with_state DISPATCHING c) in
    if ks_workers s && submits then with_tasks (ks_work s ++ [i]) (ks_flushes s) (ks_dropped s) (put i c s)
    else with_tasks (ks_work s) (ks_flushes s) (ks_dropped s + 1) (put i (with_state WRITING (with_resp (control_router_write_503 (cc_resp c)) c)) s)
  else if negb (handler_rc =? 0) then control_conn_close i (put i c s)
  else put i (with_state WRITING c) s.

Definition append_read (chunk : bytes) (p : parser) : parser :=
  mkParser (hp_state p) (hp_buf p ++ chunk) (hp_cap p) (hp_method p) (hp_path p) (hp_headers p) (hp_scratch_used p) (hp_scratch_cap p) (hp_body p).

Fixpoint handle_read (reads : list read_result) (w : W) (submits : bool) (writes : list write_result) (i : nat) (s : server) : server :=
  let c := conn_at s i in
  let space := hp_cap (cc_parser c) - zlen (hp_buf (cc_parser c)) in
  if space =? 0 then control_conn_close i s else
  match reads with
  | [] | ReadFails :: _ => s
  | ReadData bs :: reads =>
      let chunk := take (Z.to_nat space) bs in
      if bool_decide (length chunk = O) then control_conn_close i s else
      let '(p, rc) := control_http_parser_consume (append_read chunk (cc_parser c)) in
      let s := put i (with_parser p c) s in
      if rc =? 0 then
        let s := handle_respond w submits i s in
        if (0 <=? cc_fd (conn_at s i)) && bool_decide (state_of (conn_at s i) = WRITING)
        then arm_if_writing i (handle_write writes i s)
        else s
      else if rc <? 0 then control_conn_close i s
      else handle_read reads w submits writes i s
  end.

(** *** Tasks *)

(** [finalizing]: the interpreter is shutting down. *)
Definition control_route_worker_task (finalizing : bool) (w : W) (i : nat) (s : server) : server :=
  let work := filter (λ j, j ≠ i) (ks_work s) in
  if finalizing then with_tasks work (ks_flushes s) (ks_dropped s + 1) s else
  let c := conn_at s i in
  let resp := mkResponse [] (rs_cap (cc_resp c)) false in
  let resp := match cc_route c with Some r => fst (sl_handler r w (build_request (cc_parser c)) resp) | None => resp end in
  with_tasks work (ks_flushes s ++ [i]) (ks_dropped s) (put i (with_resp resp c) s).

Definition control_conn_flush_task (writes : list write_result) (i : nat) (s : server) : server :=
  let s := with_tasks (ks_work s) (filter (λ j, j ≠ i) (ks_flushes s)) (ks_dropped s) s in
  let c := conn_at s i in
  if negb (bool_decide (state_of c = DISPATCHING)) then s
  else if cc_fd c <? 0 then put i (with_state READING (with_socket (cc_fd c) false false c)) s
  else arm_if_writing i (handle_write writes i (put i (with_write 0 (cc_sent c) (with_state WRITING c)) s)).

(** *** Readiness *)

(** What the reactor reports of a socket; any combination is allowed for, more
    than what the socket is watched for included. *)
Record readiness := mkReady { rd_err : bool; rd_hup : bool; rd_in : bool; rd_out : bool }.

Definition control_conn_event_handler (ev : readiness) (reads : list read_result) (w : W) (submits : bool) (writes writes' : list write_result)
    (i : nat) (s : server) : server :=
  if rd_err ev then control_conn_close i s
  else if rd_hup ev && negb (bool_decide (state_of (conn_at s i) = DISPATCHING)) then control_conn_close i s
  else
    let s := if rd_in ev && bool_decide (state_of (conn_at s i) = READING) then handle_read reads w submits writes i s else s in
    if cc_fd (conn_at s i) <? 0 then s
    else if rd_out ev then
      let s := if bool_decide (state_of (conn_at s i) = RESPONDING) then handle_respond w submits i s else s in
      if (0 <=? cc_fd (conn_at s i)) && bool_decide (state_of (conn_at s i) = WRITING) then handle_write writes' i s else s
    else s.

(** *** Event streams *)

(** The least distance of a cursor from the tail so far, and that cursor. *)
Definition least_cursor (b : event_bus) (best : option (Z * Z)) (c : conn) : option (Z * Z) :=
  if negb (cc_in_use c) || negb (cc_subscribed c) then best else
  let dist := u32w (u32w (cc_cursor c + eb_capacity b) - eb_tail b) mod eb_capacity b in
  match best with Some (d, _) => if dist <? d then Some (dist, cc_cursor c) else best | None => Some (dist, cc_cursor c) end.

Definition control_bus_reclaim (s : server) : server :=
  let cursor := match foldl (least_cursor (ks_bus s)) None (take (ks_conn_count s) (ks_conns s)) with Some (_, c) => c | None => eb_head (ks_bus s) end in
  with_bus (control_event_bus_release cursor (ks_bus s)) s.

Definition event_line (r : event_record) : bytes :=
  ascii "data: {" ++ quoted "type" ++ ascii ":" ++ [x22] ++ er_type r ++ [x22] ++ ascii "," ++ quoted "ts" ++ ascii ":" ++ dec (er_ts r) ++
  ascii "}" ++ [x0a; x0a].

(** The records drained for a stream, each with the results of its writes;
    [at] is the cursor after the record. *)
Fixpoint send_records (rs : list event_record) (writes : list (list write_result)) (at_cursor : Z) (i : nat) (s : server) : server :=
  match rs with
  | [] => s
  | r :: rs =>
      let line := event_line r in
      let next := u32w (at_cursor + 1) in
      if zlen line <? ks_write_cap s then
        let c := conn_at s i in
        let s := handle_write (default [] (head writes)) i (put i (with_write 0 (cc_sent c) (with_resp (set_text line (cc_resp c)) c)) s) in
        let c := conn_at s i in
        if cc_fd c <? 0 then s
        else if cc_write_pos c <? zlen (rs_text (cc_resp c))
        then put i (conn_register true (with_state WRITING (with_stream (cc_subscribed c) (next mod eb_capacity (ks_bus s)) c))) s
        else send_records rs (tail writes) next i s
      else send_records rs writes next i s
  end.

Definition flush_conn (writes : nat → list (list write_result)) (s : server) (i : nat) : server :=
  let c := conn_at s i in
  if negb (cc_in_use c) || negb (cc_subscribed c) || bool_decide (state_of c = WRITING) then s else
  let '(rs, new_cursor) := control_event_bus_drain 16 (cc_cursor c) (ks_bus s) in
  send_records rs (writes i) (cc_cursor c) i (put i (with_stream true new_cursor c) s).

Definition control_sse_flush (writes : nat → list (list write_result)) (s : server) : server :=
  control_bus_reclaim (foldl (flush_conn writes) s (seq 0 (ks_conn_count s))).
End Server.

(** ** The handle *)

(** A parameter of zero selects the default. *)
Definition param_or (z fallback : Z) : Z := if negb (z =? 0) then z else fallback.

Definition kith_control_create {W} (max_connections read_buffer_cap write_buffer_cap event_bus_cap : Z) (routes : list (route_slot W)) : kith_control W :=
  mkServer (replicate (Z.to_nat (param_or max_connections 64)) zero_conn) 0 (param_or read_buffer_cap 4096) (param_or write_buffer_cap 262144)
    routes false (control_event_bus_init (param_or event_bus_cap 4096)) 0 [] [] 0.

Definition kith_control_attach_worker_pool {W} (pool : bool) (s : kith_control W) : kith_control W :=
  mkServer (ks_conns s) (ks_conn_count s) (ks_read_cap s) (ks_write_cap s) (ks_routes s) pool (ks_bus s) (ks_subscribers s) (ks_work s)
    (ks_flushes s) (ks_dropped s).
