(* ===== verification/ControlTheorems.v ===== *)
(** * The control server keeps its connections and its streams

    Slots, buffers and tasks agree after every event, no event touches what a
    worker reads, and an attached stream is sent exactly the events published
    since, in order. *)

From S2P Require Import Prelude PyStruct PyText PyWire Proto CWords HttpParser ControlServer.

#[local] Open Scope Z_scope.

#[local] Arguments event_line : simpl never.
#[local] Arguments fixed_response : simpl never.

(** ** Runs *)

Inductive server_event (W : Type) :=
  | Connect (script : list (Z * bool * bool))
  | Ready (i : nat) (ev : readiness) (reads : list read_result) (w : W) (submits : bool) (writes writes' : list write_result)
  | WorkerDone (i : nat) (finalizing : bool) (w : W)
  | FlushTask (i : nat) (writes : list write_result)
  | StreamFlush (writes : nat → list (list write_result))
  | PublishEvent (e : kith_control_event).
Arguments Connect {W}.
Arguments Ready {W}.
Arguments WorkerDone {W}.
Arguments FlushTask {W}.
Arguments StreamFlush {W}.
Arguments PublishEvent {W}.

Section Runs.
Context {W : Type}.

(** The reactor reports on the sockets it watches, the pool runs what it was
    given and the reactor what was posted; a publication has a reply. *)
Definition server_step (e : server_event W) (s : kith_control W) : kith_control W * Z :=
  match e with
  | Connect script => (handle_accept script s, 0)
  | Ready i ev reads w submits writes writes' =>
      (match cc_watched (conn_at s i) with
       | Some _ => control_conn_event_handler ev reads w submits writes writes' i s
       | None => s
       end, 0)
  | WorkerDone i finalizing w => (if bool_decide (i ∈ ks_work s) then control_route_worker_task finalizing w i s else s, 0)
  | FlushTask i writes => (if bool_decide (i ∈ ks_flushes s) then control_conn_flush_task writes i s else s, 0)
  | StreamFlush writes => (control_sse_flush writes s, 0)
  | PublishEvent ev => let '(b, rc) := kith_control_publish_event ev (ks_bus s) in (with_bus b s, rc)
  end.

(** The states after each event, and the replies. *)
Fixpoint server_run (es : list (server_event W)) (s : kith_control W) : list (kith_control W) * list Z :=
  match es with
  | [] => ([], [])
  | e :: es => let '(s, r) := server_step e s in let '(ss, rs) := server_run es s in (s :: ss, r :: rs)
  end.
End Runs.

(** ** The parser's states *)

Lemma request_line_state data p : hp_state (parse_request_line data p).1 = hp_state p.
Proof.
  unfold parse_request_line. destruct (memchr CR data); [|done]. destruct (negb _); [done|]. destruct (memchr SP _); [|done].
  destruct (_ <=? _); [done|]. destruct (memchr SP _); [|done]. by destruct (_ <=? _).
Qed.

Lemma parse_header_state line p p' : parse_header line p = Some p' → hp_state p' = hp_state p.
Proof.
  unfold parse_header. destruct (_ <? _); [|by intros [= <-]]. destruct (memchr COLON line); [|by intros [= <-]].
  destruct (_ && _); [|by intros [= <-]]. destruct (_ <? _); [done|]. by intros [= <-].
Qed.

Lemma header_lines_state fuel : ∀ data n p, hp_state (header_lines fuel data n p).1 = hp_state p.
Proof.
  induction fuel as [|fuel IH]; intros data n p; [done|]. cbn [header_lines]. case_bool_decide; [done|]. case_bool_decide; [done|].
  destruct (memchr CR data); [|done]. destruct (negb _); [done|]. destruct (parse_header _ p) as [p'|] eqn:E; [|done].
  by rewrite IH, (parse_header_state _ _ _ E).
Qed.

Lemma consume_states p : hp_state p = READING → let '(p', rc) := control_http_parser_consume p in
  rc = 0 ∧ hp_state p' = RESPONDING ∨ rc = 1 ∧ hp_state p' = READING ∨ rc = -1 ∧ hp_state p' = CLOSING.
Proof.
  intros Hst. unfold control_http_parser_consume. rewrite Hst. rewrite bool_decide_eq_true_2 by done. cbn [negb].
  destruct (find_header_terminator _); [|destruct (_ <=? _); cbn; auto].
  pose proof (request_line_state (hp_buf p) p) as Hl. destruct (parse_request_line (hp_buf p) p) as [p1 ok]. cbn [fst] in Hl.
  destruct (negb ok); [cbn; auto|]. destruct (memchr LF (hp_buf p)) as [nl|]; [|cbn; auto].
  pose proof (header_lines_state (S (length (drop (S nl) (hp_buf p)))) (drop (S nl) (hp_buf p)) 0 (set_headers [] 0 p1)) as Hh. unfold parse_headers.
  destruct (header_lines _ _ _ _) as [p2 [used|]]; [|cbn; auto]. cbn [fst set_headers hp_state] in Hh. cbn [hp_method set_body hp_headers].
  destruct (_ || _); [|cbn; auto]. destruct (find_header _ _); [|cbn; auto]. destruct (parse_content_length _); [|cbn; auto].
  destruct (_ <? _); [cbn; auto|]. destruct (_ <=? _); cbn; [auto|]. right. left. split; [done|congruence].
Qed.

(** ** Slots *)

Section Slots.
Context {W : Type}.
Implicit Types (s : kith_control W) (c : control_conn W).

Lemma conn_at_put i c s : (i < length (ks_conns s))%nat → conn_at (put i c s) i = c.
Proof. intros Hi. unfold conn_at, put. cbn. by rewrite list_lookup_insert_eq. Qed.

Lemma put_put i c c' s : put i c (put i c' s) = put i c s.
Proof. unfold put, with_conns. cbn. by rewrite list_insert_insert_eq. Qed.

Lemma conn_at_lookup s i c : ks_conns s !! i = Some c → conn_at s i = c.
Proof. unfold conn_at. by intros ->. Qed.

Lemma put_self i s : put i (conn_at s i) s = s.
Proof.
  unfold put, with_conns, conn_at. destruct s as [conns]; cbn. f_equal. destruct (conns !! i) as [c|] eqn:E; cbn; [by apply list_insert_id|].
  apply list_insert_ge. by apply lookup_ge_None.
Qed.

(** A slot in use has its buffers; an open socket is watched; what is in use
    without a socket belongs to a task. *)
Record slot_ok (tasked : Prop) (c : control_conn W) : Prop := {
  so_buffers : cc_buffers c = cc_in_use c;
  so_open : 0 ≤ cc_fd c → cc_in_use c = true ∧ cc_watched c = Some false ∧ state_of c ∈ [READING; DISPATCHING; WRITING; SSE];
  so_shut : cc_fd c < 0 → cc_watched c = None ∧ cc_subscribed c = false ∧ (cc_in_use c = true → state_of c = DISPATCHING);
  so_stream : cc_subscribed c = true → rs_sse (cc_resp c) = true ∧
    (state_of c = SSE ∧ rs_text (cc_resp c) = [] ∧ cc_write_pos c = 0 ∨ state_of c = WRITING);
  so_sse : 0 ≤ cc_fd c → state_of c = SSE → cc_subscribed c = true;
  so_pos : 0 ≤ cc_write_pos c ≤ zlen (rs_text (cc_resp c));
  so_task : tasked → cc_in_use c = true ∧ state_of c = DISPATCHING ∧ cc_write_pos c = 0;
}.

Definition subscribed_count (l : list (control_conn W)) : Z := zlen (filter (λ c, cc_subscribed c = true) l).

Record server_ok (s : kith_control W) : Prop := {
  vo_slots i c : ks_conns s !! i = Some c → slot_ok (i ∈ ks_work s ++ ks_flushes s) c;
  vo_tasks : NoDup (ks_work s ++ ks_flushes s) ∧ ∀ i, i ∈ ks_work s ++ ks_flushes s → (i < length (ks_conns s))%nat;
  vo_count i c : ks_conns s !! i = Some c → cc_in_use c = true → (i < ks_conn_count s)%nat;
  vo_subscribers : ks_subscribers s = subscribed_count (ks_conns s);
  vo_size : zlen (ks_conns s) < 2 ^ 32;
}.

(** What an operation on slot [i] leaves as it was. *)
Record only_slot (i : nat) (s s' : kith_control W) : Prop := {
  os_len : length (ks_conns s') = length (ks_conns s);
  os_other j : j ≠ i → ks_conns s' !! j = ks_conns s !! j;
  os_count : ks_conn_count s' = ks_conn_count s;
  os_bus : ks_bus s' = ks_bus s;
  os_caps : ks_write_cap s' = ks_write_cap s ∧ ks_read_cap s' = ks_read_cap s;
  os_routes : ks_routes s' = ks_routes s ∧ ks_workers s' = ks_workers s;
  os_subs : u32w (ks_subscribers s' - subscribed_count (ks_conns s')) = u32w (ks_subscribers s - subscribed_count (ks_conns s));
  os_range : 0 ≤ ks_subscribers s < 2 ^ 32 → 0 ≤ ks_subscribers s' < 2 ^ 32;
}.

Lemma only_slot_refl i s : only_slot i s s.
Proof. by split. Qed.

Lemma only_slot_trans i s1 s2 s3 : only_slot i s1 s2 → only_slot i s2 s3 → only_slot i s1 s3.
Proof.
  intros [H1 H2 H3 H4 [H5 H6] [H7 H8] H9 H10] [K1 K2 K3 K4 [K5 K6] [K7 K8] K9 K10]. split; try congruence; try (split; congruence); auto.
  intros j Hj. rewrite K2, H2; done.
Qed.

Lemma subscribed_insert i c c' (l : list (control_conn W)) : l !! i = Some c →
  subscribed_count (<[i := c']> l) = subscribed_count l - Z.b2z (cc_subscribed c) + Z.b2z (cc_subscribed c').
Proof.
  intros Hi. unfold subscribed_count, zlen. rewrite <- (take_drop_middle l i c Hi) at 2. rewrite insert_take_drop by (by eapply lookup_lt_Some).
  rewrite !filter_app, !filter_cons, !length_app. destruct (cc_subscribed c), (cc_subscribed c'); repeat case_decide; try done; cbn; lia.
Qed.

Lemma only_slot_tasks i a b d s s' : only_slot i s s' → only_slot i s (with_tasks a b d s').
Proof. intros []. by split. Qed.

(** A change that keeps the stream's registration. *)
Lemma put_only i c s : cc_subscribed c = cc_subscribed (conn_at s i) → only_slot i s (put i c s).
Proof.
  intros Hs. split; cbn; try done; [by rewrite length_insert|intros j Hj; by rewrite list_lookup_insert_ne|].
  destruct (ks_conns s !! i) as [c0|] eqn:E.
  - rewrite (subscribed_insert i c0 c _ E). unfold conn_at in Hs. rewrite E in Hs. cbn in Hs. rewrite Hs. f_equal. lia.
  - rewrite list_insert_ge; [done|by apply lookup_ge_None].
Qed.

(** *** Closing *)

Definition shut (c : control_conn W) : control_conn W :=
  if cc_fd c <? 0 then c else
  let used := if bool_decide (state_of c = DISPATCHING) then cc_in_use c else false in
  let buffers := if bool_decide (state_of c = DISPATCHING) then cc_buffers c else false in
  mkCtl (cc_parser c) (-1) used buffers (cc_resp c) (cc_write_pos c) false (cc_cursor c) (cc_route c) None (cc_sent c).

Definition same_tasks (s s' : kith_control W) : Prop := ks_work s' = ks_work s ∧ ks_flushes s' = ks_flushes s.

Lemma u32w_sub a b : u32w (u32w a - b) = u32w (a - b).
Proof. unfold u32w. by rewrite Zminus_mod_idemp_l. Qed.

Lemma put_counted i c n s : (i < length (ks_conns s))%nat → 0 ≤ n < 2 ^ 32 →
  n = u32w (ks_subscribers s - Z.b2z (cc_subscribed (conn_at s i)) + Z.b2z (cc_subscribed c)) →
  only_slot i s (with_subscribers n (put i c s)).
Proof.
  intros Hi Hr Hn. destruct (lookup_lt_is_Some_2 _ _ Hi) as [c0 Hc]. rewrite (conn_at_lookup s i c0 Hc) in Hn.
  split; cbn; try done; [by rewrite length_insert|intros j Hj; by rewrite list_lookup_insert_ne|].
  rewrite (subscribed_insert i c0 c _ Hc), Hn, u32w_sub. f_equal. lia.
Qed.

Lemma put_subscribers i c n s : put i c (with_subscribers n s) = with_subscribers n (put i c s).
Proof. done. Qed.

Lemma close_spec i s : (i < length (ks_conns s))%nat →
  conn_at (control_conn_close i s) i = shut (conn_at s i) ∧ only_slot i s (control_conn_close i s) ∧ same_tasks s (control_conn_close i s).
Proof.
  intros Hi. unfold control_conn_close, shut. destruct (Z.ltb_spec (cc_fd (conn_at s i)) 0); [split_and!; [done|apply only_slot_refl|done]|].
  cbn [cc_subscribed with_watched with_socket]. destruct (cc_subscribed (conn_at s i)) eqn:Hs; cbn; unfold state_of.
  - assert (0 ≤ u32w (ks_subscribers s - 1) < 2 ^ 32) by (apply Z.mod_pos_bound; lia). cbn.
    case_bool_decide; rewrite put_subscribers; (split_and!; [by apply conn_at_put|apply put_counted; [done..|rewrite Hs; cbn; f_equal; lia]|done]).
  - unfold with_watched, with_socket. cbn. case_bool_decide; (split_and!; [rewrite conn_at_put by done; by rewrite Hs|apply put_only; cbn; congruence|done]).
Qed.

Lemma shut_ok P c : cc_buffers c = cc_in_use c → 0 ≤ cc_fd c → 0 ≤ cc_write_pos c ≤ zlen (rs_text (cc_resp c)) →
  (P → cc_in_use c = true ∧ state_of c = DISPATCHING ∧ cc_write_pos c = 0) → slot_ok P (shut c).
Proof.
  intros Hb Hf Hp Ht. unfold shut. rewrite (proj2 (Z.ltb_ge _ _)) by done. unfold state_of in *.
  case_bool_decide as Hd; split; cbn; try done; try lia; naive_solver.
Qed.

(** *** Writing *)

Definition pending (c : control_conn W) : bytes := drop (Z.to_nat (cc_write_pos c)) (rs_text (cc_resp c)).

Lemma take_drop_length {A} n (l : list A) : take n l ++ drop (length (take n l)) l = l.
Proof.
  destruct (decide (n ≤ length l)%nat); [by rewrite length_take_le, take_drop|]. by rewrite take_ge, drop_all, app_nil_r by lia.
Qed.

Lemma write_loop_spec writes : ∀ c, 0 ≤ cc_write_pos c ≤ zlen (rs_text (cc_resp c)) → ∃ x pos,
  (write_loop writes c).1 = with_write pos (cc_sent c ++ x) c ∧ x ++ pending (with_write pos (cc_sent c ++ x) c) = pending c ∧
  0 ≤ pos ≤ zlen (rs_text (cc_resp c)) ∧
  ((write_loop writes c).2 = Drained ↔ pos = zlen (rs_text (cc_resp c))) ∧
  ((write_loop writes c).2 = Blocked → pos < zlen (rs_text (cc_resp c))).
Proof.
  induction writes as [|r writes IH]; intros c Hp; cbn [write_loop]; destruct (Z.ltb_spec (cc_write_pos c) (zlen (rs_text (cc_resp c)))) as [Hlt|Hge].
  all: try (exists [], (cc_write_pos c); rewrite app_nil_r; split_and!; [by destruct c|done|lia|lia|cbn; split; (done || lia)|done || lia]).
  destruct r as [n| |]; try (exists [], (cc_write_pos c); rewrite app_nil_r; split_and!; [by destruct c|done|lia|lia|cbn; split; (done || lia)|done || lia]).
  set (chunk := take n _). assert (0 ≤ zlen chunk ∧ cc_write_pos c + zlen chunk ≤ zlen (rs_text (cc_resp c))) as [H0 Hle].
  { unfold chunk, zlen. rewrite length_take, length_drop. unfold zlen in *. lia. }
  destruct (IH (with_write (cc_write_pos c + zlen chunk) (cc_sent c ++ chunk) c)) as (x & pos & -> & Hx & Hpos & Hd & Hb); [cbn; lia|].
  exists (chunk ++ x), pos. cbn in *. split_and!; [by destruct c; cbn; rewrite app_assoc| |lia|lia|done|done].
  unfold pending in *. cbn in *. rewrite <- app_assoc, Hx. rewrite <- (take_drop_length n (drop (Z.to_nat (cc_write_pos c)) _)). fold chunk.
  rewrite drop_drop. f_equal. f_equal. unfold zlen. lia.
Qed.

(** What [handle_write] makes of a connection, at publish head [head]. *)
Inductive wrote (head : Z) (c : control_conn W) : control_conn W → Prop :=
  | wrote_blocked x pos : x ++ pending (with_write pos (cc_sent c ++ x) c) = pending c → 0 ≤ pos < zlen (rs_text (cc_resp c)) →
      wrote head c (with_write pos (cc_sent c ++ x) c)
  | wrote_shut x pos : x ++ pending (with_write pos (cc_sent c ++ x) c) = pending c → 0 ≤ pos ≤ zlen (rs_text (cc_resp c)) →
      (rs_sse (cc_resp c) = false → pending (with_write pos (cc_sent c ++ x) c) = [] ∨ pos < zlen (rs_text (cc_resp c))) →
      wrote head c (shut (with_write pos (cc_sent c ++ x) c))
  | wrote_stream : rs_sse (cc_resp c) = true →
      wrote head c (with_stream true (if cc_subscribed c then cc_cursor c else head)
        (with_state SSE (with_resp (set_text [] (cc_resp c)) (with_write 0 (cc_sent c ++ pending c) c)))).

Lemma pending_done pos sent c : zlen (rs_text (cc_resp c)) ≤ pos → pending (with_write pos sent c) = [].
Proof. intros Hp. unfold pending. cbn. apply drop_ge. unfold zlen in Hp. lia. Qed.

Lemma handle_write_spec writes i s : (i < length (ks_conns s))%nat →
  0 ≤ cc_write_pos (conn_at s i) ≤ zlen (rs_text (cc_resp (conn_at s i))) →
  wrote (eb_head (ks_bus s)) (conn_at s i) (conn_at (handle_write writes i s) i) ∧ only_slot i s (handle_write writes i s) ∧
  same_tasks s (handle_write writes i s).
Proof.
  intros Hi Hp. destruct (write_loop_spec writes (conn_at s i) Hp) as (x & pos & Hc & Hx & Hpos & Hd & Hb). unfold handle_write.
  destruct (write_loop writes (conn_at s i)) as [c' o]. cbn [fst snd] in *. subst c'. set (c := conn_at s i) in *.
  assert (only_slot i s (put i (with_write pos (cc_sent c ++ x) c) s)) as Hput by (by apply put_only).
  assert (∀ (P : rs_sse (cc_resp c) = false → pending (with_write pos (cc_sent c ++ x) c) = [] ∨ pos < zlen (rs_text (cc_resp c))),
    wrote (eb_head (ks_bus s)) c (conn_at (control_conn_close i (put i (with_write pos (cc_sent c ++ x) c) s)) i) ∧
    only_slot i s (control_conn_close i (put i (with_write pos (cc_sent c ++ x) c) s)) ∧
    same_tasks s (control_conn_close i (put i (with_write pos (cc_sent c ++ x) c) s))) as Hclose.
  { intros P. destruct (close_spec i (put i (with_write pos (cc_sent c ++ x) c) s)) as (-> & Ho & Ht); [cbn; by rewrite length_insert|].
    rewrite conn_at_put by done. split_and!; [by apply wrote_shut|by eapply only_slot_trans|done]. }
  destruct o.
  - pose proof (proj1 Hd eq_refl) as Hlen. cbn [cc_resp with_write]. destruct (rs_sse (cc_resp c)) eqn:Hs.
    + assert (pending (with_write pos (cc_sent c ++ x) c) = []) as Hnil by (apply pending_done; lia). rewrite Hnil, app_nil_r in Hx. subst x.
      cbn [cc_subscribed with_state with_parser with_resp with_write cc_sent cc_resp]. destruct (cc_subscribed c) eqn:Hsub; cbn [negb].
      * split_and!; [|by apply put_only|done]. rewrite conn_at_put by done. pose proof (wrote_stream (eb_head (ks_bus s)) c Hs) as Hw. rewrite Hsub in Hw.
        unfold with_stream in Hw. cbn in Hw. unfold with_state, with_parser, with_resp, with_write in *. cbn in *. by rewrite Hsub.
      * split_and!; [|apply put_counted; [done|apply Z.mod_pos_bound; lia|fold c; rewrite Hsub; cbn; f_equal; lia]|done].
        change (conn_at (with_subscribers ?n ?x) i) with (conn_at x i). rewrite conn_at_put by done.
        pose proof (wrote_stream (eb_head (ks_bus s)) c Hs) as Hw. by rewrite Hsub in Hw.
    + apply Hclose. intros _. left. apply pending_done. lia.
  - split_and!; [|done|done]. rewrite conn_at_put by done. apply wrote_blocked; [done|]. specialize (Hb eq_refl). lia.
  - apply Hclose. intros _. right. assert (pos ≠ zlen (rs_text (cc_resp c))) by (intros E; by apply Hd in E). lia.
Qed.

(** A connection with a response to write. *)
Record writable (c : control_conn W) : Prop := {
  wb_used : cc_in_use c = true ∧ cc_buffers c = true;
  wb_open : 0 ≤ cc_fd c ∧ cc_watched c = Some false;
  wb_pos : 0 ≤ cc_write_pos c ≤ zlen (rs_text (cc_resp c));
  wb_stream : cc_subscribed c = true → rs_sse (cc_resp c) = true;
}.

Lemma slot_writable P c : slot_ok P c → 0 ≤ cc_fd c → writable c.
Proof.
  intros Hs Hf. destruct (so_open _ _ Hs Hf) as (Hu & Hw & _). split; [split; [done|by rewrite (so_buffers _ _ Hs)]|done|apply Hs|].
  intros Hsub. by destruct (so_stream _ _ Hs Hsub).
Qed.

Lemma wrote_slot head c c' : writable c → state_of c = WRITING → wrote head c c' → slot_ok False c'.
Proof.
  intros [[Hu Hb] [Hf Hw] Hp Hst] Hwr Hwrote. destruct Hwrote as [x pos _ Hpos|x pos _ Hpos _|Hs].
  - unfold state_of in *. split; unfold state_of; cbn; rewrite ?Hwr; try done; try lia; try congruence; [intros _; split_and!; (done || set_solver)|auto].
  - apply shut_ok; cbn; (done || congruence || lia).
  - split; cbn; try done; try lia; [by rewrite Hb, Hu|intros _; split_and!; [done..|set_solver]|auto].
Qed.

Lemma register_fields out c : ∃ w, conn_register out c = with_watched w c.
Proof. unfold conn_register. destruct c as [p fd u b resp pos sub cur rt w sent]. cbn. destruct (fd <? 0); [by exists w|]. destruct w; by eexists. Qed.

(** Registering a socket that is watched already changes nothing. *)
Lemma register_watched out w c : cc_watched c = Some w → conn_register out c = c.
Proof. intros Hw. unfold conn_register. rewrite Hw. by destruct (cc_fd c <? 0). Qed.

Lemma arm_noop P i s : slot_ok P (conn_at s i) → arm_if_writing i s = s.
Proof.
  intros Hs. unfold arm_if_writing. destruct (Z.leb_spec 0 (cc_fd (conn_at s i))) as [Hf|Hf]; [|done].
  destruct (so_open _ _ Hs Hf) as (_ & Hw & _). rewrite (register_watched _ _ _ Hw), put_self. by destruct (_ && _).
Qed.

(** What answering makes of a connection, and of the work. *)
Definition answered (work work' : list nat) (i : nat) (c' : control_conn W) : Prop :=
  work' = work ∧ writable c' ∧ state_of c' = WRITING ∧ cc_subscribed c' = false ∨
  work' = work ++ [i] ∧ slot_ok True c' ∧ state_of c' = DISPATCHING ∨
  work' = work ∧ cc_fd c' < 0 ∧ slot_ok False c'.

Lemma respond_spec w submits i s : (i < length (ks_conns s))%nat → writable (conn_at s i) → cc_subscribed (conn_at s i) = false →
  state_of (conn_at s i) ≠ DISPATCHING →
  let s' := handle_respond w submits i s in
  only_slot i s s' ∧ ks_flushes s' = ks_flushes s ∧ answered (ks_work s) (ks_work s') i (conn_at s' i).
Proof.
  intros Hi [[Hu Hb] [Hf Hw] Hp _] Hsub Hst s'. unfold s', handle_respond. set (c := conn_at s i) in *.
  assert (∀ r st, only_slot i s (put i (with_state st (with_resp r (with_write 0 (cc_sent c) (with_resp (mkResponse [] (rs_cap (cc_resp c)) false) c)))) s))
    as Hput by (intros r st; by apply put_only).
  assert (∀ r, writable (with_state WRITING (with_resp r (with_write 0 (cc_sent c) (with_resp (mkResponse [] (rs_cap (cc_resp c)) false) c))))) as Hwb.
  { intros r. split; cbn; try done; [pose proof (zlen_nonneg (rs_text r)); lia|congruence]. }
  destruct (wants_websocket _).
  { split_and!; [apply Hput|done|]. left. rewrite conn_at_put by done. by split_and!. }
  unfold control_router_dispatch. cbn [cc_parser with_write with_resp cc_resp]. destruct (router_match (ks_routes s) (cc_parser c)) as [r|] eqn:Hm.
  2: { cbn. split_and!; [apply Hput|done|]. left. rewrite conn_at_put by done. by split_and!. }
  destruct (sl_python r) eqn:Hpy.
  - cbn [rs_cap cc_resp cc_parser with_write with_resp with_state with_parser]. destruct (ks_workers s && submits); cbn.
    + split_and!; [by apply only_slot_tasks, put_only|done|]. right. left. change (conn_at (with_tasks ?a ?b ?d ?x) i) with (conn_at x i).
      rewrite conn_at_put by done. unfold state_of. cbn. split_and!; try done.
      split; cbn; try done; [by rewrite Hb, Hu|intros _; split_and!; [done..|set_solver]|lia|congruence].
    + split_and!; [by apply only_slot_tasks, put_only|done|]. left. change (conn_at (with_tasks ?a ?b ?d ?x) i) with (conn_at x i).
      rewrite conn_at_put by done. split_and!; try done. split; [done|done|split; [done|apply zlen_nonneg]|cbn; congruence].
  - cbn [rs_cap]. destruct (sl_handler r w _ _) as [resp rc]. cbn. destruct (negb (rc =? 0)); cbn.
    + match goal with |- context [control_conn_close i (put i ?c' s)] => set (c1 := c') end.
      assert (only_slot i s (put i c1 s)) by (by apply put_only).
      destruct (close_spec i (put i c1 s)) as (Hc' & Ho & Ht); [cbn; by rewrite length_insert|]. split_and!; [by eapply only_slot_trans|by apply Ht|].
      right. right. rewrite Hc', conn_at_put by done. split_and!; [by apply Ht| |].
      * unfold shut. rewrite (proj2 (Z.ltb_ge _ _)) by (cbn; lia). cbn. lia.
      * apply shut_ok; try done; cbn; [congruence|]. pose proof (zlen_nonneg (rs_text resp)). lia.
    + split_and!; [apply Hput|done|]. left. rewrite conn_at_put by done. by split_and!.
Qed.

(** A slot after an event on its socket. *)
Definition kept (i : nat) (s s' : kith_control W) : Prop :=
  only_slot i s s' ∧ ks_flushes s' = ks_flushes s ∧
  (ks_work s' = ks_work s ∧ slot_ok False (conn_at s' i) ∨
   ks_work s' = ks_work s ++ [i] ∧ slot_ok True (conn_at s' i)).

Lemma close_kept i s : (i < length (ks_conns s))%nat → writable (conn_at s i) → state_of (conn_at s i) ≠ DISPATCHING → kept i s (control_conn_close i s).
Proof.
  intros Hi [[Hu Hb] [Hf Hw] Hp _] Hd. destruct (close_spec i s Hi) as (Hc & Ho & Ht & Hfl). split_and!; [done|done|]. left. rewrite Hc.
  split; [done|]. apply shut_ok; (done || congruence).
Qed.

Lemma kept_trans i s1 s2 s3 : only_slot i s1 s2 → same_tasks s1 s2 → kept i s2 s3 → kept i s1 s3.
Proof. intros Ho [Hw Hf] (Ho' & Hf' & H). unfold kept. rewrite <- Hw, <- Hf. split; [by eapply only_slot_trans|done]. Qed.

(** *** Streaming *)

(** The lines of the records that fit the write buffer. *)
Definition lines_of (cap : Z) (rs : list event_record) : bytes := concat (event_line <$> filter (λ r, zlen (event_line r) < cap) rs).

Lemma event_lines_cons cap r rs : lines_of cap (r :: rs) = (if zlen (event_line r) <? cap then event_line r else []) ++ lines_of cap rs.
Proof. unfold lines_of. rewrite filter_cons. destruct (Z.ltb_spec (zlen (event_line r)) cap); case_decide; (done || lia). Qed.

Lemma event_lines_app cap rs1 rs2 : lines_of cap (rs1 ++ rs2) = lines_of cap rs1 ++ lines_of cap rs2.
Proof. unfold lines_of. by rewrite filter_app, fmap_app, concat_app. Qed.

(** An open stream between two lines. *)
Definition streaming (c : control_conn W) : Prop :=
  slot_ok False c ∧ 0 ≤ cc_fd c ∧ cc_subscribed c = true ∧ state_of c = SSE ∧ rs_text (cc_resp c) = [].

Lemma u32w_succ a n : u32w (u32w (a + 1) + n) = u32w (a + (1 + n)).
Proof. unfold u32w. rewrite Zplus_mod_idemp_l. f_equal. lia. Qed.

Lemma pending_nil c : rs_text (cc_resp c) = [] → pending c = [].
Proof. intros H. unfold pending. rewrite H. apply drop_nil. Qed.

(** What sending the records [rs] of slot [i] comes to: a prefix of them is sent or pending, and the cursor is past it. *)
Definition sent_to (i : nat) (rs : list event_record) (at_cursor : Z) (s s' : kith_control W) : Prop :=
  only_slot i s s' ∧ same_tasks s s' ∧ slot_ok False (conn_at s' i) ∧
  (cc_subscribed (conn_at s' i) = true → ∃ dn rest x, rs = dn ++ rest ∧
     cc_sent (conn_at s' i) = cc_sent (conn_at s i) ++ x ∧ x ++ pending (conn_at s' i) = lines_of (ks_write_cap s) dn ∧
     (rest = [] ∧ cc_cursor (conn_at s' i) = cc_cursor (conn_at s i) ∨
      cc_cursor (conn_at s' i) = u32w (at_cursor + zlen dn) mod eb_capacity (ks_bus s))).

Lemma sent_to_cons i r rs at_cursor s s1 s' : only_slot i s s1 → same_tasks s s1 → cc_cursor (conn_at s1 i) = cc_cursor (conn_at s i) →
  cc_sent (conn_at s1 i) = cc_sent (conn_at s i) ++ lines_of (ks_write_cap s) [r] →
  sent_to i rs (u32w (at_cursor + 1)) s1 s' → sent_to i (r :: rs) at_cursor s s'.
Proof.
  intros Ho [Hw1 Hf1] Hcur Hsent (Ho' & [Hw2 Hf2] & Hs' & Hrel).
  split_and!; [by eapply only_slot_trans|split; congruence|done|]. intros E. destruct (Hrel E) as (dn & rest & x & -> & Hx & Heq & Hcase).
  exists (r :: dn), rest, (lines_of (ks_write_cap s) [r] ++ x). destruct (os_caps _ _ _ Ho) as [Hcap _]. rewrite (os_bus _ _ _ Ho), Hcap in *. split_and!; [done| | |].
  - by rewrite Hx, Hsent, <- app_assoc.
  - rewrite <- app_assoc, Heq. change (r :: dn) with ([r] ++ dn). by rewrite event_lines_app.
  - rewrite Hcur in Hcase. destruct Hcase as [?|Hc]; [by left|right]. rewrite Hc, u32w_succ. do 2 f_equal. unfold zlen. cbn [length]. lia.
Qed.

Lemma send_spec i rs : ∀ writes at_cursor s, (i < length (ks_conns s))%nat → streaming (conn_at s i) →
  sent_to i rs at_cursor s (send_records rs writes at_cursor i s).
Proof.
  induction rs as [|r rs IH]; intros writes at_cursor s Hi (Hs & Hf & Hsub & Hst & Ht); cbn [send_records].
  { split_and!; [apply only_slot_refl|done|done|]. intros _. exists [], [], []. cbn.
    rewrite (pending_nil _ Ht), app_nil_r. split_and!; [done|done|done|by left]. }
  assert (∀ s1 writes1, only_slot i s s1 → same_tasks s s1 → streaming (conn_at s1 i) → cc_cursor (conn_at s1 i) = cc_cursor (conn_at s i) →
    cc_sent (conn_at s1 i) = cc_sent (conn_at s i) ++ lines_of (ks_write_cap s) [r] →
    sent_to i (r :: rs) at_cursor s (send_records rs writes1 (u32w (at_cursor + 1)) i s1)) as Hnext.
  { intros s1 writes1 Ho Htask Hstr Hcur Hsent. apply (sent_to_cons i r rs at_cursor s s1); try done. apply IH; [by rewrite (os_len _ _ _ Ho)|done]. }
  unfold sent_to in Hnext |- *. set (c := conn_at s i) in *.
  assert (lines_of (ks_write_cap s) [r] = if zlen (event_line r) <? ks_write_cap s then event_line r else []) as Hone.
  { rewrite event_lines_cons. change (lines_of (ks_write_cap s) []) with (@nil byte). by rewrite app_nil_r. }
  destruct (zlen (event_line r) <? ks_write_cap s).
  2: { apply Hnext; [apply only_slot_refl|done|by split_and!|done|]. fold c. by rewrite Hone, app_nil_r. }
  set (c1 := with_write 0 (cc_sent c) (with_resp (set_text (event_line r) (cc_resp c)) c)).
  assert (only_slot i s (put i c1 s)) as Ho1 by (by apply put_only). destruct (slot_writable _ _ Hs Hf) as [[Hu Hb] [_ Hw] _ Hsse].
  destruct (handle_write_spec (default [] (head writes)) i (put i c1 s)) as (Hwr & Ho2 & Ht2).
  { by rewrite (os_len _ _ _ Ho1). } { rewrite conn_at_put by done. cbn. split; [done|apply zlen_nonneg]. }
  rewrite conn_at_put in Hwr by done. set (s2 := handle_write _ i (put i c1 s)) in *.
  assert (only_slot i s s2) as Ho by (by eapply only_slot_trans). assert (same_tasks s s2) as Htask by done.
  assert ((i < length (ks_conns s2))%nat) as Hi2 by (by rewrite (os_len _ _ _ Ho)). clearbody s2.
  remember (conn_at s2 i) as c2 eqn:Hc2. destruct Hwr as [x pos Hx Hpos|x pos Hx Hpos _|_].
  - rewrite (proj2 (Z.ltb_ge _ _)) by (cbn; done). rewrite (proj2 (Z.ltb_lt _ _)) by (cbn in *; lia).
    rewrite (register_watched true false) by done. rewrite conn_at_put by done. split_and!.
    + eapply only_slot_trans; [exact Ho|]. apply put_only. by rewrite <- Hc2.
    + done.
    + cbn in Hpos. split; cbn; try done; try congruence; try (intros; lia); [intros _; split_and!; (done || set_solver)|]. intros ?. split; [by apply Hsse|by right].
    + intros _. exists [r], rs, x. rewrite Hone. split_and!; [done|done| |right].
      * exact Hx.
      * cbn. by rewrite (os_bus _ _ _ Ho).
  - assert (0 ≤ cc_fd (with_write pos (cc_sent c1 ++ x) c1)) as Hf1 by (cbn; done).
    assert (slot_ok False (shut (with_write pos (cc_sent c1 ++ x) c1))) as Hs' by (apply shut_ok; [cbn; congruence|done|cbn in *; lia|done]).
    assert (cc_fd (shut (with_write pos (cc_sent c1 ++ x) c1)) = -1 ∧ cc_subscribed (shut (with_write pos (cc_sent c1 ++ x) c1)) = false) as [Hm1 Hns].
    { unfold shut. by rewrite (proj2 (Z.ltb_ge _ _)) by done. }
    rewrite Hm1. cbn [Z.ltb Z.compare]. rewrite <- Hc2. split_and!; [done..|]. rewrite Hns. done.
  - rewrite (proj2 (Z.ltb_ge _ _)) by (cbn; done). change (cc_write_pos _ <? _) with false. cbn iota. apply Hnext; [done|done| | |]; rewrite <- Hc2.
    + split_and!; cbn; try done. split; cbn; try done; try congruence; try lia; [intros _; split_and!; (done || set_solver)|auto].
    + cbn. by rewrite Hsub.
    + rewrite Hone. done.
Qed.

Lemma reparsed_ok p c : slot_ok False c → 0 ≤ cc_fd c → cc_subscribed c = false → hp_state p = READING → slot_ok False (with_parser p c).
Proof.
  intros [H1 H2 H3 H4 H5 H6 H7] Hf Hsub Hp. split; unfold state_of; cbn; rewrite ?Hp; try done; try (intros; congruence); try (intros; lia).
  intros _. destruct (H2 Hf) as (? & ? & _). split_and!; (done || set_solver).
Qed.

Lemma read_kept w submits writes i reads : ∀ s, (i < length (ks_conns s))%nat → slot_ok False (conn_at s i) → 0 ≤ cc_fd (conn_at s i) →
  state_of (conn_at s i) = READING → kept i s (handle_read reads w submits writes i s).
Proof.
  induction reads as [|r reads IH]; intros s Hi Hs Hf Hst; cbn [handle_read]; set (c := conn_at s i) in *.
  all: pose proof (slot_writable _ _ Hs Hf) as Hwb.
  all: assert (kept i s (control_conn_close i s)) as Hclose by (apply close_kept; [done..|fold c; by rewrite Hst]).
  all: assert (kept i s s) as Hsame by (split_and!; [apply only_slot_refl|done|left; by split]).
  1: by destruct (_ =? 0).
  destruct (_ =? 0); [done|].
  destruct r as [bs|]; [|done]. case_bool_decide; [done|]. set (p0 := append_read _ _).
  pose proof (consume_states p0 Hst) as Hcons. destruct (control_http_parser_consume p0) as [p rc].
  assert (only_slot i s (put i (with_parser p c) s)) as Hput by (by apply put_only).
  assert (length (ks_conns (put i (with_parser p c) s)) = length (ks_conns s)) as Hlen by (cbn; by rewrite length_insert).
  assert (cc_subscribed c = false) as Hsub.
  { destruct (cc_subscribed c) eqn:E; [|done]. destruct (so_stream _ _ Hs E) as [_ [[? _]|?]]; congruence. }
  destruct Hcons as [[-> Hp]|[[-> Hp]|[-> Hp]]]; cbn [Z.eqb Z.ltb Z.compare].
  - destruct (respond_spec w submits i (put i (with_parser p c) s)) as (Ho & Hfl & Ha); rewrite ?Hlen, ?conn_at_put by done; try done.
    { destruct Hwb. by split. } { unfold state_of. cbn. by rewrite Hp. }
    set (s1 := handle_respond w submits i (put i (with_parser p c) s)) in *.
    change (ks_flushes (put i (with_parser p c) s)) with (ks_flushes s) in Hfl. change (ks_work (put i (with_parser p c) s)) with (ks_work s) in Ha.
    assert (only_slot i s s1) as Ho1 by (by eapply only_slot_trans).
    destruct Ha as [(Hw & Hwb' & Hst' & Hsub')|[(Hw & Hs' & Hst')|(Hw & Hf' & Hs')]].
    + rewrite (proj2 (Z.leb_le _ _) (proj1 (wb_open _ Hwb'))), bool_decide_eq_true_2 by done. cbn [andb].
      destruct (handle_write_spec writes i s1) as (Hwr & Ho2 & Ht2); [by rewrite (os_len _ _ _ Ho1)|apply Hwb'|].
      pose proof (wrote_slot _ _ _ Hwb' Hst' Hwr) as Hs2. rewrite (arm_noop _ _ _ Hs2).
      split_and!; [by eapply only_slot_trans|destruct Ht2; congruence|]. left. split; [destruct Ht2; congruence|done].
    + rewrite bool_decide_eq_false_2 by congruence. rewrite andb_false_r. split_and!; [done|done|]. by right.
    + rewrite (proj2 (Z.leb_gt _ _)) by lia. cbn [andb]. split_and!; [done|done|]. left. by split.
  - eapply kept_trans; [done|done|]. apply IH; rewrite ?Hlen, ?conn_at_put by done; try done. by apply reparsed_ok.
  - eapply kept_trans; [done|done|]. apply close_kept; rewrite ?Hlen, ?conn_at_put by done; try done.
    + destruct Hwb. by split.
    + unfold state_of. cbn. by rewrite Hp.
Qed.
End Slots.

(** ** Every event keeps the server *)

Section Invariant.
Context {W : Type}.
Implicit Types (s : kith_control W) (c : control_conn W).

Abbreviation tasks s := (ks_work s ++ ks_flushes s).

Lemma count_range (l : list (control_conn W)) : zlen l < 2 ^ 32 → 0 ≤ subscribed_count l < 2 ^ 32.
Proof.
  intros Hl. unfold subscribed_count. split; [apply zlen_nonneg|]. unfold zlen in *.
  pose proof (length_filter (λ c, cc_subscribed c = true) l). lia.
Qed.

(** A change of slot [i] alone. *)
Lemma slot_step i s s' : server_ok s → only_slot i s s' → NoDup (tasks s') → (∀ j, j ∈ tasks s' → j ≠ i → j ∈ tasks s) →
  (i < length (ks_conns s))%nat → slot_ok (i ∈ tasks s') (conn_at s' i) →
  (cc_in_use (conn_at s' i) = true → (i < ks_conn_count s)%nat) →
  (∀ j, j ≠ i → j ∈ tasks s → j ∈ tasks s') → server_ok s'.
Proof.
  intros [Hslots [Hnd Hin] Hcnt Hsubs Hsz] Ho Hnd' Hback Hi Hslot Hcount Hforth. pose proof (os_len _ _ _ Ho) as Hlen.
  assert (∀ j c, ks_conns s' !! j = Some c → j = i ∧ c = conn_at s' i ∨ j ≠ i ∧ ks_conns s !! j = Some c) as Hcases.
  { intros j c Hj. destruct (decide (j = i)) as [->|Hne]; [left; split; [done|by rewrite (conn_at_lookup _ _ _ Hj)]|right].
    split; [done|]. by rewrite <- (os_other _ _ _ Ho j Hne). }
  split.
  - intros j c [[-> ->]|[Hne Hj]]%Hcases; [done|]. pose proof (Hslots j c Hj) as Hs. destruct Hs as [H1 H2 H3 H4 H5 H6 H7].
    split; try done. intros Ht. apply H7, Hback; done.
  - split; [done|]. intros j Hj. rewrite Hlen. destruct (decide (j = i)) as [->|Hne]; [done|]. by apply Hin, Hback.
  - intros j c [[-> ->]|[Hne Hj]]%Hcases Hu; rewrite (os_count _ _ _ Ho); [by apply Hcount|by apply (Hcnt j c)].
  - assert (zlen (ks_conns s') < 2 ^ 32) as Hsz' by (unfold zlen in *; lia).
    pose proof (os_subs _ _ _ Ho) as Hu. pose proof (os_range _ _ _ Ho ltac:(rewrite Hsubs; by apply count_range)) as Hr.
    pose proof (count_range _ Hsz') as Hc. rewrite Hsubs, Z.sub_diag in Hu. unfold u32w in Hu.
    pose proof (Z.mod_divide (ks_subscribers s' - subscribed_count (ks_conns s')) (2 ^ 32) ltac:(done)) as [Hdiv _].
    destruct (Hdiv Hu) as [q Hq]. lia.
  - unfold zlen in *. lia.
Qed.

Lemma open_slot s i : server_ok s → cc_watched (conn_at s i) ≠ None → ∃ c, ks_conns s !! i = Some c ∧ conn_at s i = c ∧ 0 ≤ cc_fd c ∧
  (i < length (ks_conns s))%nat ∧ (i < ks_conn_count s)%nat.
Proof.
  intros Hok Hw. unfold conn_at in *. destruct (ks_conns s !! i) as [c|] eqn:E; [|done]. cbn in *. exists c.
  pose proof (vo_slots _ Hok _ _ E) as Hs. destruct (decide (0 ≤ cc_fd c)) as [Hf|Hf]; [|by destruct (so_shut _ _ Hs ltac:(lia))].
  destruct (so_open _ _ Hs Hf) as (Hu & _). split_and!; try done; [by eapply lookup_lt_Some|by apply (vo_count _ Hok i c)].
Qed.

Lemma slot_untasked (P : Prop) c : slot_ok P c → state_of c ≠ DISPATCHING → ¬ P ∧ slot_ok False c.
Proof. intros [H1 H2 H3 H4 H5 H6 H7] Hd. split; [intros HP; by destruct (H7 HP) as (_ & ? & _)|by split]. Qed.

Lemma slot_weaken (P Q : Prop) c : slot_ok P c → (Q → P) → slot_ok Q c.
Proof. intros [H1 H2 H3 H4 H5 H6 H7] HQ. split; auto. Qed.

(** What happened to slot [i], tasked or not, keeps the server. *)
Lemma kept_server i s s' : server_ok s → (i < length (ks_conns s))%nat → (cc_in_use (conn_at s' i) = true → (i < ks_conn_count s)%nat) →
  i ∉ tasks s → kept i s s' → server_ok s'.
Proof.
  intros Hok Hi Hcount Hno (Ho & Hf & Hcase). destruct (vo_tasks _ Hok) as [Hnd Hin].
  destruct Hcase as [[Hw Hs]|[Hw Hs]]; (apply (slot_step i s); [done|done|..|done| |done|]); rewrite Hw, Hf; try done.
  - by eapply slot_weaken.
  - rewrite <- app_assoc. cbn. apply NoDup_app in Hnd as (Hnd1 & Hd & Hnd2). rewrite elem_of_app in Hno.
    apply NoDup_app. split_and!; [done| |by constructor; [naive_solver|]]. set_solver.
  - set_solver.
  - by eapply slot_weaken.
  - set_solver.
Qed.

Lemma close_server i s : server_ok s → cc_watched (conn_at s i) ≠ None → server_ok (control_conn_close i s).
Proof.
  intros Hok Hw. destruct (open_slot s i Hok Hw) as (c & Hc & Hat & Hf & Hi & Hcount). pose proof (vo_slots _ Hok _ _ Hc) as Hs.
  destruct (close_spec i s Hi) as (Hc' & Ho & Hwk & Hfl). destruct (vo_tasks _ Hok) as [Hnd Hin].
  apply (slot_step i s); try done; rewrite Hwk, Hfl; try done. rewrite Hc', Hat. apply shut_ok; try apply Hs; done.
Qed.

Lemma write_server writes i s : server_ok s → 0 ≤ cc_fd (conn_at s i) → state_of (conn_at s i) = WRITING → server_ok (handle_write writes i s).
Proof.
  intros Hok Hf Hst. assert (cc_watched (conn_at s i) ≠ None) as Hw.
  { unfold conn_at in *. destruct (ks_conns s !! i) as [c|] eqn:E; cbn in *; [|lia]. pose proof (vo_slots _ Hok _ _ E) as Hs. destruct (so_open _ _ Hs Hf) as (_ & -> & _). done. }
  destruct (open_slot s i Hok Hw) as (c & Hc & Hat & _ & Hi & Hcount). pose proof (vo_slots _ Hok _ _ Hc) as Hs.
  destruct (slot_untasked _ _ Hs) as [Hno Hs']; [congruence|]. rewrite Hat in *. pose proof (slot_writable _ _ Hs Hf) as Hwb.
  destruct (handle_write_spec writes i s Hi) as (Hwr & Ho & Hwk & Hfl); [rewrite Hat; apply Hwb|]. rewrite Hat in Hwr.
  apply (kept_server i s); try done. split_and!; [done..|]. left. split_and!; [done|by eapply wrote_slot].
Qed.

Lemma ready_server ev reads w submits writes writes' i s : server_ok s → cc_watched (conn_at s i) ≠ None →
  server_ok (control_conn_event_handler ev reads w submits writes writes' i s).
Proof.
  intros Hok Hw. unfold control_conn_event_handler. destruct (rd_err ev); [by apply close_server|].
  destruct (_ && _); [by apply close_server|]. set (s1 := if _ && _ then _ else s).
  assert (server_ok s1) as Hok1.
  { unfold s1. destruct (rd_in ev); cbn [andb]; [|done]. case_bool_decide as Hst; [|done].
    destruct (open_slot s i Hok Hw) as (c & Hc & Hat & Hf & Hi & Hcount). pose proof (vo_slots _ Hok _ _ Hc) as Hs.
    destruct (slot_untasked _ _ Hs) as [Hno Hs']; [congruence|]. apply (kept_server i s); try done. apply read_kept; try done; by rewrite Hat. }
  clearbody s1. destruct (Z.ltb_spec (cc_fd (conn_at s1 i)) 0) as [|Hf]; [done|]. destruct (rd_out ev); [|done].
  assert (state_of (conn_at s1 i) ≠ RESPONDING) as Hst.
  { unfold conn_at in *. destruct (ks_conns s1 !! i) as [c|] eqn:E; [|done]. pose proof (vo_slots _ Hok1 _ _ E) as Hs.
    destruct (so_open _ _ Hs Hf) as (_ & _ & Hin). cbn. intros Hr. rewrite Hr in Hin. set_solver. }
  rewrite (bool_decide_eq_false_2 _ Hst). destruct (_ && _) eqn:E; [|done]. apply andb_true_iff in E as [_ E%bool_decide_eq_true]. by apply write_server.
Qed.

Lemma filter_not_elem (i : nat) (l : list nat) : i ∉ filter (λ j, j ≠ i) l.
Proof. rewrite list_elem_of_filter. naive_solver. Qed.

Lemma worker_server finalizing w i s : server_ok s → i ∈ ks_work s → server_ok (control_route_worker_task finalizing w i s).
Proof.
  intros Hok Hin. destruct (vo_tasks _ Hok) as [Hnd Hlt]. assert ((i < length (ks_conns s))%nat) as Hi by (apply Hlt; set_solver).
  destruct (lookup_lt_is_Some_2 _ _ Hi) as [c Hc]. pose proof (conn_at_lookup _ _ _ Hc) as Hat. pose proof (vo_slots _ Hok _ _ Hc) as Hs.
  destruct (so_task _ _ Hs) as (Hu & Hst & Hpos); [set_solver|]. pose proof (vo_count _ Hok _ _ Hc Hu) as Hcount.
  apply NoDup_app in Hnd as (Hnd1 & Hd & Hnd2). pose proof (filter_not_elem i (ks_work s)) as Hno.
  assert (NoDup (filter (λ j, j ≠ i) (ks_work s))) as Hnf by (by apply NoDup_filter). unfold control_route_worker_task. destruct finalizing.
  - apply (slot_step i s); [done|apply only_slot_tasks, only_slot_refl|cbn..|done|].
    + apply NoDup_app. split_and!; [done| |done]. intros j [_ Hj]%list_elem_of_filter. by apply Hd.
    + intros j. rewrite !elem_of_app, list_elem_of_filter. naive_solver.
    + done.
    + change (slot_ok (i ∈ filter (λ j, j ≠ i) (ks_work s) ++ ks_flushes s) (conn_at s i)).
      rewrite Hat. eapply slot_weaken; [exact Hs|]. rewrite !elem_of_app, list_elem_of_filter. naive_solver.
    + cbn. intros j Hj. rewrite !elem_of_app, list_elem_of_filter. naive_solver.
  - rewrite Hat. set (resp := match cc_route c with Some r => _ | None => _ end).
    apply (slot_step i s); [done|apply only_slot_tasks, put_only; by rewrite Hat|cbn..|done|].
    + apply NoDup_app. split_and!; [done| |apply NoDup_app; split_and!; [done| |apply NoDup_singleton]].
      * intros j [Hne Hj]%list_elem_of_filter. rewrite elem_of_app, list_elem_of_singleton. intros [?|?]; [by eapply Hd|done].
      * intros j Hj ->%list_elem_of_singleton. by apply (Hd i).
    + intros j. rewrite !elem_of_app, list_elem_of_filter, list_elem_of_singleton. naive_solver.
    + done.
    + change (conn_at (with_tasks ?a ?b ?d ?x) i) with (conn_at x i). rewrite conn_at_put by done.
      destruct Hs as [H1 H2 H3 H4 H5 H6 H7]. split; cbn; try done.
      * intros Hsub. destruct (H4 Hsub) as [_ [[E _]|E]]; unfold state_of in *; congruence.
      * rewrite Hpos. split; [done|apply zlen_nonneg].
    + cbn. intros j Hj. rewrite !elem_of_app, list_elem_of_filter, list_elem_of_singleton. naive_solver.
Qed.

Lemma flush_task_server writes i s : server_ok s → i ∈ ks_flushes s → server_ok (control_conn_flush_task writes i s).
Proof.
  intros Hok Hin. destruct (vo_tasks _ Hok) as [Hnd Hlt]. assert ((i < length (ks_conns s))%nat) as Hi by (apply Hlt; set_solver).
  destruct (lookup_lt_is_Some_2 _ _ Hi) as [c Hc]. pose proof (conn_at_lookup _ _ _ Hc) as Hat. pose proof (vo_slots _ Hok _ _ Hc) as Hs.
  destruct (so_task _ _ Hs) as (Hu & Hst & Hpos); [set_solver|]. pose proof (vo_count _ Hok _ _ Hc Hu) as Hcount.
  pose proof Hnd as (Hnd1 & Hd & Hnd2)%NoDup_app. pose proof (filter_not_elem i (ks_flushes s)) as Hno.
  set (s0 := with_tasks (ks_work s) (filter (λ j, j ≠ i) (ks_flushes s)) (ks_dropped s) s).
  assert (i ∉ tasks s0) as Hfree by (cbn; rewrite elem_of_app; intros [?|?]; [by apply (Hd i)|done]).
  assert (server_ok s0) as Hok0.
  { apply (slot_step i s); [done|apply only_slot_tasks, only_slot_refl|cbn..|done|].
    - apply NoDup_app. split_and!; [done| |by apply NoDup_filter]. intros j Hj [_ ?]%list_elem_of_filter. by apply (Hd j).
    - intros j. rewrite !elem_of_app, list_elem_of_filter. naive_solver.
    - done.
    - change (conn_at s0 i) with (conn_at s i). rewrite Hat. eapply slot_weaken; [exact Hs|]. intros ?. by destruct Hfree.
    - cbn. intros j Hj. rewrite !elem_of_app, list_elem_of_filter. naive_solver. }
  unfold control_conn_flush_task. fold s0. change (conn_at s0 i) with (conn_at s i). rewrite Hat.
  rewrite (bool_decide_eq_true_2 _ Hst). cbn [negb]. pose proof (so_buffers _ _ Hs) as Hb.
  assert (cc_subscribed c = false) as Hsub.
  { destruct (cc_subscribed c) eqn:E; [|done]. destruct (so_stream _ _ Hs E) as [_ [[? _]|?]]; congruence. }
  apply (kept_server i s0); [done..|]. destruct (Z.ltb_spec (cc_fd c) 0) as [Hf|Hf].
  - split_and!; [apply put_only; cbn; rewrite <- Hat; done|done|]. left. rewrite conn_at_put by done. split; [done|]. destruct (so_shut _ _ Hs Hf) as (? & ? & _).
    split; cbn; try done; try congruence; try (intros; lia); apply Hs.
  - set (c1 := with_write 0 (cc_sent c) (with_state WRITING c)). assert (only_slot i s0 (put i c1 s0)) as Ho1 by (apply put_only; cbn; rewrite <- Hat; done).
    destruct (so_open _ _ Hs Hf) as (_ & Hw & _).
    assert (writable c1) as Hwb by (split; cbn; [split; congruence|done|split; [done|apply zlen_nonneg]|congruence]).
    destruct (handle_write_spec writes i (put i c1 s0)) as (Hwr & Ho2 & Ht2); [by rewrite (os_len _ _ _ Ho1)|rewrite conn_at_put by done; apply Hwb|].
    rewrite conn_at_put in Hwr by done. pose proof (wrote_slot _ _ _ Hwb eq_refl Hwr) as Hs2.
    rewrite (arm_noop _ _ _ Hs2). destruct Ht2. split_and!; [by eapply only_slot_trans|done|]. left. by split.
Qed.

(** A free slot, put to use or left. *)
Definition set_count (n : nat) s : kith_control W :=
  mkServer (ks_conns s) n (ks_read_cap s) (ks_write_cap s) (ks_routes s) (ks_workers s) (ks_bus s) (ks_subscribers s) (ks_work s)
    (ks_flushes s) (ks_dropped s).

Lemma count_server n s : (ks_conn_count s ≤ n)%nat → server_ok s → server_ok (set_count n s).
Proof. intros Hn [Hs Ht Hc Hsub Hsz]. split; try done. cbn. intros i c Hi Hu. pose proof (Hc i c Hi Hu). lia. Qed.

Lemma free_slot_server i c0 c s : server_ok s → ks_conns s !! i = Some c0 → cc_in_use c0 = false → (cc_in_use c = true → (i < ks_conn_count s)%nat) →
  slot_ok False c → cc_subscribed c = false → server_ok (put i c s).
Proof.
  intros Hok Hc Hu Hcount Hs Hsub. pose proof (vo_slots _ Hok _ _ Hc) as Hs0. pose proof (lookup_lt_Some _ _ _ Hc) as Hi.
  assert (i ∉ tasks s) as Hno by (intros Ht; destruct (so_task _ _ Hs0 Ht); congruence).
  apply (kept_server i s); [done|done|by rewrite conn_at_put|done|]. split_and!; [apply put_only|done|left; by rewrite conn_at_put by done].
  rewrite (conn_at_lookup _ _ _ Hc), Hsub. destruct (cc_subscribed c0) eqn:E; [|done].
  assert (cc_fd c0 < 0) as Hf by (destruct (decide (0 ≤ cc_fd c0)) as [Hf|]; [destruct (so_open _ _ Hs0 Hf); congruence|lia]).
  destruct (so_shut _ _ Hs0 Hf) as (_ & ? & _). congruence.
Qed.

Lemma accept_server script : ∀ s, server_ok s → server_ok (handle_accept script s).
Proof.
  induction script as [|[[fd mem] nb] script IH]; intros s Hok; cbn [handle_accept]; [done|].
  destruct (Z.ltb_spec fd 0) as [|Hfd]; [done|]. unfold control_conn_alloc.
  destruct (list_find _ (ks_conns s)) as [[i c0]|] eqn:Hfind; [|by apply IH]. apply list_find_Some in Hfind as (Hc0 & Hu & _).
  pose proof (lookup_lt_Some _ _ _ Hc0) as Hi. pose proof (count_server (Nat.max (ks_conn_count s) (S i)) s ltac:(lia) Hok) as Hok1.
  assert (∀ c, slot_ok False c → cc_subscribed c = false → server_ok (put i c (set_count (Nat.max (ks_conn_count s) (S i)) s))) as Hput.
  { intros c ??. eapply free_slot_server; try done. cbn. lia. }
  destruct mem; cbn [negb].
  - set (c := mkCtl _ _ _ _ _ _ _ _ _ _ _).
    change (mkServer (ks_conns (put i c s)) _ _ _ _ _ _ _ _ _ _) with (put i c (set_count (Nat.max (ks_conn_count s) (S i)) s)).
    assert (conn_register false (with_state READING (with_socket fd true true c)) = with_watched (Some false) (with_state READING (with_socket fd true true c))) as Hreg
      by (unfold conn_register; by rewrite (proj2 (Z.ltb_ge (cc_fd _) 0))).
    rewrite conn_at_put, Hreg by done. destruct nb; cbn [negb]; rewrite put_put; apply IH, Hput; try done.
    + split; cbn; try done; try (intros; lia). intros _. split_and!; (done || set_solver).
  - apply IH. by eapply free_slot_server.
Qed.
End Invariant.

(** ** The bus *)

(** The records from the [lo]-th accepted on are in the ring. *)
Record bus_ok (b : event_bus) (log : list event_record) (lo : Z) : Prop := {
  bo_cap : 1 ≤ eb_capacity b ≤ 2 ^ 31;
  bo_len : zlen (eb_records b) = eb_capacity b;
  bo_window : 0 ≤ lo ≤ zlen log ∧ zlen log - lo < eb_capacity b;
  bo_head : eb_head b = zlen log mod eb_capacity b;
  bo_tail : eb_tail b = lo mod eb_capacity b;
  bo_record k : lo ≤ k < zlen log → eb_records b !! Z.to_nat (k mod eb_capacity b) = log !! Z.to_nat k;
}.

Lemma mod_near a b n : 0 < n → Z.abs (a - b) < n → a mod n = b mod n → a = b.
Proof.
  intros Hn Hab Heq. pose proof (Z.div_mod a n ltac:(lia)). pose proof (Z.div_mod b n ltac:(lia)).
  assert (a - b = n * (a / n - b / n)) by lia. assert (a / n - b / n = 0) by nia. lia.
Qed.

Lemma mod_succ a n : 0 < n → (a mod n + 1) mod n = (a + 1) mod n.
Proof. intros Hn. by rewrite Zplus_mod_idemp_l. Qed.

Section Bus.
Context (b : event_bus) (log : list event_record) (lo : Z) (Hb : bus_ok b log lo).

Lemma next_slot k : u32w (k mod eb_capacity b + 1) mod eb_capacity b = (k + 1) mod eb_capacity b.
Proof.
  pose proof (bo_cap _ _ _ Hb). pose proof (Z.mod_pos_bound k (eb_capacity b)). unfold u32w.
  rewrite (Z.mod_small (_ + 1)) by lia. apply mod_succ. lia.
Qed.

Lemma record_at_log k : lo ≤ k < zlen log → log !! Z.to_nat k = Some (record_at b (k mod eb_capacity b)).
Proof.
  intros Hk. unfold record_at. rewrite (bo_record _ _ _ Hb k Hk). destruct (log !! Z.to_nat k) eqn:E; [done|].
  apply lookup_ge_None in E. pose proof (bo_window _ _ _ Hb). unfold zlen in *. lia.
Qed.

Lemma drain_spec n : ∀ k, lo ≤ k ≤ zlen log → control_event_bus_drain n (k mod eb_capacity b) b =
  (take n (drop (Z.to_nat k) log), Z.min (k + Z.of_nat n) (zlen log) mod eb_capacity b).
Proof.
  pose proof (bo_cap _ _ _ Hb) as Hc. pose proof (bo_window _ _ _ Hb) as Hw.
  induction n as [|n IH]; intros k Hk; cbn [control_event_bus_drain]; [by rewrite Z.min_l, Z.add_0_r by lia|].
  rewrite (bo_head _ _ _ Hb). destruct (Z.eqb_spec (k mod eb_capacity b) (zlen log mod eb_capacity b)) as [He|Hne].
  - apply mod_near in He as ->; [|lia..]. rewrite drop_ge by (unfold zlen; lia). rewrite Z.min_r by lia. done.
  - assert (k < zlen log) as Hlt by (destruct (decide (k = zlen log)) as [->|]; [done|lia]).
    rewrite next_slot, IH by lia. pose proof (record_at_log k ltac:(lia)) as Hrec. rewrite (drop_S _ _ _ Hrec). cbn [take].
    replace (Z.to_nat (k + 1)) with (S (Z.to_nat k)) by lia. do 3 f_equal. lia.
Qed.

Lemma publish_spec e :
  if zlen log - lo =? eb_capacity b - 1 then control_event_bus_publish e b = (b, -1)
  else ∃ b' r, control_event_bus_publish e b = (b', 0) ∧ bus_ok b' (log ++ [r]) lo ∧ eb_capacity b' = eb_capacity b ∧
    event_line r = event_line (fill_record e zero_record).
Proof.
  pose proof (bo_cap _ _ _ Hb) as Hc. pose proof (bo_window _ _ _ Hb) as Hw. unfold control_event_bus_publish.
  rewrite (bo_head _ _ _ Hb), (bo_tail _ _ _ Hb), next_slot.
  destruct (Z.eqb_spec (zlen log - lo) (eb_capacity b - 1)) as [He|Hne].
  { replace (zlen log + 1) with (lo + 1 * eb_capacity b) by lia. by rewrite Z.mod_add, Z.eqb_refl by lia. }
  destruct (Z.eqb_spec ((zlen log + 1) mod eb_capacity b) (lo mod eb_capacity b)) as [He|_]; [apply mod_near in He; lia|].
  eexists _, (fill_record e (record_at b (zlen log mod eb_capacity b))). split_and!; [done| |done|done]. pose proof (Z.mod_pos_bound (zlen log) (eb_capacity b)) as Hm.
  split; cbn; rewrite ?zlen_app; change (zlen [?x]) with 1; try done.
  - pose proof (bo_len _ _ _ Hb) as Hl. unfold zlen in *. by rewrite length_insert.
  - lia.
  - intros k Hk. pose proof (bo_len _ _ _ Hb) as Hl. destruct (decide (k = zlen log)) as [->|Hk'].
    + rewrite list_lookup_insert_eq by (unfold zlen in *; lia). symmetry. apply list_lookup_middle. unfold zlen. lia.
    + rewrite list_lookup_insert_ne, (bo_record _ _ _ Hb), lookup_app_l; [done|unfold zlen in *; lia|lia|].
      pose proof (Z.mod_pos_bound k (eb_capacity b)). intros He. assert (k = zlen log); [|lia]. apply (mod_near _ _ (eb_capacity b)); lia.
Qed.

Lemma dist_spec k : lo ≤ k ≤ zlen log → u32w (u32w (k mod eb_capacity b + eb_capacity b) - eb_tail b) mod eb_capacity b = k - lo.
Proof.
  intros Hk. pose proof (bo_cap _ _ _ Hb) as Hc. pose proof (bo_window _ _ _ Hb) as Hw. rewrite (bo_tail _ _ _ Hb).
  pose proof (Z.mod_pos_bound k (eb_capacity b)). pose proof (Z.mod_pos_bound lo (eb_capacity b)). unfold u32w.
  rewrite (Z.mod_small (_ + _)), (Z.mod_small (_ - _)) by lia.
  replace (k mod eb_capacity b + eb_capacity b - lo mod eb_capacity b) with ((k mod eb_capacity b - lo mod eb_capacity b) + 1 * eb_capacity b) by lia.
  rewrite Z.mod_add, <- Zminus_mod, Z.mod_small by lia. done.
Qed.

Lemma release_spec k : lo ≤ k ≤ zlen log → bus_ok (control_event_bus_release (k mod eb_capacity b) b) log k ∧
  eb_capacity (control_event_bus_release (k mod eb_capacity b) b) = eb_capacity b ∧
  eb_head (control_event_bus_release (k mod eb_capacity b) b) = eb_head b.
Proof.
  intros Hk. unfold control_event_bus_release. rewrite (dist_spec k Hk), (bo_head _ _ _ Hb), dist_spec by (pose proof (bo_window _ _ _ Hb); lia).
  rewrite (proj2 (Z.ltb_ge _ _)) by lia. split; [|done]. destruct Hb as [H1 H2 H3 H4 H5 H6].
  split; cbn; try done; [lia|]. intros j Hj. apply H6. lia.
Qed.
End Bus.

(** ** Streams *)

Section Streams.
Context {W : Type}.
Implicit Types (s : kith_control W) (c : control_conn W).

(** Every attached stream has its cursor in the window. *)
Definition streams_ok s (log : list event_record) (lo : Z) : Prop :=
  bus_ok (ks_bus s) log lo ∧ ∀ i c, ks_conns s !! i = Some c → cc_subscribed c = true →
    ∃ k, lo ≤ k ≤ zlen log ∧ cc_cursor c = k mod eb_capacity (ks_bus s).

(** The records a stream has not been sent, and the bytes it is owed. *)
Definition unread s (i : nat) : list event_record :=
  (control_event_bus_drain (Z.to_nat (eb_capacity (ks_bus s))) (cc_cursor (conn_at s i)) (ks_bus s)).1.

Definition owed s (i : nat) : bytes := pending (conn_at s i) ++ lines_of (ks_write_cap s) (unread s i).

(** A stream that stays attached is sent a part of what it was owed, and owed
    the lines of [new] on top. *)
Definition sends s s' (i : nat) (new : list event_record) : Prop :=
  cc_subscribed (conn_at s i) = true → cc_subscribed (conn_at s' i) = true →
  ∃ x, cc_sent (conn_at s' i) = cc_sent (conn_at s i) ++ x ∧ x ++ owed s' i = owed s i ++ lines_of (ks_write_cap s) new.

Lemma unread_at s log lo i k : bus_ok (ks_bus s) log lo → lo ≤ k ≤ zlen log → cc_cursor (conn_at s i) = k mod eb_capacity (ks_bus s) →
  unread s i = drop (Z.to_nat k) log.
Proof.
  intros Hb Hk Hcur. unfold unread. rewrite Hcur, (drain_spec _ _ _ Hb) by done. cbn. apply take_ge. rewrite length_drop.
  pose proof (bo_window _ _ _ Hb). unfold zlen in *. lia.
Qed.

Lemma sends_same s s' i : conn_at s' i = conn_at s i → ks_bus s' = ks_bus s → ks_write_cap s' = ks_write_cap s → sends s s' i [].
Proof.
  intros Hc Hb Hw _ _. exists []. unfold owed, unread. rewrite Hc, Hb, Hw. change (lines_of (ks_write_cap s) []) with (@nil byte).
  by rewrite !app_nil_r.
Qed.

Lemma only_slot_at i s s' j : only_slot i s s' → j ≠ i → conn_at s' j = conn_at s j.
Proof. intros Ho Hj. unfold conn_at. by rewrite (os_other _ _ _ Ho j Hj). Qed.

(** A stream that can be flushed. *)
Lemma flushable s i : server_ok s → cc_in_use (conn_at s i) = true → cc_subscribed (conn_at s i) = true → state_of (conn_at s i) ≠ WRITING →
  streaming (conn_at s i) ∧ ks_conns s !! i = Some (conn_at s i) ∧ (i < length (ks_conns s))%nat ∧ (i < ks_conn_count s)%nat ∧
  i ∉ ks_work s ++ ks_flushes s.
Proof.
  intros Hok Hu Hsub Hst. unfold conn_at in *. destruct (ks_conns s !! i) as [c|] eqn:E; [|done]. cbn in *.
  pose proof (vo_slots _ Hok _ _ E) as Hs. destruct (so_stream _ _ Hs Hsub) as [_ [(Hsse & Ht & _)|?]]; [|done].
  destruct (slot_untasked _ _ Hs) as [Hno Hs']; [congruence|].
  assert (0 ≤ cc_fd c) as Hf by (destruct (decide (0 ≤ cc_fd c)); [done|destruct (so_shut _ _ Hs ltac:(lia)) as (_ & ? & _); congruence]).
  split_and!; try done; [by eapply lookup_lt_Some|by apply (vo_count _ Hok i c)].
Qed.

Lemma streaming_cursor x (c : control_conn W) : streaming c → streaming (with_stream true x c).
Proof.
  intros (Hs & Hf & Hsub & Hsse & Ht). split_and!; try done. destruct Hs as [H1 H2 H3 H4 H5 H6 H7]. split; try done.
  - intros Hlt. cbn in Hlt. lia.
  - intros _. by apply H4.
Qed.

(** Where the cursor stands after the prefix [dn] of a batch of at most 16 records. *)
Lemma batch_cursor w cap k log dn rest cur : 1 ≤ cap ≤ 2 ^ 31 → 0 ≤ k ≤ zlen log → zlen log - k < cap →
  take 16 (drop (Z.to_nat k) log) = dn ++ rest →
  (rest = [] ∧ cur = Z.min (k + Z.of_nat 16) (zlen log) mod cap ∨ cur = u32w (k mod cap + zlen dn) mod cap) →
  k + zlen dn ≤ zlen log ∧ cur = (k + zlen dn) mod cap ∧
  lines_of w dn ++ lines_of w (drop (Z.to_nat (k + zlen dn)) log) = lines_of w (drop (Z.to_nat k) log).
Proof.
  intros Hcap Hk Hwin Hrs Hcase. assert (take (length dn) (drop (Z.to_nat k) log) = dn ∧ (length dn ≤ length (drop (Z.to_nat k) log))%nat) as [Hdn Hle].
  { assert (length dn ≤ length (take 16 (drop (Z.to_nat k) log)))%nat as Hl by (rewrite Hrs, length_app; lia). rewrite length_take in Hl. split; [|lia].
    rewrite <- (Nat.min_l (length dn) 16) at 1 by lia. rewrite <- take_take, Hrs. apply take_app_length. }
  rewrite length_drop in Hle. split_and!; [unfold zlen in *; lia| |].
  - destruct Hcase as [[-> Hc2]|Hc2]; rewrite Hc2.
    + f_equal. assert (length dn = Nat.min 16 (length (drop (Z.to_nat k) log))) as Hl by (rewrite app_nil_r in Hrs; subst dn; apply length_take).
      rewrite length_drop in Hl. unfold zlen in *. lia.
    + pose proof (Z.mod_pos_bound k cap). unfold u32w. assert (zlen dn < cap) by (unfold zlen in *; lia). pose proof (zlen_nonneg dn).
      rewrite (Z.mod_small (_ + zlen dn)) by lia. by rewrite Zplus_mod_idemp_l.
  - rewrite <- event_lines_app. f_equal. rewrite <- (take_drop (length dn) (drop (Z.to_nat k) log)), Hdn, drop_drop. f_equal. f_equal. unfold zlen. lia.
Qed.

Lemma flush_conn_spec writes i s log lo : server_ok s → streams_ok s log lo →
  let s' := flush_conn writes s i in
  server_ok s' ∧ streams_ok s' log lo ∧ only_slot i s s' ∧ sends s s' i [] ∧
  (cc_subscribed (conn_at s' i) = true → cc_subscribed (conn_at s i) = true).
Proof.
  intros Hok [Hb Hcur] s'. unfold s', flush_conn.
  destruct (negb (cc_in_use (conn_at s i)) || negb (cc_subscribed (conn_at s i)) || bool_decide (state_of (conn_at s i) = WRITING)) eqn:Hcond.
  { split_and!; first [done | apply only_slot_refl | by apply sends_same]. }
  apply orb_false_iff in Hcond as [[Hu%negb_false_iff Hsub%negb_false_iff]%orb_false_iff Hst%bool_decide_eq_false].
  destruct (flushable s i Hok Hu Hsub Hst) as (Hstr & Hc & Hi & Hcount & Hno). destruct (Hcur i _ Hc Hsub) as (k & Hk & Hck).
  rewrite Hck, (drain_spec _ _ _ Hb) by done. set (c := conn_at s i) in *. set (rs := take 16 (drop (Z.to_nat k) log)).
  set (new_cursor := Z.min (k + Z.of_nat 16) (zlen log) mod eb_capacity (ks_bus s)). set (s1 := put i (with_stream true new_cursor c) s).
  assert (only_slot i s s1) as Ho1 by (by apply put_only).
  assert (conn_at s1 i = with_stream true new_cursor c) as Hat1 by (by apply conn_at_put).
  assert (streaming (conn_at s1 i)) as Hstr1 by (rewrite Hat1; by apply streaming_cursor).
  destruct (send_spec i rs (writes i) (k mod eb_capacity (ks_bus s)) s1) as (Ho2 & Ht2 & Hs2 & Hrel); [by rewrite (os_len _ _ _ Ho1)|done|].
  set (s2 := send_records rs (writes i) _ i s1) in *. assert (only_slot i s s2) as Ho by (by eapply only_slot_trans).
  rewrite Hat1 in Hrel. cbn in Hrel. pose proof (bo_cap _ _ _ Hb) as Hcap. pose proof (bo_window _ _ _ Hb) as Hwin.
  (* the cursor after it, and what was sent *)
  assert (cc_subscribed (conn_at s2 i) = true → ∃ k' x, k ≤ k' ≤ zlen log ∧ cc_cursor (conn_at s2 i) = k' mod eb_capacity (ks_bus s) ∧
    cc_sent (conn_at s2 i) = cc_sent c ++ x ∧
    x ++ pending (conn_at s2 i) ++ lines_of (ks_write_cap s) (drop (Z.to_nat k') log) = lines_of (ks_write_cap s) (drop (Z.to_nat k) log)) as Hend.
  { intros E. destruct (Hrel E) as (dn & rest & x & Hrs & Hx & Heq & Hcase).
    destruct (batch_cursor (ks_write_cap s) (eb_capacity (ks_bus s)) k log dn rest (cc_cursor (conn_at s2 i))) as (Hle & Hc2 & Hlines); [lia|lia|lia|done|done|].
    pose proof (zlen_nonneg dn). exists (k + zlen dn), x. split_and!; [lia|lia|done|done|]. by rewrite app_assoc, Heq. }
  split_and!; [|split| | |done].
  - apply (kept_server i s); try done. split_and!; [done|by destruct Ht2|left]. destruct Ht2. by split_and!.
  - by rewrite (os_bus _ _ _ Ho).
  - intros j cj Hj Hsj. rewrite (os_bus _ _ _ Ho). destruct (decide (j = i)) as [->|Hne].
    + rewrite <- (conn_at_lookup _ _ _ Hj) in *. destruct (Hend Hsj) as (k' & _ & Hk' & -> & _). exists k'. split; [lia|done].
    + rewrite (os_other _ _ _ Ho j Hne) in Hj. by apply (Hcur j).
  - done.
  - intros _ E. destruct (Hend E) as (k' & x & Hk' & Hc' & Hx & Heq). exists x. split; [done|]. destruct (os_caps _ _ _ Ho) as [Hw _].
    unfold owed. rewrite Hw, (unread_at s2 log lo i k'), (unread_at s log lo i k); rewrite ?(os_bus _ _ _ Ho); try done; [|lia].
    fold c. rewrite (pending_nil c) by apply Hstr. cbn [app]. rewrite Heq. change (lines_of (ks_write_cap s) []) with (@nil byte). by rewrite app_nil_r.
Qed.
Lemma sends_ext s s1 s' s1' i new : conn_at s1 i = conn_at s i → ks_bus s1 = ks_bus s → ks_write_cap s1 = ks_write_cap s →
  conn_at s1' i = conn_at s' i → ks_bus s1' = ks_bus s' → ks_write_cap s1' = ks_write_cap s' → sends s1 s1' i new → sends s s' i new.
Proof. unfold sends, owed, unread. intros -> -> -> -> -> ->. done. Qed.

Lemma flush_all writes log lo js : NoDup js → ∀ s, server_ok s → streams_ok s log lo →
  let s' := foldl (flush_conn writes) s js in
  server_ok s' ∧ streams_ok s' log lo ∧ (∀ i, sends s s' i []) ∧ (∀ i, cc_subscribed (conn_at s' i) = true → cc_subscribed (conn_at s i) = true) ∧
  (∀ i, i ∉ js → conn_at s' i = conn_at s i) ∧ ks_bus s' = ks_bus s ∧ ks_write_cap s' = ks_write_cap s ∧ ks_conn_count s' = ks_conn_count s ∧
  length (ks_conns s') = length (ks_conns s).
Proof.
  induction 1 as [|j js Hj _ IH]; intros s Hok Hst; cbn [foldl]; [split_and!; try done; intros i; by apply sends_same|].
  destruct (flush_conn_spec writes j s log lo Hok Hst) as (Hok1 & Hst1 & Ho1 & Hsend1 & Hsub1). set (s1 := flush_conn writes s j) in *.
  destruct (IH s1 Hok1 Hst1) as (Hok' & Hst' & Hsend' & Hsub' & Hsame' & Hbus' & Hcap' & Hcnt' & Hlen').
  pose proof (os_bus _ _ _ Ho1) as Hb1. destruct (os_caps _ _ _ Ho1) as [Hc1 _]. pose proof (os_count _ _ _ Ho1) as Hn1. pose proof (os_len _ _ _ Ho1) as Hl1.
  split_and!; try done; try congruence.
  - intros i. destruct (decide (i = j)) as [->|Hne].
    + apply (sends_ext s s _ s1); try done; try congruence. by rewrite Hsame'.
    + by apply (sends_ext s s1 _ (foldl (flush_conn writes) s1 js)); [by apply (only_slot_at j)|..].
  - intros i Hs. destruct (decide (i = j)) as [->|Hne]; [by apply Hsub1; rewrite <- Hsame'|]. rewrite <- (only_slot_at j s s1) by done. by apply Hsub'.
  - intros i [Hne Hni]%not_elem_of_cons. rewrite Hsame' by done. by apply (only_slot_at j).
Qed.

(** *** Reclaiming *)

Definition least_ok (b : event_bus) (lo hi : Z) (best : option (Z * Z)) : Prop :=
  match best with Some (d, cursor) => lo ≤ lo + d ≤ hi ∧ cursor = (lo + d) mod eb_capacity b | None => True end.

Lemma least_spec (b : event_bus) log lo l : bus_ok b log lo →
  (∀ c, c ∈ l → cc_subscribed c = true → ∃ k, lo ≤ k ≤ zlen log ∧ cc_cursor c = k mod eb_capacity b) → ∀ best, least_ok b lo (zlen log) best →
  let r := foldl (least_cursor b) best l in
  least_ok b lo (zlen log) r ∧ (∀ d cur, best = Some (d, cur) → ∃ d' cur', r = Some (d', cur') ∧ d' ≤ d) ∧
  (∀ (c : control_conn W) k, c ∈ l → cc_in_use c = true → cc_subscribed c = true → lo ≤ k ≤ zlen log → cc_cursor c = k mod eb_capacity b →
    ∃ d cur, r = Some (d, cur) ∧ lo + d ≤ k).
Proof.
  intros Hb. induction l as [|c l IH]; intros Hcur best Hbest; cbn [foldl].
  { split_and!; [done|intros d cur ->; by exists d, cur|intros c k Hin; by apply not_elem_of_nil in Hin]. }
  assert (least_ok b lo (zlen log) (least_cursor b best c) ∧
    (∀ d cur, best = Some (d, cur) → ∃ d' cur', least_cursor b best c = Some (d', cur') ∧ d' ≤ d) ∧
    (∀ k, cc_in_use c = true → cc_subscribed c = true → lo ≤ k ≤ zlen log → cc_cursor c = k mod eb_capacity b →
       ∃ d cur, least_cursor b best c = Some (d, cur) ∧ lo + d ≤ k)) as (Hone & Hless & Hmine).
  { unfold least_cursor. destruct (cc_in_use c); cbn [negb orb]; [|split_and!; [done|intros d cur ->; by exists d, cur|done]].
    destruct (cc_subscribed c) eqn:Hsub; cbn [negb]; [|split_and!; [done|intros d cur ->; by exists d, cur|done]].
    destruct (Hcur c (list_elem_of_here _ _) Hsub) as (k & Hk & Hck). rewrite Hck, (dist_spec _ _ _ Hb) by done.
    assert (∀ k', lo ≤ k' ≤ zlen log → k mod eb_capacity b = k' mod eb_capacity b → k' = k) as Huniq.
    { intros k' Hk' He. pose proof (bo_cap _ _ _ Hb). pose proof (bo_window _ _ _ Hb). symmetry. apply (mod_near _ _ (eb_capacity b)); [lia|lia|done]. }
    destruct best as [[d cur]|]; [destruct (Z.ltb_spec (k - lo) d)|]; cbn in *.
    - split_and!; [lia|lia|f_equal; lia|intros d' cur' [= <- <-]; eexists _, _; split; [done|lia]|intros k' _ _ Hk' He; apply Huniq in He as ->; [|done]; eexists _, _; split; [done|lia]].
    - split_and!; [lia|lia|apply Hbest|intros d' cur' [= <- <-]; eexists _, _; split; [done|lia]|intros k' _ _ Hk' He; apply Huniq in He as ->; [|done]; eexists _, _; split; [done|lia]].
    - split_and!; [lia|lia|f_equal; lia|done|intros k' _ _ Hk' He; apply Huniq in He as ->; [|done]; eexists _, _; split; [done|lia]]. }
  destruct (IH ltac:(intros c' Hc'; apply Hcur; by right) _ Hone) as (Hok & Hle & Hall). split_and!; [done| |].
  - intros d cur Hbe. destruct (Hless d cur Hbe) as (d1 & cur1 & E1 & Hd1). destruct (Hle d1 cur1 E1) as (d2 & cur2 & E2 & Hd2). exists d2, cur2. split; [done|lia].
  - intros c' k [->|Hin]%elem_of_cons Hu Hs Hk He; [|by apply (Hall c' k)].
    destruct (Hmine k Hu Hs Hk He) as (d1 & cur1 & E1 & Hd1). destruct (Hle d1 cur1 E1) as (d2 & cur2 & E2 & Hd2). exists d2, cur2. split; [done|lia].
Qed.
Lemma attached_owed s i : cc_cursor (conn_at s i) = eb_head (ks_bus s) → rs_text (cc_resp (conn_at s i)) = [] → owed s i = [].
Proof.
  intros Hc Ht. unfold owed, unread. rewrite (pending_nil _ Ht), Hc. destruct (Z.to_nat (eb_capacity (ks_bus s))); [done|].
  cbn [control_event_bus_drain]. by rewrite Z.eqb_refl.
Qed.

Lemma with_bus_server b s : server_ok s → server_ok (with_bus b s).
Proof. intros [H1 H2 H3 H4 H5]. by split. Qed.

Lemma reclaim_spec s log lo : server_ok s → streams_ok s log lo → ∃ lo', streams_ok (control_bus_reclaim s) log lo' ∧
  eb_capacity (ks_bus (control_bus_reclaim s)) = eb_capacity (ks_bus s) ∧ ∀ i, sends s (control_bus_reclaim s) i [].
Proof.
  intros Hok [Hb Hcur]. unfold control_bus_reclaim. set (best := foldl _ None _).
  destruct (least_spec (ks_bus s) log lo (take (ks_conn_count s) (ks_conns s)) Hb) with (best := @None (Z * Z)) as (Hbest & _ & Hall); [|done|].
  { intros c Hc. apply list_elem_of_lookup in Hc as [i Hi]. apply lookup_take_Some in Hi as [Hi _]. by apply (Hcur i). }
  fold best in Hbest, Hall. pose proof (bo_window _ _ _ Hb) as Hwin.
  set (lo' := match best with Some (d, _) => lo + d | None => zlen log end).
  assert (lo ≤ lo' ≤ zlen log) as Hlo' by (unfold lo'; destruct best as [[d cur]|]; cbn in Hbest; lia).
  assert (match best with Some (_, c) => c | None => eb_head (ks_bus s) end = lo' mod eb_capacity (ks_bus s)) as ->.
  { unfold lo'. destruct best as [[d cur]|]; [apply Hbest|apply (bo_head _ _ _ Hb)]. }
  destruct (release_spec _ _ _ Hb lo' Hlo') as (Hb' & Hcap' & Hhead').
  assert (∀ i c, ks_conns s !! i = Some c → cc_subscribed c = true → ∃ k, lo' ≤ k ≤ zlen log ∧ cc_cursor c = k mod eb_capacity (ks_bus s)) as Hcur'.
  { intros i c Hi Hsub. destruct (Hcur i c Hi Hsub) as (k & Hk & Hck). exists k. split; [|done]. split; [|lia].
    pose proof (vo_slots _ Hok _ _ Hi) as Hs. assert (cc_in_use c = true) as Hu.
    { destruct (decide (0 ≤ cc_fd c)) as [Hf|Hf]; [by apply (so_open _ _ Hs)|]. destruct (so_shut _ _ Hs ltac:(lia)) as (_ & ? & _). congruence. }
    pose proof (vo_count _ Hok i c Hi Hu) as Hlt. destruct (Hall c k) as (d & cur & E & Hle); try done.
    { apply list_elem_of_lookup. exists i. by apply lookup_take_Some. }
    unfold lo'. by rewrite E. }
  exists lo'. split_and!; [split; [done|]|done|].
  - cbn. rewrite Hcap'. exact Hcur'.
  - intros i Hsub _. exists []. rewrite app_nil_r. split; [done|]. unfold owed.
    destruct (ks_conns s !! i) as [c|] eqn:E; [|unfold conn_at in Hsub; by rewrite E in Hsub].
    pose proof (conn_at_lookup _ _ _ E) as Hat. rewrite Hat in Hsub. destruct (Hcur' i c E Hsub) as (k & Hk & Hck).
    change (conn_at (with_bus ?b s) i) with (conn_at s i). rewrite (unread_at s log lo i k), (unread_at _ log lo' i k); try done; try lia.
    + change (lines_of (ks_write_cap s) []) with (@nil byte). by rewrite app_nil_r.
    + change (conn_at (with_bus ?b s) i) with (conn_at s i). rewrite Hat. cbn. by rewrite Hcap'.
    + by rewrite Hat.
Qed.

(** *** Cursors *)

(** A stream keeps its cursor; a new one starts at the head. *)
Definition cursor_kept (head : Z) c c' : Prop :=
  cc_subscribed c' = true →
  cc_subscribed c = true ∧ cc_cursor c' = cc_cursor c ∧ (rs_text (cc_resp c) = [] → rs_text (cc_resp c') = []) ∨
  cc_cursor c' = head ∧ rs_text (cc_resp c') = [].

Lemma shut_subscribed c : 0 ≤ cc_fd c → cc_subscribed (shut c) = false.
Proof. intros Hf. unfold shut. by rewrite (proj2 (Z.ltb_ge _ _)). Qed.

Lemma wrote_cursor head c c' : 0 ≤ cc_fd c → wrote head c c' → cursor_kept head c c'.
Proof.
  intros Hf Hw. destruct Hw as [x pos _ _|x pos _ _ _|_]; intros Hs; [by left|by rewrite shut_subscribed in Hs|]. cbn in *.
  destruct (cc_subscribed c); auto.
Qed.

Lemma arm_same i s : (i < length (ks_conns s))%nat →
  cc_subscribed (conn_at (arm_if_writing i s) i) = cc_subscribed (conn_at s i) ∧ cc_cursor (conn_at (arm_if_writing i s) i) = cc_cursor (conn_at s i) ∧
  cc_sent (conn_at (arm_if_writing i s) i) = cc_sent (conn_at s i) ∧ cc_resp (conn_at (arm_if_writing i s) i) = cc_resp (conn_at s i).
Proof.
  intros Hi. unfold arm_if_writing. destruct (_ && _); [|done]. rewrite conn_at_put by done. by destruct (register_fields true (conn_at s i)) as [w ->].
Qed.

Lemma read_cursor w submits writes i reads : ∀ s, (i < length (ks_conns s))%nat → slot_ok False (conn_at s i) → 0 ≤ cc_fd (conn_at s i) →
  state_of (conn_at s i) = READING → cc_subscribed (conn_at (handle_read reads w submits writes i s) i) = true →
  cc_cursor (conn_at (handle_read reads w submits writes i s) i) = eb_head (ks_bus s) ∧
  rs_text (cc_resp (conn_at (handle_read reads w submits writes i s) i)) = [].
Proof.
  assert (∀ s, (i < length (ks_conns s))%nat → 0 ≤ cc_fd (conn_at s i) → cc_subscribed (conn_at (control_conn_close i s) i) = true → False) as Hclose.
  { intros s Hi Hf. destruct (close_spec i s Hi) as (-> & _). by rewrite shut_subscribed. }
  induction reads as [|r reads IH]; intros s Hi Hs Hf Hst; cbn [handle_read]; set (c := conn_at s i) in *.
  all: assert (cc_subscribed c = false) as Hsub
    by (destruct (cc_subscribed c) eqn:E; [|done]; destruct (so_stream _ _ Hs E) as [_ [[? _]|?]]; congruence).
  { destruct (_ =? 0); [intros []%Hclose; done|]. fold c. congruence. }
  destruct (_ =? 0); [intros []%Hclose; done|]. destruct r as [bs|]; [|fold c; congruence]. case_bool_decide; [intros []%Hclose; done|].
  set (p0 := append_read _ _). pose proof (consume_states p0 Hst) as Hcons. destruct (control_http_parser_consume p0) as [p rc].
  assert (length (ks_conns (put i (with_parser p c) s)) = length (ks_conns s)) as Hlen by (cbn; by rewrite length_insert).
  pose proof (slot_writable _ _ Hs Hf) as Hwb. destruct Hcons as [[-> Hp]|[[-> Hp]|[-> Hp]]]; cbn [Z.eqb Z.ltb Z.compare].
  - destruct (respond_spec w submits i (put i (with_parser p c) s)) as (Ho & _ & Ha); rewrite ?Hlen, ?conn_at_put by done; try done.
    { destruct Hwb. by split. } { unfold state_of. cbn. by rewrite Hp. }
    set (s1 := handle_respond w submits i (put i (with_parser p c) s)) in *. pose proof (os_bus _ _ _ Ho) as Hbus. pose proof (os_len _ _ _ Ho) as Hl1.
    destruct Ha as [(_ & Hwb' & Hst' & Hsub')|[(_ & Hs' & Hst')|(_ & Hf' & Hs')]].
    + rewrite (proj2 (Z.leb_le _ _) (proj1 (wb_open _ Hwb'))), bool_decide_eq_true_2 by done. cbn [andb].
      destruct (handle_write_spec writes i s1) as (Hwr & Ho2 & _); [by rewrite Hl1, Hlen|apply Hwb'|].
      destruct (arm_same i (handle_write writes i s1)) as (-> & -> & _ & ->); [by rewrite (os_len _ _ _ Ho2), Hl1, Hlen|].
      intros E. rewrite Hbus in Hwr. apply wrote_cursor in Hwr; [|apply Hwb']. destruct (Hwr E) as [[? _]|?]; [congruence|done].
    + rewrite bool_decide_eq_false_2 by congruence. rewrite andb_false_r. intros E. destruct (so_stream _ _ Hs' E) as [_ [[? _]|?]]; congruence.
    + rewrite (proj2 (Z.leb_gt _ _)) by lia. cbn [andb]. intros E. destruct (so_shut _ _ Hs' Hf') as (_ & ? & _). congruence.
  - intros E. apply IH in E; rewrite ?Hlen, ?conn_at_put by done; try done. by apply reparsed_ok.
  - intros []%Hclose; rewrite ?Hlen, ?conn_at_put by done; done.
Qed.
(** *** One event *)

Lemma slot_streams i s s' log lo : streams_ok s log lo → only_slot i s s' → cursor_kept (eb_head (ks_bus s)) (conn_at s i) (conn_at s' i) →
  sends s s' i [] → streams_ok s' log lo ∧ ∀ j, sends s s' j [].
Proof.
  intros [Hb Hcur] Ho Hck Hsend. pose proof (os_bus _ _ _ Ho) as Hbus. pose proof (bo_window _ _ _ Hb) as Hwin. split; [split; rewrite Hbus; [done|]|].
  - intros j c Hj Hsub. destruct (decide (j = i)) as [->|Hne]; [|rewrite (os_other _ _ _ Ho j Hne) in Hj; by apply (Hcur j)].
    rewrite <- (conn_at_lookup _ _ _ Hj) in *. destruct (Hck Hsub) as [(Hs & -> & _)|[-> _]].
    + destruct (ks_conns s !! i) as [c0|] eqn:E; [|unfold conn_at in Hs; by rewrite E in Hs]. rewrite (conn_at_lookup _ _ _ E) in *. by apply (Hcur i).
    + exists (zlen log). split; [lia|apply (bo_head _ _ _ Hb)].
  - intros j. destruct (decide (j = i)) as [->|Hne]; [done|]. destruct (os_caps _ _ _ Ho). apply sends_same; [by apply (only_slot_at i)|done|done].
Qed.

Lemma wrote_sends i s s' : only_slot i s s' → 0 ≤ cc_fd (conn_at s i) → wrote (eb_head (ks_bus s)) (conn_at s i) (conn_at s' i) → sends s s' i [].
Proof.
  intros Ho Hf Hw Hsub Hsub'. destruct (os_caps _ _ _ Ho) as [Hcap _]. change (lines_of (ks_write_cap s) []) with (@nil byte). rewrite app_nil_r.
  unfold owed, unread. rewrite Hcap, (os_bus _ _ _ Ho). destruct Hw as [x pos Hx _|x pos _ _ _|_].
  - exists x. split; [done|]. cbn [cc_cursor with_write]. by rewrite app_assoc, Hx.
  - by rewrite shut_subscribed in Hsub'.
  - exists (pending (conn_at s i)). split; [done|]. by rewrite Hsub.
Qed.

(** Nothing was attached to the slot. *)
Lemma unsubscribed_sends i s s' new : cc_subscribed (conn_at s i) = false → sends s s' i new.
Proof. intros H H'. congruence. Qed.

Lemma close_streams i s : (i < length (ks_conns s))%nat → 0 ≤ cc_fd (conn_at s i) →
  only_slot i s (control_conn_close i s) ∧ cursor_kept (eb_head (ks_bus s)) (conn_at s i) (conn_at (control_conn_close i s) i) ∧
  sends s (control_conn_close i s) i [].
Proof.
  intros Hi Hf. destruct (close_spec i s Hi) as (Hc & Ho & _). split_and!; [done|..]; [intros E|intros _ E]; by rewrite Hc, shut_subscribed in E.
Qed.

Lemma ready_streams ev reads w submits writes writes' i s : server_ok s → cc_watched (conn_at s i) ≠ None →
  let s' := control_conn_event_handler ev reads w submits writes writes' i s in
  only_slot i s s' ∧ cursor_kept (eb_head (ks_bus s)) (conn_at s i) (conn_at s' i) ∧ sends s s' i [].
Proof.
  intros Hok Hw s'. destruct (open_slot s i Hok Hw) as (c & Hc & Hat & Hf & Hi & Hcount). pose proof (vo_slots _ Hok _ _ Hc) as Hs.
  unfold s', control_conn_event_handler. rewrite <- Hat in Hf. destruct (rd_err ev); [by apply close_streams|].
  destruct (rd_hup ev && _); [by apply close_streams|]. set (s1 := if rd_in ev && _ then _ else s).
  assert (server_ok s1 ∧ only_slot i s s1 ∧ cursor_kept (eb_head (ks_bus s)) (conn_at s i) (conn_at s1 i) ∧
    (cc_subscribed (conn_at s i) = true → s1 = s)) as (Hok1 & Ho1 & Hck1 & Hsame).
  { unfold s1. destruct (rd_in ev); cbn [andb]; [|split_and!; [done|apply only_slot_refl|by left|done]].
    case_bool_decide as Hst; [|split_and!; [done|apply only_slot_refl|by left|done]].
    destruct (slot_untasked _ _ Hs) as [Hno Hs']; [congruence|]. assert (kept i s (handle_read reads w submits writes i s)) as Hk by (apply read_kept; try done; by rewrite Hat).
    split_and!; [by apply (kept_server i s)|apply Hk| |].
    - intros E. right. apply read_cursor; try done. by rewrite Hat.
    - intros E. rewrite Hat in E. destruct (so_stream _ _ Hs E) as [_ [[? _]|?]]; congruence. }
  clearbody s1. assert (only_slot i s s1 ∧ cursor_kept (eb_head (ks_bus s)) (conn_at s i) (conn_at s1 i) ∧ sends s s1 i []) as Hstop.
  { split_and!; [done..|]. intros E. rewrite (Hsame E) in *. by apply sends_same. }
  destruct (Z.ltb_spec (cc_fd (conn_at s1 i)) 0) as [|Hf1]; [done|]. destruct (rd_out ev); [|done].
  assert (state_of (conn_at s1 i) ≠ RESPONDING ∧ writable (conn_at s1 i)) as [Hst1 Hwb1].
  { unfold conn_at in *. destruct (ks_conns s1 !! i) as [c1|] eqn:E; [|cbn in Hf1; lia]. cbn in *. pose proof (vo_slots _ Hok1 _ _ E) as Hs1.
    split; [|by eapply slot_writable]. destruct (so_open _ _ Hs1 Hf1) as (_ & _ & Hin). intros Hr. rewrite Hr in Hin. set_solver. }
  rewrite (bool_decide_eq_false_2 _ Hst1). destruct ((0 <=? _) && _) eqn:E; [|done]. apply andb_true_iff in E as [_ E%bool_decide_eq_true].
  destruct (handle_write_spec writes' i s1) as (Hwr & Ho2 & _); [by rewrite (os_len _ _ _ Ho1)|apply Hwb1|].
  split_and!; [by eapply only_slot_trans| |].
  - pose proof (wrote_cursor _ _ _ Hf1 Hwr) as Hck2. rewrite (os_bus _ _ _ Ho1) in Hck2. intros E'. destruct (Hck2 E') as [(E1 & -> & Ht)|?]; [|by right].
    destruct (Hck1 E1) as [(E2 & -> & Ht')|[-> Ht']]; [left; split_and!; [done..|auto]|right; auto].
  - intros E'. rewrite (Hsame E') in *. by apply wrote_sends.
Qed.
(** A slot of a task has no stream. *)
Lemma tasked_slot s i : server_ok s → i ∈ ks_work s ++ ks_flushes s → ∃ c, ks_conns s !! i = Some c ∧ conn_at s i = c ∧ (i < length (ks_conns s))%nat ∧
  slot_ok True c ∧ cc_subscribed c = false.
Proof.
  intros Hok Hin. destruct (vo_tasks _ Hok) as [_ Hlt]. pose proof (Hlt i Hin) as Hi. destruct (lookup_lt_is_Some_2 _ _ Hi) as [c Hc].
  pose proof (vo_slots _ Hok _ _ Hc) as Hs. destruct (so_task _ _ Hs Hin) as (_ & Hst & _). exists c. split_and!; try done.
  - by apply conn_at_lookup.
  - destruct Hs as [H1 H2 H3 H4 H5 H6 H7]. split; auto.
  - destruct (cc_subscribed c) eqn:E; [|done]. destruct (so_stream _ _ Hs E) as [_ [[? _]|?]]; congruence.
Qed.

Lemma worker_streams finalizing w i s : server_ok s → i ∈ ks_work s →
  let s' := control_route_worker_task finalizing w i s in
  only_slot i s s' ∧ cursor_kept (eb_head (ks_bus s)) (conn_at s i) (conn_at s' i) ∧ sends s s' i [].
Proof.
  intros Hok Hin. destruct (tasked_slot s i Hok ltac:(set_solver)) as (c & Hc & Hat & Hi & Hs & Hsub). unfold control_route_worker_task. cbn zeta.
  rewrite <- Hat in Hsub. destruct finalizing.
  - split_and!; [apply only_slot_tasks, only_slot_refl|by left|by apply unsubscribed_sends].
  - split_and!; [by apply only_slot_tasks, put_only| |by apply unsubscribed_sends].
    intros E. change (conn_at (with_tasks ?a ?b ?d ?x) i) with (conn_at x i) in *. rewrite conn_at_put in * by done. cbn in E. congruence.
Qed.

Lemma flush_task_streams writes i s : server_ok s → i ∈ ks_flushes s →
  let s' := control_conn_flush_task writes i s in
  only_slot i s s' ∧ cursor_kept (eb_head (ks_bus s)) (conn_at s i) (conn_at s' i) ∧ sends s s' i [].
Proof.
  intros Hok Hin. destruct (tasked_slot s i Hok ltac:(set_solver)) as (c & Hc & Hat & Hi & Hs & Hsub). unfold control_conn_flush_task.
  set (s0 := with_tasks _ _ _ s). change (conn_at s0 i) with (conn_at s i). rewrite Hat.
  assert (only_slot i s s0) as Ho0 by (apply only_slot_tasks, only_slot_refl).
  assert (∀ s', sends s s' i []) as Hsend by (intros; apply unsubscribed_sends; by rewrite Hat).
  destruct (so_task _ _ Hs I) as (Hu & Hst & Hpos). rewrite (bool_decide_eq_true_2 _ Hst). cbn [negb].
  destruct (Z.ltb_spec (cc_fd c) 0) as [Hf|Hf].
  - split_and!; [eapply only_slot_trans; [done|apply put_only; by rewrite <- Hat]| |done]. intros E. rewrite conn_at_put in E by done. cbn in E. congruence.
  - set (c1 := with_write 0 (cc_sent c) (with_state WRITING c)). assert (only_slot i s0 (put i c1 s0)) as Ho1 by (apply put_only; cbn; by rewrite <- Hat).
    destruct (handle_write_spec writes i (put i c1 s0)) as (Hwr & Ho2 & _); [by rewrite (os_len _ _ _ Ho1)|rewrite conn_at_put by done; cbn; split; [done|apply zlen_nonneg]|].
    rewrite conn_at_put in Hwr by done. set (s2 := handle_write writes i (put i c1 s0)) in *.
    assert ((i < length (ks_conns s2))%nat) as Hi2 by (by rewrite (os_len _ _ _ Ho2), (os_len _ _ _ Ho1)).
    assert (only_slot i s (arm_if_writing i s2)) as Ho3.
    { eapply only_slot_trans; [done|]. eapply only_slot_trans; [done|]. eapply only_slot_trans; [done|]. unfold arm_if_writing. destruct (_ && _); [|apply only_slot_refl]. destruct (register_fields true (conn_at s2 i)) as [w ->]. by apply put_only. }
    split_and!; [done| |done]. destruct (arm_same i s2 Hi2) as (E1 & E2 & _ & E3). intros E. rewrite E1 in E. rewrite E2, E3. right.
    apply wrote_cursor in Hwr; [|done]. destruct (Hwr E) as [[? _]|?]; [|done]. cbn in *. congruence.
Qed.

(** Slots in use are not allocated again. *)
Lemma accept_slots script : ∀ s, server_ok s →
  let s' := handle_accept script s in
  ks_bus s' = ks_bus s ∧ ks_write_cap s' = ks_write_cap s ∧ (∀ i, cc_in_use (conn_at s i) = true → conn_at s' i = conn_at s i) ∧
  ∀ i, cc_subscribed (conn_at s' i) = true → cc_subscribed (conn_at s i) = true.
Proof.
  induction script as [|[[fd mem] nb] script IH]; intros s Hok; cbn [handle_accept]; [done|].
  pose proof (accept_server [(fd, mem, nb)] s Hok) as Hok1. cbn [handle_accept] in Hok1. destruct (Z.ltb_spec fd 0) as [|Hfd]; [done|].
  unfold control_conn_alloc in *. destruct (list_find _ (ks_conns s)) as [[i c0]|] eqn:Hfind; [|by apply IH]. apply list_find_Some in Hfind as (Hc0 & Hu & _).
  pose proof (lookup_lt_Some _ _ _ Hc0) as Hi.
  assert (∀ s1 c, server_ok s1 → ks_bus s1 = ks_bus s → ks_write_cap s1 = ks_write_cap s → ks_conns s1 = <[i := c]> (ks_conns s) → cc_subscribed c = false →
    let s' := handle_accept script s1 in
    ks_bus s' = ks_bus s ∧ ks_write_cap s' = ks_write_cap s ∧ (∀ i, cc_in_use (conn_at s i) = true → conn_at s' i = conn_at s i) ∧
    ∀ i, cc_subscribed (conn_at s' i) = true → cc_subscribed (conn_at s i) = true) as Hnext.
  { intros s1 c Hok' Hb Hw Hl Hsub. destruct (IH s1 Hok') as (Hb' & Hw' & Huse & Hs').
    assert (∀ j, j ≠ i → conn_at s1 j = conn_at s j) as Hoth by (intros j Hj; unfold conn_at; by rewrite Hl, list_lookup_insert_ne).
    assert (conn_at s1 i = c) as Hati by (unfold conn_at; by rewrite Hl, list_lookup_insert_eq).
    split_and!; [congruence|congruence|..].
    - intros j Hj. destruct (decide (j = i)) as [->|Hne]; [rewrite (conn_at_lookup _ _ _ Hc0) in Hj; congruence|].
      rewrite <- (Hoth j Hne) in *. by apply Huse.
    - intros j Hj%Hs'. destruct (decide (j = i)) as [->|Hne]; [congruence|]. by rewrite <- (Hoth j Hne). }
  destruct mem; cbn [negb] in *.
  - set (c := mkCtl _ _ _ _ _ _ _ _ _ _ _) in *.
    change (mkServer (ks_conns (put i c s)) _ _ _ _ _ _ _ _ _ _) with (put i c (set_count (Nat.max (ks_conn_count s) (S i)) s)) in *.
    destruct (register_fields false (with_state READING (with_socket fd true true c))) as [w Hreg].
    rewrite conn_at_put, Hreg in * by done. destruct nb; cbn [negb] in *; rewrite put_put in *; by eapply Hnext.
  - by eapply (Hnext _ zero_conn).
Qed.
(** The record a publication adds, up to what an earlier one left in its place. *)
Definition accepted (e : server_event W) (r : Z) : list event_record :=
  match e with PublishEvent ev => if r =? 0 then [fill_record ev zero_record] else [] | _ => [] end.

Lemma event_lines_line cap r r' : event_line r = event_line r' → lines_of cap [r] = lines_of cap [r'].
Proof. intros He. rewrite !event_lines_cons, He. done. Qed.

Record stream_step (e : server_event W) s s' (r : Z) : Prop := {
  ss_server : server_ok s';
  ss_streams : ∃ log lo, streams_ok s' log lo;
  ss_sends i : sends s s' i (accepted e r);
  ss_attached i : cc_subscribed (conn_at s i) = false → cc_subscribed (conn_at s' i) = true → owed s' i = [];
  ss_caps : ks_write_cap s' = ks_write_cap s ∧ eb_capacity (ks_bus s') = eb_capacity (ks_bus s);
}.

Lemma slot_stream_step i e s s' log lo : accepted e 0 = [] → server_ok s' → streams_ok s log lo → only_slot i s s' →
  cursor_kept (eb_head (ks_bus s)) (conn_at s i) (conn_at s' i) → sends s s' i [] → stream_step e s s' 0.
Proof.
  intros He Hok Hst Ho Hck Hsend. destruct (slot_streams i s s' log lo Hst Ho Hck Hsend) as [Hst' Hall]. destruct (os_caps _ _ _ Ho) as [Hcap _].
  pose proof (os_bus _ _ _ Ho) as Hbus. split; try done; [by exists log, lo|by rewrite He| |by rewrite Hbus].
  intros j Hn Hs. destruct (decide (j = i)) as [->|Hne]; [|rewrite (only_slot_at i s s') in Hs by done; congruence].
  destruct (Hck Hs) as [(? & _)|[Hc Ht]]; [congruence|]. apply attached_owed; [by rewrite Hbus|done].
Qed.

Lemma same_stream_step e s log lo : accepted e 0 = [] → server_ok s → streams_ok s log lo → stream_step e s s 0.
Proof. intros He Hok Hst. split; [done|by exists log, lo|rewrite He; intros i; by apply sends_same|intros i ? ?; congruence|done]. Qed.

Lemma publish_step ev s log lo : server_ok s → streams_ok s log lo →
  let '(s', r) := server_step (PublishEvent ev) s in stream_step (PublishEvent ev) s s' r.
Proof.
  intros Hok [Hb Hcur]. cbn [server_step]. unfold kith_control_publish_event. pose proof (publish_spec _ _ _ Hb ev) as Hp. pose proof (bo_window _ _ _ Hb) as Hwin.
  destruct (zlen log - lo =? eb_capacity (ks_bus s) - 1).
  - rewrite Hp. cbn. split; [by apply with_bus_server|by exists log, lo|intros i; by apply sends_same|intros i H1 H2; change (cc_subscribed (conn_at s i) = true) in H2; congruence|done].
  - destruct Hp as (b' & r & -> & Hb' & Hcap & Hline). cbn. assert (streams_ok (with_bus b' s) (log ++ [r]) lo) as Hst'.
    { split; [done|]. intros i c Hi Hsub. cbn in *. destruct (Hcur i c Hi Hsub) as (k & Hk & Hck). exists k. rewrite Hcap, zlen_app. split; [pose proof (zlen_nonneg [r]); lia|done]. }
    split; [by apply with_bus_server|by exists (log ++ [r]), lo| |intros i H1 H2; change (cc_subscribed (conn_at s i) = true) in H2; congruence|done].
    intros i Hsub _. exists []. rewrite app_nil_r. split; [done|]. unfold owed. change (conn_at (with_bus b' s) i) with (conn_at s i).
    destruct (ks_conns s !! i) as [c|] eqn:E; [|unfold conn_at in Hsub; by rewrite E in Hsub]. pose proof (conn_at_lookup _ _ _ E) as Hat. rewrite Hat in Hsub.
    destruct (Hcur i c E Hsub) as (k & Hk & Hck). rewrite (unread_at s log lo i k), (unread_at (with_bus b' s) (log ++ [r]) lo i k); try done.
    + cbn [app]. rewrite drop_app_le by (unfold zlen in *; lia). rewrite event_lines_app, app_assoc. f_equal. by apply event_lines_line.
    + rewrite zlen_app. pose proof (zlen_nonneg [r]). lia.
    + change (conn_at (with_bus b' s) i) with (conn_at s i). rewrite Hat. cbn. by rewrite Hcap.
    + by rewrite Hat.
Qed.

Lemma step_streams e s log lo : server_ok s → streams_ok s log lo → let '(s', r) := server_step e s in stream_step e s s' r.
Proof.
  intros Hok Hst. destruct e as [script|i ev reads w submits writes writes'|i finalizing w|i writes|writes|ev]; [..|by eapply publish_step]; cbn [server_step].
  - destruct (accept_slots script s Hok) as (Hbus & Hcap & Huse & Hsub). pose proof (accept_server script s Hok) as Hok'. destruct Hst as [Hb Hcur].
    assert (∀ i, cc_subscribed (conn_at (handle_accept script s) i) = true → conn_at (handle_accept script s) i = conn_at s i ∧ ∃ c, ks_conns s !! i = Some c) as Hsame.
    { intros i Hi%Hsub. destruct (ks_conns s !! i) as [c|] eqn:E; [|unfold conn_at in Hi; by rewrite E in Hi]. split; [|by exists c]. apply Huse.
      rewrite (conn_at_lookup _ _ _ E) in *. pose proof (vo_slots _ Hok _ _ E) as Hs.
      destruct (decide (0 ≤ cc_fd c)) as [Hf|Hf]; [by apply (so_open _ _ Hs)|]. destruct (so_shut _ _ Hs ltac:(lia)) as (_ & ? & _). congruence. }
    split; [done| | | |by rewrite Hbus].
    + exists log, lo. split; rewrite Hbus; [done|]. intros i c Hi Hs. rewrite <- (conn_at_lookup _ _ _ Hi) in Hs |- *.
      destruct (Hsame i Hs) as (Hat & c0 & Hc0). rewrite Hat, (conn_at_lookup _ _ _ Hc0) in *. by apply (Hcur i).
    + intros i Hs Hs'. destruct (Hsame i Hs') as [Hat _]. by apply (sends_same s (handle_accept script s)).
    + intros i Hn Hs'. apply Hsub in Hs'. congruence.
  - destruct (cc_watched (conn_at s i)) eqn:Hw; [|by eapply same_stream_step].
    destruct (ready_streams ev reads w submits writes writes' i s Hok) as (Ho & Hck & Hsend); [by rewrite Hw|].
    eapply (slot_stream_step i); try done. apply ready_server; [done|by rewrite Hw].
  - case_bool_decide as Hin; [|by eapply same_stream_step]. destruct (worker_streams finalizing w i s Hok Hin) as (Ho & Hck & Hsend).
    eapply (slot_stream_step i); try done. by apply worker_server.
  - case_bool_decide as Hin; [|by eapply same_stream_step]. destruct (flush_task_streams writes i s Hok Hin) as (Ho & Hck & Hsend).
    eapply (slot_stream_step i); try done. by apply flush_task_server.
  - unfold control_sse_flush. destruct (flush_all writes log lo (seq 0 (ks_conn_count s)) (NoDup_seq _ _) s Hok Hst)
      as (Hok1 & Hst1 & Hsend1 & Hsub1 & _ & Hbus1 & Hcap1 & _). set (s1 := foldl _ s _) in *.
    destruct (reclaim_spec s1 log lo Hok1 Hst1) as (lo' & Hst2 & Hcap2 & Hsend2).
    split; [by apply with_bus_server|by exists log, lo'| | |split; [done|by rewrite Hcap2, Hbus1]].
    + intros i Hs Hs'. assert (cc_subscribed (conn_at s1 i) = true) as Hs1 by done. destruct (Hsend1 i Hs Hs1) as (x & Hx & Hox).
      destruct (Hsend2 i Hs1 Hs') as (y & Hy & Hoy). exists (x ++ y). rewrite Hy, Hx, <- app_assoc. split; [done|]. cbn [accepted] in *.
      change (lines_of ?cap []) with (@nil byte) in *. rewrite app_nil_r in *. by rewrite <- app_assoc, Hoy.
    + intros i Hn Hs'. assert (cc_subscribed (conn_at s1 i) = true) as Hs1%Hsub1 by done. congruence.
Qed.
End Streams.

(** ** Runs *)

Section Created.
Context {W : Type}.
Implicit Types (s : kith_control W).

Definition run_end (es : list (server_event W)) s : kith_control W := default s (last (server_run es s).1).

Lemma run_end_cons e es s : run_end (e :: es) s = run_end es (server_step e s).1.
Proof.
  unfold run_end. cbn. destruct (server_step e s) as [s1 r]. cbn. destruct (server_run es s1) as [ss rs]. cbn. rewrite last_cons. by destruct (last ss).
Qed.

Lemma run_end_app es es' s : run_end (es ++ es') s = run_end es' (run_end es s).
Proof. revert s. induction es as [|e es IH]; intros s; [done|]. cbn [app]. by rewrite !run_end_cons. Qed.

Lemma server_run_ok es : ∀ s, server_ok s → (∃ log lo, streams_ok s log lo) → server_ok (run_end es s) ∧ (∃ log lo, streams_ok (run_end es s) log lo) ∧
  ks_write_cap (run_end es s) = ks_write_cap s.
Proof.
  induction es as [|e es IH]; intros s Hok (log & lo & Hst); [split_and!; [done|by exists log, lo|done]|]. rewrite run_end_cons.
  pose proof (step_streams e s log lo Hok Hst) as Hstep. destruct (server_step e s) as [s1 r]. cbn [fst].
  destruct (IH s1 (ss_server _ _ _ _ Hstep) (ss_streams _ _ _ _ Hstep)) as (H1 & H2 & H3). split_and!; [done..|]. rewrite H3. apply (ss_caps _ _ _ _ Hstep).
Qed.

Lemma run_sends i es : ∀ s, server_ok s → (∃ log lo, streams_ok s log lo) → cc_subscribed (conn_at s i) = true →
  Forall (λ st, cc_subscribed (conn_at st i) = true) (server_run es s).1 →
  ∃ x, cc_sent (conn_at (run_end es s) i) = cc_sent (conn_at s i) ++ x ∧
    x ++ owed (run_end es s) i = owed s i ++ lines_of (ks_write_cap s) (concat (zip_with accepted es (server_run es s).2)).
Proof.
  induction es as [|e es IH]; intros s Hok (log & lo & Hst) Hsub Hall; [exists []; change (run_end [] s) with s; cbn; by rewrite !app_nil_r|].
  rewrite run_end_cons. pose proof (step_streams e s log lo Hok Hst) as Hstep. cbn [server_run] in *. destruct (server_step e s) as [s1 r]. cbn [fst].
  pose proof (IH s1 (ss_server _ _ _ _ Hstep) (ss_streams _ _ _ _ Hstep)) as IH1. destruct (server_run es s1) as [ss rs]. cbn [fst snd] in *.
  apply Forall_cons in Hall as [Hsub1 Hall]. destruct (ss_sends _ _ _ _ Hstep i Hsub Hsub1) as (x & Hx & Hox). destruct (IH1 Hsub1 Hall) as (y & Hy & Hoy).
  destruct (ss_caps _ _ _ _ Hstep) as [Hcap _]. exists (x ++ y). rewrite Hy, Hx, <- app_assoc. split; [done|].
  cbn [zip_with concat]. by rewrite event_lines_app, <- app_assoc, Hoy, Hcap, app_assoc, Hox, <- app_assoc.
Qed.

(** A server as created, with or without a pool. *)
Definition created_server (max_connections read_cap write_cap bus_cap : Z) (pool : bool) (routes : list (route_slot W)) : kith_control W :=
  kith_control_attach_worker_pool pool (kith_control_create max_connections read_cap write_cap bus_cap routes).

Lemma created_ok max_connections read_cap write_cap bus_cap pool routes : 0 ≤ max_connections < 2 ^ 32 → 0 ≤ bus_cap ≤ 2 ^ 31 →
  server_ok (created_server max_connections read_cap write_cap bus_cap pool routes) ∧
  streams_ok (created_server max_connections read_cap write_cap bus_cap pool routes) [] 0.
Proof.
  intros Hm Hb. unfold created_server, kith_control_create. set (n := param_or max_connections _). set (k := param_or bus_cap _).
  assert (0 ≤ n < 2 ^ 32) as Hn by (unfold n, param_or; destruct (Z.eqb_spec max_connections 0); cbn; lia).
  assert (1 ≤ k ≤ 2 ^ 31) as Hk by (unfold k, param_or; destruct (Z.eqb_spec bus_cap 0); cbn; lia).
  assert (∀ i (c : control_conn W), replicate (Z.to_nat n) zero_conn !! i = Some c → c = zero_conn) as Hrep by (by intros i c [-> _]%lookup_replicate).
  split; [split|split]; cbn.
  - intros i c ->%Hrep. split; cbn; try done; try lia. by intros ?%not_elem_of_nil.
  - split; [constructor|]. by intros i ?%not_elem_of_nil.
  - by intros i c ->%Hrep.
  - unfold subscribed_count. rewrite filter_none; [done|]. by apply Forall_replicate.
  - unfold zlen. rewrite length_replicate. lia.
  - split; cbn; change (zlen []) with 0; rewrite ?Z.mod_0_l by lia; try done; [unfold zlen; rewrite length_replicate; lia|lia|].
    intros j Hj. lia.
  - by intros i c ->%Hrep.
Qed.

(** C8: After any history of connections, requests, worker tasks, flushes and
    publications: over any further events during which a stream stays
    attached, what it has been sent grows by exactly what it was owed and the
    lines of the events accepted meanwhile, in order, less what it is still
    owed - no event is lost, repeated, cut or reordered, however its socket
    takes the bytes and although events are reclaimed from a shared ring; and
    a stream that attaches is owed nothing from before. (Lines that do not fit
    the write buffer are left out.) *)
Theorem event_streams_exact max_connections read_cap write_cap bus_cap pool routes (es es' : list (server_event W)) (i : nat) :
  0 ≤ max_connections < 2 ^ 32 → 0 ≤ bus_cap ≤ 2 ^ 31 →
  let s := run_end es (created_server max_connections read_cap write_cap bus_cap pool routes) in
  (* a stream attached all along *)
  (cc_subscribed (conn_at s i) = true → Forall (λ st, cc_subscribed (conn_at st i) = true) (server_run es' s).1 →
   ∃ x, cc_sent (conn_at (run_end es' s) i) = cc_sent (conn_at s i) ++ x ∧
     x ++ owed (run_end es' s) i = owed s i ++ lines_of (ks_write_cap s) (concat (zip_with accepted es' (server_run es' s).2))) ∧
  (* a stream that attaches *)
  (∀ e, cc_subscribed (conn_at s i) = false → cc_subscribed (conn_at (server_step e s).1 i) = true → owed (server_step e s).1 i = []).
Proof.
  intros Hm Hb s. destruct (created_ok max_connections read_cap write_cap bus_cap pool routes Hm Hb) as [Hok Hst].
  destruct (server_run_ok es _ Hok) as (Hok' & (log & lo & Hst') & _); [by eexists _, _|]. fold s in Hok', Hst'. split.
  - intros Hsub Hall. apply run_sends; try done. by exists log, lo.
  - intros e. pose proof (step_streams e s log lo Hok' Hst') as Hstep. destruct (server_step e s) as [s1 r]. apply (ss_attached _ _ _ _ Hstep).
Qed.
(** *** What a worker reads *)

Lemma flush_unsubscribed writes log lo i js : ∀ s, server_ok s → streams_ok s log lo → cc_subscribed (conn_at s i) = false →
  conn_at (foldl (flush_conn writes) s js) i = conn_at s i.
Proof.
  induction js as [|j js IH]; intros s Hok Hst Hsub; cbn [foldl]; [done|].
  destruct (flush_conn_spec writes j s log lo Hok Hst) as (Hok1 & Hst1 & Ho1 & _). assert (conn_at (flush_conn writes s j) i = conn_at s i) as Hat.
  { destruct (decide (i = j)) as [->|Hne]; [|by apply (only_slot_at j)]. unfold flush_conn. rewrite Hsub. cbn. by rewrite orb_true_r. }
  rewrite IH; [done..|]. by rewrite Hat.
Qed.

Lemma dispatched_ready ev reads w submits writes writes' i s : (i < length (ks_conns s))%nat → state_of (conn_at s i) = DISPATCHING →
  let s' := control_conn_event_handler ev reads w submits writes writes' i s in s' = s ∨ s' = control_conn_close i s.
Proof.
  intros Hi Hst. unfold control_conn_event_handler. destruct (rd_err ev); [by right|]. rewrite Hst.
  rewrite (bool_decide_eq_true_2 (DISPATCHING = DISPATCHING)), (bool_decide_eq_false_2 (DISPATCHING = READING)) by done. cbn [negb]. rewrite !andb_false_r. left.
  destruct (cc_fd (conn_at s i) <? 0); [done|]. destruct (rd_out ev); [|done]. rewrite Hst.
  rewrite (bool_decide_eq_false_2 (DISPATCHING = RESPONDING)) by done. by rewrite Hst, andb_false_r.
Qed.

Lemma work_undisturbed e s log lo i : server_ok s → streams_ok s log lo → i ∈ ks_work s → i ∈ ks_work (server_step e s).1 →
  cc_parser (conn_at (server_step e s).1 i) = cc_parser (conn_at s i) ∧ cc_route (conn_at (server_step e s).1 i) = cc_route (conn_at s i).
Proof.
  intros Hok Hst Hin Hin'. destruct (tasked_slot s i Hok ltac:(set_solver)) as (c & Hc & Hat & Hi & Hs & Hsub). rewrite <- Hat in Hsub.
  destruct (so_task _ _ Hs I) as (Hu & Hd & _). rewrite <- Hat in Hu, Hd. destruct (vo_tasks _ Hok) as [(_ & Hdis & _)%NoDup_app _].
  destruct e as [script|j ev reads w submits writes writes'|j finalizing w|j writes|writes|ev]; cbn [server_step fst] in *.
  - destruct (accept_slots script s Hok) as (_ & _ & Huse & _). by rewrite Huse.
  - destruct (cc_watched (conn_at s j)) eqn:Hw; [|done]. destruct (decide (i = j)) as [<-|Hne].
    + destruct (dispatched_ready ev reads w submits writes writes' i s Hi Hd) as [->| ->]; [done|]. destruct (close_spec i s Hi) as (-> & _).
      unfold shut. by destruct (_ <? _).
    + destruct (ready_streams ev reads w submits writes writes' j s Hok) as (Ho & _); [by rewrite Hw|]. by rewrite (only_slot_at j s) by done.
  - case_bool_decide as Hj; [|done]. destruct (decide (i = j)) as [<-|Hne].
    + exfalso. unfold control_route_worker_task in Hin'. destruct finalizing; cbn in Hin'; by apply list_elem_of_filter in Hin' as [? _].
    + destruct (worker_streams finalizing w j s Hok Hj) as (Ho & _). by rewrite (only_slot_at j s) by done.
  - case_bool_decide as Hj; [|done]. destruct (decide (i = j)) as [<-|Hne]; [by destruct (Hdis i Hin)|].
    destruct (flush_task_streams writes j s Hok Hj) as (Ho & _). by rewrite (only_slot_at j s) by done.
  - unfold control_sse_flush. change (conn_at (control_bus_reclaim ?x) i) with (conn_at x i). by rewrite (flush_unsubscribed writes log lo).
  - by destruct (kith_control_publish_event ev (ks_bus s)) as [b rc].
Qed.

(** Open sockets are watched for input and nothing else: what [conn_register]
    adds to a watched socket is lost. *)
Lemma sockets_input_only max_connections read_cap write_cap bus_cap pool routes (es : list (server_event W)) i :
  0 ≤ max_connections < 2 ^ 32 → 0 ≤ bus_cap ≤ 2 ^ 31 →
  let s := run_end es (created_server max_connections read_cap write_cap bus_cap pool routes) in
  0 ≤ cc_fd (conn_at s i) → cc_watched (conn_at s i) = Some false.
Proof.
  intros Hm Hb s Hf. destruct (created_ok max_connections read_cap write_cap bus_cap pool routes Hm Hb) as [Hok0 Hst0].
  destruct (server_run_ok es _ Hok0) as (Hok & _); [by eexists _, _|]. unfold conn_at in *.
  destruct (ks_conns s !! i) as [c|] eqn:E; cbn in *; [|lia]. by destruct (so_open _ _ (vo_slots _ Hok _ _ E) Hf) as (_ & ? & _).
Qed.

(** C13: After any history of connections, requests, worker tasks, flushes and
    publications: no connection has two tasks in flight; one with a task keeps
    its slot and its buffers and stays in dispatch until the task has run,
    even when its socket is closed meanwhile; no event changes the request or
    the route a worker reads; every open socket has a slot in use with buffers
    and is registered with the reactor; a slot has buffers exactly while it is
    in use; and the count of streams is the number of attached ones. (At most
    2^32 - 1 connections and a ring of at most 2^31 records.) *)
Theorem control_slots_safe max_connections read_cap write_cap bus_cap pool routes (es : list (server_event W)) :
  0 ≤ max_connections < 2 ^ 32 → 0 ≤ bus_cap ≤ 2 ^ 31 →
  let s := run_end es (created_server max_connections read_cap write_cap bus_cap pool routes) in
  (* tasks *)
  NoDup (ks_work s ++ ks_flushes s) ∧
  (∀ i, i ∈ ks_work s ++ ks_flushes s → cc_in_use (conn_at s i) = true ∧ cc_buffers (conn_at s i) = true ∧ state_of (conn_at s i) = DISPATCHING) ∧
  (∀ i e, i ∈ ks_work s → i ∈ ks_work (server_step e s).1 →
     cc_parser (conn_at (server_step e s).1 i) = cc_parser (conn_at s i) ∧ cc_route (conn_at (server_step e s).1 i) = cc_route (conn_at s i)) ∧
  (* sockets *)
  (∀ i, 0 ≤ cc_fd (conn_at s i) → cc_in_use (conn_at s i) = true ∧ cc_buffers (conn_at s i) = true ∧ cc_watched (conn_at s i) ≠ None) ∧
  (∀ i, cc_buffers (conn_at s i) = cc_in_use (conn_at s i)) ∧
  (* streams *)
  ks_subscribers s = subscribed_count (ks_conns s).
Proof.
  intros Hm Hb s. destruct (created_ok max_connections read_cap write_cap bus_cap pool routes Hm Hb) as [Hok0 Hst0].
  destruct (server_run_ok es _ Hok0) as (Hok & (log & lo & Hst) & _); [by eexists _, _|]. fold s in Hok, Hst.
  assert (∀ i, conn_at s i = zero_conn ∨ slot_ok (i ∈ ks_work s ++ ks_flushes s) (conn_at s i)) as Hslot.
  { intros i. unfold conn_at. destruct (ks_conns s !! i) as [c|] eqn:E; [right; by apply (vo_slots _ Hok)|by left]. }
  split_and!; [apply Hok|..|apply Hok].
  - intros i Hin. destruct (tasked_slot s i Hok Hin) as (c & _ & -> & _ & Hs & _). destruct (so_task _ _ Hs I) as (Hu & Hd & _).
    by rewrite (so_buffers _ _ Hs).
  - intros i e Hin Hin'. by eapply work_undisturbed.
  - intros i Hf. destruct (Hslot i) as [E|Hs]; [rewrite E in Hf; cbn in Hf; lia|]. destruct (so_open _ _ Hs Hf) as (Hu & Hw & _).
    rewrite (so_buffers _ _ Hs), Hw. by split_and!.
  - intros i. destruct (Hslot i) as [->|Hs]; [done|apply Hs].
Qed.
(** *** Sockets that take what they are given *)

Lemma event_line_nonempty r : event_line r ≠ [].
Proof. done. Qed.

Lemma write_all n i (s : kith_control W) line : (i < length (ks_conns s))%nat → line ≠ [] → zlen line ≤ Z.of_nat n → streaming (conn_at s i) →
  let c := conn_at s i in
  let s1 := put i (with_write 0 (cc_sent c) (with_resp (set_text line (cc_resp c)) c)) s in
  conn_at (handle_write [Wrote n] i s1) i = with_state SSE (with_resp (set_text [] (cc_resp c)) (with_write 0 (cc_sent c ++ line) c)).
Proof.
  intros Hi Hne Hn (Hs & Hf & Hsub & Hst & Ht) c s1. unfold handle_write. assert (conn_at s1 i = with_write 0 (cc_sent c) (with_resp (set_text line (cc_resp c)) c)) as ->
    by (by apply conn_at_put). cbn [write_loop cc_write_pos with_write cc_resp with_resp rs_text set_text cc_sent].
  assert (0 < zlen line) as Hpos by (destruct line; [done|unfold zlen; cbn; lia]). rewrite (proj2 (Z.ltb_lt _ _) Hpos). cbn [drop Z.to_nat].
  change (drop (Z.to_nat 0) line) with line. rewrite take_ge by (unfold zlen in Hn; lia). cbn [write_loop cc_write_pos with_write cc_resp with_resp rs_text set_text].
  rewrite Z.add_0_l, Z.ltb_irrefl. cbn iota zeta. destruct (so_stream _ _ Hs Hsub) as [Hsse _]. fold c in Hsse, Hsub. cbn [rs_sse cc_resp with_write with_resp set_text]. rewrite Hsse.
  cbn [cc_subscribed with_state with_parser with_resp with_write]. rewrite Hsub. cbn [negb]. apply conn_at_put. cbn. by rewrite length_insert.
Qed.

Lemma streaming_sent x (c : control_conn W) : streaming c → streaming (with_state SSE (with_resp (set_text [] (cc_resp c)) (with_write 0 (cc_sent c ++ x) c))).
Proof.
  intros (Hs & Hf & Hsub & Hst & Ht). destruct Hs as [H1 H2 H3 H4 H5 H6 H7]. split_and!; try done. split; try done.
  - intros _. destruct (H2 Hf) as (? & ? & _). split_and!; [done..|set_solver].
  - cbn. lia.
  - intros _. destruct (H4 Hsub). split; [done|]. by left.
Qed.

(** The scripts of sockets that take a whole line at a time. *)
Definition takes_all (cap : Z) (ws : list (list write_result)) (n : nat) : Prop :=
  ∀ k, (k < n)%nat → ∃ room, ws !! k = Some [Wrote room] ∧ cap ≤ Z.of_nat room.

Lemma send_all i rs : ∀ ws at_cursor (s : kith_control W), (i < length (ks_conns s))%nat → streaming (conn_at s i) → takes_all (ks_write_cap s) ws (length rs) →
  let s' := send_records rs ws at_cursor i s in
  streaming (conn_at s' i) ∧ cc_cursor (conn_at s' i) = cc_cursor (conn_at s i) ∧
  cc_sent (conn_at s' i) = cc_sent (conn_at s i) ++ lines_of (ks_write_cap s) rs.
Proof.
  induction rs as [|r rs IH]; intros ws at_cursor s Hi Hstr Hws; cbn [send_records]; [by rewrite app_nil_r|]. rewrite event_lines_cons.
  destruct (Z.ltb_spec (zlen (event_line r)) (ks_write_cap s)) as [Hlt|Hge].
  - destruct (Hws 0%nat) as (room & Hw0 & Hroom); [cbn; lia|]. destruct ws as [|w0 ws]; [done|]. injection Hw0 as ->. cbn [head default tail id].
    pose proof (write_all room i s (event_line r) Hi (event_line_nonempty r) ltac:(lia) Hstr) as Hat. cbn zeta in Hat.
    pose proof Hstr as (Hs & Hf & Hsub & Hst & Ht). set (c := conn_at s i) in *. set (s1 := put i (with_write 0 _ _) s) in *.
    destruct (handle_write_spec [Wrote room] i s1) as (_ & Ho & _).
    { cbn. by rewrite length_insert. } { unfold s1. rewrite conn_at_put by done. cbn. split; [done|apply zlen_nonneg]. }
    set (s2 := handle_write [Wrote room] i s1) in *. rewrite Hat. rewrite (proj2 (Z.ltb_ge _ _)) by done. change (cc_write_pos _ <? _) with false. cbn iota.
    assert (ks_write_cap s2 = ks_write_cap s) as Hcap by (by destruct (os_caps _ _ _ Ho)).
    destruct (IH ws (u32w (at_cursor + 1)) s2) as (H1 & H2 & H3).
    + rewrite (os_len _ _ _ Ho). cbn. by rewrite length_insert.
    + rewrite Hat. by apply streaming_sent.
    + rewrite Hcap. intros k Hk. apply (Hws (S k)). cbn. lia.
    + rewrite Hat in *. split_and!; [done|done|]. rewrite H3, Hcap. cbn. by rewrite <- app_assoc.
  - apply IH; [done..|]. intros k Hk. destruct (Hws k) as (room & ? & ?); [cbn; lia|by exists room].
Qed.

Lemma flush_all_at writes log lo i js : NoDup js → i ∈ js → ∀ s : kith_control W, server_ok s → streams_ok s log lo →
  ∃ s1, conn_at s1 i = conn_at s i ∧ ks_bus s1 = ks_bus s ∧ ks_write_cap s1 = ks_write_cap s ∧ server_ok s1 ∧ streams_ok s1 log lo ∧
    conn_at (foldl (flush_conn writes) s js) i = conn_at (flush_conn writes s1 i) i.
Proof.
  induction 1 as [|j js Hj Hnd IH]; intros Hi s Hok Hst; [by apply not_elem_of_nil in Hi|]. cbn [foldl].
  destruct (flush_conn_spec writes j s log lo Hok Hst) as (Hok1 & Hst1 & Ho1 & _). destruct (decide (i = j)) as [->|Hne].
  - exists s. split_and!; try done. by destruct (flush_all writes log lo js Hnd _ Hok1 Hst1) as (_ & _ & _ & _ & Hsame & _); apply Hsame.
  - apply elem_of_cons in Hi as [?|Hi]; [done|]. destruct (IH Hi _ Hok1 Hst1) as (s1 & H1 & H2 & H3 & H4 & H5 & H6). exists s1.
    destruct (os_caps _ _ _ Ho1) as [Hcap _]. rewrite H1, H2, H3, (os_bus _ _ _ Ho1), Hcap, (only_slot_at j s) by done. done.
Qed.

Lemma flush_conn_takes writes i (s : kith_control W) log lo k : server_ok s → bus_ok (ks_bus s) log lo → lo ≤ k ≤ zlen log →
  cc_cursor (conn_at s i) = k mod eb_capacity (ks_bus s) → cc_in_use (conn_at s i) = true → cc_subscribed (conn_at s i) = true →
  state_of (conn_at s i) = SSE → takes_all (ks_write_cap s) (writes i) 16 →
  let c := conn_at (flush_conn writes s i) i in
  streaming c ∧ cc_cursor c = Z.min (k + 16) (zlen log) mod eb_capacity (ks_bus s) ∧
  cc_sent c = cc_sent (conn_at s i) ++ lines_of (ks_write_cap s) (take 16 (drop (Z.to_nat k) log)).
Proof.
  intros Hok Hb Hk Hck Hu Hsub Hsse Hws. destruct (flushable s i Hok Hu Hsub ltac:(congruence)) as (Hstr & Hc & Hi & _).
  unfold flush_conn. rewrite Hu, Hsub, Hsse, (bool_decide_eq_false_2 (SSE = WRITING)) by done. cbn [negb orb].
  rewrite Hck, (drain_spec _ _ _ Hb) by done. set (rs := take 16 (drop (Z.to_nat k) log)). set (cur := Z.min _ _ mod _). set (s1 := put i _ s).
  assert (conn_at s1 i = with_stream true cur (conn_at s i)) as Hat by (by apply conn_at_put).
  destruct (send_all i rs (writes i) (k mod eb_capacity (ks_bus s)) s1) as (H1 & H2 & H3).
  - cbn. by rewrite length_insert.
  - rewrite Hat. by apply streaming_cursor.
  - intros j Hj. apply Hws. unfold rs in Hj. rewrite length_take in Hj. lia.
  - rewrite Hat in H2, H3. done.
Qed.

Lemma flush_delivers writes i (s : kith_control W) log lo : server_ok s → streams_ok s log lo → cc_subscribed (conn_at s i) = true →
  state_of (conn_at s i) = SSE → takes_all (ks_write_cap s) (writes i) 16 →
  let s' := control_sse_flush writes s in
  cc_subscribed (conn_at s' i) = true ∧ state_of (conn_at s' i) = SSE ∧ unread s' i = drop 16 (unread s i) ∧
  cc_sent (conn_at s' i) = cc_sent (conn_at s i) ++ lines_of (ks_write_cap s) (take 16 (unread s i)).
Proof.
  intros Hok Hst Hsub Hsse Hws s'. assert (cc_in_use (conn_at s i) = true) as Hu.
  { unfold conn_at in *. destruct (ks_conns s !! i) as [c|] eqn:E; [|done]. cbn in *. pose proof (vo_slots _ Hok _ _ E) as Hs.
    destruct (decide (0 ≤ cc_fd c)) as [Hf|Hf]; [by apply (so_open _ _ Hs)|]. destruct (so_shut _ _ Hs ltac:(lia)) as (_ & ? & _). congruence. }
  destruct (flushable s i Hok Hu Hsub ltac:(congruence)) as (_ & Hc & _ & Hcount & _). pose proof Hst as [Hb Hcur]. destruct (Hcur i _ Hc Hsub) as (k & Hk & Hck).
  destruct (flush_all_at writes log lo i (seq 0 (ks_conn_count s)) (NoDup_seq _ _) ltac:(apply elem_of_seq; lia) s Hok Hst) as (s1 & Hat1 & Hbus1 & Hcap1 & Hok1 & [Hb1 _] & Hfl).
  destruct (flush_all writes log lo (seq 0 (ks_conn_count s)) (NoDup_seq _ _) s Hok Hst) as (Hok2 & Hst2 & _ & _ & _ & Hbus2 & _).
  set (s2 := foldl (flush_conn writes) s (seq 0 (ks_conn_count s))) in *. destruct (reclaim_spec s2 log lo Hok2 Hst2) as (lo' & [Hb' Hcur'] & Hcap' & _).
  destruct (flush_conn_takes writes i s1 log lo k) as (Hstr & Hcur2 & Hsent); rewrite ?Hat1, ?Hbus1, ?Hcap1; try done.
  rewrite <- Hfl, Hat1, Hbus1, Hcap1 in *. change (conn_at s' i) with (conn_at s2 i). pose proof Hstr as (_ & _ & Hsub2 & Hsse2 & _).
  rewrite (unread_at s log lo i k) by done. split_and!; [done|done| |done].
  assert (ks_conns s2 !! i = Some (conn_at s2 i)) as Hc2.
  { unfold conn_at in Hsub2 |- *. by destruct (ks_conns s2 !! i). }
  destruct (Hcur' i _ Hc2 Hsub2) as (k' & Hk' & Hck'). rewrite (unread_at s' log lo' i k') by done. rewrite Hcap', Hbus2, Hcur2 in Hck'.
  pose proof (bo_cap _ _ _ Hb). pose proof (bo_window _ _ _ Hb). pose proof (bo_window _ _ _ Hb') as Hwin'. rewrite Hcap', Hbus2 in Hwin'.
  apply mod_near in Hck'; [|lia|lia]. rewrite drop_drop. destruct (decide (k + 16 ≤ zlen log)); [f_equal; lia|].
  rewrite !drop_ge by (unfold zlen in *; lia). done.
Qed.

Lemma flushes_deliver writes i n : ∀ s : kith_control W, server_ok s → (∃ log lo, streams_ok s log lo) → cc_subscribed (conn_at s i) = true →
  state_of (conn_at s i) = SSE → takes_all (ks_write_cap s) (writes i) 16 →
  let s' := run_end (replicate n (StreamFlush writes)) s in
  cc_subscribed (conn_at s' i) = true ∧ state_of (conn_at s' i) = SSE ∧ unread s' i = drop (16 * n) (unread s i) ∧
  cc_sent (conn_at s' i) = cc_sent (conn_at s i) ++ lines_of (ks_write_cap s) (take (16 * n) (unread s i)).
Proof.
  induction n as [|n IH]; intros s Hok (log & lo & Hst) Hsub Hsse Hws.
  { cbn. by rewrite app_nil_r. }
  cbn [replicate]. rewrite run_end_cons. cbn [server_step fst]. destruct (flush_delivers writes i s log lo Hok Hst Hsub Hsse Hws) as (H1 & H2 & H3 & H4).
  pose proof (step_streams (StreamFlush writes) s log lo Hok Hst) as Hstep. cbn [server_step] in Hstep. set (s1 := control_sse_flush writes s) in *.
  destruct (ss_caps _ _ _ _ Hstep) as [Hcap _]. destruct (IH s1 (ss_server _ _ _ _ Hstep) (ss_streams _ _ _ _ Hstep) H1 H2) as (K1 & K2 & K3 & K4); [by rewrite Hcap|].
  split_and!; [done|done| |].
  - rewrite K3, H3, drop_drop. f_equal. lia.
  - rewrite K4, H4, H3, Hcap, <- app_assoc, <- event_lines_app. do 2 f_equal. rewrite take_take_drop. f_equal. lia.
Qed.

Lemma idle_text (s : kith_control W) i : server_ok s → cc_subscribed (conn_at s i) = true → state_of (conn_at s i) = SSE →
  rs_text (cc_resp (conn_at s i)) = [].
Proof.
  intros Hok Hsub Hsse. unfold conn_at in *. destruct (ks_conns s !! i) as [c|] eqn:E; [|done]. cbn in *. pose proof (vo_slots _ Hok _ _ E) as Hs.
  destruct (so_stream _ _ Hs Hsub) as [_ [(_ & ? & _)|?]]; congruence.
Qed.

Lemma drained_length n cursor b : (length (control_event_bus_drain n cursor b).1 ≤ n)%nat.
Proof.
  revert cursor. induction n as [|n IH]; intros cursor; cbn [control_event_bus_drain]; [done|]. case_match; [cbn; lia|].
  match goal with |- context [control_event_bus_drain n ?c b] => pose proof (IH c); destruct (control_event_bus_drain n c b) end. cbn in *. lia.
Qed.

(** C27: A stream that has no line half written (its connection is between two
    lines, in state SSE) and whose socket takes each line in one write is sent
    its next sixteen events by every pass over the streams, stays attached,
    and has been sent everything it was owed once the passes reach the ring's
    capacity. (At most 2^32 - 1 connections and a ring of at most 2^31
    records.) *)
Theorem event_streams_deliver max_connections read_cap write_cap bus_cap pool routes (es : list (server_event W)) writes (i n : nat) :
  0 ≤ max_connections < 2 ^ 32 → 0 ≤ bus_cap ≤ 2 ^ 31 →
  let s := run_end es (created_server max_connections read_cap write_cap bus_cap pool routes) in
  let s' := run_end (replicate n (StreamFlush writes)) s in
  cc_subscribed (conn_at s i) = true → state_of (conn_at s i) = SSE → takes_all (ks_write_cap s) (writes i) 16 →
  cc_subscribed (conn_at s' i) = true ∧
  cc_sent (conn_at s' i) = cc_sent (conn_at s i) ++ lines_of (ks_write_cap s) (take (16 * n) (unread s i)) ∧
  (eb_capacity (ks_bus s) ≤ 16 * Z.of_nat n → cc_sent (conn_at s' i) = cc_sent (conn_at s i) ++ owed s i ∧ owed s' i = []).
Proof.
  intros Hm Hb s s' Hsub Hsse Hws. destruct (created_ok max_connections read_cap write_cap bus_cap pool routes Hm Hb) as [Hok Hst].
  destruct (server_run_ok es _ Hok) as (Hok' & Hst' & _); [by eexists _, _|]. fold s in Hok', Hst'.
  destruct (flushes_deliver writes i n s Hok' Hst' Hsub Hsse Hws) as (H1 & H2 & H3 & H4). fold s' in H1, H2, H3, H4.
  destruct (server_run_ok (replicate n (StreamFlush writes)) s Hok' Hst') as (Hok2 & _ & Hcap2). fold s' in Hok2, Hcap2. split_and!; [done..|]. intros Hn.
  assert (length (unread s i) ≤ 16 * n)%nat as Hlen by (pose proof (drained_length (Z.to_nat (eb_capacity (ks_bus s))) (cc_cursor (conn_at s i)) (ks_bus s)); unfold unread; lia).
  unfold owed. rewrite H3, H4, (pending_nil (conn_at s i)), (pending_nil (conn_at s' i)) by (by apply idle_text). rewrite take_ge, drop_ge by done. done.
Qed.
End Created.
