(* ===== verification/ControlWire.v ===== *)
(** * Requests and replies of the control plane, end to end

    A request's bytes reach the server in any number of reads; the route that
    serves it sees exactly the request, and what it answers is what the client
    of [kith.testing] reads. *)

From S2P Require Import Prelude PyStruct PyText PyWire Proto CWords Roster RosterTheorems ServerControl ServerControlTheorems.
From S2P Require Import HttpParser ControlServer ControlTheorems.

#[local] Open Scope Z_scope.

(** ** Reading *)

Section Reading.
Context {W : Type}.

Lemma with_parser_id (c : control_conn W) : with_parser (cc_parser c) c = c.
Proof. by destruct c. Qed.

Lemma put_id i (s : kith_control W) : (i < length (ks_conns s))%nat → put i (conn_at s i) s = s.
Proof.
  intros Hi. destruct (lookup_lt_is_Some_2 _ _ Hi) as [c Hc]. unfold put, conn_at. rewrite Hc. cbn. rewrite list_insert_id by done. by destruct s.
Qed.

Lemma with_parser_twice p p' (c : control_conn W) : with_parser p (with_parser p' c) = with_parser p c.
Proof. done. Qed.

(** The part of a request that has arrived. *)
Definition arrived (r : http_request) (n : nat) (c : control_conn W) : Prop :=
  reading (cc_parser c) (take n (request_text r)) ∧ zlen (request_text r) ≤ hp_cap (cc_parser c) ∧ (n < length (request_text r))%nat.

(** One read of a chunk within a request. *)
Lemma read_chunk r n chunk reads w submits writes i (s : kith_control W) : http_ok r → (i < length (ks_conns s))%nat → arrived r n (conn_at s i) →
  chunk ≠ [] → (∃ more, drop n (request_text r) = chunk ++ more) →
  ∃ p, hp_cap p = hp_cap (cc_parser (conn_at s i)) ∧
  let s1 := put i (with_parser p (conn_at s i)) s in
  handle_read (ReadData chunk :: reads) w submits writes i s =
  (if (n + length chunk <? length (request_text r))%nat then handle_read reads w submits writes i s1
   else let s2 := handle_respond w submits i s1 in
        if (0 <=? cc_fd (conn_at s2 i)) && bool_decide (state_of (conn_at s2 i) = WRITING) then arm_if_writing i (handle_write writes i s2) else s2) ∧
  (if (n + length chunk <? length (request_text r))%nat then arrived r (n + length chunk) (with_parser p (conn_at s i)) else parsed r p).
Proof.
  intros Hok Hi ((Hst & Hbuf & Hsc) & Hcap & Hn) Hne [more Hmore]. set (c := conn_at s i) in *.
  assert (length (drop n (request_text r)) = length chunk + length more)%nat as Hlen by (by rewrite Hmore, length_app). rewrite length_drop in Hlen.
  assert (0 < length chunk)%nat as Hpos by (by destruct chunk; [|cbn; lia]).
  assert (zlen (hp_buf (cc_parser c)) = Z.of_nat n) as Hzn by (rewrite Hbuf; unfold zlen; rewrite length_take; lia).
  assert (take (n + length chunk) (request_text r) = take n (request_text r) ++ chunk) as Htake.
  { rewrite <- take_take_drop, Hmore, take_app_length. done. }
  cbn [handle_read]. fold c. rewrite Hzn. unfold zlen in Hcap. rewrite (proj2 (Z.eqb_neq _ _)) by lia.
  rewrite (take_ge chunk) by lia. rewrite bool_decide_eq_false_2 by lia.
  set (p0 := append_read chunk (cc_parser c)). assert (reading p0 (take (n + length chunk) (request_text r))) as Hr0.
  { split_and!; [done| |done]. by rewrite Htake, <- Hbuf. }
  destruct (Nat.ltb_spec (n + length chunk) (length (request_text r))) as [Hlt|Hge].
  - destruct (consume_cut r p0 (n + length chunk) Hok Hlt Hr0) as (p & -> & Hp & Hpc).
    { destruct Hr0 as (_ & -> & _). unfold zlen. rewrite length_take. cbn. lia. }
    exists p. split; [done|]. split; [done|]. split; [done|]. split; [|done]. cbn [cc_parser with_parser]. rewrite Hpc. done.
  - rewrite take_ge, <- (app_nil_r (request_text r)) in Hr0 by lia. destruct (consume_whole r p0 [] Hok Hr0) as (p & -> & Hp & Hpc).
    exists p. split_and!; done.
Qed.

Lemma reads_wait r chunks : ∀ n w submits writes i (s : kith_control W), http_ok r → (i < length (ks_conns s))%nat → arrived r n (conn_at s i) →
  Forall (λ l, l ≠ []) chunks → (∃ more, more ≠ [] ∧ drop n (request_text r) = concat chunks ++ more) →
  ∃ p, handle_read (ReadData <$> chunks) w submits writes i s = put i (with_parser p (conn_at s i)) s ∧
    arrived r (n + length (concat chunks)) (with_parser p (conn_at s i)).
Proof.
  induction chunks as [|chunk chunks IH]; intros n w submits writes i s Hok Hi Ha Hne (more & Hm & Hmore).
  - exists (cc_parser (conn_at s i)). rewrite with_parser_id, put_id by done. rewrite Nat.add_0_r. split; [|done]. cbn.
    destruct Ha as ((_ & Hbuf & _) & Hcap & Hn). rewrite Hbuf. unfold zlen in *. rewrite length_take, (proj2 (Z.eqb_neq _ _)) by lia. done.
  - apply Forall_cons in Hne as [Hc Hne]. cbn [concat] in Hmore. rewrite <- app_assoc in Hmore.
    destruct (read_chunk r n chunk (ReadData <$> chunks) w submits writes i s Hok Hi Ha Hc ltac:(by eexists)) as (p & Hpc & Heq & Hp).
    assert (length (drop n (request_text r)) = length chunk + (length (concat chunks) + length more))%nat as Hlen by (by rewrite Hmore, !length_app).
    rewrite length_drop in Hlen. assert (0 < length more)%nat by (by destruct more; [|cbn; lia]).
    rewrite (proj2 (Nat.ltb_lt _ _)) in Heq, Hp by lia. cbn [fmap list_fmap]. rewrite Heq.
    set (s1 := put i (with_parser p (conn_at s i)) s). assert (conn_at s1 i = with_parser p (conn_at s i)) as Hat by (by apply conn_at_put).
    destruct (IH (n + length chunk)%nat w submits writes i s1) as (p' & -> & Ha').
    + done.
    + cbn. by rewrite length_insert.
    + by rewrite Hat.
    + done.
    + exists more. split; [done|]. rewrite <- drop_drop, Hmore. apply drop_app_length.
    + rewrite Hat in *. exists p'. unfold s1. rewrite put_put. split; [done|]. cbn [concat]. rewrite length_app, Nat.add_assoc. done.
Qed.
(** *** The request as the server sees it *)

Definition view_of (r : http_request) : request_view :=
  mkView (method_of (hr_method r)) (c_string (hr_path r)) (headers_of (hr_lines r)) (match declared r with Some _ => Some (hr_body r) | None => None end).

Definition route_for (routes : list (route_slot W)) (r : http_request) : option (route_slot W) :=
  find (λ rt, bool_decide (sl_method rt = method_string (method_of (hr_method r))) && match_path (path_text (sl_path rt)) (path_text (hr_path r))) routes.

Definition upgrades (r : http_request) : bool :=
  match find_header (ascii "upgrade") (headers_of (hr_lines r)) with Some u => ci_equal u (ascii "websocket") 10 | None => false end.

(** What the server answers on the reactor: a route bound from C answers by
    itself, and a request without a route is not found. *)
Definition answer_of (routes : list (route_slot W)) (r : http_request) (w : W) (cap : Z) : option response :=
  let empty := mkResponse [] cap false in
  if upgrades r then Some (control_router_write_501 empty) else
  match route_for routes r with
  | None => Some (control_router_write_404 empty)
  | Some rt => if sl_python rt then None else
      let '(resp, rc) := sl_handler rt w (view_of r) empty in if rc =? 0 then Some resp else None
  end.

Lemma respond_answers r p w submits i (s : kith_control W) resp : (i < length (ks_conns s))%nat → cc_parser (conn_at s i) = p → parsed r p →
  answer_of (ks_routes s) r w (rs_cap (cc_resp (conn_at s i))) = Some resp →
  handle_respond w submits i s = put i (with_state WRITING (with_resp resp (with_write 0 (cc_sent (conn_at s i)) (conn_at s i)))) s.
Proof.
  intros Hi Hp (_ & Hm & Hpath & Hh & Hb). unfold answer_of, handle_respond, wants_websocket, find_header_value, upgrades, control_router_dispatch, router_match.
  cbn [cc_parser with_write with_resp cc_resp rs_cap]. rewrite Hp, Hh, Hm, Hpath. fold (route_for (ks_routes s) r).
  assert (build_request p = view_of r) as -> by (unfold build_request, view_of; by rewrite Hm, Hpath, Hh, Hb).
  set (ws := match find_header _ _ with Some _ => _ | None => _ end). destruct ws; [by intros [= <-]|].
  destruct (route_for (ks_routes s) r) as [rt|]; [|by intros [= <-]]. destruct (sl_python rt); [done|].
  destruct (sl_handler rt w (view_of r) _) as [resp' rc]. destruct (rc =? 0); [|done]. intros [= <-]. done.
Qed.

(** *** A socket that takes everything, in pieces *)

Lemma write_loop_drains ns : ∀ c : control_conn W, 0 ≤ cc_write_pos c ≤ zlen (rs_text (cc_resp c)) →
  zlen (rs_text (cc_resp c)) - cc_write_pos c ≤ Z.of_nat (sum_list ns) →
  write_loop (Wrote <$> ns) c =
    (with_write (zlen (rs_text (cc_resp c))) (cc_sent c ++ drop (Z.to_nat (cc_write_pos c)) (rs_text (cc_resp c))) c, Drained).
Proof.
  induction ns as [|n ns IH]; intros c Hpos Hsum; cbn [fmap list_fmap write_loop].
  - cbn in Hsum. rewrite (proj2 (Z.ltb_ge _ _)) by lia. rewrite drop_ge, app_nil_r by (unfold zlen in *; lia).
    assert (zlen (rs_text (cc_resp c)) = cc_write_pos c) as -> by lia. by destruct c.
  - destruct (Z.ltb_spec (cc_write_pos c) (zlen (rs_text (cc_resp c)))) as [Hlt|Hge].
    + set (rest := drop (Z.to_nat (cc_write_pos c)) (rs_text (cc_resp c))). cbn in Hsum.
      assert (zlen rest = zlen (rs_text (cc_resp c)) - cc_write_pos c) as Hr by (unfold rest, zlen in *; rewrite length_drop; lia).
      assert (zlen (take n rest) = Z.min (Z.of_nat n) (zlen rest)) as Ht by (unfold zlen; rewrite length_take; lia).
      rewrite IH; cbn [cc_write_pos cc_resp with_write cc_sent]; [|lia|lia].
      match goal with |- (with_write _ ?x _, _) = (with_write _ ?y _, _) => enough (x = y) as -> by done end. rewrite <- app_assoc. f_equal.
      rewrite Z2Nat.inj_add by lia. rewrite <- drop_drop. fold rest. transitivity (take n rest ++ drop n rest); [|apply take_drop]. f_equal.
      unfold zlen in *. destruct (decide (n ≤ length rest)%nat); [f_equal; lia|]. rewrite !drop_ge by lia. done.
    + rewrite drop_ge, app_nil_r by (unfold zlen in *; lia). assert (zlen (rs_text (cc_resp c)) = cc_write_pos c) as -> by lia. by destruct c.
Qed.

Lemma write_answers ns i (s : kith_control W) : (i < length (ks_conns s))%nat → cc_write_pos (conn_at s i) = 0 → 0 ≤ cc_fd (conn_at s i) →
  rs_sse (cc_resp (conn_at s i)) = false → state_of (conn_at s i) = WRITING →
  zlen (rs_text (cc_resp (conn_at s i))) ≤ Z.of_nat (sum_list ns) →
  let c := conn_at (arm_if_writing i (handle_write (Wrote <$> ns) i s)) i in
  cc_sent c = cc_sent (conn_at s i) ++ rs_text (cc_resp (conn_at s i)) ∧ cc_fd c = -1 ∧ cc_in_use c = false.
Proof.
  intros Hi Hpos Hfd Hsse Hst Hsum. unfold handle_write. rewrite write_loop_drains by (rewrite Hpos; pose proof (zlen_nonneg (rs_text (cc_resp (conn_at s i)))); lia).
  cbn [cc_resp with_write]. rewrite Hsse, Hpos, drop_0. set (c := conn_at s i) in *. set (c1 := with_write _ _ c). set (s1 := put i c1 s).
  assert (conn_at s1 i = c1) as Hat by (by apply conn_at_put). assert (i < length (ks_conns s1))%nat as Hi1 by (cbn; by rewrite length_insert).
  assert (cc_sent (conn_at (control_conn_close i s1) i) = cc_sent c1 ∧ cc_fd (conn_at (control_conn_close i s1) i) = -1 ∧
    cc_in_use (conn_at (control_conn_close i s1) i) = false) as Hc.
  { unfold control_conn_close. rewrite Hat. change (cc_fd c1) with (cc_fd c). rewrite (proj2 (Z.ltb_ge _ _)) by done. unfold state_of in *.
    cbn [cc_subscribed with_watched with_socket c1 with_write]. destruct (cc_subscribed c); cbn [cc_parser with_stream with_watched with_socket with_write c1];
      rewrite Hst, bool_decide_eq_false_2, conn_at_put by done; done. }
  destruct Hc as (H1 & H2 & H3). unfold arm_if_writing. rewrite H2. change (0 <=? -1) with false. cbn [andb]. by rewrite H1, H2, H3.
Qed.

(** *** Requests that arrive in pieces *)

(** Readable: the chunks that can be read before the socket would block. *)
Definition readable (i : nat) (w : W) (submits : bool) (ns : list nat) (chunks : list bytes) : server_event W :=
  Ready i (mkReady false false true false) (ReadData <$> chunks) w submits (Wrote <$> ns) [].

Lemma readable_step i w submits ns chunks (s : kith_control W) : cc_watched (conn_at s i) ≠ None → state_of (conn_at s i) = READING →
  (server_step (readable i w submits ns chunks) s).1 = handle_read (ReadData <$> chunks) w submits (Wrote <$> ns) i s.
Proof.
  intros Hw Hst. unfold readable. cbn [server_step fst]. destruct (cc_watched (conn_at s i)); [|done].
  unfold control_conn_event_handler. cbn [rd_err rd_hup rd_in rd_out]. rewrite Hst, (bool_decide_eq_true_2 (READING = READING)) by done. cbn [andb]. by destruct (_ <? 0).
Qed.

Lemma batches_wait r w submits ns batches : ∀ n i (s : kith_control W), http_ok r → (i < length (ks_conns s))%nat → cc_watched (conn_at s i) ≠ None →
  arrived r n (conn_at s i) → Forall (Forall (λ l, l ≠ [])) batches → (∃ more, more ≠ [] ∧ drop n (request_text r) = concat (concat batches) ++ more) →
  ∃ p, run_end (readable i w submits ns <$> batches) s = put i (with_parser p (conn_at s i)) s ∧
    arrived r (n + length (concat (concat batches))) (with_parser p (conn_at s i)).
Proof.
  induction batches as [|b batches IH]; intros n i s Hok Hi Hw Ha Hne (more & Hm & Hmore).
  { exists (cc_parser (conn_at s i)). rewrite with_parser_id, put_id by done. by rewrite Nat.add_0_r. }
  apply Forall_cons in Hne as [Hb Hne]. cbn [concat fmap list_fmap] in *. rewrite concat_app, <- app_assoc in Hmore.
  rewrite run_end_cons, readable_step by (done || apply Ha).
  destruct (reads_wait r b n w submits (Wrote <$> ns) i s Hok Hi Ha Hb) as (p & -> & Ha1).
  { eexists. split; [|exact Hmore]. intros [_ ?]%app_eq_nil. done. }
  set (s1 := put i (with_parser p (conn_at s i)) s). assert (conn_at s1 i = with_parser p (conn_at s i)) as Hat by (by apply conn_at_put).
  destruct (IH (n + length (concat b))%nat i s1) as (p' & -> & Ha'); [done|cbn; by rewrite length_insert|by rewrite Hat|by rewrite Hat|done| |].
  { exists more. split; [done|]. rewrite <- drop_drop, Hmore. apply drop_app_length. }
  rewrite Hat in *. exists p'. unfold s1. rewrite put_put. split; [done|]. rewrite concat_app, length_app, Nat.add_assoc. done.
Qed.

Lemma reads_answer r resp w submits ns chunks : ∀ n i (s : kith_control W), http_ok r → (i < length (ks_conns s))%nat → 0 ≤ cc_fd (conn_at s i) →
  arrived r n (conn_at s i) → Forall (λ l, l ≠ []) chunks → drop n (request_text r) = concat chunks →
  answer_of (ks_routes s) r w (rs_cap (cc_resp (conn_at s i))) = Some resp → rs_sse resp = false → zlen (rs_text resp) ≤ Z.of_nat (sum_list ns) →
  let c := conn_at (handle_read (ReadData <$> chunks) w submits (Wrote <$> ns) i s) i in
  cc_sent c = cc_sent (conn_at s i) ++ rs_text resp ∧ cc_fd c = -1 ∧ cc_in_use c = false.
Proof.
  induction chunks as [|chunk chunks IH]; intros n i s Hok Hi Hfd Ha Hne Hall Hans Hsse Hsum.
  { apply (f_equal length) in Hall. rewrite length_drop in Hall. change (length (concat [])) with 0%nat in Hall. destruct Ha as (_ & _ & Hn). lia. }
  apply Forall_cons in Hne as [Hc Hne]. cbn [concat fmap list_fmap] in *.
  destruct (read_chunk r n chunk (ReadData <$> chunks) w submits (Wrote <$> ns) i s Hok Hi Ha Hc ltac:(by eexists)) as (p & Hpc & Heq & Hp).
  assert (length (drop n (request_text r)) = length chunk + length (concat chunks))%nat as Hlen by (by rewrite Hall, length_app). rewrite length_drop in Hlen.
  set (s1 := put i (with_parser p (conn_at s i)) s) in *. assert (conn_at s1 i = with_parser p (conn_at s i)) as Hat by (by apply conn_at_put).
  assert (i < length (ks_conns s1))%nat as Hi1 by (cbn; by rewrite length_insert). cbn zeta in Heq. rewrite Heq.
  destruct (Nat.ltb_spec (n + length chunk) (length (request_text r))) as [Hlt|Hge].
  - destruct (IH (n + length chunk)%nat i s1) as (H1 & H2 & H3); rewrite ?Hat; try done.
    { rewrite <- drop_drop, Hall. apply drop_app_length. } rewrite Hat in H1. done.
  - rewrite (respond_answers r p w submits i s1 resp) by (rewrite ?Hat; done). rewrite Hat. set (c2 := with_state _ _). set (s2 := put i c2 s1).
    assert (conn_at s2 i = c2) as Hat2 by (by apply conn_at_put). rewrite Hat2. rewrite (proj2 (Z.leb_le _ _)) by done.
    rewrite bool_decide_eq_true_2 by done. cbn [andb]. destruct (write_answers ns i s2) as (H1 & H2 & H3); rewrite ?Hat2; try done.
    { cbn. by rewrite !length_insert. } rewrite Hat2 in H1. done.
Qed.

(** A request is waited for until its last byte has arrived, then answered
    whole, and the connection closed. *)
Lemma request_served r (s : kith_control W) i w submits ns batches chunks resp : http_ok r → (i < length (ks_conns s))%nat →
  reading (cc_parser (conn_at s i)) [] → zlen (request_text r) ≤ hp_cap (cc_parser (conn_at s i)) →
  0 ≤ cc_fd (conn_at s i) → cc_watched (conn_at s i) ≠ None →
  Forall (Forall (λ l, l ≠ [])) batches → Forall (λ l, l ≠ []) chunks → chunks ≠ [] → concat (concat batches) ++ concat chunks = request_text r →
  answer_of (ks_routes s) r w (rs_cap (cc_resp (conn_at s i))) = Some resp → rs_sse resp = false → zlen (rs_text resp) ≤ Z.of_nat (sum_list ns) →
  let s1 := run_end (readable i w submits ns <$> batches) s in
  reading (cc_parser (conn_at s1 i)) (concat (concat batches)) ∧ cc_sent (conn_at s1 i) = cc_sent (conn_at s i) ∧ only_slot i s s1 ∧
  let s2 := (server_step (readable i w submits ns chunks) s1).1 in
  cc_sent (conn_at s2 i) = cc_sent (conn_at s i) ++ rs_text resp ∧ cc_fd (conn_at s2 i) = -1 ∧ cc_in_use (conn_at s2 i) = false.
Proof.
  intros Hok Hi Hr Hcap Hfd Hw Hb Hc Hne Htext Hans Hsse Hsum s1.
  assert (concat chunks ≠ []) as Hmore. { destruct chunks as [|l ls]; [done|]. apply Forall_cons in Hc as [Hl _]. cbn. by intros [? _]%app_eq_nil. }
  assert (arrived r 0 (conn_at s i)) as Ha0.
  { split_and!; [exact Hr|done|]. rewrite <- Htext, length_app. destruct (concat chunks); [done|cbn; lia]. }
  destruct (batches_wait r w submits ns batches 0 i s Hok Hi Hw Ha0 Hb) as (p & Hrun & Ha1).
  { exists (concat chunks). by rewrite drop_0. }
  fold s1 in Hrun. assert (conn_at s1 i = with_parser p (conn_at s i)) as Hat by (rewrite Hrun; by apply conn_at_put).
  pose proof Ha1 as ((Hst & Hbuf & Hsc) & _). rewrite Nat.add_0_l, <- Htext, take_app_length in Hbuf. rewrite Hat. split_and!; try done.
  { rewrite Hrun. apply put_only. done. }
  rewrite readable_step by (rewrite Hat; done).
  destruct (reads_answer r resp w submits ns chunks (0 + length (concat (concat batches))) i s1) as (H1 & H2 & H3); rewrite ?Hat; try done.
  - rewrite Hrun. cbn. by rewrite length_insert.
  - rewrite <- Htext. apply drop_app_length.
  - by rewrite Hrun.
  - by rewrite Hat in H1.
Qed.
End Reading.

(** ** Text on the wire *)

Definition enc (s : pystr) : bytes := Z_to_byte <$> s.

(** Characters Latin-1 has, without line ends. *)
Definition on_a_line (s : pystr) : Prop := Forall (λ c, 0 ≤ c < 256 ∧ c ≠ 13 ∧ c ≠ 10) s.

Lemma enc_app s t : enc (s ++ t) = enc s ++ enc t.
Proof. apply fmap_app. Qed.

Lemma enc_elem b s : Forall (λ c, 0 ≤ c < 256) s → b ∈ enc s → byte_to_Z b ∈ s.
Proof.
  intros Hs (c & -> & Hc)%list_elem_of_fmap. rewrite byte_to_Z_to_byte, Z.mod_small; [done|]. rewrite Forall_forall in Hs. by apply Hs.
Qed.

Lemma enc_not b s : Forall (λ c, 0 ≤ c < 256) s → byte_to_Z b ∉ s → b ∉ enc s.
Proof. intros Hs Hb Hin. apply Hb. by apply enc_elem. Qed.

Lemma latin1_enc s : Forall (λ c, 0 ≤ c < 256) s → latin1 (enc s) = s.
Proof.
  intros Hs. unfold latin1, enc. rewrite <- list_fmap_compose. rewrite <- (list_fmap_id s) at 2. apply list_fmap_ext. intros i c Hc.
  change (byte_to_Z (Z_to_byte c) = c). rewrite byte_to_Z_to_byte, Z.mod_small; [done|]. rewrite Forall_forall in Hs. apply Hs. by eapply list_elem_of_lookup_2.
Qed.

Lemma latin1_app a b : latin1 (a ++ b) = latin1 a ++ latin1 b.
Proof. apply fmap_app. Qed.

Lemma on_a_line_chars s : on_a_line s → Forall (λ c, 0 ≤ c < 256) s.
Proof. intros H. eapply Forall_impl; [exact H|]. by intros c [? _]. Qed.

Lemma on_a_line_not s : on_a_line s → (13 ∉ s) ∧ (10 ∉ s).
Proof. unfold on_a_line. rewrite Forall_forall. intros H. split; intros Hin; apply H in Hin; lia. Qed.

Lemma on_a_line_app s t : on_a_line s → on_a_line t → on_a_line (s ++ t).
Proof. intros. by apply Forall_app. Qed.

(** Closed text. *)
Definition is_plain (c : Z) : bool := (0 <=? c) && (c <? 256) && negb (c =? 13) && negb (c =? 10).

Lemma plain_line s : forallb is_plain s = true → on_a_line s.
Proof.
  rewrite forallb_forall. unfold on_a_line. rewrite Forall_forall. intros H c Hc. apply list_elem_of_In, H in Hc. unfold is_plain in Hc. lia.
Qed.

Lemma line_clean s : on_a_line s → s ≠ [] → clean (enc s).
Proof.
  intros Hs Hne. destruct (on_a_line_not s Hs). apply on_a_line_chars in Hs. split_and!; [by destruct s|by apply enc_not..].
Qed.

(** *** Numbers *)

Definition number (n : Z) : pystr := digit_char <$> digits n.

Lemma number_chars n : 0 ≤ n → Forall (λ c, 48 ≤ c ≤ 57) (number n).
Proof. intros Hn. apply Forall_fmap. eapply Forall_impl; [by apply digits_ok|]. intros d Hd. unfold compose, digit_char, digit_ok in *. lia. Qed.

Lemma number_line n : 0 ≤ n → on_a_line (number n).
Proof. intros Hn. eapply Forall_impl; [by apply number_chars|]. cbn. lia. Qed.

Lemma number_nonempty n : number n ≠ [].
Proof. intros H%fmap_nil_inv. by apply digits_nonempty in H. Qed.

Lemma number_short n : 0 ≤ n < 10 ^ 7 → (length (number n) ≤ 7)%nat.
Proof. intros Hn. unfold number. rewrite length_fmap. apply length_digits_fuel; [lia|]. change (Z.of_nat 7) with 7. lia. Qed.

Lemma dec_number n : 0 ≤ n → dec n = enc (number n).
Proof. intros Hn. unfold dec. rewrite (proj2 (Z.ltb_ge _ _)), Z.abs_eq by done. done. Qed.

(** The server reads back the length the client writes. *)
Lemma content_digits_number ds : Forall digit_ok ds → ∀ acc, 0 ≤ acc → foldl (λ a d, a * 10 + d) acc ds < 2 ^ 32 →
  acc ≤ foldl (λ a d, a * 10 + d) acc ds ∧ content_digits (enc (digit_char <$> ds)) acc = Some (foldl (λ a d, a * 10 + d) acc ds).
Proof.
  induction 1 as [|d ds Hd _ IH]; intros acc Hacc Hlt; [done|]. cbn [foldl] in *. unfold digit_ok in Hd. destruct (IH (acc * 10 + d) ltac:(lia) Hlt) as [Hle Heq].
  split; [lia|]. cbn [fmap list_fmap enc content_digits].
  assert (byte_to_Z (Z_to_byte (digit_char d)) = 48 + d) as Hb by (rewrite byte_to_Z_to_byte; unfold digit_char; apply Z.mod_small; lia).
  rewrite Hb. unfold is_digit. rewrite (proj2 (Z.leb_le 48 _)), (proj2 (Z.leb_le _ 57)) by lia. cbn [andb].
  rewrite (proj2 (Z.leb_gt _ (acc * 10))) by lia. replace (acc * 10 + (48 + d - 48)) with (acc * 10 + d) by lia. rewrite (proj2 (Z.leb_gt _ _)) by lia. exact Heq.
Qed.

Lemma content_length_number n : 0 ≤ n < 2 ^ 32 → parse_content_length (enc (number n)) = Some n.
Proof.
  intros Hn. pose proof (of_digits_digits n ltac:(lia)) as Hd. unfold of_digits in Hd.
  destruct (content_digits_number (digits n) (digits_ok n ltac:(lia)) 0 ltac:(lia) ltac:(lia)) as [_ Heq]. rewrite Hd in Heq.
  pose proof (number_chars n ltac:(lia)) as Hc. unfold parse_content_length. unfold number in *. destruct (digit_char <$> digits n) as [|c s] eqn:E.
  { by destruct (number_nonempty n). } apply Forall_cons in Hc as [Hc _]. cbn [enc fmap list_fmap]. rewrite byte_to_Z_to_byte, Z.mod_small by lia.
  unfold is_digit at 1. rewrite (proj2 (Z.leb_le 48 _)), (proj2 (Z.leb_le _ 57)) by lia. exact Heq.
Qed.

(** ** The client's requests *)

Lemma join_lines_enc ls : enc (join_lines ls) = lines_text (enc <$> ls).
Proof.
  unfold join_lines, lines_text. rewrite enc_app. f_equal. induction ls as [|l ls IH]; [done|]. cbn [mbind list_bind fmap list_fmap concat].
  rewrite !enc_app, IH. done.
Qed.

(** The lines after the request line. *)
Definition client_lines (q : request) (c : control) (port : pystr) : list pystr :=
  [str "Host: " ++ ct_host c ++ str ":" ++ port; str "Accept: " ++ rq_accept q; str "Connection: keep-alive"] ++
  match rq_body q with
  | Some b => [str "Content-Type: " ++ default (str "application/json") (rq_content_type q); str "Content-Length: " ++ number (zlen b)]
  | None => []
  end.

Definition client_request (q : request) (c : control) (port : pystr) : http_request :=
  mkHttp (enc (rq_method q)) (enc (rq_path q)) (ascii "HTTP/1.1") (enc <$> client_lines q c port) (default [] (rq_body q)).

(** A request whose parts are text without line ends, small enough for the
    server, with a body only where the method has one. *)
Record sendable (q : request) (c : control) : Prop := {
  sn_method : on_a_line (rq_method q) ∧ (32 ∉ rq_method q) ∧ zlen (rq_method q) < CONTROL_MAX_METHOD;
  sn_path : on_a_line (rq_path q) ∧ (32 ∉ rq_path q) ∧ zlen (rq_path q) < CONTROL_MAX_URL;
  sn_host : on_a_line (ct_host c) ∧ 0 ≤ ct_port c < 2 ^ 16;
  sn_accept : on_a_line (rq_accept q);
  sn_type : on_a_line (default [] (rq_content_type q));
  sn_body : match rq_body q with Some b => rq_method q ∈ [str "POST"; str "PUT"] ∧ zlen b ≤ CONTROL_MAX_BODY | None => True end;
}.

Lemma client_lines_ok q c : sendable q c → Forall (λ l, on_a_line l ∧ l ≠ []) (client_lines q c (number (ct_port c))).
Proof.
  intros [_ _ [Hh Hp] Ha Ht _]. unfold client_lines. rewrite Forall_app. split.
  - repeat apply Forall_cons_2; try (split; [|done]); [|by apply on_a_line_app; [by apply plain_line|]|by apply plain_line|constructor].
    repeat apply on_a_line_app; [by apply plain_line|done|by apply plain_line|apply number_line; lia].
  - destruct (rq_body q) as [b|]; [|constructor]. repeat apply Forall_cons_2; try (split; [|done]); [| |constructor].
    + apply on_a_line_app; [by apply plain_line|]. destruct (rq_content_type q); [done|by apply plain_line].
    + apply on_a_line_app; [by apply plain_line|apply number_line, zlen_nonneg].
Qed.

Lemma encode_lines ls : Forall on_a_line ls → latin1_encode (join_lines ls) = Ok (lines_text (enc <$> ls)).
Proof.
  intros Hls. rewrite <- join_lines_enc. unfold latin1_encode. replace (forallb _ _) with true; [done|]. symmetry. apply forallb_forall. intros c Hc.
  apply list_elem_of_In in Hc. unfold join_lines in Hc. enough (0 ≤ c < 256) by lia. apply elem_of_app in Hc as [Hc|Hc]; [|set_unfold; lia].
  apply list_elem_of_bind in Hc as (l & Hc & Hl). apply elem_of_app in Hc as [Hc|Hc]; [|set_unfold; lia].
  rewrite Forall_forall in Hls. specialize (Hls l Hl). unfold on_a_line in Hls. rewrite Forall_forall in Hls. by apply Hls.
Qed.

(** What the client writes. *)
Lemma head_text q c : sendable q c →
  request_head (rq_method q) (rq_path q) (rq_accept q) (rq_content_type q) (rq_body q) c =
    Ok (request_head_text (client_request q c (number (ct_port c)))).
Proof.
  intros Hq. pose proof (client_lines_ok q c Hq) as Hl. destruct Hq as [[Hm _] [Hp _] [_ Hport] _ _ Hb]. unfold request_head.
  rewrite (proj1 (int_repr_digits (ct_port c) ltac:(lia))). cbn [mbind result_bind]. fold (number (ct_port c)).
  assert (on_a_line (rq_method q ++ str " " ++ rq_path q ++ str " HTTP/1.1")) as Hline.
  { repeat apply on_a_line_app; [done|by apply plain_line|done|by apply plain_line]. }
  assert (enc (rq_method q ++ str " " ++ rq_path q ++ str " HTTP/1.1") = request_line (client_request q c (number (ct_port c)))) as Hrl by (by rewrite !enc_app).
  unfold request_head_text. cbn [hr_lines client_request]. rewrite <- Hrl, <- fmap_cons.
  assert (Forall on_a_line ((rq_method q ++ str " " ++ rq_path q ++ str " HTTP/1.1") :: client_lines q c (number (ct_port c)))) as Hall.
  { constructor; [done|]. eapply Forall_impl; [exact Hl|]. by intros l [? _]. }
  rewrite <- (encode_lines _ Hall). unfold client_lines. destruct (rq_body q) as [b|]; [|done]. destruct Hb as [_ Hb].
  rewrite (proj1 (int_repr_digits (zlen b) ltac:(pose proof (zlen_nonneg b); unfold CONTROL_MAX_BODY in Hb; lia))). done.
Qed.

(** *** What the server makes of them *)

Lemma header_named name v : COLON ∉ name → c_string name = name → zlen name < CONTROL_MAX_HEADER_NAME →
  header_of (name ++ COLON :: v) =
    if zlen (skip_spaces v) <? CONTROL_MAX_HEADER_VALUE then Some (name, c_string (skip_spaces v)) else None.
Proof.
  intros Hc Hn Hz. unfold header_of. rewrite memchr_app by done. cbn [mbind option_bind]. rewrite take_app_length.
  rewrite (proj2 (Z.ltb_lt _ _)) by done. rewrite <- Nat.add_1_r, drop_app_add. cbn [drop andb]. by rewrite Hn.
Qed.

(** A header of another name is passed over. *)
Lemma find_other name hs key line : (∀ v, header_of line = Some v → v.1 = key) → ci_equal key name (length name) = false →
  find_header name (omap header_of (line :: hs)) = find_header name (omap header_of hs).
Proof.
  intros Hk Hci. cbn. destruct (header_of line) as [v|]; [|done]. unfold find_header. cbn. by rewrite (Hk v eq_refl), Hci.
Qed.

Lemma named_key name v h : COLON ∉ name → c_string name = name → zlen name < CONTROL_MAX_HEADER_NAME → header_of (name ++ COLON :: v) = Some h → h.1 = name.
Proof. intros. rewrite header_named in * by done. case_match; [|done]. by simplify_eq. Qed.

(** The lines of the client by their names. *)
Lemma client_headers q c port : enc <$> client_lines q c port =
  [ascii "Host" ++ COLON :: SP :: enc (ct_host c ++ str ":" ++ port); ascii "Accept" ++ COLON :: SP :: enc (rq_accept q);
   ascii "Connection" ++ COLON :: SP :: ascii "keep-alive"] ++
  match rq_body q with
  | Some b => [ascii "Content-Type" ++ COLON :: SP :: enc (default (str "application/json") (rq_content_type q));
               ascii "Content-Length" ++ COLON :: SP :: enc (number (zlen b))]
  | None => []
  end.
Proof. unfold client_lines. rewrite fmap_app. by destruct (rq_body q). Qed.

Lemma skip_number n : 0 ≤ n → skip_spaces (SP :: enc (number n)) = enc (number n) ∧ c_string (enc (number n)) = enc (number n).
Proof.
  intros Hn. assert (∀ d, 48 ≤ d ≤ 57 → Byte.eqb (Z_to_byte d) SP = false ∧ Byte.eqb (Z_to_byte d) x00 = false) as Hd.
  { intros d Hd. assert (byte_to_Z (Z_to_byte d) = d) as Hb by (rewrite byte_to_Z_to_byte; apply Z.mod_small; lia).
    split; (destruct (Byte.eqb _ _) eqn:E; [|done]); apply Byte.byte_dec_bl in E; rewrite E in Hb; cbn in Hb; lia. }
  pose proof (number_chars n Hn) as Hc. split.
  - cbn [skip_spaces Byte.eqb]. change (Byte.eqb SP SP) with true. cbn iota. destruct (number n) as [|d s]; [done|]. apply Forall_cons in Hc as [Hc _].
    cbn [enc fmap list_fmap skip_spaces]. by rewrite (proj1 (Hd d Hc)).
  - induction Hc as [|d s Hc _ IH]; [done|]. cbn [enc fmap list_fmap c_string]. rewrite (proj2 (Hd d Hc)). f_equal. exact IH.
Qed.

Lemma omap_length {A B} (f : A → option B) l : (length (omap f l) ≤ length l)%nat.
Proof. induction l as [|x l IH]; cbn; [done|]. destruct (f x); cbn; lia. Qed.

Lemma client_length q c port : zlen (default [] (rq_body q)) ≤ CONTROL_MAX_BODY →
  find_header (ascii "content-length") (headers_of (enc <$> client_lines q c port)) = (λ b, enc (number (zlen b))) <$> rq_body q.
Proof.
  intros Hb. rewrite client_headers. unfold headers_of. rewrite take_ge.
  2: { etransitivity; [apply omap_length|]. destruct (rq_body q); cbn; lia. }
  assert (∀ name v hs, name ∈ ascii <$> ["Host"; "Accept"; "Connection"; "Content-Type"] →
    find_header (ascii "content-length") (omap header_of ((name ++ COLON :: v) :: hs)) = find_header (ascii "content-length") (omap header_of hs)) as Hskip.
  { intros name v hs Hin. cbn [fmap list_fmap] in Hin. set_unfold in Hin. apply (find_other _ _ name).
    - intros h Hh. apply (named_key name v); [|destruct_or! Hin; by subst..|done]. destruct_or! Hin; subst; by vm_compute; set_solver.
    - destruct_or! Hin; by subst. }
  cbn [app]. rewrite !Hskip by set_solver. destruct (rq_body q) as [b|] eqn:Eb in Hb |- *; [|done]. rewrite Hskip by set_solver. cbn [omap list_omap default id] in *.
  pose proof (zlen_nonneg b). destruct (skip_number (zlen b)) as [Hs Hn]; [done|]. rewrite header_named by (done || set_solver). rewrite Hs, Hn.
  unfold CONTROL_MAX_BODY in Hb. pose proof (number_short (zlen b) ltac:(lia)). rewrite (proj2 (Z.ltb_lt _ _)); [done|].
  unfold zlen, CONTROL_MAX_HEADER_VALUE, enc. rewrite length_fmap. unfold zlen in *. lia.
Qed.

Lemma client_declared q c port : sendable q c → declared (client_request q c port) = (λ b, enc (number (zlen b))) <$> rq_body q.
Proof.
  intros [_ _ _ _ _ Hb]. unfold declared. cbn [hr_method hr_lines client_request]. rewrite client_length.
  2: { destruct (rq_body q); cbn; [apply Hb|done]. }
  destruct (rq_body q) as [b|]; [|by destruct (_ || _)]. destruct Hb as [Hm _]. set_unfold. destruct Hm as [->|[->|[]]]; done.
Qed.

Lemma client_ok q c : sendable q c → http_ok (client_request q c (number (ct_port c))).
Proof.
  intros Hq. pose proof (client_declared q c (number (ct_port c)) Hq) as Hd. pose proof (client_lines_ok q c Hq) as Hl.
  destruct Hq as [(Hm & Hms & Hmz) (Hp & Hps & Hpz) _ _ _ Hb]. split.
  - assert (request_line (client_request q c (number (ct_port c))) = enc (rq_method q ++ str " " ++ rq_path q ++ str " HTTP/1.1")) as ->
      by (by rewrite !enc_app). apply line_clean; [|by destruct (rq_method q)].
    repeat apply on_a_line_app; [done|by apply plain_line|done|by apply plain_line].
  - cbn. split; [|unfold zlen, enc in *; by rewrite length_fmap]. apply enc_not; [by apply on_a_line_chars|done].
  - cbn. split; [|unfold zlen, enc in *; by rewrite length_fmap]. apply enc_not; [by apply on_a_line_chars|done].
  - cbn [hr_lines client_request]. apply Forall_fmap. eapply Forall_impl; [exact Hl|]. intros l [H1 H2]. by apply line_clean.
  - rewrite Hd. cbn [hr_body client_request]. destruct (rq_body q) as [b|]; [|done]. cbn [fmap option_fmap option_map default id]. destruct Hb as [_ Hb].
    split; [|done]. apply content_length_number. pose proof (zlen_nonneg b). unfold CONTROL_MAX_BODY in Hb. lia.
Qed.

(** No header of the client asks for another protocol. *)
Lemma client_upgrades q c port : upgrades (client_request q c port) = false.
Proof.
  unfold upgrades. cbn [hr_lines client_request]. rewrite client_headers. unfold headers_of. rewrite take_ge.
  2: { etransitivity; [apply omap_length|]. destruct (rq_body q); cbn; lia. }
  assert (∀ name v hs, name ∈ ascii <$> ["Host"; "Accept"; "Connection"; "Content-Type"; "Content-Length"] →
    find_header (ascii "upgrade") (omap header_of ((name ++ COLON :: v) :: hs)) = find_header (ascii "upgrade") (omap header_of hs)) as Hskip.
  { intros name v hs Hin. cbn [fmap list_fmap] in Hin. set_unfold in Hin. apply (find_other _ _ name).
    - intros h Hh. apply (named_key name v); [|destruct_or! Hin; by subst..|done]. destruct_or! Hin; subst; by vm_compute; set_solver.
    - destruct_or! Hin; by subst. }
  cbn [app]. rewrite !Hskip by set_solver. destruct (rq_body q) as [b|]; [|done]. by rewrite !Hskip by set_solver.
Qed.

(** ** The server's replies *)

#[local] Arguments ascii : simpl never.
#[local] Arguments EOLN : simpl never.

Definition status_line (code : Z) : bytes := ascii "HTTP/1.1 " ++ dec code ++ ascii " " ++ status_text code ++ EOLN.
Definition reply_of (code : Z) (content_type : bytes) (body : bytes) : reply :=
  mkReply code (status_line code)
    [ascii "Content-Type: " ++ content_type ++ EOLN; ascii "Content-Length: " ++ dec (zlen body) ++ EOLN] body.

(** A status, then a body. *)
Lemma built_reply code t body cap sse r1 r2 : kith_control_response_status code (Some t) (mkResponse [] cap sse) = (r1, 0) →
  kith_control_response_body body r1 = (r2, 0) → rs_text r2 = reply_bytes (reply_of code t body) ∧ rs_sse r2 = sse.
Proof.
  unfold reply_bytes, reply_of, status_line, kith_control_response_status, kith_control_response_body. cbn [rp_line rp_headers rp_body concat rs_cap].
  change [x0d; x0a] with EOLN.
  generalize (ascii "HTTP/1.1 ") (dec code) (ascii " ") (status_text code) EOLN (ascii "Content-Type: ") (ascii "Content-Length: ") (dec (zlen body)).
  intros a1 a2 a3 a4 eol a5 a6 a7. destruct (_ <=? _); [done|]. intros [= <-]. cbn [rs_text rs_cap rs_sse set_text]. destruct (_ <=? _); [done|].
  destruct (Z.ltb_spec 0 (zlen body)) as [Hpos|Hz].
  - destruct (_ <? _); [done|]. intros [= <-]. cbn [rs_text rs_sse set_text]. by rewrite app_nil_r, <- !app_assoc.
  - intros [= <-]. cbn [rs_text rs_sse set_text]. destruct body; [|unfold zlen in Hz; cbn in Hz; lia]. by rewrite !app_nil_r, <- !app_assoc.
Qed.

Lemma number_word n : 0 ≤ n → forallb is_word_char (number n) = true.
Proof.
  intros Hn. apply forallb_forall. intros c Hc. apply list_elem_of_In in Hc. pose proof (number_chars n Hn) as H. rewrite Forall_forall in H. apply H in Hc.
  unfold is_word_char. lia.
Qed.

Lemma split_word t s : forallb is_word_char t = true → t ≠ [] → split (t ++ 32 :: s) = t :: split s.
Proof.
  intros Ht Hne. unfold split. rewrite split_from_word, app_nil_r by done. cbn [split_from]. change (is_space 32) with true. cbn iota.
  destruct (rev t) as [|c l] eqn:E; [|by rewrite <- E, rev_involutive].
  apply (f_equal (@rev Z)) in E. rewrite rev_involutive in E. done.
Qed.

Lemma strip_number n : 0 ≤ n → strip (32 :: number n ++ [13; 10]) = number n.
Proof.
  intros Hn. pose proof (number_word n Hn) as Hw. assert (∀ l, forallb is_word_char l = true → lstrip l = l) as Hl.
  { intros [|c l] H; [done|]. cbn [forallb] in H. apply andb_true_iff in H as [H _]. by apply lstrip_word. }
  unfold strip. cbn [lstrip]. change (is_space 32) with true. cbn iota. assert (lstrip (number n ++ [13; 10]) = number n ++ [13; 10]) as ->.
  { pose proof (number_nonempty n). destruct (number n) as [|c l]; [done|]. cbn [forallb app] in *. apply andb_true_iff in Hw as [Hw _]. by apply lstrip_word. }
  rewrite rev_app_distr. cbn [rev app lstrip]. change (is_space 10) with true. change (is_space 13) with true. cbn iota. rewrite Hl, rev_involutive; [done|].
  rewrite forallb_forall in Hw |- *. intros c Hc. apply Hw. by apply in_rev.
Qed.

Lemma status_text_plain code : ∃ s, status_text code = enc s ∧ on_a_line s ∧ (length s ≤ 32)%nat.
Proof.
  unfold status_text, ascii. eexists. split; [done|]. repeat case_match; (split; [by apply plain_line|cbn; lia]).
Qed.

(** A line of the server. *)
Lemma whole_text s : on_a_line s → (length s < STREAM_LIMIT)%nat → whole_line (enc s ++ EOLN).
Proof.
  intros Hs Hl. exists (enc s ++ [x0d]). split_and!; [by rewrite <- app_assoc| |unfold enc; rewrite length_app, length_fmap; cbn; lia].
  rewrite elem_of_app. intros [H|H]; [|set_solver]. destruct (on_a_line_not s Hs) as [_ Hlf]. apply on_a_line_chars in Hs. by apply (enc_not LF s Hs).
Qed.

Lemma text_not_blank s : s ≠ [] → ¬ blank (enc s ++ EOLN).
Proof.
  intros Hne Hb. unfold blank in Hb. rewrite latin1_app in Hb. assert (length (latin1 (enc s)) = length s) as Hl by (unfold latin1, enc; by rewrite !length_fmap).
  assert (0 < length s)%nat by (by destruct s; [|cbn; lia]).
  rewrite !elem_of_cons in Hb. destruct Hb as [E|[E|[E|E]]]; [..|by apply not_elem_of_nil in E]; apply (f_equal length) in E; rewrite length_app, Hl in E; change (length (latin1 EOLN)) with 2%nat in E; cbn in E; lia.
Qed.

Lemma header_line acc key v : 58 ∉ key → Forall (λ c, 0 ≤ c < 256) (key ++ 58 :: v) →
  header_length acc (enc (key ++ 58 :: v) ++ EOLN) =
    if bool_decide (lower (strip key) = str "content-length") then py_int 10 (strip (v ++ [13; 10])) else acc.
Proof.
  intros Hk Hc. unfold header_length. rewrite latin1_app, latin1_enc by done. rewrite <- app_assoc. cbn [app].
  by rewrite (partition_at_app 58 key) by done.
Qed.

Lemma length_line acc n : 0 ≤ n → n < 10 ^ 30 → header_length acc (enc (str "Content-Length: " ++ number n) ++ EOLN) = Some n.
Proof.
  intros Hn Hlt. change (str "Content-Length: ") with (str "Content-Length" ++ [58; 32]). rewrite <- app_assoc. cbn [app].
  pose proof (on_a_line_chars _ (number_line n Hn)) as Hc. pose proof (strip_number n Hn) as Hs. pose proof (proj2 (int_repr_digits n (conj Hn Hlt))) as Hv.
  fold (number n) in Hv. generalize dependent (number n). intros ds Hc Hs Hv. rewrite header_line; [|vm_compute; set_solver|].
  - change (bool_decide (lower (strip (str "Content-Length")) = str "content-length")) with true. cbn [app]. by rewrite Hs.
  - apply Forall_app. split; [|by repeat apply Forall_cons_2; [lia..|]]. apply on_a_line_chars. by apply plain_line.
Qed.

Lemma stream_limit : Z.of_nat STREAM_LIMIT = 65536.
Proof. unfold STREAM_LIMIT. by rewrite Z2Nat.id. Qed.

#[local] Opaque STREAM_LIMIT.

Lemma reply_of_ok code t body : 0 ≤ code < 1000 → on_a_line t → zlen t < 2 ^ 15 → zlen body ≤ _MAX_BODY_BYTES → reply_ok (reply_of code (enc t) body).
Proof.
  intros Hc Ht Htl Hb. pose proof (zlen_nonneg body). destruct (status_text_plain code) as (st & Est & Hst & Hstl).
  assert (zlen body < 10 ^ 7) as Hb7 by (change _MAX_BODY_BYTES with 1048576 in Hb; lia).
  pose proof stream_limit as Hlim.
  pose proof (number_short code ltac:(lia)) as Hn1. pose proof (number_short (zlen body) ltac:(lia)) as Hn2.
  assert (status_line code = enc (str "HTTP/1.1 " ++ number code ++ str " " ++ st) ++ EOLN) as El.
  { unfold status_line. rewrite dec_number, Est by lia. rewrite !enc_app, <- !app_assoc. done. }
  assert (ascii "Content-Type: " ++ enc t ++ EOLN = enc (str "Content-Type: " ++ t) ++ EOLN) as E1 by (by rewrite enc_app, <- app_assoc).
  assert (ascii "Content-Length: " ++ dec (zlen body) ++ EOLN = enc (str "Content-Length: " ++ number (zlen body)) ++ EOLN) as E2
    by (by rewrite dec_number, enc_app, <- app_assoc).
  assert (on_a_line (str "HTTP/1.1 " ++ number code ++ str " " ++ st)) as Hl0.
  { repeat apply on_a_line_app; [by apply plain_line|apply number_line; lia|by apply plain_line|done]. }
  assert (on_a_line (str "Content-Type: " ++ t)) as Hl1 by (apply on_a_line_app; [by apply plain_line|done]).
  assert (on_a_line (str "Content-Length: " ++ number (zlen body))) as Hl2 by (apply on_a_line_app; [by apply plain_line|apply number_line; lia]).
  split; cbn [rp_line rp_headers rp_body rp_status reply_of]; rewrite ?El, ?E1, ?E2; [| | | |done].
  - apply whole_text; [done|]. rewrite !length_app. change (length (str "HTTP/1.1 ")) with 9%nat. change (length (str " ")) with 1%nat. lia.
  - unfold _parse_status_code. rewrite latin1_app, latin1_enc by (by apply on_a_line_chars).
    change (str "HTTP/1.1 ") with (str "HTTP/1.1" ++ [32]). change (str " ") with [32]. rewrite <- !app_assoc. cbn [app].
    rewrite (split_word (str "HTTP/1.1")) by done. rewrite (split_word (number code)); [|apply number_word; lia|apply number_nonempty].
    unfold number. by rewrite (proj2 (int_repr_digits code ltac:(lia))).
  - repeat apply Forall_cons_2; [split|split|constructor].
    + apply whole_text; [done|]. rewrite length_app. change (length (str "Content-Type: ")) with 14%nat. unfold zlen in Htl. lia.
    + by apply text_not_blank.
    + apply whole_text; [done|]. rewrite length_app. change (length (str "Content-Length: ")) with 16%nat. lia.
    + by apply text_not_blank.
  - cbn [foldl]. apply length_line; [done|lia].
Qed.

(** ** From the client to the server and back *)

Section EndToEnd.
Context {W : Type} (s : kith_control W) (i : nat) (q : request) (c : control).

Definition asked : http_request := client_request q c (number (ct_port c)).

(** What the route sees: the method, the path, the headers and the body. *)
Definition seen : request_view :=
  mkView (method_of (enc (rq_method q))) (c_string (enc (rq_path q))) (headers_of (enc <$> client_lines q c (number (ct_port c)))) (rq_body q).

Lemma client_view : sendable q c → view_of asked = seen.
Proof. intros Hq. unfold view_of, seen, asked. rewrite client_declared by done. cbn. by destruct (rq_body q). Qed.

(** A slot that waits for a request. *)
Record fresh (x : control_conn W) : Prop := {
  fr_parser : reading (cc_parser x) [];
  fr_room : zlen (request_text asked) ≤ hp_cap (cc_parser x);
  fr_open : 0 ≤ cc_fd x ∧ cc_watched x ≠ None;
  fr_sent : cc_sent x = [];
}.

(** The client's own exchange, over a connection that carries a reply. *)
Lemma client_exchange k r rest : sendable q c → ct_conn c = Some k → cn_lost k = false → reply_ok r → cn_in k = reply_bytes r ++ rest →
  exchange (rq_method q) (rq_path q) (rq_accept q) (rq_content_type q) (rq_body q) c =
    (set_conn (Some (with_in rest (with_out (cn_out k ++ request_text asked) k))) c, Ok (rp_status r, rp_body r)).
Proof.
  intros Hq Hc Hl Hr Hin. unfold exchange, _send_request. rewrite bind_run, bind_get, Hc, bind_lift, (head_text q c Hq). cbn iota beta. rewrite bind_run, Hl.
  unfold modify. cbn [mret M_ret]. rewrite (read_response_exact _ (with_out (cn_out k ++ request_text asked) k) r rest); done.
Qed.

End EndToEnd.
