(* ===== verification/NetExamples.v ===== *)
(** * Worked examples of the transport, the spatial index and the control server

    Concrete runs, and the theorems of [RingBuffer], [NetTheorems],
    [AoiTheorems], [ControlTheorems] and [ControlWire] applied at them. *)

From S2P Require Import Prelude PyStruct PyText PyWire Proto ProtoTheorems CWords RingBuffer NetConn NetTheorems Aoi AoiTables AoiTheorems.

#[local] Open Scope Z_scope.

(** An allocator that serves every request. *)
Definition plenty : allocator := λ n, if 0 <=? n then Some (replicate (Z.to_nat n) x00) else None.

Lemma plenty_serves : serves plenty.
Proof.
  split.
  - intros n b. unfold plenty. destruct (Z.leb_spec 0 n); [|done]. intros [= <-]. unfold zlen. rewrite length_replicate. lia.
  - intros n Hn. unfold plenty. rewrite (proj2 (Z.leb_le _ _) Hn). by eexists.
Qed.

(** ** The ring *)

Definition ring_script : list ring_call :=
  [RbWrite plenty [x01; x02; x03]; RbConsume 2; RbWrite plenty [x04; x05; x06; x07]; RbPeek; RbCopy 9; RbWrite plenty (replicate 6 x08);
   RbShrink plenty; RbUsed].

Lemma ring_script_ok : Forall call_ok ring_script.
Proof. pose proof (proj1 plenty_serves). repeat constructor; (done || (unfold zlen; cbn; lia)). Qed.

(** Growth past a wrapped write, and the refusal of a write over the limit. *)
Example ring_example :
  (rb ← kith_ringbuf_init plenty 4 8 ≫= (λ r, match r with inr rb => Some rb | inl _ => None end);
   '(rb, answers) ← ring_calls ring_script rb; Some (answers, rb_size rb)) =
  Some ([Code 0; NoAnswer; Code 0; View [x03; x04; x05; x06; x07]; View [x03; x04; x05; x06; x07]; Code (-1); Code 0; Count 5], 8).
Proof. vm_compute. reflexivity. Qed.


(** An empty ring of four bytes. *)
Definition small_ring : kith_ringbuf := mkRing (Some (replicate 4 x00)) 4 3 0 0 4 8.

Lemma small_ring_holds : ring_holds small_ring [].
Proof. split; try done. - exists 2, 2, 3. split_and!; (done || lia). - by eexists. Qed.

Lemma write_returns_witness :
  (zlen ([] : bytes) + zlen [x01; x02; x03; x04; x05] ≤ 2 ^ 63 →
   ∃ rb' rc, kith_ringbuf_write plenty [x01; x02; x03; x04; x05] small_ring = Some (rb', rc)) ∧
  (2 ^ 63 < zlen ([] : bytes) + zlen [x01; x02; x03; x04; x05] →
   ∀ fuel, double_until 64 fuel (rb_size small_ring) (u64 (kith_ringbuf_used small_ring + zlen [x01; x02; x03; x04; x05])) = None).
Proof. apply (write_returns plenty small_ring [] [x01; x02; x03; x04; x05]); [apply small_ring_holds|by vm_compute]. Defined.

(** ** Connections *)

Definition text (s : string) : bytes := default [] (PyText.utf8_encode (str s)).

(** Type 5, payloads of at most 64 bytes. *)
Definition transport0 : transport :=
  mkTransport (fst (Proto.kith_proto_register_type_id (text "state") 5 (kith_proto_create 64))) 0 0.

Definition plain : frame := mkFrame 5 0 false 0 [x0a; x0b].
Definition tagged : frame := mkFrame 5 2 true 258 [x0c].

Definition small_cfg : kith_conn_cfg := mkConnCfg 16 64 48 24 1024 512 256.

(** Every frame is kept, and answered with a byte. *)
Definition keep (f : frame) (u : list frame) : list frame * list cb_action := (u ++ [f], [Enqueue true [x01]]).

(** The two frames, cut within the first header and within the second frame. *)
Definition cut_reads : list (allocator * list recv_result) :=
  [(plenty, [Received (take 7 (wire_of plain))]);
   (plenty, [RecvInterrupted; Received (drop 7 (wire_of plain) ++ take 8 (wire_of tagged))]);
   (plenty, [Received (drop 8 (wire_of tagged))])].

Lemma both_accepted : Forall (λ f, accepts (tr_proto transport0) f ∧ zlen (wire_of f) ≤ 20) [plain; tagged].
Proof.
  assert (registered (tr_proto transport0) 5) by (apply list_elem_of_singleton; by vm_compute).
  apply Forall_cons; split; [|apply Forall_singleton]; (split; [split; [by split|split; [done|by vm_compute]]|by vm_compute]).
Qed.

Lemma cut_reads_ok : Forall (read_ok 64 20) cut_reads.
Proof. pose proof plenty_serves. repeat constructor; try apply plenty_serves; by vm_compute. Qed.

Example cut_reads_example :
  (c ← kith_conn_create plenty 3 small_cfg ≫= id;
   '(c, _, u, rcs) ← conn_reads keep cut_reads c transport0 [];
   Some (u, rcs, kith_ringbuf_used (nc_inbuf c), length (nc_outq c))) = Some ([plain; tagged], [0; 0; 0], 0, 2%nat).
Proof. vm_compute. reflexivity. Qed.

Lemma conn_reads_exact_witness :
  ∃ c c' dn todo part, kith_conn_create plenty 3 small_cfg = Some (Some c) ∧
    conn_reads keep cut_reads c transport0 [] = Some (c', transport0, after keep dn [], replicate 3 0) ∧
    [plain; tagged] = dn ++ todo ∧ arriving cut_reads = stream_of dn ++ part ∧ begins todo part ∧ ([] = [] :> bytes → dn = [plain; tagged]) ∧
    kith_ringbuf_used (nc_inbuf c') = zlen part ∧ nc_closed c' = false ∧ desired_in_events c' = KITH_NET_IN.
Proof.
  apply (conn_reads_exact keep plenty 3 small_cfg 20 cut_reads [plain; tagged] [] transport0 []).
  2: apply plenty_serves.
  all: try first [apply both_accepted | apply cut_reads_ok | by vm_compute].
Defined.

(** The sender of the same bytes: one frame goes out in two writes. *)
Definition sender : kith_net_conn := mkConn small_ring [] 0 false false 4 small_cfg.

Definition out_script : list out_op :=
  [Put true (wire_of plain); Flush [Room 5; WriteAgain]; Put true (wire_of tagged); Flush [WriteInterrupted; Room 100]].

Lemma net_end_to_end_witness :
  let '(c1, _, sent, accepted) := out_run out_script sender transport0 in
  ∃ c2 c2' dn todo, kith_conn_create plenty 3 small_cfg = Some (Some c2) ∧
    conn_reads keep cut_reads c2 transport0 [] = Some (c2', transport0, after keep dn [], replicate 3 0) ∧
    [plain; tagged] = dn ++ todo ∧ (unsent (nc_outq c1) = [] → dn = [plain; tagged]).
Proof.
  generalize (net_end_to_end keep sender transport0 out_script [plain; tagged] plenty 3 small_cfg 20 cut_reads transport0 []).
  destruct (out_run out_script sender transport0) as [[[c1 t1] sent] accepted] eqn:Hrun. intros H.
  assert (accepted = wire_of <$> [plain; tagged]) as Ha by (apply (f_equal snd) in Hrun; cbn [snd] in Hrun; rewrite <- Hrun; by vm_compute).
  assert (arriving cut_reads = sent) as Hs by (apply (f_equal (λ r, r.1.2)) in Hrun; cbn [fst snd] in Hrun; rewrite <- Hrun; by vm_compute).
  apply H; clear H; try first [apply plenty_serves | apply both_accepted | apply cut_reads_ok | lia | done].
  repeat constructor; by vm_compute.
Defined.

(** Two slots: one connection finds no memory, one no room, and one comes once another is closed. *)
Lemma conn_table_refines_witness :
  let socket := Accept true (Accepted true) in
  let ops := [Accept false NonePending; socket; Accept true (Accepted false); socket; Accept true NonePending; socket; CloseConn 0; socket] in
  let '(t, rs) := table_run ops (net_table 2) in
  rs = [Some (inl (- KITH_ESTATE)); Some (inr 0%nat); Some (inl (- KITH_ENOMEM)); Some (inr 1%nat); Some (inl (- KITH_EAGAIN)); Some (inl (- KITH_EBUSY)); None;
        Some (inr 2%nat)] ∧
  ∃ s, opened_run (resolve_cfg_field 2 4096) ops ∅ rs s ∧ ct_conn_count t = Z.of_nat (size s) ∧
    (∀ h, h ∈ s ↔ ∃ i : nat, (i < size s)%nat ∧ ct_conns t !! i = Some (Some h)) ∧
    ∀ e, e ∈ ct_entries (kith_net_destroy t) → te_closed e = true.
Proof.
  intros socket ops. pose proof (conn_table_refines 2 ops ltac:(done)) as H. destruct (table_run ops (net_table 2)) as [t rs] eqn:Hrun.
  split; [|exact H]. apply (f_equal snd) in Hrun. cbn [snd] in Hrun. rewrite <- Hrun. by vm_compute.
Defined.

(** ** The corners of the read and write paths *)

(** Frames that arrive together with the end of the stream are not delivered. *)
Example frames_before_eof_lost :
  (c ← kith_conn_create plenty 3 small_cfg ≫= id;
   '(c, _, u, rc) ← kith_net_conn_read keep plenty [Received (wire_of plain); EndOfStream] c transport0 [];
   Some (u, rc)) = Some ([], - KITH_ECONNRESET).
Proof. vm_compute. reflexivity. Qed.

(** A ring limit that is not a power of two: a frame above it is delivered
    when it arrives whole and refused when it is cut. *)
Definition odd_cfg : kith_conn_cfg := mkConnCfg 16 48 48 24 1024 512 256.
Definition long : frame := mkFrame 5 0 false 0 (replicate 50 x0a).

Example frame_above_limit :
  (c ← kith_conn_create plenty 3 odd_cfg ≫= id;
   '(_, _, u, rc) ← kith_net_conn_read keep plenty [Received (wire_of long)] c transport0 [];
   '(_, _, u', rcs) ← conn_reads keep [(plenty, [Received (take 20 (wire_of long))])] c transport0 [];
   Some (u, rc, u', rcs)) = Some ([long], 0, [], [- KITH_EPROTO]).
Proof. vm_compute. reflexivity. Qed.

(** A frame of no bytes is never taken off the queue. *)
Example empty_frame_stays :
  let '(c, _) := kith_net_conn_enqueue true [] sender in
  let '(c, _, out, rc) := kith_net_conn_write [Room 100; Room 100] c transport0 in
  (out, rc, kith_net_conn_events c) = ([], 0, KITH_NET_IN + KITH_NET_OUT).
Proof. vm_compute. reflexivity. Qed.

(** An input limit below a header: the rest of the header is not read. *)
Example low_limit_blocks :
  (c ← kith_conn_create plenty 3 (mkConnCfg 16 64 4 2 1024 512 256) ≫= id;
   '(c, _, u, rc) ← kith_net_conn_read keep plenty [Received (take 7 (wire_of plain))] c transport0 [];
   Some (u, rc, nc_closed c, desired_in_events c)) = Some ([], 0, false, 0).
Proof. vm_compute. reflexivity. Qed.

(** ** The spatial index *)

Definition index_params : kith_aoi_params := mkAoiParams 88 1 10 16.

Definition actor (id x y z radius : Z) : kith_aoi_object := mkObject id x y z radius 0.

Definition index0 : kith_aoi := match kith_aoi_create true index_params with Some (inr a) => a | _ => mkAoi [] 0 0 [] 0 1 0 end.

(** Three actors in three cells, one moved, one taken out. *)
Definition index_calls : list aoi_call :=
  [Insert true (actor 1 0 0 0 2); Insert true (actor 2 25 (-5) 0 3); Insert true (actor 1 9 9 9 0); Insert false (actor 3 90 9 9 0);
   Insert true (actor 3 90 9 9 0); Update true (actor 3 40 0 0 1); Remove 1; Remove 1; Lookup 1; Lookup 3; Size].

Definition collect (o : kith_aoi_object) (ids : list Z) : list Z * bool := (ids ++ [ob_id o], true).

Example index_example :
  let '(a, rs) := aoi_run index_calls index0 in
  rs = [Status 0; Status 0; Status (- KITH_EEXIST); Status (- KITH_ENOMEM); Status 0; Status 0; Status 0; Status 0;
        Status (- KITH_ENOENT); Found (actor 3 40 0 0 1); Total 2] ∧
  kith_aoi_query_sphere 20 a (mkSphere 20 0 0 20) collect [] = Some [2; 3] ∧
  kith_aoi_query_sphere 20 a (mkSphere 20 0 0 18) collect [] = Some [2] ∧
  kith_aoi_query_box 20 a (mkBox 30 0 0 50 10 10) collect [] = Some [3].
Proof. vm_compute. split_and!; reflexivity. Qed.

Lemma aoi_refines_witness :
  ∃ a k, kith_aoi_create true index_params = Some (inr a) ∧ Z.max 16 16 ≤ 2 ^ k ∧
    ∀ calls, ∃ s cs, spatial_run (2 ^ k) (cell_of_object a) (∅, ∅) calls (aoi_run calls a).2 (s, cs).
Proof. apply (aoi_refines true index_params). done. Defined.

Lemma index_calls_wf : Forall call_wf index_calls.
Proof. repeat constructor; by vm_compute. Qed.

Lemma aoi_queries_exact_witness :
  ∃ cap s cs, spatial_run cap (cell_of_object index0) (∅, ∅) index_calls (aoi_run index_calls index0).2 (s, cs) ∧
  ∃ l, l ≡ₚ filter (meets_sphere (mkSphere 20 0 0 20)) (snd <$> map_to_list s) ∧
   ∀ (V : Type) visit (v : V) fuel, 2 ^ 32 < Z.of_nat fuel →
     kith_aoi_query_sphere fuel (aoi_run index_calls index0).1 (mkSphere 20 0 0 20) visit v = Some (visit_list visit l v).1.
Proof.
  destruct (aoi_queries_exact index_params index0 index_calls) as (cap & s & cs & Hrun & Hsph & _); [done|by vm_compute|apply index_calls_wf|].
  exists cap, s, cs. split; [exact Hrun|]. apply Hsph; [by vm_compute|]. repeat constructor; by vm_compute.
Defined.

(** A region that reaches the last cell of an axis: its loop counts past [INT32_MAX]. *)
Definition far : kith_aoi_sphere := mkSphere (10 * (2 ^ 31 - 1)) 0 0 1.

Lemma far_query_undefined :
  (∃ fuel, is_Some (kith_aoi_query_sphere fuel (aoi_run index_calls index0).1 (mkSphere 20 0 0 20) collect [])) ∧
  ¬ (∃ fuel, is_Some (kith_aoi_query_sphere fuel (aoi_run index_calls index0).1 far collect [])).
Proof.
  destruct (aoi_query_defined index_params index0 index_calls) with (V := list Z) (visit := collect) (v := @nil Z) as [Hends _];
    [done|by vm_compute|done|].
  split; [apply Hends; [done|]; repeat constructor; by vm_compute|]. rewrite Hends by done. intros [Hx _]%Forall_cons. by vm_compute in Hx.
Defined.

(** Radii whose sum is [-2^64] square to zero. *)
Example radius_wraps : aoi_dist_within 1 0 0 (- 2 ^ 64) = false.
Proof. vm_compute. reflexivity. Qed.

(** ** The control server *)

From S2P Require Import ServerControl ServerControlTheorems HttpParser ControlServer ControlTheorems ControlWire.

Definition built_in : list (route_slot unit) := control_handlers_register (λ _, 42) (λ _, None).

Definition on_readable (i : nat) (reads : list bytes) : server_event unit :=
  Ready i (mkReady false false true false) (ReadData <$> reads) tt true [Wrote 1000] [].

(** A client that opens an event stream. *)
Definition attach : list (server_event unit) :=
  [Connect [(7, true, true)]; on_readable 0 [ascii "GET /events/st"; ascii "ream HTTP/1.1" ++ EOLN ++ EOLN]].

Definition tick : server_event unit := PublishEvent (mkEvent 5 (Some (ascii "tick")) None None 0).

(** A stream's socket takes one line at once and the next in pieces. *)
Definition slow_flushes : list (server_event unit) :=
  [tick; tick; StreamFlush (λ _, [[Wrote 1000]; [Wrote 5; Wrote 10; Wrote 1000]]); tick; StreamFlush (λ _, [[Wrote 1000]])].

Abbreviation streaming_server := (run_end attach (created_server 2 256 256 4 false built_in)).

Example slow_stream_example :
  cc_sent (conn_at streaming_server 0) = stream_header ∧
  cc_sent (conn_at (run_end slow_flushes streaming_server) 0) =
    stream_header ++ concat (replicate 3 (event_line (fill_record (mkEvent 5 (Some (ascii "tick")) None None 0) zero_record))).
Proof. vm_compute. by split. Qed.

Lemma attached_all i (ss : list (kith_control unit)) :
  forallb (λ st, cc_subscribed (conn_at st i)) ss = true → Forall (λ st, cc_subscribed (conn_at st i) = true) ss.
Proof. rewrite forallb_forall, Forall_forall. intros H st Hin. by apply H, list_elem_of_In. Qed.

Lemma event_streams_exact_witness :
  ∃ x, cc_sent (conn_at (run_end slow_flushes streaming_server) 0) = cc_sent (conn_at streaming_server 0) ++ x ∧
    x ++ owed (run_end slow_flushes streaming_server) 0 =
      owed streaming_server 0 ++ lines_of (ks_write_cap streaming_server) (concat (zip_with accepted slow_flushes (server_run slow_flushes streaming_server).2)).
Proof.
  destruct (event_streams_exact 2 256 256 4 false built_in attach slow_flushes 0) as [Hs _]; [lia|lia|].
  apply Hs; [vm_compute; reflexivity|]. apply attached_all. vm_compute. reflexivity.
Defined.

Lemma control_slots_safe_witness :
  cc_in_use (conn_at streaming_server 0) = true ∧ ks_subscribers streaming_server = subscribed_count (ks_conns streaming_server).
Proof.
  destruct (control_slots_safe 2 256 256 4 false built_in attach) as (_ & _ & _ & Hopen & _ & Hn); [lia|lia|].
  split; [|exact Hn]. apply (proj1 (Hopen 0%nat ltac:(vm_compute; discriminate))).
Defined.

(** Three events are sent by one pass over the streams. *)
Abbreviation published := (run_end (attach ++ [tick; tick; tick]) (created_server 2 256 256 4 false built_in)).
Definition keen (_ : nat) : list (list write_result) := replicate 16 [Wrote 1000].

Lemma event_streams_deliver_witness :
  cc_sent (conn_at (run_end [StreamFlush keen] published) 0) = cc_sent (conn_at published 0) ++ owed published 0 ∧
  owed (run_end [StreamFlush keen] published) 0 = [].
Proof.
  generalize (event_streams_deliver 2 256 256 4 false built_in (attach ++ [tick; tick; tick]) keen 0 1 ltac:(lia) ltac:(lia)).
  intros H. destruct H as (_ & _ & H).
  - vm_compute. reflexivity.
  - vm_compute. reflexivity.
  - intros k Hk. exists 1000%nat. split; [by apply lookup_replicate_2|vm_compute; discriminate].
  - apply H. vm_compute. discriminate.
Defined.

(** A stream whose socket takes part of a line is not watched for writing: no later pass sends to it, and with its cursor in the ring the fourth
    further event is refused. *)
Definition park : list (server_event unit) := [tick; tick; StreamFlush (λ _, [[Wrote 1000]; [Wrote 5; WouldBlock]])].
Definition later : list (server_event unit) := concat (replicate 4 [StreamFlush keen; on_readable 0 [ascii "x"]; tick]).

Example parked_stream_stalls :
  let s := run_end park streaming_server in
  state_of (conn_at s 0) = WRITING ∧ cc_watched (conn_at s 0) = Some false ∧
  cc_sent (conn_at (run_end later s) 0) = cc_sent (conn_at s 0) ∧
  (server_run later s).2 = [0; 0; 0; 0; 0; 0; 0; 0; 0; 0; 0; - KITH_EBUSY].
Proof. vm_compute. by split_and!. Qed.

(** Only the characters of the name looked for are compared. *)
Example longer_name_matches :
  find_header (ascii "content-length") [(ascii "Content-Length-Hint", ascii "7")] = Some (ascii "7") ∧
  find_header_value (ascii "upgrade") [(ascii "Upgrade-Insecure-Requests", ascii "1"); (ascii "Upgrade", ascii "websocket")] = Some (ascii "1").
Proof. vm_compute. by split. Qed.

(** *** A request, cut in two *)

Abbreviation accepted_server := (run_end [Connect [(7, true, true)]] (created_server 2 256 256 4 false built_in)).

Definition health_request : request := mkRequest (str "GET") (str "/health") (str "*/*") None None.
Definition health_body : bytes := ascii "{" ++ quoted "status" ++ ascii ":" ++ quoted "ok" ++ ascii "," ++ quoted "uptime_ns" ++ ascii ":42}".

Definition health_client (input : bytes) : control := mkControl (str "localhost") 80 (Some (mkConn input Eof false false [])) [] [].
Definition health_text : bytes := request_text (asked health_request (health_client [])).

Definition health_reply : bytes := rs_text (control_handler_health 42 (mkResponse [] 256 false)).1.

Lemma health_sendable input : sendable health_request (health_client input).
Proof.
  split; repeat apply conj; try (by apply plain_line); try done.
  all: rewrite list_elem_of_In; intros H; vm_compute in H; intuition discriminate.
Qed.

