(* ===== verification/ClientRing.v ===== *)
(** * The client's rings ([src/src/client/queue.c])

    The outbound queue owns a buffer per slot and refuses a frame when full;
    the event ring stores fixed-size records and overwrites the oldest.
    Allocation succeeds; pointers are not null. *)

From S2P Require Import Prelude PyStruct PyWire Proto.

#[local] Open Scope Z_scope.

Definition u32 (z : Z) : Z := z mod 2 ^ 32.

(** [(i + 1u) % cap] *)
Definition next_slot (i cap : Z) : Z := u32 (i + 1) mod cap.

(** ** The outbound queue *)

(** A slot without data is the empty string. *)
Record client_outq := mkOutq {
  oq_slots : list bytes;
  oq_cap : Z;
  oq_head : Z;
  oq_tail : Z;
  oq_count : Z;
}.

Fixpoint outq_clear_loop (count : nat) (q : client_outq) : client_outq :=
  match count with
  | O => q
  | S n => outq_clear_loop n (mkOutq (<[Z.to_nat (oq_head q) := []]> (oq_slots q)) (oq_cap q)
             (next_slot (oq_head q) (oq_cap q)) (oq_tail q) (oq_count q - 1))
  end.

Definition client_outq_clear (q : client_outq) : client_outq :=
  if oq_cap q =? 0 then q else
  let q := outq_clear_loop (Z.to_nat (oq_count q)) q in
  mkOutq (oq_slots q) (oq_cap q) (oq_head q) (oq_head q) (oq_count q).

Definition client_outq_push (data : bytes) (q : client_outq) : client_outq * Z :=
  if oq_cap q =? 0 then (q, - KITH_EINVAL)
  else if oq_cap q <=? oq_count q then (q, - KITH_EBUSY)
  else (mkOutq (<[Z.to_nat (oq_tail q) := data]> (oq_slots q)) (oq_cap q) (oq_head q)
          (next_slot (oq_tail q) (oq_cap q)) (oq_count q + 1), 0).

(** The code, and what is copied to the caller's buffer of [out_cap] bytes. *)
Definition client_outq_pop (out_cap : Z) (q : client_outq) : client_outq * (Z * bytes) :=
  if oq_cap q =? 0 then (q, (- KITH_EINVAL, []))
  else if oq_count q =? 0 then (q, (- KITH_EAGAIN, []))
  else
    let slot := nth (Z.to_nat (oq_head q)) (oq_slots q) [] in
    if out_cap <? zlen slot then (q, (- KITH_EOVERFLOW, [])) else
    (mkOutq (<[Z.to_nat (oq_head q) := []]> (oq_slots q)) (oq_cap q)
       (next_slot (oq_head q) (oq_cap q)) (oq_tail q) (oq_count q - 1), (0, slot)).

(** ** The event ring *)

Definition KITH_CLIENT_EVENT_PAYLOAD_MAX : Z := 1024.

Record event_record := mkEventRecord {
  er_ts_mono_ns : Z;
  er_type_id : Z;
  er_payload_len : Z;
  er_payload : bytes;
}.

(** [kith_alloc_zero] *)
Definition zero_record : event_record :=
  mkEventRecord 0 0 0 (replicate (Z.to_nat KITH_CLIENT_EVENT_PAYLOAD_MAX) x00).

Record eventq := mkEventq {
  eq_records : list event_record;
  eq_cap : Z;
  eq_head : Z;
  eq_tail : Z;
  eq_count : Z;
}.

Definition client_eventq_clear (q : eventq) : eventq := mkEventq (eq_records q) (eq_cap q) 0 0 0.

(** The stored copy: the payload, then zeros. *)
Definition stored (ts type_id payload_len : Z) (payload : bytes) : event_record :=
  mkEventRecord ts type_id payload_len
    (take (Z.to_nat payload_len) payload ++ replicate (Z.to_nat (KITH_CLIENT_EVENT_PAYLOAD_MAX - payload_len)) x00).

Definition client_eventq_push (event : event_record) (q : eventq) : eventq * Z :=
  if eq_cap q =? 0 then (q, - KITH_EINVAL)
  else if KITH_CLIENT_EVENT_PAYLOAD_MAX <? er_payload_len event then (q, - KITH_EOVERFLOW)
  else
    let '(head, count) := if eq_cap q <=? eq_count q then (next_slot (eq_head q) (eq_cap q), eq_count q - 1)
                          else (eq_head q, eq_count q) in
    (mkEventq (<[Z.to_nat (eq_tail q) :=
                 stored (er_ts_mono_ns event) (er_type_id event) (er_payload_len event) (er_payload event)]> (eq_records q))
       (eq_cap q) head (next_slot (eq_tail q) (eq_cap q)) (count + 1), 0).

(** [while (drained < out_cap && *count > 0u)] *)
Fixpoint eventq_drain_loop (turns : nat) (q : eventq) : eventq * list event_record :=
  match turns with
  | O => (q, [])
  | S n =>
      if eq_count q =? 0 then (q, []) else
      let rec := nth (Z.to_nat (eq_head q)) (eq_records q) zero_record in
      let '(q, out) := eventq_drain_loop n (mkEventq (eq_records q) (eq_cap q) (next_slot (eq_head q) (eq_cap q))
                                              (eq_tail q) (eq_count q - 1)) in
      (q, rec :: out)
  end.

Definition client_eventq_drain (out_cap : Z) (q : eventq) : eventq * (Z * list event_record) :=
  if (eq_cap q =? 0) || (out_cap =? 0) then (q, (- KITH_EINVAL, [])) else
  let '(q, out) := eventq_drain_loop (Z.to_nat out_cap) q in (q, (0, out)).

(** ** What a ring holds *)

Record ring_ok (cap head tail count : Z) : Prop := {
  ri_cap : 0 < cap ≤ UINT32_MAX;
  ri_head : 0 ≤ head < cap;
  ri_count : 0 ≤ count ≤ cap;
  ri_tail : tail = (head + count) mod cap;
}.

(** From the oldest. *)
Definition ring_items {A} (d : A) (slots : list A) (cap head count : Z) : list A :=
  (λ i, nth (Z.to_nat ((head + Z.of_nat i) mod cap)) slots d) <$> seq 0 (Z.to_nat count).

Lemma next_slot_mod i cap : 0 < cap ≤ UINT32_MAX → 0 ≤ i < cap → next_slot i cap = (i + 1) mod cap.
Proof. unfold next_slot, u32, UINT32_MAX. intros. by rewrite (Z.mod_small (i + 1)) by lia. Qed.

Section Ring.
Context {A : Type} (d : A).
Implicit Types (slots : list A).

Lemma ring_items_pop slots cap head tail count : ring_ok cap head tail count → 0 < count →
  ring_items d slots cap head count =
  nth (Z.to_nat head) slots d :: ring_items d slots cap ((head + 1) mod cap) (count - 1).
Proof.
  intros [Hc Hh Hn _] H0. unfold ring_items. replace (Z.to_nat count) with (S (Z.to_nat (count - 1))) by lia. cbn [seq fmap list_fmap].
  rewrite Z.add_0_r, Z.mod_small by lia. f_equal. rewrite <- seq_shift. change (map S) with (fmap (M := list) S).
  rewrite <- list_fmap_compose. apply list_fmap_ext. intros _ i _. cbn [compose]. do 2 f_equal.
  rewrite Zplus_mod_idemp_l. f_equal. lia.
Qed.

Lemma nth_insert_ne slots (i j : nat) x : i ≠ j → nth j (<[i := x]> slots) d = nth j slots d.
Proof. intros Hij. by rewrite !nth_lookup, list_lookup_insert_ne. Qed.

Lemma ring_items_insert slots cap head count i x : 0 < cap → 0 ≤ i →
  (∀ k, 0 ≤ k < count → (head + k) mod cap ≠ i) →
  ring_items d (<[Z.to_nat i := x]> slots) cap head count = ring_items d slots cap head count.
Proof.
  intros Hc Hi Hne. apply list_fmap_ext. intros j k [-> Hk]%lookup_seq. apply nth_insert_ne.
  pose proof (Hne (Z.of_nat (0 + j)) ltac:(lia)). pose proof (Z.mod_pos_bound (head + Z.of_nat (0 + j)) cap Hc). lia.
Qed.

Lemma mod_inj cap a b : 0 < cap → a mod cap = b mod cap → - cap < a - b < cap → a = b.
Proof.
  intros Hc E Hab. pose proof (Z.div_mod a cap ltac:(lia)). pose proof (Z.div_mod b cap ltac:(lia)).
  set (x := a / cap) in *. set (y := b / cap) in *. clearbody x y. rewrite E in *. assert (x = y) by nia. subst. lia.
Qed.

Lemma ring_items_push slots cap head tail count x : ring_ok cap head tail count → count < cap → zlen slots = cap →
  ring_items d (<[Z.to_nat tail := x]> slots) cap head (count + 1) = ring_items d slots cap head count ++ [x].
Proof.
  intros [Hc Hh Hn Ht] Hlt Hl. rewrite <- (ring_items_insert slots cap head count tail x).
  - unfold ring_items. replace (Z.to_nat (count + 1)) with (S (Z.to_nat count)) by lia.
    rewrite seq_S, fmap_app. f_equal. cbn [fmap list_fmap]. f_equal. rewrite Nat.add_0_l, Z2Nat.id, <- Ht by lia.
    pose proof (Z.mod_pos_bound (head + count) cap ltac:(lia)). rewrite nth_lookup, list_lookup_insert_eq; [done|].
    unfold zlen in Hl. lia.
  - lia.
  - subst tail. apply Z.mod_pos_bound. lia.
  - intros k Hk E. subst tail. apply mod_inj in E; lia.
Qed.

Lemma ring_push_ok cap head tail count : ring_ok cap head tail count → count < cap →
  ring_ok cap head (next_slot tail cap) (count + 1).
Proof.
  intros [Hc Hh Hn Ht] Hlt. assert (0 ≤ tail < cap) by (subst; apply Z.mod_pos_bound; lia).
  split; [done|done|lia|]. rewrite next_slot_mod by done. subst tail. rewrite Zplus_mod_idemp_l. f_equal. lia.
Qed.

Lemma ring_pop_ok cap head tail count : ring_ok cap head tail count → 0 < count →
  ring_ok cap (next_slot head cap) tail (count - 1).
Proof.
  intros [Hc Hh Hn Ht] H0. rewrite next_slot_mod by done. split; [done|apply Z.mod_pos_bound; lia|lia|].
  rewrite Zplus_mod_idemp_l. subst. f_equal. lia.
Qed.

Lemma ring_items_length slots cap head count : 0 ≤ count → zlen (ring_items d slots cap head count) = count.
Proof. intros Hn. unfold ring_items, zlen. rewrite length_fmap, length_seq. lia. Qed.
End Ring.

(** ** The queue of frames *)

Definition outq_ok (q : client_outq) : Prop :=
  ring_ok (oq_cap q) (oq_head q) (oq_tail q) (oq_count q) ∧ zlen (oq_slots q) = oq_cap q.

(** The frames waiting, oldest first. *)
Definition outq_frames (q : client_outq) : list bytes := ring_items [] (oq_slots q) (oq_cap q) (oq_head q) (oq_count q).

Lemma zlen_insert {A} (l : list A) i x : zlen (<[i := x]> l) = zlen l.
Proof. unfold zlen. by rewrite length_insert. Qed.

Lemma outq_push_spec data q : outq_ok q →
  let '(q', rc) := client_outq_push data q in outq_ok q' ∧ oq_cap q' = oq_cap q ∧
  if oq_cap q <=? zlen (outq_frames q) then rc = - KITH_EBUSY ∧ q' = q
  else rc = 0 ∧ outq_frames q' = outq_frames q ++ [data].
Proof.
  intros [Hr Hl]. pose proof Hr as [Hc Hh Hn Ht]. unfold client_outq_push, outq_frames. rewrite ring_items_length by lia.
  rewrite (proj2 (Z.eqb_neq _ _)) by lia. destruct (Z.leb_spec (oq_cap q) (oq_count q)); [done|]. split; [split|].
  - by apply ring_push_ok.
  - cbn. by rewrite zlen_insert.
  - split; [done|]. split; [done|]. by eapply ring_items_push.
Qed.

(** Removing the oldest frame, and releasing its slot. *)
Lemma outq_shift q : outq_ok q → 0 < oq_count q →
  let q' := mkOutq (<[Z.to_nat (oq_head q) := []]> (oq_slots q)) (oq_cap q) (next_slot (oq_head q) (oq_cap q)) (oq_tail q) (oq_count q - 1) in
  outq_ok q' ∧ outq_frames q = nth (Z.to_nat (oq_head q)) (oq_slots q) [] :: outq_frames q'.
Proof.
  intros [Hr Hl] H0. pose proof Hr as [Hc Hh Hn Ht]. split.
  - split; [by apply ring_pop_ok|]. cbn. by rewrite zlen_insert.
  - unfold outq_frames. cbn. erewrite ring_items_pop by done. f_equal. rewrite ring_items_insert; [by rewrite next_slot_mod|lia|lia|].
    intros k Hk E. rewrite next_slot_mod, Zplus_mod_idemp_l in E by done.
    rewrite <- (Z.mod_small (oq_head q) (oq_cap q)) in E at 2 by lia. apply mod_inj in E; lia.
Qed.

Lemma outq_pop_spec out_cap q : outq_ok q →
  let '(q', (rc, frame)) := client_outq_pop out_cap q in outq_ok q' ∧ oq_cap q' = oq_cap q ∧
  match outq_frames q with
  | [] => rc = - KITH_EAGAIN ∧ frame = [] ∧ q' = q
  | f :: fs => if out_cap <? zlen f then rc = - KITH_EOVERFLOW ∧ frame = [] ∧ q' = q else rc = 0 ∧ frame = f ∧ outq_frames q' = fs
  end.
Proof.
  intros Hok. pose proof Hok as [[Hc Hh Hn Ht] Hl]. unfold client_outq_pop. rewrite (proj2 (Z.eqb_neq _ _)) by lia.
  destruct (Z.eqb_spec (oq_count q) 0) as [E|].
  - split; [done|]. split; [done|]. unfold outq_frames. by rewrite E.
  - destruct (outq_shift q Hok ltac:(lia)) as [Hok' ->]. by destruct (_ <? _).
Qed.

Lemma outq_clear_spec q : outq_ok q →
  outq_ok (client_outq_clear q) ∧ oq_cap (client_outq_clear q) = oq_cap q ∧ outq_frames (client_outq_clear q) = [].
Proof.
  intros Hok. pose proof Hok as [[Hc _ Hn0 _] _]. unfold client_outq_clear. rewrite (proj2 (Z.eqb_neq _ _)) by lia.
  assert (Z.of_nat (Z.to_nat (oq_count q)) = oq_count q) as Hn by lia. revert Hn. generalize (Z.to_nat (oq_count q)) as n. clear Hc Hn0.
  intros n. revert q Hok. induction n as [|n IH]; intros q Hok Hn; cbn [outq_clear_loop].
  - destruct Hok as [[Hc Hh Hc' Ht] Hl]. cbn in *. rewrite <- Hn in *. split; [split; [split; cbn; try done|done]|].
    + by rewrite Z.add_0_r, Z.mod_small.
    + split; [done|]. unfold outq_frames. done.
  - destruct (outq_shift q Hok ltac:(lia)) as [Hok' _]. specialize (IH _ Hok'). cbn in IH. apply IH. lia.
Qed.

(** ** The ring of events *)

Definition eventq_ok (q : eventq) : Prop :=
  ring_ok (eq_cap q) (eq_head q) (eq_tail q) (eq_count q) ∧ zlen (eq_records q) = eq_cap q.

Definition eventq_events (q : eventq) : list event_record :=
  ring_items zero_record (eq_records q) (eq_cap q) (eq_head q) (eq_count q).

Definition stored_event (e : event_record) : event_record :=
  stored (er_ts_mono_ns e) (er_type_id e) (er_payload_len e) (er_payload e).

(** The last [n] of a list. *)
Definition lastn {A} (n : nat) (l : list A) : list A := drop (length l - n) l.

Lemma eventq_push_spec e q : eventq_ok q →
  let '(q', rc) := client_eventq_push e q in eventq_ok q' ∧ eq_cap q' = eq_cap q ∧
  if KITH_CLIENT_EVENT_PAYLOAD_MAX <? er_payload_len e then rc = - KITH_EOVERFLOW ∧ q' = q
  else rc = 0 ∧ eventq_events q' = lastn (Z.to_nat (eq_cap q)) (eventq_events q ++ [stored_event e]).
Proof.
  intros [Hr Hl]. pose proof Hr as [Hc Hh Hn Ht]. unfold client_eventq_push. rewrite (proj2 (Z.eqb_neq _ _)) by lia.
  destruct (_ <? _); [done|]. pose proof (ring_items_length zero_record (eq_records q) (eq_cap q) (eq_head q) (eq_count q) ltac:(lia)) as Hlen.
  fold (eventq_events q) in Hlen. unfold zlen in Hlen. destruct (Z.leb_spec (eq_cap q) (eq_count q)) as [Hfull|Hroom].
  - assert (eq_count q = eq_cap q) as E by lia. pose proof (ring_pop_ok _ _ _ _ Hr ltac:(lia)) as Hr'.
    split; [split; [apply ring_push_ok; [done|lia]|cbn; by rewrite zlen_insert]|]. split; [done|]. split; [done|].
    unfold lastn. rewrite length_app. cbn [length]. unfold eventq_events at 1. cbn [eq_records eq_cap eq_head eq_count].
    rewrite (ring_items_push zero_record _ _ _ _ _ _ Hr') by (done || lia).
    replace (length (eventq_events q) + 1 - Z.to_nat (eq_cap q))%nat with 1%nat by lia.
    unfold eventq_events. rewrite (ring_items_pop zero_record _ _ _ _ _ Hr) by lia. cbn. by rewrite next_slot_mod.
  - split; [split; [by apply ring_push_ok|cbn; by rewrite zlen_insert]|]. split; [done|]. split; [done|].
    unfold lastn. rewrite length_app. cbn [length]. replace (_ - _)%nat with 0%nat by lia. rewrite drop_0.
    by eapply ring_items_push.
Qed.

Lemma eventq_drain_loop_spec n q : eventq_ok q →
  let '(q', out) := eventq_drain_loop n q in eventq_ok q' ∧ eq_cap q' = eq_cap q ∧
  out = take n (eventq_events q) ∧ eventq_events q' = drop n (eventq_events q).
Proof.
  revert q. induction n as [|n IH]; intros q Hok; cbn [eventq_drain_loop]; [by rewrite take_0, drop_0|].
  pose proof Hok as [Hr Hl]. pose proof Hr as [Hc Hh Hn Ht].
  destruct (Z.eqb_spec (eq_count q) 0) as [E|].
  { unfold eventq_events. rewrite E. done. }
  set (q1 := mkEventq _ _ _ _ _).
  assert (eventq_ok q1) as Hok1 by (split; [by apply ring_pop_ok; [|lia]|done]).
  assert (eventq_events q = nth (Z.to_nat (eq_head q)) (eq_records q) zero_record :: eventq_events q1) as ->.
  { unfold eventq_events, q1. cbn. erewrite ring_items_pop by (done || lia). by rewrite next_slot_mod. }
  specialize (IH q1 Hok1). destruct (eventq_drain_loop n q1) as [q' out]. destruct IH as (? & ? & -> & ->). done.
Qed.

Lemma eventq_drain_spec out_cap q : eventq_ok q → 0 < out_cap →
  let '(q', (rc, out)) := client_eventq_drain out_cap q in eventq_ok q' ∧ eq_cap q' = eq_cap q ∧ rc = 0 ∧
  out = take (Z.to_nat out_cap) (eventq_events q) ∧ eventq_events q' = drop (Z.to_nat out_cap) (eventq_events q).
Proof.
  intros Hok Ho. pose proof Hok as [[Hc _ _ _] _]. unfold client_eventq_drain. rewrite !(proj2 (Z.eqb_neq _ _)) by lia. cbn [orb].
  pose proof (eventq_drain_loop_spec (Z.to_nat out_cap) q Hok) as H. destruct (eventq_drain_loop _ q). tauto.
Qed.

(** ** Refinement

    Runs of operations on both rings, against a bounded queue and a list of
    the latest events. *)

Inductive ring_op :=
  | Push (data : bytes)
  | Pop (out_cap : Z)
  | ClearFrames
  | Publish (event : event_record)
  | Drain (out_cap : Z).

(** What an operation reports. *)
Inductive ring_reply := Code (rc : Z) | Frame (rc : Z) (frame : bytes) | Events (rc : Z) (out : list event_record).

Definition ring_step (o : ring_op) (s : client_outq * eventq) : (client_outq * eventq) * ring_reply :=
  let '(q, ev) := s in
  match o with
  | Push data => let '(q, rc) := client_outq_push data q in ((q, ev), Code rc)
  | Pop n => let '(q, (rc, f)) := client_outq_pop n q in ((q, ev), Frame rc f)
  | ClearFrames => ((client_outq_clear q, ev), Code 0)
  | Publish e => let '(ev, rc) := client_eventq_push e ev in ((q, ev), Code rc)
  | Drain n => let '(ev, (rc, out)) := client_eventq_drain n ev in ((q, ev), Events rc out)
  end.

Definition spec_step (out_cap event_cap : Z) (o : ring_op) (s : list bytes * list event_record)
    : (list bytes * list event_record) * ring_reply :=
  let '(fs, es) := s in
  match o with
  | Push data => if out_cap <=? zlen fs then (s, Code (- KITH_EBUSY)) else ((fs ++ [data], es), Code 0)
  | Pop n =>
      match fs with
      | [] => (s, Frame (- KITH_EAGAIN) [])
      | f :: rest => if n <? zlen f then (s, Frame (- KITH_EOVERFLOW) []) else ((rest, es), Frame 0 f)
      end
  | ClearFrames => (([], es), Code 0)
  | Publish e =>
      if KITH_CLIENT_EVENT_PAYLOAD_MAX <? er_payload_len e then (s, Code (- KITH_EOVERFLOW))
      else ((fs, lastn (Z.to_nat event_cap) (es ++ [stored_event e])), Code 0)
  | Drain n =>
      if n =? 0 then (s, Events (- KITH_EINVAL) [])
      else ((fs, drop (Z.to_nat n) es), Events 0 (take (Z.to_nat n) es))
  end.

Fixpoint run {S} (step : ring_op → S → S * ring_reply) (ops : list ring_op) (s : S) : S * list ring_reply :=
  match ops with
  | [] => (s, [])
  | o :: ops => let '(s, r) := step o s in let '(s, rs) := run step ops s in (s, r :: rs)
  end.

Definition rings_hold (s : client_outq * eventq) (l : list bytes * list event_record) : Prop :=
  outq_ok s.1 ∧ eventq_ok s.2 ∧ outq_frames s.1 = l.1 ∧ eventq_events s.2 = l.2.

(** A size argument is unsigned. *)
Definition op_ok (o : ring_op) : Prop := match o with Drain n => 0 ≤ n | _ => True end.

(** [kith_alloc_zero] of both arrays. *)
Definition empty_outq (cap : Z) : client_outq := mkOutq (replicate (Z.to_nat cap) []) cap 0 0 0.
Definition empty_eventq (cap : Z) : eventq := mkEventq (replicate (Z.to_nat cap) zero_record) cap 0 0 0.

Lemma empty_outq_ok cap : 0 < cap ≤ UINT32_MAX → outq_ok (empty_outq cap) ∧ outq_frames (empty_outq cap) = [].
Proof. intros Hc. split; [|done]. split; [split; cbn; (done || lia)|]. unfold zlen. cbn. rewrite length_replicate. lia. Qed.

Lemma empty_eventq_ok cap : 0 < cap ≤ UINT32_MAX → eventq_ok (empty_eventq cap) ∧ eventq_events (empty_eventq cap) = [].
Proof. intros Hc. split; [|done]. split; [split; cbn; (done || lia)|]. unfold zlen. cbn. rewrite length_replicate. lia. Qed.

Ltac both := unfold rings_hold; cbn [fst snd]; split_and!; done.

Lemma ring_step_spec o s l : rings_hold s l → op_ok o →
  let '(s', r) := ring_step o s in let '(l', r') := spec_step (oq_cap s.1) (eq_cap s.2) o l in
  rings_hold s' l' ∧ r = r' ∧ oq_cap s'.1 = oq_cap s.1 ∧ eq_cap s'.2 = eq_cap s.2.
Proof.
  destruct s as [q ev], l as [fs es]. intros (Hq & He & Hf & Hv) Ho. cbn [fst snd] in Hq, He, Hf, Hv. subst fs es. destruct o as [data|n| |e|n]; cbn [ring_step spec_step fst snd].
  - pose proof (outq_push_spec data q Hq) as H. destruct (client_outq_push data q) as [q' rc]. destruct H as (H1 & H2 & H3).
    destruct (_ <=? _); destruct H3 as [-> H3]; [subst; both|]. both.
  - pose proof (outq_pop_spec n q Hq) as H. destruct (client_outq_pop n q) as [q' [rc f]]. destruct H as (H1 & H2 & H3).
    destruct (outq_frames q) as [|f0 fs] eqn:Ef; [|destruct (_ <? _)]; destruct H3 as (-> & -> & H3); subst; both.
  - pose proof (outq_clear_spec q Hq) as (H1 & H2 & H3). both.
  - pose proof (eventq_push_spec e ev He) as H. destruct (client_eventq_push e ev) as [ev' rc]. destruct H as (H1 & H2 & H3).
    destruct (_ <? _); destruct H3 as [-> H3]; [subst; both|]. both.
  - cbn in Ho. destruct (Z.eqb_spec n 0) as [->|Hn].
    + unfold client_eventq_drain. rewrite orb_true_r. both.
    + pose proof (eventq_drain_spec n ev He ltac:(lia)) as H. destruct (client_eventq_drain n ev) as [ev' [rc out]].
      destruct H as (H1 & H2 & -> & -> & H3). both.
Qed.

Lemma rings_run ops s l : rings_hold s l → Forall op_ok ops →
  let '(s', rs) := run ring_step ops s in let '(l', rs') := run (spec_step (oq_cap s.1) (eq_cap s.2)) ops l in
  rs = rs' ∧ rings_hold s' l'.
Proof.
  intros Hh Hops. revert s l Hh. induction Hops as [|o ops Hop _ IH]; intros s l Hh; cbn [run]; [done|].
  pose proof (ring_step_spec o s l Hh Hop) as Hs. destruct (ring_step o s) as [s1 r], (spec_step _ _ o l) as [l1 r'].
  destruct Hs as (Hh1 & -> & <- & <-). specialize (IH s1 l1 Hh1). destruct (run ring_step ops s1), (run _ ops l1).
  by destruct IH as (-> & ?).
Qed.

(** C14: Over any sequence of calls, the outbound ring and the event ring
    answer as plain lists do: the outbound queue is first in first out,
    refuses a frame when full and keeps a frame that does not fit the caller's
    buffer; the event ring holds the latest events, drops the oldest when full
    and refuses an oversized payload. *)
Theorem client_rings_refine out_cap event_cap ops :
  0 < out_cap ≤ UINT32_MAX → 0 < event_cap ≤ UINT32_MAX → Forall op_ok ops →
  let '(s, rs) := run ring_step ops (empty_outq out_cap, empty_eventq event_cap) in
  let '(l, rs') := run (spec_step out_cap event_cap) ops ([], []) in
  rs = rs' ∧ outq_frames s.1 = l.1 ∧ eventq_events s.2 = l.2.
Proof.
  intros Ho He Hops. destruct (empty_outq_ok out_cap Ho) as [Ho1 Ho2], (empty_eventq_ok event_cap He) as [He1 He2].
  pose proof (rings_run ops (empty_outq out_cap, empty_eventq event_cap) ([], [])) as H. cbn [fst snd] in H.
  specialize (H ltac:(both) Hops). cbn [empty_outq empty_eventq oq_cap eq_cap] in H. destruct (run ring_step _ _), (run (spec_step _ _) _ _).
  by destruct H as (-> & _ & _ & ? & ?).
Qed.
