(* ===== verification/ClientCore.v ===== *)
(** * The client engine ([src/src/client/client.c], [src/src/client/bootstrap.c])

    Bootstrap, keepalive, reconnect schedule, commands and events over the two
    rings and the frame codec.  Allocation succeeds and pointers are not null;
    the step callbacks answer without calling the engine. *)

From S2P Require Import Prelude PyStruct PyWire Proto ClientRing.

#[local] Open Scope Z_scope.

Definition u64 (z : Z) : Z := z mod 2 ^ 64.

(** ** Parameters *)

Record client_params := mkParams {
  cp_outbound_cap : Z;
  cp_event_cap : Z;
  cp_ping_type_id : Z;
  cp_pong_type_id : Z;
  cp_ping_interval_ms : Z;
  cp_reconnect_base_ms : Z;
  cp_reconnect_max_ms : Z;
  cp_reconnect_max_attempts : Z;
}.

Definition KITH_CLIENT_DEFAULT_OUTBOUND_CAP : Z := 64.
Definition KITH_CLIENT_DEFAULT_EVENT_CAP : Z := 256.
Definition KITH_CLIENT_DEFAULT_PING_INTERVAL_MS : Z := 1000.
Definition KITH_CLIENT_DEFAULT_RECONNECT_BASE_MS : Z := 250.
Definition KITH_CLIENT_DEFAULT_RECONNECT_MAX_MS : Z := 4000.

Definition or_default (z d : Z) : Z := if z =? 0 then d else z.

Definition resolve_defaults (p : client_params) : client_params :=
  mkParams (or_default (cp_outbound_cap p) KITH_CLIENT_DEFAULT_OUTBOUND_CAP)
    (or_default (cp_event_cap p) KITH_CLIENT_DEFAULT_EVENT_CAP) (cp_ping_type_id p) (cp_pong_type_id p)
    (or_default (cp_ping_interval_ms p) KITH_CLIENT_DEFAULT_PING_INTERVAL_MS)
    (or_default (cp_reconnect_base_ms p) KITH_CLIENT_DEFAULT_RECONNECT_BASE_MS)
    (or_default (cp_reconnect_max_ms p) KITH_CLIENT_DEFAULT_RECONNECT_MAX_MS) (cp_reconnect_max_attempts p).

(** With the structure's size and version as the caller declares them. *)
Definition params_validate (p : client_params) : bool := negb (cp_reconnect_max_ms p <? cp_reconnect_base_ms p).

(** ** State *)

Inductive bootstrap_state := IDLE | RUNNING | READY | FAILED.

(** The number of a state ([kith_client_bootstrap_state]). *)
Definition state_code (s : bootstrap_state) : Z := match s with IDLE => 0 | RUNNING => 1 | READY => 2 | FAILED => 3 end.

(** [on_enter] answers its code, the type and the payload of the frame to
    send; [on_reply] its code and the next step. *)
Record bootstrap_step := mkStep {
  sp_await_type_id : Z;
  sp_on_enter : option (Z * Z * bytes);
  sp_on_reply : option (frame → Z * Z);
}.

Record bootstrap := mkBootstrap {
  bt_steps : list bootstrap_step;
  bt_current_step : Z;
  bt_state : bootstrap_state;
  bt_configured : bool;
}.

Definition step_count (b : bootstrap) : Z := zlen (bt_steps b).

Record link := mkLink {
  ln_connected : bool;
  ln_awaiting_pong : bool;
  ln_reconnect_due : bool;
  ln_reconnect_attempts : Z;
  ln_last_reconnect_delay_ms : Z;
  ln_next_ping_due_ms : Z;
  ln_last_ping_sent_ms : Z;
  ln_next_reconnect_due_ms : Z;
}.

Record rtt := mkRtt { rt_last_ms : Z; rt_min_ms : Z; rt_max_ms : Z; rt_sum_ms : Z; rt_samples : Z }.

Record kith_client := mkKithClient {
  kc_params : client_params;
  kc_outq : client_outq;
  kc_events : eventq;
  kc_bootstrap : bootstrap;
  kc_link : link;
  kc_rtt : rtt;
  kc_next_cmd_id : Z;
  kc_commands_submitted : Z;
}.

Definition with_outq (q : client_outq) (c : kith_client) : kith_client :=
  mkKithClient (kc_params c) q (kc_events c) (kc_bootstrap c) (kc_link c) (kc_rtt c) (kc_next_cmd_id c) (kc_commands_submitted c).
Definition with_events (q : eventq) (c : kith_client) : kith_client :=
  mkKithClient (kc_params c) (kc_outq c) q (kc_bootstrap c) (kc_link c) (kc_rtt c) (kc_next_cmd_id c) (kc_commands_submitted c).
Definition with_bootstrap (b : bootstrap) (c : kith_client) : kith_client :=
  mkKithClient (kc_params c) (kc_outq c) (kc_events c) b (kc_link c) (kc_rtt c) (kc_next_cmd_id c) (kc_commands_submitted c).
Definition with_link (l : link) (c : kith_client) : kith_client :=
  mkKithClient (kc_params c) (kc_outq c) (kc_events c) (kc_bootstrap c) l (kc_rtt c) (kc_next_cmd_id c) (kc_commands_submitted c).
Definition with_rtt (r : rtt) (c : kith_client) : kith_client :=
  mkKithClient (kc_params c) (kc_outq c) (kc_events c) (kc_bootstrap c) (kc_link c) r (kc_next_cmd_id c) (kc_commands_submitted c).

Definition no_link : link := mkLink false false false 0 0 0 0 0.
Definition no_rtt : rtt := mkRtt 0 0 0 0 0.

(** The handle, or the code of what is wrong with the parameters. *)
Definition kith_client_create (params : client_params) : Z + kith_client :=
  if negb (params_validate params) then inl (- KITH_EINVAL) else
  let r := resolve_defaults params in
  inr (mkKithClient r (empty_outq (cp_outbound_cap r)) (empty_eventq (cp_event_cap r)) (mkBootstrap [] 0 IDLE false) no_link no_rtt 1 0).

(** ** Sending *)

Definition client_encode_and_enqueue (p : proto) (type_id flags correlation_id : Z) (payload : bytes) (c : kith_client)
    : kith_client * Z :=
  let '(frame_len, _) := kith_proto_encode p type_id flags correlation_id payload None in
  if frame_len =? 0 then (c, - KITH_EOVERFLOW) else
  let '(_, buf) := kith_proto_encode p type_id flags correlation_id payload (Some frame_len) in
  let '(q, rc) := client_outq_push (take (Z.to_nat (u32 frame_len)) buf) (kc_outq c) in
  (with_outq q c, rc).

Definition kith_client_pop_outbound (cap : Z) (c : kith_client) : kith_client * (Z * bytes) :=
  let '(q, r) := client_outq_pop cap (kc_outq c) in (with_outq q c, r).

Definition kith_client_submit_interactive (p : proto) (type_id flags correlation_id : Z) (payload : bytes) (c : kith_client)
    : kith_client * (Z * Z) :=
  let '(c, rc) := client_encode_and_enqueue p type_id flags correlation_id payload c in
  if negb (rc =? 0) then (c, (rc, 0)) else
  (mkKithClient (kc_params c) (kc_outq c) (kc_events c) (kc_bootstrap c) (kc_link c) (kc_rtt c)
     (u64 (kc_next_cmd_id c + 1)) (u64 (kc_commands_submitted c + 1)), (0, kc_next_cmd_id c)).

(** ** Bootstrap *)

Definition set_state (s : bootstrap_state) (b : bootstrap) : bootstrap :=
  mkBootstrap (bt_steps b) (bt_current_step b) s (bt_configured b).
Definition set_step (i : Z) (b : bootstrap) : bootstrap := mkBootstrap (bt_steps b) i (bt_state b) (bt_configured b).

Definition kith_client_configure_bootstrap (steps : list bootstrap_step) (c : kith_client) : kith_client * Z :=
  if bt_configured (kc_bootstrap c) then (c, - KITH_ESTATE)
  else (with_bootstrap (mkBootstrap steps 0 IDLE true) c, 0).

Definition client_bootstrap_reset (b : bootstrap) : bootstrap := set_state IDLE (set_step 0 b).

Definition CLIENT_STEP_PAYLOAD_CAP : Z := 4096.

Definition bootstrap_failed (c : kith_client) : kith_client * Z :=
  (with_bootstrap (set_state FAILED (kc_bootstrap c)) c, - KITH_ESTATE).

Definition bootstrap_enter_step (p : proto) (step_idx : Z) (c : kith_client) : kith_client * Z :=
  match bt_steps (kc_bootstrap c) !! Z.to_nat step_idx with
  | None => (with_bootstrap (set_state READY (kc_bootstrap c)) c, 0)
  | Some step =>
      let c := with_bootstrap (set_step step_idx (kc_bootstrap c)) c in
      match sp_on_enter step with
      | None => (c, 0)
      | Some (rc, type_id, payload) =>
          if negb (rc =? 0) then bootstrap_failed c else
          let '(c, rc) := client_encode_and_enqueue p type_id 0 0 payload c in
          if negb (rc =? 0) then bootstrap_failed c else (c, 0)
      end
  end.

Definition client_bootstrap_start (p : proto) (c : kith_client) : kith_client * Z :=
  let c := with_bootstrap (client_bootstrap_reset (kc_bootstrap c)) c in
  if step_count (kc_bootstrap c) =? 0 then (with_bootstrap (set_state READY (kc_bootstrap c)) c, 0)
  else bootstrap_enter_step p 0 (with_bootstrap (set_state RUNNING (kc_bootstrap c)) c).

Definition is_running (s : bootstrap_state) : bool := match s with RUNNING => true | _ => false end.

(** The step the bootstrap waits in. *)
Definition current (b : bootstrap) : option bootstrap_step := bt_steps b !! Z.to_nat (bt_current_step b).

Definition client_bootstrap_matches (c : kith_client) (f : frame) : bool :=
  is_running (bt_state (kc_bootstrap c)) &&
  match current (kc_bootstrap c) with
  | None => false
  | Some step => (sp_await_type_id step =? 0) || (sp_await_type_id step =? fm_type_id f)
  end.

(** A running bootstrap is in one of its steps (see [client_ok]). *)
Definition client_bootstrap_feed (p : proto) (f : frame) (c : kith_client) : kith_client * Z :=
  let b := kc_bootstrap c in
  if negb (is_running (bt_state b)) then (c, 0) else
  match current b with
  | None => (c, 0)
  | Some step =>
      let '(rc, next_step) := match sp_on_reply step with
                               | Some reply => let '(rc, next) := reply f in (rc, u32 next)
                               | None => (0, u32 (bt_current_step b + 1))
                               end in
      if negb (rc =? 0) then bootstrap_failed c
      else if step_count b <? next_step then (with_bootstrap (set_state FAILED b) c, 0)
      else if next_step =? step_count b then (with_bootstrap (set_state READY b) c, 0)
      else bootstrap_enter_step p next_step c
  end.

(** ** Connection *)

(** Doubling from the base, [attempt - 1] times or up to the limit. *)
Fixpoint delay_loop (shifts : nat) (delay max_delay : Z) : Z :=
  match shifts with
  | O => delay
  | S n =>
      if negb (delay <? max_delay) then delay else
      let delay := u64 (Z.shiftl delay 1) in
      if max_delay <? delay then max_delay else delay_loop n delay max_delay
  end.

Definition client_compute_reconnect_delay (c : kith_client) (attempt_number : Z) : Z :=
  let max_delay := cp_reconnect_max_ms (kc_params c) in
  let shifts := if 0 <? attempt_number then attempt_number - 1 else 0 in
  let delay := delay_loop (Z.to_nat shifts) (cp_reconnect_base_ms (kc_params c)) max_delay in
  u32 (if max_delay <? delay then max_delay else delay).

Definition kith_client_on_connected (p : proto) (now_ms : Z) (c : kith_client) : kith_client * Z :=
  let pings := negb (cp_ping_type_id (kc_params c) =? 0) && (0 <? cp_ping_interval_ms (kc_params c)) in
  let next_ping := if pings then u64 (now_ms + cp_ping_interval_ms (kc_params c)) else 0 in
  let c := with_rtt no_rtt (with_link (mkLink true false false 0 0 next_ping 0 0) c) in
  client_bootstrap_start p (with_outq (client_outq_clear (kc_outq c)) c).

Definition client_schedule_reconnect (now_ms : Z) (c : kith_client) : kith_client * Z :=
  let l := kc_link c in
  let max_attempts := cp_reconnect_max_attempts (kc_params c) in
  if (0 <? max_attempts) && (max_attempts <=? ln_reconnect_attempts l) then
    (with_link (mkLink (ln_connected l) (ln_awaiting_pong l) (ln_reconnect_due l) (ln_reconnect_attempts l)
       (ln_last_reconnect_delay_ms l) (ln_next_ping_due_ms l) (ln_last_ping_sent_ms l) 0) c, 0)
  else
    let attempts := u32 (ln_reconnect_attempts l + 1) in
    let delay := client_compute_reconnect_delay c attempts in
    (with_link (mkLink (ln_connected l) (ln_awaiting_pong l) (ln_reconnect_due l) attempts delay
       (ln_next_ping_due_ms l) (ln_last_ping_sent_ms l) (u64 (now_ms + delay))) c, 0).

Definition kith_client_on_disconnected (now_ms : Z) (c : kith_client) : kith_client * Z :=
  let l := kc_link c in
  let c := with_link (mkLink false false false (ln_reconnect_attempts l) (ln_last_reconnect_delay_ms l) 0
             (ln_last_ping_sent_ms l) (ln_next_reconnect_due_ms l)) c in
  let c := with_bootstrap (client_bootstrap_reset (kc_bootstrap c)) c in
  client_schedule_reconnect now_ms (with_outq (client_outq_clear (kc_outq c)) c).

Definition kith_client_on_connect_failed (now_ms : Z) (c : kith_client) : kith_client * Z := client_schedule_reconnect now_ms c.

(** ** Receiving *)

Definition client_record_rtt (rtt_ms : Z) (r : rtt) : rtt :=
  mkRtt rtt_ms
    (if (rt_samples r =? 0) || (rtt_ms <? rt_min_ms r) then rtt_ms else rt_min_ms r)
    (if (rt_samples r =? 0) || (rt_max_ms r <? rtt_ms) then rtt_ms else rt_max_ms r)
    (u64 (rt_sum_ms r + rtt_ms))
    (if rt_samples r <? UINT32_MAX then rt_samples r + 1 else rt_samples r).

Definition clear_awaiting (l : link) : link :=
  mkLink (ln_connected l) false (ln_reconnect_due l) (ln_reconnect_attempts l) (ln_last_reconnect_delay_ms l)
    (ln_next_ping_due_ms l) (ln_last_ping_sent_ms l) (ln_next_reconnect_due_ms l).

Definition handle_pong (f : frame) (now_ms : Z) (c : kith_client) : kith_client * Z :=
  let l := kc_link c in
  if ln_awaiting_pong l && (8 <=? zlen (fm_payload f)) then
    let sent_ms := of_be (take 8 (fm_payload f)) in
    let c := if (sent_ms =? ln_last_ping_sent_ms l) && (sent_ms <=? now_ms)
             then with_rtt (client_record_rtt (Z.min (now_ms - sent_ms) UINT32_MAX) (kc_rtt c)) c else c in
    (with_link (clear_awaiting l) c, 0)
  else (c, 0).

(** The code, and the frame if the frame handler is called with it. *)
Definition kith_client_feed_frame (p : proto) (f : frame) (now_ms : Z) (c : kith_client) : kith_client * (Z * option frame) :=
  if negb (cp_pong_type_id (kc_params c) =? 0) && (fm_type_id f =? cp_pong_type_id (kc_params c)) then
    let '(c, rc) := handle_pong f now_ms c in (c, (rc, None))
  else if client_bootstrap_matches c f then
    let '(c, rc) := client_bootstrap_feed p f c in (c, (rc, None))
  else (c, (0, Some f)).

(** ** Events, timers and status *)

Definition kith_client_publish_event (event : event_record) (c : kith_client) : kith_client * Z :=
  let '(q, rc) := client_eventq_push event (kc_events c) in (with_events q c, rc).

Definition kith_client_drain_events (out_cap : Z) (c : kith_client) : kith_client * (Z * list event_record) :=
  let '(q, r) := client_eventq_drain out_cap (kc_events c) in (with_events q c, r).

(** The ping, when one is due. *)
Definition tick_ping (p : proto) (now_ms : Z) (c : kith_client) : kith_client * Z :=
  let l := kc_link c in
  let params := kc_params c in
  if ln_connected l && negb (cp_ping_type_id params =? 0) && (0 <? cp_ping_interval_ms params)
     && negb (ln_awaiting_pong l) && (ln_next_ping_due_ms l <=? now_ms) then
    let '(c, rc) := client_encode_and_enqueue p (cp_ping_type_id params) 0 0 (be_bytes 8 now_ms) c in
    if negb (rc =? 0) then (c, - KITH_ESTATE) else
    (with_link (mkLink (ln_connected l) true (ln_reconnect_due l) (ln_reconnect_attempts l) (ln_last_reconnect_delay_ms l)
       (u64 (now_ms + cp_ping_interval_ms params)) now_ms (ln_next_reconnect_due_ms l)) c, 0)
  else (c, 0).

Definition kith_client_tick (p : proto) (now_ms : Z) (c : kith_client) : kith_client * Z :=
  let '(c, rc) := tick_ping p now_ms c in
  if negb (rc =? 0) then (c, rc) else
  let l := kc_link c in
  if negb (ln_connected l) && (0 <? ln_next_reconnect_due_ms l) && (ln_next_reconnect_due_ms l <=? now_ms) then
    (with_link (mkLink (ln_connected l) (ln_awaiting_pong l) true (ln_reconnect_attempts l) (ln_last_reconnect_delay_ms l)
       (ln_next_ping_due_ms l) (ln_last_ping_sent_ms l) (ln_next_reconnect_due_ms l)) c, 0)
  else (c, 0).

(** State, current step and number of steps. *)
Definition kith_client_bootstrap_status (c : kith_client) : Z * (Z * Z * Z) :=
  (0, (state_code (bt_state (kc_bootstrap c)), bt_current_step (kc_bootstrap c), step_count (kc_bootstrap c))).

Record runtime_status := mkRuntime {
  rs_connected : bool;
  rs_awaiting_pong : bool;
  rs_reconnect_due : bool;
  rs_reconnect_attempts : Z;
  rs_rtt_last_ms : Z;
  rs_rtt_min_ms : Z;
  rs_rtt_max_ms : Z;
  rs_rtt_sum_ms : Z;
  rs_rtt_samples : Z;
  rs_last_ping_sent_ms : Z;
  rs_next_ping_due_ms : Z;
  rs_next_reconnect_due_ms : Z;
}.

Definition kith_client_runtime_status (c : kith_client) : Z * runtime_status :=
  let l := kc_link c in
  let r := kc_rtt c in
  (0, mkRuntime (ln_connected l) (ln_awaiting_pong l) (ln_reconnect_due l) (ln_reconnect_attempts l) (rt_last_ms r)
        (if 0 <? rt_samples r then rt_min_ms r else 0) (rt_max_ms r) (rt_sum_ms r) (rt_samples r)
        (ln_last_ping_sent_ms l) (ln_next_ping_due_ms l) (ln_next_reconnect_due_ms l)).
