(* ===== verification/ClientTheorems.v ===== *)
(** * The client engine is consistent

    Invariants of the engine under any sequence of calls, and its reconnect
    schedule. *)

From S2P Require Import Prelude PyStruct PyWire Proto ClientRing ClientCore.

#[local] Open Scope Z_scope.

(** ** Invariant *)

Definition is_u32 (z : Z) : Prop := 0 ≤ z ≤ UINT32_MAX.

Record params_ok (p : client_params) : Prop := {
  pk_outbound : is_u32 (cp_outbound_cap p);
  pk_event : is_u32 (cp_event_cap p);
  pk_interval : is_u32 (cp_ping_interval_ms p);
  pk_base : is_u32 (cp_reconnect_base_ms p);
  pk_max : is_u32 (cp_reconnect_max_ms p);
  pk_attempts : is_u32 (cp_reconnect_max_attempts p);
}.

(** A running bootstrap is in one of its steps. *)
Definition bootstrap_ok (b : bootstrap) : Prop :=
  step_count b ≤ UINT32_MAX ∧ (bt_state b = RUNNING → 0 ≤ bt_current_step b < step_count b).

(** A pong is awaited, and a reconnect is due, only in the fitting state; the
    schedule respects its limits. *)
Record link_ok (p : client_params) (l : link) : Prop := {
  lo_awaiting : ln_awaiting_pong l = true → ln_connected l = true;
  lo_due : ln_reconnect_due l = true → ln_connected l = false;
  lo_attempts : is_u32 (ln_reconnect_attempts l) ∧ (0 < cp_reconnect_max_attempts p → ln_reconnect_attempts l ≤ cp_reconnect_max_attempts p);
  lo_delay : 0 ≤ ln_last_reconnect_delay_ms l ≤ cp_reconnect_max_ms p;
}.

Definition rtt_ok (r : rtt) : Prop :=
  is_u32 (rt_samples r) ∧ (0 < rt_samples r → 0 ≤ rt_min_ms r ≤ rt_last_ms r ∧ rt_last_ms r ≤ rt_max_ms r ≤ UINT32_MAX).

Record client_ok (c : kith_client) : Prop := {
  co_outq : outq_ok (kc_outq c);
  co_events : eventq_ok (kc_events c);
  co_params : params_ok (kc_params c) ∧ 0 < cp_reconnect_base_ms (kc_params c) ∧ 0 < cp_reconnect_max_ms (kc_params c);
  co_bootstrap : bootstrap_ok (kc_bootstrap c);
  co_link : link_ok (kc_params c) (kc_link c);
  co_rtt : rtt_ok (kc_rtt c);
}.

(** ** Calls *)

Inductive client_op :=
  | OConfigure (steps : list bootstrap_step)
  | OConnected (now_ms : Z)
  | ODisconnected (now_ms : Z)
  | OConnectFailed (now_ms : Z)
  | OFeed (f : frame) (now_ms : Z)
  | OPop (cap : Z)
  | OSubmit (type_id flags correlation_id : Z) (payload : bytes)
  | OPublish (event : event_record)
  | ODrain (out_cap : Z)
  | OTick (now_ms : Z).

Definition client_step (p : proto) (o : client_op) (c : kith_client) : kith_client :=
  match o with
  | OConfigure steps => fst (kith_client_configure_bootstrap steps c)
  | OConnected now => fst (kith_client_on_connected p now c)
  | ODisconnected now => fst (kith_client_on_disconnected now c)
  | OConnectFailed now => fst (kith_client_on_connect_failed now c)
  | OFeed f now => fst (kith_client_feed_frame p f now c)
  | OPop cap => fst (kith_client_pop_outbound cap c)
  | OSubmit t fl k pl => fst (kith_client_submit_interactive p t fl k pl c)
  | OPublish e => fst (kith_client_publish_event e c)
  | ODrain n => fst (kith_client_drain_events n c)
  | OTick now => fst (kith_client_tick p now c)
  end.

Definition call_ok (o : client_op) : Prop :=
  match o with OConfigure steps => zlen steps ≤ UINT32_MAX | ODrain n => 0 ≤ n | _ => True end.

Definition fail_at (c : kith_client) (now_ms : Z) : kith_client := fst (kith_client_on_connect_failed now_ms c).

(** The link after [n] consecutive failures, the last at [now]. *)
Definition backoff (p : client_params) (n now : Z) (l : link) : Prop :=
  let delay := Z.min (cp_reconnect_base_ms p * 2 ^ (n - 1)) (cp_reconnect_max_ms p) in
  if (0 <? cp_reconnect_max_attempts p) && (cp_reconnect_max_attempts p <? n)
  then ln_reconnect_attempts l = cp_reconnect_max_attempts p ∧ ln_next_reconnect_due_ms l = 0
  else ln_reconnect_attempts l = n ∧ ln_last_reconnect_delay_ms l = delay ∧ ln_next_reconnect_due_ms l = u64 (now + delay).

Definition disconnected (l : link) : Prop := ln_connected l = false ∧ ln_reconnect_due l = false.

Lemma with_outq_ok q c : client_ok c → outq_ok q → client_ok (with_outq q c).
Proof. by intros [] ?. Qed.
Lemma with_bootstrap_ok b c : client_ok c → bootstrap_ok b → client_ok (with_bootstrap b c).
Proof. by intros [] ?. Qed.
Lemma with_link_ok l c : client_ok c → link_ok (kc_params c) l → client_ok (with_link l c).
Proof. by intros [] ?. Qed.
Lemma with_rtt_ok r c : client_ok c → rtt_ok r → client_ok (with_rtt r c).
Proof. by intros [] ?. Qed.
Lemma with_events_ok q c : client_ok c → eventq_ok q → client_ok (with_events q c).
Proof. by intros [] ?. Qed.

(** ** Sending *)

Lemma enqueue_ok p t fl k pl c : client_ok c → client_ok (fst (client_encode_and_enqueue p t fl k pl c)).
Proof.
  intros Hc. unfold client_encode_and_enqueue. destruct (kith_proto_encode _ _ _ _ _ None) as [n ?]. destruct (n =? 0); [done|].
  destruct (kith_proto_encode _ _ _ _ _ _) as [? buf].
  pose proof (outq_push_spec (take (Z.to_nat (u32 n)) buf) _ (co_outq _ Hc)) as H. destruct (client_outq_push _ _) as [q rc].
  apply with_outq_ok; [done|apply H].
Qed.

Lemma enqueue_same p t fl k pl c : let c' := fst (client_encode_and_enqueue p t fl k pl c) in
  kc_params c' = kc_params c ∧ kc_bootstrap c' = kc_bootstrap c ∧ kc_link c' = kc_link c ∧ kc_rtt c' = kc_rtt c ∧ kc_events c' = kc_events c.
Proof.
  unfold client_encode_and_enqueue. destruct (kith_proto_encode _ _ _ _ _ None) as [n ?]. destruct (n =? 0); [done|].
  destruct (kith_proto_encode _ _ _ _ _ _) as [? buf]. by destruct (client_outq_push _ _).
Qed.

Lemma clear_ok c : client_ok c → client_ok (with_outq (client_outq_clear (kc_outq c)) c).
Proof. intros Hc. apply with_outq_ok; [done|]. by apply outq_clear_spec, co_outq. Qed.

(** ** Bootstrap *)

Lemma idle_ok b s : bootstrap_ok b → s ≠ RUNNING → bootstrap_ok (set_state s b).
Proof. intros [Hc _] Hs. split; [done|]. cbn. intros ->. done. Qed.

Lemma reset_ok b : bootstrap_ok b → bootstrap_ok (client_bootstrap_reset b).
Proof. intros [Hc _]. split; [done|]. done. Qed.

Lemma failed_ok c : client_ok c → client_ok (fst (bootstrap_failed c)).
Proof. intros Hc. apply with_bootstrap_ok; [done|]. apply idle_ok; [by apply co_bootstrap|done]. Qed.

Lemma enter_ok p i c : client_ok c → 0 ≤ i → client_ok (fst (bootstrap_enter_step p i c)).
Proof.
  intros Hc Hi. unfold bootstrap_enter_step. destruct (_ !! _) as [step|] eqn:E.
  2: { apply with_bootstrap_ok; [done|]. apply idle_ok; [by apply co_bootstrap|done]. }
  assert (client_ok (with_bootstrap (set_step i (kc_bootstrap c)) c)) as Hc1.
  { apply with_bootstrap_ok; [done|]. destruct (co_bootstrap _ Hc) as [Hn _]. split; [done|]. intros _. cbn.
    apply lookup_lt_Some in E. unfold step_count, zlen. cbn. lia. }
  set (c1 := with_bootstrap _ c) in *. destruct (sp_on_enter step) as [[[rc t] pl]|]; [|done].
  destruct (negb _); [by apply failed_ok|]. pose proof (enqueue_ok p t 0 0 pl c1 Hc1) as Hc2.
  destruct (client_encode_and_enqueue p t 0 0 pl c1) as [c2 rc2]. destruct (negb _); [by apply failed_ok|done].
Qed.

Lemma start_ok p c : client_ok c → client_ok (fst (client_bootstrap_start p c)).
Proof.
  intros Hc. unfold client_bootstrap_start. pose proof (co_bootstrap _ Hc) as Hb. set (b := client_bootstrap_reset (kc_bootstrap c)).
  assert (client_ok (with_bootstrap b c)) as Hc1 by (apply with_bootstrap_ok; [done|by apply reset_ok]).
  destruct (Z.eqb_spec (step_count (kc_bootstrap (with_bootstrap b c))) 0) as [|Hn].
  - apply with_bootstrap_ok; [done|]. apply idle_ok; [by apply co_bootstrap|done].
  - apply enter_ok; [|done]. apply with_bootstrap_ok; [done|]. destruct (co_bootstrap _ Hc1) as [Hs _]. split; [done|].
    intros _. cbn in *. unfold step_count, zlen in *. cbn in *. lia.
Qed.

Lemma feed_ok p f c : client_ok c → client_ok (fst (client_bootstrap_feed p f c)).
Proof.
  intros Hc. unfold client_bootstrap_feed. destruct (negb (is_running _)); [done|]. destruct (current _) as [step|]; [|done].
  set (r := match sp_on_reply step with Some _ => _ | None => _ end).
  assert (0 ≤ snd r) as Hr.
  { unfold r, u32. destruct (sp_on_reply step) as [reply|]; [destruct (reply f)|]; cbn; apply Z.mod_pos_bound; lia. }
  destruct r as [rc next]. cbn in Hr. destruct (negb (rc =? 0)); [by apply failed_ok|].
  destruct (_ <? next); [apply with_bootstrap_ok; [done|]; apply idle_ok; [by apply co_bootstrap|done]|].
  destruct (next =? _); [apply with_bootstrap_ok; [done|]; apply idle_ok; [by apply co_bootstrap|done]|].
  by apply enter_ok.
Qed.

(** ** The reconnect schedule *)

Lemma delay_loop_spec n d m : 0 < d < 2 ^ 32 → 0 < m < 2 ^ 32 → Z.min (delay_loop n d m) m = Z.min (d * 2 ^ Z.of_nat n) m.
Proof.
  revert d. induction n as [|n IH]; intros d Hd Hm; cbn [delay_loop]; [by rewrite Z.mul_1_r|].
  rewrite Nat2Z.inj_succ, Z.pow_succ_r by lia. pose proof (Z.pow_pos_nonneg 2 (Z.of_nat n) ltac:(lia) ltac:(lia)).
  destruct (Z.ltb_spec d m) as [Hlt|Hge]; cbn [negb]; [|nia].
  rewrite Z.shiftl_mul_pow2 by lia. unfold u64. rewrite Z.mod_small by lia. change (2 ^ 1) with 2.
  destruct (Z.ltb_spec m (d * 2)) as [Hlt'|Hge']; [nia|]. rewrite IH by lia. f_equal. ring.
Qed.

Lemma reconnect_delay_exact c n : params_ok (kc_params c) → 0 < cp_reconnect_base_ms (kc_params c) → 0 < cp_reconnect_max_ms (kc_params c) → 1 ≤ n →
  client_compute_reconnect_delay c n = Z.min (cp_reconnect_base_ms (kc_params c) * 2 ^ (n - 1)) (cp_reconnect_max_ms (kc_params c)).
Proof.
  intros [_ _ _ Hb Hm _] Hb0 Hm0 Hn. unfold client_compute_reconnect_delay, is_u32, UINT32_MAX in *.
  rewrite (proj2 (Z.ltb_lt 0 n)) by lia. set (b := cp_reconnect_base_ms _) in *. set (m := cp_reconnect_max_ms _) in *.
  pose proof (delay_loop_spec (Z.to_nat (n - 1)) b m ltac:(lia) ltac:(lia)) as H. rewrite Z2Nat.id in H by lia. rewrite <- H.
  assert (0 < Z.min (b * 2 ^ (n - 1)) m) by (pose proof (Z.pow_pos_nonneg 2 (n - 1) ltac:(lia) ltac:(lia)); nia).
  unfold u32. destruct (Z.ltb_spec m (delay_loop (Z.to_nat (n - 1)) b m)); rewrite Z.mod_small by lia; lia.
Qed.

Lemma schedule_ok now c : client_ok c → client_ok (fst (client_schedule_reconnect now c)).
Proof.
  intros Hc. destruct (co_params _ Hc) as (Hp & Hb & Hm). destruct (co_link _ Hc) as [La Ld [Lu Lm] Ly].
  unfold client_schedule_reconnect. set (l := kc_link c) in *. set (p := kc_params c) in *.
  destruct ((0 <? _) && (_ <=? _)) eqn:Hlim; cbn [fst]; (apply with_link_ok; [done|]); split; cbn; try done.
  - assert (ln_reconnect_attempts l + 1 ≤ UINT32_MAX ∨ cp_reconnect_max_attempts p = 0 ∧ ln_reconnect_attempts l = UINT32_MAX) as Hcase.
    { apply andb_false_iff in Hlim as [H0%Z.ltb_ge|H1%Z.leb_gt]; destruct (pk_attempts _ Hp); unfold is_u32 in *; lia. }
    unfold u32. destruct Hcase as [Hr|[E0 E1]].
    + rewrite Z.mod_small by (unfold UINT32_MAX in *; destruct Lu; lia). split; [destruct Lu; split; lia|].
      fold p. apply andb_false_iff in Hlim as [H0%Z.ltb_ge|H1%Z.leb_gt]; lia.
    + rewrite E1. split; [done|]. intros. fold p in H. lia.
  - destruct (Z.eq_dec (u32 (ln_reconnect_attempts l + 1)) 0) as [E|Hne].
    + rewrite E. unfold client_compute_reconnect_delay. cbn. fold p. change (Z.to_nat 0) with O. cbn [delay_loop]. pose proof (pk_max _ Hp). pose proof (pk_base _ Hp).
      unfold u32, is_u32, UINT32_MAX in *. destruct (Z.ltb_spec (cp_reconnect_max_ms p) (cp_reconnect_base_ms p)); rewrite Z.mod_small by lia; lia.
    + rewrite reconnect_delay_exact; [|done|done|done|]; [|unfold u32 in *; pose proof (Z.mod_pos_bound (ln_reconnect_attempts l + 1) (2 ^ 32) ltac:(lia)); lia].
      fold p. split; [|lia]. apply Z.min_glb; [|lia]. apply Z.mul_nonneg_nonneg; [lia|]. apply Z.pow_nonneg. lia.
Qed.

(** ** Every call *)

Lemma connected_ok p now c : client_ok c → client_ok (fst (kith_client_on_connected p now c)).
Proof.
  intros Hc. apply start_ok. apply (clear_ok (with_rtt no_rtt (with_link _ c))). apply with_rtt_ok; [apply with_link_ok; [done|]|done].
  destruct (co_params _ Hc) as ([_ _ _ _ [??] [??]] & _). split; cbn; try done; lia.
Qed.

Lemma disconnected_ok now c : client_ok c → client_ok (fst (kith_client_on_disconnected now c)).
Proof.
  intros Hc. apply schedule_ok. apply (clear_ok (with_bootstrap _ (with_link _ c))).
  destruct (co_link _ Hc) as [La Ld Lu Ly]. apply with_bootstrap_ok; [apply with_link_ok; [done|]; split; done|].
  apply reset_ok. exact (co_bootstrap _ Hc).
Qed.

Lemma record_rtt_ok ms r : rtt_ok r → is_u32 ms → rtt_ok (client_record_rtt ms r).
Proof.
  intros [[S0 S1] Hs] [M0 M1]. unfold client_record_rtt. split; cbn.
  - destruct (Z.ltb_spec (rt_samples r) UINT32_MAX); split; lia.
  - intros _. destruct (Z.eqb_spec (rt_samples r) 0) as [|Hne]; cbn [orb]; [lia|]. specialize (Hs ltac:(lia)).
    destruct (Z.ltb_spec ms (rt_min_ms r)), (Z.ltb_spec (rt_max_ms r) ms); lia.
Qed.

Lemma pong_ok f now c : client_ok c → client_ok (fst (handle_pong f now c)).
Proof.
  intros Hc. unfold handle_pong. destruct (_ && _); [|done]. cbn [fst]. set (sent := of_be _).
  assert (link_ok (kc_params c) (clear_awaiting (kc_link c))) as Hl by (destruct (co_link _ Hc); by split).
  destruct ((sent =? _) && (sent <=? now)) eqn:E; apply with_link_ok; try done. apply with_rtt_ok; [done|].
  apply andb_true_iff in E as [_ E%Z.leb_le]. apply record_rtt_ok; [by apply co_rtt|]. unfold is_u32, UINT32_MAX. lia.
Qed.

Lemma feed_frame_ok p f now c : client_ok c → client_ok (fst (kith_client_feed_frame p f now c)).
Proof.
  intros Hc. unfold kith_client_feed_frame. destruct (_ && _).
  - pose proof (pong_ok f now c Hc). by destruct (handle_pong f now c).
  - destruct (client_bootstrap_matches c f); [|done]. pose proof (feed_ok p f c Hc). by destruct (client_bootstrap_feed p f c).
Qed.

Lemma tick_ok p now c : client_ok c → client_ok (fst (kith_client_tick p now c)).
Proof.
  intros Hc. unfold kith_client_tick. assert (client_ok (fst (tick_ping p now c))) as Hc1.
  { unfold tick_ping. destruct (_ && _) eqn:E; [|done]. pose proof (enqueue_ok p (cp_ping_type_id (kc_params c)) 0 0 (be_bytes 8 now) c Hc) as Hc1.
    pose proof (enqueue_same p (cp_ping_type_id (kc_params c)) 0 0 (be_bytes 8 now) c) as Hs.
    destruct (client_encode_and_enqueue _ _ _ _ _ c) as [c1 rc]. cbn in Hs. destruct (negb (rc =? 0)); [done|]. cbn [fst].
    apply with_link_ok; [done|]. rewrite (proj1 Hs). destruct (co_link _ Hc) as [La Ld Lu Ly]. split; cbn; try done.
    intros _. rewrite !andb_true_iff in E. tauto. }
  destruct (tick_ping p now c) as [c1 rc]. cbn in Hc1. destruct (negb (rc =? 0)); [done|]. destruct (_ && _) eqn:E; [|done]. cbn [fst].
  apply with_link_ok; [done|]. destruct (co_link _ Hc1) as [La Ld Lu Ly]. split; cbn; try done.
  intros _. rewrite !andb_true_iff, negb_true_iff in E. tauto.
Qed.

Lemma client_step_ok p o c : call_ok o → client_ok c → client_ok (client_step p o c).
Proof.
  intros Ho Hc. destruct o as [steps|now|now|now|f now|cap|t fl k pl|e|n|now]; cbn [client_step].
  - unfold kith_client_configure_bootstrap. destruct (bt_configured _); [done|]. apply with_bootstrap_ok; [done|]. split; done.
  - by apply connected_ok.
  - by apply disconnected_ok.
  - by apply schedule_ok.
  - by apply feed_frame_ok.
  - unfold kith_client_pop_outbound. pose proof (outq_pop_spec cap _ (co_outq _ Hc)) as H. destruct (client_outq_pop cap _) as [q [rc f]].
    apply with_outq_ok; [done|apply H].
  - unfold kith_client_submit_interactive. pose proof (enqueue_ok p t fl k pl c Hc) as H.
    destruct (client_encode_and_enqueue p t fl k pl c) as [c1 rc]. destruct (negb _); [done|]. by destruct H.
  - unfold kith_client_publish_event. pose proof (eventq_push_spec e _ (co_events _ Hc)) as H. destruct (client_eventq_push e _) as [q rc].
    apply with_events_ok; [done|apply H].
  - unfold kith_client_drain_events. destruct (Z.eq_dec n 0) as [->|Hn].
    { unfold client_eventq_drain. rewrite orb_true_r. by apply with_events_ok; [|apply co_events]. }
    cbn in Ho. pose proof (eventq_drain_spec n _ (co_events _ Hc) ltac:(lia)) as H. destruct (client_eventq_drain n _) as [q [rc out]].
    apply with_events_ok; [done|apply H].
  - by apply tick_ok.
Qed.

Lemma create_ok params c : params_ok params → kith_client_create params = inr c → client_ok c.
Proof.
  intros [? ? ? ? ? ?] Hc. unfold kith_client_create in Hc. destruct (negb _); [done|]. injection Hc as <-.
  assert (∀ z d, is_u32 z → 0 < d ≤ UINT32_MAX → 0 < or_default z d ≤ UINT32_MAX) as Hd.
  { intros z d [? ?] ?. unfold or_default. destruct (Z.eqb_spec z 0); lia. }
  split; cbn.
  - apply empty_outq_ok. by apply Hd.
  - apply empty_eventq_ok. by apply Hd.
  - split; [split; cbn; try done; (split; [|by apply Hd]); apply Z.lt_le_incl; by apply Hd|]. split; by apply Hd.
  - split; done.
  - split; cbn; try done; (split; [done|]); [lia|]. apply Z.lt_le_incl. by apply Hd.
  - split; done.
Qed.

(** C15: Whatever calls are made on an engine after it was created, in
    whatever order and with whatever times: both rings stay within their
    arrays, a running bootstrap is in one of its steps, a pong is awaited only
    while connected and a reconnect reported due only while not, reconnect
    attempts and delays stay within their configured limits, and the
    round-trip statistics stay ordered. *)
Theorem client_engine_invariant p params c ops : params_ok params → kith_client_create params = inr c → Forall call_ok ops →
  client_ok (foldl (λ c o, client_step p o c) c ops).
Proof.
  intros Hp Hc Hops. pose proof (create_ok params c Hp Hc) as Hok. clear Hc. revert c Hok.
  induction Hops as [|o ops Ho _ IH]; intros c Hok; [done|]. cbn. apply IH. by apply client_step_ok.
Qed.


(** ** Consecutive failures *)

Lemma start_same p c : let c' := fst (client_bootstrap_start p c) in kc_params c' = kc_params c ∧ kc_link c' = kc_link c.
Proof.
  unfold client_bootstrap_start. destruct (_ =? 0); [done|]. unfold bootstrap_enter_step.
  destruct (_ !! _) as [step|]; [|done]. destruct (sp_on_enter step) as [[[rc t] pl]|]; [|done]. destruct (negb _); [done|].
  set (c1 := with_bootstrap _ (with_bootstrap _ _)). pose proof (enqueue_same p t 0 0 pl c1) as Hs.
  destruct (client_encode_and_enqueue p t 0 0 pl c1) as [c2 rc2]. destruct Hs as (E1 & _ & E2 & _). by destruct (negb _).
Qed.

(** One more failure. *)
Lemma fail_backoff c n now : client_ok c → 0 ≤ n < UINT32_MAX → disconnected (kc_link c) →
  n = 0 ∧ ln_reconnect_attempts (kc_link c) = 0 ∨ 1 ≤ n ∧ (∃ t, backoff (kc_params c) n t (kc_link c)) →
  let c' := fail_at c now in
  kc_params c' = kc_params c ∧ disconnected (kc_link c') ∧ backoff (kc_params c) (n + 1) now (kc_link c').
Proof.
  intros Hc Hn [Hd1 Hd2] Hb. destruct (co_params _ Hc) as (Hp & Hb0 & Hm0). pose proof (pk_attempts _ Hp) as [HA0 HA1].
  unfold fail_at, kith_client_on_connect_failed, client_schedule_reconnect. set (p := kc_params c) in *. set (l := kc_link c) in *.
  set (A := cp_reconnect_max_attempts p) in *.
  assert (ln_reconnect_attempts l = if (0 <? A) && (A <? n) then A else n) as Ha.
  { destruct Hb as [[-> ->]|[H1 [t Hb]]]; [by destruct (Z.ltb_spec A 0), (0 <? A); try lia|].
    unfold backoff in Hb. fold A in Hb. by destruct (_ && _); destruct Hb. }
  rewrite Ha. unfold backoff. fold A.
  assert ((0 <? A) && (A <=? (if (0 <? A) && (A <? n) then A else n)) = (0 <? A) && (A <? n + 1)) as ->.
  { destruct (Z.ltb_spec 0 A); cbn [andb]; [|done]. destruct (Z.ltb_spec A n), (Z.ltb_spec A (n + 1)); lia. }
  destruct ((0 <? A) && (A <? n + 1)) eqn:E; cbn [fst].
  - split; [done|]. split; [done|]. split; [|done]. cbn. apply andb_true_iff in E as [->%Z.ltb_lt%Z.ltb_lt E%Z.ltb_lt].
    cbn [andb]. destruct (Z.ltb_spec A n); lia.
  - assert ((0 <? A) && (A <? n) = false) as ->.
    { apply andb_false_iff in E as [->|E%Z.ltb_ge]; [done|]. rewrite (proj2 (Z.ltb_ge A n)) by lia. apply andb_false_r. }
    cbn. unfold u32. rewrite Z.mod_small by (unfold UINT32_MAX in *; lia). rewrite reconnect_delay_exact by (done || lia). done.
Qed.

Lemma fails_backoff ts : ∀ c n t, client_ok c → 1 ≤ n → n + zlen ts ≤ UINT32_MAX → disconnected (kc_link c) → backoff (kc_params c) n t (kc_link c) →
  let c' := foldl fail_at c ts in
  kc_params c' = kc_params c ∧ disconnected (kc_link c') ∧ backoff (kc_params c) (n + zlen ts) (List.last ts t) (kc_link c').
Proof.
  induction ts as [|t1 ts IH]; intros c n t Hc Hn Hlen Hd Hb; cbn.
  { unfold zlen. cbn. by rewrite Z.add_0_r. }
  assert (zlen (t1 :: ts) = 1 + zlen ts) as Hz by (unfold zlen; cbn [length]; lia). rewrite Hz in *.
  pose proof (fail_backoff c n t1 Hc ltac:(unfold zlen in *; lia) Hd ltac:(eauto)) as (E1 & Hd1 & Hb1).
  assert (client_ok (fail_at c t1)) as Hc1 by by apply schedule_ok.
  rewrite <- E1 in Hb1. destruct (IH _ (n + 1) t1 Hc1 ltac:(lia) ltac:(lia) Hd1 Hb1) as (E2 & Hd2 & Hb2).
  rewrite E1 in E2, Hb2. split; [done|]. split; [done|]. replace (n + (1 + zlen ts)) with (n + 1 + zlen ts) by lia.
  replace (match ts with [] => t1 | _ => List.last ts t end) with (List.last ts t1); [done|].
  clear. destruct ts as [|t2 ts]; [done|]. revert t2. induction ts as [|t3 ts IH]; intros t2; [done|]. apply IH.
Qed.

(** After a connection was lost and every following attempt failed, the engine
    has counted the failures, the next attempt is due the base delay doubled
    once per failure, but at most the maximum delay, after the last failure,
    without overflow at any count; past the configured number of attempts none
    is due. A tick reports the reconnect exactly from that time on. *)
Theorem reconnect_backoff_exact p c t0 t1 ts now : client_ok c → 1 + zlen ts ≤ UINT32_MAX →
  let c' := foldl fail_at (fst (kith_client_on_disconnected t1 (fst (kith_client_on_connected p t0 c)))) ts in
  backoff (kc_params c) (1 + zlen ts) (List.last ts t1) (kc_link c')
  ∧ ln_reconnect_due (kc_link (fst (kith_client_tick p now c')))
    = (0 <? ln_next_reconnect_due_ms (kc_link c')) && (ln_next_reconnect_due_ms (kc_link c') <=? now).
Proof.
  intros Hc Hn. pose proof (connected_ok p t0 c Hc) as Hc1. pose proof (disconnected_ok t1 _ Hc1) as Hc2.
  set (c1 := fst (kith_client_on_connected p t0 c)) in *.
  assert (kc_params c1 = kc_params c ∧ ln_reconnect_attempts (kc_link c1) = 0) as [E1 E2].
  { unfold c1, kith_client_on_connected. set (c0 := with_outq _ _). pose proof (start_same p c0) as [-> ->]. done. }
  set (c2 := fst (kith_client_on_disconnected t1 c1)) in *. unfold kith_client_on_disconnected in c2.
  set (c3 := with_outq _ _) in c2.
  assert (client_ok c3) as Hc3.
  { apply (clear_ok (with_bootstrap _ (with_link _ c1))). destruct (co_link _ Hc1) as [? ? ? ?].
    apply with_bootstrap_ok; [apply with_link_ok; [done|]; by split|]. apply reset_ok. exact (co_bootstrap _ Hc1). }
  pose proof (fail_backoff c3 0 t1 Hc3 ltac:(done) ltac:(done) ltac:(by left)) as (E3 & Hd3 & Hb3).
  change (fail_at c3 t1) with c2 in *. change (kc_params c3) with (kc_params c1) in *. rewrite E1 in E3, Hb3.
  rewrite <- E3 in Hb3. destruct (fails_backoff ts c2 1 t1 Hc2 ltac:(lia) Hn Hd3 Hb3) as (E4 & [Hd4 Hd5] & Hb4). rewrite E3 in Hb4.
  split; [done|]. set (c4 := foldl _ _ _) in *. unfold kith_client_tick, tick_ping. rewrite Hd4. cbn [andb negb Z.eqb].
  rewrite Hd4. cbn [negb andb]. by destruct (_ && _).
Qed.
