(* ===== verification/AgentControl.v ===== *)
(** * The control plane of the headless client

    The IPC commands and the HTTP introspection of
    [python/kith/_agent/_control.py] with the client methods they call
    ([python/kith/_agent/ahc.py]), over the C engine as an interface. *)

From S2P Require Import Prelude Outcome PyStruct PyText PyFloat PyJson PyWire PyArith Correlator Proto.

#[local] Open Scope Z_scope.

(** ** Return codes ([python/kith/_agent/_errors.py]) *)

Definition check (code : Z) (context : fstr) : result Z :=
  if code <? 0 then Err (KithClientError (- code) context) else Ok code.

(** ** The engine

    Each call returns its code and what it stores through its pointers;
    [queued] is the number of frames waiting to be popped. *)
Class ClientEngine := {
  engine : Type;
  queued : engine → nat;
  kith_client_submit_interactive : Z → Z → Z → bytes → engine → engine * (Z * Z);
  kith_client_pop_outbound : Z → engine → engine * (Z * bytes);
  kith_proto_register_type_id : bytes → Z → engine → engine * Z;
  kith_client_bootstrap_status : engine → Z * (Z * Z * Z);
  kith_client_runtime_status : engine → Z * (bool * Z * Z);
}.

(** What the calls of a consistent engine keep: a pop that succeeds removes a
    frame; one that fails removes nothing. *)
Class ClientEngineLaws (E : ClientEngine) := {
  engine_ok : engine → Prop;
  pop_ok cap e e' rc frame : engine_ok e → kith_client_pop_outbound cap e = (e', (rc, frame)) →
    engine_ok e' ∧ (if rc <? 0 then queued e' = queued e else (queued e' < queued e)%nat);
  submit_ok t f k payload e : engine_ok e → 0 ≤ t < 2 ^ 16 → 0 ≤ f < 2 ^ 8 → 0 ≤ k < 2 ^ 64 →
    engine_ok (fst (kith_client_submit_interactive t f k payload e));
  register_ok name t e : engine_ok e → engine_ok (fst (kith_proto_register_type_id name t e));
}.

Record ClientStatus := mkStatus {
  st_connected : bool;
  st_bootstrap_state : Z;
  st_bootstrap_step : Z;
  st_bootstrap_step_count : Z;
  st_rtt_last_ms : Z;
  st_reconnect_attempts : Z;
}.

(** A connected transport: what was written to it, and whether it closes. *)
Record transport := mkTransport { tr_written : list bytes; tr_closing : bool }.

(** ** Text of JSON values *)

(** [bool(value)] *)
Definition truthy (v : jval) : bool :=
  match v with
  | JNull => false
  | JBool b => b
  | JInt z => negb (z =? 0)
  | JFloat (DFin _ m _) => negb (m =? 0)
  | JFloat _ => true
  | JStr s => negb (bool_decide (s = []))
  | JArr l => negb (bool_decide (length l = 0%nat))
  | JObj l => negb (bool_decide (length l = 0%nat))
  end.

Definition bad_int : exn := ValueError [Lit "invalid literal for int() with base 10"].
Definition bad_hex : exn := ValueError [Lit "non-hexadecimal number found in fromhex() arg"].

(** [None], [True] and the brackets of a list or a dictionary are not
    digits. *)
Definition to_int (value : jval) : result Z :=
  match value with
  | JBool b => Ok (if b then 1 else 0)
  | JInt z => Ok z
  | JFloat d => int_of_double d
  | JStr s => match py_int 10 s with Some z => Ok z | None => Err bad_int end
  | JNull | JArr _ | JObj _ => Err bad_int
  end.

(** [bytes.fromhex(s)]: pairs of digits, white space between them. *)
Fixpoint fromhex (s : pystr) : result bytes :=
  match s with
  | [] => Ok []
  | c :: s =>
      if int_space c then fromhex s else
      match s with
      | d :: s =>
          match hex_value c, hex_value d with
          | Some h, Some l => bs ← fromhex s; Ok (Z_to_byte (h * 16 + l) :: bs)
          | _, _ => Err bad_hex
          end
      | [] => Err bad_hex
      end
  end.

(** [bytes.fromhex(str(value))]: the text of a float has a point, an exponent
    sign or a letter beyond [f], that of the other values a letter or a
    bracket. *)
Definition hex_payload (value : jval) : result bytes :=
  match value with
  | JStr s => fromhex s
  | JInt z => s ← int_repr z; fromhex s
  | _ => Err bad_hex
  end.

(** [payload.hex()] *)
Definition hex (bs : bytes) : pystr :=
  b ← bs; let z := Z.of_N (Byte.to_N b) in [hex_digit (z / 16); hex_digit (z mod 16)].

Definition event_list (value : jval) : list jval := match value with JArr l => l | _ => [] end.

(** ** Replies *)

(** What an error reply says: the text of an unknown command or of an
    exception. *)
Inductive failure := UnknownCommand (cmd : jval) | Raised (e : exn).
Inductive value := Json (v : jval) | ErrorText (f : failure).

Abbreviation reply := (list (pystr * value)).
Abbreviation request := (list (pystr * jval)).

Definition ack (req_id : jval) (status : string) (fields : reply) : reply :=
  [(str "id", Json req_id); (str "type", Json (JStr (str "ack"))); (str "status", Json (JStr (str status)))] ++ fields.

Definition status_dict (status : ClientStatus) : list (pystr * jval) :=
  [(str "connected", JBool (st_connected status));
   (str "bootstrap_state", JInt (st_bootstrap_state status));
   (str "bootstrap_step", JInt (st_bootstrap_step status));
   (str "bootstrap_step_count", JInt (st_bootstrap_step_count status));
   (str "rtt_last_ms", JInt (st_rtt_last_ms status));
   (str "reconnect_attempts", JInt (st_reconnect_attempts status))].

Definition event_to_dict (event : ClientEvent) : jval :=
  JObj [(str "ts_mono_ns", JInt (ce_ts_mono_ns event)); (str "type_id", JInt (ce_type_id event));
        (str "correlation_id", JInt (ce_correlation_id event)); (str "payload_hex", JStr (hex (ce_payload event)))].

(** [l[i:]] *)
Definition slice_from {A} (i : Z) (l : list A) : list A :=
  drop (Z.to_nat (if i <? 0 then Z.max 0 (zlen l + i) else i)) l.

(** ** The client *)

Section Client.
Context `{E : ClientEngine}.

(** The state the control plane reads and writes. *)
Record client := mkClient {
  cl_connected : bool;
  cl_auto_connect : bool;
  cl_running : bool;
  cl_draining : bool;
  cl_subscribe_all : bool;
  cl_subscriptions : gset Z;
  cl_registered_type_ids : gset Z;
  cl_transport : option transport;
  cl_outbound_empty : bool;
  cl_out_cap : Z;
  cl_engine : engine;
}.

Definition set_auto_connect (b : bool) (c : client) : client :=
  mkClient (cl_connected c) b (cl_running c) (cl_draining c) (cl_subscribe_all c) (cl_subscriptions c)
    (cl_registered_type_ids c) (cl_transport c) (cl_outbound_empty c) (cl_out_cap c) (cl_engine c).
Definition set_running (b : bool) (c : client) : client :=
  mkClient (cl_connected c) (cl_auto_connect c) b (cl_draining c) (cl_subscribe_all c) (cl_subscriptions c)
    (cl_registered_type_ids c) (cl_transport c) (cl_outbound_empty c) (cl_out_cap c) (cl_engine c).
Definition set_draining (b : bool) (c : client) : client :=
  mkClient (cl_connected c) (cl_auto_connect c) (cl_running c) b (cl_subscribe_all c) (cl_subscriptions c)
    (cl_registered_type_ids c) (cl_transport c) (cl_outbound_empty c) (cl_out_cap c) (cl_engine c).
Definition set_subscribe_all (b : bool) (c : client) : client :=
  mkClient (cl_connected c) (cl_auto_connect c) (cl_running c) (cl_draining c) b (cl_subscriptions c)
    (cl_registered_type_ids c) (cl_transport c) (cl_outbound_empty c) (cl_out_cap c) (cl_engine c).
Definition set_subscriptions (s : gset Z) (c : client) : client :=
  mkClient (cl_connected c) (cl_auto_connect c) (cl_running c) (cl_draining c) (cl_subscribe_all c) s
    (cl_registered_type_ids c) (cl_transport c) (cl_outbound_empty c) (cl_out_cap c) (cl_engine c).
Definition set_registered (s : gset Z) (c : client) : client :=
  mkClient (cl_connected c) (cl_auto_connect c) (cl_running c) (cl_draining c) (cl_subscribe_all c) (cl_subscriptions c)
    s (cl_transport c) (cl_outbound_empty c) (cl_out_cap c) (cl_engine c).
Definition set_transport (t : option transport) (c : client) : client :=
  mkClient (cl_connected c) (cl_auto_connect c) (cl_running c) (cl_draining c) (cl_subscribe_all c) (cl_subscriptions c)
    (cl_registered_type_ids c) t (cl_outbound_empty c) (cl_out_cap c) (cl_engine c).
Definition set_outbound_empty (b : bool) (c : client) : client :=
  mkClient (cl_connected c) (cl_auto_connect c) (cl_running c) (cl_draining c) (cl_subscribe_all c) (cl_subscriptions c)
    (cl_registered_type_ids c) (cl_transport c) b (cl_out_cap c) (cl_engine c).
Definition set_out_cap (n : Z) (c : client) : client :=
  mkClient (cl_connected c) (cl_auto_connect c) (cl_running c) (cl_draining c) (cl_subscribe_all c) (cl_subscriptions c)
    (cl_registered_type_ids c) (cl_transport c) (cl_outbound_empty c) n (cl_engine c).
Definition set_engine (e : engine) (c : client) : client :=
  mkClient (cl_connected c) (cl_auto_connect c) (cl_running c) (cl_draining c) (cl_subscribe_all c) (cl_subscriptions c)
    (cl_registered_type_ids c) (cl_transport c) (cl_outbound_empty c) (cl_out_cap c) e.

(** What the client is constructed with: the id, the largest outbound frame,
    whether the history is kept and what it holds ([recent]), the bytes the
    event loop still has to send after the given writes, and [str] of a JSON
    value other than a string. *)
Record setup := mkSetup {
  su_instance_id : pystr;
  su_out_limit : Z;
  su_summary_mode : bool;
  su_summary_slot : option ClientEvent;
  su_event_history : list ClientEvent;
  su_write_buffer_size : list bytes → Z;
  su_str : jval → pystr;
}.

Context (su : setup).

Definition _OUTBOUND_HIGH_WATER : Z := 256 * 1024.

(** [_pop_outbound]: the buffer doubles while the next frame does not fit. *)
Fixpoint pop_loop (fuel : nat) : M client (option bytes) :=
  match fuel with
  | O => raise OutOfFuel
  | S fuel =>
      c ← get;
      let capacity := cl_out_cap c in
      let '(e, (rc, frame)) := kith_client_pop_outbound capacity (cl_engine c) in
      modify (set_engine e);;
      if rc =? - KITH_EAGAIN then modify (set_outbound_empty true);; mret None
      else if (rc =? - KITH_EOVERFLOW) && (capacity <? su_out_limit su) then
        modify (set_out_cap (Z.min (capacity * 2) (su_out_limit su)));;
        pop_loop fuel
      else
        lift (check rc [Lit "pop_outbound"]);;
        mret (Some frame)
  end.

(** The capacity grows at every turn, so the limit bounds the turns. *)
Definition _pop_outbound : M client (option bytes) :=
  modify (set_outbound_empty false);;
  c ← get;
  pop_loop (S (Z.to_nat (su_out_limit su - cl_out_cap c))).

Definition transport_write (frame : bytes) : M client unit :=
  modify (λ c, set_transport ((λ t, mkTransport (tr_written t ++ [frame]) (tr_closing t)) <$> cl_transport c) c).

Definition buffered (c : client) : Z :=
  match cl_transport c with Some t => su_write_buffer_size su (tr_written t) | None => 0 end.

Fixpoint flush_loop (fuel : nat) : M client unit :=
  match fuel with
  | O => raise OutOfFuel
  | S fuel =>
      frame ← _pop_outbound;
      match frame with
      | None => mret tt
      | Some frame =>
          transport_write frame;;
          c ← get;
          if _OUTBOUND_HIGH_WATER <=? buffered c then mret tt else flush_loop fuel
      end
  end.

(** [try: body finally: last] for a [last] that does not raise. *)
Definition finally {A} (body : M client A) (last : client → client) : M client A :=
  λ c, let '(c, r) := body c in (last c, r).

(** Every turn but the last pops a frame. *)
Definition _flush_outbound : M client unit :=
  c ← get;
  if cl_draining c || negb (cl_running c) then mret tt else
  match cl_transport c with
  | None => mret tt
  | Some t =>
      if tr_closing t then mret tt else
      modify (set_draining true);;
      finally (flush_loop (S (queued (cl_engine c)))) (set_draining false)
  end.

Definition _request_flush : M client unit :=
  modify (set_outbound_empty false);;
  _flush_outbound.

(** On the event loop's thread, where the control plane runs. *)
Definition _submit_on_loop (type_id : Z) (payload : bytes) (flags correlation_id : Z) : M client Z :=
  modify (set_outbound_empty false);;
  cmd_id ← finally (
    c ← get;
    let '(e, (rc, cmd_id)) := kith_client_submit_interactive (Z.land type_id 0xFFFF) (Z.land flags 0xFF)
                                (Z.land correlation_id 0xFFFFFFFFFFFFFFFF) payload (cl_engine c) in
    modify (set_engine e);;
    lift (check rc [Lit "submit_interactive"]);;
    mret cmd_id) (set_outbound_empty false);
  _request_flush;;
  mret cmd_id.

Definition register_type (name : pystr) (type_id : Z) : M client unit :=
  let wire_type_id := Z.land type_id 0xFFFF in
  c ← get;
  encoded ← lift (encode_utf8 name);
  let '(e, rc) := kith_proto_register_type_id encoded wire_type_id (cl_engine c) in
  modify (set_engine e);;
  lift (check rc [Lit "register_type "; Txt name]);;
  modify (λ c, set_registered ({[wire_type_id]} ∪ cl_registered_type_ids c) c).

Definition query_status : M client ClientStatus :=
  c ← get;
  let '(rc, (state, step, count)) := kith_client_bootstrap_status (cl_engine c) in
  lift (check rc [Lit "bootstrap_status"]);;
  let '(rc, (connected, rtt, attempts)) := kith_client_runtime_status (cl_engine c) in
  lift (check rc [Lit "runtime_status"]);;
  mret (mkStatus connected state step count rtt attempts).

Definition recent_events (count : Z) : list ClientEvent :=
  if su_summary_mode su then match su_summary_slot su with None => [] | Some e => [e] end else
  let items := su_event_history su in
  if count <? zlen items then slice_from (- count) items else items.

(** ** Commands *)

(** [req[key]] *)
Definition req_item (key : string) (req : request) : result jval :=
  match field (str key) req with Some v => Ok v | None => Err KeyError end.

(** [req.get(key, default)] *)
Definition get_or (key : string) (d : jval) (req : request) : jval := default d (field (str key) req).

Definition subscription_state (c : client) : jval :=
  JObj [(str "all", JBool (cl_subscribe_all c));
        (str "type_ids", JArr (JInt <$> sorted_by id (elements (cl_subscriptions c))))].

Definition cmd_connect (req_id : jval) (_ : request) : M client reply :=
  c ← get;
  if cl_connected c then mret (ack req_id "ok" []) else
  modify (set_auto_connect true);;
  mret (ack req_id "ok" []).

Definition cmd_disconnect (req_id : jval) (_ : request) : M client reply :=
  modify (set_auto_connect false);;
  modify (λ c, set_transport ((λ t, mkTransport (tr_written t) true) <$> cl_transport c) c);;
  mret (ack req_id "ok" []).

Definition cmd_submit (req_id : jval) (req : request) : M client reply :=
  v ← lift (req_item "type_id" req);
  type_id ← lift (to_int v);
  flags ← lift (to_int (get_or "flags" (JInt 0) req));
  corr ← lift (to_int (get_or "correlation_id" (JInt 0) req));
  let payload_hex := get_or "payload_hex" JNull req in
  payload ← lift (if truthy payload_hex then hex_payload payload_hex else Ok []);
  cmd_id ← _submit_on_loop type_id payload flags corr;
  mret (ack req_id "ok" [(str "cmd_id", Json (JInt cmd_id))]).

Definition cmd_register_type (req_id : jval) (req : request) : M client reply :=
  v ← lift (req_item "name" req);
  let name := match v with JStr s => s | v => su_str su v end in
  v ← lift (req_item "type_id" req);
  type_id ← lift (to_int v);
  register_type name type_id;;
  mret (ack req_id "ok" []).

Definition cmd_query_state (req_id : jval) (_ : request) : M client reply :=
  status ← query_status;
  mret (((λ p, (fst p, Json (snd p))) <$> status_dict status) ++
        [(str "id", Json req_id); (str "type", Json (JStr (str "state")))]).

Definition cmd_recent_events (req_id : jval) (req : request) : M client reply :=
  count ← lift (to_int (get_or "count" (JInt 64) req));
  mret [(str "id", Json req_id); (str "type", Json (JStr (str "events")));
        (str "events", Json (JArr (event_to_dict <$> recent_events count)))].

(** [events == ["*"]] *)
Definition is_star (events : list jval) : bool :=
  match events with [JStr s] => bool_decide (s = str "*") | _ => false end.

Definition cmd_subscribe (req_id : jval) (req : request) : M client reply :=
  let events := event_list (get_or "events" (JArr []) req) in
  (if is_star events then modify (set_subscribe_all true)
   else for_each events (λ ev,
     z ← lift (to_int ev); modify (λ c, set_subscriptions ({[z]} ∪ cl_subscriptions c) c)));;
  c ← get;
  mret (ack req_id "ok" [(str "subscriptions", Json (subscription_state c))]).

Definition cmd_unsubscribe (req_id : jval) (req : request) : M client reply :=
  let events := event_list (get_or "events" (JArr []) req) in
  (if is_star events then modify (set_subscribe_all false)
   else for_each events (λ ev,
     z ← lift (to_int ev); modify (λ c, set_subscriptions (cl_subscriptions c ∖ {[z]}) c)));;
  c ← get;
  mret (ack req_id "ok" [(str "subscriptions", Json (subscription_state c))]).

Definition cmd_shutdown (req_id : jval) (_ : request) : M client reply :=
  modify (set_auto_connect false);;
  modify (set_running false);;
  mret (ack req_id "ok" []).

Definition IPC_COMMANDS : list (pystr * (jval → request → M client reply)) :=
  [(str "connect", cmd_connect);
   (str "disconnect", cmd_disconnect);
   (str "submit", cmd_submit);
   (str "register_type", cmd_register_type);
   (str "query_state", cmd_query_state);
   (str "recent_events", cmd_recent_events);
   (str "subscribe", cmd_subscribe);
   (str "unsubscribe", cmd_unsubscribe);
   (str "shutdown", cmd_shutdown)].

(** The text of a value other than a string names no command. *)
Definition handler_of (cmd : jval) : option (jval → request → M client reply) :=
  match cmd with JStr s => snd <$> head (filter (λ p, fst p = s) IPC_COMMANDS) | _ => None end.

(** [except KithClientError] and [except (KeyError, ValueError, TypeError)] *)
Definition is_reported (e : exn) : bool :=
  match e with KithClientError _ _ | KeyError | TypeError => true | e => is_value_error e end.

(** [req.get] on anything but an object is an [AttributeError]. *)
Definition _dispatch_ipc (req : jval) : M client reply :=
  match req with
  | JObj req =>
      let req_id := get_or "id" JNull req in
      let cmd := get_or "cmd" (JStr []) req in
      match handler_of cmd with
      | None => mret (ack req_id "error" [(str "error", ErrorText (UnknownCommand cmd))])
      | Some handler => λ c,
          match handler req_id req c with
          | (c, Err e) => if is_reported e then (c, Ok (ack req_id "error" [(str "error", ErrorText (Raised e))])) else (c, Err e)
          | done => done
          end
      end
  | _ => raise AttributeError
  end.

(** ** The IPC socket *)

(** [JSON_DECODE_ERRORS] *)
Definition is_decode_error (e : exn) : bool :=
  match e with JSONDecodeError | UnicodeDecodeError => true | _ => false end.

Definition is_space_byte (b : byte) : bool := int_space (Z.of_N (Byte.to_N b)).

Fixpoint lstrip_bytes (bs : bytes) : bytes :=
  match bs with b :: bs' => if is_space_byte b then lstrip_bytes bs' else bs | [] => [] end.

(** [line.strip()] *)
Definition strip_bytes (bs : bytes) : bytes := rev (lstrip_bytes (rev (lstrip_bytes bs))).

(** [buf.split(b"\n", 1)] when [buf] has a newline. *)
Fixpoint cut_line (buf : bytes) : option (bytes * bytes) :=
  match buf with
  | [] => None
  | b :: buf => if Byte.eqb b x0a then Some ([], buf) else '(line, rest) ← cut_line buf; Some (b :: line, rest)
  end.

(** One connection: the client, and the replies written so far. *)
Record peer := mkPeer { pe_client : client; pe_replies : list reply }.

(** What [await writer.drain()] does after the given replies. *)
Context (drain : list reply → result unit).

Definition on_client {A} (m : M client A) : M peer A :=
  λ p, let '(c, r) := m (pe_client p) in (mkPeer c (pe_replies p), r).

Definition loads_line (line : bytes) : result jval := s ← decode_utf8 line; loads s.

Definition handle_line (line : bytes) : M peer unit :=
  match strip_bytes line with
  | [] => mret tt
  | line =>
      match loads_line line with
      | Err e => if is_decode_error e then mret tt else raise e
      | Ok req =>
          resp ← on_client (_dispatch_ipc req);
          modify (λ p, mkPeer (pe_client p) (pe_replies p ++ [resp]));;
          p ← get;
          lift (drain (pe_replies p))
      end
  end.

(** [while b"\n" in buf]: every turn removes a newline. *)
Fixpoint line_loop (fuel : nat) (buf : bytes) : M peer bytes :=
  match fuel with
  | O => raise OutOfFuel
  | S fuel =>
      match cut_line buf with
      | None => mret buf
      | Some (line, rest) => handle_line line;; line_loop fuel rest
      end
  end.

(** [while self._running]: [chunks] are what the reads return, the last one
    followed by the end of the stream. *)
Fixpoint read_loop (chunks : list bytes) (buf : bytes) : M peer unit :=
  p ← get;
  if negb (cl_running (pe_client p)) then mret tt else
  match chunks with
  | [] | [] :: _ => mret tt
  | data :: chunks =>
      let buf := buf ++ data in
      buf ← line_loop (S (length buf)) buf;
      read_loop chunks buf
  end.

Definition ipc_handle_peer (chunks : list bytes) (c : client) : client * list reply * result unit :=
  let '(p, r) := read_loop chunks [] (mkPeer c []) in
  (pe_client p, pe_replies p, match r with Err ConnectionResetError => Ok tt | r => r end).

(** ** The HTTP endpoint *)

Inductive http_body := BText (s : string) | BJson (v : jval) | BReply (r : reply).

(** A response, or the event stream left open. *)
Inductive http_answer := Respond (code : Z) (body : http_body) | StartSse.

Definition starts_with (p : string) (s : pystr) : bool :=
  match strip_prefix (str p) s with Some _ => true | None => false end.

(** The loop over the pairs of the query string. *)
Fixpoint query_count (pairs : list pystr) (count : Z) : result Z :=
  match pairs with
  | [] => Ok count
  | kv :: pairs =>
      if starts_with "count=" kv
      then match py_int 10 (drop 7 kv) with Some z => query_count pairs z | None => Err bad_int end
      else query_count pairs count
  end.

Definition _http_route (method path : pystr) (body : bytes) : M client http_answer :=
  let is_get := bool_decide (method = str "GET") in
  if is_get && starts_with "/health" path then
    mret (Respond 200 (BJson (JObj [(str "status", JStr (str "ok")); (str "id", JStr (su_instance_id su))])))
  else if is_get && starts_with "/state" path then
    status ← query_status;
    mret (Respond 200 (BJson (JObj (status_dict status))))
  else if is_get && starts_with "/events" path then
    count ← lift (query_count (split_at 38 (snd (partition_at 63 path))) 64);
    mret (Respond 200 (BJson (JArr (event_to_dict <$> recent_events count))))
  else if is_get && starts_with "/stream" path then mret StartSse
  else if bool_decide (method = str "POST") && starts_with "/cmd" path then
    match (match body with [] => Ok (JObj []) | _ => loads_line body end) with
    | Err e => if is_decode_error e then mret (Respond 400 (BText "bad json")) else raise e
    | Ok req =>
        resp ← _dispatch_ipc req;
        mret (Respond 200 (BReply resp))
    end
  else mret (Respond 404 (BText "not found")).

(** The header lines up to the empty one; every turn reads a byte. *)
Fixpoint read_headers (fuel : nat) (input : bytes) (headers : list (pystr * pystr)) : result (list (pystr * pystr) * bytes) :=
  match fuel with
  | O => Err OutOfFuel
  | S fuel =>
      let '(hline, rest) := readline input in
      if bool_decide (latin1 hline ∈ [[13; 10]; [10]; []]) then Ok (headers, rest) else
      let '(key, val) := partition_at 58 (latin1 hline) in
      read_headers fuel rest (dict_set (lower (strip key)) (strip val) headers)
  end.

Definition HTTP_MAX_BODY : Z := Z.shiftl 1 20.

Definition read_body (headers : list (pystr * pystr)) (input : bytes) : result bytes :=
  match snd <$> head (filter (λ p, fst p = str "content-length") headers) with
  | None | Some [] => Ok []
  | Some cl => match py_int 10 cl with Some n => readexactly (Z.min n HTTP_MAX_BODY) input | None => Err bad_int end
  end.

(** [HTTP_READ_ERRORS], of which these can occur. *)
Definition is_read_error (e : exn) : bool :=
  match e with IncompleteReadError | ConnectionResetError | OSError => true | _ => false end.

Definition http_exchange (input : bytes) : M client (option http_answer) :=
  let '(request_line, rest) := readline input in
  match request_line with
  | [] => mret None
  | _ =>
      match split (latin1 request_line) with
      | method :: path :: _ =>
          '(headers, rest) ← lift (read_headers (S (length rest)) rest []);
          body ← lift (read_body headers rest);
          answer ← _http_route method path body;
          mret (Some answer)
      | _ => mret (Some (Respond 400 (BText "bad request")))
      end
  end.

Definition http_handle_peer (input : bytes) : M client (option http_answer) :=
  λ c, match http_exchange input c with
       | (c, Err e) => if is_read_error e then (c, Ok None) else (c, Err e)
       | done => done
       end.
End Client.
