(* ===== verification/AgentTheorems.v ===== *)
(** * The control plane's theorems

    How the IPC byte stream is cut into requests does not matter, and what a
    request can end with. *)

From S2P Require Import Prelude Outcome PyStruct PyText PyFloat PyJson PyWire PyArith Correlator Proto AgentControl.

#[local] Open Scope Z_scope.

(** ** Lines *)

(** The complete lines of a byte string, and what follows them. *)
Fixpoint lines_of (buf : bytes) : list bytes * bytes :=
  match buf with
  | [] => ([], [])
  | b :: buf =>
      let '(ls, r) := lines_of buf in
      if Byte.eqb b x0a then ([] :: ls, r)
      else match ls with [] => ([], b :: r) | l :: ls => ((b :: l) :: ls, r) end
  end.

Lemma lines_of_app a b :
  lines_of (a ++ b) = let '(ls, r) := lines_of a in let '(ls', r') := lines_of (r ++ b) in (ls ++ ls', r').
Proof.
  induction a as [|x a IH]; [cbn; by destruct (lines_of b)|]. cbn [lines_of app]. rewrite IH.
  destruct (lines_of a) as [[|l ls] r]; destruct (Byte.eqb x x0a) eqn:Ex; cbn [app lines_of]; rewrite ?Ex;
    by destruct (lines_of (r ++ b)) as [[|? ?] ?].
Qed.

Lemma cut_line_spec buf :
  match cut_line buf with
  | None => lines_of buf = ([], buf)
  | Some (line, rest) => lines_of buf = (line :: (lines_of rest).1, (lines_of rest).2) ∧ (length rest < length buf)%nat
  end.
Proof.
  induction buf as [|b buf IH]; [done|]. cbn [cut_line lines_of length]. destruct (Byte.eqb b x0a).
  { destruct (lines_of buf). split; [done|lia]. }
  destruct (cut_line buf) as [[line rest]|]; cbn [mbind option_bind].
  - destruct IH as [-> Hl]. split; [done|lia].
  - by rewrite IH.
Qed.

Lemma lines_rest buf : cut_line (lines_of buf).2 = None.
Proof.
  induction buf as [|b buf IH]; [done|]. cbn [lines_of]. destruct (lines_of buf) as [ls r]. cbn [snd] in IH.
  destruct (Byte.eqb b x0a) eqn:Ex; [done|]. destruct ls; [|done]. cbn [snd cut_line]. by rewrite Ex, IH.
Qed.

Lemma for_each_snoc_run {S A} (l k : list A) (f : A → M S unit) s :
  for_each (l ++ k) f s = match for_each l f s with (s, Ok _) => for_each k f s | (s, Err e) => (s, Err e) end.
Proof.
  revert s. induction l as [|x l IH]; intros s; [done|]. cbn [app for_each]. rewrite !bind_run.
  destruct (f x s) as [s' [[]|e]]; [apply IH|done].
Qed.

Section Framing.
Context `{E : ClientEngine} (su : setup) (drain : list reply → result unit).
#[local] Abbreviation handle_line := (handle_line su drain).
#[local] Abbreviation line_loop := (line_loop su drain).
#[local] Abbreviation read_loop := (read_loop su drain).
#[local] Abbreviation ipc_handle_peer := (ipc_handle_peer su drain).

Lemma line_loop_lines fuel buf p : (length buf < fuel)%nat →
  line_loop fuel buf p = (for_each (lines_of buf).1 handle_line;; mret (lines_of buf).2) p.
Proof.
  revert buf p. induction fuel as [|fuel IH]; intros buf p Hf; [lia|]. cbn [line_loop].
  pose proof (cut_line_spec buf) as Hc. destruct (cut_line buf) as [[line rest]|].
  - destruct Hc as [-> Hl]. cbn [fst snd for_each]. rewrite !bind_run. destruct (handle_line line p) as [p' [[]|e]]; [|done].
    rewrite IH by lia. by rewrite bind_run.
  - by rewrite Hc.
Qed.

Lemma read_loop_lines chunks buf p : Forall (λ d, d ≠ []) chunks → cut_line buf = None →
  ∃ done rest, (lines_of (buf ++ concat chunks)).1 = done ++ rest ∧
    read_loop chunks buf p = for_each done handle_line p ∧
    (rest = [] ∨ cl_running (pe_client (fst (read_loop chunks buf p))) = false).
Proof.
  intros Hc. revert buf p. induction Hc as [|d chunks Hd _ IH]; intros buf p Hb; cbn [read_loop]; rewrite bind_run; cbn [get].
  - exists [], []. pose proof (cut_line_spec buf) as Hl. rewrite Hb in Hl. cbn [concat]. rewrite app_nil_r, Hl.
    split; [done|]. split; [by destruct (negb _)|by left].
  - destruct (cl_running (pe_client p)) eqn:Hr; cbn [negb].
    2: { exists [], (lines_of (buf ++ concat (d :: chunks))).1. split; [done|]. split; [done|by right]. }
    destruct d as [|x d]; [done|]. set (data := x :: d) in *. rewrite bind_run, line_loop_lines, bind_run by lia.
    cbn [concat]. rewrite app_assoc, lines_of_app. pose proof (lines_rest (buf ++ data)) as Hrest.
    destruct (lines_of (buf ++ data)) as [ls r]. cbn [fst snd] in *.
    destruct (for_each ls handle_line p) as [p' [[]|e]] eqn:Ex; cbn [mret M_ret].
    + destruct (IH r p' Hrest) as (done & rest & Hl & Hrun & Hor). destruct (lines_of (r ++ concat chunks)) as [ls' r'].
      cbn [fst] in *. exists (ls ++ done), rest. rewrite Hl, app_assoc. split; [done|]. rewrite for_each_snoc_run, Ex. done.
    + destruct (lines_of (r ++ concat chunks)) as [ls' r']. exists (ls ++ ls'), []. rewrite app_nil_r. split; [done|].
      rewrite for_each_snoc_run, Ex. split; [done|by left].
Qed.

(** What a connection does with the given lines, one after the other. *)
Definition serve_lines (lines : list bytes) (c : client) : client * list reply * result unit :=
  let '(p, r) := for_each lines handle_line (mkPeer c []) in
  (pe_client p, pe_replies p, match r with Err ConnectionResetError => Ok tt | r => r end).

(** C28: How an IPC peer's bytes are cut into non-empty reads does not matter:
    the connection handles the complete lines of the stream in order, one by
    one, with the same replies, the same effects and the same ending as if the
    lines were given, stopping early only when the client has been told to
    stop. *)
Theorem ipc_framing chunks c : Forall (λ d, d ≠ []) chunks →
  ∃ done rest, (lines_of (concat chunks)).1 = done ++ rest ∧ ipc_handle_peer chunks c = serve_lines done c ∧
    (rest = [] ∨ cl_running (ipc_handle_peer chunks c).1.1 = false).
Proof.
  intros Hc. destruct (read_loop_lines chunks [] (mkPeer c []) Hc eq_refl) as (done & rest & Hl & Hr & Hor).
  exists done, rest. unfold ipc_handle_peer, serve_lines. rewrite <- Hr. destruct (read_loop _ _ _). done.
Qed.
End Framing.

(** ** Outcomes *)

Create HintDb ends.

(** A value whose coercion overflows, and a request that carries one. *)
Definition infinite (v : jval) : Prop := ∃ neg, v = JFloat (DInf neg).
Definition carries_infinite (req : request) : Prop :=
  ∃ k v, (k, v) ∈ req ∧ (infinite v ∨ ∃ l u, v = JArr l ∧ u ∈ l ∧ infinite u).

Definition reports (e : exn) : Prop := is_reported e = true.

(** What may escape a command. *)
Definition escapes (req : request) (e : exn) : Prop := e = OverflowError ∧ carries_infinite req.

Lemma land_ones_range n k : 0 ≤ n → 0 ≤ Z.land k (Z.ones n) < 2 ^ n.
Proof. intros Hn. rewrite Z.land_ones by done. apply Z.mod_pos_bound. lia. Qed.

Section Outcomes.
Context `{E : ClientEngine} {Laws : ClientEngineLaws E} (su : setup).

(** The scratch buffer is never empty, and the engine consistent. *)
Definition buffer_ok (c : client) : Prop := 0 < cl_out_cap c ∧ engine_ok (cl_engine c).

(** [m] keeps the buffer, and ends in [P] or with an exception of [X]. *)
Definition ends {A} (P : A → Prop) (X : exn → Prop) (m : M client A) : Prop := ∀ c, buffer_ok c →
  let '(c', r) := m c in buffer_ok c' ∧ match r with Ok x => P x | Err e => X e end.

Lemma ends_ret {A} (P : A → Prop) X x : P x → ends P X (mret x).
Proof. by intros HP c Hc. Qed.

Lemma ends_bind {A B} (Q : B → Prop) (P : A → Prop) X (m : M client B) k :
  ends Q X m → (∀ x, Q x → ends P X (k x)) → ends P X (m ≫= k).
Proof.
  intros Hm Hk c Hc. specialize (Hm c Hc). rewrite bind_run. destruct (m c) as [c' [x|e]]; [|done].
  destruct Hm as [Hc' Hx]. by apply (Hk x Hx).
Qed.

Lemma ends_lift {A} (P : A → Prop) X (r : result A) : match r with Ok x => P x | Err e => X e end → ends P X (lift r).
Proof. by intros Hr c Hc. Qed.

Lemma ends_get (X : exn → Prop) : ends buffer_ok X get.
Proof. by intros c Hc. Qed.

Lemma ends_modify (X : exn → Prop) f : (∀ c, buffer_ok c → buffer_ok (f c)) → ends (λ _, True) X (modify f).
Proof. intros Hf c Hc. split; [by apply Hf|done]. Qed.

Lemma ends_engine (X : exn → Prop) e : engine_ok e → ends (λ _, True) X (modify (set_engine e)).
Proof. intros He. apply ends_modify. by intros c [Hc _]. Qed.

Lemma ends_finally {A} (P : A → Prop) X m f :
  ends P X m → (∀ c, buffer_ok c → buffer_ok (f c)) → ends P X (finally m f).
Proof. intros Hm Hf c Hc. specialize (Hm c Hc). unfold finally. destruct (m c) as [c' r]. destruct Hm. auto. Qed.

Lemma ends_weaken {A} (P : A → Prop) (X Y : exn → Prop) m : ends P X m → (∀ e, X e → Y e) → ends P Y m.
Proof. intros Hm HXY c Hc. specialize (Hm c Hc). destruct (m c) as [c' [x|e]]; naive_solver. Qed.

Lemma ends_for_each {A} X (l : list A) f : (∀ x, x ∈ l → ends (λ _, True) X (f x)) → ends (λ _, True) X (for_each l f).
Proof.
  induction l as [|x l IH]; intros Hf; cbn [for_each]; [by apply ends_ret|].
  eapply ends_bind; [apply Hf; by left|]. intros _ _. apply IH. intros y Hy. apply Hf. by right.
Qed.

Lemma ends_check code ctx : ends (λ _, True) reports (lift (check code ctx)).
Proof. apply ends_lift. unfold check. by destruct (code <? 0). Qed.

(** *** The outbound queue *)

Lemma pop_loop_spec fuel c : buffer_ok c → su_out_limit su - cl_out_cap c < Z.of_nat fuel → (0 < fuel)%nat →
  let '(c', r) := pop_loop su fuel c in buffer_ok c' ∧
  match r with
  | Ok None => True
  | Ok (Some _) => (queued (cl_engine c') < queued (cl_engine c))%nat
  | Err e => reports e
  end.
Proof.
  revert c. induction fuel as [|fuel IH]; intros c [Hc He] Hf Hp; [lia|]. cbn [pop_loop].
  rewrite bind_run. cbn [get]. destruct (kith_client_pop_outbound _ _) as [e [rc frame]] eqn:Hpop. rewrite bind_run. cbn [modify].
  destruct (pop_ok _ _ _ _ _ He Hpop) as [He' Hq].
  destruct (Z.eqb_spec rc (- KITH_EAGAIN)) as [->|Hne]; [done|].
  destruct ((rc =? - KITH_EOVERFLOW) && (cl_out_cap c <? su_out_limit su)) eqn:Hgrow.
  - apply andb_true_iff in Hgrow as [->%Z.eqb_eq Hlt%Z.ltb_lt]. rewrite bind_run. cbn [modify].
    set (c1 := set_out_cap _ _). cbn in Hq. specialize (IH c1). cbn in IH. rewrite Hq in IH. apply IH; [|lia..]. split; [cbn; lia|done].
  - rewrite bind_run. unfold check. destruct (Z.ltb_spec rc 0); done.
Qed.

Lemma flush_loop_ends fuel c : buffer_ok c → (queued (cl_engine c) < fuel)%nat →
  let '(c', r) := flush_loop su fuel c in buffer_ok c' ∧ match r with Ok _ => True | Err e => reports e end.
Proof.
  revert c. induction fuel as [|fuel IH]; intros c Hc Hf; [lia|]. cbn [flush_loop]. rewrite bind_run.
  unfold _pop_outbound at 1. rewrite bind_run. cbn [modify]. rewrite bind_run. cbn [get].
  pose proof (pop_loop_spec (S (Z.to_nat (su_out_limit su - cl_out_cap (set_outbound_empty false c)))) (set_outbound_empty false c) Hc) as Hp.
  specialize (Hp ltac:(lia) ltac:(lia)). destruct (pop_loop _ _ _) as [c' [[frame|]|e]]; [|done..].
  destruct Hp as [Hc' Hq]. rewrite bind_run. cbn [transport_write modify]. rewrite bind_run. cbn [get].
  destruct (_ <=? _); [done|]. apply IH; [done|]. cbn in *. lia.
Qed.

Lemma flush_outbound_ends : ends (λ _, True) reports (_flush_outbound su).
Proof.
  intros c Hc. unfold _flush_outbound. rewrite bind_run. cbn [get]. destruct (_ || _); [done|].
  destruct (cl_transport c) as [t|]; [|done]. destruct (tr_closing t); [done|]. rewrite bind_run. cbn [modify].
  unfold finally. pose proof (flush_loop_ends (S (queued (cl_engine c))) (set_draining true c) Hc ltac:(cbn; lia)) as Hf.
  by destruct (flush_loop _ _ _).
Qed.

Lemma submit_ends t payload f k : ends (λ _, True) reports (_submit_on_loop su t payload f k).
Proof.
  unfold _submit_on_loop, _request_flush. eapply ends_bind; [by apply ends_modify|]. intros _ _.
  eapply (ends_bind (λ _, True)); [apply ends_finally; [|done]|].
  - eapply ends_bind; [apply ends_get|]. intros c [_ He]. pose proof (submit_ok (Z.land t 0xFFFF) (Z.land f 0xFF) (Z.land k 0xFFFFFFFFFFFFFFFF) payload _ He
      (land_ones_range 16 t ltac:(done)) (land_ones_range 8 f ltac:(done)) (land_ones_range 64 k ltac:(done))) as He'.
    destruct (kith_client_submit_interactive _ _ _ _ _) as [e [rc id]]. eapply ends_bind; [by apply ends_engine|].
    intros _ _. eapply ends_bind; [apply ends_check|]. intros _ _. by apply ends_ret.
  - intros id _. eapply (ends_bind (λ _, True)); [|by intros _ _; apply ends_ret].
    eapply ends_bind; [by apply ends_modify|]. intros _ _. apply flush_outbound_ends.
Qed.

Lemma register_ends name t : ends (λ _, True) reports (register_type name t).
Proof.
  unfold register_type. eapply ends_bind; [apply ends_get|]. intros c [_ He].
  eapply (ends_bind (λ _, True)); [apply ends_lift; unfold encode_utf8; by destruct (utf8_encode _)|]. intros bs _.
  pose proof (register_ok bs (Z.land t 0xFFFF) _ He) as He'. destruct (kith_proto_register_type_id _ _ _) as [e rc].
  eapply ends_bind; [by apply ends_engine|]. intros _ _.
  eapply ends_bind; [apply ends_check|]. intros _ _. by apply ends_modify.
Qed.

Lemma status_ends : ends (λ _, True) reports query_status.
Proof.
  unfold query_status. eapply ends_bind; [apply ends_get|]. intros c _.
  destruct (kith_client_bootstrap_status _) as [rc [[a b] d]]. eapply ends_bind; [apply ends_check|]. intros _ _.
  destruct (kith_client_runtime_status _) as [rc' [[a' b'] d']]. eapply ends_bind; [apply ends_check|]. intros _ _. by apply ends_ret.
Qed.

(** *** Fields *)

Lemma field_in k (req : request) v : field k req = Some v → (k, v) ∈ req.
Proof.
  unfold field. destruct (filter _ req) as [|[k' v'] l] eqn:Ef; [done|]. intros [= <-].
  assert ((k', v') ∈ filter (λ p, fst p = k) req) as Hin by (rewrite Ef; left).
  apply list_elem_of_filter in Hin as [Hk Hin]. cbn in Hk. by subst.
Qed.

Section Request.
Context (req : request).
Abbreviation X := (λ e, reports e ∨ escapes req e).

Lemma to_int_outcome v : (infinite v → carries_infinite req) → match to_int v with Ok _ => True | Err e => X e end.
Proof.
  intros Hv. destruct v as [|b|z|[neg m e|neg|]|s|l|l]; cbn; try done; try (by left).
  - right. split; [done|]. apply Hv. by exists neg.
  - destruct (py_int 10 s); [done|by left].
Qed.

Lemma get_or_infinite k d : ¬ infinite d → infinite (get_or k d req) → carries_infinite req.
Proof.
  unfold get_or. destruct (field (str k) req) as [v|] eqn:Ev; [|done]. intros _ Hi. exists (str k), v.
  split; [by apply field_in|by left].
Qed.

Lemma ends_to_int v : (infinite v → carries_infinite req) → ends (λ _, True) X (lift (to_int v)).
Proof. intros Hv. by apply ends_lift, to_int_outcome. Qed.

Lemma ends_int_field k z : ends (λ _, True) X (lift (to_int (get_or k (JInt z) req))).
Proof. apply ends_to_int, get_or_infinite. by intros [neg ?]. Qed.

Lemma ends_item k : ends (λ v, (str k, v) ∈ req) X (lift (req_item k req)).
Proof.
  apply ends_lift. unfold req_item. destruct (field (str k) req) eqn:Ev; [by apply field_in|]. left. done.
Qed.

Lemma event_infinite v : v ∈ event_list (get_or "events" (JArr []) req) → infinite v → carries_infinite req.
Proof.
  unfold get_or. destruct (field (str "events") req) as [u|] eqn:Eu; cbn; [|by intros ?%elem_of_nil].
  destruct u as [| | | | |l|]; cbn; try (by intros ?%elem_of_nil). intros Hin Hi. exists (str "events"), (JArr l).
  split; [by apply field_in|]. right. by exists l, v.
Qed.

Lemma fromhex_reports s : match fromhex s with Ok _ => True | Err e => reports e end.
Proof.
  remember (length s) as n eqn:Hn. revert s Hn. induction n as [n IH] using lt_wf_ind. intros s ->.
  destruct s as [|a s]; [done|]. cbn [fromhex]. destruct (int_space a); [by apply (IH (length s)); [cbn; lia|]|].
  destruct s as [|b s]; [done|]. destruct (hex_value a), (hex_value b); try done.
  specialize (IH (length s) ltac:(cbn; lia) s eq_refl). by destruct (fromhex s).
Qed.

Lemma hex_payload_reports v : match hex_payload v with Ok _ => True | Err e => reports e end.
Proof.
  destruct v as [| |z| |s| |]; try done; [|apply fromhex_reports]. cbn. unfold int_repr, int_limit, raise_if.
  case_bool_decide; cbn [mbind result_bind]; [done|apply fromhex_reports].
Qed.

(** *** Commands *)

Context (req_id : jval).
Abbreviation answered := (λ r : reply, (str "id", Json req_id) ∈ r).

Lemma reported {A} (P : A → Prop) (m : M client A) : ends P reports m → ends P X m.
Proof. intros Hm. eapply ends_weaken; [done|]. by left. Qed.

Lemma ack_answered status fields : answered (ack req_id status fields).
Proof. left. Qed.

Lemma events_end f : (∀ z c, buffer_ok c → buffer_ok (f z c)) →
  ends (λ _, True) X (for_each (event_list (get_or "events" (JArr []) req)) (λ ev, z ← lift (to_int ev); modify (f z))).
Proof.
  intros Hf. apply ends_for_each. intros ev Hev. eapply ends_bind; [apply ends_to_int, event_infinite, Hev|].
  intros z _. apply ends_modify, Hf.
Qed.

Ltac next := first [eapply ends_bind; [solve [eauto 3 with ends]|]; intros; cbn beta in * | solve [eauto 3 with ends]].
#[local] Hint Resolve ends_get ends_ret ends_int_field ends_item ack_answered reported : ends.
#[local] Hint Resolve submit_ends register_ends status_ends : ends.
#[local] Hint Extern 1 (ends _ _ (modify _)) => (by apply ends_modify) : ends.

Lemma item_int_ends k v : (str k, v) ∈ req → ends (λ _, True) X (lift (to_int v)).
Proof. intros Hin. apply ends_to_int. intros Hi. exists (str k), v. split; [done|by left]. Qed.
#[local] Hint Resolve item_int_ends : ends.

Lemma cmd_submit_ends : ends answered X (cmd_submit su req_id req).
Proof.
  unfold cmd_submit. do 4 next. eapply (ends_bind (λ _, True)).
  { apply reported, ends_lift. destruct (truthy _); [apply hex_payload_reports|done]. }
  intros. do 2 next.
Qed.

Lemma cmd_subscribe_ends : ends answered X (cmd_subscribe req_id req).
Proof.
  unfold cmd_subscribe. eapply (ends_bind (λ _, True)); [destruct (is_star _); [next|by apply events_end]|].
  intros. do 2 next.
Qed.

Lemma cmd_unsubscribe_ends : ends answered X (cmd_unsubscribe req_id req).
Proof.
  unfold cmd_unsubscribe. eapply (ends_bind (λ _, True)); [destruct (is_star _); [next|by apply events_end]|].
  intros. do 2 next.
Qed.

Lemma handler_ends h cmd : handler_of su cmd = Some h → ends answered X (h req_id req).
Proof.
  destruct cmd as [| | | |s| |]; try done. cbn [handler_of]. intros Hh.
  assert (h ∈ (IPC_COMMANDS su).*2) as Hin.
  { destruct (filter _ _) as [|p l] eqn:Ef; [done|]. injection Hh as <-. apply list_elem_of_fmap. exists p. split; [done|].
    assert (p ∈ filter (λ p, fst p = s) (IPC_COMMANDS su)) as Hp by (rewrite Ef; left). by apply list_elem_of_filter in Hp as [_ ?]. }
  unfold IPC_COMMANDS in Hin. cbn [fmap list_fmap snd] in Hin. repeat (apply elem_of_cons in Hin as [->|Hin]); [..|by apply elem_of_nil in Hin].
  - unfold cmd_connect. next. destruct (cl_connected _); repeat next.
  - unfold cmd_disconnect. repeat next.
  - apply cmd_submit_ends.
  - unfold cmd_register_type. repeat next.
  - unfold cmd_query_state. next. apply ends_ret, elem_of_app. right. left.
  - unfold cmd_recent_events. next. apply ends_ret. left.
  - apply cmd_subscribe_ends.
  - apply cmd_unsubscribe_ends.
  - unfold cmd_shutdown. repeat next.
Qed.
End Request.

(** C38: Every request object is answered by a reply that carries the
    request's id, on every error of the engine or of a field, except that a
    number read as infinite makes the dispatch raise OverflowError; a request
    that is not an object raises AttributeError. No loop of the outbound drain
    runs out of its bound. (For an engine that satisfies the interface, as the
    C engine does.) *)
Theorem dispatch_outcome req c : buffer_ok c →
  let '(c', r) := _dispatch_ipc su req c in buffer_ok c' ∧
  match req, r with
  | JObj fields, Ok resp => (str "id", Json (get_or "id" JNull fields)) ∈ resp
  | JObj fields, Err e => e = OverflowError ∧ carries_infinite fields
  | _, r => r = Err AttributeError
  end.
Proof.
  intros Hc. destruct req as [| | | | | |fields]; try done. cbn [_dispatch_ipc].
  destruct (handler_of su _) as [h|] eqn:Hh; [|split; [done|left]].
  pose proof (handler_ends fields (get_or "id" JNull fields) h _ Hh c Hc) as He.
  destruct (h _ fields c) as [c' [resp|e]]; [done|]. destruct He as [Hc' [Hr|Hx]].
  - rewrite Hr. split; [done|left].
  - destruct (is_reported e) eqn:Hr; [split; [done|left]|]. done.
Qed.
End Outcomes.

(** ** Headers *)

Lemma readline_consumes input : (length (readline input).2 + length (readline input).1 = length input)%nat ∧
  ((readline input).1 = [] → input = []).
Proof.
  induction input as [|b input [IH _]]; [done|]. cbn. destruct (Byte.eqb b x0a); [cbn; split; [lia|done]|].
  destruct (readline input). cbn in *. split; [lia|done].
Qed.

(** The bound on the header loop suffices. *)
Lemma read_headers_ends fuel input hs : (length input < fuel)%nat → ∃ r, read_headers fuel input hs = Ok r.
Proof.
  revert input hs. induction fuel as [|fuel IH]; intros input hs Hf; [lia|]. cbn [read_headers].
  pose proof (readline_consumes input) as [Hl He]. destruct (readline input) as [hline rest]. cbn in Hl, He.
  case_bool_decide as Hin; [by eexists|]. destruct (partition_at 58 (latin1 hline)) as [key val]. apply IH.
  destruct hline as [|b hline]; [|cbn in Hl; lia]. exfalso. apply Hin. set_solver.
Qed.
