(* ===== verification/AgentEngine.v ===== *)
(** * The headless client over its engine

    The C codec and client as the engine of [AgentControl], and what a
    submission puts on the wire. *)

From S2P Require Import Prelude Outcome PyStruct PyWire Correlator Proto ProtoTheorems ClientRing ClientCore ClientTheorems AgentControl AgentTheorems.

#[local] Open Scope Z_scope.

(** ** The instance *)

Definition native : Type := proto * kith_client.
Definition waiting (e : native) : list bytes := outq_frames (kc_outq (snd e)).

#[export] Instance kith_engine : ClientEngine := {|
  engine := native;
  queued e := length (waiting e);
  AgentControl.kith_client_submit_interactive t f k payload e :=
    let '(c, r) := ClientCore.kith_client_submit_interactive (fst e) t f k payload (snd e) in ((fst e, c), r);
  AgentControl.kith_client_pop_outbound cap e :=
    let '(c, r) := ClientCore.kith_client_pop_outbound cap (snd e) in ((fst e, c), r);
  AgentControl.kith_proto_register_type_id name t e :=
    let '(p, rc) := Proto.kith_proto_register_type_id name t (fst e) in ((p, snd e), rc);
  AgentControl.kith_client_bootstrap_status e := ClientCore.kith_client_bootstrap_status (snd e);
  AgentControl.kith_client_runtime_status e :=
    let '(rc, rs) := ClientCore.kith_client_runtime_status (snd e) in (rc, (rs_connected rs, rs_rtt_last_ms rs, rs_reconnect_attempts rs));
|}.

(** ** Consistency *)

(** The bytes of a frame within the limit. *)
Definition sendable (p : proto) (data : bytes) : Prop :=
  ∃ f, data = wire_of f ∧ frame_ok f ∧ wire_len f ≤ pr_max_payload p.

Definition step_ok (s : bootstrap_step) : Prop :=
  match sp_on_enter s with Some (_, t, _) => 0 ≤ t < 2 ^ 16 | None => True end.

(** The frames a bootstrap and the keepalive send have types of 16 bits. *)
Record native_ok (e : native) : Prop := {
  no_limit : 0 ≤ pr_max_payload (fst e) ∧ 10 + pr_max_payload (fst e) ≤ UINT32_MAX;
  no_client : client_ok (snd e);
  no_waiting : Forall (sendable (fst e)) (waiting e);
  no_ping : 0 ≤ cp_ping_type_id (kc_params (snd e)) < 2 ^ 16;
  no_steps : Forall step_ok (bt_steps (kc_bootstrap (snd e)));
}.

(** Parameters and bootstrap steps are fixed once configured. *)
Definition same_config (k k' : kith_client) : Prop :=
  kc_params k' = kc_params k ∧ bt_steps (kc_bootstrap k') = bt_steps (kc_bootstrap k).

(** What enqueueing a frame does. *)
Lemma enqueue_spec p t fl k pl c : pr_max_payload p + 10 ≤ UINT32_MAX → client_ok c →
  let f := frame_of t fl k pl in
  let '(c', rc) := client_encode_and_enqueue p t fl k pl c in
  if pr_max_payload p <? wire_len f then rc = - KITH_EOVERFLOW ∧ c' = c
  else if oq_cap (kc_outq c) <=? zlen (outq_frames (kc_outq c)) then rc = - KITH_EBUSY ∧ c' = c
  else rc = 0 ∧ outq_frames (kc_outq c') = outq_frames (kc_outq c) ++ [wire_of f] ∧ oq_cap (kc_outq c') = oq_cap (kc_outq c).
Proof.
  intros Hp Hc f. unfold client_encode_and_enqueue. rewrite !encode_wire by lia. fold f.
  destruct (Z.ltb_spec (pr_max_payload p) (wire_len f)) as [|Hw]; [done|].
  pose proof (zlen_wire f) as Hz. pose proof (wire_len_nonneg f). rewrite (proj2 (Z.eqb_neq _ 0)) by lia.
  unfold u32, UINT32_MAX in *. rewrite (Z.mod_small (zlen (wire_of f))) by lia. cbv beta iota.
  rewrite encode_wire by (unfold UINT32_MAX; lia). fold f. rewrite (proj2 (Z.ltb_ge _ _) Hw). rewrite take_take, Nat.min_id, take_ge by (unfold zlen; lia).
  pose proof (outq_push_spec (wire_of f) _ (co_outq _ Hc)) as Hpush. destruct (client_outq_push (wire_of f) (kc_outq c)) as [q rc].
  destruct Hpush as (_ & Hcap & Hr). destruct (_ <=? _); destruct Hr as [-> Hr]; [|done].
  rewrite Hr. by destruct c.
Qed.

Lemma frame_of_ok t fl k pl : 0 ≤ t < 2 ^ 16 → 0 ≤ fl < 2 ^ 8 → 0 ≤ k < 2 ^ 64 → frame_ok (frame_of t fl k pl).
Proof. intros Ht Hf Hk. split; try done. unfold frame_of. cbn. by destruct (correlated fl). Qed.

Lemma enqueue_native p t fl k pl c : native_ok (p, c) → 0 ≤ t < 2 ^ 16 → 0 ≤ fl < 2 ^ 8 → 0 ≤ k < 2 ^ 64 →
  native_ok (p, fst (client_encode_and_enqueue p t fl k pl c)).
Proof.
  intros [[L0 Hl] Hc Hw Hpi Hst] Ht Hf Hk. pose proof (enqueue_spec p t fl k pl c ltac:(cbn in *; lia) Hc) as He.
  pose proof (enqueue_ok p t fl k pl c Hc) as Hc'. pose proof (enqueue_same p t fl k pl c) as Hs.
  destruct (client_encode_and_enqueue p t fl k pl c) as [c' rc]. cbn [fst] in *. destruct Hs as (E1 & E2 & _).
  split; cbn [fst snd] in *; rewrite ?E1, ?E2; try done. unfold waiting in *. cbn [snd] in *.
  destruct (Z.ltb_spec (pr_max_payload p) (wire_len (frame_of t fl k pl))) as [|Hle]; [by destruct He as [_ ->]|].
  destruct (_ <=? _); [by destruct He as [_ ->]|]. destruct He as (_ & -> & _). apply Forall_app. split; [done|].
  apply Forall_singleton. eexists. split; [done|]. split; [by apply frame_of_ok|done].
Qed.

Lemma pop_native p cap c : native_ok (p, c) → native_ok (p, fst (ClientCore.kith_client_pop_outbound cap c)).
Proof.
  intros [Hl Hc Hw Hpi Hst]. cbn [fst snd] in *. pose proof (client_step_ok p (OPop cap) c I Hc) as Hc'. cbn in Hc'.
  unfold ClientCore.kith_client_pop_outbound in *. pose proof (outq_pop_spec cap _ (co_outq _ Hc)) as Hp.
  destruct (client_outq_pop cap (kc_outq c)) as [q [rc f]]. destruct Hp as (_ & _ & Hp). unfold waiting in *. cbn [fst snd] in *.
  split; try done. unfold waiting. cbn [fst snd with_outq kc_outq]. destruct (outq_frames (kc_outq c)) as [|f0 fs] eqn:Ef; [destruct Hp as (_ & _ & ->); by rewrite Ef|].
  destruct (cap <? zlen f0); [destruct Hp as (_ & _ & ->); by rewrite Ef|]. destruct Hp as (_ & _ & ->). by inversion Hw.
Qed.

Lemma submit_native p t fl k pl c : native_ok (p, c) → 0 ≤ t < 2 ^ 16 → 0 ≤ fl < 2 ^ 8 → 0 ≤ k < 2 ^ 64 →
  native_ok (p, fst (ClientCore.kith_client_submit_interactive p t fl k pl c)).
Proof.
  intros He Ht Hf Hk. unfold ClientCore.kith_client_submit_interactive. pose proof (enqueue_native p t fl k pl c He Ht Hf Hk) as H.
  destruct (client_encode_and_enqueue p t fl k pl c) as [c' rc]. cbn [fst] in H. destruct (negb _); [done|].
  destruct H as [? Hc' ? ? ?]. split; try done. by destruct Hc'.
Qed.

Lemma register_native name t p c : native_ok (p, c) → native_ok (fst (Proto.kith_proto_register_type_id name t p), c).
Proof.
  intros [? ? Hw ? ?]. unfold Proto.kith_proto_register_type_id. destruct (bool_decide _); [by split|].
  destruct (find_by_name_locked _ _); [by split|]. destruct (find_by_id_locked _ _); by split.
Qed.

#[export] Instance kith_engine_laws : ClientEngineLaws kith_engine.
Proof.
  refine {| engine_ok := native_ok : @engine kith_engine → Prop |}.
  - intros cap [p c] e' rc frame He Hpop. cbn in Hpop. pose proof (pop_native p cap c He) as He'.
    unfold ClientCore.kith_client_pop_outbound in *. pose proof (outq_pop_spec cap _ (co_outq _ (no_client _ He))) as Hp. cbn [snd] in Hp.
    destruct (client_outq_pop cap (kc_outq c)) as [q [rc' f]]. injection Hpop as <- -> ->. split; [done|].
    change (if rc <? 0 then length (outq_frames q) = length (outq_frames (kc_outq c))
            else (length (outq_frames q) < length (outq_frames (kc_outq c)))%nat).
    destruct Hp as (_ & _ & Hp). destruct (outq_frames (kc_outq c)) as [|f0 fs] eqn:Ef; [by destruct Hp as (-> & _ & ->); rewrite Ef|].
    destruct (cap <? zlen f0); [by destruct Hp as (-> & _ & ->); rewrite Ef|]. destruct Hp as (-> & _ & ->). cbn. lia.
  - intros t f k payload [p c] He Ht Hf Hk. pose proof (submit_native p t f k payload c He Ht Hf Hk) as H. cbn.
    by destruct (ClientCore.kith_client_submit_interactive p t f k payload c).
  - intros name t [p c] He. pose proof (register_native name t p c He) as H. cbn. by destruct (Proto.kith_proto_register_type_id name t p).
Defined.

(** ** The outbound drain *)

Section Drain.
Context (su : setup).

(** The scratch buffer may grow to the largest frame of the engine. *)
Definition fits (c : client) : Prop := su_out_limit su = 10 + pr_max_payload (fst (cl_engine c)).

(** The codec, the configuration and the client's own state stay. *)
Record keeps (c c' : client) : Prop := {
  kp_proto : fst (cl_engine c' : native) = fst (cl_engine c : native);
  kp_config : same_config (snd (cl_engine c : native)) (snd (cl_engine c' : native));
  kp_bootstrap : kc_bootstrap (snd (cl_engine c' : native)) = kc_bootstrap (snd (cl_engine c : native));
  kp_registered : cl_registered_type_ids c' = cl_registered_type_ids c;
  kp_connected : cl_connected c' = cl_connected c;
  kp_running : cl_running c' = cl_running c;
}.

Lemma keeps_client_trans c1 c2 c3 : keeps c1 c2 → keeps c2 c3 → keeps c1 c3.
Proof. intros [E1 [F1 G1] ? ? ? ?] [E2 [F2 G2] ? ? ? ?]. split; try congruence. split; congruence. Qed.

(** Popping takes the oldest frame, whatever its size. *)
Lemma pop_loop_exact fuel c : buffer_ok c → fits c → su_out_limit su - cl_out_cap c < Z.of_nat fuel → (0 < fuel)%nat →
  let '(c', r) := pop_loop su fuel c in
  buffer_ok c' ∧ keeps c c' ∧ cl_transport c' = cl_transport c ∧ r = Ok (head (waiting (cl_engine c))) ∧ waiting (cl_engine c') = tail (waiting (cl_engine c)).
Proof.
  revert c. induction fuel as [|fuel IH]; intros c [Hcap He] Hfit Hf Hp; [lia|]. cbn [pop_loop].
  rewrite bind_run. cbn [get]. destruct (kith_client_pop_outbound _ _) as [e [rc frame]] eqn:Hpop. rewrite bind_run. cbn [modify].
  destruct (pop_ok _ _ _ _ _ He Hpop) as [He' _]. cbn in Hpop. unfold fits in *. destruct (cl_engine c) as [p k] eqn:Ee. cbn [fst snd] in *.
  unfold ClientCore.kith_client_pop_outbound in Hpop. pose proof (outq_pop_spec (cl_out_cap c) _ (co_outq _ (no_client _ He))) as Hq.
  cbn [snd] in Hq. destruct (client_outq_pop (cl_out_cap c) (kc_outq k)) as [q [rc' f]]. injection Hpop as <- -> ->.
  destruct Hq as (_ & _ & Hq). pose proof (no_waiting _ He) as Hw. unfold waiting in *. cbn [snd fst with_outq kc_outq] in *.
  assert (∀ q, keeps c (set_engine ((p, with_outq q k) : @engine kith_engine) c)) as Hkeep.
  { intros. split; cbn; rewrite ?Ee; done. }
  unfold buffer_ok.
  destruct (outq_frames (kc_outq k)) as [|f0 fs] eqn:Ef.
  { destruct Hq as (-> & -> & ->). cbn. split_and!; try done. by destruct (Hkeep (kc_outq k)). }
  apply Forall_cons in Hw as [(w & Hw0 & Hw1 & Hw2) _]. pose proof (zlen_wire w) as Hz. rewrite <- Hw0 in Hz.
  destruct (Z.ltb_spec (cl_out_cap c) (zlen f0)) as [Hlt|Hge].
  - destruct Hq as (-> & -> & ->). rewrite (proj2 (Z.ltb_lt (cl_out_cap c) (su_out_limit su))) by lia.
    change (- KITH_EOVERFLOW =? - KITH_EAGAIN) with false. change (- KITH_EOVERFLOW =? - KITH_EOVERFLOW) with true. cbn [andb].
    rewrite bind_run. cbn [modify].
    set (c1 := set_out_cap _ _). assert (cl_engine c1 = (p, with_outq (kc_outq k) k)) as Ee1 by done.
    specialize (IH c1). rewrite Ee1 in IH. unfold waiting in IH. cbn [snd fst with_outq kc_outq] in IH. rewrite Ef in IH.
    specialize (IH ltac:(split; cbn; [lia|done]) ltac:(done) ltac:(cbn; lia) ltac:(lia)).
    destruct (pop_loop su fuel c1) as [c' r]. destruct IH as (Hb & Hk & Hr & Hwt). split; [done|]. split; [|done].
    eapply keeps_client_trans; [|done]. by destruct (Hkeep (kc_outq k)).
  - destruct Hq as (-> & -> & Hq). change (0 =? - KITH_EAGAIN) with false. change (0 =? - KITH_EOVERFLOW) with false. cbn [andb].
    rewrite bind_run. cbn. split_and!; done.
Qed.

(** [c'] has written the first [n] of the frames [W] that waited: all, or as
    many as reach the high-water mark. *)
Definition drained (t : transport) (W : list bytes) (c' : client) (n : nat) : Prop :=
  let size m := su_write_buffer_size su (tr_written t ++ take m W) in
  (n ≤ length W)%nat ∧ cl_transport c' = Some (mkTransport (tr_written t ++ take n W) (tr_closing t)) ∧
  waiting (cl_engine c') = drop n W ∧ (n = length W ∨ _OUTBOUND_HIGH_WATER ≤ size n) ∧
  ∀ m, (0 < m < n)%nat → size m < _OUTBOUND_HIGH_WATER.

Lemma drained_cons t c frame W n :
  su_write_buffer_size su (tr_written t ++ [frame]) < _OUTBOUND_HIGH_WATER →
  drained (mkTransport (tr_written t ++ [frame]) (tr_closing t)) W c n → drained t (frame :: W) c (S n).
Proof.
  intros Hlow (Hn & Ht & Hq & Hend & Hlt). unfold drained. cbn [tr_written tr_closing take drop length] in *.
  split; [lia|]. split; [by rewrite Ht, <- app_assoc|]. split; [done|]. split.
  - rewrite <- app_assoc in Hend. destruct Hend as [->|]; [by left|by right].
  - intros [|m] Hm; [lia|]. cbn [take]. destruct m as [|m]; [done|]. specialize (Hlt (S m) ltac:(lia)). by rewrite <- app_assoc in Hlt.
Qed.

Lemma flush_loop_exact fuel : ∀ c t, buffer_ok c → fits c → cl_transport c = Some t → (length (waiting (cl_engine c)) < fuel)%nat →
  let '(c', r) := flush_loop su fuel c in
  buffer_ok c' ∧ keeps c c' ∧ r = Ok tt ∧ ∃ n, drained t (waiting (cl_engine c)) c' n.
Proof.
  induction fuel as [|fuel IH]; intros c t Hb Hfit Ht Hf; [lia|]. cbn [flush_loop]. rewrite bind_run.
  unfold _pop_outbound at 1. rewrite bind_run. cbn [modify]. rewrite bind_run. cbn [get].
  set (c0 := set_outbound_empty false c).
  pose proof (pop_loop_exact (S (Z.to_nat (su_out_limit su - cl_out_cap c0))) c0 Hb Hfit ltac:(lia) ltac:(lia)) as Hp.
  destruct (pop_loop _ _ _) as [c1 r]. destruct Hp as (Hb1 & Hk1 & S1 & -> & Hw1).
  change (cl_engine c0) with (cl_engine c) in *. change (cl_transport c0) with (cl_transport c) in S1. rewrite Ht in S1.
  destruct (waiting (cl_engine c)) as [|frame W] eqn:EW; cbn [head tail] in *.
  { cbn. split; [done|]. split; [by destruct Hk1|]. split; [done|]. exists 0%nat. unfold drained. rewrite Hw1, S1. cbn. rewrite app_nil_r.
    split_and!; try done; try lia; by destruct t || left. }
  rewrite bind_run. cbn [transport_write modify]. rewrite bind_run. cbn [get]. rewrite S1. cbn [fmap option_fmap option_map].
  set (t1 := mkTransport (tr_written t ++ [frame]) (tr_closing t)). set (c2 := set_transport (Some t1) c1).
  change (buffered su c2) with (su_write_buffer_size su (tr_written t1)).
  destruct (Z.leb_spec _OUTBOUND_HIGH_WATER (su_write_buffer_size su (tr_written t1))) as [Hhi|Hlo].
  - cbn. split; [done|]. split; [by destruct Hk1|]. split; [done|]. exists 1%nat. unfold drained. cbn [take drop length].
    split_and!; try done; try lia. by right.
  - specialize (IH c2 t1 Hb1). cbn in IH, Hf. unfold fits in *. cbn in IH. rewrite (kp_proto _ _ Hk1) in IH. specialize (IH Hfit eq_refl).
    rewrite Hw1 in IH. specialize (IH ltac:(lia)). destruct (flush_loop su fuel c2) as [c' r]. destruct IH as (Hb' & Hk & -> & n & Hn).
    split; [done|]. split; [eapply keeps_client_trans; [|exact Hk]; by destruct Hk1|]. split; [done|]. exists (S n). by apply drained_cons.
Qed.

(** The transport is open and no drain is running. *)
Definition open_link (c : client) (t : transport) : Prop :=
  cl_running c = true ∧ cl_draining c = false ∧ cl_transport c = Some t ∧ tr_closing t = false.

Lemma request_flush_exact c t : buffer_ok c → fits c → open_link c t →
  let '(c', r) := _request_flush su c in
  buffer_ok c' ∧ keeps c c' ∧ r = Ok tt ∧ ∃ n, drained t (waiting (cl_engine c)) c' n.
Proof.
  intros Hb Hfit (Hr & Hd & Ht & Hcl). unfold _request_flush. rewrite bind_run. cbn [modify]. unfold _flush_outbound. rewrite bind_run. cbn [get].
  set (c0 := set_outbound_empty false c). change (cl_draining c0) with (cl_draining c). change (cl_running c0) with (cl_running c).
  change (cl_transport c0) with (cl_transport c). rewrite Hd, Hr, Ht, Hcl. cbn [negb orb]. rewrite bind_run. cbn [modify]. unfold finally.
  set (c1 := set_draining true c0). pose proof (flush_loop_exact (S (queued (cl_engine c0))) c1 t Hb Hfit Ht ltac:(cbn; lia)) as Hf.
  destruct (flush_loop su _ c1) as [c' r]. destruct Hf as (Hb' & Hk & -> & n & Hn). split; [done|]. split; [by destruct Hk|]. split; [done|]. by exists n.
Qed.

(** Without an open link nothing is sent. *)
Lemma request_flush_keeps c : buffer_ok c → fits c → let '(c', r) := _request_flush su c in buffer_ok c' ∧ keeps c c' ∧ r = Ok tt.
Proof.
  intros Hb Hfit. destruct (cl_draining c || negb (cl_running c)) eqn:Hd;
    [|destruct (cl_transport c) as [t|] eqn:Ht; [destruct (tr_closing t) eqn:Hc|]].
  3: { apply orb_false_iff in Hd as [Hd Hr%negb_false_iff]. pose proof (request_flush_exact c t Hb Hfit ltac:(by split_and!)) as H.
       destruct (_request_flush su c) as [c' r]. naive_solver. }
  all: unfold _request_flush; rewrite bind_run; cbn [modify]; unfold _flush_outbound; rewrite bind_run; cbn [get];
    set (c0 := set_outbound_empty false c); change (cl_draining c0) with (cl_draining c); change (cl_running c0) with (cl_running c);
    change (cl_transport c0) with (cl_transport c); rewrite ?Hd, ?Ht, ?Hc; done.
Qed.

Lemma submit_native_exact p kc t fl k pl : native_ok (p, kc) → let f := frame_of t fl k pl in
  let '(kc', (rc, id)) := ClientCore.kith_client_submit_interactive p t fl k pl kc in
  if pr_max_payload p <? wire_len f then rc = - KITH_EOVERFLOW ∧ kc' = kc
  else if oq_cap (kc_outq kc) <=? zlen (waiting (p, kc)) then rc = - KITH_EBUSY ∧ kc' = kc
  else rc = 0 ∧ id = kc_next_cmd_id kc ∧ waiting (p, kc') = waiting (p, kc) ++ [wire_of f].
Proof.
  intros He f. unfold ClientCore.kith_client_submit_interactive, waiting. cbn [snd].
  pose proof (enqueue_spec p t fl k pl kc ltac:(pose proof (no_limit _ He); cbn in *; lia) (no_client _ He)) as Hs. fold f in Hs.
  assert (kc_next_cmd_id (fst (client_encode_and_enqueue p t fl k pl kc)) = kc_next_cmd_id kc) as Hid.
  { unfold client_encode_and_enqueue. destruct (kith_proto_encode _ _ _ _ _ None) as [n ?]. destruct (n =? 0); [done|].
    destruct (kith_proto_encode _ _ _ _ _ _) as [? buf]. by destruct (client_outq_push _ _). }
  destruct (client_encode_and_enqueue p t fl k pl kc) as [kc' rc]. cbn [fst] in Hid. cbv zeta in Hs.
  destruct (_ <? _); [by destruct Hs as [-> ->]|]. destruct (_ <=? _); [by destruct Hs as [-> ->]|]. by destruct Hs as (-> & Hw & _).
Qed.

(** C4: On an open connection, submitting a command either raises the engine's
    error for a payload that is too large or a queue that is full, and changes
    neither the engine nor what was sent, or returns the command's id; then
    the queued frames and the command's frame are handed to the transport in
    order, up to the point where the write buffer is full, and the rest stays
    queued in order. A peer whose codec knows the type and allows the size
    decodes the command's frame to the submitted fields. *)
Theorem submit_reaches_peer c t type_id payload flags k : buffer_ok c → fits c → open_link c t →
  let p := fst (cl_engine c) in
  let kc := snd (cl_engine c) in
  let f := frame_of (Z.land type_id 0xFFFF) (Z.land flags 0xFF) (Z.land k 0xFFFFFFFFFFFFFFFF) payload in
  let '(c', r) := _submit_on_loop su type_id payload flags k c in
  buffer_ok c' ∧
  (if (pr_max_payload p <? wire_len f) || (oq_cap (kc_outq kc) <=? zlen (waiting (p, kc))) then
     r = Err (KithClientError (if pr_max_payload p <? wire_len f then KITH_EOVERFLOW else KITH_EBUSY) [Lit "submit_interactive"])
     ∧ cl_transport c' = Some t ∧ cl_engine c' = cl_engine c
   else r = Ok (kc_next_cmd_id kc) ∧ ∃ n, drained t (waiting (p, kc) ++ [wire_of f]) c' n) ∧
  ∀ q rest, pr_max_payload q ≤ UINT32_MAX → registered q (fm_type_id f) → wire_len f ≤ pr_max_payload q →
    kith_proto_decode q (wire_of f ++ rest) = (q, inr (f, zlen (wire_of f))).
Proof.
  intros Hb Hfit Hl. unfold _submit_on_loop. set (t' := Z.land type_id 0xFFFF). set (fl' := Z.land flags 0xFF).
  set (k' := Z.land k 0xFFFFFFFFFFFFFFFF). cbv zeta. set (f := frame_of t' fl' k' payload).
  pose proof (land_ones_range 16 type_id ltac:(done) : 0 ≤ t' < 2 ^ 16) as Ht. pose proof (land_ones_range 8 flags ltac:(done) : 0 ≤ fl' < 2 ^ 8) as Hfl.
  pose proof (land_ones_range 64 k ltac:(done) : 0 ≤ k' < 2 ^ 64) as Hk. clearbody t' fl' k'.
  pose proof Hl as (_ & _ & Htr & _). pose proof Hb as [Hcap He]. rewrite bind_run. cbn [modify]. rewrite bind_run.
  unfold finally at 1. rewrite bind_run. cbn [get]. cbn [set_outbound_empty cl_engine].
  destruct (cl_engine c) as [p kc] eqn:Ee. cbn [fst snd].
  pose proof (submit_native_exact p kc t' fl' k' payload He) as Hs. fold f in Hs.
  pose proof (submit_native p t' fl' k' payload kc He Ht Hfl Hk) as He'. cbn [AgentControl.kith_client_submit_interactive kith_engine fst snd].
  destruct (ClientCore.kith_client_submit_interactive p t' fl' k' payload kc) as [kc' [rc id]]. cbv zeta in Hs. cbn [fst] in He'.
  rewrite bind_run. cbn [modify]. rewrite bind_run.
  assert (∀ q rest, pr_max_payload q ≤ UINT32_MAX → registered q (fm_type_id f) → wire_len f ≤ pr_max_payload q →
    kith_proto_decode q (wire_of f ++ rest) = (q, inr (f, zlen (wire_of f)))) as Hdec.
  { intros q rest Hq Hreg Hw. apply decode_wire; [|done]. split; [by apply frame_of_ok|done]. }
  destruct (pr_max_payload p <? wire_len f); cbn [orb]; [by destruct Hs as [-> ->]|].
  destruct (oq_cap (kc_outq kc) <=? zlen (waiting (p, kc))); [by destruct Hs as [-> ->]|]. destruct Hs as (-> & -> & Hw).
  cbn [check lift Z.ltb Z.compare mret M_ret]. rewrite bind_run. set (c1 := set_outbound_empty false _).
  pose proof (request_flush_exact c1 t) as Hf. destruct Hl as (L1 & L2 & L3 & L4).
  specialize (Hf ltac:(done) ltac:(unfold fits in *; rewrite Ee in Hfit; done) ltac:(done)).
  destruct (_request_flush su c1) as [c' r]. destruct Hf as (Hb' & _ & -> & n & Hn). cbn [mret M_ret]. split; [done|]. split; [|done].
  split; [done|]. exists n. by rewrite <- Hw.
Qed.
End Drain.

(** ** The engine's other calls *)

Definition keeps_native (p : proto) (k k' : kith_client) : Prop := native_ok (p, k) → native_ok (p, k') ∧ same_config k k'.

Lemma keeps_trans p k1 k2 k3 : keeps_native p k1 k2 → keeps_native p k2 k3 → keeps_native p k1 k3.
Proof. intros H1 H2 H. destruct (H1 H) as [Hn [E1 E2]]. destruct (H2 Hn) as [? [E3 E4]]. split; [done|]. split; congruence. Qed.

Lemma enqueue_keeps p t fl k pl c : 0 ≤ t < 2 ^ 16 → 0 ≤ fl < 2 ^ 8 → 0 ≤ k < 2 ^ 64 →
  keeps_native p c (fst (client_encode_and_enqueue p t fl k pl c)).
Proof.
  intros Ht Hf Hk He. split; [by apply enqueue_native|]. destruct (enqueue_same p t fl k pl c) as (E1 & E2 & _).
  split; [exact E1|]. by rewrite E2.
Qed.

(** A change of the link, the round trips or the bootstrap's position. *)
Lemma link_keeps p k l : (native_ok (p, k) → link_ok (kc_params k) l) → keeps_native p k (with_link l k).
Proof. intros Hl He. specialize (Hl He). destruct He. split; [|done]. split; try done. by apply with_link_ok. Qed.

Lemma rtt_keeps p k r : (native_ok (p, k) → rtt_ok r) → keeps_native p k (with_rtt r k).
Proof. intros Hl He. specialize (Hl He). destruct He. split; [|done]. split; try done. by apply with_rtt_ok. Qed.

Lemma bootstrap_keeps p k b : bt_steps b = bt_steps (kc_bootstrap k) → (native_ok (p, k) → bootstrap_ok b) →
  keeps_native p k (with_bootstrap b k).
Proof.
  intros Eb Hb He. specialize (Hb He). destruct He as [? ? ? ? Hs]. split; [|done]. split; try done; [by apply with_bootstrap_ok|].
  cbn in *. by rewrite Eb.
Qed.

Lemma clear_keeps p k : keeps_native p k (with_outq (client_outq_clear (kc_outq k)) k).
Proof.
  intros [? Hc ? ? ?]. split; [|done]. split; try done; [by apply clear_ok|]. unfold waiting. cbn.
  destruct (outq_clear_spec _ (co_outq _ Hc)) as (_ & _ & E). cbn in E. by rewrite E.
Qed.

Lemma failed_keeps p k : keeps_native p k (fst (bootstrap_failed k)).
Proof. apply bootstrap_keeps; [done|]. intros He. apply idle_ok; [by apply co_bootstrap, (no_client _ He)|done]. Qed.

Lemma settle_keeps p k s : s ≠ RUNNING → keeps_native p k (with_bootstrap (set_state s (kc_bootstrap k)) k).
Proof. intros Hs. apply bootstrap_keeps; [done|]. intros He. apply idle_ok; [by apply co_bootstrap, (no_client _ He)|done]. Qed.

Lemma enter_keeps p i k : 0 ≤ i → keeps_native p k (fst (bootstrap_enter_step p i k)).
Proof.
  intros Hi. unfold bootstrap_enter_step. destruct (_ !! _) as [step|] eqn:E; [|by apply settle_keeps].
  set (k1 := with_bootstrap _ k). assert (keeps_native p k k1) as Hk1.
  { apply bootstrap_keeps; [done|]. intros He. destruct (co_bootstrap _ (no_client _ He)) as [Hn _]. split; [done|]. intros _. cbn.
    apply lookup_lt_Some in E. unfold step_count, zlen. cbn. lia. }
  destruct (sp_on_enter step) as [[[rc t] pl]|] eqn:Es; [|done]. destruct (negb _); [eapply keeps_trans; [done|apply failed_keeps]|].
  intros He. assert (0 ≤ t < 2 ^ 16) as Ht.
  { pose proof (no_steps _ He) as Hs. rewrite Forall_forall in Hs. specialize (Hs step ltac:(by eapply list_elem_of_lookup_2)).
    unfold step_ok in Hs. by rewrite Es in Hs. }
  pose proof (enqueue_keeps p t 0 0 pl k1 Ht ltac:(done) ltac:(done)) as Hq. destruct (client_encode_and_enqueue p t 0 0 pl k1) as [k2 rc2].
  destruct (negb _); (eapply keeps_trans; [exact Hk1| |exact He]); [eapply keeps_trans; [exact Hq|apply failed_keeps]|exact Hq].
Qed.

Lemma start_keeps p k : keeps_native p k (fst (client_bootstrap_start p k)).
Proof.
  unfold client_bootstrap_start. set (k1 := with_bootstrap (client_bootstrap_reset _) k). assert (keeps_native p k k1) as Hk1.
  { apply bootstrap_keeps; [done|]. intros He. apply reset_ok. exact (co_bootstrap _ (no_client _ He)). }
  destruct (Z.eqb_spec (step_count (kc_bootstrap k1)) 0) as [|Hn]; [eapply keeps_trans; [done|by apply settle_keeps]|].
  eapply keeps_trans; [done|]. eapply keeps_trans; [|by apply enter_keeps]. apply bootstrap_keeps; [done|]. intros He.
  destruct (co_bootstrap _ (no_client _ He)) as [Hs _]. split; [done|]. intros _. unfold step_count, zlen in *. cbn in *. lia.
Qed.

Lemma bootstrap_feed_keeps p f k : keeps_native p k (fst (client_bootstrap_feed p f k)).
Proof.
  unfold client_bootstrap_feed. destruct (negb (is_running _)); [done|]. destruct (current _) as [step|]; [|done].
  set (r := match sp_on_reply step with Some _ => _ | None => _ end).
  assert (0 ≤ snd r) as Hr.
  { unfold r, u32. destruct (sp_on_reply step) as [reply|]; [destruct (reply f)|]; cbn; apply Z.mod_pos_bound; lia. }
  destruct r as [rc next]. cbn in Hr. destruct (negb (rc =? 0)); [apply failed_keeps|].
  destruct (_ <? next); [by apply settle_keeps|]. destruct (next =? _); [by apply settle_keeps|]. by apply enter_keeps.
Qed.

Lemma schedule_keeps p now k : keeps_native p k (fst (client_schedule_reconnect now k)).
Proof.
  intros He. pose proof (schedule_ok now k (no_client _ He)) as Hc. destruct He as [? ? ? ? ?].
  revert Hc. unfold client_schedule_reconnect. destruct (_ && _); cbn [fst]; intros Hc; (split; [|done]); split; done.
Qed.

Lemma connected_keeps p now k : keeps_native p k (fst (kith_client_on_connected p now k)).
Proof.
  eapply keeps_trans; [|apply start_keeps]. eapply keeps_trans; [|apply clear_keeps].
  eapply keeps_trans; [|apply rtt_keeps; done]. apply link_keeps. intros He.
  destruct (co_params _ (no_client _ He)) as ([_ _ _ _ [??] [??]] & _). split; cbn in *; try done; lia.
Qed.

Lemma disconnected_keeps p now k : keeps_native p k (fst (kith_client_on_disconnected now k)).
Proof.
  eapply keeps_trans; [|apply schedule_keeps]. eapply keeps_trans; [|apply clear_keeps].
  eapply keeps_trans; [apply link_keeps|apply bootstrap_keeps; [done|]].
  - intros He. destruct (co_link _ (no_client _ He)). by split.
  - intros He. apply reset_ok. exact (co_bootstrap _ (no_client _ He)).
Qed.

Lemma pong_keeps p f now k : keeps_native p k (fst (handle_pong f now k)).
Proof.
  intros He. pose proof (pong_ok f now k (no_client _ He)) as Hc. destruct He as [? ? ? ? ?].
  revert Hc. unfold handle_pong. destruct (_ && _); cbn [fst]; [|by intros; split].
  destruct (_ && _); intros Hc; (split; [|done]); split; done.
Qed.

Lemma feed_keeps p f now k : keeps_native p k (fst (kith_client_feed_frame p f now k)).
Proof.
  unfold kith_client_feed_frame. destruct (_ && _).
  - pose proof (pong_keeps p f now k). by destruct (handle_pong f now k).
  - destruct (client_bootstrap_matches k f); [|done]. pose proof (bootstrap_feed_keeps p f k). by destruct (client_bootstrap_feed p f k).
Qed.

Lemma tick_keeps p now k : keeps_native p k (fst (kith_client_tick p now k)).
Proof.
  intros He. pose proof (tick_ok p now k (no_client _ He)) as Hc.
  assert (keeps_native p k (fst (tick_ping p now k))) as Ht.
  { unfold tick_ping. destruct (_ && _) eqn:E; [|done].
    pose proof (enqueue_keeps p (cp_ping_type_id (kc_params k)) 0 0 (be_bytes 8 now) k (no_ping _ He) ltac:(done) ltac:(done)) as Hq.
    pose proof (enqueue_same p (cp_ping_type_id (kc_params k)) 0 0 (be_bytes 8 now) k) as Hs.
    destruct (client_encode_and_enqueue _ _ _ _ _ k) as [k1 rc]. destruct (negb (rc =? 0)); [done|].
    eapply keeps_trans; [exact Hq|]. apply link_keeps. intros He1. destruct (co_link _ (no_client _ He1)) as [La Ld Lu Ly].
    destruct Hs as (Ep & _ & El & _). cbn [fst snd] in *. rewrite El in *. split; cbn; try done.
    rewrite !andb_true_iff in E. tauto. }
  destruct (Ht He) as [He1 Hs]. unfold kith_client_tick in *. destruct (tick_ping p now k) as [k1 rc]. cbn [fst] in *.
  destruct (negb (rc =? 0)); [done|]. destruct (_ && _); [|done]. cbn [fst] in *. destruct He1. split; [split; done|done].
Qed.
