(* ===== verification/Evidence.v ===== *)
(** * Retained frames and the movement window

    The frames a headless client keeps under a byte budget, and what it reads
    from them ([python/kith/_agent/_evidence.py] and the retention methods of
    [python/kith/_agent/ahc.py]).  Appending to a deque succeeds. *)

From S2P Require Import Prelude PyStruct PyWire Correlator.

#[local] Open Scope Z_scope.

(** ** Two FIFOs *)

Abbreviation retained := (Z * Z * bytes)%type.

(** Time stamp and type of each frame, and the payloads. *)
Record EvidenceFrames := mkFrames { ef_metadata : list Z; ef_payloads : list bytes }.

Definition no_frames : EvidenceFrames := mkFrames [] [].

Definition frames_len (f : EvidenceFrames) : Z := zlen (ef_payloads f).

Definition append_values (ts_ns type_id : Z) (payload : bytes) (f : EvidenceFrames) : EvidenceFrames :=
  mkFrames (ef_metadata f ++ [ts_ns; type_id]) (ef_payloads f ++ [payload]).

Definition frames_extend (frames : list retained) (f : EvidenceFrames) : EvidenceFrames :=
  foldl (λ f '(ts, t, p), append_values ts t p f) f frames.

(** [deque.popleft] *)
Definition deque_popleft {A} (l : list A) : result (list A * A) :=
  match l with x :: l => Ok (l, x) | [] => Err IndexError end.

Definition discard_oldest (f : EvidenceFrames) : result (EvidenceFrames * bytes) :=
  if bool_decide (ef_payloads f = []) then Err IndexError else
  '(metadata, _) ← deque_popleft (ef_metadata f);
  '(metadata, _) ← deque_popleft metadata;
  '(payloads, payload) ← deque_popleft (ef_payloads f);
  Ok (mkFrames metadata payloads, payload).

(** [deque[i]] from the start. *)
Definition deque_at {A} (l : list A) (i : nat) : result A := match l !! i with Some x => Ok x | None => Err IndexError end.

Definition frames_popleft (f : EvidenceFrames) : result (EvidenceFrames * retained) :=
  if bool_decide (ef_payloads f = []) then Err IndexError else
  ts ← deque_at (ef_metadata f) 0;
  t ← deque_at (ef_metadata f) 1;
  p ← deque_at (ef_payloads f) 0;
  '(f, _) ← discard_oldest f;
  Ok (f, (ts, t, p)).

Definition oldest_timestamp (f : EvidenceFrames) : result Z := deque_at (ef_metadata f) 0.

Definition span_ns (f : EvidenceFrames) : result (option Z) :=
  if bool_decide (ef_payloads f = []) then Ok None else
  newest ← (if (length (ef_metadata f) <? 2)%nat then Err IndexError else deque_at (ef_metadata f) (length (ef_metadata f) - 2));
  oldest ← deque_at (ef_metadata f) 0;
  Ok (Some (newest - oldest)).

(** Iteration pairs two entries with each payload; there are enough (see
    [frames_ok]). *)
Fixpoint pair_up (metadata : list Z) (payloads : list bytes) : list retained :=
  match payloads, metadata with
  | p :: payloads, ts :: t :: metadata => (ts, t, p) :: pair_up metadata payloads
  | _, _ => []
  end.
Definition frames_iter (f : EvidenceFrames) : list retained := pair_up (ef_metadata f) (ef_payloads f).

(** ** Evaluation *)

Definition VIEW_WINDOW_ID_CAP : Z := 256.

Record WindowEvidence := mkEvidence {
  we_distinct_ids : gset Z;
  we_frame_ts_ns : list Z;
  we_incomplete : bool;
  we_deque_distinct_ids : gset Z;
}.

(** The extractor answers the ids of a frame. *)
Abbreviation id_extractor := (option (Z → bytes → list Z)).

Record WindowSnapshot := mkSnapshot {
  ws_frames : list retained;
  ws_start_ns : option Z;
  ws_deadline_ns : option Z;
  ws_incomplete : bool;
  ws_extractor : id_extractor;
}.

Record scan := mkScan { sc_ids : gset Z; sc_deque_ids : gset Z; sc_frame_ts : list Z }.

Definition in_window (s : WindowSnapshot) (ts_ns : Z) : bool :=
  match ws_start_ns s with None => true | Some start => start <=? ts_ns end &&
  match ws_deadline_ns s with None => true | Some deadline => ts_ns <=? deadline end.

(** [ids.update(itertools.islice(extracted, CAP - len(ids)))] *)
Definition take_ids (extracted : list Z) (ids : gset Z) : gset Z :=
  ids ∪ list_to_set (take (Z.to_nat (VIEW_WINDOW_ID_CAP - Z.of_nat (size ids))) extracted).

Definition scan_frame (s : WindowSnapshot) (acc : scan) (fr : retained) : scan :=
  let '(ts_ns, type_id, payload) := fr in
  let inside := in_window s ts_ns in
  let frame_ts := if inside then sc_frame_ts acc ++ [ts_ns] else sc_frame_ts acc in
  let want_deque := Z.of_nat (size (sc_deque_ids acc)) <? VIEW_WINDOW_ID_CAP in
  let want_window := inside && (Z.of_nat (size (sc_ids acc)) <? VIEW_WINDOW_ID_CAP) in
  match ws_extractor s with
  | Some extractor =>
      let extracted := extractor type_id payload in
      mkScan (if want_window then take_ids extracted (sc_ids acc) else sc_ids acc)
        (if want_deque then take_ids extracted (sc_deque_ids acc) else sc_deque_ids acc) frame_ts
  | None => mkScan (sc_ids acc) (sc_deque_ids acc) frame_ts
  end.

(** [None] after every sixty-fourth frame, then the evidence. *)
Fixpoint _batches (s : WindowSnapshot) (index : Z) (frames : list retained) (acc : scan) : list (option WindowEvidence) :=
  match frames with
  | [] => [Some (mkEvidence (sc_ids acc) (sc_frame_ts acc) (ws_incomplete s) (sc_deque_ids acc))]
  | fr :: frames => (if index mod 64 =? 0 then [None] else []) ++ _batches s (index + 1) frames (scan_frame s acc fr)
  end.

Definition no_evidence : exn := AssertionError [Lit "window reduction produced no evidence"].

Fixpoint first_result (l : list (option WindowEvidence)) : result WindowEvidence :=
  match l with [] => Err no_evidence | Some e :: _ => Ok e | None :: l => first_result l end.

Definition evaluate (s : WindowSnapshot) : result WindowEvidence :=
  first_result (_batches s 1 (ws_frames s) (mkScan ∅ ∅ [])).

(** ** Retention *)

Record retention := mkRetention {
  re_evidence : EvidenceFrames;
  re_bytes : Z;
  re_evictions : Z;
  re_retired : bool;
  re_start_ns : option Z;
  re_open : bool;
  re_deadline_ns : option Z;
  re_cached : option WindowEvidence;
  re_generation : Z;
  re_evicted_in_window : bool;
}.

Definition fresh_retention : retention := mkRetention no_frames 0 0 false None false None None 0 false.

Section Retention.
Context (evidence_budget_bytes : Z) (window_id_extractor : id_extractor).

Definition begin_view_window (now_ns : Z) (r : retention) : retention :=
  mkRetention (re_evidence r) (re_bytes r) (re_evictions r) false (Some now_ns) true None None (re_generation r + 1) false.

Definition seal_view_window (deadline_ns : Z) (r : retention) : retention :=
  mkRetention (re_evidence r) (re_bytes r) (re_evictions r) (re_retired r) (re_start_ns r) (re_open r) (Some deadline_ns) None
    (re_generation r + 1) (re_evicted_in_window r).

Definition snapshot_view_window (r : retention) : option WindowSnapshot :=
  if negb (re_open r) then None else
  Some (mkSnapshot (frames_iter (re_evidence r)) (re_start_ns r) (re_deadline_ns r)
          (re_evicted_in_window r || (evidence_budget_bytes =? 0)) window_id_extractor).

Definition retire_view_window (r : retention) : retention :=
  if re_retired r then r else
  mkRetention no_frames 0 (re_evictions r) true (re_start_ns r) false (re_deadline_ns r) None (re_generation r + 1)
    (re_evicted_in_window r).

Definition _cache_window_evidence (generation : Z) (final : bool) (evidence : WindowEvidence) (r : retention) : retention :=
  if final && (generation =? re_generation r) && bool_decide (re_cached r = None)
  then mkRetention (re_evidence r) (re_bytes r) (re_evictions r) (re_retired r) (re_start_ns r) (re_open r) (re_deadline_ns r)
         (Some evidence) (re_generation r) (re_evicted_in_window r)
  else r.

Definition final_capture (captured_ns : Z) (s : WindowSnapshot) : bool :=
  match ws_deadline_ns s with Some d => d <=? captured_ns | None => false end.

Definition view_window (captured_ns : Z) (r : retention) : retention * result (option WindowEvidence) :=
  match re_cached r with
  | Some e => (r, Ok (Some e))
  | None =>
      match snapshot_view_window r with
      | None => (r, Ok None)
      | Some snapshot =>
          match evaluate snapshot with
          | Err e => (r, Err e)
          | Ok evidence => (_cache_window_evidence (re_generation r) (final_capture captured_ns snapshot) evidence r, Ok (Some evidence))
          end
      end
  end.

(** What the client does while the decoding yields is [meanwhile]. *)
Definition view_window_async (captured_ns : Z) (meanwhile : retention → retention) (r : retention)
    : retention * result (option WindowEvidence) :=
  match re_cached r with
  | Some e => (r, Ok (Some e))
  | None =>
      match snapshot_view_window r with
      | None => (r, Ok None)
      | Some snapshot =>
          match evaluate snapshot with
          | Err e => (meanwhile r, Err e)
          | Ok evidence =>
              (_cache_window_evidence (re_generation r) (final_capture captured_ns snapshot) evidence (meanwhile r), Ok (Some evidence))
          end
      end
  end.

Definition set_evidence (f : EvidenceFrames) (bytes evictions : Z) (evicted : bool) (r : retention) : retention :=
  mkRetention f bytes evictions (re_retired r) (re_start_ns r) (re_open r) (re_deadline_ns r) (re_cached r) (re_generation r) evicted.

(** The eviction loop of [_append_evidence]; it ends with the payloads. *)
Fixpoint evict_loop (payloads : list bytes) (metadata : list Z) (r : retention) : retention * result unit :=
  let r := set_evidence (mkFrames metadata payloads) (re_bytes r) (re_evictions r) (re_evicted_in_window r) r in
  match payloads with
  | [] => (r, Ok tt)
  | dropped :: payloads =>
      if negb (evidence_budget_bytes <? re_bytes r) then (r, Ok tt) else
      match metadata with
      | ts :: _ :: metadata =>
          let dropped_in_window := re_open r && match re_start_ns r with Some start => start <=? ts | None => false end
                                   && negb (re_evicted_in_window r) in
          evict_loop payloads metadata
            (set_evidence (mkFrames metadata payloads) (re_bytes r - zlen dropped) (re_evictions r + 1)
               (if dropped_in_window then true else re_evicted_in_window r) r)
      | _ => (r, Err IndexError)
      end
  end.

Definition _append_evidence (ts_ns type_id : Z) (payload : bytes) : M retention unit := λ r,
  let f := append_values ts_ns type_id payload (re_evidence r) in
  evict_loop (ef_payloads f) (ef_metadata f)
    (set_evidence f (re_bytes r + zlen payload) (re_evictions r) (re_evicted_in_window r) r).

(** What [_arm_connection] does to the frames. *)
Definition arm_evidence (r : retention) : retention :=
  if negb (re_open r) then set_evidence no_frames 0 (re_evictions r) (re_evicted_in_window r) r else r.

Definition evidence_frames (r : retention) : list ClientEvent :=
  (λ '(ts, t, p), mkClientEvent ts t 0 p) <$> frames_iter (re_evidence r).
End Retention.
