(* ===== verification/EvidenceTheorems.v ===== *)
(** * The window's evidence

    The retained frames are the longest recent stretch within the byte budget,
    and a complete reading accounts for every frame of the window. *)

From S2P Require Import Prelude PyStruct PyWire Correlator Evidence.

#[local] Open Scope Z_scope.

(** ** Specification *)

Definition frame_ts (fr : retained) : Z := fst (fst fr).
Definition frame_ids (x : Z → bytes → list Z) (fr : retained) : list Z := x (snd (fst fr)) (snd fr).

Fixpoint total (l : list retained) : Z := match l with [] => 0 | fr :: l => zlen (snd fr) + total l end.

(** The longest suffix within the budget. *)
Fixpoint suffix_within (budget : Z) (l : list retained) : list retained :=
  match l with
  | [] => []
  | _ :: l' => if total l <=? budget then l else suffix_within budget l'
  end.

(** The FIFOs hold these frames. *)
Definition holds (f : EvidenceFrames) (l : list retained) : Prop :=
  ef_metadata f = (fr ← l; [frame_ts fr; snd (fst fr)]) ∧ ef_payloads f = snd <$> l.

Record retention_ok (budget : Z) (r : retention) : Prop := {
  ro_holds : holds (re_evidence r) (frames_iter (re_evidence r));
  ro_bytes : re_bytes r = total (frames_iter (re_evidence r));
  ro_budget : re_bytes r ≤ budget;
}.

(** The operations, and those that leave the window as it is. *)
Inductive retention_op :=
  | Begin (now_ns : Z)
  | Seal (deadline_ns : Z)
  | Retire
  | View (captured_ns : Z)
  | Append (fr : retained)
  | Arm.

Section Spec.
Context (budget : Z) (extractor : id_extractor).

Definition retention_step (o : retention_op) (r : retention) : retention :=
  match o with
  | Begin now => begin_view_window now r
  | Seal d => seal_view_window d r
  | Retire => retire_view_window r
  | View now => fst (view_window budget extractor now r)
  | Append (ts, t, p) => fst (_append_evidence budget ts t p r)
  | Arm => arm_evidence r
  end.

Definition appends (frames : list retained) (r : retention) : retention := foldl (λ r fr, retention_step (Append fr) r) r frames.
End Spec.

(** ** Frames *)

Lemma iter_holds f l : holds f l → frames_iter f = l.
Proof.
  destruct f as [m p]. intros [Hm Hp]. cbn in Hm, Hp. subst. unfold frames_iter. cbn [ef_metadata ef_payloads].
  induction l as [|[[ts t] p] l IH]; [done|]. cbn. by f_equal.
Qed.

Lemma holds_append f l ts t p : holds f l → holds (append_values ts t p f) (l ++ [(ts, t, p)]).
Proof. intros [Hm Hp]. split; cbn; rewrite ?Hm, ?Hp, ?bind_app, ?fmap_app; done. Qed.

Lemma total_nonneg l : 0 ≤ total l.
Proof. induction l as [|fr l IH]; cbn [total]; [done|]. unfold zlen. lia. Qed.

Lemma total_app l k : total (l ++ k) = total l + total k.
Proof. induction l as [|fr l IH]; cbn [total app]; lia. Qed.

Lemma suffix_within_suffix b l : ∃ k, suffix_within b l = drop k l.
Proof.
  induction l as [|fr l [k IH]]; [by exists 0%nat|]. cbn [suffix_within]. destruct (_ <=? _); [by exists 0%nat|]. by exists (S k).
Qed.

Lemma suffix_within_total b l : 0 ≤ b → total (suffix_within b l) ≤ b.
Proof. intros Hb. induction l as [|fr l IH]; [done|]. cbn [suffix_within]. by destruct (Z.leb_spec (total (fr :: l)) b). Qed.

Lemma suffix_within_all b l : total l ≤ b → suffix_within b l = l.
Proof. destruct l as [|fr l]; [done|]. cbn [suffix_within]. intros H. by rewrite (proj2 (Z.leb_le _ _) H). Qed.

Lemma suffix_within_snoc b l k : suffix_within b (suffix_within b l ++ k) = suffix_within b (l ++ k).
Proof.
  induction l as [|fr l IH]; [done|]. cbn [suffix_within app]. destruct (Z.leb_spec (total (fr :: l)) b) as [|Hgt]; [done|].
  rewrite IH. rewrite (proj2 (Z.leb_gt _ _)); [done|]. change (fr :: l ++ k) with ((fr :: l) ++ k). rewrite total_app.
  pose proof (total_nonneg k). lia.
Qed.

(** ** Appending *)

Definition dropped_inside (r : retention) (l : list retained) : bool :=
  re_open r && existsb (λ fr, match re_start_ns r with Some s => s <=? frame_ts fr | None => false end) l.

(** Everything but the frames and their counters. *)
Definition same_window (r r' : retention) : Prop :=
  re_retired r' = re_retired r ∧ re_start_ns r' = re_start_ns r ∧ re_open r' = re_open r ∧
  re_deadline_ns r' = re_deadline_ns r ∧ re_cached r' = re_cached r ∧ re_generation r' = re_generation r.

Lemma same_window_trans r1 r2 r3 : same_window r1 r2 → same_window r2 r3 → same_window r1 r3.
Proof. intros (? & ? & ? & ? & ? & ?) (? & ? & ? & ? & ? & ?). unfold same_window. split_and!; congruence. Qed.

Lemma evict_spec b l : ∀ r, re_bytes r = total l →
  let '(r', o) := evict_loop b (snd <$> l) (fr ← l; [frame_ts fr; snd (fst fr)]) r in
  o = Ok tt ∧ same_window r r' ∧ holds (re_evidence r') (suffix_within b l) ∧ re_bytes r' = total (suffix_within b l) ∧
  re_evictions r' = re_evictions r + (zlen l - zlen (suffix_within b l)) ∧
  re_evicted_in_window r' = re_evicted_in_window r || dropped_inside r (take (length l - length (suffix_within b l)) l).
Proof.
  induction l as [|[[ts t] p] l IH]; intros r Hb; cbn [evict_loop fmap list_fmap snd fst].
  { cbn. unfold dropped_inside, zlen. cbn. rewrite !andb_false_r, orb_false_r. split_and!; try done. lia. }
  cbn [re_bytes set_evidence]. rewrite Hb. cbn [suffix_within]. rewrite Z.leb_antisym.
  destruct (Z.ltb_spec b (total ((ts, t, p) :: l))) as [Hgt|Hle]; cbn [negb].
  2: { split_and!; try done; [cbn; lia|]. cbn. rewrite Nat.sub_diag. unfold dropped_inside. cbn. by rewrite andb_false_r, orb_false_r. }
  cbn [mbind list_bind app frame_ts fst snd re_open re_start_ns set_evidence re_evicted_in_window re_evictions].
  set (r1 := set_evidence _ _ _ _ _). specialize (IH r1). cbn [re_bytes set_evidence] in IH. unfold r1 in IH at 1. cbn [re_bytes set_evidence] in IH.
  cbn [total snd] in Hb. specialize (IH ltac:(cbn [total snd] in *; lia)). destruct (evict_loop b _ _ r1) as [r' o].
  destruct IH as (-> & Hs & Hh & Hby & Hev & Hfl). split; [done|]. split; [done|]. split; [done|]. split; [done|].
  assert (length (suffix_within b l) ≤ length l)%nat as Hlen.
  { destruct (suffix_within_suffix b l) as [k ->]. rewrite length_drop. lia. }
  split; [rewrite Hev; unfold r1, zlen; cbn; lia|]. rewrite Hfl. cbn [length].
  replace (S (length l) - length (suffix_within b l))%nat with (S (length l - length (suffix_within b l))) by lia.
  unfold dropped_inside, r1. cbn. destruct (re_evicted_in_window r), (re_open r), (re_start_ns r) as [s|]; cbn; try done;
    by destruct (s <=? ts).
Qed.

Lemma append_spec b x fr r : holds (re_evidence r) (frames_iter (re_evidence r)) → re_bytes r = total (frames_iter (re_evidence r)) →
  let l := frames_iter (re_evidence r) ++ [fr] in
  let r' := retention_step b x (Append fr) r in
  same_window r r' ∧ holds (re_evidence r') (suffix_within b l) ∧ re_bytes r' = total (suffix_within b l) ∧
  re_evicted_in_window r' = re_evicted_in_window r || dropped_inside r (take (length l - length (suffix_within b l)) l).
Proof.
  destruct fr as [[ts t] p]. intros Hh Hb l. cbn [retention_step]. unfold _append_evidence. cbn zeta.
  pose proof (holds_append _ _ ts t p Hh) as [Hm Hp]. rewrite Hm, Hp. fold l.
  set (r1 := set_evidence _ _ _ _ r). pose proof (evict_spec b l r1) as He. specialize (He ltac:(unfold l; rewrite total_app; cbn [total snd re_bytes set_evidence r1]; lia)).
  destruct (evict_loop b _ _ r1) as [r' o]. destruct He as (_ & Hs & Hh' & Hb' & _ & Hf). by split_and!.
Qed.

Lemma dropped_split b H k : length (suffix_within b H) = (length H - k)%nat → suffix_within b H = drop k H → (k ≤ length H)%nat →
  ∀ fr, let S' := suffix_within b (H ++ [fr]) in
  take (length (H ++ [fr]) - length S') (H ++ [fr]) =
  take k H ++ take (length (suffix_within b H ++ [fr]) - length S') (suffix_within b H ++ [fr]).
Proof.
  intros Hl HS Hk fr S'. assert (length S' ≤ length (suffix_within b H ++ [fr]))%nat as Hs.
  { unfold S'. rewrite <- suffix_within_snoc. destruct (suffix_within_suffix b (suffix_within b H ++ [fr])) as [j ->]. rewrite length_drop. lia. }
  rewrite HS. rewrite HS in Hs. rewrite <- (take_drop k H) at 2. rewrite <- app_assoc, take_app_ge by (rewrite !length_app, length_take, length_drop in *; cbn in *; lia).
  f_equal. f_equal. rewrite !length_app, length_take, length_drop in *. cbn in *. lia.
Qed.

Lemma appends_spec b x r : 0 ≤ b → retention_ok b r → ∀ l,
  let H := frames_iter (re_evidence r) ++ l in
  let r' := appends b x l r in
  same_window r r' ∧ holds (re_evidence r') (suffix_within b H) ∧ re_bytes r' = total (suffix_within b H) ∧
  re_evicted_in_window r' = re_evicted_in_window r || dropped_inside r (take (length H - length (suffix_within b H)) H).
Proof.
  intros Hb [Hh Hby Hbu] l. induction l as [|fr l IH] using rev_ind; cbn zeta in *.
  { rewrite app_nil_r, suffix_within_all by lia. rewrite Nat.sub_diag. unfold dropped_inside. cbn. by rewrite andb_false_r, orb_false_r. }
  unfold appends in *. rewrite foldl_app. cbn [foldl]. set (r1 := foldl _ r l) in *. set (R := frames_iter (re_evidence r)) in *.
  destruct IH as (Hs1 & Hh1 & Hb1 & Hf1). rewrite app_assoc. set (H := R ++ l) in *.
  destruct fr as [[ts t] p]. pose proof (append_spec b x (ts, t, p) r1) as Ha. rewrite (iter_holds _ _ Hh1) in Ha.
  destruct (Ha Hh1 Hb1) as (Hs2 & Hh2 & Hb2 & Hf2). rewrite suffix_within_snoc in *.
  destruct (suffix_within_suffix b H) as [k Hk].
  assert (∃ k, suffix_within b H = drop k H ∧ (k ≤ length H)%nat) as (j & Hj & Hjl).
  { exists (min k (length H)). split; [|lia]. rewrite Hk. destruct (Nat.le_ge_cases k (length H)); [by rewrite Nat.min_l|].
    by rewrite Nat.min_r, !drop_ge by lia. }
  pose proof (f_equal length Hj) as Hlj. rewrite length_drop in Hlj.
  split; [by eapply same_window_trans|]. split; [done|]. split; [done|]. cbn [retention_step] in *. rewrite Hf2, Hf1.
  rewrite (dropped_split b H j Hlj Hj Hjl (ts, t, p)), Hlj. replace (length H - (length H - j))%nat with j by lia.
  unfold dropped_inside. destruct Hs1 as (_ & E1 & E2 & _). rewrite E1, E2, existsb_app. by destruct (re_evicted_in_window r), (re_open r).
Qed.

(** ** Evaluation *)

Definition ids_of (x : Z → bytes → list Z) (l : list retained) : gset Z := list_to_set (fr ← l; frame_ids x fr).

Definition collect_frame (x : Z → bytes → list Z) (sel : retained → bool) (ids : gset Z) (fr : retained) : gset Z :=
  if sel fr && (Z.of_nat (size ids) <? VIEW_WINDOW_ID_CAP) then take_ids (frame_ids x fr) ids else ids.
Definition collected (x : Z → bytes → list Z) (sel : retained → bool) (l : list retained) (ids : gset Z) : gset Z :=
  foldl (collect_frame x sel) ids l.

Lemma first_batches s : ∀ l i acc, first_result (_batches s i l acc) =
  let a := foldl (scan_frame s) acc l in Ok (mkEvidence (sc_ids a) (sc_frame_ts a) (ws_incomplete s) (sc_deque_ids a)).
Proof. induction l as [|fr l IH]; intros i acc; [done|]. cbn [_batches foldl]. destruct (_ =? 0); apply IH. Qed.

Lemma scan_fold s x : ws_extractor s = Some x → ∀ l acc, foldl (scan_frame s) acc l =
  mkScan (collected x (λ fr, in_window s (frame_ts fr)) l (sc_ids acc)) (collected x (λ _, true) l (sc_deque_ids acc))
    (sc_frame_ts acc ++ (frame_ts <$> filter (λ fr, in_window s (frame_ts fr) = true) l)).
Proof.
  intros Hx. induction l as [|[[ts t] p] l IH]; intros acc; cbn [foldl collected].
  { cbn. rewrite app_nil_r. by destruct acc. }
  rewrite IH. unfold scan_frame at 1 2 3. rewrite Hx. cbn [sc_ids sc_deque_ids sc_frame_ts]. f_equal.
  unfold frame_ts at 2 3. cbn [fst]. rewrite filter_cons. change (frame_ts (ts, t, p)) with ts.
  destruct (in_window s ts) eqn:Ei; cbn [fmap list_fmap]; [|done]. by rewrite <- app_assoc.
Qed.

Lemma size_list_to_set_le (l : list Z) : (size (list_to_set l : gset Z) ≤ length l)%nat.
Proof.
  induction l as [|z l IH]; [done|]. cbn [list_to_set length]. rewrite size_union_alt, size_singleton.
  pose proof (subseteq_size (list_to_set l ∖ {[z]}) (list_to_set l : gset Z) ltac:(set_solver)). lia.
Qed.

Section Collected.
Context (x : Z → bytes → list Z) (sel : retained → bool) (U : gset Z).

Lemma collected_sound l : ∀ ids : gset Z, (∀ fr, fr ∈ l → sel fr = true → (list_to_set (frame_ids x fr) : gset Z) ⊆ U) → ids ⊆ U →
  Z.of_nat (size ids) ≤ VIEW_WINDOW_ID_CAP → ids ⊆ collected x sel l ids ∧ collected x sel l ids ⊆ U ∧ Z.of_nat (size (collected x sel l ids)) ≤ VIEW_WINDOW_ID_CAP.
Proof.
  induction l as [|fr l IH]; intros ids Hl Hi Hs; [done|]. cbn [collected foldl]. set (ids' := collect_frame x sel ids fr).
  assert (ids ⊆ ids' ∧ ids' ⊆ U ∧ Z.of_nat (size ids') ≤ VIEW_WINDOW_ID_CAP) as (H1 & H2 & H3).
  { unfold ids', collect_frame. destruct (sel fr) eqn:Es; cbn [andb]; [|done]. destruct (Z.ltb_spec (Z.of_nat (size ids)) VIEW_WINDOW_ID_CAP); [|done].
    unfold take_ids. set (n := Z.to_nat _). specialize (Hl fr ltac:(left) Es). split; [set_solver|]. split.
    - apply union_subseteq. split; [done|]. etrans; [|apply Hl]. intros z. rewrite !elem_of_list_to_set. intros (i & Hz & _)%elem_of_take.
      by eapply list_elem_of_lookup_2.
    - assert (size (list_to_set (take n (frame_ids x fr)) : gset Z) ≤ n)%nat.
      { etrans; [apply size_list_to_set_le|]. rewrite length_take. lia. }
      pose proof (size_union_alt ids (list_to_set (take n (frame_ids x fr)) : gset Z)) as Hu.
      pose proof (subseteq_size (list_to_set (take n (frame_ids x fr)) ∖ ids) (list_to_set (take n (frame_ids x fr)) : gset Z) ltac:(set_solver)).
      unfold n in *. lia. }
  destruct (IH ids' ltac:(intros; apply Hl; [by right|done]) H2 H3) as (? & ? & ?). split_and!; try done. set_solver.
Qed.

Lemma collected_exact l : ∀ ids : gset Z, (∀ fr, fr ∈ l → sel fr = true → (list_to_set (frame_ids x fr) : gset Z) ⊆ U) → ids ⊆ U →
  (∀ fr, fr ∈ l → sel fr = true → Z.of_nat (size U) + zlen (frame_ids x fr) ≤ VIEW_WINDOW_ID_CAP) →
  Z.of_nat (size ids) ≤ VIEW_WINDOW_ID_CAP →
  ∀ fr, fr ∈ l → sel fr = true → (list_to_set (frame_ids x fr) : gset Z) ⊆ collected x sel l ids.
Proof.
  induction l as [|fr l IH]; intros ids Hl Hi Hc Hs g Hg Eg; [by apply elem_of_nil in Hg|].
  pose proof (collected_sound [fr] ids ltac:(intros ? ->%list_elem_of_singleton; apply Hl; left) Hi Hs) as (H1 & H2 & H3).
  cbn [collected foldl] in *. set (ids' := collect_frame x sel ids fr) in *.
  assert (∀ f, f ∈ l → sel f = true → (list_to_set (frame_ids x f) : gset Z) ⊆ U) as Hl' by (intros; apply Hl; [by right|done]).
  apply elem_of_cons in Hg as [->|Hg]; [|apply (IH ids'); try done; intros; apply Hc; [by right|done]].
  destruct (collected_sound l ids' Hl' H2 H3) as (H4 & _). etrans; [|apply H4]. unfold ids', collect_frame. rewrite Eg. cbn [andb].
  specialize (Hc fr ltac:(left) Eg). pose proof (subseteq_size _ _ Hi). destruct (Z.ltb_spec (Z.of_nat (size ids)) VIEW_WINDOW_ID_CAP).
  - unfold take_ids. rewrite take_ge by (unfold zlen in *; lia). set_solver.
  - assert (frame_ids x fr = []) as -> by (apply length_zero_iff_nil; unfold zlen in *; lia). set_solver.
Qed.
End Collected.

Lemma ids_of_elem x l z : z ∈ ids_of x l ↔ ∃ fr, fr ∈ l ∧ z ∈ frame_ids x fr.
Proof. unfold ids_of. rewrite elem_of_list_to_set, list_elem_of_bind. naive_solver. Qed.

(** What a reading says of the captured frames. *)
Lemma evaluate_spec s x : ws_extractor s = Some x →
  let inside := filter (λ fr, in_window s (frame_ts fr) = true) (ws_frames s) in
  ∃ ev, evaluate s = Ok ev ∧ we_incomplete ev = ws_incomplete s ∧ we_frame_ts_ns ev = frame_ts <$> inside ∧
    Z.of_nat (size (we_distinct_ids ev)) ≤ VIEW_WINDOW_ID_CAP ∧ we_distinct_ids ev ⊆ ids_of x inside ∧
    (Forall (λ fr, Z.of_nat (size (ids_of x inside)) + zlen (frame_ids x fr) ≤ VIEW_WINDOW_ID_CAP) inside →
     we_distinct_ids ev = ids_of x inside).
Proof.
  intros Hx inside. unfold evaluate. rewrite first_batches, (scan_fold s x Hx). cbn zeta. cbn [sc_ids sc_deque_ids sc_frame_ts app]. fold inside.
  eexists. split; [done|]. cbn [we_incomplete we_frame_ts_ns we_distinct_ids]. split; [done|]. split; [done|].
  set (sel := λ fr, in_window s (frame_ts fr)).
  assert (∀ fr, fr ∈ ws_frames s → sel fr = true → fr ∈ inside) as Hin by (intros fr Hf Hs; by apply list_elem_of_filter).
  assert (∀ fr, fr ∈ ws_frames s → sel fr = true → (list_to_set (frame_ids x fr) : gset Z) ⊆ ids_of x inside) as HU.
  { intros fr Hf Hs z Hz%elem_of_list_to_set. apply ids_of_elem. eauto. }
  destruct (collected_sound x sel (ids_of x inside) (ws_frames s) gset_empty HU (empty_subseteq _) ltac:(done)) as (_ & H1 & H2).
  split; [done|]. split; [done|]. intros Hcap. apply set_eq_subseteq. split; [done|]. intros z (fr & Hf & Hz)%ids_of_elem.
  apply list_elem_of_filter in Hf as [Hs Hf]. rewrite Forall_forall in Hcap.
  pose proof (collected_exact x sel (ids_of x inside) (ws_frames s) gset_empty HU (empty_subseteq _) ltac:(eauto) ltac:(done) fr Hf Hs) as Hsub.
  apply Hsub. by apply elem_of_list_to_set.
Qed.

(** ** A whole window *)

Lemma suffix_keeps b R l : 0 ≤ b →
  if total l <=? b then ∃ k, suffix_within b (R ++ l) = drop k R ++ l ∧ (k ≤ length R)%nat
  else (length (suffix_within b (R ++ l)) < length l)%nat.
Proof.
  intros Hb. destruct (Z.leb_spec (total l) b) as [Hle|Hgt].
  - induction R as [|fr R [k [IH Hk]]]; [exists 0%nat; cbn; by rewrite suffix_within_all|]. cbn [app suffix_within].
    destruct (_ <=? _); [exists 0%nat; split; [done|lia]|]. exists (S k). cbn. split; [done|lia].
  - pose proof (suffix_within_total b (R ++ l) Hb) as Ht. destruct (suffix_within_suffix b (R ++ l)) as [k Hk].
    rewrite Hk in *. destruct (Nat.le_gt_cases k (length R)) as [Hkr|Hkr].
    + rewrite drop_app_le, total_app in Ht by lia. pose proof (total_nonneg (drop k R)). lia.
    + rewrite drop_app_ge, length_drop by lia. destruct l as [|fr l]; [cbn in Hgt; lia|]. cbn. lia.
Qed.

Lemma existsb_all {A} (f : A → bool) l : Forall (λ x, f x = true) l → existsb f l = negb (length l =? 0)%nat.
Proof. intros Hl. destruct Hl as [|x l Hx _]; [done|]. cbn. by rewrite Hx. Qed.

Lemma existsb_none {A} (f : A → bool) l : Forall (λ x, f x = false) l → existsb f l = false.
Proof. induction 1 as [|x l Hx _ IH]; [done|]. cbn. by rewrite Hx. Qed.

(** Frames before the window do not count as dropped, those within do. *)
Lemma dropped_exact b R l start : 0 ≤ b → Forall (λ fr, frame_ts fr < start) R → Forall (λ fr, start ≤ frame_ts fr) l →
  existsb (λ fr, start <=? frame_ts fr) (take (length (R ++ l) - length (suffix_within b (R ++ l))) (R ++ l)) = negb (total l <=? b).
Proof.
  intros Hb HR Hl. pose proof (suffix_keeps b R l Hb) as Hs. set (S' := suffix_within b (R ++ l)) in *.
  assert (∀ k, existsb (λ fr, start <=? frame_ts fr) (take k R) = false) as HRf.
  { intros k. apply existsb_none, Forall_take. eapply Forall_impl; [done|]. intros fr H. cbn in *. by apply Z.leb_gt. }
  destruct (total l <=? b); cbn [negb].
  - destruct Hs as (k & -> & Hk). rewrite !length_app, length_drop.
    replace (length R + length l - (length R - k + length l))%nat with k by lia. by rewrite take_app_le.
  - rewrite length_app, take_app_ge by lia. rewrite existsb_app, (existsb_all _ (take (length R + length l - length S' - length R) l)).
    + rewrite length_take. destruct (Nat.eqb_spec (length R + length l - length S' - length R) 0); [lia|].
      destruct (Nat.eqb_spec ((length R + length l - length S' - length R) `min` length l) 0); [lia|]. apply orb_true_r.
    + apply Forall_take. eapply Forall_impl; [done|]. intros fr H. cbn in *. by apply Z.leb_le.
Qed.

(** Sealing does not disturb the frames. *)
Lemma evict_seal b d ps : ∀ ms r,
  evict_loop b ps ms (seal_view_window d r) = let '(r', o) := evict_loop b ps ms r in (seal_view_window d r', o).
Proof.
  induction ps as [|p ps IH]; intros ms r; [done|]. cbn [evict_loop]. cbn [re_bytes set_evidence seal_view_window]. destruct (negb _); [done|].
  destruct ms as [|ts [|t ms]]; [done..|]. cbn [re_open re_start_ns re_evicted_in_window re_evictions set_evidence seal_view_window].
  by rewrite <- IH.
Qed.

Lemma appends_seal b x d l : ∀ r, appends b x l (seal_view_window d r) = seal_view_window d (appends b x l r).
Proof.
  induction l as [|[[ts t] p] l IH]; intros r; [done|]. unfold appends in *. cbn [foldl retention_step]. unfold _append_evidence. cbn zeta.
  change (re_evidence (seal_view_window d r)) with (re_evidence r). set (r1 := set_evidence _ _ _ _ r).
  change (set_evidence _ _ _ _ (seal_view_window d r)) with (seal_view_window d r1). rewrite evict_seal.
  destruct (evict_loop _ _ _ r1) as [r' o]. cbn [fst]. apply IH.
Qed.

(** Once final, the evidence stays. *)
Lemma view_cached b x ev l now r : re_cached r = Some ev → retention_ok b r → 0 ≤ b → snd (view_window b x now (appends b x l r)) = Ok (Some ev).
Proof.
  intros Hc Hr Hb. destruct (appends_spec b x r Hb Hr l) as ((_ & _ & _ & _ & E & _) & _). unfold view_window. by rewrite E, Hc.
Qed.

(** The window's part of what is retained. *)
Lemma inside_retained b R l start d x : 0 ≤ b → Forall (λ fr, frame_ts fr < start) R → Forall (λ fr, start ≤ frame_ts fr) l →
  let s := mkSnapshot (suffix_within b (R ++ l)) (Some start) (Some d) (negb (total l <=? b)) (Some x) in
  let kept := filter (λ fr, in_window s (frame_ts fr) = true) (ws_frames s) in
  let inside := filter (λ fr, frame_ts fr ≤ d) l in
  (∀ fr, fr ∈ kept → fr ∈ inside) ∧ (ws_incomplete s = false → kept = inside).
Proof.
  intros Hb HR Hl s kept inside. rewrite Forall_forall in HR, Hl.
  assert (∀ fr, in_window s (frame_ts fr) = true ↔ start ≤ frame_ts fr ∧ frame_ts fr ≤ d) as Hw.
  { intros fr. unfold in_window. cbn. by rewrite andb_true_iff, !Z.leb_le. }
  split.
  - intros fr [[H1 H2]%Hw Hf]%list_elem_of_filter. apply list_elem_of_filter. split; [done|].
    cbn in Hf. destruct (suffix_within_suffix b (R ++ l)) as [k Hk]. rewrite Hk in Hf.
    assert (fr ∈ R ++ l) as [Hi|Hi]%elem_of_app by (rewrite <- (take_drop k (R ++ l)); apply elem_of_app; by right); [|done].
    specialize (HR fr Hi). lia.
  - intros Hc. cbn in Hc. pose proof (suffix_keeps b R l Hb) as Hs. destruct (total l <=? b); [|done]. destruct Hs as (k & Hk & _).
    unfold kept. cbn [ws_frames s]. rewrite Hk, filter_app.
    assert (filter (λ fr, in_window s (frame_ts fr) = true) (drop k R) = []) as ->.
    { apply filter_none, Forall_drop, Forall_forall. intros fr Hf [H1 _]%Hw. specialize (HR fr Hf). lia. }
    cbn [app]. unfold inside. clearbody s. clear -Hl Hw. induction l as [|fr l IH]; [done|]. rewrite !filter_cons, IH by (intros; apply Hl; by right).
    specialize (Hl fr ltac:(left)). pose proof (Hw fr). destruct (decide (in_window s (frame_ts fr) = true)), (decide (frame_ts fr ≤ d)); tauto.
Qed.

(** C16: A window that was begun, sealed and read after its deadline reports
    itself incomplete exactly when the frames received since its start exceed
    the budget; otherwise it lists the times of exactly the frames from the
    start to the deadline, in order. Its ids are ids of those frames, and all
    of them as long as no frame's ids can pass the cap. What was read stays
    the answer whatever arrives later. *)
Theorem view_window_exact budget x r0 l1 l2 start d now :
  0 < budget → retention_ok budget r0 → Forall (λ fr, frame_ts fr < start) (frames_iter (re_evidence r0)) →
  Forall (λ fr, start ≤ frame_ts fr) (l1 ++ l2) → d ≤ now →
  let apps := appends budget (Some x) in
  let r := apps l2 (seal_view_window d (apps l1 (begin_view_window start r0))) in
  let inside := filter (λ fr, frame_ts fr ≤ d) (l1 ++ l2) in
  let r' := fst (view_window budget (Some x) now r) in
  ∃ ev, snd (view_window budget (Some x) now r) = Ok (Some ev) ∧
    we_incomplete ev = negb (total (l1 ++ l2) <=? budget) ∧
    we_distinct_ids ev ⊆ ids_of x inside ∧
    (we_incomplete ev = false → we_frame_ts_ns ev = frame_ts <$> inside ∧
      (Forall (λ fr, Z.of_nat (size (ids_of x inside)) + zlen (frame_ids x fr) ≤ VIEW_WINDOW_ID_CAP) inside →
       we_distinct_ids ev = ids_of x inside)) ∧
    ∀ l3 now', snd (view_window budget (Some x) now' (apps l3 r')) = Ok (Some ev).
Proof.
  intros Hb Hr0 Hold Hnew Hd apps r inside r'. set (R := frames_iter (re_evidence r0)) in *. set (l := l1 ++ l2) in *.
  destruct (appends_spec budget (Some x) (begin_view_window start r0) ltac:(lia) ltac:(by destruct Hr0) l) as ((_ & E1 & E2 & _ & E3 & E4) & Hh & Hby & Hf).
  fold apps in E1, E2, E3, E4, Hh, Hby, Hf. change (frames_iter (re_evidence (begin_view_window start r0))) with R in Hh, Hby, Hf. set (r1 := apps l (begin_view_window start r0)) in *.
  assert (r = seal_view_window d r1) as Hr.
  { unfold r, apps. rewrite appends_seal. unfold r1, apps, l, appends. by rewrite foldl_app. }
  unfold dropped_inside in Hf. cbn [re_evicted_in_window re_open re_start_ns begin_view_window andb orb] in Hf.
  rewrite dropped_exact in Hf by (done || lia). clearbody r. subst r.
  pose (s := mkSnapshot (suffix_within budget (R ++ l)) (Some start) (Some d) (negb (total l <=? budget)) (Some x)).
  assert (snapshot_view_window budget (Some x) (seal_view_window d r1) = Some s) as Hs.
  { unfold snapshot_view_window. cbn [re_open re_evidence re_start_ns re_deadline_ns re_evicted_in_window seal_view_window].
    rewrite E1, E2, Hf, (iter_holds _ _ Hh), (proj2 (Z.eqb_neq budget 0)), orb_false_r by lia. done. }
  destruct (evaluate_spec s x eq_refl) as (ev & He & Hi & Hts & _ & Hsub & Hex).
  destruct (inside_retained budget R l start d x ltac:(lia) Hold Hnew) as [Hk1 Hk2]. fold s in Hk1, Hk2.
  set (kept := filter _ (ws_frames s)) in *. fold inside in Hk1, Hk2.
  assert (view_window budget (Some x) now (seal_view_window d r1) =
    (_cache_window_evidence (re_generation (seal_view_window d r1)) true ev (seal_view_window d r1), Ok (Some ev))) as Hv.
  { unfold view_window. cbn [re_cached seal_view_window]. fold (seal_view_window d r1). rewrite Hs, He. unfold final_capture. cbn [ws_deadline_ns s].
    by rewrite (proj2 (Z.leb_le d now) Hd). }
  unfold r'. rewrite Hv. cbn [fst snd]. exists ev. split; [done|]. split; [by rewrite Hi|]. split; [|split].
  - etrans; [apply Hsub|]. intros z (fr & Hfr & Hz)%ids_of_elem. apply ids_of_elem. eauto.
  - rewrite Hi. intros Hc. rewrite <- (Hk2 Hc). done.
  - intros l3 now'. apply view_cached; [|split|lia]; unfold _cache_window_evidence; rewrite Z.eqb_refl; cbn; try done.
    + by rewrite (iter_holds _ _ Hh).
    + by rewrite (iter_holds _ _ Hh).
    + rewrite Hby. apply suffix_within_total. lia.
Qed.

(** ** Any sequence of operations *)

Lemma retention_step_ok b x o r : 0 ≤ b → retention_ok b r → retention_ok b (retention_step b x o r).
Proof.
  intros Hb Hr. pose proof Hr as [Hh Hby Hbu]. destruct o as [now|d| |now|fr|]; cbn [retention_step]; try (by split).
  - unfold retire_view_window. destruct (re_retired r); [done|by split].
  - unfold view_window. destruct (re_cached r); [done|]. destruct (snapshot_view_window _ _ _) as [s|]; [|done].
    destruct (evaluate s); [|done]. cbn [fst]. unfold _cache_window_evidence. by destruct (_ && _).
  - change (retention_ok b (retention_step b x (Append fr) r)). destruct (appends_spec b x r Hb Hr [fr]) as (_ & H1 & H2 & _). cbn [appends foldl] in H1, H2.
    split; rewrite ?(iter_holds _ _ H1); [done|done|]. rewrite H2. by apply suffix_within_total.
  - unfold arm_evidence. destruct (negb _); [by split|done].
Qed.

Lemma retention_run_ok b x ops : 0 ≤ b → retention_ok b (foldl (λ r o, retention_step b x o r) fresh_retention ops).
Proof.
  intros Hb. assert (retention_ok b fresh_retention) as Hr by by split. revert Hr. generalize fresh_retention.
  induction ops as [|o ops IH]; intros r Hr; [done|]. by apply IH, retention_step_ok.
Qed.

Lemma append_runs b ts t p r : 0 ≤ b → retention_ok b r →
  let '(r', o) := _append_evidence b ts t p r in retention_ok b r' ∧ o = Ok tt.
Proof.
  intros Hb Hr. pose proof (retention_step_ok b None (Append (ts, t, p)) r Hb Hr) as Hk. cbn [retention_step] in Hk.
  assert (snd (_append_evidence b ts t p r) = Ok tt) as Ho; [|by destruct (_append_evidence b ts t p r)].
  destruct Hr as [Hh Hby _]. unfold _append_evidence. destruct (holds_append _ _ ts t p Hh) as [Hm Hp]. rewrite Hm, Hp. cbn zeta.
  set (l := frames_iter _ ++ _). set (r1 := set_evidence _ _ _ _ r).
  pose proof (evict_spec b l r1 ltac:(unfold l; rewrite total_app; cbn [total snd re_bytes set_evidence r1]; lia)) as He.
  destruct (evict_loop b _ _ r1). apply He.
Qed.
