(* ===== verification/AgentInbound.v ===== *)
(** * The headless client's connection ([python/kith/_agent/ahc.py])

    Construction, the inbound byte stream with its direct path, pushes to
    subscribers, the engine's timers and the life of a connection.  The event
    loop runs one callback at a time; writes to peers succeed; the bootstrap
    callbacks answer without calling the client.  The clock is a sequence of
    readings. *)

From S2P Require Import Prelude Outcome PyStruct PyText PyFloat PyJson PyWire PyArith Correlator Proto ClientRing ClientCore AgentControl AgentEngine Evidence.

#[local] Open Scope Z_scope.

(** ** State *)

(** What the client is constructed with; [wi_clock] answers the [n]th reading
    of [time.monotonic_ns()]. *)
Record wiring := mkWiring {
  wi_setup : setup;
  wi_direct_type_ids : gset Z;
  wi_direct_wire_limit : Z;
  wi_pong_type_id : Z;
  wi_summary_mode : bool;
  wi_evidence_budget_bytes : Z;
  wi_window_id_extractor : id_extractor;
  wi_event_history_size : nat;
  wi_pong_timeout_ms : Z;
  wi_clock : nat → Z;
}.

(** What each of the servers' peers was sent. *)
Record agent := mkAgent {
  ag_client : client;
  ag_inbuf : bytes;
  ag_direct_ready : bool;
  ag_retention : retention;
  ag_summary_slot : option ClientEvent;
  ag_summary_last_keep_ns : option Z;
  ag_last_frame_ts_ns : option Z;
  ag_replication_count : Z;
  ag_event_history : list ClientEvent;
  ag_pending_push : list ClientEvent;
  ag_sse_writers : list (list bytes);
  ag_ipc_peers : list (list bytes);
  ag_readings : nat;
}.

Definition with_client (c : client) (a : agent) : agent :=
  mkAgent c (ag_inbuf a) (ag_direct_ready a) (ag_retention a) (ag_summary_slot a) (ag_summary_last_keep_ns a) (ag_last_frame_ts_ns a)
    (ag_replication_count a) (ag_event_history a) (ag_pending_push a) (ag_sse_writers a) (ag_ipc_peers a) (ag_readings a).
Definition with_inbuf (b : bytes) (a : agent) : agent :=
  mkAgent (ag_client a) b (ag_direct_ready a) (ag_retention a) (ag_summary_slot a) (ag_summary_last_keep_ns a) (ag_last_frame_ts_ns a)
    (ag_replication_count a) (ag_event_history a) (ag_pending_push a) (ag_sse_writers a) (ag_ipc_peers a) (ag_readings a).
Definition with_direct_ready (b : bool) (a : agent) : agent :=
  mkAgent (ag_client a) (ag_inbuf a) b (ag_retention a) (ag_summary_slot a) (ag_summary_last_keep_ns a) (ag_last_frame_ts_ns a)
    (ag_replication_count a) (ag_event_history a) (ag_pending_push a) (ag_sse_writers a) (ag_ipc_peers a) (ag_readings a).
Definition with_retention (r : retention) (a : agent) : agent :=
  mkAgent (ag_client a) (ag_inbuf a) (ag_direct_ready a) r (ag_summary_slot a) (ag_summary_last_keep_ns a) (ag_last_frame_ts_ns a)
    (ag_replication_count a) (ag_event_history a) (ag_pending_push a) (ag_sse_writers a) (ag_ipc_peers a) (ag_readings a).
Definition with_summary (slot : option ClientEvent) (keep : option Z) (a : agent) : agent :=
  mkAgent (ag_client a) (ag_inbuf a) (ag_direct_ready a) (ag_retention a) slot keep (ag_last_frame_ts_ns a)
    (ag_replication_count a) (ag_event_history a) (ag_pending_push a) (ag_sse_writers a) (ag_ipc_peers a) (ag_readings a).
Definition with_last_frame (ts : option Z) (a : agent) : agent :=
  mkAgent (ag_client a) (ag_inbuf a) (ag_direct_ready a) (ag_retention a) (ag_summary_slot a) (ag_summary_last_keep_ns a) ts
    (ag_replication_count a) (ag_event_history a) (ag_pending_push a) (ag_sse_writers a) (ag_ipc_peers a) (ag_readings a).
Definition with_count (n : Z) (a : agent) : agent :=
  mkAgent (ag_client a) (ag_inbuf a) (ag_direct_ready a) (ag_retention a) (ag_summary_slot a) (ag_summary_last_keep_ns a) (ag_last_frame_ts_ns a)
    n (ag_event_history a) (ag_pending_push a) (ag_sse_writers a) (ag_ipc_peers a) (ag_readings a).
Definition with_log (history pending : list ClientEvent) (a : agent) : agent :=
  mkAgent (ag_client a) (ag_inbuf a) (ag_direct_ready a) (ag_retention a) (ag_summary_slot a) (ag_summary_last_keep_ns a) (ag_last_frame_ts_ns a)
    (ag_replication_count a) history pending (ag_sse_writers a) (ag_ipc_peers a) (ag_readings a).
Definition with_peers (sse ipc : list (list bytes)) (a : agent) : agent :=
  mkAgent (ag_client a) (ag_inbuf a) (ag_direct_ready a) (ag_retention a) (ag_summary_slot a) (ag_summary_last_keep_ns a) (ag_last_frame_ts_ns a)
    (ag_replication_count a) (ag_event_history a) (ag_pending_push a) sse ipc (ag_readings a).
Definition with_readings (n : nat) (a : agent) : agent :=
  mkAgent (ag_client a) (ag_inbuf a) (ag_direct_ready a) (ag_retention a) (ag_summary_slot a) (ag_summary_last_keep_ns a) (ag_last_frame_ts_ns a)
    (ag_replication_count a) (ag_event_history a) (ag_pending_push a) (ag_sse_writers a) (ag_ipc_peers a) n.

Definition with_engine (e : native) (a : agent) : agent := with_client (set_engine (e : @engine kith_engine) (ag_client a)) a.

Definition _HEADER : fmt := [FB; FB; FB; FB; FH; FI].
Definition HEADER_SIZE : nat := size_of _HEADER.
Definition _CORR_TRAILER_SIZE : Z := 8.
Definition _SUMMARY_MIN_INTERVAL_NS : Z := 1000000000.
Definition _BOOTSTRAP_READY : Z := 2.

(** ** Bootstrap steps ([python/kith/_agent/_types.py], [_native.py]) *)

(** [on_enter] answers the frame to send or [None]; [on_reply] the next step. *)
Record BootstrapStep := mkBootstrapStep {
  bs_await_type_id : Z;
  bs_on_enter : option (option (Z * bytes));
  bs_on_reply : option (frame → Z);
}.

(** What the C callback stores: nothing but the length for [None], and at most
    the capacity of the engine's buffer. *)
Definition make_enter (result : option (Z * bytes)) : Z * Z * bytes :=
  match result with
  | None => (0, 0, [])
  | Some (type_id, payload) => (0, Z.land type_id 0xFFFF, take (Z.to_nat CLIENT_STEP_PAYLOAD_CAP) payload)
  end.

Definition make_reply (on_reply : frame → Z) (view : frame) : Z * Z := (0, Z.land (on_reply view) 0xFFFFFFFF).

Definition c_step (step : BootstrapStep) : bootstrap_step :=
  mkStep (bs_await_type_id step mod 2 ^ 16) (make_enter <$> bs_on_enter step) (make_reply <$> bs_on_reply step).

Definition _configure_bootstrap (steps : list BootstrapStep) : M agent unit :=
  a ← get;
  let '(p, k) := cl_engine (ag_client a) in
  let '(k, rc) := kith_client_configure_bootstrap (c_step <$> steps) k in
  modify (with_engine (p, k));;
  lift (check rc [Lit "kith_client_configure_bootstrap"]);;
  mret tt.

(** ** Construction *)

Record options := mkOptions {
  op_instance_id : pystr;
  op_max_payload : Z;
  op_outbound_cap : Z;
  op_outbound_buffer_initial_bytes : Z;
  op_event_cap : Z;
  op_ping_type_id : Z;
  op_pong_type_id : Z;
  op_ping_interval_ms : Z;
  op_pong_timeout_ms : Z;
  op_reconnect_base_ms : Z;
  op_reconnect_max_ms : Z;
  op_reconnect_max_attempts : Z;
  op_message_types : list (pystr * Z);
  op_bootstrap_steps : list BootstrapStep;
  op_event_history_size : nat;
  op_auto_connect : bool;
  op_direct_type_ids : gset Z;
  op_summary_mode : bool;
  op_evidence_budget_bytes : Z;
  op_window_id_extractor : id_extractor;
}.

Definition _PROTO_DEFAULT_MAX_PAYLOAD : Z := Z.shiftl 1 20.
Definition _CLIENT_DEFAULT_PING_INTERVAL_MS : Z := 1000.

Definition u16 (z : Z) : Z := z mod 2 ^ 16.

(** The fields of a [ctypes] structure hold what fits. *)
Definition client_params_of (o : options) (ping_interval_ms : Z) : client_params :=
  mkParams (u32 (op_outbound_cap o)) (u32 (op_event_cap o)) (u16 (op_ping_type_id o)) (u16 (op_pong_type_id o)) (u32 ping_interval_ms)
    (u32 (op_reconnect_base_ms o)) (u32 (op_reconnect_max_ms o)) (u32 (op_reconnect_max_attempts o)).

(** [__init__]: the event loop's write buffer, [str] and the clock are the
    environment's. *)
Definition agent_init (o : options) (buffer_size : list bytes → Z) (py_str : jval → pystr) (clock : nat → Z) : result (wiring * agent) :=
  raise_if (negb ((0 <=? op_max_payload o) && (op_max_payload o <=? UINT32_MAX))) (ValueError [Lit "max_payload must fit uint32_t"]);;
  raise_if (negb ((0 <? op_outbound_buffer_initial_bytes o) && (op_outbound_buffer_initial_bytes o <=? UINT32_MAX)))
    (ValueError [Lit "outbound_buffer_initial_bytes must be a positive uint32_t"]);;
  let wire_limit := if negb (op_max_payload o =? 0) then op_max_payload o else _PROTO_DEFAULT_MAX_PAYLOAD in
  let out_limit := Z.min (KITH_PROTO_HDR_SIZE + wire_limit) UINT32_MAX in
  let ping_interval := or_default (u32 (op_ping_interval_ms o)) _CLIENT_DEFAULT_PING_INTERVAL_MS in
  k ← match kith_client_create (client_params_of o ping_interval) with
      | inl rc => Err (KithClientError (- rc) [Lit "kith_client_create"])
      | inr k => Ok k
      end;
  let effective_interval := if negb (u16 (op_ping_type_id o) =? 0) then ping_interval else 0 in
  let su := mkSetup (op_instance_id o) out_limit (op_summary_mode o) None [] buffer_size py_str in
  let w := mkWiring su (op_direct_type_ids o) wire_limit (u16 (op_pong_type_id o)) (op_summary_mode o) (op_evidence_budget_bytes o)
             (op_window_id_extractor o) (op_event_history_size o) (or_default (op_pong_timeout_ms o) (3 * effective_interval)) clock in
  let c := mkClient false (op_auto_connect o) false false false ∅ ∅ None false (Z.min (op_outbound_buffer_initial_bytes o) out_limit)
             ((kith_proto_create (op_max_payload o), k) : @engine kith_engine) in
  match for_each (op_message_types o) (λ '(name, type_id), register_type name type_id) c with
  | (_, Err e) => Err e
  | (c, Ok _) =>
      let a := mkAgent c [] false fresh_retention None None None 0 [] [] [] [] 0 in
      match (if bool_decide (length (op_bootstrap_steps o) = 0%nat) then mret tt else _configure_bootstrap (op_bootstrap_steps o)) a with
      | (_, Err e) => Err e
      | (a, Ok _) => Ok (w, a)
      end
  end.

(** [start]'s flag; the servers are the event loop's. *)
Definition agent_start (a : agent) : agent := with_client (set_running true (ag_client a)) a.

Section Agent.
Context (w : wiring).

Definition on_client {A} (m : M client A) : M agent A := λ a, let '(c, r) := m (ag_client a) in (with_client c a, r).

Definition monotonic_ns : M agent Z := λ a, (with_readings (S (ag_readings a)) a, Ok (wi_clock w (ag_readings a))).
Definition _now_ms : M agent Z := t ← monotonic_ns; mret (t / 1000000).

(** [deque(maxlen=size).append] *)
Definition remember (event : ClientEvent) (a : agent) : agent :=
  with_log (lastn (wi_event_history_size w) (ag_event_history a ++ [event])) (ag_pending_push a ++ [event]) a.

(** ** Inbound *)

Definition _poll_direct_ready : M agent unit :=
  a ← get;
  let '(rc, (state, _, _)) := ClientCore.kith_client_bootstrap_status (snd (cl_engine (ag_client a))) in
  if (0 <=? rc) && (state =? _BOOTSTRAP_READY) then modify (with_direct_ready true) else mret tt.

(** Type, correlation id, end of the payload and end of the frame at [pos]. *)
Definition _match_direct_frame (a : agent) (buf : bytes) (pos : nat) : result (option (Z * Z * nat * nat)) :=
  if negb (ag_direct_ready a) || bool_decide (wi_direct_type_ids w = ∅) then Ok None else
  if (length buf <? pos + HEADER_SIZE)%nat then Ok None else
  '(m0, (m1, (version, (flags, (type_id, (wire_len, _)))))) ← unpack_from _HEADER buf pos;
  if negb (m0 =? 0x4B) || negb (m1 =? 0x54) || negb (version =? 1) then Ok None else
  if bool_decide (type_id ∉ wi_direct_type_ids w) || bool_decide (type_id ∉ cl_registered_type_ids (ag_client a)) then Ok None else
  if negb (wi_pong_type_id w =? 0) && (type_id =? wi_pong_type_id w) then Ok None else
  if wi_direct_wire_limit w <? wire_len then Ok None else
  let fin := (pos + HEADER_SIZE + Z.to_nat wire_len)%nat in
  if (length buf <? fin)%nat then Ok None else
  let trailer := if negb (Z.land flags KITH_PROTO_FLAG_CORRELATION =? 0) then _CORR_TRAILER_SIZE else 0 in
  if wire_len <? trailer then Ok None else
  let payload_end := (fin - Z.to_nat trailer)%nat in
  let correlation_id := if negb (trailer =? 0) then of_be (slice payload_end fin buf) else 0 in
  Ok (Some (type_id, correlation_id, payload_end, fin)).

(** Everything a matched frame at [pos] changes but the position. *)
Definition dispatch_direct (buf : bytes) (pos : nat) (type_id correlation_id : Z) (payload_end : nat) : M agent unit :=
  event_ts ← monotonic_ns;
  modify (with_last_frame (Some event_ts));;
  a ← get;
  let payload_start := (pos + HEADER_SIZE)%nat in
  let payload_len := (payload_end - payload_start)%nat in
  let retain_evidence := negb (wi_evidence_budget_bytes w =? 0) && negb (payload_len =? 0)%nat && negb (re_retired (ag_retention a)) in
  let keep := negb (wi_summary_mode w) ||
    match ag_summary_last_keep_ns a with None => true | Some last => _SUMMARY_MIN_INTERVAL_NS <=? event_ts - last end in
  (if retain_evidence || keep then
     let payload := slice payload_start payload_end buf in
     (if retain_evidence then λ a, let '(r, o) := _append_evidence (wi_evidence_budget_bytes w) event_ts type_id payload (ag_retention a) in
                                   (with_retention r a, o)
      else mret tt);;
     (if keep then
        let event := mkClientEvent event_ts type_id correlation_id payload in
        if wi_summary_mode w then modify (with_summary (Some event) (Some event_ts)) else modify (remember event)
      else mret tt)
   else mret tt);;
  modify (λ a, with_count (ag_replication_count a + 1) a).

Definition _on_frame_c (f : frame) : M agent unit :=
  ts ← monotonic_ns;
  let event := mkClientEvent ts (fm_type_id f) (if fm_has_correlation f then fm_correlation_id f else 0) (fm_payload f) in
  modify (with_last_frame (Some ts));;
  modify (remember event).

(** The engine's part of a frame: [kith_client_feed_frame] with its callback. *)
Definition feed_engine (f : frame) : M agent unit :=
  modify (λ a, with_client (set_outbound_empty false (ag_client a)) a);;
  now ← _now_ms;
  a ← get;
  let '(p, k) := cl_engine (ag_client a) in
  let '(k, (rc, handled)) := kith_client_feed_frame p f now k in
  modify (with_engine (p, k));;
  match handled with Some f => _on_frame_c f | None => mret tt end;;
  modify (λ a, with_client (set_outbound_empty false (ag_client a)) a);;
  lift (check rc [Lit "feed_frame"]);;
  mret tt.

(** One turn of the loop: the next position, or [None] at an incomplete
    frame. *)
Definition consume_one (buf : bytes) (pos : nat) : M agent (option nat) :=
  a ← get;
  matched ← lift (_match_direct_frame a buf pos);
  match matched with
  | Some (type_id, correlation_id, payload_end, fin) =>
      dispatch_direct buf pos type_id correlation_id payload_end;;
      mret (Some fin)
  | None =>
      let '(p, k) := cl_engine (ag_client a) in
      let '(p, decoded) := kith_proto_decode p (drop pos buf) in
      modify (with_engine (p, k));;
      match decoded with
      | inl rc => if rc =? - KITH_EAGAIN then mret None else lift (check rc [Lit "proto_decode"]);; mret None
      | inr (f, consumed) =>
          feed_engine f;;
          mret (Some (pos + Z.to_nat consumed)%nat)
      end
  end.

(** The loop, with the position it ends at. *)
Fixpoint consume_loop (fuel : nat) (buf : bytes) (pos : nat) (a : agent) : agent * nat * result unit :=
  match fuel with
  | O => (a, pos, Err OutOfFuel)
  | S fuel =>
      if negb (cl_running (ag_client a) && (pos <? length buf)%nat) then (a, pos, Ok tt) else
      match consume_one buf pos a with
      | (a, Ok (Some next)) => consume_loop fuel buf next a
      | (a, Ok None) => (a, pos, Ok tt)
      | (a, Err e) => (a, pos, Err e)
      end
  end.

(** ** Pushes *)

Definition _matches_subscription (c : client) (type_id : Z) : bool :=
  cl_subscribe_all c || bool_decide (type_id ∈ cl_subscriptions c).

(** [json.dumps(_event_to_dict(event), separators=(",", ":"))] *)
Definition event_line (event : ClientEvent) : result pystr :=
  ts ← int_repr (ce_ts_mono_ns event);
  type_id ← int_repr (ce_type_id event);
  correlation_id ← int_repr (ce_correlation_id event);
  Ok (str "{" ++ quote (str "ts_mono_ns") ++ str ":" ++ ts ++ str "," ++ quote (str "type_id") ++ str ":" ++ type_id ++ str "," ++
      quote (str "correlation_id") ++ str ":" ++ correlation_id ++ str "," ++
      quote (str "payload_hex") ++ str ":" ++ quote (hex (ce_payload event)) ++ str "}").

(** The text ends in a brace, so [rstrip] takes off just the line's end. *)
Definition push_event (event : ClientEvent) : M agent unit :=
  a ← get;
  if negb (_matches_subscription (ag_client a) (ce_type_id event)) then mret tt else
  line ← lift (event_line event);
  data ← lift (encode_utf8 line);
  modify (λ a, with_peers ((λ out, out ++ [default [] (utf8_encode (str "data: ")) ++ data ++ [x0a; x0a]]) <$> ag_sse_writers a)
                 ((λ out, out ++ [data ++ [x0a]]) <$> ag_ipc_peers a) a).

Definition _flush_pushes : M agent unit :=
  a ← get;
  let events := ag_pending_push a in
  modify (with_log (ag_event_history a) []);;
  for_each events push_event.

(** The loop's bound: a turn that goes on takes a byte. *)
Definition consume_all : M agent unit := λ a,
  let '(a, pos, r) := consume_loop (S (length (ag_inbuf a))) (ag_inbuf a) 0 a in
  match _flush_pushes (with_inbuf (drop pos (ag_inbuf a)) a) with
  | (a, Ok _) => (a, r)
  | (a, Err e) => (a, Err e)
  end.

Definition _consume_inbound : M agent unit :=
  a ← get;
  (if negb (bool_decide (wi_direct_type_ids w = ∅)) && negb (ag_direct_ready a) then _poll_direct_ready else mret tt);;
  consume_all.

Definition _on_socket_data (data : bytes) : M agent unit :=
  modify (λ a, with_inbuf (ag_inbuf a ++ data) a);;
  _consume_inbound;;
  a ← get;
  if negb (cl_outbound_empty (ag_client a)) then on_client (_request_flush (wi_setup w)) else mret tt.

(** ** The movement window *)

Definition agent_begin_view_window : M agent unit :=
  now ← monotonic_ns;
  modify (λ a, with_retention (begin_view_window now (ag_retention a)) a).

Definition view_at (captured_ns : Z) : M agent (option WindowEvidence) := λ a,
  let '(r, o) := view_window (wi_evidence_budget_bytes w) (wi_window_id_extractor w) captured_ns (ag_retention a) in
  (with_retention r a, o).

(** The clock is not read for cached evidence. *)
Definition agent_view_window : M agent (option WindowEvidence) :=
  a ← get;
  match re_cached (ag_retention a) with
  | Some e => mret (Some e)
  | None => captured_ns ← monotonic_ns; view_at captured_ns
  end.

(** ** Timers *)

Definition close_transport (c : client) : client :=
  set_transport ((λ t, mkTransport (tr_written t) true) <$> cl_transport c) c.

Definition _check_pong_staleness : M agent unit :=
  if wi_pong_timeout_ms w <=? 0 then mret tt else
  a ← get;
  let '(rc, rs) := ClientCore.kith_client_runtime_status (snd (cl_engine (ag_client a))) in
  if rc <? 0 then mret tt else
  if negb (rs_awaiting_pong rs) || (rs_last_ping_sent_ms rs =? 0) then mret tt else
  now ← _now_ms;
  let elapsed := now - rs_last_ping_sent_ms rs in
  if elapsed <=? wi_pong_timeout_ms w then mret tt else modify (λ a, with_client (close_transport (ag_client a)) a).

(** The code of a failed tick is logged. *)
Definition tick_engine : M agent unit :=
  a ← get;
  if negb (cl_running (ag_client a)) then mret tt else
  modify (λ a, with_client (set_outbound_empty false (ag_client a)) a);;
  now ← _now_ms;
  a ← get;
  let '(p, k) := cl_engine (ag_client a) in
  let '(k, _) := kith_client_tick p now k in
  modify (with_engine (p, k));;
  _check_pong_staleness;;
  on_client (_request_flush (wi_setup w)).

Definition _on_write_resumed : M agent unit := on_client (_request_flush (wi_setup w)).

(** [KithClientError] is logged. *)
Definition contained (m : M agent unit) : M agent unit := λ a,
  match m a with (a, Err (KithClientError _ _)) => (a, Ok tt) | r => r end.

Definition probe_stalled_outbound : M agent unit :=
  a ← get;
  let c := ag_client a in
  if negb (cl_running c) || cl_draining c then mret tt else
  match cl_transport c with
  | None => mret tt
  | Some t =>
      if tr_closing t then mret tt else
      contained (
        frame ← on_client (_pop_outbound (wi_setup w));
        match frame with
        | None => mret tt
        | Some frame => on_client (transport_write frame);; on_client (_request_flush (wi_setup w))
        end)
  end.

(** ** Connections *)

Definition _arm_connection (a : agent) : agent :=
  with_retention (arm_evidence (ag_retention a)) (with_summary None None (with_direct_ready false a)).

Definition set_connected (b : bool) (c : client) : client :=
  mkClient b (cl_auto_connect c) (cl_running c) (cl_draining c) (cl_subscribe_all c) (cl_subscriptions c)
    (cl_registered_type_ids c) (cl_transport c) (cl_outbound_empty c) (cl_out_cap c) (cl_engine c).

(** [_run_connection] from a new transport to the pump. *)
Definition connection_opened : M agent unit :=
  modify (λ a, with_client (set_outbound_empty false (set_transport (Some (mkTransport [] false)) (ag_client a))) a);;
  now ← _now_ms;
  a ← get;
  let '(p, k) := cl_engine (ag_client a) in
  let '(k, rc) := kith_client_on_connected p now k in
  modify (with_engine (p, k));;
  modify (λ a, with_client (set_outbound_empty false (ag_client a)) a);;
  lift (check rc [Lit "on_connected"]);;
  modify (λ a, _arm_connection (with_client (set_connected true (ag_client a)) a));;
  on_client (_request_flush (wi_setup w)).

(** [_run_connection] after the pump. *)
Definition connection_ended : M agent unit :=
  modify (λ a, with_inbuf [] (with_client (set_transport None (set_connected false (ag_client a))) a));;
  now ← _now_ms;
  a ← get;
  let '(p, k) := cl_engine (ag_client a) in
  let '(k, _) := kith_client_on_disconnected now k in
  modify (with_engine (p, k)).

Definition connection_refused : M agent unit :=
  now ← _now_ms;
  a ← get;
  let '(p, k) := cl_engine (ag_client a) in
  let '(k, _) := kith_client_on_connect_failed now k in
  modify (with_engine (p, k)).

(** The milliseconds [_reconnect_wait] sleeps. *)
Definition _reconnect_wait : M agent Z :=
  a ← get;
  let '(rc, rs) := ClientCore.kith_client_runtime_status (snd (cl_engine (ag_client a))) in
  if rc <? 0 then mret 250 else
  now ← _now_ms;
  mret (if rs_next_reconnect_due_ms rs =? 0 then 250 else Z.max 0 (rs_next_reconnect_due_ms rs - now)).
End Agent.
