(* ===== verification/AgentInboundTheorems.v ===== *)
(** * The inbound stream of the headless client

    The direct path reads frames as the C decoder does; the callbacks of a
    connection keep the client consistent and raise nothing but engine errors;
    how the stream is cut into reads does not matter. *)

From S2P Require Import Prelude Outcome PyStruct PyText PyFloat PyJson PyWire PyArith Correlator Proto ProtoTheorems ClientRing ClientCore ClientTheorems AgentControl AgentTheorems AgentEngine Evidence EvidenceTheorems AgentInbound.

#[local] Open Scope Z_scope.

(** ** Consistency *)

Abbreviation engine_of a := (cl_engine (ag_client a) : native).

(** The client's view of its engine is right. *)
Record linked (w : wiring) (c : client) : Prop := {
  lk_buffer : buffer_ok c;
  lk_fits : fits (wi_setup w) c;
  lk_limit : wi_direct_wire_limit w = pr_max_payload (fst (cl_engine c : native));
  lk_registered : ∀ id, id ∈ cl_registered_type_ids c → registered (fst (cl_engine c : native)) id;
  lk_pong : wi_pong_type_id w = cp_pong_type_id (kc_params (snd (cl_engine c : native)));
}.

Definition event_ok (e : ClientEvent) : Prop :=
  0 ≤ ce_ts_mono_ns e < 2 ^ 64 ∧ 0 ≤ ce_type_id e < 2 ^ 16 ∧ 0 ≤ ce_correlation_id e < 2 ^ 64.

Record agent_ok (w : wiring) (a : agent) : Prop := {
  ao_linked : linked w (ag_client a);
  ao_retention : retention_ok (wi_evidence_budget_bytes w) (ag_retention a);
  ao_pending : Forall event_ok (ag_pending_push a);
}.

(** Readings of a monotonic clock of 64 bits, and a budget. *)
Record wiring_ok (w : wiring) : Prop := {
  wo_clock : ∀ n, 0 ≤ wi_clock w n < 2 ^ 64;
  wo_budget : 0 ≤ wi_evidence_budget_bytes w;
}.

(** ** The direct path *)

Section Direct.
Context (w : wiring).

(** What the header's reader sees is what the C parser sees. *)
Lemma header_agrees (b : bytes) : 10 ≤ zlen b →
  let '(m0, (m1, (v, (fl, (t, (wl, _)))))) := unpack_raw _HEADER b in
  parse_header b = if negb (m0 =? 0x4B) || negb (m1 =? 0x54) || negb (v =? 1) then inl (- KITH_EPROTO) else inr (t, fl, wl).
Proof.
  intros Hl. destruct (long_buffer b Hl) as (b0 & b1 & b2 & b3 & b4 & b5 & b6 & b7 & b8 & b9 & rest & ->).
  pose proof (read_u32_be b6 b7 b8 b9 [b0; b1; b2; b3; b4; b5] rest eq_refl) as E32.
  pose proof (read_u16_be b4 b5 [b0; b1; b2; b3] ([b6; b7; b8; b9] ++ rest) eq_refl) as E16.
  cbn [app] in *.
  change (unpack_raw _HEADER _) with ((of_be [b0], (of_be [b1], (of_be [b2], (of_be [b3], (of_be [b4; b5], (of_be [b6; b7; b8; b9], tt)))))) : svals _HEADER).
  unfold parse_header, KITH_PROTO_HDR_SIZE.
  rewrite (proj2 (Z.ltb_ge _ _) Hl), E32, E16. unfold at_byte. cbn [nth].
  assert (∀ b, of_be [b] = byte_to_Z b) as Hb by (intros b; unfold of_be; cbn [foldl]; lia). 
  rewrite !Hb.
  unfold KITH_PROTO_MAGIC0, KITH_PROTO_MAGIC1, KITH_PROTO_VERSION.
  by destruct (byte_to_Z b0 =? 75), (byte_to_Z b1 =? 84), (byte_to_Z b2 =? 1).
Qed.

Lemma match_total a buf pos : ∃ m, _match_direct_frame w a buf pos = Ok m.
Proof.
  unfold _match_direct_frame. destruct (_ || _); [by eexists|]. destruct (Nat.ltb_spec (length buf) (pos + HEADER_SIZE)); [by eexists|].
  unfold unpack_from. rewrite decide_True by done. cbn [mbind result_bind].
  destruct (unpack_raw _HEADER (drop pos buf)) as (m0 & m1 & v & fl & t & wl & u). repeat (case_match; [by eexists|]). by eexists.
Qed.

(** A matched frame is the one the decoder finds. *)
Lemma match_decodes a buf pos t corr pe fin : linked w (ag_client a) → _match_direct_frame w a buf pos = Ok (Some (t, corr, pe, fin)) →
  let p := fst (engine_of a) in
  ∃ f, kith_proto_decode p (drop pos buf) = (p, inr (f, Z.of_nat (fin - pos))) ∧ fm_type_id f = t ∧
    (if fm_has_correlation f then fm_correlation_id f else 0) = corr ∧ fm_payload f = slice (pos + 10) pe buf ∧
    (wi_pong_type_id w = 0 ∨ t ≠ wi_pong_type_id w) ∧ (pos + 10 ≤ pe ≤ fin ∧ fin ≤ length buf)%nat.
Proof.
  intros [_ _ Hlim Hreg _]. unfold _match_direct_frame. destruct (_ || _); [done|].
  change HEADER_SIZE with 10%nat. destruct (Nat.ltb_spec (length buf) (pos + 10)) as [|Hlen]; [done|].
  unfold unpack_from. rewrite decide_True by done. cbn [mbind result_bind].
  pose proof (header_agrees (drop pos buf) ltac:(unfold zlen; rewrite length_drop; lia)) as Hh.
  destruct (unpack_raw _HEADER (drop pos buf)) as (m0 & m1 & v & fl & ty & wl & u).
  destruct (negb (m0 =? 75) || negb (m1 =? 84) || negb (v =? 1)); [done|].
  destruct (bool_decide _ || bool_decide _) eqn:Hids; [done|]. apply orb_false_iff in Hids as [_ Hid%bool_decide_eq_false]. apply dec_stable in Hid.
  destruct (negb (wi_pong_type_id w =? 0) && (ty =? wi_pong_type_id w)) eqn:Hp; [done|].
  destruct (Z.ltb_spec (wi_direct_wire_limit w) wl) as [|Hwl]; [done|].
  destruct (Nat.ltb_spec (length buf) (pos + 10 + Z.to_nat wl)) as [|Hfin]; [done|].
  fold (correlated fl). destruct (Z.ltb_spec wl (if correlated fl then _CORR_TRAILER_SIZE else 0)) as [|Htr]; [done|]. intros [= <- <- <- <-].
  pose proof (parse_header_inv _ _ _ _ Hh) as (rest & _ & _ & _ & Hw0). apply Hreg, find_registered in Hid as [e He].
  unfold _CORR_TRAILER_SIZE in *. unfold kith_proto_decode. rewrite Hh, <- Hlim, (proj2 (Z.ltb_ge _ _) Hwl), He. unfold KITH_PROTO_HDR_SIZE, KITH_PROTO_CORR_TRAILER_SIZE.
  rewrite (proj2 (Z.ltb_ge (zlen (drop pos buf)) (10 + wl))) by (unfold zlen; rewrite length_drop; lia).
  assert (correlated fl && (wl <? 8) = false) as -> by (destruct (correlated fl); cbn; [apply Z.ltb_ge; lia|done]).
  eexists. split; [replace (Z.of_nat (pos + 10 + Z.to_nat wl - pos)) with (10 + wl) by lia; done|]. cbn [fm_type_id fm_has_correlation fm_correlation_id fm_payload].
  split; [done|]. split; [|split; [|split; [|destruct (correlated fl); lia]]].
  - destruct (correlated fl); [|done]. cbn [negb Z.eqb]. rewrite read_be_u64_be, drop_drop. unfold slice. do 2 f_equal; [lia|]. f_equal. lia.
  - unfold slice. rewrite drop_drop. change (Z.to_nat 10) with 10%nat. f_equal. destruct (correlated fl); lia.
  - apply andb_false_iff in Hp as [Hp%negb_false_iff%Z.eqb_eq|Hp%Z.eqb_neq]; [by left|by right].
Qed.
End Direct.

(** ** The text of an event *)

Lemma int_repr_small z : 0 ≤ z < 2 ^ 64 → ∃ s, int_repr z = Ok s ∧ Forall is_ascii s.
Proof.
  intros Hz. assert (∃ s, int_repr z = Ok s) as [s Hs].
  { unfold int_repr. destruct (int_limit (digits (Z.abs z))) as [u|e] eqn:E; [by eexists|]. exfalso.
    assert (int_limit (digits (Z.abs z)) = Ok tt) as E'; [|congruence]. apply int_limit_Ok. unfold digits.
    etrans; [apply (length_digits_fuel _ _ 20); [lia|]|]; [change (10 ^ Z.of_nat 20) with (10 ^ 20); lia|]. unfold INT_MAX_STR_DIGITS. lia. }
  exists s. split; [done|]. by apply int_scans in Hs as (_ & ? & _).
Qed.

Lemma ascii_text_ok s : Forall is_ascii s → text_ok s = true.
Proof.
  induction 1 as [|c s Hc Hs IH]; [done|]. cbn [text_ok]. unfold is_ascii in *. rewrite IH, andb_true_r.
  assert (is_high c = false) as -> by (unfold is_high; lia). cbn. lia.
Qed.

Lemma hex_ascii bs : Forall is_ascii (hex bs).
Proof.
  unfold hex. induction bs as [|b bs IH]; [done|]. cbn [mbind list_bind]. apply Forall_app. split; [|done].
  pose proof (byte_to_Z_range b) as Hb. unfold byte_to_Z in Hb. set (z := Z.of_N (Byte.to_N b)) in *.
  apply Forall_cons_2; [|apply Forall_cons_2; [|constructor]]; apply hex_digit_ascii; [|apply Z.mod_pos_bound; lia].
  split; [apply Z.div_pos; lia|apply Z.div_lt_upper_bound; lia].
Qed.

Lemma str_ascii_quote s : Forall is_ascii s → Forall is_ascii (quote s).
Proof. intros Hs. by apply quote_ascii, ascii_text_ok. Qed.

#[local] Instance ascii_dec c : Decision (is_ascii c) := decide (0 ≤ c < 128).

Lemma event_line_ok e : event_ok e → ∃ s, event_line e = Ok s ∧ Forall is_ascii s.
Proof.
  intros ([? ?] & [? ?] & [? ?]). unfold event_line.
  destruct (int_repr_small (ce_ts_mono_ns e)) as (s1 & -> & A1); [lia|].
  destruct (int_repr_small (ce_type_id e)) as (s2 & -> & A2); [lia|].
  destruct (int_repr_small (ce_correlation_id e)) as (s3 & -> & A3); [lia|]. cbn [mbind result_bind]. eexists. split; [done|].
  pose proof (str_ascii_quote _ (hex_ascii (ce_payload e))) as A4.
  repeat (apply Forall_app; split); try done; by apply (bool_decide_unpack _).
Qed.

(** ** Calls *)

Inductive agent_op :=
  | Opened
  | Ended
  | Refused
  | Received (data : bytes)
  | Ticked
  | WriteResumed
  | Probed
  | Submitted (type_id : Z) (payload : bytes) (flags correlation_id : Z)
  | Registered (name : pystr) (type_id : Z)
  | WindowBegun
  | WindowSealed (deadline_ns : Z)
  | WindowRetired
  | WindowViewed.

Definition agent_step (w : wiring) (o : agent_op) : M agent unit :=
  match o with
  | Opened => connection_opened w
  | Ended => connection_ended w
  | Refused => connection_refused w
  | Received data => _on_socket_data w data
  | Ticked => tick_engine w
  | WriteResumed => _on_write_resumed w
  | Probed => probe_stalled_outbound w
  | Submitted t p fl k => on_client (_submit_on_loop (wi_setup w) t p fl k);; mret tt
  | Registered name t => on_client (register_type name t)
  | WindowBegun => agent_begin_view_window w
  | WindowSealed d => modify (λ a, with_retention (seal_view_window d (ag_retention a)) a)
  | WindowRetired => modify (λ a, with_retention (retire_view_window (ag_retention a)) a)
  | WindowViewed => agent_view_window w;; mret tt
  end.

(** A name is text. *)
Definition op_ok (o : agent_op) : Prop := match o with Registered name _ => ∃ bs, encode_utf8 name = Ok bs | _ => True end.

(** The callbacks one after the other; the event loop reports what they raise. *)
Fixpoint agent_run (w : wiring) (ops : list agent_op) (a : agent) : agent * list (result unit) :=
  match ops with
  | [] => (a, [])
  | o :: ops => let '(a, r) := agent_step w o a in let '(a, rs) := agent_run w ops a in (a, r :: rs)
  end.

(** ** Outcomes *)

Definition engine_error (e : exn) : Prop := ∃ code ctx, e = KithClientError code ctx.

Section Outcomes.
Context (w : wiring) (Hw : wiring_ok w).

(** [m] keeps the client consistent, and ends in [P] or with an engine error. *)
Definition runs {A} (P : A → Prop) (m : M agent A) : Prop := ∀ a, agent_ok w a →
  let '(a', r) := m a in agent_ok w a' ∧ match r with Ok x => P x | Err e => engine_error e end.

Lemma runs_ret {A} (P : A → Prop) x : P x → runs P (mret x).
Proof. by intros HP a Ha. Qed.

Lemma runs_bind {A B} (Q : B → Prop) (P : A → Prop) (m : M agent B) k : runs Q m → (∀ x, Q x → runs P (k x)) → runs P (m ≫= k).
Proof.
  intros Hm Hk a Ha. specialize (Hm a Ha). rewrite bind_run. destruct (m a) as [a' [x|e]]; [|done]. destruct Hm as [Ha' Hx]. by apply (Hk x Hx).
Qed.

(** With the state the continuation reads. *)
Lemma runs_get {A} (P : A → Prop) k : (∀ a, agent_ok w a → let '(a', r) := k a a in agent_ok w a' ∧ match r with Ok x => P x | Err e => engine_error e end) →
  runs P (get ≫= k).
Proof. intros Hk a Ha. rewrite bind_run. cbn [get]. by apply Hk. Qed.

Lemma runs_modify f : (∀ a, agent_ok w a → agent_ok w (f a)) → runs (λ _, True) (modify f).
Proof. intros Hf a Ha. split; [by apply Hf|done]. Qed.

Lemma runs_weaken {A} (P Q : A → Prop) m : runs P m → (∀ x, P x → Q x) → runs Q m.
Proof. intros Hm HPQ a Ha. specialize (Hm a Ha). destruct (m a) as [a' [x|e]]; naive_solver. Qed.

Lemma runs_check code ctx : runs (λ _, True) (lift (check code ctx)).
Proof. intros a Ha. split; [done|]. unfold check. destruct (code <? 0); [|done]. by eexists _, _. Qed.

Lemma runs_for_each {A} (Q : A → Prop) (l : list A) f : Forall Q l → (∀ x, Q x → runs (λ _, True) (f x)) → runs (λ _, True) (for_each l f).
Proof.
  intros Hl Hf. induction Hl as [|x l Hx _ IH]; cbn [for_each]; [by apply runs_ret|].
  eapply runs_bind; [by apply Hf|]. by intros _ _.
Qed.

Lemma runs_clock : runs (λ t, 0 ≤ t < 2 ^ 64) (monotonic_ns w).
Proof. intros a [? ? ?]. split; [by split|]. apply Hw. Qed.

Lemma runs_now : runs (λ t, 0 ≤ t < 2 ^ 64) (_now_ms w).
Proof.
  eapply runs_bind; [apply runs_clock|]. intros t Ht. apply runs_ret. cbn beta in *.
  split; [apply Z.div_pos; lia|]. apply Z.div_lt_upper_bound; lia.
Qed.

(** *** Changes of the client *)

Lemma linked_keeps c c' : linked w c → buffer_ok c' → keeps c c' → linked w c'.
Proof.
  intros [Hb Hf Hl Hr Hp] Hb' [E1 [E2 _] _ E3 _ _]. split; [done| | | |].
  - unfold fits in *. by rewrite E1.
  - by rewrite E1.
  - rewrite E1, E3. done.
  - by rewrite E2.
Qed.

Lemma client_ok_with c a : linked w c → agent_ok w a → agent_ok w (with_client c a).
Proof. by intros Hc [_ ? ?]. Qed.

(** An engine of the same codec types, limit and parameters. *)
Lemma linked_engine c p' k' : linked w c → native_ok (p', k') → pr_max_payload p' = pr_max_payload (fst (cl_engine c : native)) →
  pr_types p' = pr_types (fst (cl_engine c : native)) → kc_params k' = kc_params (snd (cl_engine c : native)) →
  linked w (set_engine ((p', k') : @engine kith_engine) c).
Proof.
  intros [[Hb He] Hf Hl Hr Hp] Hn E1 E2 E3. unfold fits in *. split; [done| | | |]; unfold fits; cbn; rewrite ?E1, ?E3; try done.
  intros id Hid. unfold registered. rewrite E2. by apply Hr.
Qed.

Lemma runs_flush : runs (λ _, True) (on_client (_request_flush (wi_setup w))).
Proof.
  intros a Ha. unfold on_client. pose proof (ao_linked _ _ Ha) as Hl.
  pose proof (request_flush_keeps (wi_setup w) (ag_client a) (lk_buffer _ _ Hl) (lk_fits _ _ Hl)) as Hf.
  destruct (_request_flush (wi_setup w) (ag_client a)) as [c' r]. destruct Hf as (Hb & Hk & ->). split; [|done].
  apply client_ok_with; [|done]. by eapply linked_keeps.
Qed.

(** A call of the engine that keeps its configuration. *)
Lemma runs_engine {A} (P : A → Prop) (call : proto → kith_client → kith_client * A) (k : A → M agent unit) :
  (∀ p c, keeps_native p c (fst (call p c)) ∧ P (snd (call p c))) → (∀ x, P x → runs (λ _, True) (k x)) →
  runs (λ _, True) (a ← get; let '(p, c) := cl_engine (ag_client a) in let '(c, x) := call p c in modify (with_engine (p, c));; k x).
Proof.
  intros Hc Hk. apply runs_get. intros a Ha. pose proof (ao_linked _ _ Ha) as Hl. pose proof (lk_buffer _ _ Hl) as [_ He].
  destruct (cl_engine (ag_client a)) as [p c] eqn:Ee. destruct (Hc p c) as [Hn Hx].
  destruct (Hn He) as [Hn' [Hp _]]. destruct (call p c) as [c' x]. cbn [fst snd] in *.
  rewrite bind_run. cbn [modify]. apply (Hk x Hx). apply client_ok_with; [|done]. apply linked_engine; rewrite ?Ee; done.
Qed.

(** *** Inbound *)

Lemma linked_flag b c : linked w c → linked w (set_outbound_empty b c).
Proof. by intros []. Qed.

Lemma runs_flag b : runs (λ _, True) (modify (λ a, with_client (set_outbound_empty b (ag_client a)) a)).
Proof. apply runs_modify. intros a Ha. apply client_ok_with; [|done]. by apply linked_flag, ao_linked. Qed.

Lemma runs_remember e : event_ok e → runs (λ _, True) (modify (remember w e)).
Proof. intros He. apply runs_modify. intros a [? ? Hp]. split; try done. cbn. apply Forall_app. split; [done|by constructor]. Qed.

Lemma runs_poll : runs (λ _, True) _poll_direct_ready.
Proof. apply runs_get. intros a [? ? ?]. cbn. by destruct (_ =? _). Qed.

Lemma runs_append ts t payload :
  runs (λ _, True) (λ a, let '(r, o) := _append_evidence (wi_evidence_budget_bytes w) ts t payload (ag_retention a) in (with_retention r a, o)).
Proof.
  intros a [? Hr ?]. pose proof (append_runs _ ts t payload _ (wo_budget _ Hw) Hr) as H.
  destruct (_append_evidence _ ts t payload (ag_retention a)) as [r o]. by destruct H as [? ->].
Qed.

Lemma runs_dispatch buf pos t corr pe : 0 ≤ t < 2 ^ 16 → 0 ≤ corr < 2 ^ 64 → runs (λ _, True) (dispatch_direct w buf pos t corr pe).
Proof.
  intros Ht Hc. eapply runs_bind; [apply runs_clock|]. intros ts Hts. cbn beta in Hts.
  eapply runs_bind; [apply runs_modify; by intros ? []|]. intros _ _. apply runs_get. intros a Ha. cbv zeta.
  set (retain := _ && _). set (keep := negb _ || _). clearbody retain keep. set (payload := slice _ _ _). revert a Ha.
  eapply (runs_bind (λ _, True)); [|intros _ _; apply runs_modify; by intros ? []].
  destruct (retain || keep); [|by apply runs_ret].
  eapply (runs_bind (λ _, True)); [destruct retain; [apply runs_append|by apply runs_ret]|]. intros _ _.
  destruct keep; [|by apply runs_ret]. destruct (wi_summary_mode w); [apply runs_modify; by intros ? []|]. by apply runs_remember.
Qed.

Lemma runs_on_frame f : frame_ok f → runs (λ _, True) (_on_frame_c w f).
Proof.
  intros [Ht _ Hh Hcorr]. eapply runs_bind; [apply runs_clock|]. intros ts Hts.
  eapply runs_bind; [apply runs_modify; by intros ? []|]. intros _ _. apply runs_remember. split; [done|]. split; [done|]. cbn.
  rewrite Hh. by destruct (correlated (fm_flags f)).
Qed.

Lemma runs_feed f : frame_ok f → runs (λ _, True) (feed_engine w f).
Proof.
  intros Hf. eapply runs_bind; [apply runs_flag|]. intros _ _. eapply runs_bind; [apply runs_now|]. intros now _.
  pose (Q := λ x : Z * option frame, match snd x with Some g => g = f | None => True end).
  pose proof (runs_engine Q (λ p c, kith_client_feed_frame p f now c)
    (λ '(rc, handled), match handled with Some f => _on_frame_c w f | None => mret tt end;;
       modify (λ a, with_client (set_outbound_empty false (ag_client a)) a);; lift (check rc [Lit "feed_frame"]);; mret tt)) as He.
  assert (∀ p c, keeps_native p c (fst (kith_client_feed_frame p f now c)) ∧ Q (snd (kith_client_feed_frame p f now c))) as H1.
  { intros p c. split; [apply feed_keeps|]. unfold kith_client_feed_frame, Q. destruct (_ && _); [by destruct (handle_pong f now c)|].
    destruct (client_bootstrap_matches c f); [by destruct (client_bootstrap_feed p f c)|done]. }
  specialize (He H1). intros a Ha. specialize (λ H, He H a Ha). rewrite bind_run in *. cbn [get] in *.
  destruct (cl_engine (ag_client a)) as [p c]. destruct (kith_client_feed_frame p f now c) as [c' [rc handled]]. apply He.
  intros [rc' h] Hq. eapply (runs_bind (λ _, True)); [|intros _ _; eapply runs_bind; [apply runs_flag|]; intros _ _;
    eapply runs_bind; [apply runs_check|]; intros _ _; by apply runs_ret].
  unfold Q in Hq. cbn in Hq. destruct h as [g|]; [subst g; by apply runs_on_frame|by apply runs_ret].
Qed.

(** Decoding changes the codec's counter at most. *)
Lemma decode_same p buf p' x : kith_proto_decode p buf = (p', x) → pr_types p' = pr_types p ∧ pr_max_payload p' = pr_max_payload p ∧
  match x with inl rc => rc < 0 | inr (f, n) => frame_ok f ∧ 10 ≤ n ≤ zlen buf end.
Proof.
  destruct x as [rc|[f n]]; intros Hd.
  - revert Hd. unfold kith_proto_decode, parse_header, proto_reject. repeat (case_match; try done); intros [= <- <-]; try done; split_and!; try done; by simplify_eq.
  - apply decode_inv in Hd as (-> & (Hf & _) & -> & rest & ->). split; [done|]. split; [done|]. split; [done|].
    rewrite zlen_wire, zlen_app. pose proof (wire_len_nonneg f). pose proof (zlen_nonneg rest). rewrite zlen_wire. lia.
Qed.

Lemma native_codec p p' k : native_ok (p, k) → pr_max_payload p' = pr_max_payload p → native_ok (p', k).
Proof.
  intros [? ? Hs ? ?] E. split; cbn in *; rewrite ?E; try done. unfold waiting in *. cbn in *. eapply Forall_impl; [exact Hs|].
  intros d (f & Hd & Hf & Hl). exists f. by rewrite E.
Qed.

Lemma runs_consume_one buf pos : (pos < length buf)%nat →
  runs (λ o, match o with Some next => (pos < next ≤ length buf)%nat | None => True end) (consume_one w buf pos).
Proof.
  intros Hpos. apply runs_get. intros a Ha. pose proof (ao_linked _ _ Ha) as Hl. rewrite bind_run. cbn [lift].
  destruct (match_total w a buf pos) as [m Hm]. rewrite Hm. destruct m as [[[[t corr] pe] fin]|].
  - destruct (match_decodes w a buf pos t corr pe fin Hl Hm) as (f & Hd & <- & <- & _ & _ & Hfin).
    destruct (decode_same _ _ _ _ Hd) as (_ & _ & [Ht _ Hh Hc] & _). revert a Ha Hl Hm Hd.
    intros a Ha _ _ _. eapply (runs_bind (λ _, True)); [|by intros _ _; apply runs_ret; lia|exact Ha].
    apply runs_dispatch; [done|]. rewrite Hh. by destruct (correlated (fm_flags f)).
  - pose proof (lk_buffer _ _ Hl) as [_ He]. destruct (cl_engine (ag_client a)) as [p k] eqn:Ee.
    destruct (kith_proto_decode p (drop pos buf)) as [p' x] eqn:Hd. destruct (decode_same _ _ _ _ Hd) as (E1 & E2 & Hx).
    rewrite bind_run. cbn [modify].
    assert (agent_ok w (with_engine (p', k) a)) as Ha'.
    { apply client_ok_with; [|done]. apply linked_engine; rewrite ?Ee; try done. by eapply native_codec. }
    destruct x as [rc|[f n]].
    + destruct (rc =? - KITH_EAGAIN); [done|]. rewrite bind_run. cbn. unfold check. destruct (rc <? 0); split; try done. by eexists _, _.
    + destruct Hx as [Hf Hn]. revert Ha'. generalize (with_engine (p', k) a). eapply (runs_bind (λ _, True)); [by apply runs_feed|].
      intros _ _. apply runs_ret. unfold zlen in Hn. rewrite length_drop in Hn. lia.
Qed.

Lemma consume_loop_runs fuel : ∀ buf pos a, agent_ok w a → (pos ≤ length buf)%nat → (length buf - pos < fuel)%nat →
  let '(a', pos', r) := consume_loop w fuel buf pos a in
  agent_ok w a' ∧ match r with Ok _ => True | Err e => engine_error e end.
Proof.
  induction fuel as [|fuel IH]; intros buf pos a Ha Hp Hf; [lia|]. cbn [consume_loop].
  destruct (cl_running (ag_client a)); cbn [andb negb]; [|done]. destruct (Nat.ltb_spec pos (length buf)) as [Hlt|]; cbn [negb]; [|done].
  pose proof (runs_consume_one buf pos Hlt a Ha) as H. destruct (consume_one w buf pos a) as [a' [[next|]|e]]; [|done..].
  destruct H as [Ha' Hn]. apply IH; [done|lia|lia].
Qed.

Lemma runs_push e : event_ok e → runs (λ _, True) (push_event e).
Proof.
  intros He. apply runs_get. intros a Ha. destruct (negb _); [done|]. destruct (event_line_ok e He) as (s & -> & Hs).
  rewrite bind_run. cbn [lift]. unfold encode_utf8. rewrite (proj1 (utf8_ascii s Hs)), bind_run. cbn. split; [|done]. by destruct Ha.
Qed.

Lemma runs_flush_pushes : runs (λ _, True) _flush_pushes.
Proof.
  apply runs_get. intros a Ha. rewrite bind_run. cbn [modify].
  apply (runs_for_each event_ok); [by apply ao_pending with w|by intros; apply runs_push|]. by destruct Ha.
Qed.

Lemma runs_consume_all : runs (λ _, True) (consume_all w).
Proof.
  intros a Ha. unfold consume_all. pose proof (consume_loop_runs (S (length (ag_inbuf a))) (ag_inbuf a) 0 a Ha ltac:(lia) ltac:(lia)) as H.
  destruct (consume_loop w _ (ag_inbuf a) 0 a) as [[a' pos] r]. destruct H as [Ha' Hr].
  pose proof (runs_flush_pushes (with_inbuf (drop pos (ag_inbuf a')) a') ltac:(by destruct Ha')) as Hf.
  destruct (_flush_pushes _) as [a'' [u|e]]; destruct Hf as [Ha'' He]; by split.
Qed.

Lemma runs_socket_data data : runs (λ _, True) (_on_socket_data w data).
Proof.
  eapply runs_bind; [apply runs_modify; by intros ? []|]. intros _ _. eapply (runs_bind (λ _, True)).
  - apply runs_get. intros a Ha. revert a Ha. intros a Ha. eapply (runs_bind (λ _, True)); [|intros _ _; apply runs_consume_all|exact Ha].
    destruct (_ && _); [apply runs_poll|by apply runs_ret].
  - intros _ _. apply runs_get. intros a Ha. destruct (negb _); [by apply runs_flush|done].
Qed.

(** *** Commands *)

Lemma runs_submit t payload fl k : runs (λ _, True) (on_client (_submit_on_loop (wi_setup w) t payload fl k)).
Proof.
  intros a Ha. pose proof (ao_linked _ _ Ha) as Hl. pose proof (lk_buffer _ _ Hl) as [_ He]. unfold on_client, _submit_on_loop.
  set (t' := Z.land t 0xFFFF). set (fl' := Z.land fl 0xFF). set (k' := Z.land k 0xFFFFFFFFFFFFFFFF).
  pose proof (land_ones_range 16 t ltac:(done) : 0 ≤ t' < 2 ^ 16) as Ht. pose proof (land_ones_range 8 fl ltac:(done) : 0 ≤ fl' < 2 ^ 8) as Hfl.
  pose proof (land_ones_range 64 k ltac:(done) : 0 ≤ k' < 2 ^ 64) as Hk. clearbody t' fl' k'.
  rewrite bind_run. cbn [modify]. rewrite bind_run. unfold finally at 1. rewrite bind_run. cbn [get set_outbound_empty cl_engine].
  destruct (cl_engine (ag_client a)) as [p kc] eqn:Ee. cbn [AgentControl.kith_client_submit_interactive kith_engine fst snd].
  pose proof (submit_native p t' fl' k' payload kc He Ht Hfl Hk) as Hn.
  assert (kc_params (fst (ClientCore.kith_client_submit_interactive p t' fl' k' payload kc)) = kc_params kc) as Hp.
  { unfold ClientCore.kith_client_submit_interactive. destruct (enqueue_same p t' fl' k' payload kc) as (E & _).
    destruct (client_encode_and_enqueue p t' fl' k' payload kc) as [kc' rc]. by destruct (negb _). }
  destruct (ClientCore.kith_client_submit_interactive p t' fl' k' payload kc) as [kc' [rc id]]. cbn [fst] in *.
  rewrite bind_run. cbn [modify]. rewrite bind_run. cbn [lift].
  set (c1 := set_engine _ _). assert (linked w c1) as Hl1 by (apply linked_engine; cbn; rewrite ?Ee; try done; by apply linked_flag).
  unfold check. destruct (rc <? 0).
  { split; [by apply client_ok_with; [apply linked_flag|]|]. by eexists _, _. }
  cbn [mret M_ret]. rewrite bind_run. pose proof (linked_flag false _ Hl1) as Hl2. set (c2 := set_outbound_empty false c1) in *.
  pose proof (request_flush_keeps (wi_setup w) c2 (lk_buffer _ _ Hl2) (lk_fits _ _ Hl2)) as Hf.
  destruct (_request_flush (wi_setup w) c2) as [c' r]. destruct Hf as (Hb & Hk' & ->). split; [|done].
  apply client_ok_with; [|done]. by eapply linked_keeps.
Qed.

(** A registration that succeeds holds from then on. *)
Lemma register_registers name t p : let '(p', rc) := Proto.kith_proto_register_type_id name t p in
  pr_max_payload p' = pr_max_payload p ∧ (∀ id, registered p id → registered p' id) ∧ (0 ≤ rc → registered p' t).
Proof.
  unfold Proto.kith_proto_register_type_id. destruct (bool_decide _); [done|].
  destruct (find_by_name_locked p _) as [e|] eqn:Ef.
  - split; [done|]. split; [done|]. destruct (Z.eqb_spec (snd e) t) as [<-|]; [|done]. intros _. unfold find_by_name_locked in Ef.
    apply list_elem_of_fmap. exists e. split; [done|]. apply head_Some_elem_of in Ef. by apply list_elem_of_filter in Ef as [_ ?].
  - destruct (find_by_id_locked p t); [done|]. split; [done|]. unfold registered. cbn. rewrite fmap_app. cbn.
    split; [intros id Hid; apply elem_of_app; by left|]. intros _. apply elem_of_app. right. left.
Qed.

Lemma register_linked name t c : linked w c →
  let '(c', r) := register_type name t c in linked w c' ∧ match r with Ok _ => True | Err e => engine_error e ∨ encode_utf8 name = Err e end.
Proof.
  intros Hl. pose proof Hl as [[Hcap He] Hfit Hlim Hreg Hpong]. unfold register_type. rewrite bind_run. cbn [get]. rewrite bind_run. cbn [lift].
  destruct (encode_utf8 name) as [bs|e]; [|by split; [|right]].
  destruct (cl_engine c) as [p k] eqn:Ee. cbn [AgentControl.kith_proto_register_type_id kith_engine fst snd].
  set (id := Z.land t 65535). pose proof (register_registers bs id p) as Hr. pose proof (register_native bs id p k He) as Hn.
  destruct (Proto.kith_proto_register_type_id bs id p) as [p' rc]. destruct Hr as (Hmax & Hold & Hnew). cbn [fst snd] in *.
  rewrite bind_run. cbn [modify]. rewrite bind_run. cbn [lift].
  assert (∀ S, (∀ i, i ∈ S → registered p' i) → linked w (set_registered S (set_engine ((p', k) : @engine kith_engine) c))) as Hlink.
  { intros S HS. unfold fits in *. rewrite Ee in Hfit. split; [done| | |exact HS|]; unfold fits; cbn; by rewrite ?Hmax. }
  unfold check. destruct (Z.ltb_spec rc 0) as [|Hrc]; cbn.
  - split; [|left; by eexists _, _]. specialize (Hlink (cl_registered_type_ids c) ltac:(auto)). by destruct Hlink.
  - split; [|done]. apply Hlink. intros i [->%elem_of_singleton|Hi]%elem_of_union; auto.
Qed.

Lemma runs_register name t bs : encode_utf8 name = Ok bs → runs (λ _, True) (on_client (register_type name t)).
Proof.
  intros Hname a Ha. unfold on_client. pose proof (register_linked name t _ (ao_linked _ _ Ha)) as Hr.
  destruct (register_type name t (ag_client a)) as [c' r]. destruct Hr as [Hl Hr]. split; [by apply client_ok_with|].
  destruct r as [|e]; [done|]. destruct Hr as [Hr|Hr]; [done|]. by rewrite Hname in Hr.
Qed.

(** *** Timers and connections *)

Lemma runs_close : runs (λ _, True) (modify (λ a, with_client (close_transport (ag_client a)) a)).
Proof. apply runs_modify. intros a Ha. apply client_ok_with; [|done]. by destruct (ao_linked _ _ Ha). Qed.

Lemma runs_staleness : runs (λ _, True) (_check_pong_staleness w).
Proof.
  unfold _check_pong_staleness. destruct (_ <=? 0); [by apply runs_ret|]. apply runs_get. intros a Ha. cbn.
  set (last := ln_last_ping_sent_ms _). destruct (negb _ || _); [done|]. revert a Ha last. intros a Ha last. clearbody last.
  revert Ha. generalize a. clear a. eapply runs_bind; [apply runs_now|]. intros now _.
  destruct (_ <=? _); [by apply runs_ret|apply runs_close].
Qed.

Lemma runs_tick : runs (λ _, True) (tick_engine w).
Proof.
  apply runs_get. intros a Ha. destruct (negb _); [done|]. revert a Ha.
  eapply runs_bind; [apply runs_flag|]. intros _ _. eapply runs_bind; [apply runs_now|]. intros now _.
  pose proof (runs_engine (λ _, True) (λ p c, kith_client_tick p now c)
    (λ _, _check_pong_staleness w;; on_client (_request_flush (wi_setup w)))) as He.
  eapply He; [intros; split; [apply tick_keeps|done]|]. intros _ _. eapply runs_bind; [apply runs_staleness|]. intros _ _. apply runs_flush.
Qed.

Lemma runs_write frame : runs (λ _, True) (on_client (transport_write frame)).
Proof. intros a Ha. split; [|done]. apply client_ok_with; [|done]. by destruct (ao_linked _ _ Ha). Qed.

Lemma runs_pop : runs (λ _, True) (on_client (_pop_outbound (wi_setup w))).
Proof.
  intros a Ha. unfold on_client, _pop_outbound. rewrite bind_run. cbn [modify]. rewrite bind_run. cbn [get].
  pose proof (linked_flag false _ (ao_linked _ _ Ha)) as Hl. set (c := set_outbound_empty false (ag_client a)) in *.
  pose proof (pop_loop_exact (wi_setup w) (S (Z.to_nat (su_out_limit (wi_setup w) - cl_out_cap c))) c (lk_buffer _ _ Hl) (lk_fits _ _ Hl)) as Hp.
  specialize (Hp ltac:(lia) ltac:(lia)). destruct (pop_loop _ _ c) as [c' r]. destruct Hp as (Hb & Hk & _ & -> & _).
  split; [|done]. apply client_ok_with; [|done]. by eapply linked_keeps.
Qed.

Lemma runs_contained m : runs (λ _, True) m → runs (λ _, True) (contained m).
Proof. intros Hm a Ha. specialize (Hm a Ha). unfold contained. destruct (m a) as [a' [x|e]]; [done|]. destruct Hm as [Ha' (code & ctx & ->)]. done. Qed.

Lemma runs_probe : runs (λ _, True) (probe_stalled_outbound w).
Proof.
  apply runs_get. intros a Ha. cbv zeta. destruct (negb _ || _); [done|]. destruct (cl_transport _) as [t|]; [|done]. destruct (tr_closing t); [done|].
  revert Ha. generalize a. apply runs_contained. eapply runs_bind; [apply runs_pop|]. intros [frame|] _; [|by apply runs_ret].
  eapply runs_bind; [apply runs_write|]. intros _ _. apply runs_flush.
Qed.

Lemma arm_ok a : agent_ok w a → agent_ok w (_arm_connection a).
Proof. intros [? Hr ?]. split; try done. cbn. exact (retention_step_ok _ None Arm _ (wo_budget _ Hw) Hr). Qed.

Lemma runs_opened : runs (λ _, True) (connection_opened w).
Proof.
  eapply runs_bind; [apply runs_modify; intros a Ha; apply client_ok_with; [|done]; by destruct (ao_linked _ _ Ha)|]. intros _ _.
  eapply runs_bind; [apply runs_now|]. intros now _. 
  pose proof (runs_engine (λ _, True) (λ p c, kith_client_on_connected p now c)
    (λ rc, modify (λ a, with_client (set_outbound_empty false (ag_client a)) a);; lift (check rc [Lit "on_connected"]);;
       modify (λ a, _arm_connection (with_client (set_connected true (ag_client a)) a));; on_client (_request_flush (wi_setup w)))) as He.
  eapply He; [intros; split; [apply connected_keeps|done]|]. intros rc _. eapply runs_bind; [apply runs_flag|]. intros _ _.
  eapply runs_bind; [apply runs_check|]. intros _ _. eapply runs_bind; [|intros _ _; apply runs_flush].
  apply runs_modify. intros b Hb. apply arm_ok, client_ok_with; [|done]. by destruct (ao_linked _ _ Hb).
Qed.

Lemma runs_ended : runs (λ _, True) (connection_ended w).
Proof.
  eapply runs_bind; [apply runs_modify; intros a [Hl ? ?]; split; try done; by destruct Hl|]. intros _ _.
  eapply runs_bind; [apply runs_now|]. intros now _.
  pose proof (runs_engine (λ _, True) (λ _ c, kith_client_on_disconnected now c) (λ _, mret tt)) as He. intros a Ha.
  specialize (He ltac:(intros; split; [apply disconnected_keeps|done]) ltac:(intros; by apply runs_ret) a Ha).
  rewrite bind_run in *. cbn [get] in *. destruct (cl_engine (ag_client a)) as [p c]. by destruct (kith_client_on_disconnected now c).
Qed.

Lemma runs_refused : runs (λ _, True) (connection_refused w).
Proof.
  eapply runs_bind; [apply runs_now|]. intros now _.
  pose proof (runs_engine (λ _, True) (λ _ c, kith_client_on_connect_failed now c) (λ _, mret tt)) as He. intros a Ha.
  specialize (He ltac:(intros; split; [apply schedule_keeps|done]) ltac:(intros; by apply runs_ret) a Ha).
  rewrite bind_run in *. cbn [get] in *. destruct (cl_engine (ag_client a)) as [p c]. by destruct (kith_client_on_connect_failed now c).
Qed.

Lemma step_runs o : op_ok o → runs (λ _, True) (agent_step w o).
Proof.
  destruct o as [| | |data| | | |t p fl k|name t| |d| |]; cbn [agent_step op_ok]; intros Ho.
  - apply runs_opened.
  - apply runs_ended.
  - apply runs_refused.
  - apply runs_socket_data.
  - apply runs_tick.
  - apply runs_flush.
  - apply runs_probe.
  - eapply runs_bind; [apply runs_submit|]. intros _ _. by apply runs_ret.
  - destruct Ho as [bs Hb]. by apply (runs_register name t bs).
  - eapply runs_bind; [apply runs_clock|]. intros ts _. apply runs_modify. intros a [? Hr ?]. split; try done.
    exact (retention_step_ok _ None (Begin ts) _ (wo_budget _ Hw) Hr).
  - apply runs_modify. intros a [? Hr ?]. split; try done. exact (retention_step_ok _ None (Seal d) _ (wo_budget _ Hw) Hr).
  - apply runs_modify. intros a [? Hr ?]. split; try done. exact (retention_step_ok _ None Retire _ (wo_budget _ Hw) Hr).
  - eapply (runs_bind (λ _, True)); [|intros _ _; by apply runs_ret]. apply runs_get. intros a Ha.
    destruct (re_cached (ag_retention a)); [done|]. revert a Ha. eapply runs_bind; [apply runs_clock|].
    intros ts _ a [? Hr ?]. unfold view_at. pose proof (retention_step_ok _ (wi_window_id_extractor w) (View ts) _ (wo_budget _ Hw) Hr) as Hv. cbn in Hv.
    assert (∃ o, snd (view_window (wi_evidence_budget_bytes w) (wi_window_id_extractor w) ts (ag_retention a)) = Ok o) as [o Ho'].
    { unfold view_window. destruct (re_cached _); [by eexists|]. destruct (snapshot_view_window _ _ _) as [s|]; [|by eexists].
      unfold evaluate. rewrite first_batches. by eexists. }
    destruct (view_window _ _ ts (ag_retention a)) as [r res]. cbn in *. subst res. by split.
Qed.

Lemma agent_run_ok ops : ∀ a, Forall op_ok ops → agent_ok w a →
  let '(a', rs) := agent_run w ops a in agent_ok w a' ∧ Forall (λ r, match r with Ok _ => True | Err e => engine_error e end) rs.
Proof.
  induction ops as [|o ops IH]; intros a Hops Ha; cbn [agent_run]; [done|]. apply Forall_cons in Hops as [Ho Hops].
  pose proof (step_runs o Ho a Ha) as H. destruct (agent_step w o a) as [a1 r]. destruct H as [Ha1 Hr].
  specialize (IH a1 Hops Ha1). destruct (agent_run w ops a1) as [a2 rs]. destruct IH. split; [done|]. by constructor.
Qed.
End Outcomes.

(** ** Construction *)

Lemma register_all_linked w l : ∀ c, linked w c → let '(c', _) := for_each l (λ '(name, t), register_type name t) c in linked w c'.
Proof.
  induction l as [|[name t] l IH]; intros c Hc; cbn [for_each]; [done|]. rewrite bind_run.
  pose proof (register_linked w name t c Hc) as H. destruct (register_type name t c) as [c' [u|e]]; destruct H as [Hl _]; [by apply IH|done].
Qed.

Lemma params_of_ok o n : params_ok (client_params_of o n).
Proof. split; cbn; unfold is_u32, u32, UINT32_MAX; match goal with |- context [?z mod ?m] => pose proof (Z.mod_pos_bound z m) end; lia. Qed.

Lemma c_step_ok s : step_ok (c_step s).
Proof.
  unfold step_ok, c_step. cbn. destruct (bs_on_enter s) as [[[t p]|]|]; cbn; [|done..]. exact (land_ones_range 16 t ltac:(done)).
Qed.

Lemma configure_ok w steps a : zlen steps ≤ UINT32_MAX → agent_ok w a → agent_ok w (fst (_configure_bootstrap steps a)).
Proof.
  intros Hs Ha. pose proof (ao_linked _ _ Ha) as Hl. pose proof (lk_buffer _ _ Hl) as [_ He]. unfold _configure_bootstrap.
  rewrite bind_run. cbn [get]. destruct (cl_engine (ag_client a)) as [p k] eqn:Ee.
  assert (native_ok (p, fst (kith_client_configure_bootstrap (c_step <$> steps) k)) ∧
    kc_params (fst (kith_client_configure_bootstrap (c_step <$> steps) k)) = kc_params k) as [Hn Hp].
  { unfold kith_client_configure_bootstrap. destruct (bt_configured _); [done|]. cbn [fst]. split; [|done]. destruct He as [? Hc ? ? _].
    split; try done.
    - cbn [snd] in *. apply with_bootstrap_ok; [done|]. split; [|done]. unfold step_count, zlen in *. cbn. by rewrite length_fmap.
    - cbn. apply Forall_fmap, Forall_true. intros s. apply c_step_ok. }
  destruct (kith_client_configure_bootstrap (c_step <$> steps) k) as [k' rc]. cbn [fst] in *. rewrite bind_run. cbn [modify].
  rewrite bind_run. cbn [lift]. assert (agent_ok w (with_engine (p, k') a)) as Ha'.
  { apply client_ok_with; [|done]. apply linked_engine; rewrite ?Ee; done. }
  by destruct (check rc _).
Qed.

(** A new engine has nothing to send. *)
Lemma create_native o n k p : kith_client_create (client_params_of o n) = inr k → 0 ≤ pr_max_payload p → 10 + pr_max_payload p ≤ UINT32_MAX →
  native_ok (p, k) ∧ cp_pong_type_id (kc_params k) = u16 (op_pong_type_id o).
Proof.
  intros Hk Hp0 Hp. pose proof (create_ok _ _ (params_of_ok o n) Hk) as Hc. unfold kith_client_create in Hk. destruct (negb _); [done|].
  injection Hk as <-. split; [|done]. split; try done. cbn. unfold u16. apply Z.mod_pos_bound. lia.
Qed.

Lemma init_ok o bs st clock w a : agent_init o bs st clock = Ok (w, a) → 10 + wi_direct_wire_limit w ≤ UINT32_MAX →
  zlen (op_bootstrap_steps o) ≤ UINT32_MAX → 0 ≤ op_evidence_budget_bytes o → (∀ n, 0 ≤ clock n < 2 ^ 64) →
  wiring_ok w ∧ agent_ok w (agent_start a).
Proof.
  intros Hi Hlim Hst Hbud Hclk. unfold agent_init in Hi. unfold raise_if in Hi.
  destruct (negb ((0 <=? op_max_payload o) && _)) eqn:E1; cbn [mbind result_bind] in Hi; [done|].
  destruct (negb ((0 <? op_outbound_buffer_initial_bytes o) && _)) eqn:E2; cbn [mbind result_bind] in Hi; [done|].
  apply negb_false_iff, andb_true_iff in E1 as [E1%Z.leb_le _]. apply negb_false_iff, andb_true_iff in E2 as [E2%Z.ltb_lt _].
  set (limit := if negb (op_max_payload o =? 0) then op_max_payload o else _PROTO_DEFAULT_MAX_PAYLOAD) in Hi.
  destruct (kith_client_create _) as [rc|k] eqn:Hc;
    cbn [mbind result_bind] in Hi; [done|].
  set (w0 := mkWiring _ _ _ _ _ _ _ _ _ _) in Hi. set (c0 := mkClient _ _ _ _ _ _ _ _ _ _ _) in Hi.
  assert (pr_max_payload (kith_proto_create (op_max_payload o)) = limit) as Hmax.
  { unfold limit, kith_proto_create, _PROTO_DEFAULT_MAX_PAYLOAD. cbn. by destruct (op_max_payload o =? 0). }
  assert (0 ≤ limit) as Hl0 by (unfold limit; destruct (negb _); [lia|done]).
  assert (10 + limit ≤ UINT32_MAX → linked w0 c0) as Hlink.
  { intros Hm. destruct (create_native _ _ _ (kith_proto_create (op_max_payload o)) Hc) as [Hn Hp]; [lia|lia|].
    split; [split; [cbn; unfold KITH_PROTO_HDR_SIZE, UINT32_MAX in *; lia|done]|..]; unfold fits, w0; cbn [su_out_limit wi_setup wi_direct_wire_limit c0 cl_engine fst snd];
      rewrite ?Hmax; try done. unfold KITH_PROTO_HDR_SIZE. lia. }
  clearbody c0. pose proof (register_all_linked w0 (op_message_types o) c0) as Hreg.
  destruct (for_each (op_message_types o) _ c0) as [c1 [u|e]]; [|done]. set (a1 := mkAgent _ _ _ _ _ _ _ _ _ _ _ _ _) in Hi.
  assert (10 + limit ≤ UINT32_MAX → agent_ok w0 a1) as Ha1 by (intros Hm; split; [by apply Hreg, Hlink|by split|done]).
  assert (10 + limit ≤ UINT32_MAX → agent_ok w0 (fst ((if bool_decide (length (op_bootstrap_steps o) = 0%nat) then mret tt
    else _configure_bootstrap (op_bootstrap_steps o)) a1))) as Ha2.
  { intros Hm. destruct (bool_decide _); [by apply Ha1|]. apply configure_ok; [done|by apply Ha1]. }
  destruct ((if bool_decide (length (op_bootstrap_steps o) = 0%nat) then mret tt else _configure_bootstrap (op_bootstrap_steps o)) a1) as [a2 [u'|e]]; [|done]. injection Hi as <- <-. split; [by split|].
  apply client_ok_with; [|by apply Ha2]. by destruct (ao_linked _ _ (Ha2 Hlim)).
Qed.

(** C32: For every construction that succeeds with a wire limit that leaves
    room for a header in 32 bits, a non-negative evidence budget, at most 2^32
    - 1 bootstrap steps and a clock of 64-bit readings, and for every sequence
    of connections, losses, refusals, received bytes, ticks, probes, commands,
    registrations of names that can be encoded in UTF-8, and window calls: the
    client stays consistent with its engine, and a callback ends normally or
    with an engine error: no other exception, no read outside a buffer, no
    loop that fails to end. *)
Theorem agent_callbacks_contained o bs st clock w a ops :
  agent_init o bs st clock = Ok (w, a) → 10 + wi_direct_wire_limit w ≤ UINT32_MAX → zlen (op_bootstrap_steps o) ≤ UINT32_MAX →
  0 ≤ op_evidence_budget_bytes o → (∀ n, 0 ≤ clock n < 2 ^ 64) → Forall op_ok ops →
  let '(a', rs) := agent_run w ops (agent_start a) in
  agent_ok w a' ∧ Forall (λ r, match r with Ok _ => True | Err e => engine_error e end) rs.
Proof. intros Hi Hl Hs Hb Hc Hops. destruct (init_ok o bs st clock w a Hi Hl Hs Hb Hc) as [Hw Ha]. by apply agent_run_ok. Qed.
