(* ===== verification/AgentStream.v ===== *)
(** * The inbound stream as a sequence of frames

    Whatever the reads, and whichever path a frame takes, a client that is not
    bootstrapping delivers the frames of the byte stream in order. *)

From S2P Require Import Prelude Outcome PyStruct PyText PyFloat PyJson PyWire PyArith Correlator Proto ProtoTheorems ClientRing ClientCore ClientTheorems AgentControl AgentTheorems AgentEngine Evidence EvidenceTheorems AgentInbound AgentInboundTheorems.

#[local] Open Scope Z_scope.

(** ** The frames of a byte string *)

(** The frames, what is left, and whether it is invalid. *)
Fixpoint frames_of (fuel : nat) (p : proto) (buf : bytes) : list frame * bytes * bool :=
  match fuel with
  | O => ([], buf, false)
  | S fuel =>
      if bool_decide (buf = []) then ([], [], false) else
      match snd (kith_proto_decode p buf) with
      | inl rc => ([], buf, negb (rc =? - KITH_EAGAIN))
      | inr (f, n) => let '(fs, rest, bad) := frames_of fuel p (drop (Z.to_nat n) buf) in (f :: fs, rest, bad)
      end
  end.

Definition parse (p : proto) (buf : bytes) : list frame * bytes * bool := frames_of (S (length buf)) p buf.

(** What a frame adds to the event history, time stamps aside. *)
Definition key_of (e : ClientEvent) : Z * Z * bytes := (ce_type_id e, ce_correlation_id e, ce_payload e).

Definition delivered (w : wiring) (f : frame) : list (Z * Z * bytes) :=
  if negb (wi_pong_type_id w =? 0) && (fm_type_id f =? wi_pong_type_id w) then []
  else [(fm_type_id f, if fm_has_correlation f then fm_correlation_id f else 0, fm_payload f)].

(** Reads until one fails. *)
Fixpoint receive_all (w : wiring) (chunks : list bytes) : M agent unit :=
  match chunks with [] => mret tt | d :: ds => _on_socket_data w d;; receive_all w ds end.

(** A consistent client in full mode whose bootstrap is not under way. *)
Record steady (w : wiring) (a : agent) : Prop := {
  sd_ok : agent_ok w a;
  sd_running : cl_running (ag_client a) = true;
  sd_idle : is_running (bt_state (kc_bootstrap (snd (engine_of a)))) = false;
  sd_full : wi_summary_mode w = false;
  sd_history : (length (ag_event_history a) ≤ wi_event_history_size w)%nat;
}.

(** The codec decodes alike. *)
Definition codec_eq (p q : proto) : Prop := pr_types p = pr_types q ∧ pr_max_payload p = pr_max_payload q.

(** ** Parsing *)

Lemma decode_codec p q buf : codec_eq p q → snd (kith_proto_decode p buf) = snd (kith_proto_decode q buf).
Proof.
  intros [Et Em]. unfold kith_proto_decode. destruct (parse_header buf) as [pr|[[t fl] wl]]; [by destruct (pr =? _)|].
  unfold find_by_id_locked. rewrite Et, Em. by repeat (case_match; try done).
Qed.

Lemma decode_frame_size p buf f n : snd (kith_proto_decode p buf) = inr (f, n) → 10 ≤ n ≤ zlen buf.
Proof.
  intros Hd. destruct (kith_proto_decode p buf) as [p' x] eqn:E. cbn in Hd. subst x. by destruct (decode_same _ _ _ _ E) as (_ & _ & _ & ?).
Qed.

Lemma frames_fuel p fuel : ∀ buf, (length buf < fuel)%nat → frames_of fuel p buf = parse p buf.
Proof.
  assert (∀ n m buf, (length buf < n)%nat → (length buf < m)%nat → frames_of n p buf = frames_of m p buf) as H.
  { induction n as [|n IH]; intros m buf Hn Hm; [lia|]. destruct m as [|m]; [lia|]. cbn [frames_of]. case_bool_decide; [done|].
    destruct (snd (kith_proto_decode p buf)) as [rc|[f k]] eqn:Ed; [done|]. pose proof (decode_frame_size _ _ _ _ Ed) as Hk.
    unfold zlen in Hk. by rewrite (IH m) by (rewrite length_drop; lia). }
  intros buf Hb. apply H; lia.
Qed.

Lemma parse_unfold p buf : parse p buf =
  if bool_decide (buf = []) then ([], [], false) else
  match snd (kith_proto_decode p buf) with
  | inl rc => ([], buf, negb (rc =? - KITH_EAGAIN))
  | inr (f, n) => let '(fs, rest, bad) := parse p (drop (Z.to_nat n) buf) in (f :: fs, rest, bad)
  end.
Proof.
  unfold parse at 1. cbn [frames_of]. case_bool_decide; [done|]. destruct (snd (kith_proto_decode p buf)) as [rc|[f n]] eqn:Ed; [done|].
  rewrite frames_fuel; [done|]. pose proof (decode_frame_size _ _ _ _ Ed) as Hn. unfold zlen in Hn. rewrite length_drop. lia.
Qed.

Lemma parse_header_app (buf more : bytes) : 10 ≤ zlen buf → parse_header (buf ++ more) = parse_header buf.
Proof.
  intros Hl. destruct (long_buffer buf Hl) as (b0 & b1 & b2 & b3 & b4 & b5 & b6 & b7 & b8 & b9 & rest & ->).
  unfold parse_header. rewrite !(proj2 (Z.ltb_ge _ _)); [done|done|]. rewrite zlen_app. pose proof (zlen_nonneg more). unfold KITH_PROTO_HDR_SIZE. lia.
Qed.

(** More bytes change nothing but an incomplete frame. *)
Lemma decode_more p buf more : pr_max_payload p ≤ UINT32_MAX → snd (kith_proto_decode p buf) ≠ inl (- KITH_EAGAIN) →
  snd (kith_proto_decode p (buf ++ more)) = snd (kith_proto_decode p buf).
Proof.
  intros Hp Hne. destruct (kith_proto_decode p buf) as [p' [rc|[f n]]] eqn:Ed; cbn [snd] in *.
  - destruct (Z.ltb_spec (zlen buf) 10) as [Hlt|Hge].
    { exfalso. unfold kith_proto_decode, parse_header in Ed. unfold KITH_PROTO_HDR_SIZE in Ed. rewrite (proj2 (Z.ltb_lt _ _) Hlt) in Ed.
      injection Ed as _ <-. done. }
    unfold kith_proto_decode in *. rewrite parse_header_app by done. destruct (parse_header buf) as [pr|[[t fl] wl]] eqn:Eh.
    { destruct (pr =? - KITH_EPROTO); [by injection Ed as _ <-|]. by injection Ed as _ <-. }
    destruct (pr_max_payload p <? wl); [by injection Ed as _ <-|].
    destruct (Z.ltb_spec (zlen buf) (KITH_PROTO_HDR_SIZE + wl)) as [|Hb]; [by injection Ed as _ <-|].
    rewrite (proj2 (Z.ltb_ge (zlen (buf ++ more)) _)) by (rewrite zlen_app; pose proof (zlen_nonneg more); lia).
    destruct (find_by_id_locked p t); [|by injection Ed as _ <-]. destruct (correlated fl && _); [by injection Ed as _ <-|done].
  - apply decode_inv in Ed as (_ & Ha & -> & rest & ->). rewrite <- app_assoc. by rewrite decode_wire.
Qed.

Lemma parse_app p a b : pr_max_payload p ≤ UINT32_MAX → parse p (a ++ b) =
  let '(fs, rest, bad) := parse p a in
  if bad then (fs, rest ++ b, true) else let '(fs', rest', bad') := parse p (rest ++ b) in (fs ++ fs', rest', bad').
Proof.
  intros Hp. remember (length a) as n eqn:Hn. revert a Hn. induction n as [n IH] using lt_wf_ind. intros a ->.
  rewrite (parse_unfold p a). case_bool_decide as Ha; [subst a; cbn [app]; by destruct (parse p b) as [[??]?]|].
  destruct (snd (kith_proto_decode p a)) as [rc|[f m]] eqn:Ed.
  - destruct (Z.eqb_spec rc (- KITH_EAGAIN)) as [->|Hne]; cbn [negb]; [by destruct (parse p (a ++ b)) as [[??]?]|].
    rewrite parse_unfold, bool_decide_eq_false_2 by (by destruct a). rewrite decode_more by (rewrite ?Ed; done || congruence).
    by rewrite Ed, (proj2 (Z.eqb_neq _ _) Hne).
  - pose proof (decode_frame_size _ _ _ _ Ed) as Hm. unfold zlen in Hm.
    rewrite parse_unfold, bool_decide_eq_false_2 by (by destruct a). rewrite decode_more by (rewrite ?Ed; done).
    rewrite Ed, drop_app_le by lia. rewrite (IH (length (drop (Z.to_nat m) a)) ltac:(rewrite length_drop; lia) _ eq_refl).
    destruct (parse p (drop (Z.to_nat m) a)) as [[fs rest] bad]. destruct bad; [done|]. by destruct (parse p (rest ++ b)) as [[??]?].
Qed.

Lemma parse_codec p q buf : codec_eq p q → parse p buf = parse q buf.
Proof.
  intros He. unfold parse. generalize (S (length buf)) as n. intros n. revert buf. induction n as [|n IH]; intros buf; [done|].
  cbn [frames_of]. case_bool_decide; [done|]. rewrite (decode_codec p q buf He). destruct (snd _) as [rc|[f m]]; [done|]. by rewrite IH.
Qed.

(** ** Logs *)

Lemma lastn_all {A} n (l : list A) : (length l ≤ n)%nat → lastn n l = l.
Proof. intros Hl. unfold lastn. by replace (length l - n)%nat with 0%nat by lia. Qed.

Lemma lastn_fmap {A B} (f : A → B) n l : f <$> lastn n l = lastn n (f <$> l).
Proof. unfold lastn. by rewrite fmap_drop, length_fmap. Qed.

Lemma length_lastn {A} n (l : list A) : (length (lastn n l) ≤ n)%nat.
Proof. unfold lastn. rewrite length_drop. lia. Qed.

Lemma lastn_lastn {A} n (l k : list A) : lastn n (lastn n l ++ k) = lastn n (l ++ k).
Proof.
  destruct (Nat.le_ge_cases (length l) n) as [Hle|Hge]; [by rewrite (lastn_all n l)|].
  unfold lastn. rewrite !length_app, length_drop.
  destruct (Nat.le_ge_cases (length k) n) as [Hk|Hk].
  - rewrite !drop_app_le by (rewrite ?length_drop; lia). rewrite drop_drop. f_equal. f_equal. lia.
  - rewrite !drop_app_ge by (rewrite ?length_drop; lia). rewrite length_drop. f_equal. lia.
Qed.

Section Stream.
Context (w : wiring) (Hw : wiring_ok w).

(** [a'] is steady, with the events of the given keys appended. *)
Record advances (ks : list (Z * Z * bytes)) (a a' : agent) : Prop := {
  ad_steady : steady w a';
  ad_history : key_of <$> ag_event_history a' = lastn (wi_event_history_size w) ((key_of <$> ag_event_history a) ++ ks);
  ad_pending : key_of <$> ag_pending_push a' = (key_of <$> ag_pending_push a) ++ ks;
  ad_inbuf : ag_inbuf a' = ag_inbuf a;
  ad_codec : codec_eq (fst (engine_of a')) (fst (engine_of a));
}.

Lemma advances_refl a : steady w a → advances [] a a.
Proof. intros Ha. split; [done| | |done|done]; rewrite app_nil_r; [|done]. rewrite lastn_all; [done|]. rewrite length_fmap. by apply sd_history. Qed.

Lemma advances_trans ks1 ks2 a1 a2 a3 : advances ks1 a1 a2 → advances ks2 a2 a3 → advances (ks1 ++ ks2) a1 a3.
Proof.
  intros [S1 H1 P1 I1 [C1 D1]] [S2 H2 P2 I2 [C2 D2]]. split; [done| | |congruence|split; congruence].
  - by rewrite H2, H1, lastn_lastn, app_assoc.
  - by rewrite P2, P1, app_assoc.
Qed.

(** From the events themselves. *)
Lemma advances_intro es a a' : steady w a → agent_ok w a' → cl_running (ag_client a') = cl_running (ag_client a) →
  kc_bootstrap (snd (engine_of a')) = kc_bootstrap (snd (engine_of a)) → codec_eq (fst (engine_of a')) (fst (engine_of a)) →
  ag_event_history a' = lastn (wi_event_history_size w) (ag_event_history a ++ es) → ag_pending_push a' = ag_pending_push a ++ es →
  ag_inbuf a' = ag_inbuf a → advances (key_of <$> es) a a'.
Proof.
  intros [Hok Hr Hi Hf Hh] Hok' Er Eb Ec Eh Ep Ein. split; [split| | | |]; try done.
  - by rewrite Er.
  - by rewrite Eb.
  - rewrite Eh. apply length_lastn.
  - by rewrite Eh, lastn_fmap, fmap_app.
  - by rewrite Ep, fmap_app.
Qed.

(** *** The engine's path *)

Lemma feed_idle p f now k : is_running (bt_state (kc_bootstrap k)) = false →
  let pong := negb (cp_pong_type_id (kc_params k) =? 0) && (fm_type_id f =? cp_pong_type_id (kc_params k)) in
  ∃ k', kith_client_feed_frame p f now k = (k', (0, if pong then None else Some f)) ∧ kc_bootstrap k' = kc_bootstrap k.
Proof.
  intros Hi pong. unfold kith_client_feed_frame, client_bootstrap_matches. fold pong. rewrite Hi. cbn [andb].
  destruct pong; [|by exists k]. exists (fst (handle_pong f now k)). unfold handle_pong.
  destruct (ln_awaiting_pong (kc_link k) && _); [|done]. split; [done|]. cbn. by destruct (_ && _).
Qed.

Lemma feed_advances f a : steady w a → frame_ok f →
  let '(a', r) := feed_engine w f a in r = Ok tt ∧ advances (delivered w f) a a'.
Proof.
  intros Hs Hf. pose proof (runs_feed w Hw f Hf a (sd_ok _ _ Hs)) as Hrun. revert Hrun. unfold feed_engine, _now_ms, monotonic_ns.
  rewrite bind_run. cbn [modify]. rewrite !bind_run. cbn [get mret M_ret ag_readings with_readings with_client].
  set (a1 := with_readings _ _). rewrite bind_run. cbn [get]. pose proof (sd_idle _ _ Hs) as Hi. pose proof (lk_pong _ _ (ao_linked _ _ (sd_ok _ _ Hs))) as Hpong.
  change (cl_engine (ag_client a1)) with (cl_engine (ag_client a)). destruct (cl_engine (ag_client a)) as [p k] eqn:Ee. cbn [fst snd] in *.
  destruct (feed_idle p f (wi_clock w (ag_readings a) / 1000000) k Hi) as (k' & -> & Eb). rewrite <- Hpong. unfold delivered.
  rewrite bind_run. cbn [modify]. destruct (_ && _).
  - rewrite bind_run. cbn [mret M_ret]. rewrite bind_run. cbn [modify]. rewrite bind_run. cbn. intros [Hok _]. split; [done|].
    apply (advances_intro []); try done; cbn; rewrite ?Ee; try done.
    + rewrite app_nil_r, lastn_all; [done|]. by apply sd_history.
    + by rewrite app_nil_r.
  - rewrite bind_run. unfold _on_frame_c, monotonic_ns. rewrite bind_run. cbn beta iota. rewrite bind_run. cbn [modify].
    rewrite bind_run. cbn. intros [Hok _]. split; [done|].
    eapply (advances_intro [mkClientEvent _ (fm_type_id f) _ (fm_payload f)]); try done; cbn; rewrite ?Ee; done.
Qed.

(** *** The direct path *)

Lemma dispatch_advances buf pos t corr pe a : steady w a → 0 ≤ t < 2 ^ 16 → 0 ≤ corr < 2 ^ 64 →
  let '(a', r) := dispatch_direct w buf pos t corr pe a in
  r = Ok tt ∧ advances [(t, corr, slice (pos + 10) pe buf)] a a'.
Proof.
  intros Hs Ht Hc. pose proof (runs_dispatch w Hw buf pos t corr pe Ht Hc a (sd_ok _ _ Hs)) as Hrun. revert Hrun.
  unfold dispatch_direct, monotonic_ns. rewrite bind_run. cbn beta iota. rewrite bind_run. cbn [modify]. rewrite bind_run. cbn [get]. cbv zeta.
  rewrite (sd_full _ _ Hs). cbn [negb orb]. rewrite orb_true_r, bind_run. change HEADER_SIZE with 10%nat. set (ts := wi_clock w (ag_readings a)).
  set (a1 := with_last_frame _ _). set (payload := slice (pos + 10) pe buf). rewrite bind_run.
  destruct (negb (wi_evidence_budget_bytes w =? 0) && _ && _).
  - pose proof (append_runs _ ts t payload _ (wo_budget _ Hw) (ao_retention _ _ (sd_ok _ _ Hs))) as Hap.
    change (ag_retention a1) with (ag_retention a). destruct (_append_evidence _ ts t payload (ag_retention a)) as [r o]. destruct Hap as [_ ->].
    cbn. intros [Hok _]. split; [done|]. by eapply (advances_intro [mkClientEvent ts t corr payload]).
  - cbn. intros [Hok _]. split; [done|]. by eapply (advances_intro [mkClientEvent ts t corr payload]).
Qed.

(** *** One turn *)

Lemma consume_one_advances buf pos a : steady w a → (pos < length buf)%nat →
  let '(a', r) := consume_one w buf pos a in
  match snd (kith_proto_decode (fst (engine_of a)) (drop pos buf)) with
  | inr (f, n) => r = Ok (Some (pos + Z.to_nat n)%nat) ∧ advances (delivered w f) a a'
  | inl rc => r = (if rc =? - KITH_EAGAIN then Ok None else Err (KithClientError (- rc) [Lit "proto_decode"])) ∧ advances [] a a'
  end.
Proof.
  intros Hs Hpos. pose proof (runs_consume_one w Hw buf pos Hpos a (sd_ok _ _ Hs)) as Hrun. revert Hrun.
  pose proof (ao_linked _ _ (sd_ok _ _ Hs)) as Hl. unfold consume_one. rewrite bind_run. cbn [get]. rewrite bind_run. cbn [lift].
  destruct (match_total w a buf pos) as [m Hm]. rewrite Hm. destruct m as [[[[t corr] pe] fin]|].
  - destruct (match_decodes w a buf pos t corr pe fin Hl Hm) as (f & Hd & <- & <- & Hpl & Hpong & Hfin). rewrite Hd. cbn [snd].
    destruct (decode_same _ _ _ _ Hd) as (_ & _ & [Ht _ Hh Hc] & _). rewrite bind_run.
    pose proof (dispatch_advances buf pos (fm_type_id f) (if fm_has_correlation f then fm_correlation_id f else 0) pe a Hs Ht) as Hda.
    specialize (Hda ltac:(rewrite Hh; by destruct (correlated (fm_flags f)))). destruct (dispatch_direct w buf pos _ _ pe a) as [a' r].
    destruct Hda as [-> Hda]. intros _. cbn. split; [do 2 f_equal; lia|]. unfold delivered.
    rewrite Hpl. destruct Hpong as [->|Hne]; [done|]. by rewrite (proj2 (Z.eqb_neq _ _) Hne), andb_false_r.
  - destruct (cl_engine (ag_client a)) as [p k] eqn:Ee. cbn [fst snd]. pose proof (lk_buffer _ _ Hl) as [_ He]. rewrite Ee in He.
    destruct (kith_proto_decode p (drop pos buf)) as [p' x] eqn:Hd. destruct (decode_same _ _ _ _ Hd) as (E1 & E2 & Hx). cbn [snd].
    rewrite bind_run. cbn [modify]. set (a1 := with_engine (p', k) a).
    assert (advances [] a a1) as Ha1.
    { apply (advances_intro []); try done; cbn; rewrite ?Ee; try done.
      - apply client_ok_with; [|by apply sd_ok]. apply linked_engine; rewrite ?Ee; try done. by eapply native_codec.
      - rewrite app_nil_r, lastn_all; [done|]. by apply sd_history.
      - by rewrite app_nil_r. }
    destruct x as [rc|[f n]].
    + destruct (rc =? - KITH_EAGAIN); [done|]. rewrite bind_run. cbn [lift]. unfold check. rewrite (proj2 (Z.ltb_lt _ _) Hx). done.
    + destruct Hx as [Hf Hn]. rewrite bind_run. pose proof (feed_advances f a1 (ad_steady _ _ _ Ha1) Hf) as Hfe.
      destruct (feed_engine w f a1) as [a' r]. destruct Hfe as [-> Hfe]. intros _. cbn. split; [done|].
      by apply (advances_trans [] (delivered w f) a a1 a').
Qed.

(** *** The loop *)

Lemma consume_loop_advances fuel : ∀ buf pos a p, steady w a → codec_eq (fst (engine_of a)) p → (pos ≤ length buf)%nat → (length buf - pos < fuel)%nat →
  let '(a', pos', r) := consume_loop w fuel buf pos a in
  let '(fs, rest, bad) := parse p (drop pos buf) in
  advances (fs ≫= delivered w) a a' ∧ drop pos' buf = rest ∧
  match r with Ok _ => bad = false | Err e => bad = true ∧ engine_error e end.
Proof.
  induction fuel as [|fuel IH]; intros buf pos a p Hs Hp Hpos Hf; [lia|]. cbn [consume_loop]. rewrite (sd_running _ _ Hs). cbn [andb].
  rewrite parse_unfold. destruct (Nat.ltb_spec pos (length buf)) as [Hlt|Hge]; cbn [negb].
  2: { rewrite bool_decide_eq_true_2 by (by apply drop_ge). split; [by apply advances_refl|]. split; [by apply drop_ge|done]. }
  rewrite bool_decide_eq_false_2 by (intros E%(f_equal length); rewrite length_drop in E; cbn in E; lia).
  pose proof (consume_one_advances buf pos a Hs Hlt) as Hone. rewrite <- (decode_codec _ _ (drop pos buf) Hp).
  destruct (consume_one w buf pos a) as [a1 r]. destruct (snd (kith_proto_decode _ (drop pos buf))) as [rc|[f n]] eqn:Ed.
  - destruct Hone as [-> Ha1]. destruct (rc =? - KITH_EAGAIN); [done|]. split; [done|]. split; [done|]. split; [done|]. by eexists _, _.
  - destruct Hone as [-> Ha1]. pose proof (decode_frame_size _ _ _ _ Ed) as Hn. unfold zlen in Hn. rewrite length_drop in Hn.
    assert (codec_eq (fst (engine_of a1)) p) as Hp1 by (destruct (ad_codec _ _ _ Ha1), Hp; split; congruence).
    specialize (IH buf (pos + Z.to_nat n)%nat a1 p (ad_steady _ _ _ Ha1) Hp1 ltac:(lia) ltac:(lia)).
    destruct (consume_loop w fuel buf (pos + Z.to_nat n) a1) as [[a2 pos2] r]. rewrite drop_drop.
    destruct (parse p (drop (pos + Z.to_nat n) buf)) as [[fs rest] bad]. destruct IH as (Ha2 & Hrest & Hr).
    split; [|done]. cbn [mbind list_bind]. by eapply advances_trans.
Qed.

(** *** A read *)

Lemma push_only e a : event_ok e → ∃ sse ipc, push_event e a = (with_peers sse ipc a, Ok tt).
Proof.
  intros He. unfold push_event. rewrite bind_run. cbn [get]. destruct (negb _); [exists (ag_sse_writers a), (ag_ipc_peers a); by destruct a|].
  destruct (event_line_ok e He) as (s & -> & Hs). rewrite bind_run. cbn [lift]. unfold encode_utf8.
  rewrite (proj1 (utf8_ascii s Hs)), bind_run. cbn. by eexists _, _.
Qed.

Lemma pushes_only es : Forall event_ok es → ∀ a, ∃ sse ipc, for_each es push_event a = (with_peers sse ipc a, Ok tt).
Proof.
  induction 1 as [|e es He _ IH]; intros a; cbn [for_each]; [exists (ag_sse_writers a), (ag_ipc_peers a); by destruct a|].
  destruct (push_only e a He) as (s1 & i1 & E1). rewrite bind_run, E1. destruct (IH (with_peers s1 i1 a)) as (s2 & i2 & ->). by exists s2, i2.
Qed.

(** [a'] has the events of the given keys in its history, nothing to push and
    [rest] in its buffer. *)
Record received (ks : list (Z * Z * bytes)) (rest : bytes) (a a' : agent) : Prop := {
  rc_steady : steady w a';
  rc_history : key_of <$> ag_event_history a' = lastn (wi_event_history_size w) ((key_of <$> ag_event_history a) ++ ks);
  rc_pending : ag_pending_push a' = [];
  rc_inbuf : ag_inbuf a' = rest;
  rc_codec : codec_eq (fst (engine_of a')) (fst (engine_of a));
}.

(** Changes of the client that keep its engine's codec and bootstrap. *)
Lemma received_client ks rest a a' c : received ks rest a a' → linked w c → keeps (ag_client a') c → received ks rest a (with_client c a').
Proof.
  intros [[Hok Hr Hi Hf Hh] ? ? ? [C1 C2]] Hc [K1 _ K2 _ _ K3]. split; try done.
  - split; [by apply client_ok_with|cbn; congruence|cbn; by rewrite K2|done|done].
  - split; cbn; rewrite K1; done.
Qed.

Lemma consume_all_received a p : steady w a → codec_eq (fst (engine_of a)) p →
  let '(a', r) := consume_all w a in
  let '(fs, rest, bad) := parse p (ag_inbuf a) in
  received (fs ≫= delivered w) rest a a' ∧ match r with Ok _ => bad = false | Err e => bad = true ∧ engine_error e end.
Proof.
  intros Hs Hp. unfold consume_all.
  pose proof (consume_loop_advances (S (length (ag_inbuf a))) (ag_inbuf a) 0 a p Hs Hp ltac:(lia) ltac:(lia)) as Hl. rewrite drop_0 in Hl.
  destruct (consume_loop w _ (ag_inbuf a) 0 a) as [[a1 pos] r]. destruct (parse p (ag_inbuf a)) as [[fs rest] bad].
  destruct Hl as ([[[Hk Hret Hpe] Hr Hi Hf Hh] H1 H2 H3 H4] & Hrest & Hres). rewrite H3. unfold _flush_pushes. rewrite bind_run. cbn [get].
  rewrite bind_run. cbn [modify]. change (ag_pending_push (with_inbuf _ a1)) with (ag_pending_push a1).
  match goal with |- context [for_each _ push_event ?b] => destruct (pushes_only (ag_pending_push a1) Hpe b) as (s & i & ->) end.
  split; [|by destruct r]. split; try done.
Qed.

Lemma poll_received a : steady w a → ∃ b, _poll_direct_ready a = (with_direct_ready b a, Ok tt).
Proof.
  intros Hs. unfold _poll_direct_ready. rewrite bind_run. cbn [get ClientCore.kith_client_bootstrap_status].
  destruct (_ && _); [by exists true|]. exists (ag_direct_ready a). by destruct a.
Qed.

Lemma socket_data_received data a p : steady w a → codec_eq (fst (engine_of a)) p →
  let '(a', r) := _on_socket_data w data a in
  let '(fs, rest, bad) := parse p (ag_inbuf a ++ data) in
  received (fs ≫= delivered w) rest a a' ∧ match r with Ok _ => bad = false | Err e => bad = true ∧ engine_error e end.
Proof.
  intros Hs Hp. unfold _on_socket_data, _consume_inbound. rewrite bind_run. cbn [modify]. set (a0 := with_inbuf _ a).
  assert (steady w a0) as Hs0 by (by destruct Hs as [[] ? ? ? ?]). rewrite bind_run, bind_run. cbn [get]. rewrite bind_run.
  set (m := if _ && _ then _ else _). assert (∃ b, m a0 = (with_direct_ready b a0, Ok tt)) as [b ->].
  { unfold m. destruct (_ && _); [by apply poll_received|]. exists (ag_direct_ready a0). by destruct a0. }
  set (a1 := with_direct_ready b a0). assert (steady w a1) as Hs1 by (by destruct Hs0 as [[] ? ? ? ?]).
  pose proof (consume_all_received a1 p Hs1 Hp) as Hc. destruct (consume_all w a1) as [a2 [u|e]].
  2: { cbn [ag_inbuf a1 a0 with_inbuf with_direct_ready] in *. destruct (parse p (ag_inbuf a ++ data)) as [[fs rest] bad]. destruct Hc as [[] ?]. by split. }
  change (ag_inbuf a1) with (ag_inbuf a ++ data) in Hc. destruct (parse p (ag_inbuf a ++ data)) as [[fs rest] bad]. destruct Hc as [Hrec Hbad].
  rewrite bind_run. cbn [get]. assert (received (fs ≫= delivered w) rest a a2) as Hrec' by (by destruct Hrec).
  destruct (negb (cl_outbound_empty (ag_client a2))); [|cbn [mret M_ret]; split; done].
  unfold on_client. pose proof (ao_linked _ _ (sd_ok _ _ (rc_steady _ _ _ _ Hrec'))) as Hl.
  pose proof (request_flush_keeps (wi_setup w) (ag_client a2) (lk_buffer _ _ Hl) (lk_fits _ _ Hl)) as Hfl.
  destruct (_request_flush (wi_setup w) (ag_client a2)) as [c' r]. destruct Hfl as (Hb & Hk & ->). split; [|done].
  apply received_client; [done| |done]. by eapply linked_keeps.
Qed.

(** ** All reads *)

Lemma parse_rest p buf fs rest : parse p buf = (fs, rest, false) → parse p rest = ([], rest, false).
Proof.
  remember (length buf) as n eqn:Hn. revert buf fs Hn. induction n as [n IH] using lt_wf_ind. intros buf fs ->.
  rewrite (parse_unfold p buf). case_bool_decide as Hb; [by intros [= <- <-]|].
  destruct (snd (kith_proto_decode p buf)) as [rc|[f m]] eqn:Ed.
  - destruct (rc =? - KITH_EAGAIN) eqn:Er; [|done]. intros [= <- <-]. by rewrite parse_unfold, bool_decide_eq_false_2, Ed, Er by done.
  - pose proof (decode_frame_size _ _ _ _ Ed) as Hm. unfold zlen in Hm. destruct (parse p (drop (Z.to_nat m) buf)) as [[fs' rest'] bad] eqn:Ep.
    intros [= <- <- ->]. eapply (IH (length (drop (Z.to_nat m) buf))); [rewrite length_drop; lia|done|done].
Qed.

Lemma receive_all_received p : pr_max_payload p ≤ UINT32_MAX → ∀ chunks a, steady w a → codec_eq (fst (engine_of a)) p →
  ag_pending_push a = [] → parse p (ag_inbuf a) = ([], ag_inbuf a, false) →
  let '(a', r) := receive_all w chunks a in
  let '(fs, rest, bad) := parse p (ag_inbuf a ++ concat chunks) in
  steady w a' ∧ key_of <$> ag_event_history a' = lastn (wi_event_history_size w) ((key_of <$> ag_event_history a) ++ (fs ≫= delivered w)) ∧
  ag_pending_push a' = [] ∧ match r with Ok _ => bad = false ∧ ag_inbuf a' = rest | Err e => bad = true ∧ engine_error e end.
Proof.
  intros Hp. induction chunks as [|d chunks IH]; intros a Hs Hc Hpe Hin; cbn [receive_all concat].
  { rewrite app_nil_r, Hin. cbn. rewrite app_nil_r, lastn_all; [done|]. rewrite length_fmap. by apply sd_history. }
  rewrite bind_run. pose proof (socket_data_received d a p Hs Hc) as Hd. rewrite app_assoc, (parse_app p _ _ Hp).
  destruct (_on_socket_data w d a) as [a1 r]. destruct (parse p (ag_inbuf a ++ d)) as [[fs rest] bad] eqn:Ep.
  destruct Hd as [[Hs1 Hh1 Hpe1 Hin1 [C1 C2]] Hr]. destruct r as [u|e]; [|by destruct Hr as [-> ?]]. subst bad.
  assert (codec_eq (fst (engine_of a1)) p) as Hc1 by (destruct Hc; split; congruence).
  specialize (IH a1 Hs1 Hc1 Hpe1 ltac:(rewrite Hin1; by eapply parse_rest)). rewrite Hin1 in IH.
  destruct (receive_all w chunks a1) as [a2 r]. destruct (parse p (rest ++ concat chunks)) as [[fs2 rest2] bad2].
  destruct IH as (Hs2 & Hh2 & Hpe2 & Hr2). split; [done|]. split; [|done]. by rewrite Hh2, Hh1, lastn_lastn, <- app_assoc, bind_app.
Qed.
End Stream.

(** C3: However a stream is cut into reads, the client's event history holds
    exactly the events of the stream's frames as the protocol's decoder alone
    delivers them, in order and up to the history's size, although frames of
    the direct types are read without the decoder; an incomplete tail stays in
    the buffer, and a call raises exactly when the stream holds a frame the
    decoder rejects. (Full mode, with no bootstrap under way.) *)
Theorem inbound_stream_exact w chunks a : wiring_ok w → steady w a → ag_pending_push a = [] → ag_inbuf a = [] →
  let '(a', r) := receive_all w chunks a in
  let '(fs, rest, bad) := parse (fst (engine_of a)) (concat chunks) in
  steady w a' ∧ key_of <$> ag_event_history a' = lastn (wi_event_history_size w) ((key_of <$> ag_event_history a) ++ (fs ≫= delivered w)) ∧
  ag_pending_push a' = [] ∧
  match r with Ok _ => bad = false ∧ ag_inbuf a' = rest | Err e => bad = true ∧ engine_error e end.
Proof.
  intros Hw Hs Hpe Hin. pose proof (lk_buffer _ _ (ao_linked _ _ (sd_ok _ _ Hs))) as [_ He].
  pose proof (receive_all_received w Hw (fst (engine_of a)) ltac:(pose proof (no_limit _ He); lia) chunks a Hs ltac:(done) Hpe) as H.
  rewrite Hin in H. by apply H.
Qed.
