(* ===== verification/Scheduling.v ===== *)
(** * Shared tick and probe scheduling ([python/kith/_agent/_scheduling.py])

    One task per cadence ticks its clients; one task probes all connections.
    A client is its index in the process; the registries' locks serialise their
    changes. *)

From S2P Require Import Prelude Outcome PyStruct PyText PyFloat PyJson PyWire PyArith Correlator Proto ProtoTheorems ClientRing ClientCore ClientTheorems AgentControl AgentTheorems AgentEngine Evidence EvidenceTheorems AgentInbound AgentInboundTheorems.

#[local] Open Scope Z_scope.

(** The process's clients, and what each was constructed with. *)
Abbreviation fleet := (gmap nat (wiring * agent)).

(** ** [ClientTicker] *)

Section Ticker.
Context {K : Type} `{Countable K}.

(** [tk_tasks] holds the cadences whose task runs. *)
Record ClientTicker := mkTicker {
  tk_buckets : gmap K (list nat);
  tk_tasks : gset K;
  tk_cursors : gmap K Z;
}.

Definition new_ticker : ClientTicker := mkTicker ∅ ∅ ∅.

(** A task that is done is started again: it is not in [tk_tasks]. *)
Definition ticker_register (interval : K) (client : nat) (t : ClientTicker) : ClientTicker :=
  mkTicker (<[interval := default [] (tk_buckets t !! interval) ++ [client]]> (tk_buckets t)) ({[interval]} ∪ tk_tasks t) (tk_cursors t).

(** [list.remove]: the first occurrence, if any. *)
Fixpoint list_remove (x : nat) (l : list nat) : list nat :=
  match l with [] => [] | y :: l => if decide (x = y) then l else y :: list_remove x l end.

Definition ticker_unregister (interval : K) (client : nat) (t : ClientTicker) : ClientTicker :=
  match tk_buckets t !! interval with
  | Some bucket => mkTicker (<[interval := list_remove client bucket]> (tk_buckets t)) (tk_tasks t) (tk_cursors t)
  | None => t
  end.

(** The clients one turn of [_run] ticks, in order. *)
Definition ticker_fire (interval : K) (t : ClientTicker) : ClientTicker * list nat :=
  let bucket := default [] (tk_buckets t !! interval) in
  let cursor := default 0 (tk_cursors t !! interval) in
  let t := mkTicker (tk_buckets t) (tk_tasks t) (<[interval := cursor + 1]> (tk_cursors t)) in
  if bool_decide (bucket = []) then (t, []) else
  let start := Z.to_nat (cursor mod zlen bucket) in
  (t, drop start bucket ++ take start bucket).

(** Turns one after the other. *)
Fixpoint ticker_fires (n : nat) (interval : K) (t : ClientTicker) : list (list nat) :=
  match n with O => [] | S n => let '(t, order) := ticker_fire interval t in order :: ticker_fires n interval t end.
End Ticker.
Arguments ClientTicker K {_ _}.

(** [client.tick_engine()] *)
Definition tick_client (client : nat) : M fleet unit := λ f,
  match f !! client with
  | None => (f, Ok tt)
  | Some (w, a) => let '(a, r) := tick_engine w a in (<[client := (w, a)]> f, r)
  end.

Definition tick_all (order : list nat) : M fleet unit := for_each order tick_client.

(** ** [OutboundSweeper] *)

Record OutboundSweeper := mkSweeper { sw_clients : gset nat; sw_task : bool }.

Definition sweeper_register (client : nat) (s : OutboundSweeper) : OutboundSweeper := mkSweeper ({[client]} ∪ sw_clients s) true.
Definition sweeper_unregister (client : nat) (s : OutboundSweeper) : OutboundSweeper := mkSweeper (sw_clients s ∖ {[client]}) (sw_task s).

Definition probe_client (client : nat) : M fleet unit := λ f,
  match f !! client with
  | None => (f, Ok tt)
  | Some (w, a) => let '(a, r) := probe_stalled_outbound w a in (<[client := (w, a)]> f, r)
  end.

(** One turn of [_run], in some order of the set. *)
Definition sweep (s : OutboundSweeper) : M fleet unit := for_each (elements (sw_clients s)) probe_client.

(** ** Ticks and probes do not raise *)

Section Ticks.
Context (w : wiring) (Hw : wiring_ok w).

(** Sharper than [runs]: no exception at all. *)
Definition surely {A} (m : M agent A) : Prop := ∀ a, agent_ok w a → agent_ok w (fst (m a)) ∧ ∃ x, snd (m a) = Ok x.

Lemma surely_bind {A B} (m : M agent B) (k : B → M agent A) : surely m → (∀ x, surely (k x)) → surely (m ≫= k).
Proof. intros Hm Hk a Ha. destruct (Hm a Ha) as [Ha' [x Hx]]. rewrite bind_run. destruct (m a) as [a' r]. cbn in *. subst r. by apply Hk. Qed.

Lemma surely_get {A} (k : agent → M agent A) : (∀ a, agent_ok w a → agent_ok w (fst (k a a)) ∧ ∃ x, snd (k a a) = Ok x) → surely (get ≫= k).
Proof. intros Hk a Ha. rewrite bind_run. cbn [get]. by apply Hk. Qed.

Lemma surely_ret {A} (x : A) : surely (mret x).
Proof. intros a Ha. split; [done|by eexists]. Qed.

Lemma surely_modify f : (∀ a, agent_ok w a → agent_ok w (f a)) → surely (modify f).
Proof. intros Hf a Ha. split; [by apply Hf|by eexists]. Qed.

Lemma surely_now : surely (_now_ms w).
Proof. intros a [? ? ?]. split; [by split|]. by eexists. Qed.

Lemma surely_flush : surely (on_client (_request_flush (wi_setup w))).
Proof.
  intros a Ha. pose proof (runs_flush w a Ha) as Hr. unfold on_client in *. pose proof (ao_linked _ _ Ha) as Hl.
  pose proof (request_flush_keeps (wi_setup w) (ag_client a) (lk_buffer _ _ Hl) (lk_fits _ _ Hl)) as Hf.
  destruct (_request_flush (wi_setup w) (ag_client a)) as [c' r]. destruct Hf as (_ & _ & ->). split; [apply Hr|by eexists].
Qed.

Lemma surely_staleness : surely (_check_pong_staleness w).
Proof.
  unfold _check_pong_staleness. destruct (_ <=? 0); [apply surely_ret|]. apply surely_get. intros a Ha. cbn.
  set (last := ln_last_ping_sent_ms _). clearbody last. destruct (negb _ || _); [by split; [|eexists]|]. revert a Ha.
  apply surely_bind; [apply surely_now|]. intros now. destruct (_ <=? _); [apply surely_ret|].
  apply surely_modify. intros a Ha. apply client_ok_with; [|done]. by destruct (ao_linked _ _ Ha).
Qed.

Lemma surely_tick : surely (tick_engine w).
Proof.
  apply surely_get. intros a Ha. destruct (negb _); [by split; [|eexists]|]. revert a Ha.
  apply surely_bind; [apply surely_modify; intros a Ha; apply client_ok_with; [|done]; by apply linked_flag, ao_linked|]. intros _.
  apply surely_bind; [apply surely_now|]. intros now. apply surely_get. intros a Ha. pose proof (ao_linked _ _ Ha) as Hl.
  pose proof (lk_buffer _ _ Hl) as [_ He]. destruct (cl_engine (ag_client a)) as [p k] eqn:Ee.
  destruct (tick_keeps p now k He) as [Hn [Hp _]]. destruct (kith_client_tick p now k) as [k' rc]. cbn [fst] in *.
  rewrite bind_run. cbn [modify]. assert (agent_ok w (with_engine (p, k') a)) as Ha'.
  { apply client_ok_with; [|done]. apply linked_engine; rewrite ?Ee; done. }
  revert Ha'. generalize (with_engine (p, k') a). apply surely_bind; [apply surely_staleness|]. intros _. apply surely_flush.
Qed.
End Ticks.

(** ** The shared ticker *)

Definition fleet_ok (f : fleet) : Prop := ∀ c w a, f !! c = Some (w, a) → wiring_ok w ∧ agent_ok w a.

Lemma fleet_insert c w a f : fleet_ok f → wiring_ok w → agent_ok w a → fleet_ok (<[c := (w, a)]> f).
Proof.
  intros Hf Hw Ha c' w' a'. destruct (decide (c = c')) as [<-|Hne].
  - rewrite lookup_insert_eq. by intros [= <- <-].
  - rewrite lookup_insert_ne by done. apply Hf.
Qed.

Lemma tick_client_ok c w a f : fleet_ok f → f !! c = Some (w, a) →
  tick_client c f = (<[c := (w, fst (tick_engine w a))]> f, Ok tt) ∧ fleet_ok (<[c := (w, fst (tick_engine w a))]> f).
Proof.
  intros Hf Hc. destruct (Hf c w a Hc) as [Hw Ha]. destruct (surely_tick w a Ha) as [Ha' [[] Hx]]. unfold tick_client. rewrite Hc.
  destruct (tick_engine w a) as [a' r]. cbn in *. subst r. split; [done|]. by apply fleet_insert.
Qed.

(** The state of a client once those of [l] are ticked. *)
Lemma tick_all_ok l : NoDup l → ∀ f, fleet_ok f → (∀ c, c ∈ l → is_Some (f !! c)) →
  let '(f', r) := tick_all l f in r = Ok tt ∧ fleet_ok f' ∧
  ∀ c w a, f !! c = Some (w, a) → f' !! c = Some (w, if decide (c ∈ l) then fst (tick_engine w a) else a).
Proof.
  unfold tick_all. induction 1 as [|x l Hx _ IH]; intros f Hf Hin; cbn [for_each].
  { split; [done|]. split; [done|]. intros c w a Hc. by rewrite decide_False by apply not_elem_of_nil. }
  destruct (Hin x ltac:(left)) as [[wx ax] Hxa]. destruct (tick_client_ok x wx ax f Hf Hxa) as [E Hf1]. rewrite bind_run, E.
  set (f1 := <[x := _]> f) in *. specialize (IH f1 Hf1).
  assert (∀ c, c ∈ l → is_Some (f1 !! c)) as Hin1.
  { intros c Hc. unfold f1. destruct (decide (x = c)) as [<-|]; [by rewrite lookup_insert_eq|]. rewrite lookup_insert_ne by done. apply Hin. by right. }
  specialize (IH Hin1). destruct (for_each l tick_client f1) as [f' r]. destruct IH as (-> & Hf' & Hl). split; [done|]. split; [done|].
  intros c w a Hc. destruct (decide (c = x)) as [->|Hne].
  - rewrite Hxa in Hc. injection Hc as <- <-. rewrite (Hl x wx (fst (tick_engine wx ax))) by apply lookup_insert_eq.
    by rewrite decide_False, decide_True by (done || left).
  - rewrite (Hl c w a) by (unfold f1; by rewrite lookup_insert_ne). by destruct (decide (c ∈ l)), (decide (c ∈ x :: l)); set_solver.
Qed.

Section TickerTheorems.
Context {K : Type} `{Countable K}.

Definition bucket_of (interval : K) (t : ClientTicker K) : list nat := default [] (tk_buckets t !! interval).
Definition cursor_of (interval : K) (t : ClientTicker K) : Z := default 0 (tk_cursors t !! interval).

Lemma fire_spec interval t : let '(t', order) := ticker_fire interval t in
  bucket_of interval t' = bucket_of interval t ∧ cursor_of interval t' = cursor_of interval t + 1 ∧
  order = rotate (Z.to_nat (cursor_of interval t mod zlen (bucket_of interval t))) (bucket_of interval t).
Proof.
  unfold ticker_fire. fold (bucket_of interval t) (cursor_of interval t). set (b := bucket_of interval t). set (n := cursor_of interval t).
  case_bool_decide as Hb.
  - rewrite Hb. unfold bucket_of, cursor_of. cbn. rewrite lookup_insert_eq. split; [done|]. split; [done|]. unfold rotate. by rewrite drop_nil, take_nil.
  - unfold bucket_of, cursor_of. cbn [tk_buckets tk_cursors]. rewrite lookup_insert_eq. split; [done|]. split; [done|]. unfold rotate.
    rewrite Nat.mod_small; [done|]. destruct b as [|x b]; [done|]. pose proof (Z.mod_pos_bound n (zlen (x :: b))). unfold zlen in *. cbn [length] in *. lia.
Qed.

(** The first clients of consecutive turns. *)
Lemma fires_heads interval n : ∀ t, bucket_of interval t ≠ [] →
  omap head (ticker_fires n interval t) =
  (λ i, nth (Z.to_nat ((cursor_of interval t + Z.of_nat i) mod zlen (bucket_of interval t))) (bucket_of interval t) 0%nat) <$> seq 0 n.
Proof.
  induction n as [|n IH]; intros t Hb; [done|]. cbn [ticker_fires]. pose proof (fire_spec interval t) as Hf.
  destruct (ticker_fire interval t) as [t' order]. destruct Hf as (Hbk & Hcu & ->). cbn [seq fmap list_fmap].
  set (b := bucket_of interval t) in *. assert (0 < zlen b) as Hl by (destruct b; [done|unfold zlen; cbn; lia]).
  pose proof (Z.mod_pos_bound (cursor_of interval t) (zlen b) Hl) as Hm.
  assert (head (rotate (Z.to_nat (cursor_of interval t mod zlen b)) b) = Some (nth (Z.to_nat (cursor_of interval t mod zlen b)) b 0%nat)) as Hh.
  { unfold rotate. rewrite Nat.mod_small by (unfold zlen in *; lia). rewrite head_lookup, lookup_app_l by (rewrite length_drop; unfold zlen in *; lia).
    rewrite lookup_drop, Nat.add_0_r. rewrite nth_lookup.
    destruct (b !! _) eqn:E; [done|]. apply lookup_ge_None in E. unfold zlen in *. lia. }
  cbn [omap list_omap]. rewrite Hh. rewrite Z.add_0_r. f_equal. rewrite (IH t') by (by rewrite Hbk). rewrite Hbk, Hcu, <- fmap_S_seq, <- list_fmap_compose.
  apply list_fmap_ext. intros _ i _. cbn. do 3 f_equal. lia.
Qed.

Lemma rotate_perm {A} n (l : list A) : rotate n l ≡ₚ l.
Proof. unfold rotate. rewrite Permutation_app_comm. by rewrite take_drop. Qed.

Lemma rotated (b : list nat) k : 0 ≤ k < zlen b → (λ i, nth (Z.to_nat ((k + Z.of_nat i) mod zlen b)) b 0%nat) <$> seq 0 (length b) = rotate (Z.to_nat k) b.
Proof.
  intros Hk. unfold rotate, zlen in *. rewrite Nat.mod_small by lia. assert (∃ m, k = Z.of_nat m) as [m ->] by (exists (Z.to_nat k); lia). rewrite Nat2Z.id.
  rewrite <- (take_drop (length b - m) (seq 0 (length b))), fmap_app. rewrite take_seq, drop_seq.
  replace ((length b - m) `min` length b)%nat with (length b - m)%nat by lia. replace (length b - (length b - m))%nat with m by lia. f_equal.
  - apply list_eq. intros i. rewrite list_lookup_fmap, lookup_drop. destruct (decide (i < length b - m)%nat) as [Hi|Hi].
    + rewrite lookup_seq_lt by lia. cbn [fmap option_fmap option_map]. rewrite Z.mod_small by lia. rewrite nth_lookup.
      replace (Z.to_nat (Z.of_nat m + Z.of_nat (0 + i))) with (m + i)%nat by lia.
      destruct (b !! (m + i)%nat) eqn:E; [done|]. apply lookup_ge_None in E. lia.
    + rewrite lookup_seq_ge by lia. cbn. symmetry. apply lookup_ge_None. lia.
  - apply list_eq. intros i. rewrite list_lookup_fmap. destruct (decide (i < m)%nat) as [Hi|Hi].
    + rewrite lookup_seq_lt, lookup_take_lt by lia. cbn [fmap option_fmap option_map]. rewrite nth_lookup.
      replace (Z.to_nat ((Z.of_nat m + Z.of_nat (0 + (length b - m) + i)) mod Z.of_nat (length b))) with i.
      2: { replace (Z.of_nat m + Z.of_nat (0 + (length b - m) + i)) with (Z.of_nat i + 1 * Z.of_nat (length b)) by lia.
           rewrite Z.mod_add, Z.mod_small by lia. lia. }
      destruct (b !! i) eqn:E; [done|]. apply lookup_ge_None in E. lia.
    + rewrite lookup_seq_ge, lookup_take_ge by lia. done.
Qed.

(** One fire of the shared ticker ticks every registered client of the
    interval exactly once and changes no other client, raises nothing whatever
    the engines answer, and leaves all clients consistent; over as many fires
    as there are clients, each of them is the first exactly once. *)
Theorem shared_ticker_fair interval (t : ClientTicker K) (f : fleet) :
  NoDup (bucket_of interval t) → fleet_ok f → (∀ c, c ∈ bucket_of interval t → is_Some (f !! c)) →
  let '(t', order) := ticker_fire interval t in
  let '(f', r) := tick_all order f in
  order ≡ₚ bucket_of interval t ∧ r = Ok tt ∧ fleet_ok f' ∧
  (∀ c w a, f !! c = Some (w, a) → f' !! c = Some (w, if decide (c ∈ bucket_of interval t) then fst (tick_engine w a) else a)) ∧
  omap head (ticker_fires (length (bucket_of interval t)) interval t) ≡ₚ bucket_of interval t.
Proof.
  intros Hnd Hf Hin. pose proof (fire_spec interval t) as Hfire. destruct (ticker_fire interval t) as [t' order]. destruct Hfire as (_ & _ & ->).
  set (b := bucket_of interval t) in *. set (k := Z.to_nat _). pose proof (rotate_perm k b) as Hperm.
  pose proof (tick_all_ok (rotate k b) ltac:(by rewrite Hperm) f Hf ltac:(intros c; rewrite Hperm; apply Hin)) as Ht.
  destruct (tick_all (rotate k b) f) as [f' r]. destruct Ht as (-> & Hf' & Hl). split; [done|]. split; [done|]. split; [done|]. split.
  - intros c w a Hc. rewrite (Hl c w a Hc). by destruct (decide (c ∈ rotate k b)) as [Hi|Hi], (decide (c ∈ b)) as [Hi'|Hi']; rewrite Hperm in Hi.
  - destruct (decide (b = [])) as [->|Hb]; [done|]. rewrite fires_heads by done. fold b.
    assert (0 < zlen b) as Hpos by (destruct b; [done|unfold zlen; cbn; lia]).
    pose proof (Z.mod_pos_bound (cursor_of interval t) (zlen b) Hpos) as Hm.
    rewrite <- (rotate_perm (Z.to_nat (cursor_of interval t mod zlen b)) b) at 2. rewrite <- rotated by done.
    assert (((λ i, nth (Z.to_nat ((cursor_of interval t + Z.of_nat i) mod zlen b)) b 0%nat) <$> seq 0 (length b)) =
      ((λ i, nth (Z.to_nat ((cursor_of interval t mod zlen b + Z.of_nat i) mod zlen b)) b 0%nat) <$> seq 0 (length b))) as ->; [|done].
    apply list_fmap_ext. intros _ i _. by rewrite Zplus_mod_idemp_l.
Qed.
End TickerTheorems.
