(* ===== verification/ConnectionExamples.v ===== *)
(** * Worked examples of the agents and their connections

    Concrete runs, and the theorems of the agent's control interface, of its
    engine and of its connections applied at them. *)

From S2P Require Import Prelude Outcome PyStruct PyText PyFloat PyJson PyWire PyArith Correlator Proto ProtoTheorems ClientRing ClientCore ClientTheorems AgentControl AgentTheorems AgentEngine Evidence EvidenceTheorems AgentInbound AgentInboundTheorems AgentStream Scheduling.

#[local] Open Scope Z_scope.

(** Frames wait in order; ids count the submissions. *)
#[local] Instance queue_engine : ClientEngine := {|
  engine := list bytes * Z;
  queued e := length (fst e);
  kith_client_submit_interactive t f k payload e := ((fst e ++ [payload], snd e + 1), (0, snd e));
  kith_client_pop_outbound cap e :=
    match fst e with
    | [] => (e, (- KITH_EAGAIN, []))
    | frame :: frames => if cap <? zlen frame then (e, (- KITH_EOVERFLOW, [])) else ((frames, snd e), (0, frame))
    end;
  kith_proto_register_type_id name t e := (e, if decide (name = []) then -1 else 0);
  kith_client_bootstrap_status e := (0, (0, 0, 0));
  kith_client_runtime_status e := (0, (true, 0, 0));
|}.

#[local] Instance queue_engine_laws : ClientEngineLaws queue_engine.
Proof.
  refine {| engine_ok := λ _, True |}; try done. intros cap [[|f fs] n] e' rc frame _; cbn; unfold KITH_EAGAIN, KITH_EOVERFLOW;
    try destruct (cap <? zlen f); intros [= <- <- _]; cbn; split; done || lia.
Defined.

Definition agent_setup : setup :=
  mkSetup (str "a1") 64 false None [mkClientEvent 5 1 0 []; mkClientEvent 6 2 0 [x0f]; mkClientEvent 7 1 9 []]
    (λ ws, zlen (concat ws)) (λ _, []).

(** Connected, with room for two bytes. *)
Definition ipc_agent : client :=
  mkClient true true true false false ∅ ∅ (Some (mkTransport [] false)) true 2 ([], 1).

Definition text (s : string) : bytes := default [] (utf8_encode (str s)).
Definition no_reset : list reply → result unit := λ _, Ok tt.

(** Two requests in three chunks, cut within a word and within a number. *)
Definition obj (fields : list (string * jval)) : jval := JObj ((λ p, (str (fst p), snd p)) <$> fields).
Definition submit_request : jval :=
  obj [("id", JInt 4); ("cmd", JStr (str "submit")); ("type_id", JInt 70000); ("payload_hex", JStr (str "0a 0B0c"))].
Definition line_of (v : jval) : bytes := match dumps v with Ok s => default [] (utf8_encode s) | Err _ => [] end ++ [x0a].
Definition requests : bytes := line_of submit_request ++ line_of (obj [("cmd", JStr (str "shutdown"))]).
Definition request_chunks : list bytes := [take 20 requests; take 40 (drop 20 requests); drop 60 requests].

(** The frame grows the buffer and reaches the transport. *)
Lemma submit_sends :
  (let '(c, replies, r) := ipc_handle_peer agent_setup no_reset request_chunks ipc_agent in
   (replies, r, cl_running c, cl_out_cap c, tr_written <$> cl_transport c)) =
  ([ack (JInt 4) "ok" [(str "cmd_id", Json (JInt 1))]; ack JNull "ok" []], Ok tt, false, 4, Some [[x0a; x0b; x0c]]).
Proof. vm_compute. reflexivity. Qed.

(** The reader of the query string drops the first digit of the count. *)
Lemma count_loses_digit :
  snd (_http_route agent_setup (str "GET") (str "/events?count=12") [] ipc_agent) =
    Ok (Respond 200 (BJson (JArr (event_to_dict <$> recent_events agent_setup 2)))) ∧
  snd (_http_route agent_setup (str "GET") (str "/events?count=2") [] ipc_agent) = Err bad_int.
Proof. vm_compute. done. Qed.

(** A count of zero asks for the whole history. *)
Lemma zero_is_all : recent_events agent_setup 0 = su_event_history agent_setup.
Proof. reflexivity. Qed.

Lemma ipc_framing_witness : ∃ done rest, (lines_of (concat request_chunks)).1 = done ++ rest ∧
  ipc_handle_peer agent_setup no_reset request_chunks ipc_agent = serve_lines agent_setup no_reset done ipc_agent ∧
  (rest = [] ∨ cl_running (ipc_handle_peer agent_setup no_reset request_chunks ipc_agent).1.1 = false).
Proof. apply ipc_framing. repeat constructor; discriminate. Defined.

Definition endless_request : jval := obj [("cmd", JStr (str "recent_events")); ("count", JFloat (DInf false))].

(** An infinite count ends the connection. *)
Lemma infinite_escapes : snd (_dispatch_ipc agent_setup endless_request ipc_agent) = Err OverflowError.
Proof. vm_compute. reflexivity. Qed.

Lemma dispatch_outcome_witness :
  let '(c', r) := _dispatch_ipc agent_setup submit_request ipc_agent in buffer_ok c' ∧
  match submit_request, r with
  | JObj fields, Ok resp => (str "id", Json (get_or "id" JNull fields)) ∈ resp
  | JObj fields, Err e => e = OverflowError ∧ carries_infinite fields
  | _, r => r = Err AttributeError
  end.
Proof. apply (dispatch_outcome agent_setup submit_request ipc_agent). done. Defined.

(** ** The codec *)

Definition name_of (s : string) : bytes := default [] (PyText.utf8_encode (str s)).

(** Types 5, 6 (pings) and 7 (pongs), payloads of at most 64 bytes. *)
Definition codec : proto :=
  fst (Proto.kith_proto_register_type_id (name_of "pong") 7 (fst (Proto.kith_proto_register_type_id (name_of "ping") 6
    (fst (Proto.kith_proto_register_type_id (name_of "state") 5 (kith_proto_create 64)))))).

Definition state_frame : frame := mkFrame 5 2 true 258 [x0a; x0b].

Lemma proto_codec_exact_witness :
  (kith_proto_decode codec (wire_of state_frame ++ [x4b]) = (codec, inr (state_frame, 20)) ↔
   accepts codec state_frame ∧ 20 = zlen (wire_of state_frame) ∧ ∃ rest, wire_of state_frame ++ [x4b] = wire_of state_frame ++ rest) ∧
  (accepts codec state_frame →
   kith_proto_encode codec 5 2 258 [x0a; x0b] (Some (zlen (wire_of state_frame))) = (zlen (wire_of state_frame), wire_of state_frame) ∧
   ∀ k, (k < length (wire_of state_frame))%nat → kith_proto_decode codec (take k (wire_of state_frame)) = (codec, inl (- KITH_EAGAIN))).
Proof. apply (proto_codec_exact codec (wire_of state_frame ++ [x4b]) state_frame 20). vm_compute. discriminate. Defined.

(** The decoder on the frame, on its start and on an unknown type. *)
Lemma decode_examples :
  kith_proto_decode codec (wire_of state_frame ++ [x4b]) = (codec, inr (state_frame, 20)) ∧
  snd (kith_proto_decode codec (take 19 (wire_of state_frame))) = inl (- KITH_EAGAIN) ∧
  snd (kith_proto_decode codec (wire_of (mkFrame 9 0 false 0 []))) = inl (- KITH_EPROTO).
Proof. vm_compute. done. Qed.

(** ** The rings *)

Definition ring_ops : list ring_op :=
  [Push [x01]; Push [x02; x03]; Push [x04]; Pop 1; Pop 1; Pop 2; Pop 9; Publish (mkEventRecord 1 2 1 [x05]);
   Publish (mkEventRecord 2 2 1 [x06]); Publish (mkEventRecord 3 2 2000 []); Drain 4; Drain 0].

Lemma client_rings_refine_witness :
  let '(s, rs) := run ring_step ring_ops (empty_outq 2, empty_eventq 1) in
  let '(l, rs') := run (spec_step 2 1) ring_ops ([], []) in
  rs = rs' ∧ outq_frames s.1 = l.1 ∧ eventq_events s.2 = l.2.
Proof. apply client_rings_refine; [by split|by split|]. by repeat constructor. Defined.

(** ** The engine *)

Definition engine_params : client_params := mkParams 4 0 6 7 100 50 300 0.
Definition new_engine : kith_client :=
  match kith_client_create engine_params with inr c => c | inl _ => mkKithClient engine_params (empty_outq 1) (empty_eventq 1) (mkBootstrap [] 0 IDLE false) no_link no_rtt 0 0 end.

(** One step: send a frame of type 5, wait for one, go on to the end. *)
Definition login : bootstrap_step := mkStep 5 (Some (0, 5, [x01])) None.

Definition engine_calls : list client_op :=
  [OConfigure [login]; OConnectFailed 10; OConnected 100; OTick 250; OFeed (mkFrame 7 0 false 0 (be_bytes 8 250)) 290; OFeed state_frame 300;
   OPop 64; OSubmit 5 2 9 [x0c]; OPublish (mkEventRecord 1 5 0 []); ODrain 3; ODisconnected 400].

Lemma client_engine_invariant_witness : client_ok (foldl (λ c o, client_step codec o c) new_engine engine_calls).
Proof.
  apply (client_engine_invariant codec engine_params new_engine engine_calls).
  - split; by split.
  - reflexivity.
  - by repeat constructor.
Defined.

(** The bootstrap is done, the ping measured, and the loss cleared the queue. *)
Lemma engine_run :
  let c := foldl (λ c o, client_step codec o c) new_engine (take 9 engine_calls) in
  bt_state (kc_bootstrap c) = READY ∧ rt_last_ms (kc_rtt c) = 40 ∧ length (outq_frames (kc_outq c)) = 2%nat ∧
  ln_next_reconnect_due_ms (kc_link (client_step codec (ODisconnected 400) c)) = 450.
Proof. vm_compute. done. Qed.

Lemma new_engine_ok : client_ok new_engine.
Proof. apply (create_ok engine_params); [split; by split|done]. Qed.

Lemma reconnect_backoff_exact_witness :
  let c' := foldl fail_at (fst (kith_client_on_disconnected 1000 (fst (kith_client_on_connected codec 0 new_engine)))) [2000; 3000] in
  backoff (kc_params new_engine) (1 + zlen [2000; 3000]) (List.last [2000; 3000] 1000) (kc_link c')
  ∧ ln_reconnect_due (kc_link (fst (kith_client_tick codec 3100 c')))
    = (0 <? ln_next_reconnect_due_ms (kc_link c')) && (ln_next_reconnect_due_ms (kc_link c') <=? 3100).
Proof. apply reconnect_backoff_exact; [apply new_engine_ok|by vm_compute]. Defined.

(** Once the timer has elapsed, a failed attempt leaves [reconnect_due] set
    although its own deadline is 2100. *)
Lemma due_survives_failure :
  let c := fst (kith_client_on_disconnected 1000 new_engine) in
  let c := fst (kith_client_tick codec 1050 c) in
  let c := fst (kith_client_on_connect_failed 2000 c) in
  ln_reconnect_due (kc_link c) = true ∧ ln_next_reconnect_due_ms (kc_link c) = 2100.
Proof. vm_compute. done. Qed.

(** A base delay with the default limit is refused. *)
Lemma default_limit_refused : kith_client_create (mkParams 0 0 0 0 0 500 0 0) = inl (- KITH_EINVAL).
Proof. reflexivity. Qed.

(** The ids of a frame are its bytes. *)
Definition byte_ids (_ : Z) (payload : bytes) : list Z := byte_to_Z <$> payload.

Definition before_window : retention :=
  appends 6 (Some byte_ids) [(10, 5, [x01; x02])] fresh_retention.

Definition first_frames : list retained := [(20, 5, [x03; x04]); (30, 5, [x03])].
Definition late_frames : list retained := [(45, 5, [x07])].

Lemma view_window_exact_witness :
  let apps := appends 6 (Some byte_ids) in
  let r := apps late_frames (seal_view_window 40 (apps first_frames (begin_view_window 20 before_window))) in
  let inside := filter (λ fr, frame_ts fr ≤ 40) (first_frames ++ late_frames) in
  let r' := fst (view_window 6 (Some byte_ids) 50 r) in
  ∃ ev, snd (view_window 6 (Some byte_ids) 50 r) = Ok (Some ev) ∧
    we_incomplete ev = negb (total (first_frames ++ late_frames) <=? 6) ∧
    we_distinct_ids ev ⊆ ids_of byte_ids inside ∧
    (we_incomplete ev = false → we_frame_ts_ns ev = frame_ts <$> inside ∧
      (Forall (λ fr, Z.of_nat (size (ids_of byte_ids inside)) + zlen (frame_ids byte_ids fr) ≤ VIEW_WINDOW_ID_CAP) inside →
       we_distinct_ids ev = ids_of byte_ids inside)) ∧
    ∀ l3 now', snd (view_window 6 (Some byte_ids) now' (apps l3 r')) = Ok (Some ev).
Proof.
  apply view_window_exact.
  - reflexivity.
  - apply (retention_run_ok 6 (Some byte_ids) [Append (10, 5, [x01; x02])]). discriminate.
  - vm_compute. repeat constructor.
  - repeat constructor; vm_compute; discriminate.
  - discriminate.
Defined.

(** The reading counts the two frames up to the deadline; the frame before the
    window went first. *)
Lemma window_example :
  let r := appends 4 (Some byte_ids) late_frames (seal_view_window 40 (appends 4 (Some byte_ids) first_frames (begin_view_window 20 before_window))) in
  frames_iter (re_evidence r) = first_frames ++ late_frames ∧
  (we_frame_ts_ns <$> (match snd (view_window 4 (Some byte_ids) 50 r) with Ok o => o | Err _ => None end)) = Some [20; 30].
Proof. vm_compute. done. Qed.

(** Ids seen before use up the places of new ones: of 210 distinct ids only 200
    are counted, short of the cap. *)
Definition ranged_ids (t : Z) (_ : bytes) : list Z := if t =? 1 then seqZ 0 200 else seqZ 0 210.

Lemma repeated_ids_hide_new :
  let s := mkSnapshot [(1, 1, []); (2, 2, [])] None None false (Some ranged_ids) in
  (match evaluate s with Ok ev => Z.of_nat (size (we_distinct_ids ev)) | Err _ => 0 end, Z.of_nat (size (ids_of ranged_ids (ws_frames s)))) = (200, 210).
Proof. vm_compute. reflexivity. Qed.

(** Type 5 goes the direct way; 6 and 7 are the keepalive. *)
Definition example_options : options :=
  mkOptions (str "a1") 64 0 4 0 6 7 0 0 0 0 0 [(str "state", 5); (str "ping", 6); (str "pong", 7); (str "chat", 8)]
    [mkBootstrapStep 8 (Some (Some (8, [x01]))) None] 4 true {[5]} false 32 None.

(** A reading every ten milliseconds. *)
Definition ticking (n : nat) : Z := Z.min (10000000 * Z.of_nat n) (2 ^ 63).

Definition no_wiring : wiring := mkWiring (mkSetup [] 0 false None [] (λ _, 0) (λ _, [])) ∅ 0 0 false 0 None 0 0 ticking.
Definition no_agent : agent :=
  mkAgent (mkClient false false false false false ∅ ∅ None false 0 ((kith_proto_create 0, mkKithClient (mkParams 0 0 0 0 0 0 0 0) (empty_outq 1)
    (empty_eventq 1) (mkBootstrap [] 0 IDLE false) no_link no_rtt 0 0) : @engine kith_engine)) [] false fresh_retention None None None 0 [] [] [] [] 0.

Definition example_wiring : wiring := match agent_init example_options (λ ws, 0) (λ _, []) ticking with Ok (w, _) => w | Err _ => no_wiring end.
Definition example_agent : agent := match agent_init example_options (λ ws, 0) (λ _, []) ticking with Ok (_, a) => a | Err _ => no_agent end.

Definition is_ok {A} (r : result A) : bool := match r with Ok _ => true | Err _ => false end.

Lemma example_constructed : agent_init example_options (λ ws, 0) (λ _, []) ticking = Ok (example_wiring, example_agent).
Proof.
  assert (is_ok (agent_init example_options (λ ws, 0) (λ _, []) ticking) = true) as H by (vm_compute; reflexivity).
  unfold example_wiring, example_agent. by destruct (agent_init example_options (λ ws, 0) (λ _, []) ticking) as [[w a]|e].
Qed.

Lemma ticking_ok n : 0 ≤ ticking n < 2 ^ 64.
Proof. unfold ticking. lia. Qed.

Definition example_ops : list agent_op :=
  [Opened; Received (take 7 (wire_of (mkFrame 8 0 false 0 [])) ); Received (drop 7 (wire_of (mkFrame 8 0 false 0 []))); Ticked; WindowBegun;
   Received (wire_of (mkFrame 5 2 true 9 [x0a]) ++ wire_of (mkFrame 7 0 false 0 [])); Submitted 70000 [x0c] 0 0; Registered (str "trade") 9;
   Probed; WriteResumed; WindowSealed 100; WindowViewed; WindowRetired; Received [x00; x01; x02; x03; x04; x05; x06; x07; x08; x09]; Ended; Refused].

Lemma example_wiring_limit : 10 + wi_direct_wire_limit example_wiring ≤ UINT32_MAX.
Proof. vm_compute. discriminate. Qed.

Lemma agent_callbacks_contained_witness :
  let '(a', rs) := agent_run example_wiring example_ops (agent_start example_agent) in
  agent_ok example_wiring a' ∧ Forall (λ r, match r with Ok _ => True | Err e => engine_error e end) rs.
Proof.
  apply (agent_callbacks_contained example_options (λ ws, 0) (λ _, []) ticking example_wiring example_agent example_ops).
  - exact example_constructed.
  - exact example_wiring_limit.
  - discriminate.
  - discriminate.
  - exact ticking_ok.
  - repeat (apply Forall_cons; split; [first [exact I | by eexists]|]). apply Forall_nil. exact I.
Defined.

(** Only the invalid bytes are refused; the first frame ended the bootstrap,
    the next went the direct way. *)
Lemma example_run :
  let '(a, rs) := agent_run example_wiring (take 14 example_ops) (agent_start example_agent) in
  (is_ok <$> rs) = replicate 13 true ++ [false] ∧ (ce_payload <$> ag_event_history a) = [[x0a]] ∧ ag_replication_count a = 1 ∧
  ag_direct_ready a = true ∧ (ag_inbuf a) = [x00; x01; x02; x03; x04; x05; x06; x07; x08; x09].
Proof. vm_compute. done. Qed.

Lemma example_ok : wiring_ok example_wiring ∧ agent_ok example_wiring (agent_start example_agent).
Proof.
  apply (init_ok example_options (λ ws, 0) (λ _, []) ticking example_wiring example_agent); [exact example_constructed|exact example_wiring_limit|discriminate|discriminate|exact ticking_ok].
Qed.

(** After the connection opened, and after the bootstrap. *)
Definition connected_agent : agent := fst (agent_run example_wiring [Opened] (agent_start example_agent)).
Definition ready_agent : agent := fst (agent_run example_wiring (take 3 example_ops) (agent_start example_agent)).

Lemma example_ops_ok n : Forall op_ok (take n example_ops).
Proof. apply Forall_take. repeat (apply Forall_cons; split; [first [exact I | by eexists]|]). by apply Forall_nil. Qed.

Lemma connected_ok' : agent_ok example_wiring connected_agent.
Proof.
  destruct example_ok as [Hw Ha]. pose proof (agent_run_ok example_wiring Hw [Opened] _ (example_ops_ok 1) Ha) as H. unfold connected_agent.
  destruct (agent_run example_wiring [Opened] (agent_start example_agent)). apply H.
Qed.

Lemma ready_steady : steady example_wiring ready_agent.
Proof.
  destruct example_ok as [Hw Ha]. pose proof (agent_run_ok example_wiring Hw _ _ (example_ops_ok 3) Ha) as H.
  assert (agent_ok example_wiring ready_agent) as Hok by (unfold ready_agent; destruct (agent_run _ _ _); apply H).
  split; [exact Hok|vm_compute; reflexivity..|vm_compute; repeat constructor].
Qed.

Definition open_transport : transport :=
  match cl_transport (ag_client connected_agent) with Some t => t | None => mkTransport [] true end.

Lemma submit_reaches_peer_witness :
  let su := wi_setup example_wiring in
  let c := ag_client connected_agent in
  let p := fst (cl_engine c : native) in
  let kc := snd (cl_engine c : native) in
  let f := frame_of (Z.land 70000 0xFFFF) (Z.land 2 0xFF) (Z.land 77 0xFFFFFFFFFFFFFFFF) [x0c; x0d] in
  let '(c', r) := _submit_on_loop su 70000 [x0c; x0d] 2 77 c in
  buffer_ok c' ∧
  (if (pr_max_payload p <? wire_len f) || (oq_cap (kc_outq kc) <=? zlen (waiting (p, kc))) then
     r = Err (KithClientError (if pr_max_payload p <? wire_len f then KITH_EOVERFLOW else KITH_EBUSY) [Lit "submit_interactive"])
     ∧ cl_transport c' = Some open_transport ∧ cl_engine c' = cl_engine c
   else r = Ok (kc_next_cmd_id kc) ∧ ∃ n, drained su open_transport (waiting (p, kc) ++ [wire_of f]) c' n) ∧
  ∀ q rest, pr_max_payload q ≤ UINT32_MAX → registered q (fm_type_id f) → wire_len f ≤ pr_max_payload q →
    kith_proto_decode q (wire_of f ++ rest) = (q, inr (f, zlen (wire_of f))).
Proof.
  apply (submit_reaches_peer (wi_setup example_wiring) (ag_client connected_agent) open_transport 70000 [x0c; x0d] 2 77).
  - exact (lk_buffer _ _ (ao_linked _ _ connected_ok')).
  - exact (lk_fits _ _ (ao_linked _ _ connected_ok')).
  - vm_compute. repeat split.
Defined.

Definition example_chunks : list bytes :=
  let s := wire_of (mkFrame 5 0 false 0 [x01; x02]) ++ wire_of (mkFrame 8 2 true 4 []) ++ wire_of (mkFrame 7 0 false 0 []) ++ [x4b; x54] in
  [take 3 s; take 20 (drop 3 s); drop 23 s].

Lemma inbound_stream_exact_witness :
  let '(a', r) := receive_all example_wiring example_chunks ready_agent in
  let '(fs, rest, bad) := parse (fst (engine_of ready_agent)) (concat example_chunks) in
  steady example_wiring a' ∧
  key_of <$> ag_event_history a' = lastn (wi_event_history_size example_wiring) ((key_of <$> ag_event_history ready_agent) ++ (fs ≫= delivered example_wiring)) ∧
  ag_pending_push a' = [] ∧
  match r with Ok _ => bad = false ∧ ag_inbuf a' = rest | Err e => bad = true ∧ engine_error e end.
Proof.
  apply inbound_stream_exact.
  - exact (proj1 example_ok).
  - exact ready_steady.
  - vm_compute. reflexivity.
  - vm_compute. reflexivity.
Defined.

(** Two events, the pong kept from the history, two bytes left. *)
Lemma stream_example :
  let '(a, r) := receive_all example_wiring example_chunks ready_agent in
  (key_of <$> ag_event_history a, ag_inbuf a, is_ok r) = ([(5, 0, [x01; x02]); (8, 4, [])], [x4b; x54], true).
Proof. vm_compute. reflexivity. Qed.

(** A step that is to wait passively sends a frame of type 0. *)
Lemma passive_step_sends :
  let step := mkBootstrapStep 8 (Some None) None in
  match agent_init (mkOptions (str "a1") 64 0 4 0 0 0 0 0 0 0 0 [(str "chat", 8)] [step] 4 true ∅ false 0 None) (λ ws, 0) (λ _, []) ticking with
  | Ok (w, a) => (tr_written <$> cl_transport (ag_client (fst (connection_opened w (agent_start a))))) = Some [wire_of (mkFrame 0 0 false 0 [])]
  | Err _ => False
  end.
Proof. vm_compute. reflexivity. Qed.

(** Three clients at two cadences. *)
Definition example_ticker : ClientTicker Z :=
  ticker_unregister 20 3 (ticker_register 20 2 (ticker_register 50 3 (ticker_register 20 1 (fst (ticker_fire 20 (ticker_register 20 3 new_ticker)))))).
Definition example_fleet : fleet :=
  <[1%nat := (example_wiring, connected_agent)]> (<[2%nat := (example_wiring, ready_agent)]> (<[3%nat := (example_wiring, agent_start example_agent)]> ∅)).

Lemma example_bucket : bucket_of 20 example_ticker = [1%nat; 2%nat].
Proof. vm_compute. reflexivity. Qed.

Lemma example_fleet_ok : fleet_ok example_fleet.
Proof.
  destruct example_ok as [Hw Ha]. unfold example_fleet. apply fleet_insert; [|exact Hw|exact connected_ok'].
  apply fleet_insert; [|exact Hw|exact (sd_ok _ _ ready_steady)]. apply fleet_insert; [|exact Hw|exact Ha]. intros c w a. by rewrite lookup_empty.
Qed.

Lemma shared_ticker_fair_witness :
  let '(t', order) := ticker_fire 20 example_ticker in
  let '(f', r) := tick_all order example_fleet in
  order ≡ₚ bucket_of 20 example_ticker ∧ r = Ok tt ∧ fleet_ok f' ∧
  (∀ c w a, example_fleet !! c = Some (w, a) →
     f' !! c = Some (w, if decide (c ∈ bucket_of 20 example_ticker) then fst (tick_engine w a) else a)) ∧
  omap head (ticker_fires (length (bucket_of 20 example_ticker)) 20 example_ticker) ≡ₚ bucket_of 20 example_ticker.
Proof.
  apply shared_ticker_fair.
  - rewrite example_bucket. apply (bool_decide_unpack _). vm_compute. exact I.
  - exact example_fleet_ok.
  - intros c. rewrite example_bucket. unfold example_fleet. intros [->|[->|[]%elem_of_nil]%elem_of_cons]%elem_of_cons.
    + rewrite lookup_insert_eq. by eexists.
    + rewrite lookup_insert_ne, lookup_insert_eq by done. by eexists.
Defined.
