(* ===== verification/Depth.v ===== *)
(** * Depth of a load run ([tools/agent/_load_harness/depth.py])

    What the harness concludes from each client's retained evidence: the view
    set of its movement window, the echoes of its own inputs, and the gaps in
    them.  A reader ([EvidenceReader]) answers for frozen observations, so its
    answers depend on the client only. *)

From S2P Require Import Prelude PyStruct PyText PyFloat PyJson PyWire PyArith GapLedger Replication Correlator AgentControl Evidence Roster.

#[local] Open Scope Z_scope.

(** ** Records *)

(** [records.py] *)
Record ClientRecord := mkRecord {
  cr_name : pystr;
  cr_principal_id : Z;
  cr_instrumented : bool;
  cr_spread : bool;
  cr_own_actor_id : Z;
  cr_started_ns : Z;
  cr_ready_ns : Z;
  cr_inputs_submitted : Z;
  cr_instance_index : Z;
  cr_movement_start_ns : Z;
  cr_movement_end_ns : Z;
}.

Definition set_own_actor (id : Z) (r : ClientRecord) : ClientRecord :=
  mkRecord (cr_name r) (cr_principal_id r) (cr_instrumented r) (cr_spread r) id (cr_started_ns r) (cr_ready_ns r) (cr_inputs_submitted r)
    (cr_instance_index r) (cr_movement_start_ns r) (cr_movement_end_ns r).

(** [orchestrator.py] *)
Class EvidenceReader := {
  client_state : pystr → result ClientStatus;
  reader_events : pystr → Z → result (list ClientEvent);
  reader_window : pystr → result (option WindowEvidence);
  evidence_span : pystr → result (option Z);
  replication_frame_count : pystr → result Z;
}.

(** [metrics.py] *)
Record ClientDepthRow := mkDepthRow {
  dr_name : pystr;
  dr_submitted : Z;
  dr_observed : Z;
  dr_certified_missing : Z;
  dr_certified_fallback : bool;
}.

Record CohortRow := mkCohortRow {
  co_name : pystr;
  co_instance_index : Z;
  co_per_instance_rank : Z;
  co_submitted : Z;
  co_observed : Z;
  co_certified_missing : Z;
  co_certified_fallback : bool;
}.

Record CohortDepth := mkCohort {
  cd_name : pystr;
  cd_sampled : Z;
  cd_submitted : Z;
  cd_observed : Z;
  cd_move_missing : double;
  cd_rows : list CohortRow;
  cd_move_missing_certified : option double;
  cd_certified_fallback_clients : Z;
}.

Record EchoDeltaHistogram := mkHistogram {
  eh_clients : Z;
  eh_frames : Z;
  eh_delta1 : Z;
  eh_delta2 : Z;
  eh_delta3_5 : Z;
  eh_delta6_20 : Z;
  eh_delta21_plus : Z;
  eh_regressed : Z;
  eh_missing_implied : Z;
  eh_coverage_min : double;
  eh_truncated_clients : Z;
}.

Record ClientFlickerSample := mkFlicker {
  fs_name : pystr;
  fs_instance_index : Z;
  fs_gap_count : Z;
  fs_gap_ms : list Z;
  fs_gap_start_ms : list Z;
}.

Record FlickerBreakdown := mkBreakdown { fb_total_gaps : Z; fb_per_client : list ClientFlickerSample }.

(** [200.0], [1.0] and [0.98] *)
Definition FLICKER_GAP_MS : double := GAP_THRESHOLD_MS.
Definition ONE : double := DFin false 4503599627370496 (-52).
Definition COVERAGE_TRUNCATED : double := double_of_decimal false 98 (-2).

(** [int(BREADTH_WINDOW_MAX_GAP_S * 1e9)] *)
Definition MAX_GAP_NS : Z := 2000000000.

(** ** The view set *)

Definition distinct_non_self (ids : gset Z) (own_actor_id : Z) : Z :=
  if own_actor_id =? 0 then Z.of_nat (size ids)
  else Z.of_nat (size ids) - (if bool_decide (own_actor_id ∈ ids) then 1 else 0).

Definition window_stream_continuous (frame_ts_ns : list Z) : bool :=
  forallb (λ '(a, b), b - a <=? MAX_GAP_NS) (pairwise frame_ts_ns).

Section Reader.
Context {E : EvidenceReader}.

(** Observed, stalled, incomplete. *)
Definition client_view_facts (rec : ClientRecord) (min_distinct : Z) : result (bool * bool * bool) :=
  window ← reader_window (cr_name rec);
  match window with
  | None => Ok (false, false, false)
  | Some window =>
      if we_incomplete window then Ok (false, false, true)
      else if distinct_non_self (we_distinct_ids window) (cr_own_actor_id rec) <? min_distinct then Ok (false, false, false)
      else if negb (window_stream_continuous (we_frame_ts_ns window)) then Ok (false, true, false)
      else Ok (true, false, false)
  end.

Definition client_view_set_healthy (rec : ClientRecord) (min_distinct : Z) : result bool :=
  '(observed, _, _) ← client_view_facts rec min_distinct; Ok observed.

Definition view_evidence_fresh (rec : ClientRecord) (min_distinct : Z) : result bool :=
  window ← reader_window (cr_name rec);
  match window with
  | None => Ok false
  | Some window =>
      Ok (negb (we_incomplete window) && (min_distinct <=? distinct_non_self (we_distinct_ids window) (cr_own_actor_id rec)))
  end.

(** ** Echoes *)

Definition count_certified_missing (frames : list SeriesFrame) (submitted observed : Z) : Z * bool :=
  match sorted_by fr_ts_ns frames with
  | [] => (submitted, false)
  | (first :: _) as ordered =>
      if forallb (λ f, fr_update_seq f =? 0) ordered then (Z.max 0 (submitted - observed), true)
      else (Z.max 0 (submitted - (max_of (fr_update_seq <$> ordered) - fr_update_seq first)), false)
  end.

(** One event's echoes of the client's own actor, as frames. *)
Definition event_frames (own_actor_id : Z) (event : ClientEvent) : result (list SeriesFrame) :=
  views ← iter_actor_states_for (ce_type_id event) (ce_payload event) own_actor_id;
  Ok (map (λ v, mkFrame (ce_ts_mono_ns event) (av_input_tick v) (av_update_seq v)) views).

(** The row and the series of one client. *)
Definition client_depth (drain_s : double) (rec : ClientRecord) : result (ClientDepthRow * ClientSeries) :=
  events ← reader_events (cr_name rec) 100000;
  let start := cr_movement_start_ns rec in
  let end_ := cr_movement_end_ns rec in
  drain_ns ← int_of_double (fmul drain_s BILLION);
  frames ← map_result (event_frames (cr_own_actor_id rec)) events;
  let frames := concat frames in
  let observed := Z.of_nat (size (list_to_set (fr_input_tick <$> frames) : gset Z)) in
  let certified := if start =? 0 then [] else filter (λ f, start ≤ fr_ts_ns f ∧ fr_ts_ns f ≤ end_ + drain_ns) frames in
  let '(missing, fallback) := count_certified_missing certified (cr_inputs_submitted rec) observed in
  Ok (mkDepthRow (cr_name rec) (cr_inputs_submitted rec) observed missing fallback,
      mkSeries (cr_name rec) (cr_instance_index rec) start end_ (filter (λ f, fr_ts_ns f ≤ end_) certified)).

Definition collect_depth_metrics (instrumented : list ClientRecord) (drain_s : double)
    : result (Z * Z * list ClientSeries * list ClientDepthRow) :=
  clients ← map_result (client_depth drain_s) instrumented;
  let rows := clients.*1 in
  Ok (sum_of dr_submitted rows, sum_of dr_observed rows, clients.*2, rows).

Definition certified_metrics (rows : list ClientDepthRow) : result (option double * Z) :=
  let total := sum_of dr_submitted rows in
  let fallbacks := zlen (filter (λ r, dr_certified_fallback r = true) rows) in
  if total =? 0 then Ok (None, fallbacks)
  else ratio ← int_div (sum_of dr_certified_missing rows) total; Ok (Some ratio, fallbacks).

(** [-x] of a [float] *)
Definition fneg (d : double) : double :=
  match d with DFin neg m e => DFin (negb neg) m e | DInf neg => DInf (negb neg) | DNaN => DNaN end.

(** [max(0.0, 1.0 - observed / submitted)] *)
Definition measure_move_missing_ratio (submitted observed : Z) : result double :=
  if submitted =? 0 then Ok ZERO else
  q ← int_div observed submitted;
  Ok (fmax ZERO (fadd ONE (fneg q))).

(** ** Cohorts *)

(** The last entry under a key wins, as in a [dict] built from pairs. *)
Definition row_of (name : pystr) (rows : list ClientDepthRow) : option ClientDepthRow :=
  last (filter (λ r, dr_name r = name) rows).

Definition cohort_row (ranks : list (pystr * Z)) (rec : ClientRecord) (depth : ClientDepthRow) : CohortRow :=
  mkCohortRow (cr_name rec) (cr_instance_index rec) (default 0 (snd <$> last (filter (λ p, fst p = cr_name rec) ranks)))
    (dr_submitted depth) (dr_observed depth) (dr_certified_missing depth) (dr_certified_fallback depth).

Definition collect_cohort_depth (cohort : pystr) (records : list ClientRecord) (ranks : list (pystr * Z)) (drain_s : double)
    (depth_rows : list ClientDepthRow) : result CohortDepth :=
  let missing := filter (λ rec, row_of (cr_name rec) depth_rows = None) records in
  '(_, _, _, extra_rows) ← collect_depth_metrics missing drain_s;
  depths ← map_result (λ rec, match row_of (cr_name rec) (depth_rows ++ extra_rows) with Some d => Ok d | None => Err KeyError end) records;
  '(certified, fallbacks) ← certified_metrics depths;
  let submitted := sum_of dr_submitted depths in
  let observed := sum_of dr_observed depths in
  move_missing ← measure_move_missing_ratio submitted observed;
  Ok (mkCohort cohort (zlen records) submitted observed move_missing (zip_with (cohort_row ranks) records depths) certified fallbacks).
End Reader.

Definition booted (rec : ClientRecord) : bool := negb (cr_own_actor_id rec =? 0) && (cr_started_ns rec <? cr_ready_ns rec).

(** The assignments [ranks[name] = rank], in their order. *)
Fixpoint ranks_loop (records : list ClientRecord) (seen : gmap Z Z) : list (pystr * Z) :=
  match records with
  | [] => []
  | rec :: records =>
      if booted rec then
        let rank := default 0 (seen !! cr_instance_index rec) in
        (cr_name rec, rank) :: ranks_loop records (<[cr_instance_index rec := rank + 1]> seen)
      else ranks_loop records seen
  end.
Definition per_instance_ranks (records : list ClientRecord) : list (pystr * Z) := ranks_loop records ∅.

(** [round(x)]: ties to even. *)
Definition round_double (d : double) : result Z :=
  match d with
  | DFin neg m e => let '(n, den) := ratio neg m e in Ok (round_even n den)
  | DInf _ => Err OverflowError
  | DNaN => Err (ValueError [Lit "cannot convert float NaN to integer"])
  end.

Definition select_spread_probe_indices (actor_count instrumented_count spread_size : Z) : result (list Z) :=
  let body := actor_count - instrumented_count in
  if (spread_size <=? 0) || (body <=? 0) then Ok [] else
  if body <=? spread_size then Ok (seqZ instrumented_count body) else
  step ← int_div (body - 1) (spread_size - 1);
  map_result (λ k, k' ← to_float k; r ← round_double (fmul k' step); Ok (instrumented_count + r)) (seqZ 0 spread_size).

(** ** Histogram *)

Record tally := mkTally {
  ta_delta1 : Z; ta_delta2 : Z; ta_delta3_5 : Z; ta_delta6_20 : Z; ta_delta21_plus : Z; ta_regressed : Z; ta_missing : Z;
}.

Definition tally_delta (t : tally) (delta : Z) : tally :=
  let '(mkTally d1 d2 d3 d6 d21 reg miss) := t in
  let miss := if 1 <? delta then miss + (delta - 1) else miss in
  if delta <=? 0 then mkTally d1 d2 d3 d6 d21 (reg + 1) miss
  else if delta =? 1 then mkTally (d1 + 1) d2 d3 d6 d21 reg miss
  else if delta =? 2 then mkTally d1 (d2 + 1) d3 d6 d21 reg miss
  else if delta <=? 5 then mkTally d1 d2 (d3 + 1) d6 d21 reg miss
  else if delta <=? 20 then mkTally d1 d2 d3 (d6 + 1) d21 reg miss
  else mkTally d1 d2 d3 d6 (d21 + 1) reg miss.

Definition tick_deltas (ordered : list SeriesFrame) : list Z :=
  (λ '(a, b), fr_input_tick b - fr_input_tick a) <$> pairwise ordered.

(** [min(a, b)] and [a < b] *)
Definition fmin (a b : double) : double := if fle b a && negb (fle a b) then b else a.
Definition flt (a b : double) : bool := fle a b && negb (fle b a).

Definition histogram_step (acc : Z * tally * double * Z) (cs : ClientSeries) : result (Z * tally * double * Z) :=
  let '(frames, t, coverage_min, truncated) := acc in
  match sorted_by fr_ts_ns (se_frames cs) with
  | [] => Ok acc
  | (first :: _) as ordered =>
      let span_ns := fr_ts_ns (List.last ordered first) - fr_ts_ns first in
      let window_ns := se_window_end_ns cs - se_window_start_ns cs in
      '(coverage_min, truncated) ←
        (if 0 <? window_ns then
           coverage ← int_div span_ns window_ns;
           Ok (fmin coverage_min coverage, if flt coverage COVERAGE_TRUNCATED then truncated + 1 else truncated)
         else Ok (coverage_min, truncated));
      Ok (frames + zlen ordered, foldl tally_delta t (tick_deltas ordered), coverage_min, truncated)
  end.

Fixpoint fold_result {A B} (f : B → A → result B) (acc : B) (l : list A) : result B :=
  match l with [] => Ok acc | x :: l => acc ← f acc x; fold_result f acc l end.

Definition echo_delta_histogram (series : list ClientSeries) : result EchoDeltaHistogram :=
  '(frames, t, coverage_min, truncated) ← fold_result histogram_step (0, mkTally 0 0 0 0 0 0 0, ONE, 0) series;
  Ok (mkHistogram (zlen series) frames (ta_delta1 t) (ta_delta2 t) (ta_delta3_5 t) (ta_delta6_20 t) (ta_delta21_plus t)
        (ta_regressed t) (ta_missing t) (match series with [] => ZERO | _ => coverage_min end) truncated).

(** ** Ratios and flicker *)

Definition measure_selected_clients_ratio (selected total : Z) (eligible : option Z) : result double :=
  match eligible with
  | None => if total =? 0 then Ok ZERO else int_div selected total
  | Some eligible => int_div selected (Z.max 1 eligible)
  end.

Definition flicker_sample (entry : ClientSeries) : result (list ClientFlickerSample) :=
  match client_gaps entry FLICKER_GAP_MS with
  | [] => Ok []
  | gaps =>
      gap_ms ← map_result (λ g, whole_ms (gp_end_ns g - gp_start_ns g)) gaps;
      Ok [mkFlicker (se_name entry) (se_instance_index entry) (zlen gaps) gap_ms
            ((λ g, (gp_start_ns g - se_window_start_ns entry) / 1000000) <$> gaps)]
  end.

Definition flicker_breakdown_from_series (series : list ClientSeries) : result FlickerBreakdown :=
  samples ← map_result flicker_sample series;
  let per_client := concat samples in
  Ok (mkBreakdown (sum_of fs_gap_count per_client) per_client).

Definition start_concurrency (actor_count : Z) : Z := Z.min 256 (Z.max 1 actor_count).

(** [statistics.py] *)
Definition percentile (values : list Z) (pct : Z) : result double := _percentile (sorted_by id values) pct.

(** ** Own actors *)

(** [f"{names}"] of a list of [str] *)
Definition repr_names (names : list pystr) : fstr :=
  [Lit "["] ++ match names with [] => [] | n :: names => ReprStr n :: (names ≫= λ n, [Lit ", "; ReprStr n]) end ++ [Lit "]"].

Section OwnActors.
Context {W : Type} (exc_text : exn → pystr).

Definition was_ready (rec : ClientRecord) : bool := (cr_started_ns rec <? cr_ready_ns rec) && negb (cr_ready_ns rec =? 0).

Definition resolve_own_actors_dense (fuel : nat) (control : option (pystr → M W json_dict)) (records : list ClientRecord)
    : M W (list ClientRecord) :=
  match control with
  | None => mret records
  | Some control_get =>
      bindings ← principal_bindings control_get exc_text fuel;
      let booted := filter (λ r, was_ready r = true) records in
      let missing := cr_name <$> filter (λ r, bindings !! cr_principal_id r = None) booted in
      guard (negb (Z.of_nat (size bindings) =? zlen booted) || negb (bool_decide (length missing = 0%nat)))
        (RuntimeError ([Lit "binding map covers "; Num (Z.of_nat (size bindings)); Lit " principals for "; Num (zlen booted);
           Lit " booted clients (unmatched clients: "] ++ repr_names (take 5 missing) ++ [Lit ")"]));;
      mret ((λ rec, if was_ready rec then set_own_actor (default 0 (bindings !! cr_principal_id rec)) rec else rec) <$> records)
  end.
End OwnActors.
