(* ===== verification/Breadth.v ===== *)
(** * Breadth of a load run ([tools/agent/_load_harness/breadth.py])

    Which clients the server bound to an actor, which of these actors stand
    where too few others do, and the census of the clients whose retained
    stream proves the view bar, pooled and per instance.  The rows of a run
    are updated in place by the code; here each pass returns the new rows, and
    a pass that raises ends the run.  [instance_gate_metrics] of [depth.py],
    which reads the census, is here too. *)

From S2P Require Import Prelude PyStruct PyText PyFloat PyJson PyWire PyArith GapLedger Replication Correlator AgentControl Evidence Roster Depth.

#[local] Open Scope Z_scope.

(** ** Isolation *)

(** [examples/spatial/handlers.py] *)
Definition CELL_SIZE_Q16 : Z := 65536.
Definition CELL_RADIUS : Z := 1.

Abbreviation cell := (Z * Z * Z)%type.

Definition cell_of (cell_size : Z) (p : position) : cell := let '(x, y, z) := p in (x / cell_size, y / cell_size, z / cell_size).

(** The cells the three loops walk. *)
Definition neighborhood (cell_radius : Z) (c : cell) : list cell :=
  let '(cx, cy, cz) := c in
  let axis_range := seqZ (- cell_radius) (2 * cell_radius + 1) in
  dx ← axis_range; dy ← axis_range; dz ← axis_range; [(cx + dx, cy + dy, cz + dz)].

Section Isolation.
Context (positions : gmap Z position) (cell_size cell_radius : Z).

(** Every roster actor under its cell. *)
Definition cell_buckets : list (cell * list (Z * position)) := group_by (λ a, cell_of cell_size a.2) (map_to_list positions).

Definition members (c : cell) : list Z := (bucket_get c cell_buckets).*1.

Definition count_neighbors (own_id : Z) (own_pos : position) : Z :=
  let c := cell_of cell_size own_pos in
  let neighbors := sum_of (λ c, zlen (members c)) (neighborhood cell_radius c) in
  if bool_decide (own_id ∈ members c) then neighbors - 1 else neighbors.

Fixpoint isolated_loop (min_distinct_others : Z) (candidate_ids : list Z) (isolated : gset Z) : result (gset Z) :=
  match candidate_ids with
  | [] => Ok isolated
  | own_id :: candidate_ids =>
      match positions !! own_id with
      | None => Err (RuntimeError [Lit "roster omits own actor "; Num own_id])
      | Some own_pos =>
          isolated_loop min_distinct_others candidate_ids
            (if count_neighbors own_id own_pos <? min_distinct_others then {[own_id]} ∪ isolated else isolated)
      end
  end.

Definition isolated_actor_ids (candidate_ids : list Z) (min_distinct_others : Z) : result (gset Z) :=
  if cell_radius <? 1 then Err (ValueError [Lit "cell_radius must be >= 1"]) else
  if (cell_size =? 0) && negb (bool_decide (positions = ∅)) then Err ZeroDivisionError else
  isolated_loop min_distinct_others candidate_ids ∅.
End Isolation.

(** ** Rows and census *)

Record BreadthRow := mkBreadthRow {
  br_name : pystr;
  br_instrumented : bool;
  br_submitted : Z;
  br_connected : bool;
  br_instance_index : Z;
  br_session_ok : bool;
  br_observed : bool;
  br_bound : bool;
  br_isolated : bool;
  br_fresh : bool;
  br_late_bootstrapped : bool;
  br_stalled : bool;
  br_incomplete : bool;
  br_window_present : bool;
  br_distinct_in_window : Z;
  br_distinct_deque : Z;
}.

(** [metrics.py] *)
Record BreadthAttribution := mkCause { at_name : pystr; at_klass : pystr; at_fresh : bool }.

Record SparseBreadthRow := mkSparse {
  sb_name : pystr;
  sb_instance_index : Z;
  sb_klass : pystr;
  sb_distinct_in_window : Z;
  sb_distinct_deque : Z;
}.

Inductive BreadthCensus := mkCensus {
  bc_total : Z;
  bc_session_ok_count : Z;
  bc_classified_clients : option Z;
  bc_isolated_clients : option Z;
  bc_eligible_clients : option Z;
  bc_selected_count : Z;
  bc_selected_head_count : Z;
  bc_observed_but_isolated_fresh_clients : Z;
  bc_unbound_clients : Z;
  bc_late_bootstrapped_clients : Z;
  bc_stalled_clients : Z;
  bc_incomplete_evidence_clients : Z;
  bc_sparse_clients : Z;
  bc_never_opened_clients : Z;
  bc_sparse_rows : list SparseBreadthRow;
  bc_evidence_span_ns_min : option Z;
  bc_evidence_span_ns_p50 : option Z;
  bc_violation : option pystr;
  bc_attribution : list BreadthAttribution;
  bc_instances : list BreadthCensus;
  bc_instance_index : option Z;
}.

(** [0.05] *)
Definition ISOLATED_FRACTION_MAX : double := double_of_decimal false 5 (-2).

(** [sum(1 for x in l if p(x))] *)
Definition count_if {A} (p : A → bool) (l : list A) : Z := zlen (filter (λ x, p x = true) l).

Definition isolation_cause (row : BreadthRow) : pystr :=
  if br_late_bootstrapped row then str "late_bootstrap"
  else if negb (br_connected row) then str "disconnected"
  else if br_submitted row =? 0 then str "stalled"
  else str "frozen".

Definition unexplained (row : BreadthRow) : bool := negb (br_observed row) && negb (br_stalled row) && negb (br_incomplete row).

Definition residue_rows (rows : list BreadthRow) : list SparseBreadthRow :=
  (λ row, mkSparse (br_name row) (br_instance_index row) (if br_window_present row then str "sparse" else str "never_opened")
     (br_distinct_in_window row) (br_distinct_deque row)) <$> filter (λ row, unexplained row = true) rows.

Definition of_klass (klass : string) (e : SparseBreadthRow) : bool := bool_decide (sb_klass e = str klass).

(** [sep.join(l)] *)
Definition join_with (sep : string) (l : list pystr) : pystr :=
  match l with [] => [] | x :: l => x ++ (l ≫= λ t, str sep ++ t) end.

Definition sparse_geometry (isolated_count classified_count : Z) : result (list pystr) :=
  bar ← (if classified_count =? 0 then Ok DNaN else c ← to_float classified_count; Ok (fmul ISOLATED_FRACTION_MAX c));
  if negb (classified_count =? 0) && int_gt isolated_count bar then
    i ← int_repr isolated_count;
    c ← int_repr classified_count;
    Ok [i ++ str " of " ++ c ++ str " classified clients lack their neighborhood geometry; the window-end roster cannot support breadth eligibility"]
  else Ok [].

Definition fresh_divergence (fresh_isolated_violates : bool) (fresh_rows : list BreadthRow) (classified_count : Z) : result (list pystr) :=
  if negb (bool_decide (length fresh_rows = 0%nat)) && fresh_isolated_violates then
    n ← int_repr (zlen fresh_rows);
    c ← int_repr classified_count;
    Ok [n ++ str " of " ++ c ++ str " classified clients hold fresh evidence of a full view set while isolated (" ++
        join_with ", " (br_name <$> fresh_rows) ++ str "); delivery reached beyond the eligibility geometry"]
  else Ok [].

Definition selects (row : BreadthRow) : bool := negb (br_isolated row) && br_observed row.

Definition assemble_breadth (total : Z) (rows : list BreadthRow) (classified fresh_isolated_violates : bool)
    (evidence_spans : list Z) (instance_index : option Z) : result BreadthCensus :=
  let session_ok_count := count_if br_session_ok rows in
  if negb classified then
    let residue := residue_rows rows in
    Ok (mkCensus total session_ok_count None None None (count_if br_observed rows)
          (count_if (λ row, br_observed row && br_instrumented row) rows) 0 0 0 (count_if br_stalled rows) (count_if br_incomplete rows)
          (count_if (of_klass "sparse") residue) (count_if (of_klass "never_opened") residue) residue None None None [] [] instance_index)
  else
    let bound_rows := filter (λ row, br_bound row = true) rows in
    let isolated_rows := filter (λ row, br_isolated row = true) bound_rows in
    let fresh_rows := filter (λ row, br_fresh row = true) isolated_rows in
    let classified_count := zlen bound_rows in
    let isolated_count := zlen isolated_rows in
    sparse ← sparse_geometry isolated_count classified_count;
    fresh ← fresh_divergence fresh_isolated_violates fresh_rows classified_count;
    let violation := join_with "; " (sparse ++ fresh) in
    let residue := residue_rows (filter (λ row, br_isolated row = false) bound_rows) in
    Ok (mkCensus total session_ok_count (Some classified_count) (Some isolated_count) (Some (classified_count - isolated_count))
          (count_if selects bound_rows) (count_if (λ row, selects row && br_instrumented row) bound_rows) (zlen fresh_rows)
          (total - classified_count) (count_if br_late_bootstrapped bound_rows) (count_if br_stalled rows) (count_if br_incomplete rows)
          (count_if (of_klass "sparse") residue) (count_if (of_klass "never_opened") residue) residue
          (head evidence_spans) (evidence_spans !! (length evidence_spans / 2)%nat)
          (if bool_decide (violation = []) then None else Some violation)
          ((λ row, mkCause (br_name row) (isolation_cause row) (br_fresh row)) <$> isolated_rows) [] instance_index).

(** ** Passes over the rows *)

(** [constants.py] *)
Definition BOOTSTRAP_READY : Z := 2.

Definition fresh_row (rec : ClientRecord) : BreadthRow :=
  mkBreadthRow (cr_name rec) (cr_instrumented rec) (cr_inputs_submitted rec) false (cr_instance_index rec) false false false false false
    false false false false 0 0.

Definition bind_row (late : bool) (r : BreadthRow) : BreadthRow :=
  mkBreadthRow (br_name r) (br_instrumented r) (br_submitted r) (br_connected r) (br_instance_index r) (br_session_ok r) (br_observed r)
    true (br_isolated r) (br_fresh r) (late || br_late_bootstrapped r) (br_stalled r) (br_incomplete r) (br_window_present r)
    (br_distinct_in_window r) (br_distinct_deque r).

Definition isolate_row (isolated : bool) (r : BreadthRow) : BreadthRow :=
  mkBreadthRow (br_name r) (br_instrumented r) (br_submitted r) (br_connected r) (br_instance_index r) (br_session_ok r) (br_observed r)
    (br_bound r) isolated (br_fresh r) (br_late_bootstrapped r) (br_stalled r) (br_incomplete r) (br_window_present r)
    (br_distinct_in_window r) (br_distinct_deque r).

Definition freshen_row (fresh : bool) (r : BreadthRow) : BreadthRow :=
  mkBreadthRow (br_name r) (br_instrumented r) (br_submitted r) (br_connected r) (br_instance_index r) (br_session_ok r) (br_observed r)
    (br_bound r) (br_isolated r) fresh (br_late_bootstrapped r) (br_stalled r) (br_incomplete r) (br_window_present r)
    (br_distinct_in_window r) (br_distinct_deque r).

(** The row a name stands for in a [dict] of the rows: the last of that name. *)
Definition row_named (name : pystr) (rows : list BreadthRow) : option BreadthRow := last (filter (λ r, br_name r = name) rows).

Fixpoint update_row (name : pystr) (f : BreadthRow → BreadthRow) (rows : list BreadthRow) : list BreadthRow :=
  match rows with
  | [] => []
  | r :: rows =>
      if bool_decide (br_name r = name) && negb (bool_decide (name ∈ br_name <$> rows)) then f r :: rows
      else r :: update_row name f rows
  end.

Section Preparation.
Context {W : Type} (exc_text : exn → pystr).

(** One instance's control plane, or those of a cluster. *)
Inductive server_control := OneControl (get : pystr → M W json_dict) | DistributedControl (controls : list (pystr → M W json_dict)).

(** The binding pass of one record, then the isolation pass. *)
Definition bind_record (bindings : gmap Z Z) (inside : ClientRecord → bool) (st : list BreadthRow * list ClientRecord) (rec : ClientRecord)
    : list BreadthRow * list ClientRecord :=
  let '(rows, done) := st in
  match bindings !! cr_principal_id rec with
  | Some actor =>
      if inside rec then
        let late := cr_own_actor_id rec =? 0 in
        (update_row (cr_name rec) (bind_row late) rows, done ++ [if late then set_own_actor actor rec else rec])
      else (rows, done ++ [rec])
  | None => (rows, done ++ [rec])
  end.

Definition bound_in (bindings : gmap Z Z) (inside : ClientRecord → bool) (rec : ClientRecord) : bool :=
  inside rec && match bindings !! cr_principal_id rec with Some _ => true | None => false end.

Definition classify_group (fuel : nat) (min_distinct : Z) (get : pystr → M W json_dict) (inside : ClientRecord → bool)
    (st : list BreadthRow * list ClientRecord) : M W (list BreadthRow * list ClientRecord) :=
  bindings ← principal_bindings get exc_text fuel;
  let '(rows, records) := foldl (bind_record bindings inside) (fst st, []) (snd st) in
  positions ← roster_positions get exc_text fuel;
  let recs := filter (λ rec, bound_in bindings inside rec = true) records in
  iso_ids ← lift (isolated_actor_ids positions CELL_SIZE_Q16 CELL_RADIUS (cr_own_actor_id <$> recs) min_distinct);
  mret (foldl (λ rows rec, update_row (cr_name rec) (isolate_row (bool_decide (cr_own_actor_id rec ∈ iso_ids))) rows) rows recs, records).

(** [controls[i]] *)
Definition control_at {A} (l : list A) (i : Z) : result A :=
  match (if (i <? 0) && (i + zlen l <? 0) then None else l !! Z.to_nat (if i <? 0 then i + zlen l else i)) with
  | Some x => Ok x
  | None => Err IndexError
  end.

(** The control planes and which records each answers for. *)
Definition control_groups (control : server_control) (records : list ClientRecord)
    : result (list ((pystr → M W json_dict) * (ClientRecord → bool))) :=
  match control with
  | OneControl get => Ok [(get, λ _, true)]
  | DistributedControl controls =>
      let per_instance := sorted_set (filter (λ i, i < zlen controls) (cr_instance_index <$> records)) in
      map_result (λ i, get ← control_at controls i; Ok (get, λ rec, cr_instance_index rec =? i)) per_instance
  end.

Fixpoint classify_groups (fuel : nat) (min_distinct : Z) (groups : list ((pystr → M W json_dict) * (ClientRecord → bool)))
    (st : list BreadthRow * list ClientRecord) : M W (list BreadthRow * list ClientRecord) :=
  match groups with
  | [] => mret st
  | (get, inside) :: groups => st ← classify_group fuel min_distinct get inside st; classify_groups fuel min_distinct groups st
  end.

(** The rows, the records with their own actors stamped, and whether a control plane classified them. *)
Definition prepare_breadth_rows (fuel : nat) (control : option server_control) (records : list ClientRecord) (min_distinct : Z)
    : M W (list BreadthRow * list ClientRecord * bool) :=
  let rows := fresh_row <$> records in
  match control with
  | None => mret (rows, records, false)
  | Some control =>
      groups ← lift (control_groups control records);
      st ← classify_groups fuel min_distinct groups (rows, records);
      mret (fst st, snd st, true)
  end.
End Preparation.

(** [zip(a, b, strict=True)] driving a loop. *)
Fixpoint zip_strict {A B C} (f : A → B → result C) (l : list A) (k : list B) : result (list C) :=
  match l, k with
  | [], [] => Ok []
  | a :: l, b :: k => c ← f a b; cs ← zip_strict f l k; Ok (c :: cs)
  | _, _ => Err (ValueError [Lit "zip() arguments have different lengths"])
  end.

Definition assemble_with_instances (records : list ClientRecord) (rows : list BreadthRow) (classified fresh_isolated_violates : bool)
    (spans : gmap pystr Z) : result BreadthCensus :=
  census ← assemble_breadth (zlen records) rows classified fresh_isolated_violates (sorted_by id (map_to_list spans).*2) None;
  placed ← map_result (λ rec, match row_named (cr_name rec) rows with Some row => Ok (cr_instance_index rec, row) | None => Err KeyError end) records;
  instances ← map_result (λ '(index, part),
      let part_rows := part.*2 in
      assemble_breadth (zlen part_rows) part_rows classified fresh_isolated_violates
        (sorted_by id (omap (λ row, spans !! br_name row) part_rows)) (Some index))
    (sorted_by fst (group_by fst placed));
  let '(mkCensus a b c d e f g h i j k l m n o p q r s _ t) := census in
  Ok (mkCensus a b c d e f g h i j k l m n o p q r s instances t).

Section Census.
Context {E : EvidenceReader}.

Definition probe_row (min_distinct : Z) (rec : ClientRecord) (row : BreadthRow) : result BreadthRow :=
  status ← client_state (cr_name rec);
  '(observed, stalled, incomplete) ← client_view_facts rec min_distinct;
  window ← reader_window (cr_name rec);
  let '(present, in_window, in_deque) :=
    match window with
    | None => (br_window_present row, br_distinct_in_window row, br_distinct_deque row)
    | Some w => (true, distinct_non_self (we_distinct_ids w) (cr_own_actor_id rec), distinct_non_self (we_deque_distinct_ids w) (cr_own_actor_id rec))
    end in
  Ok (mkBreadthRow (br_name row) (br_instrumented row) (br_submitted row) (st_connected status) (br_instance_index row)
        (st_connected status && (st_bootstrap_state status =? BOOTSTRAP_READY)) observed (br_bound row) (br_isolated row) (br_fresh row)
        (br_late_bootstrapped row) stalled incomplete present in_window in_deque).

Definition probe_breadth_rows (records : list ClientRecord) (rows : list BreadthRow) (min_distinct : Z) : result (list BreadthRow) :=
  zip_strict (probe_row min_distinct) records rows.

Definition freshness (min_distinct : Z) (rec : ClientRecord) (row : BreadthRow) : result BreadthRow :=
  if br_isolated row then fresh ← view_evidence_fresh rec min_distinct; Ok (freshen_row fresh row) else Ok row.

Fixpoint spans_of (records : list ClientRecord) (spans : gmap pystr Z) : result (gmap pystr Z) :=
  match records with
  | [] => Ok spans
  | rec :: records =>
      span ← evidence_span (cr_name rec);
      spans_of records (match span with Some n => <[cr_name rec := n]> spans | None => spans end)
  end.

Definition finish_breadth (records : list ClientRecord) (rows : list BreadthRow) (min_distinct : Z)
    (classified fresh_isolated_violates : bool) : result BreadthCensus :=
  rows ← probe_breadth_rows records rows min_distinct;
  if negb classified then assemble_with_instances records rows false true ∅ else
  rows ← zip_strict (freshness min_distinct) records rows;
  spans ← spans_of records ∅;
  assemble_with_instances records rows true fresh_isolated_violates spans.

(** Frames per instance of its booted clients. *)
Fixpoint publish_loop (records : list ClientRecord) (per_instance : gmap Z Z) : result (gmap Z Z) :=
  match records with
  | [] => Ok per_instance
  | rec :: records =>
      if booted rec then
        count ← replication_frame_count (cr_name rec);
        publish_loop records (<[cr_instance_index rec := default 0 (per_instance !! cr_instance_index rec) + count]> per_instance)
      else publish_loop records per_instance
  end.
Definition publish_rate_counts (records : list ClientRecord) : result (gmap Z Z) := publish_loop records ∅.

Definition measure_publish_rate_skew (records : list ClientRecord) : result double :=
  per_instance ← publish_rate_counts records;
  match (map_to_list per_instance).*2 with
  | [] => Ok ZERO
  | counts => if min_of counts =? 0 then Ok (DInf false) else int_div (max_of counts) (min_of counts)
  end.
End Census.

(** ** Gate metrics of one instance ([depth.py]) *)

(** [metrics.py] *)
Record InstanceGateMetrics := mkGate {
  ig_instance_index : Z;
  ig_actor_count : Z;
  ig_sampled_clients : Z;
  ig_session_ok_ratio : double;
  ig_selected_clients_ratio : double;
  ig_eligible_clients : option Z;
  ig_isolated_clients : option Z;
  ig_classified_clients : option Z;
  ig_move_missing_ratio : double;
  ig_move_missing_ratio_certified : option double;
  ig_certified_fallback_clients : Z;
  ig_bootstrap_ms_p95 : Z;
  ig_continuity_flicker : bool;
}.

(** [instance_of[name]]: the last record of a name. *)
Definition instance_of (records : list ClientRecord) (name : pystr) : result Z :=
  match last (filter (λ rec, cr_name rec = name) records) with Some rec => Ok (cr_instance_index rec) | None => Err KeyError end.

Definition latencies (records : list ClientRecord) (index : Z) : list Z :=
  (λ rec, Z.max 0 ((cr_ready_ns rec - cr_started_ns rec) / 1000000)) <$>
    filter (λ rec, cr_started_ns rec < cr_ready_ns rec ∧ cr_instance_index rec = index) records.

Definition gate_row (records : list ClientRecord) (depths : list (Z * ClientDepthRow)) (series : list ClientSeries) (census : BreadthCensus)
    : result (list InstanceGateMetrics) :=
  match bc_instance_index census with
  | None => Ok []
  | Some index =>
      let depth_rows := (filter (λ d, fst d = index) depths).*2 in
      '(certified, fallbacks) ← certified_metrics depth_rows;
      session_ok ← (if bc_total census =? 0 then Ok ZERO else int_div (bc_session_ok_count census) (bc_total census));
      selected ← measure_selected_clients_ratio (bc_selected_count census) (bc_total census) (bc_eligible_clients census);
      missing ← measure_move_missing_ratio (sum_of dr_submitted depth_rows) (sum_of dr_observed depth_rows);
      p95 ← percentile (latencies records index) 95;
      p95 ← int_of_double p95;
      flicker ← flicker_breakdown_from_series (filter (λ e, se_instance_index e = index) series);
      Ok [mkGate index (bc_total census) (zlen depth_rows) session_ok selected (bc_eligible_clients census) (bc_isolated_clients census)
            (bc_classified_clients census) missing certified fallbacks p95 (0 <? fb_total_gaps flicker)]
  end.

Definition instance_gate_metrics (records : list ClientRecord) (breadth : BreadthCensus) (cert_rows : list ClientDepthRow)
    (series : list ClientSeries) : result (list InstanceGateMetrics) :=
  depths ← map_result (λ row, i ← instance_of records (dr_name row); Ok (i, row)) cert_rows;
  rows ← map_result (gate_row records depths series) (bc_instances breadth);
  Ok (concat rows).
