(* ===== verification/CensusTheorems.v ===== *)
(** * Breadth: isolation and the census

    The isolation classifier against the geometry it approximates with
    buckets.  What the census counts, for every cohort the reader answers for:
    the selected clients are those whose evidence proves the view bar, the
    eligible ones are partitioned by what their evidence says, and the
    instances' censuses add up to the pooled one. *)

From S2P Require Import Prelude PyStruct PyText PyFloat PyJson PyWire AgentInboundTheorems PyArith GapLedger LedgerTheorems Replication Correlator AgentControl Evidence Roster Depth Breadth.

#[local] Open Scope Z_scope.

(** ** Counting *)

Lemma sum_of_cons {A} (f : A → Z) x l : sum_of f (x :: l) = f x + sum_of f l.
Proof. done. Qed.

Lemma sum_of_app {A} (f : A → Z) l k : sum_of f (l ++ k) = sum_of f l + sum_of f k.
Proof. induction l as [|x l IH]; [done|]. rewrite <- app_comm_cons, !sum_of_cons, IH. lia. Qed.

Lemma sum_of_ext {A} (f g : A → Z) l : (∀ x, x ∈ l → f x = g x) → sum_of f l = sum_of g l.
Proof.
  induction l as [|x l IH]; intros Hfg; [done|]. rewrite !sum_of_cons, IH by set_solver.
  by rewrite Hfg by set_solver.
Qed.

Lemma zlen_filter_cons {A} (P : A → Prop) `{∀ x, Decision (P x)} x l :
  zlen (filter P (x :: l)) = (if decide (P x) then 1 else 0) + zlen (filter P l).
Proof. rewrite filter_cons. unfold zlen. case_decide; cbn [length]; lia. Qed.

(** Bucket sizes summed over distinct keys count the elements under any of them. *)
Lemma sum_buckets {A K} `{EqDecision K} (f : A → K) (keys : list K) (l : list A) : NoDup keys →
  sum_of (λ k, zlen (filter (λ a, f a = k) l)) keys = zlen (filter (λ a, f a ∈ keys) l).
Proof.
  intros Hn. induction l as [|a l IH].
  { clear Hn. induction keys as [|k keys IHk]; [done|]. by rewrite sum_of_cons, IHk. }
  rewrite zlen_filter_cons, <- IH. clear IH.
  rewrite (sum_of_ext _ (λ k, (if decide (f a = k) then 1 else 0) + zlen (filter (λ a, f a = k) l))) by (intros; by rewrite zlen_filter_cons).
  induction keys as [|k keys IHk].
  { cbn. rewrite decide_False by set_solver. done. }
  apply NoDup_cons in Hn as [Hk Hn]. specialize (IHk Hn). rewrite !sum_of_cons, IHk. cbn beta.
  destruct (decide (f a = k)) as [<-|Hne].
  - rewrite decide_False by done. rewrite decide_True by set_solver. lia.
  - destruct (decide (f a ∈ keys)); [rewrite decide_True by set_solver|rewrite decide_False by set_solver]; lia.
Qed.

Lemma size_filter {V} (P : Z * V → Prop) `{∀ a, Decision (P a)} (m : gmap Z V) : size (filter P m) = length (filter P (map_to_list m)).
Proof.
  rewrite <- length_map_to_list. apply Permutation_length, NoDup_Permutation; [apply NoDup_map_to_list|apply NoDup_filter, NoDup_map_to_list|].
  intros [i x]. rewrite elem_of_map_to_list, list_elem_of_filter, elem_of_map_to_list, map_lookup_filter_Some. tauto.
Qed.

(** ** Neighborhoods *)

(** Two cells within the radius on every axis. *)
Definition near (cell_radius : Z) (c d : cell) : Prop :=
  let '(cx, cy, cz) := c in
  let '(dx, dy, dz) := d in
  Z.abs (dx - cx) ≤ cell_radius ∧ Z.abs (dy - cy) ≤ cell_radius ∧ Z.abs (dz - cz) ≤ cell_radius.

#[global] Instance near_dec r c d : Decision (near r c d).
Proof. destruct c as [[cx cy] cz], d as [[dx dy] dz]. cbn. apply _. Defined.

Lemma elem_of_neighborhood r c d : d ∈ neighborhood r c ↔ near r c d.
Proof.
  destruct c as [[cx cy] cz], d as [[dx dy] dz]. cbn. rewrite !list_elem_of_bind. split.
  - intros (x & Hx & Hx'). apply list_elem_of_bind in Hx as (y & Hy & Hy'). apply list_elem_of_bind in Hy as (z & Hz & Hz').
    apply list_elem_of_singleton in Hz as [= -> -> ->]. apply elem_of_seqZ in Hx', Hy', Hz'. lia.
  - intros (Hx & Hy & Hz). exists (dx - cx). split; [|apply elem_of_seqZ; lia]. apply list_elem_of_bind. exists (dy - cy).
    split; [|apply elem_of_seqZ; lia]. apply list_elem_of_bind. exists (dz - cz). split; [|apply elem_of_seqZ; lia].
    apply list_elem_of_singleton. repeat f_equal; lia.
Qed.

Lemma NoDup_bind_inj {A B} (f : A → list B) (l : list A) : NoDup l → (∀ x, NoDup (f x)) →
  (∀ x y b, b ∈ f x → b ∈ f y → x = y) → NoDup (l ≫= f).
Proof.
  intros Hl Hf Hi. induction l as [|x l IH]; [constructor|]. apply NoDup_cons in Hl as [Hx Hl]. cbn.
  apply NoDup_app. split; [done|]. split; [|auto]. intros b Hb (y & Hy & Hyl)%list_elem_of_bind. by rewrite (Hi x y b) in Hx.
Qed.

Lemma NoDup_neighborhood r c : NoDup (neighborhood r c).
Proof.
  destruct c as [[cx cy] cz]. cbn. pose proof (NoDup_seqZ (- r) (2 * r + 1)) as Hn.
  apply NoDup_bind_inj; [done| |].
  - intros x. apply NoDup_bind_inj; [done| |].
    + intros y. apply NoDup_bind_inj; [done|intros; apply NoDup_singleton|].
      intros z z' b ->%list_elem_of_singleton [= ?]%list_elem_of_singleton. lia.
    + intros y y' b (z & ->%list_elem_of_singleton & _)%list_elem_of_bind (z' & [= ? ?]%list_elem_of_singleton & _)%list_elem_of_bind. lia.
  - intros x x' b (y & (z & ->%list_elem_of_singleton & _)%list_elem_of_bind & _)%list_elem_of_bind
      (y' & (z' & [= ? ? ?]%list_elem_of_singleton & _)%list_elem_of_bind & _)%list_elem_of_bind. lia.
Qed.

Section Isolation.
Context (positions : gmap Z position) (cell_size cell_radius : Z).

(** The other actors of the roster near an actor. *)
Definition others_near (own_id : Z) (own_pos : position) : gmap Z position :=
  filter (λ a, a.1 ≠ own_id ∧ near cell_radius (cell_of cell_size own_pos) (cell_of cell_size a.2)) positions.

Definition sparse (min_distinct_others own_id : Z) : Prop :=
  match positions !! own_id with Some p => Z.of_nat (size (others_near own_id p)) < min_distinct_others | None => False end.

#[local] Instance sparse_dec m i : Decision (sparse m i).
Proof. unfold sparse. destruct (positions !! i); apply _. Defined.

Lemma members_exact c i : i ∈ members positions cell_size c ↔ ∃ p, positions !! i = Some p ∧ cell_of cell_size p = c.
Proof.
  unfold members, cell_buckets. rewrite (hd_get _ _ _ (holds_group_by _ _)). rewrite list_elem_of_fmap. split.
  - intros ([j p] & -> & [Hc Hp]%list_elem_of_filter). exists p. cbn in *. split; [by apply elem_of_map_to_list|done].
  - intros (p & Hp & Hc). exists (i, p). split; [done|]. apply list_elem_of_filter. split; [done|]. by apply elem_of_map_to_list.
Qed.

Lemma neighbors_sum c :
  sum_of (λ c, zlen (members positions cell_size c)) (neighborhood cell_radius c) =
  Z.of_nat (size (filter (λ a : Z * position, near cell_radius c (cell_of cell_size a.2)) positions)).
Proof.
  rewrite (sum_of_ext _ (λ k, zlen (filter (λ a : Z * position, cell_of cell_size a.2 = k) (map_to_list positions)))).
  2:{ intros k _. unfold members, cell_buckets, zlen. by rewrite length_fmap, (hd_get _ _ _ (holds_group_by _ _)). }
  rewrite sum_buckets by apply NoDup_neighborhood. unfold zlen. f_equal.
  rewrite size_filter. f_equal. apply list_filter_iff. intros a. apply elem_of_neighborhood.
Qed.

Lemma near_refl c : 0 ≤ cell_radius → near cell_radius c c.
Proof. destruct c as [[x y] z]. cbn. lia. Qed.

Lemma count_neighbors_exact own_id own_pos : 0 ≤ cell_radius → positions !! own_id = Some own_pos →
  count_neighbors positions cell_size cell_radius own_id own_pos = Z.of_nat (size (others_near own_id own_pos)).
Proof.
  intros Hr Hp. unfold count_neighbors. rewrite bool_decide_eq_true_2 by (apply members_exact; eauto). rewrite neighbors_sum.
  set (c := cell_of cell_size own_pos).
  assert (filter (λ a : Z * position, near cell_radius c (cell_of cell_size a.2)) positions = <[own_id := own_pos]> (others_near own_id own_pos)) as ->.
  { apply map_eq. intros i. apply option_eq. intros p. unfold others_near. rewrite lookup_insert_Some, !map_lookup_filter_Some. cbn. fold c. split.
    - intros [Hi Hn]. destruct (decide (own_id = i)) as [->|Hne]; [left; naive_solver|right; auto].
    - intros [[<- <-]|(Hne & Hi & _ & Hn)]; [split; [done|by apply near_refl]|done]. }
  rewrite map_size_insert_None; [lia|]. apply map_lookup_filter_None. right. cbn. naive_solver.
Qed.

Lemma isolated_loop_exact min_distinct_others candidate_ids isolated : 0 ≤ cell_radius →
  isolated_loop positions cell_size cell_radius min_distinct_others candidate_ids isolated =
  match head (filter (λ i, positions !! i = None) candidate_ids) with
  | Some i => Err (RuntimeError [Lit "roster omits own actor "; Num i])
  | None => Ok (isolated ∪ list_to_set (filter (sparse min_distinct_others) candidate_ids))
  end.
Proof.
  intros Hr. revert isolated. induction candidate_ids as [|i l IH]; intros isolated; [cbn; f_equal; set_solver|].
  cbn [isolated_loop]. rewrite !filter_cons. destruct (positions !! i) as [p|] eqn:Hp.
  - rewrite (decide_False (P := Some p = None)) by done. rewrite IH, count_neighbors_exact by done.
    destruct (head _); [done|]. f_equal. assert (sparse min_distinct_others i ↔ Z.of_nat (size (others_near i p)) < min_distinct_others) as Hs by (unfold sparse; by rewrite Hp).
    destruct (Z.ltb_spec (Z.of_nat (size (others_near i p))) min_distinct_others) as [H|H];
      [rewrite decide_True by tauto|rewrite decide_False by (rewrite Hs; lia)]; cbn; set_solver.
  - by rewrite (decide_True (P := None = None)).
Qed.

(** C22: For every roster, cell size, radius and bar: the classifier rejects a
    radius below one, raises ZeroDivisionError for a cell size of zero and a
    roster that is not empty and RuntimeError on the first candidate the
    roster omits, and otherwise returns exactly the candidates with fewer than
    the required number of other actors within the radius of their own cell on
    every axis, although it counts by buckets and counts each candidate
    itself. *)
Theorem isolation_exact candidate_ids min_distinct_others :
  isolated_actor_ids positions cell_size cell_radius candidate_ids min_distinct_others =
  if cell_radius <? 1 then Err (ValueError [Lit "cell_radius must be >= 1"])
  else if (cell_size =? 0) && negb (bool_decide (positions = ∅)) then Err ZeroDivisionError
  else match head (filter (λ i, positions !! i = None) candidate_ids) with
  | Some i => Err (RuntimeError [Lit "roster omits own actor "; Num i])
  | None => Ok (list_to_set (filter (sparse min_distinct_others) candidate_ids))
  end.
Proof.
  unfold isolated_actor_ids. destruct (Z.ltb_spec cell_radius 1); [done|]. destruct (_ && _); [done|].
  rewrite isolated_loop_exact by lia. destruct (head _); [done|]. f_equal. set_solver.
Qed.
End Isolation.

(** ** Counting *)

Section Counting.
Context {A : Type}.
Implicit Types (p q : A → bool) (l : list A).

Lemma count_if_cons p x l : count_if p (x :: l) = (if p x then 1 else 0) + count_if p l.
Proof. unfold count_if. rewrite zlen_filter_cons. by destruct (p x). Qed.

Lemma count_if_app p l k : count_if p (l ++ k) = count_if p l + count_if p k.
Proof. unfold count_if, zlen. rewrite filter_app, length_app. lia. Qed.

Lemma count_if_perm p l k : l ≡ₚ k → count_if p l = count_if p k.
Proof. intros Hl. unfold count_if, zlen. by rewrite Hl. Qed.

Lemma count_if_filter p q l : count_if p (filter (λ x, q x = true) l) = count_if (λ x, q x && p x) l.
Proof.
  induction l as [|x l IH]; [done|]. rewrite filter_cons, count_if_cons. destruct (q x); cbn [andb].
  - rewrite decide_True, count_if_cons, IH by done. done.
  - rewrite decide_False by done. done.
Qed.

Lemma count_if_filter_not p q l : count_if p (filter (λ x, q x = false) l) = count_if (λ x, negb (q x) && p x) l.
Proof.
  induction l as [|x l IH]; [done|]. rewrite filter_cons, count_if_cons. destruct (q x); cbn [andb negb].
  - rewrite decide_False by done. done.
  - rewrite decide_True, count_if_cons, IH by done. done.
Qed.

Lemma zlen_count_if l : zlen l = count_if (λ _, true) l.
Proof. induction l as [|x l IH]; [done|]. rewrite count_if_cons, <- IH. unfold zlen. cbn [length]. lia. Qed.

Lemma count_if_ext p q l : (∀ x, x ∈ l → p x = q x) → count_if p l = count_if q l.
Proof.
  induction l as [|x l IH]; intros Hp; [done|]. rewrite !count_if_cons, IH by set_solver. by rewrite Hp by set_solver.
Qed.

Lemma count_if_bounds p l : 0 ≤ count_if p l ≤ zlen l.
Proof. unfold count_if, zlen. pose proof (length_filter (λ x, p x = true) l). lia. Qed.

(** A count split by a second predicate. *)
Lemma count_if_split p q l : count_if p l = count_if (λ x, p x && q x) l + count_if (λ x, p x && negb (q x)) l.
Proof. induction l as [|x l IH]; [done|]. rewrite !count_if_cons, IH. destruct (p x), (q x); cbn; lia. Qed.

Lemma count_if_zero p l : count_if p l = 0 ↔ ∀ x, x ∈ l → p x = false.
Proof.
  induction l as [|x l IH]; [split; [set_solver|done]|]. rewrite count_if_cons. pose proof (count_if_bounds p l).
  setoid_rewrite elem_of_cons. destruct (p x) eqn:E; split.
  - lia.
  - intros Hp. rewrite Hp in E; [done|by left].
  - intros Hz y [->|Hy]; [done|]. apply IH; [lia|done].
  - intros Hp. rewrite (proj2 IH); [done|]. auto.
Qed.
End Counting.

Lemma count_if_fmap {A B} (p : B → bool) (f : A → B) l : count_if p (f <$> l) = count_if (λ x, p (f x)) l.
Proof. induction l as [|x l IH]; [done|]. by rewrite fmap_cons, !count_if_cons, IH. Qed.

Lemma count_if_groups {A K} (p : A → bool) (groups : list (K * list A)) :
  sum_of (λ g, count_if p g.2) groups = count_if p (groups ≫= snd).
Proof. induction groups as [|[k part] groups IH]; [done|]. cbn [mbind list_bind]. by rewrite sum_of_cons, count_if_app, IH. Qed.

(** ** One census *)

Definition eligible (row : BreadthRow) : bool := br_bound row && negb (br_isolated row).
Definition isolated (row : BreadthRow) : bool := br_bound row && br_isolated row.

(** The isolated fraction is within its bar, and no isolated client holds fresh evidence where that counts. *)
Definition lawful (fresh_isolated_violates : bool) (rows : list BreadthRow) : Prop :=
  (∀ bar, to_float (count_if br_bound rows) = Ok bar →
     count_if br_bound rows = 0 ∨ int_gt (count_if isolated rows) (fmul ISOLATED_FRACTION_MAX bar) = false) ∧
  (fresh_isolated_violates = true → ∀ row, row ∈ rows → isolated row && br_fresh row = false).

Record census_of (total : Z) (rows : list BreadthRow) (violates : bool) (index : option Z) (c : BreadthCensus) : Prop := {
  cn_total : bc_total c = total;
  cn_session : bc_session_ok_count c = count_if br_session_ok rows;
  cn_classified : bc_classified_clients c = Some (count_if br_bound rows);
  cn_isolated : bc_isolated_clients c = Some (count_if isolated rows);
  cn_eligible : bc_eligible_clients c = Some (count_if eligible rows);
  cn_selected : bc_selected_count c = count_if (λ r, eligible r && br_observed r) rows;
  cn_sparse : bc_sparse_clients c = count_if (λ r, eligible r && (unexplained r && br_window_present r)) rows;
  cn_never : bc_never_opened_clients c = count_if (λ r, eligible r && (unexplained r && negb (br_window_present r))) rows;
  cn_violation : bc_violation c = None ↔ lawful violates rows;
  cn_index : bc_instance_index c = index;
  cn_stalled : bc_stalled_clients c = count_if br_stalled rows;
  cn_incomplete : bc_incomplete_evidence_clients c = count_if br_incomplete rows;
}.

(** Without a roster: no denominators, and everyone is counted. *)
Record plain_census_of (total : Z) (rows : list BreadthRow) (index : option Z) (c : BreadthCensus) : Prop := {
  pc_total : bc_total c = total;
  pc_session : bc_session_ok_count c = count_if br_session_ok rows;
  pc_none : bc_classified_clients c = None ∧ bc_isolated_clients c = None ∧ bc_eligible_clients c = None ∧ bc_violation c = None;
  pc_selected : bc_selected_count c = count_if br_observed rows;
  pc_sparse : bc_sparse_clients c = count_if (λ r, unexplained r && br_window_present r) rows;
  pc_never : bc_never_opened_clients c = count_if (λ r, unexplained r && negb (br_window_present r)) rows;
  pc_index : bc_instance_index c = index;
  pc_stalled : bc_stalled_clients c = count_if br_stalled rows;
  pc_incomplete : bc_incomplete_evidence_clients c = count_if br_incomplete rows;
}.

Definition assembled (classified violates : bool) (total : Z) (rows : list BreadthRow) (index : option Z) (c : BreadthCensus) : Prop :=
  if classified then census_of total rows violates index c else plain_census_of total rows index c.

Lemma residue_klass (klass : string) (present : bool) (rows : list BreadthRow) : str klass = (if present then str "sparse" else str "never_opened") →
  count_if (of_klass klass) (residue_rows rows) = count_if (λ r, unexplained r && Bool.eqb (br_window_present r) present) rows.
Proof.
  intros Hk. unfold residue_rows. rewrite count_if_fmap, count_if_filter. apply count_if_ext. intros r _. f_equal.
  unfold of_klass. cbn [sb_klass]. rewrite Hk. by destruct (br_window_present r), present; vm_compute.
Qed.

Lemma str_join_nil sep l : Forall (λ t, t ≠ []) l → join_with sep l = [] ↔ l = [].
Proof. intros Hl. destruct Hl as [|t l Ht _]; [done|]. split; [|done]. cbn. by destruct t. Qed.

Lemma sparse_geometry_total i c : 0 ≤ i < 2 ^ 63 → 0 ≤ c < 2 ^ 63 →
  ∃ l, sparse_geometry i c = Ok l ∧ Forall (λ t, t ≠ []) l ∧
    (l = [] ↔ ∀ bar, to_float c = Ok bar → c = 0 ∨ int_gt i (fmul ISOLATED_FRACTION_MAX bar) = false).
Proof.
  intros Hi Hc. unfold sparse_geometry. destruct (Z.eqb_spec c 0) as [->|Hne]; cbn [mbind result_bind negb andb].
  { exists []. split; [done|]. split; [done|]. split; [by left|done]. }
  destruct (small_float c) as (neg & m & e & ->); [unfold small; lia|]. cbn [mbind result_bind].
  destruct (int_gt _ _) eqn:Eg.
  - destruct (int_repr_small i) as (si & -> & _); [lia|]. destruct (int_repr_small c) as (sc & -> & _); [lia|]. cbn [mbind result_bind].
    eexists. split; [done|]. split; [apply Forall_singleton; by destruct si|]. split; [done|].
    intros Hb. destruct (Hb _ eq_refl) as [?|?]; congruence.
  - exists []. split; [done|]. split; [done|]. split; [|done]. intros _ bar [= <-]. by right.
Qed.

Lemma fresh_divergence_total v fresh c : zlen fresh < 2 ^ 63 → 0 ≤ c < 2 ^ 63 →
  ∃ l, fresh_divergence v fresh c = Ok l ∧ Forall (λ t, t ≠ []) l ∧ (l = [] ↔ (v = true → zlen fresh = 0)).
Proof.
  intros Hf Hc. unfold fresh_divergence. assert (0 ≤ zlen fresh) as Hn by (unfold zlen; lia).
  destruct (negb _ && v) eqn:E.
  - apply andb_true_iff in E as [E%negb_true_iff%bool_decide_eq_false ->].
    destruct (int_repr_small (zlen fresh)) as (sn & -> & _); [lia|]. destruct (int_repr_small c) as (sc & -> & _); [lia|].
    cbn [mbind result_bind]. eexists. split; [done|]. split; [apply Forall_singleton; by destruct sn|]. split; [done|].
    intros Hv. specialize (Hv eq_refl). unfold zlen in Hv. lia.
  - exists []. split; [done|]. split; [done|]. split; [|done]. intros _ ->. rewrite andb_true_r in E.
    apply negb_false_iff, bool_decide_eq_true in E. unfold zlen. lia.
Qed.

Lemma assemble_total total rows violates spans index : zlen rows < 2 ^ 63 →
  ∃ c, assemble_breadth total rows true violates spans index = Ok c ∧ census_of total rows violates index c.
Proof.
  intros Hl. unfold assemble_breadth. cbn [negb].
  set (bound_rows := filter (λ row, br_bound row = true) rows).
  assert (∀ p, count_if p bound_rows = count_if (λ r, br_bound r && p r) rows) as Hb by (intros; apply count_if_filter).
  pose proof (count_if_bounds br_bound rows) as B1. pose proof (count_if_bounds isolated rows) as B2.
  change (zlen bound_rows) with (count_if br_bound rows).
  change (zlen (filter (λ row, br_isolated row = true) bound_rows)) with (count_if br_isolated bound_rows). rewrite (Hb br_isolated).
  change (count_if (λ r, br_bound r && br_isolated r) rows) with (count_if isolated rows).
  set (fresh_rows := filter _ (filter _ bound_rows)).
  assert (zlen fresh_rows = count_if (λ r, isolated r && br_fresh r) rows) as Hf.
  { change (zlen fresh_rows) with (count_if br_fresh (filter (λ row, br_isolated row = true) bound_rows)). rewrite count_if_filter, Hb.
    apply count_if_ext. intros r _. unfold isolated. by rewrite andb_assoc. }
  pose proof (count_if_bounds (λ r, isolated r && br_fresh r) rows) as B3.
  destruct (sparse_geometry_total (count_if isolated rows) (count_if br_bound rows)) as (l1 & -> & F1 & N1); [lia..|].
  destruct (fresh_divergence_total violates fresh_rows (count_if br_bound rows)) as (l2 & -> & F2 & N2); [lia..|].
  cbn [mbind result_bind]. eexists. split; [done|]. rewrite Hf in N2.
  split; cbn [bc_total bc_session_ok_count bc_classified_clients bc_isolated_clients bc_eligible_clients bc_selected_count
    bc_sparse_clients bc_never_opened_clients bc_violation bc_instance_index]; try done.
  - f_equal. rewrite (count_if_split br_bound br_isolated). fold isolated. unfold isolated, eligible. lia.
  - rewrite Hb. apply count_if_ext. intros r _. unfold eligible, selects. by rewrite andb_assoc.
  - rewrite (residue_klass "sparse" true), count_if_filter_not, Hb by done. apply count_if_ext. intros r _. unfold eligible.
    rewrite andb_assoc. by destruct (br_window_present r).
  - rewrite (residue_klass "never_opened" false), count_if_filter_not, Hb by done. apply count_if_ext. intros r _. unfold eligible.
    rewrite andb_assoc. by destruct (br_window_present r).
  - unfold lawful. rewrite <- N1. setoid_rewrite <- count_if_zero. rewrite <- N2.
    rewrite <- (app_nil l1 l2), <- (str_join_nil "; ") by (by apply Forall_app). by case_bool_decide.
Qed.

Lemma assemble_plain total rows violates spans index :
  ∃ c, assemble_breadth total rows false violates spans index = Ok c ∧ plain_census_of total rows index c.
Proof.
  eexists. split; [done|]. split; try done.
  - cbn [bc_sparse_clients]. rewrite (residue_klass "sparse" true) by done. apply count_if_ext. intros r _. by destruct (br_window_present r).
  - cbn [bc_never_opened_clients]. rewrite (residue_klass "never_opened" false) by done. apply count_if_ext. intros r _. by destruct (br_window_present r).
Qed.

Lemma assembles classified total rows violates spans index : zlen rows < 2 ^ 63 →
  ∃ c, assemble_breadth total rows classified violates spans index = Ok c ∧ assembled classified violates total rows index c.
Proof. intros Hl. destruct classified; [by apply assemble_total|apply assemble_plain]. Qed.

(** ** The census with its instances *)

Lemma map_result_Forall2 {A B} (f : A → result B) (R : A → B → Prop) l : (∀ x, x ∈ l → ∃ y, f x = Ok y ∧ R x y) →
  ∃ ys, map_result f l = Ok ys ∧ Forall2 R l ys.
Proof.
  induction l as [|x l IH]; intros Hf; [by exists []|]. destruct (Hf x) as (y & Hy & Hr); [by left|].
  destruct IH as (ys & Hys & Hrs); [intros; apply Hf; by right|]. exists (y :: ys). cbn [map_result]. rewrite Hy. cbn [mbind result_bind].
  rewrite Hys. split; [done|by constructor].
Qed.

Lemma sum_of_Forall2 {A B} (f : A → Z) (g : B → Z) (R : A → B → Prop) l k : Forall2 R l k → (∀ x y, R x y → g y = f x) →
  sum_of g k = sum_of f l.
Proof. intros Hl Hr. induction Hl as [|x y l k Hxy Hl IH]; [done|]. by rewrite !sum_of_cons, IH, (Hr x y). Qed.

Lemma row_named_exact rows row : NoDup (br_name <$> rows) → row ∈ rows → row_named (br_name row) rows = Some row.
Proof.
  unfold row_named. induction rows as [|r rows IH]; intros Hn Hr; [set_solver|]. cbn in Hn. apply NoDup_cons in Hn as [Hnew Hn].
  rewrite filter_cons. apply elem_of_cons in Hr as [->|Hr].
  - rewrite decide_True by done. assert (filter (λ r', br_name r' = br_name r) rows = []) as ->; [|done].
    destruct (filter _ rows) as [|r' k] eqn:Ef; [done|]. exfalso. apply Hnew.
    assert (r' ∈ filter (λ r', br_name r' = br_name r) rows) as [<- ?]%list_elem_of_filter by (rewrite Ef; left).
    by apply list_elem_of_fmap_2.
  - rewrite decide_False; [by apply IH|]. intros He. apply Hnew. rewrite He. by apply list_elem_of_fmap_2.
Qed.

Definition place (rows : list BreadthRow) (rec : ClientRecord) : result (Z * BreadthRow) :=
  match row_named (cr_name rec) rows with Some row => Ok (cr_instance_index rec, row) | None => Err KeyError end.

Lemma placed_among all records rows : br_name <$> rows = cr_name <$> records →
  (∀ row, row ∈ rows → row_named (br_name row) all = Some row) →
  map_result (place all) records = Ok (zip (cr_instance_index <$> records) rows).
Proof.
  revert rows. induction records as [|rec records IH]; intros [|row rows] Ha Hr; try done.
  cbn in Ha. injection Ha as Hname Ha. cbn [map_result].
  assert (place all rec = Ok (cr_instance_index rec, row)) as -> by (unfold place; rewrite <- Hname, Hr; [done|by left]). cbn [mbind result_bind].
  rewrite (IH rows) by (done || (intros; apply Hr; by right)). done.
Qed.

Lemma placed_exact records rows : br_name <$> rows = cr_name <$> records → NoDup (br_name <$> rows) →
  map_result (place rows) records = Ok (zip (cr_instance_index <$> records) rows).
Proof. intros Ha Hn. apply placed_among; [done|]. intros. by apply row_named_exact. Qed.

(** The rows of each instance, under the instances in ascending order. *)
Definition instance_rows (records : list ClientRecord) (rows : list BreadthRow) : list (Z * list (Z * BreadthRow)) :=
  sorted_by fst (group_by fst (zip (cr_instance_index <$> records) rows)).

Lemma instance_rows_all records rows : length records = length rows →
  (instance_rows records rows ≫= (λ g, g.2.*2)) ≡ₚ rows.
Proof.
  intros Hl. unfold instance_rows. set (placed := zip _ _).
  rewrite (sorted_by_perm fst (group_by fst placed)).
  assert (∀ d : list (Z * list (Z * BreadthRow)), (d ≫= (λ g, g.2.*2)) = (d ≫= snd).*2) as E.
  { intros d. induction d as [|g d IH]; [done|]. cbn [mbind list_bind] in *. by rewrite IH, fmap_app. }
  rewrite E, (hd_all _ _ _ (holds_group_by fst placed)). unfold placed. by rewrite snd_zip by (rewrite length_fmap; lia).
Qed.

Lemma instance_rows_keys records rows : length records = length rows →
  (instance_rows records rows).*1 = sorted_set (cr_instance_index <$> records).
Proof.
  intros Hl. unfold instance_rows, sorted_set. set (placed := zip _ _).
  rewrite <- (sorted_by_map fst id fst) by done. apply sorted_by_id_perm.
  pose proof (holds_group_by fst placed) as Hh. apply NoDup_Permutation; [apply (hd_keys _ _ _ Hh)|apply NoDup_remove_dups|].
  intros i. rewrite elem_of_remove_dups.
  change (map fst (group_by fst placed)) with (group_by fst placed).*1.
  rewrite (bucket_keys_get (group_by fst placed) i (hd_full _ _ _ Hh) (hd_keys _ _ _ Hh)), (hd_get _ _ _ Hh), filter_some.
  assert (placed.*1 = cr_instance_index <$> records) as <- by (unfold placed; rewrite fst_zip; [done|rewrite length_fmap; lia]).
  rewrite list_elem_of_fmap. naive_solver.
Qed.

(** The census of each instance is that of its rows. *)
Definition instance_census (classified violates : bool) (g : Z * list (Z * BreadthRow)) (c : BreadthCensus) : Prop :=
  assembled classified violates (zlen g.2.*2) g.2.*2 (Some g.1) c.

Lemma assemble_instances_total classified records rows violates spans :
  br_name <$> rows = cr_name <$> records → NoDup (br_name <$> rows) → zlen rows < 2 ^ 63 →
  ∃ c, assemble_with_instances records rows classified violates spans = Ok c ∧ assembled classified violates (zlen records) rows None c ∧
    Forall2 (instance_census classified violates) (instance_rows records rows) (bc_instances c).
Proof.
  intros Ha Hn Hl. unfold assemble_with_instances.
  assert (length records = length rows) as Hlen by (apply (f_equal length) in Ha; rewrite !length_fmap in Ha; lia).
  destruct (assembles classified (zlen records) rows violates (sorted_by id (map_to_list spans).*2) None Hl) as (c & -> & Hc).
  cbn [mbind result_bind]. fold (place rows). rewrite placed_exact by done. cbn [mbind result_bind]. fold (instance_rows records rows).
  match goal with |- context [map_result ?f (instance_rows records rows)] =>
    destruct (map_result_Forall2 f (instance_census classified violates) (instance_rows records rows)) as (cs & -> & Hcs) end.
  { intros [i part] Hg. apply assembles. pose proof (instance_rows_all records rows Hlen) as Hp%Permutation_length.
    apply list_elem_of_split in Hg as (l1 & l2 & Hg). rewrite Hg, bind_app in Hp. cbn [mbind list_bind] in Hp. rewrite !length_app in Hp. cbn [snd] in Hp. unfold zlen in *. lia. }
  cbn [mbind result_bind]. destruct c, classified, Hc; cbn in *; (eexists; split; [done|]; split; [by constructor|done]).
Qed.

(** ** What the evidence says *)

Section Reader.
Context {E : EvidenceReader} (min_distinct : Z).

(** The ids that are not the client's own; the id zero stands for none. *)
Definition others (own_actor_id : Z) (ids : gset Z) : gset Z := if decide (own_actor_id = 0) then ids else ids ∖ {[own_actor_id]}.

(** A client's evidence says one of five things. *)
Inductive view_class := Proven | Stalled | Incomplete | Sparse | NeverOpened.

#[global] Instance view_class_eq_dec : EqDecision view_class.
Proof. solve_decision. Defined.

(** Stalled: some two consecutive frames of the window are further apart than two seconds. *)
Definition classify (own_actor_id : Z) (window : option WindowEvidence) : view_class :=
  match window with
  | None => NeverOpened
  | Some w =>
      if we_incomplete w then Incomplete
      else if decide (Z.of_nat (size (others own_actor_id (we_distinct_ids w))) < min_distinct) then Sparse
      else if decide (Exists (λ p, 2000000000 < p.2 - p.1) (pairwise (we_frame_ts_ns w))) then Stalled
      else Proven
  end.

(** The window of a client the reader answers for. *)
Definition window_of (rec : ClientRecord) : option WindowEvidence := match reader_window (cr_name rec) with Ok w => w | Err _ => None end.
Definition class_of (rec : ClientRecord) : view_class := classify (cr_own_actor_id rec) (window_of rec).

Definition answered (rec : ClientRecord) : Prop :=
  (∃ status, client_state (cr_name rec) = Ok status) ∧ (∃ w, reader_window (cr_name rec) = Ok w) ∧ (∃ n, evidence_span (cr_name rec) = Ok n).

Lemma distinct_exact ids own : distinct_non_self ids own = Z.of_nat (size (others own ids)).
Proof.
  unfold distinct_non_self, others. destruct (Z.eqb_spec own 0) as [->|Hne]; [done|]. rewrite decide_False by done.
  case_bool_decide as Hin.
  - rewrite (union_difference_singleton_L own ids) at 1 by done. rewrite size_union by set_solver. rewrite size_singleton. lia.
  - rewrite difference_disjoint_L by set_solver. lia.
Qed.

Lemma continuous_exact ts : window_stream_continuous ts = negb (bool_decide (Exists (λ p, 2000000000 < p.2 - p.1) (pairwise ts))).
Proof.
  unfold window_stream_continuous, MAX_GAP_NS. induction (pairwise ts) as [|[a b] l IH]; [done|]. cbn [forallb]. rewrite IH.
  destruct (Z.leb_spec (b - a) 2000000000) as [H|H]; cbn [andb].
  - f_equal. apply bool_decide_ext. rewrite Exists_cons. cbn. split; [tauto|intros [?|?]; [lia|done]].
  - symmetry. apply negb_false_iff, bool_decide_eq_true_2. left. cbn. lia.
Qed.

(** The probe of a client reads its class. *)
Lemma facts_exact rec : answered rec →
  client_view_facts rec min_distinct =
    Ok (bool_decide (class_of rec = Proven), bool_decide (class_of rec = Stalled), bool_decide (class_of rec = Incomplete)).
Proof.
  intros (_ & [w Hw] & _). unfold client_view_facts, class_of, window_of. rewrite Hw. cbn [mbind result_bind].
  destruct w as [w|]; [|done]. cbn [classify]. destruct (we_incomplete w); [done|]. rewrite distinct_exact, continuous_exact.
  case_decide as Hd; [by rewrite (proj2 (Z.ltb_lt _ _) Hd)|]. rewrite (proj2 (Z.ltb_ge _ _)) by lia.
  case_decide as Hs; [by rewrite bool_decide_eq_true_2|by rewrite bool_decide_eq_false_2].
Qed.

Definition session_of (rec : ClientRecord) : bool :=
  match client_state (cr_name rec) with Ok s => st_connected s && (st_bootstrap_state s =? BOOTSTRAP_READY) | Err _ => false end.

(** An isolated client whose window carried the bar. *)
Definition carried (rec : ClientRecord) : bool := bool_decide (class_of rec = Proven ∨ class_of rec = Stalled).

(** What the two passes leave in a row. *)
Record probed (rec : ClientRecord) (row row' : BreadthRow) : Prop := {
  pb_name : br_name row' = br_name row;
  pb_bound : br_bound row' = br_bound row;
  pb_isolated : br_isolated row' = br_isolated row;
  pb_session : br_session_ok row' = session_of rec;
  pb_observed : br_observed row' = bool_decide (class_of rec = Proven);
  pb_sparse : unexplained row' && br_window_present row' = bool_decide (class_of rec = Sparse);
  pb_never : unexplained row' && negb (br_window_present row') = bool_decide (class_of rec = NeverOpened);
  pb_stalled : br_stalled row' = bool_decide (class_of rec = Stalled);
  pb_incomplete : br_incomplete row' = bool_decide (class_of rec = Incomplete);
}.

Lemma probe_total rec row : answered rec → br_window_present row = false →
  ∃ row', probe_row min_distinct rec row = Ok row' ∧ probed rec row row'.
Proof.
  intros Ha Hp. pose proof (facts_exact rec Ha) as Hf. destruct Ha as ([status Hs] & [w Hw] & _). unfold probe_row.
  rewrite Hs, Hf, Hw. cbn [mbind result_bind].
  assert (class_of rec = NeverOpened ↔ w = None) as Hn.
  { unfold class_of, window_of. rewrite Hw. destruct w; [|done]. cbn. repeat case_match; done. }
  destruct w as [w|]; eexists; (split; [done|]); split; try done; unfold session_of, unexplained; cbn; try by rewrite Hs.
  all: try rewrite Hp; destruct (class_of rec) eqn:Ec; naive_solver.
Qed.

Lemma freshness_total rec row row' : answered rec → probed rec row row' →
  ∃ row'', freshness min_distinct rec row' = Ok row'' ∧ probed rec row row'' ∧ (br_isolated row'' = true → br_fresh row'' = carried rec).
Proof.
  intros (_ & [w Hw] & _) Hp. unfold freshness. destruct (br_isolated row') eqn:Ei.
  2:{ exists row'. split; [done|]. split; [done|]. congruence. }
  unfold view_evidence_fresh. rewrite Hw. cbn [mbind result_bind].
  match goal with |- context [mbind _ ?r] => assert (r = Ok (carried rec)) as -> end.
  { unfold carried, class_of, window_of. rewrite Hw. destruct w as [w|]; [|done]. cbn. destruct (we_incomplete w); [done|].
    rewrite distinct_exact. cbn. f_equal. case_decide; [rewrite (proj2 (Z.leb_gt _ _)) by lia|rewrite (proj2 (Z.leb_le _ _)) by lia];
      [done|]. by case_decide. }
  cbn [mbind result_bind]. eexists. split; [done|]. split; [|done]. by destruct Hp.
Qed.

Definition passed (records : list ClientRecord) (rows rows2 : list BreadthRow) : Prop :=
  Forall2 (λ p row, probed p.1 p.2 row) (zip records rows) rows2.

Definition refreshed (records : list ClientRecord) (rows rows2 : list BreadthRow) : Prop :=
  Forall2 (λ p row, probed p.1 p.2 row ∧ (br_isolated row = true → br_fresh row = carried p.1)) (zip records rows) rows2.

Lemma refreshed_passed records rows rows2 : refreshed records rows rows2 → passed records rows rows2.
Proof. intros H. eapply Forall2_impl; [exact H|]. by intros ? ? [? _]. Qed.

Lemma passes_total records rows : Forall answered records → Forall (λ row, br_window_present row = false) rows →
  length records = length rows → ∃ rows1 rows2, probe_breadth_rows records rows min_distinct = Ok rows1 ∧
    zip_strict (freshness min_distinct) records rows1 = Ok rows2 ∧
    passed records rows rows1 ∧ refreshed records rows rows2.
Proof.
  unfold passed, refreshed. intros Ha. revert rows. induction Ha as [|rec records Hrec Ha IH]; intros [|row rows] Hp Hl; try done; [by exists [], []|].
  apply Forall_cons in Hp as [Hrow Hp]. destruct (IH rows Hp ltac:(cbn in Hl; lia)) as (rows1 & rows2 & E1 & E2 & HF1 & HF).
  destruct (probe_total rec row Hrec Hrow) as (r1 & P1 & Q1). destruct (freshness_total rec row r1 Hrec Q1) as (r2 & P2 & Q2).
  exists (r1 :: rows1), (r2 :: rows2). unfold probe_breadth_rows in *. cbn [zip_strict zip_with]. rewrite P1. cbn [mbind result_bind].
  rewrite E1. cbn [mbind result_bind zip_strict]. rewrite P2. cbn [mbind result_bind]. rewrite E2. split; [done|]. split; [done|].
  split; by constructor.
Qed.

Lemma spans_total records spans : Forall answered records → ∃ m, spans_of records spans = Ok m.
Proof.
  intros Ha. revert spans. induction Ha as [|rec records (_ & _ & [n Hn]) Ha IH]; intros spans; [by eexists|].
  cbn [spans_of]. rewrite Hn. cbn [mbind result_bind]. apply IH.
Qed.

Lemma count_if_Forall2 {A B} (p : B → bool) (q : A → bool) (R : A → B → Prop) l k : Forall2 R l k → (∀ x y, R x y → p y = q x) →
  count_if p k = count_if q l.
Proof. intros Hl Hr. induction Hl as [|x y l k Hxy Hl IH]; [done|]. by rewrite !count_if_cons, IH, (Hr x y). Qed.

(** ** The census of a cohort *)

(** The pooled census of prepared rows. *)
Record pooled_spec (records : list ClientRecord) (rows : list BreadthRow) (violates : bool) (c : BreadthCensus) : Prop := {
  sp_total : bc_total c = zlen records;
  sp_session : bc_session_ok_count c = count_if session_of records;
  sp_classified : bc_classified_clients c = Some (count_if br_bound rows);
  sp_isolated : bc_isolated_clients c = Some (count_if isolated rows);
  sp_eligible : bc_eligible_clients c = Some (count_if eligible rows);
  sp_selected : bc_selected_count c = count_if (λ p, eligible p.2 && bool_decide (class_of p.1 = Proven)) (zip records rows);
  sp_sparse : bc_sparse_clients c = count_if (λ p, eligible p.2 && bool_decide (class_of p.1 = Sparse)) (zip records rows);
  sp_never : bc_never_opened_clients c = count_if (λ p, eligible p.2 && bool_decide (class_of p.1 = NeverOpened)) (zip records rows);
  sp_residue : count_if eligible rows - bc_selected_count c - bc_sparse_clients c - bc_never_opened_clients c =
    count_if (λ p, eligible p.2 && bool_decide (class_of p.1 = Stalled ∨ class_of p.1 = Incomplete)) (zip records rows);
  sp_stalled : bc_stalled_clients c = count_if (λ rec, bool_decide (class_of rec = Stalled)) records;
  sp_incomplete : bc_incomplete_evidence_clients c = count_if (λ rec, bool_decide (class_of rec = Incomplete)) records;
  sp_violation : bc_violation c = None ↔
    (∀ bar, to_float (count_if br_bound rows) = Ok bar →
       count_if br_bound rows = 0 ∨ int_gt (count_if isolated rows) (fmul ISOLATED_FRACTION_MAX bar) = false) ∧
    (violates = true → ∀ p, p ∈ zip records rows → isolated p.2 && carried p.1 = false);
}.

(** The census without a roster. *)
Record plain_spec (records : list ClientRecord) (c : BreadthCensus) : Prop := {
  sl_total : bc_total c = zlen records;
  sl_session : bc_session_ok_count c = count_if session_of records;
  sl_none : bc_classified_clients c = None ∧ bc_isolated_clients c = None ∧ bc_eligible_clients c = None ∧ bc_violation c = None;
  sl_selected : bc_selected_count c = count_if (λ rec, bool_decide (class_of rec = Proven)) records;
  sl_sparse : bc_sparse_clients c = count_if (λ rec, bool_decide (class_of rec = Sparse)) records;
  sl_never : bc_never_opened_clients c = count_if (λ rec, bool_decide (class_of rec = NeverOpened)) records;
  sl_stalled : bc_stalled_clients c = count_if (λ rec, bool_decide (class_of rec = Stalled)) records;
  sl_incomplete : bc_incomplete_evidence_clients c = count_if (λ rec, bool_decide (class_of rec = Incomplete)) records;
}.

(** One census for each instance, and that they add up to the pooled one. *)
Record instances_spec (records : list ClientRecord) (c : BreadthCensus) : Prop := {
  sp_instances : bc_instance_index <$> bc_instances c = Some <$> sorted_set (cr_instance_index <$> records);
  sp_sum_total : sum_of bc_total (bc_instances c) = bc_total c;
  sp_sum_session : sum_of bc_session_ok_count (bc_instances c) = bc_session_ok_count c;
  sp_sum_selected : sum_of bc_selected_count (bc_instances c) = bc_selected_count c;
  sp_sum_eligible : is_Some (bc_eligible_clients c) → Some (sum_of (λ i, default 0 (bc_eligible_clients i)) (bc_instances c)) = bc_eligible_clients c;
}.

Lemma instances_sum classified records rows violates cs (g : BreadthCensus → Z) (p : BreadthRow → bool) : length records = length rows →
  (∀ part i c, assembled classified violates (zlen part) part (Some i) c → g c = count_if p part) →
  Forall2 (instance_census classified violates) (instance_rows records rows) cs → sum_of g cs = count_if p rows.
Proof.
  intros Hl Hg Hcs. rewrite (sum_of_Forall2 (λ x, count_if p x.2.*2) g _ _ _ Hcs) by (intros [i part] c; apply Hg).
  rewrite <- (count_if_perm p _ _ (instance_rows_all records rows Hl)). clear Hcs.
  induction (instance_rows records rows) as [|x l IH]; [done|]. cbn [mbind list_bind]. by rewrite sum_of_cons, count_if_app, IH.
Qed.

Lemma classes_split (pairs : list (ClientRecord * BreadthRow)) :
  let among P := count_if (λ p, eligible p.2 && P (class_of p.1)) pairs in
  count_if (λ p, eligible p.2) pairs - among (λ k, bool_decide (k = Proven)) - among (λ k, bool_decide (k = Sparse))
    - among (λ k, bool_decide (k = NeverOpened)) = among (λ k, bool_decide (k = Stalled ∨ k = Incomplete)).
Proof.
  induction pairs as [|p pairs IH]; [done|]. cbv zeta beta in *. rewrite !count_if_cons.
  destruct (eligible p.2); cbn [andb]; [|lia]. destruct (class_of p.1); repeat case_bool_decide; first [lia|naive_solver].
Qed.

Section Passed.
Context (records : list ClientRecord) (rows rows2 : list BreadthRow) (Hl : length records = length rows) (HF : passed records rows rows2).

Lemma passed_count p q : (∀ rec row row', probed rec row row' → p row' = q (rec, row)) → count_if p rows2 = count_if q (zip records rows).
Proof. intros Hpq. apply (count_if_Forall2 _ _ _ _ _ HF). intros [rec row] r Hr. by apply (Hpq rec row). Qed.

Lemma count_rows q : count_if q rows = count_if (λ p, q p.2) (zip records rows).
Proof. rewrite <- (snd_zip records rows) at 1 by lia. by rewrite count_if_fmap. Qed.

Lemma count_records q : count_if q records = count_if (λ p, q p.1) (zip records rows).
Proof. rewrite <- (fst_zip records rows) at 1 by lia. by rewrite count_if_fmap. Qed.

Lemma passed_same (q : BreadthRow → bool) : (∀ rec row row', probed rec row row' → q row' = q row) → count_if q rows2 = count_if q rows.
Proof. intros Hk. rewrite count_rows. by apply passed_count. Qed.

Lemma passed_length : length rows2 = length rows.
Proof. apply Forall2_length in HF. rewrite length_zip in HF. lia. Qed.

Lemma passed_names : br_name <$> rows2 = br_name <$> rows.
Proof.
  rewrite <- (snd_zip records rows) at 1 by lia. clear Hl. unfold passed in HF. induction HF as [|p r ps rs Hpb HF' IH]; [done|].
  cbn in *. by rewrite IH, (pb_name _ _ _ Hpb).
Qed.

Lemma probed_eligible rec row row' : probed rec row row' → eligible row' = eligible row.
Proof. intros [_ Hb Hi _ _ _ _ _ _]. unfold eligible. by rewrite Hb, Hi. Qed.

Lemma probed_isolated rec row row' : probed rec row row' → isolated row' = isolated row.
Proof. intros [_ Hb Hi _ _ _ _ _ _]. unfold isolated. by rewrite Hb, Hi. Qed.

Lemma passed_among klass (p : BreadthRow → bool) : (∀ rec row row', probed rec row row' → p row' = bool_decide (class_of rec = klass)) →
  count_if (λ r, eligible r && p r) rows2 = count_if (λ x, eligible x.2 && bool_decide (class_of x.1 = klass)) (zip records rows).
Proof. intros Hp. apply passed_count. intros rec row row' Hr. by rewrite (probed_eligible _ _ _ Hr), (Hp _ _ _ Hr). Qed.

Lemma passed_class klass (p : BreadthRow → bool) : (∀ rec row row', probed rec row row' → p row' = bool_decide (class_of rec = klass)) →
  count_if p rows2 = count_if (λ rec, bool_decide (class_of rec = klass)) records.
Proof. intros Hp. rewrite count_records. apply passed_count. intros rec row row' Hr. by apply (Hp _ row). Qed.

(** No isolated row is fresh when no isolated client's window carried the bar. *)
Lemma passed_fresh : refreshed records rows rows2 → (∀ row, row ∈ rows2 → isolated row && br_fresh row = false) ↔
  (∀ p, p ∈ zip records rows → isolated p.2 && carried p.1 = false).
Proof.
  intros HR. rewrite <- !count_if_zero. rewrite (count_if_Forall2 _ (λ p, isolated p.2 && carried p.1) _ _ _ HR); [done|].
  intros [rec row] r [Hr Hf]. cbn in *. rewrite (probed_isolated _ _ _ Hr). unfold isolated in *. rewrite <- (pb_isolated _ _ _ Hr).
  destruct (br_isolated r); [by rewrite Hf|]. by rewrite andb_false_r.
Qed.

Lemma pooled_exact violates c : refreshed records rows rows2 → census_of (zlen records) rows2 violates None c → pooled_spec records rows violates c.
Proof.
  intros HR [C1 C2 C3 C4 C5 C6 C7 C8 C9 _ C10 C11]. unfold lawful in C9. rewrite (passed_fresh HR) in C9.
  rewrite (passed_same br_bound) in C3, C9 by (intros ? ? ? Hr; apply Hr). rewrite (passed_same isolated) in C4, C9 by apply probed_isolated.
  rewrite (passed_same eligible) in C5 by apply probed_eligible.
  rewrite (passed_count _ (λ p, session_of p.1)), <- (count_records session_of) in C2 by (intros ? ? ? Hr; apply Hr).
  rewrite (passed_among Proven) in C6 by apply pb_observed. rewrite (passed_among Sparse) in C7 by apply pb_sparse.
  rewrite (passed_among NeverOpened) in C8 by apply pb_never.
  rewrite (passed_class Stalled) in C10 by apply pb_stalled. rewrite (passed_class Incomplete) in C11 by apply pb_incomplete.
  split; try done. rewrite C6, C7, C8, count_rows. apply (classes_split (zip records rows)).
Qed.

Lemma plain_exact c : plain_census_of (zlen records) rows2 None c → plain_spec records c.
Proof.
  intros [C1 C2 C3 C4 C5 C6 _ C8 C9]. rewrite (passed_count _ (λ p, session_of p.1)), <- (count_records session_of) in C2 by (intros ? ? ? Hr; apply Hr).
  rewrite (passed_class Proven) in C4 by apply pb_observed. rewrite (passed_class Sparse) in C5 by apply pb_sparse.
  rewrite (passed_class NeverOpened) in C6 by apply pb_never. rewrite (passed_class Stalled) in C8 by apply pb_stalled.
  rewrite (passed_class Incomplete) in C9 by apply pb_incomplete. by split.
Qed.

Lemma instances_exact classified violates c : assembled classified violates (zlen records) rows2 None c →
  Forall2 (instance_census classified violates) (instance_rows records rows2) (bc_instances c) → instances_spec records c.
Proof.
  intros Hc Hcs. pose proof passed_length as Hl2. assert (length records = length rows2) as Hl3 by lia.
  assert (∀ g p, (∀ t part i c, assembled classified violates t part i c → g c = count_if p part) → sum_of g (bc_instances c) = g c) as Hsum.
  { intros g p Hg. rewrite (Hg _ _ _ _ Hc). apply (instances_sum classified records rows2 violates _ g p Hl3); [|done]. intros part i c'. apply Hg. }
  split.
  - rewrite <- (instance_rows_keys records rows2) by done. clear -Hcs. induction Hcs as [|[i part] c' gs cs Hc Hcs IH]; [done|]. cbn in *. rewrite IH.
    f_equal. destruct classified; apply Hc.
  - assert (∀ t part i c', assembled classified violates t part i c' → bc_total c' = t) as Ht by (intros; by destruct classified; apply H).
    rewrite (Ht _ _ _ _ Hc). transitivity (zlen rows2); [|unfold zlen; lia]. rewrite zlen_count_if.
    apply (instances_sum classified records rows2 violates _ _ _ Hl3); [|done]. intros part i c' Hc'. by rewrite (Ht _ _ _ _ Hc'), zlen_count_if.
  - apply (Hsum _ br_session_ok). intros t part i c' Hc'. destruct classified; apply Hc'.
  - destruct classified; [apply (Hsum _ (λ r, eligible r && br_observed r))|apply (Hsum _ br_observed)]; intros t part i c' Hc'; apply Hc'.
  - destruct classified; [|intros [x Hx]; destruct Hc as [_ _ (_ & _ & Hn & _)]; congruence]. intros _. rewrite (cn_eligible _ _ _ _ _ Hc). f_equal.
    apply (instances_sum true records rows2 violates _ _ _ Hl3); [|done]. intros part i c' Hc'. by rewrite (cn_eligible _ _ _ _ _ Hc').
Qed.
End Passed.

(** C17: For records with distinct names, in the order of the rows, whose
    evidence the reader can answer for and whose rows hold no window yet
    (fewer than 2^63), both modes of the census are produced. With a roster it
    counts as selected exactly the bound, non-isolated clients whose window is
    complete, holds the required number of other actors and has no gap above
    two seconds; sparse and never-opened clients are counted among the same
    eligible ones, stalled and incomplete ones among all; a violation is
    reported exactly when the isolated fraction passes its bar or, where that
    counts, an isolated client's window carried the bar. Without a roster
    there are no denominators and no violation, and every class is counted
    over all clients. In both modes there is one census per instance, in
    order, and totals, sessions, selected and (with a roster) eligible counts
    add up to the pooled census. *)
Theorem census_exact records rows violates :
  br_name <$> rows = cr_name <$> records → NoDup (cr_name <$> records) → Forall answered records →
  Forall (λ row, br_window_present row = false) rows → zlen records < 2 ^ 63 →
  (∃ c, finish_breadth records rows min_distinct true violates = Ok c ∧ pooled_spec records rows violates c ∧ instances_spec records c) ∧
  (∃ c, finish_breadth records rows min_distinct false violates = Ok c ∧ plain_spec records c ∧ instances_spec records c).
Proof.
  intros Hn Hd Ha Hp Hlen. assert (length records = length rows) as Hl by (apply (f_equal length) in Hn; rewrite !length_fmap in Hn; lia).
  destruct (passes_total records rows Ha Hp Hl) as (rows1 & rows2 & E1 & E2 & HF1 & HR). pose proof (refreshed_passed _ _ _ HR) as HF. destruct (spans_total records ∅ Ha) as [spans E3].
  unfold finish_breadth. rewrite E1. cbn [mbind result_bind negb]. rewrite E2. cbn [mbind result_bind]. rewrite E3. cbn [mbind result_bind]. split.
  - pose proof (passed_length _ _ _ Hl HF) as Hl2. pose proof (passed_names _ _ _ Hl HF) as Hn2. rewrite Hn in Hn2.
    destruct (assemble_instances_total true records rows2 violates spans) as (c & -> & Hc & Hcs); [done|by rewrite Hn2|unfold zlen in *; lia|].
    exists c. split; [done|]. split; [by apply (pooled_exact _ _ _ Hl HF)|by apply (instances_exact _ _ _ Hl HF true violates)].
  - pose proof (passed_length _ _ _ Hl HF1) as Hl1. pose proof (passed_names _ _ _ Hl HF1) as Hn1. rewrite Hn in Hn1.
    destruct (assemble_instances_total false records rows1 true ∅) as (c & -> & Hc & Hcs); [done|by rewrite Hn1|unfold zlen in *; lia|].
    exists c. split; [done|]. split; [by apply (plain_exact _ _ _ Hl HF1)|by apply (instances_exact _ _ _ Hl HF1 false true)].
Qed.
End Reader.
