(* ===== verification/DepthTheorems.v ===== *)
(** * Depth: the echoes of a client's inputs

    The histogram of the steps between consecutive echoes accounts for every
    echo, and what it implies missing is what no echo carried. *)

From S2P Require Import Prelude PyStruct PyText PyFloat PyJson PyWire PyArith GapLedger LedgerTheorems Replication Correlator AgentControl Evidence Roster Depth Breadth CensusTheorems.

#[local] Open Scope Z_scope.

(** ** Steps between echoes *)

Definition steps (l : list Z) : list Z := (λ p, p.2 - p.1) <$> pairwise l.

Lemma tick_deltas_steps ordered : tick_deltas ordered = steps (fr_input_tick <$> ordered).
Proof.
  unfold tick_deltas, steps. induction ordered as [|a [|b l] IH]; [done..|]. cbn [pairwise fmap list_fmap] in *. by rewrite IH.
Qed.

(** How many deltas a tally counted. *)
Definition tallied (t : tally) : Z := ta_delta1 t + ta_delta2 t + ta_delta3_5 t + ta_delta6_20 t + ta_delta21_plus t + ta_regressed t.

Lemma tally_step t d : tallied (tally_delta t d) = tallied t + 1 ∧ ta_missing (tally_delta t d) = ta_missing t + Z.max 0 (d - 1) ∧
  ta_regressed (tally_delta t d) = ta_regressed t + (if d <=? 0 then 1 else 0).
Proof.
  destruct t. unfold tally_delta, tallied. repeat case_match; cbn; lia.
Qed.

Lemma tally_all t l : let t' := foldl tally_delta t l in
  tallied t' = tallied t + zlen l ∧ ta_missing t' = ta_missing t + sum_of (λ d, Z.max 0 (d - 1)) l ∧
  ta_regressed t' = ta_regressed t + count_if (λ d, d <=? 0) l.
Proof.
  cbv zeta. revert t. induction l as [|d l IH]; intros t; [cbn; unfold count_if, zlen; cbn; lia|]. cbn [foldl].
  destruct (IH (tally_delta t d)) as (-> & -> & ->). destruct (tally_step t d) as (-> & -> & ->). rewrite sum_of_cons.
  rewrite count_if_cons. unfold zlen. cbn [length]. lia.
Qed.

(** The ticks from the first to the last, and those of them never echoed. *)
Definition spanned (l : list Z) : gset Z := match l with [] => ∅ | x :: _ => list_to_set (seqZ x (List.last l x - x + 1)) end.
Definition unechoed (l : list Z) : gset Z := spanned l ∖ list_to_set l.

Lemma elem_of_spanned x l i : i ∈ spanned (x :: l) ↔ x ≤ i ≤ List.last (x :: l) x.
Proof. unfold spanned. rewrite elem_of_list_to_set, elem_of_seqZ. lia. Qed.

Definition never_falls (l : list Z) : Prop := Forall (λ d, 0 ≤ d) (steps l).

Lemma never_falls_above x l : never_falls (x :: l) → Forall (λ y, x ≤ y) (x :: l) ∧ x ≤ List.last (x :: l) x.
Proof.
  revert x. induction l as [|y l IH]; intros x Hx; [split; [by constructor|cbn; lia]|].
  apply Forall_cons in Hx as [Hd Hx]. cbn in Hd. destruct (IH y Hx) as [Hy Hlast].
  assert (List.last (x :: y :: l) x = List.last (y :: l) y) as -> by (cbn; clear; revert y; induction l; intros; cbn; [done|destruct l; auto]).
  split; [|lia]. constructor; [lia|]. eapply Forall_impl; [done|]. cbn. lia.
Qed.

Lemma last_cons {A} (x y d : A) l : List.last (x :: y :: l) d = List.last (y :: l) d.
Proof. done. Qed.

Lemma last_default {A} (x d d' : A) l : List.last (x :: l) d = List.last (x :: l) d'.
Proof. revert x. induction l as [|y l IH]; intros x; [done|]. by rewrite !last_cons. Qed.

(** In a list of ticks that never falls, the steps above one sum to the ticks never echoed. *)
Lemma unechoed_steps x l : never_falls (x :: l) →
  sum_of (λ d, Z.max 0 (d - 1)) (steps (x :: l)) = Z.of_nat (size (unechoed (x :: l))).
Proof.
  revert x. induction l as [|y l IH]; intros x Hx.
  { unfold unechoed. cbn. assert (seqZ x (x - x + 1) = [x]) as -> by (replace (x - x + 1) with 1 by lia; done).
    assert ((list_to_set [x] : gset Z) ∖ ({[x]} ∪ ∅) = ∅) as -> by set_solver. done. }
  pose proof (never_falls_above x (y :: l) Hx) as [_ Hxl]. apply Forall_cons in Hx as [Hd Hx]. cbn in Hd.
  pose proof (never_falls_above y l Hx) as [Hy Hyl].
  change (steps (x :: y :: l)) with ((y - x) :: steps (y :: l)). rewrite sum_of_cons, IH by done.
  assert (unechoed (x :: y :: l) = list_to_set (seqZ (x + 1) (y - x - 1)) ∪ unechoed (y :: l)) as ->.
  { apply set_eq. intros i. unfold unechoed. rewrite elem_of_union, !elem_of_difference, !elem_of_spanned, last_cons, (last_default y x y).
    rewrite !elem_of_list_to_set, elem_of_seqZ, !elem_of_cons. rewrite Forall_forall in Hy.
    assert (∀ j, j ∈ l → y ≤ j) as Hl by (intros; apply Hy; by right).
    split.
    - intros [Hi Hn]. destruct (Z.lt_ge_cases i y); [left; lia|right; split; [lia|tauto]].
    - intros [Hi|[Hi Hn]]; (split; [lia|]); [|destruct (decide (i = x)); [subst; intros _; apply Hn; left; lia|tauto]].
      intros [?|[?|?%Hl]]; lia. }
  rewrite size_union.
  - rewrite size_list_to_set by apply NoDup_seqZ. rewrite length_seqZ. lia.
  - intros i. rewrite elem_of_list_to_set, elem_of_seqZ. unfold unechoed. rewrite elem_of_difference, elem_of_spanned. lia.
Qed.

(** ** The histogram *)

(** A client's echoed ticks in the order they arrived. *)
Definition arrivals_of (cs : ClientSeries) : list Z := fr_input_tick <$> sorted_by fr_ts_ns (se_frames cs).

Definition implied (cs : ClientSeries) : Z := sum_of (λ d, Z.max 0 (d - 1)) (steps (arrivals_of cs)).

Definition times_small (cs : ClientSeries) : Prop := Forall (λ f, small (fr_ts_ns f)) (se_frames cs).

Definition sounded (cs : ClientSeries) : bool := negb (bool_decide (length (se_frames cs) = 0%nat)).

Lemma length_pairwise {A} (l : list A) : length (pairwise l) = (length l - 1)%nat.
Proof. induction l as [|x [|y l] IH]; [done..|]. cbn [pairwise length] in *. rewrite IH. lia. Qed.

Lemma histogram_step_total frames t m k cs : times_small cs →
  ∃ m' k', histogram_step (frames, t, m, k) cs =
    Ok (frames + zlen (se_frames cs), foldl tally_delta t (steps (arrivals_of cs)), m', k').
Proof.
  intros Hs. unfold histogram_step, arrivals_of. pose proof (length_sorted_by fr_ts_ns (se_frames cs)) as Hl.
  assert (Forall (λ f, small (fr_ts_ns f)) (sorted_by fr_ts_ns (se_frames cs))) as Hs' by (by rewrite sorted_by_perm).
  destruct (sorted_by fr_ts_ns (se_frames cs)) as [|first rest] eqn:E.
  { exists m, k. cbn in *. unfold zlen. rewrite <- Hl. cbn. do 4 f_equal. lia. }
  rewrite tick_deltas_steps. assert (zlen (first :: rest) = zlen (se_frames cs)) as -> by (unfold zlen; lia).
  destruct (Z.ltb_spec 0 (se_window_end_ns cs - se_window_start_ns cs)) as [Hw|Hw]; [|by eexists _, _].
  assert (small (fr_ts_ns first)) as Hf by (by apply Forall_inv in Hs').
  assert (small (fr_ts_ns (List.last (first :: rest) first))) as Hlast.
  { rewrite Forall_forall in Hs'. apply Hs'. clear. generalize first at 2 as d. intros d. revert first.
    induction rest as [|y l IH]; intros x; [by left|]. rewrite last_cons. right. apply IH. }
  destruct (int_div_total (fr_ts_ns (List.last (first :: rest) first) - fr_ts_ns first) (se_window_end_ns cs - se_window_start_ns cs) Hw)
    as (neg & mm & e & ->).
  { unfold small in *. apply Z.lt_trans with (2 ^ 64); [lia|]. apply Z.pow_lt_mono_r; lia. }
  cbn [mbind result_bind]. by eexists _, _.
Qed.

(** What the folding of the series leaves. *)
Lemma histogram_fold frames t m k series : Forall times_small series →
  ∃ t' m' k', fold_result histogram_step (frames, t, m, k) series = Ok (frames + sum_of (λ cs, zlen (se_frames cs)) series, t', m', k') ∧
    tallied t' = tallied t + sum_of (λ cs, zlen (se_frames cs)) series - count_if sounded series ∧
    ta_missing t' = ta_missing t + sum_of implied series ∧
    ta_regressed t' = ta_regressed t + sum_of (λ cs, count_if (λ d, d <=? 0) (steps (arrivals_of cs))) series.
Proof.
  intros Hs. revert frames t m k. induction Hs as [|cs series Hcs Hs IH]; intros frames t m k.
  { exists t, m, k. cbn. unfold count_if, zlen. cbn. split; [do 4 f_equal|]; lia. }
  cbn [fold_result]. destruct (histogram_step_total frames t m k cs Hcs) as (m1 & k1 & ->). cbn [mbind result_bind].
  destruct (IH (frames + zlen (se_frames cs)) (foldl tally_delta t (steps (arrivals_of cs))) m1 k1) as (t' & m' & k' & -> & H1 & H2 & H3).
  destruct (tally_all t (steps (arrivals_of cs))) as (T1 & T2 & T3). exists t', m', k'. rewrite !sum_of_cons, count_if_cons.
  split; [do 4 f_equal; lia|]. rewrite H1, H2, H3, T1, T2, T3. unfold implied.
  assert (zlen (steps (arrivals_of cs)) = zlen (se_frames cs) - (if sounded cs then 1 else 0)) as ->; [|lia].
  unfold steps, arrivals_of, zlen, sounded. rewrite length_fmap, length_pairwise, length_fmap, length_sorted_by. case_bool_decide; cbn; lia.
Qed.

(** On series whose times fit 63 bits the histogram is produced; its classes
    and the regressions together count every echo but the first of each client
    that has one, regressions are the steps that do not advance, and where
    ticks never fall the implied losses are exactly the ticks between a
    client's first and last echo that no echo carried. *)
Theorem histogram_exact series : Forall times_small series →
  ∃ h, echo_delta_histogram series = Ok h ∧
    eh_frames h = sum_of (λ cs, zlen (se_frames cs)) series ∧
    eh_delta1 h + eh_delta2 h + eh_delta3_5 h + eh_delta6_20 h + eh_delta21_plus h + eh_regressed h = eh_frames h - count_if sounded series ∧
    eh_regressed h = sum_of (λ cs, count_if (λ d, d <=? 0) (steps (arrivals_of cs))) series ∧
    (Forall (λ cs, never_falls (arrivals_of cs)) series →
       eh_missing_implied h = sum_of (λ cs, Z.of_nat (size (unechoed (arrivals_of cs)))) series).
Proof.
  intros Hs. unfold echo_delta_histogram. destruct (histogram_fold 0 (mkTally 0 0 0 0 0 0 0) ONE 0 series Hs) as (t & m & k & -> & H1 & H2 & H3).
  cbn [mbind result_bind]. eexists. split; [done|]. cbn [eh_frames eh_delta1 eh_delta2 eh_delta3_5 eh_delta6_20 eh_delta21_plus eh_regressed eh_missing_implied].
  unfold tallied in H1. cbn in H1, H2, H3. split; [lia|]. split; [lia|]. split; [lia|].
  intros Hn. rewrite H2. apply sum_of_ext. intros cs Hcs. rewrite Forall_forall in Hn. specialize (Hn cs Hcs). unfold implied.
  destruct (arrivals_of cs) as [|x l]; [done|]. by apply unechoed_steps.
Qed.

(** ** Rows *)

Section Rows.
Context {E : EvidenceReader}.

(** Every echo of the client's own actor in its history, as a full decoding of each payload finds them. *)
Definition echoes (rec : ClientRecord) : list SeriesFrame :=
  match reader_events (cr_name rec) 100000 with
  | Ok events => events ≫= λ e,
      map (λ v, mkFrame (ce_ts_mono_ns e) (av_input_tick v) (av_update_seq v))
        (filter (λ v, av_actor_id v = cr_own_actor_id rec) (state_records (ce_type_id e) (ce_payload e)))
  | Err _ => []
  end.

(** The echoes of the certification interval; a record never stamped has none. *)
Definition certified (drain_ns : Z) (rec : ClientRecord) : list SeriesFrame :=
  filter (λ f, cr_movement_start_ns rec ≠ 0 ∧ cr_movement_start_ns rec ≤ fr_ts_ns f ∧ fr_ts_ns f ≤ cr_movement_end_ns rec + drain_ns) (echoes rec).

(** The inputs the counter certifies: from the first echo of the interval to the highest counter in it. *)
Definition certifies (frames : list SeriesFrame) (n : Z) : Prop :=
  ∃ first top, first ∈ frames ∧ (∀ f, f ∈ frames → fr_ts_ns first ≤ fr_ts_ns f) ∧
    top ∈ frames ∧ (∀ f, f ∈ frames → fr_update_seq f ≤ fr_update_seq top) ∧ n = fr_update_seq top - fr_update_seq first.

Record depth_spec (drain_ns : Z) (rec : ClientRecord) (out : ClientDepthRow * ClientSeries) : Prop := {
  ds_name : dr_name out.1 = cr_name rec;
  ds_submitted : dr_submitted out.1 = cr_inputs_submitted rec;
  ds_observed : dr_observed out.1 = Z.of_nat (size (list_to_set (fr_input_tick <$> echoes rec) : gset Z));
  ds_fallback : dr_certified_fallback out.1 = true ↔
    certified drain_ns rec ≠ [] ∧ Forall (λ f, fr_update_seq f = 0) (certified drain_ns rec);
  ds_silent : certified drain_ns rec = [] → dr_certified_missing out.1 = cr_inputs_submitted rec;
  ds_unminted : dr_certified_fallback out.1 = true → dr_certified_missing out.1 = Z.max 0 (cr_inputs_submitted rec - dr_observed out.1);
  ds_certified : certified drain_ns rec ≠ [] → dr_certified_fallback out.1 = false →
    ∃ n, certifies (certified drain_ns rec) n ∧ dr_certified_missing out.1 = Z.max 0 (cr_inputs_submitted rec - n);
  ds_series : out.2 = mkSeries (cr_name rec) (cr_instance_index rec) (cr_movement_start_ns rec) (cr_movement_end_ns rec)
    (filter (λ f, fr_ts_ns f ≤ cr_movement_end_ns rec) (certified drain_ns rec));
}.

Lemma map_result_events own events :
  map_result (event_frames own) events = Ok (map (λ e,
      map (λ v, mkFrame (ce_ts_mono_ns e) (av_input_tick v) (av_update_seq v))
        (filter (λ v, av_actor_id v = own) (state_records (ce_type_id e) (ce_payload e)))) events).
Proof.
  induction events as [|e events IH]; [done|]. cbn [map_result map].
  match goal with |- context [event_frames own e] => assert (event_frames own e = Ok (map (λ v, mkFrame (ce_ts_mono_ns e) (av_input_tick v)
    (av_update_seq v)) (filter (λ v, av_actor_id v = own) (state_records (ce_type_id e) (ce_payload e))))) as -> end.
  { unfold event_frames. by rewrite (proj1 (iterators_exact _ _ _)). }
  cbn [mbind result_bind]. by rewrite IH.
Qed.

Lemma max_of_upper l x : x ∈ l → x ≤ max_of l.
Proof.
  destruct l as [|y l]; [set_solver|]. cbn. revert x y. induction l as [|z l IH]; intros x y; cbn [foldl].
  - intros ->%list_elem_of_singleton. lia.
  - intros [->|[->|Hx]%elem_of_cons]%elem_of_cons.
    + etrans; [|apply (IH (Z.max y z) (Z.max y z)); by left]. lia.
    + etrans; [|apply (IH (Z.max y z) (Z.max y z)); by left]. lia.
    + apply IH. by right.
Qed.

Lemma ascending_head first rest f : ascending fr_ts_ns (first :: rest) = true → f ∈ first :: rest → fr_ts_ns first ≤ fr_ts_ns f.
Proof.
  intros Ha [->|Hf]%elem_of_cons; [lia|]. apply ascending_cons in Ha as [Ha _]. rewrite Forall_forall in Ha. apply Ha in Hf.
  unfold key_le in Hf. cbn in Hf. lia.
Qed.

(** The two branches of the certified rule on a nonempty interval. *)
Lemma certified_missing_exact frames submitted observed : frames ≠ [] →
  let '(missing, fallback) := count_certified_missing frames submitted observed in
  (fallback = true ↔ Forall (λ f, fr_update_seq f = 0) frames) ∧
  (fallback = true → missing = Z.max 0 (submitted - observed)) ∧
  (fallback = false → ∃ n, certifies frames n ∧ missing = Z.max 0 (submitted - n)).
Proof.
  intros Hne. unfold count_certified_missing. pose proof (sorted_by_perm fr_ts_ns frames) as Hp.
  pose proof (sorted_by_ascending fr_ts_ns frames) as Ha.
  destruct (sorted_by fr_ts_ns frames) as [|first rest] eqn:Es; [by apply sorted_by_nil in Es|].
  assert (Forall (λ f, fr_update_seq f = 0) frames ↔ forallb (λ f, fr_update_seq f =? 0) (first :: rest) = true) as Hz.
  { rewrite <- Hp, forallb_forall, Forall_forall. setoid_rewrite Z.eqb_eq. setoid_rewrite list_elem_of_In. done. }
  destruct (forallb _ _); [split; [tauto|by split]|]. split; [rewrite Hz; done|]. split; [done|]. intros _. eexists. split; [|done].
  assert (max_of (fr_update_seq <$> first :: rest) ∈ fr_update_seq <$> first :: rest) as (top & Ht & Htop)%list_elem_of_fmap by (by apply max_of_in).
  assert (∀ f, f ∈ frames ↔ f ∈ first :: rest) as Hin by (intros; by rewrite Hp).
  exists first, top. split; [apply Hin; by left|]. split; [intros f Hf%Hin; by apply (ascending_head first rest)|].
  split; [by apply Hin|]. split; [|by rewrite Ht]. intros f Hf%Hin. rewrite <- Ht. apply max_of_upper. by apply list_elem_of_fmap_2.
Qed.

Lemma certified_filter drain_ns rec :
  (if cr_movement_start_ns rec =? 0 then []
   else filter (λ f, cr_movement_start_ns rec ≤ fr_ts_ns f ∧ fr_ts_ns f ≤ cr_movement_end_ns rec + drain_ns) (echoes rec)) = certified drain_ns rec.
Proof.
  unfold certified. destruct (Z.eqb_spec (cr_movement_start_ns rec) 0) as [->|Hne].
  - induction (echoes rec) as [|f l IH]; [done|]. rewrite filter_cons, decide_False by tauto. done.
  - apply list_filter_iff. intros f. tauto.
Qed.

Lemma client_depth_exact drain_s drain_ns rec events :
  int_of_double (fmul drain_s BILLION) = Ok drain_ns → reader_events (cr_name rec) 100000 = Ok events →
  ∃ out, client_depth drain_s rec = Ok out ∧ depth_spec drain_ns rec out.
Proof.
  intros Hd He. unfold client_depth. rewrite He, Hd. cbn [mbind result_bind]. rewrite map_result_events. cbn [mbind result_bind].
  match goal with |- context [concat ?l] => assert (concat l = echoes rec) as ->
    by (unfold echoes; rewrite He; clear; induction events as [|e events IH]; [done|]; cbn; by rewrite IH) end.
  rewrite certified_filter.
  pose proof (certified_missing_exact (certified drain_ns rec) (cr_inputs_submitted rec)
    (Z.of_nat (size (list_to_set (fr_input_tick <$> echoes rec) : gset Z)))) as Hc.
  assert (certified drain_ns rec = [] → ∀ o, count_certified_missing (certified drain_ns rec) (cr_inputs_submitted rec) o =
    (cr_inputs_submitted rec, false)) as Hn by (by intros ->).
  destruct (count_certified_missing _ _ _) as [missing fallback] eqn:Ec. eexists. split; [done|].
  assert (certified drain_ns rec = [] → missing = cr_inputs_submitted rec ∧ fallback = false) as Hn'.
  { intros H0. rewrite Hn in Ec by done. by injection Ec. }
  destruct (decide (length (certified drain_ns rec) = 0%nat)) as [H0%nil_length_inv|H0].
  - destruct (Hn' H0) as [-> ->]. split; cbn; try done. split; [done|]. by intros [? _].
  - assert (certified drain_ns rec ≠ []) as H1 by (intros H; by rewrite H in H0). destruct (Hc H1) as (C1 & C2 & C3).
    split; cbn; try done; tauto.
Qed.

(** C23: For clients whose history can be read and a finite drain, collecting
    depth never raises, whatever the payloads are: observed counts the
    distinct ticks of the client's own decoded records, the certified loss is
    all inputs without an echo in the interval, the event-count loss when no
    counter was minted, and otherwise what is left after the counter's advance
    from the earliest echo to its highest value, never negative; the series
    holds the interval's echoes up to the end of the movement. *)
Theorem depth_exact drain_s drain_ns instrumented :
  int_of_double (fmul drain_s BILLION) = Ok drain_ns →
  Forall (λ rec, ∃ events, reader_events (cr_name rec) 100000 = Ok events) instrumented →
  ∃ outs, collect_depth_metrics instrumented drain_s =
      Ok (sum_of cr_inputs_submitted instrumented, sum_of dr_observed outs.*1, outs.*2, outs.*1) ∧
    Forall2 (depth_spec drain_ns) instrumented outs.
Proof.
  intros Hd Ha. unfold collect_depth_metrics. rewrite Forall_forall in Ha.
  destruct (map_result_Forall2 (client_depth drain_s) (depth_spec drain_ns) instrumented) as (outs & -> & HF).
  { intros rec [events He]%Ha. by apply (client_depth_exact _ _ _ events). }
  exists outs. split; [|done]. cbn [mbind result_bind]. do 4 f_equal.
  rewrite <- (sum_of_Forall2 cr_inputs_submitted (λ o, dr_submitted o.1) _ _ _ HF) by (intros rec o Ho; apply Ho).
  clear. induction outs as [|o outs IH]; [done|]. cbn [fmap list_fmap]. by rewrite !sum_of_cons, IH.
Qed.
End Rows.
