(* ===== verification/Orchestrator.v ===== *)
(** * The scenario orchestrator ([tools/agent/orchestrator.py])

    A registry of clients: capturing what a cohort observed, waiting for an
    event of a client, and following each client's bounded event history into
    the correlator.  A client is anything with the operations of
    [ManagedClient]; its events are objects, compared by identity. *)

From S2P Require Import Prelude PyStruct PyText PyFloat PyJson PyWire PyArith GapLedger Replication Correlator AgentControl Evidence Roster Depth.

#[local] Open Scope Z_scope.

(** An event object: its identity and its value. *)
Abbreviation event_object := (Z * ClientEvent)%type.

(** The operations of a client the orchestrator reads. *)
Class ManagedClient (C : Type) := {
  mc_query_status : C → result ClientStatus;
  mc_snapshot_view_window : C → option WindowSnapshot;
  mc_recent_events : C → Z → result (list event_object);
  mc_evidence_span_ns : C → result (option Z);
  mc_replication_count : C → Z;
  mc_retire_view_window : C → result C;
}.

Definition _EVENT_POLL_COUNT : Z := 100000.

(** ** Captured evidence *)

Record _ClientEvidence := mkClientEvidence {
  ev_status : ClientStatus;
  ev_window : option WindowSnapshot;
  ev_events : list ClientEvent;
  ev_span_ns : option Z;
  ev_replication_count : Z;
}.

(** The captured clients, and the windows reduced so far. *)
Record EvidenceSnapshot := mkEvidenceSnapshot {
  es_clients : gmap pystr _ClientEvidence;
  es_windows : gmap pystr (option WindowEvidence);
}.

Definition new_snapshot (clients : gmap pystr _ClientEvidence) : EvidenceSnapshot := mkEvidenceSnapshot clients ∅.

Definition captured (client : pystr) : M EvidenceSnapshot _ClientEvidence := λ s,
  (s, match es_clients s !! client with Some c => Ok c | None => Err KeyError end).

Definition snapshot_client_state (client : pystr) : M EvidenceSnapshot ClientStatus := c ← captured client; mret (ev_status c).

(** [events[-count:] if count < len(events) else events] *)
Definition newest (count : Z) (events : list ClientEvent) : list ClientEvent :=
  if count <? zlen events then
    drop (Z.to_nat (if 0 <? count then zlen events - count else Z.min (- count) (zlen events))) events
  else events.

Definition snapshot_recent_events (client : pystr) (count : Z) : M EvidenceSnapshot (list ClientEvent) :=
  c ← captured client; mret (newest count (ev_events c)).

Definition release (c : _ClientEvidence) : _ClientEvidence :=
  mkClientEvidence (ev_status c) None (ev_events c) (ev_span_ns c) (ev_replication_count c).

Definition snapshot_window (client : pystr) : M EvidenceSnapshot (option WindowEvidence) := λ s,
  match es_windows s !! client with
  | Some w => (s, Ok w)
  | None =>
      match es_clients s !! client with
      | None => (s, Err KeyError)
      | Some c =>
          match match ev_window c with None => Ok None | Some raw => e ← evaluate raw; Ok (Some e) end with
          | Err e => (s, Err e)
          | Ok w => (mkEvidenceSnapshot (<[client := release c]> (es_clients s)) (<[client := w]> (es_windows s)), Ok w)
          end
      end
  end.

Definition snapshot_span_ns (client : pystr) : M EvidenceSnapshot (option Z) := c ← captured client; mret (ev_span_ns c).

Definition snapshot_frame_count (client : pystr) : M EvidenceSnapshot Z := c ← captured client; mret (ev_replication_count c).

(** ** Capture *)

Section Orchestrator.
Context {C : Type} `{ManagedClient C}.

Definition _require_client (clients : gmap pystr C) (name : pystr) : result C :=
  match clients !! name with Some c => Ok c | None => Err KeyError end.

Definition observe (event_clients : gset pystr) (name : pystr) (client : C) : result _ClientEvidence :=
  status ← mc_query_status client;
  events ← (if bool_decide (name ∈ event_clients) then mc_recent_events client _EVENT_POLL_COUNT else Ok []);
  span ← mc_evidence_span_ns client;
  Ok (mkClientEvidence status (mc_snapshot_view_window client) events.*2 span (mc_replication_count client)).

Fixpoint observe_all (clients : gmap pystr C) (event_clients : gset pystr) (names : list pystr) (observed : gmap pystr _ClientEvidence)
    : result (gmap pystr _ClientEvidence) :=
  match names with
  | [] => Ok observed
  | name :: names =>
      client ← _require_client clients name;
      e ← observe event_clients name client;
      observe_all clients event_clients names (<[name := e]> observed)
  end.

Definition not_final (capture_ns : Z) (e : _ClientEvidence) : bool :=
  match ev_window e with Some w => negb (final_capture capture_ns w) | None => false end.

(** In the order of the names; a retirement that raises leaves the earlier ones retired. *)
Fixpoint retire_all (names : list pystr) (clients : gmap pystr C) : gmap pystr C * result unit :=
  match names with
  | [] => (clients, Ok tt)
  | name :: names =>
      match clients !! name with
      | None => (clients, Err KeyError)
      | Some c =>
          match mc_retire_view_window c with
          | Ok c => retire_all names (<[name := c]> clients)
          | Err e => (clients, Err e)
          end
      end
  end.

Definition snapshot_clients (capture_ns : Z) (names : list pystr) (event_clients : gset pystr) (retire_windows : bool)
    : M (gmap pystr C) EvidenceSnapshot := λ clients,
  match _ ← map_result (_require_client clients) names; observe_all clients event_clients names ∅ with
  | Err e => (clients, Err e)
  | Ok observed =>
      if negb retire_windows then (clients, Ok (new_snapshot observed)) else
      if existsb (λ p, not_final capture_ns p.2) (map_to_list observed)
      then (clients, Err (ValueError [Lit "retirement requires sealed windows final at capture start"]))
      else match retire_all (rev (remove_dups (rev names))) clients with
           | (clients, Ok _) => (clients, Ok (new_snapshot observed))
           | (clients, Err e) => (clients, Err e)
           end
  end.
End Orchestrator.

(** ** Waiting for an event *)

(** One poll from a cursor: the first matching event at or after it, and the new cursor. *)
Fixpoint scan_events (type_id : Z) (index : Z) (events : list ClientEvent) : option (Z * ClientEvent) :=
  match events with
  | [] => None
  | e :: events => if ce_type_id e =? type_id then Some (index, e) else scan_events type_id (index + 1) events
  end.

Definition poll_once (type_id : Z) (cursor : Z) (events : list ClientEvent) : Z * option ClientEvent :=
  let cursor := if zlen events <? cursor then 0 else cursor in
  match scan_events type_id cursor (drop (Z.to_nat cursor) events) with
  | Some (index, e) => (index + 1, Some e)
  | None => (zlen events, None)
  end.

(** Each poll sees the history then and whether the deadline has passed; the polls are those of the call. *)
Fixpoint wait_for_event (type_id : Z) (cursor : Z) (polls : list (list ClientEvent * bool)) : Z * option ClientEvent :=
  match polls with
  | [] => (cursor, None)
  | (events, late) :: polls =>
      match poll_once type_id cursor events with
      | (cursor, Some e) => (cursor, Some e)
      | (cursor, None) => if late then (cursor, None) else wait_for_event type_id cursor polls
      end
  end.

(** ** Following a history *)

(** [range(len(events) - 1, -1, -1)]: the newest position of an object. *)
Fixpoint find_from (target : Z) (index : Z) (reversed : list event_object) : Z :=
  match reversed with
  | [] => -1
  | e :: reversed => if fst e =? target then index else find_from target (index - 1) reversed
  end.
Definition _find_position (events : list event_object) (target : Z) : Z := find_from target (zlen events - 1) (rev events).

(** The new events of one client, and the object last ingested. *)
Definition follow (last_ingested : option Z) (events : list event_object) : list event_object * option Z :=
  match events with
  | [] => ([], last_ingested)
  | _ =>
      let new_events := match last_ingested with
        | None => events
        | Some target => let pos := _find_position events target in if pos <? 0 then events else drop (Z.to_nat (pos + 1)) events
        end in
      (new_events, fst <$> last events)
  end.

(** One round over the clients in registration order, each with the clock's reading; a client whose history cannot be read is skipped. *)
Fixpoint _ingest_clients (histories : list (pystr * Z * result (list event_object))) (last_ingested : gmap pystr (option Z))
    (correlator : EventCorrelator) : gmap pystr (option Z) * EventCorrelator * result unit :=
  match histories with
  | [] => (last_ingested, correlator, Ok tt)
  | (_, _, Err (KithClientError _ _)) :: histories => _ingest_clients histories last_ingested correlator
  | (_, _, Err e) :: _ => (last_ingested, correlator, Err e)
  | (_, _, Ok []) :: histories => _ingest_clients histories last_ingested correlator
  | (name, now, Ok events) :: histories =>
      let '(new_events, seen) := follow (default None (last_ingested !! name)) events in
      _ingest_clients histories (<[name := seen]> last_ingested)
        (match new_events with [] => correlator | _ => ingest_client_batch now name new_events.*2 correlator end)
  end.
