(* ===== verification/OrchestratorTheorems.v ===== *)
(** * The orchestrator: frozen captures and followed histories

    A captured cohort answers as a fixed reader whatever is read and in
    whatever order, and following bounded histories hands the correlator each
    event they kept, once. *)

From S2P Require Import Prelude PyStruct PyText PyFloat PyJson PyWire PyArith GapLedger Replication Correlator AgentControl Evidence Roster Depth Orchestrator.

#[local] Open Scope Z_scope.

(** ** Captures *)

Section Frozen.
Context (clients : gmap pystr _ClientEvidence).

Definition of_client {A} (f : _ClientEvidence → result A) (name : pystr) : result A :=
  match clients !! name with Some c => f c | None => Err KeyError end.

(** What a capture stands for: each answer a function of the client. *)
#[global] Instance frozen : EvidenceReader := {
  client_state := of_client (λ c, Ok (ev_status c));
  reader_events name count := of_client (λ c, Ok (newest count (ev_events c))) name;
  reader_window := of_client (λ c, match ev_window c with None => Ok None | Some raw => e ← evaluate raw; Ok (Some e) end);
  evidence_span := of_client (λ c, Ok (ev_span_ns c));
  replication_frame_count := of_client (λ c, Ok (ev_replication_count c));
}.

(** One read of a capture, and its answer. *)
Inductive read := RState (name : pystr) | REvents (name : pystr) (count : Z) | RWindow (name : pystr) | RSpan (name : pystr) | RCount (name : pystr).
Inductive answer := AState (s : ClientStatus) | AEvents (es : list ClientEvent) | AWindow (w : option WindowEvidence) | ASpan (n : option Z) | ACount (n : Z).

Definition answering {A} (f : A → answer) (r : result A) : result answer := x ← r; Ok (f x).

Definition perform_read (r : read) : M EvidenceSnapshot answer :=
  match r with
  | RState n => x ← snapshot_client_state n; mret (AState x)
  | REvents n k => x ← snapshot_recent_events n k; mret (AEvents x)
  | RWindow n => x ← snapshot_window n; mret (AWindow x)
  | RSpan n => x ← snapshot_span_ns n; mret (ASpan x)
  | RCount n => x ← snapshot_frame_count n; mret (ACount x)
  end.

Definition frozen_read (r : read) : result answer :=
  match r with
  | RState n => answering AState (client_state n)
  | REvents n k => answering AEvents (reader_events n k)
  | RWindow n => answering AWindow (reader_window n)
  | RSpan n => answering ASpan (evidence_span n)
  | RCount n => answering ACount (replication_frame_count n)
  end.

Fixpoint perform_reads (rs : list read) (s : EvidenceSnapshot) : EvidenceSnapshot * list (result answer) :=
  match rs with
  | [] => (s, [])
  | r :: rs => let '(s, a) := perform_read r s in let '(s, l) := perform_reads rs s in (s, a :: l)
  end.

(** A capture part of whose windows are reduced: the others are as captured. *)
Record captures (s : EvidenceSnapshot) : Prop := {
  ca_same name : release <$> es_clients s !! name = release <$> clients !! name;
  ca_raw name : es_windows s !! name = None → es_clients s !! name = clients !! name;
  ca_reduced name w : es_windows s !! name = Some w → reader_window name = Ok w;
}.

Lemma captured_field {A} (f : _ClientEvidence → A) s name : captures s → (∀ c, f (release c) = f c) →
  (c ← captured name; mret (f c)) s = (s, of_client (λ c, Ok (f c)) name).
Proof.
  intros Hs Hf. pose proof (ca_same s Hs name) as Hc. unfold of_client, captured. rewrite bind_run.
  destruct (es_clients s !! name) as [c|], (clients !! name) as [c'|]; try done.
  apply (inj Some) in Hc. unfold mret, M_ret. by rewrite <- (Hf c), <- (Hf c'), Hc.
Qed.

Lemma window_read s name : captures s → let '(s', r) := snapshot_window name s in captures s' ∧ r = reader_window name.
Proof.
  intros Hs. unfold snapshot_window. destruct (es_windows s !! name) as [w|] eqn:Ew.
  { split; [done|]. symmetry. by apply (ca_reduced s Hs). }
  rewrite (ca_raw s Hs name Ew). cbn [reader_window frozen]. unfold of_client at 1.
  assert (∀ c w, clients !! name = Some c → reader_window name = Ok w →
    captures (mkEvidenceSnapshot (<[name := release c]> (es_clients s)) (<[name := w]> (es_windows s)))) as Hnext.
  { intros c w Hc Hw. split; cbn; intros n.
    - destruct (decide (name = n)) as [<-|Hne]; [by rewrite lookup_insert_eq, Hc|].
      rewrite lookup_insert_ne by done. apply (ca_same s Hs).
    - destruct (decide (name = n)) as [<-|Hne]; [by rewrite lookup_insert_eq|].
      rewrite !lookup_insert_ne by done. apply (ca_raw s Hs).
    - intros w'. destruct (decide (name = n)) as [<-|Hne]; [rewrite lookup_insert_eq; by intros [= <-]|].
      rewrite lookup_insert_ne by done. apply (ca_reduced s Hs). }
  cbn [reader_window frozen] in Hnext. unfold of_client in *. destruct (clients !! name) as [c|] eqn:Ec; [|done].
  destruct (match ev_window c with None => _ | Some _ => _ end) as [w|e] eqn:Er; [|done]. split; [|done]. by apply Hnext.
Qed.

Lemma read_exact r s : captures s → let '(s', a) := perform_read r s in captures s' ∧ a = frozen_read r.
Proof.
  intros Hs. destruct r as [n|n k|n|n|n]; cbn [perform_read frozen_read]; rewrite bind_run.
  3:{ pose proof (window_read s n Hs) as Hw. destruct (snapshot_window n s) as [s' [w|e]]; destruct Hw as [Hs' <-]; done. }
  all: unfold snapshot_client_state, snapshot_recent_events, snapshot_span_ns, snapshot_frame_count.
  - rewrite (captured_field ev_status) by done. cbn. by destruct (of_client _ n).
  - rewrite (captured_field (λ c, newest k (ev_events c))) by done. cbn. by destruct (of_client _ n).
  - rewrite (captured_field ev_span_ns) by done. cbn. by destruct (of_client _ n).
  - rewrite (captured_field ev_replication_count) by done. cbn. by destruct (of_client _ n).
Qed.

(** C18: A captured cohort is a fixed reader: for any sequence of reads of any
    clients, in any order, each answer is a function of the captured
    observation alone, although windows are reduced on first use, kept, and
    their frames released. *)
Theorem snapshot_refines_reader rs : snd (perform_reads rs (new_snapshot clients)) = map frozen_read rs.
Proof.
  assert (captures (new_snapshot clients)) as Hs by (by split).
  revert Hs. generalize (new_snapshot clients) as s. induction rs as [|r rs IH]; intros s Hs; [done|].
  cbn [perform_reads map]. pose proof (read_exact r s Hs) as Hr. destruct (perform_read r s) as [s1 a]. destruct Hr as [Hs1 ->].
  specialize (IH s1 Hs1). destruct (perform_reads rs s1) as [s2 l]. cbn in *. by rewrite IH.
Qed.
End Frozen.

(** ** Histories *)

(** A bounded history keeps the newest events of a log. *)
Definition lastn {A} (n : nat) (l : list A) : list A := drop (length l - n) l.

Lemma lastn_short {A} n (l : list A) : (length l ≤ n)%nat → lastn n l = l.
Proof. intros Hl. unfold lastn. by replace (length l - n)%nat with 0%nat by lia. Qed.

Lemma lastn_app {A} n (l k : list A) : lastn n (l ++ k) = lastn (n - length k) l ++ lastn n k.
Proof.
  unfold lastn. rewrite drop_app, length_app. f_equal; [|f_equal; lia]. destruct (decide (length k ≤ n)%nat); [f_equal; lia|].
  by rewrite !drop_ge by lia.
Qed.

Lemma absent_rev (t : Z) (l : list event_object) : t ∉ l.*1 → t ∉ (rev l).*1.
Proof.
  intros Hn (y & -> & Hy)%list_elem_of_fmap. apply Hn, list_elem_of_fmap_2. by rewrite list_elem_of_In, in_rev, <- list_elem_of_In.
Qed.

Lemma find_absent target index l : target ∉ l.*1 → find_from target index l = -1.
Proof.
  revert index. induction l as [|e l IH]; intros index Hn; [done|]. cbn [find_from]. cbn in Hn. apply not_elem_of_cons in Hn as [Hne Hn].
  rewrite (proj2 (Z.eqb_neq _ _)) by done. by apply IH.
Qed.

Lemma find_present x pre post : x.1 ∉ post.*1 → _find_position (pre ++ x :: post) x.1 = zlen pre.
Proof.
  intros Hn. unfold _find_position. rewrite rev_app_distr. cbn [rev]. rewrite <- app_assoc.
  apply absent_rev in Hn as Hn'. clear Hn.
  assert (zlen (pre ++ x :: post) - 1 = zlen pre + zlen (rev post)) as -> by (unfold zlen; rewrite length_app, length_rev; cbn; lia).
  induction (rev post) as [|e l IH]; cbn [find_from app].
  - rewrite Z.eqb_refl. unfold zlen. cbn. lia.
  - cbn in Hn'. apply not_elem_of_cons in Hn' as [Hne Hn']. rewrite (proj2 (Z.eqb_neq _ _)) by done.
    replace (zlen pre + zlen (e :: l) - 1) with (zlen pre + zlen l) by (unfold zlen; cbn; lia). by apply IH.
Qed.

(** The identity of the object a follower holds is not given to a later event. *)
Definition held_apart (log inc : list event_object) : Prop := ∀ x, last log = Some x → x.1 ∉ inc.*1.

Lemma follow_exact cap log inc : (0 < cap)%nat → held_apart log inc →
  follow (fst <$> last log) (lastn cap (log ++ inc)) = (lastn cap inc, fst <$> last (log ++ inc)).
Proof.
  intros Hcap Hh. unfold follow.
  assert (∀ l : list event_object, l ≠ [] → lastn cap l ≠ [] ∧ last (lastn cap l) = last l) as Hlast.
  { intros l Hl. unfold lastn. destruct l as [|a l] using rev_ind; [done|]. rewrite length_app, drop_app_le by (cbn; lia).
    rewrite !last_snoc. split; [|done]. by intros [_ ?]%app_nil. }
  destruct (decide (length (log ++ inc) = 0%nat)) as [H0%nil_length_inv|H0].
  { apply app_nil in H0 as [-> ->]. done. }
  destruct (Hlast (log ++ inc)) as [Hne Hl]; [by intros E; rewrite E in H0|].
  destruct (lastn cap (log ++ inc)) as [|e events] eqn:Ee; [done|]. rewrite <- Ee in *. clear Hne. rewrite Hl. f_equal.
  destruct log as [|x log _] using rev_ind; [done|]. rewrite last_snoc. cbn [fmap option_fmap option_map].
  specialize (Hh x ltac:(apply last_snoc)). rewrite <- app_assoc. cbn [app].
  destruct (decide (length inc < cap)%nat) as [Hs|Hs].
  - rewrite (lastn_app cap log (x :: inc)), (lastn_short cap (x :: inc)) by (cbn; lia). rewrite find_present by done.
    rewrite (proj2 (Z.ltb_ge _ _)) by (unfold zlen; lia). rewrite (lastn_short cap inc) by lia.
    set (pre := lastn _ log). rewrite drop_app_ge by (unfold zlen; lia).
    replace (Z.to_nat (zlen pre + 1) - length pre)%nat with 1%nat by (unfold zlen; lia). done.
  - rewrite cons_middle, app_assoc, lastn_app. replace (cap - length inc)%nat with 0%nat by lia.
    assert (lastn 0 (log ++ [x]) = []) as -> by (unfold lastn; rewrite Nat.sub_0_r; apply drop_ge; lia). cbn [app].
    unfold _find_position. rewrite find_absent; [done|]. apply absent_rev. intros (y & Hy & Hin)%list_elem_of_fmap. apply Hh. rewrite Hy.
    apply list_elem_of_fmap_2. unfold lastn in Hin. rewrite <- (take_drop (length inc - cap) inc). set_solver.
Qed.

(** One client's turn in a round: its name, the clock's reading and the events it saw since its last turn. *)
Abbreviation turn := (pystr * Z * list event_object)%type.
Abbreviation logs := (gmap pystr (list event_object)).

Definition log_of (ls : logs) (name : pystr) : list event_object := default [] (ls !! name).
Definition grow (ls : logs) (t : turn) : logs := let '(name, _, inc) := t in <[name := log_of ls name ++ inc]> ls.

(** The histories the clients hold when a round reads them; each client has a size of its own. *)
Fixpoint histories (cap : pystr → nat) (ls : logs) (round : list turn) : list (pystr * Z * result (list event_object)) :=
  match round with
  | [] => []
  | (name, now, inc) :: round => (name, now, Ok (lastn (cap name) (log_of ls name ++ inc))) :: histories cap (grow ls (name, now, inc)) round
  end.

Fixpoint ingest_rounds (cap : pystr → nat) (ls : logs) (last_ingested : gmap pystr (option Z)) (correlator : EventCorrelator) (rounds : list (list turn))
    : EventCorrelator * result unit :=
  match rounds with
  | [] => (correlator, Ok tt)
  | round :: rounds =>
      match _ingest_clients (histories cap ls round) last_ingested correlator with
      | (last_ingested, correlator, Ok _) => ingest_rounds cap (foldl grow ls round) last_ingested correlator rounds
      | (_, correlator, Err e) => (correlator, Err e)
      end
  end.

(** What the correlator should be fed: of the new events of each turn, those the history kept. *)
Definition feed (cap : pystr → nat) (c : EventCorrelator) (t : turn) : EventCorrelator :=
  let '(name, now, inc) := t in
  match lastn (cap name) inc with [] => c | new => ingest_client_batch now name new.*2 c end.

Fixpoint held (ls : logs) (turns : list turn) : Prop :=
  match turns with [] => True | t :: turns => held_apart (log_of ls t.1.1) t.2 ∧ held (grow ls t) turns end.

Definition follows (ls : logs) (last_ingested : gmap pystr (option Z)) : Prop :=
  ∀ name, default None (last_ingested !! name) = fst <$> last (log_of ls name).

Lemma round_exact cap ls seen c round : (∀ name, (0 < cap name)%nat) → follows ls seen → held ls round →
  ∃ seen', _ingest_clients (histories cap ls round) seen c = (seen', foldl (feed cap) c round, Ok tt) ∧ follows (foldl grow ls round) seen'.
Proof.
  intros Hcap. revert ls seen c. induction round as [|[[name now] inc] round IH]; intros ls seen c Hf Hh; [by exists seen|].
  destruct Hh as [Hx Hh]. cbn [fst snd] in Hx. cbn [histories foldl _ingest_clients]. pose proof (follow_exact (cap name) _ inc (Hcap name) Hx) as Hfol.
  destruct (lastn (cap name) (log_of ls name ++ inc)) as [|e events] eqn:Ee.
  - cbn in Hfol. injection Hfol as Hnew Hlast. unfold feed at 2. rewrite <- Hnew. apply IH; [|done].
    intros n. unfold log_of, grow. destruct (decide (name = n)) as [<-|Hne].
    + rewrite lookup_insert_eq. cbn. rewrite Hf. done.
    + rewrite lookup_insert_ne by done. apply Hf.
  - rewrite Hf, Hfol.
    assert (feed cap c (name, now, inc) = match lastn (cap name) inc with [] => c | _ => ingest_client_batch now name (lastn (cap name) inc).*2 c end) as ->
      by (unfold feed; by destruct (lastn (cap name) inc)).
    apply IH; [|done]. intros n. unfold log_of, grow. destruct (decide (name = n)) as [<-|Hne].
    + by rewrite !lookup_insert_eq.
    + rewrite !lookup_insert_ne by done. apply Hf.
Qed.

Lemma held_app ls l k : held ls (l ++ k) ↔ held ls l ∧ held (foldl grow ls l) k.
Proof. revert ls. induction l as [|t l IH]; intros ls; cbn [app held foldl]; [tauto|]. rewrite IH. tauto. Qed.

(** C24: Whatever rounds the clients are polled in, and whatever size each
    client's bounded history has, the ingest feeds the correlator, for each
    poll, exactly the events that arrived since the client's previous poll and
    that its history still holds, in order: none twice, and none lost unless
    more arrived than the history holds. (Every history holds at least one
    event, no poll fails, and an event object the follower still refers to
    does not share its identity with a later one.) *)
Theorem ingest_exactly_once cap rounds correlator : (∀ name, (0 < cap name)%nat) → held ∅ (concat rounds) →
  ingest_rounds cap ∅ ∅ correlator rounds = (foldl (feed cap) correlator (concat rounds), Ok tt).
Proof.
  intros Hcap. assert (follows ∅ ∅) as Hf by (intros n; unfold log_of; by rewrite !lookup_empty).
  revert Hf. generalize (∅ : logs) as ls, (∅ : gmap pystr (option Z)) as seen. revert correlator.
  induction rounds as [|round rounds IH]; intros c ls seen Hf Hh; [done|]. cbn [concat] in *. apply held_app in Hh as [H1 H2].
  cbn [ingest_rounds]. destruct (round_exact cap ls seen c round Hcap Hf H1) as (seen' & -> & Hf'). rewrite foldl_app. by apply IH.
Qed.

(** Where no turn brings more than the history holds, nothing is lost. *)
Lemma feed_all cap c t : (length t.2 ≤ cap t.1.1)%nat →
  feed cap c t = match t.2 with [] => c | new => ingest_client_batch t.1.2 t.1.1 new.*2 c end.
Proof. destruct t as [[name now] inc]. cbn. intros Hl. by rewrite lastn_short. Qed.
