(* ===== verification/HarnessExamples.v ===== *)
(** * Load runs and control planes in the small

    The theorems of the gap ledger, of the harness and of its control client on
    concrete runs, and runs that show what the code does where its comments say
    otherwise. *)

From S2P Require Import Prelude PyStruct PyText PyFloat PyJson PyWire PyArith GapLedger LedgerTheorems Replication Correlator Spatial AgentControl Evidence Roster RosterTheorems Depth Breadth CensusTheorems DepthTheorems Orchestrator OrchestratorTheorems ServerControl ServerControlTheorems.

#[local] Open Scope Z_scope.

Definition ms (n : Z) : Z := n * 1000000.

Definition sample_series (name : string) (inst : Z) (arrivals : list (Z * Z)) : ClientSeries :=
  mkSeries (str name) inst 0 (ms 2000) ((λ '(t, tick), mkFrame (ms t) tick tick) <$> arrivals).

Definition stalled : list ClientSeries :=
  [sample_series "a" 0 [(50, 1); (100, 2); (500, 3); (550, 4)];
   sample_series "b" 0 [(60, 1); (110, 2); (520, 3); (900, 4)];
   sample_series "c" 1 [(300, 7); (350, 8)]].

Definition cluster_summary (r : GapClusterRecord) : Z * Z * Z * Z * list Z :=
  (gc_instance_index r, gc_start_ns r / 1000000, gc_end_ns r / 1000000, gc_participants r, gc_first_ticks r).

(** The stalls from 100 and 110 ms overlap; the one from 520 ms starts within
    the tolerance of their end. *)
Lemma stalled_clusters :
  (rs ← cluster_gaps stalled GAP_THRESHOLD_MS _CLUSTER_TOLERANCE_MS; Ok (map cluster_summary rs)) =
  Ok [(0, 100, 900, 2, [3; 4]); (1, 0, 300, 1, [7])].
Proof. vm_compute. reflexivity. Qed.

Lemma cluster_gaps_linkage_witness : ∃ rss, cluster_gaps stalled GAP_THRESHOLD_MS _CLUSTER_TOLERANCE_MS = Ok (concat rss) ∧
    Forall2 (instance_linkage GAP_THRESHOLD_MS (fmul _CLUSTER_TOLERANCE_MS MILLION) (fmul _CATCHUP_WINDOW_MS MILLION)) (instances stalled) rss ∧
    (∀ i entries, (i, entries) ∈ instances stalled → entries = filter (λ s, se_instance_index s = i) stalled).
Proof.
  apply cluster_gaps_linkage.
  repeat constructor.
Defined.

Lemma percentile_nearest_rank_witness :
  ∃ v, v ∈ [3; 5; 5; 9] ∧ _percentile [3; 5; 5; 9] 95 = to_float v ∧
    95 * Z.of_nat (length [3; 5; 5; 9]) ≤ 100 * Z.of_nat (length (filter (λ x, x ≤ v) [3; 5; 5; 9])) ∧
    100 * Z.of_nat (length (filter (λ x, x < v) [3; 5; 5; 9])) < 95 * Z.of_nat (length [3; 5; 5; 9]).
Proof. apply percentile_nearest_rank; [done|reflexivity|lia]. Defined.

(** ** Control plane *)

Definition ascii (s : string) : bytes := match latin1_encode (str s) with Ok b => b | Err _ => [] end.
Definition no_text (_ : exn) : pystr := [].

Definition brief : reply := mkReply 200 (ascii "HTTP/1.1 200 OK" ++ [x0d; x0a]) [ascii "Content-Length: 2" ++ [x0d; x0a]] (ascii "{}").
Definition peer (seg : list reply) : option conn := Some (mkConn (concat (reply_bytes <$> seg)) Eof false false []).
Definition two_connections : control := mkControl (str "localhost") 80 None [peer [brief; brief]; peer [brief]] [].
Definition health_get : request := mkRequest (str "GET") (str "/health") (str "*/*") None None.

(** Three requests over two connections, the first closed after two replies. *)
Lemma control_requests_exact_witness :
  snd (requests no_text (replicate 3 health_get) two_connections) = Ok [(200, ascii "{}"); (200, ascii "{}"); (200, ascii "{}")].
Proof.
  apply (control_requests_exact no_text two_connections (replicate 3 health_get) [[brief; brief]; [brief]]).
  - reflexivity.
  - repeat constructor; (eexists; split; [reflexivity|]; split; [by repeat split|discriminate]).
  - apply Forall_forall. intros r Hr. assert (r = brief) as -> by set_solver. split; try reflexivity.
    + exists (ascii "HTTP/1.1 200 OK" ++ [x0d]). split; [reflexivity|]. split; [|apply Nat.leb_le; vm_compute; reflexivity].
      rewrite list_elem_of_In. intros H. vm_compute in H. intuition discriminate.
    + repeat constructor.
      * exists (ascii "Content-Length: 2" ++ [x0d]). split; [reflexivity|]. split; [|apply Nat.leb_le; vm_compute; reflexivity].
        rewrite list_elem_of_In. intros H. vm_compute in H. intuition discriminate.
      * intros H. unfold blank in H. rewrite list_elem_of_In in H. vm_compute in H. intuition discriminate.
    + vm_compute. discriminate.
  - reflexivity.
  - repeat constructor; eexists; reflexivity.
Defined.

(** A malformed reply to the retried request is reported, but its connection is kept: the next request is answered with what was left on it. *)
Definition stale : reply := mkReply 503 (ascii "HTTP/1.1 503 Stale" ++ [x0d; x0a]) [ascii "Content-Length: 2" ++ [x0d; x0a]] (ascii "[]").
Definition garbled : control :=
  mkControl (str "localhost") 80 None
    [peer []; Some (mkConn (ascii "garbage" ++ [x0d; x0a] ++ reply_bytes stale) Eof false false []); peer [brief]] [].

Lemma retry_leaves_stale :
  let '(c, r) := issue no_text health_get garbled in
  match r with Err (ServerControlError _) => true | _ => false end = true ∧ snd (issue no_text health_get c) = Ok (503, ascii "[]").
Proof. vm_compute. by split. Qed.

(** ** Paged reads *)

Definition forty_actors : list Actor := (λ i, mkActor i (i * 1000) 0 0 0 0 0 0 0 0) <$> seqZ 1 40.
Definition forty_bindings : list (Z * Z) * Z * Z := ((λ i, (100 + i, i)) <$> seqZ 1 40, 0, 0).
Definition direct_get (path : pystr) : M unit json_dict := λ w,
  (w, match serve (get_routes (λ _, None) forty_actors forty_bindings) path with
      | Ok (200, JObj body) => Ok body
      | Ok _ => Err (ServerControlError [])
      | Err e => Err e
      end).

Lemma paged_reads_complete_witness :
  snd (roster_positions direct_get no_text 2 tt) = Ok (positions_of forty_actors ∅) ∧
  snd (principal_bindings direct_get no_text 2 tt) = Ok (list_to_map forty_bindings.1.1).
Proof.
  destruct (paged_reads_complete direct_get no_text forty_actors (λ _, None) forty_bindings tt tt) as [H1 H2].
  - intros path w body Hr. exists w. unfold direct_get. rewrite Hr. reflexivity.
  - vm_compute. reflexivity.
  - vm_compute. reflexivity.
  - split; [exact H1|]. rewrite decide_True in H2; [exact H2|]. apply (bool_decide_unpack _). vm_compute. exact I.
Defined.

(** ** Census and depth *)

Definition status_ready : ClientStatus := mkStatus true 2 0 0 0 0.
Definition ids_of_frame (_ : Z) (payload : bytes) : list Z := byte_to_Z <$> payload.

(** A sealed window whose frames are a second apart, or one with a gap of three. *)
Definition window_with (frames : list retained) : option WindowSnapshot := Some (mkSnapshot frames (Some 10) (Some 9000000000) false (Some ids_of_frame)).
Definition steady : option WindowSnapshot := window_with [(1000000000, 5, [x01; x02]); (2000000000, 5, [x03])].
Definition broken : option WindowSnapshot := window_with [(1000000000, 5, [x01; x02]); (4000000000, 5, [x03])].
Definition thin : option WindowSnapshot := window_with [(1000000000, 5, [x01])].

Definition seen_as (w : option WindowSnapshot) : _ClientEvidence := mkClientEvidence status_ready w [] (Some 1000000000) 2.
Definition cohort : gmap pystr _ClientEvidence :=
  {[str "a" := seen_as steady; str "b" := seen_as broken; str "c" := seen_as thin; str "d" := seen_as None; str "e" := seen_as steady]}.

Definition member_of (name : string) (actor instance : Z) : ClientRecord := mkRecord (str name) 100 true false actor 1 2 5 instance 10 20.
Definition five_records : list ClientRecord :=
  [member_of "a" 1 0; member_of "b" 2 1; member_of "c" 3 0; member_of "d" 4 1; member_of "e" 5 0].

(** All bound, the last one isolated. *)
Definition five_rows : list BreadthRow :=
  (λ rec, isolate_row (bool_decide (cr_name rec = str "e")) (bind_row false (fresh_row rec))) <$> five_records.

Lemma census_exact_witness :
  (∃ c, finish_breadth (E := frozen cohort) five_records five_rows 2 true true = Ok c ∧
    pooled_spec (E := frozen cohort) 2 five_records five_rows true c ∧ instances_spec five_records c) ∧
  (∃ c, finish_breadth (E := frozen cohort) five_records five_rows 2 false true = Ok c ∧
    plain_spec (E := frozen cohort) 2 five_records c ∧ instances_spec five_records c).
Proof.
  apply (census_exact (E := frozen cohort) 2 five_records five_rows true).
  - reflexivity.
  - apply (bool_decide_unpack _). vm_compute. exact I.
  - repeat (apply Forall_cons; split; [split; [|split]; eexists; vm_compute; reflexivity|]). constructor.
  - repeat constructor.
  - vm_compute. reflexivity.
Defined.

(** One client proves the bar, one stalls, one is sparse and one never opened; the isolated one saw the bar, which the verdict reports. *)
Lemma five_census :
  match finish_breadth (E := frozen cohort) five_records five_rows 2 true true with
  | Ok c => (bc_eligible_clients c, bc_selected_count c, bc_stalled_clients c, bc_sparse_clients c, bc_never_opened_clients c,
             bool_decide (bc_violation c = None), bc_instance_index <$> bc_instances c)
  | Err _ => (None, 0, 0, 0, 0, true, [])
  end = (Some 4, 1, 1, 1, 1, false, [Some 0; Some 1]).
Proof. vm_compute. reflexivity. Qed.

(** Ticks three and four were applied between two echoes, and one echo repeats. *)
Definition echoed : ClientSeries := mkSeries (str "a") 0 0 1000 [mkFrame 100 1 1; mkFrame 200 2 2; mkFrame 300 5 5; mkFrame 400 5 5].

Lemma histogram_exact_witness :
  ∃ h, echo_delta_histogram [echoed] = Ok h ∧ eh_frames h = 4 ∧
    eh_delta1 h + eh_delta2 h + eh_delta3_5 h + eh_delta6_20 h + eh_delta21_plus h + eh_regressed h = eh_frames h - 1 ∧
    eh_regressed h = 1 ∧ eh_missing_implied h = 2.
Proof.
  destruct (histogram_exact [echoed]) as (h & H1 & H2 & H3 & H4 & H5); [repeat constructor|].
  exists h. split; [exact H1|]. split; [exact H2|]. split; [exact H3|]. split; [exact H4|].
  rewrite H5; [vm_compute; reflexivity|]. repeat constructor; vm_compute; discriminate.
Defined.

(** An echo of actor 1, and a client that submitted five inputs of which the counter certifies three. *)
Definition echo (ts tick seq : Z) : ClientEvent :=
  mkClientEvent ts ACTOR_STATE_TYPE 0 (match encode_actor_state (mkView 1 0 0 0 0 0 0 tick seq 0) with Ok b => b | Err _ => [] end).
Definition echoing : gmap pystr _ClientEvidence :=
  {[str "a" := mkClientEvidence status_ready steady [echo 11 1 4; echo 15 3 6; echo 2000000000 4 7] None 3]}.

(** Two and a half seconds of drain. *)
Definition DRAIN : double := double_of_decimal false 25 (-1).

Lemma depth_exact_witness :
  ∃ outs, collect_depth_metrics (E := frozen echoing) [member_of "a" 1 0] DRAIN = Ok (5, sum_of dr_observed outs.*1, outs.*2, outs.*1) ∧
    Forall2 (depth_spec (E := frozen echoing) 2500000000) [member_of "a" 1 0] outs.
Proof.
  apply (depth_exact (E := frozen echoing) DRAIN 2500000000 [member_of "a" 1 0]).
  - vm_compute. reflexivity.
  - apply Forall_cons. split; [eexists; vm_compute; reflexivity|]. constructor.
Defined.

Lemma echoing_row :
  match collect_depth_metrics (E := frozen echoing) [member_of "a" 1 0] DRAIN with
  | Ok (_, _, series, rows) => ((λ r, (dr_observed r, dr_certified_missing r)) <$> rows, (λ s, zlen (se_frames s)) <$> series)
  | Err _ => ([], [])
  end = ([(3, 2)], [2]).
Proof. vm_compute. reflexivity. Qed.

(** A spread of one probe over a longer body divides by zero; two probes take its ends. *)
Lemma spread_of_one :
  select_spread_probe_indices 34 32 1 = Err ZeroDivisionError ∧ select_spread_probe_indices 33 32 1 = Ok [32] ∧
  select_spread_probe_indices 1000 32 2 = Ok [32; 999].
Proof. vm_compute. by repeat split. Qed.

(** ** Orchestrator *)

Definition object (id : Z) : event_object := (id, mkClientEvent id 7 0 []).

(** Two rounds of two clients with histories of two and of three events; one object's identity comes back once nothing holds it. *)
Definition two_rounds : list (list turn) :=
  [[(str "a", 100, [object 1; object 2]); (str "b", 101, [object 3])]; [(str "a", 200, [object 4]); (str "b", 201, [object 5; object 1; object 6; object 7])]].
Definition history_size (name : pystr) : nat := if decide (name = str "a") then 2 else 3.

Definition empty_correlator : EventCorrelator := mkCorrelator 1000 [] [] 0.

Lemma ingest_exactly_once_witness :
  ingest_rounds history_size ∅ ∅ empty_correlator two_rounds = (foldl (feed history_size) empty_correlator (concat two_rounds), Ok tt).
Proof.
  apply (ingest_exactly_once history_size two_rounds empty_correlator); [intros name; unfold history_size; case_decide; lia|].
  repeat split; intros x Hx; vm_compute in Hx; try discriminate; injection Hx as <-; rewrite list_elem_of_In; vm_compute; intuition discriminate.
Defined.

(** ** Correlator *)

(** A command and the server's record of it, which arrives as text, and one too old for the window of 30 seconds. *)
Definition HALF_MINUTE : double := double_of_decimal false 30 0.
Definition correlating : list operation :=
  [OpClient 100 (str "a") (mkClientEvent 50 7 9 []); OpServer 200 (str "server") 210 [(str "correlation_id", JStr (str "9")); (str "type_id", JInt 8)];
   OpClientBatch 31000000000 (str "b") [mkClientEvent 40 7 3 []; mkClientEvent 30000000000 7 9 []]; OpEvict 31000000001].

Lemma correlator_refines_witness :
  match correlator_init HALF_MINUTE with
  | Ok s0 => let '(s, rs) := run_ops correlating s0 in
      answers s (foldl (spec_perform (_window_ns s0)) [] correlating) ∧ rs = replicate (length correlating) (Ok tt)
  | Err _ => False
  end.
Proof.
  apply (correlator_refines HALF_MINUTE (mkCorrelator 30000000000 [] [] 0) correlating).
  - vm_compute. reflexivity.
  - repeat constructor.
Defined.

(** Only the last event is left. *)
Lemma correlating_left :
  (λ e, (source e, ts_mono_ns e)) <$> find_by_correlation 9 (run_ops correlating (mkCorrelator 30000000000 [] [] 0)).1 = [(str "b", 30000000000)].
Proof. vm_compute. reflexivity. Qed.

(** With a full history the cursor of a wait stands at its end: an event that arrives, and turns the oldest out, is never returned. *)
Definition message (type_id : Z) : ClientEvent := mkClientEvent 0 type_id 0 [].

Lemma full_history_waits :
  let full := [message 1; message 1; message 1] in
  let turned := [message 1; message 1; message 9] in
  let '(cursor, _) := wait_for_event 9 0 [(full, true)] in wait_for_event 9 cursor [(turned, false); (turned, true)] = (3, None).
Proof. reflexivity. Qed.
